(* ===== verification/_CoqProject ===== *)
-Q . S2P
Prelude.v
Common.v
Endian.v
Checksum.v
Bits.v
PacketBuf.v
Encap.v
Tunnel.v
Trie.v
CuckooMap.v
PriorityQueue.v
TrafficClass.v
TrafficClassFacts.v
TrafficTree.v
Scheduler.v
TcControl.v
L2Forward.v
ExactMatch.v
WildcardMatch.v
LLRing.v
LLRingMP.v
LockLessQueue.v
Queue.v
HashTable.v
Random.v
Ip.v
Frame.v
DRR.v
TcpFlow.v
HttpParser.v
ChunkedDecoder.v
UrlFilter.v
NatStamp.v
StaticNat.v
Rewriters.v
Codel.v
NAT.v
Gate.v
ModuleGraph.v
TaskGraph.v
Dataflow.v
Dispatch.v
Classify.v
Editing.v
Ports.v
Histogram.v
Measuring.v
Arp.v
Metadata.v
MetadataOffsets.v
MCSLock.v
Workers.v
