(* ===== verification/Prelude.v ===== *)
(** * A verification of the core of BESS

    BESS (the Berkeley Extensible Software Switch) runs packet-processing modules that are
    connected to a graph.  This development models the parts of [src/core] that decide
    what happens to packets: when a task runs, how packets move from module to module,
    the data structures and modules that look at them, and how the control plane changes
    the graph, the scheduling tree and the workers.  Definitions are named after the
    functions, methods and types they translate.

    ** How the parts interact

    A worker thread (Workers.v) runs rounds of its scheduler (Scheduler.v), which picks a
    leaf of the tree of traffic classes (TrafficClass.v) and runs its task.  The task hands
    batches to modules along gates (Dataflow.v over Gate.v and ModuleGraph.v) in an order
    that TaskGraph.v computes.  Modules use tables (CuckooMap.v through HashTable.v,
    Trie.v), rings (LLRing.v) and the bytes of packets (PacketBuf.v, Frame.v), and
    metadata at the places that Metadata.v computes.  The control plane stops the workers
    and then changes the graph, the tree (TcControl.v) or the ports (Ports.v).

    ** Layout

    Foundations
    - Prelude.v: machine words ([u8], [u16], [u32], [u64]), lemmas and tactics that the
      other files share.
    - Common.v ([utils/common.h]), Endian.v ([utils/endian.h], [endian.cc]), Bits.v
      ([utils/bits.h]), Checksum.v ([utils/checksum.h]), Random.v ([utils/random.h]),
      Ip.v ([utils/ip.h], [ip.cc]), Histogram.v ([utils/histogram.h]).

    Containers
    - Trie.v ([utils/trie.h]), PriorityQueue.v ([utils/extended_priority_queue.h]),
      CuckooMap.v ([utils/cuckoo_map.h]).
    - HashTable.v: the interface of [CuckooMap] that modules are proved against, and its
      implementation.
    - LLRing.v, LLRingMP.v ([kmod/llring.h]): the lock-less ring called by one thread,
      and as a step relation of many threads; LockLessQueue.v ([utils/queue.h],
      [utils/lock_less_queue.h]): the queue class and its implementation over the ring.
    - Codel.v ([utils/codel.h]): controlled-delay dropping over a queue.

    Concurrency
    - MCSLock.v ([utils/mcslock.h]): the queue lock as a step relation.
    - Workers.v ([worker.h], [worker.cc], [bessctl.cc], the loop of [scheduler.h]): the
      hand-shake between workers and requests as a step relation.

    Scheduling
    - TrafficClass.v, TrafficClassFacts.v, TrafficTree.v ([traffic_class.h],
      [traffic_class.cc]): the classes of the scheduling tree and their invariant.
    - Scheduler.v ([scheduler.h]): rounds of both schedulers, the wake-up queue and the
      registry of classes.
    - TcControl.v ([bessctl.cc], [worker.cc]): the requests that change the tree.

    The pipeline
    - Gate.v ([gate.h], [gate.cc]), ModuleGraph.v ([module_graph.cc], [module.cc]): gates,
      hooks and the operations on the graph.
    - TaskGraph.v ([module_graph.cc]): what is computed after a change of the graph.
    - Dataflow.v ([task.h], [task.cc], [pktbatch.h], [module.h]): a run of a task.
    - Metadata.v, MetadataOffsets.v ([metadata.h], [metadata.cc]): the places of metadata
      attributes in packets.
    - Ports.v ([port.h], [port.cc], [bessctl.cc], the modules PortInc, PortOut, QueueInc
      and QueueOut): ports, who holds their queues, and sending.

    Packets and protocols
    - PacketBuf.v ([packet.h], [snbuf_layout.h]): the buffer of a packet, its head and
      tail room and its metadata area; Frame.v: header fields of a packet's bytes.
    - TcpFlow.v ([utils/tcp_flow_reconstruct.h]), HttpParser.v and ChunkedDecoder.v
      ([utils/http_parser.cc]).

    Modules
    - Tables: L2Forward.v, ExactMatch.v (with [utils/exact_match_table.h]),
      WildcardMatch.v, Classify.v (ACL, IPLookup).
    - Queues: Queue.v, DRR.v.
    - Addresses: NatStamp.v and NAT.v ([modules/nat.cc]), StaticNat.v, Rewriters.v (MACSwap,
      IPSwap, IPChecksum, L4Checksum, UpdateTTL), Arp.v ([utils/ether.cc], ArpResponder).
    - Headers: Encap.v (VLAN, MPLS, VXLAN, IP and Ethernet headers, GenericDecap) and
      Tunnel.v, which composes them; Editing.v (Update, RandomUpdate, Rewrite,
      GenericEncap, SetMetadata).
    - Gates: Dispatch.v (RoundRobin, Replicate, RandomSplit, HashLB, Split, WorkerSplit,
      Bypass, Merge, NoOP, Sink, Source, Buffer).
    - UrlFilter.v ([modules/url_filter.cc]), over Trie.v, TcpFlow.v and HttpParser.v.
    - Measuring.v (Timestamp, Measure), over Histogram.v.

    ** How the source is read

    Integers are [Z] with their wrap-around written out.  Pointers are addresses or
    indices; objects that are shared live in finite maps, so that aliasing is modelled.
    [None] is what the C++ standard leaves undefined (a null pointer, an access outside
    of a buffer, a shift by the width) or a failed [CHECK]; errors the source reports are
    values.  Threads are step relations with a step for each access to shared memory.

    Loops that are not structural take fuel, and each theorem states that it is enough:
    the size of the store for walks up a tree (TrafficTree.v), the size of the table for
    probes, the number of input gates for the traversals of the graph (TaskGraph.v), the
    length of the longest path times 257 for a run of a task (Dataflow.v, for modules that
    ask for a bounded number of batches), four for each module, six for each attribute and
    four more for metadata (MetadataOffsets.v), one more than the elements left for the
    loops over queues, rings, names and bytes (Queue.v, Codel.v, LockLessQueue.v, Ports.v,
    HttpParser.v; two more in ChunkedDecoder.v), and [32 * (flows + 1) + flows + 2] turns
    for the next batch of DRR.v.

    Code that is not in the repository is an argument of the definitions, with what is
    documented of it as laws: the longest-prefix table of DPDK ([Lpm] in Classify.v), the
    drivers of ports ([Driver] in Ports.v), event descriptors ([EventFd] in Workers.v),
    the CRC of DPDK ([rte_hash_crc]), [pow], the allocation of packets and rings, the
    clock, and what a task or a module of unknown kind does.

    ** What the theorems show

    - Data structures refine finite maps, queues or multisets, keep their invariants and
      neither overrun their arrays nor loop (CuckooMap.v, Trie.v, L2Forward.v,
      ExactMatch.v, WildcardMatch.v, Classify.v, LLRing.v, PriorityQueue.v,
      LockLessQueue.v).
    - Under any interleaving the ring is a FIFO and its calls return (LLRingMP.v), the lock
      excludes, is fair and does not hang (MCSLock.v), and a handler that stops the workers
      finds them blocked and gets an end (Workers.v).
    - Checksums agree with RFC 1071, the optimised loops with the plain ones, incremental
      updates with a recomputation, and the modules that rewrite packets keep the
      checksums good (Checksum.v, Bits.v, NatStamp.v, StaticNat.v, Rewriters.v, Tunnel.v).
    - The scheduling tree keeps its invariant under every operation, round and request; a
      round is work conserving, and a class wakes up when its time has passed
      (TrafficTree.v, Scheduler.v, TcControl.v).
    - The graph stays consistent under every operation, its traversals end, a run of a
      task delivers every packet once, attributes get places that do not overlap, and
      ports and queues are held by one user (ModuleGraph.v, TaskGraph.v, Dataflow.v,
      MetadataOffsets.v, Ports.v).
    - Queues lose and duplicate nothing, with counters that add up (Queue.v, DRR.v,
      Codel.v).
    - The address translator keeps a bijection between endpoints and returns packets to
      the endpoint they came from (NAT.v).
    - Streams, requests and chunked bodies come out as they were sent, whatever the cuts,
      with every read and write inside of the buffers, and the filter passes or cuts a
      connection by its request (TcpFlow.v, HttpParser.v, ChunkedDecoder.v, UrlFilter.v).

    Where the code has a case in which a property fails, the hypothesis that excludes it is
    in the property's comment, and most of these cases are lemmas or examples of their own
    (for instance [trylock_stale_node], [icmp_all_zero], [create_port_name_in_use]).

    ** Not modelled

    Drivers, the kernel module beyond its ring, start-up and options, the conversion of
    protobuf messages and the requests that only report, gate hooks, resume hooks and events
    beyond the calls named above, the packet pool, the BPF compiler ([utils/bpf.cc],
    [modules/bpf.cc]), FlowGen, Dump and the test modules, captures, system-call threads,
    vector copies and formatting.  Of modelled parts: a failing allocation of a packet in
    UrlFilter.v, [CheckModuleConstraints] and [GetDesc] of Queue.v, [GetInitialArg] of
    WildcardMatch.v, the order in which runtime configurations are reported, several
    threads on one Queue beyond what LLRingMP.v says of its ring, and
    [WorkerSplit::AddActiveWorker]. *)
From Stdlib Require Export ZArith Lia.
From Stdlib Require Import ZifyNat.
From stdpp Require Export base tactics numbers list gmap.


(** ** Machine words

    An unsigned [w]-bit C++ integer is a [Z] in [[0, 2^w)]; every operation the
    source performs at width [w] is followed by [wrap w]. *)
Declare Scope bess_scope.
Delimit Scope bess_scope with bess.
Open Scope Z_scope.

Definition wrap (w x : Z) : Z := x mod 2 ^ w.
Abbreviation u8 := (wrap 8).
Abbreviation u16 := (wrap 16).
Abbreviation u32 := (wrap 32).
Abbreviation u64 := (wrap 64).

Definition in_word (w x : Z) : Prop := 0 <= x < 2 ^ w.
Definition in_wordb (w x : Z) : bool := (0 <=? x) && (x <? 2 ^ w).

Notation "a '/\w' b" := (Z.land a b) (at level 40, left associativity) : bess_scope.
Notation "a '\/w' b" := (Z.lor a b) (at level 50, left associativity) : bess_scope.

Create HintDb bess.
Create Rewrite HintDb bess_simpl.

(** Linear arithmetic with quotients and remainders by constants. *)
Ltac zlia := Z.div_mod_to_equations; lia.
(** The same on [nat]. *)
Ltac nlia := zify; Z.div_mod_to_equations; lia.
Ltac word := unfold in_word, wrap in *; change (2^8) with 256 in *;
  change (2^16) with 65536 in *; change (2^32) with 4294967296 in *;
  change (2^64) with 18446744073709551616 in *; zlia.

Lemma wrap_range w x : 0 <= w -> in_word w (wrap w x).
Proof. intros Hw. apply Z.mod_pos_bound, Z.pow_pos_nonneg; lia. Qed.

Lemma wrap_small w x : in_word w x -> wrap w x = x.
Proof. apply Z.mod_small. Qed.

Lemma wrap_wrap w x : wrap w (wrap w x) = wrap w x.
Proof. apply Zmod_mod. Qed.

Lemma in_wordb_spec w x : in_wordb w x = true <-> in_word w x.
Proof. unfold in_wordb, in_word. rewrite andb_true_iff, Z.leb_le, Z.ltb_lt. done. Qed.

#[export] Instance in_word_dec w x : Decision (in_word w x).
Proof. unfold in_word. apply _. Defined.

#[export] Hint Resolve wrap_range : bess.
#[export] Hint Rewrite wrap_wrap : bess_simpl.

Lemma land_ffff x : Z.land x 0xFFFF = x mod 2 ^ 16.
Proof. by apply (Z.land_ones x 16). Qed.

Lemma land_ffffffff x : Z.land x 0xFFFFFFFF = x mod 2 ^ 32.
Proof. by apply (Z.land_ones x 32). Qed.

Lemma land_ff x : Z.land x 0xFF = x mod 2 ^ 8.
Proof. by apply (Z.land_ones x 8). Qed.

(** A bitwise or of a shifted value with a value that fits below it is a sum. *)
Lemma lor_shiftl_add a b n : 0 <= n -> in_word n b ->
  Z.lor (Z.shiftl a n) b = a * 2 ^ n + b.
Proof.
  intros Hn Hb. rewrite <- Z.shiftl_mul_pow2 by done.
  assert (Z.land (Z.shiftl a n) b = 0) as Hland.
  { apply Z.bits_inj'. intros i Hi. rewrite Z.land_spec, Z.bits_0.
    destruct (Z.lt_ge_cases i n); [by rewrite Z.shiftl_spec_low|].
    rewrite <- (Z.mod_small b (2 ^ n)) by done.
    rewrite Z.mod_pow2_bits_high by lia. apply andb_false_r. }
  by rewrite Z.add_nocarry_lxor, Z.lxor_lor by done.
Qed.

(** ** Byte strings *)
Abbreviation bytes := (list Z).
Definition bytes_ok (l : bytes) : Prop := Forall (in_word 8) l.

#[export] Instance bytes_ok_dec l : Decision (bytes_ok l).
Proof. unfold bytes_ok. apply _. Defined.

Lemma bytes_ok_app l k : bytes_ok (l ++ k) <-> bytes_ok l /\ bytes_ok k.
Proof. apply Forall_app. Qed.

Lemma bytes_ok_take n l : bytes_ok l -> bytes_ok (take n l).
Proof. apply Forall_take. Qed.

Lemma bytes_ok_drop n l : bytes_ok l -> bytes_ok (drop n l).
Proof. apply Forall_drop. Qed.

Lemma bytes_ok_replicate n : bytes_ok (replicate n 0).
Proof. apply Forall_replicate. unfold in_word. lia. Qed.

#[export] Hint Resolve bytes_ok_take bytes_ok_drop bytes_ok_replicate : bess.

(** Little-endian load of a byte string, as a load of a [uintN_t] does on the
    x86 targets the source is compiled for. *)
Fixpoint le_load (l : bytes) : Z :=
  match l with
  | [] => 0
  | b :: l' => b + 256 * le_load l'
  end.

(** Little-endian store of the low [n] bytes of [v]. *)
Fixpoint le_store (n : nat) (v : Z) : bytes :=
  match n with
  | O => []
  | S n' => v mod 256 :: le_store n' (v / 256)
  end.

Definition be_load (l : bytes) : Z := le_load (rev l).
Definition be_store (n : nat) (v : Z) : bytes := rev (le_store n v).

Lemma le_load_app l k :
  le_load (l ++ k) = le_load l + 256 ^ Z.of_nat (length l) * le_load k.
Proof.
  induction l as [|b l IH]; cbn [le_load app length]; [lia|].
  rewrite IH, Nat2Z.inj_succ, Z.pow_succ_r by lia. lia.
Qed.

Lemma le_load_bound l : bytes_ok l -> 0 <= le_load l < 256 ^ Z.of_nat (length l).
Proof.
  induction 1 as [|b l Hb Hl IH]; cbn [le_load length]; [lia|].
  rewrite Nat2Z.inj_succ, Z.pow_succ_r by lia. unfold in_word in Hb. lia.
Qed.

Lemma length_le_store n v : length (le_store n v) = n.
Proof. revert v. induction n; intros; cbn; [done|]. by rewrite IHn. Qed.

Lemma le_store_ok n v : bytes_ok (le_store n v).
Proof.
  revert v. induction n as [|n IH]; intros v; cbn [le_store]; constructor; [|apply IH].
  unfold in_word. zlia.
Qed.

Lemma le_load_store n v : le_load (le_store n v) = v mod 256 ^ Z.of_nat n.
Proof.
  revert v. induction n as [|n IH]; intros v; cbn [le_store le_load].
  - by rewrite Z.mod_1_r.
  - rewrite IH, Nat2Z.inj_succ, Z.pow_succ_r by lia.
    rewrite Z.rem_mul_r by lia. done.
Qed.

Lemma le_store_load l : bytes_ok l -> le_store (length l) (le_load l) = l.
Proof.
  induction 1 as [|b l Hb Hl IH]; cbn [le_store le_load length]; [done|].
  unfold in_word in Hb. f_equal; [zlia|].
  by replace ((b + 256 * le_load l) / 256) with (le_load l) by zlia.
Qed.

Lemma le_load_inj l k :
  bytes_ok l -> bytes_ok k -> length l = length k -> le_load l = le_load k -> l = k.
Proof.
  intros Hl Hk Hlen Heq.
  rewrite <- (le_store_load l), <- (le_store_load k) by done. by rewrite Hlen, Heq.
Qed.

#[export] Hint Rewrite length_le_store : bess_simpl.
#[export] Hint Resolve le_store_ok : bess.

(** The [n] bytes at offset [off]; [None] when they are not all in the buffer. *)
Definition slice (off n : Z) (buf : bytes) : option bytes :=
  if (0 <=? off) && (0 <=? n) && (off + n <=? Z.of_nat (length buf))
  then Some (take (Z.to_nat n) (drop (Z.to_nat off) buf)) else None.

Lemma slice_Some off n buf : 0 <= off -> 0 <= n -> off + n <= Z.of_nat (length buf) ->
  slice off n buf = Some (take (Z.to_nat n) (drop (Z.to_nat off) buf)).
Proof.
  intros. unfold slice.
  destruct (0 <=? off) eqn:?, (0 <=? n) eqn:?,
    (off + n <=? Z.of_nat (length buf)) eqn:?; try done; lia.
Qed.

(** ** Loops

    A C++ [while] loop over a loop state: [None] when the fuel runs out or when
    the body reaches undefined behaviour.  Each use of [while] comes with a
    theorem that the fuel suffices. *)
Fixpoint while {S : Type} (fuel : nat) (cond : S -> bool)
    (body : S -> option S) (s : S) : option S :=
  if cond s then
    match fuel with
    | O => None
    | Datatypes.S fuel' =>
        match body s with
        | Some s' => while fuel' cond body s'
        | None => None
        end
    end
  else Some s.

(** Total correctness of [while] from an invariant and a decreasing measure. *)
Lemma while_total {S : Type} (I : S -> Prop) (m : S -> nat) cond body fuel s :
  (forall s, I s -> cond s = true ->
     exists s', body s = Some s' /\ I s' /\ (m s' < m s)%nat) ->
  I s -> (m s <= fuel)%nat ->
  exists s', while fuel cond body s = Some s' /\ I s' /\ cond s' = false.
Proof.
  intros Hstep. revert s. induction fuel as [|fuel IH]; intros s HI Hm; cbn [while].
  - destruct (cond s) eqn:Hc; [|by eauto].
    destruct (Hstep s HI Hc) as (s' & _ & _ & Hlt). lia.
  - destruct (cond s) eqn:Hc; [|by eauto].
    destruct (Hstep s HI Hc) as (s' & -> & HI' & Hlt). apply IH; [done|lia].
Qed.

(** Run a loop of the goal by an invariant and a measure; the premises of
    [while_total] come first, then the goal after the loop. *)
Tactic Notation "while_inv" constr(I) constr(m) "as" simple_intropattern(p) :=
  match goal with
  | |- context [while ?f ?c ?b ?s] => destruct (while_total I m c b f s) as p
  end.

(** Prove [Forall P] of an explicit list element by element. *)
Ltac forall_each tac :=
  repeat first [apply Forall_nil_2 | apply Forall_cons_2; [solve [tac]|]].

(** ** More on little-endian words *)
Lemma le_store_0 n : le_store n 0 = replicate n 0.
Proof. induction n as [|n IH]; [done|]. cbn [le_store replicate].
  change (0 / 256) with 0. by rewrite IH. Qed.

Lemma le_load_replicate n : le_load (replicate n 0) = 0.
Proof. induction n as [|n IH]; [done|]. cbn [le_load replicate]. rewrite IH. lia. Qed.

(** Storing a short byte string in a longer word pads it with zeroes. *)
Lemma le_store_load_pad m l : bytes_ok l ->
  le_store (length l + m) (le_load l) = l ++ replicate m 0.
Proof.
  induction 1 as [|b l Hb Hl IH]; cbn [length Nat.add le_store le_load app].
  - apply le_store_0.
  - unfold in_word in Hb. f_equal; [zlia|].
    by replace ((b + 256 * le_load l) / 256) with (le_load l) by zlia.
Qed.

Lemma le_load_split n l : le_load l =
  le_load (take n l) + 256 ^ Z.of_nat (length (take n l)) * le_load (drop n l).
Proof. rewrite <- (take_drop n l) at 1. apply le_load_app. Qed.

Lemma le_load_mod n l : bytes_ok l -> (n <= length l)%nat ->
  le_load l mod 256 ^ Z.of_nat n = le_load (take n l).
Proof.
  intros Hok Hn. rewrite (le_load_split n l), length_take_le by done.
  pose proof (le_load_bound (take n l) ltac:(auto with bess)) as Hb.
  rewrite length_take_le in Hb by done.
  rewrite (Z.mul_comm (256 ^ _)), Z.mod_add, Z.mod_small by lia. done.
Qed.

Lemma le_load_div n l : bytes_ok l -> (n <= length l)%nat ->
  le_load l / 256 ^ Z.of_nat n = le_load (drop n l).
Proof.
  intros Hok Hn. rewrite (le_load_split n l), length_take_le by done.
  pose proof (le_load_bound (take n l) ltac:(auto with bess)) as Hb.
  rewrite length_take_le in Hb by done.
  rewrite Z.add_comm, Z.mul_comm, Z.div_add_l, Z.div_small by lia. lia.
Qed.

Lemma pow256 n : 256 ^ Z.of_nat n = 2 ^ (Z.of_nat n * 8).
Proof. change 256 with (2 ^ 8). rewrite <- Z.pow_mul_r by lia. f_equal. lia. Qed.

Lemma land_word w x y : 0 <= w -> in_word w x -> in_word w (Z.land x y).
Proof.
  intros Hw Hx. assert (Z.land x y = Z.land x y mod 2 ^ w) as ->.
  { rewrite <- Z.land_ones, (Z.land_comm x y), <- Z.land_assoc, Z.land_ones by done.
    by rewrite Z.mod_small. }
  by apply wrap_range.
Qed.

Lemma land_cons w x y a b : 0 <= w -> in_word w x -> in_word w y ->
  Z.land (a * 2 ^ w + x) (b * 2 ^ w + y) = Z.land a b * 2 ^ w + Z.land x y.
Proof.
  intros Hw Hx Hy. rewrite <- !lor_shiftl_add by (done || by apply land_word).
  apply Z.bits_inj'. intros i Hi. rewrite Z.land_spec, !Z.lor_spec, Z.land_spec.
  destruct (Z.lt_ge_cases i w).
  - by rewrite !Z.shiftl_spec_low.
  - rewrite !Z.shiftl_spec, Z.land_spec by done.
    rewrite <- (Z.mod_small x (2 ^ w)), <- (Z.mod_small y (2 ^ w)) by done.
    rewrite !Z.mod_pow2_bits_high by lia. by rewrite !orb_false_r.
Qed.

Lemma le_load_land a b : bytes_ok a -> bytes_ok b -> length a = length b ->
  Z.land (le_load a) (le_load b) = le_load (zip_with Z.land a b).
Proof.
  intros Ha. revert b. induction Ha as [|x a Hx Ha IH]; intros [|y b] Hb Hlen; try done.
  inversion Hb as [|? ? Hy Hb']; subst. cbn [le_load zip_with].
  rewrite <- IH by (done || (cbn in Hlen; lia)).
  rewrite (Z.add_comm x), (Z.add_comm y), !(Z.mul_comm 256).
  change 256 with (2 ^ 8). rewrite land_cons by (done || lia). lia.
Qed.

Lemma zip_land_ok a b : bytes_ok a -> bytes_ok (zip_with Z.land a b).
Proof.
  intros Ha. revert b. induction Ha; intros [|y b]; cbn; constructor; [|apply IHHa].
  by apply land_word.
Qed.

#[export] Hint Resolve zip_land_ok : bess.

(** ** Lists *)
Lemma NoDup_concat_map {A B} (f : A -> list B) (l : list A) :
  NoDup l -> (forall a, a ∈ l -> NoDup (f a)) ->
  (forall a a' b, a ∈ l -> a' ∈ l -> b ∈ f a -> b ∈ f a' -> a = a') ->
  NoDup (concat (map f l)).
Proof.
  intros Hl. induction Hl as [|a l Ha Hl IH]; intros Hnd Hdis; cbn; [constructor|].
  apply NoDup_app. split; [apply Hnd; set_solver|]. split.
  - intros b Hb (bs & Hbs & Hin)%list_elem_of_In%in_concat.
    apply in_map_iff in Hbs as (a' & <- & Ha'%list_elem_of_In).
    apply list_elem_of_In in Hin.
    assert (a = a') as <- by (eapply Hdis; eauto; set_solver). done.
  - apply IH; [set_solver|]. intros a1 a2 b H1 H2. apply Hdis; set_solver.
Qed.

Lemma elem_of_concat_map {A B} (f : A -> list B) (l : list A) b :
  b ∈ concat (map f l) <-> exists a, a ∈ l /\ b ∈ f a.
Proof.
  rewrite list_elem_of_In, in_concat. setoid_rewrite list_elem_of_In.
  split.
  - intros (bs & (a & <- & Ha)%in_map_iff & Hb). eauto.
  - intros (a & Ha & Hb). exists (f a). split; [by apply in_map|done].
Qed.

(** Changing the contribution of one index of a concatenation. *)
Lemma concat_map_change {A B} (f g : A -> list B) (l : list A) p :
  NoDup l -> p ∈ l -> (forall q, q ∈ l -> q <> p -> f q = g q) ->
  exists R, concat (map f l) ≡ₚ f p ++ R /\ concat (map g l) ≡ₚ g p ++ R.
Proof.
  intros Hnd (l1 & l2 & ->)%list_elem_of_split Hfg.
  apply NoDup_app in Hnd as (_ & Hnot & [Hp _]%NoDup_cons).
  assert (Hmap : forall k, (forall q, q ∈ k -> f q = g q) -> map f k = map g k).
  { intros k Hk. apply map_ext_in. intros a Ha. apply Hk. by apply list_elem_of_In. }
  exists (concat (map f l1) ++ concat (map f l2)).
  rewrite !map_app, !concat_app. cbn [map concat].
  rewrite <- (Hmap l1), <- (Hmap l2).
  - split; apply Permutation_app_swap_app.
  - intros q Hq. apply Hfg; [set_solver|]. intros ->. done.
  - intros q Hq. apply Hfg; [set_solver|]. intros ->. apply (Hnot p Hq). set_solver.
Qed.

Lemma land_le x y : 0 <= y -> 0 <= Z.land x y <= y.
Proof.
  intros Hy. split; [apply Z.land_nonneg; by right|].
  assert (Z.land (Z.ldiff y x) (Z.land y x) = 0) as Hd.
  { apply Z.bits_inj'. intros i Hi. rewrite !Z.land_spec, Z.ldiff_spec, Z.bits_0.
    by destruct (Z.testbit y i), (Z.testbit x i). }
  assert (0 <= Z.ldiff y x) by (apply Z.ldiff_nonneg; by left).
  pose proof (Z.lor_ldiff_and y x) as Hl.
  rewrite <- Z.lxor_lor, <- Z.add_nocarry_lxor in Hl by done.
  rewrite (Z.land_comm x). lia.
Qed.

Lemma NoDup_map_inj {A B} (f : A -> B) (l : list A) a b :
  NoDup (map f l) -> a ∈ l -> b ∈ l -> f a = f b -> a = b.
Proof.
  induction l as [|x l IH]; [set_solver|]. cbn. intros [Hx Hnd]%NoDup_cons Ha Hb Hf.
  assert (Hin : forall y, y ∈ l -> f y ∈ map f l)
    by (intros y Hy; by apply list_elem_of_In, in_map, list_elem_of_In).
  apply elem_of_cons in Ha as [->|Ha], Hb as [->|Hb]; [done| | |by apply IH].
  - exfalso. apply Hx. rewrite Hf. by apply Hin.
  - exfalso. apply Hx. rewrite <- Hf. by apply Hin.
Qed.
