(* ===== verification/Common.v ===== *)
(** [core/utils/common.h]: alignment, [absdiff] and [InsertSorted], with the [errno]
    values that the modules report.  Alignment works on 64-bit words. *)
From S2P Require Import Prelude.
Open Scope Z_scope.

(** The error numbers the modules return. *)
Inductive errno := EINVAL | ENOMEM | ENOENT | EEXIST | ENOSPC | EBUSY | ENODEV.
#[export] Instance errno_dec : EqDecision errno.
Proof. solve_decision. Defined.

Definition align_floor (v align : Z) : Z := u64 (v - v mod align).
Definition align_ceil (v align : Z) : Z := align_floor (u64 (u64 (v + align) - 1)) align.

(** [v |= v >> n] *)
Definition smear (n v : Z) : Z := Z.lor v (Z.shiftr v n).
Definition align_ceil_pow2 (v : Z) : Z :=
  let v := u64 (v - 1) in
  let v := smear 1 v in
  let v := smear 2 v in
  let v := smear 4 v in
  let v := smear 8 v in
  let v := smear 16 v in
  let v := smear 32 v in
  u64 (v + 1).

Definition absdiff (lhs rhs : Z) : Z := if rhs <? lhs then lhs - rhs else rhs - lhs.

(** The loop of [InsertSorted] from index [i] down, with [lt a b] for [a < b]. *)
Fixpoint bubble {T} (lt : T -> T -> bool) (container : list T) (i : nat) : list T :=
  match i with
  | O => container
  | S i' =>
      match container !! i', container !! i with
      | Some prev, Some cur =>
          if lt cur prev
          then bubble lt (<[i' := cur]> (<[i := prev]> container)) i'
          else container
      | _, _ => container
      end
  end.

Definition InsertSorted {T} (lt : T -> T -> bool) (container : list T) (item : T) : list T :=
  bubble lt (container ++ [item]) (length container).

(** ** Lemmas *)
Lemma bubble_spec {T} (lt : T -> T -> bool) (l1 l2 : list T) x :
  exists k, (k <= length l1)%nat /\
    bubble lt (l1 ++ x :: l2) (length l1) = take k l1 ++ x :: drop k l1 ++ l2 /\
    Forall (fun y => lt x y = true) (drop k l1) /\
    (forall y, last (take k l1) = Some y -> lt x y = false).
Proof.
  revert l2. induction l1 as [|y l1 IH] using rev_ind; intros l2; [by exists O|].
  rewrite length_app. cbn [length]. rewrite Nat.add_1_r. cbn [bubble].
  assert ((l1 ++ [y]) ++ x :: l2 = l1 ++ y :: x :: l2) as -> by by rewrite <- app_assoc.
  rewrite list_lookup_middle by done.
  rewrite (lookup_app_r l1 (y :: x :: l2) (S (length l1))) by lia.
  replace (S (length l1) - length l1)%nat with 1%nat by lia. cbn [lookup list_lookup].
  destruct (lt x y) eqn:Hlt.
  - assert (<[length l1 := x]> (<[S (length l1) := y]> (l1 ++ y :: x :: l2)) = l1 ++ x :: y :: l2) as ->.
    { rewrite (insert_app_r_alt l1 _ (S (length l1))) by lia.
      replace (S (length l1) - length l1)%nat with 1%nat by lia.
      rewrite insert_app_r_alt by lia. by rewrite Nat.sub_diag. }
    destruct (IH (y :: l2)) as (k & Hk & -> & Hall & Hlast). exists k.
    rewrite take_app_le, drop_app_le by done. split; [lia|].
    rewrite <- app_assoc. split; [done|]. split; [|done].
    apply Forall_app. split; [done|]. by constructor.
  - exists (S (length l1)).
    rewrite (take_ge (l1 ++ [y])), (drop_ge (l1 ++ [y])) by (rewrite length_app; cbn; lia).
    rewrite <- app_assoc. split; [lia|]. split; [done|]. split; [constructor|].
    intros z. rewrite last_snoc. by intros [= <-].
Qed.

Lemma InsertSorted_spec {T} (lt : T -> T -> bool) (l : list T) x :
  exists k, (k <= length l)%nat /\ InsertSorted lt l x = take k l ++ x :: drop k l /\
    Forall (fun y => lt x y = true) (drop k l) /\
    (forall y, last (take k l) = Some y -> lt x y = false).
Proof.
  destruct (bubble_spec lt l [] x) as (k & ? & Hb & ? & ?). exists k.
  split; [done|]. unfold InsertSorted. rewrite Hb. by rewrite app_nil_r.
Qed.

Lemma InsertSorted_perm {T} (lt : T -> T -> bool) (l : list T) x : InsertSorted lt l x ≡ₚ x :: l.
Proof.
  destruct (InsertSorted_spec lt l x) as (k & _ & -> & _). rewrite <- Permutation_middle.
  by rewrite take_drop.
Qed.

(** Smearing the bits of a number to the right. *)
Definition smeared (m n v : Z) : Prop := forall i, 0 <= i ->
  (Z.testbit v i = true <-> exists d, 0 <= d < m /\ Z.testbit n (i + d) = true).

Lemma smear_step m n v : 0 <= m -> smeared m n v -> smeared (2 * m) n (smear m v).
Proof.
  intros Hm Hs i Hi. unfold smear. rewrite Z.lor_spec, Z.shiftr_spec, orb_true_iff by done.
  rewrite (Hs i Hi), (Hs (i + m)) by lia. split.
  - intros [(d & Hd & Hb)|(d & Hd & Hb)]; [by exists d; split; [lia|]|].
    exists (m + d). split; [lia|]. by rewrite Z.add_assoc.
  - intros (d & Hd & Hb). destruct (Z.lt_ge_cases d m); [left; by exists d; split; [lia|]|].
    right. exists (d - m). split; [lia|]. by replace (i + m + (d - m)) with (i + d) by lia.
Qed.

Lemma smear_nonneg n v : 0 <= v -> 0 <= smear n v.
Proof. intros Hv. unfold smear. apply Z.lor_nonneg. split; [done|]. by apply Z.shiftr_nonneg. Qed.

Lemma smeared_ones n v : 0 < n < 2 ^ 64 -> smeared 64 n v -> 0 <= v -> v = Z.ones (Z.log2 n + 1).
Proof.
  intros Hn Hs Hv. pose proof (Z.log2_nonneg n).
  assert (Z.log2 n < 64) by (apply Z.log2_lt_pow2; lia).
  apply Z.bits_inj'. intros i Hi. destruct (Z.lt_ge_cases i (Z.log2 n + 1)).
  - rewrite Z.ones_spec_low by lia. apply Hs; [done|]. exists (Z.log2 n - i). split; [lia|].
    replace (i + (Z.log2 n - i)) with (Z.log2 n) by lia. apply Z.bit_log2. lia.
  - rewrite Z.ones_spec_high by lia. apply not_true_iff_false. intros (d & Hd & Hb)%Hs; [|done].
    rewrite Z.bits_above_log2 in Hb by lia. done.
Qed.

Lemma align_ceil_pow2_log2 v : 1 < v <= 2 ^ 63 ->
  align_ceil_pow2 v = 2 ^ (Z.log2 (v - 1) + 1).
Proof.
  intros Hv. unfold align_ceil_pow2.
  assert (u64 (v - 1) = v - 1) as -> by (apply wrap_small; unfold in_word; lia).
  set (s := smear 32 _). assert (Hs : smeared 64 (v - 1) s).
  { apply (smear_step 32), (smear_step 16), (smear_step 8), (smear_step 4), (smear_step 2), (smear_step 1);
      try done. intros i Hi. split.
    - intros Hb. exists 0. rewrite Z.add_0_r. by split.
    - intros (d & Hd & Hb). by replace (i + d) with i in Hb by lia. }
  assert (0 <= s) by (repeat apply smear_nonneg; lia).
  assert (Z.log2 (v - 1) < 63) by (apply Z.log2_lt_pow2; lia).
  pose proof (Z.log2_nonneg (v - 1)).
  rewrite (smeared_ones (v - 1) s) by (done || lia). rewrite Z.ones_equiv.
  rewrite wrap_small; [lia|]. split; [lia|].
  replace (Z.pred (2 ^ (Z.log2 (v - 1) + 1)) + 1) with (2 ^ (Z.log2 (v - 1) + 1)) by lia.
  apply Z.pow_lt_mono_r; lia.
Qed.

(** The same smearing at 32 bits. *)
Lemma smear32_log2 n : 0 < n < 2 ^ 32 ->
  smear 16 (smear 8 (smear 4 (smear 2 (smear 1 n)))) = 2 ^ (Z.log2 n + 1) - 1.
Proof.
  intros Hn. set (v := smear 16 _).
  assert (Hv : smeared 32 n v).
  { apply (smear_step 16), (smear_step 8), (smear_step 4), (smear_step 2), (smear_step 1); try done. intros i Hi. split.
    - intros Hb. exists 0. rewrite Z.add_0_r. by split.
    - intros (d & Hd & Hb). by replace (i + d) with i in Hb by lia. }
  assert (Hs : smeared 64 n v).
  { intros i Hi. rewrite (Hv i Hi). split; intros (d & Hd & Hb); exists d; (split; [|done]); [lia|].
    destruct (Z.lt_ge_cases d 32); [lia|]. exfalso. assert (Z.log2 n < 32) by (apply Z.log2_lt_pow2; lia).
    by rewrite Z.bits_above_log2 in Hb by lia. }
  assert (0 <= v) by (repeat apply smear_nonneg; lia). rewrite (smeared_ones n v) by (done || lia).
  rewrite Z.ones_equiv. lia.
Qed.

(** ** Properties *)

(** [align_ceil_pow2] is the least power of two that is not below its argument
    (up to 2^63), so its argument is returned exactly when it is a power of two. *)
Theorem align_ceil_pow2_least v : 0 < v <= 2 ^ 63 ->
  exists p, 0 <= p /\ align_ceil_pow2 v = 2 ^ p /\ v <= 2 ^ p /\
    (forall q, 0 <= q -> v <= 2 ^ q -> 2 ^ p <= 2 ^ q) /\
    (align_ceil_pow2 v = v <-> exists q, 0 <= q /\ v = 2 ^ q).
Proof.
  intros Hv. assert (Hgen : exists p, 0 <= p /\ align_ceil_pow2 v = 2 ^ p /\ v <= 2 ^ p /\
    (forall q, 0 <= q -> v <= 2 ^ q -> 2 ^ p <= 2 ^ q)).
  { destruct (Z.eq_dec v 1) as [->|Hne].
    { exists 0. split; [done|]. split; [vm_compute; reflexivity|]. split; [done|]. intros. lia. }
    pose proof (Z.log2_nonneg (v - 1)). exists (Z.log2 (v - 1) + 1). split; [lia|].
    rewrite align_ceil_pow2_log2 by lia. split; [done|].
    destruct (Z.log2_spec (v - 1)) as [Hlo Hhi]; [lia|]. rewrite <- Z.add_1_r in Hhi. split; [lia|].
    intros q Hq Hvq. apply Z.pow_le_mono_r; [done|].
    assert (2 ^ Z.log2 (v - 1) < 2 ^ q) as Hlt by lia. apply Z.pow_lt_mono_r_iff in Hlt; lia. }
  destruct Hgen as (p & Hp & Heq & Hle & Hmin). exists p. do 4 (split; [done|]). split.
  - intros Hvv. exists p. by rewrite <- Heq, Hvv.
  - intros (q & Hq & ->). rewrite Heq. apply Z.le_antisymm; [by apply Hmin|done].
Qed.

Lemma align_ceil_pow2_least_witness :
  exists p, 0 <= p /\ align_ceil_pow2 1500 = 2 ^ p /\ 1500 <= 2 ^ p /\
    (forall q, 0 <= q -> 1500 <= 2 ^ q -> 2 ^ p <= 2 ^ q) /\
    (align_ceil_pow2 1500 = 1500 <-> exists q, 0 <= q /\ 1500 = 2 ^ q).
Proof. apply (align_ceil_pow2_least 1500). lia. Defined.

Lemma align_spec v align : in_word 64 v -> 0 < align -> v + align <= 2 ^ 64 ->
  (align | align_floor v align) /\ align_floor v align <= v < align_floor v align + align /\
  (align | align_ceil v align) /\ v <= align_ceil v align < v + align.
Proof.
  intros Hv Ha Hs.
  assert (Hfl : forall u, in_word 64 u -> align_floor u align = align * (u / align)).
  { intros u Hu. unfold align_floor. pose proof (Z.div_mod u align ltac:(lia)).
    pose proof (Z.mod_pos_bound u align Ha). pose proof (Z.mod_le u align).
    rewrite wrap_small; [lia|]. unfold in_word in *. lia. }
  assert (Hc : u64 (u64 (v + align) - 1) = v + align - 1).
  { unfold wrap. rewrite Zminus_mod_idemp_l. apply Z.mod_small. unfold in_word in *. lia. }
  unfold align_ceil. rewrite Hc, !Hfl by (unfold in_word in *; lia).
  split; [by apply Z.divide_factor_l|]. split; [zlia|]. split; [by apply Z.divide_factor_l|]. zlia.
Qed.

(** Conversion to [int]. *)
Definition INT_MIN : Z := - 2 ^ 31.
Definition to_int (x : Z) : Z := let y := u32 x in if y <? 2 ^ 31 then y else y - 2 ^ 32.

Lemma to_int_min x : INT_MIN <= to_int x.
Proof.
  assert (in_word 32 (u32 x)) as Hr by (by apply wrap_range). unfold to_int, INT_MIN. cbn zeta.
  unfold in_word in Hr. change (2 ^ 32) with 4294967296 in *. change (2 ^ 31) with 2147483648 in *.
  destruct (Z.ltb_spec (u32 x) 2147483648); lia.
Qed.
Lemma to_int_small x : 0 <= x < 2 ^ 31 -> to_int x = x.
Proof. intros Hx. unfold to_int. rewrite wrap_small by (unfold in_word; lia). cbn zeta. by rewrite (proj2 (Z.ltb_lt _ _)) by lia. Qed.

(** [align_floor] and [align_ceil] round to a multiple of the alignment within
    one alignment step, as long as [align_ceil] does not pass 2^64. *)
Theorem align_bounds v align : in_word 64 v -> 0 < align -> v + align <= 2 ^ 64 ->
  (align | align_floor v align) /\ align_floor v align <= v < align_floor v align + align /\
  (align | align_ceil v align) /\ v <= align_ceil v align < v + align.
Proof. apply align_spec. Qed.

Lemma align_bounds_witness :
  (64 | align_floor 1500 64) /\ align_floor 1500 64 <= 1500 < align_floor 1500 64 + 64 /\
  (64 | align_ceil 1500 64) /\ 1500 <= align_ceil 1500 64 < 1500 + 64.
Proof. apply (align_bounds 1500 64); [unfold in_word| |]; lia. Defined.
