(* ===== verification/Endian.v ===== *)
(** Big-endian integers and integers in packets: [core/utils/endian.h] and
    [core/utils/endian.cc].

    A [BigEndian<T>] is the word [data_] whose bytes in memory, on the
    little-endian targets of the source, are those of the value in network order. *)
From S2P Require Import Prelude.

(** [EndianBase<T>::swap] for a [T] of [n] bytes. *)
Definition swap (n : nat) (v : Z) : Z := le_load (rev (le_store n v)).

(** ** [BigEndian<T>], with [n = sizeof(T)] *)
Section BigEndian.
Context (n : nat).

Definition width : Z := 8 * Z.of_nat n.

Record BigEndian := BE { data_ : Z }.

Definition of_cpu (cpu_value : Z) : BigEndian := BE (swap n cpu_value).
Definition value (b : BigEndian) : Z := swap n (data_ b).
Definition raw_value (b : BigEndian) : Z := data_ b.

Definition be_not (a : BigEndian) : BigEndian := of_cpu (wrap width (Z.lnot (value a))).
Definition be_and (a o : BigEndian) : BigEndian := of_cpu (Z.land (value a) (value o)).
Definition be_or (a o : BigEndian) : BigEndian := of_cpu (Z.lor (value a) (value o)).
Definition be_xor (a o : BigEndian) : BigEndian := of_cpu (Z.lxor (value a) (value o)).
Definition be_add (a o : BigEndian) : BigEndian := of_cpu (wrap width (value a + value o)).
Definition be_sub (a o : BigEndian) : BigEndian := of_cpu (wrap width (value a - value o)).

(** A shift by the width of the promoted operand or more is undefined. *)
Definition be_shl (a : BigEndian) (shift : Z) : option BigEndian :=
  if shift <? Z.max 32 width then Some (of_cpu (wrap width (Z.shiftl (value a) shift))) else None.
Definition be_shr (a : BigEndian) (shift : Z) : option BigEndian :=
  if shift <? Z.max 32 width then Some (of_cpu (Z.shiftr (value a) shift)) else None.

Definition be_eq (a o : BigEndian) : bool := data_ a =? data_ o.
Definition be_ne (a o : BigEndian) : bool := negb (be_eq a o).
Definition be_lt (a o : BigEndian) : bool := value a <? value o.
Definition be_gt (a o : BigEndian) : bool := be_lt o a.
Definition be_le (a o : BigEndian) : bool := negb (be_gt a o).
Definition be_ge (a o : BigEndian) : bool := negb (be_lt a o).
Definition be_bool (a : BigEndian) : bool := negb (data_ a =? 0).

(** [ToByteVector()]: the bytes in memory. *)
Definition ToByteVector (b : BigEndian) : bytes := le_store n (data_ b).
End BigEndian.

(** [uint64_to_bin]: the two loops run over the bytes at [ptr], from the last down
    or from the first up; the state is what is left of [val]. *)
Fixpoint to_bin_loop (positions : list nat) (ptr : bytes) (val : Z) : bytes * Z :=
  match positions with
  | [] => (ptr, val)
  | p :: ps => to_bin_loop ps (<[p := Z.land val 0xFF]> ptr) (Z.shiftr val 8)
  end.

Definition uint64_to_bin (ptr : bytes) (val : Z) (size : nat) (big_endian : bool) : bytes * bool :=
  let positions := if big_endian then rev (seq 0 size) else seq 0 size in
  let '(ptr, val) := to_bin_loop positions ptr val in
  (ptr, val =? 0).

(** ** Facts about byte swapping *)
Lemma le_store_mod n v : le_store n (v mod 256 ^ Z.of_nat n) = le_store n v.
Proof.
  rewrite <- le_load_store. rewrite <- (length_le_store n v) at 1.
  apply le_store_load, le_store_ok.
Qed.

Lemma swap_word n v : in_word (width n) (swap n v).
Proof.
  unfold in_word, width, swap. rewrite Z.mul_comm, <- pow256.
  pose proof (le_load_bound (rev (le_store n v))) as H.
  rewrite length_rev, length_le_store in H. apply H.
  apply Forall_rev, le_store_ok.
Qed.

Lemma le_store_swap n v : le_store n (swap n v) = rev (le_store n v).
Proof.
  unfold swap. rewrite <- (length_le_store n v) at 1. rewrite <- length_rev.
  apply le_store_load, Forall_rev, le_store_ok.
Qed.

Lemma swap_swap n v : swap n (swap n v) = wrap (width n) v.
Proof.
  unfold swap at 1. rewrite le_store_swap, rev_involutive, le_load_store.
  unfold wrap, width. by rewrite pow256, Z.mul_comm.
Qed.

Lemma swap_inj n v w : in_word (width n) v -> in_word (width n) w -> swap n v = swap n w -> v = w.
Proof.
  intros Hv Hw H. rewrite <- (wrap_small (width n) v), <- (wrap_small (width n) w) by done.
  by rewrite <- !swap_swap, H.
Qed.

Lemma value_word n b : in_word (width n) (value n b).
Proof. apply swap_word. Qed.

Lemma value_of_cpu n v : in_word (width n) v -> value n (of_cpu n v) = v.
Proof. intros Hv. unfold value, of_cpu. cbn. rewrite swap_swap. by apply wrap_small. Qed.

Lemma value_0 n b : in_word (width n) (data_ b) -> value n b = 0 <-> data_ b = 0.
Proof.
  intros Hb. assert (swap n 0 = 0) as H0.
  { unfold swap. rewrite le_store_0, rev_alt. change (le_load (reverse (replicate n 0)) = 0).
    rewrite reverse_replicate. apply le_load_replicate. }
  split; intros H; unfold value in *.
  - apply (swap_inj n); [done|split; [lia|]|by rewrite H].
    apply Z.pow_pos_nonneg; unfold width; lia.
  - by rewrite H, H0.
Qed.

(** What the big-endian wrapper of a value promises: its memory is the value in
    network order, the operations act on the values, and the comparisons that are
    made on the raw word agree with those on values. *)
Record be_laws (n : nat) (a b : BigEndian) : Prop := {
  be_memory : ToByteVector n a = be_store n (value n a);
  be_and_value : value n (be_and n a b) = Z.land (value n a) (value n b);
  be_or_value : value n (be_or n a b) = Z.lor (value n a) (value n b);
  be_xor_value : value n (be_xor n a b) = Z.lxor (value n a) (value n b);
  be_not_value : value n (be_not n a) = 2 ^ width n - 1 - value n a;
  be_add_value : value n (be_add n a b) = wrap (width n) (value n a + value n b);
  be_sub_value : value n (be_sub n a b) = wrap (width n) (value n a - value n b);
  be_shr_value s r : 0 <= s -> be_shr n a s = Some r -> value n r = value n a / 2 ^ s;
  be_shl_value s r : 0 <= s -> be_shl n a s = Some r -> value n r = wrap (width n) (value n a * 2 ^ s);
  be_eq_value : be_eq a b = true <-> value n a = value n b;
  be_le_value : be_le n a b = true <-> value n a <= value n b;
  be_bool_value : be_bool a = false <-> value n a = 0 }.

Lemma lor_word w x y : 0 <= w -> in_word w x -> in_word w y -> in_word w (Z.lor x y).
Proof.
  intros Hw Hx Hy. assert (Z.lor x y = Z.lor x y mod 2 ^ w) as ->.
  { rewrite <- Z.land_ones, Z.land_lor_distr_l, !Z.land_ones by done.
    by rewrite !Z.mod_small. }
  by apply wrap_range.
Qed.

Lemma lxor_word w x y : 0 <= w -> in_word w x -> in_word w y -> in_word w (Z.lxor x y).
Proof.
  intros Hw Hx Hy. assert (Z.lxor x y = Z.lxor x y mod 2 ^ w) as ->.
  { apply Z.bits_inj'. intros i Hi. destruct (Z.lt_ge_cases i w).
    - by rewrite Z.mod_pow2_bits_low.
    - rewrite Z.mod_pow2_bits_high, Z.lxor_spec by lia.
      rewrite <- (Z.mod_small x (2 ^ w)), <- (Z.mod_small y (2 ^ w)) by done.
      by rewrite !Z.mod_pow2_bits_high by lia. }
  by apply wrap_range.
Qed.

Lemma width_nonneg n : 0 <= width n.
Proof. unfold width. lia. Qed.
#[export] Hint Resolve width_nonneg swap_word value_word land_word lor_word lxor_word : bess.

(** A big-endian integer stores its value in network order whatever its width,
    all operators act on the values, and equality and truth of the raw word are
    those of the value. *)
Theorem big_endian_laws n a b : in_word (width n) (data_ a) -> in_word (width n) (data_ b) ->
  be_laws n a b.
Proof.
  intros Ha Hb. pose proof (value_word n a) as Va. pose proof (value_word n b) as Vb.
  pose proof (width_nonneg n) as Hw. split.
  - unfold ToByteVector, be_store, value. by rewrite le_store_swap, rev_involutive.
  - apply value_of_cpu; auto with bess.
  - apply value_of_cpu; auto with bess.
  - apply value_of_cpu; auto with bess.
  - unfold be_not. rewrite value_of_cpu by auto with bess.
    unfold wrap. unfold Z.lnot. rewrite <- (Z.mod_add _ 1) by (apply Z.pow_nonzero; lia).
    unfold in_word in Va. rewrite Z.mod_small; lia.
  - apply value_of_cpu; auto with bess.
  - apply value_of_cpu; auto with bess.
  - intros s r Hs. unfold be_shr. destruct (s <? _); intros [= <-].
    rewrite value_of_cpu, Z.shiftr_div_pow2; [done|done|].
    rewrite Z.shiftr_div_pow2 by done. unfold in_word in *.
    split; [apply Z.div_pos; lia|]. apply Z.div_lt_upper_bound; [lia|]. nia.
  - intros s r Hs. unfold be_shl. destruct (s <? _); intros [= <-].
    rewrite value_of_cpu by auto with bess. by rewrite Z.shiftl_mul_pow2.
  - unfold be_eq. rewrite Z.eqb_eq. split; [unfold value; by intros ->|].
    by apply swap_inj.
  - unfold be_le, be_gt, be_lt. rewrite negb_true_iff, Z.ltb_ge. done.
  - unfold be_bool. rewrite negb_false_iff, Z.eqb_eq. symmetry. by apply value_0.
Qed.

Lemma big_endian_laws_witness :
  be_laws 4 (of_cpu 4 0x0a000001) (of_cpu 4 0xffffff00).
Proof. apply big_endian_laws; split; vm_compute; congruence. Defined.

(** ** [uint64_to_bin] *)
Lemma to_bin_le size l k v : length l = size ->
  to_bin_loop (seq (length k) size) (k ++ l) v = (k ++ le_store size v, v / 256 ^ Z.of_nat size).
Proof.
  revert l k v. induction size as [|size IH]; intros l k v Hl; cbn [seq to_bin_loop le_store].
  - destruct l; [|done]. by rewrite Z.div_1_r.
  - destruct l as [|b l]; [done|]. rewrite <- (Nat.add_0_r (length k)) at 2. rewrite insert_app_r. cbn.
    replace (k ++ Z.land v 255 :: l) with ((k ++ [Z.land v 255]) ++ l) by by rewrite <- app_assoc.
    replace (S (length k)) with (length (k ++ [Z.land v 255])) by (rewrite length_app; cbn; lia).
    rewrite IH by by injection Hl. rewrite <- app_assoc. cbn.
    rewrite land_ff, Z.shiftr_div_pow2 by done. change (2 ^ 8) with 256. f_equal.
    rewrite Nat2Z.inj_succ, Z.pow_succ_r, <- Z.div_div by lia. done.
Qed.

Lemma to_bin_be size l k v : length l = size ->
  to_bin_loop (rev (seq 0 size)) (l ++ k) v = (be_store size v ++ k, v / 256 ^ Z.of_nat size).
Proof.
  revert l k v. induction size as [|size IH]; intros l k v Hl.
  - destruct l; [|done]. cbn. by rewrite Z.div_1_r.
  - rewrite seq_S, rev_app_distr. cbn [rev app Nat.add to_bin_loop].
    destruct l as [|b l] using rev_ind; [done|]. rewrite length_app in Hl. cbn in Hl.
    rewrite <- app_assoc. cbn [app]. rewrite <- (Nat.add_0_r size), insert_app_r_alt by lia.
    replace (size + 0 - length l)%nat with 0%nat by lia. cbn [insert list_insert].
    rewrite Nat.add_0_r, IH by lia. unfold be_store. cbn [le_store rev].
    rewrite <- app_assoc, land_ff, Z.shiftr_div_pow2 by done. change (2 ^ 8) with 256.
    cbn [app]. f_equal. rewrite Nat2Z.inj_succ, Z.pow_succ_r, <- Z.div_div by lia. done.
Qed.

Lemma uint64_to_bin_spec ptr rest val size big : length ptr = size -> in_word 64 val ->
  exists out, uint64_to_bin (ptr ++ rest) val size big = (out ++ rest, bool_decide (val < 256 ^ Z.of_nat size)) /\
    out = (if big then be_store else le_store) size val /\
    (if big then be_load else le_load) out = val mod 256 ^ Z.of_nat size.
Proof.
  intros Hl Hv. exists ((if big then be_store else le_store) size val). split; [|split; [done|]].
  - unfold uint64_to_bin. assert (0 < 256 ^ Z.of_nat size) by (apply Z.pow_pos_nonneg; lia).
    assert ((val / 256 ^ Z.of_nat size =? 0) = bool_decide (val < 256 ^ Z.of_nat size)) as Hb.
    { unfold in_word in Hv. apply eq_iff_eq_true. rewrite Z.eqb_eq, bool_decide_eq_true.
      rewrite Z.div_small_iff by lia. lia. }
    destruct big.
    + rewrite to_bin_be by done. by rewrite Hb.
    + replace (ptr ++ rest) with ([] ++ (ptr ++ rest)) by done.
      assert (forall l k v, length l = size -> to_bin_loop (seq 0 size) (l ++ k) v
        = (le_store size v ++ k, v / 256 ^ Z.of_nat size)) as Happ.
      { clear. intros l k v Hl. pose proof (to_bin_le size l [] v Hl) as H. cbn in H.
        assert (forall ps l v, (forall p, p ∈ ps -> (p < length l)%nat) ->
          to_bin_loop ps (l ++ k) v = ((to_bin_loop ps l v).1 ++ k, (to_bin_loop ps l v).2)) as Hk.
        { clear. induction ps as [|p ps IH]; intros l v Hp; [done|]. cbn.
          rewrite insert_app_l by (apply Hp; left). apply IH. intros q Hq. rewrite length_insert. apply Hp. by right. }
        rewrite Hk, H; [done|]. intros p Hp%elem_of_seq. lia. }
      cbn [app]. rewrite Happ by done. by rewrite Hb.
  - destruct big; [|apply le_load_store]. unfold be_load, be_store. rewrite rev_involutive. apply le_load_store.
Qed.

(** [uint64_to_bin] writes the low [size] bytes of the value in the chosen byte
    order, touches nothing past them, and returns whether the value fits; a value
    that fits is read back. *)
Theorem uint64_to_bin_roundtrip ptr rest val size big : length ptr = size -> in_word 64 val ->
  exists out, uint64_to_bin (ptr ++ rest) val size big = (out ++ rest, bool_decide (val < 256 ^ Z.of_nat size)) /\
    out = (if big then be_store else le_store) size val /\
    (if big then be_load else le_load) out = val mod 256 ^ Z.of_nat size.
Proof. apply uint64_to_bin_spec. Qed.

Lemma uint64_to_bin_roundtrip_witness :
  uint64_to_bin [0; 0; 0; 7] 0x1234 3 true = ([0; 0x12; 0x34; 7], true) /\
  exists out, uint64_to_bin ([0; 0; 0] ++ [7]) 0x1234 3 true =
      (out ++ [7], bool_decide (0x1234 < 256 ^ Z.of_nat 3)) /\
    out = be_store 3 0x1234 /\ be_load out = 0x1234 mod 256 ^ Z.of_nat 3.
Proof.
  split; [reflexivity|]. apply (uint64_to_bin_roundtrip [0; 0; 0] [7] 0x1234 3 true); [reflexivity|].
  split; vm_compute; congruence.
Defined.
