(* ===== verification/Checksum.v ===== *)
(** Internet checksums: [core/utils/checksum.h].

    The three summing loops (AVX2, 8 bytes at a time, 2 bytes at a time) with their
    carries, the IPv4, UDP and TCP checksums over them and the incremental update.  The
    specification is the one's-complement sum of RFC 1071; the lemmas relate a carry
    chain to it by congruence modulo 2^16 - 1.  The flag [avx2] stands for the
    [#if __AVX2__] of the source; buffers are lists of bytes, an access outside of one
    is [None]. *)
From S2P Require Import Prelude.
Open Scope Z_scope.

(** ** Add-with-carry chains *)

(** The operand list of an [addl]/[adcl]/.../[adcl $0] block: each step adds the
    carry of the one before, the last one adds the final carry. *)
Fixpoint adc (w sum carry : Z) (us : list Z) : Z :=
  match us with
  | [] => wrap w (sum + carry)
  | u :: us' => adc w (wrap w (sum + u + carry)) ((sum + u + carry) / 2 ^ w) us'
  end.

(** ** 256-bit registers, as four 64-bit lanes *)
Definition dword (buf : bytes) (i : nat) : Z := le_load (take 4 (drop (4 * i) buf)).
Definition qword (buf : bytes) (i : nat) : Z := le_load (take 8 (drop (8 * i) buf)).

(** [_mm256_unpackhi_epi32(a, zero)] and [_mm256_unpacklo_epi32(a, zero)]. *)
Definition unpackhi_epi32 (a : bytes) : list Z :=
  [dword a 2; dword a 3; dword a 6; dword a 7].
Definition unpacklo_epi32 (a : bytes) : list Z :=
  [dword a 0; dword a 1; dword a 4; dword a 5].
Definition add_epi64 (a b : list Z) : list Z := zip_with (fun x y => u64 (x + y)) a b.

Record avx := Avx {
  sum_a_hi : list Z; sum_a_lo : list Z; sum_b_hi : list Z; sum_b_lo : list Z;
  avx_buf : bytes }.

Definition avx_start (buf : bytes) : avx :=
  Avx (unpackhi_epi32 (take 32 buf)) (unpacklo_epi32 (take 32 buf))
      (unpackhi_epi32 (take 32 (drop 32 buf))) (unpacklo_epi32 (take 32 (drop 32 buf)))
      (drop 64 buf).

Definition avx_body (s : avx) : option avx :=
  let a := take 32 (avx_buf s) in
  let b := take 32 (drop 32 (avx_buf s)) in
  Some (Avx (add_epi64 (sum_a_hi s) (unpackhi_epi32 a))
            (add_epi64 (sum_a_lo s) (unpacklo_epi32 a))
            (add_epi64 (sum_b_hi s) (unpackhi_epi32 b))
            (add_epi64 (sum_b_lo s) (unpacklo_epi32 b))
            (drop 64 (avx_buf s))).

(** The fold of the four sums into one 64-bit value. *)
Definition avx_fold (s : avx) : Z :=
  let sum256 := add_epi64 (add_epi64 (sum_a_hi s) (sum_a_lo s))
                          (add_epi64 (sum_b_hi s) (sum_b_lo s)) in
  let sum128 := add_epi64 (take 2 sum256) (drop 2 sum256) in
  u64 (0 + u64 (nth 0 sum128 0 + nth 1 sum128 0)).

(** The [#if __AVX2__] block: the partial sum and the bytes left to add. *)
Definition sum_avx2 (buf : bytes) : option (Z * bytes) :=
  if (128 <=? length buf)%nat then
    s ← while (length buf) (fun s => (64 <=? length (avx_buf s))%nat) avx_body
          (avx_start buf);
    Some (avx_fold s, avx_buf s)
  else Some (0, buf).

(** The two 64-bit loops of the [#if __x86_64] block; a loop state is the running
    sum and the unread rest of the buffer ([len] is its length throughout). *)
Definition sum_block8 (s : Z * bytes) : option (Z * bytes) :=
  let '(sum64, buf) := s in
  Some (adc 64 sum64 0 [qword buf 0; qword buf 1; qword buf 2; qword buf 3;
                        qword buf 4; qword buf 5; qword buf 6; qword buf 7], drop 64 buf).

Definition sum_block2 (s : Z * bytes) : option (Z * bytes) :=
  let '(sum64, buf) := s in
  Some (adc 64 sum64 0 [qword buf 0; qword buf 1], drop 16 buf).

Definition sum_word (s : Z * bytes) : option (Z * bytes) :=
  let '(sum64, buf) := s in
  Some (u64 (sum64 + le_load (take 2 buf)), drop 2 buf).

Definition has_bytes (n : nat) (s : Z * bytes) : bool := (n <=? length (snd s))%nat.

(** [sum64 = (sum64 >> 32) + (sum64 & 0xFFFFFFFF)] *)
Definition reduce64 (sum64 : Z) : Z :=
  u64 (Z.shiftr sum64 32 + Z.land sum64 0xFFFFFFFF).

Definition CalculateSum (avx2 : bool) (buf : bytes) : option Z :=
  let odd := Z.odd (Z.of_nat (length buf)) in
  s ← (if avx2 then sum_avx2 buf else Some (0, buf));
  s ← while (length buf) (has_bytes 64) sum_block8 s;
  s ← while (length buf) (has_bytes 16) sum_block2 s;
  s ← while (length buf) (has_bytes 2) sum_word (reduce64 (fst s), snd s);
  let '(sum64, rest) := s in
  let sum64 := if odd then u64 (sum64 + nth 0 rest 0) else sum64 in
  let sum64 := reduce64 sum64 in
  let sum64 := u64 (sum64 + Z.shiftr sum64 32) in
  Some (u32 sum64).

Definition FoldChecksum (cksum : Z) : Z :=
  let cksum := u32 (Z.shiftr cksum 16 + Z.land cksum 0xFFFF) in
  let cksum := u32 (cksum + Z.shiftr cksum 16) in
  u16 (Z.lnot cksum).

Definition CalculateGenericChecksum (avx2 : bool) (buf : bytes) : option Z :=
  sum ← CalculateSum avx2 buf; Some (FoldChecksum sum).

Definition VerifyGenericChecksum (avx2 : bool) (buf : bytes) (cksum : Z) : option bool :=
  ret ← CalculateGenericChecksum avx2 buf; Some (ret =? cksum).

(** ** IPv4 *)

(** [iph.header_length << 2], the low nibble of the first byte. *)
Definition ip_header_len (iph : bytes) : Z := Z.shiftl (Z.land (nth 0 iph 0) 15) 2.

Definition VerifyIpv4NoOptChecksum (iph : bytes) : bool :=
  let sum := adc 32 (dword iph 0) 0 [dword iph 1; dword iph 2; dword iph 3; dword iph 4] in
  FoldChecksum sum =? 0.

Definition CalculateIpv4NoOptChecksum (iph : bytes) : Z :=
  let sum := adc 32 (dword iph 0) 0
    [dword iph 1; Z.land (dword iph 2) 0xFFFF; dword iph 3; dword iph 4] in
  FoldChecksum sum.

Definition VerifyIpv4Checksum (avx2 : bool) (iph : bytes) : option bool :=
  let hl := ip_header_len iph in
  if hl =? 20 then Some (VerifyIpv4NoOptChecksum iph)
  else if hl <? 20 then Some false
  else
    opts ← slice 20 (hl - 20) iph;
    sum ← CalculateSum avx2 opts;
    let sum := adc 32 sum 0
      [dword iph 0; dword iph 1; dword iph 2; dword iph 3; dword iph 4] in
    Some (FoldChecksum sum =? 0).

Definition CalculateIpv4Checksum (avx2 : bool) (iph : bytes) : option Z :=
  let hl := ip_header_len iph in
  if hl =? 20 then Some (CalculateIpv4NoOptChecksum iph)
  else if hl <? 20 then Some 0
  else
    opts ← slice 20 (hl - 20) iph;
    sum ← CalculateSum avx2 opts;
    let sum := adc 32 sum 0
      [dword iph 0; dword iph 1; Z.land (dword iph 2) 0xFFFF; dword iph 3; dword iph 4] in
    Some (FoldChecksum sum).

(** ** UDP and TCP over IPv4.  [src] and [dst] are the raw (in-memory) values of
    the addresses, the segment is the header followed by its payload. *)
Definition swap16 (v : Z) : Z := Z.lor (Z.shiftl (Z.land v 0xFF) 8) (Z.shiftr v 8).

Definition udp_field_checksum (udph : bytes) : Z := le_load (take 2 (drop 6 udph)).
Definition udp_field_length (udph : bytes) : Z := be_load (take 2 (drop 4 udph)).

Definition VerifyIpv4UdpChecksum (avx2 : bool) (udph : bytes) (src dst udp_len : Z)
    : option bool :=
  if udp_field_checksum udph =? 0 then Some true
  else
    payload ← slice 8 (udp_len - 8) udph;
  sum ← CalculateSum avx2 payload;
    let len := swap16 udp_len in
    let sum := adc 32 sum 0 [dword udph 0; dword udph 1; src; dst; len; 0x1100] in
    Some (FoldChecksum sum =? 0).

Definition CalculateIpv4UdpChecksum (avx2 : bool) (udph : bytes) (src dst udp_len : Z)
    : option Z :=
  payload ← slice 8 (udp_len - 8) udph;
  sum ← CalculateSum avx2 payload;
  let len := swap16 udp_len in
  let sum := adc 32 sum 0
    [dword udph 0; Z.land (dword udph 1) 0xFFFF; src; dst; len; 0x1100] in
  Some (if FoldChecksum sum =? 0 then 0xFFFF else FoldChecksum sum).

Definition VerifyIpv4TcpChecksum (avx2 : bool) (tcph : bytes) (src dst tcp_len : Z)
    : option bool :=
  payload ← slice 20 (tcp_len - 20) tcph;
  sum ← CalculateSum avx2 payload;
  let len := swap16 tcp_len in
  let sum := adc 32 sum 0
    [dword tcph 0; dword tcph 1; dword tcph 2; dword tcph 3; dword tcph 4;
     src; dst; len; 0x0600] in
  Some (FoldChecksum sum =? 0).

Definition CalculateIpv4TcpChecksum (avx2 : bool) (tcph : bytes) (src dst tcp_len : Z)
    : option Z :=
  payload ← slice 20 (tcp_len - 20) tcph;
  sum ← CalculateSum avx2 payload;
  let len := swap16 tcp_len in
  let sum := adc 32 sum 0
    [dword tcph 0; dword tcph 1; dword tcph 2; dword tcph 3; Z.shiftr (dword tcph 4) 16;
     src; dst; len; 0x0600] in
  Some (FoldChecksum sum).

(** The overloads that read addresses and lengths from the headers. *)
Definition ip_src (iph : bytes) : Z := dword iph 3.
Definition ip_dst (iph : bytes) : Z := dword iph 4.
Definition ip_length (iph : bytes) : Z := be_load (take 2 (drop 2 iph)).

Definition VerifyIpv4UdpChecksum_hdr (avx2 : bool) (iph udph : bytes) : option bool :=
  let udp_len := udp_field_length udph in
  if udp_len <? 8 then Some false
  else VerifyIpv4UdpChecksum avx2 udph (ip_src iph) (ip_dst iph) udp_len.

Definition CalculateIpv4UdpChecksum_hdr (avx2 : bool) (iph udph : bytes) : option Z :=
  let udp_len := udp_field_length udph in
  if udp_len <? 8 then Some 0
  else CalculateIpv4UdpChecksum avx2 udph (ip_src iph) (ip_dst iph) udp_len.

Definition VerifyIpv4TcpChecksum_hdr (avx2 : bool) (iph tcph : bytes) : option bool :=
  if ip_length iph <? ip_header_len iph + 20 then Some false
  else VerifyIpv4TcpChecksum avx2 tcph (ip_src iph) (ip_dst iph)
         (u16 (ip_length iph - ip_header_len iph)).

Definition CalculateIpv4TcpChecksum_hdr (avx2 : bool) (iph tcph : bytes) : option Z :=
  if ip_length iph <? ip_header_len iph + 20 then Some 0
  else CalculateIpv4TcpChecksum avx2 tcph (ip_src iph) (ip_dst iph)
         (u16 (ip_length iph - ip_header_len iph)).

(** ** Incremental update (RFC 1624) *)
Definition ChecksumIncrement32 (old_value new_value : Z) : Z :=
  let nv := u32 (Z.lnot old_value) in
  let sum := u32 (Z.shiftr nv 16 + Z.land nv 0xFFFF) in
  u32 (sum + u32 (Z.shiftr new_value 16 + Z.land new_value 0xFFFF)).

Definition ChecksumIncrement16 (old_value new_value : Z) : Z :=
  u32 (Z.land (Z.lnot old_value) 0xFFFF + new_value).

Definition UpdateChecksumWithIncrement (old_checksum increment : Z) : Z :=
  FoldChecksum (u32 (Z.land (Z.lnot old_checksum) 0xFFFF + increment)).

Definition UpdateChecksum32 (old_checksum old_value new_value : Z) : Z :=
  UpdateChecksumWithIncrement old_checksum (ChecksumIncrement32 old_value new_value).

Definition UpdateChecksum16 (old_checksum old_value new_value : Z) : Z :=
  UpdateChecksumWithIncrement old_checksum (ChecksumIncrement16 old_value new_value).

(** ** One's-complement sums

    [oc x y]: [x] and [y] are naturals with the same 16-bit one's-complement
    value.  It is a partial equivalence coarser than equality; sums respect it. *)
Definition oc (x y : Z) : Prop :=
  0 <= x /\ 0 <= y /\ (x = 0 <-> y = 0) /\ exists k, x - y = 65535 * k.

#[export] Instance oc_sym : Symmetric oc.
Proof. intros x y (? & ? & ? & k & Hk). repeat split; try tauto. exists (- k). lia. Qed.

#[export] Instance oc_trans : Transitive oc.
Proof.
  intros x y z (? & ? & ? & k & Hk) (? & ? & ? & j & Hj).
  repeat split; try tauto. exists (k + j). lia.
Qed.

#[export] Instance oc_add : Proper (oc ==> oc ==> oc) Z.add.
Proof.
  intros x x' (? & ? & ? & k & Hk) y y' (? & ? & ? & j & Hj).
  repeat split; try lia. exists (k + j). lia.
Qed.

Lemma oc_refl x : 0 <= x -> oc x x.
Proof. intros. repeat split; try lia. exists 0. lia. Qed.

(** [oc] is reflexive on naturals only: setoid rewriting under a sum discharges
    the other operand by arithmetic. *)
#[export] Hint Extern 4 (ProperProxy oc _) => (apply oc_refl; lia) : typeclass_instances.
#[export] Hint Extern 4 (Proper oc _) => (apply oc_refl; lia) : typeclass_instances.

(** A carry out of a 16-, 32- or 64-bit position weighs one. *)
Lemma oc_carry w h l : (w = 16 \/ w = 32 \/ w = 64) -> 0 <= h -> 0 <= l ->
  oc (h * 2 ^ w + l) (h + l).
Proof.
  intros [-> | [-> | ->]] ? ?; repeat split; try lia.
  - exists h. lia.
  - exists (h * 65537). lia.
  - exists (h * 281479271743489). lia.
Qed.

Lemma oc_split w x : (w = 16 \/ w = 32 \/ w = 64) -> 0 <= x ->
  oc x (x / 2 ^ w + x mod 2 ^ w).
Proof.
  intros Hw Hx.
  assert (0 < 2 ^ w) by (destruct Hw as [-> | [-> | ->]]; lia).
  rewrite (Z.div_mod x (2 ^ w)) at 1 by lia. rewrite (Z.mul_comm (2 ^ w)).
  apply oc_carry; [done|apply Z.div_pos; lia|apply Z.mod_pos_bound; lia].
Qed.

(** The canonical 16-bit one's-complement value: 0 only for 0. *)
Definition oc_norm (x : Z) : Z := if x =? 0 then 0 else (x - 1) mod 65535 + 1.

Lemma oc_norm_range x : 0 <= x -> 0 <= oc_norm x <= 65535.
Proof. intros. unfold oc_norm. case_match; zlia. Qed.

Lemma oc_norm_oc x : 0 <= x -> oc (oc_norm x) x.
Proof.
  intros. unfold oc_norm. case_match; repeat split; try zlia.
  - exists 0. lia.
  - exists (- ((x - 1) / 65535)). zlia.
Qed.

Lemma oc_norm_eq x y : oc x y -> oc_norm x = oc_norm y.
Proof. intros (? & ? & ? & k & Hk). unfold oc_norm. repeat case_match; zlia. Qed.

#[export] Instance oc_norm_proper : Proper (oc ==> eq) oc_norm.
Proof. intros x y. apply oc_norm_eq. Qed.

(** *** The specification (RFC 1071)

    The sum of the little-endian 16-bit words; an odd last byte is padded with
    a zero byte. *)
Fixpoint sum16 (l : bytes) : Z :=
  match l with
  | [] => 0
  | [b] => b
  | b0 :: b1 :: l' => b0 + 256 * b1 + sum16 l'
  end.

Definition internet_checksum (S : Z) : Z := 65535 - oc_norm S.

(** Induction over a byte string two bytes at a time. *)
Lemma pair_ind (P : bytes -> Prop) :
  P [] -> (forall b, P [b]) -> (forall b0 b1 l, P l -> P (b0 :: b1 :: l)) ->
  forall l, P l.
Proof.
  intros H0 H1 H2.
  assert (Hboth : forall l, P l /\ forall b, P (b :: l)).
  { induction l as [|b l [IH IH']]; [by auto|]. split; [by apply IH'|auto]. }
  intros l. apply Hboth.
Qed.

Lemma sum16_nonneg l : bytes_ok l -> 0 <= sum16 l.
Proof.
  induction l as [|b|b0 b1 l IH] using pair_ind; cbn; intros Hok; [lia| |].
  - inversion Hok; subst. unfold in_word in *. lia.
  - inversion Hok as [|?? ? Hok']; inversion Hok'; subst. unfold in_word in *.
    specialize (IH ltac:(done)). lia.
Qed.

Lemma sum16_zero l : bytes_ok l -> sum16 l = 0 -> Forall (fun b => b = 0) l.
Proof.
  induction l as [|b|b0 b1 l IH] using pair_ind; cbn [sum16]; intros Hok Hz; [constructor|by constructor|].
  apply Forall_cons in Hok as [H0 Hok]. apply Forall_cons in Hok as [H1 Hok]. pose proof (sum16_nonneg l Hok).
  unfold in_word in *. repeat constructor; [lia|lia|apply IH; [done|lia]].
Qed.

Lemma sum16_app l k : Z.odd (Z.of_nat (length l)) = false ->
  sum16 (l ++ k) = sum16 l + sum16 k.
Proof.
  induction l as [|b|b0 b1 l IH] using pair_ind; cbn [length app sum16]; intros Hev.
  - lia.
  - done.
  - rewrite !Nat2Z.inj_succ, Z.odd_succ, Z.even_succ in Hev. rewrite IH by done. lia.
Qed.

(** A little-endian word of any size is congruent to the sum of its halves. *)
Lemma le_load_oc l : bytes_ok l -> oc (le_load l) (sum16 l).
Proof.
  induction l as [|b|b0 b1 l IH] using pair_ind; cbn [le_load sum16]; intros Hok.
  - by apply oc_refl.
  - inversion Hok; subst. unfold in_word in *. rewrite Z.add_0_r. apply oc_refl. lia.
  - inversion Hok as [|?? ? Hok']; inversion Hok' as [|?? ? Hl]; subst.
    unfold in_word in *.
    replace (b0 + 256 * (b1 + 256 * le_load l))
      with (le_load l * 2 ^ 16 + (b0 + 256 * b1)) by lia.
    pose proof (le_load_bound l Hl). pose proof (sum16_nonneg l Hl).
    rewrite oc_carry by (auto || lia). rewrite (Z.add_comm (le_load l)).
    rewrite (IH Hl). apply oc_refl. lia.
Qed.

(** *** Carry chains *)
Definition lsum (l : list Z) : Z := foldr Z.add 0 l.

Definition carry_ok (w s c : Z) : Prop := in_word w s /\ (c = 0 \/ c = 1 /\ s <= 2 ^ w - 2).

Lemma lsum_nonneg w l : Forall (in_word w) l -> 0 <= lsum l.
Proof. unfold lsum. induction 1; cbn; [lia|]. unfold in_word in *. lia. Qed.

(** The chain never loses a carry: when a carry is pending the register is at
    most [2^w - 2], so the final [adcl $0] cannot overflow. *)
Lemma adc_step w s c u : (w = 32 \/ w = 64) -> carry_ok w s c -> in_word w u ->
  carry_ok w (wrap w (s + u + c)) ((s + u + c) / 2 ^ w).
Proof.
  intros Hw [Hs Hc] Hu. unfold carry_ok, in_word, wrap in *.
  destruct Hw as [-> | ->]; zlia.
Qed.

Lemma adc_oc w s c us : (w = 32 \/ w = 64) -> carry_ok w s c -> Forall (in_word w) us ->
  in_word w (adc w s c us) /\ oc (adc w s c us) (s + c + lsum us).
Proof.
  intros Hw Hc Hus. revert s c Hc. induction Hus as [|u us Hu Hus IH]; intros s c Hc.
  - cbn [adc lsum foldr]. destruct Hc as [Hs Hc]. rewrite wrap_small.
    + split; [|rewrite Z.add_0_r; apply oc_refl]; unfold in_word in *; lia.
    + unfold in_word in *. lia.
  - cbn [adc]. pose proof (adc_step w s c u Hw Hc Hu) as Hc'.
    destruct (IH _ _ Hc') as [Hr Hoc]. split; [done|]. rewrite Hoc. cbn [lsum foldr].
    pose proof (lsum_nonneg w us Hus) as Hn. unfold lsum in *.
    destruct Hc as [Hs Hc0]. unfold in_word in *.
    replace (s + c + (u + foldr Z.add 0 us)) with ((s + u + c) + foldr Z.add 0 us) by lia.
    apply oc_add; [|by apply oc_refl].
    rewrite (Z.add_comm (wrap _ _)). symmetry.
    apply oc_split; [tauto|lia].
Qed.

Lemma adc32_oc s us : in_word 32 s -> Forall (in_word 32) us ->
  in_word 32 (adc 32 s 0 us) /\ oc (adc 32 s 0 us) (s + lsum us).
Proof.
  intros Hs Hus. rewrite <- (Z.add_0_r s) at 3.
  apply adc_oc; [auto| |done]. split; auto.
Qed.

Lemma adc64_oc s us : in_word 64 s -> Forall (in_word 64) us ->
  in_word 64 (adc 64 s 0 us) /\ oc (adc 64 s 0 us) (s + lsum us).
Proof.
  intros Hs Hus. rewrite <- (Z.add_0_r s) at 3.
  apply adc_oc; [auto| |done]. split; auto.
Qed.

(** *** Reading a buffer in chunks of [n] bytes *)
Definition chunk (n : nat) (buf : bytes) (i : nat) : Z := le_load (take n (drop (n * i) buf)).

Lemma chunk_bound n buf i : bytes_ok buf -> 0 <= chunk n buf i < 256 ^ Z.of_nat n.
Proof.
  intros Hok. unfold chunk.
  pose proof (le_load_bound (take n (drop (n * i) buf)) ltac:(auto with bess)) as [? Hlt].
  split; [done|]. eapply Z.lt_le_trans; [exact Hlt|].
  apply Z.pow_le_mono_r; [lia|]. rewrite length_take. lia.
Qed.

Lemma dword_word buf i : bytes_ok buf -> in_word 32 (dword buf i).
Proof. apply (chunk_bound 4). Qed.

Lemma qword_word buf i : bytes_ok buf -> in_word 64 (qword buf i).
Proof. apply (chunk_bound 8). Qed.

#[local] Hint Resolve dword_word qword_word : bess.

Lemma sum16_take_drop n l : Z.odd (Z.of_nat n) = false -> (n <= length l)%nat ->
  sum16 l = sum16 (take n l) + sum16 (drop n l).
Proof.
  intros Hev Hle. rewrite <- (take_drop n l) at 1. apply sum16_app.
  by rewrite length_take_le.
Qed.

Lemma chunks_oc n k buf : Z.odd (Z.of_nat n) = false -> bytes_ok buf ->
  (n * k <= length buf)%nat ->
  oc (lsum (map (chunk n buf) (seq 0 k)) + sum16 (drop (n * k) buf)) (sum16 buf).
Proof.
  intros Hev Hok. induction k as [|k IH]; intros Hle.
  - rewrite Nat.mul_0_r. cbn. apply oc_refl. by apply sum16_nonneg.
  - rewrite seq_S, map_app. unfold lsum. rewrite foldr_app. cbn [map foldr].
    assert (Hfold : forall l a, foldr Z.add a l = foldr Z.add 0 l + a).
    { clear. induction l as [|x l IHl]; intros a; cbn; [lia|]. rewrite IHl. lia. }
    rewrite Hfold. rewrite <- IH by lia. rewrite <- Z.add_assoc.
    assert (0 <= foldr Z.add 0 (map (chunk n buf) (seq 0 k))).
    { clear -Hok. induction (seq 0 k); cbn; [lia|].
      pose proof (chunk_bound n buf a Hok). lia. }
    apply oc_add; [by apply oc_refl|].
    rewrite (sum16_take_drop n (drop (n * k) buf)) by (done || (rewrite length_drop; lia)).
    rewrite drop_drop. replace (n * k + n)%nat with (n * S k)%nat by lia.
    assert (0 <= sum16 (drop (n * S k) buf)) by (apply sum16_nonneg; auto with bess).
    rewrite Z.add_0_r. cbn [Nat.add]. unfold chunk. rewrite le_load_oc by auto with bess.
    apply oc_refl. pose proof (sum16_nonneg (take n (drop (n * k) buf))) as Hs.
    specialize (Hs ltac:(auto with bess)). lia.
Qed.

(** *** The scalar loops

    The running sum plus the sum of the unread bytes keeps its one's-complement
    value [S0], and the number of unread bytes its parity [p]. *)
Definition sum_inv (S0 : Z) (p : bool) (s : Z * bytes) : Prop :=
  in_word 64 (fst s) /\ bytes_ok (snd s) /\ oc (fst s + sum16 (snd s)) S0 /\
  Z.odd (Z.of_nat (length (snd s))) = p.

Lemma odd_drop n (l : bytes) : Z.odd (Z.of_nat n) = false -> (n <= length l)%nat ->
  Z.odd (Z.of_nat (length (drop n l))) = Z.odd (Z.of_nat (length l)).
Proof.
  intros Hev Hle. rewrite length_drop, Nat2Z.inj_sub by done.
  rewrite Z.odd_sub, Hev. by rewrite xorb_false_r.
Qed.

Lemma sum_block_inv n k S0 p us s :
  Z.odd (Z.of_nat n) = false -> sum_inv S0 p s -> (n * k <= length (snd s))%nat ->
  us = map (chunk n (snd s)) (seq 0 k) -> Forall (in_word 64) us ->
  sum_inv S0 p (adc 64 (fst s) 0 us, drop (n * k) (snd s)).
Proof.
  destruct s as [s64 buf]. intros Hev (Hw & Hok & Hoc & Hp) Hle Hus Hall.
  cbn [fst snd] in *. destruct (adc64_oc s64 us Hw Hall) as [Hw' Hoc'].
  split; [done|]. cbn [fst snd]. split; [by auto with bess|]. split.
  - assert (0 <= sum16 (drop (n * k) buf)) by (apply sum16_nonneg; auto with bess).
    rewrite Hoc', <- Z.add_assoc, <- Hoc.
    apply oc_add; [apply oc_refl; unfold in_word in Hw; lia|].
    subst us. by apply chunks_oc.
  - rewrite odd_drop; [done| |done]. by rewrite Nat2Z.inj_mul, Z.odd_mul, Hev.
Qed.

Lemma has_bytes_true n s : has_bytes n s = true -> (n <= length (snd s))%nat.
Proof. apply Nat.leb_le. Qed.

Lemma has_bytes_false n s : has_bytes n s = false -> (length (snd s) < n)%nat.
Proof. apply Nat.leb_gt. Qed.

(** A loop that consumes [n > 0] bytes per turn and keeps [I] ends with [I] and
    fewer than [n] unread bytes. *)
Lemma consume_loop (I : Z * bytes -> Prop) n body fuel s :
  (0 < n)%nat ->
  (forall s, I s -> (n <= length (snd s))%nat ->
     exists v, body s = Some (v, drop n (snd s)) /\ I (v, drop n (snd s))) ->
  I s -> (length (snd s) <= fuel)%nat ->
  exists s', while fuel (has_bytes n) body s = Some s' /\ I s' /\
    (length (snd s') < n)%nat /\ (length (snd s') <= length (snd s))%nat.
Proof.
  intros Hn Hbody HI Hf.
  destruct (while_total (fun s' => I s' /\ (length (snd s') <= length (snd s))%nat)
    (fun s => length (snd s)) (has_bytes n) body fuel s)
    as (s' & ? & [? ?] & Hc); [|done|done|].
  - intros s0 [HI0 Hle] Hc%has_bytes_true. destruct (Hbody s0 HI0 Hc) as (v & Hv & HIv).
    eexists. split; [done|]. cbn [snd]. rewrite length_drop. split; [split; [done|lia]|lia].
  - apply has_bytes_false in Hc. eauto 6.
Qed.

Lemma sum_loop8 S0 p s fuel : sum_inv S0 p s -> (length (snd s) <= fuel)%nat ->
  exists s', while fuel (has_bytes 64) sum_block8 s = Some s' /\ sum_inv S0 p s' /\
    (length (snd s') < 64)%nat /\ (length (snd s') <= length (snd s))%nat.
Proof.
  apply consume_loop; [lia|]. intros [s64 buf] HI Hc. eexists. split; [done|].
  apply (sum_block_inv 8 8 S0 p _ (s64, buf)); [done|done|exact Hc|reflexivity|].
  destruct HI as (_ & Hok & _). cbn in Hok. forall_each ltac:(auto with bess).
Qed.

Lemma sum_loop2 S0 p s fuel : sum_inv S0 p s -> (length (snd s) <= fuel)%nat ->
  exists s', while fuel (has_bytes 16) sum_block2 s = Some s' /\ sum_inv S0 p s' /\
    (length (snd s') < 16)%nat /\ (length (snd s') <= length (snd s))%nat.
Proof.
  apply consume_loop; [lia|]. intros [s64 buf] HI Hc. eexists. split; [done|].
  apply (sum_block_inv 8 2 S0 p _ (s64, buf)); [done|done|exact Hc|reflexivity|].
  destruct HI as (_ & Hok & _). cbn in Hok. forall_each ltac:(auto with bess).
Qed.

Lemma reduce64_eq s : in_word 64 s -> reduce64 s = s / 2 ^ 32 + s mod 2 ^ 32.
Proof.
  intros Hs. unfold reduce64. rewrite land_ffffffff, Z.shiftr_div_pow2 by lia. apply wrap_small. word.
Qed.

Lemma reduce64_inv S0 p s : sum_inv S0 p s -> sum_inv S0 p (reduce64 (fst s), snd s).
Proof.
  intros (Hw & Hok & Hoc & Hp). cbn [fst snd].
  split; [|split; [done|split; [|done]]]; cbn [fst snd]; rewrite reduce64_eq by done.
  - word.
  - pose proof (sum16_nonneg _ Hok). rewrite <- Hoc. apply oc_add; [|by apply oc_refl].
    symmetry. apply oc_split; [auto|unfold in_word in Hw; lia].
Qed.

(** The 16-bit loop adds at most [2^16] per word, so it cannot wrap. *)
Definition word_inv (S0 : Z) (p : bool) (s : Z * bytes) : Prop :=
  sum_inv S0 p s /\ fst s + 65536 * Z.of_nat (length (snd s)) <= 2 ^ 34.

Lemma sum_loop16 S0 p s fuel : word_inv S0 p s -> (length (snd s) <= fuel)%nat ->
  exists s', while fuel (has_bytes 2) sum_word s = Some s' /\ word_inv S0 p s' /\
    (length (snd s') < 2)%nat /\ (length (snd s') <= length (snd s))%nat.
Proof.
  apply consume_loop; [lia|]. intros [s64 buf] [(Hw & Hok & Hoc & Hp) Hb] Hc.
  cbn [fst snd] in *. eexists. split; [done|]. cbn [fst snd].
  pose proof (le_load_bound (take 2 buf) ltac:(auto with bess)) as Hl.
  rewrite length_take_le in Hl by done. change (256 ^ Z.of_nat 2) with 65536 in Hl.
  rewrite wrap_small by word. unfold word_inv, sum_inv; cbn [fst snd].
  rewrite length_drop. split; [split; [word|split; [by auto with bess|split]]|].
  - assert (0 <= sum16 (drop 2 buf)) by (apply sum16_nonneg; auto with bess).
    unfold in_word in Hw. rewrite <- Hoc, (sum16_take_drop 2 buf), Z.add_assoc by done.
    apply oc_add; [|by apply oc_refl]. apply oc_add; [apply oc_refl; lia|].
    apply le_load_oc. auto with bess.
  - rewrite <- length_drop. by rewrite odd_drop.
  - lia.
Qed.

(** The closing reduction to 32 bits. *)
Lemma final_reduce s : 0 <= s < 2 ^ 35 ->
  let r := reduce64 s in
  in_word 32 (u32 (u64 (r + Z.shiftr r 32))) /\ oc (u32 (u64 (r + Z.shiftr r 32))) s.
Proof.
  intros Hs. cbn zeta. assert (in_word 64 s) by word. rewrite reduce64_eq by done.
  rewrite Z.shiftr_div_pow2 by lia.
  split; [apply wrap_range; lia|].
  transitivity (s / 2 ^ 32 + s mod 2 ^ 32); [|symmetry; apply oc_split; [auto|lia]].
  set (r := s / 2 ^ 32 + s mod 2 ^ 32). assert (0 <= r < 2 ^ 32 + 8) by (subst r; word).
  clearbody r. rewrite (wrap_small 64) by word. unfold wrap.
  repeat split; try word. exists ((- (r / 2 ^ 32)) * 65537). word.
Qed.

(** *** The AVX2 prologue *)
Definition lanes_ok (B : Z) (l : list Z) : Prop :=
  length l = 4%nat /\ Forall (fun x => 0 <= x <= B) l.

Lemma lanes_inv B l : lanes_ok B l -> exists a b c d, l = [a; b; c; d] /\
  0 <= a <= B /\ 0 <= b <= B /\ 0 <= c <= B /\ 0 <= d <= B.
Proof.
  intros [Hlen Hall]. destruct l as [|a [|b [|c [|d [|]]]]]; try done.
  rewrite !Forall_cons in Hall. exists a, b, c, d. tauto.
Qed.

Lemma lanes_nonneg B l : lanes_ok B l -> 0 <= lsum l <= 4 * B.
Proof. intros (a & b & c & d & -> & ? & ? & ? & ?)%lanes_inv. cbn. lia. Qed.

Lemma lanes_add A B l k : lanes_ok A l -> lanes_ok B k -> A + B < 2 ^ 64 ->
  lanes_ok (A + B) (add_epi64 l k) /\ lsum (add_epi64 l k) = lsum l + lsum k.
Proof.
  intros (a & b & c & d & -> & ? & ? & ? & ?)%lanes_inv
    (a' & b' & c' & d' & -> & ? & ? & ? & ?)%lanes_inv Hlt.
  unfold add_epi64. cbn [zip_with]. rewrite !wrap_small by (unfold in_word; lia).
  split; [split; [done|]|cbn; lia].
  forall_each ltac:(lia).
Qed.

Lemma dword_lane a i : bytes_ok a -> 0 <= dword a i <= 2 ^ 32.
Proof. intros Ha. pose proof (dword_word a i Ha). unfold in_word in *. lia. Qed.

Lemma unpack_ok a : bytes_ok a ->
  lanes_ok (2 ^ 32) (unpackhi_epi32 a) /\ lanes_ok (2 ^ 32) (unpacklo_epi32 a).
Proof. intros Ha. split; split; try done; forall_each ltac:(by apply dword_lane). Qed.

Lemma unpack_oc a : bytes_ok a -> length a = 32%nat ->
  oc (lsum (unpackhi_epi32 a) + lsum (unpacklo_epi32 a)) (sum16 a).
Proof.
  intros Ha Hlen. pose proof (chunks_oc 4 8 a eq_refl Ha ltac:(lia)) as H.
  rewrite drop_ge in H by lia. rewrite <- H.
  replace (lsum (map (chunk 4 a) (seq 0 8)) + sum16 [])
    with (lsum (unpackhi_epi32 a) + lsum (unpacklo_epi32 a))
    by (unfold chunk, dword, unpackhi_epi32, unpacklo_epi32, dword; cbn; lia).
  destruct (unpack_ok a Ha) as [?%lanes_nonneg ?%lanes_nonneg]. apply oc_refl. lia.
Qed.

Definition avx_lanes (s : avx) : Z :=
  lsum (sum_a_hi s) + lsum (sum_a_lo s) + (lsum (sum_b_hi s) + lsum (sum_b_lo s)).

(** After [k] turns every lane holds at most [k] dwords; nothing wraps as long as
    the buffer is shorter than [2^32] bytes. *)
Definition avx_inv (S0 : Z) (p : bool) (total : nat) (s : avx) : Prop :=
  exists k : nat, (64 * k + length (avx_buf s) = total)%nat /\
    lanes_ok (Z.of_nat k * 2 ^ 32) (sum_a_hi s) /\ lanes_ok (Z.of_nat k * 2 ^ 32) (sum_a_lo s) /\
    lanes_ok (Z.of_nat k * 2 ^ 32) (sum_b_hi s) /\ lanes_ok (Z.of_nat k * 2 ^ 32) (sum_b_lo s) /\
    bytes_ok (avx_buf s) /\ oc (avx_lanes s + sum16 (avx_buf s)) S0 /\
    Z.odd (Z.of_nat (length (avx_buf s))) = p.

(** The two 32-byte blocks at the head of a buffer. *)
Lemma unpack_blocks buf : bytes_ok buf -> (64 <= length buf)%nat ->
  let a := take 32 buf in let b := take 32 (drop 32 buf) in
  oc (lsum (unpackhi_epi32 a) + lsum (unpacklo_epi32 a) +
      (lsum (unpackhi_epi32 b) + lsum (unpacklo_epi32 b)) + sum16 (drop 64 buf)) (sum16 buf).
Proof.
  intros Hok Hlen a b. rewrite (sum16_take_drop 32 buf) by (done || lia).
  rewrite (sum16_take_drop 32 (drop 32 buf)) by (done || (rewrite length_drop; lia)).
  rewrite drop_drop, <- Z.add_assoc. change (32 + 32)%nat with 64%nat.
  assert (bytes_ok a /\ bytes_ok b) as [Ha Hb] by (split; subst a b; auto with bess).
  pose proof (sum16_nonneg (drop 64 buf) ltac:(auto with bess)).
  apply oc_add; [|apply oc_add; [|by apply oc_refl]]; apply unpack_oc; try done.
  - subst a. rewrite length_take. lia.
  - subst b. rewrite length_take, length_drop. lia.
Qed.

Lemma avx_start_inv buf : bytes_ok buf -> (64 <= length buf)%nat ->
  avx_inv (sum16 buf) (Z.odd (Z.of_nat (length buf))) (length buf) (avx_start buf).
Proof.
  intros Hok Hlen. exists 1%nat. unfold avx_start, avx_lanes; cbn [avx_buf sum_a_hi sum_a_lo sum_b_hi sum_b_lo].
  rewrite Z.mul_1_l. split; [rewrite length_drop; lia|].
  destruct (unpack_ok (take 32 buf)) as [? ?]; [auto with bess|].
  destruct (unpack_ok (take 32 (drop 32 buf))) as [? ?]; [auto with bess|].
  do 4 (split; [done|]). split; [by auto with bess|]. split; [by apply unpack_blocks|].
  apply odd_drop; [done|lia].
Qed.

Lemma avx_body_inv S0 p total s : Z.of_nat total < 2 ^ 32 -> avx_inv S0 p total s ->
  (64 <= length (avx_buf s))%nat ->
  exists s', avx_body s = Some s' /\ avx_inv S0 p total s' /\
             (length (avx_buf s') < length (avx_buf s))%nat.
Proof.
  destruct s as [ah al bh bl buf]. intros Htot (k & Hk & Hah & Hal & Hbh & Hbl & Hok & Hoc & Hp) Hlen.
  unfold avx_body; cbn [avx_buf sum_a_hi sum_a_lo sum_b_hi sum_b_lo] in *.
  eexists. split; [done|].
  cbn [avx_buf sum_a_hi sum_a_lo sum_b_hi sum_b_lo]. rewrite length_drop. split; [|lia].
  destruct (unpack_ok (take 32 buf)) as [Ha1 Ha2]; [auto with bess|].
  destruct (unpack_ok (take 32 (drop 32 buf))) as [Hb1 Hb2]; [auto with bess|].
  exists (S k). unfold avx_lanes in *; cbn [avx_buf sum_a_hi sum_a_lo sum_b_hi sum_b_lo] in *.
  replace (Z.of_nat (S k) * 2 ^ 32) with (Z.of_nat k * 2 ^ 32 + 2 ^ 32) by lia.
  destruct (lanes_add _ _ _ _ Hah Ha1) as [? ->]; [lia|].
  destruct (lanes_add _ _ _ _ Hal Ha2) as [? ->]; [lia|].
  destruct (lanes_add _ _ _ _ Hbh Hb1) as [? ->]; [lia|].
  destruct (lanes_add _ _ _ _ Hbl Hb2) as [? ->]; [lia|].
  split; [rewrite length_drop; lia|]. do 4 (split; [done|]). split; [by auto with bess|].
  split; [|rewrite <- Hp; apply odd_drop; [done|lia]].
  pose proof (lanes_nonneg _ _ Hah). pose proof (lanes_nonneg _ _ Hal).
  pose proof (lanes_nonneg _ _ Hbh). pose proof (lanes_nonneg _ _ Hbl).
  rewrite <- Hoc. rewrite <- (unpack_blocks buf Hok Hlen).
  pose proof (lanes_nonneg _ _ Ha1). pose proof (lanes_nonneg _ _ Ha2).
  pose proof (lanes_nonneg _ _ Hb1). pose proof (lanes_nonneg _ _ Hb2).
  pose proof (sum16_nonneg (drop 64 buf) ltac:(auto with bess)).
  match goal with |- oc ?x ?y => replace y with x by lia end. apply oc_refl. lia.
Qed.

Lemma avx_fold_eq S0 p total s : Z.of_nat total < 2 ^ 32 -> avx_inv S0 p total s ->
  avx_fold s = avx_lanes s /\ in_word 64 (avx_lanes s).
Proof.
  intros Htot (k & Hk & Hah & Hal & Hbh & Hbl & _). unfold avx_fold, avx_lanes.
  destruct (lanes_add _ _ _ _ Hah Hal) as [Ha <-]; [lia|].
  destruct (lanes_add _ _ _ _ Hbh Hbl) as [Hb <-]; [lia|].
  destruct (lanes_add _ _ _ _ Ha Hb) as [Hs <-]; [lia|].
  destruct (lanes_inv _ _ Hs) as (x & y & z & w & -> & ? & ? & ? & ?).
  unfold add_epi64. cbn [take drop zip_with nth lsum foldr].
  rewrite (wrap_small 64 (x + z)), (wrap_small 64 (y + w)) by (unfold in_word; lia).
  rewrite (wrap_small 64 (x + z + (y + w))), Z.add_0_l by (unfold in_word; lia).
  rewrite wrap_small by (unfold in_word; lia). unfold in_word; lia.
Qed.

Lemma sum_avx2_spec buf : bytes_ok buf -> Z.of_nat (length buf) < 2 ^ 32 ->
  exists s, sum_avx2 buf = Some s /\ (length (snd s) <= length buf)%nat /\
    sum_inv (sum16 buf) (Z.odd (Z.of_nat (length buf))) s.
Proof.
  intros Hok Hlen. unfold sum_avx2. destruct (128 <=? length buf)%nat eqn:Hc.
  - apply Nat.leb_le in Hc.
    pose proof (avx_start_inv buf Hok ltac:(lia)) as HI.
    set (I := avx_inv _ _ _) in HI.
    destruct (while_total I (fun s => length (avx_buf s))
      (fun s => (64 <=? length (avx_buf s))%nat) avx_body (length buf) (avx_start buf))
      as (s & -> & HI' & _); [|done| |].
    { intros s Hs Hge%Nat.leb_le. exact (avx_body_inv _ _ _ s Hlen Hs Hge). }
    { unfold avx_start; cbn [avx_buf]. rewrite length_drop. lia. }
    cbn. eexists. split; [done|]. cbn [fst snd].
    destruct (avx_fold_eq _ _ _ _ Hlen HI') as [-> ?].
    destruct HI' as (k & Hk & _ & _ & _ & _ & ? & ? & ?). split; [lia|]. done.
  - eexists. split; [done|]. split; [done|]. split; [by unfold in_word|].
    split; [done|]. split; [|done]. cbn [fst snd]. rewrite Z.add_0_l.
    apply oc_refl. by apply sum16_nonneg.
Qed.

(** *** The main lemma: total, and the right one's-complement value. *)
Lemma CalculateSum_oc avx2 buf : bytes_ok buf -> Z.of_nat (length buf) < 2 ^ 32 ->
  exists sum, CalculateSum avx2 buf = Some sum /\ in_word 32 sum /\ oc sum (sum16 buf).
Proof.
  intros Hok Hlen. unfold CalculateSum.
  assert (exists s, (if avx2 then sum_avx2 buf else Some (0, buf)) = Some s /\
    (length (snd s) <= length buf)%nat /\
    sum_inv (sum16 buf) (Z.odd (Z.of_nat (length buf))) s) as (s & -> & Hs & HI).
  { destruct avx2; [by apply sum_avx2_spec|]. exists (0, buf).
    do 2 (split; [done|]). split; [done|]. split; [done|]. split; [|done].
    cbn [fst snd]. rewrite Z.add_0_l. by apply oc_refl, sum16_nonneg. }
  cbn [mbind option_bind].
  destruct (sum_loop8 _ _ s _ HI Hs) as (s1 & -> & HI1 & _ & Hl1). cbn [mbind option_bind].
  destruct (sum_loop2 _ _ s1 (length buf) HI1) as (s2 & -> & HI2 & Hl2 & Hl2'); [lia|].
  cbn [mbind option_bind].
  destruct (sum_loop16 (sum16 buf) (Z.odd (Z.of_nat (length buf)))
    (reduce64 (fst s2), snd s2) (length buf)) as (s3 & -> & [HI3 Hb] & Hl3 & _).
  { split; [by apply reduce64_inv|]. cbn [fst snd]. destruct HI2 as [Hw _].
    rewrite reduce64_eq by done. word. }
  { cbn [snd]. lia. }
  cbn [mbind option_bind]. destruct s3 as [sum64 rest]. cbn [fst snd] in *.
  destruct HI3 as (Hw & Hokr & Hoc & Hp). cbn [fst snd] in *. rewrite <- Hp.
  eexists. split; [done|].
  set (sum' := if Z.odd _ then _ else _).
  assert (sum' = sum64 + sum16 rest /\ 0 <= sum' < 2 ^ 35) as [Heq Hrange].
  { subst sum'. destruct rest as [|b [|]]; cbn [length nth sum16] in *; [| |lia].
    - change (Z.odd (Z.of_nat 0)) with false. cbn match. word.
    - inversion Hokr as [|? ? Hb0]; subst. change (Z.odd (Z.of_nat 1)) with true. cbn match.
      rewrite wrap_small by word. word. }
  destruct (final_reduce sum' Hrange) as [? Hoc']. split; [done|].
  rewrite Hoc', Heq. done.
Qed.

(** *** Folding and the RFC 1071 checksum *)
Lemma FoldChecksum_oc c S : in_word 32 c -> oc c S -> FoldChecksum c = internet_checksum S.
Proof.
  intros Hc HS. unfold internet_checksum. rewrite <- HS. unfold FoldChecksum.
  rewrite land_ffff, !Z.shiftr_div_pow2 by lia.
  rewrite (wrap_small 32 (c / 2 ^ 16 + c mod 2 ^ 16)) by word.
  rewrite (oc_norm_eq _ _ (oc_split 16 c ltac:(auto) (proj1 Hc))).
  set (c1 := c / 2 ^ 16 + c mod 2 ^ 16). assert (0 <= c1 <= 131070) by (subst c1; word).
  clearbody c1. rewrite (wrap_small 32) by word. unfold Z.lnot, oc_norm.
  destruct (Z.eqb_spec c1 0) as [->|]; [done|]. word.
Qed.

Lemma fold_adc sum us S : in_word 32 sum -> Forall (in_word 32) us -> oc (sum + lsum us) S ->
  FoldChecksum (adc 32 sum 0 us) = internet_checksum S.
Proof.
  intros Hs Hus HS. destruct (adc32_oc sum us Hs Hus) as [? Hoc].
  apply FoldChecksum_oc; [done|]. by rewrite Hoc.
Qed.

Lemma internet_checksum_word S : 0 <= S -> in_word 16 (internet_checksum S).
Proof. intros HS%oc_norm_range. unfold internet_checksum. word. Qed.

(** Which stored checksums make the whole sum verify: the computed one, and the
    other representation of zero. *)
Lemma internet_checksum_verify S c : 0 <= S -> in_word 16 c ->
  internet_checksum (S + c) = 0 <->
  c = internet_checksum S \/ internet_checksum S = 0 /\ c = 0xFFFF.
Proof.
  intros HS Hc. unfold internet_checksum, oc_norm, in_word in *.
  change (2 ^ 16) with 65536 in Hc.
  destruct (Z.eqb_spec S 0), (Z.eqb_spec (S + c) 0); zlia.
Qed.

Lemma chunk_take n m buf i : (n * i + n <= m)%nat -> chunk n (take m buf) i = chunk n buf i.
Proof.
  intros H. unfold chunk. rewrite skipn_firstn_comm, take_take.
  by replace (n `min` (m - n * i))%nat with n by lia.
Qed.

(** The first [k] double words of a buffer. *)
Lemma header_oc k buf : bytes_ok buf -> (4 * k <= length buf)%nat ->
  oc (lsum (map (dword buf) (seq 0 k))) (sum16 (take (4 * k) buf)).
Proof.
  intros Hok Hlen.
  pose proof (chunks_oc 4 k (take (4 * k) buf) eq_refl ltac:(auto with bess)) as H.
  rewrite length_take_le in H by done. specialize (H ltac:(lia)).
  rewrite drop_ge in H by (rewrite length_take; lia). cbn [sum16] in H.
  rewrite Z.add_0_r in H. rewrite <- H.
  replace (map (chunk 4 (take (4 * k) buf)) (seq 0 k)) with (map (dword buf) (seq 0 k)).
  - apply oc_refl. apply (lsum_nonneg 32). apply Forall_fmap, Forall_true. intros i.
    by apply dword_word.
  - apply map_ext_in. intros i Hi%in_seq. symmetry. apply (chunk_take 4). lia.
Qed.

(** *** Rewriting one 16-bit field of a header *)
Definition store16 (off : nat) (v : Z) (buf : bytes) : bytes :=
  take off buf ++ le_store 2 v ++ drop (off + 2) buf.

Lemma store16_ok off v buf : bytes_ok buf -> bytes_ok (store16 off v buf).
Proof. intros. unfold store16. rewrite !bytes_ok_app. auto with bess. Qed.

Lemma length_store16 off v buf : (off + 2 <= length buf)%nat ->
  length (store16 off v buf) = length buf.
Proof.
  intros. unfold store16. rewrite !length_app, length_take, length_le_store, length_drop. lia.
Qed.

Lemma store16_take_lo off v buf n : (n <= off)%nat -> (off + 2 <= length buf)%nat ->
  take n (store16 off v buf) = take n buf.
Proof.
  intros. unfold store16. rewrite take_app_le by (rewrite length_take; lia).
  rewrite take_take. f_equal. lia.
Qed.

Lemma store16_drop_hi off v buf n : (off + 2 <= n)%nat -> (off + 2 <= length buf)%nat ->
  drop n (store16 off v buf) = drop n buf.
Proof.
  intros. unfold store16. rewrite app_assoc, drop_app_ge.
  - rewrite length_app, length_take, length_le_store, drop_drop. f_equal. lia.
  - rewrite length_app, length_take, length_le_store. lia.
Qed.

Lemma sum16_store16 off v buf n : Z.odd (Z.of_nat off) = false -> in_word 16 v ->
  (off + 2 <= n)%nat -> (n <= length buf)%nat ->
  sum16 (take n (store16 off v buf)) = sum16 (take n (store16 off 0 buf)) + v.
Proof.
  intros Hev Hv Hoff Hn.
  assert (Hsum : forall x, in_word 16 x ->
    sum16 (take n (store16 off x buf)) =
    sum16 (take off buf) + (x + sum16 (take (n - off - 2) (drop (off + 2) buf)))).
  { intros x Hx. unfold store16.
    assert (length (take off buf) = off) as Hl by (rewrite length_take; lia).
    rewrite take_app_ge by lia. rewrite Hl, sum16_app by (by rewrite Hl).
    rewrite take_app_ge by (rewrite length_le_store; lia). rewrite length_le_store.
    f_equal. rewrite sum16_app by done. f_equal. cbn [le_store sum16]. word. }
  rewrite !Hsum by (done || by unfold in_word). lia.
Qed.

Lemma dword_store16_other off v buf i : (off + 2 <= length buf)%nat ->
  (4 * i + 4 <= off)%nat \/ (off + 2 <= 4 * i)%nat ->
  dword (store16 off v buf) i = dword buf i.
Proof.
  intros Hl [Hi|Hi]; unfold dword.
  - by rewrite !firstn_skipn_comm, store16_take_lo by lia.
  - by rewrite store16_drop_hi.
Qed.

(** The checksum field occupies the upper or the lower half of its double word. *)
Lemma dword_app (l k : bytes) i : length l = (4 * i)%nat -> dword (l ++ k) i = dword k 0.
Proof. intros Hl. unfold dword. rewrite drop_app_ge by lia. by rewrite Hl, Nat.sub_diag. Qed.

Lemma split_at_dword (buf : bytes) i : (4 * i + 4 <= length buf)%nat ->
  exists pre b0 b1 b2 b3 post, buf = pre ++ b0 :: b1 :: b2 :: b3 :: post /\ length pre = (4 * i)%nat.
Proof.
  intros Hl. exists (take (4 * i) buf).
  destruct (drop (4 * i) buf) as [|b0 [|b1 [|b2 [|b3 post]]]] eqn:Hd;
    try (apply (f_equal length) in Hd; rewrite length_drop in Hd; cbn in Hd; lia).
  exists b0, b1, b2, b3, post. rewrite <- Hd, take_drop, length_take. split; [done|lia].
Qed.

Lemma dword_clear_hi buf i : bytes_ok buf -> (4 * i + 4 <= length buf)%nat ->
  dword (store16 (4 * i + 2) 0 buf) i = Z.land (dword buf i) 0xFFFF.
Proof.
  intros Hok (pre & b0 & b1 & b2 & b3 & post & -> & Hl)%split_at_dword.
  apply bytes_ok_app in Hok as [_ Hok]. rewrite land_ffff, dword_app by done.
  unfold store16. rewrite take_app_ge by lia. rewrite Hl.
  replace (4 * i + 2 - 4 * i)%nat with 2%nat by lia. rewrite <- app_assoc, dword_app by done.
  rewrite drop_app_ge by lia. rewrite Hl. replace (4 * i + 2 + 2 - 4 * i)%nat with 4%nat by lia.
  unfold bytes_ok in Hok. rewrite !Forall_cons in Hok. unfold dword. cbn. rewrite !take_0. cbn [le_load]. word.
Qed.

Lemma dword_clear_lo buf i : bytes_ok buf -> (4 * i + 4 <= length buf)%nat ->
  dword (store16 (4 * i) 0 buf) i = 2 ^ 16 * Z.shiftr (dword buf i) 16.
Proof.
  intros Hok (pre & b0 & b1 & b2 & b3 & post & -> & Hl)%split_at_dword.
  apply bytes_ok_app in Hok as [_ Hok]. rewrite Z.shiftr_div_pow2, dword_app by (done || lia).
  unfold store16. rewrite take_app_le, take_ge by lia. rewrite dword_app by done.
  rewrite drop_app_ge by lia. rewrite Hl. replace (4 * i + 2 - 4 * i)%nat with 2%nat by lia.
  unfold bytes_ok in Hok. rewrite !Forall_cons in Hok. unfold dword. cbn. rewrite !take_0. cbn [le_load]. word.
Qed.

Lemma sum16_take_split a n (l : bytes) : Z.odd (Z.of_nat a) = false -> (a <= n)%nat ->
  (n <= length l)%nat -> sum16 (take n l) = sum16 (take a l) + sum16 (take (n - a) (drop a l)).
Proof.
  intros Hev Ha Hn. rewrite (sum16_take_drop a (take n l)) by (done || (rewrite length_take; lia)).
  rewrite take_take, skipn_firstn_comm. by replace (a `min` n)%nat with a by lia.
Qed.

(** *** IPv4 headers *)
Definition ipv4_header_sum (iph : bytes) : Z :=
  sum16 (take (Z.to_nat (ip_header_len iph)) iph).

Lemma ip_header_len_range iph : 0 <= ip_header_len iph <= 60.
Proof.
  unfold ip_header_len. rewrite Z.shiftl_mul_pow2 by lia.
  change 15 with (Z.ones 4). rewrite Z.land_ones by lia. zlia.
Qed.

Lemma ip_header_len_store16 off v iph : (0 < off)%nat -> (off + 2 <= length iph)%nat ->
  ip_header_len (store16 off v iph) = ip_header_len iph.
Proof.
  intros H1 H2. unfold ip_header_len.
  assert (nth 0 (store16 off v iph) 0 = nth 0 iph 0) as ->; [|done].
  unfold store16. destruct iph as [|b iph], off as [|off]; cbn in H1, H2; (lia || done).
Qed.

Definition ipv4_dwords (iph : bytes) : list Z := map (dword iph) (seq 0 5).

Lemma header_words k buf : bytes_ok buf -> Forall (in_word 32) (map (dword buf) (seq 0 k)).
Proof. intros Hok. apply Forall_fmap, Forall_true. intros i. by apply dword_word. Qed.

(** The two ways the code adds an IPv4 header: the five fixed double words from
    the first one, or from the sum of the options. *)
Lemma ipv4_fold_noopt iph : bytes_ok iph -> (20 <= length iph)%nat ->
  FoldChecksum (adc 32 (dword iph 0) 0 [dword iph 1; dword iph 2; dword iph 3; dword iph 4])
  = internet_checksum (sum16 (take 20 iph)).
Proof.
  intros Hok Hlen. apply fold_adc; [by apply dword_word|forall_each ltac:(by apply dword_word)|].
  exact (header_oc 5 iph Hok Hlen).
Qed.

Lemma fold_payload avx2 buf us S : bytes_ok buf -> Z.of_nat (length buf) < 2 ^ 32 ->
  Forall (in_word 32) us -> oc (lsum us) S ->
  exists sum, CalculateSum avx2 buf = Some sum /\
    FoldChecksum (adc 32 sum 0 us) = internet_checksum (S + sum16 buf).
Proof.
  intros Hok Hlen Hus HS. destruct (CalculateSum_oc avx2 buf Hok Hlen) as (sum & -> & Hw & Hoc).
  eexists. split; [done|]. apply fold_adc; [done..|]. rewrite Z.add_comm. by apply oc_add.
Qed.

Lemma ipv4_options iph : 20 <= ip_header_len iph <= Z.of_nat (length iph) -> bytes_ok iph ->
  exists opts, slice 20 (ip_header_len iph - 20) iph = Some opts /\ bytes_ok opts /\
    Z.of_nat (length opts) < 2 ^ 32 /\ ipv4_header_sum iph = sum16 (take 20 iph) + sum16 opts.
Proof.
  intros Hhl Hok. pose proof (ip_header_len_range iph). rewrite slice_Some by lia.
  eexists. split; [done|]. split; [by auto with bess|]. split.
  - rewrite length_take, length_drop. lia.
  - unfold ipv4_header_sum. rewrite (sum16_take_split 20) by (done || lia).
    replace (Z.to_nat (ip_header_len iph - 20)) with (Z.to_nat (ip_header_len iph) - 20)%nat by lia.
    done.
Qed.

Lemma VerifyIpv4Checksum_spec avx2 iph : bytes_ok iph ->
  20 <= ip_header_len iph <= Z.of_nat (length iph) ->
  VerifyIpv4Checksum avx2 iph = Some (internet_checksum (ipv4_header_sum iph) =? 0).
Proof.
  intros Hok Hhl. unfold VerifyIpv4Checksum.
  destruct (Z.eqb_spec (ip_header_len iph) 20) as [Heq|].
  - unfold VerifyIpv4NoOptChecksum, ipv4_header_sum. rewrite Heq.
    by rewrite ipv4_fold_noopt by (done || lia).
  - rewrite (proj2 (Z.ltb_ge _ _)) by lia.
    destruct (ipv4_options iph Hhl Hok) as (opts & -> & Hoko & Hlo & Hsum).
    destruct (fold_payload avx2 opts (ipv4_dwords iph) (sum16 (take 20 iph)))
      as (sum & Hs & Hf); [done|done|by apply header_words|apply (header_oc 5 iph Hok); lia|].
    cbn [mbind option_bind]. rewrite Hs, Hsum, <- Hf. done.
Qed.

Lemma CalculateIpv4Checksum_spec avx2 iph : bytes_ok iph ->
  20 <= ip_header_len iph <= Z.of_nat (length iph) ->
  CalculateIpv4Checksum avx2 iph =
  Some (internet_checksum (ipv4_header_sum (store16 10 0 iph))).
Proof.
  intros Hok Hhl. set (z := store16 10 0 iph).
  assert (Hokz : bytes_ok z) by by apply store16_ok.
  assert (Hlz : length z = length iph) by (apply length_store16; lia).
  assert (Hhz : ip_header_len z = ip_header_len iph) by (apply ip_header_len_store16; lia).
  assert (Hd2 : dword z 2 = Z.land (dword iph 2) 0xFFFF) by (apply (dword_clear_hi iph 2); [done|lia]).
  assert (Hd : forall i, i <> 2%nat -> dword z i = dword iph i)
    by (intros; apply dword_store16_other; lia).
  unfold CalculateIpv4Checksum. destruct (Z.eqb_spec (ip_header_len iph) 20) as [Heq|].
  - unfold CalculateIpv4NoOptChecksum, ipv4_header_sum. rewrite Hhz, Heq, <- Hd2.
    rewrite <- !Hd by done. by rewrite ipv4_fold_noopt by (done || lia).
  - rewrite (proj2 (Z.ltb_ge _ _)) by lia.
    destruct (ipv4_options z) as (opts & Ho & Hoko & Hlo & Hsum); [lia|done|].
    assert (slice 20 (ip_header_len iph - 20) iph = Some opts) as ->.
    { rewrite <- Ho, Hhz, !slice_Some by lia. change (Z.to_nat 20) with 20%nat.
      unfold z. by rewrite store16_drop_hi by lia. }
    destruct (fold_payload avx2 opts (ipv4_dwords z) (sum16 (take 20 z)))
      as (sum & Hs & Hf); [done|done|by apply header_words|apply (header_oc 5 z Hokz); lia|].
    cbn [mbind option_bind]. rewrite Hs, Hsum, <- Hf, <- Hd2. rewrite <- !Hd by done. done.
Qed.

(** *** Pseudo headers *)
Lemma swap16_word v : in_word 16 v -> in_word 16 (swap16 v).
Proof.
  intros Hv. unfold swap16. rewrite land_ff, Z.shiftr_div_pow2 by lia.
  rewrite lor_shiftl_add by word. word.
Qed.

Definition pseudo_sum (src dst len proto : Z) : Z := src + dst + swap16 len + proto.

(** A segment checksum: [k] header double words [ws], the pseudo header, then the
    payload that follows the header. *)
Lemma segment_fold avx2 k seg ws src dst len proto S :
  bytes_ok seg -> in_word 32 src -> in_word 32 dst -> in_word 16 len -> in_word 16 proto ->
  Z.of_nat (4 * k) <= len <= Z.of_nat (length seg) ->
  Forall (in_word 32) ws -> oc (lsum ws) S ->
  exists payload sum,
    slice (Z.of_nat (4 * k)) (len - Z.of_nat (4 * k)) seg = Some payload /\
    CalculateSum avx2 payload = Some sum /\
    FoldChecksum (adc 32 sum 0 (ws ++ [src; dst; swap16 len; proto])) =
    internet_checksum (S + pseudo_sum src dst len proto
      + sum16 (take (Z.to_nat len - 4 * k) (drop (4 * k) seg))).
Proof.
  intros Hok Hsrc Hdst Hlen Hproto Hk Hws HS. pose proof (swap16_word len Hlen).
  rewrite slice_Some by lia. rewrite Nat2Z.id.
  replace (Z.to_nat (len - Z.of_nat (4 * k))) with (Z.to_nat len - 4 * k)%nat by lia.
  destruct (fold_payload avx2 (take (Z.to_nat len - 4 * k) (drop (4 * k) seg))
    (ws ++ [src; dst; swap16 len; proto]) (S + pseudo_sum src dst len proto))
    as (sum & Hs & Hf); [by auto with bess| | | |by eauto].
  - rewrite length_take, length_drop. word.
  - apply Forall_app. split; [done|]. forall_each ltac:(done || word).
  - assert (lsum (ws ++ [src; dst; swap16 len; proto]) =
      lsum ws + pseudo_sum src dst len proto) as ->.
    { unfold pseudo_sum, lsum. clear. induction ws as [|w ws IH]; cbn [app foldr]; lia. }
    apply oc_add; [done|]. apply oc_refl. unfold pseudo_sum. word.
Qed.

Definition segment_sum (src dst len proto : Z) (seg : bytes) : Z :=
  pseudo_sum src dst len proto + sum16 (take (Z.to_nat len) seg).

Lemma segment_sum_split k src dst len proto seg : Z.of_nat (4 * k) <= len <= Z.of_nat (length seg) ->
  sum16 (take (4 * k) seg) + pseudo_sum src dst len proto
    + sum16 (take (Z.to_nat len - 4 * k) (drop (4 * k) seg))
  = segment_sum src dst len proto seg.
Proof.
  intros. unfold segment_sum. rewrite (sum16_take_split (4 * k) (Z.to_nat len)); [lia| |lia|lia].
  rewrite Nat2Z.inj_mul, Z.odd_mul. done.
Qed.

Section segments.
Context (avx2 : bool) (seg : bytes) (src dst len : Z).
Context (Hok : bytes_ok seg) (Hsrc : in_word 32 src) (Hdst : in_word 32 dst)
        (Hlen : in_word 16 len).

Lemma VerifyIpv4UdpChecksum_spec : 8 <= len <= Z.of_nat (length seg) ->
  udp_field_checksum seg <> 0 ->
  VerifyIpv4UdpChecksum avx2 seg src dst len =
  Some (internet_checksum (segment_sum src dst len 0x1100 seg) =? 0).
Proof using All.
  intros Hl Hck. unfold VerifyIpv4UdpChecksum. rewrite (proj2 (Z.eqb_neq _ _)) by done.
  destruct (segment_fold avx2 2 seg (map (dword seg) (seq 0 2)) src dst len 0x1100 _
    Hok Hsrc Hdst Hlen ltac:(word) Hl (header_words 2 seg Hok)
    (header_oc 2 seg Hok ltac:(lia))) as (pl & sum & Hpl & Hs & Hf).
  change (Z.of_nat (4 * 2)) with 8 in Hpl. rewrite Hpl. cbn [mbind option_bind]. rewrite Hs.
  rewrite segment_sum_split in Hf by done. rewrite <- Hf. done.
Qed.

Lemma CalculateIpv4UdpChecksum_spec : 8 <= len <= Z.of_nat (length seg) ->
  let k := internet_checksum (segment_sum src dst len 0x1100 (store16 6 0 seg)) in
  CalculateIpv4UdpChecksum avx2 seg src dst len = Some (if k =? 0 then 0xFFFF else k).
Proof using All.
  intros Hl. unfold CalculateIpv4UdpChecksum. cbn zeta. set (z := store16 6 0 seg).
  assert (Hokz : bytes_ok z) by by apply store16_ok.
  assert (Hlz : length z = length seg) by (apply length_store16; lia).
  destruct (segment_fold avx2 2 z (map (dword z) (seq 0 2)) src dst len 0x1100 _
    Hokz Hsrc Hdst Hlen ltac:(word) ltac:(lia) (header_words 2 z Hokz)
    (header_oc 2 z Hokz ltac:(lia))) as (pl & sum & Hpl & Hs & Hf).
  change (Z.of_nat (4 * 2)) with 8 in Hpl.
  assert (slice 8 (len - 8) seg = Some pl) as ->.
  { rewrite <- Hpl, !slice_Some by lia. change (Z.to_nat 8) with 8%nat.
    unfold z. by rewrite store16_drop_hi by lia. }
  cbn [mbind option_bind]. rewrite Hs, segment_sum_split in * by lia. cbn [mbind option_bind].
  rewrite <- Hf. cbn [seq map app]. unfold z at 1 2 3 4.
  pose proof (dword_clear_hi seg 1 Hok ltac:(lia)) as Hd.
  change (4 * 1 + 2)%nat with 6%nat in Hd. rewrite Hd.
  by rewrite (dword_store16_other 6 0 seg 0) by lia.
Qed.

Lemma VerifyIpv4TcpChecksum_spec : 20 <= len <= Z.of_nat (length seg) ->
  VerifyIpv4TcpChecksum avx2 seg src dst len =
  Some (internet_checksum (segment_sum src dst len 0x0600 seg) =? 0).
Proof using All.
  intros Hl. unfold VerifyIpv4TcpChecksum.
  destruct (segment_fold avx2 5 seg (map (dword seg) (seq 0 5)) src dst len 0x0600 _
    Hok Hsrc Hdst Hlen ltac:(word) Hl (header_words 5 seg Hok)
    (header_oc 5 seg Hok ltac:(lia))) as (pl & sum & Hpl & Hs & Hf).
  change (Z.of_nat (4 * 5)) with 20 in Hpl. rewrite Hpl. cbn [mbind option_bind]. rewrite Hs.
  rewrite segment_sum_split in Hf by done. rewrite <- Hf. done.
Qed.

Lemma CalculateIpv4TcpChecksum_spec : 20 <= len <= Z.of_nat (length seg) ->
  CalculateIpv4TcpChecksum avx2 seg src dst len =
  Some (internet_checksum (segment_sum src dst len 0x0600 (store16 16 0 seg))).
Proof using All.
  intros Hl. unfold CalculateIpv4TcpChecksum. set (z := store16 16 0 seg).
  assert (Hokz : bytes_ok z) by by apply store16_ok.
  assert (Hlz : length z = length seg) by (apply length_store16; lia).
  set (ws := [dword z 0; dword z 1; dword z 2; dword z 3; Z.shiftr (dword seg 4) 16]).
  assert (Hws : oc (lsum ws) (sum16 (take (4 * 5) z))).
  { rewrite <- (header_oc 5 z Hokz ltac:(lia)). subst ws. cbn [map seq lsum foldr].
    pose proof (dword_clear_lo seg 4 Hok ltac:(lia)) as Hd. fold z in Hd.
    change (4 * 4)%nat with 16%nat in Hd. fold z in Hd. rewrite Hd.
    pose proof (dword_word seg 4 Hok). rewrite !Z.shiftr_div_pow2 by lia.
    pose proof (fun i => dword_word z i Hokz) as Hw.
    pose proof (Hw 0%nat). pose proof (Hw 1%nat). pose proof (Hw 2%nat). pose proof (Hw 3%nat).
    repeat (apply oc_add; [apply oc_refl; word|]). rewrite !Z.add_0_r.
    rewrite Z.mul_comm, <- (Z.add_0_r (_ * _)). symmetry. rewrite oc_carry by (auto || word).
    rewrite Z.add_0_r. apply oc_refl. word. }
  destruct (segment_fold avx2 5 z ws src dst len 0x0600 (sum16 (take (4 * 5) z))
    Hokz Hsrc Hdst Hlen ltac:(word) ltac:(lia)) as (pl & sum & Hpl & Hs & Hf); [|exact Hws|].
  { subst ws. pose proof (dword_word seg 4 Hok).
    forall_each ltac:(first [by apply dword_word | rewrite Z.shiftr_div_pow2 by lia; word]). }
  change (Z.of_nat (4 * 5)) with 20 in Hpl.
  assert (slice 20 (len - 20) seg = Some pl) as ->.
  { rewrite <- Hpl, !slice_Some by lia. change (Z.to_nat 20) with 20%nat.
    unfold z. by rewrite store16_drop_hi by lia. }
  cbn [mbind option_bind]. rewrite Hs, segment_sum_split in * by lia. cbn [mbind option_bind].
  rewrite <- Hf. subst ws. cbn [app]. unfold z.
  rewrite !(dword_store16_other 16 0 seg) by lia. done.
Qed.
End segments.

(** ** Properties *)

Lemma CalculateGenericChecksum_spec avx2 buf : bytes_ok buf -> Z.of_nat (length buf) < 2 ^ 32 ->
  CalculateGenericChecksum avx2 buf = Some (internet_checksum (sum16 buf)).
Proof.
  intros Hok Hlen. unfold CalculateGenericChecksum.
  destruct (CalculateSum_oc avx2 buf Hok Hlen) as (sum & -> & ? & ?).
  cbn [mbind option_bind]. f_equal. by apply FoldChecksum_oc.
Qed.

(** C20: the checksum of any byte string shorter than 4 GiB is the RFC 1071
    Internet checksum of its 16-bit words, whether or not the AVX2 path is
    compiled in: the loops terminate, no carry is lost and no sum wraps. *)
Theorem CalculateGenericChecksum_rfc1071 avx2 buf :
  bytes_ok buf -> Z.of_nat (length buf) < 2 ^ 32 ->
  CalculateGenericChecksum avx2 buf = Some (internet_checksum (sum16 buf)).
Proof. apply CalculateGenericChecksum_spec. Qed.

Definition sample_bytes (n : nat) : bytes := map (fun i => Z.of_nat i * 37 mod 256) (seq 1 n).

Lemma CalculateGenericChecksum_rfc1071_witness :
  CalculateGenericChecksum true (sample_bytes 301)
  = Some (internet_checksum (sum16 (sample_bytes 301))).
Proof.
  apply CalculateGenericChecksum_rfc1071;
    [apply (bool_decide_unpack _); vm_compute; exact I|vm_compute; reflexivity].
Defined.

(** Writing a checksum into an IPv4 header (with or without options) makes
    [VerifyIpv4Checksum] accept exactly when it is the computed checksum, or when
    the computed one is 0 and the other encoding of zero, 0xFFFF, was written. *)
Theorem ipv4_checksum_verify_iff avx2 iph c :
  bytes_ok iph -> in_word 16 c -> 20 <= ip_header_len iph <= Z.of_nat (length iph) ->
  exists k b, CalculateIpv4Checksum avx2 iph = Some k /\
    VerifyIpv4Checksum avx2 (store16 10 c iph) = Some b /\
    (b = true <-> c = k \/ k = 0 /\ c = 0xFFFF).
Proof.
  intros Hok Hc Hhl. rewrite CalculateIpv4Checksum_spec by done.
  rewrite VerifyIpv4Checksum_spec.
  - do 2 eexists. split; [done|]. split; [done|].
    rewrite Z.eqb_eq, <- internet_checksum_verify; [|apply sum16_nonneg|done].
    + unfold ipv4_header_sum. rewrite !ip_header_len_store16 by lia.
      rewrite sum16_store16; [done..|lia|lia].
    + apply bytes_ok_take. by apply store16_ok.
  - by apply store16_ok.
  - rewrite ip_header_len_store16, length_store16 by lia. done.
Qed.

Definition sample_iph : bytes :=
  [0x46; 0; 0; 60; 0x1c; 0x46; 0x40; 0; 64; 6; 0xb1; 0xe6; 172; 16; 10; 99; 172; 16; 10; 12;
   1; 2; 3; 4].

Lemma ipv4_checksum_verify_iff_witness :
  exists k b, CalculateIpv4Checksum false sample_iph = Some k /\
    VerifyIpv4Checksum false (store16 10 0x1234 sample_iph) = Some b /\
    (b = true <-> 0x1234 = k \/ k = 0 /\ 0x1234 = 0xFFFF).
Proof.
  apply ipv4_checksum_verify_iff;
    [apply (bool_decide_unpack _); vm_compute; exact I
    |apply (bool_decide_unpack _); vm_compute; exact I
    |vm_compute; split; discriminate].
Defined.

(** The UDP checksum is never 0 (which means "not computed"), and a datagram
    that carries it verifies; the TCP checksum verifies as well, and every other
    stored TCP checksum (up to the two encodings of zero) is rejected. *)
Theorem udp_tcp_checksum_verify avx2 seg src dst len c :
  bytes_ok seg -> in_word 32 src -> in_word 32 dst -> in_word 16 len -> in_word 16 c ->
  20 <= len <= Z.of_nat (length seg) ->
  (exists k, CalculateIpv4UdpChecksum avx2 seg src dst len = Some k /\ k <> 0 /\
     VerifyIpv4UdpChecksum avx2 (store16 6 k seg) src dst len = Some true) /\
  (exists k b, CalculateIpv4TcpChecksum avx2 seg src dst len = Some k /\
     VerifyIpv4TcpChecksum avx2 (store16 16 c seg) src dst len = Some b /\
     (b = true <-> c = k \/ k = 0 /\ c = 0xFFFF)).
Proof.
  intros Hok Hsrc Hdst Hlen Hc Hl.
  assert (Hn : forall off proto, 0 <= proto ->
    0 <= segment_sum src dst len proto (store16 off 0 seg)).
  { intros off proto Hp. unfold segment_sum, pseudo_sum. pose proof (swap16_word len Hlen).
    pose proof (sum16_nonneg (take (Z.to_nat len) (store16 off 0 seg))
      (bytes_ok_take _ _ (store16_ok off 0 seg Hok))). unfold in_word in *. lia. }
  assert (Hsum : forall off proto v, Z.odd (Z.of_nat off) = false -> in_word 16 v ->
    (off + 2 <= 20)%nat -> segment_sum src dst len proto (store16 off v seg) =
    segment_sum src dst len proto (store16 off 0 seg) + v).
  { intros off proto v Hev Hv Hoff. unfold segment_sum. rewrite sum16_store16; [lia|done|done|lia|lia]. }
  split.
  - rewrite CalculateIpv4UdpChecksum_spec by (done || lia).
    set (S := segment_sum _ _ _ _ _). set (k := internet_checksum S).
    assert (0 <= S) as HS by by apply Hn. pose proof (internet_checksum_word S HS) as Hk.
    exists (if k =? 0 then 0xFFFF else k). split; [done|].
    assert (Hk' : in_word 16 (if k =? 0 then 0xFFFF else k)) by (case_match; [word|done]).
    assert (Hne : (if k =? 0 then 0xFFFF else k) <> 0) by (case_match; lia).
    split; [done|]. rewrite VerifyIpv4UdpChecksum_spec; [|by apply store16_ok|done..| |].
    + rewrite Hsum by (done || lia). f_equal. rewrite Z.eqb_eq.
      apply internet_checksum_verify; [done|done|]. fold k. clear Hk' Hne.
      destruct (Z.eqb_spec k 0); [right|left]; done.
    + rewrite length_store16 by lia. lia.
    + unfold udp_field_checksum, store16. rewrite drop_app_ge by (rewrite length_take; lia).
      rewrite length_take_le, Nat.sub_diag, drop_0 by lia.
      rewrite take_app_le by (rewrite length_le_store; lia).
      rewrite take_ge by (by rewrite length_le_store). rewrite le_load_store. word.
  - rewrite CalculateIpv4TcpChecksum_spec by done.
    rewrite VerifyIpv4TcpChecksum_spec;
      [|by apply store16_ok|done..|rewrite length_store16 by lia; done].
    do 2 eexists. split; [done|]. split; [done|].
    rewrite Z.eqb_eq, Hsum by (done || lia). by apply internet_checksum_verify; [apply Hn|].
Qed.

Lemma udp_tcp_checksum_verify_witness :
  (exists k, CalculateIpv4UdpChecksum true (sample_bytes 33) 0x0A000001 0x0A000002 33 = Some k /\
     k <> 0 /\ VerifyIpv4UdpChecksum true (store16 6 k (sample_bytes 33)) 0x0A000001 0x0A000002 33
       = Some true) /\
  (exists k b, CalculateIpv4TcpChecksum true (sample_bytes 33) 0x0A000001 0x0A000002 33 = Some k /\
     VerifyIpv4TcpChecksum true (store16 16 7 (sample_bytes 33)) 0x0A000001 0x0A000002 33 = Some b /\
     (b = true <-> 7 = k \/ k = 0 /\ 7 = 0xFFFF)).
Proof.
  apply udp_tcp_checksum_verify;
    try (apply (bool_decide_unpack _); vm_compute; exact I).
Defined.

Lemma increment16_oc ov nv : in_word 16 ov -> in_word 16 nv ->
  ChecksumIncrement16 ov nv = 65535 - ov + nv.
Proof. intros. unfold ChecksumIncrement16, Z.lnot. rewrite land_ffff. word. Qed.

Definition halves (v : Z) : Z := v / 2 ^ 16 + v mod 2 ^ 16.

Lemma increment32_eq ov nv : in_word 32 ov -> in_word 32 nv ->
  ChecksumIncrement32 ov nv = 131070 - halves ov + halves nv.
Proof.
  intros. unfold ChecksumIncrement32, Z.lnot, halves.
  rewrite !land_ffff, !Z.shiftr_div_pow2 by lia.
  replace (u32 (Z.pred (- ov))) with (2 ^ 32 - 1 - ov) by word. word.
Qed.

(** Adding a 32-bit increment to the complement of a checksum. *)
Lemma update_fold S inc T : 0 <= S -> 0 <= inc < 2 ^ 31 -> oc (S + inc) T ->
  UpdateChecksumWithIncrement (internet_checksum S) inc = internet_checksum T.
Proof.
  intros HS Hinc HT. pose proof (oc_norm_range S HS).
  unfold UpdateChecksumWithIncrement. rewrite land_ffff.
  replace (Z.lnot (internet_checksum S) mod 2 ^ 16) with (oc_norm S)
    by (unfold internet_checksum, Z.lnot; word).
  rewrite wrap_small by (unfold in_word; lia). apply FoldChecksum_oc; [unfold in_word; lia|].
  rewrite <- HT. apply oc_add; [by apply oc_norm_oc|apply oc_refl; lia].
Qed.

(** RFC 1624.  When a 16- or 32-bit field of a checksummed string changes, the
    incrementally updated checksum is the checksum of the new contents, provided
    these are not all zero ([R] is the sum of the other words). *)
Theorem UpdateChecksum_incremental R ov nv :
  0 <= R -> 0 < R + nv -> 0 <= ov -> 0 <= nv ->
  (in_word 16 ov -> in_word 16 nv ->
     UpdateChecksum16 (internet_checksum (R + ov)) ov nv = internet_checksum (R + nv)) /\
  (in_word 32 ov -> in_word 32 nv ->
     UpdateChecksum32 (internet_checksum (R + halves ov)) ov nv
     = internet_checksum (R + halves nv)).
Proof.
  intros HR Hpos Hov Hnv. split; intros Ho Hn.
  - unfold UpdateChecksum16. rewrite increment16_oc by done.
    apply update_fold; [lia|word|].
    split; [word|]. split; [lia|]. split; [word|]. exists 1. lia.
  - unfold UpdateChecksum32. rewrite increment32_eq by done.
    assert (0 <= halves ov <= 131070 /\ 0 <= halves nv <= 131070 /\ (halves nv = 0 -> nv = 0))
      as (? & ? & ?) by (unfold halves; word).
    apply update_fold; [lia|lia|].
    split; [lia|]. split; [lia|]. split; [lia|]. exists 2. lia.
Qed.

Lemma UpdateChecksum_incremental_witness :
  (in_word 16 0x1f90 -> in_word 16 0x50 ->
     UpdateChecksum16 (internet_checksum (0x12345 + 0x1f90)) 0x1f90 0x50
     = internet_checksum (0x12345 + 0x50)) /\
  (in_word 32 0x1f90 -> in_word 32 0x50 ->
     UpdateChecksum32 (internet_checksum (0x12345 + halves 0x1f90)) 0x1f90 0x50
     = internet_checksum (0x12345 + halves 0x50)).
Proof. apply UpdateChecksum_incremental; lia. Defined.
