(* ===== verification/Bits.v ===== *)
(** Byte-wise shifts and masks of buffers and bit masks of integers:
    [core/utils/bits.h].

    The chunked loops are written as in the source, a chunk at a time, and compared with
    their byte-wise definitions.  [None] is undefined behaviour: an access outside of
    the buffer, or a shift by the width of the type. *)
From S2P Require Import Prelude.
Open Scope Z_scope.

(** ** Writes into a buffer *)

(** Overwrite the bytes at [off] by [new] (a store or a [memmove]/[memset] into
    the buffer); the written range is inside the buffer. *)
Definition write (off : nat) (new buf : bytes) : bytes :=
  take off buf ++ new ++ drop (off + length new) buf.

Lemma length_write off new buf : (off + length new <= length buf)%nat ->
  length (write off new buf) = length buf.
Proof. intros. unfold write. rewrite !length_app, length_take, length_drop. lia. Qed.

(** ** Byte shifts *)
Definition ShiftBytesLeftSmall (buf : bytes) (shift : nat) : bytes :=
  let shift := (shift `min` length buf)%nat in
  let buf := write 0 (drop shift buf) buf in
  write (length buf - shift) (replicate shift 0) buf.

(** [*block >>= shift * 8] on a [uint64_t]: a shift by 64 is undefined. *)
Definition shr_block (block : bytes) (shift : nat) : option bytes :=
  if (shift <? 8)%nat
  then Some (le_store 8 (Z.shiftr (le_load block) (Z.of_nat shift * 8))) else None.

Definition shl_block (block : bytes) (shift : nat) : option bytes :=
  if (shift <? 8)%nat
  then Some (le_store 8 (u64 (Z.shiftl (le_load block) (Z.of_nat shift * 8)))) else None.

(** The loop state is the buffer and the offset of [tmp_buf] in it. *)
Definition shift_left_body (shift : nat) (s : bytes * nat) : option (bytes * nat) :=
  let '(buf, off) := s in
  block ← shr_block (take 8 (drop off buf)) shift;
  Some (write off block buf, (off + (8 - shift))%nat).

Definition shift_left_cond (s : bytes * nat) : bool :=
  let '(buf, off) := s in (8 <=? length buf - off)%nat.

Definition ShiftBytesLeft (buf : bytes) (shift : nat) : option bytes :=
  if ((length buf <? 8) || (8 <? shift))%nat then Some (ShiftBytesLeftSmall buf shift)
  else
    s ← while (length buf) shift_left_cond (shift_left_body shift) (buf, O);
    let '(buf, off) := s in
    if (shift <? length buf - off)%nat then
      let tmp_len := (length buf - off - shift)%nat in
      let buf := write off (take tmp_len (drop (off + shift) buf)) buf in
      Some (write (length buf - shift) (replicate shift 0) buf)
    else Some buf.

Definition ShiftBytesRightSmall (buf : bytes) (shift : nat) : bytes :=
  let shift := (shift `min` length buf)%nat in
  let buf := write shift (take (length buf - shift) buf) buf in
  write 0 (replicate shift 0) buf.

(** The loop state is the buffer, the (possibly negative) offset of [tmp_buf] in it
    and [leftover]. *)
Definition shift_right_body (shift : nat) (s : bytes * Z * nat) : option (bytes * Z * nat) :=
  let '(buf, pos, leftover) := s in
  block ← shl_block (take 8 (drop (Z.to_nat pos) buf)) shift;
  Some (write (Z.to_nat pos) block buf, pos - Z.of_nat (8 - shift),
        (leftover - (8 - shift))%nat).

Definition shift_right_cond (s : bytes * Z * nat) : bool :=
  let '(_, pos, _) := s in 0 <=? pos.

Definition ShiftBytesRight (buf : bytes) (shift : nat) : option bytes :=
  if ((length buf <? 8) || (8 <? shift))%nat then Some (ShiftBytesRightSmall buf shift)
  else
    s ← while (length buf) shift_right_cond (shift_right_body shift)
          (buf, Z.of_nat (length buf) - 8, length buf);
    let '(buf, pos, leftover) := s in
    Some (write 0 (ShiftBytesRightSmall (take leftover buf) shift) buf).

(** ** Byte masks *)
Definition mask_chunk (n : nat) (mask buf : bytes) (i : nat) : bytes :=
  write (n * i) (le_store n (Z.land (le_load (take n (drop (n * i) buf)))
                                    (le_load (take n (drop (n * i) mask))))) buf.

(** [for (i = 0; i < k; i++) buf[i] &= mask[i]] on [n]-byte elements. *)
Definition mask_chunks (n k : nat) (mask buf : bytes) : bytes :=
  fold_left (mask_chunk n mask) (seq 0 k) buf.

Definition MaskBytesSmall (buf mask : bytes) : bytes := mask_chunks 1 (length buf) mask buf.

Definition MaskBytes64 (buf mask : bytes) : bytes :=
  let n := (length buf / 8)%nat in
  let leftover := (length buf - n * 8)%nat in
  let buf := mask_chunks 8 n mask buf in
  if (leftover =? 0)%nat then buf
  else write (8 * n) (MaskBytesSmall (drop (8 * n) buf) (drop (8 * n) mask)) buf.

Definition MaskBytes (buf mask : bytes) : bytes :=
  if (length buf <=? 8)%nat then MaskBytes64 buf mask
  else
    let n := (length buf / 16)%nat in
    let leftover := (length buf - n * 16)%nat in
    let buf := mask_chunks 16 n mask buf in
    if (8 <=? leftover)%nat
    then write (16 * n) (MaskBytes64 (drop (16 * n) buf) (drop (16 * n) mask)) buf
    else write (16 * n) (MaskBytesSmall (drop (16 * n) buf) (drop (16 * n) mask)) buf.

(** ** Bit masks of a [w]-bit unsigned type *)
Definition SetBitsHigh_ (w n : Z) : Z := wrap w (Z.shiftl 1 n - 1).

Definition SetBitsHigh (w n : Z) : Z :=
  if n =? 0 then 0 else if w <=? n then wrap w (Z.lnot 0) else SetBitsHigh_ w n.

Definition SetBitsLow (w n : Z) : Z :=
  if n =? 0 then 0 else if w <=? n then wrap w (Z.lnot 0)
  else wrap w (Z.lnot (SetBitsHigh_ w (w - n))).

(** ** Lemmas on writes *)
Lemma take_write off new buf : (off <= length buf)%nat -> take off (write off new buf) = take off buf.
Proof.
  intros. unfold write. rewrite take_app_le by (rewrite length_take; lia).
  rewrite take_take. f_equal. lia.
Qed.

Lemma drop_write off new buf : (off <= length buf)%nat ->
  drop off (write off new buf) = new ++ drop (off + length new) buf.
Proof.
  intros. unfold write. rewrite drop_app_ge by (rewrite length_take; lia).
  rewrite length_take_le, Nat.sub_diag, drop_0 by lia. done.
Qed.

Lemma drop_write_ge off new buf n : (off <= length buf)%nat -> (off + length new <= n)%nat ->
  drop n (write off new buf) = drop n buf.
Proof.
  intros. replace n with (off + (n - off))%nat at 1 by lia. rewrite <- drop_drop, drop_write by done.
  rewrite drop_app_ge by lia. rewrite drop_drop. f_equal. lia.
Qed.

Lemma ShiftBytesLeftSmall_spec buf shift :
  ShiftBytesLeftSmall buf shift =
  drop shift buf ++ replicate (shift `min` length buf)%nat 0.
Proof.
  unfold ShiftBytesLeftSmall. set (s := (shift `min` length buf)%nat).
  assert (drop shift buf = drop s buf) as ->.
  { subst s. destruct (Nat.le_gt_cases shift (length buf)).
    - f_equal. lia.
    - rewrite !drop_ge by lia. done. }
  assert (Hs : (s <= length buf)%nat) by lia. clearbody s.
  assert (length (write 0 (drop s buf) buf) = length buf) as Hl.
  { apply length_write. rewrite length_drop. lia. }
  rewrite Hl. unfold write at 1. rewrite length_replicate.
  rewrite (drop_ge _ (length buf - s + s)) by lia. rewrite app_nil_r.
  unfold write. rewrite take_0, app_nil_l. f_equal.
  rewrite take_app_le by (rewrite length_drop; lia). apply take_ge. rewrite length_drop. lia.
Qed.

Lemma ShiftBytesRightSmall_spec buf shift :
  ShiftBytesRightSmall buf shift =
  replicate (shift `min` length buf)%nat 0 ++ take (length buf - shift) buf.
Proof.
  unfold ShiftBytesRightSmall. set (s := (shift `min` length buf)%nat).
  replace (length buf - shift)%nat with (length buf - s)%nat by lia.
  assert (Hs : (s <= length buf)%nat) by lia. clearbody s.
  unfold write at 1. rewrite take_0, app_nil_l, length_replicate, Nat.add_0_l. f_equal.
  rewrite drop_write by done. rewrite drop_ge, app_nil_r; [done|].
  rewrite length_take. lia.
Qed.

Lemma shr_block_spec block shift : bytes_ok block -> length block = 8%nat -> (shift < 8)%nat ->
  shr_block block shift = Some (drop shift block ++ replicate shift 0).
Proof.
  intros Hok Hlen Hs. unfold shr_block. rewrite (proj2 (Nat.ltb_lt _ _)) by done. f_equal.
  rewrite Z.shiftr_div_pow2, <- pow256, le_load_div by (done || lia).
  rewrite <- le_store_load_pad by auto with bess. f_equal. rewrite length_drop. lia.
Qed.

Lemma shl_block_spec block shift : bytes_ok block -> length block = 8%nat -> (shift < 8)%nat ->
  shl_block block shift = Some (replicate shift 0 ++ take (8 - shift) block).
Proof.
  intros Hok Hlen Hs. unfold shl_block. rewrite (proj2 (Nat.ltb_lt _ _)) by done. f_equal.
  set (l := replicate shift 0 ++ block).
  assert (Hl : bytes_ok l) by (apply bytes_ok_app; auto with bess).
  assert (Z.shiftl (le_load block) (Z.of_nat shift * 8) = le_load l) as ->.
  { subst l. rewrite le_load_app, le_load_replicate, length_replicate.
    rewrite Z.shiftl_mul_pow2, <- pow256 by lia. lia. }
  assert (u64 (le_load l) = le_load (take 8 l)) as ->.
  { apply (le_load_mod 8); [done|]. subst l. rewrite length_app. lia. }
  assert (Hlen8 : length (take 8 l) = 8%nat)
    by (subst l; rewrite length_take, length_app, length_replicate; lia).
  rewrite <- Hlen8 at 1. rewrite le_store_load by auto with bess.
  subst l. rewrite take_app_ge by (rewrite length_replicate; lia). by rewrite length_replicate.
Qed.

(** *** The chunked left shift *)
Definition left_inv (orig : bytes) (shift : nat) (s : bytes * nat) : Prop :=
  let '(cur, off) := s in
  bytes_ok cur /\ length cur = length orig /\ (off + shift <= length orig)%nat /\
  take off cur = take off (drop shift orig) /\
  drop (off + shift) cur = drop (off + shift) orig /\
  (off = 0%nat \/ take shift (drop off cur) = replicate shift 0).

Lemma shift_left_step orig shift s : (shift < 8)%nat -> left_inv orig shift s ->
  shift_left_cond s = true ->
  exists s', shift_left_body shift s = Some s' /\ left_inv orig shift s' /\
    (length orig - snd s' < length orig - snd s)%nat.
Proof.
  destruct s as [cur off]. intros Hs (Hok & Hlen & Hoff & Htk & Hdr & Hmid) Hc%Nat.leb_le.
  unfold shift_left_body.
  assert (Hl8 : length (take 8 (drop off cur)) = 8%nat) by (rewrite length_take, length_drop; lia).
  rewrite shr_block_spec by (auto with bess || done). cbn [mbind option_bind].
  set (new := drop shift _ ++ _).
  assert (Hln : length new = 8%nat)
    by (subst new; rewrite length_app, length_drop, length_replicate; lia).
  assert (Hnew : new = take (8 - shift) (drop (off + shift) orig) ++ replicate shift 0).
  { subst new. by rewrite skipn_firstn_comm, drop_drop, Hdr. }
  eexists. split; [done|]. cbn [snd]. split; [|lia].
  split; [|split; [|split; [lia|split; [|split]]]].
  - unfold write. rewrite !bytes_ok_app. subst new. rewrite bytes_ok_app. auto 10 with bess.
  - rewrite length_write; lia.
  - unfold write. rewrite take_app_ge by (rewrite length_take; lia).
    rewrite length_take_le, Htk by lia.
    replace (off + (8 - shift) - off)%nat with (8 - shift)%nat by lia.
    rewrite take_app_le, Hnew, take_app_le by (rewrite ?length_take, ?length_drop; lia).
    rewrite take_take, Nat.min_id. rewrite <- take_take_drop. f_equal.
    by rewrite drop_drop, (Nat.add_comm off).
  - rewrite drop_write_ge by lia. 
    replace (off + (8 - shift) + shift)%nat with (off + shift + (8 - shift))%nat by lia.
    by rewrite <- !(drop_drop _ _ (off + shift)), Hdr.
  - right. rewrite <- drop_drop, drop_write by lia. rewrite drop_app_le by lia.
    rewrite Hnew, drop_app_ge by (rewrite length_take; lia).
    rewrite length_take, length_drop.
    replace (8 - shift - _)%nat with 0%nat by lia. rewrite drop_0.
    rewrite take_app_le by (rewrite length_replicate; lia). apply take_ge.
    rewrite length_replicate. lia.
Qed.

Lemma shift_left_finish orig shift cur off : (shift < 8)%nat -> (8 <= length orig)%nat ->
  left_inv orig shift (cur, off) -> shift_left_cond (cur, off) = false ->
  (if (shift <? length cur - off)%nat then
     let tmp_len := (length cur - off - shift)%nat in
     let buf := write off (take tmp_len (drop (off + shift) cur)) cur in
     write (length buf - shift) (replicate shift 0) buf
   else cur) = drop shift orig ++ replicate shift 0.
Proof.
  intros Hs H8 (Hok & Hlen & Hoff & Htk & Hdr & Hmid) Hc%Nat.leb_gt.
  rewrite Hlen in *. cbn zeta. destruct (Nat.ltb_spec shift (length orig - off)) as [Hr|Hr].
  - rewrite (take_ge (drop _ cur)) by (rewrite length_drop; lia).
    rewrite length_write by (rewrite length_drop; lia). rewrite Hlen, Hdr.
    unfold write at 1. rewrite (drop_ge (write _ _ _)), app_nil_r.
    2:{ rewrite length_write, length_replicate; [lia|]. rewrite length_drop. lia. }
    f_equal. unfold write. rewrite take_app_ge by (rewrite length_take; lia).
    rewrite length_take_le by lia. rewrite take_app_le, (take_ge (drop _ orig)) by (rewrite length_drop; lia).
    by rewrite Htk, (Nat.add_comm off), <- drop_drop, take_drop.
  - assert (off + shift = length orig)%nat as Hend by lia.
    rewrite <- (take_drop off cur), Htk. f_equal.
    + apply take_ge. rewrite length_drop. lia.
    + destruct Hmid as [->|Hmid]; [lia|]. rewrite <- Hmid. symmetry. apply take_ge.
      rewrite length_drop. lia.
Qed.

Lemma ShiftBytesLeft_lt8 buf shift : bytes_ok buf -> (shift < 8)%nat ->
  ShiftBytesLeft buf shift = Some (ShiftBytesLeftSmall buf shift).
Proof.
  intros Hok Hs. unfold ShiftBytesLeft. destruct (Nat.ltb_spec (length buf) 8) as [|H8]; [done|].
  rewrite (proj2 (Nat.ltb_ge _ _)) by lia. cbn [orb].
  destruct (while_total (left_inv buf shift) (fun s => (length buf - snd s)%nat)
    shift_left_cond (shift_left_body shift) (length buf) (buf, O))
    as ([cur off] & -> & HI & Hc).
  - intros s HI Hc. by apply shift_left_step.
  - split; [done|]. split; [done|]. split; [lia|]. split; [by rewrite !take_0|].
    split; [done|by left].
  - cbn. lia.
  - cbn [mbind option_bind]. pose proof (shift_left_finish _ _ _ _ Hs H8 HI Hc) as Hf.
    cbn zeta in *. rewrite ShiftBytesLeftSmall_spec. replace (shift `min` length buf)%nat with shift by lia.
    rewrite <- Hf. by case_match.
Qed.

(** *** The chunked right shift *)
Definition right_inv (orig : bytes) (shift : nat) (s : bytes * Z * nat) : Prop :=
  let '(cur, pos, leftover) := s in
  bytes_ok cur /\ length cur = length orig /\ Z.of_nat leftover = pos + 8 /\
  (shift <= leftover <= length orig)%nat /\
  take (leftover - shift) cur = take (leftover - shift) orig /\
  drop leftover cur = drop (leftover - shift) (take (length orig - shift) orig).

Lemma shift_right_step orig shift s : (shift < 8)%nat -> right_inv orig shift s ->
  shift_right_cond s = true ->
  exists s', shift_right_body shift s = Some s' /\ right_inv orig shift s' /\
    (snd s' < snd s)%nat.
Proof.
  destruct s as [[cur pos] lo]. intros Hs (Hok & Hlen & Hpos & Hlo & Htk & Hdr) Hc%Z.leb_le.
  unfold shift_right_body. replace (Z.to_nat pos) with (lo - 8)%nat by lia.
  set (off := (lo - 8)%nat). assert (Hlo8 : (lo = off + 8)%nat) by lia.
  clearbody off. subst lo.
  rewrite shl_block_spec by (auto with bess || rewrite ?length_take, ?length_drop; lia).
  cbn [mbind option_bind]. set (new := replicate shift 0 ++ _).
  assert (Hln : length new = 8%nat)
    by (subst new; rewrite length_app, !length_take, length_drop, length_replicate; lia).
  assert (Hblk : take (8 - shift) (take 8 (drop off cur)) = take (8 - shift) (drop off orig)).
  { rewrite take_take, !firstn_skipn_comm. replace ((8 - shift) `min` 8)%nat with (8 - shift)%nat by lia.
    replace (off + (8 - shift))%nat with (off + 8 - shift)%nat by lia. by rewrite Htk. }
  eexists. split; [done|]. cbn [snd]. split; [|lia].
  split; [|split; [|split; [lia|split; [lia|split]]]].
  - unfold write. rewrite !bytes_ok_app. subst new. rewrite bytes_ok_app. auto 10 with bess.
  - rewrite length_write; lia.
  - replace (off + 8 - (8 - shift) - shift)%nat with off by lia. rewrite take_write by lia.
    apply (f_equal (take off)) in Htk. rewrite !take_take in Htk.
    by replace (off `min` (off + 8 - shift))%nat with off in Htk by lia.
  - replace (off + 8 - (8 - shift) - shift)%nat with off by lia.
    replace (off + 8 - (8 - shift))%nat with (off + shift)%nat by lia.
    rewrite <- drop_drop, drop_write, Hln, Hdr by lia. subst new.
    rewrite <- app_assoc, drop_app_ge by (rewrite length_replicate; lia).
    rewrite length_replicate, Nat.sub_diag, drop_0, Hblk.
    rewrite <- (take_drop (8 - shift) (drop off (take _ orig))). f_equal.
    + rewrite skipn_firstn_comm, take_take. f_equal. lia.
    + rewrite drop_drop. f_equal. lia.
Qed.

Lemma ShiftBytesRight_lt8 buf shift : bytes_ok buf -> (shift < 8)%nat ->
  ShiftBytesRight buf shift = Some (ShiftBytesRightSmall buf shift).
Proof.
  intros Hok Hs. unfold ShiftBytesRight. destruct (Nat.ltb_spec (length buf) 8) as [|H8]; [done|].
  rewrite (proj2 (Nat.ltb_ge _ _)) by lia. cbn [orb].
  destruct (while_total (right_inv buf shift) snd shift_right_cond (shift_right_body shift)
    (length buf) (buf, Z.of_nat (length buf) - 8, length buf))
    as ([[cur pos] lo] & -> & (Hok' & Hlen & Hpos & Hlo & Htk & Hdr) & Hc).
  - intros s HI Hc. by apply shift_right_step.
  - split; [done|]. split; [done|]. split; [lia|]. split; [lia|]. split; [done|].
    rewrite !drop_ge; [done|rewrite length_take; lia|lia].
  - done.
  - apply Z.leb_gt in Hc. cbn [mbind option_bind].
    rewrite !ShiftBytesRightSmall_spec, length_take, Hlen.
    replace (shift `min` (lo `min` length buf))%nat with shift by lia.
    replace (shift `min` length buf)%nat with shift by lia.
    replace (lo `min` length buf - shift)%nat with (lo - shift)%nat by lia.
    rewrite take_take. replace ((lo - shift) `min` lo)%nat with (lo - shift)%nat by lia.
    unfold write. rewrite take_0, app_nil_l, length_app, length_replicate, length_take, Hlen.
    replace (0 + (shift + _))%nat with lo by lia. rewrite <- app_assoc, Htk, Hdr. do 2 f_equal.
    rewrite <- (take_drop (lo - shift) (take (length buf - shift) buf)) at 2.
    rewrite take_take. do 2 f_equal. lia.
Qed.

(** *** Masks *)
Lemma mask_chunk_state n k mask buf : bytes_ok buf -> bytes_ok mask ->
  length mask = length buf -> (n * k <= length buf)%nat ->
  mask_chunks n k mask buf = zip_with Z.land (take (n * k) buf) (take (n * k) mask) ++ drop (n * k) buf.
Proof.
  intros Hb Hm Hlen. unfold mask_chunks. induction k as [|k IH]; intros Hk.
  - rewrite Nat.mul_0_r. done.
  - rewrite seq_S, fold_left_app, IH by lia. cbn [fold_left Nat.add].
    set (done_ := zip_with _ _ _).
    assert (Hld : length done_ = (n * k)%nat)
      by (subst done_; rewrite length_zip_with, !length_take; lia).
    unfold mask_chunk. rewrite drop_app_ge by lia. rewrite Hld, Nat.sub_diag, drop_0.
    rewrite le_load_land by (auto with bess || rewrite !length_take, !length_drop; lia).
    assert (Hlz : length (zip_with Z.land (take n (drop (n * k) buf)) (take n (drop (n * k) mask))) = n)
      by (rewrite length_zip_with, !length_take, !length_drop; lia).
    assert (forall l, bytes_ok l -> length l = n -> le_store n (le_load l) = l) as ->
      by (intros l Hl <-; by apply le_store_load); [|by auto with bess|done].
    unfold write. rewrite take_app_le, take_ge by lia.
    rewrite drop_app_ge by lia. rewrite Hld, Hlz, drop_drop, app_assoc.
    replace (n * S k)%nat with (n * k + n)%nat by lia. f_equal; [|f_equal; lia].
    subst done_. rewrite <- zip_with_app by (rewrite !length_take; lia).
    by rewrite !take_take_drop.
Qed.

Lemma mask_small buf mask : bytes_ok buf -> bytes_ok mask -> length mask = length buf ->
  MaskBytesSmall buf mask = zip_with Z.land buf mask.
Proof.
  intros Hb Hm Hlen. unfold MaskBytesSmall. rewrite mask_chunk_state by (done || lia).
  rewrite drop_ge, app_nil_r, !take_ge by lia. done.
Qed.

(** Masking the first [a] bytes in chunks, then the rest by [f]. *)
Lemma mask_two buf mask a : bytes_ok buf -> bytes_ok mask -> length mask = length buf ->
  (a <= length buf)%nat ->
  write a (zip_with Z.land (drop a (zip_with Z.land (take a buf) (take a mask) ++ drop a buf))
                           (drop a mask))
    (zip_with Z.land (take a buf) (take a mask) ++ drop a buf)
  = zip_with Z.land buf mask.
Proof.
  intros Hb Hm Hlen Ha.
  assert (Hlz : length (zip_with Z.land (take a buf) (take a mask)) = a)
    by (rewrite length_zip_with, !length_take; lia).
  rewrite drop_app_ge by lia. rewrite Hlz, Nat.sub_diag, drop_0. unfold write.
  rewrite take_app_le, take_ge by lia. rewrite (drop_ge _ (a + _)), app_nil_r.
  - rewrite <- zip_with_app by (rewrite !length_take; lia). by rewrite !take_drop.
  - rewrite length_zip_with, length_app, !length_drop. lia.
Qed.

Lemma mask_64 buf mask : bytes_ok buf -> bytes_ok mask -> length mask = length buf ->
  MaskBytes64 buf mask = zip_with Z.land buf mask.
Proof.
  intros Hb Hm Hlen. unfold MaskBytes64. pose proof (Nat.div_mod_eq (length buf) 8).
  rewrite mask_chunk_state by (done || lia). set (a := (8 * (length buf / 8))%nat) in *.
  assert (bytes_ok (zip_with Z.land (take a buf) (take a mask) ++ drop a buf))
    by (apply bytes_ok_app; auto with bess).
  case_match eqn:Hc.
  - apply Nat.eqb_eq in Hc. rewrite drop_ge, app_nil_r, !take_ge by lia. done.
  - rewrite mask_small; [by apply mask_two; try lia|by auto with bess..|].
    rewrite !length_drop, length_app, length_zip_with, !length_take, length_drop. lia.
Qed.

Lemma mask_128 buf mask : bytes_ok buf -> bytes_ok mask -> length mask = length buf ->
  MaskBytes buf mask = zip_with Z.land buf mask.
Proof.
  intros Hb Hm Hlen. unfold MaskBytes. case_match; [by apply mask_64|].
  pose proof (Nat.div_mod_eq (length buf) 16).
  rewrite mask_chunk_state by (done || lia). set (a := (16 * (length buf / 16))%nat) in *.
  assert (bytes_ok (zip_with Z.land (take a buf) (take a mask) ++ drop a buf))
    by (apply bytes_ok_app; auto with bess).
  assert (length (drop a mask) =
    length (drop a (zip_with Z.land (take a buf) (take a mask) ++ drop a buf))).
  { rewrite !length_drop, length_app, length_zip_with, !length_take, length_drop. lia. }
  case_match; [rewrite mask_64 by (done || auto with bess)|rewrite mask_small by (done || auto with bess)];
    apply mask_two; done || lia.
Qed.

(** ** Properties *)

(** The chunked byte shifts agree with their byte-wise definitions for every
    buffer and every shift other than 8; for a shift of 8 on a buffer of 8 bytes or
    more the block shift is undefined. *)
Theorem ShiftBytes_chunked buf shift : bytes_ok buf ->
  (shift <> 8%nat ->
     ShiftBytesLeft buf shift = Some (ShiftBytesLeftSmall buf shift) /\
     ShiftBytesRight buf shift = Some (ShiftBytesRightSmall buf shift)) /\
  ((8 <= length buf)%nat -> shift = 8%nat ->
     ShiftBytesLeft buf shift = None /\ ShiftBytesRight buf shift = None).
Proof.
  intros Hok. split.
  - intros Hs. destruct (Nat.lt_ge_cases shift 8).
    + split; [by apply ShiftBytesLeft_lt8|by apply ShiftBytesRight_lt8].
    + unfold ShiftBytesLeft, ShiftBytesRight.
      rewrite (proj2 (Nat.ltb_lt 8 shift)) by lia. by rewrite orb_true_r.
  - intros Hl ->. unfold ShiftBytesLeft, ShiftBytesRight.
    rewrite (proj2 (Nat.ltb_ge (length buf) 8)) by done.
    destruct (length buf) as [|n] eqn:Hlen; [lia|]. cbn [orb Nat.ltb Nat.leb while].
    unfold shift_left_cond, shift_right_cond. rewrite Hlen.
    rewrite (proj2 (Nat.leb_le 8 _)) by lia. rewrite (proj2 (Z.leb_le 0 _)) by lia. done.
Qed.

Lemma ShiftBytes_chunked_witness :
  (20%nat <> 8%nat ->
     ShiftBytesLeft [1; 2; 3; 4; 5; 6; 7; 8; 9] 20 = Some (ShiftBytesLeftSmall [1; 2; 3; 4; 5; 6; 7; 8; 9] 20) /\
     ShiftBytesRight [1; 2; 3; 4; 5; 6; 7; 8; 9] 20 = Some (ShiftBytesRightSmall [1; 2; 3; 4; 5; 6; 7; 8; 9] 20)) /\
  ((8 <= 9)%nat -> 20%nat = 8%nat ->
     ShiftBytesLeft [1; 2; 3; 4; 5; 6; 7; 8; 9] 20 = None /\
     ShiftBytesRight [1; 2; 3; 4; 5; 6; 7; 8; 9] 20 = None).
Proof.
  apply (ShiftBytes_chunked [1; 2; 3; 4; 5; 6; 7; 8; 9] 20).
  apply (bool_decide_unpack _); vm_compute; exact I.
Defined.

(** The chunked shifts at work. *)
Example shift_left_3 : ShiftBytesLeft [1; 2; 3; 4; 5; 6; 7; 8; 9; 10; 11] 3
  = Some [4; 5; 6; 7; 8; 9; 10; 11; 0; 0; 0].
Proof. reflexivity. Qed.

(** masking in 1-, 8- and 16-byte chunks all compute the byte-wise [and]. *)
Theorem MaskBytes_bytewise buf mask :
  bytes_ok buf -> bytes_ok mask -> length mask = length buf ->
  MaskBytesSmall buf mask = zip_with Z.land buf mask /\
  MaskBytes64 buf mask = zip_with Z.land buf mask /\
  MaskBytes buf mask = zip_with Z.land buf mask.
Proof. intros. split; [by apply mask_small|]. split; [by apply mask_64|by apply mask_128]. Qed.

Lemma MaskBytes_bytewise_witness :
  MaskBytesSmall [255; 7; 3] [15; 255; 1] = zip_with Z.land [255; 7; 3] [15; 255; 1] /\
  MaskBytes64 [255; 7; 3] [15; 255; 1] = zip_with Z.land [255; 7; 3] [15; 255; 1] /\
  MaskBytes [255; 7; 3] [15; 255; 1] = zip_with Z.land [255; 7; 3] [15; 255; 1].
Proof.
  apply MaskBytes_bytewise; [| |done]; apply (bool_decide_unpack _); vm_compute; exact I.
Defined.

Lemma ones_testbit n i : 0 <= n -> 0 <= i -> Z.testbit (Z.ones n) i = (i <? n).
Proof.
  intros. destruct (Z.ltb_spec i n); [by rewrite Z.ones_spec_low|by rewrite Z.ones_spec_high].
Qed.

Lemma SetBitsHigh_ones w n : 0 <= n -> 0 <= w -> SetBitsHigh w n = Z.ones (n `min` w).
Proof.
  intros Hn Hw. unfold SetBitsHigh, SetBitsHigh_.
  destruct (Z.eqb_spec n 0) as [->|]; [by rewrite Z.min_l|].
  assert (forall m, 0 <= m <= w -> wrap w (Z.ones m) = Z.ones m) as Hwrap.
  { intros m Hm. apply wrap_small. unfold in_word. rewrite Z.ones_equiv.
    pose proof (Z.pow_le_mono_r 2 m w). lia. }
  destruct (Z.leb_spec w n).
  - rewrite Z.min_r by done. change (Z.lnot 0) with (-1). rewrite <- (Hwrap w) by lia.
    unfold wrap. rewrite Z.ones_equiv. replace (Z.pred (2 ^ w)) with (-1 + 1 * 2 ^ w) by lia.
    by rewrite Z.mod_add by (apply Z.pow_nonzero; lia).
  - rewrite Z.min_l by lia. rewrite Z.shiftl_1_l. rewrite <- (Hwrap n) by lia.
    by rewrite Z.ones_equiv, Z.sub_1_r.
Qed.

Lemma SetBitsLow_testbit w n i : 0 < w -> 0 <= n -> 0 <= i ->
  Z.testbit (SetBitsLow w n) i = ((w - n <=? i) && (i <? w)).
Proof.
  intros Hw Hn Hi. unfold SetBitsLow. destruct (Z.eqb_spec n 0) as [->|Hn0].
  { rewrite Z.bits_0. symmetry. apply andb_false_iff. lia. }
  destruct (Z.leb_spec w n).
  - pose proof (SetBitsHigh_ones w n Hn ltac:(lia)) as Ho. unfold SetBitsHigh in Ho.
    rewrite (proj2 (Z.eqb_neq n 0)), (proj2 (Z.leb_le w n)) in Ho by done.
    rewrite Ho, ones_testbit, Z.min_r by lia.
    by rewrite (proj2 (Z.leb_le (w - n) i)) by lia.
  - pose proof (SetBitsHigh_ones w (w - n) ltac:(lia) ltac:(lia)) as Ho.
    unfold SetBitsHigh in Ho. rewrite (proj2 (Z.eqb_neq (w - n) 0)) in Ho by lia.
    rewrite (proj2 (Z.leb_gt w (w - n))), Z.min_l in Ho by lia. rewrite Ho.
    unfold wrap. destruct (Z.ltb_spec i w).
    + rewrite Z.mod_pow2_bits_low, Z.lnot_spec, ones_testbit by lia.
      rewrite andb_true_r. destruct (Z.leb_spec (w - n) i), (Z.ltb_spec i (w - n)); lia || done.
    + rewrite Z.mod_pow2_bits_high by lia. by rewrite andb_false_r.
Qed.

(** [SetBitsHigh<T>(n)] sets the [n] least significant bits and
    [SetBitsLow<T>(n)] the [n] most significant ones (all bits from the width on),
    the opposite of what their comments in bits.h say. *)
Theorem SetBits_testbit w n i : 0 < w -> 0 <= n -> 0 <= i ->
  Z.testbit (SetBitsHigh w n) i = (i <? n `min` w) /\
  Z.testbit (SetBitsLow w n) i = ((w - n <=? i) && (i <? w)).
Proof.
  intros Hw Hn Hi. split; [|by apply SetBitsLow_testbit].
  rewrite SetBitsHigh_ones by lia. apply ones_testbit; lia.
Qed.

Lemma SetBits_testbit_witness :
  Z.testbit (SetBitsHigh 32 9) 31 = (31 <? 9 `min` 32) /\
  Z.testbit (SetBitsLow 32 9) 31 = ((32 - 9 <=? 31) && (31 <? 32)).
Proof. apply SetBits_testbit; lia. Defined.

Example SetBitsHigh_32_9 : SetBitsHigh 32 9 = 0x1FF /\ SetBitsLow 32 9 = 0xFF800000.
Proof. split; reflexivity. Qed.
