(* ===== verification/PacketBuf.v ===== *)
(** Packet buffers: [core/packet.h], [core/snbuf_layout.h] and the access to metadata
    attributes of [core/module.h].

    A packet is the buffer that starts at [buf_addr_] (the headroom, then the data), the
    window of it that is the frame, and the bytes of its metadata with the scratchpad that
    follows them.  An access outside of these areas is [None]: the source does not check
    that an access is inside the frame, nor do the definitions. *)
From S2P Require Import Prelude Common Bits.

(** [snbuf_layout.h] *)
Definition SNBUF_METADATA : Z := 128.
Definition SNBUF_SCRATCHPAD : Z := 64.
Definition SNBUF_HEADROOM : Z := 128.
Definition SNBUF_DATA : Z := 2048.

Record Packet := MkPacket {
  buffer_ : bytes;
  data_off_ : Z;
  data_len_ : Z;
  pkt_len_ : Z;
  metadata_ : bytes }.

Definition with_buffer (p : Packet) (b : bytes) : Packet :=
  MkPacket b (data_off_ p) (data_len_ p) (pkt_len_ p) (metadata_ p).
Definition with_metadata (p : Packet) (m : bytes) : Packet :=
  MkPacket (buffer_ p) (data_off_ p) (data_len_ p) (pkt_len_ p) m.

(** [total_len()] is an [int]. *)
Definition total_len (p : Packet) : Z := to_int (pkt_len_ p).

(** [prepend] and [adj]; [None] is the null pointer, and the packet is unchanged then. *)
Definition prepend (len : Z) (p : Packet) : option Packet :=
  if data_off_ p <? len then None
  else Some (MkPacket (buffer_ p) (data_off_ p - len) (u16 (data_len_ p + len)) (u32 (pkt_len_ p + len)) (metadata_ p)).
Definition adj (len : Z) (p : Packet) : option Packet :=
  if data_len_ p <? len then None
  else Some (MkPacket (buffer_ p) (u16 (data_off_ p + len)) (data_len_ p - len) (u32 (pkt_len_ p - len)) (metadata_ p)).

(** [append], at the end of the frame. *)
Definition tailroom (p : Packet) : Z := u16 (Z.of_nat (length (buffer_ p)) - data_off_ p - data_len_ p).
Definition append (len : Z) (p : Packet) : option Packet :=
  if tailroom p <? len then None
  else Some (MkPacket (buffer_ p) (data_off_ p) (u16 (data_len_ p + len)) (u32 (pkt_len_ p + len)) (metadata_ p)).

(** Reads and writes at [head_data() + off]. *)
Definition read_at (off n : Z) (b : bytes) : option bytes := slice off n b.
Definition write_at (off : Z) (new b : bytes) : option bytes :=
  if (0 <=? off) && (off + Z.of_nat (length new) <=? Z.of_nat (length b))
  then Some (write (Z.to_nat off) new b) else None.
Definition head_read (off n : Z) (p : Packet) : option bytes := read_at (data_off_ p + off) n (buffer_ p).
Definition head_write (off : Z) (new : bytes) (p : Packet) : option Packet :=
  with_buffer p <$> write_at (data_off_ p + off) new (buffer_ p).

(** [get_attr_with_offset<T>] and [set_attr_with_offset<T>] for a [T] of [n] bytes.  An
    attribute without a place in the packet reads as [T()] and is not written. *)
Definition get_attr_with_offset (offset n : Z) (p : Packet) : option bytes :=
  if 0 <=? offset then read_at offset n (metadata_ p) else Some (replicate (Z.to_nat n) 0).
Definition set_attr_with_offset (offset : Z) (val : bytes) (p : Packet) : option Packet :=
  if 0 <=? offset then with_metadata p <$> write_at offset val (metadata_ p) else Some p.

(** The frame, and what is always true of a packet in one segment. *)
Definition frame (p : Packet) : bytes := take (Z.to_nat (data_len_ p)) (drop (Z.to_nat (data_off_ p)) (buffer_ p)).

Record packet_ok (p : Packet) : Prop := {
  ok_buffer : Z.of_nat (length (buffer_ p)) = SNBUF_HEADROOM + SNBUF_DATA;
  ok_metadata : Z.of_nat (length (metadata_ p)) = SNBUF_METADATA + SNBUF_SCRATCHPAD;
  ok_off : 0 <= data_off_ p;
  ok_len : 0 <= data_len_ p;
  ok_end : data_off_ p + data_len_ p <= SNBUF_HEADROOM + SNBUF_DATA;
  ok_pkt_len : pkt_len_ p = data_len_ p;
  ok_bytes : bytes_ok (buffer_ p);
  ok_meta_bytes : bytes_ok (metadata_ p) }.

(** A packet that holds a frame: used by witnesses. *)
Definition packet_of (f : bytes) : Packet :=
  MkPacket (replicate 128 0 ++ f ++ replicate (2048 - length f) 0) 128 (Z.of_nat (length f)) (Z.of_nat (length f))
    (replicate 192 0).

(** ** Writes *)
Lemma write_length off new b : (off + length new <= length b)%nat -> length (write off new b) = length b.
Proof. apply length_write. Qed.

Lemma write_app_l off new a c : (off + length new <= length a)%nat -> write off new (a ++ c) = write off new a ++ c.
Proof.
  intros H. unfold write. rewrite (take_app_le a c), (drop_app_le a c) by lia. by rewrite <- !app_assoc.
Qed.

Lemma write_app_r off new a c : (length a <= off)%nat -> write off new (a ++ c) = a ++ write (off - length a) new c.
Proof.
  intros H. unfold write. rewrite (take_app_ge a c), (drop_app_ge a c) by lia. rewrite <- !app_assoc.
  by replace (off + length new - length a)%nat with (off - length a + length new)%nat by lia.
Qed.

Lemma write_mid a old c new off : off = length a -> length old = length new -> write off new (a ++ old ++ c) = a ++ new ++ c.
Proof.
  intros -> H. rewrite write_app_r, Nat.sub_diag by lia. unfold write. change (0 + length new)%nat with (length new).
  rewrite take_0, (drop_app_ge old c), <- H, Nat.sub_diag, drop_0 by lia. done.
Qed.

Lemma bytes_ok_write off new b : bytes_ok b -> bytes_ok new -> bytes_ok (write off new b).
Proof. intros Hb Hn. unfold write. apply bytes_ok_app. split; [auto with bess|]. apply bytes_ok_app. auto with bess. Qed.

Lemma write_at_Some off new b : 0 <= off -> off + Z.of_nat (length new) <= Z.of_nat (length b) ->
  write_at off new b = Some (write (Z.to_nat off) new b).
Proof. intros. unfold write_at. rewrite (proj2 (Z.leb_le _ _)), (proj2 (Z.leb_le _ _)) by lia. done. Qed.

Lemma take_drop_write o n off new b : (o <= off)%nat -> (off + length new <= o + n)%nat -> (o + n <= length b)%nat ->
  take n (drop o (write off new b)) = write (off - o) new (take n (drop o b)).
Proof.
  intros H1 H2 H3. rewrite <- (take_drop o b) at 1. rewrite write_app_r by (rewrite length_take; lia).
  rewrite drop_app_ge by (rewrite length_take; lia). rewrite length_take_le, Nat.sub_diag, drop_0 by lia.
  rewrite <- (take_drop n (drop o b)) at 1. rewrite write_app_l by (rewrite length_take, length_drop; lia).
  rewrite take_app_le by (rewrite length_write; rewrite length_take, length_drop; lia).
  rewrite take_ge; [done|]. rewrite length_write; rewrite length_take, length_drop; lia.
Qed.

Lemma write_other_read o n off new b : (off + length new <= length b)%nat -> (o + n <= off \/ off + length new <= o)%nat ->
  take n (drop o (write off new b)) = take n (drop o b).
Proof.
  intros Hl [H|H].
  - rewrite !firstn_skipn_comm. f_equal. unfold write. rewrite take_app_le by (rewrite length_take; lia).
    by rewrite take_take, Nat.min_l by lia.
  - f_equal. unfold write. rewrite !drop_app_ge by (rewrite ?length_take; lia). rewrite drop_drop. f_equal.
    rewrite length_take. lia.
Qed.

Lemma write_read off new b : (off + length new <= length b)%nat -> take (length new) (drop off (write off new b)) = new.
Proof.
  intros Hl. unfold write. rewrite drop_app_ge by (rewrite length_take; lia).
  rewrite length_take_le, Nat.sub_diag, drop_0 by lia. rewrite take_app_le, take_ge by lia. done.
Qed.

(** ** Frames *)
Lemma packet_of_ok f : bytes_ok f -> (length f <= 2048)%nat -> packet_ok (packet_of f).
Proof.
  intros Hf Hl. unfold packet_of. split; cbn [buffer_ metadata_ data_off_ data_len_ pkt_len_]; unfold SNBUF_HEADROOM, SNBUF_DATA, SNBUF_METADATA, SNBUF_SCRATCHPAD.
  - rewrite !length_app, !length_replicate. lia.
  - by rewrite length_replicate.
  - lia.
  - lia.
  - lia.
  - done.
  - apply bytes_ok_app. split; [auto with bess|]. apply bytes_ok_app. auto with bess.
  - auto with bess.
Qed.

Lemma frame_of f : frame (packet_of f) = f.
Proof.
  unfold frame, packet_of. cbn [buffer_ data_off_ data_len_].
  rewrite drop_app_ge by (rewrite length_replicate; lia). rewrite length_replicate.
  change (Z.to_nat 128 - 128)%nat with 0%nat. rewrite drop_0, Nat2Z.id, take_app_le, take_ge by lia. done.
Qed.

Lemma length_frame p : packet_ok p -> Z.of_nat (length (frame p)) = data_len_ p.
Proof.
  intros [Hb _ Ho Hl He _ _ _]. unfold frame. unfold SNBUF_HEADROOM, SNBUF_DATA in *.
  rewrite length_take_le; [lia|]. rewrite length_drop. lia.
Qed.

Lemma frame_bytes p : packet_ok p -> bytes_ok (frame p).
Proof. intros Hp. unfold frame. pose proof (ok_bytes p Hp). auto with bess. Qed.

(** [prepend] puts bytes of the headroom in front of the frame. *)
Lemma prepend_spec len p : packet_ok p -> 0 <= len ->
  match prepend len p with
  | None => data_off_ p < len
  | Some q => packet_ok q /\ data_off_ q = data_off_ p - len /\ data_len_ q = data_len_ p + len /\
      metadata_ q = metadata_ p /\ buffer_ q = buffer_ p /\
      exists junk, Z.of_nat (length junk) = len /\ bytes_ok junk /\ frame q = junk ++ frame p
  end.
Proof.
  intros Hp Hlen. pose proof (length_frame p Hp) as Hlf. destruct Hp as [Hb Hm Ho Hl He Hpl Hby Hmb].
  unfold prepend. unfold SNBUF_HEADROOM, SNBUF_DATA in *. destruct (Z.ltb_spec (data_off_ p) len); [done|].
  cbn [data_off_ data_len_ metadata_ buffer_].
  assert (u16 (data_len_ p + len) = data_len_ p + len) as E1 by (apply wrap_small; unfold in_word; lia).
  assert (u32 (pkt_len_ p + len) = data_len_ p + len) as E2 by (rewrite Hpl; apply wrap_small; unfold in_word; lia).
  split; [|split; [done|split; [done|split; [done|split; [done|]]]]].
  - split; cbn [data_off_ data_len_ metadata_ buffer_ pkt_len_]; unfold SNBUF_HEADROOM, SNBUF_DATA; try done; lia.
  - exists (take (Z.to_nat len) (drop (Z.to_nat (data_off_ p - len)) (buffer_ p))). split; [|split; [auto with bess|]].
    + rewrite length_take_le; [lia|]. rewrite length_drop. lia.
    + unfold frame. cbn [data_off_ data_len_ buffer_]. rewrite E1.
      replace (Z.to_nat (data_len_ p + len)) with (Z.to_nat len + Z.to_nat (data_len_ p))%nat by lia.
      rewrite <- (take_drop (Z.to_nat len) (drop (Z.to_nat (data_off_ p - len)) (buffer_ p))) at 1.
      rewrite take_app_ge by (rewrite length_take, length_drop; lia).
      rewrite length_take_le by (rewrite length_drop; lia). rewrite drop_drop. f_equal.
      f_equal; [lia|]. f_equal. lia.
Qed.

(** [adj] drops bytes of the frame. *)
Lemma adj_spec len p : packet_ok p -> 0 <= len ->
  match adj len p with
  | None => data_len_ p < len
  | Some q => packet_ok q /\ data_off_ q = data_off_ p + len /\ data_len_ q = data_len_ p - len /\
      metadata_ q = metadata_ p /\ buffer_ q = buffer_ p /\ frame q = drop (Z.to_nat len) (frame p)
  end.
Proof.
  intros Hp Hlen. destruct Hp as [Hb Hm Ho Hl He Hpl Hby Hmb].
  unfold adj. unfold SNBUF_HEADROOM, SNBUF_DATA in *. destruct (Z.ltb_spec (data_len_ p) len); [done|].
  cbn [data_off_ data_len_ metadata_ buffer_].
  assert (u16 (data_off_ p + len) = data_off_ p + len) as E1 by (apply wrap_small; unfold in_word; lia).
  assert (u32 (pkt_len_ p - len) = data_len_ p - len) as E2 by (rewrite Hpl; apply wrap_small; unfold in_word; lia).
  split; [|split; [done|split; [done|split; [done|split; [done|]]]]].
  - split; cbn [data_off_ data_len_ metadata_ buffer_ pkt_len_]; unfold SNBUF_HEADROOM, SNBUF_DATA; try done; lia.
  - unfold frame. cbn [data_off_ data_len_ buffer_]. rewrite E1, skipn_firstn_comm, drop_drop. f_equal; [lia|]. f_equal. lia.
Qed.

Lemma with_metadata_ok p m : packet_ok p -> length m = length (metadata_ p) -> bytes_ok m -> packet_ok (with_metadata p m).
Proof. intros [? Hm ? ? ? ? ? ?] Hl Hmb. split; cbn; try done. by rewrite Hl. Qed.

Lemma with_buffer_ok p b : packet_ok p -> length b = length (buffer_ p) -> bytes_ok b -> packet_ok (with_buffer p b).
Proof. intros [Hb ? ? ? ? ? ? ?] Hl Hmb. split; cbn; try done. by rewrite Hl. Qed.

(** A write inside the frame. *)
Lemma head_write_spec off new p : packet_ok p -> bytes_ok new -> 0 <= off -> off + Z.of_nat (length new) <= data_len_ p ->
  exists q, head_write off new p = Some q /\ packet_ok q /\ data_off_ q = data_off_ p /\ data_len_ q = data_len_ p /\
    pkt_len_ q = pkt_len_ p /\ metadata_ q = metadata_ p /\ frame q = write (Z.to_nat off) new (frame p).
Proof.
  intros Hp Hn H1 H2. pose proof Hp as [Hb Hm Ho Hl He Hpl Hby Hmb]. unfold SNBUF_HEADROOM, SNBUF_DATA in *.
  unfold head_write. rewrite write_at_Some by lia. cbn [fmap option_fmap option_map].
  eexists. split; [reflexivity|]. split; [|split; [done|split; [done|split; [done|split; [done|]]]]].
  - apply with_buffer_ok; [done| |by apply bytes_ok_write]. apply length_write. lia.
  - unfold frame. cbn [buffer_ data_off_ data_len_ with_buffer]. rewrite take_drop_write by lia. f_equal. lia.
Qed.

(** A read inside the frame. *)
Lemma head_read_spec off n p : packet_ok p -> 0 <= off -> 0 <= n -> off + n <= data_len_ p ->
  head_read off n p = Some (take (Z.to_nat n) (drop (Z.to_nat off) (frame p))).
Proof.
  intros [Hb Hm Ho Hl He Hpl Hby Hmb] H1 H2 H3. unfold SNBUF_HEADROOM, SNBUF_DATA in *.
  unfold head_read, read_at. rewrite slice_Some by lia. f_equal. unfold frame.
  rewrite skipn_firstn_comm, take_take, drop_drop. rewrite Nat.min_l by lia. do 2 f_equal. lia.
Qed.

(** ** Attributes *)
Definition attr_range (o n : Z) : Prop := o < 0 \/ o + n <= SNBUF_METADATA + SNBUF_SCRATCHPAD.

Lemma get_attr_spec o n p : packet_ok p -> attr_range o n -> 0 <= n ->
  exists v, get_attr_with_offset o n p = Some v /\ Z.of_nat (length v) = n /\ bytes_ok v /\
    v = if 0 <=? o then take (Z.to_nat n) (drop (Z.to_nat o) (metadata_ p)) else replicate (Z.to_nat n) 0.
Proof.
  intros Hp Ho Hn. pose proof (ok_metadata p Hp) as Hm. pose proof (ok_meta_bytes p Hp).
  unfold get_attr_with_offset, attr_range, SNBUF_METADATA, SNBUF_SCRATCHPAD in *. destruct (Z.leb_spec 0 o).
  - unfold read_at. rewrite slice_Some by lia. eexists. split; [reflexivity|]. split; [|split; [auto with bess|done]].
    rewrite length_take_le; [lia|]. rewrite length_drop. lia.
  - eexists. split; [reflexivity|]. split; [rewrite length_replicate; lia|]. split; [auto with bess|done].
Qed.

Lemma set_attr_spec o v p : packet_ok p -> bytes_ok v -> attr_range o (Z.of_nat (length v)) ->
  exists q, set_attr_with_offset o v p = Some q /\ packet_ok q /\ buffer_ q = buffer_ p /\ data_off_ q = data_off_ p /\
    data_len_ q = data_len_ p /\ frame q = frame p /\
    metadata_ q = if 0 <=? o then write (Z.to_nat o) v (metadata_ p) else metadata_ p.
Proof.
  intros Hp Hv Ho. pose proof (ok_metadata p Hp) as Hm. pose proof (ok_meta_bytes p Hp).
  unfold set_attr_with_offset, attr_range, SNBUF_METADATA, SNBUF_SCRATCHPAD in *. destruct (Z.leb_spec 0 o).
  - rewrite write_at_Some by lia. eexists. split; [reflexivity|].
    split; [apply with_metadata_ok; [done|apply length_write; lia|by apply bytes_ok_write]|done].
  - eexists. split; [reflexivity|]. done.
Qed.

(** [append] puts bytes of the tailroom behind the frame. *)
Lemma append_spec len p : packet_ok p -> 0 <= len ->
  match append len p with
  | Some q => packet_ok q /\ data_off_ q = data_off_ p /\ data_len_ q = data_len_ p + len /\ metadata_ q = metadata_ p /\
      buffer_ q = buffer_ p /\ take (Z.to_nat (data_len_ p)) (frame q) = frame p
  | None => SNBUF_HEADROOM + SNBUF_DATA < data_off_ p + data_len_ p + len
  end.
Proof.
  intros Hp Hl. pose proof Hp as [Hb Hm Ho Hlen He Hpl Hby Hmb]. unfold SNBUF_HEADROOM, SNBUF_DATA in *. unfold append, tailroom.
  rewrite Hb, (wrap_small 16) by (unfold in_word; lia). destruct (Z.ltb_spec (128 + 2048 - data_off_ p - data_len_ p) len) as [|Hroom]; [lia|].
  assert (Hd : u16 (data_len_ p + len) = data_len_ p + len) by (apply wrap_small; unfold in_word; lia).
  assert (Hq : u32 (pkt_len_ p + len) = data_len_ p + len) by (rewrite Hpl; apply wrap_small; unfold in_word; lia).
  rewrite Hd, Hq. split; [split; cbn; unfold SNBUF_HEADROOM, SNBUF_DATA; lia || done|]. do 4 (split; [done|]).
  unfold frame. cbn. rewrite take_take. f_equal. lia.
Qed.
