(* ===== verification/Encap.v ===== *)
(** Modules that add and remove headers: [core/modules/vlan_push.cc], [vlan_pop.cc],
    [vlan_split.cc], [mpls_pop.cc], [generic_decap.cc], [ether_encap.cc], [ip_encap.cc],
    [vxlan_encap.cc] and [vxlan_decap.cc], with the headers of [core/utils/ether.h],
    [core/utils/vxlan.h] and [core/utils/mpls.h].

    Each module is a function on one packet, and its [ProcessBatch] maps it over the
    batch.  The modules access memory at the head of the packet without looking at its
    length; [None] is an access outside of the packet's buffer or metadata. *)
From S2P Require Import Prelude Common Endian Bits Checksum PacketBuf.

(** [Ethernet::Type] and the sizes of the headers *)
Definition kIpv4_type : Z := 0x0800.
Definition kVlan : Z := 0x8100.
Definition kQinQ : Z := 0x88a8.
Definition kMpls_type : Z := 0x8847.
Definition sizeof_Ethernet : Z := 14.
Definition sizeof_Ipv4 : Z := 20.
Definition sizeof_Udp : Z := 8.
Definition sizeof_Vxlan : Z := 8.
Definition sizeof_Mpls : Z := 4.

(** The bytes of a big-endian word of [n] bytes in memory. *)
Definition be_bytes (n : nat) (b : BigEndian) : bytes := le_store n (raw_value b).
Definition be_of_bytes (l : bytes) : BigEndian := BE (le_load l).

Lemma be_bytes_of_cpu n v : be_bytes n (of_cpu n v) = rev (le_store n v).
Proof. apply le_store_swap. Qed.

Lemma length_be_bytes n b : length (be_bytes n b) = n.
Proof. apply length_le_store. Qed.

Lemma be_bytes_ok n b : bytes_ok (be_bytes n b).
Proof. apply le_store_ok. Qed.

Lemma be_of_be_bytes n b : in_word (width n) (data_ b) -> be_of_bytes (be_bytes n b) = b.
Proof.
  intros Hb. unfold be_of_bytes, be_bytes, raw_value. rewrite le_load_store, pow256.
  unfold in_word, width in Hb. replace (Z.of_nat n * 8) with (8 * Z.of_nat n) by lia.
  rewrite Z.mod_small by done. by destruct b.
Qed.

Lemma be_bytes_of_bytes l : bytes_ok l -> be_bytes (length l) (be_of_bytes l) = l.
Proof. apply le_store_load. Qed.

#[export] Hint Resolve be_bytes_ok : bess.

(** The value of a big-endian word read from memory is its bytes read in network order. *)
Lemma value_of_bytes l : bytes_ok l -> value (length l) (be_of_bytes l) = be_load l.
Proof. intros Hl. unfold value, be_of_bytes, data_, swap. by rewrite le_store_load. Qed.

Lemma swap_of_bytes l : bytes_ok l -> swap (length l) (le_load l) = be_load l.
Proof. intros Hl. unfold swap. by rewrite le_store_load. Qed.

(** ** 128-bit vectors, as the bytes from the lowest lane *)
Definition mm_extract_epi16 (v : bytes) (k : nat) : Z := le_load (take 2 (drop (2 * k) v)).
Definition mm_insert_epi32 (v : bytes) (x : Z) (k : nat) : bytes := write (4 * k) (le_store 4 x) v.
Definition mm_slli_si128 (v : bytes) (k : nat) : bytes := replicate k 0 ++ take (16 - k) v.

(** ** VLAN *)
Record VLANPush := MkVLANPush { vlan_tag_ : BigEndian; qinq_tag_ : BigEndian }.

Definition CommandSetTci (arg_tci : Z) : VLANPush :=
  let tci := u16 arg_tci in
  MkVLANPush (of_cpu 4 (u32 (Z.lor (Z.shiftl kVlan 16) tci))) (of_cpu 4 (u32 (Z.lor (Z.shiftl kQinQ 16) tci))).

Definition vlan_push (m : VLANPush) (pkt : Packet) : option Packet :=
  match prepend 4 pkt with
  | None => Some pkt
  | Some pkt =>
      ethh ← head_read 4 16 pkt;
      let tpid := of_cpu 2 (swap 2 (mm_extract_epi16 ethh 6)) in
      let ethh := mm_insert_epi32 ethh
        (if value 2 tpid =? kVlan then raw_value (qinq_tag_ m) else raw_value (vlan_tag_ m)) 3 in
      head_write 0 ethh pkt
  end.

(** [old_head] is a pointer: the store after [adj] goes where the frame started. *)
Definition vlan_tagged (eth : bytes) : bool :=
  let tpid := of_cpu 2 (swap 2 (mm_extract_epi16 eth 6)) in
  be_eq tpid (of_cpu 2 kVlan) || be_eq tpid (of_cpu 2 kQinQ).

Definition vlan_pop (pkt : Packet) : option Packet :=
  let old_head := data_off_ pkt in
  eth ← read_at old_head 16 (buffer_ pkt);
  if vlan_tagged eth then
    match adj 4 pkt with
    | None => Some pkt
    | Some pkt => with_buffer pkt <$> write_at old_head (mm_slli_si128 eth 4) (buffer_ pkt)
    end
  else Some pkt.

(** The packet with the gate it is emitted to. *)
Definition vlan_split (pkt : Packet) : option (Packet * Z) :=
  let old_head := data_off_ pkt in
  eth ← read_at old_head 16 (buffer_ pkt);
  if vlan_tagged eth then
    match adj 4 pkt with
    | None => Some (pkt, 0)
    | Some pkt =>
        let tci := of_cpu 2 (swap 2 (mm_extract_epi16 eth 7)) in
        pkt ← with_buffer pkt <$> write_at old_head (mm_slli_si128 eth 4) (buffer_ pkt);
        Some (pkt, Z.land (value 2 tci) 0x0fff)
    end
  else Some (pkt, 0).

(** ** MPLS *)
Definition kMplsLabelMask : Z := 0xFFFFF000.
Definition kMplsLabelShift : Z := 12.
Definition kMplsTcMask : Z := 0x00000E00.
Definition kMplsTcShift : Z := 9.
Definition kMplsBosMask : Z := 0x00000100.
Definition kMplsBosShift : Z := 8.
Definition kMplsTtlMask : Z := 0x000000FF.
Definition kMplsTtlShift : Z := 0.

Definition SetEntry (label ttl tc : Z) (bos : bool) : BigEndian :=
  of_cpu 4 (u32 (Z.lor (Z.lor (Z.lor (u32 (Z.shiftl label kMplsLabelShift)) (Z.shiftl tc kMplsTcShift))
    (if bos then Z.shiftl 1 kMplsBosShift else 0)) (Z.shiftl ttl kMplsTtlShift))).
Definition Label (tag : BigEndian) : Z := Z.shiftr (Z.land (value 4 tag) kMplsLabelMask) kMplsLabelShift.
Definition Ttl (tag : BigEndian) : Z := u8 (Z.shiftr (Z.land (value 4 tag) kMplsTtlMask) kMplsTtlShift).
Definition Tc (tag : BigEndian) : Z := u8 (Z.shiftr (Z.land (value 4 tag) kMplsTcMask) kMplsTcShift).
Definition isBottomOfStack (tag : BigEndian) : bool :=
  negb (Z.shiftr (Z.land (value 4 tag) kMplsBosMask) kMplsBosShift =? 0).

Record MPLSPop := MkMPLSPop { next_ether_type_ : BigEndian; remove_eth_header_ : bool }.
Definition mpls_default : MPLSPop := MkMPLSPop (of_cpu 2 kIpv4_type) false.
Definition mpls_CommandSet (remove_eth_header : bool) (next_eth_type : Z) : MPLSPop :=
  MkMPLSPop (of_cpu 2 (u16 next_eth_type)) remove_eth_header.

(** The result of [adj] is not looked at: a packet that is too short stays as it is. *)
Definition adj_or_same (len : Z) (pkt : Packet) : Packet := default pkt (adj len pkt).

Definition mpls_pop (m : MPLSPop) (pkt : Packet) : option (Packet * Z) :=
  ether_type ← head_read 12 2 pkt;
  if be_ne (be_of_bytes ether_type) (of_cpu 2 kMpls_type) then Some (pkt, 1)
  else if remove_eth_header_ m then Some (adj_or_same (sizeof_Ethernet + sizeof_Mpls) pkt, 0)
  else
    src_addr ← head_read 6 6 pkt;
    dst_addr ← head_read 0 6 pkt;
    let pkt := adj_or_same sizeof_Mpls pkt in
    pkt ← head_write 6 src_addr pkt;
    pkt ← head_write 0 dst_addr pkt;
    pkt ← head_write 12 (be_bytes 2 (next_ether_type_ m)) pkt;
    Some (pkt, 0).

(** ** GenericDecap *)
Definition GenericDecap_Init (bytes_ : Z) (decap_size : Z) : Z + Z :=
  if bytes_ =? 0 then inr decap_size
  else let d := to_int bytes_ in if (d <=? 0) || (1024 <? d) then inl d else inr d.
Definition generic_decap (decap_size : Z) (pkt : Packet) : Packet := adj_or_same (u16 decap_size) pkt.

(** ** Ethernet, IP and VXLAN encapsulation

    [attr] is [attr_offset] of the module. *)
Definition ether_encap (attr : nat -> Z) (pkt : Packet) : option Packet :=
  ether_src ← get_attr_with_offset (attr 0%nat) 6 pkt;
  ether_dst ← get_attr_with_offset (attr 1%nat) 6 pkt;
  ether_type ← get_attr_with_offset (attr 2%nat) 2 pkt;
  match prepend sizeof_Ethernet pkt with
  | None => Some pkt
  | Some pkt =>
      pkt ← head_write 0 ether_dst pkt;
      pkt ← head_write 6 ether_src pkt;
      head_write 12 ether_type pkt
  end.

(** A bit field is updated in its byte. *)
Definition head_update (off : Z) (f : Z -> Z) (pkt : Packet) : option Packet :=
  b ← head_read off 1 pkt; head_write off [f (le_load b)] pkt.

Definition kDF : Z := 16384.

Definition ip_encap (attr : nat -> Z) (pkt : Packet) : option Packet :=
  ip_src ← get_attr_with_offset (attr 0%nat) 4 pkt;
  ip_dst ← get_attr_with_offset (attr 1%nat) 4 pkt;
  ip_proto ← get_attr_with_offset (attr 2%nat) 1 pkt;
  let total_len := u16 (total_len pkt + sizeof_Ipv4) in
  match prepend sizeof_Ipv4 pkt with
  | None => Some pkt
  | Some pkt =>
      pkt ← head_update 0 (fun b => Z.lor (Z.land b 0x0f) 0x40) pkt;
      pkt ← head_update 0 (fun b => Z.lor (Z.land b 0xf0) (sizeof_Ipv4 / 4)) pkt;
      pkt ← head_write 1 [0] pkt;
      pkt ← head_write 2 (be_bytes 2 (of_cpu 2 total_len)) pkt;
      pkt ← head_write 6 (be_bytes 2 (of_cpu 2 kDF)) pkt;
      pkt ← head_write 8 [64] pkt;
      pkt ← head_write 9 ip_proto pkt;
      pkt ← head_write 12 ip_src pkt;
      pkt ← head_write 16 ip_dst pkt;
      iph ← head_read 0 20 pkt;
      pkt ← head_write 10 (le_store 2 (CalculateIpv4NoOptChecksum iph)) pkt;
      pkt ← set_attr_with_offset (attr 3%nat) ip_dst pkt;
      set_attr_with_offset (attr 4%nat) (be_bytes 2 (of_cpu 2 kIpv4_type)) pkt
  end.

(** [dstport_] as [VXLANEncap::Init] sets it, or an error. *)
Definition kDefaultDstPort : Z := 4789.
Definition VXLANEncap_Init (dstport : Z) : unit + BigEndian :=
  if dstport =? 0 then inr (of_cpu 2 kDefaultDstPort)
  else if 65536 <=? dstport then inl tt else inr (of_cpu 2 dstport).

Section Vxlan.
(** [rte_hash_crc(data, len, init)] of DPDK, on the bytes at [data]. *)
Context (rte_hash_crc : bytes -> Z -> Z).

Definition vxlan_encap (dstport_ : BigEndian) (attr : nat -> Z) (pkt : Packet) : option Packet :=
  ip_src ← get_attr_with_offset (attr 0%nat) 4 pkt;
  ip_dst ← get_attr_with_offset (attr 1%nat) 4 pkt;
  vni ← get_attr_with_offset (attr 2%nat) 4 pkt;
  let inner_frame_len := u64 (total_len pkt + sizeof_Udp) in
  let inner_eth := data_off_ pkt in
  match prepend (sizeof_Udp + sizeof_Vxlan) pkt with
  | None => Some pkt
  | Some pkt =>
      pkt ← head_write 8 (be_bytes 4 (of_cpu 4 0x08000000)) pkt;
      vx_vni ← be_shl 4 (be_of_bytes vni) 8;
      pkt ← head_write 12 (be_bytes 4 vx_vni) pkt;
      macs ← read_at inner_eth 12 (buffer_ pkt);
      pkt ← head_write 0 (be_bytes 2 (of_cpu 2 (u16 (Z.lor (u32 (rte_hash_crc macs 0xFFFFFFFF)) 0xf000)))) pkt;
      pkt ← head_write 2 (be_bytes 2 dstport_) pkt;
      pkt ← head_write 4 (be_bytes 2 (of_cpu 2 (u16 (sizeof_Udp + inner_frame_len)))) pkt;
      pkt ← head_write 6 [0; 0] pkt;
      pkt ← set_attr_with_offset (attr 3%nat) ip_src pkt;
      pkt ← set_attr_with_offset (attr 4%nat) ip_dst pkt;
      set_attr_with_offset (attr 5%nat) [17] pkt
  end.
End Vxlan.

Definition vxlan_decap (attr : nat -> Z) (pkt : Packet) : option Packet :=
  b ← head_read 14 1 pkt;
  let ip_bytes := Z.shiftl (Z.land (le_load b) 0x0f) 2 in
  src ← head_read (14 + 12) 4 pkt;
  pkt ← set_attr_with_offset (attr 0%nat) src pkt;
  dst ← head_read (14 + 16) 4 pkt;
  pkt ← set_attr_with_offset (attr 1%nat) dst pkt;
  vx_vni ← head_read (14 + ip_bytes + 8 + 4) 4 pkt;
  tun_id ← be_shr 4 (be_of_bytes vx_vni) 8;
  pkt ← set_attr_with_offset (attr 2%nat) (be_bytes 4 tun_id) pkt;
  Some (adj_or_same (sizeof_Ethernet + ip_bytes + sizeof_Udp + sizeof_Vxlan) pkt).

(** ** [ProcessBatch]: the packets are handled in order and the batch goes on. *)
Definition process_batch {A} (f : Packet -> option A) (batch : list Packet) : option (list A) := mapM f batch.

(** ** VLAN tags *)
Lemma be_eq_cpu l k : bytes_ok l -> length l = 2%nat -> in_word 16 k ->
  be_eq (of_cpu 2 (swap 2 (le_load l))) (of_cpu 2 k) = (be_load l =? k).
Proof.
  intros Hl Hlen Hk. unfold be_eq, of_cpu, data_. rewrite swap_swap.
  pose proof (le_load_bound l Hl) as Hb. rewrite Hlen in Hb. change (256 ^ Z.of_nat 2) with (2 ^ 16) in Hb.
  unfold width. change (8 * Z.of_nat 2) with 16. rewrite wrap_small by done.
  rewrite <- swap_of_bytes, Hlen by done. destruct (Z.eqb_spec (le_load l) (swap 2 k)) as [->|Hne].
  - rewrite swap_swap. change (width 2) with 16. rewrite wrap_small by done. by rewrite Z.eqb_refl.
  - symmetry. apply Z.eqb_neq. intros E. apply Hne. rewrite <- E, swap_swap. change (width 2) with 16. by rewrite wrap_small.
Qed.

Lemma value_cpu l : bytes_ok l -> length l = 2%nat -> value 2 (of_cpu 2 (swap 2 (le_load l))) = be_load l.
Proof.
  intros Hl Hlen. rewrite value_of_cpu; [by rewrite <- Hlen, swap_of_bytes|apply swap_word].
Qed.

(** The type field of 16 bytes at the head of a frame. *)
Definition type_of (f : bytes) : Z := be_load (take 2 (drop 12 f)).

Lemma take2_ok f : bytes_ok f -> (14 <= length f)%nat -> bytes_ok (take 2 (drop 12 f)) /\ length (take 2 (drop 12 f)) = 2%nat.
Proof. intros Hf Hl. split; [auto with bess|]. rewrite length_take_le; [done|]. rewrite length_drop. lia. Qed.

Lemma vlan_tagged_spec eth : bytes_ok eth -> (14 <= length eth)%nat ->
  vlan_tagged eth = (type_of eth =? kVlan) || (type_of eth =? kQinQ).
Proof.
  intros Hok Hl. unfold vlan_tagged, mm_extract_epi16. change (2 * 6)%nat with 12%nat.
  destruct (take2_ok eth Hok Hl). rewrite !be_eq_cpu by (done || (unfold in_word, kVlan, kQinQ; lia)). done.
Qed.

(** A tag in memory. *)
Definition tag_bytes (tpid tci : Z) : bytes := be_store 2 tpid ++ be_store 2 tci.

Lemma tag_bytes_eq tpid tci : in_word 16 tpid -> in_word 16 tci ->
  be_bytes 4 (of_cpu 4 (u32 (Z.lor (Z.shiftl tpid 16) tci))) = tag_bytes tpid tci.
Proof.
  intros Hp Hc. rewrite lor_shiftl_add by (done || lia). rewrite wrap_small by word. rewrite be_bytes_of_cpu.
  unfold tag_bytes, be_store. unfold in_word in *. change (2 ^ 16) with 65536 in *. cbn [le_store rev app].
  do 4 (apply (f_equal2 cons); [zlia|]). done.
Qed.

Lemma type_tag d tpid tci r : length d = 12%nat -> in_word 16 tpid -> type_of (d ++ tag_bytes tpid tci ++ r) = tpid.
Proof.
  intros Hd Hp. unfold type_of. rewrite drop_app_ge, Hd, Nat.sub_diag, drop_0 by lia.
  unfold tag_bytes. rewrite <- app_assoc. rewrite take_app_le by done. unfold be_load, be_store. rewrite take_ge by done.
  rewrite rev_involutive, le_load_store. apply (wrap_small 16). done.
Qed.

(** The bytes around the head of a packet. *)
Lemma head_split p k : packet_ok p -> 0 <= k -> k <= data_off_ p -> data_off_ p + 16 <= 2176 ->
  exists A j d x R, buffer_ p = A ++ j ++ d ++ x ++ R /\ Z.of_nat (length A) = data_off_ p - k /\
    Z.of_nat (length j) = k /\ length d = 12%nat /\ length x = 4%nat /\
    frame p = take (Z.to_nat (data_len_ p)) (d ++ x ++ R).
Proof.
  intros [Hb _ Ho _ _ _ _ _] Hk Hk2 H16. unfold SNBUF_HEADROOM, SNBUF_DATA in *.
  set (o := Z.to_nat (data_off_ p)). set (a := Z.to_nat (data_off_ p - k)).
  exists (take a (buffer_ p)), (take (Z.to_nat k) (drop a (buffer_ p))),
    (take 12 (drop o (buffer_ p))), (take 4 (drop (o + 12) (buffer_ p))), (drop (o + 16) (buffer_ p)).
  assert (drop o (buffer_ p) = take 12 (drop o (buffer_ p)) ++ take 4 (drop (o + 12) (buffer_ p)) ++ drop (o + 16) (buffer_ p)) as E.
  { replace (o + 16)%nat with (o + 12 + 4)%nat by lia. rewrite <- (drop_drop _ 4), take_drop, <- drop_drop. by rewrite take_drop. }
  split; [|split; [|split; [|split; [|split]]]].
  - rewrite <- E. replace o with (a + Z.to_nat k)%nat by (unfold a, o; lia). rewrite <- (drop_drop _ (Z.to_nat k)). by rewrite !take_drop.
  - unfold a. rewrite length_take_le; lia.
  - unfold a, o in *. rewrite length_take_le; [lia|]. rewrite length_drop. lia.
  - unfold a, o in *. rewrite length_take_le; [lia|]. rewrite length_drop. lia.
  - unfold a, o in *. rewrite length_take_le; [lia|]. rewrite length_drop. lia.
  - unfold frame. fold o. by rewrite E at 1.
Qed.

Lemma read_at_mid off n a m c : off = Z.of_nat (length a) -> n = Z.of_nat (length m) -> read_at off n (a ++ m ++ c) = Some m.
Proof.
  intros -> ->. unfold read_at. rewrite slice_Some by (rewrite ?length_app; lia). rewrite !Nat2Z.id.
  rewrite drop_app_ge, Nat.sub_diag, drop_0, take_app_le, take_ge by lia. done.
Qed.

Lemma write_at_mid off new a old c : off = Z.of_nat (length a) -> length old = length new ->
  write_at off new (a ++ old ++ c) = Some (a ++ new ++ c).
Proof.
  intros -> Hl. rewrite write_at_Some by (rewrite ?length_app; lia). rewrite Nat2Z.id. by rewrite write_mid.
Qed.

Lemma take_under_app n (d r : bytes) : (length d <= n)%nat -> take n (d ++ r) = d ++ take (n - length d) r.
Proof. intros. by rewrite take_app_ge. Qed.

Definition push_tpid (f : bytes) : Z := if type_of f =? kVlan then kQinQ else kVlan.

(** What the tag instruction makes of sixteen bytes. *)
Lemma push_vector arg d x : bytes_ok (d ++ x) -> length d = 12%nat -> length x = 4%nat ->
  let m := CommandSetTci arg in
  let ethh := d ++ x in
  mm_insert_epi32 ethh (if value 2 (of_cpu 2 (swap 2 (mm_extract_epi16 ethh 6))) =? kVlan
    then raw_value (qinq_tag_ m) else raw_value (vlan_tag_ m)) 3 = d ++ tag_bytes (push_tpid ethh) (u16 arg).
Proof.
  intros Hok Hd Hx m ethh. destruct (take2_ok ethh Hok) as [H1 H2]; [unfold ethh; rewrite length_app; lia|].
  unfold mm_extract_epi16. change (2 * 6)%nat with 12%nat. rewrite value_cpu by done. fold (type_of ethh).
  unfold mm_insert_epi32. change (4 * 3)%nat with 12%nat.
  assert (forall v, write 12 (le_store 4 v) ethh = d ++ le_store 4 v) as Hw.
  { intros v. unfold ethh. rewrite <- (app_nil_r x), write_mid by (done || (rewrite length_le_store; done)).
    by rewrite app_nil_r. }
  rewrite Hw. f_equal. unfold push_tpid, m, CommandSetTci, vlan_tag_, qinq_tag_.
  assert (in_word 16 (u16 arg)) by (apply wrap_range; lia).
  destruct (type_of ethh =? kVlan); apply (tag_bytes_eq _ _); (done || (unfold in_word, kQinQ, kVlan; lia)).
Qed.

Lemma type_take f n : (14 <= n)%nat -> type_of (take n f) = type_of f.
Proof.
  intros Hn. unfold type_of. rewrite skipn_firstn_comm, take_take. by rewrite Nat.min_l by lia.
Qed.

Lemma type_app f g : (14 <= length f)%nat -> type_of (f ++ g) = type_of f.
Proof. intros Hf. rewrite <- (type_take (f ++ g) (length f)) by done. by rewrite take_app_le, take_ge by lia. Qed.

Lemma packet_ok_bytes_head A j d x R : bytes_ok (A ++ j ++ d ++ x ++ R) -> bytes_ok (d ++ x).
Proof. intros H. rewrite !bytes_ok_app in H. rewrite bytes_ok_app. tauto. Qed.

(** Pushing a tag: the addresses move, the tag follows them, the rest stays. *)
Lemma vlan_push_spec arg p A j d x R : packet_ok p -> 14 <= data_len_ p -> 4 <= data_off_ p -> data_len_ p < 2 ^ 16 - 4 ->
  buffer_ p = A ++ j ++ d ++ x ++ R -> Z.of_nat (length A) = data_off_ p - 4 -> length j = 4%nat -> length d = 12%nat ->
  length x = 4%nat -> frame p = take (Z.to_nat (data_len_ p)) (d ++ x ++ R) ->
  vlan_push (CommandSetTci arg) p =
    Some (MkPacket (A ++ d ++ tag_bytes (push_tpid (frame p)) (u16 arg) ++ x ++ R) (data_off_ p - 4) (data_len_ p + 4)
            (data_len_ p + 4) (metadata_ p)).
Proof.
  intros Hp Hl Ho Hl2 Hb HA Hj Hd Hx Hf. pose proof (ok_pkt_len p Hp) as Hpl. pose proof (ok_len p Hp).
  pose proof (ok_bytes p Hp) as Hby. rewrite Hb in Hby. pose proof (packet_ok_bytes_head _ _ _ _ _ Hby) as Hdx.
  assert (push_tpid (frame p) = push_tpid (d ++ x)) as ->.
  { unfold push_tpid. rewrite Hf, type_take by lia. rewrite app_assoc, type_app by (rewrite length_app; lia). done. }
  unfold vlan_push, prepend. rewrite (proj2 (Z.ltb_ge _ _)) by lia. rewrite Hpl.
  rewrite (wrap_small 16), (wrap_small 32) by (unfold in_word; lia).
  unfold head_read, head_write. cbn [data_off_ buffer_].
  replace (data_off_ p - 4 + 4) with (data_off_ p) by lia. replace (data_off_ p - 4 + 0) with (data_off_ p - 4) by lia. rewrite Hb.
  assert (A ++ j ++ d ++ x ++ R = (A ++ j) ++ (d ++ x) ++ R) as -> by (by rewrite <- !app_assoc).
  rewrite read_at_mid by (rewrite length_app; lia). cbn [mbind option_bind].
  rewrite push_vector by done.
  set (tag := tag_bytes _ _). assert (length tag = 4%nat) as Ht by done.
  destruct d as [|d0 [|d1 [|d2 [|d3 [|d4 [|d5 [|d6 [|d7 [|d8 [|d9 [|d10 [|d11 [|]]]]]]]]]]]]]; try done.
  assert ((A ++ j) ++ ([d0; d1; d2; d3; d4; d5; d6; d7; d8; d9; d10; d11] ++ x) ++ R =
    A ++ (j ++ [d0; d1; d2; d3; d4; d5; d6; d7; d8; d9; d10; d11]) ++ x ++ R) as -> by (by rewrite <- !app_assoc).
  rewrite write_at_mid by ((rewrite !length_app, Hj; by rewrite Ht) || lia).
  cbn [fmap option_fmap option_map]. unfold with_buffer. cbn [data_off_ data_len_ pkt_len_ metadata_ buffer_].
  by rewrite <- !app_assoc.
Qed.

(** Popping it: the addresses move back over it. *)
Lemma vlan_pop_tagged A d tpid tci x R o l pl m :
  Z.of_nat (length A) = o -> length d = 12%nat -> length x = 4%nat -> in_word 16 tpid -> in_word 16 tci ->
  tpid = kVlan \/ tpid = kQinQ -> 0 <= o -> o + 4 < 2 ^ 16 -> 4 <= l -> 4 <= pl < 2 ^ 32 -> bytes_ok d ->
  let q := MkPacket (A ++ d ++ tag_bytes tpid tci ++ x ++ R) o l pl m in
  let r := MkPacket (A ++ replicate 4 0 ++ d ++ x ++ R) (o + 4) (l - 4) (pl - 4) m in
  vlan_pop q = Some r /\ vlan_split q = Some (r, Z.land tci 0x0fff).
Proof.
  intros HA Hd Hx Hp Hc Ht Ho Ho2 Hl Hpl Hdok q r. set (tag := tag_bytes tpid tci).
  assert (length tag = 4%nat) as Htl by done.
  assert (bytes_ok (d ++ tag)) as Hok.
  { apply bytes_ok_app. split; [done|]. apply bytes_ok_app. split; apply Forall_rev, le_store_ok. }
  assert (read_at o 16 (buffer_ q) = Some (d ++ tag)) as Hr.
  { unfold q. cbn [buffer_]. assert (A ++ d ++ tag_bytes tpid tci ++ x ++ R = A ++ (d ++ tag) ++ x ++ R) as -> by (by rewrite <- !app_assoc).
    apply read_at_mid; [done|]. rewrite length_app, Hd, Htl. done. }
  assert (vlan_tagged (d ++ tag) = true) as Htag.
  { rewrite vlan_tagged_spec by (done || (rewrite length_app; lia)). rewrite <- (app_nil_r tag). unfold tag.
    rewrite type_tag by done. destruct Ht as [->| ->]; done. }
  assert (adj 4 q = Some (MkPacket (buffer_ q) (o + 4) (l - 4) (pl - 4) m)) as Ha.
  { unfold adj, q. cbn [data_len_ data_off_ pkt_len_ buffer_ metadata_]. rewrite (proj2 (Z.ltb_ge _ _)) by lia.
    rewrite (wrap_small 16), (wrap_small 32) by (unfold in_word; lia). done. }
  assert (write_at o (mm_slli_si128 (d ++ tag) 4) (buffer_ q) = Some (buffer_ r)) as Hw.
  { unfold mm_slli_si128. change (16 - 4)%nat with 12%nat. rewrite take_app_le by lia. rewrite take_ge by lia.
    unfold q, r. cbn [buffer_]. fold tag.
    assert (A ++ d ++ tag ++ x ++ R = A ++ (d ++ tag) ++ x ++ R) as -> by (by rewrite <- !app_assoc).
    rewrite write_at_mid; [by rewrite <- !app_assoc|done|]. rewrite !length_app, length_replicate. lia. }
  unfold vlan_pop, vlan_split. change (data_off_ q) with o. rewrite Hr. cbn [mbind option_bind]. rewrite Htag, Ha.
  cbn [buffer_]. rewrite Hw. cbn [fmap option_fmap option_map mbind option_bind]. split; [done|]. do 3 f_equal.
  unfold mm_extract_epi16. change (2 * 7)%nat with 14%nat.
  assert (take 2 (drop 14 (d ++ tag)) = be_store 2 tci) as ->.
  { rewrite drop_app_ge by lia. rewrite Hd. unfold tag, tag_bytes.
    rewrite drop_app_ge by done. change (14 - 12 - length (be_store 2 tpid))%nat with 0%nat. rewrite drop_0, take_ge by done. done. }
  rewrite value_cpu by ((apply Forall_rev, le_store_ok) || done).
  unfold be_load, be_store. rewrite rev_involutive, le_load_store. by apply (wrap_small 16).
Qed.

(** round trip.  With room for four more bytes VLANPush puts a tag with the configured
    TCI between the addresses and the type of a frame, an 802.1ad tag if the frame has an
    802.1Q tag and an 802.1Q tag otherwise; VLANPop and VLANSplit then give back the very
    frame at the same place, with its metadata, and VLANSplit sends it to the gate whose
    number is the VLAN identifier. *)
Theorem vlan_push_pop arg p : packet_ok p -> 14 <= data_len_ p -> 4 <= data_off_ p -> data_off_ p + 16 <= 2176 ->
  exists q r, vlan_push (CommandSetTci arg) p = Some q /\ packet_ok q /\
    frame q = take 12 (frame p) ++ tag_bytes (push_tpid (frame p)) (u16 arg) ++ drop 12 (frame p) /\
    vlan_pop q = Some r /\ vlan_split q = Some (r, Z.land (u16 arg) 0x0fff) /\
    packet_ok r /\ frame r = frame p /\ data_off_ r = data_off_ p /\ metadata_ r = metadata_ p.
Proof.
  intros Hp Hl Ho H16. destruct (head_split p 4 Hp ltac:(lia) Ho H16) as (A & j & d & x & R & Hb & HA & Hj & Hd & Hx & Hf).
  pose proof Hp as [Hbl Hml _ _ He Hpl Hby Hmb]. unfold SNBUF_HEADROOM, SNBUF_DATA in *.
  assert (in_word 16 (u16 arg)) as Harg by (apply wrap_range; lia).
  assert (bytes_ok A /\ bytes_ok d /\ bytes_ok x /\ bytes_ok R) as (HokA & Hokd & Hokx & HokR).
  { rewrite Hb, !bytes_ok_app in Hby. tauto. }
  assert (frame p = d ++ take (Z.to_nat (data_len_ p) - 12) (x ++ R)) as Hf'.
  { by rewrite Hf, take_under_app, Hd by lia. }
  rewrite Hb in Hbl. rewrite !length_app in Hbl.
  assert (Hpush := vlan_push_spec arg p A j d x R Hp Hl Ho ltac:(lia) Hb HA ltac:(lia) Hd Hx Hf).
  set (tpid := push_tpid (frame p)) in *.
  assert (in_word 16 tpid /\ (tpid = kVlan \/ tpid = kQinQ)) as [Htp Htv].
  { unfold tpid, push_tpid. destruct (_ =? _); unfold in_word, kVlan, kQinQ; split; auto; lia. }
  assert (bytes_ok (tag_bytes tpid (u16 arg))) by (apply bytes_ok_app; split; apply Forall_rev, le_store_ok).
  destruct (vlan_pop_tagged A d tpid (u16 arg) x R (data_off_ p - 4) (data_len_ p + 4) (data_len_ p + 4) (metadata_ p))
    as [Hpop Hsplit]; [lia|done|done|done|done|done|lia|lia|lia|lia|done|].
  rewrite Hpush. do 2 eexists. split; [reflexivity|]. split; [|split; [|split; [exact Hpop|split; [exact Hsplit|]]]].
  - split; unfold SNBUF_HEADROOM, SNBUF_DATA; cbn [buffer_ metadata_ data_off_ data_len_ pkt_len_]; try done; try lia.
    + rewrite !length_app. change (length (tag_bytes tpid (u16 arg))) with 4%nat. lia.
    + rewrite !bytes_ok_app. tauto.
  - rewrite Hf'. rewrite take_app_le, take_ge by lia. rewrite (drop_app_ge d), Hd, Nat.sub_diag, drop_0 by lia.
    unfold frame. cbn [buffer_ data_off_ data_len_]. rewrite drop_app_ge by lia.
    replace (Z.to_nat (data_off_ p - 4) - length A)%nat with 0%nat by lia. rewrite drop_0.
    rewrite take_under_app by lia. f_equal. rewrite take_under_app by (rewrite Hd; change (length (tag_bytes tpid (u16 arg))) with 4%nat; lia).
    f_equal. f_equal. rewrite Hd. change (length (tag_bytes tpid (u16 arg))) with 4%nat. lia.
  - cbn [data_off_ metadata_]. split; [|split; [|split; [lia|done]]].
    + split; unfold SNBUF_HEADROOM, SNBUF_DATA; cbn [buffer_ metadata_ data_off_ data_len_ pkt_len_]; try done; try lia.
      * rewrite !length_app, length_replicate. lia.
      * rewrite !bytes_ok_app. split; [done|split; [auto with bess|tauto]].
    + rewrite Hf. unfold frame. cbn [buffer_ data_off_ data_len_]. rewrite app_assoc, drop_app_ge by (rewrite length_app, length_replicate; lia).
      rewrite length_app, length_replicate. replace (Z.to_nat (data_off_ p - 4 + 4) - (length A + 4))%nat with 0%nat by lia.
      rewrite drop_0. f_equal. lia.
Qed.

(** A frame for examples: addresses, type, and a payload. *)
Definition example_frame : bytes := [2;0;0;0;0;1; 2;0;0;0;0;2; 0x08;0x00] ++ replicate 50 7.

Lemma example_frame_ok : packet_ok (packet_of example_frame) /\ 14 <= data_len_ (packet_of example_frame) /\
  4 <= data_off_ (packet_of example_frame) /\ data_off_ (packet_of example_frame) + 16 <= 2176.
Proof.
  split; [|split; [|split]]; [|vm_compute; congruence..]. apply packet_of_ok.
  - apply bytes_ok_app. split; [|apply Forall_replicate; unfold in_word; lia]. forall_each ltac:(unfold in_word; lia).
  - cbn. lia.
Qed.

Lemma vlan_push_pop_witness : exists q r, vlan_push (CommandSetTci 0x2005) (packet_of example_frame) = Some q /\
  vlan_split q = Some (r, 5) /\ frame r = example_frame.
Proof.
  destruct example_frame_ok as (H1 & H2 & H3 & H4).
  destruct (vlan_push_pop 0x2005 (packet_of example_frame) H1 H2 H3 H4) as (q & r & Hq & _ & _ & _ & Hs & _ & Hf & _).
  exists q, r. split; [exact Hq|]. split; [exact Hs|]. rewrite Hf. apply frame_of.
Defined.

(** Without a tag, or without room, the modules leave a packet as it is. *)
Lemma vlan_unchanged p m : packet_ok p -> data_off_ p + 16 <= 2176 ->
  let t := be_load (take 2 (drop 12 (drop (Z.to_nat (data_off_ p)) (buffer_ p)))) in
  (t <> kVlan /\ t <> kQinQ -> vlan_pop p = Some p /\ vlan_split p = Some (p, 0)) /\
  (data_off_ p < 4 -> vlan_push m p = Some p).
Proof.
  intros [Hb _ Ho _ _ _ Hby _] H16 t. unfold SNBUF_HEADROOM, SNBUF_DATA in *. split.
  - intros [H1 H2]. unfold vlan_pop, vlan_split, read_at. rewrite slice_Some by lia. cbn [mbind option_bind].
    rewrite vlan_tagged_spec; [|auto with bess|rewrite length_take, length_drop; lia].
    rewrite type_take by lia. unfold type_of. fold t.
    destruct (Z.eqb_spec t kVlan); [done|]. destruct (Z.eqb_spec t kQinQ); done.
  - intros H. unfold vlan_push, prepend. by rewrite (proj2 (Z.ltb_lt _ _)).
Qed.
