(* ===== verification/Tunnel.v ===== *)
(** The modules of a VXLAN tunnel together: what [vxlan_encap], [ip_encap] and
    [ether_encap] of Encap.v make of a packet, and that [vxlan_decap] undoes it. *)
From S2P Require Import Prelude Common Endian Bits Checksum PacketBuf Encap.

(** ** Steps of a module on a packet *)

(** [q] is [p] with another frame, or other metadata, of the same size. *)
Record same_window (p q : Packet) : Prop := {
  sw_off : data_off_ q = data_off_ p;
  sw_len : data_len_ q = data_len_ p;
  sw_ok : packet_ok q }.

Lemma write_step off new p : packet_ok p -> bytes_ok new -> 0 <= off -> off + Z.of_nat (length new) <= data_len_ p ->
  exists q, head_write off new p = Some q /\ same_window p q /\ metadata_ q = metadata_ p /\
    frame q = write (Z.to_nat off) new (frame p).
Proof.
  intros Hp Hn H1 H2. destruct (head_write_spec off new p) as (q & Hq & Hok & Ho & Hl & _ & Hm & Hf); [done..|lia|lia|].
  exists q. split; [done|]. split; [by split|done].
Qed.

Lemma update_step off f p : packet_ok p -> 0 <= off < data_len_ p -> (forall b, in_word 8 b -> in_word 8 (f b)) ->
  exists q, head_update off f p = Some q /\ same_window p q /\ metadata_ q = metadata_ p /\
    frame q = <[Z.to_nat off := f (nth (Z.to_nat off) (frame p) 0)]> (frame p).
Proof.
  intros Hp Ho Hf. pose proof (length_frame p Hp) as Hl. pose proof (frame_bytes p Hp) as Hb. unfold head_update.
  rewrite head_read_spec by (done || lia). cbn [mbind option_bind]. change (Z.to_nat 1) with 1%nat.
  destruct (lookup_lt_is_Some_2 (frame p) (Z.to_nat off) ltac:(lia)) as [b Hlk].
  assert (Hb8 : in_word 8 b) by (by eapply Forall_lookup in Hb).
  rewrite (nth_lookup_Some (frame p) (Z.to_nat off) 0 b Hlk). assert (drop (Z.to_nat off) (frame p) = b :: drop (S (Z.to_nat off)) (frame p)) as E by (by apply drop_S).
  rewrite E. cbn [take le_load]. rewrite take_0. cbn [le_load]. replace (b + 256 * 0) with b by lia.
  destruct (write_step off [f b] p) as (q & Hq & Hs & Hm & Hfr); [done|constructor; [by apply Hf|constructor]|lia|cbn; lia|].
  exists q. split; [done|split; [done|split; [done|]]]. rewrite Hfr. unfold write. cbn [length].
  rewrite insert_take_drop by lia. f_equal. cbn [app]. f_equal. f_equal. lia.
Qed.

Ltac use_step H q :=
  let Hq := fresh "Eq" in let Hs := fresh "Hs" in let Hm := fresh "Hm" in let Hf := fresh "Hf" in
  destruct H as (q & Hq & Hs & Hm & Hf); rewrite Hq; cbn [mbind option_bind]; clear Hq.

(** The bytes of an attribute. *)
Definition attr_bytes (o n : Z) (m : bytes) : bytes :=
  if 0 <=? o then take (Z.to_nat n) (drop (Z.to_nat o) m) else replicate (Z.to_nat n) 0.

Lemma get_attr_bytes o n p : packet_ok p -> attr_range o n -> 0 <= n ->
  get_attr_with_offset o n p = Some (attr_bytes o n (metadata_ p)) /\
  Z.of_nat (length (attr_bytes o n (metadata_ p))) = n /\ bytes_ok (attr_bytes o n (metadata_ p)).
Proof.
  intros Hp Ho Hn. destruct (get_attr_spec o n p Hp Ho Hn) as (v & Hv & Hl & Hb & ->). done.
Qed.

(** Attributes whose places do not overlap. *)
Definition apart (o n o' n' : Z) : Prop := o + n <= o' \/ o' + n' <= o.

Definition set_attr_bytes (o : Z) (v m : bytes) : bytes := if 0 <=? o then write (Z.to_nat o) v m else m.

Lemma set_attr_step o v p : packet_ok p -> bytes_ok v -> attr_range o (Z.of_nat (length v)) ->
  exists q, set_attr_with_offset o v p = Some q /\ same_window p q /\ metadata_ q = set_attr_bytes o v (metadata_ p) /\
    frame q = frame p.
Proof.
  intros Hp Hv Ho. destruct (set_attr_spec o v p Hp Hv Ho) as (q & Hq & Hok & _ & Hoff & Hlen & Hf & Hm).
  exists q. split; [done|]. split; [by split|done].
Qed.

Lemma set_attr_read o v m : 0 <= o -> o + Z.of_nat (length v) <= Z.of_nat (length m) ->
  attr_bytes o (Z.of_nat (length v)) (set_attr_bytes o v m) = v.
Proof.
  intros H1 H2. unfold attr_bytes, set_attr_bytes. rewrite (proj2 (Z.leb_le _ _)) by done. rewrite Nat2Z.id.
  apply write_read. lia.
Qed.

Lemma set_attr_other o v m o' n : 0 <= o -> o + Z.of_nat (length v) <= Z.of_nat (length m) -> 0 <= o' -> 0 <= n ->
  apart o (Z.of_nat (length v)) o' n -> attr_bytes o' n (set_attr_bytes o v m) = attr_bytes o' n m.
Proof.
  intros H1 H2 H3 H4 Ha. unfold attr_bytes, set_attr_bytes, apart in *. rewrite !(proj2 (Z.leb_le _ _)) by done.
  apply write_other_read; lia.
Qed.

Lemma length_set_attr o v m : 0 <= o -> o + Z.of_nat (length v) <= Z.of_nat (length m) ->
  length (set_attr_bytes o v m) = length m.
Proof. intros H1 H2. unfold set_attr_bytes. rewrite (proj2 (Z.leb_le _ _)) by done. apply length_write. lia. Qed.

Lemma prepend_step len p : packet_ok p -> 0 <= len <= data_off_ p ->
  exists q junk, prepend len p = Some q /\ packet_ok q /\ data_off_ q = data_off_ p - len /\ data_len_ q = data_len_ p + len /\
    metadata_ q = metadata_ p /\ buffer_ q = buffer_ p /\ Z.of_nat (length junk) = len /\ bytes_ok junk /\ frame q = junk ++ frame p.
Proof.
  intros Hp Hlen. pose proof (prepend_spec len p Hp ltac:(lia)) as H. destruct (prepend len p) as [q|]; [|lia].
  destruct H as (H1 & H2 & H3 & H4 & H5 & junk & H6 & H7 & H8). exists q, junk. done.
Qed.

(** ** Ethernet *)
Lemma ether_encap_spec attr p : packet_ok p -> 14 <= data_off_ p ->
  attr_range (attr 0%nat) 6 -> attr_range (attr 1%nat) 6 -> attr_range (attr 2%nat) 2 ->
  exists q, ether_encap attr p = Some q /\ packet_ok q /\ data_off_ q = data_off_ p - 14 /\ data_len_ q = data_len_ p + 14 /\
    metadata_ q = metadata_ p /\
    frame q = attr_bytes (attr 1%nat) 6 (metadata_ p) ++ attr_bytes (attr 0%nat) 6 (metadata_ p) ++
      attr_bytes (attr 2%nat) 2 (metadata_ p) ++ frame p.
Proof.
  intros Hp Ho H0 H1 H2. pose proof (ok_len p Hp) as Hlp.
  destruct (get_attr_bytes _ 6 p Hp H0 ltac:(lia)) as (E0 & L0 & B0).
  destruct (get_attr_bytes _ 6 p Hp H1 ltac:(lia)) as (E1 & L1 & B1).
  destruct (get_attr_bytes _ 2 p Hp H2 ltac:(lia)) as (E2 & L2 & B2).
  unfold ether_encap. rewrite E0, E1, E2. cbn [mbind option_bind].
  set (src := attr_bytes (attr 0%nat) 6 (metadata_ p)) in *. set (dst := attr_bytes (attr 1%nat) 6 (metadata_ p)) in *.
  set (ty := attr_bytes (attr 2%nat) 2 (metadata_ p)) in *. unfold sizeof_Ethernet.
  destruct (prepend_step 14 p Hp ltac:(lia)) as (q & junk & -> & Hq & Hoq & Hlq & Hmq & _ & Hj & Hjb & Hf).
  destruct junk as [|j0 [|j1 [|j2 [|j3 [|j4 [|j5 [|j6 [|j7 [|j8 [|j9 [|j10 [|j11 [|j12 [|j13 [|]]]]]]]]]]]]]]]; try (cbn in Hj; lia).
  use_step (write_step 0 dst q Hq B1 ltac:(lia) ltac:(lia)) q1. destruct Hs as [Ho1 Hl1 Hk1].
  use_step (write_step 6 src q1 Hk1 B0 ltac:(lia) ltac:(lia)) q2. destruct Hs as [Ho2 Hl2 Hk2].
  destruct (write_step 12 ty q2 Hk2 B2 ltac:(lia) ltac:(lia)) as (q3 & Hq3 & [Ho3 Hl3 Hk3] & Hm3 & Hf3).
  exists q3. split; [exact Hq3|]. split; [done|]. split; [lia|]. split; [lia|]. split; [congruence|].
  rewrite Hf3, Hf1, Hf0, Hf. clearbody src dst ty.
  destruct src as [|s0 [|s1 [|s2 [|s3 [|s4 [|s5 [|]]]]]]]; try (cbn in L0; lia).
  destruct dst as [|d0 [|d1 [|d2 [|d3 [|d4 [|d5 [|]]]]]]]; try (cbn in L1; lia).
  destruct ty as [|t0 [|t1 [|]]]; try (cbn in L2; lia). done.
Qed.

(** ** IP *)
Definition ip_header (total_len : Z) (id proto : bytes) (checksum : Z) (src dst : bytes) : bytes :=
  [0x45; 0] ++ be_store 2 total_len ++ id ++ [64; 0; 64] ++ proto ++ le_store 2 checksum ++ src ++ dst.

(** Four-bit fields that are set one after the other. *)
Lemma ip_first_byte j : Z.lor (Z.land (Z.lor (Z.land j 0x0f) 0x40) 0xf0) (sizeof_Ipv4 / 4) = 0x45.
Proof.
  rewrite Z.land_lor_distr_l, <- Z.land_assoc. change (Z.land 0x0f 0xf0) with 0. rewrite Z.land_0_r. done.
Qed.

Lemma nibble_ok j : in_word 8 (Z.lor (Z.land j 0x0f) 0x40).
Proof.
  apply lor_word; [lia| |unfold in_word; lia]. rewrite Z.land_comm. apply land_word; [lia|unfold in_word; lia].
Qed.

Ltac small_bytes := forall_each ltac:(unfold in_word; lia).

(** A header without options with the computed checksum verifies. *)
Lemma recomputed_verifies h : bytes_ok h -> length h = 20%nat -> ip_header_len h = 20 ->
  VerifyIpv4NoOptChecksum (store16 10 (CalculateIpv4NoOptChecksum h) h) = true.
Proof.
  intros Hok Hl Hh. pose proof (CalculateIpv4Checksum_spec false h Hok ltac:(lia)) as HC.
  unfold CalculateIpv4Checksum in HC. rewrite Hh, Z.eqb_refl in HC. injection HC as HC.
  set (S := ipv4_header_sum (store16 10 0 h)) in *.
  assert (0 <= S) as HS by (apply sum16_nonneg, bytes_ok_take; by apply store16_ok).
  pose proof (internet_checksum_word S HS) as Hw. rewrite HC.
  pose proof (VerifyIpv4Checksum_spec false (store16 10 (internet_checksum S) h)) as HV.
  rewrite ip_header_len_store16, length_store16 in HV by lia.
  specialize (HV ltac:(by apply store16_ok) ltac:(lia)). unfold VerifyIpv4Checksum in HV.
  rewrite ip_header_len_store16, Hh, Z.eqb_refl in HV by lia. injection HV as ->. apply Z.eqb_eq.
  assert (ipv4_header_sum (store16 10 (internet_checksum S) h) = S + internet_checksum S) as ->.
  { unfold ipv4_header_sum. rewrite ip_header_len_store16, Hh by lia. change (Z.to_nat 20) with 20%nat.
    rewrite sum16_store16 by (done || lia). unfold S, ipv4_header_sum. by rewrite ip_header_len_store16, Hh by lia. }
  apply internet_checksum_verify; auto.
Qed.

Ltac list_of l := destruct l as [|? [|? [|? [|? [|? [|? [|? [|? [|? [|? [|? [|? [|? [|? [|? [|? [|? [|? [|? [|? [|]]]]]]]]]]]]]]]]]]]]];
  cbn [length] in *; try lia.

Lemma ip_encap_spec attr p : packet_ok p -> 20 <= data_off_ p ->
  attr_range (attr 0%nat) 4 -> attr_range (attr 1%nat) 4 -> attr_range (attr 2%nat) 1 ->
  attr_range (attr 3%nat) 4 -> attr_range (attr 4%nat) 2 ->
  exists q id ck, ip_encap attr p = Some q /\ packet_ok q /\ data_off_ q = data_off_ p - 20 /\ data_len_ q = data_len_ p + 20 /\
    metadata_ q = set_attr_bytes (attr 4%nat) (be_store 2 kIpv4_type)
      (set_attr_bytes (attr 3%nat) (attr_bytes (attr 1%nat) 4 (metadata_ p)) (metadata_ p)) /\
    length id = 2%nat /\ bytes_ok id /\
    let h := ip_header (data_len_ p + 20) id (attr_bytes (attr 2%nat) 1 (metadata_ p)) ck
      (attr_bytes (attr 0%nat) 4 (metadata_ p)) (attr_bytes (attr 1%nat) 4 (metadata_ p)) in
    frame q = h ++ frame p /\ VerifyIpv4NoOptChecksum h = true.
Proof.
  intros Hp Ho H0 H1 H2 H3 H4. pose proof (ok_len p Hp) as Hlp. pose proof (ok_end p Hp) as Hend. unfold SNBUF_HEADROOM, SNBUF_DATA in Hend.
  destruct (get_attr_bytes _ 4 p Hp H0 ltac:(lia)) as (E0 & L0 & B0).
  destruct (get_attr_bytes _ 4 p Hp H1 ltac:(lia)) as (E1 & L1 & B1).
  destruct (get_attr_bytes _ 1 p Hp H2 ltac:(lia)) as (E2 & L2 & B2).
  unfold ip_encap. rewrite E0, E1, E2. cbn [mbind option_bind].
  assert (u16 (total_len p + sizeof_Ipv4) = data_len_ p + 20) as ->.
  { unfold total_len. rewrite (ok_pkt_len p Hp), to_int_small by lia. apply wrap_small. unfold in_word, sizeof_Ipv4. lia. }
  set (src := attr_bytes (attr 0%nat) 4 (metadata_ p)) in *. set (dst := attr_bytes (attr 1%nat) 4 (metadata_ p)) in *.
  set (pr := attr_bytes (attr 2%nat) 1 (metadata_ p)) in *. rewrite !be_bytes_of_cpu.
  change (rev (le_store 2 (data_len_ p + 20))) with (be_store 2 (data_len_ p + 20)).
  change (rev (le_store 2 kDF)) with [64; 0]. change (rev (le_store 2 kIpv4_type)) with (be_store 2 kIpv4_type).
  assert (Bl : bytes_ok (be_store 2 (data_len_ p + 20))) by apply Forall_rev, le_store_ok.
  assert (Ll : length (be_store 2 (data_len_ p + 20)) = 2%nat) by done.
  unfold ip_header. set (len := be_store 2 (data_len_ p + 20)) in *. unfold sizeof_Ipv4 at 1.
  destruct (prepend_step 20 p Hp ltac:(lia)) as (q & junk & -> & Hq & Hoq & Hlq & Hmq & _ & Hj & Hjb & Hf).
  use_step (update_step 0 _ q Hq ltac:(lia) (fun b _ => nibble_ok b)) q1. destruct Hs as [Ho1 Hl1 Hk1].
  use_step (update_step 0 (fun b => Z.lor (Z.land b 0xf0) (sizeof_Ipv4 / 4)) q1 Hk1 ltac:(lia)
    ltac:(intros; apply lor_word; [lia|apply land_word; [lia|assumption]|by apply (in_wordb_spec 8)])) q2. destruct Hs as [Ho2 Hl2 Hk2].
  use_step (write_step 1 [0] q2 Hk2 ltac:(small_bytes) ltac:(lia) ltac:(cbn; lia)) q3. destruct Hs as [Ho3 Hl3 Hk3].
  use_step (write_step 2 len q3 Hk3 Bl ltac:(lia) ltac:(lia)) q4. destruct Hs as [Ho4 Hl4 Hk4].
  use_step (write_step 6 [64; 0] q4 Hk4 ltac:(small_bytes) ltac:(lia) ltac:(cbn; lia)) q5. destruct Hs as [Ho5 Hl5 Hk5].
  use_step (write_step 8 [64] q5 Hk5 ltac:(small_bytes) ltac:(lia) ltac:(cbn; lia)) q6. destruct Hs as [Ho6 Hl6 Hk6].
  use_step (write_step 9 pr q6 Hk6 B2 ltac:(lia) ltac:(lia)) q7. destruct Hs as [Ho7 Hl7 Hk7].
  use_step (write_step 12 src q7 Hk7 B0 ltac:(lia) ltac:(lia)) q8. destruct Hs as [Ho8 Hl8 Hk8].
  use_step (write_step 16 dst q8 Hk8 B1 ltac:(lia) ltac:(lia)) q9. destruct Hs as [Ho9 Hl9 Hk9].
  destruct junk as [|j0 [|j1 [|j2 [|j3 [|j4 [|j5 [|j6 [|j7 [|j8 [|j9 [|j10 [|j11 [|j12 [|j13 [|j14 [|j15 [|j16 [|j17 [|j18 [|j19 [|]]]]]]]]]]]]]]]]]]]]]; try (cbn in Hj; lia).
  set (h0 := [69; 0] ++ len ++ [j4; j5] ++ [64; 0; 64] ++ pr ++ [j10; j11] ++ src ++ dst).
  clearbody src dst pr len.
  destruct src as [|s0 [|s1 [|s2 [|s3 [|]]]]]; try (cbn in L0; lia).
  destruct dst as [|d0 [|d1 [|d2 [|d3 [|]]]]]; try (cbn in L1; lia).
  destruct pr as [|p0 [|]]; try (cbn in L2; lia). destruct len as [|l0 [|l1 [|]]]; try done.
  assert (frame q9 = h0 ++ frame p) as Hf9.
  { rewrite Hf8, Hf7, Hf6, Hf5, Hf4, Hf3, Hf2, Hf1, Hf0, Hf. clear. cbn [app write take drop length Nat.add Z.to_nat Pos.to_nat Pos.iter_op insert list_insert nth h0].
    change (Z.to_nat 0) with 0%nat. cbn [nth insert list_insert]. rewrite ip_first_byte. done. }
  assert (bytes_ok h0 /\ length h0 = 20%nat) as [Hh0 Hl0].
  { split; [|done]. pose proof (frame_bytes q9 Hk9) as Hb9. rewrite Hf9 in Hb9. by apply bytes_ok_app in Hb9 as [? _]. }
  rewrite head_read_spec by (done || lia). cbn [mbind option_bind]. change (Z.to_nat 20) with 20%nat. change (Z.to_nat 0) with 0%nat.
  rewrite drop_0, Hf9, take_app_le, take_ge by lia. set (ck := CalculateIpv4NoOptChecksum h0).
  use_step (write_step 10 (le_store 2 ck) q9 Hk9 ltac:(auto with bess) ltac:(lia) ltac:(rewrite length_le_store; lia)) qa. destruct Hs as [Hoa Hla Hka].
  use_step (set_attr_step (attr 3%nat) [d0; d1; d2; d3] qa Hka B1 H3) qb. destruct Hs as [Hob Hlb Hkb].
  destruct (set_attr_step (attr 4%nat) (be_store 2 kIpv4_type) qb Hkb ltac:(apply Forall_rev, le_store_ok) H4) as (qc & Hqc & [Hoc Hlc Hkc] & Hmc & Hfc).
  exists qc, [j4; j5], ck. split; [exact Hqc|]. split; [done|]. split; [lia|]. split; [lia|]. split; [congruence|]. split; [done|].
  assert ([69; 0] ++ [l0; l1] ++ [j4; j5] ++ [64; 0; 64] ++ [p0] ++ le_store 2 ck ++ [s0; s1; s2; s3] ++ [d0; d1; d2; d3] = store16 10 ck h0) as -> by done.
  split.
  { subst h0. unfold bytes_ok in Hh0. rewrite !Forall_app in Hh0. tauto. }
  split.
  - rewrite Hfc, Hf11, Hf10, Hf9. rewrite write_app_l by (rewrite length_le_store, Hl0; cbn; lia). done.
  - apply recomputed_verifies; done.
Qed.

(** ** VXLAN *)
Definition udp_vxlan_header (src_port : bytes) (dst_port : BigEndian) (len : Z) (vni : bytes) : bytes :=
  src_port ++ be_bytes 2 dst_port ++ be_store 2 len ++ [0; 0] ++ [0x08; 0; 0; 0] ++ drop 1 vni ++ [0].

Lemma be_load_4 a b c d : be_load [a; b; c; d] = d + 256 * (c + 256 * (b + 256 * a)).
Proof. unfold be_load. cbn [rev app le_load]. lia. Qed.

Lemma bytes_4 a b c d : bytes_ok [a; b; c; d] -> 0 <= a < 256 /\ 0 <= b < 256 /\ 0 <= c < 256 /\ 0 <= d < 256.
Proof. unfold bytes_ok. rewrite !Forall_cons. unfold in_word. change (2 ^ 8) with 256. tauto. Qed.

(** The identifier is shifted over the reserved byte, and back. *)
Lemma vni_shl a b c d : bytes_ok [a; b; c; d] ->
  exists v, be_shl 4 (be_of_bytes [a; b; c; d]) 8 = Some v /\ be_bytes 4 v = [b; c; d; 0].
Proof.
  intros Hok. pose proof (bytes_4 _ _ _ _ Hok) as (Ha & Hb & Hc & Hd). unfold be_shl.
  change (8 <? Z.max 32 (width 4)) with true. cbv iota. eexists. split; [reflexivity|].
  rewrite be_bytes_of_cpu. assert (value 4 (be_of_bytes [a; b; c; d]) = be_load [a; b; c; d]) as -> by (apply (value_of_bytes [a; b; c; d]); done).
  rewrite be_load_4, Z.shiftl_mul_pow2 by lia. change (width 4) with 32. change (2 ^ 8) with 256. unfold wrap. change (2 ^ 32) with 4294967296.
  cbn [le_store rev app]. do 4 (apply (f_equal2 cons); [zlia|]). done.
Qed.

Lemma vni_shr a b c d : bytes_ok [a; b; c; d] ->
  exists v, be_shr 4 (be_of_bytes [a; b; c; d]) 8 = Some v /\ be_bytes 4 v = [0; a; b; c].
Proof.
  intros Hok. pose proof (bytes_4 _ _ _ _ Hok) as (Ha & Hb & Hc & Hd). unfold be_shr.
  change (8 <? Z.max 32 (width 4)) with true. cbv iota. eexists. split; [reflexivity|].
  rewrite be_bytes_of_cpu. assert (value 4 (be_of_bytes [a; b; c; d]) = be_load [a; b; c; d]) as -> by (apply (value_of_bytes [a; b; c; d]); done).
  rewrite be_load_4, Z.shiftr_div_pow2 by lia. change (2 ^ 8) with 256.
  cbn [le_store rev app]. do 4 (apply (f_equal2 cons); [zlia|]). done.
Qed.

Lemma read_mid a m c p off n : packet_ok p -> frame p = a ++ m ++ c -> off = Z.of_nat (length a) -> n = Z.of_nat (length m) ->
  head_read off n p = Some m.
Proof.
  intros Hp Hf -> ->. pose proof (length_frame p Hp) as Hl. rewrite Hf, !length_app in Hl.
  rewrite head_read_spec by (done || lia). rewrite !Nat2Z.id, Hf, drop_app_ge, Nat.sub_diag, drop_0, take_app_le, take_ge by lia. done.
Qed.

Lemma vxlan_decap_spec attr p e b0 t src dst opts u fl a b c d f : packet_ok p ->
  frame p = e ++ (b0 :: t ++ src ++ dst ++ opts) ++ u ++ (fl ++ [a; b; c; d]) ++ f ->
  length e = 14%nat -> length t = 11%nat -> length src = 4%nat -> length dst = 4%nat -> length u = 8%nat -> length fl = 4%nat ->
  Z.shiftl (Z.land b0 15) 2 = 20 + Z.of_nat (length opts) ->
  attr_range (attr 0%nat) 4 -> attr_range (attr 1%nat) 4 -> attr_range (attr 2%nat) 4 ->
  exists q, vxlan_decap attr p = Some q /\ packet_ok q /\ frame q = f /\
    metadata_ q = set_attr_bytes (attr 2%nat) [0; a; b; c] (set_attr_bytes (attr 1%nat) dst (set_attr_bytes (attr 0%nat) src (metadata_ p))).
Proof.
  intros Hp Hf Le Lt Ls Ld Lu Lf Hb0 H0 H1 H2. pose proof (length_frame p Hp) as Hl. pose proof (frame_bytes p Hp) as Hby.
  rewrite Hf in Hl, Hby. rewrite !length_app in Hl. cbn [length] in Hl. rewrite !length_app in Hl. cbn [length] in Hl.
  assert (bytes_ok src /\ bytes_ok dst /\ bytes_ok [a; b; c; d]) as (Bs & Bd & Bv).
  { change (b0 :: t ++ src ++ dst ++ opts) with ([b0] ++ t ++ src ++ dst ++ opts) in Hby. rewrite !bytes_ok_app in Hby. tauto. }
  unfold vxlan_decap.
  rewrite (read_mid e [b0] (t ++ src ++ dst ++ opts ++ u ++ (fl ++ [a; b; c; d]) ++ f) p 14 1 Hp);
    [|rewrite Hf; cbn [app]; by rewrite <- !app_assoc|by rewrite Le|done].
  cbn [mbind option_bind le_load]. replace (b0 + 256 * 0) with b0 by lia. change 0x0f with 15. rewrite Hb0.
  rewrite (read_mid (e ++ b0 :: t) src (dst ++ opts ++ u ++ (fl ++ [a; b; c; d]) ++ f) p (14 + 12) 4 Hp);
    [|rewrite Hf, <- !app_assoc; cbn [app]; by rewrite <- !app_assoc|rewrite length_app; cbn [length]; lia|by rewrite Ls].
  cbn [mbind option_bind].
  use_step (set_attr_step (attr 0%nat) src p Hp Bs ltac:(by rewrite Ls)) q1. destruct Hs as [Ho1 Hl1 Hk1]. rewrite Hf in Hf0.
  rewrite (read_mid (e ++ b0 :: t ++ src) dst (opts ++ u ++ (fl ++ [a; b; c; d]) ++ f) q1 (14 + 16) 4 Hk1);
    [|rewrite Hf0, <- !app_assoc; cbn [app]; by rewrite <- !app_assoc|rewrite length_app; cbn [length]; rewrite length_app; lia|by rewrite Ld].
  cbn [mbind option_bind].
  use_step (set_attr_step (attr 1%nat) dst q1 Hk1 Bd ltac:(by rewrite Ld)) q2. destruct Hs as [Ho2 Hl2 Hk2]. rewrite Hf0 in Hf1.
  rewrite (read_mid (e ++ (b0 :: t ++ src ++ dst ++ opts) ++ u ++ fl) [a; b; c; d] f q2 _ 4 Hk2);
    [|rewrite Hf1, <- !app_assoc; cbn [app]; by rewrite <- !app_assoc|rewrite !length_app; cbn [length]; rewrite !length_app; lia|done].
  cbn [mbind option_bind]. destruct (vni_shr a b c d Bv) as (v & -> & Hv). cbn [mbind option_bind]. rewrite Hv.
  assert (Bv' : bytes_ok [0; a; b; c]) by (rewrite <- Hv; auto with bess).
  use_step (set_attr_step (attr 2%nat) [0; a; b; c] q2 Hk2 Bv' H2) q3. destruct Hs as [Ho3 Hl3 Hk3]. rewrite Hf1 in Hf2.
  unfold sizeof_Ethernet, sizeof_Udp, sizeof_Vxlan, adj_or_same.
  set (n := 14 + (20 + Z.of_nat (length opts)) + 8 + 8).
  pose proof (adj_spec n q3 Hk3 ltac:(lia)) as Ha. destruct (adj n q3) as [q4|]; [|lia].
  destruct Ha as (Hk4 & _ & _ & Hm4 & _ & Hf4).
  exists q4. split; [done|]. split; [done|]. split; [|congruence].
  rewrite Hf4, Hf2.
  assert (e ++ (b0 :: t ++ src ++ dst ++ opts) ++ u ++ (fl ++ [a; b; c; d]) ++ f = (e ++ (b0 :: t ++ src ++ dst ++ opts) ++ u ++ fl ++ [a; b; c; d]) ++ f) as ->
    by (by rewrite <- !app_assoc).
  assert (Z.to_nat n = length (e ++ (b0 :: t ++ src ++ dst ++ opts) ++ u ++ fl ++ [a; b; c; d])) as ->.
  { rewrite !length_app. cbn [length]. rewrite !length_app. cbn [length]. lia. }
  by rewrite drop_app_ge, Nat.sub_diag, drop_0 by done.
Qed.

(** The places of the attributes of the three modules, as the computation of metadata
    offsets gives them: an attribute that one module writes and another reads has one
    place, every place is inside the metadata, and attributes that are alive at the same
    time do not overlap. *)
Definition placed (o n : Z) : Prop := 0 <= o /\ o + n <= SNBUF_METADATA.

Record tunnel_attrs (av ai ae : nat -> Z) : Prop := {
  ta_shared : ai 0%nat = av 3%nat /\ ai 1%nat = av 4%nat /\ ai 2%nat = av 5%nat /\ ae 2%nat = ai 4%nat;
  ta_tun : placed (av 0%nat) 4 /\ placed (av 1%nat) 4 /\ placed (av 2%nat) 4;
  ta_ip : placed (av 3%nat) 4 /\ placed (av 4%nat) 4 /\ placed (av 5%nat) 1;
  ta_out : placed (ai 3%nat) 4 /\ placed (ai 4%nat) 2 /\ placed (ae 0%nat) 6 /\ placed (ae 1%nat) 6;
  ta_ip_apart : apart (av 3%nat) 4 (av 4%nat) 4 /\ apart (av 3%nat) 4 (av 5%nat) 1 /\ apart (av 4%nat) 4 (av 5%nat) 1;
  ta_src_apart : forall o n, (o, n) ∈ [(av 3%nat, 4); (av 4%nat, 4); (av 5%nat, 1); (ai 3%nat, 4); (ai 4%nat, 2)] ->
    apart o n (ae 0%nat) 6 /\ apart o n (ae 1%nat) 6 }.

Lemma placed_range o n : placed o n -> attr_range o n.
Proof. unfold placed, attr_range, SNBUF_METADATA, SNBUF_SCRATCHPAD. lia. Qed.

Lemma attr_apart_sym o n o' n' : apart o n o' n' -> apart o' n' o n.
Proof. unfold apart. lia. Qed.

Lemma set_read o v n m : placed o n -> Z.of_nat (length v) = n -> Z.of_nat (length m) = 192 ->
  attr_bytes o n (set_attr_bytes o v m) = v /\ Z.of_nat (length (set_attr_bytes o v m)) = 192.
Proof.
  unfold placed, SNBUF_METADATA. intros Ho <- Hm. rewrite set_attr_read, length_set_attr by lia. done.
Qed.

Lemma set_skip o v k m o' n : placed o k -> Z.of_nat (length v) = k -> placed o' n -> 0 <= n -> Z.of_nat (length m) = 192 ->
  apart o k o' n -> attr_bytes o' n (set_attr_bytes o v m) = attr_bytes o' n m.
Proof.
  unfold placed, SNBUF_METADATA. intros Ho <- Ho' Hn Hm Ha. apply set_attr_other; (done || lia).
Qed.

Lemma be_load_be_store n v : 0 <= v < 256 ^ Z.of_nat n -> be_load (be_store n v) = v.
Proof. intros Hv. unfold be_load, be_store. by rewrite rev_involutive, le_load_store, Z.mod_small. Qed.

Section Tunnel.
Context (rte_hash_crc : bytes -> Z -> Z).

Lemma vxlan_encap_spec dstport attr p : packet_ok p -> 16 <= data_off_ p -> 12 <= data_len_ p ->
  attr_range (attr 0%nat) 4 -> attr_range (attr 1%nat) 4 -> attr_range (attr 2%nat) 4 ->
  attr_range (attr 3%nat) 4 -> attr_range (attr 4%nat) 4 -> attr_range (attr 5%nat) 1 ->
  exists q, vxlan_encap rte_hash_crc dstport attr p = Some q /\ packet_ok q /\ data_off_ q = data_off_ p - 16 /\
    data_len_ q = data_len_ p + 16 /\
    metadata_ q = set_attr_bytes (attr 5%nat) [17] (set_attr_bytes (attr 4%nat) (attr_bytes (attr 1%nat) 4 (metadata_ p))
      (set_attr_bytes (attr 3%nat) (attr_bytes (attr 0%nat) 4 (metadata_ p)) (metadata_ p))) /\
    frame q = udp_vxlan_header (be_store 2 (Z.lor (u32 (rte_hash_crc (take 12 (frame p)) 0xFFFFFFFF)) 0xf000)) dstport
      (data_len_ p + 16) (attr_bytes (attr 2%nat) 4 (metadata_ p)) ++ frame p.
Proof.
  intros Hp Ho H12 H0 H1 H2 H3 H4 H5. pose proof (ok_end p Hp) as Hend. pose proof (ok_buffer p Hp) as Hbuf. unfold SNBUF_HEADROOM, SNBUF_DATA in *.
  destruct (get_attr_bytes _ 4 p Hp H0 ltac:(lia)) as (E0 & L0 & B0).
  destruct (get_attr_bytes _ 4 p Hp H1 ltac:(lia)) as (E1 & L1 & B1).
  destruct (get_attr_bytes _ 4 p Hp H2 ltac:(lia)) as (E2 & L2 & B2).
  unfold vxlan_encap. rewrite E0, E1, E2. cbn [mbind option_bind].
  assert (u16 (sizeof_Udp + u64 (total_len p + sizeof_Udp)) = data_len_ p + 16) as ->.
  { unfold total_len. rewrite (ok_pkt_len p Hp), to_int_small by lia. unfold sizeof_Udp. rewrite (wrap_small 64) by (unfold in_word; lia).
    rewrite wrap_small by (unfold in_word; lia). lia. }
  set (src := attr_bytes (attr 0%nat) 4 (metadata_ p)) in *. set (dst := attr_bytes (attr 1%nat) 4 (metadata_ p)) in *.
  set (vni := attr_bytes (attr 2%nat) 4 (metadata_ p)) in *. unfold sizeof_Udp, sizeof_Vxlan. change (8 + 8) with 16.
  destruct (prepend_step 16 p Hp ltac:(lia)) as (q & junk & -> & Hq & Hoq & Hlq & Hmq & Hbq & Hj & Hjb & Hf).
  destruct junk as [|j0 [|j1 [|j2 [|j3 [|j4 [|j5 [|j6 [|j7 [|j8 [|j9 [|j10 [|j11 [|j12 [|j13 [|j14 [|j15 [|]]]]]]]]]]]]]]]]]; try (cbn in Hj; lia).
  rewrite !be_bytes_of_cpu. change (rev (le_store 4 0x08000000)) with [0x08; 0; 0; 0]. unfold udp_vxlan_header.
  use_step (write_step 8 [0x08; 0; 0; 0] q Hq ltac:(small_bytes) ltac:(lia) ltac:(cbn; lia)) q1. destruct Hs as [Ho1 Hl1 Hk1].
  clearbody vni. destruct vni as [|v0 [|v1 [|v2 [|v3 [|]]]]]; try (cbn in L2; lia).
  destruct (vni_shl v0 v1 v2 v3 B2) as (v & -> & Hv). cbn [mbind option_bind]. rewrite Hv.
  assert (Bv : bytes_ok [v1; v2; v3; 0]) by (rewrite <- Hv; auto with bess).
  use_step (write_step 12 [v1; v2; v3; 0] q1 Hk1 Bv ltac:(lia) ltac:(cbn; lia)) q2. destruct Hs as [Ho2 Hl2 Hk2].
  assert (read_at (data_off_ p) 12 (buffer_ q2) = Some (take 12 (frame p))) as ->.
  { pose proof (head_read_spec 16 12 q2 Hk2 ltac:(lia) ltac:(lia) ltac:(lia)) as Hr. unfold head_read in Hr.
    replace (data_off_ q2 + 16) with (data_off_ p) in Hr by lia. rewrite Hr, Hf1, Hf0, Hf. done. }
  cbn [mbind option_bind]. set (crc := rte_hash_crc (take 12 (frame p)) 0xFFFFFFFF).
  assert (be_store 2 (Z.lor (u32 crc) 0xf000) = rev (le_store 2 (u16 (Z.lor (u32 crc) 0xf000)))) as Hsp.
  { unfold be_store. f_equal. symmetry. apply (le_store_mod 2). }
  rewrite be_bytes_of_cpu, <- Hsp. change (rev (le_store 2 (data_len_ p + 16))) with (be_store 2 (data_len_ p + 16)).
  assert (Bs : bytes_ok (be_store 2 (Z.lor (u32 crc) 0xf000))) by apply Forall_rev, le_store_ok.
  assert (Ls : length (be_store 2 (Z.lor (u32 crc) 0xf000)) = 2%nat) by done.
  assert (Bl : bytes_ok (be_store 2 (data_len_ p + 16))) by apply Forall_rev, le_store_ok.
  assert (Ll : length (be_store 2 (data_len_ p + 16)) = 2%nat) by done.
  pose proof (be_bytes_ok 2 dstport) as Bd. pose proof (length_be_bytes 2 dstport) as Ld.
  set (sp := be_store 2 (Z.lor (u32 crc) 0xf000)) in *. set (len := be_store 2 (data_len_ p + 16)) in *.
  set (dp := be_bytes 2 dstport) in *. clearbody sp len dp.
  use_step (write_step 0 sp q2 Hk2 Bs ltac:(lia) ltac:(lia)) q3. destruct Hs as [Ho3 Hl3 Hk3].
  use_step (write_step 2 dp q3 Hk3 Bd ltac:(lia) ltac:(lia)) q4. destruct Hs as [Ho4 Hl4 Hk4].
  use_step (write_step 4 len q4 Hk4 Bl ltac:(lia) ltac:(lia)) q5. destruct Hs as [Ho5 Hl5 Hk5].
  use_step (write_step 6 [0; 0] q5 Hk5 ltac:(small_bytes) ltac:(lia) ltac:(cbn; lia)) q6. destruct Hs as [Ho6 Hl6 Hk6].
  use_step (set_attr_step (attr 3%nat) src q6 Hk6 B0 ltac:(by rewrite L0)) q7. destruct Hs as [Ho7 Hl7 Hk7].
  use_step (set_attr_step (attr 4%nat) dst q7 Hk7 B1 ltac:(by rewrite L1)) q8. destruct Hs as [Ho8 Hl8 Hk8].
  destruct (set_attr_step (attr 5%nat) [17] q8 Hk8 ltac:(small_bytes) H5) as (q9 & Hq9 & [Ho9 Hl9 Hk9] & Hm9 & Hf9).
  exists q9. split; [exact Hq9|]. split; [done|]. split; [lia|]. split; [lia|]. split; [congruence|].
  rewrite Hf9, Hf7, Hf6, Hf5, Hf4, Hf3, Hf2, Hf1, Hf0, Hf.
  destruct sp as [|s0 [|s1 [|]]]; try done. destruct dp as [|d0 [|d1 [|]]]; try done. destruct len as [|l0 [|l1 [|]]]; done.
Qed.

(** C39: round trip.  A packet with fifty bytes of headroom leaves VXLANEncap, IPEncap
    and EtherEncap as Ethernet, IPv4, UDP and VXLAN headers in front of its frame: the
    addresses are those of the metadata, the IP checksum verifies and the IP and UDP
    lengths are the lengths of what they cover.  Whatever packet carries this frame,
    VXLANDecap takes the headers off again and leaves the frame of the first packet, with
    the tunnel's addresses and the low 24 bits of its identifier in the metadata. *)
Theorem vxlan_tunnel_round_trip dstport av ai ae p : packet_ok p -> 50 <= data_off_ p -> 12 <= data_len_ p ->
  tunnel_attrs av ai ae ->
  exists q1 q2 q3 iph udp vx, vxlan_encap rte_hash_crc dstport av p = Some q1 /\ ip_encap ai q1 = Some q2 /\
    ether_encap ae q2 = Some q3 /\ packet_ok q3 /\
    frame q3 = attr_bytes (ae 1%nat) 6 (metadata_ p) ++ attr_bytes (ae 0%nat) 6 (metadata_ p) ++ be_store 2 kIpv4_type ++
      iph ++ udp ++ vx ++ frame p /\
    VerifyIpv4NoOptChecksum iph = true /\
    be_load (take 2 (drop 2 iph)) = Z.of_nat (length (iph ++ udp ++ vx ++ frame p)) /\ nth 9 iph 0 = 17 /\
    take 8 (drop 12 iph) = attr_bytes (av 0%nat) 4 (metadata_ p) ++ attr_bytes (av 1%nat) 4 (metadata_ p) /\
    take 2 (drop 2 udp) = be_bytes 2 dstport /\
    be_load (take 2 (drop 4 udp)) = Z.of_nat (length (udp ++ vx ++ frame p)) /\
    forall ad r, packet_ok r -> frame r = frame q3 -> placed (ad 0%nat) 4 -> placed (ad 1%nat) 4 -> placed (ad 2%nat) 4 ->
      apart (ad 0%nat) 4 (ad 1%nat) 4 -> apart (ad 0%nat) 4 (ad 2%nat) 4 -> apart (ad 1%nat) 4 (ad 2%nat) 4 ->
      exists r', vxlan_decap ad r = Some r' /\ packet_ok r' /\ frame r' = frame p /\
        attr_bytes (ad 0%nat) 4 (metadata_ r') = attr_bytes (av 0%nat) 4 (metadata_ p) /\
        attr_bytes (ad 1%nat) 4 (metadata_ r') = attr_bytes (av 1%nat) 4 (metadata_ p) /\
        be_load (attr_bytes (ad 2%nat) 4 (metadata_ r')) = be_load (attr_bytes (av 2%nat) 4 (metadata_ p)) mod 2 ^ 24.
Proof.
  intros Hp Ho Hl [(Es & Ed & Ep & Et) (P0 & P1 & P2) (P3 & P4 & P5) (Q3 & Q4 & Q0 & Q1) (A34 & A35 & A45) Hap].
  pose proof (ok_metadata p Hp) as Hm. unfold SNBUF_METADATA, SNBUF_SCRATCHPAD in Hm. change (128 + 64) with 192 in Hm.
  pose proof (ok_end p Hp) as Hend. unfold SNBUF_HEADROOM, SNBUF_DATA in Hend.
  destruct (get_attr_bytes _ 4 p Hp (placed_range _ _ P0) ltac:(lia)) as (_ & L0 & B0).
  destruct (get_attr_bytes _ 4 p Hp (placed_range _ _ P1) ltac:(lia)) as (_ & L1 & B1).
  destruct (get_attr_bytes _ 4 p Hp (placed_range _ _ P2) ltac:(lia)) as (_ & L2 & B2).
  destruct (get_attr_bytes _ 6 p Hp (placed_range _ _ Q0) ltac:(lia)) as (_ & L6 & B6).
  destruct (get_attr_bytes _ 6 p Hp (placed_range _ _ Q1) ltac:(lia)) as (_ & L7 & B7).
  destruct (vxlan_encap_spec dstport av p Hp) as (q1 & E1 & Hk1 & Ho1 & Hl1 & Hm1 & Hf1); [lia|lia|by apply placed_range..|].
  set (m := metadata_ p) in *. set (S := attr_bytes (av 0%nat) 4 m) in *. set (D := attr_bytes (av 1%nat) 4 m) in *.
  set (V := attr_bytes (av 2%nat) 4 m) in *.
  destruct (set_read (av 3%nat) S 4 m P3 L0 Hm) as [R3 N3]. set (m3 := set_attr_bytes (av 3%nat) S m) in *.
  destruct (set_read (av 4%nat) D 4 m3 P4 L1 N3) as [R4 N4]. set (m4 := set_attr_bytes (av 4%nat) D m3) in *.
  destruct (set_read (av 5%nat) [17] 1 m4 P5 eq_refl N4) as [R5 N5]. set (m5 := set_attr_bytes (av 5%nat) [17] m4) in *.
  destruct (Hap (av 3%nat) 4 ltac:(set_solver)) as [Z1 Z2]. destruct (Hap (av 4%nat) 4 ltac:(set_solver)) as [Z3 Z4].
  destruct (Hap (av 5%nat) 1 ltac:(set_solver)) as [Z5 Z6]. destruct (Hap (ai 3%nat) 4 ltac:(set_solver)) as [Z7 Z8].
  destruct (Hap (ai 4%nat) 2 ltac:(set_solver)) as [Z9 Z10]. clear Hap.
  assert (attr_bytes (av 3%nat) 4 m5 = S /\ attr_bytes (av 4%nat) 4 m5 = D) as [R35 R45].
  { split.
    - unfold m5. rewrite (set_skip _ _ 1) by (done || lia || by apply attr_apart_sym).
      unfold m4. rewrite (set_skip _ _ 4) by (done || lia || by apply attr_apart_sym). done.
    - unfold m5. rewrite (set_skip _ _ 1) by (done || lia || by apply attr_apart_sym). done. }
  assert (forall o, placed o 6 -> apart (av 3%nat) 4 o 6 -> apart (av 4%nat) 4 o 6 -> apart (av 5%nat) 1 o 6 ->
    attr_bytes o 6 m5 = attr_bytes o 6 m) as Hkeep.
  { intros o Hpo A3 A4 A5. unfold m5. rewrite (set_skip _ _ 1) by (done || lia).
    unfold m4. rewrite (set_skip _ _ 4) by (done || lia). unfold m3. by rewrite (set_skip _ _ 4) by (done || lia). }
  destruct (ip_encap_spec ai q1 Hk1) as (q2 & id & ck & E2 & Hk2 & Ho2 & Hl2 & Hm2 & Lid & Bid & Hf2 & Hver);
    [lia|apply placed_range; by rewrite ?Es, ?Ed, ?Ep..|].
  rewrite Hm1, Es, Ed, Ep, R35, R45, R5 in *.
  destruct (set_read (ai 3%nat) D 4 m5 Q3 L1 N5) as [R6 N6]. set (m6 := set_attr_bytes (ai 3%nat) D m5) in *.
  destruct (set_read (ai 4%nat) (be_store 2 kIpv4_type) 2 m6 Q4 eq_refl N6) as [R7 N7].
  set (m7 := set_attr_bytes (ai 4%nat) (be_store 2 kIpv4_type) m6) in *.
  assert (forall o, placed o 6 -> apart (ai 3%nat) 4 o 6 -> apart (ai 4%nat) 2 o 6 -> attr_bytes o 6 m7 = attr_bytes o 6 m5) as Hkeep2.
  { intros o Hpo A3 A4. unfold m7. rewrite (set_skip _ _ 2) by (done || lia). unfold m6. by rewrite (set_skip _ _ 4) by (done || lia). }
  destruct (ether_encap_spec ae q2 Hk2) as (q3 & E3 & Hk3 & Ho3 & Hl3 & Hm3 & Hf3); [lia|apply placed_range; by rewrite ?Et..|].
  rewrite Hm2, Et, R7, !Hkeep2, !Hkeep in Hf3 by done.
  assert (exists v0 v1 v2 v3, V = [v0; v1; v2; v3]) as (v0 & v1 & v2 & v3 & HV).
  { clearbody V. destruct V as [|v0 [|v1 [|v2 [|v3 [|]]]]]; try (cbn in L2; lia). eauto. }
  rewrite HV in *. set (sp := be_store 2 _) in Hf1. assert (length sp = 2%nat) as Lsp by done. clearbody sp.
  pose proof (length_be_bytes 2 dstport) as Ldp.
  assert (length S = 4%nat /\ length D = 4%nat) as [LS LD] by lia.
  set (iph := ip_header (data_len_ q1 + 20) id [17] ck S D) in *.
  set (udp := sp ++ be_bytes 2 dstport ++ be_store 2 (data_len_ p + 16) ++ [0; 0]).
  set (vx := [8; 0; 0; 0] ++ [v1; v2; v3; 0]).
  assert (frame q1 = udp ++ vx ++ frame p) as Hf1' by (rewrite Hf1; unfold udp, vx, udp_vxlan_header; rewrite <- !app_assoc; done).
  rewrite Hf2, Hf1' in Hf3.
  assert (length iph = 20%nat /\ length udp = 8%nat /\ length vx = 8%nat) as (Li & Lu & Lx).
  { unfold iph, udp, ip_header. rewrite !length_app, Lsp, Ldp, Lid, LS, LD. done. }
  pose proof (length_frame p Hp) as Hlp.
  exists q1, q2, q3, iph, udp, vx. split; [exact E1|]. split; [exact E2|]. split; [exact E3|]. split; [done|].
  split; [exact Hf3|]. split; [exact Hver|].
  split; [|split; [|split; [|split; [|split]]]].
  - unfold iph, ip_header. rewrite !length_app. cbn [length app drop]. rewrite drop_0, take_app_le, take_ge by done.
    rewrite be_load_be_store by (change (256 ^ Z.of_nat 2) with 65536; lia). unfold udp, vx. rewrite !length_app.
    rewrite Lsp, Ldp, Lid, LS, LD. cbn [length]. change (length (be_store 2 (data_len_ q1 + 20))) with 2%nat.
    change (length (be_store 2 (data_len_ p + 16))) with 2%nat. rewrite length_le_store. lia.
  - unfold iph, ip_header. destruct id as [|i0 [|i1 [|]]]; try done.
  - unfold iph, ip_header. destruct id as [|i0 [|i1 [|]]]; try done. cbn [be_store le_store rev app drop].
    destruct S as [|s0 [|s1 [|s2 [|s3 [|]]]]]; try done. destruct D as [|d0 [|d1 [|d2 [|d3 [|]]]]]; done.
  - unfold udp. rewrite drop_app_ge, Lsp, drop_0, take_app_le, take_ge by lia. done.
  - unfold udp. rewrite app_assoc, drop_app_ge by (rewrite length_app; lia). rewrite length_app, Lsp, Ldp.
    change (4 - (2 + 2))%nat with 0%nat. rewrite drop_0, take_app_le, take_ge by done.
    rewrite be_load_be_store by (change (256 ^ Z.of_nat 2) with 65536; lia). rewrite !length_app. cbn [length]. rewrite Lsp, Ldp. 
    change (length (be_store 2 (data_len_ p + 16))) with 2%nat. lia.
  - intros ad r Hr Hfr D0 D1 D2 X01 X02 X12. pose proof (ok_metadata r Hr) as Hmr. unfold SNBUF_METADATA, SNBUF_SCRATCHPAD in Hmr.
    destruct (vxlan_decap_spec ad r (attr_bytes (ae 1%nat) 6 m ++ attr_bytes (ae 0%nat) 6 m ++ be_store 2 kIpv4_type)
      0x45 (take 11 (drop 1 iph)) S D [] udp [8; 0; 0; 0] v1 v2 v3 0 (frame p) Hr) as (r' & Er & Hkr & Hfr' & Hmr');
      [|rewrite !length_app; change (length (be_store 2 kIpv4_type)) with 2%nat; lia|rewrite length_take_le; [done|rewrite length_drop; lia]
       |done..|by apply placed_range|by apply placed_range|by apply placed_range|].
    + rewrite Hfr, Hf3. assert (iph = 69 :: take 11 (drop 1 iph) ++ S ++ D ++ []) as <-.
      { unfold iph, ip_header. destruct id as [|i0 [|i1 [|]]]; try done. cbn [be_store le_store rev app drop take]. by rewrite app_nil_r. }
      unfold vx. by rewrite <- !app_assoc.
    + exists r'. split; [done|]. split; [done|]. split; [done|]. rewrite Hmr'. clear Hmr'.
      destruct (set_read (ad 0%nat) S 4 (metadata_ r) D0 L0 Hmr) as [U0 W0]. set (r0 := set_attr_bytes (ad 0%nat) S (metadata_ r)) in *.
      destruct (set_read (ad 1%nat) D 4 r0 D1 L1 W0) as [U1 W1]. set (r1 := set_attr_bytes (ad 1%nat) D r0) in *.
      destruct (set_read (ad 2%nat) [0; v1; v2; v3] 4 r1 D2 eq_refl W1) as [U2 W2].
      rewrite U2. split; [|split].
      * rewrite (set_skip _ _ 4) by (done || lia || by apply attr_apart_sym). unfold r1. by rewrite (set_skip _ _ 4) by (done || lia || by apply attr_apart_sym).
      * by rewrite (set_skip _ _ 4) by (done || lia || by apply attr_apart_sym).
      * rewrite !be_load_4. destruct (bytes_4 _ _ _ _ B2) as (? & ? & ? & ?). change (2 ^ 24) with 16777216. zlia.
Qed.
End Tunnel.

(** Places for the example: one after the other. *)
Definition example_av (k : nat) : Z := nth k [0; 4; 8; 12; 16; 20] (-1).
Definition example_ai (k : nat) : Z := nth k [12; 16; 20; 24; 28] (-1).
Definition example_ae (k : nat) : Z := nth k [30; 36; 28] (-1).

Lemma example_attrs : tunnel_attrs example_av example_ai example_ae.
Proof.
  split; unfold placed, apart, SNBUF_METADATA; cbn [example_av example_ai example_ae nth]; try lia.
  intros o n H. rewrite !elem_of_cons, elem_of_nil in H. cbn in H.
  destruct H as [[= -> ->]|[[= -> ->]|[[= -> ->]|[[= -> ->]|[[= -> ->]|[]]]]]]; lia.
Qed.

Lemma vxlan_tunnel_round_trip_witness : exists q1 q2 q3 r',
  vxlan_encap (fun _ _ => 0x1234) (of_cpu 2 4789) example_av (packet_of example_frame) = Some q1 /\
  ip_encap example_ai q1 = Some q2 /\ ether_encap example_ae q2 = Some q3 /\
  vxlan_decap example_av q3 = Some r' /\ frame r' = example_frame.
Proof.
  destruct example_frame_ok as (H1 & H2 & H3 & H4).
  destruct (vxlan_tunnel_round_trip (fun _ _ => 0x1234) (of_cpu 2 4789) example_av example_ai example_ae (packet_of example_frame)
    H1 ltac:(vm_compute; congruence) ltac:(vm_compute; congruence) example_attrs)
    as (q1 & q2 & q3 & iph & udp & vx & E1 & E2 & E3 & Hk & _ & _ & _ & _ & _ & _ & _ & Hdec).
  destruct (Hdec example_av q3 Hk eq_refl) as (r' & Er & _ & Hf & _); unfold placed, apart, SNBUF_METADATA; cbn [example_av nth]; try lia.
  exists q1, q2, q3, r'. split; [exact E1|]. split; [exact E2|]. split; [exact E3|]. split; [exact Er|]. rewrite Hf. apply frame_of.
Defined.

(** ** MPLS *)

(** The label of an MPLS packet is taken out, with the Ethernet header or under it. *)
Lemma mpls_pop_spec m p d s t l f : packet_ok p -> frame p = d ++ s ++ t ++ l ++ f ->
  length d = 6%nat -> length s = 6%nat -> length t = 2%nat -> length l = 4%nat ->
  exists q, mpls_pop m p = Some q /\
    if negb (be_load t =? kMpls_type) then q = (p, 1)
    else packet_ok q.1 /\ q.2 = 0 /\
      frame q.1 = (if remove_eth_header_ m then [] else d ++ s ++ be_bytes 2 (next_ether_type_ m)) ++ f.
Proof.
  intros Hp Hf Ld Ls Lt Ll. pose proof (length_frame p Hp) as Hl. pose proof (frame_bytes p Hp) as Hby.
  rewrite Hf, !length_app in Hl. rewrite Hf, !bytes_ok_app in Hby. destruct Hby as (Bd & Bs & Bt & Bl & Bf).
  unfold mpls_pop. rewrite (read_mid (d ++ s) t (l ++ f) p 12 2 Hp); [|rewrite Hf; by rewrite <- !app_assoc|rewrite length_app; lia|lia].
  cbn [mbind option_bind].
  assert (be_ne (be_of_bytes t) (of_cpu 2 kMpls_type) = negb (be_load t =? kMpls_type)) as ->.
  { unfold be_ne, be_of_bytes. f_equal. rewrite <- (be_eq_cpu t kMpls_type Bt Lt) by (unfold in_word, kMpls_type; lia).
    unfold be_eq, of_cpu, data_. rewrite swap_swap. unfold width. change (8 * Z.of_nat 2) with 16. rewrite wrap_small; [done|].
    pose proof (le_load_bound t Bt) as Hb. rewrite Lt in Hb. done. }
  destruct (negb _); [by eexists|]. unfold adj_or_same. destruct (remove_eth_header_ m).
  - pose proof (adj_spec (sizeof_Ethernet + sizeof_Mpls) p Hp ltac:(done)) as Ha. unfold sizeof_Ethernet, sizeof_Mpls in *. change (14 + 4) with 18 in *.
    destruct (adj 18 p) as [q|]; [|lia]. destruct Ha as (Hk & _ & _ & _ & _ & Hfq). exists (q, 0). split; [done|].
    split; [done|]. split; [done|]. cbn [fst]. rewrite Hfq, Hf. rewrite !app_assoc, drop_app_ge by (rewrite !length_app; lia).
    rewrite !length_app. replace (Z.to_nat 18 - (length d + length s + length t + length l))%nat with 0%nat by lia. done.
  - rewrite (read_mid d s (t ++ l ++ f) p 6 6 Hp) by (done || lia). cbn [mbind option_bind].
    rewrite (read_mid [] d (s ++ t ++ l ++ f) p 0 6 Hp) by (done || (cbn; lia)). cbn [mbind option_bind].
    pose proof (adj_spec sizeof_Mpls p Hp ltac:(done)) as Ha. unfold sizeof_Mpls in *.
    destruct (adj 4 p) as [q|]; [|lia]. destruct Ha as (Hk & _ & Hlq & _ & _ & Hfq). change (default p (Some q)) with q.
    pose proof (length_be_bytes 2 (next_ether_type_ m)) as Ln. pose proof (be_bytes_ok 2 (next_ether_type_ m)) as Bn.
    set (n := be_bytes 2 (next_ether_type_ m)) in *. clearbody n.
    use_step (write_step 6 s q Hk Bs ltac:(lia) ltac:(lia)) q1. destruct Hs as [Ho1 Hl1 Hk1].
    use_step (write_step 0 d q1 Hk1 Bd ltac:(lia) ltac:(lia)) q2. destruct Hs as [Ho2 Hl2 Hk2].
    use_step (write_step 12 n q2 Hk2 Bn ltac:(lia) ltac:(lia)) q3. destruct Hs as [Ho3 Hl3 Hk3].
    exists (q3, 0). split; [done|]. split; [done|]. split; [done|]. cbn [fst]. rewrite Hf2, Hf1, Hf0, Hfq, Hf.
    destruct d as [|d0 [|d1 [|d2 [|d3 [|d4 [|d5 [|]]]]]]]; try done. destruct s as [|s0 [|s1 [|s2 [|s3 [|s4 [|s5 [|]]]]]]]; try done.
    destruct t as [|t0 [|t1 [|]]]; try done. destruct l as [|l0 [|l1 [|l2 [|l3 [|]]]]]; try done. destruct n as [|n0 [|n1 [|]]]; done.
Qed.

(** The fields of a label stack entry. *)
Lemma shiftr_land x m k : Z.shiftr (Z.land x m) k = Z.land (Z.shiftr x k) (Z.shiftr m k).
Proof. apply Z.shiftr_land. Qed.

Lemma mpls_entry_fields label ttl tc bos : in_word 20 label -> in_word 8 ttl -> in_word 3 tc ->
  let e := SetEntry label ttl tc bos in
  Label e = label /\ Ttl e = ttl /\ Tc e = tc /\ isBottomOfStack e = bos.
Proof.
  intros Hl Ht Hc e. unfold in_word in Hl, Ht, Hc. change (2 ^ 20) with 1048576 in Hl. change (2 ^ 8) with 256 in Ht. change (2 ^ 3) with 8 in Hc.
  assert (value 4 e = label * 4096 + tc * 512 + Z.b2z bos * 256 + ttl) as Hv.
  { unfold e, SetEntry, kMplsLabelShift, kMplsTcShift, kMplsBosShift, kMplsTtlShift.
    rewrite (wrap_small 32 (Z.shiftl label 12)) by (unfold in_word; rewrite Z.shiftl_mul_pow2 by lia; change (2 ^ 12) with 4096; change (2 ^ 32) with 4294967296; lia).
    rewrite Z.shiftl_0_r.
    assert (Z.lor (Z.shiftl label 12) (Z.shiftl tc 9) = Z.shiftl (label * 8 + tc) 9) as ->.
    { rewrite (Z.shiftl_mul_pow2 tc), lor_shiftl_add by (lia || (unfold in_word; change (2 ^ 12) with 4096; change (2 ^ 9) with 512; lia)).
      rewrite Z.shiftl_mul_pow2 by lia. change (2 ^ 12) with 4096. change (2 ^ 9) with 512. lia. }
    assert (Z.lor (Z.shiftl (label * 8 + tc) 9) (if bos then Z.shiftl 1 8 else 0) = Z.shiftl (label * 16 + tc * 2 + Z.b2z bos) 8) as ->.
    { rewrite lor_shiftl_add; [|lia|apply (in_wordb_spec 9); by destruct bos]. rewrite !Z.shiftl_mul_pow2 by lia.
      change (2 ^ 9) with 512. change (2 ^ 8) with 256. clear. destruct bos; cbn [Z.b2z]; ring. }
    rewrite lor_shiftl_add by (done || lia). change (2 ^ 8) with 256.
    assert (0 <= Z.b2z bos <= 1) by (destruct bos; cbn; lia).
    rewrite wrap_small by (unfold in_word; change (2 ^ 32) with 4294967296; lia).
    rewrite value_of_cpu; [lia|]. unfold width, in_word. change (2 ^ (8 * Z.of_nat 4)) with 4294967296. lia. }
  assert (0 <= Z.b2z bos <= 1) by (destruct bos; cbn; lia).
  unfold Label, Ttl, Tc, isBottomOfStack, kMplsLabelMask, kMplsLabelShift, kMplsTcMask, kMplsTcShift, kMplsBosMask, kMplsBosShift, kMplsTtlMask, kMplsTtlShift.
  rewrite !shiftr_land, Hv. clear Hv. set (v := _ + ttl).
  change (Z.shiftr 0xFFFFF000 12) with (Z.ones 20). change (Z.shiftr 0xFF 0) with (Z.ones 8).
  change (Z.shiftr 0xE00 9) with (Z.ones 3). change (Z.shiftr 0x100 8) with (Z.ones 1).
  rewrite !Z.land_ones, !Z.shiftr_div_pow2 by lia. unfold wrap.
  change (2 ^ 20) with 1048576. change (2 ^ 12) with 4096. change (2 ^ 8) with 256. change (2 ^ 0) with 1. change (2 ^ 3) with 8.
  change (2 ^ 9) with 512. change (2 ^ 1) with 2. subst v. split; [zlia|]. split; [zlia|]. split; [zlia|].
  destruct bos; cbn [Z.b2z] in *; [rewrite (proj2 (Z.eqb_neq _ _)) by zlia; done|rewrite (proj2 (Z.eqb_eq _ _)) by zlia; done].
Qed.
