(* ===== verification/Trie.v ===== *)
(** The prefix trie: [core/utils/trie.h].

    A node holds 128 child slots, indexed by the bytes of a key as (signed) characters.
    The specification is the finite map of the entries inserted. *)
From S2P Require Import Prelude.
Open Scope Z_scope.

Section trie.
Context {T : Type} (T0 : T).

(** [Trie<T>::Node].  [children i] is [children[i].get()] for [i] in [[0, 256)]. *)
#[warnings="-register-all"]
Inductive Node := MkNode {
  leaf : bool;
  prefix : bool;
  val : T;
  children : Z -> option Node }.

(** [Node() : leaf(), prefix(), val(), children()] *)
Definition new_node : Node := MkNode false false T0 (fun _ => None).

(** [size_t idx = c;] for a [const char &c], which is signed on x86: bytes from
    0x80 on become huge indices. *)
Definition char_index (c : Z) : Z := if c <? 128 then c else u64 (c - 256).

(** [cur->children[idx]]: undefined outside the array of 256 pointers. *)
Definition child (cur : Node) (idx : Z) : option (option Node) :=
  if (0 <=? idx) && (idx <? 256) then Some (children cur idx) else None.

Definition set_child (cur : Node) (idx : Z) (c : Node) : Node :=
  MkNode (leaf cur) (prefix cur) (val cur)
    (fun i => if i =? idx then Some c else children cur i).

Fixpoint Insert (cur : Node) (key : bytes) (v : T) (pfx : bool) {struct key} : option Node :=
  match key with
  | [] => Some (MkNode true pfx v (children cur))
  | c :: key' =>
      let idx := char_index c in
      slot ← child cur idx;
      let next := match slot with Some n => n | None => new_node end in
      next' ← Insert next key' v pfx;
      Some (set_child cur idx next')
  end.

(** The two-argument overload. *)
Definition Insert_exact (cur : Node) (key : bytes) (v : T) : option Node :=
  Insert cur key v false.

Fixpoint Match_ (cur : Node) (key : bytes) {struct key} : option bool :=
  if prefix cur then Some true
  else
    match key with
    | [] => Some (leaf cur)
    | c :: key' =>
        slot ← child cur (char_index c);
        match slot with None => Some false | Some n => Match_ n key' end
    end.

Fixpoint MatchPrefix (cur : Node) (key : bytes) {struct key} : option bool :=
  if prefix cur then Some true
  else
    match key with
    | [] => Some true
    | c :: key' =>
        slot ← child cur (char_index c);
        match slot with None => Some false | Some n => MatchPrefix n key' end
    end.

Definition prefix_result (prefix_match : option Node) : bool * T :=
  match prefix_match with Some n => (true, val n) | None => (false, T0) end.

(** The loop of [Lookup]; [pm] is [prefix_match] before [cur] is examined. *)
Fixpoint lookup_from (cur : Node) (pm : option Node) (key : bytes) {struct key} : option (bool * T) :=
  let pm := if prefix cur then Some cur else pm in
  match key with
  | [] => Some (if leaf cur then (true, val cur) else prefix_result pm)
  | c :: key' =>
      slot ← child cur (char_index c);
      match slot with
      | None => Some (prefix_result pm)
      | Some n => lookup_from n pm key'
      end
  end.

Definition Lookup (root : Node) (key : bytes) : option (bool * T) :=
  lookup_from root None key.

(** [RecursiveDump]: own entry, then the children in index order. *)
Fixpoint RecursiveDump (node : Node) (prelude : bytes) : list (bytes * T * bool) :=
  (if leaf node || prefix node then [(prelude, val node, prefix node)] else []) ++
  concat (map (fun i => match children node (Z.of_nat i) with
                        | Some n => RecursiveDump n (prelude ++ [Z.of_nat i])
                        | None => []
                        end) (seq 0 256)).

Definition Dump (root : Node) : list (bytes * T * bool) := RecursiveDump root [].
End trie.
Arguments Node : clear implicits.

(** ** The abstract prefix map *)
Section spec.
Context {T : Type} (T0 : T).

Abbreviation pmap := (gmap bytes (T * bool)).

(** A key's own value, else the value of its longest flagged proper prefix. *)
Fixpoint best_prefix (m : pmap) (seen rest : bytes) (best : option T) : option T :=
  let best := match m !! seen with Some (v, true) => Some v | _ => best end in
  match rest with
  | [] => match m !! seen with Some (v, _) => Some v | None => best end
  | c :: rest' => best_prefix m (seen ++ [c]) rest' best
  end.

Definition spec_lookup (m : pmap) (key : bytes) : bool * T :=
  match best_prefix m [] key None with Some v => (true, v) | None => (false, T0) end.

Definition spec_insert (m : pmap) (e : bytes * T * bool) : pmap :=
  <[e.1.1 := (e.1.2, e.2)]> m.

(** A trie represents the map of its entries. *)
Fixpoint find_entry (n : Node T) (key : bytes) {struct key} : option (T * bool) :=
  match key with
  | [] => if leaf n then Some (val n, prefix n) else None
  | c :: key' => match children n c with Some n' => find_entry n' key' | None => None end
  end.

Definition insert_all (t : Node T) (es : list (bytes * T * bool)) : option (Node T) :=
  fold_left (fun t e => t ← t; Insert T0 t e.1.1 e.1.2 e.2) es (Some t).

Definition ascii_key (k : bytes) : Prop := Forall (fun c => 0 <= c < 128) k.

#[export] Instance ascii_key_dec k : Decision (ascii_key k).
Proof. unfold ascii_key. apply _. Defined.
End spec.

(** ** Well-formed tries *)
Section proofs.
Context {T : Type} (T0 : T).
Implicit Types (n : Node T) (m : gmap bytes (T * bool)).

(** Flags come with an entry, keys are ASCII and no subtree is empty. *)
Inductive wf : Node T -> Prop :=
| Wf n :
    (prefix n = true -> leaf n = true) ->
    (forall i c, children n i = Some c -> 0 <= i < 128) ->
    (forall i c, children n i = Some c -> wf c) ->
    (forall i c, children n i = Some c -> exists k e, find_entry c k = Some e) ->
    wf n.

Lemma wf_flag n : wf n -> prefix n = true -> leaf n = true.
Proof. by inversion 1. Qed.

Lemma wf_child n i c : wf n -> children n i = Some c ->
  0 <= i < 128 /\ wf c /\ exists k e, find_entry c k = Some e.
Proof.
  destruct 1 as [n Hp Hi Hw He]. intros H.
  split; [by eapply Hi|]. split; [by eapply Hw|by eapply He].
Qed.

Lemma wf_intro n : (prefix n = true -> leaf n = true) ->
  (forall i c, children n i = Some c ->
     0 <= i < 128 /\ wf c /\ exists k e, find_entry c k = Some e) -> wf n.
Proof. intros Hp Hc. constructor; [done|..]; intros i c Hi; by apply Hc in Hi as (? & ? & ?). Qed.

Lemma wf_new : wf (new_node T0).
Proof. by constructor. Qed.

Lemma find_new k : find_entry (new_node T0) k = None.
Proof. by destruct k. Qed.

Lemma ascii_index c : 0 <= c < 128 -> char_index c = c.
Proof. intros. unfold char_index. by rewrite (proj2 (Z.ltb_lt _ _)) by lia. Qed.

Lemma child_ascii n c : 0 <= c < 128 -> child n (char_index c) = Some (children n c).
Proof.
  intros. rewrite ascii_index by done. unfold child.
  by rewrite (proj2 (Z.leb_le 0 c)), (proj2 (Z.ltb_lt c 256)) by lia.
Qed.

Lemma child_high n c : 128 <= c < 256 -> child n (char_index c) = None.
Proof.
  intros. unfold char_index, child. rewrite (proj2 (Z.ltb_ge _ _)) by lia.
  rewrite (proj2 (Z.ltb_ge (u64 _) 256)) by word. by rewrite andb_false_r.
Qed.

Lemma find_set_child n c n' k : find_entry (set_child n c n') k =
  match k with
  | [] => find_entry n []
  | c' :: k' => if decide (c' = c) then find_entry n' k' else find_entry n k
  end.
Proof.
  destruct k as [|c' k']; [done|]. cbn. destruct (Z.eqb_spec c' c); by case_decide.
Qed.

Lemma Insert_spec n k v p : wf n -> ascii_key k ->
  exists n', Insert T0 n k v p = Some n' /\ wf n' /\
    forall k', find_entry n' k' = if decide (k' = k) then Some (v, p) else find_entry n k'.
Proof.
  intros Hwf Hk. revert n Hwf. induction Hk as [|c k Hc Hk IH]; intros n Hwf.
  - eexists. split; [done|]. split.
    { apply wf_intro; [done|]. intros i c' Hi. exact (wf_child n i c' Hwf Hi). }
    intros [|c k']; case_decide; done.
  - cbn [Insert]. rewrite child_ascii by done. cbn [mbind option_bind].
    rewrite ascii_index by done. set (next := match children n c with Some n0 => n0 | None => _ end).
    assert (Hnext : wf next /\ forall k', find_entry next k' = find_entry n (c :: k')).
    { subst next. cbn [find_entry].
      destruct (children n c) eqn:Hcc; [by split; [eapply wf_child|]|]. split; [apply wf_new|apply find_new]. }
    destruct Hnext as [Hwn Hfn]. destruct (IH next Hwn) as (next' & -> & Hwf' & Hf').
    cbn [mbind option_bind]. eexists. split; [done|]. split.
    + apply wf_intro; [by apply (wf_flag n)|]. intros i c' Hi. cbn in Hi.
      destruct (Z.eqb_spec i c) as [->|]; [|exact (wf_child n i c' Hwf Hi)]. simplify_eq.
      split; [done|]. split; [done|]. exists k, (v, p). rewrite Hf'. by case_decide.
    + intros k'. rewrite find_set_child. destruct k' as [|c' k'']; [by case_decide|].
      destruct (decide (c' = c)) as [->|].
      * rewrite Hf', Hfn. do 2 case_decide; congruence.
      * case_decide; congruence.
Qed.

(** *** Lookup *)

(** [best_prefix] for a map given as a function of the remaining key. *)
Fixpoint bestf (f : bytes -> option (T * bool)) (rest : bytes) (best : option T) : option T :=
  let best := match f [] with Some (v, true) => Some v | _ => best end in
  match rest with
  | [] => match f [] with Some (v, _) => Some v | None => best end
  | c :: rest' => bestf (fun k => f (c :: k)) rest' best
  end.

Lemma bestf_ext f g rest best : (forall k, f k = g k) -> bestf f rest best = bestf g rest best.
Proof.
  revert f g best. induction rest as [|c rest IH]; intros f g best Hfg; cbn; rewrite Hfg; [done|].
  by apply IH.
Qed.

Lemma bestf_none f rest best : (forall k, f k = None) -> bestf f rest best = best.
Proof.
  revert f. induction rest as [|c rest IH]; intros f Hf; cbn; rewrite Hf; [done|]. by apply IH.
Qed.

Lemma best_prefix_bestf m seen rest best :
  best_prefix m seen rest best = bestf (fun k => m !! (seen ++ k)) rest best.
Proof.
  revert seen best. induction rest as [|c rest IH]; intros seen best; cbn [best_prefix bestf];
    rewrite app_nil_r; [done|]. rewrite IH. apply bestf_ext. intros k. by rewrite <- app_assoc.
Qed.

Definition found (best : option T) : bool * T :=
  match best with Some v => (true, v) | None => (false, T0) end.

Lemma wf_best n best : wf n ->
  (if prefix n then Some (val n) else best) =
  match find_entry n [] with Some (v, true) => Some v | _ => best end.
Proof.
  intros Hp. pose proof (wf_flag n Hp) as Hl. cbn.
  destruct (leaf n), (prefix n); try done. by specialize (Hl eq_refl).
Qed.

Lemma lookup_from_spec n pm key : wf n -> ascii_key key ->
  lookup_from T0 n pm key = Some (found (bestf (find_entry n) key (val <$> pm))).
Proof.
  intros Hwf Hk. revert n pm Hwf. induction Hk as [|c key Hc Hk IH]; intros n pm Hwf;
    cbn [lookup_from bestf]; rewrite <- (wf_best n) by done.
  - f_equal. cbn. destruct (leaf n) eqn:?; [done|]. destruct (prefix n); [done|]. by destruct pm.
  - rewrite child_ascii by done. cbn [mbind option_bind].
    cbn [find_entry]. destruct (children n c) as [n'|] eqn:Hn.
    + rewrite IH by (by eapply wf_child). do 3 f_equal. by destruct (prefix n).
    + rewrite bestf_none by done. destruct (prefix n); [done|]. by destruct pm.
Qed.

(** [Match] is the first component of [Lookup]. *)
Lemma Match_lookup n pm key : wf n -> ascii_key key ->
  (match pm with Some _ => Some true | None => Match_ n key end) =
  fst <$> lookup_from T0 n pm key.
Proof.
  intros Hwf Hk. revert n pm Hwf. induction Hk as [|c key Hc Hk IH]; intros n pm Hwf;
    cbn [lookup_from Match_].
  - cbn. by destruct (prefix n), pm, (leaf n).
  - rewrite !child_ascii by done. cbn [mbind option_bind].
    destruct (children n c) as [n'|] eqn:Hn.
    + rewrite <- IH by (by eapply wf_child). by destruct (prefix n), pm.
    + cbn. by destruct (prefix n), pm.
Qed.

(** *** Prefix queries *)
Definition prefix_query (f : bytes -> option (T * bool)) (q : bytes) : Prop :=
  (exists k e, f k = Some e /\ q `prefix_of` k) \/
  (exists k v, f k = Some (v, true) /\ k `prefix_of` q).

Lemma MatchPrefix_spec n q : wf n -> ascii_key q ->
  (exists k e, find_entry n k = Some e) ->
  exists b, MatchPrefix n q = Some b /\ (b = true <-> prefix_query (find_entry n) q).
Proof.
  intros Hwf Hq. revert n Hwf. induction Hq as [|c q Hc Hq IH]; intros n Hwf (k & e & He);
    cbn [MatchPrefix]; destruct (prefix n) eqn:Hp.
  1, 3: eexists; split; [done|]; split; [intros _; right|done];
    exists [], (val n); split; [|by apply prefix_nil]; cbn; by rewrite (wf_flag n), Hp.
  - eexists. split; [done|]. split; [|done]. intros _. left. exists k, e.
    split; [done|apply prefix_nil].
  - rewrite child_ascii by done. cbn [mbind option_bind].
    assert (Hcons : prefix_query (find_entry n) (c :: q) <->
      match children n c with Some n' => prefix_query (find_entry n') q | None => False end).
    { unfold prefix_query. split.
      - intros [(k1 & e1 & Hf & [k2 ->]) | (k1 & v1 & Hf & Hpre)].
        + cbn in Hf. destruct (children n c); [|done]. left. exists (q ++ k2), e1.
          split; [done|by eexists].
        + destruct k1 as [|c1 k1]; [cbn in Hf; destruct (leaf n); congruence|].
          apply prefix_cons_inv_1 in Hpre as Hc1. apply prefix_cons_inv_2 in Hpre. subst c1.
          cbn in Hf. destruct (children n c); [|done]. right. eauto.
      - destruct (children n c) as [n'|] eqn:Hn; [|done].
        intros [(k1 & e1 & Hf & Hpre) | (k1 & v1 & Hf & Hpre)].
        + left. exists (c :: k1), e1. cbn. rewrite Hn. split; [done|by apply prefix_cons].
        + right. exists (c :: k1), v1. cbn. rewrite Hn. split; [done|by apply prefix_cons]. }
    setoid_rewrite Hcons. destruct (children n c) as [n'|] eqn:Hn.
    + apply IH; by eapply wf_child.
    + by exists false.
Qed.

(** *** Dump *)
Lemma dump_unfold n pre : RecursiveDump n pre =
  (if leaf n || prefix n then [(pre, val n, prefix n)] else []) ++
  concat (map (fun i => match children n (Z.of_nat i) with
                        | Some n' => RecursiveDump n' (pre ++ [Z.of_nat i])
                        | None => []
                        end) (seq 0 256)).
Proof. by destruct n. Qed.

Lemma elem_of_dump n pre k v p : wf n ->
  (k, v, p) ∈ RecursiveDump n pre <->
  exists k', k = pre ++ k' /\ find_entry n k' = Some (v, p).
Proof.
  intros Hwf. revert pre k. induction Hwf as [n Hp Hi Hc IH He]; intros pre k.
  rewrite dump_unfold, elem_of_app, elem_of_concat_map. split.
  - intros [Hin | (i & _ & Hin)].
    + exists []. rewrite app_nil_r. cbn. revert Hp Hin.
      destruct (leaf n), (prefix n); cbn; intros Hp Hin;
        try (apply list_elem_of_singleton in Hin; simplify_eq);
        [done|done|by specialize (Hp eq_refl)|by apply not_elem_of_nil in Hin].
    + destruct (children n (Z.of_nat i)) as [c|] eqn:Hci; [|set_solver].
      apply (IH _ _ Hci) in Hin as (k' & -> & Hf). exists (Z.of_nat i :: k').
      rewrite <- app_assoc. split; [done|]. cbn. by rewrite Hci.
  - intros ([|c k'] & -> & Hf); cbn in Hf.
    + left. destruct (leaf n); [|done]. simplify_eq. rewrite app_nil_r. by apply list_elem_of_singleton.
    + right. destruct (children n c) as [n'|] eqn:Hci; [|done]. pose proof (Hi _ _ Hci).
      exists (Z.to_nat c). rewrite Z2Nat.id, Hci by lia. split.
      * apply list_elem_of_In, in_seq. lia.
      * apply (IH _ _ Hci). exists k'. by rewrite <- app_assoc.
Qed.

Lemma NoDup_dump n pre : wf n -> NoDup (RecursiveDump n pre).
Proof.
  intros Hwf. revert pre. induction Hwf as [n Hp Hi Hc IH He]; intros pre.
  rewrite dump_unfold. apply NoDup_app. split; [case_match; repeat constructor; set_solver|].
  assert (Hin : forall i b, b ∈ match children n (Z.of_nat i) with
      | Some n0 => RecursiveDump n0 (pre ++ [Z.of_nat i]) | None => [] end ->
      exists k, b.1.1 = pre ++ Z.of_nat i :: k).
  { intros i [[k v] p]. case_match eqn:Hci; [|set_solver].
    rewrite elem_of_dump by eauto. intros (k' & -> & _). exists k'. by rewrite <- app_assoc. }
  split.
  - intros b Hb (i & _ & (k & Hk)%Hin)%elem_of_concat_map.
    case_match; [|set_solver]. apply list_elem_of_singleton in Hb as ->. cbn in Hk.
    rewrite <- (app_nil_r pre) in Hk at 1. by apply app_inv_head in Hk.
  - apply NoDup_concat_map.
    + apply NoDup_ListNoDup, seq_NoDup.
    + intros i _. case_match eqn:Hci; [by eapply IH|constructor].
    + intros i j b _ _ (k & Hk)%Hin (k' & Hk')%Hin. rewrite Hk in Hk'.
      apply app_inv_head in Hk'. injection Hk' as ? _; lia.
Qed.
End proofs.

(** ** Properties *)
Section properties.
Context {T : Type} (T0 : T).
Abbreviation entry := (bytes * T * bool)%type.

Definition ascii_entries (es : list entry) : Prop := Forall (fun e => ascii_key e.1.1) es.

Definition spec_entries (es : list entry) : gmap bytes (T * bool) :=
  fold_left spec_insert es ∅.

(** A trie represents a map when it is well formed and finds the same entries. *)
Definition represents (t : Node T) (m : gmap bytes (T * bool)) : Prop :=
  wf t /\ forall k, find_entry t k = m !! k.

Lemma Insert_represents t m e : represents t m -> ascii_key e.1.1 ->
  exists t', Insert T0 t e.1.1 e.1.2 e.2 = Some t' /\ represents t' (spec_insert m e).
Proof.
  intros [Hwf Hf] Hk. destruct (Insert_spec T0 t _ e.1.2 e.2 Hwf Hk) as (t' & Ht & Hwf' & Hf').
  exists t'. split; [done|]. split; [done|]. intros k. rewrite Hf'. unfold spec_insert.
  rewrite lookup_insert. repeat case_decide; congruence.
Qed.

Lemma insert_all_represents es t m : represents t m -> ascii_entries es ->
  exists t', insert_all T0 t es = Some t' /\ represents t' (fold_left spec_insert es m).
Proof.
  intros Ht Hes. revert t m Ht. unfold insert_all.
  induction Hes as [|e es He Hes IH]; intros t m Ht; [by exists t|].
  destruct (Insert_represents t m e Ht He) as (t1 & Ht1 & Hr). cbn [fold_left].
  destruct (IH t1 _ Hr) as (t2 & Ht2 & Hr2). exists t2. split; [|done].
  rewrite <- Ht2. cbn [mbind option_bind]. by rewrite Ht1.
Qed.

Lemma build_represents es : ascii_entries es ->
  exists t, insert_all T0 (new_node T0) es = Some t /\ represents t (spec_entries es).
Proof.
  apply insert_all_represents. split; [apply wf_new|]. intros k. by rewrite find_new, lookup_empty.
Qed.

Lemma represents_lookup t m key : represents t m -> ascii_key key ->
  Lookup T0 t key = Some (spec_lookup T0 m key) /\
  Match_ t key = Some (fst (spec_lookup T0 m key)).
Proof.
  intros [Hwf Hf] Hk.
  assert (Lookup T0 t key = Some (spec_lookup T0 m key)) as Hl.
  { unfold Lookup. rewrite lookup_from_spec by done. unfold spec_lookup.
    rewrite best_prefix_bestf. by rewrite (bestf_ext (find_entry t) (fun k => m !! k)). }
  split; [done|]. unfold Lookup in Hl. by rewrite (Match_lookup T0 t None key), Hl.
Qed.

(** C19: refinement.  A trie built by any sequence of insertions of keys with bytes below 0x80 -- others are
    out of the bounds of a node: [trie_insert_defined] -- looked up with such a key,
    behaves as a finite map with prefix flags: [Lookup] returns the value of the
    key itself, else of its longest flagged prefix, and [Match] tells whether
    there is one. *)
Theorem trie_lookup_refines es key : ascii_entries es -> ascii_key key ->
  exists t, insert_all T0 (new_node T0) es = Some t /\
    Lookup T0 t key = Some (spec_lookup T0 (spec_entries es) key) /\
    Match_ t key = Some (fst (spec_lookup T0 (spec_entries es) key)).
Proof.
  intros Hes Hk. destruct (build_represents es Hes) as (t & Ht & Hr).
  exists t. split; [done|]. by apply represents_lookup.
Qed.

(** [MatchPrefix] answers, on any trie with at least one entry, whether some
    key extends the query or some flagged key is a prefix of it. *)
Theorem trie_match_prefix es q : ascii_entries es -> ascii_key q -> es <> [] ->
  exists t b, insert_all T0 (new_node T0) es = Some t /\ MatchPrefix t q = Some b /\
    (b = true <-> prefix_query (fun k => spec_entries es !! k) q).
Proof.
  intros Hes Hq Hne. destruct (build_represents es Hes) as (t & Ht & [Hwf Hf]).
  assert (exists k e, find_entry t k = Some e) as Hex.
  { destruct (exists_last Hne) as (es' & e & ->). exists e.1.1, (e.1.2, e.2).
    rewrite Hf. unfold spec_entries. rewrite fold_left_app. apply lookup_insert_eq. }
  destruct (MatchPrefix_spec t q Hwf Hq Hex) as (b & Hb & Hiff).
  exists t, b. split; [done|]. split; [done|]. rewrite Hiff. unfold prefix_query.
  by setoid_rewrite Hf.
Qed.

(** [Dump] lists each stored entry exactly once. *)
Theorem trie_dump_entries es : ascii_entries es ->
  exists t, insert_all T0 (new_node T0) es = Some t /\
    Dump t ≡ₚ map (fun kv => (kv.1, kv.2.1, kv.2.2)) (map_to_list (spec_entries es)).
Proof.
  intros Hes. destruct (build_represents es Hes) as (t & Ht & [Hwf Hf]).
  exists t. split; [done|]. apply NoDup_Permutation.
  - by apply NoDup_dump.
  - apply NoDup_fmap_2; [|apply NoDup_map_to_list]. intros [? []] [? []]. naive_solver.
  - intros [[k v] p]. unfold Dump. rewrite elem_of_dump by done.
    rewrite list_elem_of_In, in_map_iff. setoid_rewrite <- list_elem_of_In. split.
    + intros (k' & -> & Hk). exists (k', (v, p)). split; [done|].
      apply elem_of_map_to_list. by rewrite <- Hf.
    + intros ([k' [v' p']] & Heq & Hin%elem_of_map_to_list). cbn in Heq. simplify_eq.
      exists k. by rewrite Hf.
Qed.

(** Inserting a key is defined exactly for ASCII keys: a byte from 0x80 on,
    read through a signed [char], indexes [children] out of bounds. *)
Theorem trie_insert_defined t k v p : wf t -> bytes_ok k ->
  (exists t', Insert T0 t k v p = Some t') <-> ascii_key k.
Proof.
  intros Hwf Hok. split; [|intros Hk; destruct (Insert_spec T0 t k v p Hwf Hk) as (t' & ? & _); eauto].
  revert t Hwf. induction Hok as [|c k Hc Hok IH]; intros t Hwf (t' & Ht); [constructor|].
  cbn [Insert] in Ht. destruct (Z.lt_ge_cases c 128) as [Hlt|Hge].
  - assert (0 <= c < 128) as Hc' by (unfold in_word in Hc; lia). constructor; [done|].
    rewrite child_ascii in Ht by done. cbn [mbind option_bind] in Ht.
    destruct (Insert T0 _ k v p) as [next'|] eqn:Hn in Ht; [|done].
    eapply IH; [|by eexists]. destruct (children t c) eqn:Hcc; [|apply wf_new].
    by eapply wf_child.
  - rewrite child_high in Ht; [done|]. unfold in_word in Hc. change (2 ^ 8) with 256 in Hc. lia.
Qed.
End properties.

(** *** Witnesses: host names with and without prefix flags *)
Definition sample_entries : list (bytes * nat * bool) :=
  [([97; 98], 1%nat, false); ([97], 2%nat, true); ([97; 98; 99], 3%nat, true); ([97; 98], 4%nat, false)].

Lemma trie_lookup_refines_witness :
  exists t, insert_all 0%nat (new_node 0%nat) sample_entries = Some t /\
    Lookup 0%nat t [97; 98; 100] = Some (spec_lookup 0%nat (spec_entries sample_entries) [97; 98; 100]) /\
    Match_ t [97; 98; 100] = Some (fst (spec_lookup 0%nat (spec_entries sample_entries) [97; 98; 100])).
Proof.
  apply trie_lookup_refines; apply (bool_decide_unpack _); vm_compute; exact I.
Defined.

Lemma trie_match_prefix_witness :
  exists t b, insert_all 0%nat (new_node 0%nat) sample_entries = Some t /\
    MatchPrefix t [97; 98] = Some b /\
    (b = true <-> prefix_query (fun k => spec_entries sample_entries !! k) [97; 98]).
Proof.
  apply trie_match_prefix; [| |done]; apply (bool_decide_unpack _); vm_compute; exact I.
Defined.

Lemma trie_dump_entries_witness :
  exists t, insert_all 0%nat (new_node 0%nat) sample_entries = Some t /\
    Dump t ≡ₚ map (fun kv => (kv.1, kv.2.1, kv.2.2)) (map_to_list (spec_entries sample_entries)).
Proof. apply trie_dump_entries. apply (bool_decide_unpack _); vm_compute; exact I. Defined.

Lemma trie_insert_defined_witness :
  (exists t', Insert 0%nat (new_node 0%nat) [97; 200] 1%nat false = Some t') <-> ascii_key [97; 200].
Proof.
  apply trie_insert_defined; [apply wf_new|]. apply (bool_decide_unpack _); vm_compute; exact I.
Defined.

(** The longest flagged prefix wins, and a key's own entry wins over it. *)
Example trie_lookups : exists t, insert_all 0%nat (new_node 0%nat) sample_entries = Some t /\
  map (Lookup 0%nat t) [[97; 98]; [97; 98; 100]; [97; 98; 99; 1]; [98]] =
  [Some (true, 4%nat); Some (true, 2%nat); Some (true, 3%nat); Some (false, 0%nat)].
Proof. eexists. split; [reflexivity|]. vm_compute. reflexivity. Qed.
