(* ===== verification/CuckooMap.v ===== *)
(** The cuckoo hash table: [core/utils/cuckoo_map.h].

    Buckets of four slots hold hash values and indices into an array of entries, with a
    list of free indices.  The hash function and the key equality are arguments, as the
    template's [H] and [E] are; the theorems ask of the equality to be equality on the
    keys in use.  [abs] is the finite map that a table stands for.  The displacement
    search is bounded by the source's [kMaxCuckooPath], the retries of an insertion by
    the number of expansions the source makes, and the iterator's loops by the number of
    slots, so no fuel can run out. *)
From S2P Require Import Prelude.
Open Scope Z_scope.

Definition kInitNumBucket : nat := 4.
Definition kInitNumEntries : nat := 16.
Definition kEntriesPerBucket : nat := 4.
Definition kMaxCuckooPath : nat := 3.

(** [struct Bucket] *)
Record Bucket := MkBucket { hash_values : list Z; entry_indices : list nat }.
Definition empty_bucket : Bucket :=
  MkBucket (replicate kEntriesPerBucket 0) (replicate kEntriesPerBucket O).

(** Reads and writes of [buckets_[b].hash_values[i]] and [.entry_indices[i]]. *)
Definition bucket_at (bs : list Bucket) (b : nat) : Bucket := nth b bs empty_bucket.
Definition hv (bs : list Bucket) (b i : nat) : Z := nth i (hash_values (bucket_at bs b)) 0.
Definition ei (bs : list Bucket) (b i : nat) : nat := nth i (entry_indices (bucket_at bs b)) O.

Definition set_slot (bs : list Bucket) (b i : nat) (h : Z) (e : nat) : list Bucket :=
  <[b := MkBucket (<[i := h]> (hash_values (bucket_at bs b)))
                  (<[i := e]> (entry_indices (bucket_at bs b)))]> bs.

Definition set_hash (bs : list Bucket) (b i : nat) (h : Z) : list Bucket :=
  <[b := MkBucket (<[i := h]> (hash_values (bucket_at bs b)))
                  (entry_indices (bucket_at bs b))]> bs.

Definition slot_indices : list nat := seq 0 kEntriesPerBucket.

Definition FindEmptySlot (bs : list Bucket) (b : nat) : option nat :=
  find (fun i => hv bs b i =? 0) slot_indices.

Definition HashSecondary (primary : Z) : Z :=
  let tag := Z.shiftr primary 12 in
  Z.lxor primary (u32 (u32 (tag + 1) * 0x5bd1e995)).

Section cuckoo.
Context {K V : Type} (hasher : K -> Z) (eq : K -> K -> bool) (e0 : K * V).

(** The data members; the head of [free_entry_indices_] is the top of the stack. *)
Record t := Mk {
  bucket_mask_ : Z;
  num_entries_ : Z;
  buckets_ : list Bucket;
  entries_ : list (K * V);
  free_entry_indices_ : list nat }.

Definition Hash (key : K) : Z := u32 (Z.lor (hasher key) (2 ^ 31)).

Definition bucket_of (m : t) (h : Z) : nat := Z.to_nat (Z.land h (bucket_mask_ m)).
Definition entry_at (m : t) (idx : nat) : K * V := nth idx (entries_ m) e0.

Definition with_buckets (m : t) (bs : list Bucket) : t :=
  Mk (bucket_mask_ m) (num_entries_ m) bs (entries_ m) (free_entry_indices_ m).

(** The constructor; the number of buckets must be a power of two. *)
Definition make (reserve_buckets reserve_entries : nat) : t :=
  Mk (u32 (Z.of_nat reserve_buckets - 1)) 0 (replicate reserve_buckets empty_bucket)
     (replicate reserve_entries e0) (seq 0 reserve_entries).

Definition FindSlot (m : t) (b : nat) (primary : Z) (key : K) : option nat :=
  find (fun i => (hv (buckets_ m) b i =? primary) &&
                 eq (fst (entry_at m (ei (buckets_ m) b i))) key) slot_indices.

(** [None] is [kInvalidEntryIdx]. *)
Definition GetFromBucket (m : t) (primary : Z) (b : nat) (key : K) : option nat :=
  match FindSlot m b primary key with
  | None => None
  | Some i => Some (ei (buckets_ m) b i)
  end.

Definition FindWithHash (m : t) (primary : Z) (key : K) : option nat :=
  match GetFromBucket m primary (bucket_of m primary) key with
  | Some idx => Some idx
  | None => GetFromBucket m primary (bucket_of m (HashSecondary primary)) key
  end.

(** A pointer to an entry is its index, [nullptr] is [None]. *)
Definition Find (m : t) (key : K) : option (K * V) :=
  match FindWithHash m (Hash key) key with
  | None => None
  | Some idx => Some (entry_at m idx)
  end.

Definition ExpandEntries (m : t) : t :=
  let old_size := length (entries_ m) in
  let new_size := (old_size + old_size / 2)%nat in
  Mk (bucket_mask_ m) (num_entries_ m) (buckets_ m)
     (entries_ m ++ replicate (new_size - old_size) e0)
     (seq old_size (new_size - old_size) ++ free_entry_indices_ m).

(** [None] when the stack is still empty: [top()] is undefined there. *)
Definition PopFreeEntryIndex (m : t) : option (t * nat) :=
  let m := match free_entry_indices_ m with [] => ExpandEntries m | _ => m end in
  match free_entry_indices_ m with
  | [] => None
  | idx :: rest =>
      Some (Mk (bucket_mask_ m) (num_entries_ m) (buckets_ m) (entries_ m) rest, idx)
  end.

Definition PushFreeEntryIndex (m : t) (idx : nat) : t :=
  Mk (bucket_mask_ m) (num_entries_ m) (buckets_ m) (entries_ m)
     (idx :: free_entry_indices_ m).

(** Outer [None]: undefined behaviour; inner [None]: [nullptr]. *)
Definition AddToBucket (m : t) (b : nat) (key : K) (value : V) : option (t * option nat) :=
  match FindEmptySlot (buckets_ m) b with
  | None => Some (m, None)
  | Some slot_idx =>
      r ← PopFreeEntryIndex m;
      let '(m, free_idx) := r in
      Some (Mk (bucket_mask_ m) (num_entries_ m + 1)
               (set_slot (buckets_ m) b slot_idx (Hash key) free_idx)
               (<[free_idx := (key, value)]> (entries_ m))
               (free_entry_indices_ m),
            Some free_idx)
  end.

Definition RemoveFromBucket (m : t) (primary : Z) (b : nat) (key : K) : t * bool :=
  match FindSlot m b primary key with
  | None => (m, false)
  | Some slot_idx =>
      let bs := set_hash (buckets_ m) b slot_idx 0 in
      let idx := ei bs b slot_idx in
      let m := Mk (bucket_mask_ m) (num_entries_ m) bs (<[idx := e0]> (entries_ m))
                  (free_entry_indices_ m) in
      let m := PushFreeEntryIndex m idx in
      (Mk (bucket_mask_ m) (num_entries_ m - 1) (buckets_ m) (entries_ m)
          (free_entry_indices_ m), true)
  end.

Definition Remove (m : t) (key : K) : t * bool :=
  let pri := Hash key in
  match RemoveFromBucket m pri (bucket_of m pri) key with
  | (m', true) => (m', true)
  | (m', false) =>
      let sec := HashSecondary pri in
      RemoveFromBucket m' pri (bucket_of m' sec) key
  end.

(** [MakeSpace(index, depth)] with [rem = kMaxCuckooPath - depth]; only the
    buckets change.  [move] is the end of the loop body. *)
Definition move (bs : list Bucket) (index i alt j : nat) : list Bucket :=
  set_hash (set_slot bs alt j (hv bs index i) (ei bs index i)) index i 0.

(** The [for] loop over the slots, given the recursive call. *)
Fixpoint make_space_slots (m : t) (rec : list Bucket -> nat -> list Bucket * option nat)
    (index : nat) (todo : list nat) (bs : list Bucket) : list Bucket * option nat :=
  match todo with
  | [] => (bs, None)
  | i :: todo' =>
      let key := fst (entry_at m (ei bs index i)) in
      let pri := Hash key in
      let sec := HashSecondary pri in
      let alt :=
        if pri =? hv bs index i then Some (bucket_of m sec)
        else if sec =? hv bs index i then Some (bucket_of m pri)
        else None in
      match alt with
      | None => (bs, None)
      | Some alt_index =>
          let '(bs, j) :=
            match FindEmptySlot bs alt_index with
            | Some j => (bs, Some j)
            | None => rec bs alt_index
            end in
          match j with
          | Some j => (move bs index i alt_index j, Some i)
          | None => make_space_slots m rec index todo' bs
          end
      end
  end.

Fixpoint make_space (m : t) (rem : nat) (bs : list Bucket) (index : nat)
    : list Bucket * option nat :=
  match rem with
  | O => (bs, None)
  | S rem' => make_space_slots m (make_space m rem') index slot_indices bs
  end.

Definition MakeSpace (m : t) (index depth : nat) : t * option nat :=
  let '(bs, r) := make_space m (kMaxCuckooPath - depth) (buckets_ m) index in
  (with_buckets m bs, r).

(** [AddEntry]: the [again] label is the recursive call. *)
Fixpoint AddEntry (fuel : nat) (m : t) (primary secondary : Z) (key : K) (value : V)
    : option (t * option nat) :=
  match fuel with
  | O => None
  | S fuel' =>
      r ← AddToBucket m (bucket_of m primary) key value;
      match r with
      | (m, Some idx) => Some (m, Some idx)
      | (m, None) =>
          r ← AddToBucket m (bucket_of m secondary) key value;
          match r with
          | (m, Some idx) => Some (m, Some idx)
          | (m, None) =>
              match MakeSpace m (bucket_of m primary) 0 with
              | (m, Some _) => AddEntry fuel' m primary secondary key value
              | (m, None) =>
                  match MakeSpace m (bucket_of m secondary) 0 with
                  | (m, Some _) => AddEntry fuel' m primary secondary key value
                  | (m, None) => Some (m, None)
                  end
              end
          end
      end
  end.

(** The slots in iteration order, and the entries of the occupied ones. *)
Definition all_slots (m : t) : list (nat * nat) :=
  concat (map (fun b => map (fun i => (b, i)) slot_indices) (seq 0 (length (buckets_ m)))).

Definition iter_entries (m : t) : list (K * V) :=
  map (fun p => entry_at m (ei (buckets_ m) p.1 p.2))
    (filter (fun p => hv (buckets_ m) p.1 p.2 <> 0) (all_slots m)).

(** The loop of [ExpandBuckets], given the [Insert] of the bigger table; the map
    is left as it is when an insertion fails. *)
Fixpoint expand_from (insert : t -> K -> V -> option (t * option nat)) (m : t)
    (es : list (K * V)) (bigger : t) : option t :=
  match es with
  | [] => Some bigger
  | e :: es' =>
      r ← insert bigger (fst e) (snd e);
      match r with
      | (bigger, Some _) => expand_from insert m es' bigger
      | (_, None) => Some m
      end
  end.

Definition ExpandBuckets (insert : t -> K -> V -> option (t * option nat)) (m : t) : option t :=
  expand_from insert m (iter_entries m)
    (make (length (buckets_ m) * 2) (length (entries_ m))).

(** The [while] loop of [Insert]: [n] more trials are allowed after this one. *)
Fixpoint try_add (expand : t -> option t) (primary secondary : Z) (key : K) (value : V)
    (n : nat) (m : t) : option (t * option nat) :=
  r ← AddEntry 2 m primary secondary key value;
  match r with
  | (m, Some idx) => Some (m, Some idx)
  | (m, None) =>
      match n with
      | O => Some (m, None)
      | S n' => m ← expand m; try_add expand primary secondary key value n' m
      end
  end.

Fixpoint insert_fuel (fuel : nat) (m : t) (key : K) (value : V) : option (t * option nat) :=
  match fuel with
  | O => None
  | S fuel' =>
      let primary := Hash key in
      match FindWithHash m primary key with
      | Some idx =>
          Some (Mk (bucket_mask_ m) (num_entries_ m) (buckets_ m)
                   (<[idx := (fst (entry_at m idx), value)]> (entries_ m))
                   (free_entry_indices_ m), Some idx)
      | None =>
          try_add (ExpandBuckets (insert_fuel fuel')) primary (HashSecondary primary)
            key value 2 m
      end
  end.

Definition Insert (m : t) (key : K) (value : V) : option (t * option nat) :=
  insert_fuel (S (Z.to_nat (num_entries_ m))) m key value.

Definition Clear (m : t) : t :=
  Mk (Z.of_nat kInitNumBucket - 1) 0 (replicate kInitNumBucket empty_bucket)
     (replicate kInitNumEntries e0) (seq 0 kInitNumEntries).

Definition Count (m : t) : Z := num_entries_ m.

(** *** Iterators: a bucket and a slot index *)
Definition iter := (nat * nat)%type.

Definition iter_next (it : iter) : iter :=
  let '(b, i) := it in
  if (S i =? kEntriesPerBucket)%nat then (S b, O) else (b, S i).

Definition iter_stuck (m : t) (it : iter) : bool :=
  let '(b, i) := it in
  (b <? length (buckets_ m))%nat && (hv (buckets_ m) b i =? 0).

Definition iter_fuel (m : t) : nat := S (kEntriesPerBucket * length (buckets_ m)).

(** The constructor skips empty slots; [operator++] advances, then skips. *)
Definition iterator (m : t) (b i : nat) : option iter :=
  while (iter_fuel m) (iter_stuck m) (fun it => Some (iter_next it)) (b, i).
Definition iter_incr (m : t) (it : iter) : option iter :=
  while (iter_fuel m) (iter_stuck m) (fun it => Some (iter_next it)) (iter_next it).
Definition iter_begin (m : t) : option iter := iterator m 0 0.
Definition iter_end (m : t) : iter := (length (buckets_ m), O).
Definition iter_deref (m : t) (it : iter) : K * V :=
  entry_at m (ei (buckets_ m) it.1 it.2).

(** The range-[for] loop [for (auto &e : map)]: the entries in the order visited. *)
Fixpoint for_range (fuel : nat) (m : t) (it : iter) : option (list (K * V)) :=
  if decide (it = iter_end m) then Some [] else
  match fuel with
  | O => None
  | S fuel' =>
      it' ← iter_incr m it;
      rest ← for_range fuel' m it';
      Some (iter_deref m it :: rest)
  end.

Definition for_each (m : t) : option (list (K * V)) :=
  it ← iter_begin m; for_range (kEntriesPerBucket * length (buckets_ m)) m it.
End cuckoo.

(** ** The occupied slots *)
Definition slots_of (n : nat) : list (nat * nat) :=
  concat (map (fun b => map (fun i => (b, i)) slot_indices) (seq 0 n)).

Definition slot_live (bs : list Bucket) (p : nat * nat) : list (nat * (Z * nat)) :=
  if hv bs p.1 p.2 =? 0 then [] else [(p.1, (hv bs p.1 p.2, ei bs p.1 p.2))].

(** The contents of the table: for each occupied slot its bucket, hash value and
    entry index. *)
Definition live (bs : list Bucket) : list (nat * (Z * nat)) :=
  concat (map (slot_live bs) (slots_of (length bs))).

Definition bucket_ok (bk : Bucket) : Prop :=
  length (hash_values bk) = kEntriesPerBucket /\ length (entry_indices bk) = kEntriesPerBucket.
Definition buckets_ok (bs : list Bucket) : Prop := Forall bucket_ok bs.

Lemma elem_of_slot_indices i : i ∈ slot_indices <-> (i < kEntriesPerBucket)%nat.
Proof. unfold slot_indices. rewrite list_elem_of_In, in_seq. lia. Qed.

Lemma elem_of_slots n b i : (b, i) ∈ slots_of n <-> (b < n)%nat /\ (i < kEntriesPerBucket)%nat.
Proof.
  unfold slots_of. rewrite elem_of_concat_map. split.
  - intros (b' & Hb & Hin). apply list_elem_of_In, in_map_iff in Hin as (i' & [= -> ->] & Hi).
    apply list_elem_of_In, in_seq in Hb. split; [lia|].
    by apply elem_of_slot_indices, list_elem_of_In.
  - intros [Hb Hi]. exists b. split; [apply list_elem_of_In, in_seq; lia|].
    apply list_elem_of_In, in_map_iff. exists i. split; [done|].
    by apply list_elem_of_In, elem_of_slot_indices.
Qed.

Lemma NoDup_slots n : NoDup (slots_of n).
Proof.
  apply NoDup_concat_map.
  - apply NoDup_ListNoDup, seq_NoDup.
  - intros b _. apply (NoDup_fmap_2 (fun i => (b, i))). apply NoDup_ListNoDup, seq_NoDup.
  - intros b b' [b0 i0] _ _ H1 H2. apply list_elem_of_In, in_map_iff in H1, H2.
    destruct H1 as (? & ? & _), H2 as (? & ? & _). congruence.
Qed.

Lemma find_slot_Some (P : nat -> bool) i :
  find P slot_indices = Some i -> (i < kEntriesPerBucket)%nat /\ P i = true.
Proof. intros [Hin HP]%find_some. split; [|done]. by apply elem_of_slot_indices, list_elem_of_In. Qed.

Lemma find_slot_None (P : nat -> bool) i :
  find P slot_indices = None -> (i < kEntriesPerBucket)%nat -> P i = false.
Proof. intros Hf Hi. eapply find_none in Hf; [exact Hf|]. by apply list_elem_of_In, elem_of_slot_indices. Qed.

Lemma elem_of_live bs x : x ∈ live bs <->
  exists i, (x.1 < length bs)%nat /\ (i < kEntriesPerBucket)%nat /\
    hv bs x.1 i <> 0 /\ x.2 = (hv bs x.1 i, ei bs x.1 i).
Proof.
  unfold live. rewrite elem_of_concat_map. split.
  - intros ([b i] & [Hb Hi]%elem_of_slots & Hx). unfold slot_live in Hx. cbn [fst snd] in Hx.
    destruct (Z.eqb_spec (hv bs b i) 0); [set_solver|].
    apply list_elem_of_singleton in Hx as ->. eauto.
  - intros (i & Hb & Hi & Hne & Hx). exists (x.1, i). split; [by apply elem_of_slots|].
    unfold slot_live; cbn [fst snd]. rewrite (proj2 (Z.eqb_neq _ _)) by done.
    destruct x as [b c]; cbn in *; subst. by apply list_elem_of_singleton.
Qed.

(** *** Reading after writing *)
Lemma bucket_at_ok bs b : buckets_ok bs -> bucket_ok (bucket_at bs b).
Proof.
  intros Hok. unfold bucket_at. destruct (nth_in_or_default b bs empty_bucket) as [Hin| ->]; [|done].
  unfold buckets_ok in Hok. rewrite Forall_forall in Hok. apply Hok. by apply list_elem_of_In.
Qed.

Lemma bucket_at_insert bs b bk b' : (b < length bs)%nat ->
  bucket_at (<[b := bk]> bs) b' = if decide (b' = b) then bk else bucket_at bs b'.
Proof.
  intros Hb. unfold bucket_at. rewrite !nth_lookup. case_decide as Heq.
  - subst. by rewrite list_lookup_insert_eq.
  - by rewrite list_lookup_insert_ne.
Qed.

Lemma nth_insert {A} (l : list A) i x d i' : (i < length l)%nat ->
  nth i' (<[i := x]> l) d = if decide (i' = i) then x else nth i' l d.
Proof.
  intros Hi. rewrite !nth_lookup. case_decide; subst.
  - by rewrite list_lookup_insert_eq.
  - by rewrite list_lookup_insert_ne.
Qed.

Section slot_writes.
Context (bs : list Bucket) (b i : nat).
Context (Hok : buckets_ok bs) (Hb : (b < length bs)%nat) (Hi : (i < kEntriesPerBucket)%nat).

Lemma hv_set_slot h e b' i' :
  hv (set_slot bs b i h e) b' i' = if decide ((b', i') = (b, i)) then h else hv bs b' i'.
Proof using All.
  unfold hv at 1, set_slot. rewrite bucket_at_insert by done.
  destruct (bucket_at_ok bs b Hok) as [Hh He].
  destruct (decide (b' = b)) as [->|]; [|rewrite decide_False by congruence; done].
  cbn [hash_values]. rewrite nth_insert by lia. unfold hv.
  destruct (decide (i' = i)) as [->|]; [by rewrite decide_True|by rewrite decide_False by congruence].
Qed.

Lemma ei_set_slot h e b' i' :
  ei (set_slot bs b i h e) b' i' = if decide ((b', i') = (b, i)) then e else ei bs b' i'.
Proof using All.
  unfold ei at 1, set_slot. rewrite bucket_at_insert by done.
  destruct (bucket_at_ok bs b Hok) as [Hh He].
  destruct (decide (b' = b)) as [->|]; [|rewrite decide_False by congruence; done].
  cbn [entry_indices]. rewrite nth_insert by lia. unfold ei.
  destruct (decide (i' = i)) as [->|]; [by rewrite decide_True|by rewrite decide_False by congruence].
Qed.

Lemma hv_set_hash h b' i' :
  hv (set_hash bs b i h) b' i' = if decide ((b', i') = (b, i)) then h else hv bs b' i'.
Proof using All.
  unfold hv at 1, set_hash. rewrite bucket_at_insert by done.
  destruct (bucket_at_ok bs b Hok) as [Hh He].
  destruct (decide (b' = b)) as [->|]; [|rewrite decide_False by congruence; done].
  cbn [hash_values]. rewrite nth_insert by lia. unfold hv.
  destruct (decide (i' = i)) as [->|]; [by rewrite decide_True|by rewrite decide_False by congruence].
Qed.

Lemma ei_set_hash h b' i' : ei (set_hash bs b i h) b' i' = ei bs b' i'.
Proof using All.
  unfold ei at 1, set_hash. rewrite bucket_at_insert by done.
  destruct (decide (b' = b)) as [->|]; done.
Qed.

Lemma buckets_ok_set_slot h e : buckets_ok (set_slot bs b i h e).
Proof using All.
  apply Forall_insert; [done|]. destruct (bucket_at_ok bs b Hok).
  split; cbn; by rewrite length_insert.
Qed.

Lemma buckets_ok_set_hash h : buckets_ok (set_hash bs b i h).
Proof using All.
  apply Forall_insert; [done|]. destruct (bucket_at_ok bs b Hok).
  split; cbn; by rewrite ?length_insert.
Qed.

Lemma length_set_slot h e : length (set_slot bs b i h e) = length bs.
Proof using Type. apply length_insert. Qed.
Lemma length_set_hash h : length (set_hash bs b i h) = length bs.
Proof using Type. apply length_insert. Qed.

(** A write to one slot replaces that slot's contribution to the contents. *)
Lemma live_change bs' : length bs' = length bs ->
  (forall p, p <> (b, i) -> slot_live bs' p = slot_live bs p) ->
  exists R, live bs ≡ₚ slot_live bs (b, i) ++ R /\ live bs' ≡ₚ slot_live bs' (b, i) ++ R.
Proof using All.
  intros Hlen Hsame. unfold live. rewrite Hlen.
  apply concat_map_change; [apply NoDup_slots|by apply elem_of_slots|].
  intros q _ Hq. symmetry. by apply Hsame.
Qed.

Lemma slot_live_set_slot h e p :
  slot_live (set_slot bs b i h e) p =
  if decide (p = (b, i)) then (if h =? 0 then [] else [(b, (h, e))]) else slot_live bs p.
Proof using All.
  destruct p as [b' i']. unfold slot_live; cbn [fst snd]. rewrite hv_set_slot, ei_set_slot.
  case_decide; [|done]. by simplify_eq.
Qed.

Lemma slot_live_set_hash0 p :
  slot_live (set_hash bs b i 0) p = if decide (p = (b, i)) then [] else slot_live bs p.
Proof using All.
  destruct p as [b' i']. unfold slot_live; cbn [fst snd]. rewrite hv_set_hash, ei_set_hash.
  by case_decide.
Qed.

Lemma live_set_slot h e : hv bs b i = 0 ->
  live (set_slot bs b i h e) ≡ₚ (if h =? 0 then [] else [(b, (h, e))]) ++ live bs.
Proof using All.
  intros H0. destruct (live_change (set_slot bs b i h e)) as (R & HR & HR').
  - apply length_set_slot.
  - intros p Hp. by rewrite slot_live_set_slot, decide_False.
  - rewrite HR', HR. rewrite slot_live_set_slot, decide_True by done.
    unfold slot_live. cbn [fst snd]. by rewrite H0.
Qed.

Lemma live_clear : live bs ≡ₚ slot_live bs (b, i) ++ live (set_hash bs b i 0).
Proof using All.
  destruct (live_change (set_hash bs b i 0)) as (R & HR & HR').
  - apply length_set_hash.
  - intros p Hp. by rewrite slot_live_set_hash0, decide_False.
  - rewrite HR', HR. by rewrite slot_live_set_hash0, decide_True.
Qed.
End slot_writes.

(** ** Invariant and abstraction *)
Section proofs.
Context {K V : Type} `{Countable K}.
Context (hasher : K -> Z) (eq : K -> K -> bool) (e0 : K * V).
(** [E] is an equality test on the keys that are stored, as [std::equal_to] is on all. *)
Context (ok : K -> Prop) (eq_spec : forall a b, ok a -> ok b -> eq a b = true <-> a = b).

Abbreviation t := (t (K := K) (V := V)).
Abbreviation Hash := (Hash hasher).
Abbreviation entry_at := (entry_at e0).
Implicit Types (m : t) (bs : list Bucket).

Lemma Hash_word key : in_word 32 (Hash key).
Proof. apply wrap_range. lia. Qed.

(** A hash value is never 0, the mark of an empty slot. *)
Lemma Hash_nonzero key : Hash key <> 0.
Proof.
  intros Hz. apply (f_equal (fun x => Z.testbit x 31)) in Hz.
  unfold CuckooMap.Hash, wrap in Hz. rewrite Z.mod_pow2_bits_low, Z.lor_spec, Z.bits_0 in Hz by lia.
  rewrite Z.pow2_bits_true, orb_true_r in Hz by lia. done.
Qed.

(** A slot content [(h, e)] may sit in bucket [b]. *)
Definition valid m (x : nat * (Z * nat)) : Prop :=
  let '(b, (h, e)) := x in
  (e < length (entries_ m))%nat /\ h = Hash (entry_at m e).1 /\
  (b = bucket_of m h \/ b = bucket_of m (HashSecondary h)).

Definition contents m : list (Z * nat) := map snd (live (buckets_ m)).

Record Inv m : Prop := {
  inv_mask : 0 <= bucket_mask_ m < Z.of_nat (length (buckets_ m));
  inv_buckets : buckets_ok (buckets_ m);
  inv_valid : Forall (valid m) (live (buckets_ m));
  inv_idx : NoDup (map snd (contents m) ++ free_entry_indices_ m);
  inv_free : Forall (fun e => e < length (entries_ m))%nat (free_entry_indices_ m);
  inv_keys : NoDup (map (fun c => (entry_at m c.2).1) (contents m));
  inv_count : num_entries_ m = Z.of_nat (length (contents m));
  inv_cap : (2 <= length (entries_ m))%nat;
  inv_pow2 : exists p, length (buckets_ m) = (2 ^ p)%nat;
  inv_ok : Forall ok (map (fun c => (entry_at m c.2).1) (contents m)) }.

(** The finite map a table stands for. *)
Definition abs m : gmap K V := list_to_map (map (fun c => entry_at m c.2) (contents m)).

Lemma bucket_of_lt m h : Inv m -> (bucket_of m h < length (buckets_ m))%nat.
Proof.
  intros HI. destruct (inv_mask _ HI). unfold bucket_of.
  pose proof (land_le h (bucket_mask_ m)). lia.
Qed.

(** *** Moving one entry to an empty slot *)
Record moved m bs index i bs' : Prop := {
  mv_ok : buckets_ok bs';
  mv_len : length bs' = length bs;
  mv_hole : hv bs' index i = 0;
  mv_perm : map snd (live bs') ≡ₚ map snd (live bs);
  mv_valid : Forall (valid m) (live bs') }.

Lemma move_spec m bs index i alt j :
  buckets_ok bs -> (index < length bs)%nat -> (alt < length bs)%nat ->
  (i < kEntriesPerBucket)%nat -> (j < kEntriesPerBucket)%nat ->
  Forall (valid m) (live bs) -> hv bs alt j = 0 ->
  (hv bs index i <> 0 -> valid m (alt, (hv bs index i, ei bs index i))) ->
  moved m bs index i (move bs index i alt j).
Proof.
  intros Hok Hx Ha Hi Hj Hval Hz Hv. unfold move.
  set (h := hv bs index i) in *. set (e := ei bs index i) in *.
  set (bs1 := set_slot bs alt j h e).
  assert (Hok1 : buckets_ok bs1) by by apply buckets_ok_set_slot.
  assert (Hl1 : length bs1 = length bs) by apply length_set_slot.
  pose proof (live_set_slot bs alt j Hok Ha Hj h e Hz) as H1. fold bs1 in H1.
  pose proof (live_clear bs1 index i Hok1 ltac:(lia) Hi) as H2.
  assert (Hs : slot_live bs1 (index, i) = if h =? 0 then [] else [(index, (h, e))]).
  { unfold bs1. rewrite slot_live_set_slot by done. case_decide as Heq.
    - injection Heq as -> ->. unfold h in *. by rewrite Hz.
    - reflexivity. }
  rewrite Hs, H1 in H2. split.
  - apply buckets_ok_set_hash; lia || done.
  - by rewrite length_set_hash.
  - rewrite hv_set_hash by (lia || done). by rewrite decide_True.
  - destruct (Z.eqb_spec h 0); cbn [app] in H2; [by rewrite H2|].
    apply (Permutation_map snd) in H2. cbn in H2. by apply Permutation_cons_inv in H2.
  - destruct (Z.eqb_spec h 0) as [|Hne]; cbn [app] in H2; [by rewrite <- H2|].
    assert (Forall (valid m) ((alt, (h, e)) :: live bs)) as HF by (constructor; auto).
    rewrite H2 in HF. by inversion HF.
Qed.

Lemma hv_move bs index i alt j b' i' :
  buckets_ok bs -> (index < length bs)%nat -> (alt < length bs)%nat ->
  (i < kEntriesPerBucket)%nat -> (j < kEntriesPerBucket)%nat ->
  hv (move bs index i alt j) b' i' =
  if decide ((b', i') = (index, i)) then 0
  else if decide ((b', i') = (alt, j)) then hv bs index i else hv bs b' i'.
Proof.
  intros Hok Hx Ha Hi Hj. unfold move.
  rewrite hv_set_hash by (rewrite ?length_set_slot; done || by apply buckets_ok_set_slot).
  case_decide; [done|]. by rewrite hv_set_slot.
Qed.

Lemma ei_move bs index i alt j b' i' :
  buckets_ok bs -> (index < length bs)%nat -> (alt < length bs)%nat ->
  (i < kEntriesPerBucket)%nat -> (j < kEntriesPerBucket)%nat ->
  ei (move bs index i alt j) b' i' =
  if decide ((b', i') = (alt, j)) then ei bs index i else ei bs b' i'.
Proof.
  intros Hok Hx Ha Hi Hj. unfold move.
  rewrite ei_set_hash by (rewrite ?length_set_slot; done || by apply buckets_ok_set_slot).
  by rewrite ei_set_slot.
Qed.

(** *** MakeSpace

    What a call does to an occupied slot, by the number [rem] of levels left: the
    slot keeps its content or is emptied; from two levels on it may also receive
    an entry, which with exactly two levels is one that may sit in [index].  This
    is what makes the write-back after a recursive call safe for paths of at most
    three buckets, even when the path visits a bucket twice. *)
Definition kept m (rem index : nat) bs bs' : Prop :=
  forall b i, (b < length bs)%nat -> (i < kEntriesPerBucket)%nat -> hv bs b i <> 0 ->
    (hv bs' b i = hv bs b i /\ ei bs' b i = ei bs b i) \/ hv bs' b i = 0 \/
    ((2 <= rem)%nat /\ (rem = 2%nat -> valid m (index, (hv bs' b i, ei bs' b i)))).

Definition full bs (b : nat) : Prop :=
  forall i, (i < kEntriesPerBucket)%nat -> hv bs b i <> 0.

Definition ms_post m rem index bs (r : list Bucket * option nat) : Prop :=
  match r with
  | (bs', None) => bs' = bs
  | (bs', Some i) =>
      rem <> O /\ (i < kEntriesPerBucket)%nat /\ moved m bs index i bs' /\ kept m rem index bs bs'
  end.

Definition ms_spec m rem (rec : list Bucket -> nat -> list Bucket * option nat) : Prop :=
  forall bs index, buckets_ok bs -> length bs = length (buckets_ m) ->
    (index < length bs)%nat -> Forall (valid m) (live bs) -> full bs index ->
    ms_post m rem index bs (rec bs index).

Lemma occupied_valid m bs b i : Forall (valid m) (live bs) -> (b < length bs)%nat ->
  (i < kEntriesPerBucket)%nat -> hv bs b i <> 0 -> valid m (b, (hv bs b i, ei bs b i)).
Proof.
  intros HF Hb Hi Hne. rewrite Forall_forall in HF. apply HF.
  apply elem_of_live. exists i. by cbn.
Qed.

Lemma FindEmptySlot_None bs b : FindEmptySlot bs b = None -> full bs b.
Proof.
  intros Hf i Hi Hz. pose proof (find_slot_None _ i Hf Hi) as Hn. cbn in Hn.
  by rewrite Hz in Hn.
Qed.

Lemma FindEmptySlot_Some bs b j : FindEmptySlot bs b = Some j ->
  (j < kEntriesPerBucket)%nat /\ hv bs b j = 0.
Proof. intros [Hj Hz%Z.eqb_eq]%find_slot_Some. done. Qed.

Lemma moved_trans m bs bs1 bs2 b j index i :
  moved m bs b j bs1 -> moved m bs1 index i bs2 -> moved m bs index i bs2.
Proof. intros [] []. split; try done; etrans; done. Qed.

Lemma make_space_slots_spec m rem rec index bs todo :
  Inv m -> (rem <= 2)%nat -> ms_spec m rem rec -> buckets_ok bs ->
  length bs = length (buckets_ m) -> (index < length bs)%nat ->
  Forall (valid m) (live bs) -> full bs index ->
  Forall (fun i => i < kEntriesPerBucket)%nat todo ->
  ms_post m (S rem) index bs (make_space_slots hasher e0 m rec index todo bs).
Proof.
  intros HI Hrem Hrec Hok Hlen Hx Hval Hfull Htodo.
  induction Htodo as [|i todo Hi Htodo IH]; [done|]. cbn [make_space_slots].
  pose proof (Hfull i Hi) as Hne.
  pose proof (occupied_valid m bs index i Hval Hx Hi Hne) as Hv.
  destruct Hv as (He & Hh & Hb). rewrite <- Hh, Z.eqb_refl.
  set (h := hv bs index i) in *. set (alt := bucket_of m (HashSecondary h)).
  assert (Halt : (alt < length bs)%nat) by (rewrite Hlen; by apply bucket_of_lt).
  destruct (FindEmptySlot bs alt) as [j|] eqn:Hfind.
  - apply FindEmptySlot_Some in Hfind as [Hj Hz]. split; [done|]. split; [done|].
    assert (forall b' i', hv bs b' i' <> 0 -> (b', i') <> (alt, j)) as Hnaj by congruence.
    split.
    + apply move_spec; try done. intros _. split; [done|]. split; [done|by right].
    + intros b' i' Hb' Hi' Hne'. rewrite hv_move, ei_move by done.
      rewrite (decide_False (P := (b', i') = (alt, j))) by auto.
      case_decide; [by right; left|]. left. by rewrite (decide_False (P := (b', i') = (alt, j))) by auto.
  - pose proof (Hrec bs alt Hok Hlen Halt Hval (FindEmptySlot_None _ _ Hfind)) as Hpost.
    destruct (rec bs alt) as [bs1 [j|]]; [|by rewrite Hpost].
    destruct Hpost as (Hrem0 & Hj & Hmv & Hkept). destruct Hmv as [Hok1 Hl1 Hz1 Hp1 Hv1] eqn:Hmv0.
    clear Hmv0. pose proof (Hkept index i Hx Hi Hne) as Hki. fold h in Hki.
    assert (Hvi : hv bs1 index i <> 0 -> valid m (alt, (hv bs1 index i, ei bs1 index i))).
    { intros Hne1. destruct Hki as [[-> ->]|[Hz|[Hr2 Hva]]]; [|done|apply Hva; lia].
      split; [done|]. split; [done|by right]. }
    split; [done|]. split; [done|]. split.
    + apply (moved_trans m bs bs1 _ alt j); [done|]. apply move_spec; try done; by rewrite Hl1.
    + intros b' i' Hb' Hi' Hne'. rewrite hv_move, ei_move by (done || by rewrite Hl1).
      case_decide as H1; [by right; left|]. case_decide as H2.
      * destruct (decide (rem = 2%nat)) as [->|]; [right; right; split; [lia|done]|].
        destruct Hki as [[Hh1 He1]|[Hz|[Hr2 _]]]; [|by right; left|lia].
        right; right. split; [lia|]. intros _. rewrite Hh1, He1. split; [done|]. by split.
      * destruct (Hkept b' i' Hb' Hi' Hne') as [?|[?|[Hr2 _]]]; [by left|by right; left|].
        right; right. split; [lia|]. intros Habs. lia.
Qed.

Lemma make_space_spec m rem : Inv m -> (rem <= kMaxCuckooPath)%nat ->
  ms_spec m rem (make_space hasher e0 m rem).
Proof.
  intros HI. induction rem as [|rem IH]; intros Hrem bs index Hok Hlen Hx Hval Hfull; [done|].
  cbn [make_space]. apply make_space_slots_spec; try done; [unfold kMaxCuckooPath in Hrem; lia| |].
  - apply IH. lia.
  - apply Forall_forall. intros i. apply elem_of_slot_indices.
Qed.

(** *** Contents up to reordering *)
Definition keys m : list K := map (fun c => (entry_at m c.2).1) (contents m).

Lemma keys_fst m : keys m = map fst (map (fun c => entry_at m c.2) (contents m)).
Proof. unfold keys. by rewrite map_map. Qed.

Lemma abs_None m key : abs m !! key = None <-> key ∉ keys m.
Proof. unfold abs. rewrite keys_fst. symmetry. apply not_elem_of_list_to_map. Qed.

Lemma abs_Some m key v : Inv m ->
  abs m !! key = Some v <-> exists c, c ∈ contents m /\ entry_at m c.2 = (key, v).
Proof.
  intros HI. unfold abs. rewrite <- elem_of_list_to_map.
  - rewrite list_elem_of_In, in_map_iff. setoid_rewrite <- list_elem_of_In.
    split; intros (c & ? & ?); by exists c.
  - pose proof (inv_keys m HI) as Hk. by rewrite <- (map_map _ fst) in Hk.
Qed.

Lemma abs_perm m l : Inv m -> contents m ≡ₚ l ->
  abs m = list_to_map (map (fun c => entry_at m c.2) l).
Proof.
  intros HI Hp. apply list_to_map_proper; [|by apply Permutation_map].
  pose proof (inv_keys m HI) as Hk. by rewrite <- (map_map _ fst) in Hk.
Qed.

Lemma contents_valid m c : Inv m -> c ∈ contents m ->
  exists b, (b, c) ∈ live (buckets_ m) /\ valid m (b, c).
Proof.
  intros HI Hc. apply list_elem_of_In, in_map_iff in Hc as ([b c'] & <- & Hin%list_elem_of_In).
  exists b. split; [done|]. pose proof (inv_valid m HI) as HF. rewrite Forall_forall in HF. by apply HF.
Qed.

Lemma Inv_moved m bs' index i : Inv m -> moved m (buckets_ m) index i bs' ->
  Inv (with_buckets m bs') /\ abs (with_buckets m bs') = abs m.
Proof.
  intros HI [Hok Hlen Hz Hp Hv].
  assert (Hc : contents (with_buckets m bs') ≡ₚ contents m) by done.
  split.
  - destruct HI. split; cbn; try done.
    + by rewrite Hlen.
    + by rewrite Hc.
    + change (fun c : Z * nat => (entry_at (with_buckets m bs') c.2).1)
        with (fun c : Z * nat => (entry_at m c.2).1). by rewrite Hc.
    + by rewrite Hc.
    + by rewrite Hlen.
    + change (fun c : Z * nat => (entry_at (with_buckets m bs') c.2).1)
        with (fun c : Z * nat => (entry_at m c.2).1). by rewrite Hc.
  - unfold abs at 1. symmetry. apply (abs_perm m); done.
Qed.

Lemma MakeSpace_spec m index : Inv m -> (index < length (buckets_ m))%nat ->
  full (buckets_ m) index ->
  exists m' r, MakeSpace hasher e0 m index 0 = (m', r) /\ Inv m' /\ abs m' = abs m /\
    bucket_mask_ m' = bucket_mask_ m /\
    match r with Some _ => exists j, FindEmptySlot (buckets_ m') index = Some j | None => m' = m end.
Proof.
  intros HI Hx Hfull. unfold MakeSpace. rewrite Nat.sub_0_r.
  pose proof (make_space_spec m kMaxCuckooPath HI (le_n _) (buckets_ m) index
    (inv_buckets m HI) eq_refl Hx (inv_valid m HI) Hfull) as Hpost.
  destruct (make_space hasher e0 m kMaxCuckooPath (buckets_ m) index) as [bs' [i|]].
  - destruct Hpost as (_ & Hi & Hmv & _). destruct (Inv_moved m bs' index i HI Hmv) as [HI' Habs].
    eexists _, (Some i). split; [done|]. split; [done|]. split; [done|]. split; [done|]. cbn.
    destruct (FindEmptySlot bs' index) as [j|] eqn:Hf; [by exists j|].
    exfalso. apply (FindEmptySlot_None _ _ Hf i Hi). apply Hmv.
  - cbn in Hpost. subst bs'. exists m, None. split; [by destruct m|]. done.
Qed.

(** *** Adding to a bucket *)
Lemma PopFree_spec m : Inv m ->
  exists m1 idx, PopFreeEntryIndex e0 m = Some (m1, idx) /\
    buckets_ m1 = buckets_ m /\ bucket_mask_ m1 = bucket_mask_ m /\
    num_entries_ m1 = num_entries_ m /\
    (exists ext, entries_ m1 = entries_ m ++ ext) /\ (idx < length (entries_ m1))%nat /\
    NoDup (idx :: map snd (contents m) ++ free_entry_indices_ m1) /\
    Forall (fun e => e < length (entries_ m1))%nat (free_entry_indices_ m1).
Proof.
  intros HI. unfold PopFreeEntryIndex.
  pose proof (inv_idx m HI) as Hnd. pose proof (inv_free m HI) as Hfree.
  destruct (free_entry_indices_ m) as [|idx rest] eqn:Hf.
  - pose proof (inv_cap m HI) as Hcap. unfold ExpandEntries; cbn [free_entry_indices_].
    set (n := length (entries_ m)) in *. rewrite Hf, app_nil_r in *.
    assert (Hd : (1 <= n / 2)%nat) by (apply (Nat.div_le_lower_bound n 2 1); lia).
    replace (n + n / 2 - n)%nat with (n / 2)%nat by lia.
    destruct (n / 2)%nat as [|d] eqn:Hdd; [lia|]. cbn [seq app].
    do 2 eexists. split; [done|]. cbn [buckets_ bucket_mask_ num_entries_ entries_ free_entry_indices_].
    do 3 (split; [done|]). split; [by eexists|].
    rewrite length_app, length_replicate. fold n. split; [lia|].
    assert (Hlt : forall e, e ∈ map snd (contents m) -> (e < n)%nat).
    { intros e (c & <- & Hc%list_elem_of_In)%list_elem_of_In%in_map_iff.
      by destruct (contents_valid m c HI Hc) as (b & _ & Hv); destruct c; destruct Hv. }
    split; [|apply Forall_forall; intros e (? & ?)%list_elem_of_In%in_seq; lia].
    apply NoDup_cons. split.
    + intros [Hin%Hlt|Hin%list_elem_of_In%in_seq]%elem_of_app; lia.
    + apply NoDup_app. split; [done|]. split; [|apply NoDup_ListNoDup, seq_NoDup].
      intros e Hin%Hlt Hs%list_elem_of_In%in_seq. lia.
  - rewrite Hf. do 2 eexists. split; [done|]. cbn [buckets_ bucket_mask_ num_entries_ entries_ free_entry_indices_].
    do 3 (split; [done|]). split; [exists []; by rewrite app_nil_r|].
    inversion Hfree; subst. split; [done|]. split; [|done].
    by rewrite <- Permutation_middle in Hnd.
Qed.

Lemma entry_at_ext m m1 e : (exists ext, entries_ m1 = entries_ m ++ ext) ->
  (e < length (entries_ m))%nat -> entry_at m1 e = entry_at m e.
Proof. intros [ext Hext] He. unfold CuckooMap.entry_at. by rewrite Hext, app_nth1. Qed.

(** A pointer to entry [idx] is one to the live entry [e]. *)
Definition points m (idx : nat) (e : K * V) : Prop :=
  (Hash e.1, idx) ∈ contents m /\ entry_at m idx = e.

Definition may_sit m (b : nat) (key : K) : Prop :=
  b = bucket_of m (Hash key) \/ b = bucket_of m (HashSecondary (Hash key)).

Lemma AddToBucket_spec m b key value : Inv m -> ok key -> may_sit m b key -> abs m !! key = None ->
  (AddToBucket hasher e0 m b key value = Some (m, None) /\ full (buckets_ m) b) \/
  (exists m' idx, AddToBucket hasher e0 m b key value = Some (m', Some idx) /\ Inv m' /\
     abs m' = <[key := value]> (abs m) /\ points m' idx (key, value)).
Proof.
  intros HI Hok Hb Hkey. unfold AddToBucket.
  assert (Hblt : (b < length (buckets_ m))%nat) by (destruct Hb as [-> | ->]; by apply bucket_of_lt).
  destruct (FindEmptySlot (buckets_ m) b) as [j|] eqn:Hf; [right|left; split; [done|by apply FindEmptySlot_None]].
  apply FindEmptySlot_Some in Hf as [Hj Hz].
  destruct (PopFree_spec m HI) as (m1 & idx & -> & Hbs & Hmask & Hnum & Hext & Hidx & Hnd & Hfree).
  cbn [mbind option_bind]. set (m' := Mk _ _ _ _ _). exists m', idx. split; [done|].
  apply NoDup_cons in Hnd as [Hni Hnd].
  assert (Hlive : live (buckets_ m') ≡ₚ (b, (Hash key, idx)) :: live (buckets_ m)).
  { unfold m'; cbn [buckets_]. rewrite Hbs, live_set_slot by (done || apply (inv_buckets m HI)).
    by rewrite (proj2 (Z.eqb_neq _ _)) by apply Hash_nonzero. }
  assert (Hc : contents m' ≡ₚ (Hash key, idx) :: contents m).
  { unfold contents. by rewrite Hlive. }
  assert (Hnew : entry_at m' idx = (key, value)).
  { unfold CuckooMap.entry_at. cbn. rewrite nth_insert by done. by rewrite decide_True. }
  assert (Hold : forall c, c ∈ contents m -> entry_at m' c.2 = entry_at m c.2).
  { intros c Hc'. rewrite <- (entry_at_ext m m1); [|done|].
    - unfold CuckooMap.entry_at. cbn. rewrite nth_insert by done. rewrite decide_False; [done|].
      intros <-. apply Hni. apply elem_of_app. left. by apply list_elem_of_In, in_map, list_elem_of_In.
    - destruct (contents_valid m c HI Hc') as (b' & _ & Hv). by destruct c; destruct Hv. }
  assert (Hlen : (length (entries_ m) <= length (entries_ m'))%nat).
  { cbn. rewrite length_insert. destruct Hext as [ext ->]. rewrite length_app. lia. }
  assert (Hmap : forall {A} (f : K * V -> A),
    map (fun c => f (entry_at m' c.2)) (contents m') ≡ₚ
    f (key, value) :: map (fun c => f (entry_at m c.2)) (contents m)).
  { intros A f. rewrite Hc. cbn [map snd]. rewrite Hnew.
    erewrite (map_ext_in (fun c => f (entry_at m' c.2))); [done|].
    intros c Hin%list_elem_of_In. by rewrite Hold. }
  assert (HI' : Inv m').
  { destruct HI as [I1 I2 I3 I4 I5 I6 I7 I8 I9 I10]. split.
    - cbn. rewrite Hbs, length_set_slot, Hmask. done.
    - cbn. rewrite Hbs. by apply buckets_ok_set_slot.
    - rewrite Hlive. constructor.
      + split; [cbn; rewrite length_insert; done|]. rewrite Hnew. split; [done|].
        unfold bucket_of. cbn. rewrite Hmask. exact Hb.
      + rewrite Forall_forall in I3 |- *. intros [b' c] Hin.
        assert (c ∈ contents m) as Hcin
          by (apply list_elem_of_In, in_map_iff; exists (b', c); split; [done|by apply list_elem_of_In]).
        specialize (I3 _ Hin). specialize (Hold c Hcin). destruct c as [h e]; cbn [snd] in Hold.
        destruct I3 as (He & Hh & Hbb). split; [lia|]. rewrite Hold. split; [done|].
        unfold bucket_of in *. cbn. by rewrite Hmask.
    - rewrite Hc. cbn [map app snd free_entry_indices_]. apply NoDup_cons. split; [done|]. done.
    - cbn. by rewrite length_insert.
    - rewrite (Hmap K fst). apply NoDup_cons. split; [|done]. by apply abs_None.
    - cbn [num_entries_ m']. rewrite Hnum, I7. rewrite (Permutation_length Hc). cbn. lia.
    - lia.
    - cbn. by rewrite Hbs, length_set_slot.
    - rewrite (Hmap K fst). by constructor. }
  split; [done|]. split; [|split; [rewrite Hc; left|done]].
  rewrite (abs_perm m' _ HI' Hc). cbn [map snd]. rewrite Hnew, list_to_map_cons. cbn [fst snd].
  unfold abs. do 2 f_equal. apply map_ext_in. intros c Hin%list_elem_of_In. by apply Hold.
Qed.

(** *** Finding *)
Lemma slot_contents m b i : (b < length (buckets_ m))%nat -> (i < kEntriesPerBucket)%nat ->
  hv (buckets_ m) b i <> 0 -> (hv (buckets_ m) b i, ei (buckets_ m) b i) ∈ contents m.
Proof.
  intros Hb Hi Hne. apply list_elem_of_In, in_map_iff.
  exists (b, (hv (buckets_ m) b i, ei (buckets_ m) b i)). split; [done|].
  apply list_elem_of_In, elem_of_live. exists i. by cbn.
Qed.

Lemma contents_ok m c : Inv m -> c ∈ contents m -> ok (entry_at m c.2).1.
Proof.
  intros HI Hc. pose proof (inv_ok m HI) as HF. rewrite Forall_forall in HF. apply HF.
  apply list_elem_of_In, in_map_iff. exists c. split; [done|by apply list_elem_of_In].
Qed.

Lemma FindSlot_Some m b h key i : Inv m -> (b < length (buckets_ m))%nat -> ok key -> h <> 0 ->
  FindSlot eq e0 m b h key = Some i ->
  (i < kEntriesPerBucket)%nat /\ hv (buckets_ m) b i = h /\
  (entry_at m (ei (buckets_ m) b i)).1 = key.
Proof.
  intros HI Hb Hok Hne [Hi [Hh%Z.eqb_eq Hk]%andb_true_iff]%find_slot_Some.
  split; [done|]. split; [done|]. apply eq_spec in Hk; [done| |done].
  apply (contents_ok m (hv (buckets_ m) b i, ei (buckets_ m) b i)); [done|].
  apply slot_contents; [done|done|by rewrite Hh].
Qed.

Lemma FindSlot_complete m b h key : Inv m -> h <> 0 ->
  (exists e, (b, (h, e)) ∈ live (buckets_ m) /\ (entry_at m e).1 = key) ->
  exists i, FindSlot eq e0 m b h key = Some i.
Proof.
  intros HI Hh (e & Hlive & Hk). assert (Hok : ok key).
  { rewrite <- Hk. apply (contents_ok m (h, e)); [done|].
    apply list_elem_of_In, in_map_iff. exists (b, (h, e)). split; [done|by apply list_elem_of_In]. }
  apply elem_of_live in Hlive as (i & Hb & Hi & Hne & Heq). cbn in *.
  injection Heq as -> ->. destruct (FindSlot eq e0 m b (hv (buckets_ m) b i) key) as [i'|] eqn:Hf; [by exists i'|].
  pose proof (find_slot_None _ i Hf Hi) as Hn. cbn in Hn.
  rewrite Z.eqb_refl in Hn. rewrite Hk in Hn. by rewrite (proj2 (eq_spec _ _ Hok Hok)) in Hn.
Qed.

Lemma GetFromBucket_Some m b key idx : Inv m -> ok key -> (b < length (buckets_ m))%nat ->
  GetFromBucket eq e0 m (Hash key) b key = Some idx ->
  (Hash key, idx) ∈ contents m /\ (entry_at m idx).1 = key.
Proof.
  unfold GetFromBucket. intros HI Hok Hb Hg.
  destruct (FindSlot eq e0 m b (Hash key) key) as [i|] eqn:Hf; [|done]. injection Hg as <-.
  apply FindSlot_Some in Hf as (Hi & Hh & Hk); [|done|done|done|apply Hash_nonzero].
  split; [|done]. rewrite <- Hh at 1.
  apply slot_contents; [done|done|]. rewrite Hh. apply Hash_nonzero.
Qed.

(** The index found for a key is that of the only entry with this key. *)
Lemma FindWithHash_spec m key : Inv m -> ok key ->
  match FindWithHash eq e0 m (Hash key) key with
  | Some idx => (Hash key, idx) ∈ contents m /\ (entry_at m idx).1 = key
  | None => key ∉ keys m
  end.
Proof.
  intros HI Hok. unfold FindWithHash. pose proof (fun h => bucket_of_lt m h HI) as Hlt.
  destruct (GetFromBucket _ _ _ _ (bucket_of m (Hash key)) key) as [idx|] eqn:H1;
    [by eapply GetFromBucket_Some|].
  destruct (GetFromBucket _ _ _ _ (bucket_of m (HashSecondary _)) key) as [idx|] eqn:H2;
    [by eapply GetFromBucket_Some|].
  intros (c & Hck & Hc%list_elem_of_In)%list_elem_of_In%in_map_iff.
  destruct (contents_valid m c HI Hc) as (b & Hin & Hv). destruct c as [h e].
  destruct Hv as (_ & Hh & Hb). cbn [snd] in Hck. rewrite Hck in Hh. subst h.
  destruct (FindSlot_complete m b (Hash key) key HI (Hash_nonzero key) ltac:(by eauto)) as (i & Hf).
  unfold GetFromBucket in H1, H2. destruct Hb as [-> | ->]; by rewrite Hf in *.
Qed.

Lemma Find_abs m key : Inv m -> ok key -> snd <$> Find hasher eq e0 m key = abs m !! key.
Proof.
  intros HI Hok. unfold Find. pose proof (FindWithHash_spec m key HI Hok) as Hf.
  destruct (FindWithHash _ _ _ _ _) as [idx|]; cbn.
  - destruct Hf as [Hin Hk]. symmetry. apply abs_Some; [done|]. eexists. split; [done|].
    cbn. rewrite <- Hk. by destruct (entry_at m idx).
  - symmetry. by apply abs_None.
Qed.

(** Keys that hash and compare alike are found alike. *)
Lemma Find_ext m k k' : hasher k = hasher k' -> (forall x, eq x k = eq x k') ->
  Find hasher eq e0 m k = Find hasher eq e0 m k'.
Proof.
  intros Hh He. unfold Find, FindWithHash, GetFromBucket, FindSlot, CuckooMap.Hash. rewrite Hh.
  assert (forall b h, find (fun i => (hv (buckets_ m) b i =? h) && eq (entry_at m (ei (buckets_ m) b i)).1 k)
      slot_indices = find (fun i => (hv (buckets_ m) b i =? h) && eq (entry_at m (ei (buckets_ m) b i)).1 k')
      slot_indices) as Hf; [|by rewrite !Hf].
  intros b h. induction slot_indices as [|i l IH]; cbn; [done|]. by rewrite He, IH.
Qed.

(** *** AddEntry: two rounds are enough *)
Lemma AddEntry_spec m key value : Inv m -> ok key -> abs m !! key = None ->
  exists m' r, AddEntry hasher e0 2 m (Hash key) (HashSecondary (Hash key)) key value = Some (m', r) /\
    Inv m' /\
    match r with
    | Some idx => abs m' = <[key := value]> (abs m) /\ points m' idx (key, value)
    | None => m' = m
    end.
Proof.
  intros HI Hok Hk.
  (* a bucket of the key that has an empty slot takes the entry at once *)
  assert (Hnow : forall fuel m1, Inv m1 -> abs m1 = abs m ->
    (exists b j, may_sit m1 b key /\ FindEmptySlot (buckets_ m1) b = Some j) ->
    exists m' idx, AddEntry hasher e0 (S fuel) m1 (Hash key) (HashSecondary (Hash key)) key value
      = Some (m', Some idx) /\ Inv m' /\ abs m' = <[key := value]> (abs m) /\
      points m' idx (key, value)).
  { intros fuel m1 HI1 Habs (b & j & Hb & Hfree). cbn [AddEntry]. rewrite <- Habs in Hk |- *.
    destruct (AddToBucket_spec m1 (bucket_of m1 (Hash key)) key value HI1 Hok ltac:(by left) Hk)
      as [[-> Hfull]|(m' & idx & -> & ? & ? & ?)]; cbn [mbind option_bind]; [|by exists m', idx].
    destruct (AddToBucket_spec m1 (bucket_of m1 (HashSecondary (Hash key))) key value HI1 Hok ltac:(by right) Hk)
      as [[-> Hfull']|(m' & idx & -> & ? & ? & ?)]; cbn [mbind option_bind]; [|by exists m', idx].
    apply FindEmptySlot_Some in Hfree as [Hj Hz]. exfalso.
    destruct Hb as [-> | ->]; [by apply (Hfull j)|by apply (Hfull' j)]. }
  cbn [AddEntry].
  destruct (AddToBucket_spec m (bucket_of m (Hash key)) key value HI Hok ltac:(by left) Hk)
    as [[-> Hfull]|(m' & idx & -> & ? & ? & ?)]; cbn [mbind option_bind]; [|by exists m', (Some idx)].
  destruct (AddToBucket_spec m (bucket_of m (HashSecondary (Hash key))) key value HI Hok ltac:(by right) Hk)
    as [[-> Hfull']|(m' & idx & -> & ? & ? & ?)]; cbn [mbind option_bind]; [|by exists m', (Some idx)].
  destruct (MakeSpace_spec m _ HI (bucket_of_lt m (Hash key) HI) Hfull)
    as (m1 & [i|] & -> & HI1 & Habs1 & Hmask1 & Hr).
  { destruct Hr as [j Hj]. destruct (Hnow O m1 HI1 Habs1) as (m' & idx & Ha & ? & ? & ?).
    { exists (bucket_of m (Hash key)), j. split; [|done]. left. unfold bucket_of. by rewrite Hmask1. }
    exists m', (Some idx). by rewrite <- Ha. }
  subst m1.
  destruct (MakeSpace_spec m _ HI (bucket_of_lt m (HashSecondary (Hash key)) HI) Hfull')
    as (m1 & [i|] & -> & HI2 & Habs2 & Hmask2 & Hr).
  { destruct Hr as [j Hj]. destruct (Hnow O m1 HI2 Habs2) as (m' & idx & Ha & ? & ? & ?).
    { exists (bucket_of m (HashSecondary (Hash key))), j. split; [|done]. right.
      unfold bucket_of. by rewrite Hmask2. }
    exists m', (Some idx). by rewrite <- Ha. }
  subst m1. exists m, None. done.
Qed.

(** *** Updating and removing *)
Lemma contents_key_inj m c c' : Inv m -> c ∈ contents m -> c' ∈ contents m ->
  (entry_at m c.2).1 = (entry_at m c'.2).1 -> c = c'.
Proof.
  intros HI. apply (NoDup_map_inj (fun c => (entry_at m c.2).1) (contents m)), (inv_keys m HI).
Qed.

Lemma contents_idx_inj m c c' : Inv m -> c ∈ contents m -> c' ∈ contents m -> c.2 = c'.2 -> c = c'.
Proof.
  intros HI. apply (NoDup_map_inj snd (contents m)).
  pose proof (inv_idx m HI) as Hi. by apply NoDup_app in Hi as [? _].
Qed.

Lemma entry_at_insert m mask n bs fr e idx e' : (e < length (entries_ m))%nat ->
  entry_at (Mk mask n bs (<[e := idx]> (entries_ m)) fr) e' =
  if decide (e' = e) then idx else entry_at m e'.
Proof. intros He. unfold CuckooMap.entry_at. cbn. by rewrite nth_insert. Qed.

Definition set_value m (idx : nat) (value : V) : t :=
  Mk (bucket_mask_ m) (num_entries_ m) (buckets_ m)
     (<[idx := ((entry_at m idx).1, value)]> (entries_ m)) (free_entry_indices_ m).

Lemma set_value_spec m key value idx : Inv m -> (Hash key, idx) ∈ contents m ->
  (entry_at m idx).1 = key ->
  Inv (set_value m idx value) /\ abs (set_value m idx value) = <[key := value]> (abs m) /\
  points (set_value m idx value) idx (key, value).
Proof.
  intros HI Hin Hk.
  assert (Hidx : (idx < length (entries_ m))%nat)
    by (destruct (contents_valid m _ HI Hin) as (b & _ & Hv); by destruct Hv).
  assert (Hent : forall e, entry_at (set_value m idx value) e =
    if decide (e = idx) then (key, value) else entry_at m e).
  { intros e. unfold set_value. rewrite entry_at_insert by done. by rewrite Hk. }
  assert (Hkey : forall e, (entry_at (set_value m idx value) e).1 = (entry_at m e).1).
  { intros e. rewrite Hent. case_decide; [by subst|done]. }
  assert (HI' : Inv (set_value m idx value)).
  { destruct HI as [I1 I2 I3 I4 I5 I6 I7 I8 I9 I10]. split; cbn [set_value]; try done.
    - rewrite Forall_forall in I3 |- *. intros [b [h e]] Hl. specialize (I3 _ Hl).
      destruct I3 as (He & Hh & Hb). split; [cbn; by rewrite length_insert|].
      split; [by rewrite Hkey|done].
    - cbn. by rewrite length_insert.
    - erewrite map_ext; [exact I6|]. intros c. apply Hkey.
    - cbn. by rewrite length_insert.
    - erewrite map_ext; [exact I10|]. intros c. apply Hkey. }
  split; [done|]. split; [|by split; [|rewrite Hent, decide_True]].
  apply map_eq. intros k. apply option_eq. intros v. rewrite (abs_Some _ _ _ HI').
  change (contents (set_value m idx value)) with (contents m).
  rewrite lookup_insert. case_decide as Hkk.
  - subst k. split.
    + intros (c & Hc & Hce). rewrite Hent in Hce. case_decide as Hd; [congruence|].
      exfalso. apply Hd. change idx with ((Hash key, idx).2). f_equal.
      apply (contents_key_inj m); [done|done|done|]. cbn [snd]. by rewrite Hce, Hk.
    + intros [= <-]. exists (Hash key, idx). split; [done|]. cbn [snd]. by rewrite Hent, decide_True.
  - rewrite (abs_Some _ _ _ HI). split; intros (c & Hc & Hce); exists c; (split; [done|]).
    + rewrite Hent in Hce. case_decide; congruence.
    + rewrite Hent. case_decide as Hd; [|done]. subst idx. rewrite Hce in Hk. by cbn in Hk.
Qed.

Lemma RemoveFromBucket_spec m b key : Inv m -> ok key -> (b < length (buckets_ m))%nat ->
  match RemoveFromBucket eq e0 m (Hash key) b key with
  | (m', true) => Inv m' /\ is_Some (abs m !! key) /\ abs m' = delete key (abs m) /\
      (forall i e, points m i e -> e.1 <> key -> points m' i e)
  | (m', false) => m' = m /\ FindSlot eq e0 m b (Hash key) key = None
  end.
Proof.
  intros HI Hok Hb. unfold RemoveFromBucket.
  destruct (FindSlot eq e0 m b (Hash key) key) as [i|] eqn:Hf; [|done].
  apply FindSlot_Some in Hf as (Hi & Hh & Hk); [|done|done|done|apply Hash_nonzero].
  assert (Hne : hv (buckets_ m) b i <> 0) by (rewrite Hh; apply Hash_nonzero).
  rewrite ei_set_hash by (done || by apply inv_buckets). set (idx := ei (buckets_ m) b i) in *.
  pose proof (slot_contents m b i Hb Hi Hne) as Hin. rewrite Hh in Hin. fold idx in Hin.
  assert (Hidx : (idx < length (entries_ m))%nat)
    by (destruct (contents_valid m _ HI Hin) as (b' & _ & Hv); by destruct Hv).
  unfold PushFreeEntryIndex; cbn [bucket_mask_ num_entries_ buckets_ entries_ free_entry_indices_].
  set (m' := Mk _ _ _ _ _).
  pose proof (live_clear (buckets_ m) b i (inv_buckets m HI) Hb Hi) as Hlive.
  unfold slot_live in Hlive; cbn [fst snd] in Hlive.
  rewrite (proj2 (Z.eqb_neq _ _)) in Hlive by done. fold idx in Hlive. rewrite Hh in Hlive.
  assert (Hc : contents m ≡ₚ (Hash key, idx) :: contents m').
  { unfold contents. by rewrite Hlive. }
  assert (Hnd : NoDup (idx :: map snd (contents m') ++ free_entry_indices_ m)).
  { pose proof (inv_idx m HI) as Hn. by rewrite Hc in Hn. }
  assert (Hent : forall c, c ∈ contents m' -> entry_at m' c.2 = entry_at m c.2).
  { intros c Hcin. unfold m'. rewrite entry_at_insert by done. rewrite decide_False; [done|].
    intros Heq. apply NoDup_cons in Hnd as [Hn _]. apply Hn, elem_of_app. left.
    rewrite <- Heq. by apply list_elem_of_In, in_map, list_elem_of_In. }
  assert (Hkeys : NoDup (key :: map (fun c => (entry_at m c.2).1) (contents m'))).
  { pose proof (inv_keys m HI) as Hn. rewrite Hc in Hn. cbn [map snd] in Hn. by rewrite Hk in Hn. }
  assert (Hmap : forall {A} (f : K * V -> A), map (fun c => f (entry_at m' c.2)) (contents m') =
    map (fun c => f (entry_at m c.2)) (contents m')).
  { intros A f. apply map_ext_in. intros c Hcin%list_elem_of_In. by rewrite Hent. }
  split; [|split].
  - destruct HI as [I1 I2 I3 I4 I5 I6 I7 I8 I9 I10]. split.
    + cbn. by rewrite length_set_hash.
    + cbn. by apply buckets_ok_set_hash.
    + rewrite Forall_forall in I3 |- *. intros [b' c] Hl.
      assert (c ∈ contents m') as Hcin
        by (apply list_elem_of_In, in_map_iff; exists (b', c); split; [done|by apply list_elem_of_In]).
      assert ((b', c) ∈ live (buckets_ m)) as Hl' by (rewrite Hlive; by apply elem_of_cons; right).
      specialize (I3 _ Hl'). specialize (Hent c Hcin). destruct c as [h e]. cbn [snd] in Hent.
      destruct I3 as (He & Hhe & Hbb). split; [cbn; by rewrite length_insert|].
      by rewrite Hent.
    + cbn [free_entry_indices_ m']. by rewrite <- Permutation_middle.
    + cbn. rewrite length_insert. by constructor.
    + rewrite (Hmap K fst). by apply NoDup_cons in Hkeys as [_ ?].
    + cbn [num_entries_ m']. rewrite I7, (Permutation_length Hc). cbn. lia.
    + cbn. by rewrite length_insert.
    + cbn. by rewrite length_set_hash.
    + rewrite (Hmap K fst). rewrite Hc in I10. by apply Forall_cons in I10 as [_ ?].
  - exists (entry_at m idx).2. apply abs_Some; [done|]. exists (Hash key, idx). split; [done|].
    cbn. rewrite <- Hk. by destruct (entry_at m idx).
  - split; [|intros i' e [He <-] Hne'; rewrite Hc in He; apply elem_of_cons in He as [[= _ ->]|He]; [done|];
      split; [done|by apply (Hent _ He)]].
    rewrite (abs_perm m _ HI Hc). cbn [map snd]. rewrite (surjective_pairing (entry_at m idx)), list_to_map_cons, Hk.
    rewrite delete_insert_id.
    + unfold abs. f_equal. apply (Hmap _ (fun e => e)).
    + apply not_elem_of_list_to_map. rewrite map_map. by apply NoDup_cons in Hkeys as [? _].
Qed.

Lemma Remove_spec m key : Inv m -> ok key ->
  let '(m', ok) := Remove hasher eq e0 m key in
  Inv m' /\ abs m' = delete key (abs m) /\ ok = bool_decide (is_Some (abs m !! key)) /\
  (forall i e, points m i e -> e.1 <> key -> points m' i e).
Proof.
  intros HI Hok. unfold Remove. pose proof (fun h => bucket_of_lt m h HI) as Hlt.
  pose proof (RemoveFromBucket_spec m (bucket_of m (Hash key)) key HI Hok (Hlt _)) as H1.
  destruct (RemoveFromBucket _ _ m _ (bucket_of m (Hash key)) key) as [m1 [|]].
  { destruct H1 as (? & Hs & ? & ?). split; [done|]. split; [done|]. by rewrite bool_decide_true. }
  destruct H1 as [-> Hn1].
  pose proof (RemoveFromBucket_spec m (bucket_of m (HashSecondary (Hash key))) key HI Hok (Hlt _)) as H2.
  destruct (RemoveFromBucket _ _ m _ _ key) as [m2 [|]].
  { destruct H2 as (? & Hs & ? & ?). split; [done|]. split; [done|]. by rewrite bool_decide_true. }
  destruct H2 as [-> Hn2].
  assert (abs m !! key = None) as Hnone.
  { apply abs_None. pose proof (FindWithHash_spec m key HI Hok) as Hf.
    unfold FindWithHash, GetFromBucket in Hf. by rewrite Hn1, Hn2 in Hf. }
  split; [done|]. split; [by rewrite delete_id|]. rewrite Hnone. split; [by rewrite bool_decide_false by (by intros [])|done].
Qed.

(** *** Fresh tables *)
Lemma live_fresh n : live (replicate n empty_bucket) = [].
Proof.
  apply elem_of_nil_inv. intros x (i & Hb & Hi & Hne & _)%elem_of_live. apply Hne.
  unfold hv. assert (bucket_at (replicate n empty_bucket) x.1 = empty_bucket) as ->.
  { unfold bucket_at. rewrite nth_lookup.
    destruct (replicate n empty_bucket !! x.1) eqn:Hl; [|done].
    by apply lookup_replicate_1 in Hl as [-> _]. }
  cbn. by do 5 (destruct i; [done|]).
Qed.

Lemma Inv_fresh mask n k : 0 <= mask < Z.of_nat n -> (2 <= k)%nat -> (exists p, n = 2 ^ p)%nat ->
  let m := Mk mask 0 (replicate n empty_bucket) (replicate k e0) (seq 0 k) in
  Inv m /\ abs m = ∅.
Proof.
  intros Hmask Hk Hp m.
  assert (Hl : live (buckets_ m) = []) by apply live_fresh.
  assert (Hc : contents m = []) by (unfold contents; by rewrite Hl).
  split; [|unfold abs; by rewrite Hc].
  split; rewrite ?Hc, ?Hl; cbn [map app length m bucket_mask_ num_entries_ buckets_ entries_
    free_entry_indices_].
  - by rewrite length_replicate.
  - apply Forall_replicate. done.
  - constructor.
  - apply NoDup_ListNoDup, seq_NoDup.
  - rewrite length_replicate. apply Forall_forall. intros e (? & ?)%list_elem_of_In%in_seq. lia.
  - constructor.
  - done.
  - by rewrite length_replicate.
  - by rewrite length_replicate.
  - constructor.
Qed.

Lemma make_spec n k : (2 <= k)%nat -> (exists p, n = 2 ^ p)%nat ->
  Inv (make e0 n k) /\ abs (make e0 n k) = ∅.
Proof.
  intros Hk [p Hp]. apply Inv_fresh; [|done|by exists p].
  assert (1 <= n)%nat by (pose proof (Nat.pow_nonzero 2 p); lia). word.
Qed.

Lemma Clear_spec m : Inv (Clear e0 m) /\ abs (Clear e0 m) = ∅.
Proof. apply (Inv_fresh 3 4 16); [lia|lia|by exists 2%nat]. Qed.

(** *** Expansion and insertion *)
Lemma slot_entries m p : map (fun p => entry_at m (ei (buckets_ m) p.1 p.2))
    (filter (fun p => hv (buckets_ m) p.1 p.2 <> 0) [p]) =
  map (fun x => entry_at m x.2.2) (slot_live (buckets_ m) p).
Proof.
  unfold slot_live. cbn [filter list_filter]. destruct (Z.eqb_spec (hv (buckets_ m) p.1 p.2) 0).
  - by rewrite decide_False by tauto.
  - by rewrite decide_True.
Qed.

Lemma iter_entries_contents m : iter_entries e0 m = map (fun c => entry_at m c.2) (contents m).
Proof.
  unfold contents. rewrite map_map. unfold iter_entries, live, all_slots.
  fold (slots_of (length (buckets_ m))). induction (slots_of (length (buckets_ m))) as [|p l IH]; [done|].
  change (p :: l) with ([p] ++ l). rewrite filter_app, map_app, IH, slot_entries.
  rewrite (map_app (slot_live (buckets_ m)) [p] l), concat_app, map_app. cbn [map concat].
  by rewrite app_nil_r.
Qed.

Lemma size_abs m : Inv m -> size (abs m) = length (contents m).
Proof.
  intros HI. unfold abs. rewrite <- size_dom, dom_list_to_map_L.
  pose proof (inv_keys m HI) as Hk.
  rewrite size_list_to_set by (by rewrite <- keys_fst).
  by rewrite !length_fmap.
Qed.

Definition insert_post (insert : t -> K -> V -> option (t * option nat)) m key value : Prop :=
  exists m' r, insert m key value = Some (m', r) /\ Inv m' /\
    match r with
    | Some idx => abs m' = <[key := value]> (abs m) /\ points m' idx (key, value)
    | None => abs m' = abs m
    end.

Lemma expand_from_spec insert m seen es bigger :
  Inv m -> Inv bigger -> map (fun c => entry_at m c.2) (contents m) ≡ₚ seen ++ es ->
  abs bigger = list_to_map seen ->
  (forall b k v, Inv b -> ok k -> (size (abs b) < length (contents m))%nat -> insert_post insert b k v) ->
  exists m', expand_from insert m es bigger = Some m' /\ Inv m' /\ abs m' = abs m.
Proof.
  intros HI HIb Hp Habs Hins.
  assert (Hnd : NoDup (map fst (seen ++ es))).
  { pose proof (inv_keys m HI) as Hk. rewrite <- (map_map _ fst) in Hk. by rewrite Hp in Hk. }
  revert seen bigger HIb Hp Habs Hnd. induction es as [|e es IH]; intros seen bigger HIb Hp Habs Hnd.
  - exists bigger. split; [done|]. split; [done|]. rewrite Habs, app_nil_r in *. symmetry.
    apply list_to_map_proper; [by rewrite Hp|done].
  - destruct e as [k v]. cbn [expand_from fst snd]. assert (Hok : ok k).
    { pose proof (inv_ok m HI) as HF. rewrite <- (map_map _ fst), Hp, Forall_forall in HF. apply HF.
      apply list_elem_of_In, in_map_iff. exists (k, v). split; [done|]. apply in_app_iff. right. by left. }
    destruct (Hins bigger k v HIb Hok) as (b' & r & -> & HIb' & Hr).
    { rewrite Habs. apply Permutation_length in Hp. rewrite length_map, length_app in Hp. cbn in Hp.
      pose proof Hnd as Hnd'. rewrite map_app in Hnd'. apply NoDup_app in Hnd' as (Hs & _ & _).
      rewrite <- size_dom, dom_list_to_map_L, size_list_to_set, length_fmap by done. lia. }
    cbn [mbind option_bind]. destruct r as [idx|]; [|by exists m].
    destruct Hr as [Hab' _]. apply (IH ((k, v) :: seen)); [done| | |].
    + rewrite Hp. by rewrite <- Permutation_middle.
    + by rewrite Hab', Habs.
    + rewrite <- Permutation_middle in Hnd. done.
Qed.

Lemma ExpandBuckets_spec insert m : Inv m ->
  (forall b k v, Inv b -> ok k -> (size (abs b) < length (contents m))%nat -> insert_post insert b k v) ->
  exists m', ExpandBuckets e0 insert m = Some m' /\ Inv m' /\ abs m' = abs m.
Proof.
  intros HI Hins. unfold ExpandBuckets.
  destruct (make_spec (length (buckets_ m) * 2) (length (entries_ m))) as [HIb Habs].
  - apply (inv_cap m HI).
  - destruct (inv_pow2 m HI) as [p ->]. exists (S p). cbn. lia.
  - apply (expand_from_spec insert m []); try done. by rewrite iter_entries_contents.
Qed.

Lemma try_add_spec expand key value n m : Inv m -> ok key -> abs m !! key = None ->
  (forall m0, Inv m0 -> abs m0 = abs m ->
     exists m', expand m0 = Some m' /\ Inv m' /\ abs m' = abs m0) ->
  insert_post (fun m key value =>
    try_add hasher e0 expand (Hash key) (HashSecondary (Hash key)) key value n m) m key value.
Proof.
  intros HI Hok Hk Hexp. unfold insert_post. remember (abs m) as f eqn:Hf.
  revert m HI Hf. induction n as [|n IH]; intros m HI Hf; subst f; cbn [try_add];
    destruct (AddEntry_spec m key value HI Hok Hk) as (m1 & r & -> & HI1 & Hr);
    cbn [mbind option_bind]; destruct r as [idx|]; try (by exists m1, (Some idx)); subst m1.
  - by exists m, None.
  - destruct (Hexp m HI eq_refl) as (m2 & -> & HI2 & Habs2). cbn [mbind option_bind].
    by apply IH.
Qed.

Lemma insert_fuel_spec fuel m key value : Inv m -> ok key -> (size (abs m) < fuel)%nat ->
  insert_post (insert_fuel hasher eq e0 fuel) m key value.
Proof.
  revert m key value. induction fuel as [|fuel IH]; intros m key value HI Hok Hsz; [lia|].
  unfold insert_post. cbn [insert_fuel].
  pose proof (FindWithHash_spec m key HI Hok) as Hf.
  destruct (FindWithHash _ _ _ _ _) as [idx|].
  - destruct Hf as [Hin Hk]. destruct (set_value_spec m key value idx HI Hin Hk) as (? & ? & ?).
    by exists (set_value m idx value), (Some idx).
  - apply abs_None in Hf. apply (try_add_spec _ key value 2 m HI Hok Hf).
    intros m0 HI0 Habs0. apply ExpandBuckets_spec; [done|].
    intros b k v HIb Hokk Hlt. apply IH; [done|done|].
    rewrite <- (size_abs m0 HI0), Habs0 in Hlt. lia.
Qed.

(** *** Iteration: the iterator at position [k] of the slot sequence *)
Definition pos (k : nat) : iter := (k / 4, k mod 4)%nat.

Lemma iter_next_pos k : iter_next (pos k) = pos (S k).
Proof.
  unfold pos, iter_next, kEntriesPerBucket.
  destruct (Nat.eqb_spec (S (k mod 4)) 4); f_equal; nlia.
Qed.

Lemma pos_inj k k' : pos k = pos k' -> k = k'.
Proof.
  intros Hp. pose proof (f_equal fst Hp) as H1. pose proof (f_equal snd Hp) as H2.
  unfold pos in H1, H2. cbn [fst snd] in H1, H2. clear Hp. nlia.
Qed.

Lemma slots_drop n k : (k < 4 * n)%nat -> drop k (slots_of n) = pos k :: drop (S k) (slots_of n).
Proof.
  assert (Hlook : forall n s k, (k < 4 * n)%nat ->
    concat (map (fun b => map (fun i => (b, i)) slot_indices) (seq s n)) !! k =
    Some (s + k / 4, k mod 4)%nat).
  { clear n k. induction n as [|n IH]; intros s k Hk; [lia|].
    do 4 (destruct k as [|k]; [cbn; by rewrite Nat.add_0_r|]).
    change (S (S (S (S k)))) with (4 + k)%nat.
    change (seq s (S n)) with (s :: seq (S s) n).
    cbn [map concat slot_indices seq kEntriesPerBucket app lookup list_lookup Nat.add].
    rewrite IH by lia. do 2 f_equal; nlia. }
  intros Hk. apply drop_S. by apply (Hlook n 0%nat).
Qed.

Definition live_slot m (p : nat * nat) : Prop := hv (buckets_ m) p.1 p.2 <> 0.
Definition end_pos m : nat := (4 * length (buckets_ m))%nat.

Lemma stuck_pos m k : iter_stuck m (pos k) = true <-> (k < end_pos m)%nat /\ ~ live_slot m (pos k).
Proof.
  unfold iter_stuck, live_slot, pos, end_pos. cbn [fst snd].
  rewrite andb_true_iff, Nat.ltb_lt, Z.eqb_eq.
  split; intros [? ?]; (split; [nlia|lia]).
Qed.

Lemma skip_spec m fuel k : (k <= end_pos m)%nat -> (end_pos m - k <= fuel)%nat ->
  exists k', while fuel (iter_stuck m) (fun it => Some (iter_next it)) (pos k) = Some (pos k') /\
    (k <= k' <= end_pos m)%nat /\ (k' = end_pos m \/ live_slot m (pos k')) /\
    filter (live_slot m) (drop k (all_slots m)) = filter (live_slot m) (drop k' (all_slots m)).
Proof.
  intros Hk Hf. destruct (while_total (fun it => exists k', it = pos k' /\ (k <= k' <= end_pos m)%nat /\
      filter (live_slot m) (drop k (all_slots m)) = filter (live_slot m) (drop k' (all_slots m)))
    (fun it => end_pos m - (4 * it.1 + it.2))%nat (iter_stuck m)
    (fun it => Some (iter_next it)) fuel (pos k)) as (s' & Hw & (k' & -> & Hr & Hd) & Hst).
  - intros s (k' & -> & Hr & Hd) [Hlt Hdead]%stuck_pos. exists (pos (S k')).
    rewrite iter_next_pos. split; [done|]. split.
    + exists (S k'). split; [done|]. split; [lia|]. rewrite Hd. change (all_slots m) with (slots_of (length (buckets_ m))).
      rewrite slots_drop by done. by rewrite filter_cons_False.
    + unfold pos. cbn [fst snd]. nlia.
  - by exists k.
  - unfold pos. cbn [fst snd]. nlia.
  - exists k'. split; [done|]. split; [done|]. split; [|done].
    destruct (decide (k' = end_pos m)); [by left|right].
    unfold live_slot. intros Hz. apply not_true_iff_false in Hst. apply Hst, stuck_pos.
    split; [lia|]. intros Hl. by apply Hl.
Qed.

Lemma for_range_spec m fuel k : (k <= end_pos m)%nat -> (end_pos m - k <= fuel)%nat ->
  (k = end_pos m \/ live_slot m (pos k)) ->
  for_range e0 fuel m (pos k) =
    Some (map (iter_deref e0 m) (filter (live_slot m) (drop k (all_slots m)))).
Proof.
  assert (Hend : iter_end m = pos (end_pos m)).
  { unfold iter_end, pos, end_pos. rewrite (Nat.mul_comm 4), Nat.div_mul, Nat.Div0.mod_mul by lia. done. }
  assert (Hlen : (length (all_slots m) <= end_pos m)%nat).
  { unfold all_slots, end_pos. generalize (length (buckets_ m)). intros n.
    assert (forall s, length (concat (map (fun b => map (fun i => (b, i)) slot_indices) (seq s n))) = 4 * n)%nat
      as ->; [|done].
    induction n as [|n IH]; intros s; [done|]. cbn [seq map concat].
    rewrite length_app, length_map, IH. change (length slot_indices) with 4%nat. lia. }
  revert k. induction fuel as [|fuel IH]; intros k Hk Hf Hl; cbn [for_range]; rewrite Hend.
  - assert (k = end_pos m) as -> by lia. rewrite decide_True by done.
    by rewrite drop_ge.
  - case_decide as Heq.
    + assert (k = end_pos m) as -> by (by apply pos_inj).
      by rewrite drop_ge.
    + destruct Hl as [->|Hl]; [done|].
      assert (k < end_pos m)%nat as Hlt by (destruct (decide (k = end_pos m)); [congruence|lia]).
      unfold iter_incr. rewrite iter_next_pos.
      destruct (skip_spec m (iter_fuel m) (S k)) as (k' & -> & Hr & Hl' & Hd);
        [lia|unfold iter_fuel, kEntriesPerBucket, end_pos in *; lia|].
      cbn [mbind option_bind]. rewrite IH by (done || lia). cbn [mbind option_bind].
      change (all_slots m) with (slots_of (length (buckets_ m))) in *.
      rewrite (slots_drop _ k) by done. rewrite filter_cons_True by done.
      cbn [map]. by rewrite Hd.
Qed.

Lemma for_each_spec m : for_each e0 m = Some (iter_entries e0 m).
Proof.
  unfold for_each, iter_begin, iterator. change (0%nat, 0%nat) with (pos 0).
  destruct (skip_spec m (iter_fuel m) 0) as (k' & -> & Hr & Hl & Hd);
    [lia|unfold iter_fuel, kEntriesPerBucket, end_pos in *; lia|].
  cbn [mbind option_bind].
  rewrite for_range_spec by (done || unfold kEntriesPerBucket, end_pos in *; lia).
  rewrite <- Hd. done.
Qed.

(** *** Properties *)

(** The representation invariant (hash placement, free list, distinct keys,
    counters, power-of-two buckets) holds of a fresh or cleared table and is kept
    by [Insert] and [Remove]; [Count] is the number of stored keys. *)
Theorem cuckoo_invariant m key value : Inv m -> ok key ->
  Inv (Clear e0 m) /\ Inv (Remove hasher eq e0 m key).1 /\
  (exists m' r, Insert hasher eq e0 m key value = Some (m', r) /\ Inv m') /\
  Count m = Z.of_nat (size (abs m)).
Proof.
  intros HI Hok. split; [by apply Clear_spec|]. split.
  { pose proof (Remove_spec m key HI Hok) as Hr. destruct (Remove _ _ _ _ _). apply Hr. }
  split.
  - destruct (insert_fuel_spec (S (Z.to_nat (num_entries_ m))) m key value HI Hok)
      as (m' & r & ? & ? & _); [|by exists m', r].
    rewrite size_abs, (inv_count m HI) by done. lia.
  - unfold Count. by rewrite size_abs, (inv_count m HI).
Qed.

(** C8: refinement.  A table is a finite map: [Insert] always returns, either the
    entry it stored, having mapped the key to the value and changed nothing else,
    or [nullptr] with the map unchanged; [Find], [Remove] and [Clear] are lookup,
    deletion and the empty map, and [Count] is the number of keys.  This covers cuckoo
    moves, growth of the entry and bucket arrays and the recursive re-insertion; all of
    them keep the representation invariant (hash placement, free list, distinct keys,
    counter, power-of-two buckets). *)
Theorem cuckoo_refines_map m key value : Inv m -> ok key ->
  (exists m' r, Insert hasher eq e0 m key value = Some (m', r) /\ Inv m' /\
     match r with
     | Some idx => abs m' = <[key := value]> (abs m) /\ entry_at m' idx = (key, value)
     | None => abs m' = abs m
     end) /\
  snd <$> Find hasher eq e0 m key = abs m !! key /\
  (let '(m', removed) := Remove hasher eq e0 m key in
   Inv m' /\ abs m' = delete key (abs m) /\ removed = bool_decide (is_Some (abs m !! key))) /\
  (Inv (Clear e0 m) /\ abs (Clear e0 m) = ∅) /\
  Count m = Z.of_nat (size (abs m)).
Proof.
  intros HI Hok. pose proof (cuckoo_invariant m key value HI Hok) as (_ & _ & _ & Hcount). split.
  - destruct (insert_fuel_spec (S (Z.to_nat (num_entries_ m))) m key value HI Hok)
      as (m' & r & ? & ? & Hr).
    { rewrite size_abs, (inv_count m HI) by done. lia. }
    exists m', r. split; [done|]. split; [done|]. destruct r; [|done]. by destruct Hr as [? [_ ?]].
  - split; [by apply Find_abs|]. pose proof (Remove_spec m key HI Hok) as Hr.
    destruct (Remove _ _ _ _ _). destruct Hr as (? & ? & ? & _). split; [done|]. split; [by apply Clear_spec|done].
Qed.

(** A range-[for] loop over a table terminates and visits every stored
    key-value pair exactly once and nothing else. *)
Theorem cuckoo_iteration m : Inv m ->
  exists es, for_each e0 m = Some es /\ es ≡ₚ map_to_list (abs m).
Proof.
  intros HI. exists (iter_entries e0 m). split; [apply for_each_spec|].
  rewrite iter_entries_contents. unfold abs. rewrite map_to_list_to_map; [done|].
  pose proof (inv_keys m HI) as Hk. by rewrite <- (map_map _ fst) in Hk.
Qed.
End proofs.

(** ** A concrete table: keys hashed to themselves *)
Definition ex_hash (k : Z) : Z := k.
Definition ex_ok (k : Z) : Prop := 0 <= k.

Lemma ex_eq_spec a b : ex_ok a -> ex_ok b -> Z.eqb a b = true <-> a = b.
Proof. intros _ _. apply Z.eqb_eq. Qed.

Definition ex_step (m : t) (k : Z) : t :=
  match Insert ex_hash Z.eqb (0, 0) m k (k * k) with Some (m', _) => m' | None => m end.
Definition ex_table : t := fold_left ex_step [3; 7; 11; 15; 19; 23; 27; 31; 35; 39] (make (0, 0) 4 16).

Lemma ex_table_inv : Inv ex_hash (0, 0) ex_ok ex_table.
Proof.
  unfold ex_table. assert (Inv ex_hash (0, 0) ex_ok (make (0, 0) 4 16)) as HI
    by (apply (make_spec ex_hash (0, 0) ex_ok); [lia|by exists 2%nat]).
  assert (Forall ex_ok [3; 7; 11; 15; 19; 23; 27; 31; 35; 39]) as Hok by (repeat constructor; done).
  revert HI. generalize (make (0, 0) 4 16). induction Hok as [|k l Hk _ IH]; intros m HI; cbn [fold_left]; [done|].
  apply IH. unfold ex_step, Insert.
  destruct (insert_fuel_spec ex_hash Z.eqb (0, 0) ex_ok ex_eq_spec (S (Z.to_nat (num_entries_ m))) m k (k * k) HI Hk)
    as (m' & r & -> & HI' & _); [|done].
  rewrite (size_abs ex_hash _ ex_ok), (inv_count _ _ _ _ HI) by done. lia.
Qed.

Lemma cuckoo_invariant_witness :
  Inv ex_hash (0, 0) ex_ok ex_table /\ Inv ex_hash (0, 0) ex_ok (Clear (0, 0) ex_table) /\
  Count ex_table = 10 /\ Find ex_hash Z.eqb (0, 0) ex_table 27 = Some (27, 729).
Proof.
  split; [exact ex_table_inv|]. split.
  - apply (cuckoo_invariant ex_hash Z.eqb (0, 0) ex_ok ex_eq_spec ex_table 5 5 ex_table_inv). by vm_compute.
  - split; vm_compute; reflexivity.
Defined.

Lemma cuckoo_refines_map_witness :
  Inv ex_hash (0, 0) ex_ok ex_table /\
  snd <$> Find ex_hash Z.eqb (0, 0) ex_table 27 = abs (0, 0) ex_table !! 27.
Proof.
  split; [exact ex_table_inv|].
  destruct (cuckoo_refines_map ex_hash Z.eqb (0, 0) ex_ok ex_eq_spec ex_table 27 0 ex_table_inv) as (_ & Hf & _);
    [by vm_compute|exact Hf].
Defined.

Lemma cuckoo_iteration_witness :
  (exists es, for_each (0, 0) ex_table = Some es /\ es ≡ₚ map_to_list (abs (0, 0) ex_table)) /\
  length <$> for_each (0, 0) ex_table = Some 10%nat.
Proof.
  split; [|vm_compute; reflexivity].
  apply (cuckoo_iteration ex_hash (0, 0) ex_ok ex_table ex_table_inv).
Defined.

