(* ===== verification/PriorityQueue.v ===== *)
(** The priority queue with [decrease_key_top] and [delete_single_element]:
    [core/utils/extended_priority_queue.h], with the heap algorithms of the standard
    library that the class inherits from [std::priority_queue]. *)
From S2P Require Import Prelude.
Open Scope nat_scope.

Section queue.
Context {T : Type} (cmp : T -> T -> bool).

(** [cmp(v[i], v[j])]. *)
Definition cmp_at (v : list T) (i j : nat) : bool :=
  match v !! i, v !! j with
  | Some a, Some b => cmp a b
  | _, _ => false
  end.

(** [v[i] = v[j]]. *)
Definition copy_at (v : list T) (i j : nat) : list T :=
  match v !! j with Some b => <[i := b]> v | None => v end.

Definition swap_at (v : list T) (i j : nat) : list T :=
  match v !! i, v !! j with
  | Some a, Some b => <[j := a]> (<[i := b]> v)
  | _, _ => v
  end.

(** *** The heap algorithms of the standard library's [priority_queue]

    [__push_heap], [__adjust_heap], [push_heap], [pop_heap] and [make_heap] of
    bits/stl_heap.h, on a vector with a hole that waits for [value]. *)
Definition push_up (v : list T) (hole top : nat) (value : T) : option (list T) :=
  r ← while (length v)
        (fun s => let '(v, hole) := s in
           (top <? hole) &&
           match v !! ((hole - 1) / 2) with Some p => cmp p value | None => false end)
        (fun s => let '(v, hole) := s in Some (copy_at v hole ((hole - 1) / 2), (hole - 1) / 2))
        (v, hole);
  let '(v, hole) := r in Some (<[hole := value]> v).

Definition adjust_heap (v : list T) (hole : nat) (value : T) : option (list T) :=
  let len := length v in
  r ← while len
        (fun s => let '(v, second) := s in second <? (len - 1) / 2)
        (fun s => let '(v, hole) := s in
           let second := 2 * (hole + 1) in
           let second := if cmp_at v second (second - 1) then second - 1 else second in
           Some (copy_at v hole second, second))
        (v, hole);
  let '(v, second) := r in
  let '(v, second) :=
    if Nat.even len && (second =? (len - 2) / 2)
    then (copy_at v second (2 * (second + 1) - 1), 2 * (second + 1) - 1)
    else (v, second) in
  push_up v second hole value.

Definition push (v : list T) (x : T) : option (list T) :=
  push_up (v ++ [x]) (length v) 0 x.

Definition top (v : list T) : option T := v !! 0.

(** [pop()] of an empty queue is undefined. *)
Definition pop (v : list T) : option (list T) :=
  match v with
  | [] => None
  | [_] => Some []
  | _ =>
      value ← v !! (length v - 1);
      adjust_heap (take (length v - 1) v) 0 value
  end.

Fixpoint make_heap_from (v : list T) (n : nat) : option (list T) :=
  match n with
  | O => Some v
  | S parent =>
      value ← v !! parent;
      v ← adjust_heap v parent value;
      make_heap_from v parent
  end.

Definition make_heap (v : list T) : option (list T) :=
  if length v <? 2 then Some v else make_heap_from v (S ((length v - 2) / 2)).

(** *** The extensions *)
Definition larger_child (v : list T) (node : nat) : nat :=
  let left := 2 * node + 1 in
  let right := 2 * node + 2 in
  if (length v <=? right) || cmp_at v right left then left else right.

Definition decrease_key_top (v : list T) : option (list T) :=
  r ← while (length v)
        (fun s => let '(v, node) := s in
           negb (length v <=? 2 * node + 1) && cmp_at v node (larger_child v node))
        (fun s => let '(v, node) := s in
           Some (swap_at v node (larger_child v node), larger_child v node))
        (v, 0);
  Some (fst r).

(** [std::find_if] *)
Fixpoint find_if (func : T -> bool) (v : list T) : option nat :=
  match v with
  | [] => None
  | x :: v' => if func x then Some 0 else S <$> find_if func v'
  end.

Definition delete_single_element (func : T -> bool) (v : list T) : option (list T * bool) :=
  match find_if func v with
  | Some i => v ← make_heap (delete i v); Some (v, true)
  | None => Some (v, false)
  end.
End queue.

Example heap_ops :
  (v ← push Nat.ltb [] 3; v ← push Nat.ltb v 9; v ← push Nat.ltb v 5; v ← push Nat.ltb v 7;
   v ← delete_single_element Nat.ltb (fun x => x =? 5) v; pop Nat.ltb (fst v)) = Some [7; 3].
Proof. reflexivity. Qed.

(** ** Heaps *)
Definition edge (i j : nat) : Prop := j = 2 * i + 1 \/ j = 2 * i + 2.

Section heaps.
Context {T : Type} (cmp : T -> T -> bool).
(** [cmp] is a strict weak order, as the standard library requires. *)
Context (cmp_asym : forall a b, cmp a b = true -> cmp b a = false).
Context (cmp_ntrans : forall a b c, cmp a b = false -> cmp b c = false -> cmp a c = false).
Implicit Types (v w L : list T).

Definition ok L (i j : nat) : Prop :=
  forall a b, L !! i = Some a -> L !! j = Some b -> cmp a b = false.

(** The heap order holds below position [k]. *)
Definition heap_from (k : nat) L : Prop := forall i j, k <= i -> edge i j -> ok L i j.
Definition is_heap L : Prop := heap_from 0 L.

(** The heap order holds but between [h] and its parent. *)
Definition up_inv (top : nat) L (h : nat) : Prop :=
  (forall i j, top <= i -> edge i j -> j <> h -> ok L i j) /\
  (forall p c, top <= p -> edge p h -> edge h c -> ok L p c).

Inductive desc (top : nat) : nat -> Prop :=
| desc_top : desc top top
| desc_child i j : desc top i -> edge i j -> desc top j.

Lemma desc_ge top h : desc top h -> top <= h.
Proof. induction 1; unfold edge in *; lia. Qed.

Lemma edge_parent j : 0 < j -> edge ((j - 1) / 2) j.
Proof. unfold edge. intros. nlia. Qed.

Lemma edge_inj i i' j : edge i j -> edge i' j -> i = i'.
Proof. unfold edge. lia. Qed.

Lemma desc_parent top h : desc top h -> top < h -> desc top ((h - 1) / 2).
Proof.
  intros Hd Hlt. inversion Hd as [|i j Hi He]; subst; [lia|].
  by rewrite <- (edge_inj i ((h - 1) / 2) h He (edge_parent h ltac:(lia))).
Qed.

Lemma desc_root n : desc 0 n.
Proof.
  induction n as [n IH] using lt_wf_ind. destruct (decide (n = 0)) as [->|]; [apply desc_top|].
  apply (desc_child _ ((n - 1) / 2)); [apply IH; nlia|apply edge_parent; lia].
Qed.

Lemma cmp_irrefl a : cmp a a = false.
Proof using cmp_asym. destruct (cmp a a) eqn:Ha; [|done]. by rewrite <- Ha, (cmp_asym a a Ha). Qed.

Ltac lookups := repeat match goal with
  | H : <[_ := _]> _ !! _ = Some _ |- _ =>
      apply list_lookup_insert_Some in H as [(? & ? & ?)|(? & ?)]; subst
  end.

(** Exchanging two elements permutes the list. *)
Lemma swap_perm L i j a b : L !! i = Some a -> L !! j = Some b ->
  <[j := a]> (<[i := b]> L) ≡ₚ L.
Proof.
  intros Hi Hj. destruct (decide (i = j)) as [->|Hne].
  { rewrite list_insert_insert_eq. simplify_eq. by rewrite list_insert_id. }
  assert (Hj' : <[i := b]> L !! j = Some b) by (by rewrite list_lookup_insert_ne).
  assert (Hlen : i < length L) by (by eapply lookup_lt_Some).
  assert (Hins : forall l k (x y : T), l !! k = Some x -> x :: <[k := y]> l ≡ₚ y :: l).
  { induction l as [|z l IH]; intros [|k] x y Hk; cbn in *; simplify_eq.
    - apply perm_swap.
    - rewrite perm_swap, (IH _ _ _ Hk). apply perm_swap. }
  apply (Permutation_cons_inv (a := b)). rewrite (Hins _ _ b a Hj').
  by apply Hins.
Qed.

Lemma up_inv_step top L h p a x : top <= p -> edge p h -> L !! p = Some a -> L !! h = Some x ->
  cmp a x = true -> up_inv top L h -> up_inv top (<[p := x]> (<[h := a]> L)) p.
Proof using cmp_asym cmp_ntrans.
  intros Hp He Ha Hx Hc [H1 H2]. assert (p < h) by (unfold edge in He; lia).
  assert (Hsib : forall j b, edge p j -> L !! j = Some b -> cmp x b = false).
  { intros j b Hj Hb. destruct (decide (j = h)) as [->|Hne]; simplify_eq; [apply cmp_irrefl|].
    apply (cmp_ntrans x a b); [by apply cmp_asym|]. by apply (H1 p j). }
  split.
  - intros i j Hi Hij Hne b c Hb Hcj. lookups;
      first [by apply cmp_asym | by (exfalso; unfold edge in *; lia) | by apply (Hsib j)
            | by apply (H2 p j Hp He Hij) | by apply (H1 i j)].
  - intros q c Hq Hqp Hpc b d Hb Hd. assert (q < p) by (unfold edge in Hqp; lia).
    assert (p < c) by (unfold edge in Hpc; lia). lookups; try lia.
    + by apply (H1 q p Hq Hqp ltac:(lia)).
    + apply (cmp_ntrans b a d); [by apply (H1 q p Hq Hqp ltac:(lia))|]. by apply (H1 p c).
Qed.

Lemma copy_at_spec v i j b : v !! j = Some b -> copy_at v i j = <[i := b]> v.
Proof. unfold copy_at. by intros ->. Qed.

Lemma push_up_spec v hole top x : hole < length v -> desc top hole ->
  up_inv top (<[hole := x]> v) hole ->
  exists w, push_up cmp v hole top x = Some w /\ heap_from top w /\ w ≡ₚ <[hole := x]> v.
Proof using cmp_asym cmp_ntrans.
  intros Hlt Hd HU. unfold push_up. while_inv (fun s : list T * nat =>
      length s.1 = length v /\ s.2 < length v /\ desc top s.2 /\
      up_inv top (<[s.2 := x]> s.1) s.2 /\ <[s.2 := x]> s.1 ≡ₚ <[hole := x]> v)
    (@snd (list T) nat) as ([w h] & -> & (Hlen & Hh & Hdh & [H1 _] & Hp) & Hst).
  - intros [w h] (Hlen & Hh & Hdh & HUh & Hp) [Hgt Hcmp]%andb_true_iff. cbn [fst snd] in *.
    apply Nat.ltb_lt in Hgt. pose proof (desc_parent _ _ Hdh Hgt) as Hdp.
    pose proof (edge_parent h ltac:(lia)) as He. set (p := (h - 1) / 2) in *.
    assert (p < h) by (unfold edge in He; lia).
    destruct (w !! p) as [a|] eqn:Ha; [|done].
    eexists. split; [reflexivity|]. cbn [fst snd]. rewrite (copy_at_spec w h p a Ha).
    assert (Hap : <[h := x]> w !! p = Some a) by (rewrite list_lookup_insert_ne by lia; done).
    assert (Hxh : <[h := x]> w !! h = Some x) by (apply list_lookup_insert_eq; lia).
    split; [|lia]. rewrite length_insert. split; [done|]. split; [lia|]. split; [done|].
    rewrite <- (list_insert_insert_eq w h a x).
    split.
    + by apply (up_inv_step top _ h p); [apply desc_ge| | | | |].
    + rewrite <- Hp. by apply (swap_perm _ h p x a).
  - cbn. done.
  - cbn. lia.
  - eexists. cbn [fst snd] in *. cbn [mbind option_bind]. split; [reflexivity|]. split; [|done].
    intros i j Hi Hij. destruct (decide (j = h)) as [->|]; [|by apply H1].
    assert ((top <? h) = true) as Hth by (apply Nat.ltb_lt; unfold edge in Hij; lia).
    rewrite Hth in Hst. cbn [andb] in Hst.
    rewrite <- (edge_inj _ _ _ Hij (edge_parent h ltac:(unfold edge in Hij; lia))) in Hst.
    intros a b Ha Hb. rewrite list_lookup_insert_ne in Ha by (unfold edge in Hij; lia).
    rewrite list_lookup_insert_eq in Hb by lia. simplify_eq. by rewrite Ha in Hst.
Qed.

(** The descent of the hole in [adjust_heap]: below [top] everything is in order,
    apart from [top] itself before the first step. *)
Definition down_inv (top : nat) w (h : nat) : Prop :=
  forall i j, top <= i -> (i = top -> top < h) -> edge i j -> ok w i j.

Lemma ok_irrefl L i : ok L i i.
Proof using cmp_asym. intros a b Ha Hb. simplify_eq. apply cmp_irrefl. Qed.

Lemma down_step top w h c : top <= h -> edge h c -> c < length w ->
  (forall j, edge h j -> ok w c j) -> down_inv top w h -> down_inv top (copy_at w h c) c.
Proof using cmp_asym cmp_ntrans.
  intros Hh Hc Hlt Hbest HI. destruct (lookup_lt_is_Some_2 w c Hlt) as [d Hd].
  assert (h < c) by (unfold edge in Hc; lia).
  assert (is_Some (w !! h)) as [e He] by (apply lookup_lt_is_Some; lia).
  rewrite (copy_at_spec w h c d Hd). intros i j Hi _ Hij a b Ha Hb.
  destruct (decide (h = i)) as [<-|Hih]; [rewrite list_lookup_insert_eq in Ha by lia|
    rewrite list_lookup_insert_ne in Ha by done]; (destruct (decide (h = j)) as [<-|Hjh];
    [rewrite list_lookup_insert_eq in Hb by lia|rewrite list_lookup_insert_ne in Hb by done]).
  - unfold edge in Hij. lia.
  - simplify_eq. by apply (Hbest j Hij).
  - simplify_eq. apply (cmp_ntrans a e b); [|by apply (HI h c Hh ltac:(unfold edge in Hij; lia))].
    by apply (HI i h Hi ltac:(unfold edge in Hij; lia)).
  - apply (HI i j); [done| |done|done|done]. intros ->. lia.
Qed.

Lemma copy_perm w h c x : h <> c -> c < length w -> h < length w ->
  <[c := x]> (copy_at w h c) ≡ₚ <[h := x]> w.
Proof.
  intros Hne Hc Hh. destruct (lookup_lt_is_Some_2 w c Hc) as [d Hd].
  rewrite (copy_at_spec w h c d Hd), <- (list_insert_insert_eq w h d x).
  apply (swap_perm _ h c x d); [by apply list_lookup_insert_eq|by rewrite list_lookup_insert_ne].
Qed.

Lemma length_copy_at w i j : length (copy_at w i j) = length w.
Proof. unfold copy_at. destruct (w !! j); [apply length_insert|done]. Qed.

Lemma cmp_at_false w i j : cmp_at cmp w i j = false -> ok w i j.
Proof. unfold cmp_at. intros Hc a b Ha Hb. by rewrite Ha, Hb in Hc. Qed.

Lemma cmp_at_true w i j : cmp_at cmp w i j = true -> ok w j i.
Proof using cmp_asym.
  unfold cmp_at. intros Hc a b Ha Hb. rewrite Ha, Hb in Hc. by apply cmp_asym.
Qed.

(** What the descent keeps, besides [down_inv]. *)
Definition hole_inv (top : nat) v x w h : Prop :=
  length w = length v /\ h < length v /\ desc top h /\ down_inv top w h /\
  <[h := x]> w ≡ₚ <[top := x]> v.

Lemma hole_step top v x w h c : hole_inv top v x w h -> edge h c -> c < length v ->
  (forall j, edge h j -> ok w c j) -> hole_inv top v x (copy_at w h c) c.
Proof using cmp_asym cmp_ntrans.
  intros (Hlen & Hh & Hd & HI & Hp) He Hc Hbest. pose proof (desc_ge _ _ Hd).
  assert (h < c) by (unfold edge in He; lia).
  split; [by rewrite length_copy_at|]. split; [done|]. split; [by apply (desc_child _ h)|].
  split; [apply down_step; (done || lia)|]. rewrite <- Hp. apply copy_perm; lia.
Qed.

Lemma hole_leaf top v x w h : hole_inv top v x w h -> length v <= 2 * h + 1 ->
  exists w', push_up cmp w h top x = Some w' /\ heap_from top w' /\ w' ≡ₚ <[top := x]> v.
Proof using cmp_asym cmp_ntrans.
  intros (Hlen & Hh & Hd & HI & Hp) Hleaf.
  assert (Hno : forall c b, edge h c -> w !! c = Some b -> False).
  { intros c b He Hb%lookup_lt_Some. unfold edge in He. lia. }
  destruct (push_up_spec w h top x) as (w' & ? & ? & Hw); [lia|done| |].
  - split.
    + intros i j Hi Hij Hne a b Ha Hb. lookups; try done; [by destruct (Hno j b)|].
      apply (HI i j); try done. intros ->. pose proof (desc_ge _ _ Hd). lia.
    + intros p c Hpt _ Hc a b Ha Hb. lookups; try (unfold edge in Hc; lia); by destruct (Hno c b).
  - exists w'. split; [done|]. split; [done|]. by rewrite Hw.
Qed.

Lemma adjust_heap_spec v top x : top < length v -> heap_from (S top) v ->
  exists w, adjust_heap cmp v top x = Some w /\ heap_from top w /\ w ≡ₚ <[top := x]> v.
Proof using cmp_asym cmp_ntrans.
  intros Hlt Hheap. unfold adjust_heap.
  while_inv (fun s => hole_inv top v x s.1 s.2) (fun s : list T * nat => length v - s.2)
    as ([w h] & -> & HI & Hst).
  - intros [w h] HI Hc. cbn [fst snd] in *. apply Nat.ltb_lt in Hc.
    pose proof HI as (Hlen & Hh & _). eexists. split; [reflexivity|]. cbn [fst snd].
    destruct (cmp_at cmp w (2 * (h + 1)) (2 * (h + 1) - 1)) eqn:Hcmp.
    + split; [apply hole_step; [done|unfold edge; lia|nlia|]|nlia].
      apply cmp_at_true in Hcmp. intros j [->| ->]; [|by replace (2 * h + 2) with (2 * (h + 1)) by lia].
      replace (2 * (h + 1) - 1) with (2 * h + 1) by lia. apply ok_irrefl.
    + split; [apply hole_step; [done|unfold edge; lia|nlia|]|nlia].
      apply cmp_at_false in Hcmp. intros j [->| ->].
      * by replace (2 * h + 1) with (2 * (h + 1) - 1) by lia.
      * replace (2 * h + 2) with (2 * (h + 1)) by lia. apply ok_irrefl.
  - cbn [fst snd]. split; [done|]. split; [done|]. split; [apply desc_top|]. split; [|done].
    intros i j Hi Hne Hij. apply Hheap; [|done]. destruct (decide (i = top)); [|lia]. lia.
  - cbn. lia.
  - cbn [fst snd mbind option_bind] in *. apply Nat.ltb_ge in Hst. pose proof HI as (Hlen & Hh & _).
    destruct (Nat.even (length v) && (h =? (length v - 2) / 2)) eqn:Hlast.
    + apply andb_true_iff in Hlast as [[k Hk]%Nat.even_spec ->%Nat.eqb_eq].
      apply (hole_leaf top v x); [|nlia]. apply hole_step; [done|unfold edge; lia|nlia|].
      intros j [->| ->].
      * replace (2 * ((length v - 2) / 2) + 1) with (2 * ((length v - 2) / 2 + 1) - 1) by lia.
        apply ok_irrefl.
      * intros a b _ Hb%lookup_lt_Some. exfalso. nlia.
    + apply (hole_leaf top v x); [done|]. apply andb_false_iff in Hlast as [Hodd|Hne%Nat.eqb_neq].
      * rewrite <- Nat.negb_odd in Hodd. apply negb_false_iff, Nat.odd_spec in Hodd as [k Hk]. nlia.
      * nlia.
Qed.

(** *** The queue operations *)
Lemma push_spec v x : is_heap v -> exists w, push cmp v x = Some w /\ is_heap w /\ w ≡ₚ x :: v.
Proof using cmp_asym cmp_ntrans.
  intros Hv. unfold push.
  assert (Hins : <[length v := x]> (v ++ [x]) = v ++ [x]).
  { rewrite insert_app_r_alt by lia. by rewrite Nat.sub_diag. }
  destruct (push_up_spec (v ++ [x]) (length v) 0 x) as (w & -> & Hw & Hp).
  - rewrite length_app. cbn. lia.
  - apply desc_root.
  - rewrite Hins. split.
    + intros i j Hi Hij Hne a b Ha Hb. assert (j < length v).
      { apply lookup_lt_Some in Hb. rewrite length_app in Hb. cbn in Hb. lia. }
      assert (i < j) by (unfold edge in Hij; lia).
      rewrite lookup_app_l in Ha, Hb by lia. by apply (Hv i j).
    + intros p c _ _ Hc a b _ Hb%lookup_lt_Some. rewrite length_app in Hb. cbn in Hb.
      unfold edge in Hc. lia.
  - exists w. split; [done|]. split; [done|]. rewrite Hp, Hins. by rewrite Permutation_app_comm.
Qed.

Lemma heap_from_take k n v : heap_from k v -> heap_from k (take n v).
Proof.
  intros Hv i j Hi Hij a b Ha Hb. apply lookup_take_Some in Ha as [Ha _], Hb as [Hb _].
  by apply (Hv i j).
Qed.

Lemma heap_weaken v : is_heap v -> heap_from 1 v.
Proof. intros Hv i j Hi. apply Hv. lia. Qed.

(** [pop] does not look at the key of the top. *)
Lemma pop_spec v x : heap_from 1 v -> top v = Some x ->
  exists w, pop cmp v = Some w /\ is_heap w /\ v ≡ₚ x :: w.
Proof using cmp_asym cmp_ntrans.
  intros Hv Hx. destruct v as [|y [|z v]]; [done| |]; unfold top in Hx; cbn in Hx; simplify_eq.
  { exists []. split; [done|]. split; [|done]. by intros i j _ _ a b Ha. }
  unfold pop. destruct (exists_last (l := z :: v)) as (u & l & Hul); [done|]. rewrite Hul.
  assert (Hlen : length (x :: u ++ [l]) - 1 = S (length u)) by (cbn; rewrite length_app; cbn; lia).
  rewrite Hlen. cbn [lookup list_lookup take].
  rewrite (list_lookup_middle u [] l) by done. cbn [mbind option_bind]. rewrite take_app_length.
  destruct (adjust_heap_spec (x :: u) 0 l) as (w & -> & Hw & Hp); [cbn; lia| |].
  - assert (Hu : x :: u = take (S (length u)) (x :: z :: v)).
    { rewrite Hul. cbn [take]. by rewrite take_app_length. }
    rewrite Hu. by apply heap_from_take.
  - exists w. split; [done|]. split; [done|]. rewrite Hp. cbn. by rewrite Permutation_app_comm.
Qed.

Lemma make_heap_spec v : exists w, make_heap cmp v = Some w /\ is_heap w /\ w ≡ₚ v.
Proof using cmp_asym cmp_ntrans.
  unfold make_heap. destruct (Nat.ltb_spec (length v) 2) as [Hlt|Hge].
  { exists v. split; [done|]. split; [|done]. intros i j _ Hij a b Ha Hb%lookup_lt_Some.
    unfold edge in Hij. lia. }
  assert (Hgen : forall n w, n <= S ((length v - 2) / 2) -> length w = length v -> heap_from n w ->
    exists w', make_heap_from cmp w n = Some w' /\ is_heap w' /\ w' ≡ₚ w).
  { induction n as [|n IH]; intros w Hn Hlen Hw; cbn [make_heap_from]; [by exists w|].
    assert (n < length w) as Hnw by nlia. destruct (lookup_lt_is_Some_2 w n Hnw) as [x Hx].
    rewrite Hx. cbn [mbind option_bind].
    destruct (adjust_heap_spec w n x Hnw Hw) as (w1 & -> & Hw1 & Hp1). cbn [mbind option_bind].
    rewrite list_insert_id in Hp1 by done.
    destruct (IH w1) as (w' & -> & ? & Hp); [lia|by rewrite Hp1|done|].
    exists w'. split; [done|]. split; [done|]. by rewrite Hp. }
  apply Hgen; [done|done|]. intros i j Hi Hij a b _ Hb%lookup_lt_Some. unfold edge in Hij. nlia.
Qed.

(** The heap order holds but between [n] and its children. *)
Definition sink_inv v (n : nat) : Prop :=
  (forall i j, edge i j -> i <> n -> ok v i j) /\
  (forall p c, edge p n -> edge n c -> ok v p c).

(** The larger child exists and is not below its sibling. *)
Lemma larger_child_spec v n : 2 * n + 1 < length v ->
  edge n (larger_child cmp v n) /\ larger_child cmp v n < length v /\
  (forall j, edge n j -> ok v (larger_child cmp v n) j).
Proof using cmp_asym.
  intros Hlt. unfold larger_child, edge.
  destruct (Nat.leb_spec (length v) (2 * n + 2)); cbn [orb].
  { split; [by left|]. split; [done|]. intros j [->| ->]; [apply ok_irrefl|].
    intros a b _ Hb%lookup_lt_Some. lia. }
  destruct (cmp_at cmp v (2 * n + 2) (2 * n + 1)) eqn:Hc.
  - split; [by left|]. split; [done|]. intros j [->| ->]; [apply ok_irrefl|by apply cmp_at_true].
  - split; [by right|]. split; [lia|]. intros j [->| ->]; [by apply cmp_at_false|apply ok_irrefl].
Qed.

Lemma swap_at_spec v i j a b : v !! i = Some a -> v !! j = Some b ->
  swap_at v i j = <[j := a]> (<[i := b]> v).
Proof. unfold swap_at. by intros -> ->. Qed.

Lemma sink_step v n c : edge n c -> c < length v -> cmp_at cmp v n c = true ->
  (forall j, edge n j -> ok v c j) -> sink_inv v n -> sink_inv (swap_at v n c) c.
Proof using cmp_asym cmp_ntrans.
  intros He Hlt Hc Hbest [H1 H2]. unfold cmp_at in Hc.
  destruct (v !! n) as [x|] eqn:Hx; [|done]. destruct (v !! c) as [y|] eqn:Hy; [|done].
  rewrite (swap_at_spec v n c x y Hx Hy). assert (n < c) by (unfold edge in He; lia).
  split.
  - intros i j Hij Hic a b Ha Hb. lookups;
      first [by apply cmp_asym | by (exfalso; unfold edge in *; lia) | by apply (Hbest j)
            | by apply (H2 i c) | by apply (H1 i j Hij)
            | by eapply H2; [| |eassumption|eassumption]].
  - intros p g Hp Hg a b Ha Hb. rewrite <- (edge_inj n p c He Hp) in *.
    assert (c < g) by (unfold edge in Hg; lia). lookups; try lia.
    by apply (H1 c g Hg ltac:(lia)).
Qed.

Lemma decrease_key_top_spec v : heap_from 1 v ->
  exists w, decrease_key_top cmp v = Some w /\ is_heap w /\ w ≡ₚ v.
Proof using cmp_asym cmp_ntrans.
  intros Hv. unfold decrease_key_top.
  while_inv (fun s => sink_inv s.1 s.2 /\ s.1 ≡ₚ v /\ length s.1 = length v)
    (fun s : list T * nat => length v - s.2) as ([w n] & -> & (HI & Hp & Hlen) & Hst).
  - intros [w n] (HI & Hp & Hlen) [Hlt Hc]%andb_true_iff. cbn [fst snd] in *.
    apply negb_true_iff, Nat.leb_gt in Hlt. rewrite <- Hlen in *.
    destruct (larger_child_spec w n Hlt) as (He & Hl & Hbest). eexists. split; [reflexivity|].
    cbn [fst snd]. set (c := larger_child cmp w n) in *.
    assert (n < c) by (unfold edge in He; lia).
    destruct (lookup_lt_is_Some_2 w n ltac:(lia)) as [x Hx], (lookup_lt_is_Some_2 w c Hl) as [y Hy].
    split; [|lia]. split; [by apply sink_step|]. rewrite (swap_at_spec w n c x y Hx Hy).
    rewrite !length_insert. split; [|done]. rewrite <- Hp. by apply swap_perm.
  - cbn [fst snd]. split; [|done]. split.
    + intros i j Hij Hi. apply Hv; [lia|done].
    + intros p c Hp. unfold edge in Hp. lia.
  - cbn. lia.
  - cbn [fst snd mbind option_bind] in *. exists w. split; [done|]. split; [|done].
    destruct HI as [H1 _]. intros i j _ Hij. destruct (decide (i = n)) as [->|]; [|by apply H1].
    apply andb_false_iff in Hst as [Hleaf|Hc].
    + apply negb_false_iff, Nat.leb_le in Hleaf. intros a b _ Hb%lookup_lt_Some.
      unfold edge in Hij. lia.
    + intros a b Ha Hb. destruct (Nat.lt_ge_cases (2 * n + 1) (length w)) as [Hlt|].
      * destruct (larger_child_spec w n Hlt) as (He & Hl & Hbest).
        destruct (lookup_lt_is_Some_2 w _ Hl) as [y Hy].
        apply (cmp_ntrans a y b); [by apply (cmp_at_false w n (larger_child cmp w n))|].
        by apply (Hbest j Hij).
      * apply lookup_lt_Some in Hb. unfold edge in Hij. lia.
Qed.

Lemma find_if_spec func v :
  match find_if func v with
  | Some i => exists x, v !! i = Some x /\ func x = true /\ Forall (fun y => func y = false) (take i v)
  | None => Forall (fun y => func y = false) v
  end.
Proof.
  induction v as [|x v IH]; cbn [find_if]; [constructor|].
  destruct (func x) eqn:Hx; [by exists x|].
  destruct (find_if func v) as [i|]; cbn [fmap option_fmap option_map].
  - destruct IH as (y & ? & ? & ?). exists y. cbn. split; [done|]. split; [done|]. by constructor.
  - by constructor.
Qed.

Lemma delete_single_element_spec func v : is_heap v ->
  exists w r, delete_single_element cmp func v = Some (w, r) /\ is_heap w /\
    (if r then exists x, func x = true /\ v ≡ₚ x :: w
     else w = v /\ Forall (fun y => func y = false) v).
Proof using cmp_asym cmp_ntrans.
  intros Hv. unfold delete_single_element. pose proof (find_if_spec func v) as Hf.
  destruct (find_if func v) as [i|]; [|by exists v, false].
  destruct Hf as (x & Hx & Hfx & _).
  destruct (make_heap_spec (delete i v)) as (w & -> & Hw & Hp). cbn [mbind option_bind].
  exists w, true. split; [done|]. split; [done|]. exists x. split; [done|].
  rewrite Hp. by apply delete_Permutation.
Qed.

(** The top of a heap is not below any element. *)
Lemma heap_top v x y : is_heap v -> top v = Some x -> y ∈ v -> cmp x y = false.
Proof using cmp_asym cmp_ntrans.
  intros Hv Hx (j & Hj)%list_elem_of_lookup. revert y Hj.
  induction j as [j IH] using lt_wf_ind. intros y Hj. destruct (decide (j = 0)) as [->|Hne].
  { unfold top in Hx. simplify_eq. apply cmp_irrefl. }
  pose proof (edge_parent j ltac:(lia)) as He. set (p := (j - 1) / 2) in *.
  assert (p < j) by (unfold edge in He; lia).
  destruct (lookup_lt_is_Some_2 v p) as [z Hz]; [apply lookup_lt_Some in Hj; lia|].
  apply (cmp_ntrans x z y); [by apply (IH p)|]. by apply (Hv p j ltac:(lia)).
Qed.

(** [push], [pop], [decrease_key_top] (after the key of the top was lowered)
    and [delete_single_element] terminate, keep the heap order and change the
    contents by exactly the element pushed, popped or deleted; the element at the
    top of a queue is one that no other precedes. *)
Theorem priority_queue_ops v x y func : is_heap (x :: v) ->
  (exists w, push cmp (x :: v) y = Some w /\ is_heap w /\ w ≡ₚ y :: x :: v) /\
  (exists w, pop cmp (x :: v) = Some w /\ is_heap w /\ w ≡ₚ v) /\
  (exists w, decrease_key_top cmp (y :: v) = Some w /\ is_heap w /\ w ≡ₚ y :: v) /\
  (exists w r, delete_single_element cmp func (x :: v) = Some (w, r) /\ is_heap w /\
     (if r then exists z, func z = true /\ x :: v ≡ₚ z :: w
      else w = x :: v /\ Forall (fun z => func z = false) (x :: v))) /\
  top (x :: v) = Some x /\ Forall (fun z => cmp x z = false) (x :: v).
Proof using cmp_asym cmp_ntrans.
  intros Hv. split; [by apply push_spec|]. split.
  { destruct (pop_spec (x :: v) x (heap_weaken _ Hv) eq_refl) as (w & ? & ? & Hp). exists w. split; [done|].
    split; [done|]. by apply Permutation_cons_inv in Hp. }
  split.
  { apply decrease_key_top_spec. intros i j Hi Hij a b Ha Hb. unfold edge in Hij.
    destruct i as [|i], j as [|j]; try lia. by apply (Hv (S i) (S j) ltac:(lia)). }
  split; [by apply delete_single_element_spec|]. split; [done|].
  apply Forall_forall. intros z Hz. by apply (heap_top (x :: v)).
Qed.
End heaps.

Lemma priority_queue_ops_witness :
  exists w, decrease_key_top Nat.ltb [4; 7; 8; 1; 2] = Some w /\ is_heap Nat.ltb w /\ w ≡ₚ [4; 7; 8; 1; 2].
Proof.
  assert (is_heap Nat.ltb [9; 7; 8; 1; 2]) as Hh.
  { intros i j _ Hij a b Ha Hb. destruct Hij as [-> | ->];
      do 5 (destruct i as [|i]; [cbn in Ha, Hb; simplify_eq; reflexivity|]); done. }
  apply (priority_queue_ops Nat.ltb) with (v := [7; 8; 1; 2]) (x := 9%nat) (y := 4%nat) (func := Nat.eqb 3).
  - intros a b. rewrite Nat.ltb_lt, Nat.ltb_ge. lia.
  - intros a b c. rewrite !Nat.ltb_ge. lia.
  - exact Hh.
Defined.
