(* ===== verification/TrafficClass.v ===== *)
(** Traffic classes: [core/traffic_class.h] and [core/traffic_class.cc].

    Classes live in a [store], a finite map from addresses to the members of a class and
    of its subclass ([policy]); parent and children are addresses, as they are pointers
    in the source.  Every walk to the root has the size of the store as fuel, which is
    enough in a tree (TrafficTree.v).  [None] is undefined behaviour of the source: a
    dangling pointer or an access past the end of a container. *)
From stdpp Require Import strings.
From S2P Require Import Prelude Common PriorityQueue.
Open Scope Z_scope.

(** ** Data *)
Abbreviation addr := nat.

Definition STRIDE1 : Z := 2 ^ 20.
Definition QUANTUM : Z := 2 ^ 10.

Inductive resource_t :=
| RESOURCE_COUNT | RESOURCE_CYCLE | RESOURCE_PACKET | RESOURCE_BIT | NUM_RESOURCES.

#[export] Instance resource_eq_dec : EqDecision resource_t.
Proof. solve_decision. Defined.

Definition resource_index (r : resource_t) : nat :=
  match r with
  | RESOURCE_COUNT => 0 | RESOURCE_CYCLE => 1 | RESOURCE_PACKET => 2 | RESOURCE_BIT => 3
  | NUM_RESOURCES => 4
  end.

(** [resource_arr_t]: four 64-bit counters. *)
Definition resource_arr := list Z.

Definition ACCUMULATE (acc x : resource_arr) : resource_arr :=
  zip_with (fun p1 p2 => u64 (p1 + p2)) acc x.

(** An unsigned 64-bit value stored in an [int64_t]. *)
Definition i64 (x : Z) : Z := let y := u64 x in if y <? 2 ^ 63 then y else y - 2 ^ 64.

(** [WeightedFairTrafficClass::ChildData]; [pass] is also [remain], its union twin. *)
Record wf_child := WfChild { stride : Z; pass : Z; wf_c : addr }.

(** [operator<] is reversed, so that the queue is a min-queue. *)
Definition wf_less (l r : wf_child) : bool := pass r <? pass l.

(** The members of the subclasses of [TrafficClass]. *)
Inductive policy :=
| Priority (first_runnable_ : nat) (children_ : list (Z * addr))
| WeightedFair (resource_ : resource_t) (runnable_children_ blocked_children_ : list wf_child)
    (all_children_ : list (addr * Z))
| RoundRobin (next_child_ : Z) (runnable_children_ blocked_children_ all_children_ : list addr)
| RateLimit (resource_ : resource_t) (limit_ limit_arg_ max_burst_ max_burst_arg_ tokens_ last_tsc_ : Z)
    (child_ : option addr)
| Leaf (task_ : nat) (wait_cycles_ : Z).

(** [enum TrafficPolicy] *)
Inductive TrafficPolicy :=
| POLICY_PRIORITY | POLICY_WEIGHTED_FAIR | POLICY_ROUND_ROBIN | POLICY_RATE_LIMIT | POLICY_LEAF.

Definition policy_tag (p : policy) : TrafficPolicy :=
  match p with
  | Priority _ _ => POLICY_PRIORITY
  | WeightedFair _ _ _ _ => POLICY_WEIGHTED_FAIR
  | RoundRobin _ _ _ _ => POLICY_ROUND_ROBIN
  | RateLimit _ _ _ _ _ _ _ _ => POLICY_RATE_LIMIT
  | Leaf _ _ => POLICY_LEAF
  end.

Record tc := Tc {
  parent_ : option addr;
  name_ : string;
  usage_ : resource_arr;
  cnt_throttled_ : Z;
  wakeup_time_ : Z;
  blocked_ : bool;
  policy_ : policy }.

(** The heap of traffic-class objects. *)
Abbreviation store := (gmap addr tc).

Definition set_parent (p : option addr) (t : tc) : tc :=
  Tc p (name_ t) (usage_ t) (cnt_throttled_ t) (wakeup_time_ t) (blocked_ t) (policy_ t).
Definition set_blocked (b : bool) (t : tc) : tc :=
  Tc (parent_ t) (name_ t) (usage_ t) (cnt_throttled_ t) (wakeup_time_ t) b (policy_ t).
Definition set_policy (p : policy) (t : tc) : tc :=
  Tc (parent_ t) (name_ t) (usage_ t) (cnt_throttled_ t) (wakeup_time_ t) (blocked_ t) p.
Definition set_wakeup (w : Z) (t : tc) : tc :=
  Tc (parent_ t) (name_ t) (usage_ t) (cnt_throttled_ t) w (blocked_ t) (policy_ t).
Definition set_usage (u : resource_arr) (t : tc) : tc :=
  Tc (parent_ t) (name_ t) u (cnt_throttled_ t) (wakeup_time_ t) (blocked_ t) (policy_ t).
Definition incr_throttled (t : tc) : tc :=
  Tc (parent_ t) (name_ t) (usage_ t) (u64 (cnt_throttled_ t + 1)) (wakeup_time_ t) (blocked_ t)
     (policy_ t).

(** Constructors of the classes. *)
Definition new_tc (name : string) (p : policy) (blocked : bool) : tc :=
  Tc None name [0; 0; 0; 0] 0 0 blocked p.
Definition new_Priority (name : string) : tc := new_tc name (Priority 0 []) true.
Definition new_WeightedFair (name : string) (resource : resource_t) : tc :=
  new_tc name (WeightedFair resource [] [] []) true.
Definition new_RoundRobin (name : string) : tc := new_tc name (RoundRobin 0 [] [] []) true.

Definition kUsageAmplifierPow : Z := 32.
Definition to_work_units_per_cycle (tsc_hz x : Z) : Z :=
  u64 (Z.shiftl x kUsageAmplifierPow / tsc_hz).
Definition to_work_units (x : Z) : Z := u64 (Z.shiftl x kUsageAmplifierPow).

Definition new_RateLimit (tsc_hz : Z) (name : string) (resource : resource_t)
    (limit max_burst : Z) : tc :=
  new_tc name (RateLimit resource (to_work_units_per_cycle tsc_hz limit) limit
                 (to_work_units max_burst) max_burst 0 0 None) true.

Definition kInitialWaitCycles : Z := 2 ^ 14.
Definition new_Leaf (name : string) (task : nat) : tc :=
  new_tc name (Leaf task kInitialWaitCycles) false.

Definition set_limit (tsc_hz limit : Z) (t : tc) : tc :=
  match policy_ t with
  | RateLimit r _ _ mb mba tk lt c =>
      set_policy (RateLimit r (to_work_units_per_cycle tsc_hz limit) limit mb mba tk lt c) t
  | _ => t
  end.

Definition set_max_burst (burst : Z) (t : tc) : tc :=
  match policy_ t with
  | RateLimit r l la _ _ tk lt c =>
      set_policy (RateLimit r l la (to_work_units burst) burst tk lt c) t
  | _ => t
  end.

(** [Children()] *)
Definition Children (t : tc) : list addr :=
  match policy_ t with
  | Priority _ cs => map snd cs
  | WeightedFair _ _ _ all => map fst all
  | RoundRobin _ _ _ all => all
  | RateLimit _ _ _ _ _ _ _ c => match c with Some c => [c] | None => [] end
  | Leaf _ _ => []
  end.

(** [c->blocked_]; [None] for a dangling pointer. *)
Definition blocked (h : store) (c : addr) : option bool := blocked_ <$> h !! c.

(** [NextPass()] *)
Definition NextPass (runnable : list wf_child) : Z :=
  match top runnable with Some x => pass x | None => 0 end.

(** [PickNextChild()]; reading past the children is undefined. *)
Definition PickNextChild (t : tc) : option addr :=
  match policy_ t with
  | Priority first cs => snd <$> cs !! first
  | WeightedFair _ runnable _ _ => wf_c <$> top runnable
  | RoundRobin next runnable _ _ => runnable !! Z.to_nat next
  | RateLimit _ _ _ _ _ _ _ c => c
  | Leaf _ _ => None
  end.

(** ** Blocking and unblocking towards the root *)

(** The index of the first child, if any, that is not blocked. *)
Fixpoint first_unblocked (h : store) (cs : list addr) : option nat :=
  match cs with
  | [] => Some O
  | c :: cs' => b ← blocked h c; if (b : bool) then S <$> first_unblocked h cs' else Some O
  end.

(** The loops of [PriorityTrafficClass] that advance [first_runnable_] from [i]. *)
Definition advance_runnable (h : store) (cs : list (Z * addr)) (i : nat) : option nat :=
  n ← first_unblocked h (map snd (drop i cs)); Some (i + n)%nat.

(** The loop of [WeightedFairTrafficClass::UnblockTowardsRoot]: the new runnable
    queue and the children that stay blocked. *)
Fixpoint wf_unblock (h : store) (runnable bl : list wf_child)
    : option (list wf_child * list wf_child) :=
  match bl with
  | [] => Some (runnable, [])
  | x :: bl' =>
      b ← blocked h (wf_c x);
      if (b : bool) then
        r ← wf_unblock h runnable bl'; Some (r.1, x :: r.2)
      else
        runnable ← push wf_less runnable
          (WfChild (stride x) (i64 (NextPass runnable + pass x)) (wf_c x));
        wf_unblock h runnable bl'
  end.

(** The loop of [RoundRobinTrafficClass::UnblockTowardsRoot]. *)
Fixpoint rr_unblock (h : store) (runnable bl : list addr) : option (list addr * list addr) :=
  match bl with
  | [] => Some (runnable, [])
  | x :: bl' =>
      b ← blocked h x;
      if (b : bool) then r ← rr_unblock h runnable bl'; Some (r.1, x :: r.2)
      else rr_unblock h (runnable ++ [x]) bl'
  end.

(** The predicate of [WeightedFairTrafficClass::BlockTowardsRoot], as a search for
    the first blocked child; it is the only one moved. *)
Fixpoint find_blocked (h : store) (l : list wf_child) : option (option wf_child) :=
  match l with
  | [] => Some None
  | x :: l' => b ← blocked h (wf_c x); if (b : bool) then Some (Some x) else find_blocked h l'
  end.

Definition wf_is (c : addr) (x : wf_child) : bool := bool_decide (wf_c x = c).

(** Removal of element [i] of the runnable children of a round robin. *)
Definition rr_erase (next : Z) (runnable : list addr) (i : nat) : Z * list addr :=
  let runnable := delete i runnable in
  let next := if Z.of_nat i <? next then next - 1 else next in
  let next := if Z.of_nat (length runnable) <=? next then 0 else next in
  (next, runnable).

(** The loop of [RoundRobinTrafficClass::BlockTowardsRoot] from index [i]. *)
Fixpoint rr_block (fuel : nat) (h : store) (i : nat) (next : Z) (runnable bl : list addr)
    : option (Z * list addr * list addr) :=
  match runnable !! i with
  | None => Some (next, runnable, bl)
  | Some c =>
      match fuel with
      | O => None
      | S fuel' =>
          b ← blocked h c;
          if (b : bool) then
            let '(next, runnable) := rr_erase next runnable i in
            rr_block fuel' h i next runnable (bl ++ [c])
          else rr_block fuel' h (S i) next runnable bl
      end
  end.

(** What each override of [UnblockTowardsRoot] computes before it calls
    [UnblockTowardsRootSetBlocked]: the members and [nowblocked]. *)
Definition PriorityUnblock (h : store) (cs : list (Z * addr)) : option (policy * bool) :=
  first ← advance_runnable h cs 0;
  Some (Priority first cs, (length cs <=? first)%nat).

Definition WeightedFairUnblock (h : store) (res : resource_t) (runnable bl : list wf_child)
    (all : list (addr * Z)) : option (policy * bool) :=
  r ← wf_unblock h runnable bl;
  Some (WeightedFair res r.1 r.2 all, bool_decide (r.1 = [])).

Definition RoundRobinUnblock (h : store) (next : Z) (runnable bl all : list addr)
    : option (policy * bool) :=
  r ← rr_unblock h runnable bl;
  Some (RoundRobin next r.1 r.2 all, bool_decide (r.1 = [])).

Definition RateLimitUnblock (h : store) (tsc wakeup_time_ : Z) (res : resource_t)
    (l la mb mba tk : Z) (c : option addr) : option (policy * bool) :=
  cb ← match c with Some c => blocked h c | None => Some true end;
  Some (RateLimit res l la mb mba tk tsc c, negb (wakeup_time_ =? 0) || cb).

Definition unblock_policy (h : store) (tsc : Z) (t : tc) : option (policy * bool) :=
  match policy_ t with
  | Priority _ cs => PriorityUnblock h cs
  | WeightedFair res runnable bl all => WeightedFairUnblock h res runnable bl all
  | RoundRobin next runnable bl all => RoundRobinUnblock h next runnable bl all
  | RateLimit res l la mb mba tk _ c => RateLimitUnblock h tsc (wakeup_time_ t) res l la mb mba tk c
  | Leaf task w => Some (Leaf task w, false)
  end.

(** The same for [BlockTowardsRoot]. *)
Definition PriorityBlock (h : store) (first : nat) (cs : list (Z * addr)) : option (policy * bool) :=
  first ← advance_runnable h cs first;
  Some (Priority first cs, (first =? length cs)%nat).

Definition WeightedFairBlock (h : store) (res : resource_t) (runnable bl : list wf_child)
    (all : list (addr * Z)) : option (policy * bool) :=
  x ← find_blocked h runnable;
  match x with
  | None => Some (WeightedFair res runnable bl all, bool_decide (runnable = []))
  | Some x =>
      r ← delete_single_element wf_less
            (fun y => default false (blocked h (wf_c y))) runnable;
      Some (WeightedFair res r.1 (bl ++ [x]) all, bool_decide (r.1 = []))
  end.

Definition RoundRobinBlock (h : store) (next : Z) (runnable bl all : list addr)
    : option (policy * bool) :=
  r ← rr_block (length runnable) h 0 next runnable bl;
  let '(next, runnable, bl) := r in
  Some (RoundRobin next runnable bl all, bool_decide (runnable = [])).

Definition RateLimitBlock (h : store) (p : policy) (c : option addr) : option (policy * bool) :=
  cb ← match c with Some c => blocked h c | None => Some true end;
  Some (p, cb).

Definition block_policy (h : store) (t : tc) : option (policy * bool) :=
  match policy_ t with
  | Priority first cs => PriorityBlock h first cs
  | WeightedFair res runnable bl all => WeightedFairBlock h res runnable bl all
  | RoundRobin next runnable bl all => RoundRobinBlock h next runnable bl all
  | RateLimit _ _ _ _ _ _ _ c => RateLimitBlock h (policy_ t) c
  | Leaf _ _ => Some (policy_ t, false)
  end.

(** [UnblockTowardsRootSetBlocked], with the parent's [UnblockTowardsRoot]. *)
Definition UnblockTowardsRootSetBlocked (rec : store -> addr -> option store)
    (h : store) (a : addr) (nowblocked : bool) : option store :=
  t ← h !! a;
  let became_unblocked := negb nowblocked && blocked_ t in
  let h := <[a := set_blocked nowblocked t]> h in
  match parent_ t with
  | Some p => if became_unblocked then rec h p else Some h
  | None => Some h
  end.

Definition BlockTowardsRootSetBlocked (rec : store -> addr -> option store)
    (h : store) (a : addr) (nowblocked : bool) : option store :=
  t ← h !! a;
  let became_blocked := nowblocked && negb (blocked_ t) in
  let h := <[a := set_blocked nowblocked t]> h in
  match parent_ t with
  | Some p => if became_blocked then rec h p else Some h
  | None => Some h
  end.

Fixpoint unblock_fuel (fuel : nat) (tsc : Z) (h : store) (a : addr) : option store :=
  match fuel with
  | O => None
  | S fuel' =>
      t ← h !! a;
      r ← unblock_policy h tsc t;
      UnblockTowardsRootSetBlocked (unblock_fuel fuel' tsc)
        (<[a := set_policy r.1 t]> h) a r.2
  end.

Fixpoint block_fuel (fuel : nat) (h : store) (a : addr) : option store :=
  match fuel with
  | O => None
  | S fuel' =>
      t ← h !! a;
      r ← block_policy h t;
      BlockTowardsRootSetBlocked (block_fuel fuel') (<[a := set_policy r.1 t]> h) a r.2
  end.

(** A path to the root is no longer than the number of classes. *)
Definition UnblockTowardsRoot (h : store) (a : addr) (tsc : Z) : option store :=
  unblock_fuel (size h) tsc h a.
Definition BlockTowardsRoot (h : store) (a : addr) : option store :=
  block_fuel (size h) h a.

(** ** Children *)
Inductive child_args :=
| PriorityChildArgs (priority : Z)
| WeightedFairChildArgs (share : Z)
| RoundRobinChildArgs
| RateLimitChildArgs.

Definition update (h : store) (a : addr) (f : tc -> tc) : option store :=
  t ← h !! a; Some (<[a := f t]> h).

Definition prio_less (l r : Z * addr) : bool := fst l <? fst r.

(** [Priority], [WeightedFair], [RoundRobin] and [RateLimit]'s [AddChild]. *)
Definition PriorityAddChild (h : store) (a child : addr) (priority tsc : Z)
    (first : nat) (cs : list (Z * addr)) : option (store * bool) :=
  ct ← h !! child;
  if bool_decide (is_Some (parent_ ct)) then Some (h, false)
  else if existsb (fun c => fst c =? priority) cs then Some (h, false)
  else
    h ← update h a (set_policy (Priority first (InsertSorted prio_less cs (priority, child))));
    h ← update h child (set_parent (Some a));
    h ← UnblockTowardsRoot h a tsc;
    Some (h, true).

Definition WeightedFairAddChild (h : store) (a child : addr) (share tsc : Z)
    (res : resource_t) (runnable bl : list wf_child) (all : list (addr * Z))
    : option (store * bool) :=
  ct ← h !! child;
  if bool_decide (is_Some (parent_ ct)) || (share =? 0) then Some (h, false)
  else
    h ← update h child (set_parent (Some a));
    let child_data := WfChild (Z.quot STRIDE1 share) (NextPass runnable) child in
    h ← (if blocked_ ct then
           update h a (set_policy (WeightedFair res runnable (bl ++ [child_data]) all))
         else
           runnable ← push wf_less runnable child_data;
           h ← update h a (set_policy (WeightedFair res runnable bl all));
           UnblockTowardsRoot h a tsc);
    h ← update h a (fun t =>
          match policy_ t with
          | WeightedFair res runnable bl all =>
              set_policy (WeightedFair res runnable bl (all ++ [(child, share)])) t
          | _ => t
          end);
    Some (h, true).

Definition RoundRobinAddChild (h : store) (a child : addr) (tsc : Z)
    (next : Z) (runnable bl all : list addr) : option (store * bool) :=
  ct ← h !! child;
  if bool_decide (is_Some (parent_ ct)) then Some (h, false)
  else
    h ← update h child (set_parent (Some a));
    h ← update h a (set_policy
          (if blocked_ ct then RoundRobin next runnable (bl ++ [child]) all
           else RoundRobin next (runnable ++ [child]) bl all));
    h ← UnblockTowardsRoot h a tsc;
    h ← update h a (fun t =>
          match policy_ t with
          | RoundRobin next runnable bl all =>
              set_policy (RoundRobin next runnable bl (all ++ [child])) t
          | _ => t
          end);
    Some (h, true).

Definition RateLimitAddChild (h : store) (a child : addr) (tsc : Z)
    (p : option addr -> policy) (child_ : option addr) : option (store * bool) :=
  ct ← h !! child;
  if bool_decide (is_Some (parent_ ct)) || bool_decide (is_Some child_) then Some (h, false)
  else
    h ← update h a (set_policy (p (Some child)));
    h ← update h child (set_parent (Some a));
    h ← UnblockTowardsRoot h a tsc;
    Some (h, true).

(** [parent->AddChild(child, ...)]; the arguments fit the policy of the parent. *)
Definition AddChild (h : store) (a child : addr) (args : child_args) (tsc : Z)
    : option (store * bool) :=
  t ← h !! a;
  match policy_ t, args with
  | Priority first cs, PriorityChildArgs priority =>
      PriorityAddChild h a child priority tsc first cs
  | WeightedFair res runnable bl all, WeightedFairChildArgs share =>
      WeightedFairAddChild h a child share tsc res runnable bl all
  | RoundRobin next runnable bl all, RoundRobinChildArgs =>
      RoundRobinAddChild h a child tsc next runnable bl all
  | RateLimit res l la mb mba tk lt c, RateLimitChildArgs =>
      RateLimitAddChild h a child tsc (RateLimit res l la mb mba tk lt) c
  | _, _ => None
  end.

(** The position of [child] in a list of children. *)
Definition find_child {A} (f : A -> addr) (child : addr) (l : list A) : option nat :=
  find_if (fun x => bool_decide (f x = child)) l.

(** Erase the first occurrence of [child], if any. *)
Definition erase_child {A} (f : A -> addr) (child : addr) (l : list A) : list A :=
  match find_child f child l with Some i => delete i l | None => l end.

Definition PriorityRemoveChild (h : store) (a child : addr) (first : nat)
    (cs : list (Z * addr)) : option (store * bool) :=
  match find_child snd child cs with
  | None => Some (h, false)
  | Some i =>
      let first := if (i <? first)%nat then (first - 1)%nat else first in
      h ← update h a (set_policy (Priority first (delete i cs)));
      h ← update h child (set_parent None);
      h ← BlockTowardsRoot h a;
      Some (h, true)
  end.

Definition WeightedFairRemoveChild (h : store) (a child : addr) (res : resource_t)
    (runnable bl : list wf_child) (all : list (addr * Z)) : option (store * bool) :=
  let all := erase_child fst child all in
  match find_child wf_c child bl with
  | Some i =>
      h ← update h a (set_policy (WeightedFair res runnable (delete i bl) all));
      h ← update h child (set_parent None);
      Some (h, true)
  | None =>
      r ← delete_single_element wf_less (wf_is child) runnable;
      h ← update h a (set_policy (WeightedFair res r.1 bl all));
      if (r.2 : bool) then
        h ← update h child (set_parent None);
        h ← BlockTowardsRoot h a;
        Some (h, true)
      else Some (h, false)
  end.

Definition RoundRobinRemoveChild (h : store) (a child : addr) (next : Z)
    (runnable bl all : list addr) : option (store * bool) :=
  let all := erase_child id child all in
  match find_child id child bl with
  | Some i =>
      h ← update h a (set_policy (RoundRobin next runnable (delete i bl) all));
      h ← update h child (set_parent None);
      Some (h, true)
  | None =>
      match find_child id child runnable with
      | Some i =>
          let '(next, runnable) := rr_erase next runnable i in
          h ← update h a (set_policy (RoundRobin next runnable bl all));
          h ← update h child (set_parent None);
          h ← BlockTowardsRoot h a;
          Some (h, true)
      | None =>
          h ← update h a (set_policy (RoundRobin next runnable bl all));
          Some (h, false)
      end
  end.

Definition RateLimitRemoveChild (h : store) (a child : addr)
    (p : option addr -> policy) (child_ : option addr) : option (store * bool) :=
  if bool_decide (child_ = Some child) then
    h ← update h child (set_parent None);
    h ← update h a (set_policy (p None));
    h ← BlockTowardsRoot h a;
    Some (h, true)
  else Some (h, false).

Definition RemoveChild (h : store) (a child : addr) : option (store * bool) :=
  t ← h !! a;
  match policy_ t with
  | Leaf _ _ => Some (h, false)
  | p =>
      ct ← h !! child;
      if negb (bool_decide (parent_ ct = Some a)) then Some (h, false) else
      match p with
      | Priority first cs => PriorityRemoveChild h a child first cs
      | WeightedFair res runnable bl all => WeightedFairRemoveChild h a child res runnable bl all
      | RoundRobin next runnable bl all => RoundRobinRemoveChild h a child next runnable bl all
      | RateLimit res l la mb mba tk lt c =>
          RateLimitRemoveChild h a child (RateLimit res l la mb mba tk lt) c
      | Leaf _ _ => Some (h, false)
      end
  end.

(** ** Accounting after a task has run *)

(** [SchedWakeupQueue]: the comparison reads the wake-up times of the classes. *)
Definition wakeup_time (h : store) (a : addr) : Z :=
  match h !! a with Some t => wakeup_time_ t | None => 0 end.
Definition WakeupComp (h : store) (left right : addr) : bool :=
  wakeup_time h right <? wakeup_time h left.

Definition WakeupAdd (h : store) (q : list addr) (c : addr) : option (list addr) :=
  push (WakeupComp h) q c.
Definition WakeupRemove (h : store) (q : list addr) (c : addr) : option (list addr) :=
  r ← delete_single_element (WakeupComp h) (fun t => bool_decide (t = c)) q; Some r.1.

Definition PriorityFinish (h : store) (child : addr) (first : nat) (cs : list (Z * addr)) (t : tc)
    : option tc :=
  cb ← blocked h child;
  if (cb : bool) then
    first ← advance_runnable h cs first;
    Some (set_blocked (first =? length cs)%nat (set_policy (Priority first cs) t))
  else Some t.

Definition WeightedFairFinish (h : store) (child : addr) (usage : resource_arr) (res : resource_t)
    (runnable bl : list wf_child) (all : list (addr * Z)) (t : tc) : option tc :=
  match runnable with
  | [] => None
  | item :: rest =>
      consumed ← usage !! resource_index res;
      let pass_delta := u64 (stride item * consumed) / QUANTUM in
      cb ← blocked h child;
      if (cb : bool) then
        let item := WfChild (stride item) (i64 pass_delta) (wf_c item) in
        runnable ← pop wf_less (item :: rest);
        Some (set_blocked (bool_decide (runnable = []))
                (set_policy (WeightedFair res runnable (bl ++ [item]) all) t))
      else
        let item := WfChild (stride item) (i64 (pass item + pass_delta)) (wf_c item) in
        runnable ← decrease_key_top wf_less (item :: rest);
        Some (set_policy (WeightedFair res runnable bl all) t)
  end.

Definition RoundRobinFinish (h : store) (child : addr) (usage : resource_arr) (next : Z)
    (runnable bl all : list addr) (t : tc) : option tc :=
  cb ← blocked h child;
  count ← usage !! resource_index RESOURCE_COUNT;
  let wrap_around next runnable :=
    if Z.of_nat (length runnable) <=? next then 0 else next in
  if (cb : bool) then
    match runnable !! Z.to_nat next with
    | None => None
    | Some _ =>
        let runnable := delete (Z.to_nat next) runnable in
        Some (set_blocked (bool_decide (runnable = []))
          (set_policy (RoundRobin (wrap_around next runnable) runnable (bl ++ [child]) all) t))
    end
  else
    let next := u64 (next + count) in
    Some (set_policy (RoundRobin (wrap_around next runnable) runnable bl all) t).

(** The flag tells whether the class adds itself to the wake-up queue. *)
Definition RateLimitFinish (h : store) (child : addr) (usage : resource_arr) (tsc : Z)
    (res : resource_t) (limit limit_arg max_burst max_burst_arg tokens_ last_tsc : Z)
    (child_ : option addr) (t : tc) : option (tc * bool) :=
  let elapsed_cycles := u64 (tsc - last_tsc) in
  let tokens := u64 (tokens_ + u64 (limit * elapsed_cycles)) in
  u ← usage !! resource_index res;
  let consumed := to_work_units u in
  cb ← blocked h child;
  let set tokens t :=
    set_policy (RateLimit res limit limit_arg max_burst max_burst_arg tokens tsc child_) t in
  if tokens <? consumed then
    let t := incr_throttled (set_blocked true (set 0 t)) in
    if limit =? 0 then Some (t, false)
    else
      let wait_tsc := (consumed - tokens) / limit in
      Some (set_wakeup (u64 (tsc + wait_tsc)) t, true)
  else
    let t := set (Z.min (tokens - consumed) max_burst) t in
    Some (set_blocked (blocked_ t || cb) t, false).

(** One override of [FinishAndAccountTowardsRoot], up to the call of the parent's. *)
Definition finish_step (h : store) (q : list addr) (a : addr) (child : option addr)
    (usage : resource_arr) (tsc : Z) : option (store * list addr) :=
  t ← h !! a;
  let t := set_usage (ACCUMULATE (usage_ t) usage) t in
  match policy_ t, child with
  | Priority first cs, Some child =>
      t ← PriorityFinish h child first cs t; Some (<[a := t]> h, q)
  | WeightedFair res runnable bl all, Some child =>
      t ← WeightedFairFinish h child usage res runnable bl all t; Some (<[a := t]> h, q)
  | RoundRobin next runnable bl all, Some child =>
      t ← RoundRobinFinish h child usage next runnable bl all t; Some (<[a := t]> h, q)
  | RateLimit res l la mb mba tk lt c, Some child =>
      r ← RateLimitFinish h child usage tsc res l la mb mba tk lt c t;
      let h := <[a := r.1]> h in
      q ← (if (r.2 : bool) then WakeupAdd h q a else Some q);
      Some (h, q)
  | Leaf _ _, _ => Some (<[a := t]> h, q)
  | _, None => None
  end.

Fixpoint finish_fuel (fuel : nat) (h : store) (q : list addr) (a : addr) (child : option addr)
    (usage : resource_arr) (tsc : Z) : option (store * list addr) :=
  match fuel with
  | O => None
  | S fuel' =>
      t ← h !! a;
      r ← finish_step h q a child usage tsc;
      match parent_ t with
      | None => Some r
      | Some p => finish_fuel fuel' r.1 r.2 p (Some a) usage tsc
      end
  end.

Definition FinishAndAccountTowardsRoot (h : store) (q : list addr) (a : addr)
    (child : option addr) (usage : resource_arr) (tsc : Z) : option (store * list addr) :=
  finish_fuel (size h) h q a child usage tsc.
