(* ===== verification/TrafficClassFacts.v ===== *)
(** Facts on the operations of one traffic class: what blocking, unblocking and
    accounting do to the members of a class whose children are in a consistent state. *)
From stdpp Require Import strings.
From S2P Require Import Prelude Common PriorityQueue TrafficClass.
Open Scope Z_scope.

(** ** Facts on the queue orders *)
Lemma wf_less_asym a b : wf_less a b = true -> wf_less b a = false.
Proof. unfold wf_less. rewrite Z.ltb_lt, Z.ltb_ge. lia. Qed.
Lemma wf_less_ntrans a b c : wf_less a b = false -> wf_less b c = false -> wf_less a c = false.
Proof. unfold wf_less. rewrite !Z.ltb_ge. lia. Qed.
Lemma WakeupComp_asym h a b : WakeupComp h a b = true -> WakeupComp h b a = false.
Proof. unfold WakeupComp. rewrite Z.ltb_lt, Z.ltb_ge. lia. Qed.
Lemma WakeupComp_ntrans h a b c :
  WakeupComp h a b = false -> WakeupComp h b c = false -> WakeupComp h a c = false.
Proof. unfold WakeupComp. rewrite !Z.ltb_ge. lia. Qed.
#[export] Hint Resolve wf_less_asym wf_less_ntrans WakeupComp_asym WakeupComp_ntrans : bess.

(** ** Views of a class *)

(** The children a class schedules. *)
Definition kids (p : policy) : list addr :=
  match p with
  | Priority _ cs => map snd cs
  | WeightedFair _ r b _ => map wf_c (r ++ b)
  | RoundRobin _ r b _ => r ++ b
  | RateLimit _ _ _ _ _ _ _ c => match c with Some c => [c] | None => [] end
  | Leaf _ _ => []
  end.

(** The members that scheduling leaves alone. *)
Inductive shape_t :=
| ShPriority (cs : list (Z * addr))
| ShWeightedFair (res : resource_t) (all : list (addr * Z))
| ShRoundRobin (all : list addr)
| ShRateLimit (res : resource_t) (l la mb mba : Z) (c : option addr)
| ShLeaf (task : nat).

Definition shape (p : policy) : shape_t :=
  match p with
  | Priority _ cs => ShPriority cs
  | WeightedFair res _ _ all => ShWeightedFair res all
  | RoundRobin _ _ _ all => ShRoundRobin all
  | RateLimit res l la mb mba _ _ c => ShRateLimit res l la mb mba c
  | Leaf task _ => ShLeaf task
  end.

Definition next_ok (next : Z) (r : list addr) : Prop :=
  0 <= next /\ (next < Z.of_nat (length r) \/ next = 0).

(** The bookkeeping of a class agrees with the blocked flags [bl] of its children. *)
Definition settled (bl : addr -> bool) (t : tc) : Prop :=
  match policy_ t with
  | Priority first cs =>
      (first <= length cs)%nat /\ Forall (fun c => bl (snd c) = true) (take first cs) /\
      (forall c, cs !! first = Some c -> bl (snd c) = false) /\
      blocked_ t = bool_decide (first = length cs)
  | WeightedFair _ r b _ =>
      is_heap wf_less r /\ Forall (fun x => bl (wf_c x) = false) r /\
      Forall (fun x => bl (wf_c x) = true) b /\ blocked_ t = bool_decide (r = [])
  | RoundRobin next r b _ =>
      next_ok next r /\ Forall (fun x => bl x = false) r /\ Forall (fun x => bl x = true) b /\
      blocked_ t = bool_decide (r = [])
  | RateLimit _ limit _ _ _ _ _ c =>
      (blocked_ t = false -> wakeup_time_ t = 0 /\ exists x, c = Some x /\ bl x = false) /\
      (blocked_ t = true -> wakeup_time_ t <> 0 \/ limit = 0 \/ c = None \/
         exists x, c = Some x /\ bl x = true)
  | Leaf _ _ => blocked_ t = false -> wakeup_time_ t = 0
  end.

(** Some blocked child may have become unblocked: [UnblockTowardsRoot] is due. *)
Definition unblock_due (bl : addr -> bool) (t : tc) : Prop :=
  match policy_ t with
  | Priority _ cs => Forall (fun c => bl (snd c) = true) cs -> blocked_ t = true
  | WeightedFair _ r b _ =>
      is_heap wf_less r /\ Forall (fun x => bl (wf_c x) = false) r /\ (r = [] -> blocked_ t = true)
  | RoundRobin next r b _ =>
      next_ok next r /\ Forall (fun x => bl x = false) r /\ (r = [] -> blocked_ t = true)
  | RateLimit _ _ _ _ _ _ _ c =>
      blocked_ t = false -> wakeup_time_ t = 0 /\ exists x, c = Some x /\ bl x = false
  | Leaf _ _ => wakeup_time_ t = 0
  end.

(** At most one child became blocked or was removed: [BlockTowardsRoot] is due. *)
Definition block_due (bl : addr -> bool) (t : tc) : Prop :=
  match policy_ t with
  | Priority first cs =>
      (first <= length cs)%nat /\ Forall (fun c => bl (snd c) = true) (take first cs) /\
      (blocked_ t = true -> Forall (fun c => bl (snd c) = true) cs)
  | WeightedFair _ r b _ =>
      is_heap wf_less r /\ (exists c0, Forall (fun x => wf_c x <> c0 -> bl (wf_c x) = false) r) /\
      Forall (fun x => bl (wf_c x) = true) b /\ (blocked_ t = true -> r = [])
  | RoundRobin next r b _ =>
      next_ok next r /\ Forall (fun x => bl x = true) b /\ (blocked_ t = true -> r = [])
  | RateLimit _ _ _ _ _ _ _ c => c = None \/ exists x, c = Some x /\ bl x = true
  | Leaf _ _ => False
  end.

(** The class has picked [c], which is running and may end up blocked. *)
Definition running (bl : addr -> bool) (c : addr) (t : tc) : Prop :=
  blocked_ t = false /\ PickNextChild t = Some c /\
  settled (fun x => if decide (x = c) then false else bl x) t.

(** The flag of a child, when all children are in the store. *)
Definition bl (h : store) (c : addr) : bool := default true (blocked h c).
Definition present (h : store) (l : list addr) : Prop := Forall (fun c => is_Some (h !! c)) l.

Lemma present_bl h l c : present h l -> c ∈ l -> blocked h c = Some (bl h c).
Proof.
  unfold present, bl, blocked. rewrite Forall_forall. intros Hp Hc.
  destruct (Hp c Hc) as [t ->]. done.
Qed.

Lemma present_cons h c l : present h (c :: l) -> blocked h c = Some (bl h c) /\ present h l.
Proof.
  intros Hp. split; [apply (present_bl h (c :: l)); [done|by left]|]. by apply Forall_cons in Hp as [].
Qed.

Lemma Forall_map_snd {A} (P : addr -> Prop) (l : list (A * addr)) :
  Forall P (map snd l) <-> Forall (fun c => P (snd c)) l.
Proof. apply Forall_fmap. Qed.

(** ** The loops *)
Lemma first_unblocked_spec h cs : present h cs ->
  exists n, first_unblocked h cs = Some n /\ (n <= length cs)%nat /\
    Forall (fun c => bl h c = true) (take n cs) /\ (forall c, cs !! n = Some c -> bl h c = false).
Proof.
  induction cs as [|c cs IH]; intros Hp; cbn [first_unblocked].
  { exists O. split; [done|]. split; [done|]. split; [constructor|done]. }
  apply present_cons in Hp as [-> Hp]. cbn [mbind option_bind].
  destruct (bl h c) eqn:Hc.
  - destruct (IH Hp) as (n & -> & Hn & Hall & Hat). exists (S n). cbn. split; [done|].
    split; [lia|]. split; [by constructor|done].
  - exists O. cbn. split; [done|]. split; [lia|]. split; [constructor|]. by intros ? [= <-].
Qed.

Lemma advance_runnable_spec h cs i : present h (map snd cs) -> (i <= length cs)%nat ->
  Forall (fun c => bl h (snd c) = true) (take i cs) ->
  exists n, advance_runnable h cs i = Some n /\ (n <= length cs)%nat /\
    Forall (fun c => bl h (snd c) = true) (take n cs) /\
    (forall c, cs !! n = Some c -> bl h (snd c) = false).
Proof.
  intros Hp Hi Htake. unfold advance_runnable.
  destruct (first_unblocked_spec h (map snd (drop i cs))) as (n & -> & Hn & Hall & Hat).
  { unfold present in *. rewrite Forall_map_snd in *. by apply Forall_drop. }
  cbn [mbind option_bind]. exists (i + n)%nat. split; [done|].
  rewrite length_map, length_drop in Hn. split; [lia|]. split.
  - rewrite <- (take_drop i (take (i + n) cs)), take_take, skipn_firstn_comm.
    replace (i `min` (i + n))%nat with i by lia. replace (i + n - i)%nat with n by lia.
    apply Forall_app. split; [done|]. rewrite <- fmap_take in Hall.
    by apply (Forall_map_snd (fun c => bl h c = true)) in Hall.
  - intros c Hc. apply Hat. rewrite list_lookup_fmap, lookup_drop, Hc. done.
Qed.

Lemma wf_unblock_spec h r b : present h (map wf_c b) -> is_heap wf_less r ->
  Forall (fun x => bl h (wf_c x) = false) r ->
  exists r' b', wf_unblock h r b = Some (r', b') /\ is_heap wf_less r' /\
    Forall (fun x => bl h (wf_c x) = false) r' /\ Forall (fun x => bl h (wf_c x) = true) b' /\
    map wf_c (r' ++ b') ≡ₚ map wf_c (r ++ b) /\ (r' = [] -> r = []).
Proof.
  revert r. induction b as [|x b IH]; intros r Hp Hr Hall; cbn [wf_unblock].
  { exists r, []. by repeat split. }
  cbn [map] in Hp. apply present_cons in Hp as [-> Hp]. cbn [mbind option_bind].
  destruct (bl h (wf_c x)) eqn:Hx.
  - destruct (IH r Hp Hr Hall) as (r' & b' & -> & ? & ? & ? & Hm & ?). cbn [mbind option_bind fst snd].
    exists r', (x :: b'). split; [done|]. split; [done|]. split; [done|]. split; [by constructor|].
    split; [|done]. rewrite <- !Permutation_middle. cbn [map]. by rewrite Hm.
  - set (y := WfChild _ _ _).
    destruct (push_spec wf_less wf_less_asym wf_less_ntrans r y Hr) as (r1 & -> & Hr1 & Hp1).
    cbn [mbind option_bind].
    destruct (IH r1 Hp Hr1) as (r' & b' & -> & ? & ? & ? & Hm & Hne).
    { rewrite Hp1. by constructor. }
    exists r', b'. split; [done|]. split; [done|]. split; [done|]. split; [done|]. split.
    + rewrite Hm, Hp1. cbn [app map]. rewrite <- Permutation_middle. done.
    + intros ->. specialize (Hne eq_refl). rewrite Hne in Hp1. by apply Permutation_nil_cons in Hp1.
Qed.

Lemma rr_unblock_spec h r b : present h b -> Forall (fun x => bl h x = false) r ->
  exists r' b', rr_unblock h r b = Some (r', b') /\
    Forall (fun x => bl h x = false) r' /\ Forall (fun x => bl h x = true) b' /\
    r' ++ b' ≡ₚ r ++ b /\ (length r <= length r')%nat.
Proof.
  revert r. induction b as [|x b IH]; intros r Hp Hall; cbn [rr_unblock].
  { exists r, []. by repeat split. }
  apply present_cons in Hp as [-> Hp]. cbn [mbind option_bind].
  destruct (bl h x) eqn:Hx.
  - destruct (IH r Hp Hall) as (r' & b' & -> & ? & ? & Hm & ?). cbn [mbind option_bind fst snd].
    exists r', (x :: b'). split; [done|]. split; [done|]. split; [by constructor|].
    split; [|done]. rewrite <- !Permutation_middle. by rewrite Hm.
  - destruct (IH (r ++ [x]) Hp) as (r' & b' & -> & ? & ? & Hm & Hl).
    { apply Forall_app. split; [done|]. by constructor. }
    exists r', b'. split; [done|]. split; [done|]. split; [done|].
    split; [by rewrite Hm, <- app_assoc|]. rewrite length_app in Hl. lia.
Qed.

(** ** [UnblockTowardsRoot] of one class *)
Lemma unblock_policy_spec h tsc t : present h (kids (policy_ t)) -> unblock_due (bl h) t ->
  exists p nb, unblock_policy h tsc t = Some (p, nb) /\
    settled (bl h) (set_blocked nb (set_policy p t)) /\ (nb = true -> blocked_ t = true) /\
    kids p ≡ₚ kids (policy_ t) /\ shape p = shape (policy_ t).
Proof.
  destruct t as [pa nm us ct wk bk p]; cbn [policy_ blocked_]. intros Hp Hd.
  destruct p as [first cs|res r b all|next r b all|res l la mb mba tk lt c|task w];
    unfold unblock_policy, PriorityUnblock, WeightedFairUnblock, RoundRobinUnblock, RateLimitUnblock,
      unblock_due in *; cbn [policy_ kids blocked_ wakeup_time_] in *.
  - destruct (advance_runnable_spec h cs 0 Hp) as (n & -> & Hn & Hall & Hat); [lia|constructor|].
    cbn [mbind option_bind]. do 2 eexists. split; [done|]. split; [|split; [|done]].
    + cbn. split; [done|]. split; [done|]. split; [done|].
      destruct (Nat.leb_spec (length cs) n).
      * by rewrite bool_decide_true by lia.
      * by rewrite bool_decide_false by lia.
    + intros Hle%Nat.leb_le. apply Hd. by rewrite take_ge in Hall.
  - destruct Hd as (Hh & Hr & Hb). rewrite map_app in Hp. apply Forall_app in Hp as [_ Hp].
    destruct (wf_unblock_spec h r b Hp Hh Hr) as (r' & b' & -> & ? & ? & ? & Hm & Hne).
    cbn [mbind option_bind fst snd]. do 2 eexists. split; [done|]. split; [by repeat split|].
    split; [|done]. intros ->%bool_decide_eq_true. by apply Hb, Hne.
  - destruct Hd as (Hnx & Hr & Hb). apply Forall_app in Hp as [_ Hp].
    destruct (rr_unblock_spec h r b Hp Hr) as (r' & b' & -> & ? & ? & Hm & Hl).
    cbn [mbind option_bind fst snd]. do 2 eexists. split; [done|]. split.
    { cbn. split; [|by repeat split]. unfold next_ok in *. lia. }
    split; [|done]. intros ->%bool_decide_eq_true. apply Hb. cbn in Hl. destruct r; [done|cbn in Hl; lia].
  - assert (exists cb, match c with Some c => blocked h c | None => Some true end = Some cb /\
      (cb = false -> exists x, c = Some x /\ bl h x = false) /\
      (cb = true -> c = None \/ exists x, c = Some x /\ bl h x = true)) as (cb & -> & Hf & Ht).
    { destruct c as [c|]; [|by exists true; repeat split; [|left]].
      apply present_cons in Hp as [Hc _]. exists (bl h c). split; [done|].
      split; intros Hx; [by exists c|right; by exists c]. }
    cbn [mbind option_bind]. do 2 eexists. split; [done|]. split; [|split; [|done]].
    + split; cbn [blocked_ set_blocked set_policy wakeup_time_].
      * intros [Hw%negb_false_iff%Z.eqb_eq Hcb]%orb_false_iff. by split; [|apply Hf].
      * intros [Hw%negb_true_iff%Z.eqb_neq|Hcb]%orb_true_iff; [by left|]. right. right. by apply Ht.
    + intros Hnb. destruct bk; [done|]. destruct (Hd eq_refl) as (-> & x & -> & Hx).
      apply present_cons in Hp as [Hc _]. destruct cb; [|done].
      destruct (Ht eq_refl) as [|(y & [= <-] & Hy)]; [done|congruence].
  - exists (Leaf task w), false. split; [done|]. split; [by intros _|]. split; [done|]. by split.
Qed.

(** ** [BlockTowardsRoot] of one class *)
Lemma find_blocked_spec h r : present h (map wf_c r) ->
  exists x, find_blocked h r = Some x /\
    match x with
    | None => Forall (fun x => bl h (wf_c x) = false) r
    | Some x => x ∈ r /\ bl h (wf_c x) = true
    end.
Proof.
  induction r as [|y r IH]; intros Hp; cbn [find_blocked]; [by exists None|].
  cbn [map] in Hp. apply present_cons in Hp as [-> Hp]. cbn [mbind option_bind].
  destruct (bl h (wf_c y)) eqn:Hy.
  - exists (Some y). split; [done|]. split; [by left|done].
  - destruct (IH Hp) as ([x|] & -> & Hx); eexists; (split; [done|]).
    + split; [right|]; apply Hx.
    + by constructor.
Qed.

Lemma blocked_default h c : is_Some (h !! c) -> default false (blocked h c) = bl h c.
Proof. unfold bl, blocked. by intros [t ->]. Qed.

Lemma NoDup_wf_inj (r : list wf_child) x y :
  NoDup (map wf_c r) -> x ∈ r -> y ∈ r -> wf_c x = wf_c y -> x = y.
Proof. apply NoDup_map_inj. Qed.

(** Removing the only blocked child of the queue. *)
Lemma wf_block_one h r c0 x : is_heap wf_less r -> present h (map wf_c r) -> NoDup (map wf_c r) ->
  Forall (fun x => wf_c x <> c0 -> bl h (wf_c x) = false) r -> x ∈ r -> bl h (wf_c x) = true ->
  exists r', delete_single_element wf_less (fun y => default false (blocked h (wf_c y))) r
      = Some (r', true) /\
    is_heap wf_less r' /\ Forall (fun x => bl h (wf_c x) = false) r' /\ r ≡ₚ x :: r'.
Proof.
  intros Hh Hp Hnd Hone Hx Hbx. set (f := fun y => default false (blocked h (wf_c y))).
  assert (Hf : forall y, y ∈ r -> f y = bl h (wf_c y)).
  { intros y Hy. apply blocked_default. unfold present in Hp.
    rewrite Forall_forall in Hp. apply Hp. by apply list_elem_of_fmap_2. }
  destruct (delete_single_element_spec wf_less wf_less_asym wf_less_ntrans f r Hh)
    as (r' & b & -> & Hh' & Hb).
  rewrite Forall_forall in Hone.
  assert (Hxc : wf_c x = c0) by (destruct (decide (wf_c x = c0)); [done|]; rewrite Hone in Hbx by done; done).
  destruct b.
  - destruct Hb as (y & Hfy & Hpy). assert (y ∈ r) as Hy by (rewrite Hpy; by left).
    rewrite Hf in Hfy by done.
    assert (Hyc : wf_c y = c0) by (destruct (decide (wf_c y = c0)); [done|]; rewrite Hone in Hfy by done; done).
    assert (y = x) as -> by (apply (NoDup_wf_inj r); [done|done|done|congruence]).
    exists r'. split; [done|]. split; [done|]. split; [|done].
    apply Forall_forall. intros z Hz. apply Hone; [rewrite Hpy; by right|].
    intros Hzc. rewrite Hpy in Hnd. cbn [map] in Hnd. apply NoDup_cons in Hnd as [Hnd _].
    apply Hnd. rewrite Hxc, <- Hzc. by apply list_elem_of_fmap_2.
  - destruct Hb as [_ Hall]. rewrite Forall_forall in Hall. specialize (Hall x Hx).
    rewrite Hf, Hbx in Hall by done. done.
Qed.

Lemma rr_erase_spec next r i c : next_ok next r -> r !! i = Some c ->
  exists next', rr_erase next r i = (next', delete i r) /\ next_ok next' (delete i r) /\
    r ≡ₚ c :: delete i r.
Proof.
  intros [H0 Hn] Hi. unfold rr_erase. eexists. split; [reflexivity|]. split.
  - split; [destruct (Z.ltb_spec (Z.of_nat i) next); case_match; lia|].
    destruct (Z.ltb_spec (Z.of_nat i) next); case_match; lia.
  - by apply delete_Permutation.
Qed.

Lemma rr_block_spec fuel h i next r b : (length r - i <= fuel)%nat -> present h r ->
  next_ok next r -> Forall (fun x => bl h x = false) (take i r) -> Forall (fun x => bl h x = true) b ->
  exists next' r' b', rr_block fuel h i next r b = Some (next', r', b') /\ next_ok next' r' /\
    Forall (fun x => bl h x = false) r' /\ Forall (fun x => bl h x = true) b' /\
    r' ++ b' ≡ₚ r ++ b /\ (r' = r \/ (length r' < length r)%nat).
Proof.
  revert i next r b. induction fuel as [|fuel IH]; intros i next r b Hf Hp Hn Hr Hb;
    cbn [rr_block]; destruct (r !! i) as [c|] eqn:Hc.
  - apply lookup_lt_Some in Hc. lia.
  - apply lookup_ge_None in Hc. rewrite take_ge in Hr by done.
    exists next, r, b. do 5 (split; [done|]); by left.
  - assert (blocked h c = Some (bl h c)) as -> by (apply (present_bl h r); [done|]; by eapply list_elem_of_lookup_2).
    cbn [mbind option_bind]. pose proof (lookup_lt_Some _ _ _ Hc) as Hlt.
    destruct (bl h c) eqn:Hbc.
    + destruct (rr_erase_spec next r i c Hn Hc) as (n' & -> & Hn' & Hp').
      destruct (IH i n' (delete i r) (b ++ [c])) as (next' & r' & b' & -> & ? & ? & ? & Hm & Hl).
      * rewrite length_delete by done. lia.
      * unfold present in *. rewrite Hp' in Hp. by apply Forall_cons in Hp as [].
      * done.
      * rewrite delete_take_drop, take_app_le, take_take, Nat.min_id by (rewrite length_take; lia). done.
      * apply Forall_app. split; [done|]. by constructor.
      * exists next', r', b'. do 4 (split; [done|]). split.
        { rewrite Hm. transitivity ((c :: delete i r) ++ b).
          - rewrite app_assoc, (Permutation_app_comm _ [c]). done.
          - apply Permutation_app; [by symmetry|done]. }
        right. rewrite length_delete in Hl by done. destruct Hl as [->|]; [|lia].
        rewrite length_delete by done. lia.
    + apply IH; try done; [lia|]. rewrite (take_S_r _ _ c) by done. apply Forall_app. split; [done|].
      by constructor.
  - apply lookup_ge_None in Hc. rewrite take_ge in Hr by done.
    exists next, r, b. do 5 (split; [done|]). by left.
Qed.

Lemma block_policy_spec h t : present h (kids (policy_ t)) -> NoDup (kids (policy_ t)) ->
  block_due (bl h) t ->
  exists p nb, block_policy h t = Some (p, nb) /\
    settled (bl h) (set_blocked nb (set_policy p t)) /\ (nb = false -> blocked_ t = false) /\
    kids p ≡ₚ kids (policy_ t) /\ shape p = shape (policy_ t).
Proof.
  destruct t as [pa nm us ct wk bk p]; cbn [policy_ blocked_ wakeup_time_]. intros Hp Hnd Hd.
  destruct p as [first cs|res r b all|next r b all|res l la mb mba tk lt c|task w];
    unfold block_policy, PriorityBlock, WeightedFairBlock, RoundRobinBlock, RateLimitBlock,
      block_due in *; cbn [policy_ kids blocked_ wakeup_time_] in *; [..|done].
  - destruct Hd as (Hf & Htake & Hbk).
    destruct (advance_runnable_spec h cs first Hp Hf Htake) as (n & -> & Hn & Hall & Hat).
    cbn [mbind option_bind]. do 2 eexists. split; [done|]. split; [|split; [|done]].
    + cbn. do 3 (split; [done|]). destruct (Nat.eqb_spec n (length cs)).
      * by rewrite bool_decide_true.
      * by rewrite bool_decide_false.
    + intros Hne%Nat.eqb_neq. destruct bk; [|done]. specialize (Hbk eq_refl).
      destruct (lookup_lt_is_Some_2 cs n ltac:(lia)) as [c Hc]. rewrite Forall_forall in Hbk.
      specialize (Hbk c ltac:(by eapply list_elem_of_lookup_2)). by rewrite (Hat c Hc) in Hbk.
  - destruct Hd as (Hh & (c0 & Hone) & Hb & Hbk).
    rewrite map_app in Hp, Hnd. apply Forall_app in Hp as [Hp _]. apply NoDup_app in Hnd as (Hnd & _ & _).
    destruct (find_blocked_spec h r Hp) as ([x|] & -> & Hx); cbn [mbind option_bind].
    + destruct Hx as [Hx Hbx].
      destruct (wf_block_one h r c0 x Hh Hp Hnd Hone Hx Hbx) as (r' & -> & Hh' & Hr' & Hpr).
      cbn [mbind option_bind fst snd]. do 2 eexists. split; [done|]. split; [|split; [|split; [|done]]].
      * cbn. do 2 (split; [done|]). split; [|done]. apply Forall_app. split; [done|]. by constructor.
      * intros _. destruct bk; [|done]. rewrite (Hbk eq_refl) in Hx. by apply not_elem_of_nil in Hx.
      * cbn [kids]. rewrite !map_app, Hpr. cbn [map]. rewrite app_assoc.
        by rewrite (Permutation_app_comm _ [wf_c x]).
    + do 2 eexists. split; [done|]. split; [by repeat split|]. split; [|done].
      intros Hne%bool_decide_eq_false. destruct bk; [|done]. by specialize (Hbk eq_refl).
  - destruct Hd as (Hn & Hb & Hbk). apply Forall_app in Hp as [Hp _].
    destruct (rr_block_spec (length r) h 0 next r b) as (next' & r' & b' & -> & ? & ? & ? & ? & Hl);
      [lia|done|done|constructor|done|].
    cbn [mbind option_bind fst snd]. do 2 eexists. split; [done|]. split; [by do 3 (split; [done|])|].
    split; [|done]. intros Hne%bool_decide_eq_false. destruct bk; [|done].
    specialize (Hbk eq_refl). subst r. destruct Hl as [->|Hl]; [done|cbn in Hl; lia].
  - destruct Hd as [->|(x & -> & Hx)].
    + cbn [mbind option_bind]. do 2 eexists. split; [done|]. split; [|done].
      split; cbn; [done|]. intros _. right. right. by left.
    + apply present_cons in Hp as [-> _]. cbn [mbind option_bind]. rewrite Hx.
      do 2 eexists. split; [done|]. split; [|done]. split; cbn; [done|].
      intros _. right. right. right. by exists x.
Qed.

(** ** Changes of one child's flag *)
Lemma settled_ext b1 b2 t : (forall c, c ∈ kids (policy_ t) -> b1 c = b2 c) ->
  settled b1 t -> settled b2 t.
Proof.
  destruct t as [pa nm us ct wk bk p]; cbn [policy_]. intros Hb.
  destruct p as [first cs|res r b all|next r b all|res l la mb mba tk lt c|task w];
    unfold settled; cbn [policy_ kids blocked_ wakeup_time_] in *.
  - assert (Hc : forall c, c ∈ cs -> b1 c.2 = b2 c.2).
    { intros c Hc. apply Hb. by apply list_elem_of_fmap_2. }
    intros (? & Hall & Hat & ?). split; [done|]. split; [|split; [|done]].
    + rewrite Forall_forall in *. intros c Hin. rewrite <- Hc; [by apply Hall|].
      by eapply elem_of_take in Hin as (? & ?%list_elem_of_lookup_2 & _).
    + intros c Hl. rewrite <- Hc; [by apply Hat|]. by eapply list_elem_of_lookup_2.
  - assert (Hc : forall c, c ∈ r ++ b -> b1 (wf_c c) = b2 (wf_c c)).
    { intros c Hc. apply Hb. by apply list_elem_of_fmap_2. }
    setoid_rewrite elem_of_app in Hc. rewrite !Forall_forall.
    intros (? & Hr & Hbb & ?). split; [done|]. split; [|split; [|done]].
    + intros x Hx. rewrite <- Hc by (by left). by apply Hr.
    + intros x Hx. rewrite <- Hc by (by right). by apply Hbb.
  - setoid_rewrite elem_of_app in Hb. rewrite !Forall_forall.
    intros (? & Hr & Hbb & ?). split; [done|]. split; [|split; [|done]].
    + intros x Hx. rewrite <- Hb by (by left). by apply Hr.
    + intros x Hx. rewrite <- Hb by (by right). by apply Hbb.
  - destruct c as [c|]; cbn in *.
    + assert (b1 c = b2 c) as Hc by (apply Hb; by left). intros [H1 H2]. split.
      * intros Hf. destruct (H1 Hf) as (? & x & [= <-] & Hx). split; [done|]. exists c.
        by rewrite <- Hc.
      * intros Ht. destruct (H2 Ht) as [|[|[|(x & [= <-] & Hx)]]]; [by left|by right; left|done|].
        right. right. right. exists c. by rewrite <- Hc.
    + intros [H1 H2]. split; [|intros; right; right; by left].
      intros Hf. by destruct (H1 Hf) as (? & x & ? & _).
  - done.
Qed.

Lemma Forall_bl_ext {A} (f : A -> addr) (b1 b2 : addr -> bool) v l : (forall x, b1 x = b2 x) ->
  Forall (fun x => b1 (f x) = v) l -> Forall (fun x => b2 (f x) = v) l.
Proof. intros Hb Hl. eapply Forall_impl; [exact Hl|]. intros x. cbn. by rewrite Hb. Qed.

Lemma unblock_due_ext b1 b2 t : (forall x, b1 x = b2 x) -> unblock_due b1 t -> unblock_due b2 t.
Proof.
  intros Hb. unfold unblock_due. destruct (policy_ t) as [first cs|res r b all|next r b all|res l la mb mba tk lt c|].
  - intros Hd Hall. apply Hd. revert Hall. by apply (Forall_bl_ext snd).
  - intros (? & Hr & ?). split; [done|]. split; [|done]. revert Hr. by apply (Forall_bl_ext wf_c).
  - intros (? & Hr & ?). split; [done|]. split; [|done]. revert Hr. by apply (Forall_bl_ext id).
  - intros Hd Hbk. destruct (Hd Hbk) as (? & x & ? & ?). split; [done|]. exists x. by rewrite <- Hb.
  - done.
Qed.

Lemma block_due_ext b1 b2 t : (forall x, b1 x = b2 x) -> block_due b1 t -> block_due b2 t.
Proof.
  intros Hb. unfold block_due. destruct (policy_ t) as [first cs|res r b all|next r b all|res l la mb mba tk lt c|].
  - intros (? & Ht & Hall). split; [done|]. split; [revert Ht; by apply (Forall_bl_ext snd)|].
    intros Hbk. specialize (Hall Hbk). revert Hall. by apply (Forall_bl_ext snd).
  - intros (? & (c0 & Hone) & Hbb & ?). split; [done|]. split; [|split; [|done]].
    + exists c0. eapply Forall_impl; [exact Hone|]. intros x. cbn. by rewrite Hb.
    + revert Hbb. by apply (Forall_bl_ext wf_c).
  - intros (? & Hbb & ?). split; [done|]. split; [|done]. revert Hbb. by apply (Forall_bl_ext id).
  - intros [->|(x & -> & Hx)]; [by left|right]. exists x. by rewrite <- Hb.
  - done.
Qed.

(** A child that unblocks makes [UnblockTowardsRoot] of its parent due. *)
Lemma settled_unblock_due b1 b2 c t : c ∈ kids (policy_ t) -> b2 c = false ->
  (forall x, x <> c -> b1 x = b2 x) -> settled b1 t -> unblock_due b2 t.
Proof.
  destruct t as [pa nm us ct wk bk p]; cbn [policy_ wakeup_time_]. intros Hc Hbc Hb.
  assert (Hf : forall x, b1 x = false -> b2 x = false).
  { intros x Hx. destruct (decide (x = c)) as [->|]; [done|]. by rewrite <- Hb. }
  destruct p as [first cs|res r b all|next r b all|res l la mb mba tk lt c'|task w];
    unfold settled, unblock_due; cbn [policy_ kids blocked_ wakeup_time_] in *.
  - intros _ Hall. exfalso. apply list_elem_of_fmap in Hc as (d & -> & Hd).
    rewrite Forall_forall in Hall. by rewrite (Hall d Hd) in Hbc.
  - intros (? & Hr & _ & ->). split; [done|]. split.
    + eapply Forall_impl; [exact Hr|]. intros x. apply Hf.
    + intros ->. by rewrite bool_decide_true.
  - intros (? & Hr & _ & ->). split; [done|]. split.
    + eapply Forall_impl; [exact Hr|]. intros x. apply Hf.
    + intros ->. by rewrite bool_decide_true.
  - intros [H1 _] Hbk. destruct (H1 Hbk) as (? & x & -> & Hx). split; [done|]. exists x. split; [done|]. by apply Hf.
  - by apply not_elem_of_nil in Hc.
Qed.

(** A child that blocks makes [BlockTowardsRoot] of its parent due. *)
Lemma settled_block_due b1 b2 c t : c ∈ kids (policy_ t) -> NoDup (kids (policy_ t)) ->
  b1 c = false -> b2 c = true -> (forall x, x <> c -> b1 x = b2 x) ->
  settled b1 t -> block_due b2 t.
Proof.
  destruct t as [pa nm us ct wk bk p]; cbn [policy_ wakeup_time_]. intros Hc Hnd Hbc1 Hbc2 Hb.
  assert (Hf : forall x, b1 x = true -> b2 x = true).
  { intros x Hx. destruct (decide (x = c)) as [->|]; [done|]. by rewrite <- Hb. }
  destruct p as [first cs|res r b all|next r b all|res l la mb mba tk lt c'|task w];
    unfold settled, block_due; cbn [policy_ kids blocked_ wakeup_time_] in *.
  - intros (Hle & Htake & Hat & ->). split; [done|]. split.
    + eapply Forall_impl; [exact Htake|]. intros x. apply Hf.
    + intros ->%bool_decide_eq_true. rewrite take_ge in Htake by done.
      eapply Forall_impl; [exact Htake|]. intros x. apply Hf.
  - intros (Hh & Hr & Hbb & ->). split; [done|]. split; [|split].
    + exists c. eapply Forall_impl; [exact Hr|]. cbn. intros x Hx Hne. by rewrite <- Hb.
    + eapply Forall_impl; [exact Hbb|]. intros x. apply Hf.
    + by intros ?%bool_decide_eq_true.
  - intros (Hh & Hr & Hbb & ->). split; [done|]. split.
    + eapply Forall_impl; [exact Hbb|]. intros x. apply Hf.
    + by intros ?%bool_decide_eq_true.
  - intros _. right. destruct c' as [c'|]; [|by apply not_elem_of_nil in Hc].
    apply list_elem_of_singleton in Hc as ->. by exists c'.
  - by apply not_elem_of_nil in Hc.
Qed.

(** ** [FinishAndAccountTowardsRoot] of one class *)

(** What a task may consume, and when: enough to keep wake-up times below 2^64. *)
Definition usage_ok (usage : resource_arr) : Prop :=
  length usage = 4%nat /\ Forall (fun u => 0 <= u < 2 ^ 31) usage.
Definition tsc_ok (tsc : Z) : Prop := 0 < tsc < 2 ^ 63.

Definition shape_ok (s : shape_t) : Prop :=
  match s with
  | ShWeightedFair res _ => res <> NUM_RESOURCES
  | ShRateLimit res l _ _ _ _ => res <> NUM_RESOURCES /\ 0 <= l
  | _ => True
  end.

Lemma usage_lookup usage res : usage_ok usage -> res <> NUM_RESOURCES ->
  exists u, usage !! resource_index res = Some u /\ 0 <= u < 2 ^ 31.
Proof.
  intros [Hlen Hall] Hr. destruct (lookup_lt_is_Some_2 usage (resource_index res)) as [u Hu].
  { rewrite Hlen. destruct res; cbn; (lia || done). }
  exists u. split; [done|]. rewrite Forall_forall in Hall. apply Hall. by eapply list_elem_of_lookup_2.
Qed.

Definition unblocked_at (c : addr) (b : addr -> bool) (x : addr) : bool :=
  if decide (x = c) then false else b x.

Lemma unblocked_at_true c b x : unblocked_at c b x = true -> b x = true.
Proof. unfold unblocked_at. by case_decide. Qed.

Lemma unblocked_at_false c b x : x <> c -> unblocked_at c b x = false -> b x = false.
Proof. unfold unblocked_at. intros. by rewrite decide_False in * by done. Qed.

Lemma unblocked_at_id c b : b c = false -> forall x, unblocked_at c b x = b x.
Proof. intros Hc x. unfold unblocked_at. case_decide; [by subst|done]. Qed.

(** Unless the picked child is blocked now, nothing is to be done. *)
Lemma running_settled b c t : running b c t -> b c = false -> settled b t.
Proof.
  intros (_ & _ & Hs) Hc. eapply settled_ext; [|exact Hs]. intros x _. by apply unblocked_at_id.
Qed.

Lemma PriorityFinish_spec h c first cs t : policy_ t = Priority first cs ->
  present h (kids (policy_ t)) -> c ∈ kids (policy_ t) -> running (bl h) c t ->
  exists t', PriorityFinish h c first cs t = Some t' /\ settled (bl h) t' /\
    exists p b, t' = set_blocked b (set_policy p t) /\ kids p ≡ₚ kids (policy_ t) /\
      shape p = shape (policy_ t).
Proof.
  intros Hpol Hp Hc Hrun. unfold PriorityFinish. rewrite (present_bl h _ c Hp Hc).
  cbn [mbind option_bind]. destruct (bl h c) eqn:Hbc.
  - destruct Hrun as (Hbk & Hpick & Hs). unfold settled in Hs. rewrite Hpol in *.
    destruct Hs as (Hf & Htake & _ & _). cbn [kids] in Hp.
    destruct (advance_runnable_spec h cs first Hp Hf) as (n & -> & Hn & Hall & Hat).
    { eapply Forall_impl; [exact Htake|]. intros x. apply unblocked_at_true. }
    cbn [mbind option_bind]. eexists. split; [done|]. split.
    + cbn. do 3 (split; [done|]). destruct (Nat.eqb_spec n (length cs)).
      * by rewrite bool_decide_true.
      * by rewrite bool_decide_false.
    + by eexists _, _.
  - exists t. split; [done|]. split; [by eapply running_settled|].
    exists (policy_ t), (blocked_ t). split; [by destruct t|done].
Qed.

Lemma WeightedFairFinish_spec h c usage res r b all t : policy_ t = WeightedFair res r b all ->
  res <> NUM_RESOURCES -> usage_ok usage -> NoDup (kids (policy_ t)) ->
  present h (kids (policy_ t)) -> c ∈ kids (policy_ t) -> running (bl h) c t ->
  exists t', WeightedFairFinish h c usage res r b all t = Some t' /\ settled (bl h) t' /\
    exists p b, t' = set_blocked b (set_policy p t) /\ kids p ≡ₚ kids (policy_ t) /\
      shape p = shape (policy_ t).
Proof.
  intros Hpol Hres Hu Hnd Hp Hc Hrun. unfold WeightedFairFinish.
  pose proof Hrun as (Hbk & Hpick & Hs). unfold PickNextChild, settled in Hpick, Hs.
  rewrite Hpol in Hpick, Hs. destruct Hs as (Hh & Hr & Hb & Hbl).
  destruct r as [|item rest]; [done|]. cbn in Hpick. injection Hpick as Hitem.
  destruct (usage_lookup usage res Hu Hres) as (consumed & -> & _). cbn [mbind option_bind].
  rewrite (present_bl h _ c Hp Hc). cbn [mbind option_bind].
  assert (Hrest : Forall (fun x => bl h (wf_c x) = false) rest).
  { rewrite Hpol in Hnd. cbn [kids app map] in Hnd. apply NoDup_cons in Hnd as [Hnd _].
    apply Forall_cons in Hr as [_ Hr]. rewrite Forall_forall in *. intros x Hx.
    apply (unblocked_at_false c); [|by apply Hr]. intros Hxc. apply Hnd. rewrite map_app.
    apply elem_of_app. left. rewrite Hitem, <- Hxc. by apply list_elem_of_fmap_2. }
  assert (Hbb : Forall (fun x => bl h (wf_c x) = true) b).
  { eapply Forall_impl; [exact Hb|]. intros x. apply unblocked_at_true. }
  assert (Hh1 : forall y, heap_from wf_less 1 (y :: rest)).
  { intros y i j Hi Hij u v Hu' Hv. unfold edge in Hij. destruct i as [|i], j as [|j]; try lia.
    by apply (Hh (S i) (S j) ltac:(lia)). }
  destruct (bl h c) eqn:Hbc.
  - set (item' := WfChild _ _ _).
    destruct (pop_spec wf_less wf_less_asym wf_less_ntrans (item' :: rest) item' (Hh1 _) eq_refl)
      as (w & -> & Hw & Hpw). cbn [mbind option_bind]. apply Permutation_cons_inv in Hpw.
    eexists. split; [done|]. split.
    + cbn. split; [done|]. split; [by rewrite <- Hpw|]. split; [|done]. apply Forall_app.
      split; [done|]. constructor; [|done]. cbn. by rewrite Hitem.
    + eexists _, _. split; [done|]. split; [|by rewrite Hpol]. rewrite Hpol. cbn [kids].
      rewrite <- Hpw. rewrite !map_app. cbn [map wf_c app].
      rewrite app_assoc, (Permutation_app_comm _ [wf_c item']). done.
  - set (item' := WfChild _ _ _).
    destruct (decrease_key_top_spec wf_less wf_less_asym wf_less_ntrans (item' :: rest) (Hh1 _))
      as (w & -> & Hw & Hpw). cbn [mbind option_bind]. eexists. split; [done|]. split.
    + cbn. split; [done|]. split; [|split; [done|]].
      * rewrite Hpw. constructor; [|done]. cbn. by rewrite Hitem.
      * rewrite Hbk. rewrite bool_decide_false; [done|]. intros ->. by apply Permutation_nil_cons in Hpw.
    + exists (WeightedFair res w b all), (blocked_ t). split; [by destruct t|].
      split; [|by rewrite Hpol]. rewrite Hpol. cbn [kids]. rewrite Hpw. done.
Qed.

Lemma RoundRobinFinish_spec h c usage next r b all t : policy_ t = RoundRobin next r b all ->
  usage_ok usage -> NoDup (kids (policy_ t)) ->
  present h (kids (policy_ t)) -> c ∈ kids (policy_ t) -> running (bl h) c t ->
  exists t', RoundRobinFinish h c usage next r b all t = Some t' /\ settled (bl h) t' /\
    exists p b, t' = set_blocked b (set_policy p t) /\ kids p ≡ₚ kids (policy_ t) /\
      shape p = shape (policy_ t).
Proof.
  intros Hpol Hu Hnd Hp Hc Hrun. unfold RoundRobinFinish. rewrite (present_bl h _ c Hp Hc).
  cbn [mbind option_bind]. destruct (usage_lookup usage RESOURCE_COUNT Hu) as (count & -> & _); [done|].
  cbn [mbind option_bind]. pose proof Hrun as (Hbk & Hpick & Hs). unfold PickNextChild, settled in Hpick, Hs.
  rewrite Hpol in Hpick, Hs. destruct Hs as ([H0 Hn] & Hr & Hb & Hbl). rewrite Hpick.
  assert (Hwrap : forall n r', 0 <= n -> next_ok (if Z.of_nat (length r') <=? n then 0 else n) r').
  { intros n r' Hn'. unfold next_ok. destruct (Z.leb_spec (Z.of_nat (length r')) n); lia. }
  assert (Hbb : Forall (fun x => bl h x = true) b).
  { eapply Forall_impl; [exact Hb|]. intros x. apply unblocked_at_true. }
  destruct (bl h c) eqn:Hbc.
  - pose proof (delete_Permutation _ _ _ Hpick) as Hdel. eexists. split; [done|]. split.
    + cbn. split; [by apply Hwrap|]. split; [|split; [|done]].
      * rewrite Hpol in Hnd. cbn [kids] in Hnd. rewrite Hdel in Hnd, Hr. cbn in Hnd.
        apply NoDup_cons in Hnd as [Hnd _]. apply Forall_cons in Hr as [_ Hr].
        rewrite Forall_forall in *. intros x Hx. apply (unblocked_at_false c); [|by apply Hr].
        intros ->. apply Hnd, elem_of_app. by left.
      * apply Forall_app. split; [done|]. by constructor.
    + eexists _, _. split; [done|]. split; [|by rewrite Hpol]. rewrite Hpol. cbn [kids].
      transitivity ((c :: delete (Z.to_nat next) r) ++ b); [|by rewrite <- Hdel].
      by rewrite app_assoc, (Permutation_app_comm _ [c]).
  - eexists. split; [done|]. split.
    + cbn. split; [apply Hwrap; apply wrap_range; lia|].
      pose proof (running_settled _ _ _ Hrun Hbc) as Hs. unfold settled in Hs. rewrite Hpol in Hs.
      destruct Hs as (_ & ? & ? & ?). by do 2 (split; [done|]).
    + exists (RoundRobin (if Z.of_nat (length r) <=? u64 (next + count) then 0 else u64 (next + count)) r b all),
        (blocked_ t). split; [by destruct t|]. by rewrite Hpol.
Qed.

Lemma RateLimitFinish_spec h c usage tsc res l la mb mba tk lt c' t :
  policy_ t = RateLimit res l la mb mba tk lt c' -> res <> NUM_RESOURCES -> 0 <= l ->
  usage_ok usage -> tsc_ok tsc ->
  present h (kids (policy_ t)) -> c ∈ kids (policy_ t) -> running (bl h) c t ->
  exists t' add, RateLimitFinish h c usage tsc res l la mb mba tk lt c' t = Some (t', add) /\
    settled (bl h) t' /\ parent_ t' = parent_ t /\ name_ t' = name_ t /\ usage_ t' = usage_ t /\
    kids (policy_ t') ≡ₚ kids (policy_ t) /\ shape (policy_ t') = shape (policy_ t) /\
    wakeup_time_ t = 0 /\ (wakeup_time_ t' = 0 <-> add = false).
Proof.
  intros Hpol Hres Hl Hu [Ht0 Ht1] Hp Hc Hrun. unfold RateLimitFinish.
  destruct (usage_lookup usage res Hu Hres) as (u & -> & Hur). cbn [mbind option_bind].
  rewrite (present_bl h _ c Hp Hc). cbn [mbind option_bind].
  set (tokens := u64 (tk + _)). assert (Htk : 0 <= tokens) by (apply wrap_range; lia).
  pose proof Hrun as (Hbk & Hpick & Hs). unfold PickNextChild, settled in Hpick, Hs.
  rewrite Hpol in Hpick, Hs. subst c'. destruct Hs as [Hs _]. destruct (Hs Hbk) as (Hwk & _).
  assert (Hcons : to_work_units u = u * 2 ^ 32).
  { unfold to_work_units, kUsageAmplifierPow. rewrite Z.shiftl_mul_pow2 by done.
    apply wrap_small. unfold in_word. lia. }
  rewrite Hcons. destruct (Z.ltb_spec tokens (u * 2 ^ 32)) as [Hlt|Hge].
  - destruct (Z.eqb_spec l 0) as [->|Hl0].
    + do 2 eexists. split; [done|]. split.
      { split; cbn; [done|]. intros _. right. by left. }
      cbn. rewrite Hpol. do 5 (split; [done|]). by split.
    + assert (0 <= (u * 2 ^ 32 - tokens) / l < 2 ^ 63).
      { split; [apply Z.div_pos; lia|]. apply Z.div_lt_upper_bound; [lia|]. nia. }
      assert (u64 (tsc + (u * 2 ^ 32 - tokens) / l) = tsc + (u * 2 ^ 32 - tokens) / l) as Hw
        by (apply wrap_small; unfold in_word; lia).
      do 2 eexists. split; [done|]. split.
      { split; cbn; [done|]. intros _. left. rewrite Hw. lia. }
      cbn. rewrite Hpol. do 6 (split; [done|]). rewrite Hw. split; [lia|done].
  - do 2 eexists. split; [done|]. cbn. rewrite Hpol, Hbk. split.
    + split; cbn.
      * intros Hf. split; [done|]. by exists c.
      * intros Hf. do 3 right. by exists c.
    + do 6 (split; [done|]). by split.
Qed.
