(* ===== verification/TrafficTree.v ===== *)
(** Trees of traffic classes: the invariant of a store (parents and children agree, the
    walks to the root end, a class is blocked exactly when nothing below it can run,
    the wake-up queue is a heap of the throttled classes) and that blocking,
    unblocking, accounting, [AddChild] and [RemoveChild] keep it. *)
From stdpp Require Import strings.
From Stdlib Require Import Sorted.
From S2P Require Import Prelude Common PriorityQueue TrafficClass TrafficClassFacts.
Open Scope Z_scope.

(** ** Stores with the same links

    Scheduling changes neither parents, names and shapes nor, up to order, the
    children of a class. *)
Record links (t t' : tc) : Prop := {
  lk_parent : parent_ t' = parent_ t;
  lk_name : name_ t' = name_ t;
  lk_shape : shape (policy_ t') = shape (policy_ t);
  lk_kids : kids (policy_ t') ≡ₚ kids (policy_ t) }.

Definition linked (h h' : store) : Prop := forall a, option_Forall2 links (h !! a) (h' !! a).

#[export] Instance links_equiv : Equivalence links.
Proof.
  split.
  - by intros t.
  - intros t t' []. by split.
  - intros t1 t2 t3 [] []. split; congruence || by etransitivity.
Qed.

#[export] Instance linked_equiv : Equivalence linked.
Proof.
  split.
  - intros h a. destruct (h !! a); constructor. done.
  - intros h h' Hl a. destruct (Hl a); constructor. by symmetry.
  - intros h1 h2 h3 H1 H2 a. specialize (H1 a). specialize (H2 a).
    destruct H1; inversion H2; constructor. by etransitivity.
Qed.

Lemma linked_Some h h' a t : linked h h' -> h !! a = Some t -> exists t', h' !! a = Some t' /\ links t t'.
Proof. intros Hl Ha. specialize (Hl a). rewrite Ha in Hl. inversion Hl; subst. by eexists. Qed.

Lemma linked_insert h a t t' : h !! a = Some t -> links t t' -> linked h (<[a := t']> h).
Proof.
  intros Ha Hl b. destruct (decide (b = a)) as [->|].
  - rewrite lookup_insert_eq, Ha. by constructor.
  - rewrite lookup_insert_ne by done. destruct (h !! b); constructor. done.
Qed.

(** The part of the links that makes the tree. *)
Record kin (t t' : tc) : Prop := {
  kn_parent : parent_ t' = parent_ t;
  kn_kids : kids (policy_ t') ≡ₚ kids (policy_ t) }.

Definition akin (h h' : store) : Prop := forall a, option_Forall2 kin (h !! a) (h' !! a).

#[export] Instance akin_sym : Symmetric akin.
Proof. intros h h' Hl a. destruct (Hl a) as [? ? []|]; constructor. by split. Qed.

#[export] Instance linked_akin : subrelation linked akin.
Proof. intros h h' Hq a. destruct (Hq a) as [t t' []|]; constructor. by split. Qed.

Lemma akin_Some h h' a t : akin h h' -> h !! a = Some t -> exists t', h' !! a = Some t' /\ kin t t'.
Proof. intros Hl Ha. specialize (Hl a). rewrite Ha in Hl. inversion Hl; subst. by eexists. Qed.

(** ** Paths to the root *)
Inductive chain (h : store) : addr -> list addr -> Prop :=
| chain_root a t : h !! a = Some t -> parent_ t = None -> chain h a [a]
| chain_step a t p l : h !! a = Some t -> parent_ t = Some p -> chain h p l -> chain h a (a :: l).

#[export] Instance chain_proper : Proper (akin ==> (=) ==> (=) ==> iff) chain.
Proof.
  assert (Himp : forall h h' a l, akin h h' -> chain h a l -> chain h' a l).
  { intros h h' a l Hl. induction 1 as [a t Ha Hp|a t p l Ha Hp Hc IH].
    - destruct (akin_Some _ _ _ _ Hl Ha) as (t' & Ha' & Hlk).
      eapply chain_root; [done|]. by rewrite (kn_parent _ _ Hlk).
    - destruct (akin_Some _ _ _ _ Hl Ha) as (t' & Ha' & Hlk).
      eapply chain_step; [done| |done]. by rewrite (kn_parent _ _ Hlk). }
  intros h h' Hl a ? <- l ? <-. split; apply Himp; [done|by symmetry].
Qed.

Lemma chain_det h a l l' : chain h a l -> chain h a l' -> l = l'.
Proof.
  intros Hc. revert l'. induction Hc as [a t Ha Hp|a t p l Ha Hp Hc IH]; intros l' Hc';
    inversion Hc'; simplify_eq; [done|]. f_equal. by apply IH.
Qed.

Lemma chain_suffix h a l b : chain h a l -> b ∈ l -> exists l1 l2, l = l1 ++ l2 /\ chain h b l2.
Proof.
  induction 1 as [a t Ha Hp|a t p l Ha Hp Hc IH]; intros Hb.
  - apply list_elem_of_singleton in Hb as ->. exists [], [a]. split; [done|]. by eapply chain_root.
  - apply elem_of_cons in Hb as [->|Hb].
    + exists [], (a :: l). split; [done|]. by eapply chain_step.
    + destruct (IH Hb) as (l1 & l2 & -> & ?). by exists (a :: l1), l2.
Qed.

Lemma chain_not_above h a t p l : h !! a = Some t -> parent_ t = Some p -> chain h p l -> a ∉ l.
Proof.
  intros Ha Hp Hc Hin. destruct (chain_suffix _ _ _ _ Hc Hin) as (l1 & l2 & -> & Hc2).
  assert (chain h a (a :: l1 ++ l2)) as Hc' by (by eapply chain_step).
  pose proof (chain_det _ _ _ _ Hc2 Hc') as Heq. apply (f_equal length) in Heq.
  cbn in Heq. rewrite length_app in Heq. lia.
Qed.

Lemma chain_NoDup h a l : chain h a l -> NoDup l.
Proof.
  induction 1 as [|a t p l Ha Hp Hc IH]; [apply NoDup_singleton|].
  constructor; [|done]. by eapply chain_not_above.
Qed.

Lemma chain_present h a l : chain h a l -> forall b, b ∈ l -> is_Some (h !! b).
Proof.
  induction 1 as [a t Ha Hp|a t p l Ha Hp Hc IH]; intros b Hb.
  - apply list_elem_of_singleton in Hb as ->. by exists t.
  - apply elem_of_cons in Hb as [->|]; [by exists t|by apply IH].
Qed.

(** A path is no longer than the number of classes: the fuel suffices. *)
Lemma chain_length h a l : chain h a l -> (length l <= size h)%nat.
Proof.
  intros Hc. rewrite <- size_dom. pose proof (chain_NoDup _ _ _ Hc) as Hnd.
  rewrite <- (size_list_to_set (C := gset addr) l) by done.
  apply subseteq_size. intros b Hb%elem_of_list_to_set. apply elem_of_dom.
  by eapply chain_present.
Qed.

(** ** Trees *)
Record tree (h : store) : Prop := {
  tree_chain : forall a t, h !! a = Some t -> exists l, chain h a l;
  tree_kids : forall a t c, h !! a = Some t -> c ∈ kids (policy_ t) ->
    exists ct, h !! c = Some ct /\ parent_ ct = Some a;
  tree_parent : forall c ct p, h !! c = Some ct -> parent_ ct = Some p ->
    exists t, h !! p = Some t /\ c ∈ kids (policy_ t);
  tree_nodup : forall a t, h !! a = Some t -> NoDup (kids (policy_ t)) }.

#[export] Instance tree_proper : Proper (akin ==> iff) tree.
Proof.
  assert (Himp : forall h h', akin h h' -> tree h -> tree h').
  { intros h h' Hl HT. assert (Hl' : akin h' h) by (by symmetry). split.
    - intros a t' Ha'. destruct (akin_Some _ _ _ _ Hl' Ha') as (t & Ha & _).
      destruct (tree_chain h HT a t Ha) as [l Hc]. exists l. by rewrite <- Hl.
    - intros a t' c Ha' Hc. destruct (akin_Some _ _ _ _ Hl' Ha') as (t & Ha & Hlk).
      rewrite <- (kn_kids _ _ Hlk) in Hc. destruct (tree_kids h HT a t c Ha Hc) as (ct & Hct & Hp).
      destruct (akin_Some _ _ _ _ Hl Hct) as (ct' & ? & Hlk'). exists ct'. split; [done|].
      by rewrite (kn_parent _ _ Hlk').
    - intros c ct' p Hc' Hp. destruct (akin_Some _ _ _ _ Hl' Hc') as (ct & Hc & Hlk).
      rewrite <- (kn_parent _ _ Hlk) in Hp. destruct (tree_parent h HT c ct p Hc Hp) as (t & Ht & Hin).
      destruct (akin_Some _ _ _ _ Hl Ht) as (t' & ? & Hlk'). exists t'. split; [done|].
      by rewrite (kn_kids _ _ Hlk').
    - intros a t' Ha'. destruct (akin_Some _ _ _ _ Hl' Ha') as (t & Ha & Hlk).
      rewrite <- (kn_kids _ _ Hlk). by apply (tree_nodup h HT a). }
  intros h h' Hl. split; apply Himp; [done|by symmetry].
Qed.

Lemma tree_present h a t : tree h -> h !! a = Some t -> present h (kids (policy_ t)).
Proof.
  intros HT Ha. apply Forall_forall. intros c Hc.
  destruct (tree_kids h HT a t c Ha Hc) as (ct & ? & _). by exists ct.
Qed.

Lemma tree_not_own_parent h a t : tree h -> h !! a = Some t -> parent_ t <> Some a.
Proof.
  intros HT Ha Hp. destruct (tree_chain h HT a t Ha) as [l Hc].
  inversion Hc as [|? ? ? l' Ha' Hp' Hc']; simplify_eq.
  apply (chain_not_above h a t a l' Ha Hp Hc'). inversion Hc'; subst; by left.
Qed.

Lemma tree_not_own_kid h a t : tree h -> h !! a = Some t -> a ∉ kids (policy_ t).
Proof.
  intros HT Ha Hin. destruct (tree_kids h HT a t a Ha Hin) as (ct & Hct & Hp). simplify_eq.
  by apply (tree_not_own_parent h a t HT Ha).
Qed.

Definition all_settled (h : store) : Prop := map_Forall (fun _ t => settled (bl h) t) h.

Lemma bl_lookup h a t : h !! a = Some t -> bl h a = blocked_ t.
Proof. unfold bl, blocked. by intros ->. Qed.

Lemma bl_insert h a t x : bl (<[a := t]> h) x = if decide (x = a) then blocked_ t else bl h x.
Proof.
  unfold bl, blocked. case_decide; subst; [by rewrite lookup_insert_eq|].
  by rewrite lookup_insert_ne.
Qed.

(** A change at [a] concerns only [a] and its parent, and the parent only when the
    blocked flag changes. *)
Lemma settled_elsewhere h a t t1 x tx : tree h -> h !! a = Some t -> h !! x = Some tx -> x <> a ->
  parent_ t <> Some x \/ blocked_ t1 = blocked_ t ->
  settled (bl h) tx -> settled (bl (<[a := t1]> h)) tx.
Proof.
  intros HT Ha Hx Hne Hor. apply settled_ext. intros c Hc. rewrite bl_insert.
  case_decide as Hca; [|done]. subst c. rewrite (bl_lookup h a t Ha).
  destruct Hor as [Hp| ->]; [|done]. destruct (tree_kids h HT x tx a Hx Hc) as (? & ? & ?).
  simplify_eq.
Qed.

Lemma settled_self h a t t1 : tree h -> h !! a = Some t -> kids (policy_ t1) ≡ₚ kids (policy_ t) ->
  settled (bl h) t1 -> settled (bl (<[a := t1]> h)) t1.
Proof.
  intros HT Ha Hk. apply settled_ext. intros c Hc. rewrite bl_insert, decide_False; [done|].
  intros ->. rewrite Hk in Hc. by apply (tree_not_own_kid h a t HT Ha).
Qed.

(** ** Blocking and unblocking along a path *)

(** Beyond the links, usage counters and wake-up times are left alone. *)
Record quiet1 (t t' : tc) : Prop := {
  q_links : links t t';
  q_usage : usage_ t' = usage_ t;
  q_throttled : cnt_throttled_ t' = cnt_throttled_ t;
  q_wakeup : wakeup_time_ t' = wakeup_time_ t }.

Definition quiet (h h' : store) : Prop := forall a, option_Forall2 quiet1 (h !! a) (h' !! a).

#[export] Instance quiet1_equiv : Equivalence quiet1.
Proof.
  split.
  - intros t. by split.
  - intros t t' []. split; [by symmetry|done..].
  - intros t1 t2 t3 [] []. split; [by etransitivity|congruence..].
Qed.

#[export] Instance quiet_equiv : Equivalence quiet.
Proof.
  split.
  - intros h a. destruct (h !! a); constructor. done.
  - intros h h' Hl a. destruct (Hl a); constructor. by symmetry.
  - intros h1 h2 h3 H1 H2 a. specialize (H1 a). specialize (H2 a).
    destruct H1; inversion H2; constructor. by etransitivity.
Qed.

#[export] Instance quiet_linked : subrelation quiet linked.
Proof. intros h h' Hq a. destruct (Hq a) as [t t' []|]; by constructor. Qed.

#[export] Instance quiet_akin : subrelation quiet akin.
Proof. intros h h' Hq. by apply linked_akin, quiet_linked. Qed.

Lemma quiet_Some h h' a t : quiet h h' -> h !! a = Some t -> exists t', h' !! a = Some t' /\ quiet1 t t'.
Proof. intros Hl Ha. specialize (Hl a). rewrite Ha in Hl. inversion Hl; subst. by eexists. Qed.

Lemma quiet_insert h a t t' : h !! a = Some t -> quiet1 t t' -> quiet h (<[a := t']> h).
Proof.
  intros Ha Hl b. destruct (decide (b = a)) as [->|].
  - rewrite lookup_insert_eq, Ha. by constructor.
  - rewrite lookup_insert_ne by done. destruct (h !! b); constructor. done.
Qed.

Lemma quiet1_set p nb t : kids p ≡ₚ kids (policy_ t) -> shape p = shape (policy_ t) ->
  quiet1 t (set_blocked nb (set_policy p t)).
Proof. intros Hk Hs. by split. Qed.

(** [x] is the only class whose bookkeeping may be out of date. *)
Definition settled_but (h : store) (x : addr) : Prop :=
  forall y t, y <> x -> h !! y = Some t -> settled (bl h) t.

Lemma settled_but_all h x t : settled_but h x -> h !! x = Some t -> settled (bl h) t -> all_settled h.
Proof.
  intros Hb Hx Hs y ty Hy. destruct (decide (y = x)) as [->|]; [by simplify_eq|by eapply Hb].
Qed.

(** A change of [a]'s flag leaves every other class settled but its parent. *)
Lemma settled_after h a t t1 : tree h -> h !! a = Some t -> links t t1 ->
  settled_but h a -> settled (bl h) t1 ->
  (parent_ t = None \/ blocked_ t1 = blocked_ t -> all_settled (<[a := t1]> h)) /\
  (forall p, parent_ t = Some p -> settled_but (<[a := t1]> h) p).
Proof.
  intros HT Ha Hlk Hoth Hs. assert (Hself : settled (bl (<[a := t1]> h)) t1).
  { eapply settled_self; [done|done| |done]. by destruct Hlk. }
  split.
  - intros Hor y ty Hy. destruct (decide (y = a)) as [->|Hne].
    { rewrite lookup_insert_eq in Hy. by simplify_eq. }
    rewrite lookup_insert_ne in Hy by done. eapply (settled_elsewhere h a t); try done.
    + destruct Hor as [Hor| ->]; [left; by rewrite Hor|by right].
    + by eapply Hoth.
  - intros p Hp y ty Hyp Hy. destruct (decide (y = a)) as [->|Hne].
    { rewrite lookup_insert_eq in Hy. by simplify_eq. }
    rewrite lookup_insert_ne in Hy by done. eapply (settled_elsewhere h a t); try done.
    + left. congruence.
    + by eapply Hoth.
Qed.

Lemma unblock_fuel_spec fuel tsc h a l t : tree h -> chain h a l -> (length l <= fuel)%nat ->
  settled_but h a -> h !! a = Some t -> unblock_due (bl h) t ->
  exists h', unblock_fuel fuel tsc h a = Some h' /\ quiet h h' /\ all_settled h'.
Proof.
  revert h a l t. induction fuel as [|fuel IH]; intros h a l t HT Hc Hl Hoth Ha Hdue.
  { inversion Hc; subst; cbn in Hl; lia. }
  cbn [unblock_fuel]. rewrite Ha. cbn [mbind option_bind].
  destruct (unblock_policy_spec h tsc t (tree_present h a t HT Ha) Hdue)
    as (p & nb & -> & Hs & Hnb & Hk & Hsh). cbn [mbind option_bind fst snd].
  unfold UnblockTowardsRootSetBlocked. rewrite lookup_insert_eq. cbn [mbind option_bind].
  cbn [parent_ blocked_ set_policy]. rewrite insert_insert_eq.
  pose proof (quiet1_set p nb t Hk Hsh) as Hq1.
  set (t1 := set_blocked nb (set_policy p t)) in *. set (h1 := <[a := t1]> h).
  assert (Hq : quiet h h1) by (by apply (quiet_insert h a t)).
  destruct (settled_after h a t t1 HT Ha (q_links _ _ Hq1) Hoth Hs) as [Hall Hbut].
  destruct (parent_ t) as [pa|] eqn:Hpa.
  - destruct (negb nb && blocked_ t) eqn:Hbe.
    + apply andb_true_iff in Hbe as [->%negb_true_iff Hbt].
      inversion Hc as [|? ? ? l' Ha' Hp' Hc']; simplify_eq. cbn in Hl.
      assert (HT1 : tree h1) by (by rewrite <- Hq).
      destruct (tree_parent h HT a t pa Ha Hpa) as (tp & Htp & Hin).
      assert (Hne : pa <> a) by (intros ->; by apply (tree_not_own_parent h a t HT Ha)).
      assert (Htp1 : h1 !! pa = Some tp) by (unfold h1; by rewrite lookup_insert_ne).
      edestruct (IH h1 pa l' tp HT1) as (h' & -> & Hq' & Hset); try done.
      * by rewrite <- Hq.
      * lia.
      * by apply Hbut.
      * apply (settled_unblock_due (bl h) _ a); [done| | |].
        -- unfold h1. by rewrite bl_insert, decide_True.
        -- intros x Hx. unfold h1. by rewrite bl_insert, decide_False.
        -- by eapply Hoth.
      * exists h'. split; [done|]. split; [by etransitivity|done].
    + exists h1. split; [done|]. split; [done|]. apply Hall. right.
      apply andb_false_iff in Hbe. unfold t1. cbn.
      destruct nb; [symmetry; by apply Hnb|]. by destruct Hbe.
  - exists h1. split; [done|]. split; [done|]. apply Hall. by left.
Qed.

Lemma block_fuel_spec fuel h a l t : tree h -> chain h a l -> (length l <= fuel)%nat ->
  settled_but h a -> h !! a = Some t -> block_due (bl h) t ->
  exists h', block_fuel fuel h a = Some h' /\ quiet h h' /\ all_settled h'.
Proof.
  revert h a l t. induction fuel as [|fuel IH]; intros h a l t HT Hc Hl Hoth Ha Hdue.
  { inversion Hc; subst; cbn in Hl; lia. }
  cbn [block_fuel]. rewrite Ha. cbn [mbind option_bind].
  destruct (block_policy_spec h t (tree_present h a t HT Ha) (tree_nodup h HT a t Ha) Hdue)
    as (p & nb & -> & Hs & Hnb & Hk & Hsh). cbn [mbind option_bind fst snd].
  unfold BlockTowardsRootSetBlocked. rewrite lookup_insert_eq. cbn [mbind option_bind].
  cbn [parent_ blocked_ set_policy]. rewrite insert_insert_eq.
  pose proof (quiet1_set p nb t Hk Hsh) as Hq1.
  set (t1 := set_blocked nb (set_policy p t)) in *. set (h1 := <[a := t1]> h).
  assert (Hq : quiet h h1) by (by apply (quiet_insert h a t)).
  destruct (settled_after h a t t1 HT Ha (q_links _ _ Hq1) Hoth Hs) as [Hall Hbut].
  destruct (parent_ t) as [pa|] eqn:Hpa.
  - destruct (nb && negb (blocked_ t)) eqn:Hbe.
    + apply andb_true_iff in Hbe as [-> Hbt%negb_true_iff].
      inversion Hc as [|? ? ? l' Ha' Hp' Hc']; simplify_eq. cbn in Hl.
      assert (HT1 : tree h1) by (by rewrite <- Hq).
      destruct (tree_parent h HT a t pa Ha Hpa) as (tp & Htp & Hin).
      assert (Hne : pa <> a) by (intros ->; by apply (tree_not_own_parent h a t HT Ha)).
      assert (Htp1 : h1 !! pa = Some tp) by (unfold h1; by rewrite lookup_insert_ne).
      edestruct (IH h1 pa l' tp HT1) as (h' & -> & Hq' & Hset); try done.
      * by rewrite <- Hq.
      * lia.
      * by apply Hbut.
      * apply (settled_block_due (bl h) _ a); [done|by apply (tree_nodup h HT pa)| | | |].
        -- by rewrite (bl_lookup h a t).
        -- unfold h1. by rewrite bl_insert, decide_True.
        -- intros x Hx. unfold h1. by rewrite bl_insert, decide_False.
        -- by eapply Hoth.
      * exists h'. split; [done|]. split; [by etransitivity|done].
    + exists h1. split; [done|]. split; [done|]. apply Hall. right.
      apply andb_false_iff in Hbe. unfold t1. cbn.
      destruct nb; [|symmetry; by apply Hnb]. destruct Hbe as [|Hbe%negb_false_iff]; [done|by rewrite Hbe].
  - exists h1. split; [done|]. split; [done|]. apply Hall. by left.
Qed.

Lemma UnblockTowardsRoot_spec h a tsc t : tree h -> settled_but h a -> h !! a = Some t ->
  unblock_due (bl h) t ->
  exists h', UnblockTowardsRoot h a tsc = Some h' /\ quiet h h' /\ all_settled h'.
Proof.
  intros HT Hoth Ha Hdue. destruct (tree_chain h HT a t Ha) as [l Hc].
  eapply unblock_fuel_spec; try done. by eapply chain_length.
Qed.

Lemma BlockTowardsRoot_spec h a t : tree h -> settled_but h a -> h !! a = Some t ->
  block_due (bl h) t ->
  exists h', BlockTowardsRoot h a = Some h' /\ quiet h h' /\ all_settled h'.
Proof.
  intros HT Hoth Ha Hdue. destruct (tree_chain h HT a t Ha) as [l Hc].
  eapply block_fuel_spec; try done. by eapply chain_length.
Qed.

(** ** The wake-up queue *)

(** The queue holds exactly the classes with a wake-up time, each once. *)
Record queue_ok (h : store) (q : list addr) : Prop := {
  queue_nodup : NoDup q;
  queue_heap : is_heap (WakeupComp h) q;
  queue_mem : forall a, a ∈ q <-> exists t, h !! a = Some t /\ wakeup_time_ t <> 0 }.

Lemma wakeup_heap_ext h h' q : (forall x, x ∈ q -> wakeup_time h' x = wakeup_time h x) ->
  heap_from (WakeupComp h) 0 q -> heap_from (WakeupComp h') 0 q.
Proof.
  intros Hw Hh i j Hi Hij a b Ha Hb. unfold WakeupComp.
  rewrite !Hw by (by eapply list_elem_of_lookup_2). by apply (Hh i j Hi Hij).
Qed.

Lemma queue_ok_quiet h h' q : quiet h h' -> queue_ok h q -> queue_ok h' q.
Proof.
  intros Hq [Hnd Hh Hm]. split; [done| |].
  - eapply wakeup_heap_ext; [|exact Hh]. intros x _. unfold wakeup_time.
    destruct (Hq x) as [t t' []|]; done.
  - intros a. rewrite Hm. split.
    + intros (t & Ha & Hw). destruct (quiet_Some _ _ _ _ Hq Ha) as (t' & ? & []). exists t'. split; [done|congruence].
    + intros (t' & Ha & Hw). symmetry in Hq. destruct (quiet_Some _ _ _ _ Hq Ha) as (t & ? & []).
      exists t. split; [done|congruence].
Qed.

(** A class whose wake-up time stays what it was. *)
Lemma queue_ok_same h q a t t1 : h !! a = Some t -> wakeup_time_ t1 = wakeup_time_ t ->
  queue_ok h q -> queue_ok (<[a := t1]> h) q.
Proof.
  intros Ha Hw [Hnd Hh Hm]. split; [done| |].
  - eapply wakeup_heap_ext; [|exact Hh]. intros x _. unfold wakeup_time.
    destruct (decide (x = a)) as [->|]; [by rewrite lookup_insert_eq, Ha|by rewrite lookup_insert_ne].
  - intros b. rewrite Hm. destruct (decide (b = a)) as [->|].
    + rewrite lookup_insert_eq, Ha. split; intros (? & [= <-] & ?); eexists; (split; [done|congruence]).
    + by rewrite lookup_insert_ne.
Qed.

(** A class that gets a wake-up time and joins the queue. *)
Lemma queue_ok_add h q a t t1 : h !! a = Some t -> wakeup_time_ t = 0 -> wakeup_time_ t1 <> 0 ->
  queue_ok h q ->
  exists q1, WakeupAdd (<[a := t1]> h) q a = Some q1 /\ queue_ok (<[a := t1]> h) q1 /\ q1 ≡ₚ a :: q.
Proof.
  intros Ha Hw Hw1 [Hnd Hh Hm].
  assert (Hnot : a ∉ q) by (intros (? & ? & ?)%Hm; simplify_eq).
  destruct (push_spec (WakeupComp (<[a := t1]> h)) (WakeupComp_asym _) (WakeupComp_ntrans _) q a)
    as (q1 & Hpush & Hh1 & Hp1).
  { eapply wakeup_heap_ext; [|exact Hh]. intros x Hx. unfold wakeup_time.
    rewrite lookup_insert_ne; [done|]. by intros ->. }
  exists q1. split; [done|]. split; [|done]. split; [|done|].
  - rewrite Hp1. by constructor.
  - intros b. rewrite Hp1, elem_of_cons, Hm. destruct (decide (b = a)) as [->|].
    + rewrite lookup_insert_eq. split; [intros _; by exists t1|by left].
    + rewrite lookup_insert_ne by done. split; [by intros [?|]|by right].
Qed.

(** ** Accounting along a path *)
Definition shapes_ok (h : store) : Prop := map_Forall (fun _ t => shape_ok (shape (policy_ t))) h.

Lemma shapes_ok_linked h h' : linked h h' -> shapes_ok h -> shapes_ok h'.
Proof.
  intros Hl Hs a t' Ha. symmetry in Hl. destruct (linked_Some _ _ _ _ Hl Ha) as (t & Ht & []).
  rewrite <- lk_shape0. by apply (Hs a).
Qed.

Lemma pick_kid t c : PickNextChild t = Some c -> c ∈ kids (policy_ t).
Proof.
  unfold PickNextChild. destruct (policy_ t) as [first cs|res r b all|next r b all|res l la mb mba tk lt c'|];
    cbn [kids]; intros Hp; [| | | |done].
  - destruct (cs !! first) as [d|] eqn:Hd; [|done]. injection Hp as <-. apply list_elem_of_fmap_2.
    by eapply list_elem_of_lookup_2.
  - destruct r as [|x r]; [done|]. injection Hp as <-. by left.
  - apply elem_of_app. left. by eapply list_elem_of_lookup_2.
  - subst c'. by left.
Qed.

(** The state of the class at which accounting arrives, coming from [child]. *)
Definition finish_due (h : store) (child : option addr) (t : tc) : Prop :=
  match child with
  | None => (exists task w, policy_ t = Leaf task w) /\ (blocked_ t = false -> wakeup_time_ t = 0)
  | Some c => running (bl h) c t
  end.

Lemma running_usage b c u t : running b c t -> running b c (set_usage u t).
Proof. by destruct t. Qed.

Lemma links_set p b u t : kids p ≡ₚ kids (policy_ (set_usage u t)) ->
  shape p = shape (policy_ (set_usage u t)) -> links t (set_blocked b (set_policy p (set_usage u t))).
Proof. intros Hk Hs. by split. Qed.

Lemma finish_step_spec h q a child usage tsc t : tree h -> h !! a = Some t ->
  shape_ok (shape (policy_ t)) -> usage_ok usage -> tsc_ok tsc -> queue_ok h q ->
  finish_due h child t ->
  exists t1 q1, finish_step h q a child usage tsc = Some (<[a := t1]> h, q1) /\ links t t1 /\
    settled (bl h) t1 /\ usage_ t1 = ACCUMULATE (usage_ t) usage /\ queue_ok (<[a := t1]> h) q1.
Proof.
  intros HT Ha Hsh Hu Hts Hq Hdue. unfold finish_step. rewrite Ha. cbn [mbind option_bind].
  set (t0 := set_usage _ t). assert (Hp : present h (kids (policy_ t0))) by (exact (tree_present h a t HT Ha)).
  assert (Hnd : NoDup (kids (policy_ t0))) by (exact (tree_nodup h HT a t Ha)).
  assert (Hpol : policy_ t0 = policy_ t) by done. rewrite Hpol.
  destruct child as [c|].
  - assert (Hrun : running (bl h) c t0) by (by apply running_usage).
    assert (Hc : c ∈ kids (policy_ t0)) by (apply pick_kid, Hrun).
    destruct (policy_ t) as [first cs|res r b all|next r b all|res l la mb mba tk lt c'|task w] eqn:Hpt.
    + destruct (PriorityFinish_spec h c first cs t0) as (t1 & -> & Hs & p & b & -> & Hk & Hsp); try done.
      cbn [mbind option_bind]. do 2 eexists. split; [done|]. split; [by apply links_set|].
      split; [done|]. split; [done|]. by apply (queue_ok_same h q a t).
    + destruct (WeightedFairFinish_spec h c usage res r b all t0)
        as (t1 & -> & Hs & p & b' & -> & Hk & Hsp); try done.
      cbn [mbind option_bind]. do 2 eexists. split; [done|]. split; [by apply links_set|].
      split; [done|]. split; [done|]. by apply (queue_ok_same h q a t).
    + destruct (RoundRobinFinish_spec h c usage next r b all t0)
        as (t1 & -> & Hs & p & b' & -> & Hk & Hsp); try done.
      cbn [mbind option_bind]. do 2 eexists. split; [done|]. split; [by apply links_set|].
      split; [done|]. split; [done|]. by apply (queue_ok_same h q a t).
    + destruct Hsh as [Hres Hl].
      destruct (RateLimitFinish_spec h c usage tsc res l la mb mba tk lt c' t0)
        as (t1 & add & -> & Hs & Hpa & Hnm & Hus & Hk & Hsp & Hw0 & Hw1); try done.
      cbn [mbind option_bind fst snd]. destruct add.
      * destruct (queue_ok_add h q a t t1) as (q1 & -> & Hq1 & _); try done.
        { intros Hz. by apply Hw1 in Hz. }
        cbn [mbind option_bind]. do 2 eexists. split; [done|]. by split.
      * cbn [mbind option_bind]. do 2 eexists. split; [done|]. split; [by split|].
        split; [done|]. split; [done|]. apply (queue_ok_same h q a t); try done.
        transitivity 0; [by apply Hw1|done].
    + exfalso. rewrite Hpol in Hc. by apply not_elem_of_nil in Hc.
  - destruct Hdue as [(task & w & Hl) Hs]. rewrite Hl. do 2 eexists. split; [done|].
    split; [by split|]. split; [|split; [done|by apply (queue_ok_same h q a t)]].
    unfold settled. by rewrite Hpol, Hl.
Qed.

(** Every class on the path is unblocked and is the one its parent has picked. *)
Inductive picked (h : store) : addr -> Prop :=
| picked_root a t : h !! a = Some t -> parent_ t = None -> blocked_ t = false -> picked h a
| picked_step a t p tp : h !! a = Some t -> parent_ t = Some p -> blocked_ t = false ->
    h !! p = Some tp -> PickNextChild tp = Some a -> picked h p -> picked h a.

Lemma picked_insert h a t1 p l : chain h p l -> a ∉ l -> picked h p -> picked (<[a := t1]> h) p.
Proof.
  intros Hc. induction Hc as [b t Hb Hp|b t p l Hb Hp Hc IH]; intros Hnot Hpk.
  - eapply picked_root; [|done|]; [rewrite lookup_insert_ne; [done|]; intros ->; apply Hnot; by left|].
    inversion Hpk; by simplify_eq.
  - apply not_elem_of_cons in Hnot as [Hne Hnot].
    inversion Hpk as [|? ? ? tp ? ? ? ? ? Hpk']; simplify_eq.
    eapply picked_step; [|done|done| |done|by apply IH].
    + by rewrite lookup_insert_ne.
    + rewrite lookup_insert_ne; [done|]. intros ->. apply Hnot. inversion Hc; subst; by left.
Qed.

Definition accounted (l : list addr) (usage : resource_arr) (h h' : store) : Prop :=
  forall x t, h !! x = Some t -> exists t', h' !! x = Some t' /\
    usage_ t' = if decide (x ∈ l) then ACCUMULATE (usage_ t) usage else usage_ t.

Lemma finish_fuel_spec fuel h q a child usage tsc t l : tree h -> chain h a l ->
  (length l <= fuel)%nat -> shapes_ok h -> usage_ok usage -> tsc_ok tsc -> queue_ok h q ->
  h !! a = Some t -> finish_due h child t ->
  (forall y ty, y <> a -> parent_ t <> Some y -> h !! y = Some ty -> settled (bl h) ty) ->
  (forall p, parent_ t = Some p -> picked h p /\ exists tp, h !! p = Some tp /\ running (bl h) a tp) ->
  exists h' q', finish_fuel fuel h q a child usage tsc = Some (h', q') /\ linked h h' /\
    all_settled h' /\ queue_ok h' q' /\ accounted l usage h h'.
Proof.
  intros HT Hc. revert h q a child t l HT Hc.
  induction fuel as [|fuel IH]; intros h q a child t l HT Hc Hl Hsh Hu Hts Hq Ha Hdue Hoth Hpar.
  { inversion Hc; subst; cbn in Hl; lia. }
  cbn [finish_fuel]. rewrite Ha. cbn [mbind option_bind].
  destruct (finish_step_spec h q a child usage tsc t HT Ha (Hsh a t Ha) Hu Hts Hq Hdue)
    as (t1 & q1 & -> & Hlk & Hs & Hus & Hq1). cbn [mbind option_bind fst snd].
  set (h1 := <[a := t1]> h) in *. assert (Hl1 : linked h h1) by (by apply (linked_insert h a t)).
  assert (Hself : settled (bl h1) t1) by (eapply settled_self; [done|done|by destruct Hlk|done]).
  assert (Hothers : forall y ty, y <> a -> parent_ t <> Some y -> h !! y = Some ty -> settled (bl h1) ty).
  { intros y ty Hya Hyp Hy. eapply (settled_elsewhere h a t); try done; [by left|by eapply Hoth]. }
  destruct (parent_ t) as [p|] eqn:Hpa.
  - inversion Hc as [|? ? ? l' Ha' Hp' Hc']; simplify_eq. cbn in Hl.
    destruct (Hpar p eq_refl) as (Hpk & tp & Htp & Hrun).
    pose proof (chain_not_above h a t p l' Ha Hpa Hc') as Hnot.
    assert (Hne : p <> a) by (intros ->; by apply (tree_not_own_parent h a t HT Ha)).
    assert (Htp1 : h1 !! p = Some tp) by (unfold h1; by rewrite lookup_insert_ne).
    assert (Hpk1 : picked h1 p) by (by eapply picked_insert).
    assert (Hbp : blocked_ tp = false) by apply Hrun.
    edestruct (IH h1 q1 p (Some a) tp l') as (h' & q' & -> & Hl' & Hset & Hq' & Hacc); try done.
    + by rewrite <- Hl1.
    + by rewrite <- Hl1.
    + lia.
    + by eapply shapes_ok_linked.
    + destruct Hrun as (? & ? & Hsr). split; [done|]. split; [done|].
      eapply settled_ext; [|exact Hsr]. intros x _. unfold h1. rewrite bl_insert. by case_decide.
    + intros y ty Hyp _ Hy. destruct (decide (y = a)) as [->|Hya].
      * unfold h1 in Hy. rewrite lookup_insert_eq in Hy. by simplify_eq.
      * unfold h1 in Hy. rewrite lookup_insert_ne in Hy by done. apply (Hothers y); [done|congruence|done].
    + intros pp Hpp. inversion Hpk1 as [|? ? ? tpp Hx Hy Hz Htpp Hpick Hpk']; simplify_eq.
      split; [done|]. exists tpp. split; [done|].
      assert (blocked_ tpp = false) by (inversion Hpk'; by simplify_eq).
      split; [done|]. split; [done|].
      assert (Hppa : pp <> a).
      { intros ->. apply Hnot. inversion Hc'; simplify_eq. right.
        match goal with H : chain h a _ |- _ => inversion H; subst end; by left. }
      assert (Hppp : pp <> p) by (intros ->; by apply (tree_not_own_parent h p tp HT Htp)).
      unfold h1 in Htpp. rewrite lookup_insert_ne in Htpp by done.
      eapply settled_ext; [|apply (Hothers pp); [done|congruence|done]].
      intros x _. case_decide as Hxp; [|done]. subst x. by rewrite (bl_lookup h1 p tp).
    + exists h', q'. split; [done|]. split; [by etransitivity|]. split; [done|]. split; [done|].
      intros x tx Hx. destruct (decide (x = a)) as [->|Hxa].
      * rewrite decide_True by (by left). simplify_eq.
        destruct (Hacc a t1) as (t' & ? & Hut); [unfold h1; by rewrite lookup_insert_eq|].
        exists t'. split; [done|]. by rewrite Hut, decide_False.
      * destruct (Hacc x tx) as (t' & ? & Hut); [unfold h1; by rewrite lookup_insert_ne|].
        exists t'. split; [done|]. rewrite Hut. destruct (decide (x ∈ l')).
        -- by rewrite decide_True by (by right).
        -- rewrite decide_False; [done|]. by intros [|]%elem_of_cons.
  - exists h1, q1. split; [done|]. split; [done|]. split; [|split; [done|]].
    + intros y ty Hy. destruct (decide (y = a)) as [->|Hya]; unfold h1 in Hy.
      * rewrite lookup_insert_eq in Hy. by simplify_eq.
      * rewrite lookup_insert_ne in Hy by done. by apply (Hothers y).
    + inversion Hc; simplify_eq. intros x tx Hx. destruct (decide (x = a)) as [->|Hxa].
      * simplify_eq. rewrite decide_True by (by left). exists t1. unfold h1. by rewrite lookup_insert_eq.
      * rewrite decide_False by (by intros ?%list_elem_of_singleton). exists tx. unfold h1. by rewrite lookup_insert_ne.
Qed.

(** ** The invariant of a scheduling tree *)

(** What scheduling never touches, or changes only up to order. *)
Record static (t : tc) : Prop := {
  st_shape : shape_ok (shape (policy_ t));
  st_children : Children t ≡ₚ kids (policy_ t);
  st_sorted : forall first cs, policy_ t = Priority first cs -> StronglySorted Z.lt (map fst cs) }.

Record Inv (h : store) (q : list addr) : Prop := {
  inv_tree : tree h;
  inv_settled : all_settled h;
  inv_static : map_Forall (fun _ t => static t) h;
  inv_queue : queue_ok h q }.

Lemma Children_shape t t' : shape (policy_ t') = shape (policy_ t) -> Children t' = Children t.
Proof. unfold Children. by destruct (policy_ t), (policy_ t'); intros [=]; subst. Qed.

Lemma static_links t t' : links t t' -> static t -> static t'.
Proof.
  intros [_ _ Hsh Hk] [H1 H2 H3]. split.
  - by rewrite Hsh.
  - by rewrite (Children_shape t t' Hsh), Hk.
  - intros first cs Hp. rewrite Hp in Hsh. destruct (policy_ t) eqn:Hpt; try done.
    injection Hsh as ->. by eapply H3.
Qed.

Lemma static_policy t t' : policy_ t' = policy_ t -> static t -> static t'.
Proof. intros Hp [H1 H2 H3]. split; unfold Children in *; by rewrite Hp. Qed.

Lemma static_linked h h' : linked h h' -> map_Forall (fun _ t => static t) h ->
  map_Forall (fun _ t => static t) h'.
Proof.
  intros Hl Hs a t' Ha. symmetry in Hl. destruct (linked_Some _ _ _ _ Hl Ha) as (t & Ht & Hlk).
  eapply static_links; [symmetry; exact Hlk|]. by eapply Hs.
Qed.

Lemma inv_shapes h q : Inv h q -> shapes_ok h.
Proof. intros HI a t Ha. apply (inv_static _ _ HI a t Ha). Qed.

Lemma Inv_quiet h h' q : quiet h h' -> all_settled h' -> Inv h q -> Inv h' q.
Proof.
  intros Hq Hs [HT _ Hst HQ]. split; [by rewrite <- Hq|done| |by eapply queue_ok_quiet].
  eapply static_linked; [|done]. by rewrite <- Hq.
Qed.

(** *** Attaching and detaching a child *)
Section relink.
Context (h : store) (a child : addr) (t ct : tc) (p : policy).
Context (HT : tree h) (Ha : h !! a = Some t) (Hc : h !! child = Some ct) (Hne : child <> a).

Definition relinked (par : option addr) : store :=
  <[child := set_parent par ct]> (<[a := set_policy p t]> h).

Lemma relinked_child par : relinked par !! child = Some (set_parent par ct).
Proof using Type. unfold relinked. by rewrite lookup_insert_eq. Qed.

Lemma relinked_self par : relinked par !! a = Some (set_policy p t).
Proof using Hne. unfold relinked. by rewrite lookup_insert_ne, lookup_insert_eq. Qed.

Lemma relinked_other par x : x <> a -> x <> child -> relinked par !! x = h !! x.
Proof using Type. intros. unfold relinked. by rewrite !lookup_insert_ne. Qed.

Lemma relinked_inv par x tx : relinked par !! x = Some tx ->
  (x = child /\ tx = set_parent par ct) \/ (x = a /\ tx = set_policy p t) \/
  (x <> a /\ x <> child /\ h !! x = Some tx).
Proof using Hne.
  intros Hx. destruct (decide (x = child)) as [->|Hxc].
  { rewrite relinked_child in Hx. simplify_eq. by left. }
  destruct (decide (x = a)) as [->|Hxa].
  { rewrite relinked_self in Hx. simplify_eq. right. by left. }
  rewrite relinked_other in Hx by done. right. by right.
Qed.

Lemma relinked_bl par x : bl (relinked par) x = bl h x.
Proof using Ha Hc Hne.
  destruct (decide (x = child)) as [->|Hxc].
  { by rewrite (bl_lookup _ child _ (relinked_child par)), (bl_lookup h child ct). }
  destruct (decide (x = a)) as [->|Hxa].
  { by rewrite (bl_lookup _ a _ (relinked_self par)), (bl_lookup h a t). }
  unfold bl, blocked. by rewrite relinked_other.
Qed.

Lemma relinked_settled par : all_settled h -> settled_but (relinked par) a.
Proof using Ha Hc Hne.
  intros Hs x tx Hxa Hx. assert (Hext : forall u, settled (bl h) u -> settled (bl (relinked par)) u).
  { intros u. apply settled_ext. intros y _. by rewrite relinked_bl. }
  apply Hext. apply relinked_inv in Hx as [[-> ->]|[[-> ->]|(_ & _ & Hx)]].
  - by apply (Hs child ct).
  - done.
  - by apply (Hs x tx).
Qed.

Lemma relinked_queue par q : queue_ok h q -> queue_ok (relinked par) q.
Proof using Ha Hc Hne.
  intros Hq. unfold relinked. apply (queue_ok_same _ q child ct); [by rewrite lookup_insert_ne|done|].
  by apply (queue_ok_same h q a t).
Qed.

Lemma relinked_parent par x tx : x <> child -> h !! x = Some tx ->
  exists tx', relinked par !! x = Some tx' /\ parent_ tx' = parent_ tx.
Proof using Ha Hne.
  intros Hxc Hx. destruct (decide (x = a)) as [->|Hxa].
  - rewrite relinked_self. simplify_eq. by eexists.
  - rewrite relinked_other by done. by eexists.
Qed.

(** A path that avoids the child is not affected. *)
Lemma relinked_chain_avoid par x l : chain h x l -> child ∉ l -> chain (relinked par) x l.
Proof using Ha Hne.
  induction 1 as [x tx Hx Hp|x tx y l Hx Hp Hch IH]; intros Hnot; apply not_elem_of_cons in Hnot as [Hxc Hnot].
  - destruct (relinked_parent par x tx) as (tx' & ? & ?); [done|done|]. eapply chain_root; [done|congruence].
  - destruct (relinked_parent par x tx) as (tx' & ? & ?); [done|done|].
    eapply chain_step; [done|by etransitivity|by apply IH].
Qed.

Lemma relinked_chains par lc : chain (relinked par) child lc ->
  forall x tx, h !! x = Some tx -> exists l, chain (relinked par) x l.
Proof using HT Ha Hne.
  intros Hlc x tx Hx. destruct (tree_chain h HT x tx Hx) as [l Hch].
  clear Hx. induction Hch as [x tx' Hx Hp|x tx' y l Hx Hp Hch IH];
    (destruct (decide (x = child)) as [->|Hxc]; [by exists lc|]).
  - destruct (relinked_parent par x tx') as (tx2 & ? & ?); [done|done|].
    exists [x]. eapply chain_root; [done|congruence].
  - destruct (relinked_parent par x tx') as (tx2 & ? & ?); [done|done|].
    destruct IH as [l' Hl']. exists (x :: l'). by eapply chain_step; [|etransitivity|].
Qed.

(** [AddChild] keeps the tree, when the child is a root of another tree. *)
Lemma tree_attach : parent_ ct = None -> (forall l, chain h a l -> child ∉ l) ->
  kids p ≡ₚ child :: kids (policy_ t) -> tree (relinked (Some a)).
Proof using HT Ha Hc Hne.
  intros Hroot Hanc Hk. destruct (tree_chain h HT a t Ha) as [la Hla].
  assert (Hlc : chain (relinked (Some a)) child (child :: la)).
  { eapply chain_step; [apply relinked_child|done|]. apply relinked_chain_avoid; [done|by apply Hanc]. }
  assert (Hnotkid : forall x tx, h !! x = Some tx -> child ∉ kids (policy_ tx)).
  { intros x tx Hx Hin. destruct (tree_kids h HT x tx child Hx Hin) as (? & ? & ?). simplify_eq. }
  split.
  - intros x tx Hx. apply relinked_inv in Hx as [[-> _]|[[-> _]|(_ & _ & Hx)]];
      by eapply relinked_chains.
  - intros x tx c Hx Hin. apply relinked_inv in Hx as [[-> ->]|[[-> ->]|(Hxa & Hxc & Hx)]].
    + destruct (tree_kids h HT child ct c Hc Hin) as (tc' & Htc & Hpc).
      destruct (relinked_parent (Some a) c tc') as (tc2 & ? & ?); [|done|exists tc2; split; [done|congruence]].
      intros ->. by apply (Hnotkid child ct Hc).
    + cbn in Hin. rewrite Hk in Hin. apply elem_of_cons in Hin as [->|Hin].
      { exists (set_parent (Some a) ct). split; [apply relinked_child|done]. }
      destruct (tree_kids h HT a t c Ha Hin) as (tc' & Htc & Hpc).
      destruct (relinked_parent (Some a) c tc') as (tc2 & ? & ?); [|done|exists tc2; split; [done|congruence]].
      intros ->. by apply (Hnotkid a t Ha).
    + destruct (tree_kids h HT x tx c Hx Hin) as (tc' & Htc & Hpc).
      destruct (relinked_parent (Some a) c tc') as (tc2 & ? & ?); [|done|exists tc2; split; [done|congruence]].
      intros ->. by apply (Hnotkid x tx Hx).
  - intros c tc' y Hx Hpar.
    assert (Hup : forall ty, h !! y = Some ty -> c ∈ kids (policy_ ty) ->
      exists ty', relinked (Some a) !! y = Some ty' /\ c ∈ kids (policy_ ty')).
    { intros ty Hy Hin. destruct (decide (y = a)) as [->|Hya].
      - rewrite relinked_self. eexists. split; [done|]. cbn. rewrite Hk. right. by simplify_eq.
      - destruct (decide (y = child)) as [->|Hyc].
        + rewrite relinked_child. eexists. split; [done|]. cbn. by simplify_eq.
        + rewrite relinked_other by done. by exists ty. }
    apply relinked_inv in Hx as [[-> ->]|[[-> ->]|(Hxa & Hxc & Hx)]].
    + injection Hpar as <-. rewrite relinked_self. eexists. split; [done|]. cbn. rewrite Hk. by left.
    + destruct (tree_parent h HT a t y Ha Hpar) as (ty & ? & ?). by eapply Hup.
    + destruct (tree_parent h HT c tc' y Hx Hpar) as (ty & ? & ?). by eapply Hup.
  - intros x tx Hx. apply relinked_inv in Hx as [[-> ->]|[[-> ->]|(Hxa & Hxc & Hx)]].
    + exact (tree_nodup h HT child ct Hc).
    + cbn. rewrite Hk. constructor; [by apply (Hnotkid a t Ha)|by apply (tree_nodup h HT a)].
    + by apply (tree_nodup h HT x).
Qed.

(** [RemoveChild] keeps the tree; the child becomes a root. *)
Lemma tree_detach : parent_ ct = Some a -> child :: kids p ≡ₚ kids (policy_ t) ->
  tree (relinked None).
Proof using HT Ha Hc Hne.
  intros Hpar Hk. assert (Hlc : chain (relinked None) child [child]).
  { eapply chain_root; [apply relinked_child|done]. }
  assert (Hnd : NoDup (child :: kids p)) by (rewrite Hk; by apply (tree_nodup h HT a)).
  apply NoDup_cons in Hnd as [Hnotp Hndp].
  split.
  - intros x tx Hx. apply relinked_inv in Hx as [[-> _]|[[-> _]|(_ & _ & Hx)]];
      by eapply relinked_chains.
  - assert (Hgen : forall x tx c, h !! x = Some tx -> c ∈ kids (policy_ tx) -> c <> child ->
      exists tc', relinked None !! c = Some tc' /\ parent_ tc' = Some x).
    { intros x tx c Hx Hin Hcc. destruct (tree_kids h HT x tx c Hx Hin) as (tc' & Htc & Hpc).
      destruct (relinked_parent None c tc') as (tc2 & ? & ?); [done|done|].
      exists tc2. split; [done|congruence]. }
    assert (Honly : forall x tx, h !! x = Some tx -> child ∈ kids (policy_ tx) -> x = a).
    { intros x tx Hx Hin. destruct (tree_kids h HT x tx child Hx Hin) as (? & ? & ?). by simplify_eq. }
    intros x tx c Hx Hin. apply relinked_inv in Hx as [[-> ->]|[[-> ->]|(Hxa & Hxc & Hx)]].
    + apply (Hgen child ct c Hc Hin). intros ->. by apply Hne, (Honly child ct Hc).
    + apply (Hgen a t c Ha); [rewrite <- Hk; by right|]. by intros ->.
    + apply (Hgen x tx c Hx Hin). intros ->. by apply Hxa, (Honly x tx Hx).
  - intros c tc' y Hx Hpc.
    assert (Hup : forall ty, c <> child -> h !! y = Some ty -> c ∈ kids (policy_ ty) ->
      exists ty', relinked None !! y = Some ty' /\ c ∈ kids (policy_ ty')).
    { intros ty Hcc Hy Hin. destruct (decide (y = a)) as [->|Hya].
      - rewrite relinked_self. eexists. split; [done|]. cbn. simplify_eq. rewrite <- Hk in Hin.
        by apply elem_of_cons in Hin as [|].
      - destruct (decide (y = child)) as [->|Hyc].
        + rewrite relinked_child. eexists. split; [done|]. cbn. by simplify_eq.
        + rewrite relinked_other by done. by exists ty. }
    apply relinked_inv in Hx as [[-> ->]|[[-> ->]|(Hxa & Hxc & Hx)]]; [done| |].
    + destruct (tree_parent h HT a t y Ha Hpc) as (ty & ? & ?). by eapply Hup.
    + destruct (tree_parent h HT c tc' y Hx Hpc) as (ty & ? & ?). by eapply Hup.
  - intros x tx Hx. apply relinked_inv in Hx as [[-> ->]|[[-> ->]|(Hxa & Hxc & Hx)]].
    + exact (tree_nodup h HT child ct Hc).
    + done.
    + by apply (tree_nodup h HT x).
Qed.
End relink.

(** ** [AddChild] *)

(** [AddChild] and [RemoveChild] touch no parent but the child's and no shape but
    that of the class. *)
Record grown (h h' : store) (a child : addr) : Prop := {
  grown_Some : forall x t, h !! x = Some t -> exists t', h' !! x = Some t' /\
    (x <> child -> parent_ t' = parent_ t) /\ (x <> a -> shape (policy_ t') = shape (policy_ t)) /\
    policy_tag (policy_ t') = policy_tag (policy_ t) /\ wakeup_time_ t' = wakeup_time_ t;
  grown_None : forall x, h !! x = None -> h' !! x = None }.

Lemma shape_tag p p' : shape p = shape p' -> policy_tag p = policy_tag p'.
Proof. by destruct p, p'. Qed.

Lemma grown_relinked h a child t ct p par h' : h !! a = Some t -> h !! child = Some ct -> child <> a ->
  policy_tag p = policy_tag (policy_ t) ->
  quiet (relinked h a child t ct p par) h' -> grown h h' a child.
Proof.
  intros Ha Hc Hne Htag Hq. split; intros x; [intros tx Hx|intros Hx].
  2: { assert (Hx1 : relinked h a child t ct p par !! x = None).
       { rewrite relinked_other; [done|congruence..]. }
       specialize (Hq x). rewrite Hx1 in Hq. by inversion Hq. }
  assert (exists tx1, relinked h a child t ct p par !! x = Some tx1 /\
    (x <> child -> parent_ tx1 = parent_ tx) /\ (x <> a -> policy_ tx1 = policy_ tx) /\
    policy_tag (policy_ tx1) = policy_tag (policy_ tx) /\ wakeup_time_ tx1 = wakeup_time_ tx)
    as (tx1 & Hx1 & Hp & Hs & Ht & Hw).
  { destruct (decide (x = child)) as [->|Hxc]; [|destruct (decide (x = a)) as [->|Hxa]].
    - rewrite relinked_child. simplify_eq. by eexists.
    - rewrite relinked_self by done. simplify_eq. by eexists.
    - rewrite relinked_other by done. by eexists. }
  destruct (quiet_Some _ _ _ _ Hq Hx1) as (t' & Hx' & [[Hp' _ Hs' _] _ _ Hw']). exists t'.
  split; [done|]. split; [intros; by rewrite Hp', Hp|]. split; [intros; by rewrite Hs', Hs|].
  split; [|congruence]. rewrite <- Ht. by apply shape_tag.
Qed.

Definition fits (p : policy) (args : child_args) : bool :=
  match p, args with
  | Priority _ _, PriorityChildArgs _ | WeightedFair _ _ _ _, WeightedFairChildArgs _
  | RoundRobin _ _ _ _, RoundRobinChildArgs | RateLimit _ _ _ _ _ _ _ _, RateLimitChildArgs => true
  | _, _ => false
  end.

(** When a class takes one more child (that has no parent). *)
Definition accepts (p : policy) (args : child_args) : bool :=
  match p, args with
  | Priority _ cs, PriorityChildArgs priority => negb (existsb (fun c => fst c =? priority) cs)
  | WeightedFair _ _ _ _, WeightedFairChildArgs share => negb (share =? 0)
  | RateLimit _ _ _ _ _ _ _ c, RateLimitChildArgs => bool_decide (c = None)
  | _, _ => true
  end.

Lemma InsertSorted_sorted (cs : list (Z * addr)) x : StronglySorted Z.lt (map fst cs) ->
  existsb (fun c => fst c =? fst x) cs = false ->
  StronglySorted Z.lt (map fst (InsertSorted prio_less cs x)).
Proof.
  intros Hs Hx. destruct (InsertSorted_spec prio_less cs x) as (k & Hk & -> & Hdrop & Hlast).
  assert (Hne : forall y, y ∈ cs -> fst y <> fst x).
  { intros y Hy Heq. apply not_true_iff_false in Hx. apply Hx. apply existsb_exists. exists y.
    split; [by apply list_elem_of_In|]. by apply Z.eqb_eq. }
  rewrite <- (take_drop k cs) in Hs. rewrite map_app in *. cbn [map].
  assert (Hd : Forall (fun z => fst x < z) (map fst (drop k cs))).
  { apply Forall_fmap. eapply Forall_impl; [exact Hdrop|]. intros y. unfold prio_less. cbn.
    by rewrite Z.ltb_lt. }
  revert Hs Hlast. generalize (map fst (drop k cs)) Hd. clear Hdrop Hd.
  assert (Hsub : forall y, y ∈ take k cs -> y ∈ cs) by (intros y Hy; rewrite <- (take_drop k cs); apply elem_of_app; by left).
  revert Hsub. generalize (take k cs). intros l Hsub zs Hd Hs Hlast.
  induction l as [|y l IH]; cbn [map app] in *.
  { by constructor. }
  inversion Hs as [|? ? Hs' Hall]; subst. constructor.
  - apply IH; [intros z Hz; apply Hsub; by right|done|]. intros z Hz. apply Hlast. by destruct l.
  - apply Forall_app in Hall as [Hl Hz].
    apply Forall_app. split; [done|]. constructor; [|done].
    assert (fst y <> fst x) by (apply Hne, Hsub; by left).
    destruct l as [|w l].
    + specialize (Hlast y eq_refl). unfold prio_less in Hlast. apply Z.ltb_ge in Hlast. lia.
    + assert (exists u, last (w :: l) = Some u /\ fst y < fst u) as (u & Hu & Hyu).
      { destruct (last (w :: l)) as [u|] eqn:Hu; [|by apply last_None in Hu].
        exists u. split; [done|]. rewrite Forall_forall in Hl. apply Hl.
        apply list_elem_of_fmap_2. apply last_Some in Hu as [l' ->]. apply elem_of_app. right. by left. }
      specialize (Hlast u ltac:(by destruct l)). unfold prio_less in Hlast. apply Z.ltb_ge in Hlast. lia.
Qed.

Section add_child.
Context (h : store) (q : list addr) (a child : addr) (t ct : tc) (tsc : Z).
Context (HI : Inv h q) (Ha : h !! a = Some t) (Hc : h !! child = Some ct).
Context (Hroot : parent_ ct = None) (Hanc : forall l, chain h a l -> child ∉ l).

Lemma add_child_ne : child <> a.
Proof using All.
  intros ->. destruct (tree_chain h (inv_tree _ _ HI) a t Ha) as [l Hl].
  apply (Hanc l Hl). inversion Hl; subst; by left.
Qed.

Abbreviation attached p := (relinked h a child t ct p (Some a)).

Lemma attach_updates p : (h ← update h a (set_policy p); update h child (set_parent (Some a))) = Some (attached p).
Proof using All.
  unfold update. rewrite Ha. cbn [mbind option_bind].
  rewrite lookup_insert_ne by (symmetry; apply add_child_ne). by rewrite Hc.
Qed.

Lemma attach_updates' p : (h ← update h child (set_parent (Some a)); update h a (set_policy p)) = Some (attached p).
Proof using All.
  unfold update. rewrite Hc. cbn [mbind option_bind].
  rewrite lookup_insert_ne by apply add_child_ne. rewrite Ha. cbn [mbind option_bind].
  unfold relinked. by rewrite insert_insert_ne by (symmetry; apply add_child_ne).
Qed.

Lemma attach_static p x tx : x <> a -> attached p !! x = Some tx -> static tx.
Proof using All.
  intros Hxa Hx. apply relinked_inv in Hx as [[-> ->]|[[-> ->]|(_ & _ & Hx)]]; [|done| |apply add_child_ne].
  - eapply static_policy; [|apply (inv_static _ _ HI child ct Hc)]. done.
  - by apply (inv_static _ _ HI x).
Qed.

Lemma attach_unblock p : kids p ≡ₚ child :: kids (policy_ t) -> unblock_due (bl h) (set_policy p t) ->
  exists h', UnblockTowardsRoot (attached p) a tsc = Some h' /\ quiet (attached p) h' /\
    tree h' /\ all_settled h' /\ queue_ok h' q.
Proof using All.
  intros Hk Hdue. pose proof add_child_ne as Hne.
  assert (HT : tree (attached p)) by (apply tree_attach; try done; apply HI).
  destruct (UnblockTowardsRoot_spec (attached p) a tsc (set_policy p t) HT) as (h' & Hh' & Hq & Hs).
  - apply relinked_settled; try done. apply HI.
  - by apply relinked_self.
  - eapply unblock_due_ext; [|exact Hdue]. intros x. by rewrite relinked_bl.
  - exists h'. split; [done|]. split; [done|]. split; [by rewrite <- Hq|]. split; [done|].
    eapply queue_ok_quiet; [done|]. apply relinked_queue; try done. apply HI.
Qed.
End add_child.

Lemma Inv_attached h q a child t ct (tsc : Z) p h' t' p2 : Inv h q -> h !! a = Some t -> h !! child = Some ct ->
  parent_ ct = None -> (forall l, chain h a l -> child ∉ l) ->
  quiet (relinked h a child t ct p (Some a)) h' -> tree h' -> all_settled h' -> queue_ok h' q ->
  h' !! a = Some t' -> kids p2 = kids (policy_ t') ->
  (forall b, settled b t' -> settled b (set_policy p2 t')) ->
  static (set_policy p2 t') -> Inv (<[a := set_policy p2 t']> h') q.
Proof.
  intros HI Ha Hc Hroot Hanc Hq HT Hs HQ Ha' Hk Hst Hstat.
  assert (Hak : akin h' (<[a := set_policy p2 t']> h')).
  { intros x. destruct (decide (x = a)) as [->|].
    - rewrite lookup_insert_eq, Ha'. constructor. split; [done|]. cbn. by rewrite Hk.
    - rewrite lookup_insert_ne by done. by destruct (h' !! x); constructor. }
  split.
  - by rewrite <- Hak.
  - intros x tx Hx. assert (Hext : forall u, settled (bl h') u -> settled (bl (<[a := set_policy p2 t']> h')) u).
    { intros u. apply settled_ext. intros y _. rewrite bl_insert. case_decide; [|done]. subst.
      by rewrite (bl_lookup h' a t'). }
    apply Hext. destruct (decide (x = a)) as [->|].
    + rewrite lookup_insert_eq in Hx. simplify_eq. apply Hst, (Hs a). done.
    + rewrite lookup_insert_ne in Hx by done. by apply (Hs x).
  - intros x tx Hx. destruct (decide (x = a)) as [->|Hxa].
    + rewrite lookup_insert_eq in Hx. by simplify_eq.
    + rewrite lookup_insert_ne in Hx by done. symmetry in Hq.
      destruct (quiet_Some _ _ _ _ Hq Hx) as (tx0 & Hx0 & Hq1).
      eapply static_links; [symmetry; apply (q_links _ _ Hq1)|].
      by apply (attach_static h q a child t ct tsc HI Ha Hc Hroot Hanc p x tx0).
  - by apply (queue_ok_same h' q a t').
Qed.

Section add_child_ops.
Context (h : store) (q : list addr) (a child : addr) (t ct : tc) (tsc : Z).
Context (HI : Inv h q) (Ha : h !! a = Some t) (Hc : h !! child = Some ct).
Context (Hanc : forall l, chain h a l -> child ∉ l).

(** What the [AddChild] of a policy promises, [ok] telling whether it accepts. *)
Definition add_child_post (ok : bool) (res : option (store * bool)) : Prop :=
  exists h' r, res = Some (h', r) /\ Inv h' q /\ r = bool_decide (parent_ ct = None) && ok /\
    if r then exists t' ct', h' !! a = Some t' /\ h' !! child = Some ct' /\
        Children t' ≡ₚ child :: Children t /\ parent_ ct' = Some a /\ grown h h' a child
    else h' = h.

Lemma add_child_refused ok : bool_decide (parent_ ct = None) && ok = false ->
  add_child_post ok (Some (h, false)).
Proof using HI. intros Hf. exists h, false. by rewrite Hf. Qed.

Lemma attach_done p h' : quiet (relinked h a child t ct p (Some a)) h' -> child <> a ->
  exists t' ct', h' !! a = Some t' /\ quiet1 (set_policy p t) t' /\ h' !! child = Some ct' /\
    parent_ ct' = Some a.
Proof using Type.
  intros Hq Hne.
  destruct (quiet_Some _ _ a _ Hq (relinked_self h a child t ct p Hne _)) as (t' & ? & ?).
  destruct (quiet_Some _ _ child _ Hq (relinked_child h a child t ct p _)) as (ct' & ? & [[]]).
  by exists t', ct'.
Qed.

(** The parent had no list to update after [UnblockTowardsRoot]. *)
Lemma attach_plain p : parent_ ct = None -> policy_tag p = policy_tag (policy_ t) -> kids p ≡ₚ child :: kids (policy_ t) ->
  unblock_due (bl h) (set_policy p t) -> static (set_policy p t) ->
  Children (set_policy p t) ≡ₚ child :: Children t ->
  add_child_post true (h ← UnblockTowardsRoot (relinked h a child t ct p (Some a)) a tsc; Some (h, true)).
Proof using All.
  intros Hroot Htag Hk Hdue Hst Hch.
  destruct (attach_unblock h q a child t ct tsc HI Ha Hc Hroot Hanc p Hk Hdue)
    as (h' & -> & Hq & HT & Hs & HQ). cbn [mbind option_bind].
  destruct (attach_done p h' Hq) as (t' & ct' & Ht' & Hq1 & Hct' & Hpar);
    [by apply (add_child_ne h q a child t ct tsc)|].
  exists h', true. split; [done|]. split; [|split].
  - rewrite <- (insert_id h' a (set_policy (policy_ t') t')) by (rewrite Ht'; by destruct t').
    eapply (Inv_attached h q a child t ct tsc p); try done.
    eapply static_links; [|exact Hst]. destruct Hq1 as [Hlk _ _ _]. by destruct t'.
  - by rewrite bool_decide_true.
  - exists t', ct'. split; [done|]. split; [done|]. split; [|split; [done|]].
    + rewrite <- Hch. by rewrite (Children_shape (set_policy p t) t') by apply Hq1.
    + eapply (grown_relinked h a child t ct p); try done. by apply (add_child_ne h q a child t ct tsc).
Qed.

Lemma PriorityAddChild_spec first cs priority : policy_ t = Priority first cs ->
  add_child_post (accepts (Priority first cs) (PriorityChildArgs priority))
    (PriorityAddChild h a child priority tsc first cs).
Proof using All.
  intros Hpol. unfold PriorityAddChild. rewrite Hc. cbn [mbind option_bind accepts].
  case_bool_decide as Hpar; [apply add_child_refused; rewrite bool_decide_false; [done|]; by intros ?; destruct Hpar; congruence|].
  apply eq_None_not_Some in Hpar. destruct (existsb _ cs) eqn:Hex.
  { apply add_child_refused. by rewrite andb_false_r. }
  set (p := Priority first _).
  pose proof (attach_updates h q a child t ct tsc HI Ha Hc Hpar Hanc p) as Hup.
  destruct (update h a (set_policy p)) as [h1|]; cbn [mbind option_bind] in *; [|done].
  rewrite Hup. cbn [mbind option_bind negb].
  pose proof (InsertSorted_perm prio_less cs (priority, child)) as Hperm.
  apply attach_plain; [done|by rewrite Hpol| | | |].
  - rewrite Hpol. cbn. by rewrite Hperm.
  - unfold unblock_due. cbn. rewrite Hperm. intros [_ Hall]%Forall_cons.
    pose proof (inv_settled _ _ HI a t Ha) as Hs. unfold settled in Hs. rewrite Hpol in Hs.
    destruct Hs as (Hle & _ & Hat & ->). rewrite bool_decide_true; [done|].
    destruct (decide (first = length cs)); [done|]. destruct (lookup_lt_is_Some_2 cs first) as [x Hx]; [lia|].
    rewrite Forall_forall in Hall. specialize (Hat x Hx).
    by rewrite (Hall x) in Hat by (by eapply list_elem_of_lookup_2).
  - pose proof (inv_static _ _ HI a t Ha) as [H1 H2 H3]. split; [done| |].
    + unfold Children, p. cbn. done.
    + intros f cs' [= <- <-]. apply InsertSorted_sorted; [by eapply H3|done].
  - unfold Children. rewrite Hpol. cbn. by rewrite Hperm.
Qed.

Lemma RateLimitAddChild_spec res l la mb mba tk lt c : policy_ t = RateLimit res l la mb mba tk lt c ->
  add_child_post (accepts (RateLimit res l la mb mba tk lt c) RateLimitChildArgs)
    (RateLimitAddChild h a child tsc (RateLimit res l la mb mba tk lt) c).
Proof using All.
  intros Hpol. unfold RateLimitAddChild. rewrite Hc. cbn [mbind option_bind accepts].
  destruct (bool_decide (is_Some (parent_ ct))) eqn:Hpar; cbn [orb].
  { apply bool_decide_eq_true in Hpar. apply add_child_refused.
    rewrite bool_decide_false; [done|]. intros Hn. destruct Hpar. congruence. }
  apply bool_decide_eq_false, eq_None_not_Some in Hpar. destruct c as [c|].
  { rewrite (bool_decide_true (is_Some (Some c))) by (by exists c). apply add_child_refused.
    rewrite (bool_decide_false (Some c = None)) by done. by rewrite andb_false_r. }
  rewrite (bool_decide_false (is_Some None)), (bool_decide_true (None = None)) by (done || by intros []).
  set (p := RateLimit _ _ _ _ _ _ _ (Some child)).
  pose proof (attach_updates h q a child t ct tsc HI Ha Hc Hpar Hanc p) as Hup.
  destruct (update h a (set_policy p)) as [h1|]; cbn [mbind option_bind] in *; [|done].
  rewrite Hup. cbn [mbind option_bind negb].
  pose proof (inv_settled _ _ HI a t Ha) as Hs. unfold settled in Hs. rewrite Hpol in Hs.
  pose proof (inv_static _ _ HI a t Ha) as [H1 H2 H3]. rewrite Hpol in H1.
  apply attach_plain; [done|by rewrite Hpol| | | |].
  - by rewrite Hpol.
  - unfold unblock_due. cbn. intros Hbk. destruct Hs as [Hs _]. by destruct (Hs Hbk) as (_ & ? & ? & _).
  - by split.
  - unfold Children. by rewrite Hpol.
Qed.

(** After the recursion the class appends the child to the list of all children. *)
Lemma attach_listed p all all2 (upd : tc -> tc) h' :
  parent_ ct = None -> quiet (relinked h a child t ct p (Some a)) h' -> tree h' -> all_settled h' ->
  queue_ok h' q ->
  (forall t', shape (policy_ t') = shape p -> exists p2, upd t' = set_policy p2 t' /\
     kids p2 = kids (policy_ t') /\ (forall b, settled b t' -> settled b (set_policy p2 t')) /\
     shape_ok (shape p2) /\ Children (set_policy p2 t') = all2 /\
     (forall f cs, p2 <> Priority f cs) /\ policy_tag p2 = policy_tag (policy_ t')) ->
  policy_tag p = policy_tag (policy_ t) -> kids p ≡ₚ child :: all -> Children t ≡ₚ all -> all2 ≡ₚ child :: all ->
  add_child_post true (h ← update h' a upd; Some (h, true)).
Proof using All.
  intros Hroot Hq HT Hs HQ Hupd Htag Hk Hch Hall2.
  destruct (attach_done p h' Hq) as (t' & ct' & Ht' & Hq1 & Hct' & Hpar);
    [by apply (add_child_ne h q a child t ct tsc)|].
  pose proof (add_child_ne h q a child t ct tsc HI Ha Hc Hroot Hanc) as Hne.
  pose proof (q_links _ _ Hq1) as [_ _ Hsh Hkk]. cbn in Hsh, Hkk.
  destruct (Hupd t' Hsh) as (p2 & Heq & Hk2 & Hst2 & Hsok & Hch2 & Hnp & Htag2).
  unfold update. rewrite Ht'. cbn [mbind option_bind]. rewrite Heq.
  eexists _, true. split; [done|]. split; [|split].
  - eapply (Inv_attached h q a child t ct tsc p); try done. split; [done| |].
    + rewrite Hch2, Hall2. cbn. by rewrite Hk2, Hkk, Hk.
    + intros f cs Hp2. cbn in Hp2. by apply Hnp in Hp2.
  - by rewrite bool_decide_true.
  - exists (set_policy p2 t'), ct'. rewrite lookup_insert_eq, lookup_insert_ne by done.
    split; [done|]. split; [done|]. split; [by rewrite Hch2, Hall2, Hch|]. split; [done|].
    destruct (grown_relinked h a child t ct p (Some a) h' Ha Hc Hne Htag Hq) as [HgS HgN].
    split; [|intros x Hx; rewrite lookup_insert_ne by congruence; by apply HgN].
    intros x tx Hx. destruct (HgS x tx Hx) as (tx' & Hx' & Hpx & Hsx & Htx & Hwx).
    destruct (decide (x = a)) as [->|Hxa].
    + rewrite lookup_insert_eq. simplify_eq. eexists. split; [done|]. split; [|split; [done|]].
      * intros Hac. by apply Hpx.
      * cbn. simplify_eq. by rewrite Htag2.
    + rewrite lookup_insert_ne by done. by exists tx'.
Qed.

Lemma attached_settled p : settled (bl h) (set_policy p t) ->
  all_settled (relinked h a child t ct p (Some a)).
Proof using All.
  intros Hs. destruct (decide (child = a)) as [->|Hne].
  { exfalso. destruct (tree_chain h (inv_tree _ _ HI) a t Ha) as [l Hl].
    apply (Hanc l Hl). inversion Hl; subst; by left. }
  eapply (settled_but_all _ a); [|by apply relinked_self|].
  - apply relinked_settled; try done. apply HI.
  - eapply settled_ext; [|exact Hs]. intros x _. by rewrite relinked_bl.
Qed.

Lemma WeightedFairAddChild_spec res r b all share : policy_ t = WeightedFair res r b all ->
  add_child_post (accepts (WeightedFair res r b all) (WeightedFairChildArgs share))
    (WeightedFairAddChild h a child share tsc res r b all).
Proof using All.
  intros Hpol. unfold WeightedFairAddChild. rewrite Hc. cbn [mbind option_bind accepts].
  destruct (bool_decide (is_Some (parent_ ct)) || (share =? 0)) eqn:Href.
  { apply add_child_refused. apply orb_true_iff in Href as [Hp%bool_decide_eq_true| ->]; [|apply andb_false_r].
    rewrite bool_decide_false; [done|]. intros Hn. destruct Hp. congruence. }
  apply orb_false_iff in Href as [Hpar%bool_decide_eq_false%eq_None_not_Some Hshare]. rewrite Hshare. cbn [negb].
  set (cd := WfChild _ _ _).
  pose proof (inv_settled _ _ HI a t Ha) as Hs. unfold settled in Hs. rewrite Hpol in Hs.
  destruct Hs as (Hheap & Hr & Hb & Hbk).
  pose proof (inv_static _ _ HI a t Ha) as [Hsok Hch _]. rewrite Hpol in Hsok, Hch. cbn in Hsok, Hch.
  assert (Hupd : forall t', shape (policy_ t') = ShWeightedFair res all -> exists p2,
    (match policy_ t' with
     | WeightedFair res runnable bl all => set_policy (WeightedFair res runnable bl (all ++ [(child, share)])) t'
     | _ => t' end) = set_policy p2 t' /\
     kids p2 = kids (policy_ t') /\ (forall b, settled b t' -> settled b (set_policy p2 t')) /\
     shape_ok (shape p2) /\ Children (set_policy p2 t') = map fst (all ++ [(child, share)]) /\
     (forall f cs, p2 <> Priority f cs) /\ policy_tag p2 = policy_tag (policy_ t')).
  { intros t' Hsh. destruct (policy_ t') as [ |res' r' b' all'| | | ] eqn:Hp'; try done. injection Hsh as -> ->.
    eexists. split; [done|]. split; [done|]. split; [intros bb; unfold settled; by rewrite Hp'|done]. }
  assert (Hall : map fst (all ++ [(child, share)]) ≡ₚ child :: map wf_c (r ++ b)).
  { rewrite map_app, Permutation_app_comm. cbn. constructor. unfold Children in Hch. by rewrite Hpol in Hch. }
  destruct (blocked_ ct) eqn:Hbc.
  - set (p := WeightedFair res r (b ++ [cd]) all).
    pose proof (attach_updates' h q a child t ct tsc HI Ha Hc Hpar Hanc p) as Hup.
    destruct (update h child _) as [h1|]; cbn [mbind option_bind] in *; [|done].
    rewrite Hup. cbn [mbind option_bind].
    assert (Hk : kids p ≡ₚ child :: map wf_c (r ++ b)).
    { cbn. rewrite !map_app. cbn. rewrite app_assoc, Permutation_app_comm. done. }
    pose proof (add_child_ne h q a child t ct tsc HI Ha Hc Hpar Hanc) as Hne.
    eapply (attach_listed p _ _ _ _ Hpar); [done| | | |exact Hupd|by rewrite Hpol|exact Hk|exact Hch|exact Hall].
    + apply tree_attach; try done; [apply HI|]. rewrite Hpol. exact Hk.
    + apply attached_settled. unfold settled. cbn. split; [done|]. split; [done|]. split; [|done].
      apply Forall_app. split; [done|]. constructor; [|done]. cbn. by rewrite (bl_lookup h child ct).
    + apply relinked_queue; try done. apply HI.
  - destruct (push_spec wf_less wf_less_asym wf_less_ntrans r cd Hheap) as (r1 & Hpush & Hh1 & Hp1).
    rewrite Hpush.
    set (p := WeightedFair res r1 b all).
    pose proof (attach_updates' h q a child t ct tsc HI Ha Hc Hpar Hanc p) as Hup.
    destruct (update h child _) as [h1|]; cbn [mbind option_bind] in *; [|done].
    fold p. rewrite Hup. cbn [mbind option_bind].
    assert (Hk : kids p ≡ₚ child :: map wf_c (r ++ b)) by (cbn; by rewrite Hp1).
    destruct (attach_unblock h q a child t ct tsc HI Ha Hc Hpar Hanc p) as (h' & -> & Hq & HT & Hs & HQ).
    + rewrite Hpol. exact Hk.
    + unfold unblock_due. cbn. split; [done|]. split; [|intros ->; by apply Permutation_nil_cons in Hp1].
      rewrite Hp1. constructor; [|done]. cbn. by rewrite (bl_lookup h child ct).
    + cbn [mbind option_bind].
      by eapply (attach_listed p _ _ _ _ Hpar); [exact Hq| | | |exact Hupd|by rewrite Hpol|exact Hk|exact Hch|exact Hall].
Qed.

Lemma RoundRobinAddChild_spec next r b all : policy_ t = RoundRobin next r b all ->
  add_child_post (accepts (RoundRobin next r b all) RoundRobinChildArgs)
    (RoundRobinAddChild h a child tsc next r b all).
Proof using All.
  intros Hpol. unfold RoundRobinAddChild. rewrite Hc. cbn [mbind option_bind accepts].
  destruct (bool_decide (is_Some (parent_ ct))) eqn:Hpar.
  { apply bool_decide_eq_true in Hpar. apply add_child_refused.
    rewrite bool_decide_false; [done|]. intros Hn. destruct Hpar. congruence. }
  apply bool_decide_eq_false, eq_None_not_Some in Hpar.
  pose proof (inv_settled _ _ HI a t Ha) as Hs. unfold settled in Hs. rewrite Hpol in Hs.
  destruct Hs as (Hn & Hr & Hb & Hbk).
  pose proof (inv_static _ _ HI a t Ha) as [_ Hch _]. rewrite Hpol in Hch. cbn in Hch.
  assert (Hupd : forall t', shape (policy_ t') = ShRoundRobin all -> exists p2,
    (match policy_ t' with
     | RoundRobin next runnable bl all => set_policy (RoundRobin next runnable bl (all ++ [child])) t'
     | _ => t' end) = set_policy p2 t' /\
     kids p2 = kids (policy_ t') /\ (forall b, settled b t' -> settled b (set_policy p2 t')) /\
     shape_ok (shape p2) /\ Children (set_policy p2 t') = all ++ [child] /\
     (forall f cs, p2 <> Priority f cs) /\ policy_tag p2 = policy_tag (policy_ t')).
  { intros t' Hsh. destruct (policy_ t') as [ | |next' r' b' all'| | ] eqn:Hp'; try done. injection Hsh as ->.
    eexists. split; [done|]. split; [done|]. split; [intros bb; unfold settled; by rewrite Hp'|done]. }
  assert (Hall : all ++ [child] ≡ₚ child :: (r ++ b)).
  { rewrite Permutation_app_comm. cbn. constructor. unfold Children in Hch. by rewrite Hpol in Hch. }
  set (p := if blocked_ ct then RoundRobin next r (b ++ [child]) all else RoundRobin next (r ++ [child]) b all).
  pose proof (attach_updates' h q a child t ct tsc HI Ha Hc Hpar Hanc p) as Hup.
  destruct (update h child _) as [h1|]; cbn [mbind option_bind] in *; [|done].
  rewrite Hup. cbn [mbind option_bind].
  assert (Hk : kids p ≡ₚ child :: (r ++ b)).
  { unfold p. destruct (blocked_ ct); cbn.
    - by rewrite app_assoc, Permutation_app_comm.
    - rewrite <- app_assoc. cbn. by rewrite <- Permutation_middle. }
  assert (Hshp : shape p = ShRoundRobin all) by (unfold p; by destruct (blocked_ ct)).
  destruct (attach_unblock h q a child t ct tsc HI Ha Hc Hpar Hanc p) as (h' & -> & Hq & HT & Hs & HQ).
  - rewrite Hpol. exact Hk.
  - unfold unblock_due, p. destruct (blocked_ ct) eqn:Hbc; cbn.
    + split; [done|]. split; [done|]. intros ->. by rewrite Hbk, bool_decide_true.
    + split; [unfold next_ok in *; rewrite length_app; cbn; lia|]. split; [|by intros [_ ?]%app_nil].
      apply Forall_app. split; [done|]. constructor; [|done]. by rewrite (bl_lookup h child ct).
  - cbn [mbind option_bind]. rewrite <- Hshp in Hupd.
    assert (Htag : policy_tag p = policy_tag (policy_ t)).
    { rewrite Hpol. unfold p. by destruct (blocked_ ct). }
    by eapply (attach_listed p _ _ _ _ Hpar); [exact Hq| | | |exact Hupd|exact Htag|exact Hk|exact Hch|exact Hall].
Qed.
End add_child_ops.

(** [AddChild] on every policy: whether the child is taken, and the new children. *)
Lemma AddChild_spec h q a child args tsc t ct : Inv h q -> h !! a = Some t -> h !! child = Some ct ->
  fits (policy_ t) args = true -> (forall l, chain h a l -> child ∉ l) ->
  exists h' r, AddChild h a child args tsc = Some (h', r) /\ Inv h' q /\
    r = bool_decide (parent_ ct = None) && accepts (policy_ t) args /\
    if r then exists t' ct', h' !! a = Some t' /\ h' !! child = Some ct' /\
        Children t' ≡ₚ child :: Children t /\ parent_ ct' = Some a /\ grown h h' a child
    else h' = h.
Proof.
  intros HI Ha Hc Hfit Hanc. unfold AddChild. rewrite Ha. cbn [mbind option_bind].
  destruct (policy_ t) as [first cs|res r b all|next r b all|res l la mb mba tk lt c|task w] eqn:Hpol;
    destruct args as [priority|share| |]; try done.
  - by apply PriorityAddChild_spec.
  - by apply WeightedFairAddChild_spec.
  - by apply RoundRobinAddChild_spec.
  - by apply (RateLimitAddChild_spec h q a child t ct tsc HI Ha Hc Hanc).
Qed.

(** ** [RemoveChild] *)
Lemma find_child_Some {A} (f : A -> addr) child l : child ∈ map f l ->
  exists i x, find_child f child l = Some i /\ l !! i = Some x /\ f x = child.
Proof.
  intros Hin. unfold find_child. pose proof (find_if_spec (fun x => bool_decide (f x = child)) l) as Hf.
  destruct (find_if _ l) as [i|].
  - destruct Hf as (x & Hx & Hfx%bool_decide_eq_true & _). by exists i, x.
  - apply list_elem_of_fmap in Hin as (x & -> & Hx). rewrite Forall_forall in Hf.
    specialize (Hf x Hx). by apply bool_decide_eq_false in Hf.
Qed.

Lemma find_child_None {A} (f : A -> addr) child l : child ∉ map f l -> find_child f child l = None.
Proof.
  intros Hnot. unfold find_child. pose proof (find_if_spec (fun x => bool_decide (f x = child)) l) as Hf.
  destruct (find_if _ l) as [i|]; [|done]. destruct Hf as (x & Hx & Hfx%bool_decide_eq_true & _).
  exfalso. apply Hnot. rewrite <- Hfx. apply list_elem_of_fmap_2. by eapply list_elem_of_lookup_2.
Qed.

Lemma erase_child_perm {A} (f : A -> addr) child l : child ∈ map f l ->
  map f l ≡ₚ child :: map f (erase_child f child l).
Proof.
  intros Hin. unfold erase_child. destruct (find_child_Some f child l Hin) as (i & x & -> & Hx & <-).
  by rewrite (delete_Permutation l i x Hx) at 1.
Qed.

Section remove_child.
Context (h : store) (q : list addr) (a child : addr) (t ct : tc).
Context (HI : Inv h q) (Ha : h !! a = Some t) (Hc : h !! child = Some ct).
Context (Hpar : parent_ ct = Some a).

Abbreviation detached p := (relinked h a child t ct p None).

Definition remove_child_post (res : option (store * bool)) : Prop :=
  exists h', res = Some (h', true) /\ Inv h' q /\
    exists t' ct', h' !! a = Some t' /\ h' !! child = Some ct' /\
      Children t ≡ₚ child :: Children t' /\ parent_ ct' = None /\ grown h h' a child.

Lemma remove_child_kid : child ∈ kids (policy_ t).
Proof using HI Ha Hc Hpar.
  destruct (tree_parent h (inv_tree _ _ HI) child ct a Hc Hpar) as (t' & Ht' & Hin). by simplify_eq.
Qed.

Lemma remove_child_ne : child <> a.
Proof using HI Hc Hpar.
  intros ->. by apply (tree_not_own_parent h a ct (inv_tree _ _ HI) Hc).
Qed.

Lemma detach_updates p :
  (h ← update h a (set_policy p); update h child (set_parent None)) = Some (detached p).
Proof using All.
  unfold update. rewrite Ha. cbn [mbind option_bind].
  rewrite lookup_insert_ne by (symmetry; apply remove_child_ne). by rewrite Hc.
Qed.

Lemma detach_updates' p :
  (h ← update h child (set_parent None); update h a (set_policy p)) = Some (detached p).
Proof using All.
  unfold update. rewrite Hc. cbn [mbind option_bind].
  rewrite lookup_insert_ne by apply remove_child_ne. rewrite Ha. cbn [mbind option_bind].
  unfold relinked. by rewrite insert_insert_ne by (symmetry; apply remove_child_ne).
Qed.

(** All cases end in a settled store with the links of the detached one. *)
Lemma detach_post p h' : policy_tag p = policy_tag (policy_ t) -> child :: kids p ≡ₚ kids (policy_ t) -> static (set_policy p t) ->
  Children t ≡ₚ child :: Children (set_policy p t) ->
  quiet (detached p) h' -> all_settled h' -> remove_child_post (Some (h', true)).
Proof using All.
  intros Htag Hk Hst Hch Hq Hs. pose proof remove_child_ne as Hne.
  assert (HT : tree (detached p)) by (apply tree_detach; try done; apply HI).
  assert (HId : forall x tx, detached p !! x = Some tx -> static tx).
  { intros x tx Hx. apply relinked_inv in Hx as [[-> ->]|[[-> ->]|(_ & _ & Hx)]]; [|done| |done].
    - eapply static_policy; [|apply (inv_static _ _ HI child ct Hc)]. done.
    - by apply (inv_static _ _ HI x). }
  destruct (quiet_Some _ _ a _ Hq (relinked_self h a child t ct p Hne _)) as (t' & Ht' & Hq1).
  destruct (quiet_Some _ _ child _ Hq (relinked_child h a child t ct p _)) as (ct' & Hct' & [[Hp _ _ _] _ _ _]).
  exists h'. split; [done|]. split; [split|].
  - by rewrite <- Hq.
  - done.
  - eapply static_linked; [|exact HId]. by rewrite <- Hq.
  - eapply queue_ok_quiet; [done|]. apply relinked_queue; try done. apply HI.
  - exists t', ct'. split; [done|]. split; [done|]. split; [|split; [done|]].
    + rewrite Hch. by rewrite (Children_shape (set_policy p t) t') by apply Hq1.
    + by apply (grown_relinked h a child t ct p None h').
Qed.

Lemma detach_quiet p : policy_tag p = policy_tag (policy_ t) -> child :: kids p ≡ₚ kids (policy_ t) -> static (set_policy p t) ->
  Children t ≡ₚ child :: Children (set_policy p t) -> settled (bl h) (set_policy p t) ->
  remove_child_post (Some (detached p, true)).
Proof using All.
  intros Htag Hk Hst Hch Hs. pose proof remove_child_ne as Hne. apply (detach_post p); try done.
  eapply (settled_but_all _ a); [|by apply relinked_self|].
  - apply relinked_settled; try done. apply HI.
  - eapply settled_ext; [|exact Hs]. intros x _. by rewrite relinked_bl.
Qed.

Lemma detach_block p : policy_tag p = policy_tag (policy_ t) -> child :: kids p ≡ₚ kids (policy_ t) -> static (set_policy p t) ->
  Children t ≡ₚ child :: Children (set_policy p t) -> block_due (bl h) (set_policy p t) ->
  remove_child_post (h ← BlockTowardsRoot (detached p) a; Some (h, true)).
Proof using All.
  intros Htag Hk Hst Hch Hdue. pose proof remove_child_ne as Hne.
  assert (HT : tree (detached p)) by (apply tree_detach; try done; apply HI).
  destruct (BlockTowardsRoot_spec (detached p) a (set_policy p t) HT) as (h' & -> & Hq & Hs).
  - apply relinked_settled; try done. apply HI.
  - by apply relinked_self.
  - eapply block_due_ext; [|exact Hdue]. intros x. by rewrite relinked_bl.
  - cbn [mbind option_bind]. by apply (detach_post p).
Qed.

Lemma PriorityRemoveChild_spec first cs : policy_ t = Priority first cs ->
  remove_child_post (PriorityRemoveChild h a child first cs).
Proof using All.
  intros Hpol. pose proof remove_child_kid as Hkid. rewrite Hpol in Hkid. cbn in Hkid.
  unfold PriorityRemoveChild. destruct (find_child_Some snd child cs Hkid) as (i & x & -> & Hx & Hxc).
  set (p := Priority _ _). pose proof (detach_updates p) as Hup.
  destruct (update h a (set_policy p)) as [h1|]; cbn [mbind option_bind] in *; [|done].
  rewrite Hup. cbn [mbind option_bind].
  pose proof (inv_settled _ _ HI a t Ha) as Hs. unfold settled in Hs. rewrite Hpol in Hs.
  destruct Hs as (Hle & Htake & Hat & Hbk). pose proof (lookup_lt_Some _ _ _ Hx) as Hlt.
  pose proof (delete_Permutation _ _ _ Hx) as Hdel.
  pose proof (inv_static _ _ HI a t Ha) as [H1 H2 H3].
  apply detach_block; [by rewrite Hpol|..].
  - rewrite Hpol. cbn. rewrite <- Hxc. by rewrite Hdel at 2.
  - split; [done|done|]. intros f cs' [= <- <-]. specialize (H3 first cs Hpol).
    rewrite delete_take_drop. rewrite <- (take_drop_middle cs i x Hx) in H3.
    rewrite map_app in *. cbn in H3. revert H3.
    generalize (map fst (drop (S i) cs)). induction (map fst (take i cs)) as [|y l IH]; intros zs; cbn.
    + intros H3. by inversion H3.
    + intros H3. inversion H3 as [|? ? Hs Hall]; subst. constructor; [by apply IH|].
      apply Forall_app in Hall as [Hl Hz]. apply Forall_app. split; [done|]. by inversion Hz.
  - unfold Children. rewrite Hpol. cbn. rewrite <- Hxc. by rewrite Hdel at 1.
  - unfold block_due, p. cbn [policy_ set_policy blocked_]. destruct (Nat.ltb_spec i first) as [Hlti|Hge].
    + split; [rewrite length_delete by done; lia|]. split.
      * rewrite delete_take_drop. rewrite take_app_ge by (rewrite length_take; lia).
        rewrite length_take_le by lia. apply Forall_app. split.
        -- rewrite <- (Nat.min_l i first) by lia. rewrite <- take_take. by apply Forall_take.
        -- rewrite take_drop_commute. replace (S i + (first - 1 - i))%nat with first by lia.
           by apply Forall_drop.
      * intros Hb. rewrite Hbk in Hb. apply bool_decide_eq_true in Hb. rewrite Hb, take_ge in Htake by done.
        rewrite Hdel in Htake. by apply Forall_cons in Htake as [].
    + split; [rewrite length_delete by done; lia|]. split.
      * rewrite delete_take_drop, take_app_le, take_take, Nat.min_l by (rewrite ?length_take; lia). done.
      * intros Hb. rewrite Hbk in Hb. apply bool_decide_eq_true in Hb. lia.
Qed.

Lemma WeightedFairRemoveChild_spec res r b all : policy_ t = WeightedFair res r b all ->
  remove_child_post (WeightedFairRemoveChild h a child res r b all).
Proof using All.
  intros Hpol. pose proof remove_child_kid as Hkid. rewrite Hpol in Hkid. cbn in Hkid.
  unfold WeightedFairRemoveChild.
  pose proof (inv_settled _ _ HI a t Ha) as Hs. unfold settled in Hs. rewrite Hpol in Hs.
  destruct Hs as (Hheap & Hr & Hb & Hbk).
  pose proof (inv_static _ _ HI a t Ha) as [H1 H2 _]. rewrite Hpol in H1, H2. cbn in H1, H2.
  unfold Children in H2. rewrite Hpol in H2. cbn in H2.
  assert (Hall : map fst all ≡ₚ child :: map fst (erase_child fst child all)).
  { apply erase_child_perm. by rewrite H2. }
  set (all' := erase_child fst child all) in *.
  assert (Hgo : forall r' b', child :: map wf_c (r' ++ b') ≡ₚ map wf_c (r ++ b) ->
    let p := WeightedFair res r' b' all' in
    child :: kids p ≡ₚ kids (policy_ t) /\ static (set_policy p t) /\
    Children t ≡ₚ child :: Children (set_policy p t)).
  { intros r' b' Hk p. split; [by rewrite Hpol|]. split; [|unfold Children; by rewrite Hpol].
    split; [done| |done]. unfold Children. cbn. apply (Permutation_cons_inv (a := child)).
    by rewrite <- Hall, H2, Hk. }
  rewrite map_app in Hkid. apply elem_of_app in Hkid as [Hkr|Hkb].
  - assert (Hnd : NoDup (map wf_c (r ++ b))).
    { pose proof (tree_nodup h (inv_tree _ _ HI) a t Ha) as Hnd. by rewrite Hpol in Hnd. }
    rewrite map_app in Hnd. apply NoDup_app in Hnd as (_ & Hdis & _).
    rewrite find_child_None by (by apply Hdis).
    destruct (delete_single_element_spec wf_less wf_less_asym wf_less_ntrans (wf_is child) r Hheap)
      as (r' & found & -> & Hh' & Hf). cbn [mbind option_bind fst snd].
    destruct found.
    + destruct Hf as (x & Hx%bool_decide_eq_true & Hpx).
      set (p := WeightedFair res r' b all'). pose proof (detach_updates p) as Hup.
      destruct (update h a (set_policy p)) as [h1|]; cbn [mbind option_bind] in *; [|done].
      rewrite Hup. cbn [mbind option_bind].
      destruct (Hgo r' b) as (Hk & Hst & Hch); [rewrite Hpx; cbn; by rewrite Hx|].
      apply detach_block; [by rewrite Hpol|done..|]. unfold block_due. cbn. split; [done|]. split; [|split; [done|]].
      * exists 0%nat. rewrite Hpx in Hr. apply Forall_cons in Hr as [_ Hr].
        eapply Forall_impl; [exact Hr|]. by intros ? ? _.
      * rewrite Hbk. intros ->%bool_decide_eq_true. by apply Permutation_nil_cons in Hpx.
    + destruct Hf as [_ Hf]. exfalso. apply list_elem_of_fmap in Hkr as (x & Hxc & Hx).
      rewrite Forall_forall in Hf. specialize (Hf x Hx). by apply bool_decide_eq_false in Hf.
  - destruct (find_child_Some wf_c child b Hkb) as (i & x & -> & Hx & Hxc).
    set (p := WeightedFair res r (delete i b) all'). pose proof (detach_updates p) as Hup.
    destruct (update h a (set_policy p)) as [h1|]; cbn [mbind option_bind] in *; [|done].
    rewrite Hup. cbn [mbind option_bind]. pose proof (delete_Permutation _ _ _ Hx) as Hdel.
    destruct (Hgo r (delete i b)) as (Hk & Hst & Hch).
    { rewrite (Hdel) at 2. rewrite !map_app. cbn. rewrite Hxc. by rewrite Permutation_middle. }
    apply detach_quiet; [by rewrite Hpol|done..|]. unfold settled. cbn. split; [done|]. split; [done|]. split; [|done].
    rewrite Hdel in Hb. by apply Forall_cons in Hb as [].
Qed.

Lemma RoundRobinRemoveChild_spec next r b all : policy_ t = RoundRobin next r b all ->
  remove_child_post (RoundRobinRemoveChild h a child next r b all).
Proof using All.
  intros Hpol. pose proof remove_child_kid as Hkid. rewrite Hpol in Hkid. cbn in Hkid.
  unfold RoundRobinRemoveChild.
  pose proof (inv_settled _ _ HI a t Ha) as Hs. unfold settled in Hs. rewrite Hpol in Hs.
  destruct Hs as (Hn & Hr & Hb & Hbk).
  pose proof (inv_static _ _ HI a t Ha) as [_ H2 _]. rewrite Hpol in H2.
  unfold Children in H2. rewrite Hpol in H2. cbn in H2.
  assert (Hid : forall l : list addr, map id l = l) by (intros l; apply map_id).
  assert (Hall : all ≡ₚ child :: erase_child id child all).
  { pose proof (erase_child_perm id child all) as He. rewrite !Hid in He. apply He. by rewrite H2. }
  set (all' := erase_child id child all) in *.
  assert (Hgo : forall next' r' b', child :: r' ++ b' ≡ₚ r ++ b ->
    let p := RoundRobin next' r' b' all' in
    child :: kids p ≡ₚ kids (policy_ t) /\ static (set_policy p t) /\
    Children t ≡ₚ child :: Children (set_policy p t)).
  { intros next' r' b' Hk p. split; [by rewrite Hpol|]. split; [|unfold Children; by rewrite Hpol].
    split; [done| |done]. unfold Children. cbn. apply (Permutation_cons_inv (a := child)).
    by rewrite <- Hall, H2, Hk. }
  apply elem_of_app in Hkid as [Hkr|Hkb].
  - assert (Hnd : NoDup (r ++ b)).
    { pose proof (tree_nodup h (inv_tree _ _ HI) a t Ha) as Hnd. by rewrite Hpol in Hnd. }
    apply NoDup_app in Hnd as (_ & Hdis & _).
    rewrite find_child_None by (rewrite Hid; by apply Hdis).
    destruct (find_child_Some id child r) as (i & x & -> & Hx & Hxc); [by rewrite Hid|]. cbn in Hxc. subst x.
    destruct (rr_erase_spec next r i child Hn Hx) as (next' & -> & Hn' & Hdel).
    set (p := RoundRobin next' (delete i r) b all'). pose proof (detach_updates p) as Hup.
    destruct (update h a (set_policy p)) as [h1|]; cbn [mbind option_bind] in *; [|done].
    rewrite Hup. cbn [mbind option_bind].
    destruct (Hgo next' (delete i r) b) as (Hk & Hst & Hch).
    { apply (Permutation_app_tail b) in Hdel. by rewrite Hdel. }
    apply detach_block; [by rewrite Hpol|done..|]. unfold block_due. cbn. split; [done|]. split; [done|].
    rewrite Hbk. intros ->%bool_decide_eq_true. done.
  - destruct (find_child_Some id child b) as (i & x & -> & Hx & Hxc); [by rewrite Hid|]. cbn in Hxc. subst x.
    set (p := RoundRobin next r (delete i b) all'). pose proof (detach_updates p) as Hup.
    destruct (update h a (set_policy p)) as [h1|]; cbn [mbind option_bind] in *; [|done].
    rewrite Hup. cbn [mbind option_bind]. pose proof (delete_Permutation _ _ _ Hx) as Hdel.
    destruct (Hgo next r (delete i b)) as (Hk & Hst & Hch).
    { apply (Permutation_app_head r) in Hdel. rewrite Hdel. by rewrite Permutation_middle. }
    apply detach_quiet; [by rewrite Hpol|done..|]. unfold settled. cbn. split; [done|]. split; [done|]. split; [|done].
    rewrite Hdel in Hb. by apply Forall_cons in Hb as [].
Qed.

Lemma RateLimitRemoveChild_spec res l la mb mba tk lt c : policy_ t = RateLimit res l la mb mba tk lt c ->
  remove_child_post (RateLimitRemoveChild h a child (RateLimit res l la mb mba tk lt) c).
Proof using All.
  intros Hpol. pose proof remove_child_kid as Hkid. rewrite Hpol in Hkid. cbn in Hkid.
  destruct c as [c|]; [|by apply not_elem_of_nil in Hkid]. apply list_elem_of_singleton in Hkid as <-.
  unfold RateLimitRemoveChild. rewrite bool_decide_true by done.
  set (p := RateLimit res l la mb mba tk lt None). pose proof (detach_updates' p) as Hup.
  destruct (update h child (set_parent None)) as [h1|]; cbn [mbind option_bind] in *; [|done].
  rewrite Hup. cbn [mbind option_bind].
  pose proof (inv_static _ _ HI a t Ha) as [H1 _ _]. rewrite Hpol in H1.
  apply detach_block; [by rewrite Hpol|..].
  - by rewrite Hpol.
  - by split.
  - unfold Children. by rewrite Hpol.
  - by left.
Qed.
End remove_child.

(** [RemoveChild] on every policy: it succeeds exactly for a child of the class. *)
Lemma RemoveChild_spec h q a child t ct : Inv h q -> h !! a = Some t -> h !! child = Some ct ->
  exists h' r, RemoveChild h a child = Some (h', r) /\ Inv h' q /\
    r = bool_decide (parent_ ct = Some a) /\
    if r then exists t' ct', h' !! a = Some t' /\ h' !! child = Some ct' /\
        Children t ≡ₚ child :: Children t' /\ parent_ ct' = None /\ grown h h' a child
    else h' = h.
Proof.
  intros HI Ha Hc. unfold RemoveChild. rewrite Ha. cbn [mbind option_bind].
  assert (Hpost : forall res, remove_child_post h q a child t res ->
    exists h' r, res = Some (h', r) /\ Inv h' q /\ r = true /\
    if r then exists t' ct', h' !! a = Some t' /\ h' !! child = Some ct' /\
        Children t ≡ₚ child :: Children t' /\ parent_ ct' = None /\ grown h h' a child else h' = h).
  { intros res (h' & -> & HI' & Hx). by exists h', true. }
  destruct (decide (parent_ ct = Some a)) as [Hpar|Hpar].
  - pose proof (remove_child_kid h q a child t ct HI Ha Hc Hpar) as Hkid.
    destruct (policy_ t) as [first cs|res r b all|next r b all|res l la mb mba tk lt c|task w] eqn:Hpol;
      [| | | |by apply not_elem_of_nil in Hkid]; rewrite Hc; cbn [mbind option_bind];
      rewrite (bool_decide_true (parent_ ct = Some a)) by done; cbn [negb].
    + apply Hpost. by apply (PriorityRemoveChild_spec h q a child t ct).
    + apply Hpost. by apply (WeightedFairRemoveChild_spec h q a child t ct).
    + apply Hpost. by apply (RoundRobinRemoveChild_spec h q a child t ct).
    + apply Hpost. by apply (RateLimitRemoveChild_spec h q a child t ct).
  - exists h, false. rewrite Hc. cbn [mbind option_bind]. rewrite bool_decide_false by done. cbn [negb].
    by destruct (policy_ t).
Qed.
