(* ===== verification/Scheduler.v ===== *)
(** The schedulers: [core/scheduler.h], with the wake-up queue and the class registry of
    [core/traffic_class.h] and [core/traffic_class.cc].

    A scheduler is a store of traffic classes, its root, its wake-up queue and its
    statistics.  What a task does and the clock are arguments of a round. *)
From stdpp Require Import strings pretty.
From Stdlib Require Import Sorted.
From S2P Require Import Prelude Common PriorityQueue TrafficClass TrafficClassFacts TrafficTree.
Open Scope Z_scope.

(** ** Schedulers *)

(** [Scheduler], with the heap of classes, and the names known to
    [TrafficClassBuilder]; [new_addr_] is where the next class is allocated. *)
Record sched := Sched {
  tcs : store;
  all_tcs_ : gmap string addr;
  new_addr_ : addr;
  root_ : option addr;
  default_rr_class_ : option addr;
  wakeup_queue_ : list addr;
  cnt_idle_ : Z;
  cycles_idle_ : Z;
  checkpoint_ : Z }.

Definition with_tcs (s : sched) (h : store) (q : list addr) : sched :=
  Sched h (all_tcs_ s) (new_addr_ s) (root_ s) (default_rr_class_ s) q (cnt_idle_ s) (cycles_idle_ s)
    (checkpoint_ s).

Definition with_root (s : sched) (root rr : option addr) : sched :=
  Sched (tcs s) (all_tcs_ s) (new_addr_ s) root rr (wakeup_queue_ s) (cnt_idle_ s) (cycles_idle_ s)
    (checkpoint_ s).

(** [WakeTCs]: one round of the loop pops the first class and unblocks it. *)
Definition wake_due (tsc : Z) (s : store * list addr) : bool :=
  let '(h, q) := s in
  match top q with Some c => wakeup_time h c <? tsc | None => false end.

Definition wake_one (s : store * list addr) : option (store * list addr) :=
  let '(h, q) := s in
  c ← top q;
  let wakeup := wakeup_time h c in
  q ← pop (WakeupComp h) q;
  h ← update h c (set_wakeup 0);
  h ← UnblockTowardsRoot h c wakeup;
  Some (h, q).

Definition WakeTCs (tsc : Z) (h : store) (q : list addr) : option (store * list addr) :=
  while (length q) (wake_due tsc) wake_one (h, q).

(** The walk of [Next] from the root to a leaf. *)
Fixpoint pick_leaf (fuel : nat) (h : store) (c : addr) : option addr :=
  match fuel with
  | O => None
  | S fuel' =>
      t ← h !! c;
      match policy_ t with
      | Leaf _ _ => Some c
      | _ => c ← PickNextChild t; pick_leaf fuel' h c
      end
  end.

(** The inner [None] is [nullptr]. *)
Definition Next (s : sched) (tsc : Z) : option (sched * option addr) :=
  r ← WakeTCs tsc (tcs s) (wakeup_queue_ s);
  let s := with_tcs s r.1 r.2 in
  match root_ s with
  | None => Some (s, None)
  | Some root =>
      b ← blocked (tcs s) root;
      if (b : bool) then Some (s, None)
      else leaf ← pick_leaf (size (tcs s)) (tcs s) root; Some (s, Some leaf)
  end.

(** What running a task returns. *)
Record task_result := TaskResult { block : bool; packets : Z; bits : Z }.

Definition idle (s : sched) (now : Z) : sched :=
  Sched (tcs s) (all_tcs_ s) (new_addr_ s) (root_ s) (default_rr_class_ s) (wakeup_queue_ s)
    (u64 (cnt_idle_ s + 1)) (u64 (cycles_idle_ s + u64 (now - checkpoint_ s))) now.

Definition with_checkpoint (s : sched) (now : Z) : sched :=
  Sched (tcs s) (all_tcs_ s) (new_addr_ s) (root_ s) (default_rr_class_ s) (wakeup_queue_ s)
    (cnt_idle_ s) (cycles_idle_ s) now.

Definition finish (s : sched) (leaf : addr) (usage : resource_arr) (now : Z) : option sched :=
  r ← FinishAndAccountTowardsRoot (tcs s) (wakeup_queue_ s) leaf None usage now;
  Some (with_checkpoint (with_tcs s r.1 r.2) now).

(** [DefaultScheduler::ScheduleOnce]; [run] stands for the tasks, [now] is read
    from the clock once the task has run. *)
Definition ScheduleOnce (run : nat -> task_result) (now : Z) (s : sched)
    : option (sched * option addr) :=
  r ← Next s (checkpoint_ s);
  let '(s, leaf) := r in
  match leaf with
  | Some leaf =>
      t ← tcs s !! leaf;
      match policy_ t with
      | Leaf task _ =>
          let ret := run task in
          s ← finish s leaf [1; u64 (now - checkpoint_ s); packets ret; bits ret] now;
          Some (s, Some leaf)
      | _ => None
      end
  | None => Some (idle s now, None)
  end.

(** [ExperimentalScheduler::ScheduleOnce]: a leaf whose task found nothing to do
    and asks to block sleeps for an exponentially growing time. *)
Definition kMaxWait : Z := 2 ^ 20.
Definition set_wait_cycles (w : Z) (t : tc) : tc :=
  match policy_ t with Leaf task _ => set_policy (Leaf task w) t | _ => t end.

Definition ExperimentalScheduleOnce (run : nat -> task_result) (now : Z) (s : sched)
    : option (sched * option addr) :=
  r ← Next s (checkpoint_ s);
  let '(s, leaf) := r in
  match leaf with
  | Some leaf =>
      t ← tcs s !! leaf;
      match policy_ t with
      | Leaf task wait_cycles =>
          let ret := run task in
          if (packets ret =? 0) && block ret then
            let wait := Z.min kMaxWait (u64 (Z.shiftl wait_cycles 1)) in
            let h := <[leaf := set_wakeup (u64 (now + wait)) (set_blocked true (set_wait_cycles wait t))]> (tcs s) in
            q ← WakeupAdd h (wakeup_queue_ s) leaf;
            s ← finish (with_tcs s h q) leaf [0; 0; 0; 0] now;
            Some (s, Some leaf)
          else
            let h := <[leaf := set_wait_cycles (Z.shiftr (u64 (wait_cycles + 1)) 1) t]> (tcs s) in
            s ← finish (with_tcs s h (wakeup_queue_ s)) leaf
                  [1; u64 (now - checkpoint_ s); packets ret; bits ret] now;
            Some (s, Some leaf)
      | _ => None
      end
  | None => Some (idle s now, None)
  end.

(** ** Building and dismantling trees *)

(** [CreateTrafficClass]; [None] in the result is [nullptr], for a name in use. *)
Definition CreateTrafficClass (s : sched) (t : tc) : sched * option addr :=
  match all_tcs_ s !! name_ t with
  | Some _ => (s, None)
  | None =>
      let a := new_addr_ s in
      (Sched (<[a := t]> (tcs s)) (<[name_ t := a]> (all_tcs_ s)) (S a) (root_ s) (default_rr_class_ s)
         (wakeup_queue_ s) (cnt_idle_ s) (cycles_idle_ s) (checkpoint_ s), Some a)
  end.

Definition Find (s : sched) (name : string) : option addr := all_tcs_ s !! name.

(** The destructors: the children first, then the name. *)
Fixpoint destroy (fuel : nat) (h : store) (names : gmap string addr) (a : addr)
    : option (store * gmap string addr) :=
  match fuel with
  | O => None
  | S fuel' =>
      t ← h !! a;
      r ← fold_left (fun r c => r ← r; destroy fuel' r.1 r.2 c) (kids (policy_ t)) (Some (h, names));
      Some (delete a r.1, delete (name_ t) r.2)
  end.

Definition delete_tc (s : sched) (a : addr) : option sched :=
  r ← destroy (S (size (tcs s))) (tcs s) (all_tcs_ s) a;
  Some (Sched r.1 r.2 (new_addr_ s) (root_ s) (default_rr_class_ s) (wakeup_queue_ s) (cnt_idle_ s)
          (cycles_idle_ s) (checkpoint_ s)).

(** [Size()] *)
Fixpoint Size (fuel : nat) (h : store) (a : addr) : option nat :=
  match fuel with
  | O => None
  | S fuel' =>
      t ← h !! a;
      fold_left (fun r c => r ← r; n ← Size fuel' h c; Some (r + n)%nat) (Children t) (Some 1%nat)
  end.

Definition NumTcs (s : sched) : option nat :=
  match root_ s with Some root => Size (size (tcs s)) (tcs s) root | None => Some O end.

(** [Root()] *)
Fixpoint Root (fuel : nat) (h : store) (a : addr) : option addr :=
  match fuel with
  | O => None
  | S fuel' => t ← h !! a; match parent_ t with Some p => Root fuel' h p | None => Some a end
  end.

Definition AttachOrphan (s : sched) (c : addr) (wid : N) (tsc : Z) : option (sched * bool) :=
  match root_ s, default_rr_class_ s with
  | None, _ => Some (with_root s (Some c) (default_rr_class_ s), true)
  | Some _, Some rr =>
      r ← AddChild (tcs s) rr c RoundRobinChildArgs tsc;
      Some (with_tcs s r.1 (wakeup_queue_ s), r.2)
  | Some root, None =>
      let '(s, rr) := CreateTrafficClass s (new_RoundRobin ("!default_rr_" ++ pretty wid)) in
      rr ← rr;
      r ← AddChild (tcs s) rr root RoundRobinChildArgs tsc;
      r ← AddChild r.1 rr c RoundRobinChildArgs tsc;
      Some (with_root (with_tcs s r.1 (wakeup_queue_ s)) (Some rr) (Some rr), true)
  end.

Definition AdjustDefault (s : sched) : option sched :=
  match root_ s, default_rr_class_ s with
  | Some root, Some rr =>
      t ← tcs s !! rr;
      match Children t with
      | [] => s ← delete_tc s root; Some (with_root s None None)
      | [c] =>
          r ← RemoveChild (tcs s) root c;
          s ← delete_tc (with_tcs s r.1 (wakeup_queue_ s)) root;
          Some (with_root s (Some c) None)
      | _ => Some s
      end
  | _, _ => Some s
  end.

Definition RemoveRoot (s : sched) (c : addr) : sched * bool :=
  if bool_decide (root_ s = Some c) && bool_decide (default_rr_class_ s = None)
  then (with_root s None None, true) else (s, false).

(** ** Waking up *)
Lemma settled_due b t : settled b t -> unblock_due b (set_wakeup 0 t).
Proof.
  destruct t as [pa nm us ct wk bk p]. unfold settled, unblock_due, set_wakeup. cbn.
  destruct p as [first cs|res r bb all|next r bb all|res l la mb mba tk lt c|task w]; cbn.
  - intros (Hle & _ & Hat & ->) Hall. rewrite bool_decide_true; [done|].
    destruct (decide (first = length cs)); [done|]. destruct (lookup_lt_is_Some_2 cs first) as [x Hx]; [lia|].
    rewrite Forall_forall in Hall. specialize (Hat x Hx).
    by rewrite (Hall x) in Hat by (by eapply list_elem_of_lookup_2).
  - intros (? & ? & _ & ->). split; [done|]. split; [done|]. intros ->. by rewrite bool_decide_true.
  - intros (? & ? & _ & ->). split; [done|]. split; [done|]. intros ->. by rewrite bool_decide_true.
  - intros [Hs _] Hb. split; [done|]. by apply Hs.
  - done.
Qed.

Definition same_usage (h h' : store) : Prop :=
  forall a t, h !! a = Some t -> exists t', h' !! a = Some t' /\ usage_ t' = usage_ t.

Lemma quiet_same_usage h h' : quiet h h' -> same_usage h h'.
Proof. intros Hq a t Ha. destruct (quiet_Some _ _ _ _ Hq Ha) as (t' & ? & []). by exists t'. Qed.

Lemma wakeup_time_quiet h h' x : quiet h h' -> wakeup_time h' x = wakeup_time h x.
Proof. intros Hq. unfold wakeup_time. destruct (Hq x) as [t t' []|]; done. Qed.

(** What one wake-up does to the rest. *)
Record woken (h : store) (h' : store) (c : addr) : Prop := {
  wk_linked : linked h h';
  wk_usage : same_usage h h';
  wk_other : forall x, x <> c -> wakeup_time h' x = wakeup_time h x }.

Lemma set_wakeup_linked h c t w : h !! c = Some t -> linked h (<[c := set_wakeup w t]> h).
Proof. intros Hc. by apply (linked_insert h c t). Qed.

Lemma wakeup_queue_pop h q c t q' : queue_ok h q -> h !! c = Some t -> q ≡ₚ c :: q' ->
  is_heap (WakeupComp h) q' -> queue_ok (<[c := set_wakeup 0 t]> h) q'.
Proof.
  intros [Hnd Hh Hm] Hc Hp Hh'. rewrite Hp in Hnd. apply NoDup_cons in Hnd as [Hnot Hnd]. split.
  - done.
  - eapply wakeup_heap_ext; [|exact Hh']. intros x Hx. unfold wakeup_time.
    rewrite lookup_insert_ne; [done|]. by intros ->.
  - intros a. destruct (decide (a = c)) as [->|Hne].
    + rewrite lookup_insert_eq. split; [done|]. by intros (? & [= <-] & ?).
    + rewrite lookup_insert_ne by done. rewrite <- Hm, Hp, elem_of_cons. split; [by right|by intros [|]].
Qed.

Lemma wake_one_spec h q c : Inv h q -> top q = Some c ->
  exists h' q', wake_one (h, q) = Some (h', q') /\ Inv h' q' /\ woken h h' c /\ q ≡ₚ c :: q'.
Proof.
  intros HI Htop. unfold wake_one. rewrite Htop. cbn [mbind option_bind].
  pose proof (inv_queue _ _ HI) as HQ.
  assert (c ∈ q) as Hin by (destruct q; [done|]; cbn in Htop; injection Htop as ->; by left).
  apply (queue_mem _ _ HQ) in Hin as (t & Hc & Hw).
  destruct (pop_spec (WakeupComp h) (WakeupComp_asym h) (WakeupComp_ntrans h) q c) as (q' & -> & Hh' & Hp);
    [apply heap_weaken, HQ|done|].
  cbn [mbind option_bind]. unfold update. rewrite Hc. cbn [mbind option_bind].
  set (h1 := <[c := set_wakeup 0 t]> h).
  assert (Hl1 : linked h h1) by (by apply set_wakeup_linked).
  assert (HT : tree h1) by (rewrite <- Hl1; apply HI).
  assert (Hbl : forall x, bl h1 x = bl h x).
  { intros x. unfold h1. rewrite bl_insert. case_decide; [|done]. subst. by rewrite (bl_lookup h c t). }
  assert (Hc1 : h1 !! c = Some (set_wakeup 0 t)) by (unfold h1; by rewrite lookup_insert_eq).
  destruct (UnblockTowardsRoot_spec h1 c (wakeup_time h c) (set_wakeup 0 t) HT) as (h' & -> & Hq & Hs).
  - intros y ty Hyc Hy. unfold h1 in Hy. rewrite lookup_insert_ne in Hy by done.
    eapply settled_ext; [|by apply (inv_settled _ _ HI y)]. intros x _. by rewrite Hbl.
  - done.
  - eapply unblock_due_ext; [intros x; symmetry; apply Hbl|]. apply settled_due. by apply (inv_settled _ _ HI c).
  - cbn [mbind option_bind]. exists h', q'. split; [done|]. split; [split|split; [split|done]].
    + by rewrite <- Hq.
    + done.
    + eapply (static_linked h); [|apply HI]. transitivity h1; [done|]. by apply quiet_linked.
    + eapply queue_ok_quiet; [exact Hq|]. by eapply wakeup_queue_pop.
    + transitivity h1; [done|]. by apply quiet_linked.
    + intros a ta Ha. assert (exists ta1, h1 !! a = Some ta1 /\ usage_ ta1 = usage_ ta) as (ta1 & Ha1 & <-).
      { destruct (decide (a = c)) as [->|]; [simplify_eq; eexists; split; [exact Hc1|done]|].
        exists ta. split; [|done]. unfold h1. by rewrite lookup_insert_ne. }
      by apply (quiet_same_usage h1 h').
    + intros x Hx. rewrite (wakeup_time_quiet h1 h' x Hq). unfold wakeup_time, h1. by rewrite lookup_insert_ne.
Qed.

Lemma same_usage_trans h1 h2 h3 : same_usage h1 h2 -> same_usage h2 h3 -> same_usage h1 h3.
Proof.
  intros H1 H2 a t Ha. destruct (H1 a t Ha) as (t' & Ha' & <-). by apply H2.
Qed.

Lemma WakeTCs_spec tsc h q : Inv h q ->
  exists h' q', WakeTCs tsc h q = Some (h', q') /\ Inv h' q' /\ linked h h' /\ same_usage h h' /\
    (forall a, a ∈ q' <-> a ∈ q /\ tsc <= wakeup_time h a) /\
    (forall a, a ∈ q' -> wakeup_time h' a = wakeup_time h a).
Proof.
  intros HI. unfold WakeTCs.
  while_inv (fun s => Inv s.1 s.2 /\ linked h s.1 /\ same_usage h s.1 /\
      (forall a, a ∈ s.2 -> wakeup_time s.1 a = wakeup_time h a) /\
      (forall a, a ∈ q -> a ∈ s.2 \/ wakeup_time h a < tsc) /\ (forall a, a ∈ s.2 -> a ∈ q))
    (fun s : store * list addr => length s.2)
    as ([h' q'] & -> & (HI' & Hl & Hu & Hw & Hq & Hsub) & Hst).
  - intros [h1 q1] (HI1 & Hl & Hu & Hw & Hq & Hsub) Hdue. cbn [fst snd] in *. unfold wake_due in Hdue.
    destruct (top q1) as [c|] eqn:Htop; [|done]. apply Z.ltb_lt in Hdue.
    assert (c ∈ q1) as Hin by (destruct q1; [done|]; cbn in Htop; injection Htop as ->; by left).
    destruct (wake_one_spec h1 q1 c HI1 Htop) as (h2 & q2 & -> & HI2 & [Hl2 Hu2 Hw2] & Hp).
    assert (Hnd : NoDup (c :: q2)) by (rewrite <- Hp; apply (queue_nodup _ _ (inv_queue _ _ HI1))).
    apply NoDup_cons in Hnd as [Hnot _].
    exists (h2, q2). split; [done|]. cbn [fst snd]. split; [|rewrite (Permutation_length Hp); cbn; lia].
    split; [done|]. split; [by etransitivity|]. split; [by eapply same_usage_trans|]. split; [|split].
    + intros a Ha. rewrite Hw2 by (by intros ->). apply Hw. rewrite Hp. by right.
    + intros a Ha. destruct (Hq a Ha) as [Ha1|]; [|by right]. rewrite Hp in Ha1.
      apply elem_of_cons in Ha1 as [->|]; [|by left]. right. by rewrite <- Hw.
    + intros a Ha. apply Hsub. rewrite Hp. by right.
  - cbn [fst snd]. split; [done|]. split; [done|]. split; [by intros a t Ha; exists t|].
    split; [done|]. split; [by left|done].
  - done.
  - exists h', q'. cbn [fst snd] in *. split; [done|]. split; [done|]. split; [done|]. split; [done|].
    split; [|done]. intros a. split.
    + intros Ha. split; [by apply Hsub|]. rewrite <- Hw by done. unfold wake_due in Hst.
      destruct (top q') as [c|] eqn:Htop; [|by destruct q'; [apply not_elem_of_nil in Ha|]].
      apply Z.ltb_ge in Hst.
      pose proof (heap_top (WakeupComp h') (WakeupComp_asym h') (WakeupComp_ntrans h') q' c a
        (queue_heap _ _ (inv_queue _ _ HI')) Htop Ha) as Hle.
      unfold WakeupComp in Hle. apply Z.ltb_ge in Hle. lia.
    + intros [Ha Hle]. destruct (Hq a Ha) as [|]; [done|lia].
Qed.

(** ** Picking a leaf *)
Lemma pick_spec b t : settled b t -> blocked_ t = false ->
  (exists task w, policy_ t = Leaf task w) \/ exists c, PickNextChild t = Some c /\ b c = false.
Proof.
  unfold settled, PickNextChild.
  destruct (policy_ t) as [first cs|res r bb all|next r bb all|res l la mb mba tk lt c|task w].
  - intros (Hle & _ & Hat & Hb) Hf. rewrite Hf in Hb. symmetry in Hb. apply bool_decide_eq_false in Hb.
    destruct (lookup_lt_is_Some_2 cs first ltac:(lia)) as [x Hx]. right. exists (snd x).
    rewrite Hx. split; [done|]. by apply Hat.
  - intros (_ & Hr & _ & Hb) Hf. rewrite Hf in Hb. symmetry in Hb. apply bool_decide_eq_false in Hb.
    destruct r as [|x r]; [done|]. right. exists (wf_c x). split; [done|]. by inversion Hr.
  - intros ([H0 Hn] & Hr & _ & Hb) Hf. rewrite Hf in Hb. symmetry in Hb. apply bool_decide_eq_false in Hb.
    destruct (lookup_lt_is_Some_2 r (Z.to_nat next)) as [x Hx].
    { destruct r; [done|cbn in *; lia]. }
    right. exists x. split; [done|]. rewrite Forall_forall in Hr. apply Hr. by eapply list_elem_of_lookup_2.
  - intros [Hs _] Hf. right. destruct (Hs Hf) as (_ & x & -> & ?). by exists x.
  - left. by exists task, w.
Qed.

Lemma pick_leaf_spec fuel h a l t : tree h -> all_settled h -> chain h a l ->
  (size h < length l + fuel)%nat -> h !! a = Some t -> picked h a ->
  exists leaf tl task w, pick_leaf fuel h a = Some leaf /\ picked h leaf /\ h !! leaf = Some tl /\
    policy_ tl = Leaf task w /\ exists l', chain h leaf (l' ++ l).
Proof.
  intros HT Hs. revert a l t. induction fuel as [|fuel IH]; intros a l t Hc Hf Ha Hpk.
  { apply chain_length in Hc. lia. }
  cbn [pick_leaf]. rewrite Ha. cbn [mbind option_bind].
  assert (Hbk : blocked_ t = false) by (inversion Hpk; by simplify_eq).
  destruct (pick_spec (bl h) t (Hs a t Ha) Hbk) as [(task & w & Hp)|(c & Hpick & Hbc)].
  - rewrite Hp. exists a, t, task, w. split; [done|]. split; [done|]. split; [done|]. split; [done|]. by exists [].
  - pose proof (pick_kid t c Hpick) as Hin. destruct (tree_kids h HT a t c Ha Hin) as (ct & Hct & Hpar).
    assert (Hpkc : picked h c).
    { eapply picked_step; try done. by rewrite <- (bl_lookup h c ct). }
    assert (Hcc : chain h c (c :: l)) by (by eapply chain_step).
    destruct (IH c (c :: l) ct Hcc) as (leaf & tl & task & w & Hleaf & ? & ? & ? & l' & Hl');
      [cbn; lia|done|done|].
    exists leaf, tl, task, w. split.
    + destruct (policy_ t) eqn:Hp; rewrite ?Hpick; cbn [mbind option_bind]; try done.
      unfold PickNextChild in Hpick. by rewrite Hp in Hpick.
    + do 3 (split; [done|]). exists (l' ++ [c]). by rewrite <- app_assoc.
Qed.

(** ** The invariant of a scheduler *)
Record SInv (s : sched) : Prop := {
  s_inv : Inv (tcs s) (wakeup_queue_ s);
  s_root : forall r, root_ s = Some r -> exists t, tcs s !! r = Some t /\ parent_ t = None;
  s_default : forall rr, default_rr_class_ s = Some rr -> root_ s = Some rr /\
    exists t, tcs s !! rr = Some t /\ policy_tag (policy_ t) = POLICY_ROUND_ROBIN;
  s_fresh : forall a, (new_addr_ s <= a)%nat -> tcs s !! a = None }.

Lemma root_linked h h' r : linked h h' -> (exists t, h !! r = Some t /\ parent_ t = None) ->
  exists t, h' !! r = Some t /\ parent_ t = None.
Proof.
  intros Hl (t & Hr & Hp). destruct (linked_Some _ _ _ _ Hl Hr) as (t' & ? & []).
  exists t'. split; [done|congruence].
Qed.

Lemma SInv_with_tcs s h q : SInv s -> linked (tcs s) h -> Inv h q -> SInv (with_tcs s h q).
Proof.
  intros [_ Hr Hd Hf] Hl HI. split; [done| | |].
  - intros r Hs. eapply root_linked; [done|by apply Hr].
  - intros rr Hs. destruct (Hd rr Hs) as (? & t & Ht & Htag). split; [done|].
    destruct (linked_Some _ _ _ _ Hl Ht) as (t' & ? & [_ _ Hsh' _]). exists t'.
    split; [done|]. by rewrite (shape_tag _ _ Hsh').
  - intros a Ha. specialize (Hl a). rewrite (Hf a Ha) in Hl. cbn. by inversion Hl.
Qed.

Definition is_leaf (h : store) (a : addr) : Prop :=
  exists t task w, h !! a = Some t /\ policy_ t = Leaf task w.

Lemma Next_spec s tsc : SInv s ->
  exists s' r, Next s tsc = Some (s', r) /\ SInv s' /\ root_ s' = root_ s /\
    default_rr_class_ s' = default_rr_class_ s /\ checkpoint_ s' = checkpoint_ s /\
    linked (tcs s) (tcs s') /\ same_usage (tcs s) (tcs s') /\
    (forall a, a ∈ wakeup_queue_ s' -> tsc <= wakeup_time (tcs s') a) /\
    match r with
    | Some leaf => is_leaf (tcs s') leaf /\ picked (tcs s') leaf /\
        exists root l, root_ s = Some root /\ chain (tcs s') leaf (l ++ [root])
    | None => forall root, root_ s = Some root -> bl (tcs s') root = true
    end.
Proof.
  intros HS. pose proof HS as [HI Hroot _ _]. unfold Next.
  destruct (WakeTCs_spec tsc _ _ HI) as (h' & q' & -> & HI' & Hl & Hu & Hmem & Hw).
  cbn [mbind option_bind fst snd]. set (s1 := with_tcs s h' q').
  assert (HS1 : SInv s1) by (by apply SInv_with_tcs).
  assert (Hq : forall a, a ∈ wakeup_queue_ s1 -> tsc <= wakeup_time (tcs s1) a).
  { intros a Ha. cbn in *. rewrite Hw by done. by apply Hmem. }
  assert (Hr1 : root_ s1 = root_ s) by done. rewrite Hr1.
  destruct (root_ s) as [root|] eqn:Hrt.
  - destruct (s_root s1 HS1 root) as (t & Ht & Hp); [done|].
    unfold blocked. rewrite Ht. cbn [fmap option_fmap option_map mbind option_bind].
    destruct (blocked_ t) eqn:Hb.
    + exists s1, None. do 8 (split; [done|]). intros ? [= <-]. by rewrite (bl_lookup _ _ t).
    + destruct (pick_leaf_spec (size (tcs s1)) (tcs s1) root [root] t) as (leaf & tl & task & w & -> & Hpk & Htl & Hpol & l & Hl');
        [apply HS1|apply HS1|by eapply chain_root|cbn; lia|done|by eapply picked_root|].
      cbn [mbind option_bind]. exists s1, (Some leaf). do 8 (split; [done|]).
      split; [by exists tl, task, w|]. split; [done|]. by exists root, l.
  - exists s1, None. do 8 (split; [done|]). by intros.
Qed.

(** ** Running a leaf and accounting for it *)
Lemma picked_parent h a t p : picked h a -> h !! a = Some t -> parent_ t = Some p ->
  picked h p /\ exists tp, h !! p = Some tp /\ PickNextChild tp = Some a.
Proof. intros Hpk Ha Hp. inversion Hpk; simplify_eq. split; [done|]. by eexists. Qed.

Lemma picked_unblocked h a t : picked h a -> h !! a = Some t -> blocked_ t = false.
Proof. intros Hpk Ha. inversion Hpk; by simplify_eq. Qed.

(** The leaf may have put itself to sleep before accounting. *)
Lemma finish_picked h q q0 leaf t t0 task w usage tsc : Inv h q -> picked h leaf ->
  h !! leaf = Some t -> links t t0 -> policy_ t0 = Leaf task w ->
  (blocked_ t0 = false -> wakeup_time_ t0 = 0) -> queue_ok (<[leaf := t0]> h) q0 ->
  usage_ok usage -> tsc_ok tsc ->
  exists h' q' l, FinishAndAccountTowardsRoot (<[leaf := t0]> h) q0 leaf None usage tsc = Some (h', q') /\
    Inv h' q' /\ linked h h' /\ chain h leaf l /\ accounted l usage (<[leaf := t0]> h) h'.
Proof.
  intros HI Hpk Ht Hlk Hpol Hwk HQ Hu Hts. set (h0 := <[leaf := t0]> h) in *.
  assert (Hl0 : linked h h0) by (by apply (linked_insert h leaf t)).
  pose proof (inv_tree _ _ HI) as HT. assert (HT0 : tree h0) by (by rewrite <- Hl0).
  destruct (tree_chain h HT leaf t Ht) as [l Hc]. assert (Hc0 : chain h0 leaf l) by (by rewrite <- Hl0).
  assert (Hpt : parent_ t0 = parent_ t) by apply Hlk.
  assert (Ht0 : h0 !! leaf = Some t0) by (unfold h0; by rewrite lookup_insert_eq).
  assert (Hset : forall y ty, y <> leaf -> h !! y = Some ty -> parent_ t <> Some y -> settled (bl h0) ty).
  { intros y ty Hy Hty Hp. eapply (settled_elsewhere h leaf t); try done; [by left|].
    by apply (inv_settled _ _ HI y). }
  destruct (finish_fuel_spec (size h0) h0 q0 leaf None usage tsc t0 l HT0 Hc0) as (h' & q' & Hf & Hl & Hs & HQ' & Hacc);
    try done.
  - by eapply chain_length.
  - eapply shapes_ok_linked; [done|]. by eapply inv_shapes.
  - split; [by exists task, w|done].
  - intros y ty Hy Hp Hty. unfold h0 in Hty. rewrite lookup_insert_ne in Hty by done.
    apply (Hset y); [done|done|]. by rewrite <- Hpt.
  - intros p Hp. rewrite Hpt in Hp. destruct (picked_parent h leaf t p Hpk Ht Hp) as (Hpp & tp & Htp & Hpick).
    inversion Hc as [|? ? ? l' ? ? Hc']; simplify_eq.
    pose proof (chain_not_above h leaf t p l' Ht Hp Hc') as Hnot.
    assert (Hne : p <> leaf) by (intros ->; by apply (tree_not_own_parent h leaf t HT Ht)).
    split; [by eapply picked_insert|]. exists tp. split; [unfold h0; by rewrite lookup_insert_ne|].
    split; [by eapply (picked_unblocked h p)|]. split; [done|].
    eapply settled_ext; [|by apply (inv_settled _ _ HI p)]. intros x _. unfold h0. rewrite bl_insert.
    case_decide; [|done]. subst x. rewrite (bl_lookup h leaf t) by done. exact (picked_unblocked h leaf t Hpk Ht).
  - exists h', q', l. split; [done|]. split; [|split; [by etransitivity|by split]]. split.
    + by rewrite <- Hl.
    + done.
    + eapply (static_linked h); [by etransitivity|apply HI].
    + done.
Qed.

(** The clock and the task stay within what keeps 64-bit times from wrapping. *)
Definition run_ok (run : nat -> task_result) (now : Z) (s : sched) : Prop :=
  tsc_ok now /\ 0 <= now - checkpoint_ s < 2 ^ 31 /\
  forall task, 0 <= packets (run task) < 2 ^ 31 /\ 0 <= bits (run task) < 2 ^ 31.

Definition round_usage (run : nat -> task_result) (now : Z) (s : sched) (task : nat) : resource_arr :=
  [1; now - checkpoint_ s; packets (run task); bits (run task)].

Lemma round_usage_ok run now s task : run_ok run now s -> usage_ok (round_usage run now s task).
Proof.
  intros (Ht & Hd & Hr). destruct (Hr task). split; [done|]. unfold round_usage. forall_each lia.
Qed.

(** One round of either scheduler: the leaf that ran, if any, was unblocked along
    with its path, and the path was charged with what it used. *)
Definition round_post (usage : nat -> resource_arr) (s : sched) (r : option (sched * option addr)) : Prop :=
  exists s' leaf, r = Some (s', leaf) /\ SInv s' /\ root_ s' = root_ s /\
    linked (tcs s) (tcs s') /\
    match leaf with
    | Some leaf => exists t task w root l, tcs s !! leaf = Some t /\ policy_ t = Leaf task w /\
        root_ s = Some root /\ chain (tcs s) leaf (l ++ [root]) /\
        accounted (l ++ [root]) (usage task) (tcs s) (tcs s')
    | None => same_usage (tcs s) (tcs s')
    end.

Lemma accounted_trans l u h h1 h2 : same_usage h h1 -> accounted l u h1 h2 -> accounted l u h h2.
Proof.
  intros Hs Ha x t Hx. destruct (Hs x t Hx) as (t1 & Hx1 & Hu).
  destruct (Ha x t1 Hx1) as (t2 & ? & Hu2). exists t2. split; [done|]. by rewrite Hu2, Hu.
Qed.

Lemma same_usage_insert h a t t0 : h !! a = Some t -> usage_ t0 = usage_ t -> same_usage h (<[a := t0]> h).
Proof.
  intros Ha Hu x tx Hx. destruct (decide (x = a)) as [->|].
  - rewrite lookup_insert_eq. simplify_eq. by exists t0.
  - rewrite lookup_insert_ne by done. by exists tx.
Qed.

(** Accounting, from the state [Next] leaves, for a leaf in state [t0]. *)
Lemma finish_round s s1 leaf t t0 task w q0 now usage :
  SInv s1 -> root_ s1 = root_ s -> linked (tcs s) (tcs s1) -> same_usage (tcs s) (tcs s1) ->
  picked (tcs s1) leaf -> tcs s1 !! leaf = Some t -> links t t0 -> usage_ t0 = usage_ t ->
  policy_ t0 = Leaf task w -> (blocked_ t0 = false -> wakeup_time_ t0 = 0) ->
  queue_ok (<[leaf := t0]> (tcs s1)) q0 -> usage_ok usage -> tsc_ok now ->
  (exists root l, root_ s = Some root /\ chain (tcs s1) leaf (l ++ [root])) ->
  exists s', finish (with_tcs s1 (<[leaf := t0]> (tcs s1)) q0) leaf usage now = Some s' /\ SInv s' /\
    root_ s' = root_ s /\ linked (tcs s) (tcs s') /\
    exists root l, root_ s = Some root /\ chain (tcs s) leaf (l ++ [root]) /\
      accounted (l ++ [root]) usage (tcs s) (tcs s').
Proof.
  intros HS1 Hr1 Hl1 Hu1 Hpk Ht Hlk Hus Hpol Hwk HQ Hu Hts (root & l & Hroot & Hc).
  destruct (finish_picked (tcs s1) (wakeup_queue_ s1) q0 leaf t t0 task w usage now)
    as (h' & q' & l' & Hf & HI' & Hl' & Hc' & Hacc); try done; [apply HS1|].
  unfold finish. cbn [tcs wakeup_queue_ with_tcs]. rewrite Hf. cbn [mbind option_bind fst snd].
  rewrite (chain_det _ _ _ _ Hc' Hc) in *. eexists. split; [done|].
  assert (Hl : linked (tcs s) h') by (by etransitivity).
  split; [|split; [done|split; [done|]]].
  - pose proof (SInv_with_tcs s1 h' q' HS1 Hl' HI') as [? ? ? ?]. by split.
  - exists root, l. split; [done|]. split; [by rewrite Hl1|].
    eapply accounted_trans; [exact Hu1|]. eapply accounted_trans; [|exact Hacc].
    by apply (same_usage_insert _ _ t).
Qed.

Lemma leaf_linked h h' leaf t task w : linked h h' -> h' !! leaf = Some t -> policy_ t = Leaf task w ->
  exists t' w', h !! leaf = Some t' /\ policy_ t' = Leaf task w'.
Proof.
  intros Hl Ht Hp. assert (linked h' h) as Hl' by (by symmetry).
  destruct (linked_Some _ _ _ _ Hl' Ht) as (t' & Ht' & [_ _ Hsh _]). rewrite Hp in Hsh.
  destruct (policy_ t') as [ | | | |task' w'] eqn:Hp'; try done. injection Hsh as ->. by exists t', w'.
Qed.

Lemma unblocked_leaf_awake s leaf t task w : SInv s -> tcs s !! leaf = Some t ->
  policy_ t = Leaf task w -> blocked_ t = false -> wakeup_time_ t = 0.
Proof.
  intros HS Ht Hpol. pose proof (inv_settled _ _ (s_inv _ HS) leaf t Ht) as Hs. unfold settled in Hs.
  by rewrite Hpol in Hs.
Qed.

Lemma ScheduleOnce_spec run now s : SInv s -> run_ok run now s ->
  round_post (round_usage run now s) s (ScheduleOnce run now s).
Proof.
  intros HS Hrun. unfold ScheduleOnce.
  destruct (Next_spec s (checkpoint_ s) HS)
    as (s1 & [leaf|] & -> & HS1 & Hr1 & _ & Hck & Hl1 & Hu1 & _ & Hm); cbn [mbind option_bind].
  - destruct Hm as ((t & task & w & Ht & Hpol) & Hpk & Hpath). rewrite Ht. cbn [mbind option_bind].
    rewrite Hpol.
    rewrite Hck. replace (u64 (now - checkpoint_ s)) with (now - checkpoint_ s)
      by (symmetry; apply wrap_small; destruct Hrun as (_ & ? & _); unfold in_word; lia).
    destruct (finish_round s s1 leaf t t task w (wakeup_queue_ s1) now (round_usage run now s task))
      as (s' & Hf & HS' & Hr' & Hl' & root & l & Hroot & Hc & Hacc); try done.
    + by eapply unblocked_leaf_awake.
    + rewrite insert_id by done. apply (inv_queue _ _ (s_inv _ HS1)).
    + by apply round_usage_ok.
    + apply Hrun.
    + rewrite insert_id in Hf by done.
      assert (with_tcs s1 (tcs s1) (wakeup_queue_ s1) = s1) as Hid by (by destruct s1). rewrite Hid in Hf.
      unfold round_usage in Hf. rewrite Hf. cbn [mbind option_bind].
      exists s', (Some leaf). split; [done|]. split; [done|]. split; [done|]. split; [done|].
      destruct (leaf_linked (tcs s) (tcs s1) leaf t task w Hl1 Ht Hpol) as (t' & w' & Ht' & Hpt').
      by exists t', task, w', root, l.
  - exists (idle s1 now), None. split; [done|]. split; [|by split].
    destruct HS1 as [? ? ? ?]. by split.
Qed.

(** Whether the experimental scheduler puts the leaf of [task] to sleep. *)
Definition sleeps (run : nat -> task_result) (task : nat) : bool :=
  (packets (run task) =? 0) && block (run task).

Lemma ExperimentalScheduleOnce_spec run now s : SInv s -> run_ok run now s ->
  round_post (fun task => if sleeps run task then [0; 0; 0; 0] else round_usage run now s task) s
    (ExperimentalScheduleOnce run now s).
Proof.
  intros HS Hrun. unfold ExperimentalScheduleOnce.
  destruct (Next_spec s (checkpoint_ s) HS)
    as (s1 & [leaf|] & -> & HS1 & Hr1 & _ & Hck & Hl1 & Hu1 & _ & Hm); cbn [mbind option_bind].
  - destruct Hm as ((t & task & w & Ht & Hpol) & Hpk & Hpath). rewrite Ht. cbn [mbind option_bind].
    rewrite Hpol. fold (sleeps run task).
    destruct (leaf_linked (tcs s) (tcs s1) leaf t task w Hl1 Ht Hpol) as (t' & w' & Ht' & Hpt').
    pose proof (picked_unblocked _ _ _ Hpk Ht) as Hb.
    pose proof (unblocked_leaf_awake s1 leaf t task w HS1 Ht Hpol Hb) as Hw0.
    pose proof (inv_queue _ _ (s_inv _ HS1)) as HQ. destruct (sleeps run task) eqn:Hsl.
    + set (wait := Z.min _ _). set (t0 := set_wakeup _ _).
      assert (0 <= wait <= 2 ^ 20) as Hwait.
      { unfold wait, kMaxWait. pose proof (wrap_range 64 (Z.shiftl w 1) ltac:(lia)) as Hwr.
        unfold in_word in Hwr. lia. }
      assert (Hwk : wakeup_time_ t0 <> 0).
      { unfold t0. cbn. destruct Hrun as ([? ?] & _). rewrite wrap_small; [lia|]. unfold in_word. lia. }
      assert (Hlk : links t t0) by (unfold t0, set_wait_cycles; rewrite Hpol; split; cbn; by rewrite ?Hpol).
      destruct (queue_ok_add (tcs s1) (wakeup_queue_ s1) leaf t t0 Ht Hw0 Hwk HQ) as (q0 & -> & HQ0 & _).
      cbn [mbind option_bind].
      destruct (finish_round s s1 leaf t t0 task wait q0 now [0; 0; 0; 0])
        as (s' & -> & HS' & Hr' & Hl' & root & l & Hroot & Hc & Hacc); try done.
      * unfold t0, set_wait_cycles. by rewrite Hpol.
      * unfold t0, set_wait_cycles. by rewrite Hpol.
      * split; [done|]. forall_each lia.
      * apply Hrun.
      * cbn [mbind option_bind]. exists s', (Some leaf). do 4 (split; [done|]).
        exists t', task, w', root, l. by rewrite Hsl.
    + rewrite Hck. replace (u64 (now - checkpoint_ s)) with (now - checkpoint_ s)
        by (symmetry; apply wrap_small; destruct Hrun as (_ & ? & _); unfold in_word; lia).
      set (t0 := set_wait_cycles _ t).
      assert (Hlk : links t t0) by (unfold t0, set_wait_cycles; rewrite Hpol; split; cbn; by rewrite ?Hpol).
      destruct (finish_round s s1 leaf t t0 task (Z.shiftr (u64 (w + 1)) 1) (wakeup_queue_ s1) now
          (round_usage run now s task))
        as (s' & Hf & HS' & Hr' & Hl' & root & l & Hroot & Hc & Hacc); try done.
      * unfold t0, set_wait_cycles. by rewrite Hpol.
      * unfold t0, set_wait_cycles. by rewrite Hpol.
      * intros _. unfold t0, set_wait_cycles. by rewrite Hpol.
      * apply (queue_ok_same _ _ _ t); [done| |done]. unfold t0, set_wait_cycles. by rewrite Hpol.
      * by apply round_usage_ok.
      * apply Hrun.
      * unfold round_usage in Hf. rewrite Hf. cbn [mbind option_bind].
        exists s', (Some leaf). do 4 (split; [done|]). exists t', task, w', root, l. by rewrite Hsl.
  - exists (idle s1 now), None. split; [done|]. split; [|by split].
    destruct HS1 as [? ? ? ?]. by split.
Qed.

(** ** Growing the tree *)
Definition new_class (t : tc) : Prop :=
  parent_ t = None /\ kids (policy_ t) = [] /\ Children t = [] /\ wakeup_time_ t = 0 /\
  shape_ok (shape (policy_ t)) /\ (forall b, settled b t).

(** The constructors build such classes. *)
Lemma constructors_new name res tsc_hz limit burst task : res <> NUM_RESOURCES ->
  new_class (new_Priority name) /\ new_class (new_WeightedFair name res) /\
  new_class (new_RoundRobin name) /\ new_class (new_RateLimit tsc_hz name res limit burst) /\
  new_class (new_Leaf name task).
Proof.
  intros Hres. assert (0 <= to_work_units_per_cycle tsc_hz limit) by (apply wrap_range; lia).
  assert (Hnew : forall t, parent_ t = None /\ kids (policy_ t) = [] /\ Children t = [] /\
    wakeup_time_ t = 0 /\ shape_ok (shape (policy_ t)) -> (forall b, settled b t) -> new_class t).
  { intros t (? & ? & ? & ? & ?) ?. by do 5 (split; [done|]). }
  split; [|split; [|split; [|split]]]; (apply Hnew; [done|intros b; unfold settled; cbn]).
  - split; [done|]. split; [done|]. by split.
  - split; [by intros i j _ _ x y Hx|]. by split.
  - split; [unfold next_ok; cbn; lia|]. by split.
  - split; [done|]. intros _. right. right. by left.
  - done.
Qed.

Lemma Inv_new h q a t : Inv h q -> h !! a = None -> new_class t -> Inv (<[a := t]> h) q.
Proof.
  intros [HT Hs Hst [Hnd Hh Hm]] Ha (Hp & Hk & Hc & Hw & Hsh & Hset).
  assert (Hother : forall x tx, h !! x = Some tx -> <[a := t]> h !! x = Some tx).
  { intros x tx Hx. rewrite lookup_insert_ne; [done|]. intros ->. congruence. }
  assert (Hcase : forall x tx, <[a := t]> h !! x = Some tx -> (x = a /\ tx = t) \/ h !! x = Some tx).
  { intros x tx Hx. destruct (decide (x = a)) as [->|].
    - rewrite lookup_insert_eq in Hx. left. by simplify_eq.
    - rewrite lookup_insert_ne in Hx by done. by right. }
  assert (Hbl : forall x tx c, h !! x = Some tx -> c ∈ kids (policy_ tx) -> bl (<[a := t]> h) c = bl h c).
  { intros x tx c Hx Hc'. destruct (tree_kids h HT x tx c Hx Hc') as (ct & Hct & _).
    rewrite bl_insert, decide_False; [done|]. intros ->. congruence. }
  split; [split| | |split].
  - intros x tx [[-> ->]|Hx]%Hcase; [exists [a]; eapply chain_root; [by rewrite lookup_insert_eq|done]|].
    destruct (tree_chain h HT x tx Hx) as [l Hl]. exists l.
    clear Hx. induction Hl as [x tx' Hx Hpx|x tx' p l Hx Hpx Hl IH].
    + eapply chain_root; [by apply Hother|done].
    + eapply chain_step; [by apply Hother|done|done].
  - intros x tx c [[-> ->]|Hx]%Hcase Hc'; [rewrite Hk in Hc'; by apply not_elem_of_nil in Hc'|].
    destruct (tree_kids h HT x tx c Hx Hc') as (ct & ? & ?). exists ct. split; [by apply Hother|done].
  - intros c ct p [[-> ->]|Hx]%Hcase Hcp; [congruence|].
    destruct (tree_parent h HT c ct p Hx Hcp) as (tp & ? & ?). exists tp. split; [by apply Hother|done].
  - intros x tx [[-> ->]|Hx]%Hcase; [rewrite Hk; constructor|by apply (tree_nodup h HT x)].
  - intros x tx [[-> ->]|Hx]%Hcase; [done|]. eapply settled_ext; [|by apply (Hs x)].
    intros c Hc'. symmetry. by eapply Hbl.
  - intros x tx [[-> ->]|Hx]%Hcase; [|by apply (Hst x)]. split; [done|by rewrite Hc, Hk|].
    intros f cs Hpol. rewrite Hpol in Hk. cbn in Hk. destruct cs; [constructor|done].
  - done.
  - eapply wakeup_heap_ext; [|exact Hh]. intros x (tx & Hx & _)%Hm. unfold wakeup_time.
    by rewrite (Hother x tx Hx), Hx.
  - intros x. rewrite Hm. split.
    + intros (tx & Hx & ?). exists tx. split; [by apply Hother|done].
    + intros (tx & [[-> ->]|Hx]%Hcase & ?); [done|by exists tx].
Qed.

Lemma CreateTrafficClass_spec s t : SInv s -> new_class t ->
  let '(s', r) := CreateTrafficClass s t in
  SInv s' /\ root_ s' = root_ s /\ default_rr_class_ s' = default_rr_class_ s /\
  wakeup_queue_ s' = wakeup_queue_ s /\
  match r with
  | Some a => all_tcs_ s !! name_ t = None /\ a = new_addr_ s /\ tcs s' = <[a := t]> (tcs s)
  | None => s' = s
  end.
Proof.
  intros HS Ht. unfold CreateTrafficClass. destruct (all_tcs_ s !! name_ t) eqn:Hn.
  - by split.
  - split; [|by repeat split]. destruct HS as [HI Hr Hd Hf].
    assert (Hnew : tcs s !! new_addr_ s = None) by (by apply Hf).
    assert (Hother : forall x tx, tcs s !! x = Some tx -> <[new_addr_ s := t]> (tcs s) !! x = Some tx).
    { intros x tx Hx. rewrite lookup_insert_ne; [done|]. intros <-. congruence. }
    split; cbn.
    + by apply Inv_new.
    + intros r Hr'. destruct (Hr r Hr') as (tr & ? & ?). exists tr. split; [by apply Hother|done].
    + intros rr Hrr. destruct (Hd rr Hrr) as (? & tr & ? & ?). split; [done|].
      exists tr. split; [by apply Hother|done].
    + intros a Ha. rewrite lookup_insert_ne by lia. apply Hf. lia.
Qed.

(** [AddChild] through a round robin that is a root, as [AttachOrphan] uses it. *)
Lemma adopt_spec h q rr c tr ct tsc : Inv h q -> h !! rr = Some tr -> parent_ tr = None ->
  policy_tag (policy_ tr) = POLICY_ROUND_ROBIN -> h !! c = Some ct -> parent_ ct = None -> c <> rr ->
  exists h' tr' ct', AddChild h rr c RoundRobinChildArgs tsc = Some (h', true) /\ Inv h' q /\
    h' !! rr = Some tr' /\ parent_ tr' = None /\ policy_tag (policy_ tr') = POLICY_ROUND_ROBIN /\
    h' !! c = Some ct' /\ parent_ ct' = Some rr /\ grown h h' rr c.
Proof.
  intros HI Hrr Hp Htag Hc Hcp Hne.
  destruct (AddChild_spec h q rr c RoundRobinChildArgs tsc tr ct HI Hrr Hc) as (h' & r & Ha & HI' & Hr & Hm).
  - by destruct (policy_ tr).
  - intros l Hl. inversion Hl; simplify_eq. by intros ->%list_elem_of_singleton.
  - assert (r = true) as ->.
    { rewrite Hr, bool_decide_true by done. by destruct (policy_ tr). }
    destruct Hm as (tr' & ct' & Htr' & Hct' & _ & Hpc & Hg).
    exists h', tr', ct'. destruct (grown_Some _ _ _ _ Hg rr tr Hrr) as (tr2 & Htr2 & Hp2 & _ & Ht2 & _). simplify_eq.
    do 3 (split; [done|]). split; [rewrite Hp2 by done; done|]. split; [by rewrite Ht2|done].
Qed.

Lemma SInv_grown s h root : SInv s -> Inv h (wakeup_queue_ s) ->
  (forall a, tcs s !! a = None -> h !! a = None) ->
  (exists t, h !! root = Some t /\ parent_ t = None /\ policy_tag (policy_ t) = POLICY_ROUND_ROBIN) ->
  SInv (with_root (with_tcs s h (wakeup_queue_ s)) (Some root) (Some root)).
Proof.
  intros [_ _ _ Hf] HI Hdom (t & Ht & Hp & Htag). split; cbn; [done| | |].
  - intros r [= <-]. by exists t.
  - intros r [= <-]. split; [done|]. by exists t.
  - intros a Ha. by apply Hdom, Hf.
Qed.

(** ** Which child is picked *)
Lemma pick_policy b t c : StronglySorted Z.lt (match policy_ t with Priority _ cs => map fst cs | _ => [] end) ->
  settled b t -> PickNextChild t = Some c ->
  match policy_ t with
  | Priority _ cs => exists p, (p, c) ∈ cs /\ forall p' c', (p', c') ∈ cs -> p' < p -> b c' = true
  | WeightedFair _ r _ _ => exists x, x ∈ r /\ wf_c x = c /\ forall y, y ∈ r -> pass x <= pass y
  | RoundRobin next r _ _ => r !! Z.to_nat next = Some c
  | RateLimit _ _ _ _ _ _ _ c' => c' = Some c
  | Leaf _ _ => False
  end.
Proof.
  unfold settled, PickNextChild.
  destruct (policy_ t) as [first cs|res r bb all|next r bb all|res l la mb mba tk lt c'|task w];
    intros Hsort Hs Hpick; try done.
  - destruct Hs as (_ & Htake & _). destruct (cs !! first) as [[p c0]|] eqn:Hx; [|done].
    injection Hpick as <-. exists p. split; [by eapply list_elem_of_lookup_2|].
    intros p' c' Hin Hlt. rewrite Forall_forall in Htake. apply (Htake (p', c')).
    rewrite <- (take_drop_middle cs first (p, c0) Hx) in Hin, Hsort. apply elem_of_app in Hin as [|Hin]; [done|].
    exfalso. rewrite map_app in Hsort. cbn in Hsort.
    assert (StronglySorted Z.lt (p :: map fst (drop (S first) cs))) as Hd.
    { revert Hsort. induction (map fst (take first cs)) as [|y l IH]; [done|]. intros Hy. apply IH. by inversion Hy. }
    inversion Hd as [|? ? _ Hall]; subst. apply elem_of_cons in Hin as [[= ->]|Hin]; [lia|].
    rewrite Forall_forall in Hall. specialize (Hall p'). cut (p < p'); [lia|]. apply Hall.
    change p' with (fst (p', c')). by apply list_elem_of_fmap_2.
  - destruct Hs as (Hh & _). destruct r as [|x r]; [done|]. injection Hpick as <-. exists x.
    split; [by left|]. split; [done|]. intros y Hy.
    pose proof (heap_top wf_less wf_less_asym wf_less_ntrans (x :: r) x y Hh eq_refl Hy) as Hle.
    unfold wf_less in Hle. by apply Z.ltb_ge in Hle.
Qed.

(** ** Nothing runnable is missed *)
Definition throttled (t : tc) : Prop :=
  match policy_ t with RateLimit _ limit _ _ _ _ _ _ => wakeup_time_ t <> 0 \/ limit = 0 | _ => False end.

#[export] Instance throttled_dec t : Decision (throttled t).
Proof. unfold throttled. destruct (policy_ t); apply _. Defined.

Lemma throttled_on (h : store) (l : list addr) : (exists x t, x ∈ l /\ h !! x = Some t /\ throttled t) \/
  (forall x t, x ∈ l -> h !! x = Some t -> ~ throttled t).
Proof.
  induction l as [|a l IH]; [right; by intros x t ?%not_elem_of_nil|].
  destruct IH as [(x & t & Hx & Ht)|IH]; [left; exists x, t; split; [by right|done]|].
  destruct (h !! a) as [t|] eqn:Ha; [destruct (decide (throttled t)) as [Ht|Ht]|].
  - left. exists a, t. split; [by left|done].
  - right. intros x tx [->|Hx]%elem_of_cons Hh; [by simplify_eq|by apply (IH x)].
  - right. intros x tx [->|Hx]%elem_of_cons Hh; [by simplify_eq|by apply (IH x)].
Qed.

Lemma settled_runnable b t c : settled b t -> c ∈ kids (policy_ t) -> b c = false -> ~ throttled t ->
  blocked_ t = false.
Proof.
  unfold settled, throttled.
  destruct (policy_ t) as [first cs|res r bb all|next r bb all|res l la mb mba tk lt c'|task w];
    cbn [kids]; intros Hs Hc Hbc Hth.
  - destruct Hs as (Hle & Htake & _ & ->). apply bool_decide_eq_false. intros ->.
    rewrite take_ge in Htake by done. apply list_elem_of_fmap in Hc as (x & -> & Hx).
    rewrite Forall_forall in Htake. by rewrite (Htake x Hx) in Hbc.
  - destruct Hs as (_ & _ & Hb & ->). apply bool_decide_eq_false. intros ->. cbn in Hc.
    apply list_elem_of_fmap in Hc as (x & -> & Hx). rewrite Forall_forall in Hb. by rewrite (Hb x Hx) in Hbc.
  - destruct Hs as (_ & _ & Hb & ->). apply bool_decide_eq_false. intros ->. cbn in Hc.
    rewrite Forall_forall in Hb. by rewrite (Hb c Hc) in Hbc.
  - destruct (blocked_ t) eqn:Hbt; [|done]. destruct Hs as [_ Hs].
    destruct c' as [c'|]; [|by apply not_elem_of_nil in Hc]. apply list_elem_of_singleton in Hc as ->.
    destruct (Hs eq_refl) as [|[|[|(x & [= <-] & Hx)]]]; [exfalso; tauto|exfalso; tauto|done|congruence].
  - by apply not_elem_of_nil in Hc.
Qed.

Lemma unblocked_path h a l : tree h -> all_settled h -> chain h a l ->
  (forall x t, x ∈ l -> h !! x = Some t -> ~ throttled t) -> bl h a = false ->
  forall x, x ∈ l -> bl h x = false.
Proof.
  intros HT Hs Hc. induction Hc as [a t Ha Hp|a t p l Ha Hp Hc IH]; intros Hth Hb x Hx.
  - by apply list_elem_of_singleton in Hx as ->.
  - apply elem_of_cons in Hx as [->|Hx]; [done|].
    destruct (tree_parent h HT a t p Ha Hp) as (tp & Htp & Hin).
    assert (Hpl : p ∈ l) by (inversion Hc; subst; by left).
    apply IH; [intros y ty Hy; apply Hth; by right| |done].
    rewrite (bl_lookup h p tp Htp). eapply (settled_runnable (bl h) tp a); try done; [by apply (Hs p)|].
    apply (Hth p); [by right|done].
Qed.

Lemma AttachOrphan_spec s c ct wid tsc : SInv s -> tcs s !! c = Some ct -> parent_ ct = None ->
  root_ s <> Some c ->
  (default_rr_class_ s = None -> all_tcs_ s !! ("!default_rr_" ++ pretty wid)%string = None) ->
  exists s', AttachOrphan s c wid tsc = Some (s', true) /\ SInv s' /\
    exists root ct', root_ s' = Some root /\ tcs s' !! c = Some ct' /\
      (c = root \/ parent_ ct' = Some root).
Proof.
  intros HS Hc Hcp Hnr Hname. pose proof HS as [HI Hr Hd Hf]. unfold AttachOrphan.
  destruct (root_ s) as [root|] eqn:Hroot; [destruct (default_rr_class_ s) as [rr|] eqn:Hdef|].
  - destruct (Hd rr eq_refl) as ([= <-] & tr & Htr & Htag).
    destruct (Hr root eq_refl) as (tr' & ? & Hp); simplify_eq.
    destruct (adopt_spec (tcs s) (wakeup_queue_ s) root c tr ct tsc) as (h' & t1 & ct' & -> & HI' & Ht1 & Hp1 & Htag1 & Hct' & Hpc & Hg);
      try done; [congruence|].
    cbn [mbind option_bind fst snd]. eexists. split; [done|]. split.
    + pose proof (SInv_grown s h' root HS HI' (grown_None _ _ _ _ Hg)) as HS'.
      destruct HS' as [? ? ? ?]; [by exists t1|]. split; cbn in *; [done| |intros r Hdr|done].
      * intros r Hr'. apply s_root0. congruence.
      * destruct (s_default0 r) as (? & ?); [congruence|]. split; [congruence|done].
    + exists root, ct'. cbn. split; [done|]. split; [done|]. by right.
  - set (t0 := new_RoundRobin _).
    assert (Hnew : new_class t0) by (by apply (constructors_new _ RESOURCE_COUNT 0 0 0 0)).
    pose proof (CreateTrafficClass_spec s t0 HS Hnew) as HC.
    destruct (CreateTrafficClass s t0) as [s1 [rr|]] eqn:Hcr.
    2: { exfalso. unfold CreateTrafficClass in Hcr. cbn in Hcr. rewrite Hname in Hcr by done. done. }
    destruct HC as (HS1 & Hr1 & _ & Hq1 & _ & -> & Ht1). cbn [mbind option_bind].
    destruct (Hr root eq_refl) as (tr & Htr & Hp).
    assert (Hfr : tcs s !! new_addr_ s = None) by (by apply Hf).
    assert (Hrr1 : tcs s1 !! new_addr_ s = Some t0) by (rewrite Ht1; by rewrite lookup_insert_eq).
    assert (Hroot1 : tcs s1 !! root = Some tr) by (rewrite Ht1, lookup_insert_ne; [done|congruence]).
    assert (Hc1 : tcs s1 !! c = Some ct) by (rewrite Ht1, lookup_insert_ne; [done|congruence]).
    destruct (adopt_spec (tcs s1) (wakeup_queue_ s1) (new_addr_ s) root t0 tr tsc)
      as (h2 & t2 & tr2 & -> & HI2 & Ht2 & Hp2 & Htag2 & _ & _ & Hg2); try done; [apply HS1|congruence|].
    cbn [mbind option_bind fst snd].
    destruct (grown_Some _ _ _ _ Hg2 c ct Hc1) as (ct2 & Hct2 & Hpc2 & _).
    destruct (adopt_spec h2 (wakeup_queue_ s1) (new_addr_ s) c t2 ct2 tsc)
      as (h3 & t3 & ct3 & -> & HI3 & Ht3 & Hp3 & Htag3 & Hct3 & Hpc3 & Hg3); try done.
    { rewrite Hpc2; [done|congruence]. }
    { congruence. }
    cbn [mbind option_bind fst snd]. eexists. split; [done|]. split.
    + rewrite <- Hq1 in *. apply (SInv_grown s1 h3 (new_addr_ s) HS1 HI3); [|by exists t3].
      intros a Ha. by apply (grown_None _ _ _ _ Hg3), (grown_None _ _ _ _ Hg2).
    + exists (new_addr_ s), ct3. cbn. split; [done|]. split; [done|]. by right.
  - eexists. split; [done|]. split.
    + split; cbn; [done| | |done].
      * intros r [= <-]. by exists ct.
      * intros rr Hrr. by destruct (Hd rr Hrr).
    + exists c, ct. cbn. split; [done|]. split; [done|]. by left.
Qed.

(** ** Dismantling *)

(** A class without parent, children and wake-up time can be deleted. *)
Lemma Inv_delete h q a t : Inv h q -> h !! a = Some t -> parent_ t = None -> kids (policy_ t) = [] ->
  wakeup_time_ t = 0 -> Inv (delete a h) q.
Proof.
  intros [HT Hs Hst [Hnd Hh Hm]] Ha Hp Hk Hw.
  assert (Hcase : forall x tx, delete a h !! x = Some tx -> x <> a /\ h !! x = Some tx).
  { intros x tx Hx. destruct (decide (x = a)) as [->|]; [by rewrite lookup_delete_eq in Hx|].
    by rewrite lookup_delete_ne in Hx. }
  assert (Hback : forall x tx, x <> a -> h !! x = Some tx -> delete a h !! x = Some tx).
  { intros x tx Hne Hx. by rewrite lookup_delete_ne. }
  assert (Hkid : forall x tx c, h !! x = Some tx -> c ∈ kids (policy_ tx) -> c <> a).
  { intros x tx c Hx Hc ->. destruct (tree_kids h HT x tx a Hx Hc) as (ct & Hct & Hcp). congruence. }
  assert (Hpar : forall c ct p, h !! c = Some ct -> parent_ ct = Some p -> p <> a).
  { intros c ct p Hc Hcp ->. destruct (tree_parent h HT c ct a Hc Hcp) as (tp & Htp & Hin).
    simplify_eq. rewrite Hk in Hin. by apply not_elem_of_nil in Hin. }
  split; [split| | |split].
  - intros x tx [Hne Hx]%Hcase. destruct (tree_chain h HT x tx Hx) as [l Hl]. exists l. clear Hx.
    induction Hl as [x tx' Hx Hpx|x tx' p l Hx Hpx Hl IH].
    + eapply chain_root; [by apply Hback|done].
    + eapply chain_step; [by apply Hback|done|]. apply IH. by apply (Hpar x tx').
  - intros x tx c [Hne Hx]%Hcase Hc. destruct (tree_kids h HT x tx c Hx Hc) as (ct & Hct & ?).
    exists ct. split; [|done]. apply Hback; [by apply (Hkid x tx)|done].
  - intros c ct p [Hne Hc]%Hcase Hcp. destruct (tree_parent h HT c ct p Hc Hcp) as (tp & Htp & ?).
    exists tp. split; [|done]. apply Hback; [by apply (Hpar c ct)|done].
  - intros x tx [Hne Hx]%Hcase. by apply (tree_nodup h HT x).
  - intros x tx [Hne Hx]%Hcase. eapply settled_ext; [|by apply (Hs x)]. intros c Hc.
    unfold bl, blocked. rewrite lookup_delete_ne; [done|]. intros <-. by apply (Hkid x tx a Hx Hc).
  - intros x tx [Hne Hx]%Hcase. by apply (Hst x).
  - done.
  - eapply wakeup_heap_ext; [|exact Hh]. intros x (tx & Hx & Hwx)%Hm. unfold wakeup_time.
    rewrite lookup_delete_ne; [done|]. intros <-. simplify_eq.
  - intros x. rewrite Hm. split.
    + intros (tx & Hx & Hwx). exists tx. split; [|done]. apply Hback; [|done]. intros ->. simplify_eq.
    + intros (tx & [_ Hx]%Hcase & ?). by exists tx.
Qed.

(** Deleting such a class as the destructor does. *)
Lemma delete_tc_spec s a t : SInv s -> tcs s !! a = Some t -> parent_ t = None ->
  kids (policy_ t) = [] -> wakeup_time_ t = 0 ->
  delete_tc s a = Some (Sched (delete a (tcs s)) (delete (name_ t) (all_tcs_ s)) (new_addr_ s) (root_ s)
    (default_rr_class_ s) (wakeup_queue_ s) (cnt_idle_ s) (cycles_idle_ s) (checkpoint_ s)) /\
  Inv (delete a (tcs s)) (wakeup_queue_ s).
Proof.
  intros HS Ha Hp Hk Hw. split; [|by apply (Inv_delete _ _ a t); [apply HS|..]].
  unfold delete_tc. cbn [destroy]. rewrite Ha. cbn [mbind option_bind]. rewrite Hk. done.
Qed.

(** [AdjustDefault]: a default round robin with at most one child is deleted. *)
Lemma AdjustDefault_spec s : SInv s ->
  (forall rr t, default_rr_class_ s = Some rr -> tcs s !! rr = Some t -> wakeup_time_ t = 0) ->
  exists s', AdjustDefault s = Some s' /\ SInv s' /\
    match root_ s, default_rr_class_ s with
    | Some _, Some rr => exists t, tcs s !! rr = Some t /\
        match Children t with
        | [] => root_ s' = None /\ default_rr_class_ s' = None /\ tcs s' !! rr = None
        | [c] => root_ s' = Some c /\ default_rr_class_ s' = None /\ tcs s' !! rr = None
        | _ => s' = s
        end
    | _, _ => s' = s
    end.
Proof.
  intros HS Hwake. pose proof HS as [HI Hr Hd Hf]. unfold AdjustDefault.
  destruct (root_ s) as [root|] eqn:Hroot; [|by exists s].
  destruct (default_rr_class_ s) as [rr|] eqn:Hdef; [|by exists s].
  destruct (Hd rr eq_refl) as ([= ->] & t & Ht & Htag). specialize (Hwake rr t eq_refl Ht).
  destruct (Hr rr eq_refl) as (t' & ? & Hp); simplify_eq.
  pose proof (st_children _ (inv_static _ _ HI rr t Ht)) as Hch.
  rewrite Ht. cbn [mbind option_bind].
  destruct (Children t) as [|c [|c2 cs]] eqn:Hcs.
  - destruct (delete_tc_spec s rr t HS Ht Hp) as [-> HI']; [by apply Permutation_nil|done|].
    cbn [mbind option_bind]. eexists. split; [done|]. split.
    + split; cbn; [done|done|done|]. intros a Ha. rewrite lookup_delete_None. right. by apply Hf.
    + exists t. rewrite Hcs. cbn. by rewrite lookup_delete_eq.
  - apply Permutation_singleton_l in Hch.
    destruct (tree_kids _ (inv_tree _ _ HI) rr t c Ht) as (ct & Hct & Hpc); [rewrite <- Hch; by left|].
    destruct (RemoveChild_spec (tcs s) (wakeup_queue_ s) rr c t ct HI Ht Hct) as (h' & r & -> & HI' & Hres & Hm).
    rewrite bool_decide_true in Hres by done. subst r.
    destruct Hm as (t1 & ct1 & Ht1 & Hct1 & Hch1 & Hpc1 & [HgS HgN]). cbn [mbind option_bind fst snd].
    destruct (HgS rr t Ht) as (t2 & Ht2 & Hp2 & _ & _ & Hw2). simplify_eq.
    assert (Hne : rr <> c) by (intros ->; simplify_eq; congruence).
    set (s1 := with_tcs s h' (wakeup_queue_ s)).
    assert (HS1 : SInv s1).
    { split; cbn; [done| | |].
      - intros r Hr'. destruct (Hr r) as (tr & Htr & Hpr); [congruence|]. destruct (HgS r tr Htr) as (tr' & ? & Hpr' & _).
        exists tr'. split; [done|]. destruct (decide (r = c)) as [->|]; [congruence|]. by rewrite Hpr'.
      - intros r Hr'. assert (r = rr) as -> by congruence. split; [congruence|]. exists t1. split; [done|].
        destruct (HgS rr t Ht) as (t3 & Ht3 & _ & _ & Htag3 & _). simplify_eq. by rewrite Htag3.
      - intros a Ha. by apply HgN, Hf. }
    assert (Hk1 : kids (policy_ t1) = []).
    { pose proof (st_children _ (inv_static _ _ HI' rr t1 Ht1)) as Hk. apply Permutation_nil.
      rewrite <- Hk. rewrite Hcs in Hch1. by apply Permutation_cons_inv in Hch1. }
    destruct (delete_tc_spec s1 rr t1 HS1 Ht1) as [-> HI1]; [by rewrite Hp2|done|by rewrite Hw2|].
    cbn [mbind option_bind]. eexists. split; [done|]. split.
    + split; cbn; [done| |done|].
      * intros r [= <-]. exists ct1. by rewrite lookup_delete_ne.
      * intros a Ha. rewrite lookup_delete_None. right. by apply HgN, Hf.
    + exists t. rewrite Hcs. cbn. by rewrite lookup_delete_eq.
  - exists s. split; [done|]. split; [done|]. exists t. by rewrite Hcs.
Qed.

(** ** Rate limiting *)

(** The token bucket of a class: its limit, burst, tokens and time of the last refill. *)
Definition bucket (t : tc) : option (Z * Z * Z * Z) :=
  match policy_ t with RateLimit _ l _ mb _ tk lt _ => Some (l, mb, tk, lt) | _ => None end.


(** ** Properties *)

(** C2: whichever classes it is called on, [AddChild] keeps the invariant of the
    tree (links both ways, no cycle, heaps and blocked flags up to date, wake-up
    queue); it takes the child exactly when it is an orphan and the policy accepts
    it, and then lists it among the children; otherwise nothing changes. *)
Theorem add_child_invariant h q a child args tsc t ct :
  Inv h q -> h !! a = Some t -> h !! child = Some ct -> fits (policy_ t) args = true ->
  (forall l, chain h a l -> child ∉ l) ->
  exists h' r, AddChild h a child args tsc = Some (h', r) /\ Inv h' q /\
    r = bool_decide (parent_ ct = None) && accepts (policy_ t) args /\
    if r then exists t' ct', h' !! a = Some t' /\ h' !! child = Some ct' /\
        Children t' ≡ₚ child :: Children t /\ parent_ ct' = Some a /\ grown h h' a child
    else h' = h.
Proof. apply AddChild_spec. Qed.

(** C3: [RemoveChild] keeps the invariant; it succeeds exactly for a child of the
    class, which becomes an orphan and is no longer listed. *)
Theorem remove_child_invariant h q a child t ct :
  Inv h q -> h !! a = Some t -> h !! child = Some ct ->
  exists h' r, RemoveChild h a child = Some (h', r) /\ Inv h' q /\
    r = bool_decide (parent_ ct = Some a) /\
    if r then exists t' ct', h' !! a = Some t' /\ h' !! child = Some ct' /\
        Children t ≡ₚ child :: Children t' /\ parent_ ct' = None /\ grown h h' a child
    else h' = h.
Proof. apply RemoveChild_spec. Qed.

(** C1: a round of the default scheduler always completes and keeps the invariant;
    if it runs a leaf, every class from the leaf to the root, and no other, is
    charged with the round's usage, and no usage counter changes when it idles. *)
Theorem schedule_once_invariant run now s : SInv s -> run_ok run now s ->
  round_post (round_usage run now s) s (ScheduleOnce run now s).
Proof. apply ScheduleOnce_spec. Qed.

(** The same for the experimental scheduler, which charges nothing for a task
    that found no work and was put to sleep. *)
Theorem experimental_schedule_once_invariant run now s : SInv s -> run_ok run now s ->
  round_post (fun task => if sleeps run task then [0; 0; 0; 0] else round_usage run now s task) s
    (ExperimentalScheduleOnce run now s).
Proof. apply ExperimentalScheduleOnce_spec. Qed.

(** C4: [Next] terminates.  It first wakes exactly the classes whose time has come;
    a leaf it returns is unblocked and so is every class on its path, each picked by
    its parent; it returns none only when there is no root or the root is blocked, and then
    a rate limiter is throttled above every leaf below the root that is unblocked. *)
Theorem next_work_conserving s tsc : SInv s ->
  exists s' r, Next s tsc = Some (s', r) /\ SInv s' /\
    (forall a, a ∈ wakeup_queue_ s' -> tsc <= wakeup_time (tcs s') a) /\
    match r with
    | Some leaf => is_leaf (tcs s') leaf /\ picked (tcs s') leaf /\
        exists root l, root_ s = Some root /\ chain (tcs s') leaf (l ++ [root])
    | None => (forall root, root_ s = Some root -> bl (tcs s') root = true) /\
        forall root leaf l, root_ s = Some root -> chain (tcs s') leaf (l ++ [root]) ->
          bl (tcs s') leaf = false ->
          exists x t, x ∈ l ++ [root] /\ tcs s' !! x = Some t /\ throttled t
    end.
Proof.
  intros HS. destruct (Next_spec s tsc HS) as (s' & r & HN & HS' & _ & _ & _ & _ & _ & Hq & Hm).
  exists s', r. split; [done|]. split; [done|]. split; [done|]. destruct r as [leaf|]; [done|].
  split; [done|]. intros root leaf l Hr Hc Hb. specialize (Hm root Hr).
  destruct (throttled_on (tcs s') (l ++ [root])) as [Hth|Hth]; [done|exfalso].
  rewrite (unblocked_path (tcs s') leaf (l ++ [root])) in Hm; try done; [apply HS'|apply HS'|].
  apply elem_of_app. right. by left.
Qed.

(** The child a class picks: the first in priority order that is not blocked,
    the one with the least pass of a weighted-fair class, the next in turn of a
    round robin. *)
Theorem pick_next_child_policy h q a t c : Inv h q -> h !! a = Some t -> PickNextChild t = Some c ->
  match policy_ t with
  | Priority _ cs => exists p, (p, c) ∈ cs /\ forall p' c', (p', c') ∈ cs -> p' < p -> bl h c' = true
  | WeightedFair _ r _ _ => exists x, x ∈ r /\ wf_c x = c /\ forall y, y ∈ r -> pass x <= pass y
  | RoundRobin next r _ _ => r !! Z.to_nat next = Some c
  | RateLimit _ _ _ _ _ _ _ c' => c' = Some c
  | Leaf _ _ => False
  end.
Proof.
  intros HI Ha Hp. apply (pick_policy (bl h) t c); [|by apply (inv_settled _ _ HI a)|done].
  destruct (policy_ t) eqn:Hpol; try constructor. by eapply (inv_static _ _ HI a t Ha).
Qed.

(** [WakeTCs] terminates and wakes exactly the classes whose wake-up time has
    passed, leaving the others queued with their times. *)
Theorem wake_tcs_due tsc h q : Inv h q ->
  exists h' q', WakeTCs tsc h q = Some (h', q') /\ Inv h' q' /\ linked h h' /\ same_usage h h' /\
    (forall a, a ∈ q' <-> a ∈ q /\ tsc <= wakeup_time h a) /\
    (forall a, a ∈ q' -> wakeup_time h' a = wakeup_time h a).
Proof. apply WakeTCs_spec. Qed.

(** [AttachOrphan] makes an orphan the root of an idle scheduler, else puts it
    below the default round robin, which it creates above the old root at need. *)
Theorem attach_orphan_invariant s c ct wid tsc : SInv s -> tcs s !! c = Some ct -> parent_ ct = None ->
  root_ s <> Some c ->
  (default_rr_class_ s = None -> all_tcs_ s !! ("!default_rr_" ++ pretty wid)%string = None) ->
  exists s', AttachOrphan s c wid tsc = Some (s', true) /\ SInv s' /\
    exists root ct', root_ s' = Some root /\ tcs s' !! c = Some ct' /\
      (c = root \/ parent_ ct' = Some root).
Proof. apply AttachOrphan_spec. Qed.

(** [AdjustDefault] deletes the default round robin when it has at most one
    child, which becomes the root, and keeps the invariant. *)
Theorem adjust_default_invariant s : SInv s ->
  (forall rr t, default_rr_class_ s = Some rr -> tcs s !! rr = Some t -> wakeup_time_ t = 0) ->
  exists s', AdjustDefault s = Some s' /\ SInv s' /\
    match root_ s, default_rr_class_ s with
    | Some _, Some rr => exists t, tcs s !! rr = Some t /\
        match Children t with
        | [] => root_ s' = None /\ default_rr_class_ s' = None /\ tcs s' !! rr = None
        | [c] => root_ s' = Some c /\ default_rr_class_ s' = None /\ tcs s' !! rr = None
        | _ => s' = s
        end
    | _, _ => s' = s
    end.
Proof. apply AdjustDefault_spec. Qed.

(** The comment on [limit_] says that 0 means unlimited; but a rate limiter with
    limit 0 and no tokens blocks on its first use and never asks to be woken up. *)
Lemma rate_limit_zero_blocks h c usage tsc res la mb mba lt t u ct :
  usage !! resource_index res = Some u -> 0 < u < 2 ^ 31 -> h !! c = Some ct ->
  exists t', RateLimitFinish h c usage tsc res 0 la mb mba 0 lt (Some c) t = Some (t', false) /\
    blocked_ t' = true /\ wakeup_time_ t' = wakeup_time_ t.
Proof.
  intros Hu Hr Hc. unfold RateLimitFinish, blocked. rewrite Hu, Hc. cbn [mbind option_bind fmap option_fmap option_map].
  assert (to_work_units u = u * 2 ^ 32) as ->.
  { unfold to_work_units, kUsageAmplifierPow. rewrite Z.shiftl_mul_pow2 by done. apply wrap_small. unfold in_word. lia. }
  change (u64 (0 + u64 (0 * _))) with 0. rewrite (proj2 (Z.ltb_lt 0 (u * 2 ^ 32))) by lia.
  by eexists.
Qed.

(** ** A concrete tree *)
Fixpoint path (fuel : nat) (h : store) (a : addr) : option (list addr) :=
  match fuel with
  | O => None
  | S fuel' =>
      t ← h !! a;
      match parent_ t with None => Some [a] | Some p => l ← path fuel' h p; Some (a :: l) end
  end.

Lemma path_chain h a l fuel : chain h a l -> (length l <= fuel)%nat -> path fuel h a = Some l.
Proof.
  intros Hc. revert fuel. induction Hc as [a t Ha Hp|a t p l Ha Hp Hc IH]; intros [|fuel] Hf; cbn in Hf; try lia;
    cbn [path]; rewrite Ha; cbn [mbind option_bind]; rewrite Hp; [done|].
  by rewrite IH by lia.
Qed.

Definition can_add (s : sched) (a c : addr) (args : child_args) : bool :=
  match tcs s !! a, tcs s !! c, path (size (tcs s)) (tcs s) a with
  | Some t, Some ct, Some l => fits (policy_ t) args && bool_decide (c ∉ l)
  | _, _, _ => false
  end.

Definition ex_add (s : sched) (e : addr * addr * child_args) : sched :=
  let '(a, c, args) := e in
  if can_add s a c args then
    match AddChild (tcs s) a c args 50 with
    | Some (h, _) => with_tcs s h (wakeup_queue_ s)
    | None => s
    end
  else s.

Definition ex_create (s : sched) (t : tc) : sched := fst (CreateTrafficClass s t).

Definition loose (s : sched) : Prop := SInv s /\ root_ s = None /\ default_rr_class_ s = None.

Lemma ex_create_loose s t : loose s -> new_class t -> loose (ex_create s t).
Proof.
  intros (HS & Hr & Hd) Ht. unfold ex_create. pose proof (CreateTrafficClass_spec s t HS Ht) as HC.
  destruct (CreateTrafficClass s t) as [s' r]. destruct HC as (? & Hr' & Hd' & _).
  split; [done|]. cbn. by rewrite Hr', Hd'.
Qed.

Lemma can_add_sound s a c args : tree (tcs s) -> can_add s a c args = true ->
  exists t ct, tcs s !! a = Some t /\ tcs s !! c = Some ct /\ fits (policy_ t) args = true /\
    (forall l, chain (tcs s) a l -> c ∉ l).
Proof.
  intros HT. unfold can_add. destruct (tcs s !! a) as [t|] eqn:Ha; [|done].
  destruct (tcs s !! c) as [ct|] eqn:Hc; [|done]. destruct (path _ _ _) as [l|] eqn:Hp; [|done].
  intros [Hf Hl%bool_decide_eq_true]%andb_true_iff. exists t, ct. do 3 (split; [done|]).
  intros l' Hl'. pose proof (path_chain _ _ _ (size (tcs s)) Hl' (chain_length _ _ _ Hl')). by simplify_eq.
Qed.

Lemma ex_add_loose s e : loose s -> loose (ex_add s e).
Proof.
  destruct e as [[a c] args]. intros (HS & Hr & Hd). unfold ex_add.
  destruct (can_add s a c args) eqn:Hcan; [|done].
  destruct (can_add_sound s a c args (inv_tree _ _ (s_inv _ HS)) Hcan) as (t & ct & Ha & Hc & Hf & Hl).
  destruct (AddChild_spec (tcs s) (wakeup_queue_ s) a c args 50 t ct (s_inv _ HS) Ha Hc Hf Hl)
    as (h' & r & -> & HI' & _ & Hm).
  split; [|done]. split; cbn; [done| | |].
  - intros r0 Hr0. congruence.
  - intros r0 Hr0. congruence.
  - intros x Hx. destruct r; [|subst h'; by apply (s_fresh _ HS)].
    destruct Hm as (? & ? & _ & _ & _ & _ & Hg). apply (grown_None _ _ _ _ Hg). by apply (s_fresh _ HS).
Qed.

Definition ex_classes : list tc :=
  [new_Priority "prio"; new_WeightedFair "wfq" RESOURCE_PACKET; new_RoundRobin "rr";
   new_RateLimit 1000000 "limit" RESOURCE_PACKET 100 10; new_Leaf "leaf0" 0; new_Leaf "leaf1" 1; new_Leaf "leaf2" 2].

(** Prio -> (0: limit -> rr -> leaf0, 1: wfq -> leaf1, leaf2) *)
Definition ex_edges : list (addr * addr * child_args) :=
  [(2, 4, RoundRobinChildArgs); (3, 2, RateLimitChildArgs); (0, 3, PriorityChildArgs 0);
   (1, 5, WeightedFairChildArgs 3); (1, 6, WeightedFairChildArgs 1); (0, 1, PriorityChildArgs 1)]%nat.

Definition ex_forest : sched :=
  fold_left ex_add ex_edges
    (fold_left ex_create ex_classes (Sched ∅ ∅ 0 None None [] 0 0 1000)).

Lemma Inv_empty : Inv ∅ [].
Proof.
  split; [split| | |split].
  - intros a t Ha. by rewrite lookup_empty in Ha.
  - intros a t c Ha. by rewrite lookup_empty in Ha.
  - intros a t c Ha. by rewrite lookup_empty in Ha.
  - intros a t Ha. by rewrite lookup_empty in Ha.
  - by apply map_Forall_empty.
  - by apply map_Forall_empty.
  - constructor.
  - by intros i j _ _ x y Hx.
  - intros a. split; [by intros ?%not_elem_of_nil|]. intros (t & Ha & _). by rewrite lookup_empty in Ha.
Qed.

Lemma ex_forest_loose : loose ex_forest.
Proof.
  unfold ex_forest.
  assert (Hadd : forall es s, loose s -> loose (fold_left ex_add es s)).
  { induction es as [|e es IH]; intros s Hs; [done|]. by apply IH, ex_add_loose. }
  apply Hadd. assert (Hcreate : forall ts s, loose s -> Forall new_class ts -> loose (fold_left ex_create ts s)).
  { induction ts as [|t ts IH]; intros s Hs Hts; [done|]. inversion Hts; subst. apply IH; [|done].
    by apply ex_create_loose. }
  apply Hcreate.
  - split; [|done]. split; cbn; [apply Inv_empty|done|done|]. intros a _. apply lookup_empty.
  - assert (Hn : forall name task, _) by
      exact (fun name task => constructors_new name RESOURCE_PACKET 1000000 100 10 task ltac:(done)).
    unfold ex_classes. repeat apply Forall_cons_2; [apply (Hn _ 0%nat)..|apply (Hn _ 1%nat)|apply (Hn _ 2%nat)|
      apply Forall_nil_2].
Qed.

(** The scheduler of the tree, at time 1000. *)
Definition ex_sched : sched := with_root ex_forest (Some 0%nat) None.

Lemma loose_root s r : loose s -> (parent_ <$> tcs s !! r) = Some None ->
  SInv (with_root s (Some r) None).
Proof.
  intros ([HI _ _ Hf] & _ & _) Hr. split; cbn; [done| |done|done]. intros r' [= <-].
  destruct (tcs s !! r) as [t|]; [|done]. exists t. cbn in Hr. by simplify_eq.
Qed.

Lemma ex_sched_ok : SInv ex_sched.
Proof. apply loose_root; [exact ex_forest_loose|vm_compute; reflexivity]. Qed.

(** Every task sends 32 packets of 64 bytes. *)
Definition ex_run (task : nat) : task_result := TaskResult false 32 16384.

Example ex_rounds :
  snd <$> ScheduleOnce ex_run 2000 ex_sched = Some (Some 4%nat) /\
  (r ← ScheduleOnce ex_run 2000 ex_sched; snd <$> ScheduleOnce ex_run 3000 r.1) = Some (Some 5%nat) /\
  (r ← ScheduleOnce ex_run 2000 ex_sched; r ← ScheduleOnce ex_run 3000 r.1;
   snd <$> ScheduleOnce ex_run 4000 r.1) = Some (Some 6%nat).
Proof. split; [|split]; vm_compute; reflexivity. Qed.

Lemma ex_run_ok : run_ok ex_run 2000 ex_sched.
Proof. split; [unfold tsc_ok; lia|]. split; [vm_compute; by split|]. intros task. cbn. lia. Qed.

(** The leaf "leaf0" below "rr" before it is attached, and the class "rr". *)
Definition ex_two : sched := ex_create (ex_create (Sched ∅ ∅ 0 None None [] 0 0 1000) (new_RoundRobin "rr")) (new_Leaf "leaf" 7).

Lemma ex_two_loose : loose ex_two.
Proof.
  unfold ex_two. apply ex_create_loose; [apply ex_create_loose|].
  - split; [|done]. split; cbn; [apply Inv_empty|done|done|]. intros a _. apply lookup_empty.
  - apply (constructors_new "rr" RESOURCE_COUNT 0 0 0 0 ltac:(done)).
  - apply (constructors_new "leaf" RESOURCE_COUNT 0 0 0 7 ltac:(done)).
Qed.

Lemma ex_two_chain l : chain (tcs ex_two) 0%nat l -> 1%nat ∉ l.
Proof.
  intros Hl. destruct (can_add_sound ex_two 0%nat 1%nat RoundRobinChildArgs) as (? & ? & _ & _ & _ & Hc).
  - destruct ex_two_loose as (HS & _). apply (s_inv _ HS).
  - vm_compute. reflexivity.
  - by apply Hc.
Qed.

Lemma add_child_invariant_witness :
  exists h' r, AddChild (tcs ex_two) 0%nat 1%nat RoundRobinChildArgs 50 = Some (h', r) /\ Inv h' [] /\ r = true.
Proof.
  destruct (add_child_invariant (tcs ex_two) [] 0%nat 1%nat RoundRobinChildArgs 50
    (new_RoundRobin "rr") (new_Leaf "leaf" 7)) as (h' & r & Ha & HI & Hr & _).
  - destruct ex_two_loose as (HS & _). apply (s_inv _ HS).
  - vm_compute. reflexivity.
  - vm_compute. reflexivity.
  - reflexivity.
  - exact ex_two_chain.
  - exists h', r. split; [exact Ha|]. split; [exact HI|]. exact Hr.
Defined.

(** Class [a] of the concrete tree. *)
Definition ex_at (a : addr) : tc := default (new_Leaf "" 0) (tcs ex_sched !! a).

Lemma remove_child_invariant_witness :
  exists h' r, RemoveChild (tcs ex_sched) 1%nat 5%nat = Some (h', r) /\ Inv h' (wakeup_queue_ ex_sched) /\
    r = bool_decide (parent_ (ex_at 5) = Some 1%nat).
Proof.
  destruct (remove_child_invariant (tcs ex_sched) (wakeup_queue_ ex_sched) 1%nat 5%nat (ex_at 1) (ex_at 5))
    as (h' & r & Hr & HI & Hb & _).
  - exact (s_inv _ ex_sched_ok).
  - vm_compute. reflexivity.
  - vm_compute. reflexivity.
  - exists h', r. split; [exact Hr|]. split; [exact HI|exact Hb].
Defined.

Lemma schedule_once_invariant_witness :
  SInv ex_sched /\ run_ok ex_run 2000 ex_sched /\
  round_post (round_usage ex_run 2000 ex_sched) ex_sched (ScheduleOnce ex_run 2000 ex_sched).
Proof.
  split; [exact ex_sched_ok|]. split; [exact ex_run_ok|].
  apply schedule_once_invariant; [exact ex_sched_ok|exact ex_run_ok].
Defined.

Definition ex_idle_run (task : nat) : task_result := TaskResult true 0 0.

Lemma experimental_schedule_once_invariant_witness :
  round_post (fun task => if sleeps ex_idle_run task then [0; 0; 0; 0] else round_usage ex_idle_run 2000 ex_sched task)
    ex_sched (ExperimentalScheduleOnce ex_idle_run 2000 ex_sched) /\
  (r ← ExperimentalScheduleOnce ex_idle_run 2000 ex_sched; Some (wakeup_queue_ (fst r))) = Some [4%nat].
Proof.
  split; [|vm_compute; reflexivity].
  apply experimental_schedule_once_invariant; [exact ex_sched_ok|].
  split; [unfold tsc_ok; lia|]. split; [vm_compute; by split|]. intros task. cbn. lia.
Defined.

Lemma next_work_conserving_witness :
  exists s' leaf, Next ex_sched 1000 = Some (s', leaf) /\ SInv s'.
Proof.
  destruct (next_work_conserving ex_sched 1000 ex_sched_ok) as (s' & r & HN & HS & _).
  exists s', r. split; [exact HN|exact HS].
Defined.

Lemma pick_next_child_policy_witness :
  exists p, (p, 3%nat) ∈ [(0, 3%nat); (1, 1%nat)] /\
    forall p' c', (p', c') ∈ [(0, 3%nat); (1, 1%nat)] -> p' < p -> bl (tcs ex_sched) c' = true.
Proof.
  apply (pick_next_child_policy (tcs ex_sched) (wakeup_queue_ ex_sched) 0%nat
    (Tc None "prio" [0; 0; 0; 0] 0 0 false (Priority 0 [(0, 3%nat); (1, 1%nat)])) 3%nat).
  - exact (s_inv _ ex_sched_ok).
  - vm_compute. reflexivity.
  - reflexivity.
Defined.

(** The scheduler after the rate limiter has throttled itself. *)
Definition ex_throttled : sched :=
  match ScheduleOnce ex_run 2000 ex_sched with Some (s, _) => s | None => ex_sched end.

Lemma ex_throttled_ok : SInv ex_throttled.
Proof.
  unfold ex_throttled. destruct (ScheduleOnce_spec ex_run 2000 ex_sched ex_sched_ok ex_run_ok)
    as (s' & leaf & -> & HS & _). exact HS.
Qed.

Lemma wake_tcs_due_witness :
  (exists h' q', WakeTCs (10 ^ 9) (tcs ex_throttled) (wakeup_queue_ ex_throttled) = Some (h', q') /\ Inv h' q') /\
  wakeup_queue_ ex_throttled = [3%nat].
Proof.
  split; [|vm_compute; reflexivity].
  destruct (wake_tcs_due (10 ^ 9) (tcs ex_throttled) (wakeup_queue_ ex_throttled) (s_inv _ ex_throttled_ok))
    as (h' & q' & Hw & HI & _). exists h', q'. split; [exact Hw|exact HI].
Defined.

Definition ex_bucket : tc :=
  Tc None "limit" [0; 0; 0; 0] 0 0 false (RateLimit RESOURCE_PACKET 429496 100 (10 * 2 ^ 32) 10 0 1000 (Some 2%nat)).

(** A class below a rate limiter that wakes up sets [last_tsc_] back to its own wake-up time, which may be before
    the last refill: here the 1000 cycles before tick 5000, in which the limiter has just been refilled, count once
    more. *)
Lemma rate_limit_refills_twice :
  (r ← RateLimitFinish (tcs ex_sched) 2%nat [1; 1000; 0; 0] 5000 RESOURCE_PACKET 429496 100 (10 * 2 ^ 32) 10 0 4000 (Some 2%nat) ex_bucket;
   p ← unblock_policy (tcs ex_sched) 4000 r.1;
   r2 ← RateLimitFinish (tcs ex_sched) 2%nat [1; 1000; 0; 0] 5000 RESOURCE_PACKET 429496 100 (10 * 2 ^ 32) 10 (429496 * 1000) 4000 (Some 2%nat) (set_policy p.1 r.1);
   Some (bucket r.1, bucket (set_policy p.1 r.1), bucket r2.1)) =
  Some (Some (429496, 10 * 2 ^ 32, 429496 * 1000, 5000), Some (429496, 10 * 2 ^ 32, 429496 * 1000, 4000),
        Some (429496, 10 * 2 ^ 32, 429496 * 2000, 5000)).
Proof. vm_compute. reflexivity. Qed.

Lemma attach_orphan_invariant_witness :
  exists s', AttachOrphan ex_two 1%nat 0 50 = Some (s', true) /\ SInv s'.
Proof.
  destruct ex_two_loose as (HS & Hr & Hd).
  destruct (attach_orphan_invariant ex_two 1%nat (new_Leaf "leaf" 7) 0 50 HS) as (s' & Ha & HS' & _).
  - vm_compute. reflexivity.
  - reflexivity.
  - rewrite Hr. discriminate.
  - intros _. vm_compute. reflexivity.
  - exists s'. split; [exact Ha|exact HS'].
Defined.

Lemma adjust_default_invariant_witness : exists s', AdjustDefault ex_sched = Some s' /\ SInv s'.
Proof.
  destruct (adjust_default_invariant ex_sched ex_sched_ok) as (s' & Ha & HS & _).
  - intros rr t Hrr. discriminate Hrr.
  - exists s'. split; [exact Ha|exact HS].
Defined.
