(* ===== verification/TcControl.v ===== *)
(** The control plane of traffic classes: the handlers [AddTc], [UpdateTcParams],
    [UpdateTcParent] and [ResetTcs] of [core/bessctl.cc], with the orphans of
    [core/worker.cc].

    The model is of a BESS with one active worker, [wid0]: its scheduler holds the classes of
    Scheduler.v.  A handler gives the state and the reply; [None] is what the standard
    leaves undefined, as in Scheduler.v. *)
From stdpp Require Import strings pretty.
From S2P Require Import Prelude Common PriorityQueue TrafficClass TrafficClassFacts TrafficTree Scheduler.
Open Scope Z_scope.

Inductive tc_errno := TC_EINVAL | TC_ENOENT | TC_EPERM | TC_ENOMEM | TC_EBUSY.
Abbreviation reply := (tc_errno + unit)%type.

(** [bess::pb::TrafficClass] *)
Inductive pb_tc_arg := arg_unset | arg_priority (p : Z) | arg_share (s : Z).
Record pb_tc := MkPbTc {
  pb_name : string; pb_parent : string; pb_policy : string; pb_resource : string; pb_arg : pb_tc_arg; pb_wid : Z;
  pb_limit : gmap string Z; pb_max_burst : gmap string Z; pb_leaf_module : string; pb_taskid : Z }.

Definition kMaxWorkers : Z := 64.
Definition kAnyWorker : Z := -1.
Definition MAX_TASKS_PER_MODULE : Z := 32.
Definition DEFAULT_PRIORITY : Z := 0xFFFFFFFF.

Definition ResourceMap (s : string) : option resource_t :=
  if bool_decide (s = "count"%string) then Some RESOURCE_COUNT
  else if bool_decide (s = "cycle"%string) then Some RESOURCE_CYCLE
  else if bool_decide (s = "packet"%string) then Some RESOURCE_PACKET
  else if bool_decide (s = "bit"%string) then Some RESOURCE_BIT
  else None.

Definition TrafficPolicyName (p : TrafficPolicy) : string :=
  match p with
  | POLICY_PRIORITY => "priority" | POLICY_WEIGHTED_FAIR => "weighted_fair" | POLICY_ROUND_ROBIN => "round_robin"
  | POLICY_RATE_LIMIT => "rate_limit" | POLICY_LEAF => "leaf"
  end.

Record control := MkControl { sch : sched; orphan_tcs : list (Z * addr) }.

Section handlers.
(** The worker, the frequency of its clock, the reading of the clock, and the modules by name,
    each with the class of each of its tasks. *)
Context (wid0 : Z) (tsc_hz tsc : Z) (modules : gmap string (list (option addr))).

(** ** Orphans *)
Definition add_tc_to_orphan (s : control) (c : addr) (wid : Z) : control := MkControl (sch s) (orphan_tcs s ++ [(wid, c)]).

Fixpoint erase_orphan (c : addr) (l : list (Z * addr)) : list (Z * addr) * bool :=
  match l with
  | [] => ([], false)
  | x :: l => if bool_decide (x.2 = c) then (l, true) else let r := erase_orphan c l in (x :: r.1, r.2)
  end.
Definition remove_tc_from_orphan (s : control) (c : addr) : control * bool :=
  let r := erase_orphan c (orphan_tcs s) in (MkControl (sch s) r.1, r.2).

(** With one worker, every orphan goes to it. *)
Fixpoint attach_loop (s : sched) (l : list (Z * addr)) : option sched :=
  match l with
  | [] => Some s
  | (_, c) :: l =>
      t ← tcs s !! c;
      match parent_ t with
      | Some _ => attach_loop s l
      | None => r ← AttachOrphan s c (Z.to_N wid0) tsc; attach_loop r.1 l
      end
  end.
Definition attach_orphans (s : control) : option control :=
  s' ← attach_loop (sch s) (orphan_tcs s); Some (MkControl s' []).

Definition detach_tc (s : control) (c : addr) : option (control * bool) :=
  t ← tcs (sch s) !! c;
  match parent_ t with
  | Some p =>
      r ← RemoveChild (tcs (sch s)) p c;
      Some (MkControl (with_tcs (sch s) r.1 (wakeup_queue_ (sch s))) (orphan_tcs s), r.2)
  | None =>
      let r := RemoveRoot (sch s) c in
      if r.2 then Some (MkControl r.1 (orphan_tcs s), true) else Some (remove_tc_from_orphan s c)
  end.

(** [Module::RegisterTask], for a module with [n] tasks; [None] is the null class that a name in
    use gives. *)
Definition leaf_name (module : string) (n : nat) : string := "!leaf_" ++ module ++ ":" ++ pretty n.
Definition RegisterTask (s : control) (module : string) (n task : nat) : option control :=
  let '(s', c) := CreateTrafficClass (sch s) (new_Leaf (leaf_name module n) task) in
  c ← c; Some (add_tc_to_orphan (MkControl s' (orphan_tcs s)) c kAnyWorker).

(** ** AttachTc *)

(** The unique pointer deletes the class when the function returns with an error. *)
Definition fail_attach (s : control) (c : addr) (e : tc_errno) : option (control * reply) :=
  s' ← delete_tc (sch s) c; Some (MkControl s' (orphan_tcs s), inl e).

(** The arguments for the parent's [AddChild], or the error. *)
Definition child_arguments (parent : tc) (m : pb_tc) : tc_errno + child_args :=
  match policy_tag (policy_ parent) with
  | POLICY_PRIORITY =>
      match pb_arg m with
      | arg_priority p => if u32 p =? DEFAULT_PRIORITY then inl TC_EINVAL else inr (PriorityChildArgs (u32 p))
      | _ => inl TC_EINVAL
      end
  | POLICY_WEIGHTED_FAIR => match pb_arg m with arg_share s => inr (WeightedFairChildArgs (to_int s)) | _ => inl TC_EINVAL end
  | POLICY_ROUND_ROBIN => inr RoundRobinChildArgs
  | POLICY_RATE_LIMIT => inr RateLimitChildArgs
  | POLICY_LEAF => inl TC_EPERM
  end.

Definition AttachTc (s : control) (c : addr) (m : pb_tc) : option (control * reply) :=
  let wid := to_int (pb_wid m) in
  if bool_decide (pb_parent m = ""%string) then
    if negb (wid =? kAnyWorker) && ((wid <? 0) || (kMaxWorkers <=? wid)) then fail_attach s c TC_EINVAL
    else if negb (wid =? kAnyWorker) && negb (wid =? wid0) then fail_attach s c TC_EINVAL
    else Some (add_tc_to_orphan s c wid, inr tt)
  else if negb (wid =? kAnyWorker) then fail_attach s c TC_EINVAL
  else
    match all_tcs_ (sch s) !! pb_parent m with
    | None => fail_attach s c TC_ENOENT
    | Some parent =>
        pt ← tcs (sch s) !! parent;
        match child_arguments pt m with
        | inl e => fail_attach s c e
        | inr args =>
            '(h, ok) ← AddChild (tcs (sch s)) parent c args tsc;
            let s := MkControl (with_tcs (sch s) h (wakeup_queue_ (sch s))) (orphan_tcs s) in
            if ok : bool then Some (s, inr tt) else fail_attach s c TC_EINVAL
        end
    end.

(** ** AddTc *)

(** The new class of a request, or the error. *)
Definition make_class (m : pb_tc) : tc_errno + tc :=
  let policy := pb_policy m in
  if bool_decide (policy = TrafficPolicyName POLICY_PRIORITY) then inr (new_Priority (pb_name m))
  else if bool_decide (policy = TrafficPolicyName POLICY_WEIGHTED_FAIR) then
    match ResourceMap (pb_resource m) with Some res => inr (new_WeightedFair (pb_name m) res) | None => inl TC_EINVAL end
  else if bool_decide (policy = TrafficPolicyName POLICY_ROUND_ROBIN) then inr (new_RoundRobin (pb_name m))
  else if bool_decide (policy = TrafficPolicyName POLICY_RATE_LIMIT) then
    match ResourceMap (pb_resource m) with
    | Some res =>
        inr (new_RateLimit tsc_hz (pb_name m) res (u64 (default 0 (pb_limit m !! pb_resource m)))
          (u64 (default 0 (pb_max_burst m !! pb_resource m))))
    | None => inl TC_EINVAL
    end
  else inl TC_EINVAL.

Definition reserved (name : string) : bool :=
  match name with String c _ => bool_decide (c = Ascii.ascii_of_nat 33) | EmptyString => false end.

Definition AddTc_body (s : control) (m : pb_tc) : option (control * reply) :=
  if bool_decide (pb_name m = ""%string) then Some (s, inl TC_EINVAL)
  else if reserved (pb_name m) then Some (s, inl TC_EINVAL)
  else match Find (sch s) (pb_name m) with
  | Some _ => Some (s, inl TC_EINVAL)
  | None =>
      match make_class m with
      | inl e => Some (s, inl e)
      | inr t =>
          let '(s', c) := CreateTrafficClass (sch s) t in
          match c with
          | None => Some (MkControl s' (orphan_tcs s), inl TC_ENOMEM)
          | Some c => AttachTc (MkControl s' (orphan_tcs s)) c m
          end
      end
  end.

(** The destructor of [WorkerPauser] attaches the orphans after each handler. *)
Definition handler (r : option (control * reply)) : option (control * reply) :=
  '(s, e) ← r; s ← attach_orphans s; Some (s, e).

Definition AddTc (s : control) (m : pb_tc) : option (control * reply) := handler (AddTc_body s m).

(** ** UpdateTcParams and UpdateTcParent *)
Definition FindTc (s : control) (m : pb_tc) : tc_errno + addr :=
  if (0 <? String.length (pb_name m))%nat then
    match all_tcs_ (sch s) !! pb_name m with Some c => inr c | None => inl TC_ENOENT end
  else if (0 <? String.length (pb_leaf_module m))%nat then
    match modules !! pb_leaf_module m with
    | None => inl TC_ENOENT
    | Some tasks =>
        let tid := u16 (pb_taskid m) in
        if MAX_TASKS_PER_MODULE <=? tid then inl TC_EINVAL
        else match tasks !! Z.to_nat tid with
        | Some (Some c) => inr c
        | _ => inl TC_ENOENT
        end
    end
  else inl TC_EINVAL.

Definition set_resource (res : resource_t) (t : tc) : tc :=
  match policy_ t with
  | WeightedFair _ r b all => set_policy (WeightedFair res r b all) t
  | RateLimit _ l la mb mba tk lt c => set_policy (RateLimit res l la mb mba tk lt c) t
  | _ => t
  end.

(** [set_limit] and [set_max_burst], for what the request gives for its resource. *)
Definition update_limits (m : pb_tc) (t : tc) : tc :=
  let t := match pb_limit m !! pb_resource m with Some limit => set_limit tsc_hz (u64 limit) t | None => t end in
  match pb_max_burst m !! pb_resource m with Some burst => set_max_burst (u64 burst) t | None => t end.

Definition UpdateTcParams_body (s : control) (m : pb_tc) : option (control * reply) :=
  match FindTc s m with
  | inl e => Some (s, inl e)
  | inr c =>
      t ← tcs (sch s) !! c;
      let with_class (t : tc) := MkControl (with_tcs (sch s) (<[c := t]> (tcs (sch s))) (wakeup_queue_ (sch s))) (orphan_tcs s) in
      match policy_tag (policy_ t), ResourceMap (pb_resource m) with
      | POLICY_RATE_LIMIT, Some res => Some (with_class (update_limits m (set_resource res t)), inr tt)
      | POLICY_WEIGHTED_FAIR, Some res => Some (with_class (set_resource res t), inr tt)
      | _, _ => Some (s, inl TC_EINVAL)
      end
  end.
Definition UpdateTcParams (s : control) (m : pb_tc) : option (control * reply) := handler (UpdateTcParams_body s m).

Definition UpdateTcParent_body (s : control) (m : pb_tc) : option (control * reply) :=
  match FindTc s m with
  | inl e => Some (s, inl e)
  | inr c =>
      t ← tcs (sch s) !! c;
      '(s, ok) ← match policy_tag (policy_ t) with
                 | POLICY_LEAF => detach_tc s c
                 | _ => Some (remove_tc_from_orphan s c)
                 end;
      if ok : bool then AttachTc s c m else Some (s, inl TC_EINVAL)
  end.
Definition UpdateTcParent (s : control) (m : pb_tc) : option (control * reply) := handler (UpdateTcParent_body s m).

(** [ClearAll] forgets the names. *)
Definition ResetTcs (s : control) : option (control * reply) :=
  handler (Some (MkControl (Sched (tcs (sch s)) ∅ (new_addr_ (sch s)) (root_ (sch s)) (default_rr_class_ (sch s))
                              (wakeup_queue_ (sch s)) (cnt_idle_ (sch s)) (cycles_idle_ (sch s)) (checkpoint_ (sch s)))
                           (orphan_tcs s), inr tt)).

(** ** The invariant between two requests *)
Definition default_name : string := ("!default_rr_" ++ pretty (Z.to_N wid0))%string.

(** Every name is of a class that exists, and the reserved one is free when it is needed. *)
Record names_ok (s : sched) : Prop := {
  nm_present : forall n a, all_tcs_ s !! n = Some a -> is_Some (tcs s !! a);
  nm_default : default_rr_class_ s = None -> all_tcs_ s !! default_name = None }.

Record CInv (s : control) : Prop := {
  ci_sched : SInv (sch s);
  ci_names : names_ok (sch s);
  ci_orphans : orphan_tcs s = [] }.

(** What a refused request leaves behind: everything but the counter of addresses. *)
Record unchanged (s s' : sched) : Prop := {
  un_tcs : tcs s' = tcs s;
  un_names : all_tcs_ s' = all_tcs_ s;
  un_root : root_ s' = root_ s;
  un_default : default_rr_class_ s' = default_rr_class_ s;
  un_queue : wakeup_queue_ s' = wakeup_queue_ s;
  un_fresh : (new_addr_ s <= new_addr_ s')%nat }.

Lemma unchanged_refl s : unchanged s s.
Proof. by split. Qed.

Lemma grown_present h h' a c x : grown h h' a c -> is_Some (h !! x) -> is_Some (h' !! x).
Proof. intros Hg [t Ht]. destruct (grown_Some _ _ _ _ Hg x t Ht) as (t' & ? & _). by exists t'. Qed.

(** A class that is not the root gains or loses its parent. *)
Lemma SInv_child s h a c : SInv s -> Inv h (wakeup_queue_ s) -> grown (tcs s) h a c -> root_ s <> Some c ->
  SInv (with_tcs s h (wakeup_queue_ s)).
Proof.
  intros [HI Hr Hd Hf] HI' Hg Hc. split; cbn.
  - done.
  - intros r Hro. destruct (Hr r Hro) as (tr & Htr & Hrp).
    destruct (grown_Some _ _ _ _ Hg r tr Htr) as (tr' & ? & Hpp & _). exists tr'. split; [done|].
    rewrite Hpp; [done|congruence].
  - intros rr Hrr. destruct (Hd rr Hrr) as (? & tr & Htr & Htag). split; [done|].
    destruct (grown_Some _ _ _ _ Hg rr tr Htr) as (tr' & ? & _ & _ & Htag' & _). exists tr'. split; [done|congruence].
  - intros x Hx. by apply (grown_None _ _ _ _ Hg), Hf.
Qed.

Lemma ResourceMap_real s r : ResourceMap s = Some r -> r <> NUM_RESOURCES.
Proof. unfold ResourceMap. repeat case_bool_decide; by intros [= <-]. Qed.

Lemma make_class_new m t : make_class m = inr t -> new_class t /\ name_ t = pb_name m.
Proof.
  assert (HC : forall res, res <> NUM_RESOURCES -> _) by exact (fun res => constructors_new (pb_name m) res tsc_hz
    (u64 (default 0 (pb_limit m !! pb_resource m))) (u64 (default 0 (pb_max_burst m !! pb_resource m))) 0).
  destruct (HC RESOURCE_COUNT) as (Hp & _ & Hr & _); [done|].
  unfold make_class. repeat case_bool_decide; [by intros [= <-]| |by intros [= <-]| |done];
    (destruct (ResourceMap _) as [res|] eqn:Hres; [|done]); intros [= <-];
    destruct (HC res (ResourceMap_real _ _ Hres)) as (_ & ? & _ & ? & _); done.
Qed.

(** A class that was just created is nobody's ancestor. *)
Lemma new_no_ancestor h a t p : tree h -> h !! a = None -> is_Some (h !! p) -> forall l, chain (<[a := t]> h) p l -> a ∉ l.
Proof.
  intros HT Ha Hp l Hl. induction Hl as [y tx Hx Hpx|y tx p' l Hx Hpx Hl IH].
  - intros ->%list_elem_of_singleton. rewrite Ha in Hp. by destruct Hp.
  - assert (y <> a) as Hxa by (intros ->; rewrite Ha in Hp; by destruct Hp).
    rewrite lookup_insert_ne in Hx by done. intros [->|Hin]%elem_of_cons; [done|]. revert Hin. apply IH.
    destruct (tree_parent h HT y tx p' Hx Hpx) as (t' & ? & _). by exists t'.
Qed.

(** [AttachOrphan] keeps the names. *)
Lemma AttachOrphan_names s c ct : SInv s -> names_ok s -> tcs s !! c = Some ct -> parent_ ct = None -> root_ s <> Some c ->
  exists s', AttachOrphan s c (Z.to_N wid0) tsc = Some (s', true) /\ SInv s' /\ names_ok s' /\
    (forall n, n <> default_name -> all_tcs_ s' !! n = all_tcs_ s !! n) /\
    exists root ct', root_ s' = Some root /\ tcs s' !! c = Some ct' /\ (c = root \/ parent_ ct' = Some root).
Proof.
  intros HS HN Hc Hcp Hroot.
  destruct (AttachOrphan_spec s c ct (Z.to_N wid0) tsc HS Hc Hcp Hroot) as (s' & Hs' & HS' & Hc'); [apply HN|].
  exists s'. do 2 (split; [done|]).
  enough (names_ok s' /\ (forall n, n <> default_name -> all_tcs_ s' !! n = all_tcs_ s !! n)) as [? ?] by done.
  destruct HS as [HI Hr Hd Hf], HN as [Hpr Hdn]. unfold AttachOrphan in Hs'.
  destruct (root_ s) as [root|] eqn:Hro; [destruct (default_rr_class_ s) as [rr|] eqn:Hrr|].
  - destruct (Hd rr eq_refl) as ([= ->] & trr & Htrr & Htag).
    destruct (Hr rr eq_refl) as (trr' & ? & Hrp). simplify_eq.
    destruct (adopt_spec (tcs s) (wakeup_queue_ s) rr c trr ct tsc) as (h' & ? & ? & Ha & _ & _ & _ & _ & _ & _ & Hg);
      try done; [congruence|].
    rewrite Ha in Hs'. cbn in Hs'. injection Hs' as <-. split; [|done]. split; cbn; [|congruence].
    intros n y Hx. by eapply grown_present, Hpr.
  - destruct (Hr root eq_refl) as (trt & Hrt & Hrp). unfold CreateTrafficClass in Hs'. cbn in Hs'.
    change ("!default_rr_" ++ pretty (Z.to_N wid0))%string with default_name in Hs'. rewrite Hdn in Hs' by done.
    set (rr := new_addr_ s) in *. set (trr := new_RoundRobin default_name) in *.
    assert (Hnew : tcs s !! rr = None) by (apply Hf; unfold rr; lia).
    assert (Hne1 : rr <> root) by congruence. assert (Hne2 : rr <> c) by congruence.
    assert (HI' : Inv (<[rr := trr]> (tcs s)) (wakeup_queue_ s)).
    { apply Inv_new; [done..|]. by apply (constructors_new default_name RESOURCE_COUNT 0 0 0 0). }
    cbn [tcs mbind option_bind fst snd] in Hs'.
    destruct (adopt_spec (<[rr := trr]> (tcs s)) (wakeup_queue_ s) rr root trr trt tsc) as
      (h1 & t1 & rt1 & Ha1 & HI1 & Ht1 & Hp1 & Htag1 & _ & _ & Hg1);
      try done; [by rewrite lookup_insert_eq|by rewrite lookup_insert_ne|].
    rewrite Ha1 in Hs'. cbn [mbind option_bind fst snd] in Hs'.
    destruct (grown_Some _ _ _ _ Hg1 c ct) as (ct1 & Hct1 & Hcp1 & _); [by rewrite lookup_insert_ne|].
    destruct (adopt_spec h1 (wakeup_queue_ s) rr c t1 ct1 tsc) as (h2 & ? & ? & Ha2 & _ & _ & _ & _ & _ & _ & Hg2);
      try done; [rewrite Hcp1; [done|congruence]|].
    rewrite Ha2 in Hs'. cbn in Hs'. injection Hs' as <-. split; [split; cbn; [|done]|].
    + intros n y Hx. eapply grown_present; [exact Hg2|]. eapply grown_present; [exact Hg1|].
      destruct (decide (y = rr)) as [->|]; [by rewrite lookup_insert_eq|]. rewrite lookup_insert_ne by done.
      destruct (decide (n = default_name)) as [->|]; [|rewrite lookup_insert_ne in Hx by done; by eapply Hpr].
      rewrite lookup_insert_eq in Hx. congruence.
    + intros n Hn. cbn. by rewrite lookup_insert_ne.
  - injection Hs' as <-. split; [|done]. by split.
Qed.

Lemma unchanged_CInv s s' o : CInv s -> unchanged (sch s) s' -> o = [] -> CInv (MkControl s' o).
Proof.
  intros [[HI Hr Hd Hf] [Hp Hn] _] [Ht Ha Hro Hde Hq Hfr] ->. split; [split|split|done]; cbn.
  - by rewrite Ht, Hq.
  - rewrite Ht, Hro. apply Hr.
  - rewrite Ht, Hro, Hde. apply Hd.
  - intros a ?. rewrite Ht. apply Hf. lia.
  - rewrite Ht, Ha. apply Hp.
  - rewrite Ha, Hde. apply Hn.
Qed.

(** ** A new class *)
Section created.
(** The request [m] made the class [t], at address [c]. *)
Context (s : control) (m : pb_tc) (t : tc).
Hypothesis (HC : CInv s) (Hnew : new_class t) (Hname : name_ t = pb_name m).
Hypothesis (Hfree : all_tcs_ (sch s) !! pb_name m = None) (Hdef : pb_name m <> default_name).
Let c : addr := new_addr_ (sch s).
Let s1 : sched := (CreateTrafficClass (sch s) t).1.

Lemma created_eq : CreateTrafficClass (sch s) t = (s1, Some c) /\ tcs s1 = <[c := t]> (tcs (sch s)) /\
  all_tcs_ s1 = <[pb_name m := c]> (all_tcs_ (sch s)) /\ SInv s1 /\ names_ok s1 /\ root_ s1 <> Some c.
Proof.
  destruct HC as [HS [Hp Hn] _].
  pose proof (CreateTrafficClass_spec (sch s) t HS Hnew) as HCr. unfold s1 in *. unfold CreateTrafficClass in *.
  rewrite Hname, Hfree in *. cbn [fst]. destruct HCr as (HS1 & _).
  split; [done|]. split; [done|]. split; [done|]. split; [done|]. split; [split|]; cbn.
  - intros n a [[<- <-]|[_ Ha]]%lookup_insert_Some; [by rewrite lookup_insert_eq|].
    apply Hp in Ha. apply lookup_insert_is_Some. destruct (decide (new_addr_ (sch s) = a)); [by left|by right].
  - intros ?. rewrite lookup_insert_ne by done. by apply Hn.
  - intros Hr. destruct (s_root _ HS _ Hr) as (? & Hx & _). unfold c in Hx. rewrite (s_fresh _ HS) in Hx by lia. done.
Qed.

Lemma created_fresh : tcs (sch s) !! c = None.
Proof. apply (s_fresh _ (ci_sched _ HC)). unfold c. lia. Qed.

Lemma created_refused e : exists s', fail_attach (MkControl s1 (orphan_tcs s)) c e = Some (MkControl s' (orphan_tcs s), inl e) /\
  unchanged (sch s) s'.
Proof.
  destruct created_eq as (Hcr & Ht1 & Ha1 & HS1 & _). destruct Hnew as (Hp & Hk & _ & Hw & _).
  assert (Hc : tcs s1 !! c = Some t) by (by rewrite Ht1, lookup_insert_eq).
  destruct (delete_tc_spec s1 c t HS1 Hc Hp Hk Hw) as [Hd _].
  unfold fail_attach. cbn [sch orphan_tcs]. rewrite Hd. eexists. split; [done|].
  unfold CreateTrafficClass in Hcr. rewrite Hname, Hfree in Hcr. injection Hcr as <-.
  split; cbn; try done; [by rewrite delete_insert_id by exact created_fresh| |lia].
  by rewrite Hname, delete_insert_id.
Qed.

Lemma created_child p args pt (Hargs : child_arguments pt m = inr args) (Hpt : tcs s1 !! p = Some pt) (Hp : p <> c) :
  exists h ok, AddChild (tcs s1) p c args tsc = Some (h, ok) /\
    if ok then let s' := with_tcs s1 h (wakeup_queue_ s1) in SInv s' /\ names_ok s' /\
      exists ct, h !! c = Some ct /\ parent_ ct = Some p
    else h = tcs s1.
Proof.
  destruct created_eq as (_ & Ht1 & Ha1 & HS1 & [Hn Hdn] & Hr). pose proof created_fresh as Hfr.
  assert (Hpo : is_Some (tcs (sch s) !! p)) by (rewrite Ht1, lookup_insert_ne in Hpt by done; by exists pt).
  destruct (AddChild_spec (tcs s1) (wakeup_queue_ s1) p c args tsc pt t) as (h & ok & Ha & HI & _ & Hm).
  - apply HS1.
  - done.
  - by rewrite Ht1, lookup_insert_eq.
  - unfold child_arguments in Hargs. by destruct (policy_ pt); cbn in *; repeat case_match; simplify_eq.
  - rewrite Ht1. apply new_no_ancestor; [apply HC|done|done].
  - exists h, ok. split; [done|]. destruct ok; [|done]. destruct Hm as (pt' & ct & Hp' & Hc' & _ & Hpar & Hg).
    split; [by eapply SInv_child|split; [split; cbn; [|done]|by exists ct]].
    intros n a Hna. by eapply grown_present, Hn.
Qed.
End created.

(** What [AttachTc] leaves of a new class: it is named, and an orphan, or a child of the class
    that the request names. *)
Definition attached_new (s : control) (m : pb_tc) (s' : control) : Prop :=
  SInv (sch s') /\ names_ok (sch s') /\ root_ (sch s') <> Some (new_addr_ (sch s)) /\
  all_tcs_ (sch s') = <[pb_name m := new_addr_ (sch s)]> (all_tcs_ (sch s)) /\
  exists ct, tcs (sch s') !! new_addr_ (sch s) = Some ct /\
    if bool_decide (pb_parent m = ""%string)
    then parent_ ct = None /\ orphan_tcs s' = [(to_int (pb_wid m), new_addr_ (sch s))]
    else parent_ ct = all_tcs_ (sch s) !! pb_parent m /\ orphan_tcs s' = [].

Definition added (s : control) (m : pb_tc) (r : option (control * reply)) : Prop := exists s' e, r = Some (s', e) /\
  match e with
  | inl _ => unchanged (sch s) (sch s') /\ orphan_tcs s' = []
  | inr _ => all_tcs_ (sch s) !! pb_name m = None /\ pb_name m <> default_name /\ attached_new s m s'
  end.

Lemma AddTc_body_spec s m : CInv s -> pb_parent m <> pb_name m -> added s m (AddTc_body s m).
Proof.
  intros HC Hself. pose proof (ci_orphans _ HC) as Ho.
  assert (Hid : forall e, added s m (Some (s, inl e))).
  { intros e. exists s, (inl e). split; [done|]. split; [apply unchanged_refl|done]. }
  unfold AddTc_body. case_bool_decide as Hempty; [apply Hid|]. destruct (reserved (pb_name m)) eqn:Hres; [apply Hid|].
  assert (Hdef : pb_name m <> default_name) by (intros Hn; by rewrite Hn in Hres).
  unfold Find. destruct (all_tcs_ (sch s) !! pb_name m) eqn:Hfree; [apply Hid|].
  destruct (make_class m) as [e|t] eqn:Hmk; [apply Hid|]. destruct (make_class_new m t Hmk) as [Hnew Hname].
  destruct (created_eq s m t HC Hnew Hname Hfree Hdef) as (Hcr & Ht1 & Ha1 & HS1 & HN1 & Hr1).
  pose proof (created_refused s m t HC Hnew Hname Hfree Hdef) as Hrefused.
  pose proof (created_child s m t HC Hnew Hname Hfree Hdef) as Hchild.
  rewrite Hcr. set (c := new_addr_ (sch s)) in *. set (s1 := (CreateTrafficClass (sch s) t).1) in *.
  assert (Hfail : forall e, added s m (fail_attach (MkControl s1 (orphan_tcs s)) c e)).
  { intros e. destruct (Hrefused e) as (s' & -> & Hun). by eexists _, (inl e). }
  unfold AttachTc. cbn [sch orphan_tcs]. case_bool_decide as Hpar.
  - destruct (_ && (_ || _)); [apply Hfail|]. destruct (_ && _); [apply Hfail|].
    eexists _, (inr tt). split; [done|]. split; [done|]. split; [done|].
    unfold attached_new, add_tc_to_orphan. cbn. do 4 (split; [done|]). exists t. rewrite Ht1, lookup_insert_eq.
    rewrite bool_decide_true by done. rewrite Ho. by destruct Hnew.
  - destruct (negb _); [apply Hfail|]. rewrite Ha1, lookup_insert_ne by done.
    destruct (all_tcs_ (sch s) !! pb_parent m) as [p|] eqn:Hp; [|apply Hfail].
    destruct (nm_present _ (ci_names _ HC) _ _ Hp) as [pt Hpt].
    assert (Hpc : p <> c) by (intros ->; unfold c in Hpt; by rewrite (created_fresh s HC) in Hpt).
    assert (Hpt1 : tcs s1 !! p = Some pt) by (by rewrite Ht1, lookup_insert_ne).
    rewrite Hpt1. cbn [mbind option_bind]. destruct (child_arguments pt m) as [e|args] eqn:Hargs; [apply Hfail|].
    destruct (Hchild p args pt Hargs Hpt1 Hpc) as (h & ok & -> & Hok). cbn [mbind option_bind].
    destruct ok.
    + destruct Hok as (HS' & HN' & ct & Hct & Hcp). eexists _, (inr tt). split; [done|]. split; [done|]. split; [done|].
      unfold attached_new. cbn. do 4 (split; [done|]). exists ct. by rewrite bool_decide_false, Hp by done.
    + subst h. replace (with_tcs s1 (tcs s1) (wakeup_queue_ s1)) with s1 by (by destruct s1). apply Hfail.
Qed.

(** A class that was created and is the one orphan. *)
Lemma attach_created s c ct wid : SInv s -> names_ok s -> tcs s !! c = Some ct -> parent_ ct = None -> root_ s <> Some c ->
  exists s', attach_orphans (MkControl s [(wid, c)]) = Some (MkControl s' []) /\ CInv (MkControl s' []) /\
    (forall n, n <> default_name -> all_tcs_ s' !! n = all_tcs_ s !! n) /\
    exists root ct', root_ s' = Some root /\ tcs s' !! c = Some ct' /\ (c = root \/ parent_ ct' = Some root).
Proof.
  intros HS HN Hct Hp Hr.
  destruct (AttachOrphan_names s c ct HS HN Hct Hp Hr) as (s2 & He & HS2 & HN2 & Hnm & Hc).
  exists s2. unfold attach_orphans. cbn [sch orphan_tcs attach_loop]. rewrite Hct. cbn [mbind option_bind].
  rewrite Hp, He. by split.
Qed.

Lemma RegisterTask_CInv s module n task : CInv s -> all_tcs_ (sch s) !! leaf_name module n = None ->
  exists s', (s1 ← RegisterTask s module n task; attach_orphans s1) = Some s' /\ CInv s' /\
    all_tcs_ (sch s') !! leaf_name module n = Some (new_addr_ (sch s)).
Proof.
  intros HC Hfree. set (m := MkPbTc (leaf_name module n) "" "" "" arg_unset 0 ∅ ∅ "" 0).
  assert (Hnew : new_class (new_Leaf (leaf_name module n) task)) by (by apply (constructors_new _ RESOURCE_COUNT 0 0 0)).
  destruct (created_eq s m _ HC Hnew) as (Hcr & Ht1 & Ha1 & HS1 & HN1 & Hr1); try done.
  unfold RegisterTask. rewrite Hcr. cbn [mbind option_bind]. unfold add_tc_to_orphan. cbn [sch orphan_tcs].
  rewrite (ci_orphans _ HC). cbn [app].
  destruct (attach_created _ (new_addr_ (sch s)) (new_Leaf (leaf_name module n) task) kAnyWorker HS1 HN1) as (s' & -> & HC' & Hnm & _); try done;
    [by rewrite Ht1, lookup_insert_eq|].
  eexists. split; [done|]. split; [done|]. cbn. rewrite Hnm by done. by rewrite Ha1, lookup_insert_eq.
Qed.

Lemma AddTc_spec s m : CInv s -> pb_parent m <> pb_name m -> exists s' e, AddTc s m = Some (s', e) /\ CInv s' /\
  match e with
  | inl _ => unchanged (sch s) (sch s')
  | inr _ => all_tcs_ (sch s) !! pb_name m = None /\ all_tcs_ (sch s') !! pb_name m = Some (new_addr_ (sch s)) /\
      exists ct, tcs (sch s') !! new_addr_ (sch s) = Some ct /\
        if bool_decide (pb_parent m = ""%string)
        then exists root, root_ (sch s') = Some root /\ (new_addr_ (sch s) = root \/ parent_ ct = Some root)
        else parent_ ct = all_tcs_ (sch s) !! pb_parent m
  end.
Proof.
  intros HC Hself. destruct (AddTc_body_spec s m HC Hself) as (s1 & e & Hb & Hm).
  unfold AddTc, handler, attach_orphans. rewrite Hb. cbn [mbind option_bind]. destruct e as [e|[]].
  - destruct Hm as [Hun Ho]. rewrite Ho. cbn. eexists _, _. split; [done|]. split; [|done].
    by apply (unchanged_CInv s).
  - destruct Hm as (Hfree & Hdef & HS & HN & Hr & Ha & ct & Hct & Hm). set (c := new_addr_ (sch s)) in *.
    fold (attach_orphans s1). case_bool_decide as Hpar; destruct Hm as [Hp Ho].
    + destruct (attach_created (sch s1) c ct (to_int (pb_wid m)) HS HN Hct Hp Hr) as (s2 & He2 & HC2 & Hnm & root & ct' & Hroot & Hct' & Hor).
      replace s1 with (MkControl (sch s1) [(to_int (pb_wid m), c)]) by (by rewrite <- Ho; destruct s1). rewrite He2.
      cbn [mbind option_bind]. eexists _, _. split; [done|]. split; [done|]. split; [done|]. cbn.
      rewrite Hnm by done. rewrite Ha, lookup_insert_eq. split; [done|]. exists ct'. split; [done|]. by exists root.
    + unfold attach_orphans. rewrite Ho. cbn. eexists _, _. split; [done|]. split; [by split|]. split; [done|]. cbn.
      rewrite Ha, lookup_insert_eq. split; [done|]. by exists ct.
Qed.

(** ** New parameters *)

(** What new parameters leave alone. *)
Record reparam (t t' : tc) : Prop := {
  rp_parent : parent_ t' = parent_ t;
  rp_kids : kids (policy_ t') = kids (policy_ t);
  rp_children : Children t' = Children t;
  rp_wakeup : wakeup_time_ t' = wakeup_time_ t;
  rp_blocked : blocked_ t' = blocked_ t;
  rp_tag : policy_tag (policy_ t') = policy_tag (policy_ t);
  rp_sorted : forall first cs, policy_ t' <> Priority first cs;
  rp_shape : shape_ok (shape (policy_ t')) }.

Lemma Inv_reparam h q a t t' : Inv h q -> h !! a = Some t -> reparam t t' -> (settled (bl h) t -> settled (bl h) t') ->
  Inv (<[a := t']> h) q.
Proof.
  intros [HT Hs Hst Hq] Ha [Hp Hk Hc Hw Hb _ Hso Hsh] Hset.
  assert (Hcase : forall x tx, <[a := t']> h !! x = Some tx -> (x = a /\ tx = t') \/ h !! x = Some tx).
  { intros x tx [[<- <-]|[_ ?]]%lookup_insert_Some; [by left|by right]. }
  assert (Hbl : forall x, bl (<[a := t']> h) x = bl h x).
  { intros x. rewrite bl_insert. case_decide as Hx; [|done]. subst x. by rewrite Hb, (bl_lookup h a t). }
  assert (Hakin : akin h (<[a := t']> h)).
  { intros x. destruct (decide (x = a)) as [->|]; [rewrite Ha, lookup_insert_eq|rewrite lookup_insert_ne by done].
    - constructor. split; [done|by rewrite Hk].
    - destruct (h !! x); constructor. by split. }
  split.
  - by rewrite <- Hakin.
  - intros x tx Hx%Hcase. eapply settled_ext; [intros y _; symmetry; apply Hbl|].
    destruct Hx as [[-> ->]|Hx]; [by apply Hset, (Hs a)|by apply (Hs x)].
  - intros x tx [[-> ->]|Hx]%Hcase; [|by apply (Hst x)]. split; [done| |].
    + rewrite Hc, Hk. by apply (st_children _ (Hst a t Ha)).
    + intros first cs Hpol. by destruct (Hso first cs).
  - by eapply queue_ok_same.
Qed.

Lemma SInv_reparam s a t t' : SInv s -> tcs s !! a = Some t -> reparam t t' ->
  (settled (bl (tcs s)) t -> settled (bl (tcs s)) t') -> SInv (with_tcs s (<[a := t']> (tcs s)) (wakeup_queue_ s)).
Proof.
  intros [HI Hr Hd Hf] Ha Hrp Hset. split; cbn.
  - by eapply Inv_reparam.
  - intros r Hro. destruct (Hr r Hro) as (tr & Htr & Hp). destruct (decide (a = r)) as [->|Hne].
    + exists t'. rewrite lookup_insert_eq, (rp_parent _ _ Hrp). by simplify_eq.
    + exists tr. by rewrite lookup_insert_ne.
  - intros rr Hrr. destruct (Hd rr Hrr) as (? & tr & Htr & Htag). split; [done|]. destruct (decide (a = rr)) as [->|Hne].
    + exists t'. rewrite lookup_insert_eq, (rp_tag _ _ Hrp). by simplify_eq.
    + exists tr. by rewrite lookup_insert_ne.
  - intros x Hx. rewrite lookup_insert_ne; [by apply Hf|]. intros <-. by rewrite Hf in Ha.
Qed.

(** A rate limiter that only its limit of 0 keeps blocked. *)
Definition starved (b : addr -> bool) (t : tc) : Prop :=
  match policy_ t with
  | RateLimit _ limit _ _ _ _ _ (Some c) => limit = 0 /\ blocked_ t = true /\ wakeup_time_ t = 0 /\ b c = false
  | _ => False
  end.

(** The class that the request asks for: the limit and the burst that it gives for its resource. *)
Definition updated (m : pb_tc) (res : resource_t) (t : tc) : tc :=
  match policy_ t with
  | RateLimit _ l la mb mba tk lt c =>
      let limit := u64 <$> pb_limit m !! pb_resource m in
      let burst := u64 <$> pb_max_burst m !! pb_resource m in
      set_policy (RateLimit res (from_option (to_work_units_per_cycle tsc_hz) l limit) (default la limit)
                    (from_option to_work_units mb burst) (default mba burst) tk lt c) t
  | WeightedFair _ r b all => set_policy (WeightedFair res r b all) t
  | _ => t
  end.

Lemma updated_limits m res t : policy_tag (policy_ t) = POLICY_RATE_LIMIT -> update_limits m (set_resource res t) = updated m res t.
Proof.
  destruct t as [pa nm us ct wk bk p]. destruct p as [| | |r l la mb mba tk lt c|]; try done. intros _.
  unfold updated, update_limits, set_resource, set_limit, set_max_burst. cbn.
  by destruct (pb_limit m !! pb_resource m), (pb_max_burst m !! pb_resource m).
Qed.

Lemma updated_resource m res t : policy_tag (policy_ t) = POLICY_WEIGHTED_FAIR -> set_resource res t = updated m res t.
Proof. destruct t as [pa nm us ct wk bk p]. by destruct p. Qed.

Lemma updated_reparam m res t : res <> NUM_RESOURCES -> shape_ok (shape (policy_ t)) ->
  policy_tag (policy_ t) = POLICY_RATE_LIMIT \/ policy_tag (policy_ t) = POLICY_WEIGHTED_FAIR -> reparam t (updated m res t).
Proof.
  intros Hres Hsh Htag. assert (0 <= to_work_units_per_cycle tsc_hz (u64 (default 0 (pb_limit m !! pb_resource m)))) by (apply wrap_range; lia).
  destruct t as [pa nm us ct wk bk p]. cbn in *. destruct p as [| |? ? ?|r l la mb mba tk lt c|]; cbn in *;
    try (destruct Htag; discriminate).
  - by split.
  - unfold updated. cbn.
    destruct (pb_limit m !! pb_resource m), (pb_max_burst m !! pb_resource m); split; cbn in *; try done; split; lia || done.
Qed.

Lemma updated_settled b m res t : ~ starved b t -> settled b t -> settled b (updated m res t).
Proof.
  destruct t as [pa nm us ct wk bk p]. destruct p as [| | |r l la mb mba tk lt c|]; try done.
  unfold starved, settled, updated. cbn. intros Hst [H1 H2].
  assert (Hwhy : bk = true -> wk <> 0 \/ c = None \/ exists x, c = Some x /\ b x = true).
  { intros Hb. destruct (H2 Hb) as [?|[Hl|[?|?]]]; [by left| |by right; left|by do 2 right].
    destruct c as [c|]; [|by right; left]. destruct (decide (wk = 0)); [|by left]. right. right. exists c. split; [done|].
    destruct (b c) eqn:Hbc; [done|]. by destruct Hst. }
  destruct (pb_limit m !! pb_resource m), (pb_max_burst m !! pb_resource m); cbn;
    (split; [done|]; intros Hb; destruct (Hwhy Hb) as [?|[?|?]]; [by left|by do 2 right; left|by do 3 right]).
Qed.

(** C7: [UpdateTcParams] changes the resource, the limit and the burst of a rate limiter, or the resource of a
    weighted-fair class, and keeps the invariant, unless the class is a rate limiter that only its limit of 0 keeps
    blocked; every other request is refused and changes nothing. *)
Theorem update_tc_params_invariant s m : CInv s ->
  (forall c, FindTc s m = inr c -> exists t, tcs (sch s) !! c = Some t /\ ~ starved (bl (tcs (sch s))) t) ->
  exists s' e, UpdateTcParams s m = Some (s', e) /\ CInv s' /\
    match e with
    | inl _ => sch s' = sch s
    | inr _ => exists c t res, FindTc s m = inr c /\ tcs (sch s) !! c = Some t /\ ResourceMap (pb_resource m) = Some res /\
        tcs (sch s') = <[c := updated m res t]> (tcs (sch s)) /\ all_tcs_ (sch s') = all_tcs_ (sch s) /\ root_ (sch s') = root_ (sch s)
    end.
Proof.
  intros HC Hfind. pose proof HC as [HS [Hp Hn] Ho]. unfold UpdateTcParams, handler, UpdateTcParams_body, attach_orphans.
  destruct (FindTc s m) as [e|c]; cbn [mbind option_bind].
  { rewrite Ho. cbn. exists (MkControl (sch s) []), (inl e). split; [done|]. split; [by split|done]. }
  destruct (Hfind c eq_refl) as (t & Ht & Hst). rewrite Ht. cbn [mbind option_bind].
  pose proof (st_shape _ (inv_static _ _ (s_inv _ HS) c t Ht)) as Hsh.
  assert (Hok : forall res, ResourceMap (pb_resource m) = Some res ->
    policy_tag (policy_ t) = POLICY_RATE_LIMIT \/ policy_tag (policy_ t) = POLICY_WEIGHTED_FAIR ->
    CInv (MkControl (with_tcs (sch s) (<[c := updated m res t]> (tcs (sch s))) (wakeup_queue_ (sch s))) [])).
  { intros res Hres Htag. split; [|split; cbn; [|done]|done].
    - apply (SInv_reparam _ _ t); [done|done| |by apply updated_settled].
      apply updated_reparam; [by eapply ResourceMap_real|done|done].
    - intros n a Hna. apply lookup_insert_is_Some'. right. by eapply Hp. }
  assert (Hrefuse : exists s' e, (s ← s' ← attach_loop (sch s) (orphan_tcs s); Some (MkControl s' []); Some (s, inl TC_EINVAL : reply)) = Some (s', e) /\
    CInv s' /\ match e with inl _ => sch s' = sch s | inr _ => False end).
  { rewrite Ho. cbn. eexists _, (inl TC_EINVAL). split; [done|]. split; [by split|done]. }
  destruct Hrefuse as (s' & e & He & HC' & Hm). destruct e as [e|]; [|done].
  destruct (policy_ t) eqn:Hpol; cbn [policy_tag mbind option_bind]; try (exists s', (inl e); by rewrite He).
  all: destruct (ResourceMap (pb_resource m)) as [res|] eqn:Hres; cbn [mbind option_bind]; [|exists s', (inl e); by rewrite He].
  all: cbn [mbind option_bind sch orphan_tcs]; rewrite Ho; cbn [attach_loop mbind option_bind].
  all: eexists _, (inr tt); split; [done|]; first
    [rewrite (updated_limits m res t) by (by rewrite Hpol)|rewrite (updated_resource m res t) by (by rewrite Hpol)];
    (split; [apply Hok; auto|by exists c, t, res]).
Qed.

(** ** Moving a leaf *)
Lemma childless_no_ancestor h c ct p l : tree h -> h !! c = Some ct -> kids (policy_ ct) = [] -> c <> p -> chain h p l -> c ∉ l.
Proof.
  intros HT Hc Hk Hne Hl. revert Hne. induction Hl as [y ty Hy Hpy|y ty p' l Hy Hpy Hl IH]; intros Hne.
  - by intros ->%list_elem_of_singleton.
  - intros [->|Hin]%elem_of_cons; [done|]. destruct (decide (c = p')) as [->|Hcp]; [|by apply IH].
    destruct (tree_parent h HT y ty p' Hy Hpy) as (tp & Htp & Hkid). simplify_eq. rewrite Hk in Hkid. by apply not_elem_of_nil in Hkid.
Qed.

Lemma fail_attach_deletes s c ct e : SInv (sch s) -> tcs (sch s) !! c = Some ct -> parent_ ct = None -> kids (policy_ ct) = [] ->
  wakeup_time_ ct = 0 -> root_ (sch s) <> Some c ->
  exists s', fail_attach s c e = Some (s', inl e) /\ SInv (sch s') /\ tcs (sch s') = delete c (tcs (sch s)) /\ orphan_tcs s' = orphan_tcs s.
Proof.
  intros HS Hc Hp Hk Hw Hr. destruct (delete_tc_spec (sch s) c ct HS Hc Hp Hk Hw) as [Hd HI].
  unfold fail_attach. rewrite Hd. eexists. split; [done|]. split; [|done].
  destruct HS as [_ Hro Hde Hf]. split; cbn.
  - done.
  - intros r Hr'. destruct (Hro r Hr') as (tr & ? & ?). exists tr. rewrite lookup_delete_ne; [done|congruence].
  - intros rr Hrr. destruct (Hde rr Hrr) as (Hroot & tr & ? & ?). split; [done|]. exists tr.
    rewrite lookup_delete_ne; [done|congruence].
  - intros a Ha. apply lookup_delete_None. right. by apply Hf.
Qed.

(** [AttachTc] of a class that is no child, no root and has no children. *)
Lemma AttachTc_moves s m c ct : SInv (sch s) -> names_ok (sch s) -> tcs (sch s) !! c = Some ct -> parent_ ct = None ->
  policy_tag (policy_ ct) = POLICY_LEAF -> wakeup_time_ ct = 0 -> root_ (sch s) <> Some c ->
  exists s' e, AttachTc s c m = Some (s', e) /\ SInv (sch s') /\
    match e with
    | inl _ => tcs (sch s') = delete c (tcs (sch s)) /\ orphan_tcs s' = orphan_tcs s
    | inr _ => names_ok (sch s') /\ all_tcs_ (sch s') = all_tcs_ (sch s) /\ root_ (sch s') <> Some c /\ exists ct', tcs (sch s') !! c = Some ct' /\
        if bool_decide (pb_parent m = ""%string)
        then parent_ ct' = None /\ orphan_tcs s' = orphan_tcs s ++ [(to_int (pb_wid m), c)]
        else parent_ ct' = all_tcs_ (sch s) !! pb_parent m /\ orphan_tcs s' = orphan_tcs s
    end.
Proof.
  intros HS HN Hc Hp Htag Hw Hr. assert (Hk : kids (policy_ ct) = []) by (by destruct (policy_ ct)).
  pose proof (fun e => fail_attach_deletes s c ct e HS Hc Hp Hk Hw Hr) as Hdel.
  assert (Hfail : forall e, exists s' r, fail_attach s c e = Some (s', r) /\ SInv (sch s') /\
    match r with inl _ => tcs (sch s') = delete c (tcs (sch s)) /\ orphan_tcs s' = orphan_tcs s | inr _ => False end).
  { intros e. destruct (Hdel e) as (s' & -> & ? & ? & ?). by exists s', (inl e). }
  assert (Hfail' : forall e Q, exists s' r, fail_attach s c e = Some (s', r) /\ SInv (sch s') /\
    match r with inl _ => tcs (sch s') = delete c (tcs (sch s)) /\ orphan_tcs s' = orphan_tcs s | inr _ => Q s' end).
  { intros e Q. destruct (Hfail e) as (s' & [|] & ? & ? & ?); [by eexists s', (inl _)|done]. }
  unfold AttachTc. case_bool_decide as Hpar.
  - destruct (_ && (_ || _)); [apply Hfail'|]. destruct (_ && _); [apply Hfail'|].
    eexists _, (inr tt). split; [done|]. split; [done|]. split; [done|]. split; [done|]. split; [done|]. by exists ct.
  - destruct (negb _); [apply Hfail'|]. destruct (all_tcs_ (sch s) !! pb_parent m) as [p|] eqn:Hpn; [|apply Hfail'].
    destruct (nm_present _ HN _ _ Hpn) as [pt Hpt]. rewrite Hpt. cbn [mbind option_bind].
    destruct (child_arguments pt m) as [e|args] eqn:Hargs; [apply Hfail'|].
    assert (Hpc : c <> p) by (intros <-; simplify_eq; unfold child_arguments in Hargs; by rewrite Htag in Hargs).
    destruct (AddChild_spec (tcs (sch s)) (wakeup_queue_ (sch s)) p c args tsc pt ct) as (h & ok & -> & HI & _ & Hm); try done.
    + apply HS.
    + unfold child_arguments in Hargs. by destruct (policy_ pt); cbn in *; repeat case_match; simplify_eq.
    + intros l. eapply childless_no_ancestor; [apply HS|done..].
    + cbn [mbind option_bind]. destruct ok.
      * destruct Hm as (pt' & ct' & Hp' & Hc' & _ & Hcp' & Hg). eexists _, (inr tt). split; [done|].
        split; [by eapply SInv_child|]. split; [split; cbn; [|apply HN]|].
        { intros n a Hna. by eapply grown_present, HN. }
        split; [done|]. split; [done|]. by exists ct'.
      * subst h. replace (with_tcs (sch s) (tcs (sch s)) (wakeup_queue_ (sch s))) with (sch s) by (by destruct (sch s)).
        replace (MkControl (sch s) (orphan_tcs s)) with s by (by destruct s). apply Hfail'.
Qed.

(** C6: [AddTc] keeps the invariant of the scheduler, for a request that does not give the new class its own
    name as the parent: the code accepts that one and makes a loop ([add_tc_own_parent]).  A refused request leaves the
    classes, the names, the root and the orphans as they were; an accepted one makes a class of
    the name, which no class had, below the class that the request names, or, with no parent,
    as the root of the worker or below the root. *)
Theorem add_tc_invariant s m : CInv s -> pb_parent m <> pb_name m -> exists s' e, AddTc s m = Some (s', e) /\ CInv s' /\
  match e with
  | inl _ => unchanged (sch s) (sch s')
  | inr _ => all_tcs_ (sch s) !! pb_name m = None /\ all_tcs_ (sch s') !! pb_name m = Some (new_addr_ (sch s)) /\
      exists ct, tcs (sch s') !! new_addr_ (sch s) = Some ct /\
        if bool_decide (pb_parent m = ""%string)
        then exists root, root_ (sch s') = Some root /\ (new_addr_ (sch s) = root \/ parent_ ct = Some root)
        else parent_ ct = all_tcs_ (sch s) !! pb_parent m
  end.
Proof. apply AddTc_spec. Qed.

(** [UpdateTcParent] moves a leaf from its class to the class that the request names, or, with no parent,
    to the root of the worker or below the root; a refused request deletes the leaf. *)
Theorem update_tc_parent_leaf s m c ct old : CInv s -> FindTc s m = inr c -> tcs (sch s) !! c = Some ct ->
  policy_tag (policy_ ct) = POLICY_LEAF -> parent_ ct = Some old -> wakeup_time_ ct = 0 ->
  exists s' e, UpdateTcParent s m = Some (s', e) /\ SInv (sch s') /\ orphan_tcs s' = [] /\
    match e with
    | inl _ => tcs (sch s') !! c = None
    | inr _ => CInv s' /\ exists ct', tcs (sch s') !! c = Some ct' /\
        if bool_decide (pb_parent m = ""%string)
        then exists root, root_ (sch s') = Some root /\ (c = root \/ parent_ ct' = Some root)
        else parent_ ct' = all_tcs_ (sch s) !! pb_parent m
    end.
Proof.
  intros [HS [Hnp Hnd] Ho] Hf Hc Htag Hp Hw. destruct s as [s o]. cbn in Ho, HS, Hnp, Hnd, Hc. subst o.
  assert (Hroot : root_ s <> Some c) by (intros Hr; destruct (s_root _ HS _ Hr) as (? & ? & ?); congruence).
  destruct (tree_parent _ (inv_tree _ _ (s_inv _ HS)) c ct old Hc Hp) as (ot & Hot & _).
  destruct (RemoveChild_spec (tcs s) (wakeup_queue_ s) old c ot ct (s_inv _ HS) Hot Hc) as (h & r & Hrm & HI & Hr & Hm).
  rewrite bool_decide_true in Hr by done. subst r. destruct Hm as (ot' & ct1 & Hot' & Hct1 & _ & Hp1 & Hg).
  destruct (grown_Some _ _ _ _ Hg c ct Hc) as (ct1' & ? & _ & _ & Htag1 & Hw1). simplify_eq.
  assert (HN1 : names_ok (with_tcs s h (wakeup_queue_ s))).
  { split; cbn; [|done]. intros n a Hna. by eapply grown_present, Hnp. }
  destruct (AttachTc_moves (MkControl (with_tcs s h (wakeup_queue_ s)) []) m c ct1) as (s2 & e & Hat & HS2 & He); try done;
    [by eapply SInv_child|congruence..|].
  unfold UpdateTcParent, handler, UpdateTcParent_body. rewrite Hf. cbn [sch mbind option_bind]. rewrite Hc. cbn [mbind option_bind].
  rewrite Htag. unfold detach_tc. cbn [sch orphan_tcs]. rewrite Hc. cbn [mbind option_bind]. rewrite Hp, Hrm. cbn [mbind option_bind fst snd].
  rewrite Hat. cbn [mbind option_bind]. unfold attach_orphans. destruct e as [e|[]].
  - destruct He as [He Ho2]. cbn in Ho2. rewrite Ho2. cbn. eexists _, (inl e). split; [done|]. split; [done|]. split; [done|].
    cbn. by rewrite He, lookup_delete_eq.
  - destruct He as (HN2 & Hnm2 & Hr2 & ct2 & Hct2 & He). cbn [sch with_tcs all_tcs_ orphan_tcs] in *.
    case_bool_decide as Hpar; destruct He as [Hp2 Ho2]; rewrite Ho2; cbn [app attach_loop mbind option_bind].
    + rewrite Hct2. cbn [mbind option_bind]. rewrite Hp2.
      destruct (AttachOrphan_names (sch s2) c ct2 HS2 HN2 Hct2 Hp2 Hr2) as (s3 & -> & HS3 & HN3 & _ & root & ct' & Hro & Hct' & Hor).
      cbn. eexists _, (inr tt). split; [done|]. split; [done|]. split; [done|]. split; [by split|]. exists ct'. split; [done|]. by exists root.
    + eexists _, (inr tt). split; [done|]. split; [done|]. split; [done|]. split; [by split|]. by exists ct2.
Qed.

(** As every request ends by attaching the orphans, a class that is not a leaf is never moved. *)
Lemma update_tc_parent_inner s m c ct : CInv s -> FindTc s m = inr c -> tcs (sch s) !! c = Some ct ->
  policy_tag (policy_ ct) <> POLICY_LEAF -> UpdateTcParent s m = Some (s, inl TC_EINVAL).
Proof.
  intros HC Hf Hc Htag. destruct s as [s o]. pose proof (ci_orphans _ HC) as Ho. cbn in Ho. subst o.
  unfold UpdateTcParent, handler, UpdateTcParent_body. rewrite Hf. cbn [mbind option_bind]. rewrite Hc. cbn [mbind option_bind].
  by destruct (policy_tag (policy_ ct)).
Qed.
End handlers.

(** ** Examples *)
Definition no_args (name parent policy : string) (wid : Z) : pb_tc := MkPbTc name parent policy "packet" arg_unset wid ∅ ∅ "" 0.
Definition ex_modules : gmap string (list (option addr)) := {[ "src" := [Some 1%nat] ]}.
Definition ex_ctl0 : control := MkControl (Sched ∅ ∅ 0 None None [] 0 0 0) [].
Definition ex_add_tc (s : control) (m : pb_tc) : control := match AddTc 0 1000000000 0 s m with Some (s, _) => s | None => s end.

(** A round robin; a rate limiter of no rate below it. *)
Definition ex_rr : control := ex_add_tc ex_ctl0 (no_args "rr" "" "round_robin" (-1)).
Definition ex_task : control :=
  match (s ← RegisterTask ex_rr "src" 0 0; attach_orphans 0 0 s) with Some s => s | None => ex_rr end.
Definition ex_limit : control := ex_add_tc ex_task (no_args "limit" "rr" "rate_limit" (-1)).

Lemma ex_ctl0_CInv : CInv 0 ex_ctl0.
Proof.
  split; [split; cbn; try done; apply Inv_empty|split; cbn; [|done]|done]. intros n a Ha. by rewrite lookup_empty in Ha.
Qed.

Lemma ex_add_tc_CInv s m : CInv 0 s -> pb_parent m <> pb_name m -> CInv 0 (ex_add_tc s m).
Proof.
  intros HC Hne. unfold ex_add_tc. by destruct (AddTc_spec 0 1000000000 0 s m HC Hne) as (s' & e & -> & ? & _).
Qed.

Lemma ex_rr_CInv : CInv 0 ex_rr.
Proof. apply ex_add_tc_CInv; [apply ex_ctl0_CInv|done]. Qed.
Lemma ex_task_CInv : CInv 0 ex_task.
Proof.
  unfold ex_task. destruct (RegisterTask_CInv 0 0 ex_rr "src" 0 0 ex_rr_CInv) as (s & -> & ? & _); [|done].
  by vm_compute.
Qed.
Lemma ex_limit_CInv : CInv 0 ex_limit.
Proof. apply ex_add_tc_CInv; [apply ex_task_CInv|done]. Qed.

Lemma add_tc_invariant_witness : exists s' e, AddTc 0 1000000000 0 ex_task (no_args "limit" "rr" "rate_limit" (-1)) = Some (s', e) /\ CInv 0 s'.
Proof.
  destruct (add_tc_invariant 0 1000000000 0 ex_task (no_args "limit" "rr" "rate_limit" (-1)) ex_task_CInv) as (s' & e & H1 & H2 & _).
  - done.
  - exact (ex_intro _ s' (ex_intro _ e (conj H1 H2))).
Defined.

Definition ex_faster : pb_tc := MkPbTc "limit" "" "" "packet" arg_unset 0 {[ "packet" := 1000 ]} ∅ "" 0.

Lemma update_tc_params_invariant_witness : exists s' e, UpdateTcParams 0 1000000000 0 ex_modules ex_limit ex_faster = Some (s', e) /\ CInv 0 s'.
Proof.
  destruct (update_tc_params_invariant 0 1000000000 0 ex_modules ex_limit ex_faster ex_limit_CInv) as (s' & e & H1 & H2 & _).
  - intros c Hc. assert (c = 3%nat) as -> by (vm_compute in Hc; congruence). eexists. split; [by vm_compute|]. vm_compute. tauto.
  - exact (ex_intro _ s' (ex_intro _ e (conj H1 H2))).
Defined.

Definition ex_move : pb_tc := MkPbTc "" "limit" "leaf" "" arg_unset (-1) ∅ ∅ "src" 0.
Definition ex_leaf_tc : tc := default (new_Leaf "" 0) (tcs (sch ex_limit) !! 1%nat).

Lemma update_tc_parent_leaf_witness : exists s' e, UpdateTcParent 0 0 ex_modules ex_limit ex_move = Some (s', e) /\ SInv (sch s').
Proof.
  destruct (update_tc_parent_leaf 0 0 ex_modules ex_limit ex_move 1%nat ex_leaf_tc 2%nat ex_limit_CInv) as (s' & e & H1 & H2 & _);
    [vm_compute; reflexivity..|].
  exact (ex_intro _ s' (ex_intro _ e (conj H1 H2))).
Defined.

(** ** What the code does not check *)

(** A class added below its own name becomes its own parent: nothing is refused, and it is in no tree. *)
Example add_tc_own_parent : exists s', AddTc 0 1000000000 0 ex_rr (no_args "self" "self" "round_robin" (-1)) = Some (s', inr tt) /\
  all_tcs_ (sch s') !! "self" = Some 1%nat /\ (parent_ <$> tcs (sch s') !! 1%nat) = Some (Some 1%nat).
Proof. eexists. split; [by vm_compute|]. by vm_compute. Qed.

Lemma add_tc_own_parent_no_tree s' : AddTc 0 1000000000 0 ex_rr (no_args "self" "self" "round_robin" (-1)) = Some (s', inr tt) -> ~ tree (tcs (sch s')).
Proof.
  intros Hs HT. destruct add_tc_own_parent as (s2 & Hs2 & _ & Hp). rewrite Hs in Hs2. injection Hs2 as <-.
  destruct (tcs (sch s') !! 1%nat) as [t|] eqn:Ht; [|done]. injection Hp as Hp. by destruct (tree_not_own_parent _ _ _ HT Ht).
Qed.

(** A refused move of a leaf deletes it, and the task with it, which the module still lists. *)
Example refused_move_deletes_leaf : exists s', UpdateTcParent 0 0 ex_modules ex_limit (MkPbTc "" "absent" "leaf" "" arg_unset (-1) ∅ ∅ "src" 0) =
    Some (s', inl TC_ENOENT) /\
  is_Some (tcs (sch ex_limit) !! 1%nat) /\ tcs (sch s') !! 1%nat = None.
Proof. eexists. split; [by vm_compute|]. vm_compute. split; [by eexists|done]. Qed.

(** The rate limiter blocks on its limit of 0; with a limit it could run, but no request and no time wakes it. *)
Definition ex_moved : control := match UpdateTcParent 0 0 ex_modules ex_limit ex_move with Some (s, _) => s | None => ex_limit end.
Definition ex_blocked : sched :=
  match ScheduleOnce (fun _ => TaskResult false 32 16384) 2000 (sch ex_moved) with Some (s, _) => s | None => sch ex_moved end.
Example faster_stays_blocked : exists s', UpdateTcParams 0 1000000000 0 ex_modules (MkControl ex_blocked []) ex_faster = Some (s', inr tt) /\
  (exists leaf, option_map snd (Next (sch ex_moved) 3000) = Some (Some leaf)) /\
  forall tsc, option_map snd (Next (sch s') tsc) = Some None.
Proof. eexists. split; [by vm_compute|]. split; [eexists; by vm_compute|]. intros tsc. by vm_compute. Qed.
