(* ===== verification/L2Forward.v ===== *)
(** The L2 forwarding table and module: [core/modules/l2_forward.h] and
    [core/modules/l2_forward.cc].

    The table is an array of [size * bucket] entries; a MAC address may be in the
    bucket of its hash or in an alternate bucket.  An access past the array and an
    undefined shift are [None].  The CRC of the hash is an argument. *)
From stdpp Require Import fin_maps strings.
From S2P Require Import Prelude Common Endian.

Definition MAX_TABLE_SIZE : Z := 1048576 * 64.
Definition DEFAULT_TABLE_SIZE : Z := 1024.
Definition MAX_BUCKET_SIZE : Z := 4.
Definition MAX_GATES : Z := 8192.
Definition DROP_GATE : Z := MAX_GATES.

Definition is_power_of_2 (n : Z) : bool := negb (n =? 0) && (Z.land n (n - 1) =? 0).

(** The bit fields of an entry, and the word they share their memory with. *)
Record l2_entry := L2Entry { addr : Z; gate : Z; occupied : bool }.
#[export] Instance l2_entry_dec : EqDecision l2_entry.
Proof. solve_decision. Defined.

Definition empty_entry : l2_entry := L2Entry 0 0 false.
Definition entry_word (e : l2_entry) : Z :=
  addr e + Z.shiftl (gate e) 48 + (if occupied e then 2 ^ 63 else 0).

(** [sizeof(l2_entry)] is 32 because of [alignas(32)]: the four words at the address
    of an entry are its own word and 24 bytes of padding, which are zero from the
    allocation on. *)
Definition words_at (e : l2_entry) : list Z := [entry_word e; 0; 0; 0].

(** A null [table] is the empty list. *)
Record l2_table := L2Table {
  table : list l2_entry;
  size : Z;
  size_power : Z;
  bucket : Z;
  count : Z }.
#[export] Instance l2_table_dec : EqDecision l2_table.
Proof. solve_decision. Defined.

Definition with_table (t : l2_table) (tbl : list l2_entry) (n : Z) : l2_table :=
  L2Table tbl (size t) (size_power t) (bucket t) n.

(** The loop that computes the base-2 logarithm of [size]. *)
Definition log_step (s : Z * Z) : option (Z * Z) := Some (Z.shiftr s.1 1, s.2 + 1).
Definition log_loop (size : Z) : option (Z * Z) :=
  while 32 (fun s => 1 <? s.1) log_step (size, 0).

(** [l2_init]; [mem] tells whether the allocation succeeds. *)
Definition l2_init (mem : bool) (t : l2_table) (sz bk : Z) : option (l2_table * (errno + unit)) :=
  if (sz <=? 0) || (MAX_TABLE_SIZE <? sz) || negb (is_power_of_2 sz) then Some (t, inl EINVAL)
  else if (bk <=? 0) || (MAX_BUCKET_SIZE <? bk) || negb (is_power_of_2 bk) then Some (t, inl EINVAL)
  else if negb mem then Some (with_table t [] (count t), inl ENOMEM)
  else
    s ← log_loop sz;
    Some (L2Table (replicate (Z.to_nat (sz * bk)) empty_entry) sz s.2 bk (count t), inr tt).

Definition l2_deinit (t : l2_table) : l2_table * (errno + unit) :=
  if bool_decide (table t = []) || (size t =? 0) || (bucket t =? 0) then (t, inl EINVAL)
  else (L2Table [] 0 0 0 0, inr tt).

Definition l2_ib_to_offset (t : l2_table) (index b : Z) : Z := u32 (index * bucket t + b).

Definition l2_hash_to_index (hash size : Z) : Z := Z.land hash (u32 (u32 size - 1)).

(** The shift is undefined when [size_power] is 0. *)
Definition l2_alt_index (hash size_power index : Z) : option Z :=
  if size_power =? 0 then None
  else
    let tag := u32 (Z.shiftr hash size_power + 1) in
    let tag := u64 (tag * 0x5bd1e995) in
    Some (u32 (Z.land (Z.lxor index tag) (Z.shiftl 1 (size_power - 1) - 1))).

(** Equality of doubles on their representations. *)
Definition pd_nan (x : Z) : bool :=
  (Z.land (Z.shiftr x 52) 0x7ff =? 0x7ff) && negb (Z.land x (2 ^ 52 - 1) =? 0).
Definition pd_zero (x : Z) : bool := Z.land x (2 ^ 63 - 1) =? 0.
Definition pd_eq (x y : Z) : bool :=
  negb (pd_nan x) && negb (pd_nan y) && ((pd_zero x && pd_zero y) || (x =? y)).

Definition entry_mask : Z := 0x8000ffffFFFFffff.

(** The first lane, plus one, whose comparison holds; 0 if there is none. *)
Fixpoint first_lane (p : Z -> bool) (i : Z) (lanes : list Z) : Z :=
  match lanes with
  | [] => 0
  | x :: lanes' => if p x then i + 1 else first_lane p (i + 1) lanes'
  end.

Definition find_index_avx (addr : Z) (words : list Z) : Z :=
  first_lane (fun w => pd_eq (Z.lor addr (Z.shiftl 1 63)) (Z.land w entry_mask)) 0 words.
Definition find_index_basic (addr : Z) (words : list Z) : Z :=
  first_lane (fun w => Z.lor addr (Z.shiftl 1 63) =? Z.land w entry_mask) 0 words.
Definition find_index (avx : bool) (addr : Z) (words : list Z) : Z :=
  if avx then find_index_avx addr words else find_index_basic addr words.

Definition at_offset (tbl : list l2_entry) (offset : Z) : option l2_entry := tbl !! Z.to_nat offset.

Section L2.
Context (rte_hash_crc_8byte : Z -> Z -> Z).

Definition l2_hash (addr : Z) : Z := rte_hash_crc_8byte addr 0.

(** A loop over [n] slots from [offset]: the offset of the address, if it is there. *)
Fixpoint l2_scan (n : nat) (tbl : list l2_entry) (a offset : Z) : option (option Z) :=
  match n with
  | O => Some None
  | S n' =>
      e ← at_offset tbl offset;
      if occupied e && (a =? addr e) then Some (Some offset) else l2_scan n' tbl a (u32 (offset + 1))
  end.

Definition l2_find (avx : bool) (t : l2_table) (a : Z) : option (errno + Z) :=
  let hash := l2_hash a in
  let idx1 := l2_hash_to_index hash (size t) in
  let offset := l2_ib_to_offset t idx1 0 in
  if bucket t =? 4 then
    e ← at_offset (table t) offset;
    let tmp1 := find_index avx a (words_at e) in
    if negb (tmp1 =? 0) then
      e ← at_offset (table t) (offset + tmp1 - 1); Some (inr (gate e))
    else
      idx1 ← l2_alt_index hash (size_power t) idx1;
      let offset := l2_ib_to_offset t idx1 0 in
      e ← at_offset (table t) offset;
      let tmp2 := find_index avx a (words_at e) in
      if negb (tmp2 =? 0) then
        e ← at_offset (table t) (offset + tmp2 - 1); Some (inr (gate e))
      else Some (inl ENOENT)
  else
    r ← l2_scan (Z.to_nat (bucket t)) (table t) a offset;
    match r with
    | Some o => e ← at_offset (table t) o; Some (inr (gate e))
    | None =>
        idx1 ← l2_alt_index hash (size_power t) idx1;
        r ← l2_scan (Z.to_nat (bucket t)) (table t) a (l2_ib_to_offset t idx1 0);
        match r with
        | Some o => e ← at_offset (table t) o; Some (inr (gate e))
        | None => Some (inl ENOENT)
        end
    end.

Definition l2_find_offset (t : l2_table) (a : Z) : option (errno + Z) :=
  let hash := l2_hash a in
  let idx1 := l2_hash_to_index hash (size t) in
  r ← l2_scan (Z.to_nat (bucket t)) (table t) a (l2_ib_to_offset t idx1 0);
  match r with
  | Some o => Some (inr o)
  | None =>
      idx1 ← l2_alt_index hash (size_power t) idx1;
      r ← l2_scan (Z.to_nat (bucket t)) (table t) a (l2_ib_to_offset t idx1 0);
      match r with Some o => Some (inr o) | None => Some (inl ENOENT) end
  end.

(** A loop over the slots [i], [i + 1], ... of bucket [idx]: the first free one. *)
Fixpoint free_slot (n : nat) (t : l2_table) (tbl : list l2_entry) (idx i : Z) : option (option Z) :=
  match n with
  | O => Some None
  | S n' =>
      e ← at_offset tbl (l2_ib_to_offset t idx i);
      if negb (occupied e) then Some (Some i) else free_slot n' t tbl idx (i + 1)
  end.

Definition clear_occupied (e : l2_entry) : l2_entry := L2Entry (addr e) (gate e) false.

(** The "try moving" loop from slot [i] of bucket [idx1]: the table after a move. *)
Fixpoint try_moving (n : nat) (t : l2_table) (idx1 i : Z) : option (option (list l2_entry)) :=
  match n with
  | O => Some None
  | S n' =>
      let offset1 := l2_ib_to_offset t idx1 i in
      e ← at_offset (table t) offset1;
      let hash := l2_hash (addr e) in
      let idx_v1 := l2_hash_to_index hash (size t) in
      idx_v2 ← l2_alt_index hash (size_power t) idx_v1;
      if (idx_v1 =? idx_v2) || (idx1 =? idx_v2) then Some None
      else
        j ← free_slot (Z.to_nat (bucket t)) t (table t) idx_v2 0;
        match j with
        | Some j =>
            let offset2 := l2_ib_to_offset t idx_v2 j in
            let tbl := <[Z.to_nat offset2 := e]> (table t) in
            e1 ← at_offset tbl offset1;
            Some (Some (<[Z.to_nat offset1 := clear_occupied e1]> tbl))
        | None => try_moving n' t idx1 (i + 1)
        end
  end.

Definition l2_find_slot (t : l2_table) (a : Z) : option (list l2_entry * (errno + Z * Z)) :=
  let idx1 := l2_hash_to_index (l2_hash a) (size t) in
  free ← free_slot (Z.to_nat (bucket t)) t (table t) idx1 0;
  match free with
  | Some i => Some (table t, inr (idx1, i))
  | None =>
      r ← try_moving (Z.to_nat (bucket t)) t idx1 0;
      match r with
      | Some tbl => Some (tbl, inr (idx1, 0))
      | None => Some (table t, inl ENOMEM)
      end
  end.

Definition l2_add_entry (avx : bool) (t : l2_table) (a g : Z) : option (l2_table * (errno + unit)) :=
  r ← l2_find avx t a;
  match r with
  | inr _ => Some (t, inl EEXIST)
  | inl _ =>
      r ← l2_find_slot t a;
      match r with
      | (tbl, inl _) => Some (with_table t tbl (count t), inl ENOMEM)
      | (tbl, inr (index, b)) =>
          let offset := l2_ib_to_offset t index b in
          e ← at_offset tbl offset;
          Some (with_table t (<[Z.to_nat offset := L2Entry (wrap 48 a) (wrap 15 g) true]> tbl)
                  (u64 (count t + 1)), inr tt)
      end
  end.

Definition l2_del_entry (t : l2_table) (a : Z) : option (l2_table * (errno + unit)) :=
  r ← l2_find_offset t a;
  match r with
  | inl _ => Some (t, inl ENOENT)
  | inr offset =>
      Some (with_table t (<[Z.to_nat offset := empty_entry]> (table t)) (u64 (count t - 1)), inr tt)
  end.

Definition l2_flush (t : l2_table) : l2_table * (errno + unit) :=
  if bool_decide (table t = []) then (t, inl EINVAL)
  else (with_table t (replicate (Z.to_nat (size t * bucket t)) empty_entry) (count t), inr tt).

(** [l2_addr_to_u64] *)
Definition l2_addr_to_u64 (mac : bytes) : Z :=
  let a := le_load (take 4 mac) in
  let b := le_load (take 2 (drop 4 mac)) in
  Z.lor a (Z.shiftl b 32).

(** ** The module *)

Record module := L2Forward { l2_table_ : l2_table; default_gate_ : Z }.

Definition Init (mem : bool) (m : module) (size bucket : Z) : option (module * (errno + unit)) :=
  let size := if size =? 0 then DEFAULT_TABLE_SIZE else size in
  let bucket := if bucket =? 0 then MAX_BUCKET_SIZE else bucket in
  r ← l2_init mem (l2_table_ m) size bucket;
  Some (L2Forward r.1 DROP_GATE, r.2).

(** The gate of each packet of the batch; [head] is the first 8 bytes of a packet. *)
Fixpoint ProcessBatch (avx : bool) (m : module) (heads : list bytes) : option (list Z) :=
  match heads with
  | [] => Some []
  | head :: heads' =>
      r ← l2_find avx (l2_table_ m) (Z.land (le_load (take 8 head)) 0x0000ffffffffffff);
      gs ← ProcessBatch avx m heads';
      Some (match r with inr g => g | inl _ => default_gate_ m end :: gs)
  end.

(** [parse_mac_addr]; [sscanf] gives the values that the format converts. *)
Context (sscanf : string -> list Z).

Definition parse_mac_addr (str : string) : option bytes :=
  let conversions := sscanf str in
  if bool_decide (length conversions = 6%nat) then Some conversions else None.

Fixpoint CommandAdd (avx : bool) (t : l2_table) (entries : list (string * Z))
    : option (l2_table * (errno + unit)) :=
  match entries with
  | [] => Some (t, inr tt)
  | (str_addr, g) :: entries' =>
      if bool_decide (str_addr = "")%string then Some (t, inl EINVAL)
      else match parse_mac_addr str_addr with
      | None => Some (t, inl EINVAL)
      | Some mac =>
          r ← l2_add_entry avx t (l2_addr_to_u64 mac) g;
          match r with
          | (t, inr _) => CommandAdd avx t entries'
          | (t, inl e) => Some (t, inl e)
          end
      end
  end.

Fixpoint CommandDelete (t : l2_table) (addrs : list string) : option (l2_table * (errno + unit)) :=
  match addrs with
  | [] => Some (t, inr tt)
  | str_addr :: addrs' =>
      if bool_decide (str_addr = "")%string then Some (t, inl EINVAL)
      else match parse_mac_addr str_addr with
      | None => Some (t, inl EINVAL)
      | Some mac =>
          r ← l2_del_entry t (l2_addr_to_u64 mac);
          match r with
          | (t, inr _) => CommandDelete t addrs'
          | (t, inl e) => Some (t, inl e)
          end
      end
  end.

Definition CommandSetDefaultGate (m : module) (g : Z) : module := L2Forward (l2_table_ m) (u16 g).

Fixpoint CommandLookup (avx : bool) (t : l2_table) (addrs : list string) : option (errno + list Z) :=
  match addrs with
  | [] => Some (inr [])
  | str_addr :: addrs' =>
      if bool_decide (str_addr = "")%string then Some (inl EINVAL)
      else match parse_mac_addr str_addr with
      | None => Some (inl EINVAL)
      | Some mac =>
          r ← l2_find avx t (l2_addr_to_u64 mac);
          match r with
          | inl e => Some (inl e)
          | inr g => rest ← CommandLookup avx t addrs';
              Some (match rest with inl e => inl e | inr gs => inr (g :: gs) end)
          end
      end
  end.

(** The loop of [CommandPopulate] at turn [i]; the result of each insertion is
    ignored, a modulus of 0 is undefined. *)
Fixpoint populate_loop (cnt : nat) (avx : bool) (t : l2_table) (base_u64 i gate_cnt : Z) : option l2_table :=
  match cnt with
  | O => Some t
  | S cnt' =>
      if gate_cnt =? 0 then None
      else
        r ← l2_add_entry avx t (swap 8 (u64 (Z.shiftl base_u64 16))) (u16 (Z.rem i gate_cnt));
        populate_loop cnt' avx r.1 (u64 (base_u64 + 1)) (i + 1) gate_cnt
  end.

Definition CommandPopulate (avx : bool) (t : l2_table) (base : string) (cnt gate_cnt : Z)
    : option (l2_table * (errno + unit)) :=
  if bool_decide (base = "")%string then Some (t, inl EINVAL)
  else match parse_mac_addr base with
  | None => Some (t, inl EINVAL)
  | Some mac =>
      let base_u64 := l2_addr_to_u64 mac in
      let base_u64 := Z.shiftr (swap 8 base_u64) 16 in
      let base_u64 := Z.shiftr base_u64 16 in
      t ← populate_loop (Z.to_nat cnt) avx t base_u64 0 gate_cnt;
      Some (t, inr tt)
  end.
End L2.

(** ** The representation invariant *)

(** The size, the bucket size and the array agree. *)
Record wf (t : l2_table) : Prop := {
  wf_power : 1 <= size_power t <= 26;
  wf_size : size t = 2 ^ size_power t;
  wf_bucket : bucket t = 1 \/ bucket t = 2 \/ bucket t = 4;
  wf_length : Z.of_nat (length (table t)) = size t * bucket t }.

Definition slot (t : l2_table) (idx i : Z) : nat := Z.to_nat (idx * bucket t + i).

Lemma size_bounds t : wf t -> 2 <= size t <= 2 ^ 26.
Proof.
  intros [Hp -> _ _]. split.
  - change 2 with (2 ^ 1) at 1. apply Z.pow_le_mono_r; lia.
  - apply Z.pow_le_mono_r; lia.
Qed.

Lemma offset_small t idx i : wf t -> 0 <= idx < size t -> 0 <= i <= bucket t ->
  l2_ib_to_offset t idx i = idx * bucket t + i.
Proof.
  intros Hw Hi Hb. pose proof (size_bounds t Hw). pose proof (wf_bucket t Hw).
  apply wrap_small. unfold in_word. nia.
Qed.

Lemma slot_lt t idx i : wf t -> 0 <= idx < size t -> 0 <= i < bucket t ->
  (slot t idx i < length (table t))%nat.
Proof. intros Hw Hi Hb. pose proof (wf_length t Hw). unfold slot. nia. Qed.

Lemma slot_inj t idx i idx' i' : wf t -> 0 <= idx -> 0 <= idx' -> 0 <= i < bucket t -> 0 <= i' < bucket t ->
  slot t idx i = slot t idx' i' -> idx = idx' /\ i = i'.
Proof.
  unfold slot. intros Hw ???? H. apply Z2Nat.inj in H; [|nia|nia].
  apply (Z.div_mod_unique (bucket t)); [lia|lia|nia].
Qed.

Lemma primary_range t hash : wf t -> 0 <= hash ->
  0 <= l2_hash_to_index hash (size t) < size t.
Proof.
  intros Hw Hh. pose proof (size_bounds t Hw). pose proof (wf_power t Hw).
  unfold l2_hash_to_index. rewrite (wrap_small 32 (size t)) by (unfold in_word; lia).
  rewrite (wrap_small 32) by (unfold in_word; lia).
  rewrite (wf_size t Hw), Z.sub_1_r, <- Z.ones_equiv, Z.land_ones by lia.
  apply Z.mod_pos_bound, Z.pow_pos_nonneg; lia.
Qed.

Lemma alt_range t hash idx : wf t ->
  exists alt, l2_alt_index hash (size_power t) idx = Some alt /\ 0 <= alt < size t.
Proof.
  intros Hw. pose proof (wf_power t Hw) as Hp. unfold l2_alt_index.
  destruct (Z.eqb_spec (size_power t) 0) as [|_]; [lia|]. eexists. split; [done|].
  rewrite Z.shiftl_1_l, Z.sub_1_r, <- Z.ones_equiv, Z.land_ones by lia.
  set (x := Z.lxor _ _). assert (0 < 2 ^ (size_power t - 1)) by (apply Z.pow_pos_nonneg; lia).
  pose proof (Z.mod_pos_bound x (2 ^ (size_power t - 1)) ltac:(lia)).
  assert (2 ^ (size_power t - 1) <= size t)
    by (rewrite (wf_size t Hw); apply Z.pow_le_mono_r; lia).
  pose proof (size_bounds t Hw). rewrite (wrap_small 32) by (unfold in_word; lia). lia.
Qed.

(** Entry [o] is occupied by address [a]. *)
Definition stored (tbl : list l2_entry) (a : Z) (o : nat) : Prop :=
  exists e, tbl !! o = Some e /\ occupied e = true /\ addr e = a.

#[export] Instance stored_dec tbl a o : Decision (stored tbl a o).
Proof.
  refine (match tbl !! o as x return tbl !! o = x -> _ with
    | Some e => fun H => cast_if (decide (occupied e = true /\ addr e = a)) | None => fun H => right _ end eq_refl).
  - by exists e.
  - intros (e' & He' & ?). congruence.
  - intros (e' & He' & ?). congruence.
Defined.

(** What the table maps an address to. *)
Definition contents (tbl : list l2_entry) (a : Z) : option Z :=
  (fun p => gate p.2) <$> list_find (fun e => occupied e = true /\ addr e = a) tbl.

Definition unique (tbl : list l2_entry) : Prop :=
  forall a o o', stored tbl a o -> stored tbl a o' -> o = o'.

Lemma contents_Some tbl a g : unique tbl ->
  contents tbl a = Some g <-> exists o e, tbl !! o = Some e /\ occupied e = true /\ addr e = a /\ gate e = g.
Proof.
  intros Hu. unfold contents. rewrite fmap_Some. split.
  - intros ([o e] & (He & [Ho Ha] & _)%list_find_Some & ->). eauto 6.
  - intros (o & e & He & Ho & Ha & <-).
    destruct (list_find_elem_of (fun e => occupied e = true /\ addr e = a) tbl e) as [[o' e'] H];
      [by eapply list_elem_of_lookup_2|done|].
    exists (o', e'). split; [done|]. apply list_find_Some in H as (He' & [Ho' Ha'] & _).
    rewrite (Hu a o o') in He; [|by exists e|by exists e']. cbn. congruence.
Qed.

Lemma contents_None tbl a : contents tbl a = None <-> forall o, ~ stored tbl a o.
Proof.
  unfold contents. rewrite fmap_None, list_find_None, Forall_lookup. split.
  - intros H o (e & He & ? & ?). by apply (H o e).
  - intros H o e He [Ho Ha]. apply (H o). by exists e.
Qed.

(** Overwriting entry [o], which may be occupied. *)
Lemma stored_insert tbl o e a o' : (o < length tbl)%nat ->
  stored (<[o := e]> tbl) a o' <->
  (o' = o /\ occupied e = true /\ addr e = a) \/ (o' <> o /\ stored tbl a o').
Proof.
  intros Hl. unfold stored. destruct (decide (o' = o)) as [->|Hne].
  - rewrite list_lookup_insert_eq by done. split.
    + intros (e' & [= <-] & ? & ?). by left.
    + intros [(_ & ? & ?)|[[] _]]; [by exists e|done].
  - rewrite list_lookup_insert_ne by done. split; [by right|]. by intros [[? _]|[_ ?]].
Qed.

Lemma put_unique tbl o e : (o < length tbl)%nat -> unique tbl ->
  (occupied e = true -> forall o', stored tbl (addr e) o' -> o' = o) -> unique (<[o := e]> tbl).
Proof.
  intros Hl Hu He a o1 o2. rewrite !stored_insert by done.
  intros [(-> & Ho & <-)|[Hn H1]] [(-> & Ho' & Ha)|[Hn' H2]]; [done| | |by apply (Hu a)].
  - exfalso. by apply Hn', He.
  - subst a. exfalso. by apply Hn, He.
Qed.

Lemma put_contents tbl o e b : (o < length tbl)%nat -> unique tbl ->
  (occupied e = true -> forall o', stored tbl (addr e) o' -> o' = o) ->
  contents (<[o := e]> tbl) b =
    if occupied e && (b =? addr e) then Some (gate e)
    else if bool_decide (stored tbl b o) then None else contents tbl b.
Proof.
  intros Hl Hu He. pose proof (put_unique tbl o e Hl Hu He) as Hu'.
  destruct (occupied e) eqn:Ho; cbn [andb]; [destruct (Z.eqb_spec b (addr e)) as [->|Hb]|].
  1: { apply contents_Some; [done|]. exists o, e. by rewrite list_lookup_insert_eq. }
  all: case_bool_decide as Hst;
    [apply contents_None; intros o' [(-> & ? & ?)|[Hn Hs]]%stored_insert; [congruence| |done];
     apply Hn; by apply (Hu b)|].
  all: apply option_eq; intros g; rewrite !contents_Some by done; split.
  all: intros (o' & e' & He' & Hoc & Ha & Hg); exists o', e';
    (destruct (decide (o' = o)) as [->|Hne];
     [|rewrite list_lookup_insert_ne in * by done; done]).
  all: try (rewrite list_lookup_insert_eq in He' by done; injection He' as <-; congruence).
  all: exfalso; apply Hst; by exists e'.
Qed.

Section Refinement.
Context (crc : Z -> Z -> Z).
Hypothesis crc_word : forall a b, in_word 32 (crc a b).

(** The two buckets an address can be in. *)
Definition primary (t : l2_table) (a : Z) : Z := l2_hash_to_index (l2_hash crc a) (size t).
Definition alternate (t : l2_table) (a : Z) : Z :=
  default 0 (l2_alt_index (l2_hash crc a) (size_power t) (primary t a)).

Definition in_bucket (t : l2_table) (idx : Z) (o : nat) : Prop :=
  exists i, 0 <= i < bucket t /\ o = slot t idx i.

Definition at_home (t : l2_table) (a : Z) (o : nat) : Prop :=
  in_bucket t (primary t a) o \/ in_bucket t (alternate t a) o.

Record Inv (t : l2_table) : Prop := {
  inv_wf : wf t;
  inv_home : forall a o, stored (table t) a o -> at_home t a o;
  inv_unique : unique (table t) }.

Lemma primary_bound t a : wf t -> 0 <= primary t a < size t.
Proof. intros Hw. apply primary_range; [done|]. apply crc_word. Qed.

Lemma alternate_eq t a : wf t ->
  l2_alt_index (l2_hash crc a) (size_power t) (primary t a) = Some (alternate t a) /\
  0 <= alternate t a < size t.
Proof.
  intros Hw. unfold alternate. by destruct (alt_range t (l2_hash crc a) (primary t a) Hw) as (alt & -> & ?).
Qed.

Lemma at_offset_slot t tbl idx i : wf t -> length tbl = length (table t) ->
  0 <= idx < size t -> 0 <= i < bucket t ->
  exists e, at_offset tbl (l2_ib_to_offset t idx i) = Some e /\ tbl !! slot t idx i = Some e.
Proof.
  intros Hw Hl Hi Hb. unfold at_offset. rewrite offset_small by (done || lia).
  destruct (lookup_lt_is_Some_2 tbl (slot t idx i)) as [e He]; [rewrite Hl; by apply slot_lt|].
  exists e. done.
Qed.

(** The search of the slots [i], [i + 1], ... of a bucket. *)
Lemma scan_spec t idx a n i : wf t -> 0 <= idx < size t -> 0 <= i -> i + Z.of_nat n = bucket t ->
  exists r, l2_scan n (table t) a (l2_ib_to_offset t idx i) = Some r /\
    match r with
    | Some o => exists k, 0 <= k < bucket t /\ o = idx * bucket t + k /\ stored (table t) a (slot t idx k)
    | None => forall k, i <= k < bucket t -> ~ stored (table t) a (slot t idx k)
    end.
Proof.
  intros Hw Hi. revert i. induction n as [|n IH]; intros i Hi0 Hn; cbn [l2_scan].
  - exists None. split; [done|]. intros k. lia.
  - destruct (at_offset_slot t (table t) idx i) as (e & He & He'); [done..|lia|].
    rewrite He. cbn [mbind option_bind]. destruct (occupied e && (a =? addr e)) eqn:Hm.
    + apply andb_prop in Hm as [Ho Ha%Z.eqb_eq]. eexists. split; [done|]. exists i.
      split; [lia|]. split; [by rewrite offset_small by (done || lia)|]. by exists e.
    + rewrite (offset_small t idx i), (wrap_small 32) by (done || lia || pose proof (size_bounds t Hw); pose proof (wf_bucket t Hw); unfold in_word; nia).
      replace (idx * bucket t + i + 1) with (l2_ib_to_offset t idx (i + 1))
        by (rewrite offset_small by (done || lia); lia).
      destruct (IH (i + 1) ltac:(lia) ltac:(lia)) as (r & -> & Hr). exists r. split; [done|].
      destruct r; [done|]. intros k Hk. destruct (decide (k = i)) as [->|Hne]; [|apply Hr; lia].
      intros (e' & He'' & Hoc & Ha). rewrite He' in He''. injection He'' as <-.
      rewrite Hoc in Hm. cbn in Hm. apply Z.eqb_neq in Hm. congruence.
Qed.

Lemma free_slot_spec t tbl idx n i : wf t -> length tbl = length (table t) ->
  0 <= idx < size t -> 0 <= i -> i + Z.of_nat n = bucket t ->
  exists r, free_slot n t tbl idx i = Some r /\
    match r with
    | Some k => i <= k < bucket t /\ exists e, tbl !! slot t idx k = Some e /\ occupied e = false
    | None => forall k, i <= k < bucket t -> exists e, tbl !! slot t idx k = Some e /\ occupied e = true
    end.
Proof.
  intros Hw Hl Hi. revert i. induction n as [|n IH]; intros i Hi0 Hn; cbn [free_slot].
  - exists None. split; [done|]. intros k. lia.
  - destruct (at_offset_slot t tbl idx i) as (e & He & He'); [done..|lia|].
    rewrite He. cbn [mbind option_bind]. destruct (occupied e) eqn:Ho; cbn [negb].
    + destruct (IH (i + 1) ltac:(lia) ltac:(lia)) as (r & -> & Hr). exists r. split; [done|].
      destruct r as [k|]; [split; [lia|apply Hr]|].
      intros k Hk. destruct (decide (k = i)) as [->|Hne]; [by exists e|apply Hr; lia].
    + exists (Some i). split; [done|]. split; [lia|]. by exists e.
Qed.

Lemma bucket_pos t : wf t -> 0 < bucket t /\ Z.of_nat (Z.to_nat (bucket t)) = bucket t.
Proof. intros Hw. pose proof (wf_bucket t Hw). lia. Qed.

Lemma find_offset_spec t a : Inv t ->
  exists r, l2_find_offset crc t a = Some r /\
    match r with
    | inr o => exists k, stored (table t) a k /\ k = Z.to_nat o
    | inl e => e = ENOENT /\ forall k, ~ stored (table t) a k
    end.
Proof.
  intros [Hw Hh Hu]. destruct (bucket_pos t Hw) as [Hb Hb']. unfold l2_find_offset.
  change (l2_hash_to_index (l2_hash crc a) (size t)) with (primary t a).
  destruct (scan_spec t (primary t a) a (Z.to_nat (bucket t)) 0) as (r1 & -> & H1);
    [done|by apply primary_bound|lia..|].
  cbn [mbind option_bind]. destruct r1 as [o|].
  { eexists. split; [done|]. destruct H1 as (k & _ & -> & Hst). exists (slot t (primary t a) k). done. }
  destruct (alternate_eq t a Hw) as [-> Hal]. cbn [mbind option_bind].
  destruct (scan_spec t (alternate t a) a (Z.to_nat (bucket t)) 0) as (r2 & -> & H2); [done|done|lia..|].
  cbn [mbind option_bind]. destruct r2 as [o|].
  { eexists. split; [done|]. destruct H2 as (k & _ & -> & Hst). exists (slot t (alternate t a) k). done. }
  eexists. split; [done|]. split; [done|]. intros k Hst.
  destruct (Hh a k Hst) as [(i & Hi & ->)|(i & Hi & ->)]; [by apply (H1 i)|by apply (H2 i)].
Qed.

(** Off the 4-way path, [l2_find] is [l2_find_offset] followed by a read. *)
Lemma find_by_offset avx t a : bucket t <> 4 ->
  l2_find crc avx t a =
    (r ← l2_find_offset crc t a;
     match r with inl e => Some (inl e) | inr o => e ← at_offset (table t) o; Some (inr (gate e)) end).
Proof.
  intros Hb. unfold l2_find, l2_find_offset. rewrite (proj2 (Z.eqb_neq _ _) Hb).
  destruct (l2_scan _ _ _ _) as [[o|]|]; try done. cbn [mbind option_bind].
  destruct (l2_alt_index _ _ _) as [idx|]; [|done]. cbn [mbind option_bind].
  by destruct (l2_scan _ _ _ _) as [[o|]|].
Qed.

Lemma find_spec avx t a : Inv t -> bucket t <> 4 ->
  l2_find crc avx t a = Some (match contents (table t) a with Some g => inr g | None => inl ENOENT end).
Proof.
  intros HI Hb. rewrite find_by_offset by done.
  destruct (find_offset_spec t a HI) as (r & -> & Hr). cbn [mbind option_bind]. destruct r as [e|o].
  - destruct Hr as [-> Hn]. by rewrite (proj2 (contents_None _ _) Hn).
  - destruct Hr as (k & (e & He & Ho & Ha) & ->). unfold at_offset. rewrite He. cbn.
    rewrite (proj2 (contents_Some (table t) a (gate e) (inv_unique t HI))); [done|eauto 6].
Qed.

Lemma wf_with_table t tbl n : wf t -> length tbl = length (table t) -> wf (with_table t tbl n).
Proof. intros [???Hl] H. split; try done. cbn. by rewrite H. Qed.

Lemma put_Inv t o e n : Inv t -> (o < length (table t))%nat ->
  (occupied e = true -> at_home t (addr e) o /\ forall o', stored (table t) (addr e) o' -> o' = o) ->
  Inv (with_table t (<[o := e]> (table t)) n).
Proof.
  intros [Hw Hh Hu] Ho He. split.
  - apply wf_with_table; [done|]. by rewrite length_insert.
  - intros a o'. cbn [with_table table]. rewrite stored_insert by done.
    intros [(-> & Hoc & <-)|[_ Hst]]; [by apply He|by apply Hh].
  - apply put_unique; [done|done|]. intros Hoc. by apply He.
Qed.

Lemma in_bucket_lt t idx o : wf t -> 0 <= idx < size t -> in_bucket t idx o -> (o < length (table t))%nat.
Proof. intros Hw Hi (i & ? & ->). by apply slot_lt. Qed.

Lemma stored_lt tbl a o : stored tbl a o -> (o < length tbl)%nat.
Proof. intros (e & He & _). by eapply lookup_lt_Some. Qed.

(** The table after slot [i] of bucket [idx1] was moved to a free slot of its other bucket. *)
Definition moved (t : l2_table) (idx1 i : Z) (tbl : list l2_entry) : Prop :=
  exists e o2, table t !! slot t idx1 i = Some e /\ occupied e = true /\
    in_bucket t (alternate t (addr e)) o2 /\ (forall a, ~ stored (table t) a o2) /\
    (o2 < length (table t))%nat /\
    tbl = <[slot t idx1 i := clear_occupied e]> (<[o2 := e]> (table t)).

Lemma try_moving_spec t idx1 n i : wf t -> 0 <= idx1 < size t -> 0 <= i -> i + Z.of_nat n = bucket t ->
  (forall k, 0 <= k < bucket t -> exists e, table t !! slot t idx1 k = Some e /\ occupied e = true) ->
  exists r, try_moving crc n t idx1 i = Some r /\
    match r with Some tbl => exists k, 0 <= k < bucket t /\ moved t idx1 k tbl | None => True end.
Proof.
  intros Hw Hidx. revert i. induction n as [|n IH]; intros i Hi Hn Hfull; cbn [try_moving].
  { by exists None. }
  destruct (Hfull i ltac:(lia)) as (e & He & Hoc).
  destruct (at_offset_slot t (table t) idx1 i) as (e' & Hat & He'); [done..|lia|].
  rewrite He in He'. injection He' as <-. rewrite Hat. cbn [mbind option_bind].
  change (l2_hash_to_index (l2_hash crc (addr e)) (size t)) with (primary t (addr e)).
  destruct (alternate_eq t (addr e) Hw) as [-> Hal]. cbn [mbind option_bind].
  destruct (_ || _); [by exists None|]. destruct (bucket_pos t Hw) as [Hb Hb'].
  destruct (free_slot_spec t (table t) (alternate t (addr e)) (Z.to_nat (bucket t)) 0)
    as (j & -> & Hj); [done|done|done|lia|lia|].
  cbn [mbind option_bind]. destruct j as [j|]; [|apply IH; [lia|lia|done]].
  destruct Hj as (Hj & e2 & He2 & Hf2).
  assert (Hlt : (slot t (alternate t (addr e)) j < length (table t))%nat) by (apply slot_lt; done || lia).
  rewrite offset_small by (done || lia). rewrite offset_small in Hat |- * by (done || lia).
  fold (slot t (alternate t (addr e)) j) (slot t idx1 i). unfold at_offset in *. fold (slot t idx1 i) in *.
  assert (Hne : slot t (alternate t (addr e)) j <> slot t idx1 i) by (intros H; rewrite H in He2; congruence).
  rewrite list_lookup_insert_ne, He by done. eexists. split; [done|]. exists i. split; [lia|].
  exists e, (slot t (alternate t (addr e)) j). repeat split; [done|done|by exists j| |done].
  intros a (e3 & He3 & Ho3 & _). congruence.
Qed.

Lemma moved_spec t idx1 i tbl n : Inv t -> moved t idx1 i tbl ->
  Inv (with_table t tbl n) /\ length tbl = length (table t) /\
  (forall b, contents tbl b = contents (table t) b) /\
  (forall b, ~ stored tbl b (slot t idx1 i)).
Proof.
  intros HI (e & o2 & He & Hoc & Hin & Hfree & Hlt & ->).
  set (o1 := slot t idx1 i) in *. pose proof (inv_unique t HI) as Hu.
  assert (Hst : stored (table t) (addr e) o1) by by exists e.
  assert (Hne : o1 <> o2) by (intros H; rewrite H in Hst; by eapply Hfree).
  pose proof (stored_lt _ _ _ Hst) as Hlt1.
  rewrite list_insert_insert_ne by done.
  assert (Hc : occupied (clear_occupied e) = true ->
    at_home t (addr (clear_occupied e)) o1 /\ forall o', stored (table t) (addr (clear_occupied e)) o' -> o' = o1) by done.
  pose proof (put_Inv t o1 _ n HI Hlt1 Hc) as HI1.
  set (tbl1 := <[o1 := clear_occupied e]> (table t)) in *.
  assert (Hl1 : length tbl1 = length (table t)) by apply length_insert.
  assert (Hput : forall o', stored tbl1 (addr e) o' -> o' = o2).
  { intros o' [(-> & ? & _)|[Hn Ho']]%stored_insert; [done| |done].
    exfalso. apply Hn. by apply (Hu (addr e)). }
  split; [|split; [|split]].
  - apply (put_Inv (with_table t tbl1 n) o2 e n HI1); [change (o2 < length tbl1)%nat; lia|]. intros _. split; [by right|done].
  - by rewrite length_insert, Hl1.
  - intros b. rewrite put_contents; [|by rewrite Hl1|apply (inv_unique _ HI1)|done].
    unfold tbl1. rewrite put_contents by done. rewrite Hoc. cbn [occupied clear_occupied andb].
    rewrite (bool_decide_eq_false_2 (stored _ b o2)).
    2: { intros [(? & _)|[_ Hs]]%stored_insert; [done|by apply (Hfree b)|done]. }
    destruct (Z.eqb_spec b (addr e)) as [->|Hb].
    + symmetry. apply contents_Some; [done|]. by exists o1, e.
    + rewrite bool_decide_eq_false_2; [done|]. intros (e' & He' & _ & Ha). congruence.
  - intros b. rewrite stored_insert by (by rewrite Hl1). intros [(? & _)|[_ Hs]]; [done|].
    revert Hs. unfold tbl1. rewrite stored_insert by done. intros [(_ & ? & _)|[? _]]; done.
Qed.

(** A new entry for [a], which is not in the table, at slot [b] of its primary bucket. *)
Lemma add_at t tbl a g b n : Inv (with_table t tbl n) -> length tbl = length (table t) ->
  in_word 48 a -> in_word 15 g -> 0 <= b < bucket t -> contents tbl a = None ->
  let tbl' := <[slot t (primary t a) b := L2Entry (wrap 48 a) (wrap 15 g) true]> tbl in
  Inv (with_table t tbl' (u64 (n + 1))) /\
  forall c, contents tbl' c =
    if c =? a then Some g
    else if bool_decide (stored tbl c (slot t (primary t a) b)) then None else contents tbl c.
Proof.
  intros HI Hl Ha Hg Hb Hc. pose proof (inv_wf _ HI) as Hw.
  rewrite contents_None in Hc. rewrite !wrap_small by done. cbn zeta.
  set (o := slot t (primary t a) b).
  assert (Hlt : (o < length tbl)%nat).
  { apply (slot_lt (with_table t tbl n)); [done| |done]. by apply (primary_bound (with_table t tbl n)). }
  split.
  - apply (put_Inv (with_table t tbl n) o (L2Entry a g true) _ HI Hlt). intros _. split.
    + left. by exists b.
    + intros o' Hs. by apply Hc in Hs.
  - intros c. rewrite put_contents; [done|done|apply (inv_unique _ HI)|].
    intros _ o' Hs. by apply Hc in Hs.
Qed.

(** [l2_add_entry] by cases; [victim] is the address that the new entry overwrites. *)
Lemma add_spec avx t a g : Inv t -> bucket t <> 4 -> in_word 48 a -> in_word 15 g ->
  exists t' r, l2_add_entry crc avx t a g = Some (t', r) /\ Inv t' /\ bucket t' = bucket t /\
    match r with
    | inl EEXIST => contents (table t) a <> None /\ t' = t
    | inl ENOMEM => contents (table t) a = None /\ t' = t
    | inl _ => False
    | inr _ => contents (table t) a = None /\ exists victim,
        (victim <> None -> bucket t = 2 /\ forall i, 0 <= i < bucket t -> exists c,
           stored (table t) c (slot t (primary t a) i)) /\
        forall c, contents (table t') c =
          if c =? a then Some g else if bool_decide (victim = Some c) then None else contents (table t) c
    end.
Proof.
  intros HI Hb4 Ha Hg. unfold l2_add_entry. rewrite find_spec by done. cbn [mbind option_bind].
  destruct (contents (table t) a) as [g0|] eqn:Hc; [by exists t, (inl EEXIST)|].
  pose proof (inv_wf t HI) as Hw. destruct (bucket_pos t Hw) as [Hb Hb'].
  pose proof (primary_bound t a Hw) as Hp. unfold l2_find_slot.
  change (l2_hash_to_index (l2_hash crc a) (size t)) with (primary t a).
  assert (HI0 : Inv (with_table t (table t) (count t))) by by destruct t.
  destruct (free_slot_spec t (table t) (primary t a) (Z.to_nat (bucket t)) 0)
    as (r & -> & Hr); [done|done|done|lia|lia|]. cbn [mbind option_bind].
  destruct r as [i|]; cbn [mbind option_bind].
  - destruct Hr as (Hi & e & He & Hf).
    destruct (at_offset_slot t (table t) (primary t a) i) as (e' & -> & _); [done..|].
    cbn [mbind option_bind]. rewrite offset_small by (done || lia). fold (slot t (primary t a) i).
    destruct (add_at t (table t) a g i (count t)) as [HI' Hc']; [done..|].
    eexists _, (inr tt). split; [done|]. split; [done|]. split; [done|]. split; [done|].
    exists None. split; [done|]. intros c. rewrite Hc'. cbn [with_table table].
    destruct (c =? a); [done|]. rewrite !bool_decide_eq_false_2; [done|done|].
    intros (e2 & He2 & Ho2 & _). congruence.
  - destruct (try_moving_spec t (primary t a) (Z.to_nat (bucket t)) 0) as (r & -> & Hm); [done|done|lia|lia|done|].
    cbn [mbind option_bind]. destruct r as [tbl|].
    2: { exists t, (inl ENOMEM). split; [by destruct t|]. done. }
    cbn [mbind option_bind]. destruct Hm as (i & Hi & Hm). destruct (moved_spec t _ i tbl (count t) HI Hm) as (HIm & Hl & Hcm & Hfree).
    destruct (at_offset_slot t tbl (primary t a) 0) as (e' & -> & He'); [done..|lia|].
    cbn [mbind option_bind]. rewrite offset_small by (done || lia). fold (slot t (primary t a) 0).
    destruct (add_at t tbl a g 0 (count t)) as [HI' Hc']; [done..|lia|by rewrite Hcm|].
    eexists _, (inr tt). split; [done|]. split; [done|]. split; [done|]. split; [done|].
    exists (if occupied e' then Some (addr e') else None). split.
    + intros Hv. destruct (occupied e') eqn:Ho; [|done]. split.
      * pose proof (wf_bucket t Hw) as [H1|[H2|H4]]; [|done|done]. exfalso.
        assert (i = 0) as -> by lia. apply (Hfree (addr e')). by exists e'.
      * intros k Hk. destruct (Hr k Hk) as (ek & Hek & Hok). exists (addr ek). by exists ek.
    + intros c. cbn [with_table table]. rewrite Hc', Hcm. destruct (c =? a); [done|].
      rewrite (bool_decide_ext (stored tbl c (slot t (primary t a) 0))
        ((if occupied e' then Some (addr e') else None) = Some c)); [done|]. split.
      * intros (e2 & He2 & Ho2 & <-). rewrite He' in He2. injection He2 as <-. by rewrite Ho2.
      * destruct (occupied e') eqn:Ho; [|done]. intros [= <-]. by exists e'.
Qed.

Lemma del_spec t a : Inv t ->
  exists t' r, l2_del_entry crc t a = Some (t', r) /\ Inv t' /\ bucket t' = bucket t /\
    r = match contents (table t) a with Some _ => inr tt | None => inl ENOENT end /\
    forall c, contents (table t') c = if c =? a then None else contents (table t) c.
Proof.
  intros HI. unfold l2_del_entry. destruct (find_offset_spec t a HI) as (r & -> & Hr). cbn [mbind option_bind].
  pose proof (inv_unique t HI) as Hu. destruct r as [e|o].
  - destruct Hr as [-> Hn]. apply contents_None in Hn. rewrite Hn.
    exists t, (inl ENOENT). do 4 (split; [done|]). intros c. destruct (Z.eqb_spec c a) as [->|]; done.
  - destruct Hr as (k & Hst & ->). pose proof (stored_lt _ _ _ Hst) as Hlt.
    destruct Hst as (e & He & Ho & Hae).
    rewrite (proj2 (contents_Some (table t) a (gate e) Hu)) by eauto 6.
    eexists _, _. split; [done|]. split; [by apply put_Inv|]. do 2 (split; [done|]).
    intros c. cbn [with_table table]. rewrite put_contents by done. cbn [empty_entry occupied andb].
    destruct (Z.eqb_spec c a) as [->|Hca].
    + rewrite bool_decide_eq_true_2; [done|]. by exists e.
    + rewrite bool_decide_eq_false_2; [done|]. intros (e' & He' & _ & Ha'). congruence.
Qed.
End Refinement.

(** ** Initialisation *)

Lemma power_of_2_spec n : 0 < n -> is_power_of_2 n = true -> n = 2 ^ Z.log2 n.
Proof.
  intros Hn [_ Hl%Z.eqb_eq]%andb_prop. pose proof (Z.log2_spec n Hn) as [Hlo Hhi].
  destruct (decide (n = 2 ^ Z.log2 n)) as [|Hne]; [done|exfalso].
  assert (Hlog : Z.log2 (n - 1) = Z.log2 n) by (apply Z.log2_unique; [apply Z.log2_nonneg|lia]).
  assert (Z.testbit (Z.land n (n - 1)) (Z.log2 n) = true) as Hb; [|by rewrite Hl, Z.bits_0 in Hb].
  rewrite Z.land_spec, Z.bit_log2 by done. rewrite <- Hlog, Z.bit_log2; [done|].
  assert (0 < 2 ^ Z.log2 n) by (apply Z.pow_pos_nonneg; [lia|apply Z.log2_nonneg]). lia.
Qed.

Lemma log_loop_spec p : 0 <= p <= 26 -> log_loop (2 ^ p) = Some (1, p).
Proof.
  intros Hp. assert (Forall (fun n => log_loop (2 ^ Z.of_nat n) = Some (1, Z.of_nat n)) (seq 0 27)) as H
    by (vm_compute; repeat constructor).
  rewrite Forall_forall in H. specialize (H (Z.to_nat p)). rewrite Z2Nat.id in H by lia.
  apply H, elem_of_seq. lia.
Qed.

Lemma init_spec crc t sz bk t' : l2_init true t sz bk = Some (t', inr tt) -> 1 < sz ->
  Inv crc t' /\ bucket t' = bk /\ forall a, contents (table t') a = None.
Proof.
  unfold l2_init. destruct ((sz <=? 0) || _ || _) eqn:H1; [done|].
  apply orb_false_elim in H1 as [[H1%Z.leb_gt H2%Z.ltb_ge]%orb_false_elim H3%negb_false_iff].
  destruct ((bk <=? 0) || _ || _) eqn:H4; [done|].
  apply orb_false_elim in H4 as [[H4%Z.leb_gt H5%Z.ltb_ge]%orb_false_elim H6%negb_false_iff].
  apply power_of_2_spec in H3; [|done]. cbn [negb]. intros Hl Hsz.
  assert (1 <= Z.log2 sz <= 26).
  { split; [apply (Z.log2_le_pow2 sz 1); lia|]. change 26 with (Z.log2 MAX_TABLE_SIZE). by apply Z.log2_le_mono. }
  rewrite H3, log_loop_spec, <- H3 in Hl by lia. cbn in Hl. injection Hl as <-.
  assert (Hempty : forall a, contents (replicate (Z.to_nat (sz * bk)) empty_entry) a = None).
  { intros a. apply contents_None. intros o (e & [-> _]%lookup_replicate & Ho & _). done. }
  split; [|done]. split.
  - split; cbn; [done|done| |rewrite length_replicate; nia].
    unfold MAX_BUCKET_SIZE in H5. assert (bk <> 3) by by intros ->. lia.
  - intros a o Hst. exfalso. by apply (proj1 (contents_None _ _) (Hempty a) o).
  - intros a o o' Hst. exfalso. by apply (proj1 (contents_None _ _) (Hempty a) o).
Qed.

(** ** Comparing four slots at once *)

Lemma land_bit q k : 0 <= k -> Z.land q (2 ^ k) = if Z.testbit q k then 2 ^ k else 0.
Proof.
  intros Hk. apply Z.bits_inj'. intros i Hi. rewrite Z.land_spec, Z.pow2_bits_eqb by done.
  destruct (Z.eqb_spec k i) as [<-|Hne].
  - rewrite andb_true_r. destruct (Z.testbit q k); [|by rewrite Z.bits_0]. by rewrite Z.pow2_bits_true.
  - rewrite andb_false_r. destruct (Z.testbit q k); [|by rewrite Z.bits_0]. by rewrite Z.pow2_bits_false.
Qed.

(** A masked word is its sign bit and its low 48 bits. *)
Lemma masked_word w : exists b m, Z.land w entry_mask = b * 2 ^ 63 + m /\ 0 <= b <= 1 /\
  m = w mod 2 ^ 48 /\ b = Z.b2z (Z.testbit w 63).
Proof.
  exists (Z.b2z (Z.testbit w 63)), (w mod 2 ^ 48).
  split; [|split; [destruct (Z.testbit w 63); cbn; lia|done]].
  rewrite (Z.div_mod w (2 ^ 48)) at 1 by lia. rewrite (Z.mul_comm (2 ^ 48)).
  change entry_mask with (2 ^ 15 * 2 ^ 48 + Z.ones 48).
  pose proof (Z.mod_pos_bound w (2 ^ 48) ltac:(lia)).
  rewrite land_cons; [|lia|done|split; [done|by vm_compute]].
  rewrite Z.land_ones, Z.mod_mod by lia. rewrite land_bit by done.
  rewrite <- Z.shiftr_div_pow2, Z.shiftr_spec by done. change (15 + 48) with 63.
  destruct (Z.testbit w 63); cbn [Z.b2z]; lia.
Qed.

Lemma sign_or a : in_word 48 a -> Z.lor a (Z.shiftl 1 63) = 1 * 2 ^ 63 + a.
Proof. intros Ha. rewrite Z.lor_comm. apply lor_shiftl_add; [done|]. unfold in_word in *. lia. Qed.

(** Numbers of this form are zeros or denormals: compared as doubles, they are equal
    when they are the same word or both zero. *)
Lemma denormal b m : 0 <= b <= 1 -> 0 <= m < 2 ^ 48 ->
  pd_nan (b * 2 ^ 63 + m) = false /\ pd_zero (b * 2 ^ 63 + m) = (m =? 0).
Proof.
  intros Hb Hm. split.
  - unfold pd_nan. rewrite Z.shiftr_div_pow2 by done.
    assert ((b * 2 ^ 63 + m) / 2 ^ 52 = b * 2 ^ 11) as ->.
    { symmetry. apply (Z.div_unique _ _ _ m); [lia|]. lia. }
    assert (b = 0 \/ b = 1) as [-> | ->] by lia; done.
  - unfold pd_zero. change (2 ^ 63 - 1) with (Z.ones 63). rewrite Z.land_ones by done.
    rewrite Z.add_comm, Z.mod_add, Z.mod_small by lia. done.
Qed.

Lemma lane_equiv a w : in_word 48 a -> a <> 0 ->
  pd_eq (Z.lor a (Z.shiftl 1 63)) (Z.land w entry_mask) = (Z.lor a (Z.shiftl 1 63) =? Z.land w entry_mask).
Proof.
  intros Ha Hn. rewrite (sign_or a Ha). destruct (masked_word w) as (b & m & -> & Hb & -> & _).
  pose proof (Z.mod_pos_bound w (2 ^ 48) ltac:(lia)) as Hm. unfold pd_eq.
  destruct (denormal 1 a ltac:(lia) Ha) as [-> ->]. destruct (denormal b _ Hb Hm) as [-> ->].
  by rewrite (proj2 (Z.eqb_neq a 0) Hn).
Qed.

Lemma find_index_avx_basic a words : in_word 48 a -> a <> 0 -> find_index_avx a words = find_index_basic a words.
Proof.
  intros Ha Hn. unfold find_index_avx, find_index_basic. generalize 0.
  induction words as [|w words IH]; intros i; cbn [first_lane]; [done|].
  by rewrite lane_equiv, IH.
Qed.

(** The fields of an entry fit their widths. *)
Definition fields_ok (e : l2_entry) : Prop := in_word 48 (addr e) /\ in_word 15 (gate e).

#[export] Instance fields_ok_dec e : Decision (fields_ok e).
Proof. unfold fields_ok. apply _. Defined.

Lemma entry_lane a e : in_word 48 a -> fields_ok e ->
  (Z.lor a (Z.shiftl 1 63) =? Z.land (entry_word e) entry_mask) = occupied e && (addr e =? a).
Proof.
  intros Ha [He Hg]. rewrite (sign_or a Ha). destruct (masked_word (entry_word e)) as (b & m & -> & Hb & Hm & Hbit).
  unfold entry_word in *. rewrite Z.shiftl_mul_pow2 in * by done. unfold in_word in *.
  assert (Hme : m = addr e).
  { rewrite Hm. symmetry. apply (Z.mod_unique _ _ (gate e + (if occupied e then 2 ^ 15 else 0))); [lia|].
    destruct (occupied e); lia. }
  assert (Hbe : b = Z.b2z (occupied e)).
  { rewrite Hbit. f_equal. destruct (occupied e).
    - replace (addr e + gate e * 2 ^ 48 + 2 ^ 63) with (addr e + gate e * 2 ^ 48 + 1 * 2 ^ 63) by lia.
      rewrite Z.testbit_true by done. rewrite Z.div_add, Z.div_small by lia. done.
    - rewrite Z.testbit_false by done. rewrite Z.div_small by lia. done. }
  rewrite Hme, Hbe. apply eq_iff_eq_true. rewrite andb_true_iff, !Z.eqb_eq.
  destruct (occupied e); cbn [Z.b2z]; lia.
Qed.

Lemma find_index_entry avx a e : in_word 48 a -> a <> 0 -> fields_ok e ->
  find_index avx a (words_at e) = if occupied e && (addr e =? a) then 1 else 0.
Proof.
  intros Ha Hn He.
  assert (find_index avx a (words_at e) = find_index_basic a (words_at e)) as ->
    by (destruct avx; [by apply find_index_avx_basic|done]).
  unfold find_index_basic, words_at. cbn [first_lane]. rewrite entry_lane by done.
  destruct (occupied e && _); [done|]. rewrite Z.land_0_l, (proj2 (Z.eqb_neq _ 0)); [done|].
  rewrite sign_or by done. unfold in_word in Ha. lia.
Qed.

(** ** Properties *)


(** With four slots per bucket, the default, [l2_find] looks at the first slot of
    the two buckets only: the comparison of four words covers one entry, which is 32
    bytes long, and its padding. *)
Theorem l2_find_four_way crc avx t a : (forall x y, in_word 32 (crc x y)) ->
  wf t -> bucket t = 4 -> Forall fields_ok (table t) -> in_word 48 a -> a <> 0 ->
  let first idx := match table t !! slot t idx 0 with
                   | Some e => if occupied e && (addr e =? a) then Some (gate e) else None
                   | None => None end in
  l2_find crc avx t a =
    Some (match first (primary crc t a), first (alternate crc t a) with
          | Some g, _ => inr g
          | None, Some g => inr g
          | None, None => inl ENOENT
          end).
Proof.
  intros Hc Hw Hb Hf Ha Hn first. unfold l2_find. rewrite (proj2 (Z.eqb_eq _ _) Hb).
  change (l2_hash_to_index (l2_hash crc a) (size t)) with (primary crc t a).
  assert (forall idx, 0 <= idx < size t -> exists e, table t !! slot t idx 0 = Some e /\ fields_ok e /\
    at_offset (table t) (l2_ib_to_offset t idx 0) = Some e) as Hat.
  { intros idx Hi. destruct (at_offset_slot t (table t) idx 0) as (e & He & He'); [done..|lia|].
    exists e. split; [done|]. split; [|done]. by eapply Forall_lookup_1. }
  destruct (Hat (primary crc t a)) as (e1 & H1 & Hf1 & ->); [by apply primary_bound|].
  cbn [mbind option_bind]. rewrite (find_index_entry avx a e1) by done. unfold first. rewrite H1.
  destruct (occupied e1 && (addr e1 =? a)) eqn:Hm1; cbn [Z.eqb negb].
  { rewrite Z.add_simpl_r. destruct (Hat (primary crc t a)) as (e & He & _ & ->); [by apply primary_bound|].
    cbn. congruence. }
  destruct (alternate_eq crc t a Hw) as [-> Hal]. cbn [mbind option_bind].
  destruct (Hat (alternate crc t a) Hal) as (e2 & H2 & Hf2 & Hat2). rewrite Hat2. cbn [mbind option_bind].
  rewrite (find_index_entry avx a e2) by done. rewrite H2.
  destruct (occupied e2 && (addr e2 =? a)); [|done]. rewrite Z.add_simpl_r, Hat2. done.
Qed.

(** The module sends each packet to the gate of its destination address, which is
    the first six bytes, or to the default gate. *)
Theorem l2_process_batch crc avx m heads : (forall x y, in_word 32 (crc x y)) ->
  Inv crc (l2_table_ m) -> bucket (l2_table_ m) <> 4 ->
  Forall (fun head => bytes_ok head /\ (8 <= length head)%nat) heads ->
  ProcessBatch crc avx m heads =
    Some (map (fun head => default (default_gate_ m) (contents (table (l2_table_ m)) (le_load (take 6 head)))) heads).
Proof.
  intros Hc HI Hb Hh. induction Hh as [|head heads [Hok Hlen] _ IH]; [done|].
  cbn [ProcessBatch map]. change 0x0000ffffffffffff with (Z.ones 48). rewrite Z.land_ones by done.
  change (2 ^ 48) with (256 ^ Z.of_nat 6).
  rewrite le_load_mod by (auto with bess || (rewrite length_take; lia)). rewrite take_take.
  change (Nat.min 6 8) with 6%nat. rewrite find_spec, IH by done. cbn [mbind option_bind].
  by destruct (contents _ _).
Qed.

(** ** Concrete tables *)

(** A table of two buckets in which every address hashes to bucket 0. *)
Definition ex_crc (a seed : Z) : Z := 0.
Definition ex_init (bk : Z) : l2_table :=
  match l2_init true (L2Table [] 0 0 0 0) 2 bk with Some (t, _) => t | None => L2Table [] 0 0 0 0 end.
Definition ex_add (t : l2_table) (a g : Z) : l2_table :=
  match l2_add_entry ex_crc true t a g with Some (t, _) => t | None => t end.

Lemma ex_crc_word x y : in_word 32 (ex_crc x y).
Proof. done. Qed.

Lemma ex_Inv bk : bk = 1 \/ bk = 2 -> Inv ex_crc (ex_init bk).
Proof. intros [-> | ->]; [apply (init_spec ex_crc (L2Table [] 0 0 0 0) 2 1)|apply (init_spec ex_crc (L2Table [] 0 0 0 0) 2 2)]; done. Qed.


Lemma l2_find_four_way_witness :
  l2_find ex_crc true (ex_add (ex_init 4) 0x020000000001 7) 0x020000000001 = Some (inr 7).
Proof.
  rewrite (l2_find_four_way ex_crc true (ex_add (ex_init 4) 0x020000000001 7) 0x020000000001).
  - vm_compute. reflexivity.
  - apply ex_crc_word.
  - split; [split; vm_compute; congruence|vm_compute; reflexivity|right; right; vm_compute; reflexivity|vm_compute; reflexivity].
  - vm_compute. reflexivity.
  - apply (bool_decide_unpack _). vm_compute. exact I.
  - split; vm_compute; congruence.
  - vm_compute. congruence.
Defined.

Lemma l2_process_batch_witness :
  ProcessBatch ex_crc true (L2Forward (ex_init 2) DROP_GATE) [replicate 14 2] = Some [DROP_GATE].
Proof.
  rewrite (l2_process_batch ex_crc true (L2Forward (ex_init 2) DROP_GATE) [replicate 14 2]).
  - vm_compute. reflexivity.
  - apply ex_crc_word.
  - apply ex_Inv. by right.
  - vm_compute. congruence.
  - constructor; [|constructor]. split; [|cbn; lia]. vm_compute. repeat constructor; congruence.
Defined.

(** In a table with the default four slots per bucket, two addresses of the same
    bucket can be added and the second is then not found, although it is there and
    [l2_del_entry] finds it. *)
Theorem l2_four_way_misses :
  exists t1 t2, l2_add_entry ex_crc true (ex_init 4) 0x020000000001 1 = Some (t1, inr tt) /\
    l2_add_entry ex_crc true t1 0x020000000002 2 = Some (t2, inr tt) /\
    l2_find ex_crc true t2 0x020000000002 = Some (inl ENOENT) /\
    contents (table t2) 0x020000000002 = Some 2 /\
    exists t3, l2_del_entry ex_crc t2 0x020000000002 = Some (t3, inr tt).
Proof.
  eexists _, _. split; [vm_compute; reflexivity|]. split; [vm_compute; reflexivity|].
  split; [reflexivity|]. split; [reflexivity|]. eexists. vm_compute. reflexivity.
Qed.

(** An address 0 that was never added is "found" by the comparison of doubles, where
    the negative zero it is compared as equals the empty slot. *)
Lemma l2_zero_address_found : l2_find ex_crc true (ex_init 4) 0 = Some (inr 0).
Proof. reflexivity. Qed.

(** [l2_init] accepts a table of one bucket, in which every miss shifts by -1. *)
Lemma l2_one_bucket_undefined crc avx : exists t, l2_init true (L2Table [] 0 0 0 0) 1 1 = Some (t, inr tt) /\
  l2_find crc avx t 1 = None.
Proof.
  eexists. split; [vm_compute; reflexivity|].
  unfold l2_find, l2_hash_to_index, l2_ib_to_offset. cbn [bucket size size_power table].
  change (u32 (u32 1 - 1)) with 0. rewrite Z.land_0_r. reflexivity.
Qed.

(** When slot 1 of a full bucket is the one that can move, the new entry still goes to
    slot 0 and overwrites it, although slot 1 is now free. *)
Lemma l2_move_overwrites : let crc a (_ : Z) := u32 a in
  exists t t', foldl (fun t a => t ← t; r ← l2_add_entry crc true t a a; Some r.1)
      (r ← l2_init true (L2Table [] 0 0 0 0) 4 2; Some r.1) [2; 6; 1; 5] = Some t /\
    contents (table t) 2 = Some 2 /\
    l2_add_entry crc true t 10 10 = Some (t', inr tt) /\ contents (table t') 2 = None /\ count t' = 5.
Proof.
  eexists _, _. split; [vm_compute; reflexivity|]. split; [reflexivity|].
  split; [vm_compute; reflexivity|]. split; reflexivity.
Qed.

(** [CommandPopulate] shifts the base twice: its low 16 bits are lost and the rest
    ends up two bytes too low. *)
Lemma l2_populate_shifts : let mac := [0x02; 0x00; 0x00; 0x00; 0x12; 0x34] in
  exists t, CommandPopulate ex_crc (fun _ => mac) true (ex_init 2) "02:00:00:00:12:34" 1 1 = Some (t, inr tt) /\
    contents (table t) (le_load mac) = None /\
    contents (table t) (le_load [0x00; 0x00; 0x02; 0x00; 0x00; 0x00]) = Some 0.
Proof. eexists. split; [vm_compute; reflexivity|]. split; reflexivity. Qed.
