(* ===== verification/ExactMatch.v ===== *)
(** The exact-match table and the exact-match module: [core/utils/exact_match_table.h],
    [core/modules/exact_match.h] and [core/modules/exact_match.cc].

    A key is the 64 bytes of an [ExactMatchKey].  The table is a cuckoo table whose
    hash and equality look at the first [total_key_size_] bytes of a key.  The CRC,
    the metadata attributes and the message encoding are arguments. *)
From stdpp Require Import strings.
From S2P Require Import Prelude Common Endian Bits CuckooMap.

Definition MAX_FIELDS : nat := 8.
Definition MAX_FIELD_SIZE : Z := 8.
Definition HASH_KEY_SIZE : nat := 64.
Definition MAX_GATES : Z := 8192.
Definition DROP_GATE : Z := MAX_GATES.

(** [u64_arr[i]] *)
Definition u64_at (key : bytes) (i : nat) : Z := le_load (take 8 (drop (8 * i) key)).

Definition ExactMatchKeyEq (len : Z) (lhs rhs : bytes) : bool :=
  forallb (fun i => u64_at lhs i =? u64_at rhs i) (seq 0 (Z.to_nat (len / 8))).

Record ExactMatchField := MkField {
  mask : Z;
  attr_id : Z;
  offset : Z;
  pos : Z;
  size : Z }.
#[export] Instance field_dec : EqDecision ExactMatchField.
Proof. solve_decision. Defined.

Definition zero_field : ExactMatchField := MkField 0 0 0 0 0.

Definition with_mask (f : ExactMatchField) (m : Z) : ExactMatchField :=
  MkField m (attr_id f) (offset f) (pos f) (size f).
Definition with_pos (f : ExactMatchField) (p : Z) : ExactMatchField :=
  MkField (mask f) (attr_id f) (offset f) p (size f).

Section Table.
Context {T : Type} (t0 : T).
(** [crc32c_sse42_u64(data, init)] *)
Context (crc : Z -> Z -> Z).

Definition ExactMatchKeyHash (len : Z) (key : bytes) : Z :=
  foldl (fun init_val i => crc (u64_at key i) init_val) 0 (seq 0 (Z.to_nat (len / 8))).

Abbreviation EmTable := (CuckooMap.t (K := bytes) (V := T)).
(** A default-constructed entry of the cuckoo table. *)
Definition entry0 : bytes * T := (replicate HASH_KEY_SIZE 0, t0).

Record ExactMatchTable := MkTable {
  raw_key_size_ : Z;
  total_key_size_ : Z;
  num_fields_ : nat;
  fields_ : list ExactMatchField;
  table_ : EmTable }.

Definition new_table : ExactMatchTable :=
  MkTable 0 0 0 (replicate MAX_FIELDS zero_field)
    (CuckooMap.make entry0 kInitNumBucket kInitNumEntries).

Definition get_field (t : ExactMatchTable) (i : nat) : ExactMatchField := nth i (fields_ t) zero_field.
Definition with_fields (t : ExactMatchTable) (fs : list ExactMatchField) : ExactMatchTable :=
  MkTable (raw_key_size_ t) (total_key_size_ t) (num_fields_ t) fs (table_ t).
Definition with_rules (t : ExactMatchTable) (m : EmTable) : ExactMatchTable :=
  MkTable (raw_key_size_ t) (total_key_size_ t) (num_fields_ t) (fields_ t) m.

(** ** Fields *)

(** [DoAddField]: [attr] is what [m->AddMetadataAttr] returns for a named attribute,
    [None] for a field at an offset.  The field in the array is changed step by step,
    also when an error follows. *)
Definition DoAddField (t : ExactMatchTable) (field : ExactMatchField) (attr : option Z) (idx : nat)
    : ExactMatchTable * (errno + unit) :=
  if (MAX_FIELDS <=? idx)%nat then (t, inl EINVAL)
  else
    let f := get_field t idx in
    let f := MkField (mask f) (attr_id f) (offset f) (pos f) (size field) in
    let put f := with_fields t (<[idx := f]> (fields_ t)) in
    if (size f <? 1) || (MAX_FIELD_SIZE <? size f) then (put f, inl EINVAL)
    else
      let f := match attr with
               | Some id => MkField (mask f) id (offset f) (pos f) (size f)
               | None => MkField (mask f) (-1) (offset field) (pos f) (size f)
               end in
      if match attr with
         | Some id => id <? 0
         | None => (offset f <? 0) || (1024 <? offset f)
         end then (put f, inl EINVAL)
      else
        let force_be := attr_id f <? 0 in
        let '(m, ok) :=
          if mask field =? 0 then (SetBitsHigh 64 (size f * 8), true)
          else
            let '(out, ok) := uint64_to_bin (le_store 8 (mask f)) (mask field) (Z.to_nat (size f)) force_be in
            (le_load out, ok) in
        let f := with_mask f m in
        if negb ok then (put f, inl EINVAL)
        else if mask f =? 0 then (put f, inl EINVAL)
        else
          let raw := raw_key_size_ t + size f in
          (MkTable raw (align_ceil raw 8) (S (num_fields_ t))
             (<[idx := with_pos f (raw_key_size_ t)]> (fields_ t)) (table_ t), inr tt).

Definition AddField (t : ExactMatchTable) (off sz m : Z) (idx : nat) :=
  DoAddField t (MkField m 0 off 0 sz) None idx.
Definition AddField_attr (t : ExactMatchTable) (id sz m : Z) (idx : nat) :=
  DoAddField t (MkField m 0 0 0 sz) (Some id) idx.

(** ** Keys *)

(** The rule's key: zeroes with the bytes of each field at its position. *)
Fixpoint gather_fields (t : ExactMatchTable) (i : nat) (fields : list bytes) (key : bytes)
    : errno + bytes :=
  match fields with
  | [] => inr key
  | f_obj :: fields' =>
      let f := get_field t i in
      if negb (size f =? Z.of_nat (length f_obj)) then inl EINVAL
      else gather_fields t (S i) fields' (write (Z.to_nat (pos f)) f_obj key)
  end.

Definition gather_key (t : ExactMatchTable) (fields : list bytes) : errno + bytes :=
  if negb (length fields =? num_fields_ t)%nat then inl EINVAL
  else gather_fields t 0 fields (replicate HASH_KEY_SIZE 0).

(** An 8-byte store into the key; [None] outside of it. *)
Definition store8 (key : bytes) (p v : Z) : option bytes :=
  if (0 <=? p) && (p + 8 <=? Z.of_nat HASH_KEY_SIZE) then Some (write (Z.to_nat p) (le_store 8 v) key) else None.

(** The loop over the fields for one key; [buffer_fn] is what the pointer for a field
    points to. *)
Fixpoint make_fields (buffer_fn : ExactMatchField -> bytes) (fs : list ExactMatchField) (key : bytes)
    : option bytes :=
  match fs with
  | [] => Some key
  | f :: fs' =>
      w ← slice 0 8 (buffer_fn f);
      key ← store8 key (pos f) (Z.land (le_load w) (mask f));
      make_fields buffer_fn fs' key
  end.

(** [MakeKeys] for one packet; [key] is what the uninitialised key holds. *)
Definition MakeKey (t : ExactMatchTable) (buffer_fn : ExactMatchField -> bytes) (key : bytes)
    : option bytes :=
  let last := u64 (total_key_size_ t - 1) / 8 in
  key ← store8 key (last * 8) 0;
  make_fields buffer_fn (take (num_fields_ t) (fields_ t)) key.

(** [DoMakeKeys]: the buffer is the same for all fields, which have offsets in it. *)
Definition DoMakeKey (t : ExactMatchTable) (buf key : bytes) : option bytes :=
  MakeKey t (fun f => drop (Z.to_nat (offset f)) buf) key.

(** ** Rules *)

Definition AddRule (t : ExactMatchTable) (val : T) (fields : list bytes)
    : option (ExactMatchTable * (errno + unit)) :=
  if (length fields =? 0)%nat then Some (t, inl EINVAL)
  else match gather_key t fields with
  | inl e => Some (t, inl e)
  | inr key =>
      r ← CuckooMap.Insert (ExactMatchKeyHash (total_key_size_ t)) (ExactMatchKeyEq (total_key_size_ t))
            entry0 (table_ t) key val;
      Some (with_rules t r.1, inr tt)
  end.

Definition DeleteRule (t : ExactMatchTable) (fields : list bytes) : ExactMatchTable * (errno + unit) :=
  if (length fields =? 0)%nat then (t, inl EINVAL)
  else match gather_key t fields with
  | inl e => (t, inl e)
  | inr key =>
      let '(m, ret) := CuckooMap.Remove (ExactMatchKeyHash (total_key_size_ t))
                         (ExactMatchKeyEq (total_key_size_ t)) entry0 (table_ t) key in
      (with_rules t m, if ret then inr tt else inl ENOENT)
  end.

Definition ClearRules (t : ExactMatchTable) : ExactMatchTable :=
  with_rules t (CuckooMap.Clear entry0 (table_ t)).

Definition Size (t : ExactMatchTable) : Z := CuckooMap.Count (table_ t).

Definition Find (t : ExactMatchTable) (key : bytes) (default_value : T) : T :=
  match CuckooMap.Find (ExactMatchKeyHash (total_key_size_ t)) (ExactMatchKeyEq (total_key_size_ t))
          entry0 (table_ t) key with
  | Some entry => snd entry
  | None => default_value
  end.
End Table.

Arguments ExactMatchTable : clear implicits.

(** ** The module *)

Definition is_valid_gate (gate : Z) : bool := (gate <? MAX_GATES) || (gate =? DROP_GATE).

(** [bess::pb::FieldData]: an integer, bytes, or neither. *)
Inductive FieldData := value_int (v : Z) | value_bin (b : bytes) | encoding_not_set.

(** Where a [bess::pb::Field] takes its bytes; for an attribute, what the module's
    [AddMetadataAttr] returns for it. *)
Inductive position := kAttrName (id : Z) | kOffset (off : Z) | position_not_set.
Record Field := PbField { num_bytes : Z; field_position : position }.

Record ExactMatch := MkExactMatch {
  default_gate_ : Z;
  empty_masks_ : bool;
  em_table_ : ExactMatchTable Z }.

Definition with_table (m : ExactMatch) (t : ExactMatchTable Z) : ExactMatch :=
  MkExactMatch (default_gate_ m) (empty_masks_ m) t.

Section Module.
Context (crc : Z -> Z -> Z).

(** [Copy] of more than 8 bytes runs past [mask64]. *)
Definition AddFieldOne (t : ExactMatchTable Z) (field : Field) (mask : FieldData) (idx : nat)
    : option (ExactMatchTable Z * (errno + unit)) :=
  mask64 ← match mask with
           | value_int v => Some (u64 v)
           | value_bin b => if (length b <=? 8)%nat then Some (le_load b) else None
           | encoding_not_set => Some 0
           end;
  Some (match field_position field with
        | kAttrName id => AddField_attr t id (num_bytes field) mask64 idx
        | kOffset off => AddField t off (num_bytes field) mask64 idx
        | position_not_set => (t, inl EINVAL)
        end).

Fixpoint add_fields (t : ExactMatchTable Z) (fields : list (Field * FieldData)) (i : nat)
    : option (ExactMatchTable Z * (errno + unit)) :=
  match fields with
  | [] => Some (t, inr tt)
  | (field, mask) :: fields' =>
      r ← AddFieldOne t field mask i;
      match r with
      | (t, inl e) => Some (t, inl e)
      | (t, inr _) => add_fields t fields' (S i)
      end
  end.

Definition Init (m : ExactMatch) (fields : list Field) (masks : list FieldData)
    : option (ExactMatch * (errno + unit)) :=
  let empty_masks := (length masks =? 0)%nat in
  let m := MkExactMatch (default_gate_ m) empty_masks (em_table_ m) in
  if negb (length fields =? length masks)%nat && negb empty_masks then Some (m, inl EINVAL)
  else
    r ← add_fields (em_table_ m)
          (zip fields (if empty_masks then replicate (length fields) encoding_not_set else masks)) 0;
    match r with
    | (t, inl e) => Some (with_table m t, inl e)
    | (t, inr _) => Some (MkExactMatch DROP_GATE empty_masks t, inr tt)
    end.

(** The bytes of each field of a rule; fields past the array are undefined. *)
Fixpoint RuleFieldsFromPb (t : ExactMatchTable Z) (i : nat) (fields : list FieldData) : option (list bytes) :=
  match fields with
  | [] => Some []
  | current :: fields' =>
      f ← fields_ t !! i;
      rest ← RuleFieldsFromPb t (S i) fields';
      Some (match current with
            | value_bin b => b
            | value_int v => le_store (Z.to_nat (size f)) (u64 v)
            | encoding_not_set => le_store (Z.to_nat (size f)) 0
            end :: rest)
  end.

Definition AddRule_pb (m : ExactMatch) (gate : Z) (fields : list FieldData)
    : option (ExactMatch * (errno + unit)) :=
  let gate := u16 gate in
  if negb (is_valid_gate gate) then Some (m, inl EINVAL)
  else if (length fields =? 0)%nat then Some (m, inl EINVAL)
  else
    rule ← RuleFieldsFromPb (em_table_ m) 0 fields;
    r ← AddRule 0 crc (em_table_ m) gate rule;
    Some (with_table m r.1, r.2).

Definition CommandAdd := AddRule_pb.

Definition CommandDelete (m : ExactMatch) (fields : list FieldData) : option (ExactMatch * (errno + unit)) :=
  if (length fields =? 0)%nat then Some (m, inl EINVAL)
  else
    rule ← RuleFieldsFromPb (em_table_ m) 0 fields;
    let '(t, r) := DeleteRule 0 crc (em_table_ m) rule in
    Some (with_table m t, r).

Definition CommandClear (m : ExactMatch) : ExactMatch := with_table m (ClearRules 0 (em_table_ m)).

Definition CommandSetDefaultGate (m : ExactMatch) (gate : Z) : ExactMatch :=
  MkExactMatch (u16 gate) (empty_masks_ m) (em_table_ m).

Fixpoint add_rules (m : ExactMatch) (rules : list (Z * list FieldData)) : option (ExactMatch * (errno + unit)) :=
  match rules with
  | [] => Some (m, inr tt)
  | (gate, fields) :: rules' =>
      r ← AddRule_pb m gate fields;
      match r with
      | (m, inl e) => Some (m, inl e)
      | (m, inr _) => add_rules m rules'
      end
  end.

Definition SetRuntimeConfig (m : ExactMatch) (default_gate : Z) (rules : list (Z * list FieldData))
    : option (ExactMatch * (errno + unit)) :=
  let m := CommandSetDefaultGate m default_gate in
  add_rules (with_table m (ClearRules 0 (em_table_ m))) rules.

(** The rules [GetRuntimeConfig] lists, before they are sorted. *)
Definition runtime_rule (t : ExactMatchTable Z) (kv : bytes * Z) : Z * list FieldData :=
  (snd kv, map (fun f => value_bin (take (Z.to_nat (size f)) (drop (Z.to_nat (pos f)) (fst kv))))
             (take (num_fields_ t) (fields_ t))).

Definition GetRuntimeConfig (m : ExactMatch) : option (Z * list (Z * list FieldData)) :=
  kvs ← for_each (entry0 0) (table_ (em_table_ m));
  Some (default_gate_ m, map (runtime_rule (em_table_ m)) kvs).

(** A packet: the attributes by id and the data from the head; a key starts out with
    whatever is on the stack. *)
Definition buffer_fn (attrs : Z -> bytes) (data : bytes) (f : ExactMatchField) : bytes :=
  if 0 <=? attr_id f then attrs (attr_id f) else drop (Z.to_nat (offset f)) data.

Fixpoint ProcessBatch (m : ExactMatch) (pkts : list ((Z -> bytes) * bytes * bytes)) : option (list Z) :=
  match pkts with
  | [] => Some []
  | (attrs, data, junk) :: pkts' =>
      key ← MakeKey (em_table_ m) (buffer_fn attrs data) junk;
      gates ← ProcessBatch m pkts';
      Some (Find 0 crc (em_table_ m) key (default_gate_ m) :: gates)
  end.
End Module.

(** ** The layout of keys *)

Definition sizes (fs : list ExactMatchField) : Z := foldr (fun f n => size f + n) 0 fs.

(** Fields that follow each other in the key from position [p]. *)
Fixpoint layout (p : Z) (fs : list ExactMatchField) : Prop :=
  match fs with
  | [] => True
  | f :: fs' => pos f = p /\ 1 <= size f <= 8 /\ 0 <= mask f < 256 ^ size f /\ layout (p + size f) fs'
  end.

(** The bytes of a field in a buffer, masked. *)
Definition field_bytes (buf : ExactMatchField -> bytes) (f : ExactMatchField) : bytes :=
  zip_with Z.land (take (Z.to_nat (size f)) (buf f)) (le_store (Z.to_nat (size f)) (mask f)).

Definition buffer_ok (buf : ExactMatchField -> bytes) (f : ExactMatchField) : Prop :=
  bytes_ok (buf f) /\ (8 <= length (buf f))%nat.

(** A rule has a value of the right size for each field. *)
Fixpoint fits (fs : list ExactMatchField) (values : list bytes) : bool :=
  match fs, values with
  | [], [] => true
  | f :: fs', v :: values' => (size f =? Z.of_nat (length v)) && fits fs' values'
  | _, _ => false
  end.

Definition rule_key (values : list bytes) : bytes :=
  concat values ++ replicate (HASH_KEY_SIZE - length (concat values)) 0.

Lemma sizes_nonneg p fs : layout p fs -> Z.of_nat (length fs) <= sizes fs <= 8 * Z.of_nat (length fs).
Proof.
  revert p. induction fs as [|f fs IH]; intros p; cbn [layout sizes foldr length]; [lia|].
  intros (_ & Hs & _ & Hl). specialize (IH _ Hl). unfold sizes in IH. lia.
Qed.

Lemma layout_app p fs fs' : layout p (fs ++ fs') <-> layout p fs /\ layout (p + sizes fs) fs'.
Proof.
  revert p. induction fs as [|f fs IH]; intros p; cbn [app layout sizes foldr].
  - rewrite Z.add_0_r. tauto.
  - rewrite IH. unfold sizes. rewrite Z.add_assoc. tauto.
Qed.

Lemma sizes_app fs fs' : sizes (fs ++ fs') = sizes fs + sizes fs'.
Proof.
  unfold sizes. rewrite foldr_app. induction fs as [|f fs IH]; [done|].
  cbn [foldr]. rewrite IH. lia.
Qed.

Lemma fits_length fs values : fits fs values = true ->
  length values = length fs /\ Z.of_nat (length (concat values)) = sizes fs.
Proof.
  revert values. induction fs as [|f fs IH]; intros [|v values]; cbn [fits]; try done.
  intros [Hs%Z.eqb_eq Hf]%andb_prop. specialize (IH values Hf) as [Hl Hc]. unfold sizes in *.
  cbn [length concat foldr]. rewrite length_app. lia.
Qed.

(** The fields of a rule are determined by the bytes of its key. *)
Lemma concat_inj fs v1 v2 : fits fs v1 = true -> fits fs v2 = true -> concat v1 = concat v2 -> v1 = v2.
Proof.
  revert v1 v2. induction fs as [|f fs IH]; intros [|a v1] [|b v2]; cbn [fits]; try done.
  intros [Ha%Z.eqb_eq H1]%andb_prop [Hb%Z.eqb_eq H2]%andb_prop Hc. cbn in Hc.
  apply app_inj_1 in Hc as [-> Hc]; [|lia]. f_equal. by apply IH.
Qed.

Lemma field_bytes_fits buf fs p : layout p fs -> Forall (buffer_ok buf) fs ->
  fits fs (map (field_bytes buf) fs) = true /\ Forall bytes_ok (map (field_bytes buf) fs).
Proof.
  revert p. induction fs as [|f fs IH]; intros p; cbn [layout map fits]; [done|].
  intros (_ & Hs & _ & Hl) [[Hok Hlen] Hf]%Forall_cons.
  destruct (IH _ Hl Hf) as [-> HF]. split.
  - rewrite andb_true_r, Z.eqb_eq. unfold field_bytes.
    rewrite length_zip_with, length_take, length_le_store. lia.
  - constructor; [|done]. unfold field_bytes. auto with bess.
Qed.

Lemma concat_ok l : Forall bytes_ok l -> bytes_ok (concat l).
Proof. induction 1; cbn; [constructor|]. by apply Forall_app. Qed.

(** The masked 8-byte store of a field writes its bytes and zeroes after them. *)
Lemma masked_store w m n : bytes_ok w -> length w = 8%nat -> (n <= 8)%nat -> 0 <= m < 256 ^ Z.of_nat n ->
  le_store 8 (Z.land (le_load w) m) =
    zip_with Z.land (take n w) (le_store n m) ++ replicate (8 - n) 0.
Proof.
  intros Hw Hl Hn Hm.
  assert (Hpad : le_store 8 m = le_store n m ++ replicate (8 - n) 0).
  { pose proof (le_store_load_pad (8 - n) (le_store n m) (le_store_ok n m)) as Hp.
    rewrite length_le_store, le_load_store, Z.mod_small in Hp by done.
    by replace (n + (8 - n))%nat with 8%nat in Hp by lia. }
  assert (Hm8 : m = le_load (le_store 8 m)).
  { rewrite le_load_store, Z.mod_small; [done|]. change (256 ^ Z.of_nat 8) with (2 ^ 64).
    assert (256 ^ Z.of_nat n <= 256 ^ 8) by (apply Z.pow_le_mono_r; lia). lia. }
  rewrite Hm8 at 1. rewrite le_load_land by (auto with bess || by rewrite length_le_store).
  rewrite Hpad, <- (take_drop n w) at 1.
  rewrite zip_with_app by (rewrite length_take, length_le_store; lia).
  rewrite zip_with_replicate_r_eq by (rewrite length_drop; lia).
  assert (flip Z.land 0 <$> drop n w = replicate (8 - n) 0) as Hz.
  { rewrite <- Hl, <- length_drop. induction (drop n w) as [|x k IH]; [done|].
    cbn [length replicate]. rewrite <- IH. cbn. unfold flip at 1. by rewrite Z.land_0_r. }
  rewrite Hz. set (k := zip_with Z.land (take n w) (le_store n m)).
  assert (bytes_ok (k ++ replicate (8 - n) 0)) as Hk
    by (apply bytes_ok_app; unfold k; auto with bess).
  assert (length (k ++ replicate (8 - n) 0) = 8%nat) as Hk8.
  { unfold k. rewrite length_app, length_replicate, length_zip_with, length_take, length_le_store. lia. }
  rewrite <- Hk8 at 1. by rewrite le_store_load.
Qed.

Lemma lookup_write off new buf q : (off + length new <= length buf)%nat ->
  write off new buf !! q = if decide (off <= q < off + length new)%nat then new !! (q - off)%nat else buf !! q.
Proof.
  intros Hl. unfold write. case_decide.
  - rewrite lookup_app_r, length_take by (rewrite length_take; lia).
    rewrite lookup_app_l by lia. f_equal. lia.
  - destruct (decide (q < off)%nat).
    + rewrite lookup_app_l by (rewrite length_take; lia). by rewrite lookup_take_lt.
    + rewrite lookup_app_r, length_take by (rewrite length_take; lia).
      rewrite lookup_app_r by lia. rewrite lookup_drop. f_equal. lia.
Qed.

(** Writing a value over the positions from [length pre] on extends the known prefix. *)
Lemma take_write_app off pre v z buf : length pre = off -> (off + length v + length z <= length buf)%nat ->
  take off buf = pre -> take (off + length v) (write off (v ++ z) buf) = pre ++ v.
Proof.
  intros Hl Hlen Hp. unfold write. rewrite Hp, <- app_assoc, app_assoc.
  rewrite take_app_le by (rewrite length_app; lia). apply take_ge. rewrite length_app. lia.
Qed.

(** Writing after what was written so far. *)
Lemma write_pad pre v : write (length pre) v (pre ++ replicate (HASH_KEY_SIZE - length pre) 0) =
  (pre ++ v) ++ replicate (HASH_KEY_SIZE - length (pre ++ v)) 0.
Proof.
  unfold write. rewrite take_app_length, <- app_assoc. do 2 f_equal.
  rewrite drop_app_ge, drop_replicate by lia. f_equal. rewrite length_app. lia.
Qed.

(** The loop over the fields: the bytes of the fields follow each other, and zeroes in
    the last word stay where no field is. *)
Lemma make_fields_spec buf lo hi fs pre key :
  layout (Z.of_nat (length pre)) fs -> Forall (buffer_ok buf) fs ->
  (length pre + 8 * length fs <= HASH_KEY_SIZE)%nat -> length key = HASH_KEY_SIZE -> bytes_ok key ->
  take (length pre) key = pre ->
  (forall q, (lo <= q < hi)%nat -> (length pre <= q)%nat -> key !! q = Some 0) ->
  exists key', make_fields buf fs key = Some key' /\ length key' = HASH_KEY_SIZE /\ bytes_ok key' /\
    let out := pre ++ concat (map (field_bytes buf) fs) in
    take (length out) key' = out /\
    (forall q, (lo <= q < hi)%nat -> (length out <= q)%nat -> key' !! q = Some 0).
Proof.
  intros Hlay Hbuf. revert pre key Hlay. induction Hbuf as [|f fs [Hok Hlen] Hbuf IH];
    intros pre key Hlay Hsz Hl Hkok Hpre Hz; cbn [make_fields map concat].
  { exists key. rewrite app_nil_r. done. }
  cbn [layout length] in *. destruct Hlay as (Hpos & Hs & Hm & Hlay).
  rewrite slice_Some by lia. cbn [mbind option_bind]. change (Z.to_nat 0) with 0%nat. change (Z.to_nat 8) with 8%nat.
  rewrite drop_0. unfold store8. rewrite Hpos.
  rewrite (proj2 (Z.leb_le 0 _)), (proj2 (Z.leb_le _ (Z.of_nat HASH_KEY_SIZE))) by (unfold HASH_KEY_SIZE in *; lia).
  cbn [andb mbind option_bind]. rewrite Nat2Z.id.
  set (n := Z.to_nat (size f)). set (v := field_bytes buf f).
  assert (Hv : le_store 8 (Z.land (le_load (take 8 (buf f))) (mask f)) = v ++ replicate (8 - n) 0).
  { rewrite (masked_store _ _ n) by (auto with bess || rewrite ?length_take; unfold n; rewrite ?Z2Nat.id; lia).
    unfold v, field_bytes. fold n. rewrite take_take. by rewrite Nat.min_l by (unfold n; lia). }
  assert (Hlv : length v = n).
  { unfold v, field_bytes. fold n. rewrite length_zip_with, length_take, length_le_store. unfold n. lia. }
  rewrite Hv. set (key1 := write (length pre) (v ++ replicate (8 - n) 0) key).
  assert (Hfit : (length pre + length (v ++ replicate (8 - n) 0%Z) <= length key)%nat)
    by (rewrite length_app, length_replicate, Hlv, Hl; unfold n, HASH_KEY_SIZE in *; lia).
  destruct (IH (pre ++ v) key1) as (key' & Hmk & Hl' & Hok' & Htake & Hzero).
  - rewrite length_app, Hlv. unfold n. by rewrite Nat2Z.inj_add, Z2Nat.id by lia.
  - rewrite length_app, Hlv. unfold n in *. lia.
  - unfold key1. by rewrite length_write.
  - unfold key1, write. rewrite !bytes_ok_app. split; [auto with bess|]. split; [|auto with bess].
    split; [|auto with bess]. unfold v, field_bytes. auto with bess.
  - rewrite length_app. apply take_write_app; [done| |done].
    rewrite length_app in Hfit. lia.
  - intros q Hq Hge. rewrite length_app, Hlv in Hge. unfold key1. rewrite lookup_write by done.
    rewrite length_app, length_replicate, Hlv. case_decide; [|apply Hz; lia].
    rewrite lookup_app_r, lookup_replicate by lia. split; [done|]. lia.
  - exists key'. cbn zeta in Htake, Hzero. rewrite <- app_assoc in Htake, Hzero.
    do 3 (split; [done|]). split; [exact Htake|exact Hzero].
Qed.

(** ** The keys that are stored *)

(** The part of a key that the table looks at, with zeroes after it. *)
Definition canon (len : nat) (key : bytes) : bytes := take len key ++ replicate (HASH_KEY_SIZE - len) 0.

Record key_ok (len : nat) (key : bytes) : Prop := {
  key_length : length key = HASH_KEY_SIZE;
  key_bytes : bytes_ok key;
  key_canon : canon len key = key }.

Lemma u64_at_take n key i : (i < n)%nat -> u64_at (take (8 * n) key) i = u64_at key i.
Proof.
  intros Hi. unfold u64_at. rewrite skipn_firstn_comm, take_take. do 2 f_equal. lia.
Qed.

Lemma u64_at_canon n key i : (i < n)%nat -> (8 * n <= length key)%nat ->
  u64_at (canon (8 * n) key) i = u64_at key i.
Proof.
  intros Hi Hl. rewrite <- (u64_at_take n (canon _ _)) by done. unfold canon.
  rewrite take_app_le by (rewrite length_take; lia). rewrite take_take, Nat.min_id. by apply u64_at_take.
Qed.

Lemma words_eq n a b : bytes_ok a -> bytes_ok b -> length a = length b -> (8 * n <= length a)%nat ->
  (forall i, (i < n)%nat -> u64_at a i = u64_at b i) -> take (8 * n) a = take (8 * n) b.
Proof.
  intros Ha Hb Hl Hn Hw. induction n as [|n IH]; [done|].
  replace (8 * S n)%nat with (8 * n + 8)%nat by lia. rewrite <- !take_take_drop, IH by (lia || auto).
  f_equal. apply le_load_inj; [auto with bess|auto with bess| |apply (Hw n); lia].
  rewrite !length_take, !length_drop. lia.
Qed.

Lemma ExactMatchKeyEq_take n a b : bytes_ok a -> bytes_ok b -> length a = length b -> (8 * n <= length a)%nat ->
  ExactMatchKeyEq (Z.of_nat (8 * n)) a b = true <-> take (8 * n) a = take (8 * n) b.
Proof.
  intros Ha Hb Hl Hn. unfold ExactMatchKeyEq.
  replace (Z.to_nat (Z.of_nat (8 * n) / 8)) with n by nlia. rewrite forallb_forall. split.
  - intros H. apply words_eq; [done..|]. intros i Hi. apply Z.eqb_eq, H, in_seq. lia.
  - intros H i Hi%in_seq. apply Z.eqb_eq. rewrite <- (u64_at_take n a), <- (u64_at_take n b), H by lia. done.
Qed.

(** Equality of keys is equality on the keys that are stored. *)
Lemma key_eq_spec n a b : (8 * n <= HASH_KEY_SIZE)%nat -> key_ok (8 * n) a -> key_ok (8 * n) b ->
  ExactMatchKeyEq (Z.of_nat (8 * n)) a b = true <-> a = b.
Proof.
  intros Hn [Hla Ha Hca] [Hlb Hb Hcb]. rewrite ExactMatchKeyEq_take by (done || lia). split; [|by intros ->].
  intros H. rewrite <- Hca, <- Hcb. unfold canon. by rewrite H.
Qed.

(** A key is looked up like its canonical form. *)
Lemma Find_canon {T} (t0 : T) crc n (m : CuckooMap.t) key : (8 * n <= length key)%nat ->
  CuckooMap.Find (ExactMatchKeyHash crc (Z.of_nat (8 * n))) (ExactMatchKeyEq (Z.of_nat (8 * n))) (entry0 t0) m key =
  CuckooMap.Find (ExactMatchKeyHash crc (Z.of_nat (8 * n))) (ExactMatchKeyEq (Z.of_nat (8 * n))) (entry0 t0) m
    (canon (8 * n) key).
Proof.
  intros Hl. apply Find_ext.
  - unfold ExactMatchKeyHash. replace (Z.to_nat (Z.of_nat (8 * n) / 8)) with n by nlia.
    assert (Forall (fun i => (i < n)%nat) (seq 0 n)) as HF by (apply Forall_seq; lia).
    generalize 0. induction HF as [|i l Hi _ IH]; intros z; cbn [foldl]; [done|]. by rewrite u64_at_canon.
  - intros x. unfold ExactMatchKeyEq. replace (Z.to_nat (Z.of_nat (8 * n) / 8)) with n by nlia.
    apply eq_iff_eq_true. rewrite !forallb_forall.
    split; intros H i Hi; specialize (H i Hi); cbn beta in H |- *; apply in_seq in Hi; [|rewrite u64_at_canon in H by lia; done].
    by rewrite u64_at_canon by lia.
Qed.

(** ** The table as a map from field values *)

Section Refinement.
Context {T : Type} (t0 : T) (crc : Z -> Z -> Z).
Implicit Types (t : ExactMatchTable T).

Definition active t : list ExactMatchField := take (num_fields_ t) (fields_ t).

(** Fields were added in the order of their indices. *)
Record wf t : Prop := {
  wf_fields : length (fields_ t) = MAX_FIELDS;
  wf_num : (num_fields_ t <= MAX_FIELDS)%nat;
  wf_layout : layout 0 (active t);
  wf_rest : forall i, (num_fields_ t <= i)%nat -> get_field t i = zero_field;
  wf_raw : raw_key_size_ t = sizes (active t);
  wf_total : total_key_size_ t = align_ceil (raw_key_size_ t) 8 }.

Abbreviation hash t := (ExactMatchKeyHash crc (total_key_size_ t)).
Abbreviation keq t := (ExactMatchKeyEq (total_key_size_ t)).

Record Inv t : Prop := {
  inv_wf : wf t;
  inv_some : (0 < num_fields_ t)%nat;
  inv_table : CuckooMap.Inv (hash t) (entry0 t0) (key_ok (Z.to_nat (total_key_size_ t))) (table_ t) }.

(** The rules: the map from keys to values that the cuckoo table stands for. *)
Definition rules t : gmap bytes T := CuckooMap.abs (entry0 t0) (table_ t).

Lemma active_length t : wf t -> length (active t) = num_fields_ t.
Proof. intros [Hl Hn _ _ _ _]. unfold active. rewrite length_take. lia. Qed.

Lemma active_get t i : wf t -> (i < num_fields_ t)%nat -> active t !! i = Some (get_field t i).
Proof.
  intros [Hl Hn _ _ _ _] Hi. unfold active, get_field. rewrite lookup_take_lt by done.
  destruct (lookup_lt_is_Some_2 (fields_ t) i) as [f Hf]; [lia|]. rewrite Hf. by erewrite nth_lookup_Some.
Qed.

(** The size of a key is its number of words. *)
Lemma total_words t : wf t -> (0 < num_fields_ t)%nat ->
  exists n, total_key_size_ t = Z.of_nat (8 * n) /\ (1 <= n <= 8)%nat /\
    sizes (active t) <= Z.of_nat (8 * n) < sizes (active t) + 8.
Proof.
  intros Hw Hn. pose proof (sizes_nonneg 0 (active t) (wf_layout t Hw)) as Hs.
  rewrite active_length in Hs by done. pose proof (wf_num t Hw) as Hm. unfold MAX_FIELDS in Hm.
  rewrite (wf_total t Hw), (wf_raw t Hw).
  destruct (align_spec (sizes (active t)) 8) as (_ & _ & [k Hk] & Hb); [unfold in_word; lia|lia|lia|].
  exists (Z.to_nat k). rewrite Hk in Hb |- *. lia.
Qed.

Lemma gather_fields_spec t fs i values pre :
  (forall k f, fs !! k = Some f -> get_field t (i + k) = f) -> length values = length fs ->
  layout (Z.of_nat (length pre)) fs -> Z.of_nat (length pre) + sizes fs <= Z.of_nat HASH_KEY_SIZE ->
  gather_fields t i values (pre ++ replicate (HASH_KEY_SIZE - length pre) 0) =
    if fits fs values then inr (pre ++ concat values ++ replicate (HASH_KEY_SIZE - length (pre ++ concat values)) 0)
    else inl EINVAL.
Proof.
  revert i values pre. induction fs as [|f fs IH]; intros i [|v values] pre Hget Hlen Hlay Hsz; try done.
  { cbn [gather_fields fits concat app]. by rewrite app_nil_r. }
  cbn [gather_fields fits layout sizes foldr] in *. destruct Hlay as (Hpos & Hs & _ & Hlay).
  pose proof (Hget 0%nat f eq_refl) as Hf. rewrite Nat.add_0_r in Hf. rewrite Hf.
  destruct (Z.eqb_spec (size f) (Z.of_nat (length v))) as [Hv|_]; cbn [negb andb]; [|done].
  pose proof (sizes_nonneg _ fs Hlay) as Hsn. unfold sizes in Hsn.
  rewrite Hpos, Nat2Z.id.
  rewrite write_pad, IH.
  - cbn [concat]. by rewrite <- !app_assoc.
  - intros k f' Hk. replace (S i + k)%nat with (i + S k)%nat by lia. by apply Hget.
  - by injection Hlen.
  - rewrite length_app. rewrite Nat2Z.inj_add, <- Hv. done.
  - unfold sizes. rewrite length_app. lia.
Qed.

Lemma active_fit t : wf t -> sizes (active t) <= Z.of_nat HASH_KEY_SIZE.
Proof.
  intros Hw. pose proof (sizes_nonneg 0 (active t) (wf_layout t Hw)) as Hs.
  rewrite active_length in Hs by done. pose proof (wf_num t Hw). unfold MAX_FIELDS, HASH_KEY_SIZE in *. lia.
Qed.

Lemma gather_key_spec t values : wf t ->
  gather_key t values = if fits (active t) values then inr (rule_key values) else inl EINVAL.
Proof.
  intros Hw. unfold gather_key. destruct (Nat.eqb_spec (length values) (num_fields_ t)) as [Hl|Hl]; cbn [negb].
  - pose proof (gather_fields_spec t (active t) 0 values []) as Hg. cbn [app length Nat.add] in Hg.
    rewrite Nat.sub_0_r in Hg. apply Hg.
    + intros k f Hk. pose proof (lookup_lt_Some _ _ _ Hk) as Hlt. rewrite active_length in Hlt by done.
      rewrite active_get in Hk by done. congruence.
    + by rewrite active_length.
    + apply (wf_layout t Hw).
    + pose proof (active_fit t Hw). lia.
  - destruct (fits (active t) values) eqn:Hf; [|done].
    apply fits_length in Hf as [Hf _]. rewrite active_length in Hf by done. done.
Qed.

Lemma rule_key_ok n values : bytes_ok (concat values) -> (length (concat values) <= 8 * n)%nat ->
  (8 * n <= HASH_KEY_SIZE)%nat -> key_ok (8 * n) (rule_key values).
Proof.
  intros Hok Hl Hn. unfold rule_key. split.
  - rewrite length_app, length_replicate. lia.
  - apply bytes_ok_app. auto with bess.
  - unfold canon. rewrite take_app_ge, take_replicate by lia. rewrite <- app_assoc, <- replicate_add.
    do 2 f_equal. lia.
Qed.

(** The key made of a buffer is, as far as the table looks, the key of its fields. *)
Lemma MakeKey_spec t buf junk : wf t -> (0 < num_fields_ t)%nat -> Forall (buffer_ok buf) (active t) ->
  length junk = HASH_KEY_SIZE -> bytes_ok junk ->
  exists key, MakeKey t buf junk = Some key /\ length key = HASH_KEY_SIZE /\
    canon (Z.to_nat (total_key_size_ t)) key = rule_key (map (field_bytes buf) (active t)).
Proof.
  intros Hw Hn Hbuf Hl Hok. destruct (total_words t Hw Hn) as (n & Ht & Hb & Hsz). unfold MakeKey. rewrite Ht.
  assert (u64 (Z.of_nat (8 * n) - 1) / 8 = Z.of_nat n - 1) as ->.
  { rewrite wrap_small by (unfold in_word; lia). zlia. }
  unfold store8 at 1. rewrite (proj2 (Z.leb_le 0 _)), (proj2 (Z.leb_le _ (Z.of_nat HASH_KEY_SIZE)))
    by (unfold HASH_KEY_SIZE; lia). cbn [andb mbind option_bind].
  replace (Z.to_nat ((Z.of_nat n - 1) * 8)) with (8 * (n - 1))%nat by lia.
  set (key0 := write _ _ junk).
  assert (Hfit : (8 * (n - 1) + length (le_store 8 0) <= length junk)%nat)
    by (rewrite length_le_store, Hl; unfold HASH_KEY_SIZE; lia).
  destruct (make_fields_spec buf (8 * (n - 1)) (8 * n) (active t) [] key0)
    as (key & Hmk & Hlk & Hokk & Htake & Hzero).
  - apply (wf_layout t Hw).
  - done.
  - rewrite active_length by done. pose proof (wf_num t Hw). unfold MAX_FIELDS, HASH_KEY_SIZE in *. cbn. lia.
  - unfold key0. by rewrite length_write.
  - unfold key0, write. rewrite !bytes_ok_app. auto with bess.
  - done.
  - intros q Hq _. unfold key0. rewrite lookup_write, length_le_store by done.
    rewrite decide_True, le_store_0 by lia. apply lookup_replicate. lia.
  - exists key. split; [exact Hmk|]. split; [done|]. cbn [app] in Htake, Hzero.
    destruct (field_bytes_fits buf (active t) 0 (wf_layout t Hw) Hbuf) as [Hfits _].
    destruct (fits_length _ _ Hfits) as [_ Hc]. set (vals := map _ _) in *.
    rewrite Nat2Z.id. unfold canon, rule_key. set (r := length (concat vals)) in *.
    replace (8 * n)%nat with (r + (8 * n - r))%nat at 1 by lia.
    rewrite <- take_take_drop, Htake, <- app_assoc. f_equal.
    assert (take (8 * n - r) (drop r key) = replicate (8 * n - r) 0) as ->.
    { apply list_eq. intros i. destruct (decide (i < 8 * n - r)%nat).
      - rewrite lookup_take_lt, lookup_drop by done. rewrite lookup_replicate_2 by done. apply Hzero; lia.
      - rewrite !lookup_ge_None_2; [done|rewrite length_replicate; lia|rewrite length_take; lia]. }
    rewrite <- replicate_add. f_equal. unfold HASH_KEY_SIZE. lia.
Qed.

(** *** Adding fields *)

Lemma new_table_wf : wf (new_table t0).
Proof.
  split; try done.
  - unfold MAX_FIELDS. cbn. lia.
  - intros i _. unfold get_field, new_table. cbn [fields_]. rewrite nth_lookup.
    destruct (replicate MAX_FIELDS zero_field !! i) as [f|] eqn:Hf; [|done].
    by apply lookup_replicate_1 in Hf as [-> _].
Qed.

(** A mask that was given or defaulted fits the field. *)
Lemma new_mask_fits m0 sz be out ok : 1 <= sz <= 8 -> in_word 64 m0 ->
  (if m0 =? 0 then (SetBitsHigh 64 (sz * 8), true)
   else let '(out, ok) := uint64_to_bin (le_store 8 0) m0 (Z.to_nat sz) be in (le_load out, ok)) = (out, ok) ->
  0 <= out < 256 ^ sz.
Proof.
  intros Hs Hm. destruct (m0 =? 0).
  - intros [= <- <-]. rewrite SetBitsHigh_ones, Z.min_l, Z.ones_equiv by lia.
    change 256 with (2 ^ 8). rewrite <- Z.pow_mul_r by lia. replace (8 * sz) with (sz * 8) by lia.
    assert (0 < 2 ^ (sz * 8)) by (apply Z.pow_pos_nonneg; lia). lia.
  - rewrite le_store_0. replace 8%nat with (Z.to_nat sz + (8 - Z.to_nat sz))%nat by lia.
    rewrite replicate_add.
    destruct (uint64_to_bin_spec (replicate (Z.to_nat sz) 0) (replicate (8 - Z.to_nat sz) 0) m0 (Z.to_nat sz) be)
      as (o & -> & Ho & _); [by rewrite length_replicate|done|].
    intros [= <- _]. rewrite le_load_app, le_load_replicate, Z.mul_0_r, Z.add_0_r.
    assert (bytes_ok o /\ length o = Z.to_nat sz) as [Hok Hl].
    { rewrite Ho. destruct be; unfold be_store; rewrite ?length_rev, length_le_store;
        (split; [|done]); [apply Forall_rev|]; apply le_store_ok. }
    pose proof (le_load_bound o Hok) as Hb. rewrite Hl, Z2Nat.id in Hb by lia. done.
Qed.

(** Adding the next field succeeds exactly for valid arguments and keeps the layout. *)
Lemma DoAddField_wf t field attr t' : wf t -> in_word 64 (mask field) ->
  DoAddField t field attr (num_fields_ t) = (t', inr tt) ->
  wf t' /\ num_fields_ t' = S (num_fields_ t) /\ table_ t' = table_ t /\
  exists f, active t' = active t ++ [f] /\ size f = size field /\
    attr_id f = default (-1) attr /\ (attr = None -> offset f = offset field /\ 0 <= offset f <= 1024).
Proof.
  intros Hw Hm. unfold DoAddField. destruct (Nat.leb_spec MAX_FIELDS (num_fields_ t)) as [|Hn]; [done|].
  rewrite (wf_rest t Hw (num_fields_ t)) by lia. cbn [mask attr_id offset pos size zero_field].
  destruct ((size field <? 1) || _) eqn:Hsz; [done|].
  apply orb_false_elim in Hsz as [Hs1%Z.ltb_ge Hs2%Z.ltb_ge]. unfold MAX_FIELD_SIZE in Hs2.
  set (f := match attr with Some id => MkField _ _ _ _ _ | None => _ end).
  assert (Hf : mask f = 0 /\ size f = size field /\ attr_id f = default (-1) attr /\
    (attr = None -> offset f = offset field)) by (unfold f; by destruct attr).
  destruct Hf as (Hfm & Hfs & Hfa & Hfo). rewrite Hfm, Hfs.
  destruct (match attr with Some id => id <? 0 | None => _ end) eqn:Hoff; [done|].
  set (be := attr_id f <? 0).
  destruct (if mask field =? 0 then _ else _) as [m ok] eqn:Hmask.
  pose proof (new_mask_fits (mask field) (size field) be m ok ltac:(lia) Hm Hmask) as Hmb.
  destruct ok; cbn [negb]; [|done]. cbn [with_mask mask]. destruct (m =? 0); [done|]. intros [= <-].
  set (f' := with_pos _ _). set (t' := MkTable _ _ _ _ _).
  assert (Hact : active t' = active t ++ [f']).
  { unfold active, t'. cbn [num_fields_ fields_]. rewrite (take_S_r _ _ f').
    - f_equal. by apply take_insert_ge.
    - apply list_lookup_insert_eq. rewrite (wf_fields t Hw). done. }
  split; [|split; [done|split; [done|]]].
  - split.
    + unfold t'. cbn. by rewrite length_insert, (wf_fields t Hw).
    + unfold t'. cbn. lia.
    + rewrite Hact. apply layout_app. split; [apply (wf_layout t Hw)|]. cbn [layout].
      rewrite <- (wf_raw t Hw). unfold f'. cbn. rewrite Hfs. split; [lia|]. split; [lia|done].
    + intros i Hi. unfold t' in *. cbn [num_fields_] in Hi. unfold get_field. cbn [fields_].
      rewrite nth_lookup, list_lookup_insert_ne, <- nth_lookup by lia. apply (wf_rest t Hw). lia.
    + rewrite Hact, sizes_app. unfold t', f', sizes. cbn. rewrite (wf_raw t Hw). unfold sizes. lia.
    + done.
  - exists f'. split; [done|]. unfold f'. cbn. split; [done|]. split; [done|]. intros Ha.
    rewrite Ha in Hoff. apply orb_false_elim in Hoff as [H1%Z.ltb_ge H2%Z.ltb_ge]. split; [by apply Hfo|lia].
Qed.

(** The cuckoo table of a fresh table, whatever the fields. *)
Lemma fresh_Inv t : wf t -> (0 < num_fields_ t)%nat ->
  table_ t = CuckooMap.make (entry0 t0) kInitNumBucket kInitNumEntries -> Inv t /\ rules t = ∅.
Proof.
  intros Hw Hn Ht.
  destruct (make_spec (ExactMatchKeyHash crc (total_key_size_ t)) (entry0 t0)
    (key_ok (Z.to_nat (total_key_size_ t))) kInitNumBucket kInitNumEntries) as [HI Ha];
    [unfold kInitNumEntries; lia|by exists 2%nat|].
  unfold rules. rewrite Ht. split; [|done]. split; [done|done|by rewrite Ht].
Qed.

(** *** Rules *)

(** What a table gives for a packet. *)
Definition classify t (buf : ExactMatchField -> bytes) (junk : bytes) (d : T) : option T :=
  key ← MakeKey t buf junk; Some (Find t0 crc t key d).

Definition extract t (buf : ExactMatchField -> bytes) : list bytes := map (field_bytes buf) (active t).

Lemma key_ok_spec t a b : wf t -> (0 < num_fields_ t)%nat ->
  key_ok (Z.to_nat (total_key_size_ t)) a -> key_ok (Z.to_nat (total_key_size_ t)) b ->
  keq t a b = true <-> a = b.
Proof.
  intros Hw Hn. destruct (total_words t Hw Hn) as (n & -> & Hb & _). rewrite Nat2Z.id.
  intros Ha Hb'. apply key_eq_spec; [unfold HASH_KEY_SIZE; lia|done|done].
Qed.

Lemma fits_key_ok t values : wf t -> (0 < num_fields_ t)%nat -> fits (active t) values = true ->
  Forall bytes_ok values -> key_ok (Z.to_nat (total_key_size_ t)) (rule_key values).
Proof.
  intros Hw Hn Hf Hv. destruct (total_words t Hw Hn) as (n & -> & Hb & Hsz). rewrite Nat2Z.id.
  apply fits_length in Hf as [_ Hc]. apply rule_key_ok; [by apply concat_ok|lia|unfold HASH_KEY_SIZE; lia].
Qed.

Lemma rule_key_inj t v1 v2 : fits (active t) v1 = true -> fits (active t) v2 = true ->
  rule_key v1 = rule_key v2 -> v1 = v2.
Proof.
  intros H1 H2 Hk. apply (concat_inj (active t)); [done|done|].
  apply fits_length in H1 as [_ H1]. apply fits_length in H2 as [_ H2].
  unfold rule_key in Hk. apply app_inj_1 in Hk as [? _]; [done|lia].
Qed.

Lemma classify_rules t buf junk d : Inv t -> Forall (buffer_ok buf) (active t) ->
  length junk = HASH_KEY_SIZE -> bytes_ok junk ->
  classify t buf junk d = Some (default d (rules t !! rule_key (extract t buf))).
Proof.
  intros [Hw Hn HI] Hbuf Hl Hok. unfold classify.
  destruct (MakeKey_spec t buf junk Hw Hn Hbuf Hl Hok) as (key & -> & Hlk & Hc). cbn [mbind option_bind].
  destruct (field_bytes_fits buf (active t) 0 (wf_layout t Hw) Hbuf) as [Hfits Hvok].
  pose proof (fits_key_ok t _ Hw Hn Hfits Hvok) as Hkok.
  pose proof (Find_abs (hash t) (keq t) (entry0 t0) (key_ok (Z.to_nat (total_key_size_ t)))
    (fun a b => key_ok_spec t a b Hw Hn) (table_ t) _ HI Hkok) as Hfind.
  unfold Find, rules, extract. rewrite <- Hfind. clear Hfind. destruct (total_words t Hw Hn) as (n & Ht & Hb & _).
  rewrite Ht in Hc |- *. rewrite Nat2Z.id in Hc. rewrite Find_canon, Hc by (rewrite Hlk; unfold HASH_KEY_SIZE; lia).
  destruct (CuckooMap.Find _ _ _ _ _) as [e|]; reflexivity.
Qed.

Lemma Inv_with_rules t m : Inv t ->
  CuckooMap.Inv (hash t) (entry0 t0) (key_ok (Z.to_nat (total_key_size_ t))) m -> Inv (with_rules t m).
Proof. intros [[????] ? ?] Hm. done. Qed.

(** The cuckoo table has no room for the rule, even after it has moved entries and grown. *)
Definition no_room t (values : list bytes) (v : T) : Prop :=
  exists m, CuckooMap.Insert (hash t) (keq t) (entry0 t0) (table_ t) (rule_key values) v = Some (m, None).

Lemma AddRule_spec t v values : Inv t -> Forall bytes_ok values ->
  exists t' r, AddRule t0 crc t v values = Some (t', r) /\ Inv t' /\ active t' = active t /\
    r = (if fits (active t) values then inr tt else inl EINVAL) /\
    if fits (active t) values then rules t' = <[rule_key values := v]> (rules t) \/ (rules t' = rules t /\ no_room t values v)
    else t' = t.
Proof.
  intros HI Hv. pose proof (inv_wf t HI) as Hw. pose proof (inv_some t HI) as Hn. unfold AddRule.
  destruct (Nat.eqb_spec (length values) 0) as [H0|H0].
  { exists t, (inl EINVAL). destruct (fits (active t) values) eqn:Hf; [|done].
    apply fits_length in Hf as [Hf _]. rewrite active_length in Hf by done. lia. }
  rewrite gather_key_spec by done. destruct (fits (active t) values) eqn:Hf.
  2: { by exists t, (inl EINVAL). }
  pose proof (fits_key_ok t values Hw Hn Hf Hv) as Hkok.
  destruct (insert_fuel_spec (hash t) (keq t) (entry0 t0) (key_ok (Z.to_nat (total_key_size_ t)))
    (fun a b => key_ok_spec t a b Hw Hn) (S (Z.to_nat (CuckooMap.num_entries_ (table_ t)))) (table_ t)
    (rule_key values) v (inv_table t HI) Hkok) as (m & r & Hins & HIm & Hr).
  { rewrite (size_abs (hash t) _ _ _ (inv_table t HI)), (inv_count _ _ _ _ (inv_table t HI)). lia. }
  unfold CuckooMap.Insert at 1. rewrite Hins. cbn [mbind option_bind fst].
  exists (with_rules t m), (inr tt). split; [done|]. split; [by apply Inv_with_rules|]. do 2 (split; [done|]).
  unfold rules. cbn [with_rules table_]. destruct r as [idx|]; [left; apply Hr|right]. split; [done|]. exists m. unfold CuckooMap.Insert. by rewrite Hins.
Qed.

Lemma DeleteRule_spec t values : Inv t -> Forall bytes_ok values ->
  let '(t', r) := DeleteRule t0 crc t values in Inv t' /\ active t' = active t /\
    if fits (active t) values
    then rules t' = delete (rule_key values) (rules t) /\
         r = match rules t !! rule_key values with Some _ => inr tt | None => inl ENOENT end
    else t' = t /\ r = inl EINVAL.
Proof.
  intros HI Hv. pose proof (inv_wf t HI) as Hw. pose proof (inv_some t HI) as Hn. unfold DeleteRule.
  destruct (Nat.eqb_spec (length values) 0) as [H0|H0].
  { destruct (fits (active t) values) eqn:Hf; [|done].
    apply fits_length in Hf as [Hf _]. rewrite active_length in Hf by done. lia. }
  rewrite gather_key_spec by done. destruct (fits (active t) values) eqn:Hf; [|done].
  pose proof (Remove_spec (hash t) (keq t) (entry0 t0) (key_ok (Z.to_nat (total_key_size_ t)))
    (fun a b => key_ok_spec t a b Hw Hn) (table_ t) (rule_key values) (inv_table t HI)
    (fits_key_ok t values Hw Hn Hf Hv)) as Hr.
  destruct (CuckooMap.Remove _ _ _ _ _) as [m b]. destruct Hr as (HIm & Habs & -> & _).
  split; [by apply Inv_with_rules|]. split; [done|]. unfold rules at 1. cbn [with_rules table_].
  split; [done|]. unfold rules. destruct (abs (entry0 t0) (table_ t) !! rule_key values) as [v|].
  - by rewrite bool_decide_eq_true_2.
  - rewrite bool_decide_eq_false_2; [done|]. by intros [? ?].
Qed.

(** C22: an exact-match table with at least one field maps the masked bytes of its fields to values.  A rule is
    accepted exactly if it has a value of the right size for each field; it then
    answers for the packets whose fields have exactly these bytes and for no others -- unless the cuckoo table
    refuses to insert it, which [AddRule] does not report: then the rules stay as they were.  Deletion and clearing take
    rules back. *)
Theorem exact_match_refines t v values buf junk d : Inv t -> Forall bytes_ok values ->
  Forall (buffer_ok buf) (active t) -> length junk = HASH_KEY_SIZE -> bytes_ok junk ->
  exists c, classify t buf junk d = Some c /\
  (exists t' r, AddRule t0 crc t v values = Some (t', r) /\ Inv t' /\
     r = (if fits (active t) values then inr tt else inl EINVAL) /\
     if fits (active t) values
     then classify t' buf junk d = Some (if bool_decide (extract t buf = values) then v else c) \/
          (rules t' = rules t /\ no_room t values v)
     else t' = t) /\
  (let '(t', r) := DeleteRule t0 crc t values in Inv t' /\
     if fits (active t) values
     then classify t' buf junk d = Some (if bool_decide (extract t buf = values) then d else c) /\
          r = match rules t !! rule_key values with Some _ => inr tt | None => inl ENOENT end
     else t' = t /\ r = inl EINVAL) /\
  Inv (ClearRules t0 t) /\ classify (ClearRules t0 t) buf junk d = Some d.
Proof.
  intros HI Hv Hbuf Hl Hok. pose proof (inv_wf t HI) as Hw.
  destruct (field_bytes_fits buf (active t) 0 (wf_layout t Hw) Hbuf) as [Hfits _].
  assert (Hkey : fits (active t) values = true -> rule_key (extract t buf) = rule_key values -> extract t buf = values)
    by (intros Hf; by apply (rule_key_inj t)).
  exists (default d (rules t !! rule_key (extract t buf))). split; [by apply classify_rules|].
  split; [|split].
  - destruct (AddRule_spec t v values HI Hv) as (t' & r & Ha & HI' & Hact & Hr & Hrules).
    exists t', r. do 3 (split; [done|]). destruct (fits (active t) values) eqn:Hf; [|done].
    destruct Hrules as [Hrules|Hrules]; [left|by right].
    rewrite classify_rules by (rewrite ?Hact; done). unfold extract at 1. rewrite Hact. fold (extract t buf).
    rewrite Hrules, lookup_insert. case_decide as Hd; case_bool_decide as Hb; try done.
    + exfalso. by apply Hb, Hkey.
    + exfalso. apply Hd. by rewrite Hb.
  - pose proof (DeleteRule_spec t values HI Hv) as Hd. destruct (DeleteRule _ _ _ _) as [t' r].
    destruct Hd as (HI' & Hact & Hd). split; [done|]. destruct (fits (active t) values) eqn:Hf; [|done].
    destruct Hd as [Hrules ->]. split; [|done].
    rewrite classify_rules by (rewrite ?Hact; done). unfold extract at 1. rewrite Hact. fold (extract t buf).
    rewrite Hrules, lookup_delete. case_decide as Hd; case_bool_decide as Hb; try done.
    + exfalso. by apply Hb, Hkey.
    + exfalso. apply Hd. by rewrite Hb.
  - destruct (Clear_spec (hash t) (entry0 t0) (key_ok (Z.to_nat (total_key_size_ t))) (table_ t)) as [HIc Hac].
    pose proof (Inv_with_rules t _ HI HIc) as HIr. split; [done|].
    rewrite classify_rules by done. unfold rules. cbn [ClearRules with_rules table_].
    rewrite Hac. by rewrite lookup_empty.
Qed.
End Refinement.

(** ** The module *)

Definition mask_ok (m : FieldData) : Prop :=
  match m with value_bin b => bytes_ok b | _ => True end.

Lemma add_fields_wf t fields t' : wf t -> Forall (fun p => mask_ok p.2) fields ->
  add_fields t fields (num_fields_ t) = Some (t', inr tt) ->
  wf t' /\ num_fields_ t' = (num_fields_ t + length fields)%nat /\ table_ t' = table_ t.
Proof.
  intros Hw Hm. revert t Hw. induction Hm as [|[field mask] fields Hm _ IH]; intros t Hw; cbn [add_fields length].
  { intros [= <-]. rewrite Nat.add_0_r. done. }
  unfold AddFieldOne. destruct (match mask with value_int v => _ | value_bin b => _ | encoding_not_set => _ end)
    as [m64|] eqn:Hm64; [|done]. cbn [mbind option_bind].
  assert (Hw64 : in_word 64 m64).
  { destruct mask as [v|b|]; [injection Hm64 as <-; by apply wrap_range| |injection Hm64 as <-; done].
    cbn in Hm. destruct (Nat.leb_spec (length b) 8); [|done]. injection Hm64 as <-.
    pose proof (le_load_bound b Hm). assert (256 ^ Z.of_nat (length b) <= 256 ^ 8) by (apply Z.pow_le_mono_r; lia).
    unfold in_word. lia. }
  destruct (match field_position field with kAttrName _ => _ | kOffset _ => _ | position_not_set => _ end)
    as [t1 [e|[]]] eqn:Hadd; [done|].
  assert (Hw1 : wf t1 /\ num_fields_ t1 = S (num_fields_ t) /\ table_ t1 = table_ t).
  { destruct (field_position field); [| |done];
      [unfold AddField_attr in Hadd|unfold AddField in Hadd];
      eapply DoAddField_wf in Hadd as (? & ? & ? & _); done. }
  destruct Hw1 as (Hw1 & Hn1 & Ht1). intros Hadd'. rewrite <- Hn1 in Hadd'.
  destruct (IH t1 Hw1 Hadd') as (Hw' & Hn' & Ht'). split; [done|]. rewrite Hn', Ht', Ht1, Hn1.
  split; [lia|done].
Qed.

Lemma Init_Inv crc d e fields masks m' : fields <> [] -> Forall mask_ok masks ->
  Init (MkExactMatch d e (new_table 0)) fields masks = Some (m', inr tt) ->
  Inv 0 crc (em_table_ m') /\ rules 0 (em_table_ m') = ∅ /\ default_gate_ m' = DROP_GATE.
Proof.
  intros Hf Hm. unfold Init. destruct (negb _ && negb _) eqn:Hlen; [done|].
  set (ms := if _ : bool then _ else _). cbn [em_table_].
  destruct (add_fields _ _ _) as [[t [e'|[]]]|] eqn:Hadd; try done. intros [= <-]. cbn [em_table_ default_gate_].
  change 0%nat with (num_fields_ (new_table 0)) in Hadd.
  assert (Hms : Forall mask_ok ms /\ length ms = length fields).
  { unfold ms. destruct (Nat.eqb_spec (length masks) 0) as [Hl|Hl].
    - rewrite length_replicate. split; [|done]. by apply Forall_replicate.
    - split; [done|]. rewrite andb_true_r in Hlen. apply negb_false_iff, Nat.eqb_eq in Hlen. done. }
  destruct Hms as [Hms Hlm].
  apply add_fields_wf in Hadd as (Hw & Hn & Ht); [|apply new_table_wf|].
  - destruct (fresh_Inv 0 crc t Hw) as [HI Hr]; [|done|done].
    rewrite Hn, length_zip_with, Hlm. destruct fields; [done|]. cbn. lia.
  - apply Forall_forall. intros [f m] Hin. apply elem_of_zip_r in Hin. rewrite Forall_forall in Hms. by apply Hms.
Qed.

(** The module sends a packet to the gate of the rule that has exactly the masked
    bytes of the packet's fields, and to the default gate if there is none. *)
Theorem exact_match_process_batch crc m pkts : Inv 0 crc (em_table_ m) ->
  Forall (fun '(attrs, data, junk) => Forall (buffer_ok (buffer_fn attrs data)) (active (em_table_ m)) /\
            length junk = HASH_KEY_SIZE /\ bytes_ok junk) pkts ->
  ProcessBatch crc m pkts = Some (map (fun '(attrs, data, junk) =>
    default (default_gate_ m) (rules 0 (em_table_ m) !! rule_key (extract (em_table_ m) (buffer_fn attrs data)))) pkts).
Proof.
  intros HI HF. induction HF as [|[[attrs data] junk] pkts (Hb & Hl & Hok) _ IH]; [done|].
  cbn [ProcessBatch map]. pose proof (classify_rules 0 crc _ _ junk (default_gate_ m) HI Hb Hl Hok) as Hc.
  unfold classify in Hc. destruct (MakeKey _ _ _) as [key|]; [|done]. cbn [mbind option_bind] in *.
  rewrite IH. cbn. congruence.
Qed.

(** [Init] accepts a configuration without fields; the key of a packet is then padded
    at word [(0 - 1) / 8] of 64-bit unsigned arithmetic, outside of the key. *)
Lemma exact_match_no_fields crc attrs data junk :
  exists m, Init (MkExactMatch 0 false (new_table 0)) [] [] = Some (m, inr tt) /\
    ProcessBatch crc m [(attrs, data, junk)] = None.
Proof. eexists. split; [vm_compute; reflexivity|]. reflexivity. Qed.

(** ** A concrete module: the destination port and the last byte of an address *)
Definition ex_crc (x init : Z) : Z := u32 (x + 31 * init).
Definition ex_module : ExactMatch :=
  match Init (MkExactMatch 0 false (new_table 0))
          [PbField 2 (kOffset 36); PbField 1 (kOffset 33)] [value_int 0xFFFF; value_int 0x0F] with
  | Some (m, _) => m | None => MkExactMatch 0 false (new_table 0) end.
Definition ex_rules : ExactMatch :=
  match CommandAdd ex_crc ex_module 3 [value_bin [0; 80]; value_int 5] with Some (m, _) => m | None => ex_module end.
Definition ex_packet (port addr : Z) : bytes := replicate 33 1 ++ [addr; 9; 9; 0; port] ++ replicate 20 0.
Definition ex_buf (port addr : Z) : ExactMatchField -> bytes := buffer_fn (fun _ => []) (ex_packet port addr).
Definition ex_junk : bytes := replicate 64 170.

Lemma ex_module_Inv : Inv 0 ex_crc (em_table_ ex_module).
Proof.
  apply (Init_Inv ex_crc 0 false [PbField 2 (kOffset 36); PbField 1 (kOffset 33)] [value_int 0xFFFF; value_int 0x0F]);
    [done|by repeat constructor|vm_compute; reflexivity].
Qed.

#[export] Instance buffer_ok_dec buf f : Decision (buffer_ok buf f).
Proof. unfold buffer_ok. apply _. Defined.

Lemma exact_match_refines_witness :
  (exists t', AddRule 0 ex_crc (em_table_ ex_module) 3 [[0; 80]; [5]] = Some (t', inr tt) /\ Inv 0 ex_crc t') /\
  classify 0 ex_crc (em_table_ ex_rules) (ex_buf 80 0x35) ex_junk 7 = Some 3 /\
  classify 0 ex_crc (em_table_ ex_rules) (ex_buf 80 0x36) ex_junk 7 = Some 7.
Proof.
  split; [|split; vm_compute; reflexivity].
  destruct (exact_match_refines 0 ex_crc (em_table_ ex_module) 3 [[0; 80]; [5]] (ex_buf 80 0x35) ex_junk 7
    ex_module_Inv) as (c & _ & (t' & r & Ha & HI & Hr & _) & _).
  - apply (bool_decide_unpack _). vm_compute. exact I.
  - apply (bool_decide_unpack _). vm_compute. exact I.
  - reflexivity.
  - apply (bool_decide_unpack _). vm_compute. exact I.
  - exists t'. split; [|exact HI]. rewrite Ha, Hr. f_equal.
Defined.

Lemma exact_match_process_batch_witness :
  ProcessBatch ex_crc ex_module [(fun _ => [], ex_packet 80 0x35, ex_junk)] = Some [DROP_GATE].
Proof.
  rewrite (exact_match_process_batch ex_crc ex_module _ ex_module_Inv).
  - vm_compute. reflexivity.
  - constructor; [|constructor]. split; [|split; [reflexivity|]]; apply (bool_decide_unpack _); vm_compute; exact I.
Defined.
