(* ===== verification/WildcardMatch.v ===== *)
(** The wildcard-match module: [core/modules/wildcard_match.h] and
    [core/modules/wildcard_match.cc].

    A rule is a pattern of field values under field masks with a priority.  The rules with
    the same masks, a tuple, share a cuckoo table; a packet is looked up in every tuple and
    the best priority wins.  The keys and the protobuf arguments are those of ExactMatch.v,
    the tables those of CuckooMap.v. *)
From S2P Require Import Prelude Common Endian Bits CuckooMap ExactMatch.
Open Scope Z_scope.

Definition MAX_TUPLES : nat := 8.
Record WmData := MkData { priority : Z; ogate : Z }.
#[export] Instance wm_data_dec : EqDecision WmData.
Proof. solve_decision. Defined.
(** A positive error number. *)
Definition errno_of (code : Z) : errno :=
  if code =? 22 then EINVAL else if code =? 12 then ENOMEM else if code =? 2 then ENOENT else if code =? 17 then EEXIST
  else if code =? 28 then ENOSPC else if code =? 16 then EBUSY else ENODEV.
Definition data0 : WmData := MkData 0 0.
Record WmField := MkWmField { wf_attr_id : Z; wf_offset : Z; wf_pos : Z; wf_size : Z }.

Abbreviation WmTable := (CuckooMap.t (K := bytes) (V := WmData)).
Record WmTuple := MkTuple { ht : WmTable; tuple_mask : bytes }.
Record WildcardMatch := MkWildcardMatch {
  wm_default_gate_ : Z;
  wm_total_key_size_ : Z;
  wm_fields_ : list WmField;
  tuples_ : list WmTuple }.

Definition with_tuples (m : WildcardMatch) (ts : list WmTuple) : WildcardMatch :=
  MkWildcardMatch (wm_default_gate_ m) (wm_total_key_size_ m) (wm_fields_ m) ts.
Definition new_module : WildcardMatch := MkWildcardMatch 0 0 [] [].

Section Module.
(** [crc32c_sse42_u64(data, init)] *)
Context (crc : Z -> Z -> Z).

Definition wm_eq (len : Z) (lhs rhs : bytes) : bool :=
  forallb (fun i => u64_at lhs i =? u64_at rhs i) (seq 0 (Z.to_nat (len / 8))).
Definition wm_hash (len : Z) (key : bytes) : Z :=
  foldl (fun init_val i => crc (u64_at key i) init_val) 0 (seq 0 (Z.to_nat (len / 8))).
Abbreviation hasher m := (wm_hash (wm_total_key_size_ m)).
Abbreviation eq m := (wm_eq (wm_total_key_size_ m)).
Abbreviation e0 := (entry0 data0).

(** [mask]: [dst] starts out with whatever is on the stack. *)
Definition mask_key (dst src mask : bytes) (len : Z) : bytes :=
  foldl (fun dst i => write (8 * i) (le_store 8 (Z.land (u64_at src i) (u64_at mask i))) dst) dst (seq 0 (Z.to_nat (len / 8))).

(** ** Set-up *)

(** The field, and [size_acc] after it. *)
Definition AddFieldOne (field : Field) (pos : Z) : WmField * (errno + unit) :=
  let size := to_int (num_bytes field) in
  let f id off := MkWmField id off pos size in
  if (size <? 1) || (MAX_FIELD_SIZE <? size) then (f 0 0, inl EINVAL)
  else match field_position field with
  | kOffset off => let off := to_int off in (f (-1) off, if (off <? 0) || (1024 <? off) then inl EINVAL else inr tt)
  | kAttrName id => (f id 0, if id <? 0 then inl (errno_of (- id)) else inr tt)
  | position_not_set => (f 0 0, inl EINVAL)
  end.
Fixpoint add_fields (fs : list WmField) (fields : list Field) (size_acc : Z) : list WmField * Z * (errno + unit) :=
  match fields with
  | [] => (fs, size_acc, inr tt)
  | field :: fields =>
      match AddFieldOne field size_acc with
      | (f, inl e) => (fs ++ [f], size_acc, inl e)
      | (f, inr _) => add_fields (fs ++ [f]) fields (size_acc + wf_size f)
      end
  end.
Definition Init (m : WildcardMatch) (fields : list Field) : WildcardMatch * (errno + unit) :=
  match add_fields (wm_fields_ m) fields 0 with
  | (fs, _, inl e) => (MkWildcardMatch (wm_default_gate_ m) (wm_total_key_size_ m) fs (tuples_ m), inl e)
  | (fs, size_acc, inr _) => (MkWildcardMatch DROP_GATE (align_ceil size_acc 8) fs (tuples_ m), inr tt)
  end.

(** ** Lookup *)
Definition lookup_tuple (m : WildcardMatch) (junk key : bytes) (result : WmData) (t : WmTuple) : WmData :=
  let key_masked := mask_key junk key (tuple_mask t) (wm_total_key_size_ m) in
  match CuckooMap.Find (hasher m) (eq m) e0 (ht t) key_masked with
  | Some entry => if priority result <=? priority entry.2 then entry.2 else result
  | None => result
  end.
Definition LookupEntry (m : WildcardMatch) (junk key : bytes) (def_gate : Z) : Z :=
  ogate (foldl (lookup_tuple m junk key) (MkData INT_MIN def_gate) (tuples_ m)).

(** A packet, as in ExactMatch.v: the attributes by id and the data from the head. *)
Definition field_buffer (attrs : Z -> bytes) (data : bytes) (f : WmField) : bytes :=
  if wf_attr_id f <? 0 then drop (Z.to_nat (wf_offset f)) data else attrs (wf_attr_id f).
Fixpoint fill_key (buf : WmField -> bytes) (fs : list WmField) (key : bytes) : option bytes :=
  match fs with
  | [] => Some key
  | f :: fs =>
      w ← slice 0 8 (buf f);
      key ← store8 key (wf_pos f) (le_load w);
      fill_key buf fs key
  end.
Definition make_key (m : WildcardMatch) (buf : WmField -> bytes) (junk : bytes) : option bytes :=
  key ← store8 junk (u64 (wm_total_key_size_ m - 1) / 8 * 8) 0;
  fill_key buf (wm_fields_ m) key.
Definition process_packet (m : WildcardMatch) (junk : bytes) (attrs : Z -> bytes) (data : bytes) : option Z :=
  key ← make_key m (field_buffer attrs data) junk;
  Some (LookupEntry m junk key (wm_default_gate_ m)).
Fixpoint ProcessBatch (m : WildcardMatch) (junk : bytes) (pkts : list ((Z -> bytes) * bytes)) : option (list Z) :=
  match pkts with
  | [] => Some []
  | (attrs, data) :: pkts => g ← process_packet m junk attrs data; gs ← ProcessBatch m junk pkts; Some (g :: gs)
  end.

(** ** Rules *)

(** A value or a mask of a field, in 8 bytes; [Copy] of more runs past it. *)
Definition field_word (d : FieldData) (field_size : Z) : option (errno + bytes) :=
  match d with
  | value_int v => let '(out, ok) := uint64_to_bin (replicate 8 0) (u64 v) (Z.to_nat field_size) true in
                   Some (if ok then inr out else inl EINVAL)
  | value_bin b => if (length b <=? 8)%nat then Some (inr (write 0 b (replicate 8 0))) else None
  | encoding_not_set => Some (inr (replicate 8 0))
  end.
(** [Copy] of [field_size] bytes to the field's position. *)
Definition copy_field (key : bytes) (f : WmField) (w : bytes) : option bytes :=
  if (0 <=? wf_pos f) && (wf_pos f + wf_size f <=? Z.of_nat HASH_KEY_SIZE)
  then Some (write (Z.to_nat (wf_pos f)) (take (Z.to_nat (wf_size f)) w) key) else None.
Fixpoint extract_fields (fs : list WmField) (values masks : list FieldData) (key mask : bytes) : option (errno + (bytes * bytes)) :=
  match fs, values, masks with
  | f :: fs, valuedata :: values, maskdata :: masks =>
      v ← field_word valuedata (wf_size f);
      match v with
      | inl e => Some (inl e)
      | inr v =>
          mk ← field_word maskdata (wf_size f);
          match mk with
          | inl e => Some (inl e)
          | inr mk =>
              if negb (Z.land (le_load v) (u64 (Z.lnot (le_load mk))) =? 0) then Some (inl EINVAL)
              else
                key ← copy_field key f v;
                mask ← copy_field mask f mk;
                extract_fields fs values masks key mask
          end
      end
  | _, _, _ => Some (inr (key, mask))
  end.
Definition ExtractKeyMask (m : WildcardMatch) (values masks : list FieldData) : option (errno + (bytes * bytes)) :=
  if negb (length values =? length (wm_fields_ m))%nat then Some (inl EINVAL)
  else if negb (length masks =? length (wm_fields_ m))%nat then Some (inl EINVAL)
  else extract_fields (wm_fields_ m) values masks (replicate HASH_KEY_SIZE 0) (replicate HASH_KEY_SIZE 0).

Definition FindTuple (m : WildcardMatch) (mask : bytes) : option nat :=
  let n := Z.to_nat (wm_total_key_size_ m) in
  fst <$> list_find (fun t => take n (tuple_mask t) = take n mask) (tuples_ m).
Definition AddTuple (m : WildcardMatch) (mask : bytes) : option (WildcardMatch * nat) :=
  if (MAX_TUPLES <=? length (tuples_ m))%nat then None
  else Some (with_tuples m (tuples_ m ++ [MkTuple (CuckooMap.make e0 kInitNumBucket kInitNumEntries) mask]), length (tuples_ m)).

(** What [Remove] returns is [true] for success, and [ret] not 0 is taken for an error. *)
Definition DelEntry (m : WildcardMatch) (idx : nat) (key : bytes) : option (WildcardMatch * Z) :=
  t ← tuples_ m !! idx;
  let '(table, removed) := CuckooMap.Remove (hasher m) (eq m) e0 (ht t) key in
  let m := with_tuples m (<[idx := MkTuple table (tuple_mask t)]> (tuples_ m)) in
  let ret := if removed : bool then 1 else 0 in
  if negb (ret =? 0) then Some (m, ret)
  else Some (if CuckooMap.Count table =? 0 then with_tuples m (delete idx (tuples_ m)) else m, 0).

(** [tuples_[idx].ht.Insert] *)
Definition insert_rule (m : WildcardMatch) (idx : nat) (key : bytes) (data : WmData) : option (WildcardMatch * (errno + unit)) :=
  t ← tuples_ m !! idx;
  r ← CuckooMap.Insert (hasher m) (eq m) e0 (ht t) key data;
  Some (with_tuples m (<[idx := MkTuple r.1 (tuple_mask t)]> (tuples_ m)),
        match r.2 with Some _ => inr tt | None => inl EINVAL end).

Definition CommandAdd (m : WildcardMatch) (gate prio : Z) (values masks : list FieldData) : option (WildcardMatch * (errno + unit)) :=
  let gate := u16 gate in
  km ← ExtractKeyMask m values masks;
  match km with
  | inl e => Some (m, inl e)
  | inr (key, mask) =>
      if negb (is_valid_gate gate) then Some (m, inl EINVAL)
      else
        let data := MkData (to_int prio) gate in
        match FindTuple m mask with
        | Some idx => insert_rule m idx key data
        | None => match AddTuple m mask with
                  | Some (m, idx) => insert_rule m idx key data
                  | None => Some (m, inl ENOSPC)
                  end
        end
  end.

Definition CommandDelete (m : WildcardMatch) (values masks : list FieldData) : option (WildcardMatch * (errno + unit)) :=
  km ← ExtractKeyMask m values masks;
  match km with
  | inl e => Some (m, inl e)
  | inr (key, mask) =>
      match FindTuple m mask with
      | None => Some (m, inl ENOENT)
      | Some idx =>
          r ← DelEntry m idx key;
          Some (r.1, if r.2 <? 0 then inl (errno_of (- r.2)) else inr tt)
      end
  end.

Definition Clear (m : WildcardMatch) : WildcardMatch :=
  with_tuples m (map (fun t => MkTuple (CuckooMap.Clear e0 (ht t)) (tuple_mask t)) (tuples_ m)).
Definition CommandClear := Clear.
Definition CommandSetDefaultGate (m : WildcardMatch) (gate : Z) : WildcardMatch :=
  MkWildcardMatch (u16 gate) (wm_total_key_size_ m) (wm_fields_ m) (tuples_ m).

Fixpoint add_rules (m : WildcardMatch) (rules : list (Z * Z * list FieldData * list FieldData)) : option (WildcardMatch * (errno + unit)) :=
  match rules with
  | [] => Some (m, inr tt)
  | (gate, prio, values, masks) :: rules =>
      r ← CommandAdd m gate prio values masks;
      match r with (m, inl e) => Some (m, inl e) | (m, inr _) => add_rules m rules end
  end.
Definition SetRuntimeConfig (m : WildcardMatch) (default_gate : Z) (rules : list (Z * Z * list FieldData * list FieldData)) :=
  add_rules (CommandSetDefaultGate (Clear m) default_gate) rules.

(** The rules that [GetRuntimeConfig] lists, before they are sorted. *)
Definition field_data (fs : list WmField) (key : bytes) : list FieldData :=
  map (fun f => value_bin (take (Z.to_nat (wf_size f)) (drop (Z.to_nat (wf_pos f)) key))) fs.
Fixpoint tuple_rules (m : WildcardMatch) (ts : list WmTuple) : option (list (Z * Z * list FieldData * list FieldData)) :=
  match ts with
  | [] => Some []
  | t :: ts =>
      es ← for_each e0 (ht t);
      rest ← tuple_rules m ts;
      Some (map (fun e => (ogate e.2, priority e.2, field_data (wm_fields_ m) e.1, field_data (wm_fields_ m) (tuple_mask t))) es ++ rest)
  end.
Definition GetRuntimeConfig (m : WildcardMatch) : option (Z * list (Z * Z * list FieldData * list FieldData)) :=
  rules ← tuple_rules m (tuples_ m); Some (wm_default_gate_ m, rules).
Definition num_rules (m : WildcardMatch) : Z := foldr (fun t n => CuckooMap.Count (ht t) + n) 0 (tuples_ m).
End Module.

(** ** Masked keys *)
Lemma wm_eq_same : wm_eq = ExactMatchKeyEq.
Proof. reflexivity. Qed.
Lemma wm_hash_same : wm_hash = ExactMatchKeyHash.
Proof. reflexivity. Qed.

Lemma zip_land_zero (l : bytes) : zip_with Z.land l (replicate (length l) 0) = replicate (length l) 0.
Proof. induction l as [|x l IH]; [done|]. cbn. by rewrite IH, Z.land_0_r. Qed.

Lemma canon_length n key : (n <= HASH_KEY_SIZE)%nat -> length key = HASH_KEY_SIZE -> length (canon n key) = HASH_KEY_SIZE.
Proof. intros. unfold canon. rewrite length_app, length_take, length_replicate. lia. Qed.
Lemma canon_ok n key : bytes_ok key -> bytes_ok (canon n key).
Proof. intros. unfold canon. apply bytes_ok_app. auto with bess. Qed.

(** A key under a mask whose bytes end at [w]. *)
Lemma zip_canon w k key mask : (w <= k <= HASH_KEY_SIZE)%nat -> length key = HASH_KEY_SIZE -> key_ok w mask ->
  canon k (zip_with Z.land key mask) = zip_with Z.land (canon w key) mask.
Proof.
  intros Hk Hl [Hlm _ <-]. unfold canon at 1 3. set (z := replicate (HASH_KEY_SIZE - w) 0).
  assert (Hlt : length (take w mask) = w) by (rewrite length_take; lia).
  assert (Hla : length (take w key) = w) by (rewrite length_take; lia).
  unfold canon. fold z. rewrite zip_with_app by lia.
  rewrite <- (take_drop w key) at 1. rewrite zip_with_app by lia.
  assert (Hz : zip_with Z.land (drop w key) z = z).
  { unfold z. rewrite <- Hl, <- length_drop. apply zip_land_zero. }
  assert (Hzz : zip_with Z.land z z = z).
  { assert (Hlz : length z = (HASH_KEY_SIZE - w)%nat) by apply length_replicate.
    pose proof (zip_land_zero z) as Hz0. rewrite Hlz in Hz0. exact Hz0. }
  rewrite Hz, Hzz, take_app_ge by (rewrite length_zip_with; lia). rewrite <- app_assoc. f_equal.
  rewrite length_zip_with, Hla, Hlt, Nat.min_id. unfold z. rewrite take_replicate, <- replicate_add. f_equal. lia.
Qed.

Lemma key_ok_weaken w k key : (w <= k <= HASH_KEY_SIZE)%nat -> key_ok w key -> key_ok k key.
Proof.
  intros Hk [Hl Hok Hc]. split; [done..|]. rewrite <- Hc at 2. rewrite <- Hc at 1. unfold canon.
  rewrite take_app_ge, length_take, take_replicate by (rewrite length_take; lia).
  rewrite <- app_assoc, <- replicate_add. do 2 f_equal. lia.
Qed.

Lemma mask_word_store dst src mask (i : nat) : bytes_ok src -> bytes_ok mask ->
  length dst = HASH_KEY_SIZE -> length src = HASH_KEY_SIZE -> length mask = HASH_KEY_SIZE -> (8 * i + 8 <= HASH_KEY_SIZE)%nat ->
  take (8 * i) dst = take (8 * i) (zip_with Z.land src mask) ->
  let dst := write (8 * i) (le_store 8 (Z.land (u64_at src i) (u64_at mask i))) dst in
  length dst = HASH_KEY_SIZE /\ take (8 * i + 8) dst = take (8 * i + 8) (zip_with Z.land src mask).
Proof.
  intros Hs Hm Hd Hls Hlm Hi Ht.
  assert (Hw : le_store 8 (Z.land (u64_at src i) (u64_at mask i)) = take 8 (drop (8 * i) (zip_with Z.land src mask))).
  { unfold u64_at. rewrite le_load_land by (auto with bess || by rewrite !length_take, !length_drop; lia).
    rewrite zip_with_drop, zip_with_take. set (k := zip_with _ (take _ _) _).
    assert (length k = 8%nat) as Hk by (unfold k; rewrite length_zip_with, !length_take, !length_drop; lia).
    rewrite <- Hk at 1. apply le_store_load. unfold k. auto with bess. }
  rewrite Hw. cbn zeta. set (v := take 8 _).
  assert (length v = 8%nat) as Hv by (unfold v; rewrite length_take, length_drop, length_zip_with; lia).
  split; [rewrite length_write by lia; done|].
  pose proof (take_write_app (8 * i) (take (8 * i) (zip_with Z.land src mask)) v [] dst) as Htw.
  rewrite app_nil_r, Hv in Htw. rewrite Htw; [unfold v; apply take_take_drop| |cbn; lia|done].
  rewrite length_take, length_zip_with. lia.
Qed.

Lemma mask_key_spec dst src mask n : bytes_ok src -> bytes_ok mask ->
  length dst = HASH_KEY_SIZE -> length src = HASH_KEY_SIZE -> length mask = HASH_KEY_SIZE -> (8 * n <= HASH_KEY_SIZE)%nat ->
  let out := mask_key dst src mask (Z.of_nat (8 * n)) in
  length out = HASH_KEY_SIZE /\ take (8 * n) out = take (8 * n) (zip_with Z.land src mask).
Proof.
  intros Hs Hm Hd Hls Hlm Hn. cbn zeta. unfold mask_key.
  replace (Z.to_nat (Z.of_nat (8 * n) / 8)) with n by nlia.
  induction n as [|n IH]; [done|]. rewrite seq_S, foldl_snoc. cbn [Nat.add].
  destruct IH as [Hl Ht]; [lia|]. replace (8 * S n)%nat with (8 * n + 8)%nat by lia.
  apply mask_word_store; done || lia.
Qed.

(** ** The state *)
Definition wm_sizes (fs : list WmField) : Z := foldr (fun f n => wf_size f + n) 0 fs.
(** Fields that follow each other in the key from position [p]. *)
Fixpoint wm_layout (p : Z) (fs : list WmField) : Prop :=
  match fs with
  | [] => True
  | f :: fs => wf_pos f = p /\ 1 <= wf_size f <= 8 /\ wm_layout (p + wf_size f) fs
  end.
(** The bytes of a field, and the key they make. *)
Definition wm_bytes (buf : WmField -> bytes) (f : WmField) : bytes := take (Z.to_nat (wf_size f)) (buf f).
Definition wm_buffer_ok (buf : WmField -> bytes) (f : WmField) : Prop := bytes_ok (buf f) /\ (8 <= length (buf f))%nat.
Definition packet_key (m : WildcardMatch) (buf : WmField -> bytes) : bytes := rule_key (map (wm_bytes buf) (wm_fields_ m)).

(** The rule with a key under a mask. *)
Fixpoint rule_in (ts : list WmTuple) (mask key : bytes) : option WmData :=
  match ts with
  | [] => None
  | t :: ts => if bool_decide (tuple_mask t = mask) then CuckooMap.abs (entry0 data0) (ht t) !! key else rule_in ts mask key
  end.
Definition rule_at (m : WildcardMatch) := rule_in (tuples_ m).
Definition masks (m : WildcardMatch) : list bytes := map tuple_mask (tuples_ m).
Definition matches (pkt mask key : bytes) : Prop := zip_with Z.land pkt mask = key.

Section Proofs.
Context (crc : Z -> Z -> Z).

Record tuple_ok (w n : nat) (t : WmTuple) : Prop := {
  to_mask : key_ok w (tuple_mask t);
  to_table : CuckooMap.Inv (wm_hash crc (Z.of_nat (8 * n))) (entry0 data0) (key_ok (8 * n)) (ht t);
  to_priority : map_Forall (fun _ d => INT_MIN <= priority d) (CuckooMap.abs (entry0 data0) (ht t)) }.
Record Inv (m : WildcardMatch) : Prop := {
  inv_layout : wm_layout 0 (wm_fields_ m);
  inv_fields : (0 < length (wm_fields_ m) <= MAX_FIELDS)%nat;
  inv_total : wm_total_key_size_ m = align_ceil (wm_sizes (wm_fields_ m)) 8;
  inv_tuples : (length (tuples_ m) <= MAX_TUPLES)%nat;
  inv_masks : NoDup (masks m);
  inv_tuple : Forall (tuple_ok (Z.to_nat (wm_sizes (wm_fields_ m))) (Z.to_nat (wm_total_key_size_ m / 8))) (tuples_ m) }.

Lemma wm_sizes_bound p fs : wm_layout p fs -> Z.of_nat (length fs) <= wm_sizes fs <= 8 * Z.of_nat (length fs).
Proof using. clear crc.
  revert p. induction fs as [|f fs IH]; intros p; cbn [wm_layout wm_sizes foldr length]; [lia|].
  intros (_ & Hs & Hl). specialize (IH _ Hl). unfold wm_sizes in IH. lia.
Qed.

Lemma size_words s : 1 <= s <= 64 ->
  exists n, align_ceil s 8 = Z.of_nat (8 * n) /\ (1 <= n <= 8)%nat /\ (Z.to_nat s <= 8 * n)%nat /\
    Z.to_nat (align_ceil s 8 / 8) = n /\ u64 (align_ceil s 8 - 1) / 8 = Z.of_nat n - 1.
Proof using. clear crc.
  intros Hs. destruct (align_spec s 8) as (_ & _ & [k Hk] & Hb); [unfold in_word; lia|lia|lia|].
  exists (Z.to_nat k). rewrite Hk in Hb |- *. do 3 (split; [lia|]). rewrite wrap_small by (unfold in_word; lia). zlia.
Qed.

Lemma inv_words m : Inv m ->
  exists w n, wm_sizes (wm_fields_ m) = Z.of_nat w /\ wm_total_key_size_ m = Z.of_nat (8 * n) /\ (1 <= n <= 8)%nat /\
    (w <= 8 * n)%nat /\ Forall (tuple_ok w n) (tuples_ m) /\ u64 (wm_total_key_size_ m - 1) / 8 = Z.of_nat n - 1.
Proof.
  intros [Hl Hf Ht _ _ Htup]. pose proof (wm_sizes_bound 0 _ Hl) as Hs. unfold MAX_FIELDS in Hf.
  destruct (size_words (wm_sizes (wm_fields_ m))) as (n & Hn & Hn8 & Hw & Hnn & Hu); [lia|].
  exists (Z.to_nat (wm_sizes (wm_fields_ m))), n. rewrite Ht in Htup |- *. rewrite Hnn in Htup.
  rewrite Z2Nat.id by lia. done.
Qed.

(** The loop over the fields: their bytes follow each other. *)
Lemma fill_key_spec buf fs pre key :
  wm_layout (Z.of_nat (length pre)) fs -> Forall (wm_buffer_ok buf) fs ->
  (length pre + 8 * length fs <= HASH_KEY_SIZE)%nat -> length key = HASH_KEY_SIZE -> bytes_ok key -> take (length pre) key = pre ->
  exists key', fill_key buf fs key = Some key' /\ length key' = HASH_KEY_SIZE /\ bytes_ok key' /\
    let out := pre ++ concat (map (wm_bytes buf) fs) in take (length out) key' = out.
Proof using. clear crc.
  intros Hlay Hbuf. revert pre key Hlay. induction Hbuf as [|f fs [Hok Hlen] Hbuf IH];
    intros pre key Hlay Hsz Hl Hkok Hpre; cbn [fill_key map concat].
  { exists key. rewrite app_nil_r. done. }
  cbn [wm_layout length] in *. destruct Hlay as (Hpos & Hs & Hlay).
  rewrite slice_Some by lia. cbn [mbind option_bind]. change (Z.to_nat 0) with 0%nat. change (Z.to_nat 8) with 8%nat.
  rewrite drop_0. unfold store8. rewrite Hpos.
  rewrite (proj2 (Z.leb_le 0 _)), (proj2 (Z.leb_le _ (Z.of_nat HASH_KEY_SIZE))) by (unfold HASH_KEY_SIZE in *; lia).
  cbn [andb mbind option_bind]. rewrite Nat2Z.id.
  set (v := wm_bytes buf f). set (z := drop (Z.to_nat (wf_size f)) (take 8 (buf f))).
  assert (H8 : length (take 8 (buf f)) = 8%nat) by (rewrite length_take; lia).
  assert (Hv : le_store 8 (le_load (take 8 (buf f))) = v ++ z).
  { rewrite <- H8 at 1. rewrite le_store_load by auto with bess.
    rewrite <- (take_drop (Z.to_nat (wf_size f)) (take 8 (buf f))), take_take.
    by rewrite Nat.min_l by lia. }
  assert (Hlv : length v = Z.to_nat (wf_size f)) by (unfold v, wm_bytes; rewrite length_take; lia).
  assert (Hlz : length z = (8 - Z.to_nat (wf_size f))%nat) by (unfold z; rewrite length_drop; lia).
  rewrite Hv. set (key1 := write (length pre) (v ++ z) key).
  assert (Hfit : (length pre + length (v ++ z) <= length key)%nat) by (rewrite length_app, Hl; unfold HASH_KEY_SIZE in *; lia).
  destruct (IH (pre ++ v) key1) as (key' & Hmk & Hl' & Hok' & Htake).
  - rewrite length_app, Hlv. by rewrite Nat2Z.inj_add, Z2Nat.id by lia.
  - rewrite length_app, Hlv. lia.
  - unfold key1. by rewrite length_write.
  - unfold key1, write. rewrite !bytes_ok_app. split; [auto with bess|]. split; [|auto with bess].
    rewrite <- bytes_ok_app, <- Hv. apply le_store_ok.
  - rewrite length_app. apply take_write_app; [done| |done]. rewrite length_app in Hfit. lia.
  - exists key'. cbn zeta in Htake. rewrite <- app_assoc in Htake. done.
Qed.

Lemma wm_bytes_length buf fs p : wm_layout p fs -> Forall (wm_buffer_ok buf) fs ->
  Z.of_nat (length (concat (map (wm_bytes buf) fs))) = wm_sizes fs /\ bytes_ok (concat (map (wm_bytes buf) fs)).
Proof using. clear crc.
  intros Hl Hb. revert p Hl. induction Hb as [|f fs [Hok Hlen] _ IH]; intros p; cbn [wm_layout]; [by split; [|constructor]|].
  intros (_ & Hs & Hl). destruct (IH _ Hl) as [Hc Hbo]. unfold wm_sizes in *. cbn [map concat foldr].
  rewrite length_app, bytes_ok_app. unfold wm_bytes at 1 3. rewrite length_take. split; [lia|auto with bess].
Qed.

(** The key of a packet is, up to the sizes of the fields, the bytes of its fields. *)
Lemma make_key_spec m buf junk : Inv m -> Forall (wm_buffer_ok buf) (wm_fields_ m) ->
  length junk = HASH_KEY_SIZE -> bytes_ok junk ->
  exists key, make_key m buf junk = Some key /\ length key = HASH_KEY_SIZE /\ bytes_ok key /\
    canon (Z.to_nat (wm_sizes (wm_fields_ m))) key = packet_key m buf.
Proof.
  intros HI Hbuf Hl Hok. destruct (inv_words m HI) as (w & n & Hw & Ht & Hn & Hwn & _ & Hu).
  pose proof (inv_layout m HI) as Hlay. pose proof (inv_fields m HI) as Hf.
  destruct (wm_bytes_length buf _ 0 Hlay Hbuf) as [Hlc Hbc].
  unfold make_key. rewrite Hu. unfold store8 at 1.
  rewrite (proj2 (Z.leb_le 0 _)), (proj2 (Z.leb_le _ (Z.of_nat HASH_KEY_SIZE))) by (unfold HASH_KEY_SIZE; lia).
  cbn [andb mbind option_bind]. set (key0 := write _ _ junk).
  destruct (fill_key_spec buf (wm_fields_ m) [] key0) as (key & Hmk & Hlk & Hokk & Htake).
  - done.
  - done.
  - unfold MAX_FIELDS, HASH_KEY_SIZE in *. cbn [length]. lia.
  - unfold key0. rewrite length_write; [done|]. rewrite length_le_store, Hl. unfold HASH_KEY_SIZE. lia.
  - unfold key0, write. rewrite !bytes_ok_app. auto with bess.
  - done.
  - exists key. do 3 (split; [done|]). cbn [app] in Htake. unfold packet_key, rule_key, canon.
    replace (Z.to_nat (wm_sizes (wm_fields_ m))) with (length (concat (map (wm_bytes buf) (wm_fields_ m)))) by lia.
    by rewrite Htake.
Qed.

(** ** Lookup *)
Lemma rule_in_Some ts mask key d : NoDup (map tuple_mask ts) ->
  rule_in ts mask key = Some d <->
  exists t, t ∈ ts /\ tuple_mask t = mask /\ CuckooMap.abs (entry0 data0) (ht t) !! key = Some d.
Proof using. clear crc.
  induction ts as [|t ts IH]; intros Hnd; cbn [rule_in].
  { split; [done|]. by intros (t & ?%elem_of_nil & _). }
  apply NoDup_cons in Hnd as [Hni Hnd]. case_bool_decide as Hm.
  - split; [intros; exists t; split; [left|done]|]. intros (t' & [->|Hin]%elem_of_cons & Hm' & Hk); [done|].
    exfalso. apply Hni. rewrite Hm, <- Hm'. by apply list_elem_of_fmap_2.
  - rewrite IH by done. split; intros (t' & Hin & ? & ?).
    + exists t'. split; [by right|done].
    + apply elem_of_cons in Hin as [->|Hin]; [done|by exists t'].
Qed.

(** The best of the rules for a packet's key, tuple by tuple. *)
Definition best (pkt : bytes) (result : WmData) (t : WmTuple) : WmData :=
  match CuckooMap.abs (entry0 data0) (ht t) !! zip_with Z.land pkt (tuple_mask t) with
  | Some d => if priority result <=? priority d then d else result
  | None => result
  end.

Lemma best_spec pkt g ts :
  Forall (fun t => map_Forall (fun _ d => INT_MIN <= priority d) (CuckooMap.abs (entry0 data0) (ht t))) ts ->
  let hit t := CuckooMap.abs (entry0 data0) (ht t) !! zip_with Z.land pkt (tuple_mask t) in
  let r := foldl (best pkt) (MkData INT_MIN g) ts in
  (r = MkData INT_MIN g /\ forall t, t ∈ ts -> hit t = None) \/
  (exists t, t ∈ ts /\ hit t = Some r /\ forall t' d, t' ∈ ts -> hit t' = Some d -> priority d <= priority r).
Proof using. clear crc.
  intros HF hit. induction ts as [|t ts IH] using rev_ind; cbn zeta.
  { left. split; [done|]. by intros t ?%elem_of_nil. }
  rewrite Forall_app, Forall_singleton in HF. destruct HF as [HF Hp]. specialize (IH HF). cbn zeta in IH.
  rewrite foldl_snoc. set (r := foldl _ _ ts) in *. unfold best. fold (hit t).
  destruct (hit t) as [d|] eqn:Hd.
  - assert (INT_MIN <= priority d) as Hmin by exact (Hp _ _ Hd). destruct IH as [[Hr Hn]|(t0 & Hin & Ht0 & Hmax)].
    + right. exists t. rewrite Hr. cbn [priority]. rewrite (proj2 (Z.leb_le _ _) Hmin).
      split; [by apply elem_of_app; right; left|]. split; [done|].
      intros t' d' [Hin'| ->%list_elem_of_singleton]%elem_of_app Hd'; [by rewrite Hn in Hd'|].
      rewrite Hd in Hd'. injection Hd' as ->. lia.
    + right. destruct (Z.leb_spec (priority r) (priority d)).
      * exists t. split; [by apply elem_of_app; right; left|]. split; [done|].
        intros t' d' [Hin'| ->%list_elem_of_singleton]%elem_of_app Hd'; [specialize (Hmax _ _ Hin' Hd'); lia|].
        rewrite Hd in Hd'. injection Hd' as ->. lia.
      * exists t0. split; [by apply elem_of_app; left|]. split; [done|].
        intros t' d' [Hin'| ->%list_elem_of_singleton]%elem_of_app Hd'; [by apply (Hmax t')|].
        rewrite Hd in Hd'. injection Hd' as ->. lia.
  - destruct IH as [[Hr Hn]|(t0 & Hin & Ht0 & Hmax)]; [left|right].
    + split; [done|]. intros t' [Hin'| ->%list_elem_of_singleton]%elem_of_app; [by apply Hn|done].
    + exists t0. split; [by apply elem_of_app; left|]. split; [done|].
      intros t' d' [Hin'| ->%list_elem_of_singleton]%elem_of_app Hd'; [by apply (Hmax t')|by rewrite Hd in Hd'].
Qed.

Lemma keys_eq n : (n <= 8)%nat ->
  forall a b, key_ok (8 * n) a -> key_ok (8 * n) b -> wm_eq (Z.of_nat (8 * n)) a b = true <-> a = b.
Proof using. intros Hn a b. rewrite wm_eq_same. apply key_eq_spec. unfold HASH_KEY_SIZE. lia. Qed.

(** What one tuple finds for a packet. *)
Lemma lookup_tuple_best m w n junk key result t : wm_total_key_size_ m = Z.of_nat (8 * n) -> (n <= 8)%nat -> (w <= 8 * n)%nat ->
  tuple_ok w n t -> length junk = HASH_KEY_SIZE -> bytes_ok junk -> length key = HASH_KEY_SIZE -> bytes_ok key ->
  lookup_tuple crc m junk key result t = best (canon w key) result t.
Proof.
  intros Ht Hn Hw [Hm Htab _] Hlj Hj Hl Hok. unfold lookup_tuple, best. rewrite Ht.
  destruct (mask_key_spec junk key (tuple_mask t) n) as [Hlk Htk];
    [done|exact (key_bytes _ _ Hm)|done|done|exact (key_length _ _ Hm)|unfold HASH_KEY_SIZE; lia|].
  set (mk := mask_key _ _ _ _) in *.
  assert (Hc : canon (8 * n) mk = zip_with Z.land (canon w key) (tuple_mask t)).
  { rewrite <- (zip_canon w (8 * n)) by (done || unfold HASH_KEY_SIZE; lia). unfold canon. by rewrite Htk. }
  assert (Hko : key_ok (8 * n) (zip_with Z.land (canon w key) (tuple_mask t))).
  { rewrite <- Hc. assert (length (take (8 * n) mk) = 8 * n)%nat as Hlt by (rewrite length_take, Hlk; unfold HASH_KEY_SIZE; lia).
    split.
    - apply canon_length; [unfold HASH_KEY_SIZE; lia|done].
    - rewrite Hc. by apply zip_land_ok, canon_ok.
    - unfold canon. by rewrite take_app_le, take_ge by lia. }
  rewrite wm_hash_same, wm_eq_same in *.
  rewrite Find_canon, Hc by (rewrite Hlk; unfold HASH_KEY_SIZE; lia).
  rewrite <- (Find_abs _ _ (entry0 data0) (key_ok (8 * n)) (keys_eq n Hn) (ht t) _ Htab Hko). rewrite wm_eq_same.
  by destruct (CuckooMap.Find _ _ _ _ _) as [[k d]|].
Qed.

Lemma LookupEntry_best m junk key g : Inv m -> length junk = HASH_KEY_SIZE -> bytes_ok junk ->
  length key = HASH_KEY_SIZE -> bytes_ok key ->
  LookupEntry crc m junk key g =
    ogate (foldl (best (canon (Z.to_nat (wm_sizes (wm_fields_ m))) key)) (MkData INT_MIN g) (tuples_ m)).
Proof.
  intros HI Hlj Hj Hl Hok. destruct (inv_words m HI) as (w & n & Hw & Ht & Hn & Hwn & HF & _).
  unfold LookupEntry. rewrite Hw, Nat2Z.id. f_equal. generalize (MkData INT_MIN g).
  induction HF as [|t ts Hto _ IH]; intros r; cbn [foldl]; [done|].
  rewrite (lookup_tuple_best m w n) by (done || lia). apply IH.
Qed.

Lemma process_packet_best m junk attrs data : Inv m -> Forall (wm_buffer_ok (field_buffer attrs data)) (wm_fields_ m) ->
  length junk = HASH_KEY_SIZE -> bytes_ok junk ->
  process_packet crc m junk attrs data = Some (ogate
    (foldl (best (packet_key m (field_buffer attrs data))) (MkData INT_MIN (wm_default_gate_ m)) (tuples_ m))).
Proof.
  intros HI Hb Hl Hok. unfold process_packet.
  destruct (make_key_spec m _ junk HI Hb Hl Hok) as (key & -> & Hlk & Hokk & Hc). cbn [mbind option_bind].
  by rewrite LookupEntry_best, Hc.
Qed.

Lemma inv_priorities m : Inv m ->
  Forall (fun t => map_Forall (fun _ d => INT_MIN <= priority d) (CuckooMap.abs (entry0 data0) (ht t))) (tuples_ m).
Proof. intros HI. eapply Forall_impl; [exact (inv_tuple m HI)|]. intros t Ht. apply Ht. Qed.
End Proofs.

(** C23: a packet goes to the gate of a rule of the highest priority among the rules whose masked
    value its fields match, and to the default gate exactly if it matches none; what is on the
    stack or in the packet after its fields does not matter. *)
Theorem wildcard_match_best crc m junk attrs data : Inv crc m ->
  Forall (wm_buffer_ok (field_buffer attrs data)) (wm_fields_ m) -> length junk = HASH_KEY_SIZE -> bytes_ok junk ->
  let hit mask key d := rule_at m mask key = Some d /\ matches (packet_key m (field_buffer attrs data)) mask key in
  exists g, process_packet crc m junk attrs data = Some g /\
  ((g = wm_default_gate_ m /\ forall mask key d, ~ hit mask key d) \/
   (exists mask key d, hit mask key d /\ g = ogate d /\
      forall mask' key' d', hit mask' key' d' -> priority d' <= priority d)).
Proof.
  intros HI Hb Hl Hok hit. eexists. split; [by apply process_packet_best|].
  assert (Hhit : forall mask key d, hit mask key d <-> exists t, t ∈ tuples_ m /\ tuple_mask t = mask /\
    zip_with Z.land (packet_key m (field_buffer attrs data)) (tuple_mask t) = key /\
    CuckooMap.abs (entry0 data0) (ht t) !! key = Some d).
  { intros mask key d. unfold hit, rule_at, matches. rewrite rule_in_Some by exact (inv_masks crc m HI). split.
    - intros [(t & Hin & <- & Ht) Hm]. by exists t.
    - intros (t & Hin & <- & Hm & Ht). split; [by exists t|done]. }
  destruct (best_spec (packet_key m (field_buffer attrs data)) (wm_default_gate_ m) (tuples_ m) (inv_priorities crc m HI))
    as [[-> Hn]|(t & Hin & Ht & Hmax)]; [left|right].
  - split; [done|]. intros mask key d (t & Hin & _ & <- & Ht)%Hhit. by rewrite Hn in Ht.
  - eexists _, _, _. split; [apply Hhit; by exists t|]. split; [done|].
    intros mask' key' d' (t' & Hin' & _ & <- & Ht')%Hhit. by apply (Hmax t').
Qed.

(** ** The rules of the messages *)

(** A value or mask in 8 bytes, [None] if it does not fit the field. *)
Definition word_of (f : WmField) (d : FieldData) : option bytes :=
  match d with
  | value_int v => if u64 v <? 256 ^ wf_size f
                   then Some (be_store (Z.to_nat (wf_size f)) (u64 v) ++ replicate (8 - Z.to_nat (wf_size f)) 0) else None
  | value_bin b => Some (b ++ replicate (8 - length b) 0)
  | encoding_not_set => Some (replicate 8 0)
  end.
Definition data_ok (d : FieldData) : Prop :=
  match d with value_bin b => bytes_ok b /\ (length b <= 8)%nat | _ => True end.
(** The bytes of the values and of the masks: a value has no bits outside of its mask. *)
Fixpoint patterns (fs : list WmField) (values masks : list FieldData) : option (list bytes * list bytes) :=
  match fs, values, masks with
  | [], [], [] => Some ([], [])
  | f :: fs, v :: values, mk :: masks =>
      v ← word_of f v;
      mk ← word_of f mk;
      if bool_decide (zip_with Z.land v mk = v) then
        r ← patterns fs values masks;
        Some (take (Z.to_nat (wf_size f)) v :: r.1, take (Z.to_nat (wf_size f)) mk :: r.2)
      else None
  | _, _, _ => None
  end.
Definition rule_of (fs : list WmField) (values masks : list FieldData) : option (bytes * bytes) :=
  (fun r => (rule_key r.1, rule_key r.2)) <$> patterns fs values masks.

Lemma word_of_ok f d w : 1 <= wf_size f <= 8 -> data_ok d -> word_of f d = Some w -> bytes_ok w /\ length w = 8%nat.
Proof.
  intros Hs. destruct d as [v|b|]; cbn [word_of data_ok].
  - intros _. destruct (_ <? _); [|done]. intros [= <-]. rewrite bytes_ok_app, length_app, length_replicate.
    unfold be_store. rewrite length_rev, length_le_store. split; [|lia]. split; [|auto with bess].
    apply Forall_rev, le_store_ok.
  - intros [Hb Hl] [= <-]. rewrite bytes_ok_app, length_app, length_replicate. split; [|lia]. auto with bess.
  - intros _ [= <-]. split; [apply (bytes_ok_replicate 8)|done].
Qed.

Lemma field_word_spec f d : 1 <= wf_size f <= 8 -> data_ok d ->
  field_word d (wf_size f) = Some (match word_of f d with Some w => inr w | None => inl EINVAL end).
Proof.
  intros Hs. destruct d as [v|b|]; cbn [field_word word_of data_ok]; [intros _|intros [Hb Hl]|done].
  - pose proof (uint64_to_bin_spec (replicate (Z.to_nat (wf_size f)) 0) (replicate (8 - Z.to_nat (wf_size f)) 0)
      (u64 v) (Z.to_nat (wf_size f)) true) as Hu.
    rewrite <- replicate_add in Hu. replace (_ + (8 - _))%nat with 8%nat in Hu by lia.
    destruct Hu as (out & -> & -> & _); [apply length_replicate|by apply wrap_range|].
    rewrite Z2Nat.id by lia. case_bool_decide as Hc.
    + by rewrite (proj2 (Z.ltb_lt _ _)).
    + by rewrite (proj2 (Z.ltb_ge _ _)) by lia.
  - rewrite (proj2 (Nat.leb_le _ _)) by done. unfold write. cbn [take app Nat.add]. by rewrite drop_replicate.
Qed.

(** [v & ~m] *)
Lemma outside_mask v mk : bytes_ok v -> bytes_ok mk -> length v = 8%nat -> length mk = 8%nat ->
  (Z.land (le_load v) (u64 (Z.lnot (le_load mk))) =? 0) = bool_decide (zip_with Z.land v mk = v).
Proof.
  intros Hv Hm Hlv Hlm. pose proof (le_load_bound v Hv) as Hb. rewrite Hlv in Hb.
  assert (Z.land (le_load v) (u64 (Z.lnot (le_load mk))) = Z.ldiff (le_load v) (le_load mk)) as ->.
  { apply Z.bits_inj'. intros i Hi. unfold u64, wrap. rewrite Z.land_spec, Z.ldiff_spec, Z.testbit_mod_pow2 by lia.
    destruct (Z.ltb_spec i 64); [by rewrite Z.lnot_spec|].
    rewrite (Z.bits_above_log2 (le_load v) i); [done|lia|].
    destruct (decide (le_load v = 0)) as [->|]; [cbn; lia|]. apply Z.log2_lt_pow2; [lia|].
    eapply Z.lt_le_trans; [apply Hb|]. change (256 ^ Z.of_nat 8) with (2 ^ 64). apply Z.pow_le_mono_r; lia. }
  assert (Hz : Z.ldiff (le_load v) (le_load mk) = 0 <-> Z.land (le_load v) (le_load mk) = le_load v).
  { split; intros Hd.
    - apply Z.bits_inj'. intros i Hi. rewrite Z.land_spec. apply (f_equal (fun z => Z.testbit z i)) in Hd.
      rewrite Z.ldiff_spec, Z.bits_0 in Hd. by destruct (Z.testbit (le_load v) i), (Z.testbit (le_load mk) i).
    - apply Z.bits_inj'. intros i Hi. rewrite Z.ldiff_spec, Z.bits_0. apply (f_equal (fun z => Z.testbit z i)) in Hd.
      rewrite Z.land_spec in Hd. by destruct (Z.testbit (le_load v) i), (Z.testbit (le_load mk) i). }
  rewrite le_load_land in Hz by (done || lia). apply eq_iff_eq_true. rewrite bool_decide_eq_true, Z.eqb_eq, Hz.
  split; [|by intros ->]. intros He. apply le_load_inj; [by apply zip_land_ok|done| |done].
  rewrite length_zip_with. lia.
Qed.

Lemma copy_field_spec pre f w : wf_pos f = Z.of_nat (length pre) -> 1 <= wf_size f <= 8 -> length w = 8%nat ->
  Z.of_nat (length pre) + wf_size f <= Z.of_nat HASH_KEY_SIZE ->
  let v := take (Z.to_nat (wf_size f)) w in
  copy_field (pre ++ replicate (HASH_KEY_SIZE - length pre) 0) f w =
    Some ((pre ++ v) ++ replicate (HASH_KEY_SIZE - length (pre ++ v)) 0).
Proof.
  intros Hp Hs Hl Hb. cbn zeta. unfold copy_field. rewrite Hp.
  rewrite (proj2 (Z.leb_le 0 _)), (proj2 (Z.leb_le _ (Z.of_nat HASH_KEY_SIZE))) by lia. cbn [andb].
  by rewrite Nat2Z.id, write_pad.
Qed.

Lemma patterns_sizes fs values masks vs ms p : wm_layout p fs -> Forall data_ok values -> Forall data_ok masks ->
  patterns fs values masks = Some (vs, ms) ->
  Z.of_nat (length (concat vs)) = wm_sizes fs /\ Z.of_nat (length (concat ms)) = wm_sizes fs /\
  bytes_ok (concat vs) /\ bytes_ok (concat ms).
Proof.
  revert values masks vs ms p. induction fs as [|f fs IH]; intros [|v values] [|mk masks] vs ms p; cbn [patterns wm_layout]; try done.
  { intros _ _ _ [= <- <-]. do 2 (split; [done|]). split; constructor. }
  intros (_ & Hs & Hl) [Hv Hvs]%Forall_cons [Hm Hms]%Forall_cons.
  destruct (word_of f v) as [vw|] eqn:Hvw; [|done]. destruct (word_of f mk) as [mw|] eqn:Hmw; [|done]. cbn [mbind option_bind].
  apply word_of_ok in Hvw as [Hvo Hvl]; [|done..]. apply word_of_ok in Hmw as [Hmo Hml]; [|done..].
  case_bool_decide; [|done]. destruct (patterns fs values masks) as [[vs' ms']|] eqn:Hp; [|done].
  intros [= <- <-]. destruct (IH _ _ _ _ _ Hl Hvs Hms Hp) as (H1 & H2 & H3 & H4). unfold wm_sizes in *. cbn [concat foldr fst snd].
  rewrite !length_app, !bytes_ok_app, !length_take. split; [lia|]. split; [lia|]. auto with bess.
Qed.

Lemma extract_fields_spec fs values masks prek prem :
  wm_layout (Z.of_nat (length prek)) fs -> length prem = length prek ->
  Z.of_nat (length prek) + wm_sizes fs <= Z.of_nat HASH_KEY_SIZE ->
  length values = length fs -> length masks = length fs -> Forall data_ok values -> Forall data_ok masks ->
  let pad pre := pre ++ replicate (HASH_KEY_SIZE - length pre) 0 in
  extract_fields fs values masks (pad prek) (pad prem) =
    Some (match patterns fs values masks with
          | Some (vs, ms) => inr (pad (prek ++ concat vs), pad (prem ++ concat ms))
          | None => inl EINVAL
          end).
Proof.
  cbn zeta. revert values masks prek prem.
  induction fs as [|f fs IH]; intros [|v values] [|mk masks] prek prem Hlay Hlen Hsz Hlv Hlm Hv Hm; try done.
  { cbn. by rewrite !app_nil_r. }
  cbn [wm_layout wm_sizes foldr] in *. destruct Hlay as (Hpos & Hs & Hlay).
  apply Forall_cons in Hv as [Hv Hvs]. apply Forall_cons in Hm as [Hm Hms].
  pose proof (wm_sizes_bound _ fs Hlay) as Hfs. unfold wm_sizes in Hfs.
  cbn [extract_fields patterns]. rewrite !field_word_spec by done. cbn [mbind option_bind].
  destruct (word_of f v) as [vw|] eqn:Hvw; [|done]. destruct (word_of f mk) as [mw|] eqn:Hmw; [|done]. cbn [mbind option_bind].
  apply word_of_ok in Hvw as [Hvo Hvl]; [|done..]. apply word_of_ok in Hmw as [Hmo Hml]; [|done..].
  rewrite outside_mask by done. case_bool_decide; cbn [negb]; [|done].
  rewrite copy_field_spec by (done || lia). cbn [mbind option_bind].
  rewrite copy_field_spec by (done || lia). cbn [mbind option_bind].
  rewrite IH; [| | | |by injection Hlv|by injection Hlm|done|done].
  - destruct (patterns fs values masks) as [[vs ms]|]; [|done]. cbn [mbind option_bind concat fst snd]. by rewrite <- !app_assoc.
  - rewrite length_app, length_take, Hvl, Nat2Z.inj_add, Nat.min_l, Z2Nat.id by lia. done.
  - rewrite !length_app, !length_take. lia.
  - rewrite length_app, length_take. unfold wm_sizes. lia.
Qed.

Lemma patterns_length fs values masks r : patterns fs values masks = Some r -> length values = length fs /\ length masks = length fs.
Proof.
  revert values masks r. induction fs as [|f fs IH]; intros [|v values] [|mk masks] r; cbn [patterns]; try done.
  destruct (word_of f v); [|done]. destruct (word_of f mk); [|done]. cbn [mbind option_bind]. case_bool_decide; [|done].
  destruct (patterns fs values masks) eqn:Hp; [|done]. intros _. apply IH in Hp. cbn [length]. lia.
Qed.

Section Rules.
Context (crc : Z -> Z -> Z).
Implicit Types (m : WildcardMatch).

Lemma ExtractKeyMask_spec m values masks : Inv crc m -> Forall data_ok values -> Forall data_ok masks ->
  ExtractKeyMask m values masks = Some (match rule_of (wm_fields_ m) values masks with Some km => inr km | None => inl EINVAL end).
Proof.
  intros HI Hv Hm. unfold ExtractKeyMask, rule_of. pose proof (patterns_length (wm_fields_ m) values masks) as Hpl.
  destruct (Nat.eqb_spec (length values) (length (wm_fields_ m))) as [Hlv|Hlv]; cbn [negb].
  2: { destruct (patterns _ _ _) as [r|]; [|done]. by destruct (Hpl r eq_refl). }
  destruct (Nat.eqb_spec (length masks) (length (wm_fields_ m))) as [Hlm|Hlm]; cbn [negb].
  2: { destruct (patterns _ _ _) as [r|]; [|done]. by destruct (Hpl r eq_refl). }
  pose proof (inv_layout crc m HI) as Hlay. pose proof (inv_fields crc m HI) as Hf. pose proof (wm_sizes_bound 0 _ Hlay) as Hs.
  pose proof (extract_fields_spec (wm_fields_ m) values masks [] [] Hlay eq_refl) as He. cbn [app length] in He.
  rewrite Nat.sub_0_r in He. rewrite He; [|unfold MAX_FIELDS, HASH_KEY_SIZE in *; lia|done..].
  by destruct (patterns _ _ _) as [[vs ms]|].
Qed.

Lemma rule_of_ok m values masks key mask : Inv crc m -> Forall data_ok values -> Forall data_ok masks ->
  rule_of (wm_fields_ m) values masks = Some (key, mask) ->
  let w := Z.to_nat (wm_sizes (wm_fields_ m)) in key_ok w key /\ key_ok w mask.
Proof.
  intros HI Hv Hm. unfold rule_of. destruct (patterns _ _ _) as [[vs ms]|] eqn:Hp; [|done]. intros [= <- <-]. cbn zeta.
  pose proof (inv_layout crc m HI) as Hlay. pose proof (inv_fields crc m HI) as Hf. pose proof (wm_sizes_bound 0 _ Hlay) as Hs.
  destruct (patterns_sizes _ _ _ _ _ _ Hlay Hv Hm Hp) as (H1 & H2 & H3 & H4). unfold MAX_FIELDS in Hf.
  assert (forall l, Z.of_nat (length (concat l)) = wm_sizes (wm_fields_ m) -> bytes_ok (concat l) ->
    key_ok (Z.to_nat (wm_sizes (wm_fields_ m))) (rule_key l)) as Hk; [|by split; apply Hk].
  intros l Hl Ho. rewrite <- Hl, Nat2Z.id. unfold rule_key. split.
  - rewrite length_app, length_replicate. unfold HASH_KEY_SIZE. lia.
  - apply bytes_ok_app. auto with bess.
  - unfold canon. by rewrite take_app_length.
Qed.

(** *** Tuples *)
Lemma rule_in_middle a t b mk k : NoDup (map tuple_mask (a ++ t :: b)) ->
  rule_in (a ++ t :: b) mk k =
    if bool_decide (mk = tuple_mask t) then CuckooMap.abs (entry0 data0) (ht t) !! k else rule_in (a ++ b) mk k.
Proof using.
  clear crc. induction a as [|x a IH]; cbn [app rule_in map].
  - intros _. case_bool_decide as H1; case_bool_decide as H2; congruence.
  - intros [Hx Hnd]%NoDup_cons. specialize (IH Hnd).
    destruct (bool_decide_reflect (tuple_mask x = mk)) as [Hm|Hm]; [|done].
    rewrite bool_decide_eq_false_2; [done|]. intros Ht. rewrite Ht in Hm. apply Hx. rewrite Hm. apply list_elem_of_fmap_2, elem_of_app.
    right. left.
Qed.

Lemma tuples_split m idx t : tuples_ m !! idx = Some t ->
  exists a b, length a = idx /\ tuples_ m = a ++ t :: b /\ (forall t', <[idx := t']> (tuples_ m) = a ++ t' :: b) /\
    delete idx (tuples_ m) = a ++ b.
Proof using.
  clear crc. intros Ht. exists (take idx (tuples_ m)), (drop (S idx) (tuples_ m)). pose proof (lookup_lt_Some _ _ _ Ht).
  split; [rewrite length_take; lia|]. split; [by rewrite take_drop_middle|]. split; [|apply delete_take_drop].
  intros t'. by apply insert_take_drop.
Qed.

Definition same_config m m' : Prop :=
  wm_fields_ m' = wm_fields_ m /\ wm_total_key_size_ m' = wm_total_key_size_ m /\ wm_default_gate_ m' = wm_default_gate_ m.

Lemma Inv_with_tuples m ts : Inv crc m -> (length ts <= MAX_TUPLES)%nat -> NoDup (map tuple_mask ts) ->
  Forall (tuple_ok crc (Z.to_nat (wm_sizes (wm_fields_ m))) (Z.to_nat (wm_total_key_size_ m / 8))) ts -> Inv crc (with_tuples m ts).
Proof. intros [????? _] Hl Hnd HF. split; done. Qed.

Lemma FindTuple_spec m mask : Inv crc m -> key_ok (Z.to_nat (wm_sizes (wm_fields_ m))) mask ->
  match FindTuple m mask with
  | Some idx => exists t, tuples_ m !! idx = Some t /\ tuple_mask t = mask
  | None => mask ∉ masks m
  end.
Proof.
  intros HI Hok. destruct (inv_words crc m HI) as (w & n & Hw & Ht & Hn & Hwn & HF & _). rewrite Hw, Nat2Z.id in Hok.
  unfold FindTuple. rewrite Ht, Nat2Z.id.
  assert (Heq : forall t, t ∈ tuples_ m -> take (8 * n) (tuple_mask t) = take (8 * n) mask -> tuple_mask t = mask).
  { intros t Hin He. rewrite Forall_forall in HF. pose proof (to_mask _ _ _ _ (HF t Hin)) as Hm.
    assert (w <= 8 * n <= HASH_KEY_SIZE)%nat as Hb by (unfold HASH_KEY_SIZE; lia).
    rewrite <- (key_canon _ _ (key_ok_weaken w (8 * n) _ Hb Hm)), <- (key_canon _ _ (key_ok_weaken w (8 * n) _ Hb Hok)).
    unfold canon. by rewrite He. }
  destruct (list_find _ _) as [[idx t]|] eqn:Hf; cbn [fmap option_fmap option_map fst].
  - apply list_find_Some in Hf as (Hi & He & _). exists t. split; [done|]. apply Heq; [by eapply list_elem_of_lookup_2|done].
  - apply list_find_None in Hf. intros (t & -> & Hin)%list_elem_of_fmap. rewrite Forall_forall in Hf. by apply (Hf t).
Qed.

(** A table in place of the table of a tuple. *)
Lemma replace_table m idx t table : Inv crc m -> tuples_ m !! idx = Some t ->
  CuckooMap.Inv (wm_hash crc (wm_total_key_size_ m)) (entry0 data0) (key_ok (Z.to_nat (wm_total_key_size_ m))) table ->
  map_Forall (fun _ d => INT_MIN <= priority d) (CuckooMap.abs (entry0 data0) table) ->
  let m' := with_tuples m (<[idx := MkTuple table (tuple_mask t)]> (tuples_ m)) in
  Inv crc m' /\ masks m' = masks m /\
  forall mk k, rule_at m' mk k =
    if bool_decide (mk = tuple_mask t) then CuckooMap.abs (entry0 data0) table !! k else rule_at m mk k.
Proof.
  intros HI Hi Htab Hprio. cbn zeta. destruct (inv_words crc m HI) as (w & n & Hw & Ht & Hn & Hwn & HF & _).
  destruct (tuples_split m idx t Hi) as (a & b & Ha & Hts & Hins & _). rewrite Hins.
  pose proof (inv_masks crc m HI) as Hnd. pose proof (inv_tuples crc m HI) as Hlen. unfold masks in *.
  assert (Hmasks : map tuple_mask (a ++ MkTuple table (tuple_mask t) :: b) = map tuple_mask (tuples_ m))
    by (rewrite Hts, !map_app; done).
  split; [|split].
  - apply Inv_with_tuples; [done| |by rewrite Hmasks|].
    + rewrite Hts, length_app in Hlen. rewrite length_app. done.
    + rewrite Hw, Ht, Nat2Z.id. replace (Z.to_nat (Z.of_nat (8 * n) / 8)) with n by nlia.
      rewrite Hts, Forall_app, Forall_cons in HF. destruct HF as (HFa & Hto & HFb).
      rewrite Forall_app, Forall_cons. split; [done|]. split; [|done]. rewrite Ht, Nat2Z.id in Htab.
      split; [exact (to_mask _ _ _ _ Hto)|exact Htab|exact Hprio].
  - done.
  - intros mk k. unfold rule_at. cbn [with_tuples tuples_]. rewrite rule_in_middle by (by rewrite Hmasks).
    cbn [tuple_mask ht]. case_bool_decide; [done|]. rewrite Hts, rule_in_middle by (by rewrite <- Hts).
    by rewrite bool_decide_eq_false_2.
Qed.

Definition set_rule (f : bytes -> bytes -> option WmData) (mask key : bytes) (d : option WmData) (mk k : bytes) : option WmData :=
  if bool_decide (mk = mask /\ k = key) then d else f mk k.

Lemma table_inv m idx t : Inv crc m -> tuples_ m !! idx = Some t ->
  CuckooMap.Inv (wm_hash crc (wm_total_key_size_ m)) (entry0 data0) (key_ok (Z.to_nat (wm_total_key_size_ m))) (ht t) /\
  map_Forall (fun _ d => INT_MIN <= priority d) (CuckooMap.abs (entry0 data0) (ht t)) /\
  (forall k, rule_at m (tuple_mask t) k = CuckooMap.abs (entry0 data0) (ht t) !! k) /\
  (forall a b, key_ok (Z.to_nat (wm_total_key_size_ m)) a -> key_ok (Z.to_nat (wm_total_key_size_ m)) b ->
     wm_eq (wm_total_key_size_ m) a b = true <-> a = b) /\
  (forall key, key_ok (Z.to_nat (wm_sizes (wm_fields_ m))) key -> key_ok (Z.to_nat (wm_total_key_size_ m)) key).
Proof.
  intros HI Hi. destruct (inv_words crc m HI) as (w & n & Hw & Ht & Hn & Hwn & HF & _).
  destruct (tuples_split m idx t Hi) as (a & b & Ha & Hts & _ & _). pose proof (inv_masks crc m HI) as Hnd. unfold masks in Hnd.
  assert (tuple_ok crc w n t) as [Hm Htab Hp] by (rewrite Hts, Forall_app, Forall_cons in HF; apply HF).
  rewrite Ht, Hw, !Nat2Z.id. split; [done|]. split; [done|]. split; [|split].
  - intros k. unfold rule_at. rewrite Hts, rule_in_middle by (by rewrite <- Hts). by rewrite bool_decide_eq_true_2.
  - apply keys_eq. lia.
  - intros key. apply key_ok_weaken. unfold HASH_KEY_SIZE. lia.
Qed.

(** The table of the tuple of these masks has no room for the rule. *)
Definition refuses m (mask key : bytes) (d : WmData) : Prop := exists t table, t ∈ tuples_ m /\ tuple_mask t = mask /\
  CuckooMap.Insert (wm_hash crc (wm_total_key_size_ m)) (wm_eq (wm_total_key_size_ m)) (entry0 data0) (ht t) key d = Some (table, None).

Lemma insert_rule_spec m idx t key d : Inv crc m -> tuples_ m !! idx = Some t ->
  key_ok (Z.to_nat (wm_sizes (wm_fields_ m))) key -> INT_MIN <= priority d ->
  exists m' r, insert_rule crc m idx key d = Some (m', r) /\ Inv crc m' /\ same_config m m' /\ masks m' = masks m /\
    ((r = inr tt /\ forall mk k, rule_at m' mk k = set_rule (rule_at m) (tuple_mask t) key (Some d) mk k) \/
     (r = inl EINVAL /\ refuses m (tuple_mask t) key d /\ forall mk k, rule_at m' mk k = rule_at m mk k)).
Proof.
  intros HI Hi Hkey Hd. destruct (table_inv m idx t HI Hi) as (Htab & Hp & Hat & Heq & Hw). specialize (Hw key Hkey).
  unfold insert_rule. rewrite Hi. cbn [mbind option_bind].
  destruct (insert_fuel_spec (wm_hash crc (wm_total_key_size_ m)) (wm_eq (wm_total_key_size_ m)) (entry0 data0)
    (key_ok (Z.to_nat (wm_total_key_size_ m))) Heq (S (Z.to_nat (CuckooMap.num_entries_ (ht t)))) (ht t) key d Htab Hw)
    as (table & r & Hins & HIm & Hr).
  { rewrite (size_abs (wm_hash crc (wm_total_key_size_ m)) _ _ _ Htab), (CuckooMap.inv_count _ _ _ _ Htab). lia. }
  assert (Hfull : r = None -> refuses m (tuple_mask t) key d).
  { intros ->. exists t, table. split; [by eapply list_elem_of_lookup_2|]. split; [done|]. unfold CuckooMap.Insert. by rewrite Hins. }
  unfold CuckooMap.Insert. rewrite Hins. cbn [mbind option_bind fst snd].
  assert (Hp' : map_Forall (fun _ d => INT_MIN <= priority d) (CuckooMap.abs (entry0 data0) table)).
  { destruct r as [i|]; [|by rewrite Hr]. destruct Hr as [-> _]. by apply map_Forall_insert_2. }
  destruct (replace_table m idx t table HI Hi HIm Hp') as (HI' & Hmk & Hat').
  eexists _, _. split; [reflexivity|]. split; [done|]. split; [done|]. split; [done|].
  destruct r as [i|]; [left|right; split; [done|]; split; [by apply Hfull|]]; [split; [done|]|]; intros mk k; rewrite Hat'.
  - unfold set_rule. destruct Hr as [-> _]. case_bool_decide as Hm; [subst mk|].
    + rewrite lookup_insert, Hat. case_decide as Hk.
      * by rewrite bool_decide_eq_true_2.
      * rewrite bool_decide_eq_false_2; [done|]. by intros [_ ->].
    + rewrite bool_decide_eq_false_2; [done|]. by intros [-> _].
  - rewrite Hr. case_bool_decide as Hm; [subst mk; by rewrite Hat|done].
Qed.

(** A new tuple has no rules. *)
Lemma AddTuple_spec m mask : Inv crc m -> key_ok (Z.to_nat (wm_sizes (wm_fields_ m))) mask -> mask ∉ masks m ->
  match AddTuple m mask with
  | None => (MAX_TUPLES <= length (masks m))%nat
  | Some (m', idx) => (length (masks m) < MAX_TUPLES)%nat /\ Inv crc m' /\ same_config m m' /\ masks m' = masks m ++ [mask] /\
      (exists t, tuples_ m' !! idx = Some t /\ tuple_mask t = mask) /\ forall mk k, rule_at m' mk k = rule_at m mk k
  end.
Proof.
  intros HI Hmask Hnew. destruct (inv_words crc m HI) as (w & n & Hw & Ht & Hn & Hwn & HF & _).
  pose proof (inv_masks crc m HI) as Hnd. unfold AddTuple, masks in *. rewrite length_map.
  destruct (Nat.leb_spec MAX_TUPLES (length (tuples_ m))) as [|Hlt]; [done|]. split; [done|].
  destruct (make_spec (wm_hash crc (Z.of_nat (8 * n))) (entry0 data0) (key_ok (8 * n)) kInitNumBucket kInitNumEntries)
    as [HImk Habs]; [unfold kInitNumEntries; lia|by exists 2%nat|].
  set (t := MkTuple _ mask). assert (Hnd' : NoDup (map tuple_mask (tuples_ m ++ [t]))).
  { rewrite map_app. apply NoDup_app. split; [done|]. split; [|by apply NoDup_singleton].
    intros x Hx ->%list_elem_of_singleton. by apply Hnew. }
  split; [|split; [done|split; [apply map_app|split]]].
  - apply Inv_with_tuples; [done|rewrite length_app; cbn; lia|done|].
    rewrite Hw, Ht, Nat2Z.id in *. replace (Z.to_nat (Z.of_nat (8 * n) / 8)) with n by nlia.
    rewrite Forall_app, Forall_singleton. split; [done|]. split; [done|exact HImk|].
    unfold t. cbn [ht]. rewrite Habs. apply map_Forall_empty.
  - exists t. split; [|done]. cbn [with_tuples tuples_]. by rewrite lookup_app_r, Nat.sub_diag by lia.
  - intros mk k. unfold rule_at. cbn [with_tuples tuples_]. rewrite rule_in_middle by done. rewrite app_nil_r.
    case_bool_decide as Hm; [|done]. subst mk. unfold t at 1. cbn [ht tuple_mask]. rewrite Habs, lookup_empty.
    destruct (rule_in (tuples_ m) mask k) as [d|] eqn:Hd; [|done].
    apply rule_in_Some in Hd as (t' & Hin & Hm' & _); [|done]. exfalso. apply Hnew. rewrite <- Hm'. by apply list_elem_of_fmap_2.
Qed.

Lemma CommandAdd_spec m gate prio values ms : Inv crc m -> Forall data_ok values -> Forall data_ok ms ->
  exists m' r, CommandAdd crc m gate prio values ms = Some (m', r) /\ Inv crc m' /\ same_config m m' /\
  match rule_of (wm_fields_ m) values ms with
  | None => r = inl EINVAL /\ m' = m
  | Some (key, mask) =>
      if negb (is_valid_gate (u16 gate)) then r = inl EINVAL /\ m' = m
      else if bool_decide (mask ∉ masks m) && (MAX_TUPLES <=? length (masks m))%nat then r = inl ENOSPC /\ m' = m
      else masks m' = (if bool_decide (mask ∈ masks m) then masks m else masks m ++ [mask]) /\
        ((r = inr tt /\ forall mk k, rule_at m' mk k = set_rule (rule_at m) mask key (Some (MkData (to_int prio) (u16 gate))) mk k) \/
         (r = inl EINVAL /\ (exists m1, (m1 = m \/ exists idx, AddTuple m mask = Some (m1, idx)) /\
            refuses m1 mask key (MkData (to_int prio) (u16 gate))) /\ forall mk k, rule_at m' mk k = rule_at m mk k))
  end.
Proof.
  intros HI Hv Hm. unfold CommandAdd. rewrite ExtractKeyMask_spec by done. cbn [mbind option_bind].
  destruct (rule_of _ values ms) as [[key mask]|] eqn:Hrule; [|by eexists _, _].
  apply rule_of_ok in Hrule as [Hkey Hmask]; [|done..].
  destruct (negb _); [by eexists _, _|]. pose proof (FindTuple_spec m mask HI Hmask) as Hft.
  destruct (FindTuple m mask) as [idx|].
  - destruct Hft as (t & Hi & <-). assert (tuple_mask t ∈ masks m) as Hin by (by eapply list_elem_of_fmap_2, list_elem_of_lookup_2).
    rewrite bool_decide_eq_false_2, bool_decide_eq_true_2 by auto. cbn [andb].
    destruct (insert_rule_spec m idx t key (MkData (to_int prio) (u16 gate)) HI Hi Hkey (to_int_min prio))
      as (m' & r & Hr & HI' & Hc & Hmk & Hor). exists m', r. do 4 (split; [done|]).
    destruct Hor as [?|(? & ? & ?)]; [by left|right]. split; [done|]. split; [|done]. exists m. split; [by left|done].
  - rewrite bool_decide_eq_true_2, bool_decide_eq_false_2 by done. cbn [andb].
    pose proof (AddTuple_spec m mask HI Hmask Hft) as Hat. destruct (AddTuple m mask) as [[m1 idx]|].
    + destruct Hat as (Hlt & HI1 & Hc1 & Hmk1 & (t & Hi & <-) & Hr1). rewrite (proj2 (Nat.leb_gt _ _)) by done.
      destruct Hc1 as (Hc1 & Hc2 & Hc3). rewrite <- Hc1 in Hkey.
      destruct (insert_rule_spec m1 idx t key (MkData (to_int prio) (u16 gate)) HI1 Hi Hkey (to_int_min prio))
        as (m' & r & Hr & HI' & (Hd1 & Hd2 & Hd3) & Hmk & Hor). exists m', r.
      split; [done|]. split; [done|]. split; [split; [congruence|split; congruence]|]. split; [congruence|].
      destruct Hor as [[-> Hor]|(-> & Hfull & Hor)]; [left|right]; (split; [done|]).
      * intros mk k. rewrite Hor. unfold set_rule. by rewrite Hr1.
      * split; [exists m1; split; [right; by exists idx|done]|]. intros mk k. by rewrite Hor.
    + rewrite (proj2 (Nat.leb_le _ _)) by done. by eexists _, _.
Qed.

Lemma filter_not_in (x : bytes) (l : list bytes) : x ∉ l -> filter (fun y => y <> x) l = l.
Proof.
  induction l as [|y l IH]; [done|]. intros [Hy Hl]%not_elem_of_cons. rewrite filter_cons_True by congruence. by rewrite IH.
Qed.

Lemma empty_tuple m idx t : Inv crc m -> tuples_ m !! idx = Some t -> CuckooMap.abs (entry0 data0) (ht t) = ∅ ->
  let m' := with_tuples m (delete idx (tuples_ m)) in
  Inv crc m' /\ masks m' = filter (fun x => x <> tuple_mask t) (masks m) /\ forall mk k, rule_at m' mk k = rule_at m mk k.
Proof.
  intros HI Hi Habs. cbn zeta. destruct (tuples_split m idx t Hi) as (a & b & _ & Hts & _ & ->).
  pose proof (inv_masks crc m HI) as Hnd. pose proof (inv_tuples crc m HI) as Hlen. pose proof (inv_tuple crc m HI) as HF.
  unfold masks in Hnd. rewrite Hts in Hnd, Hlen, HF.
  assert (Hsub : NoDup (map tuple_mask (a ++ b)) /\ tuple_mask t ∉ map tuple_mask (a ++ b)).
  { rewrite map_app in *. cbn [map] in Hnd. apply NoDup_app in Hnd as (H1 & H2 & [H3 H4]%NoDup_cons). split.
    - apply NoDup_app. split; [done|]. split; [|done]. intros x Hx Hb. apply (H2 x Hx). by right.
    - intros [Ha|Hb]%elem_of_app; [|by apply H3]. apply (H2 _ Ha). left. }
  destruct Hsub as [Hsub Hni]. split; [|split].
  2: { unfold masks. cbn [with_tuples tuples_]. rewrite Hts, !map_app. cbn [map]. rewrite filter_app, filter_cons_False by (intros Hx; by apply Hx).
       rewrite !map_app in *. apply not_elem_of_app in Hni as [Hn1 Hn2]. by rewrite !filter_not_in. }
  - apply Inv_with_tuples; [done| |done|].
    + rewrite length_app in *. cbn [length] in Hlen. lia.
    + rewrite Forall_app, Forall_cons in HF. rewrite Forall_app. by destruct HF as (? & _ & ?).
  - intros mk k. unfold rule_at. cbn [with_tuples tuples_]. rewrite Hts, rule_in_middle by done.
    case_bool_decide as Hm; [|done]. subst mk. rewrite Habs, lookup_empty.
    destruct (rule_in (a ++ b) (tuple_mask t) k) as [d|] eqn:Hd; [|done].
    apply rule_in_Some in Hd as (t' & Hin & Hm' & _); [|done]. exfalso. apply Hni. rewrite <- Hm'. by apply list_elem_of_fmap_2.
Qed.

(** A deletion erases the tuple of its masks if that has no rules already -- not if the deleted rule was the last. *)
Definition erased m m' (mask : bytes) : Prop := exists b : bool, (b = true <-> forall k, rule_at m mask k = None) /\
  masks m' = if b then filter (fun x => x <> mask) (masks m) else masks m.

Lemma DelEntry_spec m idx t key : Inv crc m -> tuples_ m !! idx = Some t -> key_ok (Z.to_nat (wm_sizes (wm_fields_ m))) key ->
  exists m' ret, DelEntry crc m idx key = Some (m', ret) /\ 0 <= ret /\ Inv crc m' /\ same_config m m' /\
    erased m m' (tuple_mask t) /\
    forall mk k, rule_at m' mk k = set_rule (rule_at m) (tuple_mask t) key None mk k.
Proof.
  intros HI Hi Hkey. destruct (table_inv m idx t HI Hi) as (Htab & Hp & Hat & Heq & Hw). specialize (Hw key Hkey).
  unfold DelEntry. rewrite Hi. cbn [mbind option_bind].
  pose proof (Remove_spec (wm_hash crc (wm_total_key_size_ m)) (wm_eq (wm_total_key_size_ m)) (entry0 data0)
    (key_ok (Z.to_nat (wm_total_key_size_ m))) Heq (ht t) key Htab Hw) as Hr.
  destruct (CuckooMap.Remove _ _ _ _ _) as [table b]. destruct Hr as (HIm & Habs & Hb & _).
  assert (Hp' : map_Forall (fun _ d => INT_MIN <= priority d) (CuckooMap.abs (entry0 data0) table))
    by (rewrite Habs; by apply map_Forall_delete).
  destruct (replace_table m idx t table HI Hi HIm Hp') as (HI' & Hmk & Hat').
  set (m1 := with_tuples m _) in *.
  assert (Hset : forall mk k, rule_at m1 mk k = set_rule (rule_at m) (tuple_mask t) key None mk k).
  { intros mk k. rewrite Hat'. unfold set_rule. destruct (bool_decide_reflect (mk = tuple_mask t)) as [->|Hm].
    - rewrite Habs, lookup_delete, Hat. case_decide as Hk.
      + by rewrite bool_decide_eq_true_2.
      + rewrite bool_decide_eq_false_2; [done|]. by intros [_ ->].
    - rewrite bool_decide_eq_false_2; [done|]. by intros [-> _]. }
  destruct b; cbn [negb Z.eqb].
  { exists m1, 1. split; [done|]. split; [done|]. split; [done|]. split; [done|]. split; [|done].
    exists false. split; [|done]. split; [done|]. intros Hno. symmetry in Hb. apply bool_decide_eq_true in Hb as [d Hd].
    rewrite <- Hat, Hno in Hd. done. }
  symmetry in Hb. apply bool_decide_eq_false, eq_None_not_Some in Hb.
  rewrite (delete_id _ _ Hb) in Habs.
  destruct (Z.eqb_spec (CuckooMap.Count table) 0) as [Hc|Hc].
  2: { exists m1, 0. split; [done|]. split; [done|]. split; [done|]. split; [done|]. split; [|done].
       exists false. split; [|done]. split; [done|]. intros Hno. destruct Hc. unfold CuckooMap.Count.
       rewrite (CuckooMap.inv_count _ _ _ _ HIm), <- (size_abs (wm_hash crc (wm_total_key_size_ m)) _ _ _ HIm), Habs.
       replace (CuckooMap.abs (entry0 data0) (ht t)) with (∅ : gmap bytes WmData); [done|]. symmetry. apply map_empty. intros k. by rewrite <- Hat. }
  assert (Hempty : CuckooMap.abs (entry0 data0) table = ∅).
  { apply map_size_empty_inv. rewrite (size_abs (wm_hash crc (wm_total_key_size_ m)) _ _ _ HIm).
    unfold CuckooMap.Count in Hc. rewrite (CuckooMap.inv_count _ _ _ _ HIm) in Hc. lia. }
  destruct (empty_tuple m1 idx (MkTuple table (tuple_mask t)) HI') as (HI2 & Hmk2 & Hat2); [|done|].
  { unfold m1. cbn [with_tuples tuples_]. apply list_lookup_insert_eq. by eapply lookup_lt_Some. }
  eexists _, _. split; [reflexivity|]. split; [done|]. split; [exact HI2|]. split; [done|].
  split; [|intros mk k; by rewrite <- Hset, <- Hat2]. exists true. split; [|by rewrite Hmk2, Hmk]. split; [|done]. intros _ k.
  by rewrite Hat, <- Habs, Hempty, lookup_empty.
Qed.

Lemma CommandDelete_spec m values ms : Inv crc m -> Forall data_ok values -> Forall data_ok ms ->
  exists m' r, CommandDelete crc m values ms = Some (m', r) /\ Inv crc m' /\ same_config m m' /\
  match rule_of (wm_fields_ m) values ms with
  | None => r = inl EINVAL /\ m' = m
  | Some (key, mask) =>
      if bool_decide (mask ∈ masks m)
      then r = inr tt /\ erased m m' mask /\ forall mk k, rule_at m' mk k = set_rule (rule_at m) mask key None mk k
      else r = inl ENOENT /\ m' = m
  end.
Proof.
  intros HI Hv Hm. unfold CommandDelete. rewrite ExtractKeyMask_spec by done. cbn [mbind option_bind].
  destruct (rule_of _ values ms) as [[key mask]|] eqn:Hrule; [|by eexists _, _].
  apply rule_of_ok in Hrule as [Hkey Hmask]; [|done..]. pose proof (FindTuple_spec m mask HI Hmask) as Hft.
  destruct (FindTuple m mask) as [idx|].
  - destruct Hft as (t & Hi & <-). assert (tuple_mask t ∈ masks m) as Hin by (by eapply list_elem_of_fmap_2, list_elem_of_lookup_2).
    rewrite bool_decide_eq_true_2 by done. destruct (DelEntry_spec m idx t key HI Hi Hkey) as (m' & ret & -> & Hret & HI' & Hc & He & Hr).
    cbn [mbind option_bind fst snd]. rewrite (proj2 (Z.ltb_ge _ _)) by lia. by eexists _, _.
  - rewrite bool_decide_eq_false_2 by done. by eexists _, _.
Qed.

Lemma Clear_rules m : Inv crc m -> Inv crc (Clear m) /\ same_config m (Clear m) /\ masks (Clear m) = masks m /\
  forall mk k, rule_at (Clear m) mk k = None.
Proof.
  intros HI. destruct (inv_words crc m HI) as (w & n & Hw & Ht & Hn & Hwn & HF & _).
  set (c := fun t => MkTuple (CuckooMap.Clear (entry0 data0) (ht t)) (tuple_mask t)).
  assert (Hmk : map tuple_mask (map c (tuples_ m)) = masks m) by apply map_map.
  pose proof (fun t => CuckooMap.Clear_spec (wm_hash crc (Z.of_nat (8 * n))) (entry0 data0) (key_ok (8 * n)) (ht t)) as Hclear.
  split; [|split; [done|split; [done|]]].
  - apply Inv_with_tuples; [done|rewrite length_map; apply (inv_tuples crc m HI)|exact (eq_ind_r (fun l => NoDup l) (inv_masks crc m HI) Hmk)|].
    rewrite Hw, Ht, Nat2Z.id. replace (Z.to_nat (Z.of_nat (8 * n) / 8)) with n by nlia.
    apply Forall_map. eapply Forall_impl; [exact HF|]. intros t [Hm _ _]. destruct (Hclear t) as [HIc Hac].
    split; [done|exact HIc|]. cbn [ht]. rewrite Hac. apply map_Forall_empty.
  - intros mk k. unfold rule_at. cbn [Clear with_tuples tuples_]. clear -Hclear c. fold c.
    induction (tuples_ m) as [|t ts IH]; cbn [map rule_in]; [done|].
    destruct (Hclear t) as [_ Hac]. case_bool_decide; [|done].
    change (CuckooMap.abs (entry0 data0) (CuckooMap.Clear (entry0 data0) (ht t)) !! k = None). by rewrite Hac, lookup_empty.
Qed.
End Rules.

(** C24: the rules as a map from masks and keys to priority and gate, for values and masks of at most 8 bytes.  A rule is accepted exactly if
    each value fits its field and lies under its mask (else EINVAL), the gate is valid (else EINVAL), there is a tuple for its
    masks or room for one (else ENOSPC), and the table of the tuple has room (else EINVAL, and no rule changes); it
    then replaces the rule with the same masks and values.  Deletion takes exactly that rule back and
    fails only for masks that are in no tuple (ENOENT): it succeeds for a rule that is not there.  The tuples, on which the
    later answers depend: a new mask gets one, a deletion erases one that had no rules before, clearing keeps all and takes all rules back. *)
Theorem wildcard_match_rules crc m gate prio values ms : Inv crc m -> Forall data_ok values -> Forall data_ok ms ->
  let km := rule_of (wm_fields_ m) values ms in
  (exists m' r, CommandAdd crc m gate prio values ms = Some (m', r) /\ Inv crc m' /\ same_config m m' /\
     match km with
     | None => r = inl EINVAL /\ m' = m
     | Some (key, mask) =>
         if negb (is_valid_gate (u16 gate)) then r = inl EINVAL /\ m' = m
         else if bool_decide (mask ∉ masks m) && (MAX_TUPLES <=? length (masks m))%nat then r = inl ENOSPC /\ m' = m
         else masks m' = (if bool_decide (mask ∈ masks m) then masks m else masks m ++ [mask]) /\
           ((r = inr tt /\ forall mk k, rule_at m' mk k = set_rule (rule_at m) mask key (Some (MkData (to_int prio) (u16 gate))) mk k) \/
            (r = inl EINVAL /\ (exists m1, (m1 = m \/ exists idx, AddTuple m mask = Some (m1, idx)) /\
               refuses crc m1 mask key (MkData (to_int prio) (u16 gate))) /\ forall mk k, rule_at m' mk k = rule_at m mk k))
     end) /\
  (exists m' r, CommandDelete crc m values ms = Some (m', r) /\ Inv crc m' /\ same_config m m' /\
     match km with
     | None => r = inl EINVAL /\ m' = m
     | Some (key, mask) =>
         if bool_decide (mask ∈ masks m)
         then r = inr tt /\ erased m m' mask /\ forall mk k, rule_at m' mk k = set_rule (rule_at m) mask key None mk k
         else r = inl ENOENT /\ m' = m
     end) /\
  (Inv crc (CommandClear m) /\ same_config m (CommandClear m) /\ masks (CommandClear m) = masks m /\
   forall mk k, rule_at (CommandClear m) mk k = None).
Proof.
  intros HI Hv Hm. split; [by apply CommandAdd_spec|]. split; [by apply CommandDelete_spec|].
  destruct (Clear_rules crc m HI) as (? & ? & ? & ?). done.
Qed.

(** ** Set-up *)
Lemma add_fields_layout fs fields p fs' p' : wm_layout 0 fs -> p = wm_sizes fs ->
  add_fields fs fields p = (fs', p', inr tt) ->
  wm_layout 0 fs' /\ p' = wm_sizes fs' /\ length fs' = (length fs + length fields)%nat.
Proof.
  revert fs p. induction fields as [|field fields IH]; intros fs p Hl Hp; cbn [add_fields length].
  { intros [= <- <-]. split; [done|]. split; [done|]. lia. }
  destruct (AddFieldOne field p) as [f [e|[]]] eqn:Hf; [done|]. intros Ha.
  assert (Hsz : 1 <= wf_size f <= 8 /\ wf_pos f = p).
  { unfold AddFieldOne in Hf. destruct ((_ <? 1) || _) eqn:Hb; [done|]. unfold MAX_FIELD_SIZE in Hb.
    apply orb_false_iff in Hb as [?%Z.ltb_ge ?%Z.ltb_ge].
    destruct (field_position field); injection Hf as <- _; cbn [wf_size wf_pos]; (split; [lia|done]). }
  assert (Happ : forall q l, wm_layout q (l ++ [f]) <-> wm_layout q l /\ wf_pos f = q + wm_sizes l).
  { intros q l. revert q. induction l as [|x l IHl]; intros q; cbn [app wm_layout wm_sizes foldr].
    - rewrite Z.add_0_r. split; [intros (? & _)|intros [_ ?]]; (split; [done|]); [done|split; [lia|done]].
    - rewrite IHl. unfold wm_sizes. rewrite Z.add_assoc. tauto. }
  assert (Hs : wm_sizes (fs ++ [f]) = wm_sizes fs + wf_size f).
  { unfold wm_sizes. clear. induction fs as [|x l IHl]; cbn [app foldr]; lia. }
  apply IH in Ha as (? & ? & Hlen); [|apply Happ; split; [done|lia]|lia].
  split; [done|]. split; [done|]. rewrite Hlen, length_app. cbn. lia.
Qed.

Lemma wildcard_Init_Inv crc fields m : (0 < length fields <= MAX_FIELDS)%nat -> Init new_module fields = (m, inr tt) ->
  Inv crc m /\ wm_default_gate_ m = DROP_GATE /\ forall mk k, rule_at m mk k = None.
Proof.
  intros Hf. unfold Init. cbn [new_module wm_fields_]. destruct (add_fields [] fields 0) as [[fs p] [e|[]]] eqn:Ha; [done|].
  intros [= <-]. apply add_fields_layout in Ha as (Hl & -> & Hlen); [|done|done]. cbn [length] in Hlen.
  split; [|done]. split; cbn; [done|lia|done|unfold MAX_TUPLES; lia|constructor|constructor].
Qed.

(** Nothing bounds the number of fields: the key of a ninth one is outside of the array. *)
Lemma wildcard_nine_fields crc junk attrs data :
  exists m, Init new_module (replicate 9 (PbField 8 (kOffset 0))) = (m, inr tt) /\ process_packet crc m junk attrs data = None.
Proof.
  eexists. split; [vm_compute; reflexivity|]. unfold process_packet, make_key. cbn [wm_total_key_size_].
  change (store8 junk _ 0) with (@None bytes). done.
Qed.

(** ** A concrete module: the destination port and the last byte of an address *)
Definition ex_wm_crc (x init : Z) : Z := u32 (x + 31 * init).
Definition ex_wm : WildcardMatch := (Init new_module [PbField 2 (kOffset 36); PbField 1 (kOffset 33)]).1.
Definition ex_wm_add (m : WildcardMatch) (gate prio : Z) (values ms : list FieldData) : WildcardMatch :=
  match CommandAdd ex_wm_crc m gate prio values ms with Some (m, _) => m | None => m end.
Definition ex_wm_rules : WildcardMatch :=
  ex_wm_add (ex_wm_add ex_wm 3 1 [value_int 80; value_int 0] [value_int 0xFFFF; value_int 0])
    4 2 [value_int 0; value_int 5] [value_int 0; value_int 0x0F].
Definition ex_wm_packet (port addr : Z) : bytes := replicate 33 1 ++ [addr; 9; 9; 0; port] ++ replicate 20 0.
Definition ex_wm_junk : bytes := replicate 64 170.

#[export] Instance wm_buffer_ok_dec buf f : Decision (wm_buffer_ok buf f).
Proof. unfold wm_buffer_ok. apply _. Defined.
#[export] Instance data_ok_dec d : Decision (data_ok d).
Proof. destruct d; cbn; apply _. Defined.

Lemma ex_wm_Inv : Inv ex_wm_crc ex_wm.
Proof.
  apply (wildcard_Init_Inv ex_wm_crc [PbField 2 (kOffset 36); PbField 1 (kOffset 33)]); [cbn; unfold MAX_FIELDS; lia|].
  vm_compute. reflexivity.
Qed.

Lemma ex_wm_add_Inv m gate prio values ms : Inv ex_wm_crc m -> Forall data_ok values -> Forall data_ok ms ->
  Inv ex_wm_crc (ex_wm_add m gate prio values ms).
Proof.
  intros HI Hv Hm. destruct (CommandAdd_spec ex_wm_crc m gate prio values ms HI Hv Hm) as (m' & r & Ha & HI' & _).
  unfold ex_wm_add. by rewrite Ha.
Qed.

Lemma wildcard_match_best_witness :
  exists g, process_packet ex_wm_crc ex_wm_rules ex_wm_junk (fun _ => []) (ex_wm_packet 80 0x35) = Some g /\ g = 4.
Proof.
  destruct (wildcard_match_best ex_wm_crc ex_wm_rules ex_wm_junk (fun _ => []) (ex_wm_packet 80 0x35)) as (g & Hg & _).
  - apply ex_wm_add_Inv; [apply ex_wm_add_Inv; [exact ex_wm_Inv| |]| |]; by repeat constructor.
  - apply (bool_decide_unpack _). vm_compute. exact I.
  - reflexivity.
  - apply (bool_decide_unpack _). vm_compute. exact I.
  - exists g. split; [exact Hg|]. vm_compute in Hg. by injection Hg.
Defined.

Lemma wildcard_match_rules_witness :
  exists m' r, CommandDelete ex_wm_crc ex_wm [value_int 80; value_int 0] [value_int 0xFFFF; value_int 0] = Some (m', r) /\
    Inv ex_wm_crc m' /\ r = inl ENOENT.
Proof.
  destruct (wildcard_match_rules ex_wm_crc ex_wm 3 1 [value_int 80; value_int 0] [value_int 0xFFFF; value_int 0] ex_wm_Inv)
    as (_ & (m' & r & Hd & HI & _) & _); [by repeat constructor|by repeat constructor|].
  exists m', r. split; [exact Hd|]. split; [exact HI|]. vm_compute in Hd. by injection Hd.
Defined.

(** Deleting a rule that is not there succeeds, and the tuple of a deleted rule stays: with eight masks
    in use once, no other mask can be added any more. *)
Definition ex_wm_mask (i : nat) : list FieldData := [value_int (Z.of_nat i); value_int 0].
Definition ex_wm_add_delete (m : WildcardMatch) (i : nat) : WildcardMatch :=
  match CommandDelete ex_wm_crc (ex_wm_add m 1 1 (ex_wm_mask 0) (ex_wm_mask i)) (ex_wm_mask 0) (ex_wm_mask i) with
  | Some (m, _) => m | None => m end.
Lemma wildcard_tuples_leak :
  let m := foldl ex_wm_add_delete ex_wm (seq 1 8) in
  num_rules m = 0 /\ snd <$> CommandAdd ex_wm_crc m 1 1 (ex_wm_mask 0) (ex_wm_mask 9) = Some (inl ENOSPC) /\
  snd <$> CommandDelete ex_wm_crc m (ex_wm_mask 1) (ex_wm_mask 1) = Some (inr tt).
Proof. vm_compute. done. Qed.
