(* ===== verification/LLRing.v ===== *)
(** The lock-less ring, run by one thread at a time: [core/kmod/llring.h].

    Heads and tails are free-running 32-bit counters; slot [p] of the ring is
    [p & mask].  An access outside of an array and an endless wait are [None]. *)
From S2P Require Import Prelude.

Definition LLRING_ERR_NOBUF : Z := 1.
Definition LLRING_ERR_QUOT : Z := 2.
Definition LLRING_ERR_NOENT : Z := 3.
Definition LLRING_ERR_NOPOW2 : Z := 4.
Definition LLRING_ERR_INVAL : Z := 5.
Definition RING_QUOT_EXCEED : Z := Z.shiftl 1 31.

Inductive llring_queue_behavior := LLRING_QUEUE_FIXED | LLRING_QUEUE_VARIABLE.
#[export] Instance behavior_dec : EqDecision llring_queue_behavior.
Proof. solve_decision. Defined.

Section Ring.
Context {T : Type} (null : T).

Record llring := Ring {
  slots : Z;
  mask : Z;
  sp_enqueue : bool;
  sc_dequeue : bool;
  watermark : Z;
  prod_head : Z;
  prod_tail : Z;
  cons_head : Z;
  cons_tail : Z;
  ring : list T }.

Definition set_watermark (r : llring) (w : Z) : llring :=
  Ring (slots r) (mask r) (sp_enqueue r) (sc_dequeue r) w (prod_head r) (prod_tail r) (cons_head r) (cons_tail r) (ring r).
Definition set_prod (r : llring) (h t : Z) (mem : list T) : llring :=
  Ring (slots r) (mask r) (sp_enqueue r) (sc_dequeue r) (watermark r) h t (cons_head r) (cons_tail r) mem.
Definition set_cons (r : llring) (h t : Z) : llring :=
  Ring (slots r) (mask r) (sp_enqueue r) (sc_dequeue r) (watermark r) (prod_head r) (prod_tail r) h t (ring r).

Definition llring_init (slots : Z) (sp sc : bool) : Z * option llring :=
  if negb (Z.land slots (u32 (slots - 1)) =? 0) then (- LLRING_ERR_NOPOW2, None)
  else (0, Some (Ring slots (u32 (slots - 1)) sp sc slots 0 0 0 0 (replicate (Z.to_nat slots) null))).

Definition llring_set_water_mark (r : llring) (count : Z) : llring * Z :=
  if slots r <=? count then (r, - LLRING_ERR_INVAL)
  else (set_watermark r (if count =? 0 then slots r else count), 0).

(** ** Copying in *)

(** [k] times [r->ring[idx++] = obj_table[i++]] *)
Fixpoint put_run (k : nat) (obj_table : list T) (mem : list T) (idx i : nat) : option (list T) :=
  match k with
  | O => Some mem
  | S k' =>
      o ← obj_table !! i;
      if (idx <? length mem)%nat then put_run k' obj_table (<[idx := o]> mem) (S idx) (S i) else None
  end.

(** The unrolled loop: [g] groups of four. *)
Fixpoint put_groups (g : nat) (obj_table : list T) (mem : list T) (idx i : nat) : option (list T) :=
  match g with
  | O => Some mem
  | S g' => mem ← put_run 4 obj_table mem idx i; put_groups g' obj_table mem (idx + 4) (i + 4)
  end.

(** [LLRING_ENQUEUE_PTRS()] *)
Definition enqueue_ptrs (r : llring) (prod_head : Z) (obj_table : list T) (n : Z) : option (list T) :=
  let idx := Z.to_nat (Z.land prod_head (mask r)) in
  let n' := Z.to_nat n in
  if u32 (Z.of_nat idx + n) <? slots r then
    mem ← put_groups (n' / 4) obj_table (ring r) idx 0;
    put_run (n' mod 4) obj_table mem (idx + 4 * (n' / 4)) (4 * (n' / 4))
  else
    let m := (Z.to_nat (slots r) - idx)%nat in
    mem ← put_run m obj_table (ring r) idx 0;
    put_run (n' - m) obj_table mem 0 m.

(** ** Copying out *)

Fixpoint get_run (k : nat) (mem : list T) (idx : nat) : option (list T) :=
  match k with
  | O => Some []
  | S k' => o ← mem !! idx; out ← get_run k' mem (S idx); Some (o :: out)
  end.

Fixpoint get_groups (g : nat) (mem : list T) (idx : nat) : option (list T) :=
  match g with
  | O => Some []
  | S g' => a ← get_run 4 mem idx; out ← get_groups g' mem (idx + 4); Some (a ++ out)
  end.

(** [LLRING_DEQUEUE_PTRS()]: what is written to [obj_table]. *)
Definition dequeue_ptrs (r : llring) (cons_head n : Z) : option (list T) :=
  let idx := Z.to_nat (Z.land cons_head (mask r)) in
  let n' := Z.to_nat n in
  if u32 (Z.of_nat idx + n) <? slots r then
    a ← get_groups (n' / 4) (ring r) idx;
    b ← get_run (n' mod 4) (ring r) (idx + 4 * (n' / 4));
    Some (a ++ b)
  else
    let m := (Z.to_nat (slots r) - idx)%nat in
    a ← get_run m (ring r) idx;
    b ← get_run (n' - m) (ring r) 0;
    Some (a ++ b).

(** ** Enqueue and dequeue *)

Definition enqueue_ret (r : llring) (free_entries n : Z) (behavior : llring_queue_behavior) : Z :=
  if watermark r <? u32 (u32 (mask r + 1) - free_entries + n) then
    match behavior with
    | LLRING_QUEUE_FIXED => - LLRING_ERR_QUOT
    | LLRING_QUEUE_VARIABLE => Z.lor n RING_QUOT_EXCEED - 2 ^ 32
    end
  else match behavior with LLRING_QUEUE_FIXED => 0 | LLRING_QUEUE_VARIABLE => n end.

(** The number of objects to move, or the value to return at once. *)
Definition clamp (n avail err : Z) (behavior : llring_queue_behavior) : Z + Z :=
  if avail <? n then
    match behavior with
    | LLRING_QUEUE_FIXED => inl (- err)
    | LLRING_QUEUE_VARIABLE => if avail =? 0 then inl 0 else inr avail
    end
  else inr n.

Definition __llring_sp_do_enqueue (r : llring) (obj_table : list T) (n : Z)
    (behavior : llring_queue_behavior) : option (llring * Z) :=
  let head := prod_head r in
  let free_entries := u32 (mask r + cons_tail r - head) in
  match clamp n free_entries LLRING_ERR_NOBUF behavior with
  | inl ret => Some (r, ret)
  | inr n =>
      let prod_next := u32 (head + n) in
      let r := set_prod r prod_next (prod_tail r) (ring r) in
      mem ← enqueue_ptrs r head obj_table n;
      Some (set_prod r prod_next prod_next mem, enqueue_ret r free_entries n behavior)
  end.

(** Without interference the compare-and-swap succeeds at once, and the wait for
    earlier producers ends at once or never. *)
Definition __llring_mp_do_enqueue (r : llring) (obj_table : list T) (n : Z)
    (behavior : llring_queue_behavior) : option (llring * Z) :=
  let head := prod_head r in
  let free_entries := u32 (mask r + cons_tail r - head) in
  match clamp n free_entries LLRING_ERR_NOBUF behavior with
  | inl ret => Some (r, ret)
  | inr n =>
      let prod_next := u32 (head + n) in
      let r := set_prod r prod_next (prod_tail r) (ring r) in
      mem ← enqueue_ptrs r head obj_table n;
      if prod_tail r =? head
      then Some (set_prod r prod_next prod_next mem, enqueue_ret r free_entries n behavior)
      else None
  end.

Definition dequeue_ret (n : Z) (behavior : llring_queue_behavior) : Z :=
  match behavior with LLRING_QUEUE_FIXED => 0 | LLRING_QUEUE_VARIABLE => n end.

Definition __llring_sc_do_dequeue (r : llring) (n : Z) (behavior : llring_queue_behavior)
    : option (llring * list T * Z) :=
  let head := cons_head r in
  let entries := u32 (prod_tail r - head) in
  match clamp n entries LLRING_ERR_NOENT behavior with
  | inl ret => Some (r, [], ret)
  | inr n =>
      let cons_next := u32 (head + n) in
      let r := set_cons r cons_next (cons_tail r) in
      out ← dequeue_ptrs r head n;
      Some (set_cons r cons_next cons_next, out, dequeue_ret n behavior)
  end.

Definition __llring_mc_do_dequeue (r : llring) (n : Z) (behavior : llring_queue_behavior)
    : option (llring * list T * Z) :=
  let head := cons_head r in
  let entries := u32 (prod_tail r - head) in
  match clamp n entries LLRING_ERR_NOENT behavior with
  | inl ret => Some (r, [], ret)
  | inr n =>
      let cons_next := u32 (head + n) in
      let r := set_cons r cons_next (cons_tail r) in
      out ← dequeue_ptrs r head n;
      if cons_tail r =? head then Some (set_cons r cons_next cons_next, out, dequeue_ret n behavior) else None
  end.

Definition llring_mp_enqueue_bulk r objs n := __llring_mp_do_enqueue r objs n LLRING_QUEUE_FIXED.
Definition llring_sp_enqueue_bulk r objs n := __llring_sp_do_enqueue r objs n LLRING_QUEUE_FIXED.
Definition llring_enqueue_bulk (r : llring) objs n :=
  if sp_enqueue r then llring_sp_enqueue_bulk r objs n else llring_mp_enqueue_bulk r objs n.
Definition llring_mp_enqueue r obj := llring_mp_enqueue_bulk r [obj] 1.
Definition llring_sp_enqueue r obj := llring_sp_enqueue_bulk r [obj] 1.
Definition llring_enqueue (r : llring) obj := if sp_enqueue r then llring_sp_enqueue r obj else llring_mp_enqueue r obj.
Definition llring_mc_dequeue_bulk r n := __llring_mc_do_dequeue r n LLRING_QUEUE_FIXED.
Definition llring_sc_dequeue_bulk r n := __llring_sc_do_dequeue r n LLRING_QUEUE_FIXED.
Definition llring_dequeue_bulk (r : llring) n :=
  if sc_dequeue r then llring_sc_dequeue_bulk r n else llring_mc_dequeue_bulk r n.
Definition llring_mc_dequeue r := llring_mc_dequeue_bulk r 1.
Definition llring_sc_dequeue r := llring_sc_dequeue_bulk r 1.
Definition llring_dequeue (r : llring) := if sc_dequeue r then llring_sc_dequeue r else llring_mc_dequeue r.
Definition llring_mp_enqueue_burst r objs n := __llring_mp_do_enqueue r objs n LLRING_QUEUE_VARIABLE.
Definition llring_sp_enqueue_burst r objs n := __llring_sp_do_enqueue r objs n LLRING_QUEUE_VARIABLE.
Definition llring_enqueue_burst (r : llring) objs n :=
  if sp_enqueue r then llring_sp_enqueue_burst r objs n else llring_mp_enqueue_burst r objs n.
Definition llring_mc_dequeue_burst r n := __llring_mc_do_dequeue r n LLRING_QUEUE_VARIABLE.
Definition llring_sc_dequeue_burst r n := __llring_sc_do_dequeue r n LLRING_QUEUE_VARIABLE.
Definition llring_dequeue_burst (r : llring) n :=
  if sc_dequeue r then llring_sc_dequeue_burst r n else llring_mc_dequeue_burst r n.

Definition llring_full (r : llring) : bool := Z.land (u32 (cons_tail r - prod_tail r - 1)) (mask r) =? 0.
Definition llring_empty (r : llring) : bool := cons_tail r =? prod_tail r.
Definition llring_count (r : llring) : Z := Z.land (u32 (prod_tail r - cons_tail r)) (mask r).
Definition llring_free_count (r : llring) : Z := Z.land (u32 (cons_tail r - prod_tail r - 1)) (mask r).

(** ** Copying, slot by slot *)

Lemma put_run_spec k objs mem idx i : (idx + k <= length mem)%nat -> (i + k <= length objs)%nat ->
  exists mem', put_run k objs mem idx i = Some mem' /\ length mem' = length mem /\
    forall j, mem' !! j = if decide (idx <= j < idx + k)%nat then objs !! (i + (j - idx))%nat else mem !! j.
Proof.
  revert mem idx i. induction k as [|k IH]; intros mem idx i Hm Ho; cbn [put_run].
  { exists mem. split; [done|]. split; [done|]. intros j. by rewrite decide_False by lia. }
  destruct (lookup_lt_is_Some_2 objs i) as [o Hi]; [lia|]. rewrite Hi. cbn [mbind option_bind].
  rewrite (proj2 (Nat.ltb_lt idx (length mem))) by lia.
  destruct (IH (<[idx := o]> mem) (S idx) (S i)) as (mem' & -> & Hl & Hj); [by rewrite length_insert; lia|lia|].
  exists mem'. split; [done|]. rewrite length_insert in Hl. split; [done|]. intros j. rewrite Hj.
  destruct (decide (j = idx)) as [->|Hne].
  - rewrite decide_False, decide_True, list_lookup_insert_eq by lia. by rewrite Nat.sub_diag, Nat.add_0_r.
  - rewrite list_lookup_insert_ne by done. case_decide; case_decide; try lia; [f_equal; lia|done].
Qed.

Lemma put_run_app k k' objs mem idx i :
  put_run (k + k') objs mem idx i = (mem ← put_run k objs mem idx i; put_run k' objs mem (idx + k) (i + k)).
Proof.
  revert mem idx i. induction k as [|k IH]; intros mem idx i; cbn [put_run Nat.add].
  { by rewrite !Nat.add_0_r. }
  destruct (objs !! i) as [o|]; [|done]. cbn [mbind option_bind]. destruct (idx <? length mem)%nat; [|done].
  rewrite IH. by rewrite <- !plus_n_Sm.
Qed.

(** The unrolled loop is the plain one. *)
Lemma put_groups_run g objs mem idx i : put_groups g objs mem idx i = put_run (4 * g) objs mem idx i.
Proof.
  revert mem idx i. induction g as [|g IH]; intros mem idx i; [done|].
  replace (4 * S g)%nat with (4 + 4 * g)%nat by lia. rewrite put_run_app. cbn [put_groups].
  destruct (put_run 4 objs mem idx i); [|done]. apply IH.
Qed.

Lemma get_run_spec k mem idx : (idx + k <= length mem)%nat -> get_run k mem idx = Some (take k (drop idx mem)).
Proof.
  revert idx. induction k as [|k IH]; intros idx Hl; cbn [get_run]; [done|].
  destruct (lookup_lt_is_Some_2 mem idx) as [o Ho]; [lia|]. rewrite Ho, IH by lia. cbn.
  by rewrite (drop_S mem o idx Ho).
Qed.

Lemma get_groups_run g mem idx : (idx + 4 * g <= length mem)%nat ->
  get_groups g mem idx = Some (take (4 * g) (drop idx mem)).
Proof.
  revert idx. induction g as [|g IH]; intros idx Hl; [done|].
  replace (4 * S g)%nat with (4 + 4 * g)%nat by lia. cbn [get_groups].
  rewrite get_run_spec, IH by lia. cbn [mbind option_bind]. by rewrite <- take_take_drop, drop_drop.
Qed.

(** ** The ring as a bounded queue *)

(** The slot of position [p]. *)
Definition slot_of (r : llring) (p : Z) : nat := Z.to_nat (p mod slots r).

Record wf (r : llring) : Prop := {
  wf_slots : exists p, 0 <= p <= 31 /\ slots r = 2 ^ p;
  wf_mask : mask r = slots r - 1;
  wf_ring : Z.of_nat (length (ring r)) = slots r;
  wf_watermark : 0 <= watermark r <= slots r }.

Record Inv (r : llring) : Prop := {
  inv_wf : wf r;
  inv_prod : prod_head r = prod_tail r;
  inv_cons : cons_head r = cons_tail r;
  inv_prod_word : in_word 32 (prod_tail r);
  inv_cons_word : in_word 32 (cons_tail r);
  inv_count : u32 (prod_tail r - cons_tail r) <= mask r }.

Definition used (r : llring) : nat := Z.to_nat (u32 (prod_tail r - cons_tail r)).

(** What is queued, oldest first. *)
Definition contents (r : llring) : list T :=
  map (fun k => nth (slot_of r (cons_tail r + Z.of_nat k)) (ring r) null) (seq 0 (used r)).

Lemma slots_range r : wf r -> 1 <= slots r <= 2 ^ 31.
Proof.
  intros [(p & Hp & ->) _ _ _]. split; [|apply Z.pow_le_mono_r; lia].
  assert (0 < 2 ^ p) by (apply Z.pow_pos_nonneg; lia). lia.
Qed.

Lemma land_mask r x : wf r -> Z.land x (mask r) = x mod slots r.
Proof.
  intros [(p & Hp & Hs) Hm _ _]. rewrite Hm, Hs, Z.sub_1_r, <- Z.ones_equiv. apply Z.land_ones. lia.
Qed.

(** Counters wrap around at a multiple of the number of slots. *)
Lemma u32_mod_slots r x : wf r -> u32 x mod slots r = x mod slots r.
Proof.
  intros [(p & Hp & ->) _ _ _]. unfold wrap. apply Z.mod_mod_divide.
  exists (2 ^ (32 - p)). rewrite <- Z.pow_add_r by lia. f_equal. lia.
Qed.

Lemma slot_of_lt r p : wf r -> (slot_of r p < length (ring r))%nat.
Proof.
  intros Hw. pose proof (wf_ring r Hw). pose proof (slots_range r Hw).
  unfold slot_of. pose proof (Z.mod_pos_bound p (slots r)). lia.
Qed.

(** The distance of slot [j] from position [p], going round. *)
Definition dist (r : llring) (p : Z) (j : nat) : nat := Z.to_nat ((Z.of_nat j - p) mod slots r).

Lemma dist_split r p j : wf r -> (j < length (ring r))%nat ->
  dist r p j = if decide (slot_of r p <= j)%nat then (j - slot_of r p)%nat
               else (j + length (ring r) - slot_of r p)%nat.
Proof.
  intros Hw Hj. pose proof (wf_ring r Hw) as Hl. pose proof (slots_range r Hw) as Hs.
  unfold dist, slot_of. pose proof (Z.mod_pos_bound p (slots r) ltac:(lia)) as Hp.
  rewrite Zminus_mod, (Z.mod_small (Z.of_nat j)) by lia. set (q := p mod slots r) in *.
  case_decide.
  - rewrite Z.mod_small by lia. lia.
  - replace (Z.of_nat j - q) with (Z.of_nat j + slots r - q + (-1) * slots r) by lia.
    rewrite Z.mod_add, Z.mod_small by lia. lia.
Qed.

(** [LLRING_ENQUEUE_PTRS] stores object [k] in the slot of position [head + k]. *)
Lemma enqueue_ptrs_spec r head objs n : wf r -> 0 <= n <= mask r -> n <= Z.of_nat (length objs) ->
  exists mem, enqueue_ptrs r head objs n = Some mem /\ length mem = length (ring r) /\
    forall j, (j < length (ring r))%nat ->
      mem !! j = if decide (dist r head j < Z.to_nat n)%nat then objs !! dist r head j else ring r !! j.
Proof.
  intros Hw Hn Ho. pose proof (wf_ring r Hw) as Hl. pose proof (slots_range r Hw) as Hs.
  pose proof (wf_mask r Hw) as Hm. unfold enqueue_ptrs. rewrite land_mask by done. fold (slot_of r head).
  pose proof (slot_of_lt r head Hw) as Hidx. set (idx := slot_of r head) in *.
  rewrite wrap_small by (unfold in_word; lia). set (n' := Z.to_nat n).
  destruct (Z.ltb_spec (Z.of_nat idx + n) (slots r)) as [Hlt|Hge].
  - rewrite put_groups_run. pose proof (put_run_app (4 * (n' / 4)) (n' mod 4) objs (ring r) idx 0) as Happ.
    cbn [Nat.add] in Happ. rewrite <- Happ. rewrite <- (Nat.div_mod_eq n' 4).
    destruct (put_run_spec n' objs (ring r) idx 0) as (mem & -> & Hlm & Hj); [lia|lia|].
    exists mem. split; [done|]. split; [done|]. intros j Hjl. rewrite Hj, dist_split by done. fold idx.
    cbn [Nat.add]. repeat case_decide; try lia; done.
  - set (m := (Z.to_nat (slots r) - idx)%nat).
    destruct (put_run_spec m objs (ring r) idx 0) as (mem1 & -> & Hl1 & Hj1); [lia|lia|]. cbn [mbind option_bind].
    destruct (put_run_spec (n' - m) objs mem1 0 m) as (mem & -> & Hl2 & Hj2); [lia|lia|].
    exists mem. split; [done|]. split; [lia|]. intros j Hjl. rewrite Hj2, Hj1, dist_split by done. fold idx.
    repeat case_decide; try lia; try done; f_equal; lia.
Qed.

(** [LLRING_DEQUEUE_PTRS] reads the slots of the positions from [head] on. *)
Lemma dequeue_ptrs_spec r head n : wf r -> 0 <= n <= slots r ->
  dequeue_ptrs r head n =
    Some (map (fun k => nth (slot_of r (head + Z.of_nat k)) (ring r) null) (seq 0 (Z.to_nat n))).
Proof.
  intros Hw Hn. pose proof (wf_ring r Hw) as Hl. pose proof (slots_range r Hw) as Hs.
  unfold dequeue_ptrs. rewrite land_mask by done. fold (slot_of r head).
  pose proof (slot_of_lt r head Hw) as Hidx. set (idx := slot_of r head) in *.
  rewrite wrap_small by (unfold in_word; lia). set (n' := Z.to_nat n).
  assert (Hslot : forall k, (k < n')%nat ->
    slot_of r (head + Z.of_nat k) = if decide (idx + k < length (ring r))%nat then (idx + k)%nat
                                    else (idx + k - length (ring r))%nat).
  { intros k Hk. unfold idx, slot_of in *. pose proof (Z.mod_pos_bound head (slots r) ltac:(lia)).
    rewrite Zplus_mod, (Z.mod_small (Z.of_nat k) (slots r)) by lia. case_decide.
    - rewrite Z.mod_small by lia. lia.
    - replace (head mod slots r + Z.of_nat k) with (head mod slots r + Z.of_nat k - slots r + 1 * slots r) by lia.
      rewrite Z.mod_add, Z.mod_small by lia. lia. }
  assert (Hrun : forall s k c, (s + k <= length (ring r))%nat ->
    (forall i, (i < k)%nat -> slot_of r (head + Z.of_nat (c + i)) = (s + i)%nat) ->
    take k (drop s (ring r)) = map (fun k => nth (slot_of r (head + Z.of_nat k)) (ring r) null) (seq c k)).
  { intros s k. revert s. induction k as [|k IH]; intros s c Hk Hsl; [done|]. cbn [seq map].
    destruct (lookup_lt_is_Some_2 (ring r) s) as [o Ho]; [lia|]. rewrite (drop_S _ o) by done. cbn [take].
    pose proof (Hsl 0%nat ltac:(lia)) as H0. rewrite !Nat.add_0_r in H0. rewrite H0.
    rewrite nth_lookup, Ho. cbn [default]. f_equal. apply IH; [lia|]. intros i Hi.
    replace (S c + i)%nat with (c + S i)%nat by lia. rewrite Hsl by lia. lia. }
  destruct (Z.ltb_spec (Z.of_nat idx + n) (slots r)) as [Hlt|Hge].
  - rewrite get_groups_run, get_run_spec by (rewrite <- ?Nat.add_assoc, <- ?(Nat.div_mod_eq n' 4); nlia).
    cbn [mbind option_bind]. rewrite <- drop_drop, take_take_drop, <- (Nat.div_mod_eq n' 4). f_equal.
    apply Hrun; [lia|]. intros i Hi. rewrite Nat.add_0_l, Hslot by done. by rewrite decide_True by lia.
  - set (m := (Z.to_nat (slots r) - idx)%nat). rewrite !get_run_spec by lia. cbn [mbind option_bind]. f_equal.
    assert (seq 0 n' = seq 0 m ++ seq m (n' - m)) as -> by (rewrite <- seq_app; f_equal; lia).
    rewrite map_app. f_equal; apply Hrun; try lia; intros i Hi; rewrite Hslot by lia.
    + rewrite decide_True by lia. done.
    + rewrite decide_False by lia. lia.
Qed.

Lemma lookup_map {A B} (f : A -> B) (l : list A) i : map f l !! i = f <$> l !! i.
Proof. revert i. induction l as [|x l IH]; intros [|i]; cbn; done. Qed.

(** *** Positions *)

Lemma slot_of_mod r p q : wf r -> p mod slots r = q mod slots r -> slot_of r p = slot_of r q.
Proof. intros Hw H. unfold slot_of. by rewrite H. Qed.

Lemma dist_slot r p q : wf r -> dist r p (slot_of r q) = Z.to_nat ((q - p) mod slots r).
Proof.
  intros Hw. pose proof (slots_range r Hw). unfold dist, slot_of.
  rewrite Z2Nat.id by (apply Z.mod_pos_bound; lia). by rewrite Zminus_mod_idemp_l.
Qed.

Lemma used_eq r : Inv r -> Z.of_nat (used r) = u32 (prod_tail r - cons_tail r) /\
  Z.of_nat (used r) <= mask r /\ prod_tail r mod slots r = (cons_tail r + Z.of_nat (used r)) mod slots r.
Proof.
  intros HI. pose proof (inv_count r HI) as Hc. pose proof (wrap_range 32 (prod_tail r - cons_tail r)) as Hr.
  unfold used. rewrite Z2Nat.id by (unfold in_word in Hr; lia). split; [done|]. split; [done|].
  rewrite Zplus_mod, u32_mod_slots, <- Zplus_mod by apply HI. f_equal. lia.
Qed.

Lemma wrap_sum w x y : wrap w (wrap w x + y) = wrap w (x + y).
Proof. unfold wrap. apply Zplus_mod_idemp_l. Qed.

Lemma free_eq r : Inv r -> u32 (mask r + cons_tail r - prod_head r) = mask r - Z.of_nat (used r).
Proof.
  intros HI. destruct (used_eq r HI) as (Hu & Hle & _). pose proof (slots_range r (inv_wf r HI)).
  pose proof (wf_mask r (inv_wf r HI)). rewrite (inv_prod r HI). unfold wrap in *.
  assert (mask r + cons_tail r - prod_tail r = mask r - (prod_tail r - cons_tail r)) as -> by lia.
  rewrite Zminus_mod, <- Hu. rewrite (Z.mod_small (mask r)) by lia. apply Z.mod_small. lia.
Qed.

(** Advancing the producer by [n] objects. *)
Lemma ring_push_spec r objs n : Inv r -> 0 <= n -> Z.of_nat (used r) + n <= mask r -> n <= Z.of_nat (length objs) ->
  exists mem, enqueue_ptrs r (prod_head r) objs n = Some mem /\
    let r' := set_prod r (u32 (prod_head r + n)) (u32 (prod_head r + n)) mem in
    Inv r' /\ contents r' = contents r ++ take (Z.to_nat n) objs.
Proof.
  intros HI Hn Hfree Ho. pose proof (inv_wf r HI) as Hw. destruct (used_eq r HI) as (Hu & Hle & Hpt).
  pose proof (slots_range r Hw) as Hs. pose proof (wf_mask r Hw) as Hm.
  destruct (enqueue_ptrs_spec r (prod_head r) objs n) as (mem & -> & Hl & Hj); [done|lia|done|].
  exists mem. split; [done|]. cbn zeta. rewrite (inv_prod r HI) in *.
  set (r' := set_prod _ _ _ _).
  assert (Hu' : u32 (prod_tail r' - cons_tail r') = Z.of_nat (used r) + n).
  { unfold r'. cbn. rewrite <- Z.add_opp_r, wrap_sum, Hu.
    replace (prod_tail r + n + - cons_tail r) with ((prod_tail r - cons_tail r) + n) by lia.
    rewrite <- wrap_sum, <- Hu. apply wrap_small. unfold in_word. lia. }
  assert (HI' : Inv r').
  { split; [|done|apply (inv_cons r HI)|by apply wrap_range|apply (inv_cons_word r HI)|rewrite Hu'; cbn; lia].
    destruct Hw as [H1 H2 H3 H4]. split; [done|done| |done]. cbn. by rewrite Hl. }
  split; [done|]. unfold contents.
  assert (used r' = used r + Z.to_nat n)%nat as -> by (unfold used at 1; rewrite Hu'; lia).
  rewrite seq_app, map_app. change (cons_tail r') with (cons_tail r). change (ring r') with mem.
  assert (Hnth : forall k, (k < used r + Z.to_nat n)%nat ->
    mem !! slot_of r' (cons_tail r + Z.of_nat k) =
      if decide (used r <= k)%nat then objs !! (k - used r)%nat else ring r !! slot_of r (cons_tail r + Z.of_nat k)).
  { intros k Hk. change (slot_of r') with (slot_of r).
    rewrite Hj, dist_slot by (done || by apply slot_of_lt).
    assert ((cons_tail r + Z.of_nat k - prod_tail r) mod slots r = (Z.of_nat k - Z.of_nat (used r)) mod slots r) as ->.
    { rewrite Zminus_mod, Hpt, <- Zminus_mod. f_equal. lia. }
    destruct (decide (used r <= k)%nat).
    - rewrite Z.mod_small by lia. rewrite decide_True by lia. f_equal. lia.
    - replace (Z.of_nat k - Z.of_nat (used r)) with (slots r + Z.of_nat k - Z.of_nat (used r) + (-1) * slots r) by lia.
      rewrite Z.mod_add, Z.mod_small by lia. by rewrite decide_False by lia. }
  f_equal.
  - apply map_ext_in. intros k Hk%in_seq. rewrite !nth_lookup, Hnth by lia. by rewrite decide_False by lia.
  - apply list_eq. intros i. destruct (decide (i < Z.to_nat n)%nat) as [Hi|Hi].
    + rewrite lookup_take_lt by done. rewrite lookup_map, lookup_seq_lt by done. cbn.
      rewrite nth_lookup, Hnth by lia. rewrite decide_True by lia.
      destruct (lookup_lt_is_Some_2 objs i) as [o Hoi]; [lia|]. replace (used r + i - used r)%nat with i by lia.
      by rewrite Hoi.
    + rewrite !lookup_ge_None_2; [done|rewrite length_take; lia|]. rewrite length_map, length_seq. lia.
Qed.

(** Advancing the consumer by [n] objects. *)
Lemma ring_pop_spec r n : Inv r -> 0 <= n <= Z.of_nat (used r) ->
  dequeue_ptrs r (cons_head r) n = Some (take (Z.to_nat n) (contents r)) /\
  let r' := set_cons r (u32 (cons_head r + n)) (u32 (cons_head r + n)) in
  Inv r' /\ contents r' = drop (Z.to_nat n) (contents r).
Proof.
  intros HI Hn. pose proof (inv_wf r HI) as Hw. destruct (used_eq r HI) as (Hu & Hle & _).
  pose proof (slots_range r Hw) as Hs. pose proof (wf_mask r Hw) as Hm.
  rewrite dequeue_ptrs_spec, (inv_cons r HI) by (done || lia). split.
  { f_equal. unfold contents. rewrite firstn_map. f_equal.
    apply list_eq. intros i. destruct (decide (i < Z.to_nat n)%nat).
    - by rewrite lookup_take_lt, !lookup_seq_lt by lia.
    - rewrite !lookup_ge_None_2; [done|rewrite length_take; lia|rewrite length_seq; lia]. }
  cbn zeta. set (r' := set_cons _ _ _).
  assert (Hu' : u32 (prod_tail r' - cons_tail r') = Z.of_nat (used r) - n).
  { unfold r', wrap in *. cbn. rewrite Zminus_mod_idemp_r.
    replace (prod_tail r - (cons_tail r + n)) with ((prod_tail r - cons_tail r) - n) by lia.
    rewrite Zminus_mod, <- Hu, (Z.mod_small n) by lia. apply Z.mod_small. lia. }
  split.
  { split; [by destruct Hw|apply (inv_prod r HI)|done|apply (inv_prod_word r HI)|by apply wrap_range|]. rewrite Hu'. cbn. lia. }
  unfold contents. assert (used r' = used r - Z.to_nat n)%nat as -> by (unfold used at 1; rewrite Hu'; lia).
  rewrite skipn_map. apply list_eq. intros i. rewrite !lookup_map.
  destruct (decide (i < used r - Z.to_nat n)%nat).
  - rewrite lookup_drop, !lookup_seq_lt by lia. cbn. f_equal. change (slot_of r') with (slot_of r).
    f_equal. apply slot_of_mod; [done|]. rewrite Zplus_mod, u32_mod_slots, <- Zplus_mod by done. f_equal. lia.
  - rewrite !lookup_ge_None_2; [done|rewrite length_drop, length_seq; lia|rewrite length_seq; lia].
Qed.

(** *** The operations *)

(** How many of [n] objects an operation moves when [avail] can be moved. *)
Definition moved (n avail : Z) (behavior : llring_queue_behavior) : Z :=
  match behavior with
  | LLRING_QUEUE_FIXED => if avail <? n then 0 else n
  | LLRING_QUEUE_VARIABLE => Z.min n avail
  end.

Definition do_enqueue (sp : bool) := if sp then __llring_sp_do_enqueue else __llring_mp_do_enqueue.
Definition do_dequeue (sc : bool) := if sc then __llring_sc_do_dequeue else __llring_mc_do_dequeue.

Definition free_slots (r : llring) : Z := mask r - Z.of_nat (used r).

Lemma enqueue_spec sp r objs n behavior : Inv r -> 0 <= n -> n <= Z.of_nat (length objs) ->
  exists r' ret, do_enqueue sp r objs n behavior = Some (r', ret) /\ Inv r' /\ mask r' = mask r /\
    contents r' = contents r ++ take (Z.to_nat (moved n (free_slots r) behavior)) objs /\
    ret = if free_slots r <? n
          then match behavior with
               | LLRING_QUEUE_FIXED => - LLRING_ERR_NOBUF
               | LLRING_QUEUE_VARIABLE => if free_slots r =? 0 then 0 else enqueue_ret r (free_slots r) (free_slots r) behavior
               end
          else enqueue_ret r (free_slots r) n behavior.
Proof.
  intros HI Hn Ho. pose proof (free_eq r HI) as Hf. fold (free_slots r) in Hf.
  destruct (used_eq r HI) as (_ & Hle & _). unfold free_slots in *.
  assert (Hgo : forall k, 0 <= k <= mask r - Z.of_nat (used r) -> k <= Z.of_nat (length objs) ->
    exists r', (mem ← enqueue_ptrs (set_prod r (u32 (prod_head r + k)) (prod_tail r) (ring r)) (prod_head r) objs k;
      Some (set_prod (set_prod r (u32 (prod_head r + k)) (prod_tail r) (ring r)) (u32 (prod_head r + k))
              (u32 (prod_head r + k)) mem, enqueue_ret (set_prod r (u32 (prod_head r + k)) (prod_tail r) (ring r)) (mask r - Z.of_nat (used r)) k behavior)) =
      Some (r', enqueue_ret r (mask r - Z.of_nat (used r)) k behavior) /\
      Inv r' /\ mask r' = mask r /\ contents r' = contents r ++ take (Z.to_nat k) objs).
  { intros k Hk Hko. destruct (ring_push_spec r objs k HI) as (mem & Hp & HI' & Hc); [lia|lia|done|].
    change (enqueue_ptrs (set_prod r (u32 (prod_head r + k)) (prod_tail r) (ring r)) (prod_head r) objs k)
      with (enqueue_ptrs r (prod_head r) objs k). rewrite Hp. cbn [mbind option_bind].
    eexists. split; [reflexivity|]. done. }
  assert (Hmp : do_enqueue sp r objs n behavior = __llring_sp_do_enqueue r objs n behavior).
  { destruct sp; [done|]. cbn. unfold __llring_mp_do_enqueue, __llring_sp_do_enqueue.
    destruct (clamp _ _ _ _) as [ret|k]; [done|].
    cbn [set_prod prod_tail]. rewrite (inv_prod r HI), Z.eqb_refl. done. }
  rewrite Hmp. unfold __llring_sp_do_enqueue. rewrite Hf. unfold clamp, moved.
  destruct (Z.ltb_spec (mask r - Z.of_nat (used r)) n) as [Hlt|Hge].
  - destruct behavior.
    + eexists _, _. split; [reflexivity|]. split; [done|]. split; [done|]. split; [|done]. by rewrite app_nil_r.
    + destruct (Z.eqb_spec (mask r - Z.of_nat (used r)) 0) as [H0|H0].
      * eexists _, _. split; [reflexivity|]. split; [done|]. split; [done|]. split; [|done].
        rewrite H0, Z.min_r by lia. by rewrite app_nil_r.
      * destruct (Hgo (mask r - Z.of_nat (used r))) as (r' & He & HI' & Hm' & Hc); [lia|lia|].
        exists r', (enqueue_ret r (mask r - Z.of_nat (used r)) (mask r - Z.of_nat (used r)) LLRING_QUEUE_VARIABLE).
        rewrite Z.min_r by lia. done.
  - destruct (Hgo n) as (r' & He & HI' & Hm' & Hc); [lia|lia|].
    exists r', (enqueue_ret r (mask r - Z.of_nat (used r)) n behavior).
    destruct behavior; [|rewrite Z.min_l by lia]; done.
Qed.

Lemma dequeue_spec sc r n behavior : Inv r -> 0 <= n ->
  exists r' ret, do_dequeue sc r n behavior =
      Some (r', take (Z.to_nat (moved n (Z.of_nat (used r)) behavior)) (contents r), ret) /\ Inv r' /\
    contents r' = drop (Z.to_nat (moved n (Z.of_nat (used r)) behavior)) (contents r) /\
    ret = if Z.of_nat (used r) <? n
          then match behavior with LLRING_QUEUE_FIXED => - LLRING_ERR_NOENT
               | LLRING_QUEUE_VARIABLE => Z.of_nat (used r) end
          else dequeue_ret n behavior.
Proof.
  intros HI Hn. destruct (used_eq r HI) as (Hu & Hle & _).
  assert (Hmc : do_dequeue sc r n behavior = __llring_sc_do_dequeue r n behavior).
  { destruct sc; [done|]. cbn. unfold __llring_mc_do_dequeue, __llring_sc_do_dequeue.
    destruct (clamp _ _ _ _) as [ret|k]; [done|]. cbn [set_cons cons_tail].
    destruct (dequeue_ptrs _ _ _); [|done]. cbn [mbind option_bind]. by rewrite (inv_cons r HI), Z.eqb_refl. }
  rewrite Hmc. unfold __llring_sc_do_dequeue. rewrite (inv_cons r HI), <- Hu.
  assert (Hgo : forall k, 0 <= k <= Z.of_nat (used r) ->
    exists r', (out ← dequeue_ptrs (set_cons r (u32 (cons_tail r + k)) (cons_tail r)) (cons_tail r) k;
      Some (set_cons (set_cons r (u32 (cons_tail r + k)) (cons_tail r)) (u32 (cons_tail r + k)) (u32 (cons_tail r + k)),
            out, dequeue_ret k behavior)) = Some (r', take (Z.to_nat k) (contents r), dequeue_ret k behavior) /\
      Inv r' /\ contents r' = drop (Z.to_nat k) (contents r)).
  { intros k Hk. destruct (ring_pop_spec r k HI Hk) as (Hp & HI' & Hc). rewrite (inv_cons r HI) in *.
    change (dequeue_ptrs (set_cons r (u32 (cons_tail r + k)) (cons_tail r)) (cons_tail r) k)
      with (dequeue_ptrs r (cons_tail r) k). rewrite Hp. cbn [mbind option_bind].
    eexists. split; [reflexivity|]. done. }
  unfold clamp, moved. destruct (Z.ltb_spec (Z.of_nat (used r)) n) as [Hlt|Hge].
  - destruct behavior.
    + eexists _, _. split; [reflexivity|]. done.
    + destruct (Z.eqb_spec (Z.of_nat (used r)) 0) as [H0|H0].
      * eexists _, _. rewrite Z.min_r by lia. rewrite H0. split; [reflexivity|]. done.
      * destruct (Hgo (Z.of_nat (used r))) as (r' & He & HI' & Hc); [lia|]. exists r', (Z.of_nat (used r)).
        rewrite Z.min_r by lia. done.
  - destruct (Hgo n) as (r' & He & HI' & Hc); [lia|]. exists r', (dequeue_ret n behavior).
    destruct behavior; [|rewrite Z.min_l by lia]; done.
Qed.

(** What the operations leave alone. *)
Definition same_shape (r r' : llring) : Prop := mask r' = mask r /\ slots r' = slots r /\ watermark r' = watermark r.

Lemma enqueue_shape sp r objs n behavior r' ret : do_enqueue sp r objs n behavior = Some (r', ret) -> same_shape r r'.
Proof.
  destruct sp; cbn [do_enqueue]; unfold __llring_sp_do_enqueue, __llring_mp_do_enqueue;
    destruct (clamp _ _ _ _) as [k|k]; try (by intros [= <- <-]);
    destruct (enqueue_ptrs _ _ _ _); cbn [mbind option_bind]; [|done| |done]; [by intros [= <- <-]|].
  destruct (_ =? _); [|done]. by intros [= <- <-].
Qed.

Lemma dequeue_shape sc r n behavior r' out ret : do_dequeue sc r n behavior = Some (r', out, ret) -> same_shape r r'.
Proof.
  destruct sc; cbn [do_dequeue]; unfold __llring_sc_do_dequeue, __llring_mc_do_dequeue;
    destruct (clamp _ _ _ _) as [k|k]; try (by intros [= <- <- <-]);
    destruct (dequeue_ptrs _ _ _); cbn [mbind option_bind]; [|done| |done]; [by intros [= <- <- <-]|].
  destruct (_ =? _); [|done]. by intros [= <- <- <-].
Qed.

(** A ring without a watermark of its own. *)
Definition plain (r : llring) : Prop := Inv r /\ watermark r = slots r.

Lemma plain_enqueue_ret r n behavior : plain r -> 0 <= n <= free_slots r ->
  enqueue_ret r (free_slots r) n behavior = match behavior with LLRING_QUEUE_FIXED => 0 | LLRING_QUEUE_VARIABLE => n end.
Proof.
  intros [HI Hw] Hn. unfold enqueue_ret. rewrite Hw. pose proof (inv_wf r HI) as Hwf.
  pose proof (slots_range r Hwf) as Hs. pose proof (wf_mask r Hwf) as Hm. destruct (used_eq r HI) as (_ & Hle & _).
  unfold free_slots in *. rewrite (wrap_small 32 (mask r + 1)) by (unfold in_word; lia).
  rewrite wrap_small by (unfold in_word; lia). rewrite (proj2 (Z.ltb_ge _ _)) by lia. done.
Qed.

(** The objects and the new ones, and one more, are compared with the watermark. *)
Lemma enqueue_ret_spec r k behavior : Inv r -> 0 <= k <= free_slots r ->
  enqueue_ret r (free_slots r) k behavior =
    if watermark r <=? Z.of_nat (used r) + k
    then match behavior with LLRING_QUEUE_FIXED => - LLRING_ERR_QUOT | LLRING_QUEUE_VARIABLE => k - 2 ^ 31 end
    else match behavior with LLRING_QUEUE_FIXED => 0 | LLRING_QUEUE_VARIABLE => k end.
Proof.
  intros HI Hk. unfold enqueue_ret. pose proof (inv_wf r HI) as Hwf.
  pose proof (slots_range r Hwf) as Hs. pose proof (wf_mask r Hwf) as Hm. destruct (used_eq r HI) as (_ & Hle & _).
  unfold free_slots in *. rewrite (wrap_small 32 (mask r + 1)) by (unfold in_word; lia).
  rewrite wrap_small by (unfold in_word; lia).
  replace (mask r + 1 - (mask r - Z.of_nat (used r)) + k) with (Z.of_nat (used r) + k + 1) by lia.
  assert ((watermark r <? Z.of_nat (used r) + k + 1) = (watermark r <=? Z.of_nat (used r) + k)) as ->
    by (apply eq_true_iff_eq; rewrite Z.ltb_lt, Z.leb_le; lia).
  destruct behavior; [done|]. destruct (_ <=? _); [|done].
  unfold RING_QUOT_EXCEED. rewrite Z.shiftl_1_l.
  assert (Z.land k (2 ^ 31) = 0) as H0.
  { apply Z.bits_inj'. intros i Hi. rewrite Z.land_spec, Z.bits_0, Z.pow2_bits_eqb by lia.
    destruct (Z.eqb_spec 31 i) as [<-|]; [|by rewrite andb_false_r]. rewrite andb_true_r, Z.testbit_false by lia.
    by rewrite Z.div_small by lia. }
  rewrite <- Z.lxor_lor, <- Z.add_nocarry_lxor by done. lia.
Qed.

Lemma plain_enqueue_one sp r obj : plain r ->
  exists r' ret, do_enqueue sp r [obj] 1 LLRING_QUEUE_FIXED = Some (r', ret) /\ plain r' /\ same_shape r r' /\
    if free_slots r =? 0 then ret = - LLRING_ERR_NOBUF /\ contents r' = contents r
    else ret = 0 /\ contents r' = contents r ++ [obj].
Proof.
  intros Hp. pose proof Hp as [HI Hw].
  destruct (enqueue_spec sp r [obj] 1 LLRING_QUEUE_FIXED HI) as (r' & ret & He & HI' & Hm & Hc & Hr); [lia|cbn; lia|].
  pose proof (enqueue_shape _ _ _ _ _ _ _ He) as Hsh. exists r', ret. split; [exact He|].
  split; [split; [done|]; destruct Hsh as (_ & ? & ?); congruence|]. split; [done|].
  rewrite Hr, Hc. unfold moved. destruct (used_eq r HI) as (_ & Hle & _).
  destruct (Z.eqb_spec (free_slots r) 0) as [H0|H0].
  - rewrite (proj2 (Z.ltb_lt _ _)) by lia. split; [done|apply app_nil_r].
  - unfold free_slots in *. rewrite (proj2 (Z.ltb_ge _ _)) by lia. split; [|done].
    change (mask r - Z.of_nat (used r)) with (free_slots r). apply plain_enqueue_ret; [done|unfold free_slots; lia].
Qed.

Lemma plain_enqueue_burst r objs : plain r ->
  let k := Z.min (Z.of_nat (length objs)) (free_slots r) in
  exists r', llring_mp_enqueue_burst r objs (Z.of_nat (length objs)) = Some (r', k) /\ plain r' /\ same_shape r r' /\
    contents r' = contents r ++ take (Z.to_nat k) objs.
Proof.
  intros Hp. pose proof Hp as [HI Hw]. cbn zeta. destruct (used_eq r HI) as (_ & Hle & _).
  destruct (enqueue_spec false r objs (Z.of_nat (length objs)) LLRING_QUEUE_VARIABLE HI) as (r' & ret & He & HI' & Hm & Hc & Hr); [lia|lia|].
  pose proof (enqueue_shape _ _ _ _ _ _ _ He) as Hsh. exists r'.
  assert (ret = Z.min (Z.of_nat (length objs)) (free_slots r)) as ->.
  { rewrite Hr. assert (0 <= free_slots r) by (unfold free_slots; lia). destruct (Z.ltb_spec (free_slots r) (Z.of_nat (length objs))).
    - destruct (Z.eqb_spec (free_slots r) 0); [lia|]. rewrite (plain_enqueue_ret r _ LLRING_QUEUE_VARIABLE) by (done || lia). lia.
    - rewrite (plain_enqueue_ret r _ LLRING_QUEUE_VARIABLE) by (done || lia). lia. }
  split; [exact He|]. split; [split; [done|]; destruct Hsh as (_ & ? & ?); congruence|]. split; [done|].
  by rewrite Hc.
Qed.

Lemma contents_length r : length (contents r) = used r.
Proof. unfold contents. by rewrite length_map, length_seq. Qed.

Lemma plain_dequeue_one sc r : plain r ->
  exists r' out ret, do_dequeue sc r 1 LLRING_QUEUE_FIXED = Some (r', out, ret) /\ plain r' /\ same_shape r r' /\
    match contents r with
    | [] => ret = - LLRING_ERR_NOENT /\ contents r' = []
    | obj :: rest => ret = 0 /\ out = [obj] /\ contents r' = rest
    end.
Proof.
  intros [HI Hw]. destruct (dequeue_spec sc r 1 LLRING_QUEUE_FIXED HI) as (r' & ret & Hd & HI' & Hc & Hr); [lia|].
  pose proof (dequeue_shape _ _ _ _ _ _ _ Hd) as Hsh. eexists r', _, ret. split; [exact Hd|].
  split; [split; [done|]; destruct Hsh as (_ & ? & ?); congruence|]. split; [done|].
  pose proof (contents_length r) as Hl. unfold moved in *. destruct (contents r) as [|obj rest]; cbn [length] in Hl.
  - rewrite <- Hl in *. cbn in Hr, Hc. done.
  - rewrite (proj2 (Z.ltb_ge _ _)) in Hr, Hc |- * by lia. done.
Qed.

Lemma plain_dequeue_burst r n : plain r -> 0 <= n ->
  let k := Z.min n (Z.of_nat (length (contents r))) in
  exists r', llring_sc_dequeue_burst r n = Some (r', take (Z.to_nat k) (contents r), k) /\ plain r' /\ same_shape r r' /\
    contents r' = drop (Z.to_nat k) (contents r).
Proof.
  intros [HI Hw] Hn. cbn zeta. rewrite contents_length.
  destruct (dequeue_spec true r n LLRING_QUEUE_VARIABLE HI Hn) as (r' & ret & Hd & HI' & Hc & Hr).
  pose proof (dequeue_shape _ _ _ _ _ _ _ Hd) as Hsh. exists r'. unfold moved in *.
  assert (ret = Z.min n (Z.of_nat (used r))) as ->.
  { rewrite Hr. cbn [dequeue_ret]. destruct (Z.ltb_spec (Z.of_nat (used r)) n); lia. }
  split; [exact Hd|]. split; [split; [done|]; destruct Hsh as (_ & ? & ?); congruence|]. done.
Qed.

Lemma plain_init n sp sc : (exists p, 0 <= p <= 31 /\ n = 2 ^ p) ->
  exists r, llring_init n sp sc = (0, Some r) /\ plain r /\ slots r = n /\ contents r = [].
Proof.
  intros (p & Hp & Hn). assert (1 <= n <= 2 ^ 31) as Hb.
  { rewrite Hn. split; [|apply Z.pow_le_mono_r; lia]. assert (0 < 2 ^ p) by (apply Z.pow_pos_nonneg; lia). lia. }
  unfold llring_init. rewrite (wrap_small 32 (n - 1)) by (unfold in_word; lia).
  assert (Z.land n (n - 1) = 0) as ->.
  { replace (n - 1) with (Z.ones p) by (rewrite Z.ones_equiv; lia). rewrite Z.land_ones, Hn by lia. apply Z.mod_same. lia. }
  cbn [Z.eqb negb]. eexists. split; [reflexivity|]. split; [|done]. split; [|done].
  split; [|done|done|cbn; unfold in_word; lia|cbn; unfold in_word; lia|cbn; change (0 <= n - 1); lia].
  split; cbn; [by exists p|done|rewrite length_replicate, Z2Nat.id; lia|lia].
Qed.

Lemma llring_enqueue_do r obj : llring_enqueue r obj = do_enqueue (sp_enqueue r) r [obj] 1 LLRING_QUEUE_FIXED.
Proof. unfold llring_enqueue. by destruct (sp_enqueue r). Qed.
Lemma llring_dequeue_do r : llring_dequeue r = do_dequeue (sc_dequeue r) r 1 LLRING_QUEUE_FIXED.
Proof. unfold llring_dequeue. by destruct (sc_dequeue r). Qed.

Lemma plain_count r : plain r -> llring_count r = Z.of_nat (length (contents r)) /\
  Z.of_nat (length (contents r)) + free_slots r = slots r - 1 /\ 0 <= free_slots r.
Proof.
  intros [HI Hw]. rewrite contents_length. pose proof (inv_wf r HI) as Hwf. pose proof (slots_range r Hwf) as Hs.
  destruct (used_eq r HI) as (Hu & Hle & _). pose proof (wf_mask r Hwf) as Hm. unfold llring_count, free_slots.
  split; [|lia]. rewrite land_mask, <- Hu by done. apply Z.mod_small. lia.
Qed.

Lemma ring_empty_spec r : Inv r -> llring_empty r = bool_decide (contents r = []).
Proof.
  intros HI. pose proof (contents_length r) as Hl. destruct (used_eq r HI) as (Hu & _). unfold llring_empty.
  apply eq_iff_eq_true. rewrite Z.eqb_eq, bool_decide_eq_true. rewrite <- length_zero_iff_nil, Hl. split.
  - intros He. rewrite He, Z.sub_diag in Hu. change (u32 0) with 0 in Hu. lia.
  - intros H0. rewrite H0 in Hu. pose proof (inv_prod_word r HI). pose proof (inv_cons_word r HI).
    unfold wrap, in_word in *. zlia.
Qed.

Lemma free_count_spec r : Inv r -> llring_free_count r = free_slots r.
Proof.
  intros HI. pose proof (inv_wf r HI) as Hw. destruct (used_eq r HI) as (Hu & Hle & _).
  pose proof (slots_range r Hw) as Hs. pose proof (wf_mask r Hw) as Hm. unfold llring_free_count.
  rewrite land_mask, u32_mod_slots by done. unfold free_slots.
  replace (cons_tail r - prod_tail r - 1) with (mask r - (prod_tail r - cons_tail r) + (-1) * slots r) by lia.
  rewrite Z.mod_add, Zminus_mod, <- (u32_mod_slots r (prod_tail r - cons_tail r)), <- Hu by (done || lia).
  rewrite !Z.mod_small by (rewrite ?Z.mod_small; lia). done.
Qed.

Lemma ring_full_spec r : Inv r -> llring_full r = (free_slots r =? 0).
Proof. intros HI. by rewrite <- free_count_spec. Qed.
End Ring.
Arguments llring : clear implicits.

(** ** Properties *)

(** C25: run by one thread at a time, a ring is a bounded queue of [mask] objects.  A
    bulk operation moves all objects or none, a burst as many as it can; the oldest
    leave first.  Bulk operations answer 0, or -LLRING_ERR_NOBUF or -LLRING_ERR_NOENT and move nothing;
    bursts answer the number moved.  When the objects in the ring, the new ones included, have reached the watermark
    -- one fewer than the comment at llring.h:231 says, which calls it the maximum before LLRING_ERR_QUOT --
    an enqueue still moves them, but the bulk answer is -LLRING_ERR_QUOT and a burst answers the number with the bit
    RING_QUOT_EXCEED set, as an int 2^31 less than the number.  This holds across the wrap-around of slots
    and of the 32-bit counters. *)
Theorem llring_refines_queue {T} (null : T) r objs n behavior :
  Inv r -> 0 <= n -> n <= Z.of_nat (length objs) ->
  let used := Z.of_nat (length (contents null r)) in
  let free := mask r - used in
  let enqueue := match behavior with LLRING_QUEUE_FIXED => llring_enqueue_bulk
                 | LLRING_QUEUE_VARIABLE => llring_enqueue_burst end in
  let dequeue := match behavior with LLRING_QUEUE_FIXED => llring_dequeue_bulk
                 | LLRING_QUEUE_VARIABLE => llring_dequeue_burst end in
  let fits k avail := match behavior with
    | LLRING_QUEUE_FIXED => if avail <? n then k = 0 else k = n
    | LLRING_QUEUE_VARIABLE => k = Z.min n avail end in
  (exists r' ret k, enqueue r objs n = Some (r', ret) /\ Inv r' /\ mask r' = mask r /\ fits k free /\
     contents null r' = contents null r ++ take (Z.to_nat k) objs /\
     ret = match behavior with
           | LLRING_QUEUE_FIXED =>
               if free <? n then - LLRING_ERR_NOBUF
               else if watermark r <=? used + n then - LLRING_ERR_QUOT else 0
           | LLRING_QUEUE_VARIABLE =>
               if (free =? 0) && (0 <? n) then 0
               else if watermark r <=? used + k then k - 2 ^ 31 else k
           end) /\
  (exists r' out ret, dequeue r n = Some (r', out, ret) /\ Inv r' /\ fits (Z.of_nat (length out)) used /\
     contents null r = out ++ contents null r' /\
     ret = match behavior with
           | LLRING_QUEUE_FIXED => if used <? n then - LLRING_ERR_NOENT else 0
           | LLRING_QUEUE_VARIABLE => Z.of_nat (length out)
           end) /\
  llring_count r = used /\
  llring_free_count r = free /\
  llring_empty r = bool_decide (contents null r = []) /\
  llring_full r = (free =? 0).
Proof.
  intros HI Hn Ho. assert (Hlen : length (contents null r) = used r)
    by (unfold contents; by rewrite length_map, length_seq).
  cbn zeta. rewrite Hlen. change (mask r - Z.of_nat (used r)) with (free_slots r).
  pose proof (inv_wf r HI) as Hw. destruct (used_eq r HI) as (Hu & Hle & _).
  pose proof (slots_range r Hw) as Hs. pose proof (wf_mask r Hw) as Hm.
  assert (0 <= free_slots r) as Hfree by (unfold free_slots; lia).
  split; [|split; [|split; [|split; [|split]]]].
  - destruct (enqueue_spec null (sp_enqueue r) r objs n behavior HI Hn Ho) as (r' & ret & He & HI' & Hm' & Hc & Hr).
    exists r', ret, (moved n (free_slots r) behavior).
    split; [unfold llring_enqueue_bulk, llring_enqueue_burst; destruct behavior, (sp_enqueue r); exact He|].
    do 2 (split; [done|]). split; [|split; [done|]]; rewrite ?Hr; unfold moved; destruct behavior;
      destruct (Z.ltb_spec (free_slots r) n); try done; try lia.
    + by rewrite enqueue_ret_spec by (done || lia).
    + rewrite (proj2 (Z.ltb_lt 0 n)), andb_true_r by lia. destruct (_ =? 0); [done|].
      rewrite enqueue_ret_spec, Z.min_r by (done || lia). done.
    + rewrite enqueue_ret_spec, Z.min_l by (done || lia).
      destruct (Z.eqb_spec (free_slots r) 0), (Z.ltb_spec 0 n); cbn [andb]; done || lia.
  - destruct (dequeue_spec null (sc_dequeue r) r n behavior HI Hn) as (r' & ret & Hd & HI' & Hc & Hret).
    eexists r', _, ret. split; [unfold llring_dequeue_bulk, llring_dequeue_burst; destruct behavior, (sc_dequeue r); exact Hd|].
    split; [done|]. rewrite length_take, Hlen, Hc, take_drop, Hret. unfold moved. split; [|split; [done|]];
      destruct behavior; destruct (Z.ltb_spec (Z.of_nat (used r)) n); cbn [dequeue_ret]; done || lia.
  - unfold llring_count. rewrite land_mask, <- Hu by done. apply Z.mod_small. lia.
  - by apply free_count_spec.
  - by apply ring_empty_spec.
  - by apply ring_full_spec.
Qed.

(** A ring of four slots whose counters are about to wrap around. *)
Definition ex_ring : llring Z :=
  Ring 4 3 true false 4 (2 ^ 32 - 2) (2 ^ 32 - 2) (2 ^ 32 - 3) (2 ^ 32 - 3) [10; 11; 12; 13].

Lemma ex_ring_Inv : Inv ex_ring.
Proof.
  split; [|reflexivity|reflexivity|split; vm_compute; congruence|split; vm_compute; congruence|vm_compute; congruence].
  split; [by exists 2|reflexivity|reflexivity|split; vm_compute; congruence].
Qed.

Lemma llring_refines_queue_witness :
  llring_enqueue_burst ex_ring [1; 2; 3] 3 =
    Some (Ring 4 3 true false 4 0 0 (2 ^ 32 - 3) (2 ^ 32 - 3) [10; 11; 1; 2], 2) /\
  exists r' ret, llring_enqueue_burst ex_ring [1; 2; 3] 3 = Some (r', ret) /\ contents 0 r' = [11; 1; 2].
Proof.
  split; [vm_compute; reflexivity|].
  destruct (llring_refines_queue 0 ex_ring [1; 2; 3] 3 LLRING_QUEUE_VARIABLE ex_ring_Inv) as [(r' & ret & k & He & _ & _ & Hk & Hc & _) _];
    [lia|cbn; lia|].
  exists r', ret. split; [exact He|]. rewrite Hc, Hk. vm_compute. reflexivity.
Defined.
