(* ===== verification/LLRingMP.v ===== *)
(** The lock-less ring used by several producers and consumers at once: the
    [__llring_mp_do_enqueue] and [__llring_mc_do_dequeue] of [core/kmod/llring.h] as a
    step relation.

    Every read or write of a shared counter or slot is a step of one thread, in any
    interleaving of the threads; stores become visible in program order, as on the
    x86 targets of the source.  The state carries, beside the ring, what an observer
    counts: the number of objects reserved and released so far, without wrap-around,
    and what was put in and taken out. *)
From S2P Require Import Prelude LLRing.

Section MP.
Context {T : Type}.

(** A call in progress, by where it is.  [h] is the head the thread read (a 32-bit
    counter) and [gh] how many objects had been reserved then. *)
Inductive pc :=
| Idle
(* __llring_mp_do_enqueue *)
| EnqHead (objs : list T) (n : Z) (b : llring_queue_behavior)
| EnqTail (objs : list T) (n : Z) (b : llring_queue_behavior) (h gh : Z)
| EnqCas (objs : list T) (n : Z) (b : llring_queue_behavior) (h gh free k : Z)
| EnqWrite (objs : list T) (b : llring_queue_behavior) (h gh free k : Z) (i : nat)
(* __llring_mc_do_dequeue *)
| DeqHead (n : Z) (b : llring_queue_behavior)
| DeqTail (n : Z) (b : llring_queue_behavior) (h gh : Z)
| DeqCas (n : Z) (b : llring_queue_behavior) (h gh k : Z)
| DeqCopy (b : llring_queue_behavior) (h gh k : Z) (out : list T)
(* the value returned *)
| Returned (ret : Z).

Record state := State {
  r : llring T;
  threads : list pc;
  P : Z; Pt : Z; C : Z; Ct : Z;
  put_in : list T;
  taken : list T }.

Definition with_pc (s : state) (t : nat) (c : pc) : state :=
  State (r s) (<[t := c]> (threads s)) (P s) (Pt s) (C s) (Ct s) (put_in s) (taken s).

(** Stores to the shared members. *)
Definition store_prod_head (s : state) (k v : Z) (objs : list T) : state :=
  State (set_prod (r s) v (prod_tail (r s)) (ring (r s))) (threads s) (P s + k) (Pt s) (C s) (Ct s)
    (put_in s ++ objs) (taken s).
Definition store_prod_tail (s : state) (k v : Z) : state :=
  State (set_prod (r s) (prod_head (r s)) v (ring (r s))) (threads s) (P s) (Pt s + k) (C s) (Ct s)
    (put_in s) (taken s).
Definition store_cons_head (s : state) (k v : Z) : state :=
  State (set_cons (r s) v (cons_tail (r s))) (threads s) (P s) (Pt s) (C s + k) (Ct s) (put_in s) (taken s).
Definition store_cons_tail (s : state) (k v : Z) (out : list T) : state :=
  State (set_cons (r s) (cons_head (r s)) v) (threads s) (P s) (Pt s) (C s) (Ct s + k)
    (put_in s) (taken s ++ out).
Definition store_slot (s : state) (idx : nat) (o : T) : state :=
  State (set_prod (r s) (prod_head (r s)) (prod_tail (r s)) (<[idx := o]> (ring (r s)))) (threads s)
    (P s) (Pt s) (C s) (Ct s) (put_in s) (taken s).

(** [llring_atomic32_cmpset] succeeds if the counter still has the value that was read. *)
Definition cmpset (dst exp : Z) : bool := dst =? exp.

(** The slot the copy loops of both branches of the macros use for object [i]. *)
Definition idx_of (s : state) (h : Z) (i : nat) : nat :=
  Z.to_nat (Z.land (u32 (h + Z.of_nat i)) (mask (r s))).

(** The next step of thread [t]; a thread that waits stays where it is. *)
Definition advance (s : state) (t : nat) : option state :=
  c ← threads s !! t;
  match c with
  | Idle | Returned _ => None
  | EnqHead objs n b => Some (with_pc s t (EnqTail objs n b (prod_head (r s)) (P s)))
  | EnqTail objs n b h gh =>
      let free_entries := u32 (mask (r s) + cons_tail (r s) - h) in
      Some (with_pc s t
        match clamp n free_entries LLRING_ERR_NOBUF b with
        | inl ret => Returned ret
        | inr k => EnqCas objs n b h gh free_entries k
        end)
  | EnqCas objs n b h gh free k =>
      if cmpset (prod_head (r s)) h then
        Some (with_pc (store_prod_head s k (u32 (h + k)) (take (Z.to_nat k) objs)) t (EnqWrite objs b h gh free k 0))
      else Some (with_pc s t (EnqHead objs n b))
  | EnqWrite objs b h gh free k i =>
      if (i <? Z.to_nat k)%nat then
        o ← objs !! i;
        if (idx_of s h i <? length (ring (r s)))%nat then
          Some (with_pc (store_slot s (idx_of s h i) o) t (EnqWrite objs b h gh free k (S i)))
        else None
      else if prod_tail (r s) =? h then
        Some (with_pc (store_prod_tail s k (u32 (h + k))) t (Returned (enqueue_ret (r s) free k b)))
      else Some s
  | DeqHead n b => Some (with_pc s t (DeqTail n b (cons_head (r s)) (C s)))
  | DeqTail n b h gh =>
      let entries := u32 (prod_tail (r s) - h) in
      Some (with_pc s t
        match clamp n entries LLRING_ERR_NOENT b with
        | inl ret => Returned ret
        | inr k => DeqCas n b h gh k
        end)
  | DeqCas n b h gh k =>
      if cmpset (cons_head (r s)) h then
        Some (with_pc (store_cons_head s k (u32 (h + k))) t (DeqCopy b h gh k []))
      else Some (with_pc s t (DeqHead n b))
  | DeqCopy b h gh k out =>
      if (length out <? Z.to_nat k)%nat then
        o ← ring (r s) !! idx_of s h (length out);
        Some (with_pc s t (DeqCopy b h gh k (out ++ [o])))
      else if cons_tail (r s) =? h then
        Some (with_pc (store_cons_tail s k (u32 (h + k)) out) t (Returned (dequeue_ret k b)))
      else Some s
  end.

(** A call: of at least one object, that the caller's array has. *)
Inductive call_ok : pc -> Prop :=
| call_enq objs n b : 0 < n <= Z.of_nat (length objs) -> call_ok (EnqHead objs n b)
| call_deq n b : 0 < n -> call_ok (DeqHead n b).

(** A thread that is not in a call starts one, or one that is makes a step. *)
Inductive step (s : state) : state -> Prop :=
| step_call t c c' : threads s !! t = Some c -> (c = Idle \/ exists ret, c = Returned ret) -> call_ok c' ->
    step s (with_pc s t c')
| step_advance t s' : advance s t = Some s' -> step s s'.

(** Between the read of a head and the compare-and-swap of it, fewer than 2^32 objects
    pass: otherwise the 32-bit counter may have come round to the value read. *)
Definition fresh (s : state) (c : pc) : Prop :=
  match c with
  | EnqTail _ _ _ _ gh | EnqCas _ _ _ _ gh _ _ => P s - gh < 2 ^ 32
  | DeqTail _ _ _ gh | DeqCas _ _ _ gh _ => C s - gh < 2 ^ 32
  | _ => True
  end.
Definition timely (s : state) : Prop := Forall (fresh s) (threads s).

Inductive steps : state -> state -> Prop :=
| steps_refl s : steps s s
| steps_step s s1 s2 : timely s -> step s s1 -> steps s1 s2 -> steps s s2.

(** Threads that do nothing yet, on an empty ring. *)
Definition init (r : llring T) (n : nat) : state := State r (replicate n Idle) 0 0 0 0 [] [].
End MP.
Arguments pc : clear implicits.
Arguments state : clear implicits.

(** ** Intervals of positions held by threads *)

Section Tiling.
Context {A : Type} (iv : A -> option (Z * Z)).

(** The intervals of the threads are not empty, do not overlap and cover [lo, hi). *)
Record tiling (lo hi : Z) (l : list A) : Prop := {
  t_in : forall t c g k, l !! t = Some c -> iv c = Some (g, k) -> lo <= g /\ 0 < k /\ g + k <= hi;
  t_disjoint : forall t c g k t' c' g' k', l !! t = Some c -> iv c = Some (g, k) ->
    l !! t' = Some c' -> iv c' = Some (g', k') -> t <> t' -> g + k <= g' \/ g' + k' <= g;
  t_cover : forall p, lo <= p < hi -> exists t c g k, l !! t = Some c /\ iv c = Some (g, k) /\ g <= p < g + k }.

Lemma lookup_insert_cases (l : list A) t c t' c' : <[t := c]> l !! t' = Some c' ->
  (t' = t /\ c' = c /\ (t < length l)%nat) \/ (t' <> t /\ l !! t' = Some c').
Proof.
  destruct (decide (t' = t)) as [->|Hne].
  - intros H. pose proof (lookup_lt_Some _ _ _ H) as Hlt. rewrite length_insert in Hlt.
    rewrite list_lookup_insert_eq in H by done. injection H as <-. by left.
  - rewrite list_lookup_insert_ne by done. by right.
Qed.

Lemma tiling_same lo hi l t c c' : tiling lo hi l -> l !! t = Some c -> iv c' = iv c ->
  tiling lo hi (<[t := c']> l).
Proof.
  intros [H1 H2 H3] Ht Hiv.
  assert (Hget : forall t1 c1, <[t := c']> l !! t1 = Some c1 -> exists c0, l !! t1 = Some c0 /\ iv c1 = iv c0).
  { intros t1 c1 [(-> & -> & _)|[_ H]]%lookup_insert_cases; eauto. }
  split.
  - intros t1 c1 g k (c0 & Hc0 & ->)%Hget Hi. by eapply H1.
  - intros t1 c1 g k t2 c2 g' k' (c3 & Hc3 & ->)%Hget Hi1 (c4 & Hc4 & ->)%Hget Hi2. by eapply H2.
  - intros p Hp. destruct (H3 p Hp) as (t1 & c1 & g & k & Hc & Hi & Hr).
    destruct (decide (t1 = t)) as [->|Hne].
    + exists t, c', g, k. rewrite list_lookup_insert_eq by (by eapply lookup_lt_Some).
      split; [done|]. split; [congruence|done].
    + exists t1, c1, g, k. by rewrite list_lookup_insert_ne.
Qed.

(** A thread takes the next [k] positions. *)
Lemma tiling_add lo hi l t c c' k : tiling lo hi l -> lo <= hi -> l !! t = Some c -> iv c = None ->
  iv c' = Some (hi, k) -> 0 < k -> tiling lo (hi + k) (<[t := c']> l).
Proof.
  intros [H1 H2 H3] Hlh Ht Hc Hc' Hk. split.
  - intros t1 c1 g k1 [(-> & -> & _)|[_ H]]%lookup_insert_cases Hi.
    + rewrite Hc' in Hi. injection Hi as <- <-. lia.
    + specialize (H1 t1 c1 g k1 H Hi). lia.
  - intros t1 c1 g1 k1 t2 c2 g2 k2 Hl1 Hi1 Hl2 Hi2 Hne.
    apply lookup_insert_cases in Hl1 as [(-> & -> & _)|[Hn1 Hl1]];
      apply lookup_insert_cases in Hl2 as [(-> & -> & _)|[Hn2 Hl2]]; [done| | |exact (H2 t1 c1 g1 k1 t2 c2 g2 k2 Hl1 Hi1 Hl2 Hi2 Hne)].
    + rewrite Hc' in Hi1. injection Hi1 as <- <-. right. apply (H1 t2 c2 g2 k2 Hl2 Hi2).
    + rewrite Hc' in Hi2. injection Hi2 as <- <-. left. apply (H1 t1 c1 g1 k1 Hl1 Hi1).
  - intros p Hp. destruct (Z.lt_ge_cases p hi) as [Hlt|Hge].
    + destruct (H3 p) as (t1 & c1 & g & k1 & Hl & Hi & Hr); [lia|]. exists t1, c1, g, k1.
      rewrite list_lookup_insert_ne; [done|]. intros <-. congruence.
    + exists t, c', hi, k. rewrite list_lookup_insert_eq by (by eapply lookup_lt_Some). split; [done|].
      split; [done|lia].
Qed.

(** The thread that holds the first positions gives them up. *)
Lemma tiling_done lo hi l t c c' k : tiling lo hi l -> l !! t = Some c -> iv c = Some (lo, k) ->
  iv c' = None -> tiling (lo + k) hi (<[t := c']> l).
Proof.
  intros [H1 H2 H3] Ht Hc Hc'. split.
  - intros t1 c1 g k1 [(-> & -> & _)|[Hne H]]%lookup_insert_cases Hi; [congruence|].
    pose proof (H1 t1 c1 g k1 H Hi). pose proof (H1 t c lo k Ht Hc).
    destruct (H2 t1 c1 g k1 t c lo k H Hi Ht Hc Hne); lia.
  - intros t1 c1 g1 k1 t2 c2 g2 k2 Hl1 Hi1 Hl2 Hi2 Hne.
    apply lookup_insert_cases in Hl1 as [(-> & -> & _)|[Hn1 Hl1]]; [congruence|].
    apply lookup_insert_cases in Hl2 as [(-> & -> & _)|[Hn2 Hl2]]; [congruence|].
    exact (H2 t1 c1 g1 k1 t2 c2 g2 k2 Hl1 Hi1 Hl2 Hi2 Hne).
  - intros p Hp. pose proof (H1 t c lo k Ht Hc).
    destruct (H3 p) as (t1 & c1 & g & k1 & Hl & Hi & Hr); [lia|]. exists t1, c1, g, k1.
    rewrite list_lookup_insert_ne; [done|]. intros <-. rewrite Ht in Hl. injection Hl as <-.
    rewrite Hc in Hi. injection Hi as <- <-. lia.
Qed.

Lemma tiling_none n c : iv c = None -> tiling 0 0 (replicate n c).
Proof.
  intros Hc. split.
  - intros t c' g k [-> _]%lookup_replicate. congruence.
  - intros t c' g k t' c'' g' k' [-> _]%lookup_replicate. congruence.
  - lia.
Qed.
End Tiling.

(** ** The invariant *)

Section Inv.
Context {T : Type}.
Implicit Types (s : state T) (c : pc T).

Definition enq_iv c : option (Z * Z) :=
  match c with EnqWrite _ _ _ gh _ k _ => Some (gh, k) | _ => None end.
Definition deq_iv c : option (Z * Z) :=
  match c with DeqCopy _ _ gh k _ => Some (gh, k) | _ => None end.

(** Position [p] holds object [p] of what was put in. *)
Definition filled s (p : Z) : Prop := ring (r s) !! slot_of (r s) p = put_in s !! Z.to_nat p.

Definition thr_ok s c : Prop :=
  match c with
  | Idle | Returned _ => True
  | EnqHead objs n _ => 0 < n <= Z.of_nat (length objs)
  | EnqTail objs n _ h gh => 0 < n <= Z.of_nat (length objs) /\ h = u32 gh /\ 0 <= gh <= P s
  | EnqCas objs n _ h gh _ k => 0 < n <= Z.of_nat (length objs) /\ h = u32 gh /\ 0 <= gh <= P s /\
      0 < k <= n /\ (gh = P s -> k <= mask (r s) + Ct s - P s)
  | EnqWrite objs _ h gh _ k i => h = u32 gh /\ 0 <= gh /\ k <= Z.of_nat (length objs) /\ Z.of_nat i <= k /\
      (forall j, Z.of_nat j < k -> put_in s !! (Z.to_nat gh + j)%nat = objs !! j) /\
      (forall j, (j < i)%nat -> filled s (gh + Z.of_nat j))
  | DeqHead n _ => 0 < n
  | DeqTail n _ h gh => 0 < n /\ h = u32 gh /\ 0 <= gh <= C s
  | DeqCas n _ h gh k => 0 < n /\ h = u32 gh /\ 0 <= gh <= C s /\ 0 < k <= n /\ (gh = C s -> k <= Pt s - C s)
  | DeqCopy _ h gh k out => h = u32 gh /\ 0 <= gh /\ Z.of_nat (length out) <= k /\
      (forall j o, out !! j = Some o -> put_in s !! (Z.to_nat gh + j)%nat = Some o)
  end.

Record MInv s : Prop := {
  m_wf : LLRing.wf (r s);
  m_prod_head : prod_head (r s) = u32 (P s);
  m_prod_tail : prod_tail (r s) = u32 (Pt s);
  m_cons_head : cons_head (r s) = u32 (C s);
  m_cons_tail : cons_tail (r s) = u32 (Ct s);
  m_order : 0 <= Ct s <= C s /\ C s <= Pt s <= P s /\ P s <= Ct s + mask (r s);
  m_put : Z.of_nat (length (put_in s)) = P s;
  m_taken : taken s = take (Z.to_nat (Ct s)) (put_in s);
  m_filled : forall p, Ct s <= p < Pt s -> filled s p;
  m_threads : forall t c, threads s !! t = Some c -> thr_ok s c;
  m_enq : tiling enq_iv (Pt s) (P s) (threads s);
  m_deq : tiling deq_iv (Ct s) (C s) (threads s) }.

(** A step that only extends what the threads know about. *)
Record extends s s' : Prop := {
  e_ring : mask (r s') = mask (r s) /\ slots (r s') = slots (r s);
  e_P : P s <= P s';
  e_Pt : Pt s <= Pt s';
  e_C : C s <= C s';
  e_Ct : Ct s <= Ct s';
  e_put : put_in s `prefix_of` put_in s' }.

Lemma prefix_lookup_ge (l l' : list T) i o : l `prefix_of` l' -> l !! i = Some o -> l' !! i = Some o.
Proof. intros [k ->] H. by apply lookup_app_l_Some. Qed.

Lemma thr_ok_extends s s' c : extends s s' ->
  (forall objs b h gh free k i j, c = EnqWrite objs b h gh free k i -> (j < i)%nat ->
     filled s (gh + Z.of_nat j) -> filled s' (gh + Z.of_nat j)) ->
  thr_ok s c -> thr_ok s' c.
Proof.
  intros [[Hm Hs] HP HPt HC HCt Hput] Hfill. destruct c; cbn [thr_ok]; try done.
  - intros (? & ? & ?). split; [done|]. split; [done|lia].
  - intros (? & ? & ? & ? & Hk). rewrite Hm. split; [done|]. split; [done|]. split; [lia|].
    split; [lia|]. intros ->. specialize (Hk ltac:(lia)). lia.
  - intros (? & ? & ? & ? & Hobj & Hf). do 4 (split; [done|]). split.
    + intros j Hj. rewrite <- Hobj by done. destruct (put_in s !! (Z.to_nat gh + j)%nat) as [o|] eqn:Ho.
      * by eapply prefix_lookup_ge.
      * rewrite Hobj in Ho by done. apply lookup_ge_None in Ho. lia.
    + intros j Hj. eapply Hfill; [done|done|]. by apply Hf.
  - intros (? & ? & ?). split; [done|]. split; [done|lia].
  - intros (? & ? & ? & ? & Hk). split; [done|]. split; [done|]. split; [lia|].
    split; [lia|]. intros ->. specialize (Hk ltac:(lia)). lia.
  - intros (? & ? & ? & Ho). do 3 (split; [done|]). intros j o Hj. eapply prefix_lookup_ge; [done|]. by apply Ho.
Qed.

(** Positions less than a round apart have different slots. *)
Lemma slot_of_inj (q : llring T) p p' : LLRing.wf q -> Z.abs (p - p') < slots q -> slot_of q p = slot_of q p' -> p = p'.
Proof.
  intros Hw Hd Hs. pose proof (slots_range q Hw). unfold slot_of in Hs.
  pose proof (Z.mod_pos_bound p (slots q) ltac:(lia)). pose proof (Z.mod_pos_bound p' (slots q) ltac:(lia)).
  assert (p mod slots q = p' mod slots q) as Hm by lia.
  pose proof (Z.div_mod p (slots q) ltac:(lia)). pose proof (Z.div_mod p' (slots q) ltac:(lia)).
  assert (p - p' = slots q * (p / slots q - p' / slots q)) as Heq by lia.
  destruct (Z.eq_dec (p / slots q) (p' / slots q)) as [He|He]; [lia|]. nia.
Qed.

Lemma wrap_eq_near x y : u32 x = u32 y -> Z.abs (x - y) < 2 ^ 32 -> x = y.
Proof. unfold wrap. intros. zlia. Qed.

Lemma u32_sub (x y z : Z) : 0 <= z + x - y < 2 ^ 32 -> u32 (z + u32 x - u32 y) = z + x - y.
Proof.
  intros H. unfold wrap. rewrite Zminus_mod_idemp_r, Zminus_mod, Zplus_mod_idemp_r, <- Zminus_mod.
  by apply Z.mod_small.
Qed.

Lemma idx_of_slot s gh i : LLRing.wf (r s) -> idx_of s (u32 gh) i = slot_of (r s) (gh + Z.of_nat i).
Proof.
  intros Hw. unfold idx_of, slot_of. rewrite land_mask, wrap_sum, u32_mod_slots by done. done.
Qed.

Lemma clamp_inr n avail err b k : 0 < n -> 0 <= avail -> clamp n avail err b = inr k -> 0 < k <= n /\ k <= avail.
Proof.
  intros Hn Ha. unfold clamp. destruct (Z.ltb_spec avail n).
  - destruct b; [done|]. destruct (Z.eqb_spec avail 0); [done|]. intros [= <-]. lia.
  - intros [= <-]. lia.
Qed.

(** *** Steps keep the invariant *)

(** A step that changes nothing but where the thread is. *)
Lemma MInv_pc s t c c' : MInv s -> threads s !! t = Some c -> thr_ok s c' ->
  enq_iv c' = enq_iv c -> deq_iv c' = deq_iv c -> MInv (with_pc s t c').
Proof.
  intros [] Ht Hok He Hd. split; try done.
  - intros t1 c1 [(-> & -> & _)|[_ H]]%lookup_insert_cases; [done|by eapply m_threads0].
  - by eapply tiling_same.
  - by eapply tiling_same.
Qed.

Lemma prod_cas_step s t objs n b h gh free k : MInv s -> threads s !! t = Some (EnqCas objs n b h gh free k) ->
  P s - gh < 2 ^ 32 -> prod_head (r s) = h ->
  MInv (with_pc (store_prod_head s k (u32 (h + k)) (take (Z.to_nat k) objs)) t (EnqWrite objs b h gh free k 0)).
Proof.
  intros HI Ht Hfresh Hcas. pose proof (m_threads s HI t _ Ht) as (Hn & -> & Hgh & Hk & Hroom).
  rewrite (m_prod_head s HI) in Hcas. apply wrap_eq_near in Hcas; [|lia]. subst gh. specialize (Hroom eq_refl).
  pose proof (m_order s HI) as (Ho1 & Ho2 & Ho3). pose proof (m_put s HI) as Hput.
  set (s' := store_prod_head _ _ _ _).
  assert (He : extends s s').
  { split; cbn; [done|lia|lia|lia|lia|by eexists]. }
  assert (Hfilled : forall p, p < P s -> 0 <= p -> filled s p -> filled s' p).
  { intros p Hp Hp0. unfold filled. cbn. rewrite lookup_app_l by lia. done. }
  split; try apply HI.
  - by destruct (m_wf s HI).
  - cbn. by rewrite wrap_sum.
  - cbn. lia.
  - cbn. rewrite length_app, length_take. lia.
  - cbn. rewrite (m_taken s HI), take_app_le; [done|lia].
  - cbn. intros p Hp. apply Hfilled; [lia|lia|]. by apply (m_filled s HI).
  - intros t1 c1 [(-> & -> & _)|[_ H]]%lookup_insert_cases.
    + cbn. split; [done|]. split; [lia|]. split; [lia|]. split; [lia|]. split; [|intros; lia].
      intros j Hj. rewrite lookup_app_r by lia. replace (Z.to_nat (P s) + j - length (put_in s))%nat with j by lia.
      apply lookup_take_lt. lia.
    + apply (thr_ok_extends s); [by destruct He; split| |by apply (m_threads s HI t1)].
      intros objs' b' h' gh' free' k' i j -> Hj. cbn [with_pc] in H.
      destruct (m_threads s HI t1 _ H) as (_ & ? & _ & Hi & _).
      pose proof (t_in _ _ _ _ (m_enq s HI) t1 _ gh' k' H eq_refl). apply Hfilled; lia.
  - cbn. eapply (tiling_add enq_iv); [apply (m_enq s HI)|lia|exact Ht|done|done|lia].
  - cbn. eapply tiling_same; [apply (m_deq s HI)|exact Ht|done].
Qed.

Lemma prod_write_step s t objs b h gh free k i o : MInv s ->
  threads s !! t = Some (EnqWrite objs b h gh free k i) -> Z.of_nat i < k -> objs !! i = Some o ->
  MInv (with_pc (store_slot s (idx_of s h i) o) t (EnqWrite objs b h gh free k (S i))).
Proof.
  intros HI Ht Hi Ho. pose proof (m_threads s HI t _ Ht) as (-> & Hgh & Hkl & Hik & Hobj & Hfill).
  pose proof (m_wf s HI) as Hw. pose proof (wf_mask (r s) Hw) as Hm. rewrite idx_of_slot by done.
  pose proof (m_order s HI) as (Ho1 & Ho2 & Ho3).
  pose proof (t_in _ _ _ _ (m_enq s HI) t _ gh k Ht eq_refl) as Hin.
  set (q := gh + Z.of_nat i). pose proof (slot_of_lt (r s) q Hw) as Hlt. set (s' := store_slot _ _ _).
  assert (Hkeep : forall p, p <> q -> Ct s <= p < P s -> filled s p -> filled s' p).
  { intros p Hne Hp Hf. unfold filled in *. cbn [s' store_slot r ring put_in set_prod].
    change (slot_of (r s') p) with (slot_of (r s) p). rewrite list_lookup_insert_ne; [done|].
    intros Heq. apply Hne. apply (slot_of_inj (r s)); [done|lia|done]. }
  assert (Hnew : filled s' q).
  { unfold filled. cbn [s' store_slot r ring put_in set_prod]. change (slot_of (r s') q) with (slot_of (r s) q).
    rewrite list_lookup_insert_eq by done. rewrite <- Ho, <- Hobj by done. f_equal. lia. }
  split; try apply HI.
  - destruct Hw as [H1 H2 H3 H4]. split; try done. cbn. by rewrite length_insert.
  - intros p Hp. cbn in Hp. apply Hkeep; [lia|lia|]. by apply (m_filled s HI).
  - intros t1 c1 [(-> & -> & _)|[Hne H]]%lookup_insert_cases.
    + cbn. do 4 (split; [done || lia|]). split; [done|]. intros j Hj.
      destruct (decide (j = i)) as [->|Hji]; [exact Hnew|]. apply Hkeep; [lia|lia|]. apply Hfill. lia.
    + apply (thr_ok_extends s); [by split| |by apply (m_threads s HI t1)].
      intros objs' b' h' gh' free' k' i' j -> Hj. cbn [with_pc store_slot threads] in H.
      destruct (m_threads s HI t1 _ H) as (_ & ? & _ & Hi' & _).
      pose proof (t_in _ _ _ _ (m_enq s HI) t1 _ gh' k' H eq_refl).
      pose proof (t_disjoint _ _ _ _ (m_enq s HI) t _ gh k t1 _ gh' k' Ht eq_refl H eq_refl ltac:(done)).
      apply Hkeep; lia.
  - eapply tiling_same; [apply (m_enq s HI)|exact Ht|done].
  - eapply tiling_same; [apply (m_deq s HI)|exact Ht|done].
Qed.

Lemma prod_tail_step s t objs b h gh free k i ret : MInv s ->
  threads s !! t = Some (EnqWrite objs b h gh free k i) -> k <= Z.of_nat i -> prod_tail (r s) = h ->
  MInv (with_pc (store_prod_tail s k (u32 (h + k))) t (Returned ret)).
Proof.
  intros HI Ht Hi Htail. pose proof (m_threads s HI t _ Ht) as (-> & Hgh & Hkl & Hik & Hobj & Hfill).
  pose proof (m_order s HI) as (Ho1 & Ho2 & Ho3). pose proof (slots_range (r s) (m_wf s HI)) as Hs.
  pose proof (wf_mask (r s) (m_wf s HI)) as Hm.
  pose proof (t_in _ _ _ _ (m_enq s HI) t _ gh k Ht eq_refl) as Hin.
  rewrite (m_prod_tail s HI) in Htail. apply wrap_eq_near in Htail; [|lia]. subst gh.
  set (s' := store_prod_tail _ _ _).
  split; try apply HI.
  - by destruct (m_wf s HI).
  - cbn. by rewrite wrap_sum.
  - cbn. lia.
  - intros p Hp. cbn in Hp. change (filled s p). destruct (Z.lt_ge_cases p (Pt s)); [apply (m_filled s HI); lia|].
    replace p with (Pt s + Z.of_nat (Z.to_nat (p - Pt s))) by lia. apply Hfill. lia.
  - intros t1 c1 [(-> & -> & _)|[Hne H]]%lookup_insert_cases; [done|].
    apply (thr_ok_extends s); [|done|by apply (m_threads s HI t1)]. split; cbn; try done; lia.
  - cbn. eapply tiling_done; [apply (m_enq s HI)|exact Ht|done|done].
  - eapply tiling_same; [apply (m_deq s HI)|exact Ht|done].
Qed.

Lemma cons_cas_step s t n b h gh k : MInv s -> threads s !! t = Some (DeqCas n b h gh k) ->
  C s - gh < 2 ^ 32 -> cons_head (r s) = h ->
  MInv (with_pc (store_cons_head s k (u32 (h + k))) t (DeqCopy b h gh k [])).
Proof.
  intros HI Ht Hfresh Hcas. pose proof (m_threads s HI t _ Ht) as (Hn & -> & Hgh & Hk & Hroom).
  rewrite (m_cons_head s HI) in Hcas. apply wrap_eq_near in Hcas; [|lia]. subst gh. specialize (Hroom eq_refl).
  pose proof (m_order s HI) as (Ho1 & Ho2 & Ho3). set (s' := store_cons_head _ _ _).
  split; try apply HI.
  - by destruct (m_wf s HI).
  - cbn. by rewrite wrap_sum.
  - cbn. lia.
  - intros t1 c1 [(-> & -> & _)|[_ H]]%lookup_insert_cases.
    + cbn. split; [done|]. split; [lia|]. split; [lia|]. done.
    + apply (thr_ok_extends s); [|done|by apply (m_threads s HI t1)]. split; cbn; try done; lia.
  - eapply tiling_same; [apply (m_enq s HI)|exact Ht|done].
  - cbn. eapply (tiling_add deq_iv); [apply (m_deq s HI)|lia|exact Ht|done|done|lia].
Qed.

Lemma cons_copy_step s t b h gh k out o : MInv s -> threads s !! t = Some (DeqCopy b h gh k out) ->
  Z.of_nat (length out) < k -> ring (r s) !! idx_of s h (length out) = Some o ->
  MInv (with_pc s t (DeqCopy b h gh k (out ++ [o]))).
Proof.
  intros HI Ht Hl Ho. pose proof (m_threads s HI t _ Ht) as (-> & Hgh & Hlk & Hout).
  rewrite idx_of_slot in Ho by apply HI. pose proof (m_order s HI) as (Ho1 & Ho2 & Ho3).
  pose proof (t_in _ _ _ _ (m_deq s HI) t _ gh k Ht eq_refl) as Hin.
  eapply MInv_pc; [done|exact Ht| |done|done]. cbn. split; [done|]. split; [done|].
  split; [rewrite length_app; cbn; lia|]. intros j o' Hj.
  apply lookup_app_Some in Hj as [Hj|[Hge Hj]]; [by apply Hout|].
  apply list_lookup_singleton_Some in Hj as [Hj <-]. assert (j = length out) as -> by lia.
  rewrite (m_filled s HI) in Ho by lia. rewrite <- Ho. f_equal. lia.
Qed.

Lemma cons_tail_step s t b h gh k out ret : MInv s -> threads s !! t = Some (DeqCopy b h gh k out) ->
  k <= Z.of_nat (length out) -> cons_tail (r s) = h ->
  MInv (with_pc (store_cons_tail s k (u32 (h + k)) out) t (Returned ret)).
Proof.
  intros HI Ht Hl Htail. pose proof (m_threads s HI t _ Ht) as (-> & Hgh & Hlk & Hout).
  pose proof (m_order s HI) as (Ho1 & Ho2 & Ho3). pose proof (slots_range (r s) (m_wf s HI)) as Hs.
  pose proof (wf_mask (r s) (m_wf s HI)) as Hm. pose proof (m_put s HI) as Hput.
  pose proof (t_in _ _ _ _ (m_deq s HI) t _ gh k Ht eq_refl) as Hin.
  rewrite (m_cons_tail s HI) in Htail. apply wrap_eq_near in Htail; [|lia]. subst gh.
  set (s' := store_cons_tail _ _ _ _).
  split; try apply HI.
  - by destruct (m_wf s HI).
  - cbn. by rewrite wrap_sum.
  - cbn. lia.
  - cbn. rewrite (m_taken s HI).
    assert (out = take (Z.to_nat k) (drop (Z.to_nat (Ct s)) (put_in s))) as ->.
    { apply list_eq. intros j. destruct (decide (j < Z.to_nat k)%nat).
      - rewrite lookup_take_lt, lookup_drop by done.
        destruct (lookup_lt_is_Some_2 out j) as [o Ho]; [lia|]. rewrite Ho. symmetry. by apply Hout.
      - rewrite !lookup_ge_None_2; [done|rewrite length_take; lia|lia]. }
    rewrite take_take_drop. f_equal. lia.
  - intros p Hp. cbn in Hp. change (filled s p). apply (m_filled s HI). lia.
  - intros t1 c1 [(-> & -> & _)|[Hne H]]%lookup_insert_cases; [done|].
    apply (thr_ok_extends s); [|done|by apply (m_threads s HI t1)]. split; cbn; try done; lia.
  - eapply tiling_same; [apply (m_enq s HI)|exact Ht|done].
  - cbn. eapply tiling_done; [apply (m_deq s HI)|exact Ht|done|done].
Qed.

Lemma enq_tail_step s t objs n b h gh : MInv s -> threads s !! t = Some (EnqTail objs n b h gh) ->
  thr_ok s match clamp n (u32 (mask (r s) + cons_tail (r s) - h)) LLRING_ERR_NOBUF b with
           | inl ret => Returned ret
           | inr k => EnqCas objs n b h gh (u32 (mask (r s) + cons_tail (r s) - h)) k
           end.
Proof.
  intros HI Ht. pose proof (m_threads s HI t _ Ht) as (Hn & -> & Hgh).
  pose proof (m_order s HI) as (Ho1 & Ho2 & Ho3). pose proof (slots_range (r s) (m_wf s HI)) as Hs.
  pose proof (wf_mask (r s) (m_wf s HI)) as Hm. rewrite (m_cons_tail s HI).
  destruct (clamp _ _ _ _) as [ret|k] eqn:Hk; [done|]. apply clamp_inr in Hk; [|lia|unfold wrap; apply Z.mod_pos_bound; lia].
  cbn. do 3 (split; [done|]). split; [lia|]. intros ->. rewrite u32_sub in Hk by lia. lia.
Qed.

Lemma deq_tail_step s t n b h gh : MInv s -> threads s !! t = Some (DeqTail n b h gh) ->
  thr_ok s match clamp n (u32 (prod_tail (r s) - h)) LLRING_ERR_NOENT b with
           | inl ret => Returned ret
           | inr k => DeqCas n b h gh k
           end.
Proof.
  intros HI Ht. pose proof (m_threads s HI t _ Ht) as (Hn & -> & Hgh).
  pose proof (m_order s HI) as (Ho1 & Ho2 & Ho3). pose proof (slots_range (r s) (m_wf s HI)) as Hs.
  pose proof (wf_mask (r s) (m_wf s HI)) as Hm. rewrite (m_prod_tail s HI).
  destruct (clamp _ _ _ _) as [ret|k] eqn:Hk; [done|]. apply clamp_inr in Hk; [|lia|unfold wrap; apply Z.mod_pos_bound; lia].
  cbn. do 3 (split; [done|]). split; [lia|]. intros ->. pose proof (u32_sub (Pt s) (C s) 0 ltac:(lia)) as He.
  rewrite Z.add_0_l in He. rewrite He in Hk. lia.
Qed.

Lemma MInv_init (r0 : llring T) n : LLRing.wf r0 -> prod_head r0 = 0 -> prod_tail r0 = 0 -> cons_head r0 = 0 ->
  cons_tail r0 = 0 -> MInv (init r0 n).
Proof.
  intros Hw H1 H2 H3 H4. pose proof (slots_range r0 Hw). pose proof (wf_mask r0 Hw).
  split; cbn; try done; try lia.
  - intros t c [-> _]%lookup_replicate. done.
  - by apply tiling_none.
  - by apply tiling_none.
Qed.

(** What one step of a thread does, case by case. *)
Lemma MInv_advance s t s' : timely s -> MInv s -> advance s t = Some s' -> MInv s'.
Proof.
  intros Htime HI Hadv. unfold advance in Hadv. destruct (threads s !! t) as [c|] eqn:Ht; [|done].
  pose proof (Forall_lookup_1 _ _ _ _ Htime Ht) as Hfr. pose proof (m_threads s HI t c Ht) as Hok.
  pose proof (m_order s HI) as (Ho1 & Ho2 & Ho3). cbn [mbind option_bind] in Hadv.
  destruct c as [|objs n b|objs n b h gh|objs n b h gh free k|objs b h gh free k i|n b|n b h gh|n b h gh k|b h gh k out|ret]; try done.
  - injection Hadv as <-. eapply MInv_pc; [done|exact Ht| |done|done]. cbn. split; [done|]. split; [by apply HI|lia].
  - injection Hadv as <-. pose proof (enq_tail_step s t objs n b h gh HI Ht).
    eapply MInv_pc; [done|exact Ht|done| |]; by destruct (clamp _ _ _ _).
  - unfold cmpset in Hadv. destruct (Z.eqb_spec (prod_head (r s)) h); injection Hadv as <-.
    { eapply prod_cas_step; [done|exact Ht|exact Hfr|done]. }
    eapply MInv_pc; [done|exact Ht| |done|done]. by destruct Hok.
  - destruct (Nat.ltb_spec i (Z.to_nat k)).
    + destruct (objs !! i) as [o|] eqn:Hoi; [|done]. cbn [mbind option_bind] in Hadv.
      destruct (_ <? _)%nat; [|done].
      injection Hadv as <-. eapply prod_write_step; [done|exact Ht|lia|done].
    + destruct (Z.eqb_spec (prod_tail (r s)) h); injection Hadv as <-; [|done].
      eapply prod_tail_step; [done|exact Ht|lia|done].
  - injection Hadv as <-. eapply MInv_pc; [done|exact Ht| |done|done]. cbn. split; [done|]. split; [by apply HI|lia].
  - injection Hadv as <-. pose proof (deq_tail_step s t n b h gh HI Ht).
    eapply MInv_pc; [done|exact Ht|done| |]; by destruct (clamp _ _ _ _).
  - unfold cmpset in Hadv. destruct (Z.eqb_spec (cons_head (r s)) h); injection Hadv as <-.
    { eapply cons_cas_step; [done|exact Ht|exact Hfr|done]. }
    eapply MInv_pc; [done|exact Ht| |done|done]. by destruct Hok.
  - destruct (Nat.ltb_spec (length out) (Z.to_nat k)).
    + destruct (ring (r s) !! _) as [o|] eqn:Hoi; [|done]. cbn [mbind option_bind] in Hadv.
      injection Hadv as <-. eapply cons_copy_step; [done|exact Ht|lia|done].
    + destruct (Z.eqb_spec (cons_tail (r s)) h); injection Hadv as <-; [|done].
      eapply cons_tail_step; [done|exact Ht|lia|done].
Qed.

Lemma MInv_step s s' : timely s -> MInv s -> step s s' -> MInv s'.
Proof.
  intros Htime HI [t c c' Ht Hc Hcall|t s1 Hadv]; [|by eapply MInv_advance].
  eapply MInv_pc; [done|exact Ht| | |]; destruct Hcall; try done; destruct Hc as [->|[ret ->]]; done.
Qed.

Lemma MInv_steps s s' : steps s s' -> MInv s -> MInv s'.
Proof. induction 1 as [|s s1 s2 Htime Hst _ IH]; [done|]. intros HI. apply IH. by eapply MInv_step. Qed.

(** A thread in a call. *)
Definition in_call c : bool := match c with Idle | Returned _ => false | _ => true end.

(** No access is outside of the ring or of the caller's array. *)
Lemma advance_defined s t c : MInv s -> threads s !! t = Some c -> in_call c = true -> is_Some (advance s t).
Proof.
  intros HI Ht Hc. pose proof (m_threads s HI t c Ht) as Hok. unfold advance. rewrite Ht. cbn [mbind option_bind].
  destruct c as [| | | |objs b h gh free k i| | | |b h gh k out|]; try done.
  - by destruct (cmpset _ _).
  - destruct Hok as (-> & _ & Hk & _). destruct (Nat.ltb_spec i (Z.to_nat k)); [|by destruct (_ =? _)].
    destruct (lookup_lt_is_Some_2 objs i) as [o ->]; [lia|]. cbn [mbind option_bind]. rewrite idx_of_slot by apply HI.
    rewrite (proj2 (Nat.ltb_lt _ _)); [done|]. apply slot_of_lt, HI.
  - by destruct (cmpset _ _).
  - destruct Hok as (-> & _). destruct (Nat.ltb_spec (length out) (Z.to_nat k)); [|by destruct (_ =? _)].
    rewrite idx_of_slot by apply HI.
    destruct (lookup_lt_is_Some_2 (ring (r s)) (slot_of (r s) (gh + Z.of_nat (length out)))) as [o ->]; [|done].
    apply slot_of_lt, HI.
Qed.

(** With no thread in a call the ring is at rest and holds what was put in and not
    taken out, in order. *)
Lemma MInv_quiescent (null : T) s : MInv s -> (forall t c, threads s !! t = Some c -> in_call c = false) ->
  LLRing.Inv (r s) /\ contents null (r s) = drop (length (taken s)) (put_in s).
Proof.
  intros HI Hq. pose proof (m_order s HI) as (Ho1 & Ho2 & Ho3). pose proof (slots_range (r s) (m_wf s HI)) as Hs.
  pose proof (wf_mask (r s) (m_wf s HI)) as Hm. pose proof (m_put s HI) as Hput.
  assert (Pt s = P s) as Hp.
  { destruct (Z.eq_dec (Pt s) (P s)) as [|Hne]; [done|].
    destruct (t_cover _ _ _ _ (m_enq s HI) (Pt s)) as (t & c & g & k & Hl & Hi & _); [lia|].
    specialize (Hq t c Hl). by destruct c. }
  assert (Ct s = C s) as Hc.
  { destruct (Z.eq_dec (Ct s) (C s)) as [|Hne]; [done|].
    destruct (t_cover _ _ _ _ (m_deq s HI) (Ct s)) as (t & c & g & k & Hl & Hi & _); [lia|].
    specialize (Hq t c Hl). by destruct c. }
  assert (u32 (prod_tail (r s) - cons_tail (r s)) = Pt s - Ct s) as Hu.
  { rewrite (m_prod_tail s HI), (m_cons_tail s HI). apply (u32_sub (Pt s) (Ct s) 0). lia. }
  split.
  - split; [apply HI| | | | |lia].
    + by rewrite (m_prod_head s HI), (m_prod_tail s HI), Hp.
    + by rewrite (m_cons_head s HI), (m_cons_tail s HI), Hc.
    + rewrite (m_prod_tail s HI). by apply wrap_range.
    + rewrite (m_cons_tail s HI). by apply wrap_range.
  - assert (length (taken s) = Z.to_nat (Ct s)) as ->.
    { rewrite (m_taken s HI), length_take. lia. }
    apply list_eq. intros i. unfold contents. rewrite lookup_map, lookup_drop. unfold used. rewrite Hu.
    destruct (decide (i < Z.to_nat (Pt s - Ct s))%nat).
    + rewrite lookup_seq_lt by done. cbn. pose proof (m_filled s HI (Ct s + Z.of_nat i) ltac:(lia)) as Hf.
      unfold filled in Hf. replace (Z.to_nat (Ct s + Z.of_nat i)) with (Z.to_nat (Ct s) + i)%nat in Hf by lia.
      rewrite <- Hf, nth_lookup, (m_cons_tail s HI).
      rewrite (slot_of_mod (r s) (u32 (Ct s) + Z.of_nat i) (Ct s + Z.of_nat i)); [|apply HI|].
      * destruct (lookup_lt_is_Some_2 (ring (r s)) (slot_of (r s) (Ct s + Z.of_nat i))) as [o ->]; [|done].
        apply slot_of_lt, HI.
      * rewrite Z.add_mod, u32_mod_slots, <- Z.add_mod by (apply HI || lia). done.
    + rewrite lookup_seq_ge by lia. cbn. symmetry. apply lookup_ge_None_2. lia.
Qed.
End Inv.

(** ** Every call returns *)

Section Progress.
Context {T : Type}.
Implicit Types (s : state T) (c : pc T).

(** What is left to do for a thread at [c], in a system of [N] threads: until the
    compare-and-swap succeeds it may make all others retry. *)
Definition weight (N : nat) (ph ch : Z) c : nat :=
  match c with
  | Idle | Returned _ => 0
  | EnqHead _ n _ | DeqHead n _ => 3 * N + Z.to_nat n + 5
  | EnqTail _ n _ h _ => 3 * N + Z.to_nat n + if ph =? h then 4 else 7
  | EnqCas _ n _ h _ _ _ => 3 * N + Z.to_nat n + if ph =? h then 3 else 6
  | DeqTail n _ h _ => 3 * N + Z.to_nat n + if ch =? h then 4 else 7
  | DeqCas n _ h _ _ => 3 * N + Z.to_nat n + if ch =? h then 3 else 6
  | EnqWrite _ _ _ _ _ k i => Z.to_nat k - i + 1
  | DeqCopy _ _ _ k out => Z.to_nat k - length out + 1
  end.
Definition total (N : nat) (ph ch : Z) (l : list (pc T)) : nat := sum_list_with (weight N ph ch) l.
Definition measure s : nat :=
  total (length (threads s)) (prod_head (r s)) (cons_head (r s)) (threads s).

Lemma total_insert N ph ch l t c c' : l !! t = Some c ->
  (total N ph ch (<[t := c']> l) + weight N ph ch c = total N ph ch l + weight N ph ch c')%nat.
Proof.
  unfold total. revert t. induction l as [|a l IH]; intros [|t] Ht; try done.
  - injection Ht as ->. change (<[0%nat := c']> (c :: l)) with (c' :: l). cbn. lia.
  - change (<[S t := c']> (a :: l)) with (a :: <[t := c']> l). cbn. specialize (IH t Ht). lia.
Qed.

(** Other threads lose at most three steps when a head moves. *)
Lemma weight_moves N ph ch ph' ch' c : (weight N ph' ch' c <= weight N ph ch c + 3)%nat.
Proof. destruct c; cbn; repeat destruct (_ =? _); lia. Qed.

Lemma total_moves N ph ch ph' ch' l : (total N ph' ch' l <= total N ph ch l + 3 * length l)%nat.
Proof.
  unfold total. induction l as [|c l IH]; cbn; [lia|]. pose proof (weight_moves N ph ch ph' ch' c). lia.
Qed.

(** A step of a thread in a call that is not a turn of a waiting loop. *)
Definition moves s s' : Prop := exists t, advance s t = Some s' /\ s' <> s.

Lemma measure_pc s s1 t c c' : threads s !! t = Some c -> threads s1 = threads s ->
  (weight (length (threads s)) (prod_head (r s)) (cons_head (r s)) c' <
   weight (length (threads s)) (prod_head (r s)) (cons_head (r s)) c)%nat ->
  prod_head (r s1) = prod_head (r s) -> cons_head (r s1) = cons_head (r s) ->
  (measure (with_pc s1 t c') < measure s)%nat.
Proof.
  intros Ht Hth Hw Hp Hc. unfold measure. cbn [with_pc threads r]. rewrite Hp, Hc, Hth, length_insert.
  pose proof (total_insert (length (threads s)) (prod_head (r s)) (cons_head (r s)) _ t c c' Ht). lia.
Qed.

(** A successful compare-and-swap: the other threads may have to read again. *)
Lemma measure_cas s s1 t c c' n : threads s !! t = Some c -> threads s1 = threads s ->
  (forall ph ch, weight (length (threads s)) ph ch c' <= n + 1)%nat ->
  (3 * length (threads s) + n + 3 <= weight (length (threads s)) (prod_head (r s)) (cons_head (r s)) c)%nat ->
  (measure (with_pc s1 t c') < measure s)%nat.
Proof.
  intros Ht Hth Hw' Hw. unfold measure. cbn [with_pc threads r]. rewrite Hth, length_insert.
  set (N := length (threads s)) in *. specialize (Hw' (prod_head (r s)) (cons_head (r s))).
  pose proof (total_insert N (prod_head (r s)) (cons_head (r s)) (threads s) t c c' Ht).
  pose proof (total_moves N (prod_head (r s)) (cons_head (r s)) (prod_head (r s1)) (cons_head (r s1)) (<[t := c']> (threads s))) as Hm.
  rewrite length_insert in Hm. fold N in Hm. lia.
Qed.

Lemma moves_measure s s' : MInv s -> moves s s' -> (measure s' < measure s)%nat.
Proof.
  intros HI (t & Hadv & Hne). unfold advance in Hadv. destruct (threads s !! t) as [c|] eqn:Ht; [|done].
  pose proof (m_threads s HI t c Ht) as Hok. cbn [mbind option_bind] in Hadv.
  destruct c as [|objs n b|objs n b h gh|objs n b h gh free k|objs b h gh free k i|n b|n b h gh|n b h gh k|b h gh k out|ret]; try done.
  - injection Hadv as <-. eapply measure_pc; [exact Ht|done| |done|done]. cbn. rewrite Z.eqb_refl. lia.
  - injection Hadv as <-. eapply measure_pc; [exact Ht|done| |done|done].
    destruct (clamp _ _ _ _); cbn; destruct (_ =? _); lia.
  - unfold cmpset in Hadv. destruct (prod_head (r s) =? h) eqn:He; injection Hadv as <-.
    + eapply (measure_cas _ _ _ _ _ (Z.to_nat n)); [exact Ht|done| |].
      * intros. cbn. destruct Hok as (_ & _ & _ & Hk & _). lia.
      * cbn. rewrite He. lia.
    + eapply measure_pc; [exact Ht|done| |done|done]. cbn. rewrite He. lia.
  - destruct (Nat.ltb_spec i (Z.to_nat k)).
    + destruct (objs !! i) as [o|] eqn:Hoi; [|done]. cbn [mbind option_bind] in Hadv. destruct (_ <? _)%nat; [|done].
      injection Hadv as <-. eapply measure_pc; [exact Ht|done| |done|done]. cbn. lia.
    + destruct (_ =? h); injection Hadv as <-; [|done]. eapply measure_pc; [exact Ht|done| |done|done]. cbn. lia.
  - injection Hadv as <-. eapply measure_pc; [exact Ht|done| |done|done]. cbn. rewrite Z.eqb_refl. lia.
  - injection Hadv as <-. eapply measure_pc; [exact Ht|done| |done|done].
    destruct (clamp _ _ _ _); cbn; destruct (_ =? _); lia.
  - unfold cmpset in Hadv. destruct (cons_head (r s) =? h) eqn:He; injection Hadv as <-.
    + eapply (measure_cas _ _ _ _ _ (Z.to_nat n)); [exact Ht|done| |].
      * intros. cbn. destruct Hok as (_ & _ & _ & Hk & _). lia.
      * cbn. rewrite He. lia.
    + eapply measure_pc; [exact Ht|done| |done|done]. cbn. rewrite He. lia.
  - destruct (Nat.ltb_spec (length out) (Z.to_nat k)).
    + destruct (ring (r s) !! _) as [o|] eqn:Hoi; [|done]. cbn [mbind option_bind] in Hadv.
      injection Hadv as <-. eapply measure_pc; [exact Ht|done| |done|done]. cbn. rewrite length_app. cbn. lia.
    + destruct (_ =? h); injection Hadv as <-; [|done]. eapply measure_pc; [exact Ht|done| |done|done]. cbn. lia.
Qed.

(** A step that changes where the thread is is not a turn of a waiting loop. *)
Lemma moves_measure_ne s t s' : advance s t = Some s' -> (measure s' < measure s)%nat -> moves s s'.
Proof. intros Ha Hm. exists t. split; [done|]. intros ->. lia. Qed.

(** While a thread is in a call, some thread can make a step: a thread waits only for
    the calls before it, and the first of these does not wait. *)
Lemma no_deadlock s t c : MInv s -> threads s !! t = Some c -> in_call c = true -> exists s', moves s s'.
Proof.
  intros HI Ht Hc. pose proof (m_order s HI) as (Ho1 & Ho2 & Ho3).
  pose proof (slots_range (r s) (m_wf s HI)) as Hs. pose proof (wf_mask (r s) (m_wf s HI)) as Hm.
  assert (Hgo : forall t' c', threads s !! t' = Some c' -> in_call c' = true -> advance s t' <> Some s ->
    exists s', moves s s').
  { intros t' c' Ht' Hc' Hne. destruct (advance_defined s t' c' HI Ht' Hc') as [s' Ha].
    exists s', t'. split; [done|]. intros ->. done. }
  assert (Hpc : forall s1 t' c' c1, threads s1 = threads s -> threads s !! t' = Some c' -> c1 <> c' -> with_pc s1 t' c1 <> s).
  { intros s1 t' c' c1 Hth Hl Hne He. apply (f_equal threads) in He. cbn in He. rewrite Hth in He.
    apply (f_equal (fun l => l !! t')) in He. rewrite list_lookup_insert_eq in He by (by eapply lookup_lt_Some).
    congruence. }
  destruct (enq_iv c) as [[g k]|] eqn:Hi; [|destruct (deq_iv c) as [[g k]|] eqn:Hd].
  - pose proof (t_in _ _ _ _ (m_enq s HI) t c g k Ht Hi) as Hin.
    destruct (t_cover _ _ _ _ (m_enq s HI) (Pt s)) as (t1 & c1 & g1 & k1 & Hl & Hi1 & Hr); [lia|].
    pose proof (t_in _ _ _ _ (m_enq s HI) t1 c1 g1 k1 Hl Hi1). assert (g1 = Pt s) as -> by lia.
    destruct c1 as [| | | |objs b h gh free k' i| | | | |]; try done. injection Hi1 as -> ->.
    eapply (Hgo t1); [exact Hl|done|]. unfold advance. rewrite Hl. cbn [mbind option_bind].
    destruct (m_threads s HI t1 _ Hl) as (-> & _). destruct (Nat.ltb_spec i (Z.to_nat k1)).
    + destruct (objs !! i); [|done]. cbn [mbind option_bind]. destruct (_ <? _)%nat; [|done].
      intros [= He]. revert He. apply Hpc with (EnqWrite objs b (u32 (Pt s)) (Pt s) free k1 i); [done|done|].
      intros [= He]. lia.
    + rewrite (m_prod_tail s HI), Z.eqb_refl. intros [= He]. revert He. by eapply Hpc.
  - pose proof (t_in _ _ _ _ (m_deq s HI) t c g k Ht Hd) as Hin.
    destruct (t_cover _ _ _ _ (m_deq s HI) (Ct s)) as (t1 & c1 & g1 & k1 & Hl & Hi1 & Hr); [lia|].
    pose proof (t_in _ _ _ _ (m_deq s HI) t1 c1 g1 k1 Hl Hi1). assert (g1 = Ct s) as -> by lia.
    destruct c1 as [| | | | | | | |b h gh k' out|]; try done. injection Hi1 as -> ->.
    eapply (Hgo t1); [exact Hl|done|]. unfold advance. rewrite Hl. cbn [mbind option_bind].
    destruct (m_threads s HI t1 _ Hl) as (-> & _). destruct (Nat.ltb_spec (length out) (Z.to_nat k1)).
    + destruct (ring (r s) !! _) as [o|]; [|done]. cbn [mbind option_bind].
      intros [= He]. revert He. apply Hpc with (DeqCopy b (u32 (Ct s)) (Ct s) k1 out); [done|done|].
      intros [= He]. apply (f_equal length) in He. rewrite length_app in He. cbn in He. lia.
    + rewrite (m_cons_tail s HI), Z.eqb_refl. intros [= He]. revert He. by eapply Hpc.
  - apply (Hgo t c Ht Hc). unfold advance. rewrite Ht. cbn [mbind option_bind].
    destruct c; try done; try (destruct (cmpset _ _)); intros [= He]; revert He; eapply Hpc; try done;
      by destruct (clamp _ _ _ _).
Qed.
End Progress.

(** ** The theorems *)

Lemma pow2_of_land x : 0 < x -> Z.land x (x - 1) = 0 -> x = 2 ^ Z.log2 x.
Proof.
  intros Hx Hl. pose proof (Z.log2_spec x Hx) as [H1 H2]. pose proof (Z.log2_nonneg x).
  destruct (Z.eq_dec x (2 ^ Z.log2 x)) as [|Hne]; [done|]. exfalso.
  assert (Z.log2 (x - 1) = Z.log2 x) as Hlog by (apply Z.log2_unique; lia).
  apply (f_equal (fun z => Z.testbit z (Z.log2 x))) in Hl. rewrite Z.land_spec, Z.bits_0, Z.bit_log2 in Hl by done.
  rewrite <- Hlog, Z.bit_log2 in Hl; [done|]. assert (1 <= 2 ^ Z.log2 x) by (apply Z.pow_le_mono_r with (b := 0); lia). lia.
Qed.

Lemma llring_init_wf {T} (null : T) slots0 sp sc r0 : 0 < slots0 <= 2 ^ 31 ->
  llring_init null slots0 sp sc = (0, Some r0) -> LLRing.wf r0 /\ slots r0 = slots0.
Proof.
  intros Hs. unfold llring_init. rewrite wrap_small by (unfold in_word; lia).
  destruct (Z.eqb_spec (Z.land slots0 (slots0 - 1)) 0) as [Hl|]; [|done]. intros [= <-]. split; [|done].
  split; cbn; [|done|rewrite length_replicate; lia|lia]. exists (Z.log2 slots0).
  pose proof (pow2_of_land slots0 ltac:(lia) Hl). split; [|done]. split; [apply Z.log2_nonneg|].
  destruct Hs as [_ Hs]. apply Z.log2_le_mono in Hs as Hle. by rewrite Z.log2_pow2 in Hle.
Qed.

Lemma advance_slots {T} (s : state T) t s' : advance s t = Some s' -> slots (r s') = slots (r s).
Proof.
  unfold advance. destruct (threads s !! t) as [[]|]; cbn [mbind option_bind]; try done;
    repeat (case_match || (destruct (_ !! _); cbn [mbind option_bind])); by intros [= <-].
Qed.

Lemma steps_slots {T} (s s' : state T) : steps s s' -> slots (r s') = slots (r s).
Proof.
  induction 1 as [|s s1 s2 _ Hst _ IH]; [done|]. rewrite IH. destruct Hst; [done|by eapply advance_slots].
Qed.

(** A step of a thread in a call that is not a turn of a waiting loop, in time. *)
Definition mv {T} (s s' : state T) : Prop := timely s /\ moves s s'.

Lemma mv_MInv {T} (s s' : state T) : MInv s -> mv s s' -> MInv s'.
Proof. intros HI [Ht (t & Ha & _)]. by eapply MInv_advance. Qed.

(** C26: From a ring just initialised, any interleaving of the steps of any number of
    producers and consumers that are not delayed for 2^32 objects in the middle of a
    compare-and-swap: what was taken out is a prefix of what was put in, in order and
    without loss or duplicates, less than the number of slots apart; no thread ever
    accesses the ring or its array out of bounds; and whenever no call is in progress
    the ring is consistent and holds exactly what was put in and not yet taken out. *)
Theorem llring_mp_fifo {T} (null : T) slots0 sp sc r0 n (s : state T) :
  0 < slots0 <= 2 ^ 31 -> llring_init null slots0 sp sc = (0, Some r0) -> steps (init r0 n) s ->
  taken s `prefix_of` put_in s /\
  Z.of_nat (length (put_in s)) < Z.of_nat (length (taken s)) + slots0 /\
  (forall t c, threads s !! t = Some c -> in_call c = true -> is_Some (advance s t)) /\
  ((forall t c, threads s !! t = Some c -> in_call c = false) ->
   LLRing.Inv (r s) /\ contents null (r s) = drop (length (taken s)) (put_in s)).
Proof.
  intros Hs Hinit Hsteps. pose proof (llring_init_wf null slots0 sp sc r0 Hs Hinit) as [Hw Hslots].
  assert (HI : MInv s).
  { eapply MInv_steps; [exact Hsteps|]. unfold llring_init in Hinit. destruct (negb _); [done|].
    injection Hinit as <-. by apply MInv_init. }
  pose proof (m_order s HI) as (Ho1 & Ho2 & Ho3). pose proof (m_put s HI).
  pose proof (wf_mask (r s) (m_wf s HI)) as Hm. rewrite (steps_slots _ _ Hsteps) in Hm. cbn in Hm.
  split; [|split; [|split]].
  - rewrite (m_taken s HI). apply prefix_take.
  - rewrite (m_taken s HI), length_take. lia.
  - intros t c. by apply advance_defined.
  - by apply MInv_quiescent.
Qed.

(** C27: From any state that producers and consumers can reach, unless new calls start,
    only a bounded number of steps that are not turns of a waiting loop can be made, and
    when none is left every call has returned: no thread waits for ever. *)
Theorem llring_mp_calls_return {T} (null : T) slots0 sp sc r0 n (s : state T) :
  0 < slots0 <= 2 ^ 31 -> llring_init null slots0 sp sc = (0, Some r0) -> steps (init r0 n) s ->
  (forall k s', nsteps mv k s s' -> (k <= measure s)%nat) /\
  (forall s', rtc mv s s' -> (forall s'', ~ moves s' s'') ->
     forall t c, threads s' !! t = Some c -> in_call c = false).
Proof.
  intros Hs Hinit Hsteps. pose proof (llring_init_wf null slots0 sp sc r0 Hs Hinit) as [Hw Hslots].
  assert (HI : MInv s).
  { eapply MInv_steps; [exact Hsteps|]. unfold llring_init in Hinit. destruct (negb _); [done|].
    injection Hinit as <-. by apply MInv_init. }
  clear Hsteps. split.
  - intros k s' Hk. induction Hk as [|k s s1 s2 Hmv _ IH]; [lia|].
    pose proof (moves_measure s s1 HI (proj2 Hmv)). specialize (IH (mv_MInv s s1 HI Hmv)). lia.
  - intros s' Hr. induction Hr as [s|s s1 s2 Hmv _ IH]; [|by apply IH, (mv_MInv s s1)].
    intros Hstuck t c Ht. destruct (in_call c) eqn:Hc; [|done]. destruct (no_deadlock s t c HI Ht Hc) as [s' Hm].
    by destruct (Hstuck s').
Qed.

(** ** An execution *)

(** What the scheduler does: start a call, or let a thread make a step. *)
Inductive action (T : Type) := Start (t : nat) (c : pc T) | Run (t : nat).
Arguments Start {T}.
Arguments Run {T}.

Definition call_okb {T} (c : pc T) : bool :=
  match c with
  | EnqHead objs n _ => (0 <? n) && (n <=? Z.of_nat (length objs))
  | DeqHead n _ => 0 <? n
  | _ => false
  end.
Definition freshb {T} (s : state T) (c : pc T) : bool :=
  match c with
  | EnqTail _ _ _ _ gh | EnqCas _ _ _ _ gh _ _ => P s - gh <? 2 ^ 32
  | DeqTail _ _ _ gh | DeqCas _ _ _ gh _ => C s - gh <? 2 ^ 32
  | _ => true
  end.

Fixpoint exec {T} (acts : list (action T)) (s : state T) : option (state T) :=
  match acts with
  | [] => Some s
  | a :: acts =>
      if forallb (freshb s) (threads s) then
        s1 ← match a with
             | Run t => advance s t
             | Start t c => c0 ← threads s !! t;
                 if negb (in_call c0) && call_okb c then Some (with_pc s t c) else None
             end;
        exec acts s1
      else None
  end.

Lemma exec_steps {T} (acts : list (action T)) s s' : exec acts s = Some s' -> steps s s'.
Proof.
  revert s. induction acts as [|a acts IH]; intros s; cbn [exec]; [intros [= <-]; constructor|].
  destruct (forallb _ _) eqn:Hf; [|done].
  assert (timely s) as Ht.
  { apply Forall_forall. intros c Hc. rewrite forallb_forall in Hf. specialize (Hf c).
    rewrite <- list_elem_of_In in Hf. specialize (Hf Hc). destruct c; cbn in *; try done; by apply Z.ltb_lt. }
  destruct a as [t c|t].
  - destruct (threads s !! t) as [c0|] eqn:Hc0; [|done]. cbn [mbind option_bind].
    destruct (negb (in_call c0) && call_okb c) eqn:Hok; [|done]. cbn [mbind option_bind]. intros He.
    apply andb_true_iff in Hok as [Hn Hcall]. eapply steps_step; [done| |by apply IH].
    eapply step_call; [exact Hc0| |].
    + destruct c0; try done; [by left|right; by eexists].
    + destruct c; try done; cbn in Hcall; constructor; lia.
  - destruct (advance s t) as [s1|] eqn:Ha; [|done]. cbn [mbind option_bind]. intros He.
    eapply steps_step; [done|by eapply step_advance|by apply IH].
Qed.

(** Two producers and a consumer: the second producer reserves after the first and
    finishes writing before it, and has to wait for it. *)
Definition ex_acts : list (action Z) :=
  [Start 0 (EnqHead [1; 2]%Z 2 LLRING_QUEUE_FIXED); Start 1 (EnqHead [3]%Z 1 LLRING_QUEUE_FIXED);
   Run 0; Run 1; Run 0; Run 1; Run 0; Run 1 (* its compare-and-swap fails *);
   Run 1; Run 1; Run 1; Run 1; Run 1 (* it waits *);
   Run 0; Run 0; Run 0; Run 1; Start 2 (DeqHead 2 LLRING_QUEUE_VARIABLE);
   Run 2; Run 2; Run 2; Run 2; Run 2; Run 2]%nat.
Definition ex_ring0 : llring Z := Ring 4 3 false false 4 0 0 0 0 [0; 0; 0; 0].
Definition ex_state (k : nat) : state Z := default (init ex_ring0 3) (exec (take k ex_acts) (init ex_ring0 3)).

Lemma ex_state_steps k : is_Some (exec (take k ex_acts) (init ex_ring0 3)) -> steps (init ex_ring0 3) (ex_state k).
Proof. intros [s Hs]. unfold ex_state. rewrite Hs. by eapply exec_steps. Qed.

Lemma llring_mp_fifo_witness :
  put_in (ex_state 24) = [1; 2; 3] /\ taken (ex_state 24) = [1; 2] /\
  contents 0 (r (ex_state 24)) = drop (length (taken (ex_state 24))) (put_in (ex_state 24)).
Proof.
  split; [vm_compute; reflexivity|]. split; [vm_compute; reflexivity|].
  destruct (llring_mp_fifo 0 4 false false ex_ring0 3 (ex_state 24)) as (_ & _ & _ & Hq).
  - split; vm_compute; congruence.
  - vm_compute. reflexivity.
  - apply ex_state_steps. vm_compute. by eexists.
  - apply Hq. assert (threads (ex_state 24) = [Returned 0; Returned 0; Returned 2]) as -> by (vm_compute; reflexivity).
    intros t c Hc. do 3 (destruct t as [|t]; [by injection Hc as <-|]). done.
Defined.

(** When the first producer has written nothing yet and the second one waits for it. *)
Lemma llring_mp_calls_return_witness :
  threads (ex_state 13) = [EnqWrite [1; 2] LLRING_QUEUE_FIXED 0 0 3 2 0; EnqWrite [3] LLRING_QUEUE_FIXED 2 2 1 1 1; Idle] /\
  measure (ex_state 13) = 4%nat /\
  (forall k s', nsteps mv k (ex_state 13) s' -> (k <= 4)%nat).
Proof.
  split; [vm_compute; reflexivity|]. assert (measure (ex_state 13) = 4%nat) as Hm by (vm_compute; reflexivity).
  split; [exact Hm|]. rewrite <- Hm.
  apply (llring_mp_calls_return 0 4 false false ex_ring0 3 (ex_state 13)).
  - split; vm_compute; congruence.
  - vm_compute. reflexivity.
  - apply ex_state_steps. vm_compute. by eexists.
Defined.
