(* ===== verification/LockLessQueue.v ===== *)
(** Queues of pointers: [core/utils/queue.h] (the abstract class, here a typeclass with its laws) and
    [core/utils/lock_less_queue.h], its implementation over the ring of LLRing.v, used by one thread at a
    time.  A failed [CHECK] and an access outside of the ring are [None]. *)
From S2P Require Import Prelude Common LLRing.

(** ** The abstract class

    A method takes the queue and returns it changed, with the value returned and the objects stored
    through the pointers it was given. *)
Class Queue (Q T : Type) := {
  Push : Q -> T -> option (Q * Z);
  PushBulk : Q -> list T -> Z -> option (Q * Z);
  Pop : Q -> option (Q * list T * Z);
  PopBulk : Q -> Z -> option (Q * list T * Z);
  Capacity : Q -> Z;
  Size : Q -> Z;
  Empty : Q -> bool;
  Full : Q -> bool;
  Resize : Q -> Z -> option (Q * Z) }.

(** What the class promises: a bounded first-in-first-out queue.  [model] is what waits, oldest first, and
    [bound] how much fits. *)
Class QueueLaws (Q T : Type) `{Queue Q T} := {
  valid : Q -> Prop;
  model : Q -> list T;
  bound : Q -> nat;
  law_bound q : valid q -> (length (model q) <= bound q)%nat;
  law_push q x : valid q -> exists q' ret, Push q x = Some (q', ret) /\ valid q' /\ bound q' = bound q /\
    if decide (length (model q) < bound q)%nat then ret = 0 /\ model q' = model q ++ [x]
    else ret < 0 /\ model q' = model q;
  law_push_bulk q xs : valid q -> Z.of_nat (length xs) < 2 ^ 31 ->
    let taken := if decide (length (model q) + length xs <= bound q)%nat then xs else [] in
    exists q', PushBulk q xs (Z.of_nat (length xs)) = Some (q', Z.of_nat (length taken)) /\
    valid q' /\ bound q' = bound q /\ model q' = model q ++ taken;
  law_pop q : valid q -> exists q' out ret, Pop q = Some (q', out, ret) /\ valid q' /\ bound q' = bound q /\
    match model q with
    | [] => ret < 0 /\ model q' = []
    | x :: rest => ret = 0 /\ out = [x] /\ model q' = rest
    end;
  law_pop_bulk q (n : nat) : valid q -> Z.of_nat n < 2 ^ 31 ->
    let k := if decide (n <= length (model q))%nat then n else O in
    exists q', PopBulk q (Z.of_nat n) = Some (q', take k (model q), Z.of_nat k) /\
    valid q' /\ bound q' = bound q /\ model q' = drop k (model q);
  law_size q : valid q -> Size q = Z.of_nat (length (model q));
  law_empty q : valid q -> Empty q = bool_decide (model q = []);
  law_full q : valid q -> Full q = bool_decide (length (model q) = bound q) }.

(** ** The implementation *)
Section LockLess.
Context {T : Type} (null : T).

Record LockLessQueue := LLQ { ring_ : llring T; capacity_ : Z }.

Definition kDefaultRingSize : Z := 256.

(** [(capacity & (capacity - 1)) == 0] on [size_t] *)
Definition is_pow2 (capacity : Z) : bool := Z.land capacity (u64 (capacity - 1)) =? 0.

(** The constructor; [llring_init] takes an [unsigned int].  What it returns is ignored: it fails for no
    capacity that passes the check. *)
Definition LockLessQueue_new (capacity : Z) (single_producer single_consumer : bool) : option LockLessQueue :=
  if is_pow2 capacity then
    match llring_init null (u32 capacity) single_producer single_consumer with
    | (_, Some r) => Some (LLQ r capacity)
    | (_, None) => None
    end
  else None.

Definition llq_Push (q : LockLessQueue) (obj : T) : option (LockLessQueue * Z) :=
  '(r, ret) ← llring_enqueue (ring_ q) obj; Some (LLQ r (capacity_ q), ret).

Definition llq_PushBulk (q : LockLessQueue) (objs : list T) (count : Z) : option (LockLessQueue * Z) :=
  '(r, ret) ← llring_enqueue_bulk (ring_ q) objs (u32 count);
  Some (LLQ r (capacity_ q), if ret =? 0 then to_int count else 0).

Definition llq_Pop (q : LockLessQueue) : option (LockLessQueue * list T * Z) :=
  '(r, out, ret) ← llring_dequeue (ring_ q); Some (LLQ r (capacity_ q), out, ret).

Definition llq_PopBulk (q : LockLessQueue) (count : Z) : option (LockLessQueue * list T * Z) :=
  '(r, out, ret) ← llring_dequeue_bulk (ring_ q) (u32 count);
  Some (LLQ r (capacity_ q), out, if ret =? 0 then to_int count else 0).

Definition llq_Capacity (q : LockLessQueue) : Z := capacity_ q.
Definition llq_Size (q : LockLessQueue) : Z := llring_count (ring_ q).
Definition llq_Empty (q : LockLessQueue) : bool := llring_empty (ring_ q).
Definition llq_Full (q : LockLessQueue) : bool := llring_full (ring_ q).

(** [while (llring_dequeue(ring_, &obj) == 0) llring_enqueue(new_ring, obj);]: what the second call returns is
    ignored. *)
Fixpoint move_all (fuel : nat) (old new : llring T) : option (llring T * llring T) :=
  match fuel with
  | O => None
  | S fuel =>
      '(old, out, ret) ← llring_dequeue old;
      if ret =? 0 then
        match out with
        | [obj] => '(new, _) ← llring_enqueue new obj; move_all fuel old new
        | _ => None
        end
      else Some (old, new)
  end.

Definition llq_Resize (q : LockLessQueue) (new_capacity : Z) : option (LockLessQueue * Z) :=
  if (new_capacity <=? llq_Size q) || negb (is_pow2 new_capacity) then Some (q, -1)
  else match llring_init null (u32 new_capacity) (sp_enqueue (ring_ q)) (sc_dequeue (ring_ q)) with
       | (err, None) => Some (q, err)
       | (_, Some new_ring) =>
           '(_, new_ring) ← move_all (S (Z.to_nat (llq_Size q))) (ring_ q) new_ring;
           Some (LLQ new_ring new_capacity, 0)
       end.

#[export] Instance llq_Queue : Queue LockLessQueue T := {|
  Push := llq_Push;
  PushBulk := llq_PushBulk;
  Pop := llq_Pop;
  PopBulk := llq_PopBulk;
  Capacity := llq_Capacity;
  Size := llq_Size;
  Empty := llq_Empty;
  Full := llq_Full;
  Resize := llq_Resize |}.

(** ** The laws hold *)
Definition llq_valid (q : LockLessQueue) : Prop := plain (ring_ q) /\ slots (ring_ q) = capacity_ q.
Definition llq_model (q : LockLessQueue) : list T := contents null (ring_ q).
Definition llq_bound (q : LockLessQueue) : nat := Z.to_nat (capacity_ q - 1).

Lemma llq_room q : llq_valid q ->
  1 <= capacity_ q <= 2 ^ 31 /\ Z.of_nat (length (llq_model q)) + free_slots (ring_ q) = capacity_ q - 1 /\
  0 <= free_slots (ring_ q) /\ (length (llq_model q) <= llq_bound q)%nat.
Proof.
  intros [Hp Hs]. destruct (plain_count null (ring_ q) Hp) as (_ & Hsum & Hpos). unfold llq_model, llq_bound. rewrite <- Hs.
  pose proof (slots_range (ring_ q) (inv_wf _ (proj1 Hp))). lia.
Qed.

Lemma llq_valid_shape q r : llq_valid q -> plain r -> same_shape (ring_ q) r -> llq_valid (LLQ r (capacity_ q)).
Proof. intros [_ Hs] Hp (_ & Hsl & _). split; cbn; [done|congruence]. Qed.

Lemma llq_push_spec q x : llq_valid q -> exists q' ret, llq_Push q x = Some (q', ret) /\ llq_valid q' /\
  llq_bound q' = llq_bound q /\
  if decide (length (llq_model q) < llq_bound q)%nat then ret = 0 /\ llq_model q' = llq_model q ++ [x]
  else ret = - LLRING_ERR_NOBUF /\ llq_model q' = llq_model q.
Proof.
  intros Hv. destruct (llq_room q Hv) as (Hc & Hsum & Hpos & Hle). pose proof (proj1 Hv) as Hp.
  destruct (plain_enqueue_one null (sp_enqueue (ring_ q)) (ring_ q) x Hp) as (r & ret & He & Hr & Hsh & Hcase).
  unfold llq_Push. rewrite llring_enqueue_do, He. cbn [mbind option_bind]. eexists _, ret. split; [done|].
  split; [by apply llq_valid_shape|]. split; [done|]. unfold llq_bound in *.
  destruct (Z.eqb_spec (free_slots (ring_ q)) 0), (decide (length (llq_model q) < Z.to_nat (capacity_ q - 1))%nat); (lia || done).
Qed.

Lemma llq_pop_spec q : llq_valid q -> exists q' out ret, llq_Pop q = Some (q', out, ret) /\ llq_valid q' /\
  llq_bound q' = llq_bound q /\
  match llq_model q with
  | [] => ret = - LLRING_ERR_NOENT /\ llq_model q' = []
  | x :: rest => ret = 0 /\ out = [x] /\ llq_model q' = rest
  end.
Proof.
  intros Hv. destruct (plain_dequeue_one null (sc_dequeue (ring_ q)) (ring_ q) (proj1 Hv)) as (r & out & ret & Hd & Hr & Hsh & Hcase).
  unfold llq_Pop. rewrite llring_dequeue_do, Hd. cbn [mbind option_bind]. eexists _, out, ret. split; [done|].
  split; [by apply llq_valid_shape|]. done.
Qed.

Lemma llq_push_bulk_spec q xs : llq_valid q -> Z.of_nat (length xs) < 2 ^ 31 ->
  let taken := if decide (length (llq_model q) + length xs <= llq_bound q)%nat then xs else [] in
  exists q', llq_PushBulk q xs (Z.of_nat (length xs)) = Some (q', Z.of_nat (length taken)) /\
    llq_valid q' /\ llq_bound q' = llq_bound q /\ llq_model q' = llq_model q ++ taken.
Proof.
  intros Hv Hx. cbn zeta. destruct (llq_room q Hv) as (Hc & Hsum & Hpos & Hle). pose proof (proj1 Hv) as Hp. pose proof Hp as [HI Hw].
  destruct (enqueue_spec null (sp_enqueue (ring_ q)) (ring_ q) xs (Z.of_nat (length xs)) LLRING_QUEUE_FIXED HI)
    as (r & ret & He & HI' & Hm & Hcon & Hret); [lia|lia|].
  pose proof (enqueue_shape _ _ _ _ _ _ _ He) as Hsh. unfold llq_PushBulk.
  rewrite wrap_small by (unfold in_word; lia).
  assert (llring_enqueue_bulk (ring_ q) xs (Z.of_nat (length xs)) = Some (r, ret)) as ->.
  { rewrite <- He. unfold llring_enqueue_bulk. by destruct (sp_enqueue (ring_ q)). }
  cbn [mbind option_bind]. rewrite to_int_small by lia.
  assert (plain r) as Hpr by (split; [done|destruct Hsh as (_ & ? & ?); congruence]).
  exists (LLQ r (capacity_ q)). unfold moved in Hcon. unfold llq_bound in *.
  replace (llq_model (LLQ r (capacity_ q))) with (contents null r) by done. rewrite Hcon. cbn [capacity_].
  split; [|split; [by apply llq_valid_shape|split; [done|]]].
  - destruct (Z.ltb_spec (free_slots (ring_ q)) (Z.of_nat (length xs))).
    + rewrite decide_False by lia. rewrite Hret. done.
    + rewrite decide_True by lia. rewrite (plain_enqueue_ret _ _ LLRING_QUEUE_FIXED) in Hret by (done || lia). by rewrite Hret.
  - destruct (Z.ltb_spec (free_slots (ring_ q)) (Z.of_nat (length xs))).
    + by rewrite decide_False by lia.
    + rewrite decide_True by lia. by rewrite Nat2Z.id, firstn_all.
Qed.

Lemma llq_pop_bulk_spec q (n : nat) : llq_valid q -> Z.of_nat n < 2 ^ 31 ->
  let k := if decide (n <= length (llq_model q))%nat then n else O in
  exists q', llq_PopBulk q (Z.of_nat n) = Some (q', take k (llq_model q), Z.of_nat k) /\
    llq_valid q' /\ llq_bound q' = llq_bound q /\ llq_model q' = drop k (llq_model q).
Proof.
  intros Hv Hn. cbn zeta. pose proof (proj1 Hv) as Hp. pose proof Hp as [HI Hw].
  destruct (dequeue_spec null (sc_dequeue (ring_ q)) (ring_ q) (Z.of_nat n) LLRING_QUEUE_FIXED HI) as (r & ret & Hd & HI' & Hcon & Hret); [lia|].
  pose proof (dequeue_shape _ _ _ _ _ _ _ Hd) as Hsh. unfold llq_PopBulk. rewrite wrap_small by (unfold in_word; lia).
  assert (Hb : llring_dequeue_bulk (ring_ q) (Z.of_nat n) = do_dequeue (sc_dequeue (ring_ q)) (ring_ q) (Z.of_nat n) LLRING_QUEUE_FIXED)
    by (unfold llring_dequeue_bulk; by destruct (sc_dequeue (ring_ q))).
  rewrite Hb, Hd. cbn [mbind option_bind]. rewrite to_int_small by lia.
  assert (plain r) as Hpr by (split; [done|destruct Hsh as (_ & ? & ?); congruence]).
  exists (LLQ r (capacity_ q)). unfold moved in *. rewrite <- (contents_length null) in *. 
  change (contents null (ring_ q)) with (llq_model q) in *.
  replace (llq_model (LLQ r (capacity_ q))) with (contents null r) by done. rewrite Hcon, Hret.
  split; [|split; [by apply llq_valid_shape|split; [done|]]];
    (destruct (Z.ltb_spec (Z.of_nat (length (llq_model q))) (Z.of_nat n));
      [rewrite decide_False by lia; done|rewrite decide_True by lia; by rewrite Nat2Z.id]).
Qed.

Lemma llq_full_spec q : llq_valid q -> llq_Full q = bool_decide (length (llq_model q) = llq_bound q).
Proof.
  intros Hv. destruct (llq_room q Hv) as (Hc & Hsum & Hpos & Hle). unfold llq_Full. rewrite ring_full_spec by apply Hv.
  unfold llq_bound in *. apply eq_iff_eq_true. rewrite Z.eqb_eq, bool_decide_eq_true. lia.
Qed.

#[export] Instance llq_laws : QueueLaws LockLessQueue T.
Proof.
  refine {| valid := llq_valid; model := llq_model; bound := llq_bound |}.
  - intros q Hv. apply (llq_room q Hv).
  - intros q x Hv. destruct (llq_push_spec q x Hv) as (q' & ret & H1 & H2 & H3 & H4). exists q', ret.
    split; [done|]. split; [done|]. split; [done|]. destruct (decide _); [done|]. destruct H4 as [-> ?]. done.
  - apply llq_push_bulk_spec.
  - intros q Hv. destruct (llq_pop_spec q Hv) as (q' & out & ret & H1 & H2 & H3 & H4). exists q', out, ret.
    split; [done|]. split; [done|]. split; [done|]. destruct (llq_model q); [|done]. destruct H4 as [-> ?]. done.
  - apply llq_pop_bulk_spec.
  - intros q Hv. apply (plain_count null (ring_ q) (proj1 Hv)).
  - intros q Hv. apply ring_empty_spec, Hv.
  - apply llq_full_spec.
Defined.

(** ** Construction and resizing *)
Lemma is_pow2_pow k : 0 <= k <= 31 -> is_pow2 (2 ^ k) = true.
Proof.
  intros Hk. unfold is_pow2. assert (0 < 2 ^ k <= 2 ^ 31) by (split; [apply Z.pow_pos_nonneg|apply Z.pow_le_mono_r]; lia).
  rewrite (wrap_small 64) by (unfold in_word; lia). replace (2 ^ k - 1) with (Z.ones k) by (rewrite Z.ones_equiv; lia).
  rewrite Z.land_ones, Z.mod_same by lia. done.
Qed.

Lemma new_spec k sp sc : 0 <= k <= 31 -> exists q, LockLessQueue_new (2 ^ k) sp sc = Some q /\ llq_valid q /\
  llq_Capacity q = 2 ^ k /\ llq_model q = [].
Proof.
  intros Hk. assert (0 < 2 ^ k <= 2 ^ 31) by (split; [apply Z.pow_pos_nonneg|apply Z.pow_le_mono_r]; lia).
  unfold LockLessQueue_new. rewrite is_pow2_pow, wrap_small by (done || unfold in_word; lia).
  destruct (plain_init null (2 ^ k) sp sc) as (r & -> & Hp & Hs & Hc); [by exists k|].
  eexists. split; [done|]. split; [by split|done].
Qed.

Lemma move_all_spec fuel old new : plain old -> plain new -> (length (contents null old) < fuel)%nat ->
  Z.of_nat (length (contents null old)) <= free_slots new ->
  exists old' new', move_all fuel old new = Some (old', new') /\ plain new' /\ same_shape new new' /\
    contents null new' = contents null new ++ contents null old.
Proof.
  revert old new. induction fuel as [|fuel IH]; intros old new Ho Hn Hf Hroom; [lia|]. cbn [move_all].
  rewrite llring_dequeue_do.
  destruct (plain_dequeue_one null (sc_dequeue old) old Ho) as (old' & out & ret & -> & Ho' & _ & Hd). cbn [mbind option_bind].
  destruct (contents null old) as [|x rest]; cbn [length] in *.
  - destruct Hd as [-> _]. exists old', new. by rewrite app_nil_r.
  - destruct Hd as (-> & -> & Hc). cbn [Z.eqb]. rewrite llring_enqueue_do.
    destruct (plain_enqueue_one null (sp_enqueue new) new x Hn) as (new' & ret & -> & Hn' & Hsh & He). cbn [mbind option_bind].
    destruct (Z.eqb_spec (free_slots new) 0); [lia|]. destruct He as [_ Hcn].
    destruct (plain_count null new Hn) as (_ & Hsum & _). destruct (plain_count null new' Hn') as (_ & Hsum' & _).
    pose proof Hsh as (Hs1 & Hs2 & Hs3). rewrite Hcn, length_app in Hsum'. cbn [length] in Hsum'.
    destruct (IH old' new' Ho' Hn') as (old2 & new2 & -> & Hp2 & (H1 & H2 & H3) & Hc2); [rewrite Hc; lia|rewrite Hc; lia|].
    exists old2, new2. split; [done|]. split; [done|]. split; [unfold same_shape; split; [|split]; congruence|].
    by rewrite Hc2, Hcn, Hc, <- app_assoc.
Qed.

(** A resize to a power of two above the size keeps what waits, in order. *)
Lemma llq_resize_spec q k : llq_valid q -> 0 <= k <= 31 ->
  if decide (Z.of_nat (length (llq_model q)) < 2 ^ k)
  then exists q', llq_Resize q (2 ^ k) = Some (q', 0) /\ llq_valid q' /\ llq_Capacity q' = 2 ^ k /\ llq_model q' = llq_model q
  else llq_Resize q (2 ^ k) = Some (q, -1).
Proof.
  intros Hv Hk. pose proof (law_size q Hv) as Hs. cbn in Hs. unfold llq_Resize. rewrite is_pow2_pow, Hs by done.
  destruct (decide _) as [Hlt|Hge]; [|by rewrite (proj2 (Z.leb_le _ _)) by lia].
  rewrite (proj2 (Z.leb_gt _ _)) by lia. cbn [negb orb].
  assert (0 < 2 ^ k <= 2 ^ 31) by (split; [apply Z.pow_pos_nonneg|apply Z.pow_le_mono_r]; lia).
  rewrite wrap_small by (unfold in_word; lia).
  destruct (plain_init null (2 ^ k) (sp_enqueue (ring_ q)) (sc_dequeue (ring_ q))) as (new & -> & Hp & Hsl & Hc); [by exists k|].
  destruct (plain_count null new Hp) as (_ & Hsum & _). rewrite Hc, Hsl in Hsum. cbn [length] in Hsum.
  destruct (move_all_spec (S (Z.to_nat (Z.of_nat (length (llq_model q))))) (ring_ q) new) as (old' & new' & -> & Hp' & (_ & Hsl' & _) & Hc');
    [apply Hv|done|unfold llq_model; lia|unfold llq_model in *; lia|].
  cbn [mbind option_bind]. eexists. split; [done|]. split; [split; cbn; [done|congruence]|]. split; [done|].
  unfold llq_model. cbn [ring_]. by rewrite Hc', Hc.
Qed.

Lemma llq_resize_refuses q n : 0 < n -> is_pow2 n = false -> llq_Resize q n = Some (q, -1).
Proof. intros Hn Hp. unfold llq_Resize. rewrite Hp. by rewrite orb_true_r. Qed.
End LockLess.
Arguments LockLessQueue : clear implicits.

(** ** Any program over the abstract class *)
Inductive queue_op (T : Type) := OpPush (x : T) | OpPushBulk (xs : list T) | OpPop | OpPopBulk (n : nat).
Arguments OpPush {T} _. Arguments OpPushBulk {T} _. Arguments OpPop {T}. Arguments OpPopBulk {T} _.

Definition small_op {T} (op : queue_op T) : Prop :=
  match op with
  | OpPushBulk xs => Z.of_nat (length xs) < 2 ^ 31
  | OpPopBulk n => Z.of_nat n < 2 ^ 31
  | _ => True
  end.

Section Program.
Context {Q T : Type} {ops : Queue Q T} {laws : QueueLaws Q T}.

(** What a call delivers: the objects taken out. *)
Definition run_op (q : Q) (op : queue_op T) : option (Q * list T) :=
  match op with
  | OpPush x => '(q, _) ← Push q x; Some (q, [])
  | OpPushBulk xs => '(q, _) ← PushBulk q xs (Z.of_nat (length xs)); Some (q, [])
  | OpPop => '(q, out, ret) ← Pop q; Some (q, if ret =? 0 then out else [])
  | OpPopBulk n => '(q, out, _) ← PopBulk q (Z.of_nat n); Some (q, out)
  end.

Fixpoint run_ops (q : Q) (l : list (queue_op T)) : option (Q * list T) :=
  match l with
  | [] => Some (q, [])
  | op :: l => '(q, out) ← run_op q op; '(q, outs) ← run_ops q l; Some (q, out ++ outs)
  end.

(** The same on a bounded list. *)
Definition spec_op (room : nat) (l : list T) (op : queue_op T) : list T * list T :=
  match op with
  | OpPush x => (if decide (length l < room)%nat then l ++ [x] else l, [])
  | OpPushBulk xs => (l ++ (if decide (length l + length xs <= room)%nat then xs else []), [])
  | OpPop => (drop 1 l, take 1 l)
  | OpPopBulk n => let k := if decide (n <= length l)%nat then n else O in (drop k l, take k l)
  end.

Fixpoint spec_ops (room : nat) (l : list T) (ops : list (queue_op T)) : list T * list T :=
  match ops with
  | [] => (l, [])
  | op :: ops => let '(l, out) := spec_op room l op in let '(l, outs) := spec_ops room l ops in (l, out ++ outs)
  end.

Lemma run_op_spec q op : valid q -> small_op op -> exists q', valid q' /\ bound q' = bound q /\
  run_op q op = Some (q', snd (spec_op (bound q) (model q) op)) /\ model q' = fst (spec_op (bound q) (model q) op).
Proof.
  intros Hv Hs. destruct op as [x|xs| |n]; cbn [run_op spec_op fst snd].
  - destruct (law_push q x Hv) as (q' & ret & -> & Hv' & Hb & Hc). exists q'. cbn. destruct (decide _); destruct Hc; done.
  - destruct (law_push_bulk q xs Hv Hs) as (q' & -> & Hv' & Hb & Hc). by exists q'.
  - destruct (law_pop q Hv) as (q' & out & ret & -> & Hv' & Hb & Hc). exists q'. cbn [mbind option_bind].
    split; [done|]. split; [done|]. destruct (model q) as [|x rest].
    + destruct Hc as [Hr Hc]. destruct (Z.eqb_spec ret 0); [lia|done].
    + destruct Hc as (-> & -> & ->). done.
  - destruct (law_pop_bulk q n Hv Hs) as (q' & -> & Hv' & Hb & Hc). by exists q'.
Qed.

Lemma run_ops_spec l q : valid q -> Forall small_op l -> exists q', valid q' /\ bound q' = bound q /\
  run_ops q l = Some (q', snd (spec_ops (bound q) (model q) l)) /\ model q' = fst (spec_ops (bound q) (model q) l).
Proof.
  revert q. induction l as [|op l IH]; intros q Hv Hs; [by exists q|]. inversion Hs as [|? ? Hop Hops]; subst.
  destruct (run_op_spec q op Hv Hop) as (q1 & Hv1 & Hb1 & Hr1 & Hm1). destruct (IH q1 Hv1 Hops) as (q2 & Hv2 & Hb2 & Hr2 & Hm2).
  exists q2. split; [done|]. split; [congruence|]. cbn [run_ops spec_ops]. rewrite Hr1. cbn [mbind option_bind]. rewrite Hr2.
  rewrite Hb1, Hm1 in *. destruct (spec_op _ _ _) as [l1 out]. cbn [fst snd] in *. by destruct (spec_ops _ _ _).
Qed.
End Program.

(** ** Properties *)

(** A lock-less queue of capacity [2^k], used by one thread through the abstract class, behaves as a bounded
    list of [2^k - 1] objects whatever calls are made: no call fails, single and bulk pops deliver what was
    accepted in order, bulk calls move everything or nothing; and a resize keeps what waits. *)
Theorem lock_less_queue_refines {T} (null : T) k sp sc ops : 0 <= k <= 31 -> Forall small_op ops ->
  exists q0 q, LockLessQueue_new null (2 ^ k) sp sc = Some q0 /\
    run_ops (ops := llq_Queue null) q0 ops = Some (q, snd (spec_ops (Z.to_nat (2 ^ k - 1)) [] ops)) /\
    llq_model null q = fst (spec_ops (Z.to_nat (2 ^ k - 1)) [] ops) /\
    forall k', 0 <= k' <= 31 ->
      if decide (Z.of_nat (length (llq_model null q)) < 2 ^ k')
      then exists q', llq_Resize null q (2 ^ k') = Some (q', 0) /\ llq_Capacity q' = 2 ^ k' /\ llq_model null q' = llq_model null q
      else llq_Resize null q (2 ^ k') = Some (q, -1).
Proof.
  intros Hk Hs. destruct (new_spec null k sp sc Hk) as (q0 & Hnew & Hv & Hcap & Hm). exists q0.
  destruct (run_ops_spec (ops := llq_Queue null) (laws := llq_laws null) ops q0 Hv Hs) as (q & Hvq & Hb & Hr & Hmq).
  assert (Hb0 : bound (QueueLaws := llq_laws null) q0 = Z.to_nat (2 ^ k - 1)) by (cbn; unfold llq_bound, llq_Capacity in *; by rewrite Hcap).
  change (model (QueueLaws := llq_laws null) q0) with (llq_model null q0) in Hr, Hmq. rewrite Hb0, Hm in Hr, Hmq.
  exists q. split; [done|]. split; [done|]. split; [done|]. intros k' Hk'.
  pose proof (llq_resize_spec null q k' Hvq Hk') as Hrs. destruct (decide _); [|done].
  destruct Hrs as (q' & ? & _ & ? & ?). by exists q'.
Qed.

Definition ex_ops : list (queue_op Z) := [OpPush 1; OpPushBulk [2; 3; 4]; OpPushBulk [5; 6]; OpPop; OpPopBulk 2; OpPop].

Example ex_ops_run : snd (spec_ops 3 [] ex_ops) = [1; 5; 6].
Proof. reflexivity. Qed.

Lemma lock_less_queue_refines_witness : exists q0 q : LockLessQueue Z, LockLessQueue_new 0 (2 ^ 2) true true = Some q0 /\
  run_ops (ops := llq_Queue 0) q0 ex_ops = Some (q, [1; 5; 6]).
Proof.
  destruct (lock_less_queue_refines 0 2 true true ex_ops) as (q0 & q & Hn & Hr & _);
    [lia|repeat constructor; cbn; lia|]. exists q0, q. split; [exact Hn|exact Hr].
Defined.

(** The comment on [Push] says that -1 is the exceeded quota and -2 a full ring; the ring's codes are the
    other way round. *)
Example push_full : (q ← LockLessQueue_new 0 1 true true; '(_, ret) ← llq_Push q 7; Some ret) = Some (-1).
Proof. vm_compute. reflexivity. Qed.

(** The capacity reported is not what fits: a queue that says 4 takes 3 objects. *)
Example capacity_off_by_one :
  (q ← LockLessQueue_new 0 4 true true;
   '(q, ret) ← llq_PushBulk q [1; 2; 3; 4] 4; Some (llq_Capacity q, ret)) = Some (4, 0).
Proof. vm_compute. reflexivity. Qed.
