(* ===== verification/Queue.v ===== *)
(** The queue module: [core/modules/queue.h], [core/modules/queue.cc] and the backpressure signals
    of [core/module.h].

    Packets wait in a ring (LLRing.v) between the task that brings them and the task that takes them
    on.  Whether memory can be allocated is an argument; the packets that are freed and the batches
    that are handed on are results. *)
From S2P Require Import Prelude Common LLRing.
Open Scope Z_scope.

Definition DEFAULT_QUEUE_SIZE : Z := 1024.
Definition kMaxBurst : Z := 32.

(** [size * 0.90] and [size * 0.15], truncated: the products of the doubles with a power of two
    are exact. *)
Definition high_of (size : Z) : Z := size * 8106479329266893 / 2 ^ 53.
Definition low_of (size : Z) : Z := size * 5404319552844595 / 2 ^ 55.

Section Queue.
Context {P : Type} (null : P) (total_len : P -> Z).
Abbreviation ring_t := (llring P).

Record Queue := MkQueue {
  queue_ : option ring_t;
  prefetch_ : bool;
  backpressure_ : bool;
  burst_ : Z;
  size_ : Z;
  high_water_ : Z;
  low_water_ : Z;
  enqueued : Z;
  dequeued : Z;
  dropped : Z;
  (** [Module]: whether this module is overloaded, how many of its children are, and the
      [children_overload_] of its parent tasks. *)
  overload_ : bool;
  children_overload_ : Z;
  parents : list Z }.

Definition new_queue (parents : list Z) : Queue := MkQueue None false false 0 0 0 0 0 0 0 false 0 parents.

Definition with_ring (q : Queue) (r : ring_t) : Queue :=
  MkQueue (Some r) (prefetch_ q) (backpressure_ q) (burst_ q) (size_ q) (high_water_ q) (low_water_ q)
    (enqueued q) (dequeued q) (dropped q) (overload_ q) (children_overload_ q) (parents q).
Definition with_stats (q : Queue) (e d x : Z) : Queue :=
  MkQueue (queue_ q) (prefetch_ q) (backpressure_ q) (burst_ q) (size_ q) (high_water_ q) (low_water_ q)
    e d x (overload_ q) (children_overload_ q) (parents q).
Definition with_overload (q : Queue) (o : bool) (ps : list Z) : Queue :=
  MkQueue (queue_ q) (prefetch_ q) (backpressure_ q) (burst_ q) (size_ q) (high_water_ q) (low_water_ q)
    (enqueued q) (dequeued q) (dropped q) o (children_overload_ q) ps.
Definition with_size (q : Queue) (size : Z) : Queue :=
  MkQueue (queue_ q) (prefetch_ q) (backpressure_ q) (burst_ q) size (high_water_ q) (low_water_ q)
    (enqueued q) (dequeued q) (dropped q) (overload_ q) (children_overload_ q) (parents q).
Definition with_burst (q : Queue) (burst : Z) : Queue :=
  MkQueue (queue_ q) (prefetch_ q) (backpressure_ q) burst (size_ q) (high_water_ q) (low_water_ q)
    (enqueued q) (dequeued q) (dropped q) (overload_ q) (children_overload_ q) (parents q).
Definition with_flags (q : Queue) (prefetch backpressure : bool) : Queue :=
  MkQueue (queue_ q) prefetch backpressure (burst_ q) (size_ q) (high_water_ q) (low_water_ q)
    (enqueued q) (dequeued q) (dropped q) (overload_ q) (children_overload_ q) (parents q).
Definition with_children (q : Queue) (n : Z) : Queue :=
  MkQueue (queue_ q) (prefetch_ q) (backpressure_ q) (burst_ q) (size_ q) (high_water_ q) (low_water_ q)
    (enqueued q) (dequeued q) (dropped q) (overload_ q) n (parents q).

Definition SignalOverload (q : Queue) : Queue :=
  if overload_ q then q else with_overload q true (map (fun n => n + 1) (parents q)).
Definition SignalUnderload (q : Queue) : Queue :=
  if negb (overload_ q) then q else with_overload q false (map (fun n => n - 1) (parents q)).

Definition AdjustWaterLevels (q : Queue) : Queue :=
  MkQueue (queue_ q) (prefetch_ q) (backpressure_ q) (burst_ q) (size_ q) (high_of (size_ q)) (low_of (size_ q))
    (enqueued q) (dequeued q) (dropped q) (overload_ q) (children_overload_ q) (parents q).

(** The packets of the old ring go to the new one; those it has no room for are freed. *)
Fixpoint migrate (fuel : nat) (old new : ring_t) : option (ring_t * list P) :=
  match fuel with
  | O => None
  | S fuel =>
      '(old, out, ret) ← llring_sc_dequeue old;
      if ret =? 0 then
        match out with
        | [pkt] =>
            '(new, ret) ← llring_sp_enqueue new pkt;
            '(new, freed) ← migrate fuel old new;
            Some (new, (if ret =? - LLRING_ERR_NOBUF then [pkt] else []) ++ freed)
        | _ => None
        end
      else Some (new, [])
  end.

(** [alloc]: whether [mem_alloc_ex] succeeds.  The queue, the packets freed, and 0 or an error. *)
Definition Resize (q : Queue) (slots : Z) (alloc : bool) : option (Queue * list P * (errno + unit)) :=
  if negb alloc then Some (q, [], inl ENOMEM)
  else match llring_init null slots false true with
  | (_, None) => Some (q, [], inl EINVAL)
  | (_, Some new) =>
      '(new, freed) ← match queue_ q with
                      | Some old => migrate (S (Z.to_nat (llring_count old))) old new
                      | None => Some (new, [])
                      end;
      let q := with_ring q new in
      Some (if backpressure_ q then AdjustWaterLevels q else q, freed, inr tt)
  end.

Definition SetSize (q : Queue) (size : Z) (alloc : bool) : option (Queue * list P * (errno + unit)) :=
  if (size <? 4) || (16384 <? size) then Some (q, [], inl EINVAL)
  else if negb (Z.land size (size - 1) =? 0) then Some (q, [], inl EINVAL)
  else
    '(q, freed, r) ← Resize q size alloc;
    Some (match r with inl e => (q, freed, inl e) | inr _ => (with_size q size, freed, inr tt) end).
Definition CommandSetSize := SetSize.

(** [task]: whether [RegisterTask] succeeds. *)
Definition Init (q : Queue) (task alloc : bool) (size : Z) (backpressure prefetch : bool) : option (Queue * (errno + unit)) :=
  if negb task then Some (q, inl ENOMEM)
  else
    let q := with_burst q kMaxBurst in
    let q := if backpressure then with_flags q (prefetch_ q) true else q in
    '(q, _, r) ← if negb (size =? 0) then SetSize q size alloc else Resize (with_size q DEFAULT_QUEUE_SIZE) DEFAULT_QUEUE_SIZE alloc;
    Some (match r with
          | inl e => (q, inl e)
          | inr _ => (if prefetch then with_flags q true (backpressure_ q) else q, inr tt)
          end).

(** The packets of the batch that are freed. *)
Definition ProcessBatch (q : Queue) (batch : list P) : option (Queue * list P) :=
  r ← queue_ q;
  '(r, queued) ← llring_mp_enqueue_burst r batch (Z.of_nat (length batch));
  let q := with_ring q r in
  let q := if backpressure_ q && (high_water_ q <? llring_count r) then SignalOverload q else q in
  let q := with_stats q (u64 (enqueued q + queued)) (dequeued q) (dropped q) in
  if queued <? Z.of_nat (length batch) then
    let to_drop := Z.of_nat (length batch) - queued in
    Some (with_stats q (enqueued q) (dequeued q) (u64 (dropped q + to_drop)), drop (Z.to_nat queued) batch)
  else Some (q, []).

Record task_result := Result { block : bool; packets : Z; bits : Z }.

(** The batch that [RunNextModule] is called with, if any. *)
Definition RunTask (q : Queue) : option (Queue * option (list P) * task_result) :=
  if 0 <? children_overload_ q then Some (q, None, Result true 0 0)
  else
    r ← queue_ q;
    '(r, batch, cnt) ← llring_sc_dequeue_burst r (burst_ q);
    let q := with_ring q r in
    if cnt =? 0 then Some (q, None, Result true 0 0)
    else
      let q := with_stats q (enqueued q) (u64 (dequeued q + cnt)) (dropped q) in
      let total_bytes := foldl (fun n p => u64 (n + total_len p)) 0 batch in
      let q := if backpressure_ q && (llring_count r <? low_water_ q) then SignalUnderload q else q in
      Some (q, Some batch, Result false cnt (u64 ((total_bytes + u32 (cnt * 24)) * 8))).

Definition CommandSetBurst (q : Queue) (burst : Z) : Queue * (errno + unit) :=
  if kMaxBurst <? burst then (q, inl EINVAL) else (with_burst q burst, inr tt).

(** [count], [size], [enqueued], [dequeued] and [dropped]. *)
Definition CommandGetStatus (q : Queue) : option (Z * Z * Z * Z * Z) :=
  r ← queue_ q; Some (llring_count r, size_ q, enqueued q, dequeued q, dropped q).

Fixpoint drain (fuel : nat) (r : ring_t) : option (list P) :=
  match fuel with
  | O => None
  | S fuel =>
      '(r, out, ret) ← llring_sc_dequeue r;
      if ret =? 0 then rest ← drain fuel r; Some (out ++ rest) else Some []
  end.
(** The packets that are freed. *)
Definition DeInit (q : Queue) : option (list P) :=
  match queue_ q with Some r => drain (S (Z.to_nat (llring_count r))) r | None => Some [] end.

(** ** What happens to a queue *)
Inductive event :=
  | Arrive (batch : list P)
  | Run
  | Size (size : Z) (alloc : bool)
  | Burst (burst : Z)
  | Children (n : Z).

(** The queue, the batches handed on and the packets freed so far. *)
Definition step (s : Queue * list (list P) * list P) (e : event) : option (Queue * list (list P) * list P) :=
  let '(q, sent, freed) := s in
  match e with
  | Arrive batch => '(q, f) ← ProcessBatch q batch; Some (q, sent, freed ++ f)
  | Run => '(q, b, _) ← RunTask q; Some (q, sent ++ match b with Some b => [b] | None => [] end, freed)
  | Size size alloc => '(q, f, _) ← SetSize q size alloc; Some (q, sent, freed ++ f)
  | Burst burst => Some ((CommandSetBurst q (u64 burst)).1, sent, freed)
  | Children n => Some (with_children q n, sent, freed)
  end.
Fixpoint run (s : Queue * list (list P) * list P) (es : list event) : option (Queue * list (list P) * list P) :=
  match es with
  | [] => Some s
  | e :: es => s ← step s e; run s es
  end.
Fixpoint arrivals (es : list event) : list P :=
  match es with
  | [] => []
  | Arrive batch :: es => batch ++ arrivals es
  | _ :: es => arrivals es
  end.

End Queue.
Arguments Queue : clear implicits.
Arguments event : clear implicits.

(** The water levels are 90% and 15% of the size, for every size a queue can have. *)
Lemma water_levels k : 2 <= k <= 14 -> high_of (2 ^ k) = 2 ^ k * 90 / 100 /\ low_of (2 ^ k) = 2 ^ k * 15 / 100.
Proof.
  intros Hk. assert (k ∈ [2; 3; 4; 5; 6; 7; 8; 9; 10; 11; 12; 13; 14]) as Hin by (rewrite !elem_of_cons; lia).
  clear Hk. revert k Hin. apply Forall_forall. repeat (constructor; [split; reflexivity|]). constructor.
Qed.

Lemma land_pred_pow2 size : 4 <= size <= 16384 -> Z.land size (size - 1) = 0 -> exists p, 2 <= p <= 14 /\ size = 2 ^ p.
Proof.
  intros Hb Hl. set (p := Z.log2 size). pose proof (Z.log2_spec size ltac:(lia)) as Hp. fold p in Hp.
  assert (2 <= p <= 14) as Hp2.
  { unfold p. split; [change 2 with (Z.log2 4); apply Z.log2_le_mono; lia|change 14 with (Z.log2 16384); apply Z.log2_le_mono; lia]. }
  exists p. split; [done|]. destruct (decide (size = 2 ^ p)) as [|Hne]; [done|]. exfalso.
  assert (Z.testbit (Z.land size (size - 1)) p = true) as Ht; [|by rewrite Hl, Z.bits_0 in Ht].
  rewrite Z.land_spec. apply andb_true_iff. rewrite !Z.testbit_true by lia. rewrite Z.pow_succ_r in Hp by lia.
  assert (size / 2 ^ p = 1) as -> by (symmetry; apply Z.div_unique_pos with (size - 2 ^ p); lia).
  assert ((size - 1) / 2 ^ p = 1) as -> by (symmetry; apply Z.div_unique_pos with (size - 1 - 2 ^ p); lia).
  done.
Qed.

Lemma pow2_slots k : 2 <= k <= 14 -> exists p, 0 <= p <= 31 /\ 2 ^ k = 2 ^ p.
Proof. intros. exists k. lia. Qed.

Section Facts.
Context {P : Type} (null : P).
Implicit Types (q : Queue P).

(** ** The state *)
Definition waiting (q : Queue P) : list P := match queue_ q with Some r => contents null r | None => [] end.

Record Inv (q : Queue P) : Prop := {
  inv_ring : exists r, queue_ q = Some r /\ plain r /\ slots r = size_ q;
  inv_size : exists p, 2 <= p <= 14 /\ size_ q = 2 ^ p;
  inv_burst : 0 <= burst_ q <= kMaxBurst }.

Lemma ring_shape_trans (r1 r2 r3 : llring P) : same_shape r1 r2 -> same_shape r2 r3 -> same_shape r1 r3.
Proof. unfold same_shape. intuition congruence. Qed.

Lemma migrate_spec fuel old new : plain old -> plain new -> (length (contents null old) < fuel)%nat ->
  let n := Z.to_nat (free_slots new) in
  exists new', migrate fuel old new = Some (new', drop n (contents null old)) /\ plain new' /\ same_shape new new' /\
    contents null new' = contents null new ++ take n (contents null old).
Proof.
  cbn zeta. revert old new. induction fuel as [|fuel IH]; intros old new Ho Hn Hf; [lia|]. cbn [migrate].
  destruct (plain_dequeue_one null true old Ho) as (old' & out & ret & Heq & Ho' & _ & Hd).
  change (llring_sc_dequeue old) with (do_dequeue true old 1 LLRING_QUEUE_FIXED). rewrite Heq. cbn [mbind option_bind].
  destruct (contents null old) as [|x rest].
  - destruct Hd as [-> _]. cbn. exists new. rewrite drop_nil, take_nil, app_nil_r. done.
  - destruct Hd as (-> & -> & Hc). cbn [Z.eqb].
    destruct (plain_enqueue_one null true new x Hn) as (new' & ret & Heq' & Hn' & Hsh & He).
    change (llring_sp_enqueue new x) with (do_enqueue true new [x] 1 LLRING_QUEUE_FIXED). rewrite Heq'. cbn [mbind option_bind].
    destruct (plain_count null new Hn) as (_ & Hsum & Hpos). destruct (plain_count null new' Hn') as (_ & Hsum' & Hpos').
    destruct (IH old' new' Ho' Hn') as (new2 & -> & Hp2 & Hsh2 & Hc2); [rewrite Hc; cbn [length] in Hf; lia|].
    cbn [mbind option_bind]. exists new2. rewrite Hc in *. pose proof Hsh as (_ & Hslots & _).
    destruct (Z.eqb_spec (free_slots new) 0) as [H0|H0]; destruct He as [-> Hcn]; rewrite Hcn in Hsum', Hc2.
    + rewrite H0. replace (Z.to_nat (free_slots new')) with 0%nat in * by lia. cbn [Z.to_nat drop take] in *.
      split; [done|]. split; [done|]. split; [by eapply ring_shape_trans|done].
    + rewrite length_app in Hsum'. cbn [length] in Hsum'.
      replace (Z.to_nat (free_slots new)) with (S (Z.to_nat (free_slots new'))) by lia. cbn [drop take].
      split; [done|]. split; [done|]. split; [by eapply ring_shape_trans|]. by rewrite Hc2, <- app_assoc.
Qed.

Lemma drain_ring_spec fuel r : plain r -> (length (contents null r) < fuel)%nat -> drain fuel r = Some (contents null r).
Proof.
  revert r. induction fuel as [|fuel IH]; intros r Hp Hf; [lia|]. cbn [drain].
  destruct (plain_dequeue_one null true r Hp) as (r' & out & ret & Heq & Hp' & _ & Hd).
  change (llring_sc_dequeue r) with (do_dequeue true r 1 LLRING_QUEUE_FIXED). rewrite Heq. cbn [mbind option_bind].
  destruct (contents null r) as [|x rest].
  - by destruct Hd as [-> _].
  - destruct Hd as (-> & -> & Hc). cbn [Z.eqb]. rewrite IH; [by rewrite Hc|done|]. rewrite Hc. cbn [length] in Hf. lia.
Qed.

Definition kept (q q' : Queue P) : Prop :=
  prefetch_ q' = prefetch_ q /\ backpressure_ q' = backpressure_ q /\ burst_ q' = burst_ q /\ enqueued q' = enqueued q /\
  dequeued q' = dequeued q /\ dropped q' = dropped q /\ overload_ q' = overload_ q /\
  children_overload_ q' = children_overload_ q /\ parents q' = parents q.

(** The oldest packets that fit stay in order, the rest is freed. *)
Lemma Resize_spec q slots alloc k : slots = 2 ^ k -> 2 <= k <= 14 -> queue_ q = None \/ (exists r, queue_ q = Some r /\ plain r) ->
  exists q' freed res, Resize null q slots alloc = Some (q', freed, res) /\ size_ q' = size_ q /\ kept q q' /\
  if alloc then res = inr tt /\ (exists r, queue_ q' = Some r /\ plain r /\ LLRing.slots r = slots) /\
    waiting q' = take (Z.to_nat (slots - 1)) (waiting q) /\ freed = drop (Z.to_nat (slots - 1)) (waiting q) /\
    high_water_ q' = (if backpressure_ q then high_of (size_ q) else high_water_ q) /\
    low_water_ q' = (if backpressure_ q then low_of (size_ q) else low_water_ q)
  else res = inl ENOMEM /\ q' = q /\ freed = [].
Proof.
  intros Hs Hk Hq. unfold Resize. destruct alloc; cbn [negb]; [|by exists q, [], (inl ENOMEM)].
  destruct (plain_init null slots false true) as (new & -> & Hnew & Hslots & Hcn); [by rewrite Hs; apply pow2_slots|].
  destruct (plain_count null new Hnew) as (_ & Hsum & _). rewrite Hcn in Hsum. cbn [length] in Hsum.
  assert (exists new' freed, match queue_ q with
            | Some old => migrate (S (Z.to_nat (llring_count old))) old new
            | None => Some (new, []) end = Some (new', freed) /\ plain new' /\ LLRing.slots new' = slots /\
          contents null new' = take (Z.to_nat (slots - 1)) (waiting q) /\ freed = drop (Z.to_nat (slots - 1)) (waiting q))
    as (new' & freed & -> & Hp' & Hs' & Hc' & Hf').
  { unfold waiting. destruct Hq as [-> |(old & -> & Hold)].
    - exists new, []. rewrite take_nil, drop_nil. done.
    - destruct (plain_count null old Hold) as (Hcount & _).
      destruct (migrate_spec (S (Z.to_nat (llring_count old))) old new Hold Hnew) as (new' & -> & Hp' & (_ & Hsh & _) & Hc); [lia|].
      replace (Z.to_nat (free_slots new)) with (Z.to_nat (slots - 1)) in * by lia.
      eexists _, _. split; [reflexivity|]. split; [done|]. split; [congruence|]. by rewrite Hc, Hcn. }
  cbn [mbind option_bind]. change (backpressure_ (with_ring q new')) with (backpressure_ q).
  eexists _, freed, _. split; [reflexivity|].
  destruct (backpressure_ q) eqn:Hbp; (split; [done|]); (split; [done|]); (split; [done|]);
    (split; [by exists new'|]); (split; [exact Hc'|done]).
Qed.

(** ** The operations *)

Lemma Inv_ring q r' q' : Inv q -> plain r' -> slots r' = size_ q -> queue_ q' = Some r' -> size_ q' = size_ q -> burst_ q' = burst_ q -> Inv q'.
Proof. intros [_ Hsz Hb] Hp Hs Hr' Hs' Hb'. split; [exists r'; by rewrite Hs'|by rewrite Hs'|by rewrite Hb']. Qed.

(** What [SetSize] does to a queue that is set up. *)
Lemma SetSize_spec q size alloc : Inv q ->
  exists q' freed res, SetSize null q size alloc = Some (q', freed, res) /\ Inv q' /\ waiting q = waiting q' ++ freed /\ kept q q'.
Proof.
  intros [(r & Hr & Hp & Hs) Hsz Hb]. unfold SetSize.
  assert (Hsame : Inv q) by (split; [by exists r|done|done]).
  assert (Hno : exists q' freed (res : errno + unit), Some (q, [], inl EINVAL : errno + unit) = Some (q', freed, res) /\ Inv q' /\
    waiting q = waiting q' ++ freed /\ kept q q') by (exists q, [], (inl EINVAL); by rewrite app_nil_r).
  destruct ((size <? 4) || (16384 <? size)) eqn:Hrange; [done|].
  apply orb_false_iff in Hrange as [H4%Z.ltb_ge H16%Z.ltb_ge].
  destruct (Z.eqb_spec (Z.land size (size - 1)) 0) as [Hl|Hl]; cbn [negb]; [|done].
  destruct (land_pred_pow2 size) as (k & Hk & Hpow); [lia|done|].
  destruct (Resize_spec q size alloc k Hpow Hk) as (q' & freed & res & -> & Hs' & Hkept & Hres); [right; by exists r|].
  cbn [mbind option_bind]. destruct alloc.
  - destruct Hres as (-> & (r' & Hr' & Hp' & Hsl) & Hw & -> & _). eexists _, _, _. split; [reflexivity|].
    split; [|split; [|done]].
    + split; [exists r'; done|by exists k|]. destruct Hkept as (_ & _ & Hbu & _). cbn [with_size burst_]. by rewrite Hbu.
    + change (waiting (with_size q' size)) with (waiting q'). by rewrite Hw, take_drop.
  - destruct Hres as (-> & -> & ->). exists q, [], (inl ENOMEM). by rewrite app_nil_r.
Qed.

(** A batch that arrives: as many packets as there is room for, then the overload signal. *)
Lemma ProcessBatch_spec q batch : Inv q ->
  let k := Z.to_nat (Z.min (Z.of_nat (length batch)) (size_ q - 1 - Z.of_nat (length (waiting q)))) in
  let signal := backpressure_ q && (high_water_ q <? Z.of_nat (length (waiting q) + k)) in
  exists q', ProcessBatch q batch = Some (q', drop k batch) /\ Inv q' /\ waiting q' = waiting q ++ take k batch /\
    size_ q' = size_ q /\ backpressure_ q' = backpressure_ q /\ high_water_ q' = high_water_ q /\ low_water_ q' = low_water_ q /\
    children_overload_ q' = children_overload_ q /\ dequeued q' = dequeued q /\
    enqueued q' = u64 (enqueued q + Z.of_nat k) /\
    dropped q' = (if (k <? length batch)%nat then u64 (dropped q + Z.of_nat (length batch - k)) else dropped q) /\
    overload_ q' = (overload_ q || signal) /\
    parents q' = (if signal && negb (overload_ q) then map (fun n => n + 1) (parents q) else parents q).
Proof.
  intros HI. pose proof HI as [(r & Hr & Hp & Hs) Hsz Hb]. assert (waiting q = contents null r) as -> by (unfold waiting; by rewrite Hr). cbn zeta.
  destruct (plain_count null r Hp) as (_ & Hsum & Hpos). rewrite Hs in Hsum.
  set (k := Z.to_nat (Z.min (Z.of_nat (length batch)) (size_ q - 1 - Z.of_nat (length (contents null r))))).
  destruct (plain_enqueue_burst null r batch Hp) as (r' & He & Hp' & (_ & Hsl & _) & Hc).
  assert (Hk : Z.min (Z.of_nat (length batch)) (free_slots r) = Z.of_nat k) by lia. rewrite Hk in He, Hc. rewrite Nat2Z.id in Hc.
  destruct (plain_count null r' Hp') as (Hcount & _).
  assert (Hlen : length (contents null r') = (length (contents null r) + k)%nat) by (rewrite Hc, length_app, length_take; lia).
  unfold ProcessBatch. rewrite Hr. cbn [mbind option_bind]. rewrite He. cbn [mbind option_bind]. rewrite Hcount, Hlen.
  change (backpressure_ (with_ring q r')) with (backpressure_ q). change (high_water_ (with_ring q r')) with (high_water_ q).
  set (signal := backpressure_ q && _). set (q1 := if signal then _ else _).
  assert (Hq1 : queue_ q1 = Some r' /\ size_ q1 = size_ q /\ backpressure_ q1 = backpressure_ q /\ high_water_ q1 = high_water_ q /\
    low_water_ q1 = low_water_ q /\ children_overload_ q1 = children_overload_ q /\ burst_ q1 = burst_ q /\
    enqueued q1 = enqueued q /\ dequeued q1 = dequeued q /\ dropped q1 = dropped q /\ overload_ q1 = (overload_ q || signal) /\
    parents q1 = (if signal && negb (overload_ q) then map (fun n => n + 1) (parents q) else parents q)).
  { unfold q1, SignalOverload. destruct signal; cbn [with_ring overload_];
      [destruct (overload_ q) eqn:Ho|rewrite orb_false_r]; cbn; rewrite ?Ho; done. }
  clearbody q1. destruct Hq1 as (H1 & H2 & H3 & H4 & H5 & H6 & H7 & H8 & H9 & H10 & H11 & H12).
  assert (HI' : forall e d x, Inv (with_stats q1 e d x)) by (intros e d x; apply (Inv_ring q r'); cbn [with_stats queue_ size_ burst_]; congruence).
  destruct (Z.ltb_spec (Z.of_nat k) (Z.of_nat (length batch))) as [Hlt|Hge].
  - eexists. rewrite Nat2Z.id. split; [reflexivity|]. split; [apply HI'|].
    unfold waiting. cbn [with_stats queue_ size_ backpressure_ high_water_ low_water_ children_overload_ enqueued dequeued dropped overload_ parents].
    rewrite H1, (proj2 (Nat.ltb_lt _ _)), H8, H10 by lia. rewrite Nat2Z.inj_sub by lia. done.
  - eexists. rewrite drop_ge by lia. split; [reflexivity|]. split; [apply HI'|].
    unfold waiting. cbn [with_stats queue_ size_ backpressure_ high_water_ low_water_ children_overload_ enqueued dequeued dropped overload_ parents].
    rewrite H1, (proj2 (Nat.ltb_ge _ _)), H8 by lia. done.
Qed.

Context (total_len : P -> Z).

(** The task takes the oldest packets on, then signals underload. *)
Lemma RunTask_spec q : Inv q ->
  let k := if 0 <? children_overload_ q then 0%nat else Z.to_nat (Z.min (burst_ q) (Z.of_nat (length (waiting q)))) in
  let signal := (0 <? k)%nat && (backpressure_ q && (Z.of_nat (length (waiting q) - k) <? low_water_ q)) in
  exists q' res, RunTask total_len q = Some (q', if (0 <? k)%nat then Some (take k (waiting q)) else None, res) /\ Inv q' /\
    waiting q' = drop k (waiting q) /\
    block res = negb (0 <? k)%nat /\ packets res = Z.of_nat k /\
    size_ q' = size_ q /\ backpressure_ q' = backpressure_ q /\ high_water_ q' = high_water_ q /\ low_water_ q' = low_water_ q /\
    children_overload_ q' = children_overload_ q /\ enqueued q' = enqueued q /\ dropped q' = dropped q /\
    dequeued q' = (if (0 <? k)%nat then u64 (dequeued q + Z.of_nat k) else dequeued q) /\
    overload_ q' = (overload_ q && negb signal) /\
    parents q' = (if signal && overload_ q then map (fun n => n - 1) (parents q) else parents q).
Proof.
  intros HI. pose proof HI as [(r & Hr & Hp & Hs) Hsz Hb]. unfold RunTask. cbn zeta.
  destruct (0 <? children_overload_ q).
  { exists q, (Result true 0 0). rewrite drop_0. cbn. by rewrite andb_true_r. }
  assert (waiting q = contents null r) as -> by (unfold waiting; by rewrite Hr).
  rewrite Hr. cbn [mbind option_bind].
  destruct (plain_dequeue_burst null r (burst_ q) Hp) as (r' & -> & Hp' & (_ & Hsl & _) & Hc); [lia|].
  cbn [mbind option_bind]. set (k := Z.to_nat (Z.min (burst_ q) (Z.of_nat (length (contents null r))))) in *.
  assert (Hk : Z.min (burst_ q) (Z.of_nat (length (contents null r))) = Z.of_nat k) by lia. rewrite Hk.
  destruct (plain_count null r' Hp') as (Hcount & _). rewrite Hcount, Hc, length_drop.
  assert (HIr : forall q', queue_ q' = Some r' -> size_ q' = size_ q -> burst_ q' = burst_ q -> Inv q')
    by (intros; apply (Inv_ring q r'); congruence).
  destruct (Nat.ltb_spec 0 k) as [Hlt|Hge].
  - rewrite (proj2 (Z.eqb_neq _ _)) by lia.
    change (backpressure_ (with_stats (with_ring q r') (enqueued (with_ring q r')) (u64 (dequeued (with_ring q r') + Z.of_nat k))
      (dropped (with_ring q r')))) with (backpressure_ q).
    cbn [with_ring with_stats low_water_]. cbn [andb]. set (signal := backpressure_ q && _).
    eexists _, _. split; [reflexivity|]. unfold SignalUnderload. destruct signal; cbn [with_stats overload_ with_ring].
    + destruct (overload_ q) eqn:Ho; cbn [negb]; (split; [by apply HIr|]); cbn; rewrite ?Ho; done.
    + split; [by apply HIr|]. cbn. by rewrite andb_true_r.
  - replace k with 0%nat in * by lia. cbn. eexists _, _. split; [reflexivity|]. split; [by apply HIr|]. by rewrite andb_true_r.
Qed.

Definition arrived (e : event P) : list P := match e with Arrive batch => batch | _ => [] end.
(** What an event may free, and what of it is freed because the ring was full. *)
Definition frees (e : event P) (f : list P) : Prop :=
  match e with Arrive batch => exists k, f = drop k batch | Size _ _ => True | _ => f = [] end.
Definition rejects (e : event P) (f : list P) : list P := match e with Arrive _ => f | _ => [] end.

(** One event: the packets that wait or arrive are handed on, freed, or wait, and those that are not
    freed stay in order. *)
Lemma step_spec q e : Inv q ->
  exists q' out f, (forall sent freed, step null total_len (q, sent, freed) e = Some (q', sent ++ out, freed ++ f)) /\ Inv q' /\
    waiting q ++ arrived e ≡ₚ concat out ++ f ++ waiting q' /\
    sublist (concat out ++ waiting q') (waiting q ++ arrived e) /\
    Forall (fun b => (0 < length b <= 32)%nat) out /\
    frees e f /\
    u64 (enqueued q') = u64 (enqueued q + Z.of_nat (length (arrived e)) - Z.of_nat (length (rejects e f))) /\
    u64 (dropped q') = u64 (dropped q + Z.of_nat (length (rejects e f))) /\
    u64 (dequeued q') = u64 (dequeued q + Z.of_nat (length (concat out))).
Proof.
  intros HI. pose proof HI as [(r & Hr & Hp & Hs) Hsz Hb]. unfold kMaxBurst in Hb. destruct e as [batch| |size alloc|burst|n]; cbn [step arrived].
  - destruct (ProcessBatch_spec q batch HI) as (q' & -> & HI' & Hw & _ & _ & _ & _ & _ & Hdq & He & Hd & _).
    set (k := Z.to_nat _) in *. exists q', [], (drop k batch). cbn [mbind option_bind concat app length].
    split; [intros; by rewrite app_nil_r|]. split; [done|].
    split; [rewrite Hw, app_assoc, (Permutation_app_comm _ (waiting q)), <- app_assoc; by rewrite (Permutation_app_comm (drop k batch)), take_drop|].
    split; [rewrite Hw; apply sublist_app; [done|apply sublist_take]|]. split; [constructor|].
    assert (k <= length batch)%nat as Hk by (unfold k; lia).
    split; [by exists k|]. cbn [rejects]. rewrite Hdq, Z.add_0_r, length_drop. split; [|split; [|done]].
    + rewrite He, wrap_wrap. f_equal. lia.
    + rewrite Hd. destruct (Nat.ltb_spec k (length batch)) as [Hlt|Hge]; rewrite ?wrap_wrap; f_equal; lia.
  - destruct (RunTask_spec q HI) as (q' & res & -> & HI' & Hw & _ & _ & _ & _ & _ & _ & _ & He & Hd & Hdq & _).
    set (k := if 0 <? children_overload_ q then 0%nat else _) in *. cbn [mbind option_bind].
    assert (k <= 32)%nat as Hk by (unfold k; destruct (_ <? _); lia).
    assert (k <= length (waiting q))%nat as Hkw by (unfold k; destruct (_ <? _); lia).
    exists q', (if (0 <? k)%nat then [take k (waiting q)] else []), []. rewrite He, Hd, Hdq, app_nil_r. cbn [rejects length].
    rewrite Z.sub_0_r, !Z.add_0_r.
    destruct (Nat.ltb_spec 0 k) as [Hlt|Hge]; cbn [concat app length].
    + split; [intros; by rewrite app_nil_r|]. split; [done|]. rewrite app_nil_r, Hw, take_drop. do 2 (split; [done|]).
      split; [constructor; [rewrite length_take; lia|constructor]|]. do 3 (split; [done|]). rewrite length_take, Nat.min_l by done.
      by rewrite wrap_wrap.
    + replace k with 0%nat in * by lia. rewrite Hw, drop_0. split; [intros; by rewrite !app_nil_r|]. split; [done|].
      do 2 (split; [done|]). split; [constructor|]. do 3 (split; [done|]). by rewrite Z.add_0_r.
  - destruct (SetSize_spec q size alloc HI) as (q' & f & res & -> & HI' & Hw & _ & _ & _ & He & Hdq & Hd & _).
    exists q', [], f. cbn [mbind option_bind concat app rejects length]. rewrite He, Hd, Hdq, Z.sub_0_r, !Z.add_0_r, app_nil_r.
    split; [intros; by rewrite app_nil_r|]. split; [done|]. split; [rewrite Hw; apply Permutation_app_comm|].
    split; [rewrite Hw; by apply sublist_inserts_r|]. split; [constructor|done].
  - exists (CommandSetBurst q (u64 burst)).1, [], []. cbn [concat app rejects length]. rewrite Z.sub_0_r, !Z.add_0_r, app_nil_r.
    assert (Hq : (CommandSetBurst q (u64 burst)).1 = q \/ 0 <= u64 burst <= kMaxBurst /\ (CommandSetBurst q (u64 burst)).1 = with_burst q (u64 burst)).
    { unfold CommandSetBurst. destruct (Z.ltb_spec kMaxBurst (u64 burst)); [by left|right]. split; [|done].
      assert (in_word 64 (u64 burst)) as [? _] by (by apply wrap_range). done. }
    split; [intros; by rewrite !app_nil_r|].
    destruct Hq as [-> |[Hbu ->]]; (split; [|done]); [done|]. split; [by exists r|done|done].
  - exists (with_children q n), [], []. cbn [concat app rejects length]. rewrite Z.sub_0_r, !Z.add_0_r, app_nil_r.
    split; [intros; by rewrite !app_nil_r|]. split; [|done]. split; [by exists r|done|done].
Qed.
End Facts.

Section Properties.
Context {P : Type} (null : P) (total_len : P -> Z).
Implicit Types (q : Queue P).

(** The packets freed because the ring was full, of the packets freed by each event. *)
Fixpoint rejected (es : list (event P)) (fs : list (list P)) : list P :=
  match es, fs with e :: es, f :: fs => rejects e f ++ rejected es fs | _, _ => [] end.

Lemma run_spec es : forall q, Inv q -> exists q' out fs,
  (forall sent freed, run null total_len (q, sent, freed) es = Some (q', sent ++ out, freed ++ concat fs)) /\ Inv q' /\
  waiting null q ++ arrivals es ≡ₚ concat out ++ concat fs ++ waiting null q' /\
  sublist (concat out ++ waiting null q') (waiting null q ++ arrivals es) /\
  Forall (fun b => (0 < length b <= 32)%nat) out /\ Forall2 frees es fs /\
  u64 (enqueued q') = u64 (enqueued q + Z.of_nat (length (arrivals es)) - Z.of_nat (length (rejected es fs))) /\
  u64 (dropped q') = u64 (dropped q + Z.of_nat (length (rejected es fs))) /\
  u64 (dequeued q') = u64 (dequeued q + Z.of_nat (length (concat out))).
Proof.
  induction es as [|e es IH]; intros q HI; cbn [run arrivals].
  { exists q, [], []. split; [intros; by rewrite !app_nil_r|]. split; [done|]. cbn. rewrite !app_nil_r, Z.sub_0_r, !Z.add_0_r. done. }
  destruct (step_spec null total_len q e HI) as (q1 & o1 & f1 & Hstep & HI1 & Hp1 & Hs1 & Ho1 & Hf1 & He1 & Hr1 & Hd1).
  destruct (IH q1 HI1) as (q2 & o2 & f2 & Hrun & HI2 & Hp2 & Hs2 & Ho2 & Hf2 & He2 & Hr2 & Hd2).
  assert (Harr : arrivals (e :: es) = arrived e ++ arrivals es) by (by destruct e).
  change (match e with Arrive batch => batch ++ arrivals es | _ => arrivals es end) with (arrivals (e :: es)). rewrite Harr.
  exists q2, (o1 ++ o2), (f1 :: f2). cbn [concat rejected].
  split; [|split; [done|split; [|split; [|split; [|split; [|split; [|split]]]]]]].
  - intros sent freed. rewrite Hstep. cbn [mbind option_bind]. by rewrite Hrun, !app_assoc.
  - rewrite app_assoc, Hp1, concat_app, <- !app_assoc, Hp2. f_equiv. apply Permutation_app_swap_app.
  - rewrite app_assoc, concat_app, <- app_assoc. etransitivity; [apply sublist_app; [reflexivity|exact Hs2]|].
    rewrite app_assoc. by apply sublist_app.
  - by apply Forall_app.
  - by constructor.
  - rewrite He2, !length_app, !Nat2Z.inj_add. rewrite <- Z.add_sub_assoc, <- wrap_sum, He1, wrap_sum. f_equal. lia.
  - rewrite Hr2, length_app, Nat2Z.inj_add, Z.add_assoc, <- wrap_sum, Hr1, wrap_sum. done.
  - rewrite Hd2, concat_app, length_app, Nat2Z.inj_add, Z.add_assoc, <- wrap_sum, Hd1, wrap_sum. done.
Qed.

(** ** Set-up *)
Lemma Init_spec ps size alloc backpressure prefetch q :
  Init null (new_queue ps) true alloc size backpressure prefetch = Some (q, inr tt) ->
  let levels := if size =? 0 then DEFAULT_QUEUE_SIZE else 0 in
  Inv q /\ waiting null q = [] /\ size_ q = (if size =? 0 then DEFAULT_QUEUE_SIZE else size) /\
  backpressure_ q = backpressure /\ overload_ q = false /\ parents q = ps /\ children_overload_ q = 0 /\
  (backpressure = true -> high_water_ q = high_of levels /\ low_water_ q = low_of levels).
Proof.
  unfold Init. cbn [negb]. set (q0 := if backpressure then _ else _).
  assert (Hq0 : queue_ q0 = None /\ size_ q0 = 0 /\ backpressure_ q0 = backpressure /\ burst_ q0 = kMaxBurst /\
    overload_ q0 = false /\ parents q0 = ps /\ children_overload_ q0 = 0) by (by destruct backpressure).
  clearbody q0. destruct Hq0 as (H1 & H2 & H3 & H4 & H5 & H6 & H7).
  assert (Hdone : forall k n q1 q2 res f, n = 2 ^ k -> 2 <= k <= 14 -> (q1 = q0 \/ q1 = with_size q0 n) ->
    Resize null q1 n alloc = Some (q2, f, res) -> res = inr tt ->
    Inv (with_size q2 n) /\ waiting null (with_size q2 n) = [] /\ backpressure_ q2 = backpressure /\ overload_ q2 = false /\ parents q2 = ps /\
    children_overload_ q2 = 0 /\ size_ q2 = size_ q1 /\
    (backpressure = true -> high_water_ q2 = high_of (size_ q1) /\ low_water_ q2 = low_of (size_ q1))).
  { intros k n q1 q2 res f Hn Hk Hq1 Hr ->. assert (queue_ q1 = None) as Hnone by (by destruct Hq1 as [-> | ->]).
    destruct (Resize_spec null q1 n alloc k Hn Hk) as (q' & f' & res' & Hr' & Hsz & Hkept & Hres); [by left|].
    rewrite Hr in Hr'. injection Hr' as <- <- <-. destruct alloc; [|by destruct Hres].
    destruct Hres as (_ & (r & Hqr & Hpl & Hsl) & Hw & _ & Hh & Hl). destruct Hkept as (_ & Hbp & Hbu & _ & _ & _ & Ho & Hc & Hps).
    assert (Hwq : waiting null q1 = []) by (unfold waiting; by rewrite Hnone).
    split; [|split; [|split; [|split; [|split; [|split; [|split; [done|]]]]]]].
    - split; [by exists r|by exists k|]. cbn [with_size burst_]. destruct Hq1 as [-> | ->]; cbn in Hbu; rewrite Hbu, H4; by vm_compute.
    - change (waiting null (with_size q2 n)) with (waiting null q2). by rewrite Hw, Hwq, take_nil.
    - rewrite Hbp. by destruct Hq1 as [-> | ->].
    - rewrite Ho. by destruct Hq1 as [-> | ->].
    - rewrite Hps. by destruct Hq1 as [-> | ->].
    - rewrite Hc. by destruct Hq1 as [-> | ->].
    - intros ->. rewrite Hh, Hl. destruct Hq1 as [-> | ->]; cbn [with_size backpressure_]; by rewrite H3. }
  destruct (Z.eqb_spec size 0) as [->|Hne]; cbn [negb].
  - destruct (Resize null (with_size q0 DEFAULT_QUEUE_SIZE) _ _) as [[[q2 f] res]|] eqn:Hr; [|done]. cbn [mbind option_bind].
    destruct res as [e|[]]; [done|]. intros Hq.
    destruct (Hdone 10 DEFAULT_QUEUE_SIZE _ _ _ _ eq_refl ltac:(lia) (or_intror eq_refl) Hr eq_refl)
      as (HI & Hw & Hbp & Ho & Hps & Hc & Hsz & Hlev). cbn [with_size size_] in Hsz, Hlev.
    assert (Hsame : with_size q2 DEFAULT_QUEUE_SIZE = q2) by (destruct q2; cbn in *; by rewrite Hsz).
    rewrite Hsame in HI, Hw. injection Hq as <-. destruct prefetch; [|done].
    split; [by destruct HI|]. done.
  - unfold SetSize. destruct ((size <? 4) || (16384 <? size)) eqn:Hrange; [done|].
    apply orb_false_iff in Hrange as [?%Z.ltb_ge ?%Z.ltb_ge].
    destruct (Z.eqb_spec (Z.land size (size - 1)) 0) as [Hl|Hl]; cbn [negb]; [|done].
    destruct (land_pred_pow2 size) as (k & Hk & Hpow); [lia|done|].
    destruct (Resize null q0 size alloc) as [[[q2 f] res]|] eqn:Hr; [|done]. cbn [mbind option_bind].
    destruct res as [e|[]]; [done|]. intros Hq.
    destruct (Hdone k size _ _ _ _ Hpow Hk (or_introl eq_refl) Hr eq_refl)
      as (HI & Hw & Hbp & Ho & Hps & Hc & Hsz & Hlev). rewrite H2 in Hlev.
    injection Hq as <-. destruct prefetch; [|done]. split; [by destruct HI|]. done.
Qed.
End Properties.

(** C28: a queue loses and reorders nothing of its own accord.  Whatever happens to it, of the packets
    that waited or arrived each one is handed on in a batch of at most 32 packets, or freed (the end
    of an arriving batch, or when the ring is resized), or waits; the ones that are not freed leave
    in the order they came; the ring never holds as many packets as its size.  The counters, of 64 bits, count apart
    the packets accepted, those freed on arrival and those handed on.  A batch that arrives is accepted as far as
    there is room, and the rest of it, and no more, is freed.  What still waits at the end is freed. *)
Theorem queue_conserves {P} (null : P) (total_len : P -> Z) q es : Inv q ->
  exists q' sent fs, run null total_len (q, [], []) es = Some (q', sent, concat fs) /\ Inv q' /\
  waiting null q ++ arrivals es ≡ₚ concat sent ++ concat fs ++ waiting null q' /\
  sublist (concat sent ++ waiting null q') (waiting null q ++ arrivals es) /\
  Forall (fun b => (0 < length b <= 32)%nat) sent /\ Forall2 frees es fs /\
  Z.of_nat (length (waiting null q')) < size_ q' /\
  u64 (enqueued q') = u64 (enqueued q + Z.of_nat (length (arrivals es)) - Z.of_nat (length (rejected es fs))) /\
  u64 (dropped q') = u64 (dropped q + Z.of_nat (length (rejected es fs))) /\
  u64 (dequeued q') = u64 (dequeued q + Z.of_nat (length (concat sent))) /\
  CommandGetStatus q' = Some (Z.of_nat (length (waiting null q')), size_ q', enqueued q', dequeued q', dropped q') /\
  (forall batch, let room := Z.to_nat (size_ q' - 1 - Z.of_nat (length (waiting null q'))) in
     exists q2, ProcessBatch q' batch = Some (q2, drop room batch) /\ waiting null q2 = waiting null q' ++ take room batch) /\
  DeInit q' = Some (waiting null q').
Proof.
  intros HI. destruct (run_spec null total_len es q HI) as (q' & out & fs & Hrun & HI' & Hperm & Hsub & Hb & Hf & He & Hr & Hd).
  exists q', out, fs. split; [apply (Hrun [] [])|]. do 5 (split; [done|]).
  pose proof (fun batch => ProcessBatch_spec null q' batch HI') as Hroom.
  destruct HI' as [(r & Hqr & Hp & Hs) _ _]. destruct (plain_count null r Hp) as (Hc & Hsum & Hpos).
  unfold waiting, CommandGetStatus, DeInit in *. rewrite Hqr in *. cbn [mbind option_bind]. rewrite Hc.
  split; [lia|]. do 4 (split; [done|]). split; [|rewrite (drain_ring_spec null); [done|done|lia]].
  intros batch. destruct (Hroom batch) as (q2 & Hp2 & _ & Hw2 & _). exists q2.
  destruct (Z.min_spec (Z.of_nat (length batch)) (size_ q' - 1 - Z.of_nat (length (contents null r)))) as [[Hlt Hmin]|[_ Hmin]];
    rewrite Hmin in *; [|by split].
  rewrite Nat2Z.id in *. rewrite (drop_ge _ (Z.to_nat _)), (take_ge _ (Z.to_nat _)) by lia. rewrite drop_all in Hp2. rewrite firstn_all in Hw2.
  by split.
Qed.

(** With the levels of its size, a queue is overloaded from the moment more than 90% of it are in use,
    and no longer when the task leaves less than 15%; its parents count it once. *)
Theorem queue_backpressure {P} (null : P) (total_len : P -> Z) q batch : Inv q -> backpressure_ q = true ->
  high_water_ q = high_of (size_ q) -> low_water_ q = low_of (size_ q) ->
  let percent n q := size_ q * n / 100 in
  (exists q' f, ProcessBatch q batch = Some (q', f) /\
     overload_ q' = (overload_ q || (percent 90 q <? Z.of_nat (length (waiting null q'))))) /\
  (exists q' b res, RunTask total_len q = Some (q', b, res) /\
     overload_ q' = (overload_ q && negb (bool_decide (is_Some b) && (Z.of_nat (length (waiting null q')) <? percent 15 q)))).
Proof.
  intros HI Hbp Hh Hl. cbn zeta. destruct (inv_size q HI) as (k & Hk & Hsz). destruct (water_levels k Hk) as [Hhi Hlo].
  rewrite <- Hsz in Hhi, Hlo. split.
  - destruct (ProcessBatch_spec null q batch HI) as (q' & -> & _ & Hw & _ & _ & _ & _ & _ & _ & _ & _ & Ho & _).
    eexists _, _. split; [reflexivity|]. rewrite Ho, Hbp, Hh, Hhi, Hw, length_app, length_take. cbn [andb].
    do 2 f_equal. lia.
  - destruct (RunTask_spec null total_len q HI) as (q' & res & -> & _ & Hw & _ & _ & _ & _ & _ & _ & _ & _ & _ & _ & Ho & _).
    set (n := if 0 <? children_overload_ q then 0%nat else _) in *.
    eexists _, _, _. split; [reflexivity|]. rewrite Ho, Hbp, Hl, Hlo, Hw, length_drop. by destruct (0 <? n)%nat.
Qed.

Section Flat.
Context {P : Type} (null : P) (total_len : P -> Z).
Implicit Types (q : Queue P).

(** A queue with the water levels of size 0. *)
Record flat (q : Queue P) : Prop := {
  flat_inv : Inv q;
  flat_backpressure : backpressure_ q = true;
  flat_high : high_water_ q = 0;
  flat_low : low_water_ q = 0;
  flat_waiting : waiting null q <> [] -> overload_ q = true }.

Definition signalled (q q' : Queue P) (up : bool) : Prop :=
  overload_ q' = overload_ q || up /\
  parents q' = if overload_ q then parents q else if up then map (fun n => n + 1) (parents q) else parents q.

Lemma signalled_none q : signalled q q false.
Proof. split; [by rewrite orb_false_r|by destruct (overload_ q)]. Qed.

Lemma flat_arrive q batch : flat q ->
  exists q' f, ProcessBatch q batch = Some (q', f) /\ flat q' /\ signalled q q' (bool_decide (batch <> [])).
Proof.
  intros [HI Hbp Hh Hl Hwo].
  destruct (ProcessBatch_spec null q batch HI) as (q' & -> & HI' & Hw & _ & Hb' & Hh' & Hl' & _ & _ & _ & _ & Ho & Hp).
  rewrite Hbp, Hh in Ho, Hp. cbn [andb] in Ho, Hp. set (k := Z.to_nat _) in *. eexists _, _. split; [reflexivity|].
  assert (Hup : overload_ q = false -> waiting null q = [] /\ (0 <? Z.of_nat (length (waiting null q) + k)) = bool_decide (batch <> [])).
  { intros Hoq. assert (waiting null q = []) as He by (destruct (waiting null q); [done|by rewrite Hwo in Hoq]).
    split; [done|]. unfold k. rewrite He. cbn [length Nat.add]. destruct (inv_size q HI) as (p & Hpp & ->).
    assert (2 ^ 2 <= 2 ^ p) by (apply Z.pow_le_mono_r; lia). destruct batch.
    { rewrite bool_decide_eq_false_2 by (intros Hn; by apply Hn). apply Z.ltb_ge. cbn [length]. lia. }
    rewrite bool_decide_eq_true_2 by done. apply Z.ltb_lt. cbn [length]. lia. }
  assert (Hs : signalled q q' (bool_decide (batch <> []))).
  { unfold signalled. rewrite Ho, Hp. destruct (overload_ q) eqn:Hoq; [by rewrite andb_false_r|].
    destruct (Hup eq_refl) as [_ ->]. by rewrite andb_true_r. }
  split; [|done]. split; [done|congruence..|]. intros Hne. destruct Hs as [-> _]. destruct (overload_ q) eqn:Hoq; [done|].
  destruct (Hup eq_refl) as [He _]. apply bool_decide_eq_true_2. intros ->. apply Hne. by rewrite Hw, He, take_nil.
Qed.

Lemma flat_run q : flat q -> exists q' b res, RunTask total_len q = Some (q', b, res) /\ flat q' /\ signalled q q' false.
Proof.
  intros [HI Hbp Hh Hl Hwo].
  destruct (RunTask_spec null total_len q HI) as (q' & res & -> & HI' & Hw & _ & _ & _ & Hb' & Hh' & Hl' & _ & _ & _ & _ & Ho & Hp).
  set (k := if 0 <? children_overload_ q then 0%nat else _) in *. rewrite Hl in Ho, Hp.
  rewrite (proj2 (Z.ltb_ge _ 0)), !andb_false_r in Ho, Hp by lia. cbn [negb andb] in Ho, Hp. rewrite andb_true_r in Ho.
  eexists _, _, _. split; [reflexivity|]. split; [split; [done|congruence..|]|].
  - rewrite Hw, Ho. intros Hne. apply Hwo. intros He. by rewrite He, drop_nil in Hne.
  - unfold signalled. rewrite Ho, Hp, orb_false_r. by destruct (overload_ q).
Qed.

Lemma flat_burst q burst : flat q ->
  let q' := (CommandSetBurst q (u64 burst)).1 in flat q' /\ signalled q q' false.
Proof.
  intros Hf. cbn zeta. unfold CommandSetBurst. destruct (Z.ltb_spec kMaxBurst (u64 burst)); [by split; [|apply signalled_none]|].
  destruct Hf as [[Hr Hsz _] ? ? ? ?]. split; [|exact (signalled_none q)]. split; [|done..]. split; [done..|].
  assert (in_word 64 (u64 burst)) as [? _] by (by apply wrap_range). done.
Qed.

Lemma flat_step q sent freed e : flat q -> match e with Size _ _ => False | _ => True end ->
  exists q' sent' freed', step null total_len (q, sent, freed) e = Some (q', sent', freed') /\ flat q' /\
    signalled q q' (bool_decide (arrived e <> [])).
Proof.
  intros Hf He. destruct e as [batch| |size alloc|burst|n]; cbn [step arrived]; [| |done| |];
    try rewrite (bool_decide_eq_false_2 ([] <> [])) by (intros Hn; by apply Hn).
  - destruct (flat_arrive q batch Hf) as (q' & f & -> & ?). by eexists _, _, _.
  - destruct (flat_run q Hf) as (q' & b & res & -> & ?). by eexists _, _, _.
  - eexists _, _, _. split; [reflexivity|]. by apply flat_burst.
  - destruct Hf as [[Hr Hsz Hb] ? ? ? ?]. eexists _, _, _. split; [reflexivity|].
    split; [|exact (signalled_none q)]. split; [|done..]. by split.
Qed.

Lemma signalled_trans q1 q2 q3 (a b : list P) : signalled q1 q2 (bool_decide (a <> [])) -> signalled q2 q3 (bool_decide (b <> [])) ->
  signalled q1 q3 (bool_decide (a ++ b <> [])).
Proof.
  unfold signalled. intros [-> ->] [-> ->]. rewrite (bool_decide_ext (a ++ b <> []) (a <> [] \/ b <> [])), bool_decide_or.
  - rewrite orb_assoc. split; [done|]. by destruct (overload_ q1), (bool_decide (a <> [])).
  - destruct a; cbn; [|split; [by left|done]]. split; [by right|intros [?|?]; done].
Qed.

Lemma flat_runs es : Forall (fun e => match e with Size _ _ => False | _ => True end) es -> forall q sent freed, flat q ->
  exists q' sent' freed', run null total_len (q, sent, freed) es = Some (q', sent', freed') /\
    signalled q q' (bool_decide (arrivals es <> [])).
Proof.
  induction 1 as [|e es He _ IH]; intros q sent freed Hf; cbn [run].
  { eexists _, _, _. split; [reflexivity|]. rewrite bool_decide_eq_false_2 by (intros Hn; by apply Hn). apply signalled_none. }
  destruct (flat_step q sent freed e Hf He) as (q1 & s1 & f1 & -> & Hf1 & Hs1). cbn [mbind option_bind].
  destruct (IH q1 s1 f1 Hf1) as (q2 & s2 & f2 & -> & Hs2). eexists _, _, _. split; [reflexivity|].
  assert (arrivals (e :: es) = arrived e ++ arrivals es) as -> by (by destruct e). by eapply signalled_trans.
Qed.
End Flat.

(** [SetSize] adjusts the water levels before it stores the size.  A queue that is set up with
    backpressure and a size of its own has the levels of size 0: it is overloaded from the first packet on,
    and never again underloaded, so its parent tasks are blocked for good (unless it is resized). *)
Theorem queue_overloaded_for_good {P} (null : P) (total_len : P -> Z) ps size prefetch q es :
  size <> 0 -> Init null (new_queue ps) true true size true prefetch = Some (q, inr tt) ->
  Forall (fun e => match e with Size _ _ => False | _ => True end) es ->
  exists q' sent freed, run null total_len (q, [], []) es = Some (q', sent, freed) /\
    overload_ q' = bool_decide (arrivals es <> []) /\
    parents q' = if bool_decide (arrivals es <> []) then map (fun n => n + 1) ps else ps.
Proof.
  intros Hne Hinit Hes. destruct (Init_spec null total_len _ _ _ _ _ _ Hinit) as (HI & Hw & _ & Hbp & Ho & Hps & _ & Hlev).
  rewrite (proj2 (Z.eqb_neq _ _) Hne) in Hlev. destruct (Hlev eq_refl) as [Hh Hl]. change (high_of 0) with 0 in Hh. change (low_of 0) with 0 in Hl.
  destruct (flat_runs null total_len es Hes q [] []) as (q' & sent & freed & -> & Ho' & Hp').
  { split; [done..|]. by rewrite Hw. }
  exists q', sent, freed. split; [done|]. rewrite Ho', Hp', Ho, Hps. done.
Qed.

(** ** Concrete queues: packets are their lengths *)
Definition ex_queue (size : Z) (backpressure : bool) : Queue Z :=
  match Init 0 (new_queue [0; 0]) true true size backpressure false with Some (q, _) => q | None => new_queue [] end.

Lemma ex_queue_Inv : Inv (ex_queue 4 true).
Proof. apply (Init_spec 0 (fun x => x) [0; 0] 4 true true false). vm_compute. reflexivity. Qed.

Lemma queue_conserves_witness :
  exists q', run 0 (fun x => x) (ex_queue 4 true, [], []) [Arrive [60; 61; 62; 63]; Run; Arrive [64; 65]; Size 8 true; Arrive [66]] =
      Some (q', [[60; 61; 62]], [63]) /\ Inv q' /\ DeInit q' = Some [64; 65; 66].
Proof.
  destruct (queue_conserves 0 (fun x => x) (ex_queue 4 true) [Arrive [60; 61; 62; 63]; Run; Arrive [64; 65]; Size 8 true; Arrive [66]] ex_queue_Inv)
    as (q' & sent & fs & Hrun & HI & _).
  exists q'. vm_compute in Hrun. injection Hrun as <- <- _. split; [vm_compute; reflexivity|]. split; [exact HI|]. vm_compute. reflexivity.
Defined.

Lemma queue_overloaded_for_good_witness :
  exists q' sent freed, run 0 (fun x => x) (ex_queue 1024 true, [], []) [Arrive [60]; Run; Run] = Some (q', sent, freed) /\
    overload_ q' = true /\ parents q' = [1; 1].
Proof.
  destruct (queue_overloaded_for_good 0 (fun x => x) [0; 0] 1024 false (ex_queue 1024 true) [Arrive [60]; Run; Run])
    as (q' & sent & freed & Hrun & Ho & Hp); [lia|vm_compute; reflexivity|by repeat constructor|].
  exists q', sent, freed. split; [exact Hrun|]. rewrite Ho, Hp. done.
Defined.

(** The same queue with the default size has its levels. *)
Lemma queue_backpressure_witness :
  let q := ex_queue 0 true in high_water_ q = 921 /\ low_water_ q = 153 /\
  exists q' f, ProcessBatch q [60] = Some (q', f) /\ overload_ q' = false.
Proof.
  split; [vm_compute; reflexivity|]. split; [vm_compute; reflexivity|].
  destruct (queue_backpressure 0 (fun x => x) (ex_queue 0 true) [60]) as [(q' & f & Hb & Ho) _];
    [|vm_compute; reflexivity..|].
  - apply (Init_spec 0 (fun x => x) [0; 0] 0 true true false). vm_compute. reflexivity.
  - exists q', f. split; [exact Hb|]. rewrite Ho. vm_compute in Hb. injection Hb as <- <-. vm_compute. reflexivity.
Defined.
