(* ===== verification/HashTable.v ===== *)
(** What the modules ask of a hash table, and that [CuckooMap] promises it.

    The modules use [bess::utils::CuckooMap] through pointers to entries, which
    [Find] and [Insert] return and which stay good while other keys are removed.  A
    pointer is the index of an entry. *)
From S2P Require Import Prelude CuckooMap.

(** The operations; the key of an entry is its [first], the value its [second]. *)
Class HashTable (K V : Type) := {
  table : Type;
  ht_find : table -> K -> option nat;
  ht_entry : table -> nat -> K * V;
  ht_assign : table -> nat -> V -> table;
  ht_insert : table -> K -> V -> option (table * option nat);
  ht_remove : table -> K -> table * bool;
  ht_count : table -> Z }.
Arguments table K V {_}.

(** The laws, on the keys that satisfy [ok]: a table is a finite map. *)
Class HashTableLaws (K V : Type) `{Countable K, !HashTable K V} (ok : K -> Prop) := {
  ht_inv : table K V -> Prop;
  ht_map : table K V -> gmap K V;
  ht_points : table K V -> nat -> K * V -> Prop;
  ht_points_entry m p e : ht_points m p e -> ht_entry m p = e;
  ht_find_spec m k : ht_inv m -> ok k ->
    match ht_find m k with
    | Some p => exists v, ht_points m p (k, v) /\ ht_map m !! k = Some v
    | None => ht_map m !! k = None
    end;
  ht_assign_spec m p k v v' : ht_inv m -> ht_points m p (k, v) ->
    ht_inv (ht_assign m p v') /\ ht_map (ht_assign m p v') = <[k := v']> (ht_map m) /\
    ht_points (ht_assign m p v') p (k, v');
  ht_insert_spec m k v : ht_inv m -> ok k -> exists m' r, ht_insert m k v = Some (m', r) /\ ht_inv m' /\
    match r with
    | Some p => ht_map m' = <[k := v]> (ht_map m) /\ ht_points m' p (k, v)
    | None => ht_map m' = ht_map m
    end;
  ht_remove_spec m k : ht_inv m -> ok k ->
    ht_inv (ht_remove m k).1 /\ ht_map (ht_remove m k).1 = delete k (ht_map m) /\
    (ht_remove m k).2 = bool_decide (is_Some (ht_map m !! k)) /\
    (forall p e, ht_points m p e -> e.1 <> k -> ht_points (ht_remove m k).1 p e);
  ht_keys_ok m k v : ht_inv m -> ht_map m !! k = Some v -> ok k;
  ht_count_spec m : ht_inv m -> ht_count m = Z.of_nat (size (ht_map m)) }.

(** ** The cuckoo hash table *)

Section cuckoo_instance.
Context {K V : Type} `{Countable K} (hasher : K -> Z) (eq : K -> K -> bool) (e0 : K * V).
Context (ok : K -> Prop) (eq_spec : forall a b, ok a -> ok b -> eq a b = true <-> a = b).

Definition cuckoo_assign (m : CuckooMap.t (K := K) (V := V)) (p : nat) (v : V) : CuckooMap.t :=
  Mk (bucket_mask_ m) (num_entries_ m) (buckets_ m)
     (<[p := (fst (entry_at e0 m p), v)]> (entries_ m)) (free_entry_indices_ m).

Definition cuckoo_table : HashTable K V := {|
  table := CuckooMap.t (K := K) (V := V);
  ht_find m k := FindWithHash eq e0 m (Hash hasher k) k;
  ht_entry := entry_at e0;
  ht_assign := cuckoo_assign;
  ht_insert := CuckooMap.Insert hasher eq e0;
  ht_remove := CuckooMap.Remove hasher eq e0;
  ht_count := CuckooMap.Count |}.

Lemma cuckoo_find m k : Inv hasher e0 ok m -> ok k ->
  match ht_find (HashTable := cuckoo_table) m k with
  | Some p => exists v, points hasher e0 m p (k, v) /\ abs e0 m !! k = Some v
  | None => abs e0 m !! k = None
  end.
Proof using eq_spec.
  intros HI Hok. cbn. pose proof (FindWithHash_spec hasher eq e0 ok eq_spec m k HI Hok) as Hf.
  destruct (FindWithHash _ _ _ _ _) as [p|]; [|by apply abs_None].
  destruct Hf as [Hin Hk]. exists (entry_at e0 m p).2.
  assert (entry_at e0 m p = (k, (entry_at e0 m p).2)) as He by (rewrite <- Hk; by destruct (entry_at e0 m p)).
  split; [by split|]. apply (abs_Some hasher e0 ok); [done|]. by exists (Hash hasher k, p).
Qed.

Lemma cuckoo_insert m k v : Inv hasher e0 ok m -> ok k ->
  exists m' r, CuckooMap.Insert hasher eq e0 m k v = Some (m', r) /\ Inv hasher e0 ok m' /\
    match r with
    | Some p => abs e0 m' = <[k := v]> (abs e0 m) /\ points hasher e0 m' p (k, v)
    | None => abs e0 m' = abs e0 m
    end.
Proof using eq_spec.
  intros HI Hok. apply (insert_fuel_spec hasher eq e0 ok eq_spec); [done|done|].
  rewrite (size_abs hasher e0 ok), (inv_count hasher e0 ok m HI) by done. lia.
Qed.

Definition cuckoo_laws : HashTableLaws K V (HashTable0 := cuckoo_table) ok.
Proof using eq_spec.
  refine (Build_HashTableLaws _ _ _ _ cuckoo_table ok (Inv hasher e0 ok) (abs e0) (points hasher e0)
    _ cuckoo_find _ cuckoo_insert _ _ _).
  - intros m p e [_ He]. exact He.
  - intros m p k v v' HI [Hin He].
    apply (set_value_spec hasher e0 ok m k v' p); [done|done|by rewrite He].
  - intros m k HI Hok. pose proof (Remove_spec hasher eq e0 ok eq_spec m k HI Hok) as Hr.
    cbn. destruct (CuckooMap.Remove _ _ _ _ _) as [m' b]. exact Hr.
  - intros m k v HI Hm. apply (abs_Some hasher e0 ok) in Hm as (c & Hc & He); [|done].
    pose proof (inv_ok hasher e0 ok m HI) as HF. rewrite Forall_forall in HF. apply HF.
    apply list_elem_of_In, in_map_iff. exists c. rewrite He. split; [done|by apply list_elem_of_In].
  - intros m HI. cbn. unfold Count. by rewrite (size_abs hasher e0 ok), (inv_count hasher e0 ok m HI).
Defined.
End cuckoo_instance.
