(* ===== verification/Random.v ===== *)
(** The pseudo-random generator: [core/utils/random.h].

    A [double] in [[0, 2]] is given by its integer multiple of 2^-52.  The subtractions
    of the source are exact; its multiplication rounds to nearest, ties to even. *)
From S2P Require Import Prelude.

Definition rng_next (seed : Z) : Z := u64 (seed * 1103515245 + 12345).

(** [Get()]: the new seed and the number. *)
Definition Get (seed : Z) : Z * Z := let seed := rng_next seed in (seed, Z.shiftr seed 32).

(** The mantissa that [(seed_ >> 12) | 0x3ff0000000000000] puts into a double: the
    double is 1 + mantissa / 2^52. *)
Definition mantissa (seed : Z) : Z := Z.land (Z.lor (Z.shiftr seed 12) 0x3ff0000000000000) (2 ^ 52 - 1).

(** A positive integer rounded to 53 significant bits, as the product of two doubles is. *)
Definition round53 (v : Z) : Z :=
  let e := Z.log2 v - 52 in
  if e <=? 0 then v
  else
    let q := Z.shiftr v e in
    let r := v mod 2 ^ e in
    let half := 2 ^ (e - 1) in
    Z.shiftl (if (half <? r) || ((r =? half) && Z.odd q) then q + 1 else q) e.

(** [(tmp.d - 1.0) * range], truncated to 32 bits. *)
Definition GetRange (seed range : Z) : Z * Z :=
  let seed := rng_next seed in (seed, u32 (Z.shiftr (round53 (mantissa seed * range)) 52)).

(** The doubles, in units of 2^-52. *)
Definition GetReal (seed : Z) : Z * Z := let seed := rng_next seed in (seed, mantissa seed).
Definition GetRealNonzero (seed : Z) : Z * Z := let seed := rng_next seed in (seed, 2 ^ 52 - mantissa seed).

Lemma rng_next_word seed : in_word 64 (rng_next seed).
Proof. by apply wrap_range. Qed.

Lemma mantissa_eq seed : in_word 64 seed -> mantissa seed = seed / 2 ^ 12.
Proof.
  intros Hs. unfold mantissa. change (2 ^ 52 - 1) with (Z.ones 52). rewrite Z.land_lor_distr_l.
  change (Z.land 0x3ff0000000000000 (Z.ones 52)) with 0. rewrite Z.lor_0_r, Z.land_ones, Z.shiftr_div_pow2 by lia.
  apply Z.mod_small. unfold in_word in Hs. zlia.
Qed.

Lemma mantissa_range seed : 0 <= mantissa seed < 2 ^ 52.
Proof. unfold mantissa. change (2 ^ 52 - 1) with (Z.ones 52). rewrite Z.land_ones by lia. by apply Z.mod_pos_bound. Qed.

(** Rounding moves a value by at most half of the last bit kept. *)
Lemma round53_near v : 0 < v -> 0 < round53 v /\ 2 * Z.abs (round53 v - v) <= v / 2 ^ 52.
Proof.
  intros Hv. unfold round53. set (e := Z.log2 v - 52).
  assert (0 <= v / 2 ^ 52) by (apply Z.div_pos; lia).
  destruct (Z.leb_spec e 0) as [He|He]; [split; lia|].
  pose proof (Z.log2_spec v Hv) as [Hlo Hhi]. rewrite Z.shiftr_div_pow2 by lia.
  assert (H2e : 0 < 2 ^ e) by (apply Z.pow_pos_nonneg; lia).
  assert (Hhalf : 2 ^ e = 2 * 2 ^ (e - 1)) by (rewrite <- Z.pow_succ_r by lia; f_equal; lia).
  assert (Hsplit : 2 ^ Z.log2 v = 2 ^ 52 * 2 ^ e) by (rewrite <- Z.pow_add_r by lia; f_equal; unfold e; lia).
  assert (Hulp : 2 ^ e <= v / 2 ^ 52) by (apply Z.div_le_lower_bound; lia).
  pose proof (Z.div_mod v (2 ^ e) ltac:(lia)) as Hdm. pose proof (Z.mod_pos_bound v (2 ^ e) H2e).
  assert (Hq : 0 < v / 2 ^ e) by (apply Z.div_str_pos; lia).
  rewrite Z.shiftl_mul_pow2 by lia.
  destruct ((2 ^ (e - 1) <? v mod 2 ^ e) || _) eqn:Hr.
  - assert (2 ^ (e - 1) <= v mod 2 ^ e) by (apply orb_true_iff in Hr as [Hr|[Hr _]%andb_true_iff]; lia).
    split; [nia|]. lia.
  - apply orb_false_iff in Hr as [Hr _]. apply Z.ltb_ge in Hr. split; [nia|]. lia.
Qed.

Lemma GetRange_range seed range : 0 < range < 2 ^ 32 -> 0 <= (GetRange seed range).2 < range.
Proof.
  intros Hr. cbn [GetRange snd]. pose proof (mantissa_range (rng_next seed)) as Hm. set (m := mantissa (rng_next seed)) in *.
  rewrite Z.shiftr_div_pow2 by lia. change (2 ^ 52) with 4503599627370496 in *.
  assert (Hp : 0 <= m * range <= 4503599627370495 * range) by (split; [|apply Z.mul_le_mono_nonneg_r]; lia || nia).
  assert (0 <= round53 (m * range) <= 4503599627370496 * range - 1) as Hb.
  { destruct (Z.eq_dec (m * range) 0) as [Hz|Hne]; [rewrite Hz; change (round53 0) with 0; lia|].
    destruct (round53_near (m * range) ltac:(lia)) as [? Hn]. change (2 ^ 52) with 4503599627370496 in Hn.
    assert (m * range / 4503599627370496 < range) by (apply Z.div_lt_upper_bound; lia). lia. }
  assert (round53 (m * range) / 4503599627370496 < range) by (apply Z.div_lt_upper_bound; lia).
  assert (0 <= round53 (m * range) / 4503599627370496) by (apply Z.div_pos; lia).
  rewrite wrap_small by (unfold in_word; lia). lia.
Qed.

(** Every number of the generator is in the range it promises: [Get] in 32 bits,
    [GetRange] in [[0, range)] although its product is rounded, [GetReal] in [[0, 1)] and
    [GetRealNonzero] in [(0, 1]]. *)
Theorem random_bounds seed range : 0 < range < 2 ^ 32 ->
  0 <= (Get seed).2 < 2 ^ 32 /\
  0 <= (GetRange seed range).2 < range /\
  0 <= (GetReal seed).2 < 2 ^ 52 /\
  0 < (GetRealNonzero seed).2 <= 2 ^ 52.
Proof.
  intros Hr. cbn [Get GetRange GetReal GetRealNonzero snd]. pose proof (rng_next_word seed) as Hw.
  pose proof (mantissa_range (rng_next seed)) as Hm. set (m := mantissa (rng_next seed)) in *.
  split; [rewrite Z.shiftr_div_pow2 by lia; unfold in_word in Hw; zlia|]. split; [by apply GetRange_range|].
  lia.
Qed.

Lemma random_bounds_witness :
  GetRange 42 64512 = (46347652635, 0) /\ 0 <= (GetRange (2 ^ 63) 64512).2 < 64512.
Proof. split; [vm_compute; reflexivity|]. destruct (random_bounds (2 ^ 63) 64512) as (_ & H & _); [lia|exact H]. Defined.
