(* ===== verification/Ip.v ===== *)
(** IPv4 addresses and prefixes: [core/utils/ip.h] and [core/utils/ip.cc].

    Strings are lists of character codes.  [Parse] and [Format] are the standard
    library's [sscanf] and [printf], modelled for the conversions that are used here. *)
From S2P Require Import Prelude Endian Bits.

(** ** Numbers in strings *)
Definition is_digit (c : Z) : bool := (48 <=? c) && (c <=? 57).
Definition is_space (c : Z) : bool := (c =? 32) || ((9 <=? c) && (c <=? 13)).

Fixpoint skip_spaces (s : bytes) : bytes :=
  match s with
  | c :: s' => if is_space c then skip_spaces s' else s
  | [] => []
  end.

Fixpoint digits (s : bytes) : bytes * bytes :=
  match s with
  | c :: s' => if is_digit c then let '(ds, rest) := digits s' in (c :: ds, rest) else ([], s)
  | [] => ([], [])
  end.

Definition digits_value (ds : bytes) : Z := fold_left (fun acc c => 10 * acc + (c - 48)) ds 0.

(** An optional sign and digits; [None] when there are none. *)
Definition scan_signed (s : bytes) : option (bool * Z * bytes) :=
  let s := skip_spaces s in
  let '(neg, s) := match s with 45 :: s' => (true, s') | 43 :: s' => (false, s') | _ => (false, s) end in
  match digits s with
  | ([], _) => None
  | (ds, rest) => Some (neg, digits_value ds, rest)
  end.

(** The conversion [%u]: what [strtoul] returns, cut to 32 bits. *)
Definition scan_u (s : bytes) : option (Z * bytes) :=
  r ← scan_signed s;
  let '(neg, v, rest) := r in
  Some (if 2 ^ 64 <=? v then u32 (2 ^ 64 - 1) else u32 (if (neg : bool) then - v else v), rest).

(** [sscanf(s, "%u.%u.%u.%u", ...)] with [n] conversions left: the values assigned. *)
Fixpoint scan_dotted (n : nat) (s : bytes) : list Z :=
  match scan_u s, n with
  | None, _ | _, O => []
  | Some (v, rest), S n' =>
      v :: match rest with 46 :: rest' => scan_dotted n' rest' | _ => [] end
  end.

(** [%hhu]: the decimal digits of an unsigned char. *)
Fixpoint decimal (fuel : nat) (n : Z) : bytes :=
  match fuel with
  | O => []
  | S fuel' => (if n <? 10 then [] else decimal fuel' (n / 10)) ++ [48 + n mod 10]
  end.
Definition format_hhu (c : Z) : bytes := decimal 3 (u8 c).

(** [std::stoi]; [None] is an exception. *)
Definition stoi (s : bytes) : option Z :=
  r ← scan_signed s;
  let '(neg, v, _) := r in
  let x := if (neg : bool) then - v else v in
  if (- 2 ^ 31 <=? x) && (x <? 2 ^ 31) then Some x else None.

(** ** Addresses *)
Definition be32_t := BigEndian.

(** Whether the conversion succeeded, and the new value of [*addr]. *)
Definition ParseIpv4Address (str : bytes) (addr : be32_t) : bool * be32_t :=
  match scan_dotted 4 str with
  | [a; b; c; d] =>
      if (256 <=? a) || (256 <=? b) || (256 <=? c) || (256 <=? d) then (false, addr)
      else (true, of_cpu 4 (Z.lor (Z.lor (Z.lor (u32 (Z.shiftl a 24)) (u32 (Z.shiftl b 16)))
                                         (u32 (Z.shiftl c 8))) d))
  | _ => (false, addr)
  end.

Definition ToIpv4Address (addr : be32_t) : bytes :=
  match ToByteVector 4 addr with
  | [b0; b1; b2; b3] =>
      format_hhu b0 ++ 46 :: format_hhu b1 ++ 46 :: format_hhu b2 ++ 46 :: format_hhu b3
  | _ => []
  end.

(** ** Prefixes *)
Record Ipv4Prefix := MkPrefix { addr : be32_t; mask : be32_t }.

Fixpoint find_slash (s : bytes) : option nat :=
  match s with
  | [] => None
  | c :: s' => if c =? 47 then Some O else S <$> find_slash s'
  end.

(** The constructor from a string; [None] is an exception of [std::stoi]. *)
Definition make_prefix (prefix : bytes) : option Ipv4Prefix :=
  match find_slash prefix with
  | None => Some (MkPrefix (of_cpu 4 0) (of_cpu 4 0))
  | Some delim_pos =>
      let addr := (ParseIpv4Address (take delim_pos prefix) (of_cpu 4 0)).2 in
      len ← stoi (drop (S delim_pos) prefix);
      Some (MkPrefix addr (of_cpu 4 (SetBitsLow 32 (u64 len))))
  end.

Definition Match (p : Ipv4Prefix) (ip : be32_t) : bool :=
  be_eq (be_and 4 (addr p) (mask p)) (be_and 4 ip (mask p)).

(** [__builtin_ctz] of a value that is not 0. *)
Fixpoint ctz_pos (p : positive) : Z := match p with xO p' => 1 + ctz_pos p' | _ => 0 end.
Definition ctz (v : Z) : Z := match v with Zpos p => ctz_pos p | _ => 0 end.

Definition prefix_length (p : Ipv4Prefix) : Z :=
  let mask_val := value 4 (mask p) in
  if mask_val =? 0 then 0 else 32 - ctz mask_val.

(** ** Scanning what was printed *)
Lemma digits_app ds s : Forall (fun c => is_digit c = true) ds ->
  match s with c :: _ => is_digit c = false | [] => True end -> digits (ds ++ s) = (ds, s).
Proof.
  intros Hds Hs. induction Hds as [|c ds Hc _ IH]; cbn [app digits].
  - destruct s as [|c s]; [done|]. cbn. by rewrite Hs.
  - by rewrite Hc, IH.
Qed.

Lemma digit_not_space c : is_digit c = true -> is_space c = false /\ c <> 45 /\ c <> 43.
Proof. unfold is_digit, is_space. rewrite andb_true_iff. intros [? ?]. split; [|lia].
  apply orb_false_iff. rewrite andb_false_iff. lia. Qed.

Lemma scan_signed_digits ds s : ds <> [] -> Forall (fun c => is_digit c = true) ds ->
  match s with c :: _ => is_digit c = false | [] => True end ->
  scan_signed (ds ++ s) = Some (false, digits_value ds, s).
Proof.
  intros Hne Hds Hs. destruct ds as [|c ds]; [done|]. unfold scan_signed. cbn [app skip_spaces].
  pose proof (Forall_inv Hds) as Hc. destruct (digit_not_space c Hc) as (-> & ? & ?).
  assert (match c :: ds ++ s with 45 :: s' => (true, s') | 43 :: s' => (false, s') | _ => (false, c :: ds ++ s) end
    = (false, c :: ds ++ s)) as ->.
  { unfold is_digit in Hc. apply andb_true_iff in Hc as [? ?].
    destruct c as [|p|p]; try done. do 6 (destruct p as [p|p|]; try done). }
  change (c :: ds ++ s) with ((c :: ds) ++ s). by rewrite (digits_app (c :: ds) s Hds Hs).
Qed.

(** Every octet, printed and read back. *)
Definition octet_ok (b : Z) : bool :=
  let ds := format_hhu b in
  forallb is_digit ds && negb (bool_decide (ds = [])) && (digits_value ds =? b).

Lemma format_hhu_ok b : in_word 8 b ->
  format_hhu b <> [] /\ Forall (fun c => is_digit c = true) (format_hhu b) /\ digits_value (format_hhu b) = b.
Proof.
  intros Hb. assert (forallb octet_ok (map Z.of_nat (seq 0 256)) = true) as Hall by (vm_compute; reflexivity).
  rewrite forallb_forall in Hall. specialize (Hall b). unfold octet_ok in Hall.
  rewrite !andb_true_iff, negb_true_iff, bool_decide_eq_false, forallb_forall, Z.eqb_eq in Hall.
  destruct Hall as [[Hd Hne] Hv].
  - apply in_map_iff. exists (Z.to_nat b). unfold in_word in Hb. split; [lia|]. apply in_seq. lia.
  - split; [done|]. split; [|done]. apply Forall_forall. intros c Hc. apply Hd. by apply list_elem_of_In.
Qed.

Lemma scan_u_octet b s : in_word 8 b -> match s with c :: _ => is_digit c = false | [] => True end ->
  scan_u (format_hhu b ++ s) = Some (b, s).
Proof.
  intros Hb Hs. destruct (format_hhu_ok b Hb) as (Hne & Hd & Hv). unfold scan_u.
  rewrite scan_signed_digits by done. cbn [mbind option_bind]. rewrite Hv. unfold in_word in Hb.
  rewrite (proj2 (Z.leb_gt _ _)) by lia. rewrite wrap_small by (unfold in_word; lia). done.
Qed.

Lemma lor_bytes (a b c d : Z) : bytes_ok [a; b; c; d] ->
  Z.lor (Z.lor (Z.lor (u32 (Z.shiftl a 24)) (u32 (Z.shiftl b 16))) (u32 (Z.shiftl c 8))) d
  = le_load [d; c; b; a].
Proof.
  unfold bytes_ok. rewrite !Forall_cons. intros (Ha & Hb & Hc & Hd & _). unfold in_word in *.
  assert (forall x k, 0 <= x < 2 ^ 8 -> 0 <= k <= 24 -> u32 (Z.shiftl x k) = Z.shiftl x k) as Hw.
  { intros x k Hx Hk. apply wrap_small. unfold in_word. rewrite Z.shiftl_mul_pow2 by lia.
    split; [apply Z.mul_nonneg_nonneg; lia|]. apply Z.lt_le_trans with (2 ^ 8 * 2 ^ k).
    - apply Z.mul_lt_mono_pos_r; lia.
    - rewrite <- Z.pow_add_r by lia. apply Z.pow_le_mono_r; lia. }
  rewrite !Hw by lia. cbn [le_load].
  replace (Z.shiftl a 24) with (Z.shiftl (a * 2 ^ 16) 8) by (rewrite !Z.shiftl_mul_pow2 by lia; lia).
  replace (Z.shiftl b 16) with (Z.shiftl (b * 2 ^ 8) 8) by (rewrite !Z.shiftl_mul_pow2 by lia; lia).
  rewrite <- !Z.shiftl_lor. rewrite lor_shiftl_add by (done || lia).
  rewrite <- (Z.shiftl_mul_pow2 a 16), <- (Z.shiftl_mul_pow2 b 8) by lia.
  replace (Z.shiftl a 16) with (Z.shiftl (a * 2 ^ 8) 8) by (rewrite !Z.shiftl_mul_pow2 by lia; lia).
  rewrite <- Z.shiftl_lor, lor_shiftl_add by (done || lia).
  rewrite <- (Z.shiftl_mul_pow2 a 8), lor_shiftl_add by (done || lia). lia.
Qed.

Lemma scan_dotted_0 s : scan_dotted 0 s = [].
Proof. cbn. by destruct (scan_u s) as [[v rest]|]. Qed.

Lemma scan_dotted_octet n b s : in_word 8 b -> scan_dotted (S n) (format_hhu b ++ 46 :: s) = b :: scan_dotted n s.
Proof. intros Hb. cbn [scan_dotted]. by rewrite scan_u_octet by done. Qed.

Lemma scan_dotted_last b s : in_word 8 b -> match s with c :: _ => is_digit c = false | [] => True end ->
  scan_dotted 1 (format_hhu b ++ s) = [b].
Proof.
  intros Hb Hs. cbn [scan_dotted]. rewrite scan_u_octet by done. f_equal.
  destruct s as [|c s]; [done|].
  destruct c as [|p|p]; try done. do 6 (destruct p as [p|p|]; try done). apply scan_dotted_0.
Qed.

(** A printed address is parsed as itself, whatever follows it. *)
Lemma Parse_To d x s : in_word 32 d -> match s with c :: _ => is_digit c = false | [] => True end ->
  ParseIpv4Address (ToIpv4Address (BE d) ++ s) x = (true, BE d).
Proof.
  intros Hd Hs. pose proof (le_store_ok 4 d) as Hok. pose proof (length_le_store 4 d) as Hlen.
  assert (le_load (le_store 4 d) = d) as Hload by (rewrite le_load_store; apply Z.mod_small; exact Hd).
  unfold ParseIpv4Address, ToIpv4Address, ToByteVector. cbn [data_].
  destruct (le_store 4 d) as [|b0 [|b1 [|b2 [|b3 [|]]]]]; try done.
  pose proof Hok as Hok'. unfold bytes_ok in Hok'. rewrite !Forall_cons in Hok'. destruct Hok' as (H0 & H1 & H2 & H3 & _).
  repeat (rewrite <- !app_assoc; cbn [app]).
  rewrite !scan_dotted_octet, scan_dotted_last by done.
  unfold in_word in H0, H1, H2, H3.
  rewrite (proj2 (Z.leb_gt 256 b0)), (proj2 (Z.leb_gt 256 b1)), (proj2 (Z.leb_gt 256 b2)), (proj2 (Z.leb_gt 256 b3)) by lia.
  cbn [orb]. do 2 f_equal. rewrite lor_bytes by done. unfold of_cpu, swap. f_equal. rewrite <- Hload at 1.
  change 4%nat with (length [b3; b2; b1; b0]).
  rewrite le_store_load; [done|]. unfold bytes_ok in *. rewrite !Forall_cons in *. tauto.
Qed.

(** ** Prefixes *)
Lemma find_slash_app s r : Forall (fun c => c <> 47) s -> find_slash (s ++ 47 :: r) = Some (length s).
Proof.
  intros Hs. induction Hs as [|c s Hc _ IH]; cbn; [done|].
  rewrite (proj2 (Z.eqb_neq _ _)) by done. by rewrite IH.
Qed.

Lemma To_no_slash d : in_word 32 d -> Forall (fun c => c <> 47) (ToIpv4Address (BE d)).
Proof.
  intros Hd. pose proof (le_store_ok 4 d) as Hok. pose proof (length_le_store 4 d) as Hlen.
  unfold ToIpv4Address, ToByteVector. cbn [data_].
  destruct (le_store 4 d) as [|b0 [|b1 [|b2 [|b3 [|]]]]]; try done.
  unfold bytes_ok in Hok. rewrite !Forall_cons in Hok. destruct Hok as (H0 & H1 & H2 & H3 & _).
  assert (forall b, in_word 8 b -> Forall (fun c => c <> 47) (format_hhu b)) as Hf.
  { intros b Hb. destruct (format_hhu_ok b Hb) as (_ & Hd' & _). eapply Forall_impl; [exact Hd'|].
    intros c. unfold is_digit. cbn. rewrite andb_true_iff. lia. }
  repeat (apply Forall_app; split; [by apply Hf|]; apply Forall_cons; split; [done|]). by apply Hf.
Qed.

(** The mask of a prefix of [len] bits. *)
Lemma mask_value len : 0 <= len <= 32 -> SetBitsLow 32 len = 2 ^ 32 - 2 ^ (32 - len).
Proof.
  intros Hl. replace (2 ^ 32 - 2 ^ (32 - len)) with (Z.shiftl (Z.ones len) (32 - len)).
  - apply Z.bits_inj'. intros i Hi. rewrite SetBitsLow_testbit, Z.shiftl_spec by lia.
    destruct (Z.leb_spec (32 - len) i); [|by rewrite Z.testbit_neg_r by lia].
    cbn [andb]. destruct (Z.ltb_spec i 32).
    + rewrite Z.ones_spec_low by lia. done.
    + rewrite Z.ones_spec_high by lia. done.
  - rewrite Z.shiftl_mul_pow2, Z.ones_equiv by lia. rewrite Z.mul_pred_l, <- Z.pow_add_r by lia.
    do 2 f_equal. lia.
Qed.

Lemma land_mask_eq len a b : 0 <= len <= 32 -> in_word 32 a -> in_word 32 b ->
  Z.land a (SetBitsLow 32 len) = Z.land b (SetBitsLow 32 len) <-> a / 2 ^ (32 - len) = b / 2 ^ (32 - len).
Proof.
  intros Hl Ha Hb. rewrite <- !Z.shiftr_div_pow2 by lia.
  assert (Hbit : forall x i, 0 <= i -> Z.testbit (Z.land x (SetBitsLow 32 len)) i =
    Z.testbit x i && ((32 - len <=? i) && (i <? 32))).
  { intros x i Hi. by rewrite Z.land_spec, SetBitsLow_testbit by lia. }
  assert (Hhi : forall x i, in_word 32 x -> 32 <= i -> Z.testbit x i = false).
  { intros x i Hx Hi. rewrite <- (Z.mod_small x (2 ^ 32)) by exact Hx. by rewrite Z.mod_pow2_bits_high by lia. }
  split; intros H; apply Z.bits_inj'; intros i Hi.
  - rewrite !Z.shiftr_spec by done. apply (f_equal (fun x => Z.testbit x (i + (32 - len)))) in H.
    rewrite !Hbit in H by lia. destruct (Z.ltb_spec (i + (32 - len)) 32).
    + rewrite (proj2 (Z.leb_le _ _)), !andb_true_r in H by lia. done.
    + by rewrite !Hhi by (done || lia).
  - rewrite !Hbit by done. destruct (Z.leb_spec (32 - len) i); [|by rewrite !andb_false_r].
    apply (f_equal (fun x => Z.testbit x (i - (32 - len)))) in H. rewrite !Z.shiftr_spec in H by lia.
    rewrite !Z.sub_add in H. by rewrite H.
Qed.

Definition ctz_ok (len : Z) : bool := prefix_length (MkPrefix (BE 0) (of_cpu 4 (SetBitsLow 32 len))) =? len.

Lemma prefix_length_mask a len : 0 <= len <= 32 -> prefix_length (MkPrefix a (of_cpu 4 (SetBitsLow 32 len))) = len.
Proof.
  intros Hl. assert (forallb ctz_ok (map Z.of_nat (seq 0 33)) = true) as Hall by (vm_compute; reflexivity).
  rewrite forallb_forall in Hall. apply Z.eqb_eq, (Hall len), in_map_iff. exists (Z.to_nat len).
  split; [lia|]. apply in_seq. lia.
Qed.

(** An IPv4 address survives printing and parsing, and a prefix written as an address,
    a slash and a length of at most 32 has this length and matches exactly the addresses
    that agree with its own in that many leading bits. *)
Theorem ipv4_prefix_match a x len ip : in_word 32 a -> 0 <= len <= 32 -> in_word 32 (data_ ip) ->
  ParseIpv4Address (ToIpv4Address (BE a)) x = (true, BE a) /\
  exists p, make_prefix (ToIpv4Address (BE a) ++ 47 :: decimal 2 len) = Some p /\
  addr p = BE a /\ prefix_length p = len /\
  (Match p ip = true <-> value 4 ip / 2 ^ (32 - len) = value 4 (BE a) / 2 ^ (32 - len)).
Proof.
  intros Ha Hl Hip. split.
  { rewrite <- (app_nil_r (ToIpv4Address _)). by apply Parse_To. }
  unfold make_prefix. rewrite find_slash_app by (by apply To_no_slash).
  rewrite take_app_length, drop_app_ge, Nat.sub_succ_l, Nat.sub_diag by lia. cbn [drop].
  rewrite drop_0, <- (app_nil_r (ToIpv4Address _)), Parse_To by done. cbn [snd].
  assert (stoi (decimal 2 len) = Some len) as ->.
  { assert (forallb (fun l => bool_decide (stoi (decimal 2 l) = Some l)) (map Z.of_nat (seq 0 33)) = true) as Hall
      by (vm_compute; reflexivity).
    rewrite forallb_forall in Hall. specialize (Hall len); apply bool_decide_eq_true in Hall; [exact Hall|]; apply in_map_iff. exists (Z.to_nat len).
    split; [lia|]. apply in_seq. lia. }
  cbn [mbind option_bind]. rewrite wrap_small by (unfold in_word; lia). eexists. split; [done|].
  split; [done|]. split; [by apply prefix_length_mask|]. unfold Match. cbn [addr mask].
  assert (in_word 32 (SetBitsLow 32 len)) as Hm.
  { rewrite mask_value by done. pose proof (Z.pow_pos_nonneg 2 (32 - len) ltac:(lia) ltac:(lia)).
    pose proof (Z.pow_le_mono_r 2 (32 - len) 32). unfold in_word. lia. }
  unfold be_eq. rewrite Z.eqb_eq. unfold be_and. cbn [of_cpu data_]. rewrite value_of_cpu by exact Hm.
  pose proof (value_word 4 (BE a)) as Hva. pose proof (value_word 4 ip) as Hvi. change (width 4) with 32 in *.
  rewrite <- land_mask_eq by done. split; intros H.
  - symmetry. apply (swap_inj 4); [by apply land_word|by apply land_word|exact H].
  - by rewrite H.
Qed.

Lemma ipv4_prefix_match_witness :
  ToIpv4Address (of_cpu 4 0xC0A80001) = [49; 57; 50; 46; 49; 54; 56; 46; 48; 46; 49] /\
  exists p, make_prefix (ToIpv4Address (of_cpu 4 0xC0A80001) ++ 47 :: decimal 2 24) = Some p /\ prefix_length p = 24.
Proof.
  split; [vm_compute; reflexivity|].
  destruct (ipv4_prefix_match (data_ (of_cpu 4 0xC0A80001)) (BE 0) 24 (BE 0)) as (_ & p & Hp & _ & Hl & _).
  - split; vm_compute; congruence.
  - lia.
  - split; vm_compute; congruence.
  - by exists p.
Defined.
