(* ===== verification/Frame.v ===== *)
(** Packets as byte buffers, and the header fields the modules read and write:
    [core/utils/ether.h], [core/utils/ip.h], [core/utils/udp.h], [core/utils/tcp.h] and
    [core/utils/icmp.h].

    The headers are packed structures laid over the buffer; a field is a
    little-endian word at an offset, as in memory.  An access outside of the buffer is
    [None].  The lemmas say how stores change the one's-complement sums of regions. *)
From S2P Require Import Prelude Endian Bits Checksum PacketBuf.

Definition load (n : nat) (off : Z) (p : bytes) : option Z := le_load <$> slice off (Z.of_nat n) p.
Definition store (n : nat) (off v : Z) (p : bytes) : option bytes :=
  if (0 <=? off) && (off + Z.of_nat n <=? Z.of_nat (length p))
  then Some (take (Z.to_nat off) p ++ le_store n v ++ drop (Z.to_nat off + n) p) else None.

(** ** Offsets of fields *)
Definition ETHER_SIZE : Z := 14.
Definition ip_ttl : Z := 8.
Definition ip_protocol : Z := 9.
Definition ip_checksum : Z := 10.
Definition ip_src_addr : Z := 12.
Definition ip_dst_addr : Z := 16.
Definition udp_src_port : Z := 0.
Definition udp_dst_port : Z := 2.
Definition udp_checksum : Z := 6.
Definition tcp_checksum : Z := 16.
Definition icmp_type : Z := 0.
Definition icmp_checksum : Z := 2.
Definition icmp_ident : Z := 4.

(** [Ipv4::Proto] *)
Definition kIcmp : Z := 1.
Definition kTcp : Z := 6.
Definition kUdp : Z := 17.

(** [eth + 1], and [ip + (ip->header_length << 2)] *)
Definition ip_at : Z := ETHER_SIZE.
Definition l4_at (p : bytes) : option Z :=
  b ← load 1 ip_at p; Some (ip_at + Z.shiftl (Z.land b 15) 2).

(** ** Sums of regions *)
Definition word16 (off : nat) (p : bytes) : Z := le_load (take 2 (drop off p)).
Definition wsum (o n : nat) (p : bytes) : Z := sum16 (take n (drop o p)).

Lemma store_2 off v p : 0 <= off -> off + 2 <= Z.of_nat (length p) ->
  store 2 off v p = Some (store16 (Z.to_nat off) v p).
Proof.
  intros H1 H2. unfold store. rewrite (proj2 (Z.leb_le _ _)), (proj2 (Z.leb_le _ _)) by lia. done.
Qed.

Lemma store_4 off v p : 0 <= off -> off + 4 <= Z.of_nat (length p) ->
  store 4 off v p = Some (store16 (Z.to_nat off) (u16 v) (store16 (Z.to_nat off + 2) (v / 2 ^ 16) p)).
Proof.
  intros H1 H2. unfold store. rewrite (proj2 (Z.leb_le _ _)), (proj2 (Z.leb_le _ _)) by lia. cbn [andb].
  f_equal. unfold store16 at 1. change (u16 v) with (v mod 256 ^ Z.of_nat 2). rewrite (le_store_mod 2 v). rewrite store16_take_lo by lia. f_equal.
  unfold store16. rewrite drop_app_ge by (rewrite length_take; lia).
  rewrite length_take_le, Nat.sub_diag, drop_0 by lia.
  replace (Z.to_nat off + 2 + 2)%nat with (Z.to_nat off + 4)%nat by lia.
  change (2 ^ 16) with 65536. cbn [le_store app].
  replace (v / 65536) with (v / 256 / 256) by (rewrite Z.div_div by lia; done). done.
Qed.

Lemma load_2 off p : 0 <= off -> off + 2 <= Z.of_nat (length p) -> load 2 off p = Some (word16 (Z.to_nat off) p).
Proof. intros. unfold load. rewrite slice_Some by lia. done. Qed.

Lemma word16_word off p : bytes_ok p -> in_word 16 (word16 off p).
Proof.
  intros Hok. unfold word16. pose proof (le_load_bound (take 2 (drop off p)) ltac:(auto with bess)) as Hb.
  assert (256 ^ Z.of_nat (length (take 2 (drop off p))) <= 256 ^ 2).
  { apply Z.pow_le_mono_r; [lia|]. rewrite length_take. lia. }
  unfold in_word. change (2 ^ 16) with (256 ^ 2). lia.
Qed.

Lemma store16_self off p : bytes_ok p -> (off + 2 <= length p)%nat -> store16 off (word16 off p) p = p.
Proof.
  intros Hok Hl. unfold store16, word16.
  assert (le_store 2 (le_load (take 2 (drop off p))) = take 2 (drop off p)) as ->.
  { rewrite <- (le_store_load (take 2 (drop off p))) at 2 by auto with bess.
    by rewrite length_take_le by (rewrite length_drop; lia). }
  rewrite <- (take_drop off p) at 4. f_equal. rewrite <- (take_drop 2 (drop off p)) at 2. by rewrite drop_drop.
Qed.

Lemma drop_store16 o off v p : (o <= off)%nat -> (off + 2 <= length p)%nat ->
  drop o (store16 off v p) = store16 (off - o) v (drop o p).
Proof.
  intros Ho Hl. unfold store16. rewrite drop_app_le by (rewrite length_take; lia).
  rewrite skipn_firstn_comm, drop_drop. do 3 f_equal. lia.
Qed.

Lemma word16_store16 off v p : (off + 2 <= length p)%nat -> word16 off (store16 off v p) = u16 v.
Proof.
  intros Hl. unfold word16, store16. rewrite drop_app_ge by (rewrite length_take; lia).
  rewrite length_take_le, Nat.sub_diag, drop_0 by lia. rewrite take_app_le by (rewrite length_le_store; lia).
  rewrite take_ge by (rewrite length_le_store; lia). rewrite le_load_store. done.
Qed.

Lemma word16_other off off' v p : (off + 2 <= length p)%nat -> (off' + 2 <= off \/ off + 2 <= off')%nat ->
  word16 off' (store16 off v p) = word16 off' p.
Proof.
  intros Hl [H|H]; unfold word16.
  - by rewrite !firstn_skipn_comm, store16_take_lo by lia.
  - by rewrite store16_drop_hi.
Qed.

(** A store inside a region, at an even distance from its start. *)
Lemma wsum_store16 o n off v p : bytes_ok p -> in_word 16 v -> (o <= off)%nat -> (off + 2 <= o + n)%nat ->
  (o + n <= length p)%nat -> Z.odd (Z.of_nat (off - o)) = false ->
  wsum o n (store16 off v p) = wsum o n p + (v - word16 off p).
Proof.
  intros Hok Hv Ho Hoff Hl Hev. unfold wsum. rewrite drop_store16 by lia.
  rewrite sum16_store16 by (rewrite ?length_drop; (done || lia)).
  assert (word16 off p = word16 (off - o) (drop o p)) as Hw.
  { unfold word16. rewrite drop_drop. by replace (o + (off - o))%nat with off by lia. }
  rewrite <- (store16_self (off - o) (drop o p)) at 2 by (auto with bess || (rewrite length_drop; lia)).
  rewrite (sum16_store16 _ (word16 _ _)); [rewrite Hw; lia|done|apply word16_word; auto with bess|lia|rewrite length_drop; lia].
Qed.

Lemma wsum_other o n off v p : (off + 2 <= length p)%nat -> (off + 2 <= o \/ o + n <= off)%nat ->
  wsum o n (store16 off v p) = wsum o n p.
Proof.
  intros Hl [H|H]; unfold wsum.
  - by rewrite store16_drop_hi.
  - by rewrite !firstn_skipn_comm, store16_take_lo by lia.
Qed.

Lemma wsum_nonneg o n p : bytes_ok p -> 0 <= wsum o n p.
Proof. intros Hok. apply sum16_nonneg. auto with bess. Qed.

(** ** Checksums that verify *)

(** The sum of a region with its checksum is the other zero of one's complement. *)
Lemma checksum_valid_iff S : 0 <= S -> internet_checksum S = 0 <-> 0 < S /\ S mod 65535 = 0.
Proof. intros HS. unfold internet_checksum, oc_norm. destruct (Z.eqb_spec S 0) as [->|]; zlia. Qed.

(** The incremental update moves a checksum by the increment, modulo 2^16 - 1. *)
Lemma update_increment ck inc : in_word 16 ck -> 0 <= inc < 2 ^ 31 ->
  in_word 16 (UpdateChecksumWithIncrement ck inc) /\
  (UpdateChecksumWithIncrement ck inc + inc - ck) mod 65535 = 0.
Proof.
  intros Hck Hinc. unfold UpdateChecksumWithIncrement.
  assert (Z.land (Z.lnot ck) 0xFFFF = 65535 - ck) as -> by (rewrite land_ffff; unfold Z.lnot; word).
  unfold in_word in Hck. change (2 ^ 16) with 65536 in Hck.
  rewrite wrap_small by (unfold in_word; lia).
  rewrite (FoldChecksum_oc _ (65535 - ck + inc)); [|unfold in_word; lia|apply oc_refl; lia].
  split; [apply internet_checksum_word; lia|].
  unfold internet_checksum, oc_norm. destruct (Z.eqb_spec (65535 - ck + inc) 0); zlia.
Qed.

(** What the increments stand for. *)
Lemma increment32_mod ov nv : in_word 32 ov -> in_word 32 nv ->
  0 <= ChecksumIncrement32 ov nv <= 4 * 65535 /\ (ChecksumIncrement32 ov nv + ov - nv) mod 65535 = 0.
Proof.
  intros Ho Hn. rewrite increment32_eq by done. unfold halves, in_word in *.
  change (2 ^ 32) with 4294967296 in *. change (2 ^ 16) with 65536. split; zlia.
Qed.

Lemma increment16_mod ov nv : in_word 16 ov -> in_word 16 nv ->
  0 <= ChecksumIncrement16 ov nv <= 2 * 65535 /\ (ChecksumIncrement16 ov nv + ov - nv) mod 65535 = 0.
Proof.
  intros Ho Hn. rewrite increment16_oc by done. unfold in_word in *. change (2 ^ 16) with 65536 in *. split; zlia.
Qed.

(** ** Stores at different places *)
Lemma store16_as_write off v p : store16 off v p = write off (le_store 2 v) p.
Proof. unfold store16, write. by rewrite length_le_store. Qed.

Lemma store16_split a v p : (a + 2 <= length p)%nat -> exists x m y, p = x ++ m ++ y /\ length x = a /\ length m = 2%nat /\
  store16 a v p = x ++ le_store 2 v ++ y.
Proof.
  intros H. exists (take a p), (take 2 (drop a p)), (drop (a + 2) p). split; [|split; [|split]].
  - rewrite <- drop_drop, take_drop. by rewrite take_drop.
  - rewrite length_take_le; lia.
  - rewrite length_take_le; [done|]. rewrite length_drop. lia.
  - done.
Qed.

(** Stores at places that do not overlap commute. *)
Lemma store16_comm a va b vb p : (a + 2 <= length p)%nat -> (b + 2 <= length p)%nat -> (a + 2 <= b \/ b + 2 <= a)%nat ->
  store16 a va (store16 b vb p) = store16 b vb (store16 a va p).
Proof.
  assert (forall a va b vb p, (b + 2 <= length p)%nat -> (a + 2 <= b)%nat ->
    store16 a va (store16 b vb p) = store16 b vb (store16 a va p)) as Hlt.
  { clear. intros a va b vb p Hb Hab. destruct (store16_split a va p ltac:(lia)) as (x & m & y & -> & Hx & Hm & Ha).
    rewrite Ha, !store16_as_write. rewrite !length_app in Hb.
    rewrite (write_app_r b _ x), (write_app_r b _ x) by lia. rewrite (write_app_r (b - length x) _ m), (write_app_r (b - length x) _ (le_store 2 va)) by (rewrite ?length_le_store; lia).
    rewrite length_le_store, Hm. by rewrite write_mid by (rewrite ?length_le_store; lia). }
  intros Ha Hb [H|H]; [by apply Hlt|]. symmetry. by apply Hlt.
Qed.

Lemma store16_same off v p : bytes_ok p -> (off + 2 <= length p)%nat -> word16 off p = v -> store16 off v p = p.
Proof. intros ? ? <-. by apply store16_self. Qed.

Lemma store16_twice off v w p : (off + 2 <= length p)%nat -> store16 off v (store16 off w p) = store16 off v p.
Proof.
  intros H. destruct (store16_split off w p H) as (x & m & y & -> & Hx & Hm & ->).
  rewrite !store16_as_write, !write_mid by (rewrite ?length_le_store; lia). done.
Qed.

(** Bounds on positions in a buffer that was written to. *)
Ltac len16 := first [lia | rewrite length_store16; len16].

(** Two words that change places. *)
Definition exchange (a b : nat) (p : bytes) : bytes := store16 b (word16 a p) (store16 a (word16 b p) p).

Section exchange.
Context (a b : nat).

Definition apart16 (p : bytes) : Prop := (a + 2 <= length p)%nat /\ (b + 2 <= length p)%nat /\ (a + 2 <= b \/ b + 2 <= a)%nat.

Lemma length_exchange p : apart16 p -> length (exchange a b p) = length p.
Proof. intros (? & ? & ?). unfold exchange. by rewrite !length_store16 by len16. Qed.

Lemma exchange_ok p : bytes_ok p -> bytes_ok (exchange a b p).
Proof. intros. by do 2 apply store16_ok. Qed.

Lemma exchange_words p : bytes_ok p -> apart16 p ->
  word16 a (exchange a b p) = word16 b p /\ word16 b (exchange a b p) = word16 a p.
Proof.
  intros Hok (? & ? & ?). pose proof (word16_word a p Hok). pose proof (word16_word b p Hok). unfold exchange. split.
  - rewrite word16_other, word16_store16 by len16. by apply wrap_small.
  - rewrite word16_store16 by len16. by apply wrap_small.
Qed.

Lemma exchange_other p off k : apart16 p -> (off + k <= a \/ a + 2 <= off)%nat -> (off + k <= b \/ b + 2 <= off)%nat ->
  take k (drop off (exchange a b p)) = take k (drop off p).
Proof.
  intros (? & ? & ?) Ha Hb. unfold exchange. rewrite !store16_as_write.
  by rewrite !write_other_read by (rewrite ?length_write; rewrite ?length_le_store; lia).
Qed.

Lemma exchange_twice p : bytes_ok p -> apart16 p -> exchange a b (exchange a b p) = p.
Proof.
  intros Hok Hap. destruct (exchange_words p Hok Hap) as [Ha Hb]. pose proof Hap as (? & ? & ?).
  unfold exchange at 1. rewrite Ha, Hb. unfold exchange.
  rewrite (store16_comm a _ b) by len16. rewrite store16_twice by len16.
  rewrite store16_twice by len16. rewrite (store16_same a) by done. by apply store16_same.
Qed.

Lemma exchange_sum p o n : bytes_ok p -> (o <= a)%nat -> (o <= b)%nat -> (a + 2 <= o + n)%nat -> (b + 2 <= o + n)%nat ->
  (o + n <= length p)%nat -> (a + 2 <= b \/ b + 2 <= a)%nat -> Z.odd (Z.of_nat (a - o)) = false -> Z.odd (Z.of_nat (b - o)) = false ->
  wsum o n (exchange a b p) = wsum o n p.
Proof.
  intros Hok Ha Hb Ha2 Hb2 Hl Hdis Hoa Hob. pose proof (word16_word a p Hok). pose proof (word16_word b p Hok). unfold exchange.
  rewrite wsum_store16 by (len16 || done || by apply store16_ok). rewrite wsum_store16 by (len16 || done).
  rewrite word16_other by lia. lia.
Qed.
End exchange.

Lemma exchange_comm a b c d p : (forall x y, x ∈ [a; b] -> y ∈ [c; d] -> (x + 2 <= y \/ y + 2 <= x)%nat) ->
  apart16 a b p -> apart16 c d p -> exchange a b (exchange c d p) = exchange c d (exchange a b p).
Proof.
  intros Hdis (Ha & Hb & Hab) (Hc & Hd & Hcd).
  pose proof (Hdis a c ltac:(set_solver) ltac:(set_solver)). pose proof (Hdis a d ltac:(set_solver) ltac:(set_solver)).
  pose proof (Hdis b c ltac:(set_solver) ltac:(set_solver)). pose proof (Hdis b d ltac:(set_solver) ltac:(set_solver)). clear Hdis.
  unfold exchange. rewrite !word16_other by len16.
  rewrite (store16_comm a _ d), (store16_comm a _ c), (store16_comm b _ d), (store16_comm b _ c) by len16. done.
Qed.
