(* ===== verification/DRR.v ===== *)
(** The deficit-round-robin module: [core/modules/drr.h] and [core/modules/drr.cc].

    Each flow has a ring of packets (LLRing.v); the flows take turns through a ring of pointers to
    them and are found by their 5-tuple in a cuckoo table (CuckooMap.v).  The flows are objects in a
    heap, which the table, the ring and [current_flow_] point into.  Whether memory can be allocated
    is an argument; times are in microseconds, and one call sees one time. *)
From S2P Require Import Prelude Common CuckooMap LLRing Queue Frame.
Open Scope Z_scope.

Definition kDefaultNumFlows : Z := 4096.
Definition kFlowQueueSize : Z := 2048.
Definition kQueueGrowthFactor : Z := 2.
Definition kFlowQueueMax : Z := 8192.
Definition kTtl : Z := 300 * 1000000.
Definition kDefaultQuantum : Z := 1500.
Definition kPacketOverhead : Z := 24.
Definition kBatch : nat := 32.

Definition RoundToPowerTwo (v : Z) : Z := u32 (smear 16 (smear 8 (smear 4 (smear 2 (smear 1 (u32 (v - 1)))))) + 1).

Record FlowId := MkId { src_ip : Z; dst_ip : Z; src_port : Z; dst_port : Z; protocol : Z }.
#[export] Instance flow_id_dec : EqDecision FlowId.
Proof. solve_decision. Defined.
#[export] Instance flow_id_countable : Countable FlowId.
Proof.
  refine (inj_countable' (fun i => (src_ip i, dst_ip i, src_port i, dst_port i, protocol i))
    (fun '(a, b, c, d, e) => MkId a b c d e) _). by intros [].
Defined.

Definition EqualTo (id1 id2 : FlowId) : bool :=
  let ips := (src_ip id1 =? src_ip id2) && (dst_ip id1 =? dst_ip id2) in
  let ports := (src_port id1 =? src_port id2) && (dst_port id1 =? dst_port id2) in
  (ips && ports) && (protocol id1 =? protocol id2).

Section DRR.
(** Packets: their length, and their data from the head on; [std::hash<unsigned int>]. *)
Context {P : Type} (null : P) (total_len : P -> Z) (head_data : P -> bytes) (std_hash : Z -> Z).

Definition combine (hash val : Z) : Z :=
  Z.lxor hash (u64 (std_hash val + 0x9e3779b9 + Z.shiftl hash 6 + Z.shiftr hash 2)).
Definition Hash (id : FlowId) : Z :=
  u32 (combine (combine (combine (combine (combine 0 (src_ip id)) (dst_ip id)) (src_port id)) (dst_port id)) (protocol id)).

Record Flow := MkFlow {
  deficit : Z;
  timer : Z;
  fid : FlowId;
  queue : option (llring P);
  next_packet : option P }.
Definition with_queue (f : Flow) (q : option (llring P)) : Flow := MkFlow (deficit f) (timer f) (fid f) q (next_packet f).
Definition with_next (f : Flow) (p : option P) : Flow := MkFlow (deficit f) (timer f) (fid f) (queue f) p.
Definition with_deficit (f : Flow) (d : Z) : Flow := MkFlow d (timer f) (fid f) (queue f) (next_packet f).
Definition with_timer (f : Flow) (now : Z) : Flow := MkFlow (deficit f) now (fid f) (queue f) (next_packet f).
Definition new_flow (id : FlowId) : Flow := MkFlow 0 0 id None None.

Abbreviation table := (CuckooMap.t (K := FlowId) (V := nat)).
Definition no_entry : FlowId * nat := (MkId 0 0 0 0 0, O).

Record DRR := MkDRR {
  quantum_ : Z;
  max_queue_size_ : Z;
  max_number_flows_ : Z;
  flows_ : table;
  flow_ring_ : option (llring nat);
  current_flow_ : option nat;
  heap : gmap nat Flow;
  next_flow : nat }.
Definition with_flows (d : DRR) (t : table) : DRR :=
  MkDRR (quantum_ d) (max_queue_size_ d) (max_number_flows_ d) t (flow_ring_ d) (current_flow_ d) (heap d) (next_flow d).
Definition with_flow_ring (d : DRR) (r : option (llring nat)) : DRR :=
  MkDRR (quantum_ d) (max_queue_size_ d) (max_number_flows_ d) (flows_ d) r (current_flow_ d) (heap d) (next_flow d).
Definition with_current (d : DRR) (c : option nat) : DRR :=
  MkDRR (quantum_ d) (max_queue_size_ d) (max_number_flows_ d) (flows_ d) (flow_ring_ d) c (heap d) (next_flow d).
Definition with_heap (d : DRR) (h : gmap nat Flow) : DRR :=
  MkDRR (quantum_ d) (max_queue_size_ d) (max_number_flows_ d) (flows_ d) (flow_ring_ d) (current_flow_ d) h (next_flow d).
Definition set_flow (d : DRR) (a : nat) (f : Flow) : DRR := with_heap d (<[a := f]> (heap d)).
Definition new_drr : DRR :=
  MkDRR kDefaultQuantum kFlowQueueMax kDefaultNumFlows (CuckooMap.make no_entry kInitNumBucket kInitNumEntries) None None ∅ 0.

(** ** Queues.  Errors are 0 or a negative number. *)
Section Alloc.
(** Whether a queue of so many slots can be allocated. *)
Context (alloc : Z -> bool).

Definition AddQueue {T} (null : T) (slots : Z) : option (llring T) * Z :=
  if negb (alloc slots) then (None, -12)
  else match llring_init null slots true true with
       | (_, None) => (None, -22)
       | (_, Some r) => (Some r, 0)
       end.

Fixpoint migrate_queue (fuel : nat) (old new : llring P) : option (llring P * list P * Z) :=
  match fuel with
  | O => None
  | S fuel =>
      '(old, out, ret) ← llring_dequeue old;
      if ret =? 0 then
        match out with
        | [pkt] =>
            '(new, err) ← llring_enqueue new pkt;
            if err =? - LLRING_ERR_NOBUF then '(new, freed, err) ← migrate_queue fuel old new; Some (new, pkt :: freed, err)
            else if negb (err =? 0) then Some (new, [], err)
            else migrate_queue fuel old new
        | _ => None
        end
      else Some (new, [], 0)
  end.
(** The new queue, the packets freed, and the error. *)
Definition ResizeQueue (old_queue : option (llring P)) (new_size : Z) : option (option (llring P) * list P * Z) :=
  match AddQueue null new_size with
  | (None, err) => Some (None, [], err)
  | (Some new, _) =>
      match old_queue with
      | None => Some (Some new, [], 0)
      | Some old =>
          '(new, freed, err) ← migrate_queue (S (Z.to_nat (llring_count old))) old new;
          Some (if negb (err =? 0) then None else Some new, freed, err)
      end
  end.

Definition Enqueue (max_queue_size : Z) (now : Z) (f : Flow) (newpkt : P) : option (Flow * list P * Z) :=
  q ← queue f;
  if max_queue_size <=? llring_count q then Some (f, [newpkt], 0)
  else
    '(q, freed, err) ← if llring_full q
                       then ResizeQueue (Some q) (RoundToPowerTwo (u32 (llring_count q * kQueueGrowthFactor)))
                       else Some (Some q, [], 0);
    let f := with_queue f q in
    if negb (err =? 0) then Some (f, freed ++ [newpkt], err)
    else
      q ← q;
      '(q, err) ← llring_enqueue q newpkt;
      let f := with_queue f (Some q) in
      if err =? 0 then Some (with_timer f now, freed, 0) else Some (f, freed ++ [newpkt], err).

(** ** Packets that arrive *)
Definition GetId (pkt : P) : option FlowId :=
  let p := head_data pkt in
  udp ← l4_at p;
  src ← slice (ip_at + ip_src_addr) 4 p; dst ← slice (ip_at + ip_dst_addr) 4 p;
  sport ← slice (udp + udp_src_port) 2 p; dport ← slice (udp + udp_dst_port) 2 p;
  proto ← load 1 (ip_at + ip_protocol) p;
  Some (MkId (be_load src) (be_load dst) (be_load sport) (be_load dport) proto).

(** The packets freed, and the error. *)
Definition AddNewFlow (d : DRR) (now : Z) (pkt : P) (id : FlowId) : option (DRR * list P * Z) :=
  let a := next_flow d in
  let d := MkDRR (quantum_ d) (max_queue_size_ d) (max_number_flows_ d) (flows_ d) (flow_ring_ d) (current_flow_ d)
             (<[a := new_flow id]> (heap d)) (S a) in
  match AddQueue null kFlowQueueSize with
  | (None, err) => Some (d, [], err)
  | (Some q, _) =>
      let f := with_queue (new_flow id) (Some q) in
      '(t, _) ← CuckooMap.Insert Hash EqualTo no_entry (flows_ d) id a;
      let d := with_flows d t in
      '(f, freed, err) ← Enqueue (max_queue_size_ d) now f pkt;
      let d := set_flow d a f in
      if negb (err =? 0) then Some (d, freed, err)
      else
        fr ← flow_ring_ d;
        '(fr, err) ← llring_enqueue fr a;
        Some (with_flow_ring d (Some fr), freed, err)
  end.

(** A failed [assert] is [None]. *)
Definition arrive (d : DRR) (now : Z) (pkt : P) : option (DRR * list P) :=
  id ← GetId pkt;
  fr ← flow_ring_ d;
  match CuckooMap.Find Hash EqualTo no_entry (flows_ d) id with
  | None =>
      if llring_full fr then Some (d, [pkt])
      else '(d, freed, err) ← AddNewFlow d now pkt id; if err =? 0 then Some (d, freed) else None
  | Some (_, a) =>
      f ← heap d !! a;
      '(f, freed, err) ← Enqueue (max_queue_size_ d) now f pkt;
      if err =? 0 then Some (set_flow d a f, freed) else None
  end.
Fixpoint ProcessBatch (d : DRR) (now : Z) (pkts : list P) : option (DRR * list P) :=
  match pkts with
  | [] => Some (d, [])
  | pkt :: pkts => '(d, f1) ← arrive d now pkt; '(d, f2) ← ProcessBatch d now pkts; Some (d, f1 ++ f2)
  end.

(** ** Set-up *)
Definition SetQuantumSize (d : DRR) (size : Z) : DRR * (errno + unit) :=
  if size =? 0 then (d, inl EINVAL)
  else (MkDRR size (max_queue_size_ d) (max_number_flows_ d) (flows_ d) (flow_ring_ d) (current_flow_ d) (heap d) (next_flow d), inr tt).
Definition SetMaxFlowQueueSize (d : DRR) (size : Z) : DRR * (errno + unit) :=
  if size =? 0 then (d, inl EINVAL)
  else (MkDRR (quantum_ d) size (max_number_flows_ d) (flows_ d) (flow_ring_ d) (current_flow_ d) (heap d) (next_flow d), inr tt).

(** [task]: whether [RegisterTask] succeeds. *)
Definition Init (d : DRR) (task : bool) (num_flows max_flow_queue_size quantum : Z) : DRR * (errno + unit) :=
  let d := if negb (num_flows =? 0)
           then MkDRR (quantum_ d) (max_queue_size_ d) (RoundToPowerTwo (u32 (num_flows + 1))) (flows_ d) (flow_ring_ d)
                  (current_flow_ d) (heap d) (next_flow d)
           else d in
  let '(d, r) := if negb (max_flow_queue_size =? 0) then SetMaxFlowQueueSize d max_flow_queue_size else (d, inr tt) in
  match r with
  | inl e => (d, inl e)
  | inr _ =>
      let '(d, r) := if negb (quantum =? 0) then SetQuantumSize d quantum else (d, inr tt) in
      match r with
      | inl e => (d, inl e)
      | inr _ =>
          if negb task then (d, inl ENOMEM)
          else let '(q, err) := AddQueue O (max_number_flows_ d) in
               (with_flow_ring d q, if negb (err =? 0) then inl (if err =? -12 then ENOMEM else EINVAL) else inr tt)
      end
  end.
End Alloc.

(** ** The task *)

(** [flows_.Remove] and [delete f]: the packets that are freed. *)
Definition RemoveFlow (d : DRR) (a : nat) : option (DRR * list P) :=
  f ← heap d !! a;
  let d := if decide (current_flow_ d = Some a) then with_current d None else d in
  let d := with_flows d (CuckooMap.Remove Hash EqualTo no_entry (flows_ d) (fid f)).1 in
  freed ← match queue f with Some q => drain (S (Z.to_nat (llring_count q))) q | None => Some [] end;
  Some (with_heap d (delete a (heap d)), freed ++ match next_packet f with Some p => [p] | None => [] end).

Definition no_packets (f : Flow) (q : llring P) : bool :=
  llring_empty q && match next_packet f with None => true | Some _ => false end.

(** The flow, the packets freed and the error. *)
Definition GetNextFlow (d : DRR) (now : Z) : option (DRR * option nat * list P * Z) :=
  match current_flow_ d with
  | Some a => Some (with_current d None, Some a, [], 0)
  | None =>
      fr ← flow_ring_ d;
      '(fr, out, err) ← llring_dequeue fr;
      let d := with_flow_ring d (Some fr) in
      if err <? 0 then Some (d, None, [], err)
      else
        a ← head out;
        f ← heap d !! a;
        q ← queue f;
        if no_packets f q then
          if kTtl <? now - timer f then '(d, freed) ← RemoveFlow d a; Some (d, None, freed, err)
          else '(fr, err) ← llring_enqueue fr a; Some (with_flow_ring d (Some fr), None, [], err)
        else Some (set_flow d a (with_deficit f (to_int (deficit f + quantum_ d))), Some a, [], err)
  end.

(** [room]: how many packets the batch has room for. *)
Fixpoint GetNextPackets (room : nat) (f : Flow) : option (Flow * list P * Z * Z) :=
  match room with
  | O => Some (f, [], 0, 0)
  | S room =>
      q ← queue f;
      if no_packets f q then Some (f, [], 0, 0)
      else
        '(f, pkt, err) ← match next_packet f with
                         | Some pkt => Some (with_next f None, Some pkt, 0)
                         | None => '(q, out, err) ← llring_dequeue q; Some (with_queue f (Some q), head out, err)
                         end;
        if err <? 0 then Some (f, [], 0, err)
        else
          pkt ← pkt;
          if deficit f <? total_len pkt then Some (with_next f (Some pkt), [], 0, 0)
          else
            '(f, pkts, bytes, err) ← GetNextPackets room (with_deficit f (deficit f - total_len pkt));
            Some (f, pkt :: pkts, u32 (total_len pkt + bytes), err)
  end.

(** The loop of [GetNextBatch]; the packets that were freed are collected, too. *)
Fixpoint next_batch (fuel : nat) (now : Z) (d : DRR) (batch : list P) (count : Z) (batch_size : nat) (total_bytes : Z)
    (freed : list P) : option (DRR * list P * Z * list P * Z) :=
  match fuel with
  | O => None
  | S fuel =>
      if (kBatch <=? length batch)%nat then Some (d, batch, total_bytes, freed, 0)
      else if (count =? 0) && (batch_size =? length batch)%nat then Some (d, batch, total_bytes, freed, 0)
      else
        fr ← flow_ring_ d;
        let '(count, batch_size) := if count =? 0 then (llring_count fr, length batch) else (count, batch_size) in
        let count := u32 (count - 1) in
        '(d, f, fs, err) ← GetNextFlow d now;
        let freed := freed ++ fs in
        if negb (err =? 0) then Some (d, batch, total_bytes, freed, err)
        else
          match f with
          | None => next_batch fuel now d batch count batch_size total_bytes freed
          | Some a =>
              f ← heap d !! a;
              '(f, pkts, bytes, err) ← GetNextPackets (kBatch - length batch) f;
              let batch := batch ++ pkts in
              let total_bytes := u32 (total_bytes + bytes) in
              if negb (err =? 0) then Some (set_flow d a f, batch, total_bytes, freed, err)
              else
                q ← queue f;
                let f := if no_packets f q then with_deficit f 0 else f in
                let d := set_flow d a f in
                if match next_packet f with None => true | Some pkt => deficit f <? total_len pkt end then
                  fr ← flow_ring_ d;
                  '(fr, err) ← llring_enqueue fr a;
                  let d := with_flow_ring d (Some fr) in
                  if negb (err =? 0) then Some (d, batch, total_bytes, freed, err)
                  else next_batch fuel now d batch count batch_size total_bytes freed
                else next_batch fuel now (with_current d (Some a)) batch count batch_size total_bytes freed
          end
  end.
Definition GetNextBatch (d : DRR) (now : Z) : option (DRR * list P * Z * list P * Z) :=
  fr ← flow_ring_ d;
  let count := if current_flow_ d then llring_count fr + 1 else llring_count fr in
  next_batch (kBatch * S (Z.to_nat count) + S (S (Z.to_nat count))) now d [] count 0 0 [].

(** The batch that [RunNextModule] is called with, if any; the batch; the packets freed. *)
Definition RunTask (d : DRR) (now : Z) (children_overload : Z) : option (DRR * option (list P) * list P * list P * task_result) :=
  if 0 <? children_overload then Some (d, None, [], [], Result true 0 0)
  else
    '(d, batch, total_bytes, freed, err) ← match flow_ring_ d with
                                           | Some _ => GetNextBatch d now
                                           | None => Some (d, [], 0, [], 0)
                                           end;
    if err <? 0 then None
    else
      let cnt := Z.of_nat (length batch) in
      Some (d, if 0 <? total_bytes then Some batch else None, batch, freed,
            Result (cnt =? 0) cnt (u32 (u32 (total_bytes + u32 (cnt * kPacketOverhead)) * 8))).

(** The destructor. *)
Fixpoint remove_flows (d : DRR) (l : list nat) : option (DRR * list P) :=
  match l with
  | [] => Some (d, [])
  | a :: l => '(d, f1) ← RemoveFlow d a; '(d, f2) ← remove_flows d l; Some (d, f1 ++ f2)
  end.
Definition Destroy (d : DRR) : option (DRR * list P) :=
  es ← for_each no_entry (flows_ d); '(d, freed) ← remove_flows d (map snd es); Some (with_flow_ring d None, freed).
End DRR.

(** ** Sizes *)
Lemma RoundToPowerTwo_spec v : 1 < v <= 2 ^ 31 -> RoundToPowerTwo v = 2 ^ (Z.log2 (v - 1) + 1).
Proof.
  intros Hv. unfold RoundToPowerTwo. rewrite (wrap_small 32 (v - 1)) by (unfold in_word; lia).
  rewrite smear32_log2 by lia. assert (Z.log2 (v - 1) < 31) by (apply Z.log2_lt_pow2; lia).
  pose proof (Z.log2_nonneg (v - 1)). rewrite Z.sub_add. apply wrap_small.
  split; [apply Z.pow_nonneg; lia|apply Z.pow_lt_mono_r; lia].
Qed.

Lemma grown_size p : 2 <= p <= 30 -> RoundToPowerTwo (u32 ((2 ^ p - 1) * kQueueGrowthFactor)) = 2 ^ (p + 1).
Proof.
  intros Hp. unfold kQueueGrowthFactor. assert (2 ^ 2 <= 2 ^ p <= 2 ^ 30) as Hb by (split; apply Z.pow_le_mono_r; lia).
  rewrite wrap_small by (unfold in_word; lia). rewrite RoundToPowerTwo_spec by lia.
  f_equal. f_equal. apply Z.log2_unique; [lia|]. rewrite Z.pow_succ_r by lia. lia.
Qed.

Section Rings.
Context {T : Type} (null : T).

(** The ring operations the module uses. *)
Lemma ring_push r x : plain r ->
  exists r' err, llring_enqueue r x = Some (r', err) /\ plain r' /\ slots r' = slots r /\
    if free_slots r =? 0 then err = - LLRING_ERR_NOBUF /\ contents null r' = contents null r
    else err = 0 /\ contents null r' = contents null r ++ [x].
Proof.
  intros Hp. rewrite llring_enqueue_do.
  destruct (plain_enqueue_one null (sp_enqueue r) r x Hp) as (r' & err & -> & Hp' & (_ & ? & _) & He). by exists r', err.
Qed.

Lemma ring_pop r : plain r ->
  exists r' out err, llring_dequeue r = Some (r', out, err) /\ plain r' /\ slots r' = slots r /\
    match contents null r with
    | [] => err = - LLRING_ERR_NOENT /\ contents null r' = []
    | x :: rest => err = 0 /\ out = [x] /\ contents null r' = rest
    end.
Proof.
  intros Hp. rewrite llring_dequeue_do.
  destruct (plain_dequeue_one null (sc_dequeue r) r Hp) as (r' & out & err & -> & Hp' & (_ & ? & _) & He). by exists r', out, err.
Qed.

Lemma ring_empty r : plain r -> llring_empty r = bool_decide (contents null r = []).
Proof. intros [HI _]. by apply ring_empty_spec. Qed.

Lemma ring_room r : plain r -> llring_count r = Z.of_nat (length (contents null r)) /\
  Z.of_nat (length (contents null r)) + free_slots r = slots r - 1 /\ 0 <= free_slots r /\ llring_full r = (free_slots r =? 0).
Proof. intros Hp. pose proof (plain_count null r Hp) as (? & ? & ?). split; [done|]. split; [done|]. split; [done|]. apply ring_full_spec, Hp. Qed.
End Rings.

(** ** Flows *)
Section Flows.
Context {P : Type} (null : P) (total_len : P -> Z).
Context (len_ok : forall p, 0 < total_len p <= 2 ^ 26).
Implicit Types (f : Flow (P := P)).

Definition backlog f : list P :=
  match next_packet f with Some p => [p] | None => [] end ++ match queue f with Some q => contents null q | None => [] end.
Definition flow_ok f : Prop := exists q p, queue f = Some q /\ plain q /\ slots q = 2 ^ p /\ 11 <= p <= 31.
Definition bytes_of (l : list P) : Z := foldr (fun p n => total_len p + n) 0 l.

Lemma bytes_of_app l k : bytes_of (l ++ k) = bytes_of l + bytes_of k.
Proof. unfold bytes_of. clear. induction l as [|x l IH]; cbn [app foldr]; lia. Qed.
Lemma bytes_of_bound l : Z.of_nat (length l) <= bytes_of l <= 2 ^ 26 * Z.of_nat (length l).
Proof. induction l as [|x l IH]; cbn [bytes_of foldr length] in *; [lia|]. pose proof (len_ok x). unfold bytes_of in IH. lia. Qed.

Lemma no_packets_spec f q : queue f = Some q -> plain q -> no_packets f q = bool_decide (backlog f = []).
Proof.
  intros Hq Hp. unfold no_packets, backlog. rewrite Hq, (ring_empty null) by done. destruct (next_packet f); cbn [app].
  - rewrite andb_false_r. symmetry. by apply bool_decide_eq_false_2.
  - by rewrite andb_true_r.
Qed.

Lemma migrate_queue_spec fuel old new : plain old -> plain new -> (length (contents null old) < fuel)%nat ->
  Z.of_nat (length (contents null old)) <= free_slots new ->
  exists new', migrate_queue fuel old new = Some (new', [], 0) /\ plain new' /\ slots new' = slots new /\
    contents null new' = contents null new ++ contents null old.
Proof using.
  clear. revert old new. induction fuel as [|fuel IH]; intros old new Ho Hn Hf Hr; [lia|]. cbn [migrate_queue].
  destruct (ring_pop null old Ho) as (old' & out & err & -> & Ho' & _ & Hd). cbn [mbind option_bind].
  destruct (contents null old) as [|x rest].
  - destruct Hd as [-> _]. cbn. exists new. by rewrite app_nil_r.
  - destruct Hd as (-> & -> & Hc). cbn [Z.eqb length] in *.
    destruct (ring_push null new x Hn) as (new' & err & -> & Hn' & Hs & He). cbn [mbind option_bind].
    destruct (ring_room null new Hn) as (_ & Hsum & Hpos & _). destruct (ring_room null new' Hn') as (_ & Hsum' & _).
    rewrite (proj2 (Z.eqb_neq _ _)) in He by lia. destruct He as [-> Hcn]. cbn [Z.eqb negb Z.opp LLRING_ERR_NOBUF].
    rewrite Hcn, length_app in Hsum'. cbn [length] in Hsum'.
    destruct (IH old' new' Ho' Hn') as (new2 & -> & Hp2 & Hs2 & Hc2); [rewrite Hc; lia|rewrite Hc; lia|].
    exists new2. split; [done|]. split; [done|]. split; [congruence|]. by rewrite Hc2, Hcn, Hc, <- app_assoc.
Qed.

(** [Enqueue] drops the packet of a flow that has too many; otherwise there is room, if need be in a
    larger ring. *)
Lemma Enqueue_spec alloc max now f pkt : (forall n, alloc n = true) -> max < 2 ^ 31 -> flow_ok f ->
  exists f' freed, Enqueue null alloc max now f pkt = Some (f', freed, 0) /\ flow_ok f' /\ fid f' = fid f /\ deficit f' = deficit f /\
    (freed = [pkt] /\ f' = f \/ freed = [] /\ backlog f' = backlog f ++ [pkt] /\ timer f' = now).
Proof using.
  clear. intros Halloc Hmax Hf. pose proof Hf as (q & p & Hq & Hp & Hs & Hpb). unfold Enqueue. rewrite Hq. cbn [mbind option_bind].
  destruct (ring_room null q Hp) as (Hc & Hsum & Hpos & ->). rewrite Hc.
  destruct (Z.leb_spec max (Z.of_nat (length (contents null q)))) as [Hle|Hlt].
  { exists f, [pkt]. split; [done|]. do 3 (split; [done|]). by left. }
  assert (exists q1 p1, (if free_slots q =? 0 then ResizeQueue null alloc (Some q) (RoundToPowerTwo (u32 (Z.of_nat (length (contents null q)) * kQueueGrowthFactor)))
      else Some (Some q, [], 0)) = Some (Some q1, [], 0) /\ plain q1 /\ slots q1 = 2 ^ p1 /\ 11 <= p1 <= 31 /\ 0 < free_slots q1 /\
      contents null q1 = contents null q) as (q1 & p1 & -> & Hp1 & Hs1 & Hb1 & Hfree & Hc1).
  { destruct (Z.eqb_spec (free_slots q) 0) as [H0|H0]; [|exists q, p; split; [done|]; split; [done|]; split; [done|]; split; [done|]; split; [lia|done]].
    assert (p <= 30) by (apply Z.nlt_ge; intros ?; assert (p = 31) as -> by lia; lia).
    assert (Hlen : Z.of_nat (length (contents null q)) = 2 ^ p - 1) by lia. rewrite Hlen, grown_size by lia.
    unfold ResizeQueue, AddQueue. rewrite Halloc. cbn [negb].
    destruct (plain_init null (2 ^ (p + 1)) true true) as (new & -> & Hnew & Hsn & Hcn); [exists (p + 1); lia|].
    destruct (ring_room null new Hnew) as (_ & Hsumn & _). rewrite Hcn in Hsumn. cbn [length] in Hsumn.
    rewrite Z.pow_add_r in Hsn by lia. change (2 ^ 1) with 2 in Hsn.
    assert (2 ^ 11 <= 2 ^ p) by (apply Z.pow_le_mono_r; lia).
    destruct (migrate_queue_spec (S (Z.to_nat (llring_count q))) q new Hp Hnew) as (new' & -> & Hp' & Hs' & Hc'); [lia|lia|].
    cbn [mbind option_bind]. exists new', (p + 1). rewrite Hcn in Hc'. destruct (ring_room null new' Hp') as (_ & Hsum' & _).
    rewrite Hc' in Hsum'. cbn [app] in Hsum'. split; [done|]. split; [done|]. split; [rewrite Hs', Hsn, Z.pow_add_r by lia; lia|].
    split; [lia|]. split; [lia|done]. }
  cbn [mbind option_bind]. cbn [Z.eqb negb].
  destruct (ring_push null q1 pkt Hp1) as (q2 & err & -> & Hp2 & Hs2 & He). cbn [mbind option_bind].
  rewrite (proj2 (Z.eqb_neq _ _)) in He by lia. destruct He as [-> Hc2]. cbn [Z.eqb].
  eexists _, _. split; [reflexivity|]. split; [exists q2, p1; split; [done|]; split; [done|]; split; [congruence|done]|].
  do 2 (split; [done|]). right. split; [done|]. split; [|done].
  unfold backlog. cbn [with_timer with_queue next_packet queue]. by rewrite Hq, Hc2, Hc1, app_assoc.
Qed.

(** A visit to a flow takes its oldest packets as far as its deficit reaches. *)
Lemma GetNextPackets_spec room f : flow_ok f ->
  exists f' pkts, GetNextPackets total_len room f = Some (f', pkts, u32 (bytes_of pkts), 0) /\ flow_ok f' /\
    fid f' = fid f /\ timer f' = timer f /\ pkts ++ backlog f' = backlog f /\ (length pkts <= room)%nat /\
    deficit f' = deficit f - bytes_of pkts /\ (pkts <> [] -> 0 <= deficit f') /\
    (next_packet f = None \/ (0 < room)%nat -> forall p, next_packet f' = Some p -> deficit f' < total_len p) /\
    ((length pkts < room)%nat -> match backlog f' with [] => True | p :: _ => deficit f' < total_len p end).
Proof.
  revert f. induction room as [|room IH]; intros f Hf; cbn [GetNextPackets].
  { exists f, []. rewrite Z.sub_0_r. split; [done|]. split; [done|]. do 5 (split; [done|]). split; [done|].
    split; [|cbn; lia]. intros [Hn|?] p Hp; [by rewrite Hn in Hp|lia]. }
  pose proof Hf as (q & k & Hq & Hp & Hs & Hk). rewrite Hq. cbn [mbind option_bind]. rewrite (no_packets_spec f q) by done.
  case_bool_decide as Hb.
  { exists f, []. rewrite Z.sub_0_r. split; [done|]. split; [done|]. do 3 (split; [done|]). split; [cbn; lia|].
    do 2 (split; [done|]).
    split; [|by rewrite Hb]. intros _ p Hn. unfold backlog in Hb. by rewrite Hn in Hb. }
  assert (exists f1 pkt, match next_packet f with
      | Some pkt => Some (with_next f None, Some pkt, 0)
      | None => '(q, out, err) ← llring_dequeue q; Some (with_queue f (Some q), head out, err) end = Some (f1, Some pkt, 0) /\
      flow_ok f1 /\ fid f1 = fid f /\ timer f1 = timer f /\ deficit f1 = deficit f /\ next_packet f1 = None /\ backlog f = pkt :: backlog f1)
    as (f1 & pkt & -> & Hf1 & Hid & Ht & Hd & Hn1 & Hbl).
  { unfold backlog in *. rewrite Hq in *. destruct (next_packet f) as [pkt|] eqn:Hn; cbn [app] in *.
    - exists (with_next f None), pkt. split; [done|]. split; [exists q, k; done|]. cbn. by rewrite Hq.
    - destruct (ring_pop null q Hp) as (q' & out & err & -> & Hp' & Hs' & He). cbn [mbind option_bind].
      destruct (contents null q) as [|x rest]; [done|]. destruct He as (-> & -> & Hc).
      exists (with_queue f (Some q')), x. split; [done|]. split; [exists q', k; split; [done|]; split; [done|]; split; [congruence|done]|].
      cbn [with_queue fid timer deficit next_packet queue]. rewrite Hn, Hc. done. }
  cbn [mbind option_bind]. change (0 <? 0) with false. cbn [mbind option_bind].
  destruct (Z.ltb_spec (deficit f1) (total_len pkt)) as [Hlt|Hge].
  - exists (with_next f1 (Some pkt)), []. rewrite Z.sub_0_r. split; [done|]. split; [exact Hf1|].
    do 2 (split; [done|]). unfold backlog in Hbl |- *. rewrite Hn1 in Hbl. cbn [with_next next_packet queue app] in *.
    split; [by rewrite Hbl|]. split; [cbn; lia|]. split; [done|]. split; [done|].
    split; [intros _ p [= <-]; exact Hlt|intros _; exact Hlt].
  - destruct (IH (with_deficit f1 (deficit f1 - total_len pkt))) as (f2 & pkts & -> & Hf2 & Hid2 & Ht2 & Hbl2 & Hl2 & Hd2 & Hpos2 & Hn2 & Hstop);
      [exact Hf1|]. cbn [mbind option_bind]. change (backlog (with_deficit f1 _)) with (backlog f1) in Hbl2. cbn [with_deficit deficit] in Hd2.
    exists f2, (pkt :: pkts). cbn [bytes_of foldr length app]. fold (bytes_of pkts).
    split; [do 3 f_equal; unfold wrap; apply Zplus_mod_idemp_r|]. split; [done|]. split; [cbn in Hid2; congruence|]. split; [cbn in Ht2; congruence|].
    split; [by rewrite Hbl2|]. split; [lia|]. split; [lia|]. split.
    + intros _. destruct pkts as [|x pkts]; [|by apply Hpos2]. cbn in Hd2. lia.
    + split; [|intros Hlr; apply Hstop; lia]. intros _ p Hnp. apply Hn2; [left; exact Hn1|done].
Qed.
End Flows.

(** ** The state *)
Section State.
Context {P : Type} (null : P) (total_len : P -> Z) (head_data : P -> bytes) (std_hash : Z -> Z).
Context (len_ok : forall p, 0 < total_len p <= 2 ^ 26).
Implicit Types (d : DRR (P := P)) (f : Flow (P := P)).
Abbreviation abs := (CuckooMap.abs (K := FlowId) (V := nat) no_entry).
Abbreviation any := (fun _ : FlowId => True).

(** The flows in the order of their turns, and what waits in a flow. *)
Definition turns d : list nat := match flow_ring_ d with Some fr => contents O fr | None => [] end.
Definition backlog_of d (a : nat) : list P := match heap d !! a with Some f => backlog null f | None => [] end.

(** The flows in [popped] have been taken from the ring. *)
Record InvP (popped : list nat) d : Prop := {
  ip_ring : exists fr, flow_ring_ d = Some fr /\ plain fr /\ Z.of_nat (length (popped ++ contents O fr)) <= slots fr - 1;
  ip_nodup : NoDup (popped ++ turns d);
  ip_dom : forall a, a ∈ popped ++ turns d <-> is_Some (heap d !! a);
  ip_current : current_flow_ d = None;
  ip_table : CuckooMap.Inv (Hash std_hash) no_entry any (flows_ d);
  ip_map : forall id a, abs (flows_ d) !! id = Some a -> exists f, heap d !! a = Some f /\ fid f = id;
  ip_heap : map_Forall (fun _ f => flow_ok f /\ Forall (fun p => GetId head_data p = Some (fid f)) (backlog null f)) (heap d);
  ip_next : forall a, is_Some (heap d !! a) -> (a < next_flow d)%nat;
  ip_max : max_queue_size_ d < 2 ^ 31 }.
Definition Inv d : Prop := InvP [] d.

Lemma flow_id_eq_spec (a b : FlowId) : True -> True -> EqualTo a b = true <-> a = b.
Proof.
  intros _ _. destruct a, b. unfold EqualTo. cbn. rewrite !andb_true_iff, !Z.eqb_eq. split; [|by intros [= -> -> -> -> ->]].
  intros [[[-> ->] [-> ->]] ->]. done.
Qed.

Lemma turns_ring d fr : flow_ring_ d = Some fr -> turns d = contents O fr.
Proof. unfold turns. by intros ->. Qed.

(** A flow that changes. *)
Lemma InvP_set popped d a f f' : InvP popped d -> heap d !! a = Some f -> flow_ok f' -> fid f' = fid f ->
  Forall (fun p => GetId head_data p = Some (fid f)) (backlog null f') -> InvP popped (set_flow d a f').
Proof.
  intros HI Ha Hf Hid Hb. pose proof (ip_dom _ _ HI) as Hdom. pose proof (ip_map _ _ HI) as Hmap. pose proof (ip_next _ _ HI) as Hnx.
  destruct HI as [H1 H2 H3 H4 H5 H6 H7 H8 H9]. split; cbn; try done.
  - intros b. rewrite lookup_insert_is_Some'. rewrite (Hdom b). split; [by right|intros [<-|?]; [by eexists|done]].
  - intros id b Hb'. destruct (Hmap id b Hb') as (g & Hg & <-). destruct (decide (b = a)) as [->|Hne].
    + exists f'. rewrite lookup_insert_eq. split; [done|]. congruence.
    + exists g. by rewrite lookup_insert_ne by done.
  - apply map_Forall_insert_2; [|done]. by rewrite Hid.
  - intros b. rewrite lookup_insert_is_Some'. intros [<-|?]; apply Hnx; [by eexists|done].
Qed.

Lemma backlog_of_set d a f b : backlog_of (set_flow d a f) b = if decide (a = b) then backlog null f else backlog_of d b.
Proof. unfold backlog_of. cbn. rewrite lookup_insert. by destruct (decide (a = b)). Qed.

(** A flow that returns to the ring. *)
Lemma push_turn d a : InvP [a] d ->
  exists fr, flow_ring_ d = Some fr /\ exists fr', llring_enqueue fr a = Some (fr', 0) /\
    Inv (with_flow_ring d (Some fr')) /\ turns (with_flow_ring d (Some fr')) = turns d ++ [a].
Proof.
  intros HI. destruct (ip_ring _ _ HI) as (fr & Hfr & Hp & Hlen). exists fr. split; [done|].
  destruct (ring_push O fr a Hp) as (fr' & err & -> & Hp' & Hs & He). destruct (ring_room O fr Hp) as (_ & Hsum & _).
  cbn [app length] in Hlen. rewrite (proj2 (Z.eqb_neq _ _)) in He by lia. destruct He as [-> Hc]. exists fr'. split; [done|].
  rewrite (turns_ring d fr Hfr). assert (Hperm : turns (with_flow_ring d (Some fr')) ≡ₚ [a] ++ turns d).
  { unfold turns at 1. cbn [with_flow_ring flow_ring_]. rewrite Hc, (turns_ring d fr Hfr). apply Permutation_app_comm. }
  split; [|unfold turns; cbn [with_flow_ring flow_ring_]; done].
  destruct HI as [H1 H2 H3 H4 H5 H6 H7 H8 H9]. split; try done.
  - exists fr'. split; [done|]. split; [done|]. rewrite Hc, Hs. cbn [app]. rewrite length_app. cbn [length]. lia.
  - cbn [app]. by rewrite Hperm.
  - intros b. cbn [app]. rewrite Hperm. apply H3.
Qed.

(** The flow whose turn it is leaves the ring. *)
Lemma pop_turn d : Inv d ->
  exists fr fr' out err, flow_ring_ d = Some fr /\ llring_dequeue fr = Some (fr', out, err) /\
    match turns d with
    | [] => True
    | a :: rest => err = 0 /\ out = [a] /\ InvP [a] (with_flow_ring d (Some fr')) /\ turns (with_flow_ring d (Some fr')) = rest
    end.
Proof.
  intros HI. destruct (ip_ring _ _ HI) as (fr & Hfr & Hp & Hlen).
  destruct (ring_pop O fr Hp) as (fr' & out & err & Hd & Hp' & Hs & He). exists fr, fr', out, err. split; [done|]. split; [done|].
  rewrite (turns_ring d fr Hfr). destruct (contents O fr) as [|a rest] eqn:Hc; [done|]. destruct He as (-> & -> & Hc').
  do 2 (split; [done|]). assert (Ht : turns (with_flow_ring d (Some fr')) = rest) by (unfold turns; cbn [with_flow_ring flow_ring_]; done).
  split; [|done]. destruct HI as [H1 H2 H3 H4 H5 H6 H7 H8 H9]. rewrite (turns_ring d fr Hfr), Hc in H2, H3. split; try done.
  - exists fr'. split; [done|]. split; [done|]. by rewrite Hc', Hs.
  - by rewrite Ht.
  - by rewrite Ht.
Qed.

(** An expired flow goes. *)
Lemma RemoveFlow_spec d a f : InvP [a] d -> heap d !! a = Some f -> backlog null f = [] ->
  exists d', RemoveFlow std_hash d a = Some (d', []) /\ Inv d' /\ turns d' = turns d /\ heap d' = delete a (heap d).
Proof.
  intros HI Ha Hb. unfold RemoveFlow. rewrite Ha. cbn [mbind option_bind].
  destruct (ip_heap _ _ HI a f Ha) as [(q & p & Hq & Hp & _) _]. rewrite (ip_current _ _ HI). rewrite decide_False by done.
  rewrite Hq. destruct (ring_room null q Hp) as (Hcnt & _). unfold backlog in Hb. rewrite Hq in Hb.
  rewrite (drain_ring_spec null) by (done || lia). cbn [mbind option_bind]. apply app_eq_nil in Hb as [Hn Hc]. rewrite Hn, Hc.
  pose proof (CuckooMap.Remove_spec (Hash std_hash) EqualTo no_entry any flow_id_eq_spec (flows_ d) (fid f) (ip_table _ _ HI) I) as Hr.
  destruct (CuckooMap.Remove _ _ _ _ _) as [t b]. destruct Hr as (Ht & Habs & _). cbn [fst].
  eexists. split; [reflexivity|]. split; [|done]. pose proof (ip_nodup _ _ HI) as Hnd. cbn [app] in Hnd. apply NoDup_cons in Hnd as [Hni Hnd].
  destruct HI as [(fr & Hfr & Hpl & Hlen) H2 H3 H4 H5 H6 H7 H8 H9]. split; cbn; try done.
  - exists fr. split; [done|]. split; [done|]. cbn [app length] in Hlen. lia.
  - intros b'. rewrite lookup_delete_is_Some. specialize (H3 b'). cbn [app] in H3. rewrite elem_of_cons in H3.
    change (turns _) with (turns d). split.
    + intros Hin. split; [intros <-; done|]. apply H3. by right.
    + intros [Hne Hs]. apply H3 in Hs as [->|?]; done.
  - intros id b'. rewrite Habs, lookup_delete_Some. intros [Hne Hid]. destruct (H6 id b' Hid) as (g & Hg & <-).
    exists g. split; [|done]. rewrite lookup_delete_ne; [done|]. intros ->. rewrite Ha in Hg. by injection Hg as <-.
  - by apply map_Forall_delete.
  - intros b' Hs. apply H8. by apply lookup_delete_is_Some in Hs as [_ ?].
Qed.

(** ** Packets that arrive *)
Lemma arrive_spec alloc d now pkt id : (forall n, alloc n = true) -> Inv d -> GetId head_data pkt = Some id ->
  exists d' freed, arrive null head_data std_hash alloc d now pkt = Some (d', freed) /\ Inv d' /\
    (freed = [pkt] /\ (forall a, backlog_of d' a = backlog_of d a) \/
     freed = [] /\ exists a, backlog_of d' a = backlog_of d a ++ [pkt] /\ forall b, b <> a -> backlog_of d' b = backlog_of d b).
Proof.
  intros Halloc HI Hid. unfold arrive. rewrite Hid. cbn [mbind option_bind].
  destruct (ip_ring _ _ HI) as (fr & Hfr & Hpl & Hlen). rewrite Hfr. cbn [mbind option_bind].
  pose proof (CuckooMap.Find_abs (Hash std_hash) EqualTo no_entry any flow_id_eq_spec (flows_ d) id (ip_table _ _ HI) I) as Hfind.
  destruct (CuckooMap.Find _ _ _ _ _) as [[k a]|]; cbn [fmap option_fmap option_map snd] in Hfind.
  - destruct (ip_map _ _ HI id a (eq_sym Hfind)) as (f & Ha & Hfid). rewrite Ha. cbn [mbind option_bind].
    destruct (ip_heap _ _ HI a f Ha) as [Hf Hids].
    destruct (Enqueue_spec null alloc (max_queue_size_ d) now f pkt Halloc (ip_max _ _ HI) Hf) as (f' & freed & -> & Hf' & Hid' & _ & Hor).
    cbn [mbind option_bind Z.eqb]. exists (set_flow d a f'), freed. split; [done|]. split.
    + apply (InvP_set [] d a f f'); [done..|]. destruct Hor as [(_ & ->)|(_ & -> & _)]; [done|].
      apply Forall_app. split; [done|]. by rewrite Forall_singleton, Hfid.
    + destruct Hor as [(-> & ->)|(-> & Hb & _)]; [left|right]; (split; [done|]).
      * intros b. rewrite backlog_of_set. destruct (decide (a = b)) as [<-|]; [|done]. unfold backlog_of. by rewrite Ha.
      * exists a. rewrite backlog_of_set, decide_True by done. split; [unfold backlog_of; by rewrite Ha|].
        intros b Hne. by rewrite backlog_of_set, decide_False by congruence.
  - destruct (ring_room O fr Hpl) as (_ & Hsum & Hpos & ->). destruct (Z.eqb_spec (free_slots fr) 0) as [H0|H0].
    { exists d, [pkt]. split; [done|]. split; [done|]. by left. }
    unfold AddNewFlow, AddQueue. rewrite Halloc. cbn [negb].
    destruct (plain_init null kFlowQueueSize true true) as (q & -> & Hq & Hsq & Hcq); [by exists 11|].
    set (a := next_flow d). set (f0 := with_queue (new_flow id) (Some q)). set (d0 := MkDRR _ _ _ _ _ _ _ (S a)).
    assert (Hfresh : heap d !! a = None).
    { destruct (heap d !! a) eqn:Ha; [|done]. pose proof (ip_next _ _ HI a ltac:(by eexists)). unfold a in *. lia. }
    destruct (CuckooMap.insert_fuel_spec (Hash std_hash) EqualTo no_entry any flow_id_eq_spec
      (S (Z.to_nat (CuckooMap.num_entries_ (flows_ d)))) (flows_ d) id a (ip_table _ _ HI) I) as (t & r & Hins & Ht & Hr).
    { rewrite (CuckooMap.size_abs (Hash std_hash) _ any _ (ip_table _ _ HI)), (CuckooMap.inv_count _ _ _ _ (ip_table _ _ HI)). lia. }
    unfold CuckooMap.Insert. change (flows_ d0) with (flows_ d). rewrite Hins. cbn [mbind option_bind].
    assert (Hf0 : flow_ok f0) by (exists q, 11; done).
    destruct (Enqueue_spec null alloc (max_queue_size_ (with_flows d0 t)) now f0 pkt Halloc (ip_max _ _ HI) Hf0)
      as (f & freed & -> & Hf & Hfid & _ & Hor). cbn [mbind option_bind Z.eqb negb].
    set (d1 := set_flow (with_flows d0 t) a f).
    assert (Hb0 : backlog null f0 = []) by (unfold backlog; cbn; by rewrite Hcq).
    assert (Hheap : heap d1 = <[a := f]> (heap d)) by (cbn; by rewrite insert_insert_eq).
    assert (Hnot : a ∉ turns d).
    { intros Hin. pose proof (proj1 (ip_dom _ _ HI a) Hin) as [? Hs]. by rewrite Hfresh in Hs. }
    assert (HI1 : InvP [a] d1).
    { pose proof (turns_ring d fr Hfr) as Htr. destruct HI as [_ H2 H3 H4 H5 H6 H7 H8 H9]. split; rewrite ?Hheap; cbn; try done.
      - exists fr. split; [done|]. split; [done|]. rewrite Htr in *. lia.
      - apply NoDup_cons. done.
      - intros b. change (turns d1) with (turns d). rewrite elem_of_cons, lookup_insert_is_Some'. rewrite <- (H3 b). cbn [app]. split; intros [?|?]; auto.
      - intros id' b Hb. assert (abs (flows_ d) !! id' = Some b \/ id' = id /\ b = a) as [Hold|[-> ->]].
        { destruct r as [i|]; [|rewrite Hr in Hb; by left]. destruct Hr as [Hr _]. rewrite Hr, lookup_insert in Hb. case_decide; [|by left].
          injection Hb as <-. by right. }
        + destruct (H6 id' b Hold) as (g & Hg & <-). exists g. split; [|done]. rewrite lookup_insert_ne; [done|]. intros <-. by rewrite Hfresh in Hg.
        + exists f. by rewrite lookup_insert_eq.
      - apply map_Forall_insert_2; [|done]. split; [done|]. rewrite Hfid. cbn [fid new_flow f0 with_queue].
        destruct Hor as [(_ & ->)|(_ & -> & _)]; rewrite Hb0; [constructor|]. cbn [app]. by rewrite Forall_singleton.
      - intros b. rewrite lookup_insert_is_Some'. unfold a in *. intros [<-|Hs]; [lia|]. specialize (H8 b Hs). lia. }
    destruct (push_turn d1 a HI1) as (fr1 & Hfr1 & fr' & Hpush & HI' & _). rewrite Hfr1. cbn [mbind option_bind]. rewrite Hpush.
    cbn [mbind option_bind Z.eqb]. eexists _, freed. split; [reflexivity|]. split; [exact HI'|].
    assert (Hbl : forall b, backlog_of (with_flow_ring d1 (Some fr')) b = if decide (a = b) then backlog null f else backlog_of d b).
    { intros b. unfold backlog_of. cbn [with_flow_ring heap]. rewrite Hheap, lookup_insert. by destruct (decide (a = b)). }
    assert (Hba : backlog_of d a = []) by (unfold backlog_of; by rewrite Hfresh).
    destruct Hor as [(-> & ->)|(-> & Hb & _)]; [left|right]; (split; [done|]).
    + intros b. rewrite Hbl. destruct (decide (a = b)) as [<-|]; [|done]. by rewrite Hb0.
    + exists a. rewrite Hbl, decide_True, Hba, Hb, Hb0 by done. split; [done|]. intros b Hne. by rewrite Hbl, decide_False by congruence.
Qed.

(** ** Turns *)
Definition idle d (a : nat) : Prop :=
  match heap d !! a with
  | Some f => match backlog null f with [] => True | p :: _ => deficit f < total_len p end
  | None => True
  end.

(** An empty flow is passed over or, if it is old, removed; another one gets its quantum. *)
Lemma GetNextFlow_spec d now a rest : Inv d -> turns d = a :: rest ->
  (backlog_of d a = [] /\ exists d', GetNextFlow std_hash d now = Some (d', None, [], 0) /\ Inv d' /\
     (turns d' = rest \/ turns d' = rest ++ [a]) /\ backlog_of d' a = [] /\ forall b, b <> a -> heap d' !! b = heap d !! b) \/
  (exists f d', heap d !! a = Some f /\ backlog null f <> [] /\ GetNextFlow std_hash d now = Some (d', Some a, [], 0) /\ InvP [a] d' /\
     turns d' = rest /\ heap d' = <[a := with_deficit f (to_int (deficit f + quantum_ d))]> (heap d)).
Proof.
  intros HI Ht. unfold GetNextFlow. rewrite (ip_current _ _ HI).
  destruct (pop_turn d HI) as (fr & fr' & out & err & Hfr & Hd & Hpop). rewrite Hfr. cbn [mbind option_bind]. rewrite Hd. cbn [mbind option_bind].
  rewrite Ht in Hpop. destruct Hpop as (-> & -> & HI1 & Ht1). change (0 <? 0) with false. cbn [head mbind option_bind].
  assert (is_Some (heap d !! a)) as [f Ha] by (apply (ip_dom _ _ HI); rewrite Ht; left).
  change (heap (with_flow_ring d (Some fr'))) with (heap d). rewrite Ha. cbn [mbind option_bind].
  destruct (ip_heap _ _ HI a f Ha) as [Hf Hids]. pose proof Hf as (q & p & Hq & Hp & _). rewrite Hq. cbn [mbind option_bind].
  rewrite (no_packets_spec null f q) by done. case_bool_decide as Hb.
  - left. split; [unfold backlog_of; by rewrite Ha|]. destruct (kTtl <? now - timer f).
    + destruct (RemoveFlow_spec (with_flow_ring d (Some fr')) a f HI1 Ha Hb) as (d' & -> & HI' & Ht' & Hh'). cbn [mbind option_bind].
      exists d'. split; [done|]. split; [done|]. split; [left; congruence|]. cbn [with_flow_ring heap] in Hh'. unfold backlog_of.
      rewrite Hh', lookup_delete_eq. split; [done|]. intros b Hne. by rewrite lookup_delete_ne.
    + destruct (push_turn (with_flow_ring d (Some fr')) a HI1) as (fr1 & [= <-] & fr2 & Hpush & HI' & Ht'). rewrite Hpush. cbn [mbind option_bind].
      eexists. split; [reflexivity|]. split; [exact HI'|]. split; [right; rewrite <- Ht1; exact Ht'|]. split; [|done].
      unfold backlog_of. cbn [with_flow_ring heap]. by rewrite Ha.
  - right. exists f. eexists. split; [done|]. split; [done|]. split; [reflexivity|]. split; [|split; [exact Ht1|done]].
    apply (InvP_set [a] _ a f); [exact HI1|exact Ha|exact Hf|done|exact Hids].
Qed.

(** Packets with the flow they come from. *)
Definition of_flow (a : nat) (l : list (nat * P)) : list P := map snd (filter (fun x => x.1 = a) l).

Lemma of_flow_app a l k : of_flow a (l ++ k) = of_flow a l ++ of_flow a k.
Proof. unfold of_flow. by rewrite filter_app, map_app. Qed.
Lemma of_flow_same a b pkts : of_flow b (map (pair a) pkts) = if decide (a = b) then pkts else [].
Proof.
  unfold of_flow. induction pkts as [|p pkts IH]; [by destruct (decide _)|]. cbn [map]. rewrite filter_cons. cbn [fst].
  destruct (decide (a = b)) as [->|]; [|done]. cbn [map snd]. by rewrite IH.
Qed.

(** What a part of a batch takes from the flows. *)
Definition takes d d' (tagged : list (nat * P)) : Prop := forall a, of_flow a tagged ++ backlog_of d' a = backlog_of d a.
Lemma takes_trans d1 d2 d3 t1 t2 : takes d1 d2 t1 -> takes d2 d3 t2 -> takes d1 d3 (t1 ++ t2).
Proof. intros H1 H2 a. by rewrite of_flow_app, <- app_assoc, H2, H1. Qed.

Lemma idle_same d d' l : (forall b, b ∈ l -> heap d' !! b = heap d !! b) -> Forall (idle d) l -> Forall (idle d') l.
Proof.
  rewrite !Forall_forall. intros Hs Hi b Hb. specialize (Hi b Hb). unfold idle in *. by rewrite (Hs b Hb).
Qed.

(** A turn of a flow with packets: it sends what it may and returns to the ring. *)
Lemma drr_turn_spec d f a room : InvP [a] d -> heap d !! a = Some f -> (0 < room)%nat ->
  exists f1 pkts f2 q, GetNextPackets total_len room f = Some (f1, pkts, u32 (bytes_of total_len pkts), 0) /\ queue f1 = Some q /\
    (if no_packets f1 q then with_deficit f1 0 else f1) = f2 /\
    match next_packet f2 with None => true | Some pkt => deficit f2 <? total_len pkt end = true /\
    InvP [a] (set_flow d a f2) /\ takes d (set_flow d a f2) (map (pair a) pkts) /\ (length pkts <= room)%nat /\
    (pkts = [] -> idle (set_flow d a f2) a).
Proof.
  intros HI Ha Hroom. destruct (ip_heap _ _ HI a f Ha) as [Hf Hids].
  destruct (GetNextPackets_spec null total_len room f Hf) as (f1 & pkts & Hg & Hf1 & Hid & _ & Hb & Hlen & _ & _ & Hnext & Hstop).
  pose proof Hf1 as (q & p & Hq & Hp & _). exists f1, pkts, (if no_packets f1 q then with_deficit f1 0 else f1), q.
  split; [done|]. split; [done|]. split; [done|]. rewrite (no_packets_spec null f1 q) by done.
  assert (Hids1 : Forall (fun p => GetId head_data p = Some (fid f)) (backlog null f1)) by (rewrite <- Hb in Hids; by apply Forall_app in Hids as [_ ?]).
  split; [|split; [|split; [|split; [done|]]]].
  - case_bool_decide as He.
    + cbn [with_deficit next_packet deficit]. unfold backlog in He. by destruct (next_packet f1).
    + destruct (next_packet f1) as [pkt|] eqn:Hn; [|done]. apply Z.ltb_lt, Hnext; [by right|done].
  - apply (InvP_set [a] d a f); [done|done| | |]; by case_bool_decide.
  - intros b. rewrite backlog_of_set, of_flow_same. destruct (decide (a = b)) as [<-|]; [|done].
    unfold backlog_of. rewrite Ha, <- Hb. by case_bool_decide.
  - intros ->. unfold idle. cbn. rewrite lookup_insert_eq. specialize (Hstop ltac:(cbn; lia)).
    case_bool_decide as He; [by change (backlog null (with_deficit f1 0)) with (backlog null f1); rewrite He|done].
Qed.

(** One round after the other: [n] bounds the number of flows.  The flows behind the first [count] have
    had their turn since the batch was of size [batch_size]. *)
Lemma next_batch_spec n now fuel : forall d batch count batch_size freed, Inv d -> (length (turns d) <= n)%nat -> Z.of_nat n < 2 ^ 32 ->
  (length batch <= kBatch)%nat -> (batch_size <= length batch)%nat -> 0 <= count <= Z.of_nat (length (turns d)) ->
  (batch_size = length batch -> Forall (idle d) (drop (Z.to_nat count) (turns d))) ->
  ((batch_size < length batch)%nat -> drop (Z.to_nat count) (turns d) <> []) ->
  ((kBatch - batch_size) * S n + Z.to_nat count < fuel)%nat ->
  exists d' tagged, let out := batch ++ map snd tagged in
    next_batch total_len std_hash fuel now d batch count batch_size (u32 (bytes_of total_len batch)) freed =
      Some (d', out, u32 (bytes_of total_len out), freed, 0) /\
    Inv d' /\ takes d d' tagged /\ (length out <= kBatch)%nat /\ (length out = kBatch \/ forall a, idle d' a).
Proof.
  induction fuel as [|fuel IH]; intros d batch count batch_size freed HI Hn Hn32 Hbl Hbs Hcnt Hidle Hprog Hfuel; [by apply Nat.nlt_0_r in Hfuel|]. cbn [next_batch].
  assert (Hstop : length batch = kBatch \/ (forall a, idle d a) -> exists d' tagged, let out := batch ++ map snd tagged in
    Some (d, batch, u32 (bytes_of total_len batch), freed, 0) = Some (d', out, u32 (bytes_of total_len out), freed, 0) /\
    Inv d' /\ takes d d' tagged /\ (length out <= kBatch)%nat /\ (length out = kBatch \/ forall a, idle d' a)).
  { intros Hor. exists d, []. cbn [map]. rewrite app_nil_r. split; [done|]. split; [done|]. split; [by intros a|done]. }
  destruct (Nat.leb_spec kBatch (length batch)) as [Hfull|Hroom]; [apply Hstop; left; lia|].
  destruct ((count =? 0) && (batch_size =? length batch)%nat) eqn:Hbreak.
  { apply andb_prop in Hbreak as [->%Z.eqb_eq Heq%Nat.eqb_eq]. apply Hstop. right. intros a. specialize (Hidle Heq). cbn in Hidle. rewrite drop_0 in Hidle.
    destruct (heap d !! a) as [f|] eqn:Ha; [|unfold idle; by rewrite Ha].
    rewrite Forall_forall in Hidle. apply Hidle, (ip_dom _ _ HI). by eexists. }
  destruct (ip_ring _ _ HI) as (fr & Hfr & Hp & _). rewrite Hfr. cbn [mbind option_bind].
  destruct (ring_room O fr Hp) as (Hcount & _). rewrite <- (turns_ring d fr Hfr) in Hcount.
  assert (exists c bs, (if count =? 0 then (llring_count fr, length batch) else (count, batch_size)) = (c, bs) /\
    1 <= c <= Z.of_nat (length (turns d)) /\ (bs <= length batch)%nat /\ ((kBatch - bs) * S n + Z.to_nat c < S fuel)%nat /\
    (bs = length batch -> Forall (idle d) (drop (Z.to_nat c) (turns d))) /\
    ((bs < length batch)%nat -> drop (Z.to_nat c) (turns d) <> [])) as (c & bs & -> & Hc & Hbs' & Hfuel' & Hidle' & Hprog').
  { destruct (Z.eqb_spec count 0) as [->|Hne].
    - cbn [andb] in Hbreak. apply Nat.eqb_neq in Hbreak. specialize (Hprog ltac:(lia)). cbn in Hprog. rewrite drop_0 in Hprog.
      assert (0 < length (turns d))%nat by (destruct (turns d); [done|cbn; lia]).
      exists (llring_count fr), (length batch). rewrite Hcount. split; [done|]. split; [lia|]. split; [done|].
      split; [|split; [|lia]]; [|intros _; rewrite Nat2Z.id, drop_all; constructor].
      unfold kBatch in *. assert ((32 - length batch) * S n + S n <= (32 - batch_size) * S n)%nat by nia. lia.
    - exists count, batch_size. split; [done|]. split; [lia|]. split; [done|]. split; [lia|done]. }
  rewrite (wrap_small 32 (c - 1)) by (unfold in_word; lia).
  destruct (turns d) as [|a rest] eqn:Ht; [cbn in Hc; lia|]. cbn [length] in Hc, Hn.
  replace (Z.to_nat c) with (S (Z.to_nat (c - 1))) in * by lia. cbn [drop] in Hidle', Hprog'.
  pose proof (ip_nodup _ _ HI) as Hnd. rewrite Ht in Hnd. cbn [app] in Hnd. apply NoDup_cons in Hnd as [Hnotin _].
  assert (Hne : forall b, b ∈ drop (Z.to_nat (c - 1)) rest -> b <> a).
  { intros b Hb ->. apply Hnotin. eapply elem_of_submseteq; [exact Hb|]. apply sublist_submseteq, sublist_drop. }
  destruct (GetNextFlow_spec d now a rest HI Ht) as [(Hempty & d' & -> & HI' & Ht' & Hempty' & Hsame)|(f & d1 & Ha & Hb & -> & HI1 & Ht1 & Hh1)];
    cbn [mbind option_bind]; cbn [Z.eqb negb]; rewrite app_nil_r.
  - assert (Hdrop : drop (Z.to_nat (c - 1)) (turns d') = drop (Z.to_nat (c - 1)) rest \/
                    drop (Z.to_nat (c - 1)) (turns d') = drop (Z.to_nat (c - 1)) rest ++ [a]).
    { destruct Ht' as [-> | ->]; [by left|right]. apply drop_app_le. lia. }
    assert (length rest <= length (turns d') <= S (length rest))%nat by (destruct Ht' as [-> | ->]; rewrite ?length_app; cbn; lia).
    assert (Hia : idle d' a).
    { unfold idle. unfold backlog_of in Hempty'. destruct (heap d' !! a) as [f|]; [by rewrite Hempty'|done]. }
    destruct (IH d' batch (c - 1) bs freed) as (d2 & tagged & -> & HI2 & Htk & Hl2 & Hor); [done|lia|done|lia|done|lia| | |lia|].
    + intros He. specialize (Hidle' He). assert (Forall (idle d') (drop (Z.to_nat (c - 1)) rest)) as Hi by (eapply idle_same; [|exact Hidle']; auto).
      destruct Hdrop as [-> | ->]; [done|]. apply Forall_app. by rewrite Forall_singleton.
    + intros Hlt. specialize (Hprog' Hlt). destruct Hdrop as [-> | ->]; [done|]. by intros [_ ?]%app_eq_nil.
    + exists d2, tagged. split; [done|]. split; [done|]. split; [|done].
      intros b. rewrite (Htk b). destruct (decide (b = a)) as [->|Hba]; [by rewrite Hempty, Hempty'|].
      unfold backlog_of. by rewrite Hsame.
  - rewrite Hh1, lookup_insert_eq. cbn [mbind option_bind]. set (f0 := with_deficit f _) in *.
    assert (Ha1 : heap d1 !! a = Some f0) by (by rewrite Hh1, lookup_insert_eq).
    destruct (drr_turn_spec d1 f0 a (kBatch - length batch) HI1 Ha1) as (f1 & pkts & f2 & q & -> & Hq & Hf2 & Hback & HI2 & Htk & Hlp & Hia); [lia|].
    cbn [mbind option_bind]. cbn [Z.eqb negb]. rewrite Hq. cbn [mbind option_bind]. rewrite Hf2, Hback.
    destruct (push_turn (set_flow d1 a f2) a HI2) as (fr2 & Hfr2 & fr3 & Hpush & HI3 & Ht3).
    cbn [set_flow with_heap flow_ring_] in Hfr2 |- *. rewrite Hfr2. cbn [mbind option_bind]. rewrite Hpush. cbn [mbind option_bind]. cbn [Z.eqb negb].
    set (d3 := with_flow_ring _ _) in *. change (turns (set_flow d1 a f2)) with (turns d1) in Ht3. rewrite Ht1 in Ht3.
    assert (Hd3 : drop (Z.to_nat (c - 1)) (turns d3) = drop (Z.to_nat (c - 1)) rest ++ [a]) by (rewrite Ht3; apply drop_app_le; lia).
    assert (Htk1 : takes d d3 (map (pair a) pkts)).
    { intros b. specialize (Htk b). change (backlog_of (set_flow d1 a f2) b) with (backlog_of d3 b) in Htk. rewrite Htk.
      unfold backlog_of. rewrite Hh1, lookup_insert. case_decide as Hab; [|done]. subst b. by rewrite Ha. }
    assert (Hbytes : u32 (u32 (bytes_of total_len batch) + u32 (bytes_of total_len pkts)) = u32 (bytes_of total_len (batch ++ pkts))).
    { rewrite bytes_of_app. unfold wrap. by rewrite <- Zplus_mod. }
    rewrite Hbytes.
    destruct (IH d3 (batch ++ pkts) (c - 1) bs freed) as (d4 & tagged & -> & HI4 & Htk4 & Hl4 & Hor).
    + exact HI3.
    + rewrite Ht3, length_app. cbn [length]. lia.
    + done.
    + rewrite length_app. lia.
    + rewrite length_app. lia.
    + rewrite Ht3, length_app. cbn [length]. lia.
    + rewrite length_app. intros He. assert (pkts = []) as -> by (apply length_zero_iff_nil; lia). rewrite Hd3.
      apply Forall_app. rewrite Forall_singleton. split; [|exact (Hia eq_refl)].
      eapply idle_same; [|apply Hidle'; cbn [length] in He; lia]. intros b Hb'. specialize (Hne b Hb').
      change (heap d3) with (<[a := f2]> (heap d1)). by rewrite Hh1, !lookup_insert_ne by done.
    + rewrite Hd3. intros _. by intros [_ ?]%app_eq_nil.
    + lia.
    + exists d4, (map (pair a) pkts ++ tagged). cbn zeta. rewrite map_app, map_map. cbn [snd]. rewrite map_id, app_assoc.
      split; [done|]. split; [done|]. split; [by eapply takes_trans|done].
Qed.
End State.

(** ** What happens to the module *)
Inductive event {P : Type} :=
  | Arrives (now : Z) (pkts : list P)
  | Runs (now children_overload : Z)
  | Quantum (size : Z)
  | MaxSize (size : Z).
Arguments event : clear implicits.

Section Run.
Context {P : Type} (null : P) (total_len : P -> Z) (head_data : P -> bytes) (std_hash : Z -> Z) (alloc : Z -> bool).
Implicit Types (d : DRR (P := P)).

(** The module, the batches handed on and the packets freed so far. *)
Definition step (s : DRR * list (list P) * list P) (e : event P) : option (DRR * list (list P) * list P) :=
  let '(d, sent, freed) := s in
  match e with
  | Arrives now pkts => '(d, f) ← ProcessBatch null head_data std_hash alloc d now pkts; Some (d, sent, freed ++ f)
  | Runs now children =>
      '(d, out, _, f, _) ← RunTask total_len std_hash d now children;
      Some (d, sent ++ match out with Some b => [b] | None => [] end, freed ++ f)
  | Quantum size => Some ((SetQuantumSize d (u32 size)).1, sent, freed)
  | MaxSize size => Some ((SetMaxFlowQueueSize d (u32 size)).1, sent, freed)
  end.
Fixpoint run (s : DRR * list (list P) * list P) (es : list (event P)) : option (DRR * list (list P) * list P) :=
  match es with [] => Some s | e :: es => s ← step s e; run s es end.
Definition arrived (e : event P) : list P := match e with Arrives _ pkts => pkts | _ => [] end.
Definition arrivals (es : list (event P)) : list P := concat (map arrived es).

(** Packets have the headers that [GetId] reads; a flow's queue is limited to what fits a ring. *)
Definition event_ok (e : event P) : Prop :=
  match e with
  | Arrives _ pkts => Forall (fun p => is_Some (GetId head_data p)) pkts
  | MaxSize size => u32 size < 2 ^ 31
  | _ => True
  end.

Context (len_ok : forall p, 0 < total_len p <= 2 ^ 26) (alloc_ok : forall n, alloc n = true).
Abbreviation Inv := (Inv null head_data std_hash).
Abbreviation backlog_of := (backlog_of null).

Lemma drr_ProcessBatch_spec now pkts d : Inv d -> Forall (fun p => is_Some (GetId head_data p)) pkts ->
  exists d' freed tin, ProcessBatch null head_data std_hash alloc d now pkts = Some (d', freed) /\ Inv d' /\
    sublist (map snd tin) pkts /\ map snd tin ++ freed ≡ₚ pkts /\ forall a, backlog_of d' a = backlog_of d a ++ of_flow a tin.
Proof.
  intros HI Hids. revert d HI. induction Hids as [|pkt pkts [id Hid] _ IH]; intros d HI; cbn [ProcessBatch].
  { exists d, [], []. split; [done|]. split; [done|]. split; [done|]. split; [done|]. intros a. by rewrite app_nil_r. }
  destruct (arrive_spec null head_data std_hash alloc d now pkt id alloc_ok HI Hid) as (d1 & f1 & -> & HI1 & Hor). cbn [mbind option_bind].
  destruct (IH d1 HI1) as (d2 & f2 & tin & -> & HI2 & Hsub & Hperm & Hb). cbn [mbind option_bind].
  destruct Hor as [[-> Hsame]|(-> & a & Ha & Hne)].
  - exists d2, ([pkt] ++ f2), tin. split; [done|]. split; [done|]. split; [by constructor|]. split.
    + rewrite <- Hperm. symmetry. apply Permutation_middle.
    + intros a. by rewrite Hb, Hsame.
  - exists d2, f2, ((a, pkt) :: tin). split; [done|]. split; [done|]. split; [by constructor|]. split; [cbn [map snd app]; by rewrite Hperm|].
    intros b. rewrite Hb. change ((a, pkt) :: tin) with (map (pair a) [pkt] ++ tin). rewrite of_flow_app, of_flow_same.
    destruct (decide (a = b)) as [<-|Hab]; [by rewrite Ha, <- app_assoc|]. rewrite Hne by congruence. done.
Qed.

(** A run of the task returns without an error, with a full batch or nothing left to send. *)
Lemma DRR_RunTask_spec now children d : Inv d ->
  exists d' tagged, let batch := map snd tagged in
    RunTask total_len std_hash d now children =
      Some (d', if bool_decide (batch = []) then None else Some batch, batch, [],
            Result (bool_decide (batch = [])) (Z.of_nat (length batch))
              (if 0 <? children then 0 else u32 ((bytes_of total_len batch + kPacketOverhead * Z.of_nat (length batch)) * 8))) /\
    Inv d' /\ takes null d d' tagged /\ (length batch <= 32)%nat /\
    (0 < children \/ length batch = 32%nat \/ forall a, idle null total_len d' a).
Proof.
  intros HI. unfold RunTask. destruct (Z.ltb_spec 0 children) as [Hch|Hch].
  { exists d, []. split; [done|]. split; [done|]. split; [by intros a|]. split; [cbn; lia|]. by left. }
  destruct (ip_ring _ _ _ _ _ HI) as (fr & Hfr & Hp & Hlen). rewrite Hfr. unfold GetNextBatch. rewrite Hfr. cbn [mbind option_bind].
  rewrite (ip_current _ _ _ _ _ HI). destruct (ring_room O fr Hp) as (Hcount & Hsum & _). pose proof (slots_range fr (inv_wf fr (proj1 Hp))) as Hslots.
  rewrite <- (turns_ring d fr Hfr) in Hcount, Hsum, Hlen. cbn [app] in Hlen. rewrite Hcount.
  destruct (next_batch_spec null total_len head_data std_hash (length (turns d)) now
    (kBatch * S (length (turns d)) + S (S (length (turns d)))) d [] (Z.of_nat (length (turns d))) 0 [])
    as (d' & tagged & Hnb & HI' & Htk & Hl & Hor); [done|lia|lia|cbn; lia|done|lia| | |unfold kBatch; lia|].
  - intros _. rewrite Nat2Z.id, drop_all. constructor.
  - intros ?. cbn in *. lia.
  - rewrite Nat2Z.id. cbn [bytes_of foldr] in Hnb. change (u32 0) with 0 in Hnb. rewrite Hnb. cbn [mbind option_bind app]. change (0 <? 0) with false.
    cbn [app] in Hl, Hor. set (batch := map snd tagged) in *. pose proof (bytes_of_bound total_len len_ok batch) as Hb. unfold kBatch in Hl.
    exists d', tagged. split; [|split; [done|split; [done|split; [done|by right]]]]. fold batch.
    rewrite (wrap_small 32 (bytes_of total_len batch)) by (unfold in_word; lia). unfold kPacketOverhead.
    rewrite (wrap_small 32 (Z.of_nat (length batch) * 24)), (wrap_small 32 (bytes_of total_len batch + _)) by (unfold in_word; lia).
    rewrite (Z.mul_comm 24). destruct batch as [|x b]; [done|]. cbn [length] in *.
    rewrite bool_decide_eq_false_2, (proj2 (Z.ltb_lt _ _)), (proj2 (Z.eqb_neq _ _)) by (done || lia). done.
Qed.

Lemma drr_step_spec d e : Inv d -> event_ok e ->
  exists d' out f tin tout, (forall sent freed, step (d, sent, freed) e = Some (d', sent ++ out, freed ++ f)) /\ Inv d' /\
    concat out = map snd tout /\ Forall (fun b => (0 < length b <= 32)%nat) out /\
    sublist (map snd tin) (arrived e) /\ map snd tin ++ f ≡ₚ arrived e /\
    forall a, of_flow a tout ++ backlog_of d' a = backlog_of d a ++ of_flow a tin.
Proof.
  intros HI He. destruct e as [now pkts|now children|size|size]; cbn [step arrived event_ok] in *.
  - destruct (drr_ProcessBatch_spec now pkts d HI He) as (d' & f & tin & -> & HI' & Hsub & Hperm & Hb). cbn [mbind option_bind].
    exists d', [], f, tin, []. split; [intros; by rewrite app_nil_r|]. done.
  - destruct (DRR_RunTask_spec now children d HI) as (d' & tagged & -> & HI' & Htk & Hl & _). cbn [mbind option_bind].
    exists d', (if bool_decide (map snd tagged = []) then [] else [map snd tagged]), [], [], tagged.
    split; [intros; rewrite app_nil_r; by destruct (bool_decide _)|]. split; [done|].
    split; [case_bool_decide as Hb; [by rewrite Hb|apply app_nil_r]|].
    split; [case_bool_decide as Hb; [constructor|constructor; [|constructor]]; destruct (map snd tagged); [done|cbn in *; lia]|].
    split; [done|]. split; [done|]. intros a. rewrite app_nil_r. apply Htk.
  - exists (SetQuantumSize d (u32 size)).1, [], [], [], []. split; [intros; by rewrite !app_nil_r|].
    unfold SetQuantumSize. destruct (u32 size =? 0); cbn [fst]; (split; [by destruct HI|]); do 4 (split; [done|]); intros a; by rewrite app_nil_r.
  - exists (SetMaxFlowQueueSize d (u32 size)).1, [], [], [], []. split; [intros; by rewrite !app_nil_r|].
    unfold SetMaxFlowQueueSize. destruct (u32 size =? 0); cbn [fst]; (split; [by destruct HI|]); do 4 (split; [done|]); intros a; by rewrite app_nil_r.
Qed.

Lemma drr_run_spec es : Forall event_ok es -> forall d, Inv d ->
  exists d' out f tin tout, (forall sent freed, run (d, sent, freed) es = Some (d', sent ++ out, freed ++ f)) /\ Inv d' /\
    concat out = map snd tout /\ Forall (fun b => (0 < length b <= 32)%nat) out /\
    sublist (map snd tin) (arrivals es) /\ map snd tin ++ f ≡ₚ arrivals es /\
    forall a, of_flow a tout ++ backlog_of d' a = backlog_of d a ++ of_flow a tin.
Proof.
  induction 1 as [|e es He _ IH]; intros d HI; cbn [run].
  { exists d, [], [], [], []. split; [intros; by rewrite !app_nil_r|]. do 5 (split; [done|]). intros a. by rewrite app_nil_r. }
  destruct (drr_step_spec d e HI He) as (d1 & o1 & f1 & i1 & t1 & Hs1 & HI1 & Hc1 & Hl1 & Hsub1 & Hp1 & Hb1).
  destruct (IH d1 HI1) as (d2 & o2 & f2 & i2 & t2 & Hs2 & HI2 & Hc2 & Hl2 & Hsub2 & Hp2 & Hb2).
  exists d2, (o1 ++ o2), (f1 ++ f2), (i1 ++ i2), (t1 ++ t2). unfold arrivals in *. cbn [map concat].
  split; [intros; rewrite Hs1; cbn [mbind option_bind]; by rewrite Hs2, !app_assoc|]. split; [done|].
  split; [by rewrite concat_app, map_app, Hc1, Hc2|]. split; [by apply Forall_app|]. split; [rewrite map_app; by apply sublist_app|]. split.
  - rewrite map_app, <- Hp1, <- Hp2, <- !app_assoc. f_equiv. apply Permutation_app_swap_app.
  - intros a. rewrite !of_flow_app, <- app_assoc, Hb2, app_assoc, Hb1, <- app_assoc. done.
Qed.
End Run.

(** C29: when memory can be had for the rings of the flows (without it the code loses the packets of a flow or
    follows a null pointer, drr.cc:370) and packets have 1 to 2^26 bytes, the module loses and reorders nothing of a flow.  Whatever arrives, runs and is reconfigured, a
    packet is freed at once because its flow has too many or there are too many flows, or it joins one
    flow, all of whose packets have its 5-tuple; a flow's packets leave in the order they came, in
    batches of 1 to 32; nothing else is freed, and no error or failed assertion ends a call. *)
Theorem drr_conserves {P} (null : P) total_len head_data std_hash alloc d es :
  (forall p, 0 < total_len p <= 2 ^ 26) -> (forall n, alloc n = true) -> Inv null head_data std_hash d -> Forall (event_ok head_data) es ->
  exists d' sent freed tin tout, run null total_len head_data std_hash alloc (d, [], []) es = Some (d', sent, freed) /\
  Inv null head_data std_hash d' /\
  concat sent = map snd tout /\ Forall (fun b => (0 < length b <= 32)%nat) sent /\
  sublist (map snd tin) (arrivals es) /\ map snd tin ++ freed ≡ₚ arrivals es /\
  (forall a, of_flow a tout ++ backlog_of null d' a = backlog_of null d a ++ of_flow a tin) /\
  (forall a f, heap d' !! a = Some f -> Forall (fun p => GetId head_data p = Some (fid f)) (backlog null f)).
Proof.
  intros Hlen Halloc HI Hes.
  destruct (drr_run_spec null total_len head_data std_hash alloc Hlen Halloc es Hes d HI) as (d' & out & f & tin & tout & Hrun & HI' & H).
  exists d', out, f, tin, tout. split; [apply (Hrun [] [])|]. split; [done|]. destruct H as (? & ? & ? & ? & ?). do 5 (split; [done|]).
  intros a g Hg. apply (ip_heap _ _ _ _ _ HI' a g Hg).
Qed.

(** C30: with packets of 1 to 2^26 bytes a run of the task ends without an error.  It takes the batch it hands on from the front of the
    flows, and the batch is full unless every flow is empty or its next packet exceeds its deficit; the
    task blocks exactly when there is nothing to hand on.  No flow stays at the front: [current_flow_] is null after
    every run, although the comment at drr.cc:224 says that a flow with packets left when the batch is full is kept there. *)
Theorem drr_run {P} (null : P) total_len head_data std_hash d now children :
  (forall p, 0 < total_len p <= 2 ^ 26) -> Inv null head_data std_hash d ->
  exists d' tagged, let batch := map snd tagged in
    RunTask total_len std_hash d now children =
      Some (d', if bool_decide (batch = []) then None else Some batch, batch, [],
            Result (bool_decide (batch = [])) (Z.of_nat (length batch))
              (if 0 <? children then 0 else u32 ((bytes_of total_len batch + kPacketOverhead * Z.of_nat (length batch)) * 8))) /\
    (forall a, of_flow a tagged ++ backlog_of null d' a = backlog_of null d a) /\ (length batch <= 32)%nat /\
    (0 < children \/ length batch = 32%nat \/ forall a, idle null total_len d' a) /\ current_flow_ d' = None.
Proof.
  intros Hlen HI. destruct (DRR_RunTask_spec null total_len head_data std_hash Hlen now children d HI) as (d' & tagged & Hr & HI' & Htk & Hl & Hor).
  exists d', tagged. split; [exact Hr|]. split; [exact Htk|]. split; [done|]. split; [done|]. apply (ip_current _ _ _ _ _ HI').
Qed.

(** ** Set-up *)
Lemma drr_Init_Inv {P} (null : P) head_data std_hash alloc num_flows max quantum d : (forall n, alloc n = true) ->
  0 <= num_flows < 2 ^ 31 -> 0 <= max < 2 ^ 31 -> Init alloc (new_drr (P := P)) true num_flows max quantum = (d, inr tt) ->
  Inv null head_data std_hash d /\ forall a, backlog_of null d a = [].
Proof.
  intros Halloc Hn Hm. unfold Init. set (d0 := if negb (num_flows =? 0) then _ else _).
  assert (Hd0 : (exists p, 0 <= p <= 31 /\ max_number_flows_ d0 = 2 ^ p) /\ max_queue_size_ d0 < 2 ^ 31 /\ flows_ d0 = flows_ (new_drr (P := P)) /\
    heap d0 = ∅ /\ current_flow_ d0 = None).
  { unfold d0. destruct (Z.eqb_spec num_flows 0) as [->|Hne]; cbn [negb].
    - split; [by exists 12|done].
    - split; [|done]. cbn [max_number_flows_]. rewrite wrap_small by (unfold in_word; lia). rewrite RoundToPowerTwo_spec by lia.
      exists (Z.log2 (num_flows + 1 - 1) + 1). split; [|done]. rewrite Z.add_simpl_r. pose proof (Z.log2_nonneg num_flows).
      assert (Z.log2 num_flows < 31) by (apply Z.log2_lt_pow2; lia). lia. }
  clearbody d0. destruct Hd0 as (Hp & Hmax & Hfl & Hh & Hcu).
  assert (Hgo : forall d1 d2, (exists p, 0 <= p <= 31 /\ max_number_flows_ d1 = 2 ^ p) -> max_queue_size_ d1 < 2 ^ 31 ->
    flows_ d1 = flows_ (new_drr (P := P)) -> heap d1 = ∅ -> current_flow_ d1 = None ->
    (let '(q, err) := AddQueue alloc O (max_number_flows_ d1) in
     (with_flow_ring d1 q, if negb (err =? 0) then inl (if err =? -12 then ENOMEM else EINVAL) else inr tt)) = (d2, inr tt) ->
    Inv null head_data std_hash d2 /\ forall a, backlog_of null d2 a = []).
  { intros d1 d2 Hp1 Hm1 Hf1 Hh1 Hc1. unfold AddQueue. rewrite Halloc. cbn [negb].
    destruct (plain_init O (max_number_flows_ d1) true true Hp1) as (fr & -> & Hpl & Hs & Hc). cbn [Z.eqb negb]. intros [= <-].
    assert (Ht : turns (with_flow_ring d1 (Some fr)) = []) by (unfold turns; cbn; by rewrite Hc).
    destruct (CuckooMap.make_spec (Hash std_hash) no_entry (fun _ => True) kInitNumBucket kInitNumEntries)
      as [HImk Habs]; [unfold kInitNumEntries; lia|by exists 2%nat|].
    split; [|intros a; unfold backlog_of; cbn; by rewrite Hh1]. split; rewrite ?Ht; cbn; rewrite ?Hh1, ?Hf1; try done.
    - exists fr. split; [done|]. split; [done|]. rewrite Hc. cbn. pose proof (slots_range fr (inv_wf fr (proj1 Hpl))). lia.
    - constructor.
    - intros a. rewrite lookup_empty. split; [by intros ?%elem_of_nil|by intros []].
    - intros a. by intros []. }
  destruct (Z.eqb_spec max 0) as [->|Hmne]; cbn [negb].
  - destruct (Z.eqb_spec quantum 0); cbn [negb]; [by apply Hgo|]. unfold SetQuantumSize. rewrite (proj2 (Z.eqb_neq _ _)) by done. by apply Hgo.
  - unfold SetMaxFlowQueueSize. rewrite (proj2 (Z.eqb_neq max 0)) by done. cbn [max_queue_size_].
    destruct (Z.eqb_spec quantum 0); cbn [negb]; [|unfold SetQuantumSize; rewrite (proj2 (Z.eqb_neq quantum 0)) by done];
      (apply Hgo; try done; cbn; lia).
Qed.

(** ** Concrete runs: a packet is its UDP source port and its length *)
Definition ex_head (p : Z * Z) : bytes := replicate 14 0 ++ [0x45] ++ replicate 8 0 ++ [17] ++ replicate 10 1 ++ [0; p.1; 0; 53] ++ replicate 4 0.
Definition ex_len (p : Z * Z) : Z := if (0 <? p.2) && (p.2 <=? 1500) then p.2 else 60.
Definition ex_drr (quantum : Z) : DRR := (Init (fun _ => true) (new_drr (P := Z * Z)) true 3 0 quantum).1.
Definition ex_hash (x : Z) : Z := x.
Definition ex_run (quantum : Z) := run (0, 0) ex_len ex_head ex_hash (fun _ => true) (ex_drr quantum, [], []).

Lemma ex_len_ok p : 0 < ex_len p <= 2 ^ 26.
Proof. unfold ex_len. destruct (Z.ltb_spec 0 p.2), (Z.leb_spec p.2 1500); cbn [andb]; lia. Qed.

Lemma ex_drr_Inv : Inv (0, 0) ex_head ex_hash (ex_drr 100) /\ forall a, backlog_of (0, 0) (ex_drr 100) a = [].
Proof. apply (drr_Init_Inv (0, 0) ex_head ex_hash (fun _ => true) 3 0 100); [done|lia|lia|]. vm_compute. reflexivity. Qed.

Definition ex_events : list (event (Z * Z)) := [Arrives 5 [(1, 90); (1, 91); (2, 250); (3, 30); (4, 60)]; Runs 6 0; Runs 7 0].

Lemma drr_conserves_witness :
  exists d' (tin : list (nat * (Z * Z))), ex_run 100 ex_events = Some (d', [[(1, 90); (3, 30); (1, 91); (2, 250)]], [(4, 60)]) /\
    Inv (0, 0) ex_head ex_hash d' /\ map snd tin ++ [(4, 60)] ≡ₚ arrivals ex_events.
Proof.
  destruct (drr_conserves (0, 0) ex_len ex_head ex_hash (fun _ => true) (ex_drr 100) ex_events ex_len_ok)
    as (d' & sent & freed & tin & tout & Hrun & HI & _ & _ & _ & Hperm & _); [done|exact (proj1 ex_drr_Inv)| |].
  - repeat constructor; vm_compute; by eexists.
  - exists d', tin.
    assert (Hsf : (fun s => (s.1.2, s.2)) <$> ex_run 100 ex_events = Some ([[(1, 90); (3, 30); (1, 91); (2, 250)]], [(4, 60)])) by (vm_compute; reflexivity).
    unfold ex_run in *. rewrite Hrun in Hsf. cbn in Hsf. injection Hsf as -> ->. split; [exact Hrun|]. split; [exact HI|exact Hperm].
Defined.

Lemma drr_run_witness :
  exists d' (tagged : list (nat * (Z * Z))), RunTask ex_len ex_hash (ex_drr 100) 5 0 = Some (d', None, map snd tagged, [], Result true 0 0) /\ current_flow_ d' = None.
Proof.
  destruct (drr_run (0, 0) ex_len ex_head ex_hash (ex_drr 100) 5 0 ex_len_ok (proj1 ex_drr_Inv)) as (d' & tagged & Hr & Hb & _ & _ & Hc).
  exists d', tagged. split; [|exact Hc].
  assert (Hsf : (fun r => (r.1.1.1.2, r.2)) <$> RunTask ex_len ex_hash (ex_drr 100) 5 0 = Some (None, Result true 0 0)) by (vm_compute; reflexivity).
  rewrite Hr in Hsf |- *. cbn in Hsf. injection Hsf as He Hbl Hp Hbits. by rewrite He, Hbl, Hbits, Hp.
Defined.

(** A flow whose turn ends because the batch is full goes to the end of the round with what is left of its
    deficit and gets another quantum at its next turn: the deficit grows without bound. *)
Lemma drr_deficit_grows :
  (fun s => map (fun f => deficit f.2) (map_to_list (heap s.1.1))) <$>
    ex_run 10000 [Arrives 5 (replicate 100 (1, 60)); Runs 6 0; Runs 7 0; Runs 8 0] = Some [3 * 10000 - 96 * 60].
Proof. vm_compute. reflexivity. Qed.
