(* ===== verification/TcpFlow.v ===== *)
(** Reassembly of a TCP stream: [core/utils/tcp_flow_reconstruct.h].

    The buffer is a list of bytes and the received segments, a [std::map] from start to
    end offset, an association list in order of its keys.  A read outside of the packet
    and a write outside of the buffer are undefined, [None]. *)
From S2P Require Import Prelude Frame.

(** ** The class *)

(** [std::map<uint32_t, uint32_t>]: what is before [lower_bound(start)] and what is from there on. *)
Definition seg_map := list (Z * Z).
Fixpoint lower_bound (m : seg_map) (start : Z) : seg_map * seg_map :=
  match m with
  | [] => ([], [])
  | (k, v) :: m' => if k <? start then let (a, b) := lower_bound m' start in ((k, v) :: a, b) else ([], m)
  end.
Fixpoint emplace (m : seg_map) (k v : Z) : seg_map :=
  match m with
  | [] => [(k, v)]
  | (k', v') :: m' => if k' <? k then (k', v') :: emplace m' k v else if k' =? k then m else (k, v) :: m
  end.

(** The loop that erases the segments that start no later than [end]. *)
Fixpoint erase_overlaps (from : seg_map) (end_ : Z) : seg_map * Z :=
  match from with
  | (k, v) :: from' => if k <=? end_ then erase_overlaps from' (Z.max end_ v) else (from, end_)
  | [] => ([], end_)
  end.

(** The segment right before, when it reaches to the new one, is merged as well. *)
Definition extend_left (before from : seg_map) (start : Z) : seg_map * seg_map * Z :=
  match last before with
  | Some (k, v) => if start <=? v then (removelast before, (k, v) :: from, k) else (before, from, start)
  | None => (before, from, start)
  end.
Definition merge (m : seg_map) (start end_ : Z) : seg_map :=
  let (before, from) := lower_bound m start in
  let '(before, from, start) := extend_left before from start in
  let (rest, end_) := erase_overlaps from end_ in
  emplace (before ++ rest) start end_.

Record TcpFlowReconstruct := Tfr {
  initialized_ : bool;
  init_seq_ : Z;
  buf_ : bytes;
  received_map_ : seg_map }.

Definition new_flow (initial_buflen : nat) : TcpFlowReconstruct := Tfr false 0 (replicate initial_buflen 0) [].
Definition buf_size (t : TcpFlowReconstruct) : Z := Z.of_nat (length (buf_ t)).
Definition contiguous_len (t : TcpFlowReconstruct) : Z :=
  match received_map_ t with [] => 0 | (first, second) :: _ => second - first end.

(** [std::vector::resize] and [CopyInlined] into the buffer *)
Definition resize (n : Z) (buf : bytes) : bytes :=
  take (Z.to_nat n) buf ++ replicate (Z.to_nat n - length buf) 0.
Definition copy_to (buf : bytes) (off : Z) (data : bytes) : option bytes :=
  if (0 <=? off) && (off + Z.of_nat (length data) <=? Z.of_nat (length buf))
  then Some (take (Z.to_nat off) buf ++ data ++ drop (Z.to_nat off + length data) buf) else None.

(** The fields of the headers. *)
Definition kSyn : Z := 2.
Definition kFin : Z := 1.
Definition load_be (n off : Z) (p : bytes) : option Z := be_load <$> slice off n p.
Definition header_length (p : bytes) : option Z := b ← load 1 ip_at p; Some (Z.land b 15).
Definition ip_length_field (p : bytes) : option Z := load_be 2 (ip_at + 2) p.
Definition tcp_at (p : bytes) : option Z := hl ← header_length p; Some (ip_at + hl * 4).
Definition tcp_seq (p : bytes) : option Z := t ← tcp_at p; load_be 4 (t + 4) p.
Definition tcp_offset (p : bytes) : option Z := t ← tcp_at p; b ← load 1 (t + 12) p; Some (Z.shiftr b 4).
Definition tcp_flags (p : bytes) : option Z := t ← tcp_at p; load 1 (t + 13) p.

(** [datastart] and [datalen]: the subtraction is of [int]s and the result 32 bits wide. *)
Definition payload_len (p : bytes) : option Z :=
  len ← ip_length_field p; off ← tcp_offset p; hl ← header_length p; Some (u32 (len - off * 4 - hl * 4)).
Definition payload (n : Z) (p : bytes) : option bytes :=
  t ← tcp_at p; off ← tcp_offset p; slice (t + off * 4) n p.

(** [(int32_t)x < 0] *)
Definition negative32 (x : Z) : bool := 2 ^ 31 <=? x.

(** The buffer large enough for the new data, and the new data in it. *)
Definition make_room (buf : bytes) (buf_offset datalen : Z) : bytes :=
  if Z.of_nat (length buf) <? u32 (buf_offset + datalen)
  then resize (u32 (u32 (buf_offset + datalen) * 2)) buf else buf.

Definition InsertPacket (t : TcpFlowReconstruct) (p : bytes) : option (TcpFlowReconstruct * bool) :=
  seq ← tcp_seq p;
  flags ← tcp_flags p;
  if negb (Z.land flags kSyn =? 0) then Some (Tfr true (u32 (seq + 1)) (buf_ t) (received_map_ t), true)
  else if negb (initialized_ t) then Some (t, false)
  else if negative32 (u32 (seq - init_seq_ t)) then Some (t, false)
  else
    let buf_offset := u32 (seq - init_seq_ t) in
    datalen ← payload_len p;
    if datalen =? 0 then Some (t, true) else
      data ← payload datalen p;
      buf ← copy_to (make_room (buf_ t) buf_offset datalen) buf_offset data;
      Some (Tfr (initialized_ t) (init_seq_ t) buf
              (merge (received_map_ t) buf_offset (u32 (buf_offset + datalen))), true).

(** ** The map of segments *)

(** In order, not empty, and with a gap before each: [lo] is where the one before ends. *)
Fixpoint segs (lo : Z) (m : seg_map) : Prop :=
  match m with [] => True | (k, v) :: m' => lo < k /\ k < v /\ segs v m' end.
Definition covered (m : seg_map) (o : Z) : Prop := exists k v, (k, v) ∈ m /\ k <= o < v.
Fixpoint seg_end (lo : Z) (m : seg_map) : Z := match m with [] => lo | (_, v) :: m' => seg_end v m' end.

Lemma covered_cons k v m o : covered ((k, v) :: m) o <-> k <= o < v \/ covered m o.
Proof.
  split.
  - intros (k' & v' & [[= -> ->]|Hin]%elem_of_cons & Ho); [by left|right; by exists k', v'].
  - intros [Ho|(k' & v' & Hin & Ho)]; [exists k, v|exists k', v']; (split; [|done]); [left|by right].
Qed.
Lemma covered_nil o : ~ covered [] o.
Proof. intros (k & v & Hin & _). set_solver. Qed.
Lemma covered_app a b o : covered (a ++ b) o <-> covered a o \/ covered b o.
Proof.
  induction a as [|[k v] a IH]; cbn [app]; [pose proof (covered_nil o); tauto|]. rewrite !covered_cons, IH. tauto.
Qed.
Lemma segs_app lo a b : segs lo (a ++ b) <-> segs lo a /\ segs (seg_end lo a) b.
Proof. revert lo. induction a as [|[k v] a IH]; intros lo; cbn; [tauto|]. rewrite IH. tauto. Qed.
Lemma segs_weaken lo lo' m : lo' <= lo -> segs lo m -> segs lo' m.
Proof. destruct m as [|[k v] m]; cbn; [done|]. intros ? (? & ? & ?). split; [lia|done]. Qed.
Lemma segs_end lo m : segs lo m -> lo <= seg_end lo m.
Proof. revert lo. induction m as [|[k v] m IH]; cbn; intros lo; [lia|]. intros (? & ? & H). specialize (IH v H). lia. Qed.
Lemma seg_end_snoc lo a k v : seg_end lo (a ++ [(k, v)]) = v.
Proof. revert lo. induction a as [|[? ?] a IH]; cbn; [done|]. intros _. apply IH. Qed.
Lemma segs_below lo m o : segs lo m -> covered m o -> lo < o < seg_end lo m.
Proof.
  revert lo. induction m as [|[k v] m IH]; intros lo; cbn; [intros _ H; by apply covered_nil in H|].
  intros (? & ? & Hs) [Ho|Hc]%covered_cons; [pose proof (segs_end v m Hs); lia|]. specialize (IH v Hs Hc). lia.
Qed.

Lemma lower_bound_spec lo m start : segs lo m -> let '(a, b) := lower_bound m start in
  m = a ++ b /\ Forall (fun s => s.1 < start) a /\ Forall (fun s => start <= s.1) b.
Proof.
  revert lo. induction m as [|[k v] m IH]; intros lo Hs; cbn; [done|]. destruct Hs as (Hlo & Hkv & Hs).
  destruct (Z.ltb_spec k start) as [Hk|Hk].
  - specialize (IH v Hs). destruct (lower_bound m start) as [a b]. destruct IH as (-> & Ha & Hb).
    split; [done|]. split; [by constructor|done].
  - split; [done|]. split; [done|]. apply Forall_cons. split; [done|]. clear IH Hlo. revert k v Hk Hkv Hs.
    induction m as [|[k2 v2] m IH]; intros k v Hk Hkv Hs; [done|]. destruct Hs as (? & ? & ?).
    apply Forall_cons. cbn. split; [lia|]. by apply (IH k2 v2); [lia|..].
Qed.

(** What erasing does from the first key on, when no segment starts before [start]. *)
Lemma erase_spec lo from start end_ : segs lo from -> Forall (fun s => start <= s.1) from -> start < end_ ->
  let '(rest, end') := erase_overlaps from end_ in
  end_ <= end' /\ segs end' rest /\
  forall o, (start <= o < end' \/ covered rest o) <-> (start <= o < end_ \/ covered from o).
Proof.
  revert lo end_. induction from as [|[k v] from IH]; intros lo end_ Hs Hf Hlt; cbn; [split; [lia|done]|].
  destruct Hs as (Hlo & Hkv & Hs). apply Forall_cons in Hf as [Hk Hf]. cbn in Hk.
  destruct (Z.leb_spec k end_) as [Hke|Hke].
  - specialize (IH v (Z.max end_ v) Hs Hf ltac:(lia)). destruct (erase_overlaps from (Z.max end_ v)) as [rest end'].
    destruct IH as (He & Hr & Hc). split; [lia|]. split; [done|]. intros o. rewrite Hc, covered_cons.
    split; [intros [?|?]; [|tauto]; destruct (Z.lt_ge_cases o end_); [left; lia|right; left; lia]|].
    intros [?|[?|?]]; [left; lia|left; lia|tauto].
  - split; [lia|]. split; [cbn; by split; [lia|]|done].
Qed.
Lemma emplace_mid lo a b k v : segs lo a -> seg_end lo a < k -> segs v b -> k < v ->
  emplace (a ++ b) k v = a ++ (k, v) :: b.
Proof.
  revert lo. induction a as [|[k' v'] a IH]; intros lo; cbn.
  - intros _ _ Hb Hv. destruct b as [|[k2 v2] b]; [done|]. destruct Hb as (? & ? & ?). cbn.
    rewrite (proj2 (Z.ltb_ge _ _)), (proj2 (Z.eqb_neq _ _)) by lia. done.
  - intros (? & ? & Hs) He Hb Hv. pose proof (segs_end v' a Hs). rewrite (proj2 (Z.ltb_lt _ _)) by lia. f_equal. by apply (IH v').
Qed.

(** A new segment is merged with those that it overlaps or touches, and nothing else changes. *)
Lemma merge_spec m start end_ : segs (-1) m -> 0 <= start < end_ ->
  segs (-1) (merge m start end_) /\ forall o, covered (merge m start end_) o <-> start <= o < end_ \/ covered m o.
Proof.
  intros Hm Hse. unfold merge. pose proof (lower_bound_spec (-1) m start Hm) as Hl.
  destruct (lower_bound m start) as [a b]. destruct Hl as (-> & Ha & Hb). apply segs_app in Hm as [Hsa Hsb].
  unfold extend_left. destruct (last a) as [[k v]|] eqn:Hlast.
  - apply last_Some in Hlast as [a' ->]. apply segs_app in Hsa as [Hsa (Hk & Hkv & _)].
    apply Forall_app in Ha as [_ Hka]. apply Forall_inv in Hka. cbn in Hka.
    rewrite removelast_last. rewrite <- (app_assoc a' [(k, v)] b) in *. cbn [app] in *.
    pose proof (seg_end_snoc (-1) a' k v) as Hend.
    rewrite Hend in Hsb. destruct (Z.leb_spec start v) as [Hsv|Hsv].
    + pose proof (erase_spec (seg_end (-1) a') ((k, v) :: b) k end_) as He.
      assert (segs (seg_end (-1) a') ((k, v) :: b)) as Hs by (by split).
      specialize (He Hs). destruct (erase_overlaps ((k, v) :: b) end_) as [rest end'].
      destruct He as (He & Hr & Hc); [apply Forall_cons; split; [cbn; lia|]; eapply Forall_impl; [exact Hb|cbn; intros; lia]|lia|].
      pose proof (segs_below _ _ k Hs ltac:(rewrite covered_cons; left; lia)) as Hkb.
      rewrite (emplace_mid (-1)) by (done || lia). split.
      * apply segs_app. split; [done|]. cbn. split; [lia|]. by split; [lia|].
      * intros o. rewrite covered_app, covered_cons, Hc, !covered_app, !covered_cons.
        split; [intros [?|[?|?]]; [tauto| |tauto]|intros [?|[?|?]]; [right; left; lia|tauto|tauto]].
        destruct (Z.lt_ge_cases o v); [right; right; left; lia|left; lia].
    + pose proof (erase_spec v b start end_ Hsb Hb ltac:(lia)) as He. destruct (erase_overlaps b end_) as [rest end'].
      destruct He as (He & Hr & Hc). rewrite (emplace_mid (-1)); [| | |done|lia].
      * split.
        -- apply segs_app. rewrite Hend. split; [apply segs_app; by split|]. cbn. split; [lia|]. by split; [lia|].
        -- intros o. rewrite covered_app, covered_cons, Hc, !covered_app, !covered_cons. pose proof (covered_nil o). tauto.
      * apply segs_app. by split.
      * rewrite Hend. lia.
  - apply last_None in Hlast as ->. cbn [app seg_end] in *.
    pose proof (erase_spec (-1) b start end_ Hsb Hb ltac:(lia)) as He. destruct (erase_overlaps b end_) as [rest end'].
    destruct He as (He & Hr & Hc). change rest with ([] ++ rest). rewrite (emplace_mid (-1)); [|done|cbn; lia|done|lia].
    split; [cbn; split; [lia|]; by split; [lia|]|]. intros o. cbn [app]. by rewrite covered_cons, Hc.
Qed.

(** ** The buffer *)
Lemma length_resize_buf n buf : 0 <= n -> length (resize n buf) = Z.to_nat n.
Proof. intros Hn. unfold resize. rewrite length_app, length_take, length_replicate. lia. Qed.
Lemma lookup_resize n buf i : (length buf <= Z.to_nat n)%nat -> (i < length buf)%nat -> resize n buf !! i = buf !! i.
Proof. intros Hn Hi. unfold resize. rewrite take_ge by lia. by rewrite lookup_app_l. Qed.

Lemma make_room_spec buf off n : 0 <= off -> 0 <= n -> off + n < 2 ^ 31 ->
  off + n <= Z.of_nat (length (make_room buf off n)) /\ (length buf <= length (make_room buf off n))%nat /\
  forall i, (i < length buf)%nat -> make_room buf off n !! i = buf !! i.
Proof.
  intros Ho Hn Hlt. unfold make_room. rewrite (wrap_small 32 (off + n)) by (unfold in_word; lia).
  rewrite wrap_small by (unfold in_word; lia).
  destruct (Z.ltb_spec (Z.of_nat (length buf)) (off + n)) as [Hl|Hl]; [|by split; [lia|]].
  rewrite length_resize_buf by lia. split; [lia|]. split; [lia|]. intros i Hi. apply lookup_resize; lia.
Qed.

Lemma copy_to_spec buf off data : 0 <= off -> off + Z.of_nat (length data) <= Z.of_nat (length buf) ->
  exists buf', copy_to buf off data = Some buf' /\ length buf' = length buf /\
  forall i, buf' !! i = if decide (Z.to_nat off <= i < Z.to_nat off + length data)%nat then data !! (i - Z.to_nat off)%nat else buf !! i.
Proof.
  intros Ho Hl. unfold copy_to. rewrite (proj2 (Z.leb_le _ _)), (proj2 (Z.leb_le _ _)) by lia. eexists. split; [done|].
  split; [rewrite !length_app, length_take, length_drop; lia|]. intros i. case_decide as Hi.
  - rewrite lookup_app_r by (rewrite length_take; lia). rewrite length_take_le by lia. by rewrite lookup_app_l by lia.
  - destruct (decide (i < Z.to_nat off)%nat).
    + rewrite lookup_app_l by (rewrite length_take; lia). by rewrite lookup_take_lt.
    + rewrite lookup_app_r by (rewrite length_take; lia). rewrite length_take_le by lia.
      rewrite lookup_app_r by lia. rewrite lookup_drop. f_equal. lia.
Qed.

(** ** A packet inserted *)

(** What [InsertPacket] reads of a packet. *)
Record parses (p : bytes) (seq flags : Z) (data : bytes) : Prop := {
  pa_seq : tcp_seq p = Some seq;
  pa_flags : tcp_flags p = Some flags;
  pa_len : payload_len p = Some (Z.of_nat (length data));
  pa_data : payload (Z.of_nat (length data)) p = Some data }.

Record flow_ok (t : TcpFlowReconstruct) : Prop := {
  fo_segs : segs (-1) (received_map_ t);
  fo_bound o : covered (received_map_ t) o -> o < buf_size t }.

(** A byte of the stream that has been received. *)
Definition received (t : TcpFlowReconstruct) (o : Z) : Prop := covered (received_map_ t) o.

Lemma InsertPacket_data t p seq flags data : flow_ok t -> initialized_ t = true ->
  parses p seq flags data -> Z.land flags kSyn = 0 ->
  let off := u32 (seq - init_seq_ t) in let n := Z.of_nat (length data) in
  off + n < 2 ^ 31 ->
  exists t', InsertPacket t p = Some (t', true) /\ flow_ok t' /\
    initialized_ t' = true /\ init_seq_ t' = init_seq_ t /\
    (forall o, received t' o <-> off <= o < off + n \/ received t o) /\
    forall o, received t' o -> buf_ t' !! Z.to_nat o =
      if decide (off <= o < off + n) then data !! Z.to_nat (o - off) else buf_ t !! Z.to_nat o.
Proof.
  intros [Hs Hb] Hi [P1 P2 P3 P4] Hf off n Hlt.
  assert (0 <= off) as Ho by (unfold off; destruct (wrap_range 32 (seq - init_seq_ t)); [lia|done]).
  unfold InsertPacket. rewrite P1, P2, P3. cbn [mbind option_bind]. rewrite Hf, Z.eqb_refl, Hi. cbn [negb]. fold off n.
  assert (negative32 off = false) as -> by (apply Z.leb_gt; lia).
  destruct (Z.eqb_spec n 0) as [Hn|Hn].
  - exists t. split; [done|]. split; [done|]. split; [done|]. split; [done|].
    split; [intros o; split; [by right|intros [?|?]; [lia|done]]|]. intros o _. rewrite decide_False by lia. done.
  - change n with (Z.of_nat (length data)) in P4 |- *. rewrite P4. cbn [mbind option_bind]. fold n.
    destruct (make_room_spec (buf_ t) off n Ho ltac:(lia) Hlt) as (Hm1 & Hm2 & Hm3).
    destruct (copy_to_spec (make_room (buf_ t) off n) off data Ho Hm1) as (buf' & -> & Hl & Hbuf). cbn [mbind option_bind].
    rewrite (wrap_small 32 (off + n)) by (unfold in_word; lia).
    destruct (merge_spec (received_map_ t) off (off + n) Hs ltac:(lia)) as [Hs' Hc]. eexists. split; [done|].
    assert (Hbd : forall o, covered (received_map_ t) o -> 0 <= o < buf_size t).
    { intros o Hco. split; [|by apply Hb]. pose proof (segs_below _ _ o Hs Hco). lia. }
    split; [split; [done|]|split; [done|split; [done|split; [done|]]]].
    + cbn. intros o [?|Hco]%Hc; unfold buf_size in *; cbn; rewrite Hl; [lia|]. apply Hb in Hco. lia.
    + intros o Hr. apply Hc in Hr. unfold buf_size in Hbd. cbn. rewrite Hbuf.
      assert (0 <= o) as Hpos by (destruct Hr as [?|Hr]; [|apply Hbd in Hr]; lia). case_decide as H1.
      * rewrite decide_True by lia. f_equal. lia.
      * assert (~ off <= o < off + n) as Hout by lia. rewrite decide_False by done.
        destruct Hr as [?|Hr]; [lia|]. apply Hbd in Hr. apply Hm3. lia.
Qed.

Lemma InsertPacket_syn t p seq flags : tcp_seq p = Some seq -> tcp_flags p = Some flags -> Z.land flags kSyn <> 0 ->
  InsertPacket t p = Some (Tfr true (u32 (seq + 1)) (buf_ t) (received_map_ t), true).
Proof.
  intros H1 H2 Hf. unfold InsertPacket. rewrite H1, H2. cbn. by rewrite (proj2 (Z.eqb_neq _ _)).
Qed.

(** ** A whole stream *)
Fixpoint run (t : TcpFlowReconstruct) (ps : list bytes) : option (TcpFlowReconstruct * list bool) :=
  match ps with
  | [] => Some (t, [])
  | p :: ps => r ← InsertPacket t p; r' ← run r.1 ps; Some (r'.1, r.2 :: r'.2)
  end.

(** The packet carries [n] bytes of the stream from offset [off] on, the stream following a SYN of number [isn]. *)
Definition carries (isn : Z) (stream : bytes) (p : bytes) (s : Z * nat) : Prop :=
  exists flags, 0 <= s.1 /\ s.1 + Z.of_nat s.2 <= Z.of_nat (length stream) /\ Z.land flags kSyn = 0 /\
    parses p (u32 (isn + 1 + s.1)) flags (take s.2 (drop (Z.to_nat s.1) stream)).

Definition holds_stream (stream : bytes) (t : TcpFlowReconstruct) : Prop :=
  forall o, received t o -> o < Z.of_nat (length stream) /\ buf_ t !! Z.to_nat o = stream !! Z.to_nat o.

(** One packet of the stream. *)
Lemma carries_step isn stream p off n t : Z.of_nat (length stream) < 2 ^ 31 ->
  flow_ok t -> initialized_ t = true -> init_seq_ t = u32 (isn + 1) -> holds_stream stream t -> carries isn stream p (off, n) ->
  exists t', InsertPacket t p = Some (t', true) /\ flow_ok t' /\ initialized_ t' = true /\ init_seq_ t' = u32 (isn + 1) /\
    holds_stream stream t' /\ forall o, received t' o <-> off <= o < off + Z.of_nat n \/ received t o.
Proof.
  intros Hlen Hok Hi Hseq Hst (flags & Ho & Hoff & Hf & Hp). cbn [fst snd] in *.
  assert (u32 (u32 (isn + 1 + off) - init_seq_ t) = off) as He.
  { rewrite Hseq. unfold wrap. rewrite <- Zminus_mod. replace (isn + 1 + off - (isn + 1)) with off by lia.
    apply Z.mod_small. lia. }
  assert (length (take n (drop (Z.to_nat off) stream)) = n) as Hn by (rewrite length_take, length_drop; lia).
  pose proof (InsertPacket_data t p _ flags _ Hok Hi Hp Hf) as H. rewrite He, Hn in H. cbn [negb] in H.
  destruct (H ltac:(lia)) as (t1 & Hins & Hok1 & Hi1 & Hq1 & Hr1 & Hb1).
  exists t1. split; [done|]. split; [done|]. split; [done|]. split; [congruence|]. split; [|done].
  intros o Hr. pose proof (segs_below _ _ o (fo_segs t1 Hok1) Hr) as Hpos. rewrite Hb1 by done.
  apply Hr1 in Hr. case_decide as Hd; [|destruct Hr as [?|Hr]; [lia|by apply Hst]].
  split; [lia|]. rewrite lookup_take_lt by lia. rewrite lookup_drop. f_equal. lia.
Qed.

Lemma run_stream isn stream ps offs t : Z.of_nat (length stream) < 2 ^ 31 ->
  flow_ok t -> initialized_ t = true -> init_seq_ t = u32 (isn + 1) -> holds_stream stream t ->
  Forall2 (carries isn stream) ps offs ->
  exists t', run t ps = Some (t', map (fun _ => true) ps) /\ flow_ok t' /\ holds_stream stream t' /\
    forall o, received t' o <-> received t o \/ exists off n, (off, n) ∈ offs /\ off <= o < off + Z.of_nat n.
Proof.
  intros Hlen Hok Hi Hseq Hst Hps. revert t Hok Hi Hseq Hst. induction Hps as [|p [off n] ps offs Hp Hps IH]; intros t Hok Hi Hseq Hst.
  - exists t. split; [done|]. split; [done|]. split; [done|]. intros o. split; [by left|]. intros [?|(? & ? & ? & _)]; [done|set_solver].
  - destruct (carries_step isn stream p off n t) as (t1 & Hins & Hok1 & Hi1 & Hq1 & Hst1 & Hr1); try done.
    destruct (IH t1 Hok1 Hi1 Hq1 Hst1) as (t' & Hrun & Hok' & Hst' & Hr').
    exists t'. cbn [run map]. rewrite Hins. cbn [mbind option_bind fst snd]. rewrite Hrun. cbn [mbind option_bind fst snd].
    split; [done|]. split; [done|]. split; [done|]. intros o. rewrite Hr', Hr1. split.
    + intros [[?|?]|(f & m & ? & ?)]; [right; exists off, n; split; [by left|lia]|by left|right; exists f, m; split; [by right|lia]].
    + intros [?|(f & m & [[= -> ->]|?]%elem_of_cons & ?)]; [by left; right|by left; left|right; by exists f, m].
Qed.

Lemma contiguous_prefix t : flow_ok t -> received t 0 ->
  ~ received t (contiguous_len t) /\ forall o, 0 <= o < contiguous_len t -> received t o.
Proof.
  intros [Hs _] H0. unfold received, contiguous_len in *. destruct (received_map_ t) as [|[k v] m]; [by apply covered_nil in H0|].
  cbn in Hs. destruct Hs as (Hk & Hkv & Hs). assert (k = 0) as ->.
  { apply covered_cons in H0 as [?|H0]; [lia|]. apply (segs_below _ _ _ Hs) in H0. lia. }
  rewrite Z.sub_0_r. split; [|intros o Ho; apply covered_cons; by left].
  intros [?|Hc]%covered_cons; [lia|]. apply (segs_below _ _ _ Hs) in Hc. lia.
Qed.

(** The data in order from the beginning is a prefix of the stream. *)
Lemma contiguous_data stream t : flow_ok t -> holds_stream stream t -> received_map_ t = [] \/ received t 0 ->
  0 <= contiguous_len t <= Z.of_nat (length stream) /\ contiguous_len t <= buf_size t /\
  take (Z.to_nat (contiguous_len t)) (buf_ t) = take (Z.to_nat (contiguous_len t)) stream.
Proof.
  intros Hok Hst [Hm|H0].
  - unfold contiguous_len, buf_size. rewrite Hm. split; [lia|]. split; [lia|]. done.
  - destruct (contiguous_prefix t Hok H0) as [Hn Hp].
    assert (0 < contiguous_len t) as Hpos.
    { destruct (Z.lt_ge_cases 0 (contiguous_len t)); [done|]. destruct (received_map_ t) as [|[k v] m] eqn:Hm.
      - unfold received in H0. rewrite Hm in H0. by apply covered_nil in H0.
      - pose proof (fo_segs t Hok) as Hsg. rewrite Hm in Hsg. unfold contiguous_len in *. rewrite Hm in *. cbn in Hsg. lia. }
    pose proof (Hp (contiguous_len t - 1) ltac:(lia)) as Hl. pose proof (fo_bound t Hok _ Hl). apply Hst in Hl as [Hl _].
    split; [lia|]. split; [lia|]. apply list_eq. intros i.
    destruct (decide (i < Z.to_nat (contiguous_len t))%nat) as [Hi|Hi]; [|by rewrite !lookup_take_ge by lia].
    rewrite !lookup_take_lt by done. replace i with (Z.to_nat (Z.of_nat i)) by lia. apply Hst, Hp. lia.
Qed.

(** C33: The SYN and then the packets of a stream of less than 2^31 bytes, in any order, with any overlaps,
    retransmissions and holes, and with sequence numbers that wrap around: every insertion
    succeeds; the bytes recorded as received are exactly those that some packet carried,
    and the buffer holds the stream there; and once the first byte has arrived -- not before: [contiguous_len_gap] --,
    [contiguous_len] is the length of the longest prefix of the stream that has arrived
    and the buffer starts with that prefix. *)
Theorem tcp_stream_reassembled n0 isn stream syn flags ps offs :
  Z.of_nat (length stream) < 2 ^ 31 -> tcp_seq syn = Some isn -> tcp_flags syn = Some flags -> Z.land flags kSyn <> 0 ->
  Forall2 (carries isn stream) ps offs ->
  exists t, run (new_flow n0) (syn :: ps) = Some (t, map (fun _ => true) (syn :: ps)) /\
    (forall o, received t o <-> exists off n, (off, n) ∈ offs /\ off <= o < off + Z.of_nat n) /\
    (forall o, received t o -> buf_ t !! Z.to_nat o = stream !! Z.to_nat o) /\
    (received t 0 -> let n := Z.to_nat (contiguous_len t) in
       take n (buf_ t) = take n stream /\ ~ received t (Z.of_nat n) /\ forall o, 0 <= o < Z.of_nat n -> received t o).
Proof.
  intros Hlen Hq Hf Hsyn Hps. set (t0 := Tfr true (u32 (isn + 1)) (replicate n0 0) []).
  assert (flow_ok t0) as Hok0 by (split; [done|]; intros o Ho; by apply covered_nil in Ho).
  assert (holds_stream stream t0) as Hst0 by (intros o Ho; by apply covered_nil in Ho).
  destruct (run_stream isn stream ps offs t0 Hlen Hok0 eq_refl eq_refl Hst0 Hps) as (t & Hrun & Hok & Hst & Hr).
  exists t. cbn [run map]. rewrite (InsertPacket_syn _ syn isn flags) by done. cbn [mbind option_bind fst snd new_flow buf_ received_map_].
  fold t0. rewrite Hrun. split; [done|]. split; [|split; [intros o Ho; by apply Hst|]].
  - intros o. rewrite Hr. split; [intros [Ho|?]; [by apply covered_nil in Ho|done]|by right].
  - intros H0. destruct (contiguous_prefix t Hok H0) as [Hn Hp].
    destruct (contiguous_data stream t Hok Hst (or_intror H0)) as (Hb & _ & Htake). cbn zeta. by rewrite Z2Nat.id by lia.
Qed.

(** ** Concrete packets *)

(** An IPv4 header of 20 bytes and a TCP header of 20 bytes. *)
Definition ex_packet (seq flags : Z) (data : bytes) : bytes :=
  replicate 14 0 ++ [0x45; 0] ++ be_store 2 (40 + Z.of_nat (length data)) ++ replicate 16 0 ++
  replicate 4 0 ++ be_store 4 seq ++ replicate 4 0 ++ [0x50; flags] ++ replicate 6 0 ++ data.
Definition ex_stream : bytes := [71; 69; 84; 32; 47; 32; 72; 84; 84; 80].
Definition ex_isn : Z := 2 ^ 32 - 3.
Definition ex_piece (s : Z * nat) : bytes :=
  ex_packet (u32 (ex_isn + 1 + s.1)) 0x10 (take s.2 (drop (Z.to_nat s.1) ex_stream)).
(** Out of order, overlapping, the number wrapping around within the stream, with a hole. *)
Definition ex_offs : list (Z * nat) := [(2, 3%nat); (8, 2%nat); (0, 3%nat); (4, 2%nat); (2, 1%nat)].

Lemma ex_carries : Forall2 (carries ex_isn ex_stream) (map ex_piece ex_offs) ex_offs.
Proof.
  repeat first [apply Forall2_cons; split|apply Forall2_nil; done];
    exists 0x10; (split; [cbn; lia|]); (split; [cbn; lia|]); (split; [done|]); split; vm_compute; reflexivity.
Qed.

Lemma tcp_stream_reassembled_witness : exists t,
  run (new_flow 1) (ex_packet ex_isn 2 [] :: map ex_piece ex_offs) = Some (t, [true; true; true; true; true; true]) /\
  (forall o, received t o -> buf_ t !! Z.to_nat o = ex_stream !! Z.to_nat o) /\ (received t 5 /\ ~ received t 6).
Proof.
  destruct (tcp_stream_reassembled 1 ex_isn ex_stream (ex_packet ex_isn 2 []) 2 (map ex_piece ex_offs) ex_offs)
    as (t & Hrun & Hr & Hst & _).
  - vm_compute. reflexivity.
  - vm_compute. reflexivity.
  - vm_compute. reflexivity.
  - vm_compute. discriminate.
  - apply ex_carries.
  - exists t. split; [exact Hrun|]. split; [exact Hst|]. split.
    + apply Hr. exists 4, 2%nat. split; [do 3 right; left|lia].
    + intros (off & n & Hin & Ho)%Hr. unfold ex_offs in Hin.
      repeat (apply elem_of_cons in Hin as [Hin|Hin]; [injection Hin as -> ->; lia|]). by apply not_elem_of_nil in Hin.
Defined.

(** [contiguous_len] does not ask whether the first segment starts at the beginning: a
    packet that overtakes the first one is taken for the start of the stream. *)
Lemma contiguous_len_gap : exists t r,
  run (new_flow 8) [ex_packet ex_isn 2 []; ex_piece (4, 2%nat)] = Some (t, r) /\
  contiguous_len t = 2 /\ take 2 (buf_ t) = [0; 0] /\ received_map_ t = [(4, 6)].
Proof. eexists _, _. split; [vm_compute; reflexivity|]. repeat split; vm_compute; reflexivity. Qed.

(** The new size is computed in 32 bits: far enough into the stream the buffer shrinks and
    the copy is out of its bounds. *)
Lemma resize_wraps : negative32 (u32 (2 ^ 31 - 1)) = false /\ make_room (replicate 8 0) (2 ^ 31 - 1) 1 = [] /\
  InsertPacket (Tfr true 0 (replicate 8 0) []) (ex_packet (2 ^ 31 - 1) 0x10 [65]) = None.
Proof. split; [done|]. split; vm_compute; reflexivity. Qed.

(** A total length smaller than the headers gives a payload of almost 2^32 bytes. *)
Lemma payload_len_wraps : payload_len (take 14 (ex_packet 0 0 []) ++ [0x45; 0; 0; 39] ++ drop 18 (ex_packet 0 0 [])) = Some (2 ^ 32 - 1).
Proof. vm_compute. reflexivity. Qed.
