(* ===== verification/HttpParser.v ===== *)
(** The HTTP/1.x request parser: [core/utils/http_parser.cc].

    A pointer into the buffer is the list of the bytes from it to [buf_end]; reading at
    [buf_end], moving past it and overflowing an [int] are [Undefined].  The parser works
    in a state, what its out parameters hold so far, which it leaves behind when it fails.
    The vector instructions of [findchar_fast] are modelled block by block. *)
From stdpp Require Import strings.
From S2P Require Import Prelude.

(** ** Results and states *)
Inductive result (A : Type) := Parsed (a : A) | Ret (r : Z) | Undefined.
Arguments Parsed {A}.
Arguments Ret {A}.
Arguments Undefined {A}.

#[export] Instance result_ret : MRet result := fun A a => Parsed a.
#[export] Instance result_bind : MBind result := fun A B f r =>
  match r with Parsed a => f a | Ret r => Ret r | Undefined => Undefined end.

(** A parser with out parameters [S]. *)
Definition M (S A : Type) : Type := S -> result A * S.
#[export] Instance m_ret {S} : MRet (M S) := fun A a s => (Parsed a, s).
#[export] Instance m_bind {S} : MBind (M S) := fun A B f m s =>
  match m s with (Parsed a, s) => f a s | (Ret r, s) => (Ret r, s) | (Undefined, s) => (Undefined, s) end.
Definition lift {S A} (r : result A) : M S A := fun s => (r, s).
Definition update {S} (f : S -> S) : M S unit := fun s => (Parsed tt, f s).

(** ** Characters *)
Definition SP : Z := 32.
Definition HT : Z := 9.
Definition CR : Z := 13.
Definition LF : Z := 10.
Definition COLON : Z := 58.
Definition IS_PRINTABLE_ASCII (c : Z) : bool := u32 (c - 0x20) <? 0x5f.

(** [token_char_map] *)
Definition token_char_rows : list (list Z) := [
  [0;0;0;0;0;0;0;0;0;0;0;0;0;0;0;0;0;0;0;0;0;0;0;0;0;0;0;0;0;0;0;0];
  [0;1;0;1;1;1;1;1;0;0;1;1;0;1;1;0;1;1;1;1;1;1;1;1;1;1;0;0;0;0;0;0];
  [0;1;1;1;1;1;1;1;1;1;1;1;1;1;1;1;1;1;1;1;1;1;1;1;1;1;1;0;0;0;1;1];
  [1;1;1;1;1;1;1;1;1;1;1;1;1;1;1;1;1;1;1;1;1;1;1;1;1;1;1;0;1;0;1;0];
  replicate 32 0; replicate 32 0; replicate 32 0; replicate 32 0].
Definition token_char (c : Z) : bool := negb (nth (Z.to_nat c) (concat token_char_rows) 0 =? 0).

(** ** Moving in the buffer *)
Definition CHECK_EOF (buf : bytes) : result unit := match buf with [] => Ret (-2) | _ => Parsed tt end.
Definition deref (buf : bytes) : result Z := match buf with [] => Undefined | c :: _ => Parsed c end.
Definition incr (buf : bytes) : result bytes := match buf with [] => Undefined | _ :: b => Parsed b end.
Definition EXPECT_CHAR (ch : Z) (buf : bytes) : result bytes :=
  _ ← CHECK_EOF buf; c ← deref buf; if c =? ch then incr buf else Ret (-1).
(** What lies between two pointers. *)
Definition between (start buf : bytes) : bytes := take (length start - length buf) start.

(** [findchar_fast]: [_mm_cmpestri] gives the first of 16 bytes that is in one of the
    ranges, or 16; what is left after the whole blocks is not looked at.  The 16 bytes of a load must be in the buffer. *)
Definition in_ranges (ranges : list (Z * Z)) (c : Z) : bool := existsb (fun r => (r.1 <=? c) && (c <=? r.2)) ranges.
Definition cmpestri (ranges : list (Z * Z)) (b16 : bytes) : nat :=
  match list_find (fun c => in_ranges ranges c = true) b16 with Some (i, _) => i | None => 16%nat end.
Definition load16 (buf : bytes) : result bytes := if (16 <=? length buf)%nat then Parsed (take 16 buf) else Undefined.
Fixpoint findchar_blocks (blocks : nat) (ranges : list (Z * Z)) (buf : bytes) : result (bytes * bool) :=
  match blocks with
  | O => Parsed (buf, false)
  | S blocks =>
      b16 ← load16 buf;
      let r := cmpestri ranges b16 in
      if (r =? 16)%nat then findchar_blocks blocks ranges (drop 16 buf) else Parsed (drop r buf, true)
  end.
Definition findchar_fast (ranges : list (Z * Z)) (buf : bytes) : result (bytes * bool) :=
  if (16 <=? length buf)%nat then findchar_blocks (length buf / 16) ranges buf else Parsed (buf, false).

(** ** Tokens *)
Definition token_ranges : list (Z * Z) := [(0, 0x20); (0x7f, 0x7f)].
Definition is_ctl (c : Z) : bool := (c <? 0x20) || (c =? 0x7f).
Fixpoint token_loop (buf : bytes) : result bytes :=
  match buf with
  | [] => Undefined
  | c :: b =>
      if c =? SP then Parsed buf
      else if negb (IS_PRINTABLE_ASCII c) && is_ctl c then Ret (-1)
      else match b with [] => Ret (-2) | _ => token_loop b end
  end.
Definition ADVANCE_TOKEN (buf : bytes) : result (bytes * bytes) :=
  '(b, found2) ← findchar_fast token_ranges buf;
  _ ← (if found2 : bool then Parsed tt else CHECK_EOF b);
  b ← token_loop b;
  Parsed (between buf b, b).

Definition eol_ranges : list (Z * Z) := [(0, 8); (0xa, 0x1f); (0x7f, 0x7f)].
Fixpoint eol_loop (buf : bytes) : result bytes :=
  match buf with
  | [] => Ret (-2)
  | c :: b =>
      if negb (IS_PRINTABLE_ASCII c) && (((c <? 0x20) && negb (c =? HT)) || (c =? 0x7f)) then Parsed buf else eol_loop b
  end.
Definition get_token_to_eol (buf : bytes) : result (bytes * bytes) :=
  '(b, found) ← findchar_fast eol_ranges buf;
  b ← (if found : bool then Parsed b else eol_loop b);
  c ← deref b;
  if c =? CR then b1 ← incr b; b2 ← EXPECT_CHAR LF b1; Parsed (between buf b, b2)
  else if c =? LF then b1 ← incr b; Parsed (between buf b, b1)
  else Ret (-1).

(** [is_complete] looks for two line ends in a row, from three bytes before [last_len]. *)
Fixpoint complete_loop (fuel : nat) (ret_cnt : nat) (buf : bytes) : result bytes :=
  match fuel with
  | O => Undefined
  | S fuel =>
      _ ← CHECK_EOF buf; c ← deref buf; b ← incr buf;
      let go (n : nat) (b : bytes) := if (n =? 2)%nat then Parsed b else complete_loop fuel n b in
      if c =? CR then _ ← CHECK_EOF b; b ← EXPECT_CHAR LF b; go (S ret_cnt) b
      else if c =? LF then go (S ret_cnt) b
      else go O b
  end.
Definition is_complete (buf : bytes) (last_len : nat) : result bytes :=
  complete_loop (S (length buf)) 0 (if (last_len <? 3)%nat then buf else drop (last_len - 3) buf).

Definition INT_MAX : Z := 2 ^ 31 - 1.
Definition is_digit (c : Z) : bool := (0x30 <=? c) && (c <=? 0x39).
Fixpoint int_loop (v : Z) (buf : bytes) : result (Z * bytes) :=
  match buf with
  | [] => Ret (-2)
  | c :: b =>
      if is_digit c then (if INT_MAX <? v * 10 + c then Undefined else int_loop (v * 10 + c - 0x30) b) else Parsed (v, buf)
  end.
Definition parse_int (buf : bytes) : result (Z * bytes) :=
  _ ← CHECK_EOF buf; c ← deref buf; if is_digit c then int_loop 0 buf else Ret (-1).
Definition http_version_chars : bytes := [72; 84; 84; 80; 47; 49; 46].
Fixpoint expect_chars (cs : bytes) (buf : bytes) : result bytes :=
  match cs with [] => Parsed buf | c :: cs => b ← EXPECT_CHAR c buf; expect_chars cs b end.
Definition parse_http_version (buf : bytes) : result (Z * bytes) :=
  b ← expect_chars http_version_chars buf; parse_int b.

(** ** Headers *)

(** A name of [None] is a continuing line. *)
Definition phr_header : Type := option bytes * bytes.

Definition name_ranges : list (Z * Z) :=
  [(0, 0x20); (0x22, 0x22); (0x28, 0x29); (0x2c, 0x2c); (0x2f, 0x2f); (0x3a, 0x40); (0x5b, 0x5d); (0x7b, 0xff)].
Fixpoint name_loop (buf : bytes) : result bytes :=
  match buf with
  | [] => Undefined
  | c :: b =>
      if c =? COLON then Parsed buf
      else if negb (token_char c) then Ret (-1)
      else match b with [] => Ret (-2) | _ => name_loop b end
  end.
Definition is_blank (c : Z) : bool := (c =? SP) || (c =? HT).
Fixpoint skip_blanks (buf : bytes) : result bytes :=
  match buf with [] => Ret (-2) | c :: b => if is_blank c then skip_blanks b else Parsed buf end.
Definition parse_name (buf : bytes) : result (option bytes * bytes) :=
  '(b, found) ← findchar_fast name_ranges buf;
  _ ← (if found : bool then Parsed tt else CHECK_EOF b);
  b ← name_loop b;
  if (length (between buf b) =? 0)%nat then Ret (-1) else
  b1 ← incr b;
  b2 ← skip_blanks b1;
  Parsed (Some (between buf b), b2).

(** The state is the headers so far; [room] more fit in the array. *)
Fixpoint parse_headers (room : nat) (buf : bytes) : M (list phr_header) bytes :=
  fun hs => (
  _ ← lift (CHECK_EOF buf);
  c ← lift (deref buf);
  if c =? CR then b ← lift (incr buf); lift (EXPECT_CHAR LF b)
  else if c =? LF then lift (incr buf)
  else match room with
  | O => lift (Ret (-1))
  | S room =>
      nb ← (if negb (negb (length hs =? 0)%nat && is_blank c) then lift (parse_name buf) else mret (None, buf));
      vb ← lift (get_token_to_eol nb.2);
      _ ← update (fun hs => hs ++ [(nb.1, vb.1)]);
      parse_headers room vb.2
  end) hs.

(** ** Requests *)
Record Request := MkRequest { method : bytes; path : bytes; minor_version : Z; headers : list phr_header }.
Definition no_request : Request := MkRequest [] [] (-1) [].
Definition set_method (m : bytes) (q : Request) : Request := MkRequest m (path q) (minor_version q) (headers q).
Definition set_path (p : bytes) (q : Request) : Request := MkRequest (method q) p (minor_version q) (headers q).
Definition set_minor (v : Z) (q : Request) : Request := MkRequest (method q) (path q) v (headers q).
Definition on_headers {A} (m : M (list phr_header) A) : M Request A := fun q =>
  let (r, hs) := m (headers q) in (r, MkRequest (method q) (path q) (minor_version q) hs).

(** The end of the request line, and an empty line before it. *)
Definition skip_empty_line (buf : bytes) : result bytes :=
  _ ← CHECK_EOF buf; c ← deref buf;
  if c =? CR then b ← incr buf; EXPECT_CHAR LF b else if c =? LF then incr buf else Parsed buf.
Definition end_of_line (buf : bytes) : result bytes :=
  c ← deref buf;
  if c =? CR then b ← incr buf; EXPECT_CHAR LF b else if c =? LF then incr buf else Ret (-1).

Definition parse_request (max_headers : nat) (buf : bytes) : M Request bytes :=
  b ← lift (skip_empty_line buf);
  tb ← lift (ADVANCE_TOKEN b);
  _ ← update (set_method tb.1);
  b ← lift (incr tb.2);
  tb ← lift (ADVANCE_TOKEN b);
  _ ← update (set_path tb.1);
  b ← lift (incr tb.2);
  vb ← lift (parse_http_version b);
  _ ← update (set_minor vb.1);
  b ← lift (end_of_line vb.2);
  on_headers (parse_headers max_headers b).

(** What the call returns, and the out parameters; [None] when undefined. *)
Definition returned {S} (buf : bytes) (r : result bytes * S) : option (Z * S) :=
  match r with
  | (Parsed b, s) => Some (Z.of_nat (length buf) - Z.of_nat (length b), s)
  | (Ret r, s) => Some (r, s)
  | (Undefined, _) => None
  end.
Definition complete_check (buf : bytes) (last_len : nat) : result unit :=
  if (last_len =? 0)%nat then Parsed tt else _ ← is_complete buf last_len; Parsed tt.
Definition phr_parse_request (buf : bytes) (max_headers last_len : nat) : option (Z * Request) :=
  returned buf ((_ ← lift (complete_check buf last_len); parse_request max_headers buf) no_request).

(** ** Responses and headers alone *)
Record Response := MkResponse { resp_minor : Z; status : Z; msg : bytes; resp_headers : list phr_header }.
Definition no_response : Response := MkResponse (-1) 0 [] [].
Definition skip_space (buf : bytes) : result bytes := c ← deref buf; if c =? SP then incr buf else Ret (-1).
Definition on_resp_headers {A} (m : M (list phr_header) A) : M Response A := fun q =>
  let (r, hs) := m (resp_headers q) in (r, MkResponse (resp_minor q) (status q) (msg q) hs).
Definition parse_response (max_headers : nat) (buf : bytes) : M Response bytes :=
  vb ← lift (parse_http_version buf);
  _ ← update (fun q => MkResponse vb.1 (status q) (msg q) (resp_headers q));
  b ← lift (skip_space vb.2);
  sb ← lift (parse_int b);
  _ ← update (fun q => MkResponse (resp_minor q) sb.1 (msg q) (resp_headers q));
  b ← lift (skip_space sb.2);
  mb ← lift (get_token_to_eol b);
  _ ← update (fun q => MkResponse (resp_minor q) (status q) mb.1 (resp_headers q));
  on_resp_headers (parse_headers max_headers mb.2).
Definition phr_parse_response (buf : bytes) (max_headers last_len : nat) : option (Z * Response) :=
  returned buf ((_ ← lift (complete_check buf last_len); parse_response max_headers buf) no_response).
Definition phr_parse_headers (buf : bytes) (max_headers last_len : nat) : option (Z * list phr_header) :=
  returned buf ((_ ← lift (complete_check buf last_len); parse_headers max_headers buf) []).

(** ** The vector search is a search *)
Lemma between_app a b : between (a ++ b) b = a.
Proof. unfold between. rewrite length_app. replace (length a + length b - length b)%nat with (length a) by lia. by rewrite take_app_length. Qed.

Lemma cmpestri_spec ranges b16 : length b16 = 16%nat ->
  (cmpestri ranges b16 = 16%nat /\ Forall (fun c => in_ranges ranges c = false) b16) \/
  exists pre c post, b16 = pre ++ c :: post /\ cmpestri ranges b16 = length pre /\ (length pre < 16)%nat /\
    Forall (fun c => in_ranges ranges c = false) pre /\ in_ranges ranges c = true.
Proof.
  intros Hl. unfold cmpestri. destruct (list_find _ b16) as [[i c]|] eqn:Hf.
  - right. apply list_find_Some in Hf as (Hi & Hc & Hpre). exists (take i b16), c, (drop (S i) b16).
    apply lookup_lt_Some in Hi as Hlt. rewrite length_take_le by lia.
    split; [by rewrite (take_drop_middle b16 i c)|]. split; [done|]. split; [lia|]. split; [|done].
    apply Forall_lookup_2. intros j d [Hj Hjd]%lookup_take_Some. apply not_true_iff_false. by apply (Hpre j).
  - left. split; [done|]. apply list_find_None in Hf. eapply Forall_impl; [exact Hf|]. intros d Hd. by apply not_true_iff_false.
Qed.

Lemma findchar_spec ranges buf : exists pre b found, findchar_fast ranges buf = Parsed (b, found) /\ buf = pre ++ b /\
  Forall (fun c => in_ranges ranges c = false) pre /\
  (found = true -> exists c b', b = c :: b' /\ in_ranges ranges c = true).
Proof.
  unfold findchar_fast. destruct (Nat.leb_spec 16 (length buf)) as [Hl|Hl]; [|by exists [], buf, false].
  assert (16 * (length buf / 16) <= length buf)%nat as Hb by (apply Nat.mul_div_le; lia).
  revert Hb. generalize (length buf / 16)%nat as n. clear Hl. intros n. revert buf.
  induction n as [|n IH]; intros buf Hb; cbn [findchar_blocks]; [by exists [], buf, false|].
  unfold load16. rewrite (proj2 (Nat.leb_le 16 _)) by lia. cbn [mbind result_bind].
  assert (length (take 16 buf) = 16%nat) as H16 by (rewrite length_take; lia).
  destruct (cmpestri_spec ranges (take 16 buf) H16) as [[-> Hno]|(pre & c & post & He & -> & Hlt & Hno & Hc)].
  - cbn [Nat.eqb]. destruct (IH (drop 16 buf)) as (pre & b & found & -> & He & Hp & Hf); [rewrite length_drop; lia|].
    exists (take 16 buf ++ pre), b, found. rewrite <- app_assoc, <- He, take_drop. do 2 (split; [done|]). split; [by apply Forall_app|done].
  - rewrite (proj2 (Nat.eqb_neq _ _)) by lia.
    assert (buf = pre ++ c :: post ++ drop 16 buf) as Hbuf by (rewrite <- (take_drop 16 buf) at 1; by rewrite He, <- app_assoc).
    generalize dependent (drop 16 buf). intros tl Hbuf. exists pre, (c :: post ++ tl), true. rewrite Hbuf, drop_app_length.
    do 3 (split; [done|]). intros _. by exists c, (post ++ tl).
Qed.

(** The scalar loops that the code would have without the search. *)
Fixpoint token_ref (buf : bytes) : result bytes :=
  match buf with
  | [] => Ret (-2)
  | c :: b => if c =? SP then Parsed buf else if is_ctl c then Ret (-1) else token_ref b
  end.
Fixpoint name_ref (buf : bytes) : result bytes :=
  match buf with
  | [] => Ret (-2)
  | c :: b => if c =? COLON then Parsed buf else if negb (token_char c) then Ret (-1) else name_ref b
  end.
Definition eol_ctl (c : Z) : bool := is_ctl c && negb (c =? HT).

Lemma in_ranges_byte (P : Z -> bool) : forallb P (map Z.of_nat (seq 0 256)) = true -> forall c, in_word 8 c -> P c = true.
Proof.
  intros Hall c Hc. rewrite forallb_forall in Hall. apply Hall, in_map_iff. exists (Z.to_nat c).
  unfold in_word in Hc. change (2 ^ 8) with 256 in Hc. split; [lia|]. apply in_seq. lia.
Qed.
Tactic Notation "byte_fact" constr(Hc) "by" constr(P) "as" ident(H) :=
  pose proof (in_ranges_byte P ltac:(vm_compute; reflexivity) _ Hc) as H; cbn beta in H.

Lemma token_ctl c : in_word 8 c -> negb (IS_PRINTABLE_ASCII c) && is_ctl c = is_ctl c.
Proof. intros Hc. byte_fact Hc by (fun c => Bool.eqb (negb (IS_PRINTABLE_ASCII c) && is_ctl c) (is_ctl c)) as H. by apply eqb_prop. Qed.
Lemma eol_ctl_eq c : in_word 8 c -> negb (IS_PRINTABLE_ASCII c) && (((c <? 0x20) && negb (c =? HT)) || (c =? 0x7f)) = eol_ctl c.
Proof.
  intros Hc. byte_fact Hc by (fun c => Bool.eqb (negb (IS_PRINTABLE_ASCII c) && (((c <? 0x20) && negb (c =? HT)) || (c =? 0x7f))) (eol_ctl c)) as H.
  by apply eqb_prop.
Qed.

Lemma token_loop_ref buf : bytes_ok buf -> buf <> [] -> token_loop buf = token_ref buf.
Proof.
  induction buf as [|c b IH]; [done|]. intros [Hc Hb]%Forall_cons _. cbn. rewrite token_ctl by done.
  destruct (c =? SP); [done|]. destruct (is_ctl c); [done|]. destruct b; [done|]. by apply IH.
Qed.
Lemma name_loop_ref buf : buf <> [] -> name_loop buf = name_ref buf.
Proof.
  induction buf as [|c b IH]; [done|]. intros _. cbn. destruct (c =? COLON); [done|]. destruct (negb _); [done|].
  destruct b; [done|]. by apply IH.
Qed.
Lemma token_ref_skip pre b : bytes_ok pre -> Forall (fun c => in_ranges token_ranges c = false) pre -> token_ref (pre ++ b) = token_ref b.
Proof.
  induction pre as [|c pre IH]; [done|]. intros [Hc Hb]%Forall_cons [Hr Hp]%Forall_cons. cbn [app token_ref].
  byte_fact Hc by (fun c => implb (negb (in_ranges token_ranges c)) (negb (c =? SP) && negb (is_ctl c))) as H.
  rewrite Hr in H. cbn in H. apply andb_true_iff in H as [->%negb_true_iff ->%negb_true_iff]. by apply IH.
Qed.
Lemma name_ref_skip pre b : bytes_ok pre -> Forall (fun c => in_ranges name_ranges c = false) pre -> name_ref (pre ++ b) = name_ref b.
Proof.
  induction pre as [|c pre IH]; [done|]. intros [Hc Hb]%Forall_cons [Hr Hp]%Forall_cons. cbn [app name_ref].
  byte_fact Hc by (fun c => implb (negb (in_ranges name_ranges c)) (negb (c =? COLON) && token_char c)) as H.
  rewrite Hr in H. cbn [negb implb] in H. apply andb_true_iff in H as [->%negb_true_iff ->]. by apply IH.
Qed.
Lemma eol_loop_skip pre b : bytes_ok pre -> Forall (fun c => in_ranges eol_ranges c = false) pre -> eol_loop (pre ++ b) = eol_loop b.
Proof.
  induction pre as [|c pre IH]; [done|]. intros [Hc Hb]%Forall_cons [Hr Hp]%Forall_cons. cbn [app eol_loop].
  byte_fact Hc by (fun c => implb (negb (in_ranges eol_ranges c)) (negb (eol_ctl c))) as H.
  rewrite eol_ctl_eq by done. rewrite Hr in H. cbn [negb implb] in H. apply negb_true_iff in H as ->. by apply IH.
Qed.
Lemma eol_range c : in_word 8 c -> in_ranges eol_ranges c = eol_ctl c.
Proof. intros Hc. byte_fact Hc by (fun c => Bool.eqb (in_ranges eol_ranges c) (eol_ctl c)) as H. by apply eqb_prop. Qed.

Lemma ADVANCE_TOKEN_ref buf : bytes_ok buf -> ADVANCE_TOKEN buf = (b ← token_ref buf; Parsed (between buf b, b)).
Proof.
  intros Hok. unfold ADVANCE_TOKEN. destruct (findchar_spec token_ranges buf) as (pre & b & found & Hfc & He & Hp & Hf).
  rewrite Hfc. cbn [mbind result_bind]. subst buf.
  apply bytes_ok_app in Hok as [Hok1 Hok2]. rewrite token_ref_skip by done.
  destruct b as [|c b]; [destruct found; [by destruct (Hf eq_refl) as (? & ? & ? & _)|done]|].
  replace (_ ← (if found then Parsed tt else CHECK_EOF (c :: b)); b0 ← token_loop (c :: b); Parsed (between (pre ++ c :: b) b0, b0))
    with (b0 ← token_loop (c :: b); Parsed (between (pre ++ c :: b) b0, b0)) by (by destruct found).
  by rewrite token_loop_ref.
Qed.
Lemma parse_name_ref buf : bytes_ok buf -> parse_name buf =
  (b ← name_ref buf; if (length (between buf b) =? 0)%nat then Ret (-1) else
   b1 ← incr b; b2 ← skip_blanks b1; Parsed (Some (between buf b), b2)).
Proof.
  intros Hok. unfold parse_name. destruct (findchar_spec name_ranges buf) as (pre & b & found & Hfc & He & Hp & Hf).
  rewrite Hfc. cbn [mbind result_bind]. subst buf.
  apply bytes_ok_app in Hok as [Hok1 Hok2]. rewrite name_ref_skip by done.
  destruct b as [|c b]; [destruct found; [by destruct (Hf eq_refl) as (? & ? & ? & _)|done]|].
  rewrite <- name_loop_ref by done. by destruct found.
Qed.
Lemma get_token_to_eol_ref buf : bytes_ok buf -> get_token_to_eol buf =
  (b ← eol_loop buf; c ← deref b;
   if c =? CR then b1 ← incr b; b2 ← EXPECT_CHAR LF b1; Parsed (between buf b, b2)
   else if c =? LF then b1 ← incr b; Parsed (between buf b, b1) else Ret (-1)).
Proof.
  intros Hok. unfold get_token_to_eol. destruct (findchar_spec eol_ranges buf) as (pre & b & found & Hfc & He & Hp & Hf).
  rewrite Hfc. cbn [mbind result_bind]. subst buf.
  apply bytes_ok_app in Hok as [Hok1 Hok2]. rewrite eol_loop_skip by done.
  destruct found; [|done]. destruct (Hf eq_refl) as (c & b' & -> & Hc). apply Forall_cons in Hok2 as [Hcw _].
  rewrite eol_range in Hc by done. cbn [eol_loop]. rewrite eol_ctl_eq, Hc by done. done.
Qed.

(** ** Printing a request and parsing it *)
Definition print_header (h : phr_header) : bytes :=
  match h.1 with Some n => n ++ [COLON; SP] ++ h.2 | None => h.2 end ++ [CR; LF].
Definition print_request (q : Request) : bytes :=
  method q ++ [SP] ++ path q ++ [SP] ++ http_version_chars ++ [0x30 + minor_version q] ++ [CR; LF] ++
  concat (map print_header (headers q)) ++ [CR; LF].

Definition token_ok (t : bytes) : Prop := Forall (fun c => (c =? SP) || is_ctl c = false) t.
Definition value_ok (v : bytes) : Prop := Forall (fun c => eol_ctl c = false) v.
(** A name is of token characters, and the value after it starts with no blank; a
    continuing line starts with one and is not the first. *)
Definition header_ok (first : bool) (h : phr_header) : Prop :=
  value_ok h.2 /\
  match h.1 with
  | Some n => n <> [] /\ Forall (fun c => token_char c = true) n /\ Forall (fun c => is_blank c = false) (take 1 h.2)
  | None => first = false /\ exists c v, h.2 = c :: v /\ is_blank c = true
  end.
Fixpoint headers_ok (first : bool) (hs : list phr_header) : Prop :=
  match hs with [] => True | h :: hs => header_ok first h /\ headers_ok false hs end.
Record request_ok (q : Request) : Prop := {
  rq_method : token_ok (method q);
  rq_path : token_ok (path q);
  rq_minor : 0 <= minor_version q <= 9;
  rq_headers : headers_ok true (headers q) }.

Lemma token_ref_app t rest : token_ok t -> token_ref (t ++ SP :: rest) = Parsed (SP :: rest).
Proof.
  induction t as [|c t IH]; [done|]. intros [[H1 H2]%orb_false_iff Ht]%Forall_cons. cbn [app token_ref]. rewrite H1, H2. by apply IH.
Qed.
Lemma name_ref_app n rest : Forall (fun c => token_char c = true) n -> name_ref (n ++ COLON :: rest) = Parsed (COLON :: rest).
Proof.
  induction n as [|c n IH]; [done|]. intros [Hc Hn]%Forall_cons. cbn [app name_ref].
  destruct (Z.eqb_spec c COLON) as [->|]; [done|]. rewrite Hc. by apply IH.
Qed.
Lemma eol_loop_app v rest : bytes_ok v -> value_ok v -> eol_loop (v ++ CR :: rest) = Parsed (CR :: rest).
Proof.
  induction v as [|c v IH]; [done|]. intros [Hb Hbs]%Forall_cons [Hc Hv]%Forall_cons. cbn [app eol_loop].
  rewrite eol_ctl_eq, Hc by done. by apply IH.
Qed.

Lemma ADVANCE_TOKEN_app t rest : bytes_ok (t ++ SP :: rest) -> token_ok t -> ADVANCE_TOKEN (t ++ SP :: rest) = Parsed (t, SP :: rest).
Proof. intros Hb Ht. rewrite ADVANCE_TOKEN_ref by done. rewrite token_ref_app by done. cbn. by rewrite between_app. Qed.
Lemma get_token_app v rest : bytes_ok (v ++ CR :: LF :: rest) -> value_ok v ->
  get_token_to_eol (v ++ CR :: LF :: rest) = Parsed (v, rest).
Proof.
  intros Hb Hv. rewrite get_token_to_eol_ref by done. apply bytes_ok_app in Hb as [Hb _].
  rewrite eol_loop_app by done. cbn. by rewrite between_app.
Qed.
Lemma skip_blanks_app v rest : Forall (fun c => is_blank c = false) (take 1 v) ->
  skip_blanks (SP :: v ++ CR :: rest) = Parsed (v ++ CR :: rest).
Proof.
  intros Hv. change (skip_blanks (SP :: v ++ CR :: rest)) with (skip_blanks (v ++ CR :: rest)).
  destruct v as [|c v]; [done|]. cbn [app skip_blanks]. cbn in Hv. apply Forall_inv in Hv. by rewrite Hv.
Qed.
Lemma parse_name_app n v rest : bytes_ok (n ++ COLON :: SP :: v ++ CR :: rest) -> n <> [] ->
  Forall (fun c => token_char c = true) n -> Forall (fun c => is_blank c = false) (take 1 v) ->
  parse_name (n ++ COLON :: SP :: v ++ CR :: rest) = Parsed (Some n, v ++ CR :: rest).
Proof.
  intros Hb Hn Ht Hv. rewrite parse_name_ref by done. rewrite name_ref_app by done. cbn [mbind result_bind].
  rewrite between_app. destruct (Nat.eqb_spec (length n) 0) as [Hl|_]; [by apply length_zero_iff_nil in Hl|].
  cbn [incr mbind result_bind]. by rewrite skip_blanks_app.
Qed.

(** Steps of a parser with out parameters. *)
Lemma m_parsed {S A B} (a : A) (k : A -> M S B) s : (lift (Parsed a) ≫= k) s = k a s.
Proof. done. Qed.
Lemma m_fail {S A B} r (k : A -> M S B) s : (lift (Ret r) ≫= k) s = (Ret r, s).
Proof. done. Qed.
Lemma m_undefined {S A B} (k : A -> M S B) s : (lift Undefined ≫= k) s = (Undefined, s).
Proof. done. Qed.
Lemma m_mret {S A B} (a : A) (k : A -> M S B) s : (mret a ≫= k) s = k a s.
Proof. done. Qed.
Lemma m_update {S B} (f : S -> S) (k : unit -> M S B) s : (update f ≫= k) s = k tt (f s).
Proof. done. Qed.
Ltac msteps := repeat (first [rewrite m_parsed|rewrite m_fail|rewrite m_undefined|rewrite m_mret|rewrite m_update];
  cbn beta; cbn [fst snd incr deref CHECK_EOF]).

(** The first byte of a header that is printed. *)
Lemma print_header_head first h : header_ok first h -> exists c b, print_header h = c :: b /\
  c <> CR /\ c <> LF /\ is_blank c = bool_decide (h.1 = None).
Proof.
  intros [Hv Hh]. unfold print_header. destruct (h.1) as [n|].
  - destruct Hh as (Hn & Ht & _). destruct n as [|c n]; [done|]. apply Forall_inv in Ht. exists c. eexists. split; [done|].
    split; [by intros ->|]. split; [by intros ->|]. rewrite bool_decide_false by done.
    destruct (is_blank c) eqn:Hb; [|done]. apply orb_true_iff in Hb as [->%Z.eqb_eq| ->%Z.eqb_eq]; done.
  - destruct Hh as (_ & c & v & -> & Hc). exists c. eexists. split; [done|]. rewrite Hc, bool_decide_true by done.
    apply orb_true_iff in Hc as [->%Z.eqb_eq| ->%Z.eqb_eq]; done.
Qed.

Lemma parse_headers_app hs : forall room rest hs0, bytes_ok (concat (map print_header hs) ++ CR :: LF :: rest) ->
  headers_ok (length hs0 =? 0)%nat hs -> (length hs <= room)%nat ->
  parse_headers room (concat (map print_header hs) ++ CR :: LF :: rest) hs0 = (Parsed rest, hs0 ++ hs).
Proof.
  induction hs as [|h hs IH]; intros room rest hs0 Hb Hok Hl.
  - rewrite app_nil_r. by destruct room.
  - destruct Hok as [Hh Hok]. destruct (print_header_head _ h Hh) as (c & b & Hc & Hcr & Hlf & Hbl).
    destruct room as [|room]; [cbn in Hl; lia|]. cbn [map concat] in Hb |- *. rewrite <- app_assoc in Hb |- *.
    set (tl := concat (map print_header hs) ++ CR :: LF :: rest) in *. 
    rewrite Hc. cbn [app parse_headers CHECK_EOF deref]. msteps.
    rewrite (proj2 (Z.eqb_neq _ _)), (proj2 (Z.eqb_neq _ _)) by done. rewrite app_comm_cons, <- Hc.
    assert (bytes_ok tl) as Htl by (by apply bytes_ok_app in Hb as [_ ?]).
    destruct Hh as [Hv Hh]. unfold print_header in *. destruct h as [[n|] v]; cbn [fst snd] in *.
    + destruct Hh as (Hn & Ht & Hbv). rewrite Hbl, bool_decide_false, andb_false_r by done. cbn [negb].
      rewrite <- !app_assoc in Hb |- *. cbn [app] in Hb |- *. rewrite parse_name_app by done. msteps.
      rewrite get_token_app; [|apply bytes_ok_app in Hb as [_ Hb]; by do 2 (apply Forall_cons in Hb as [_ Hb])|done].
      msteps. unfold tl. rewrite IH; [by rewrite <- app_assoc|done| |cbn in Hl; lia].
      rewrite length_app. cbn. by rewrite Nat.add_comm.
    + destruct Hh as (Hf & _). rewrite Hbl, bool_decide_true, Hf by done. cbn [negb andb]. msteps.
      rewrite <- !app_assoc in Hb |- *. cbn [app] in Hb |- *. rewrite get_token_app by done.
      msteps. unfold tl. rewrite IH; [by rewrite <- app_assoc|done| |cbn in Hl; lia].
      rewrite length_app. cbn. by rewrite Nat.add_comm.
Qed.

Lemma skip_empty_line_other c b : c <> CR -> c <> LF -> skip_empty_line (c :: b) = Parsed (c :: b).
Proof. intros. unfold skip_empty_line. cbn. by rewrite !(proj2 (Z.eqb_neq _ _)). Qed.
Lemma token_head t rest : token_ok t -> skip_empty_line (t ++ SP :: rest) = Parsed (t ++ SP :: rest).
Proof.
  intros Ht. destruct t as [|c t]; cbn [app]; apply skip_empty_line_other; try done;
    intros ->; apply Forall_inv in Ht; done.
Qed.
Lemma parse_minor v rest : 0 <= v <= 9 -> parse_http_version (http_version_chars ++ (0x30 + v) :: CR :: rest) = Parsed (v, CR :: rest).
Proof.
  intros Hv. unfold parse_http_version. cbn [http_version_chars app].
  assert (forall b, expect_chars http_version_chars (72 :: 84 :: 84 :: 80 :: 47 :: 49 :: 46 :: b) = Parsed b) as -> by done.
  cbn [mbind result_bind]. unfold parse_int. cbn [CHECK_EOF deref mbind result_bind].
  assert (is_digit (0x30 + v) = true) as Hd by (unfold is_digit; lia). rewrite Hd. cbn [int_loop]. rewrite Hd.
  unfold INT_MAX. rewrite (proj2 (Z.ltb_ge _ _)) by lia. change (is_digit CR) with false. cbn iota. do 2 f_equal. lia.
Qed.

Lemma parse_request_print q body max : bytes_ok (print_request q ++ body) -> request_ok q -> (length (headers q) <= max)%nat ->
  parse_request max (print_request q ++ body) no_request = (Parsed body, q).
Proof.
  intros Hb [Hm Hp Hv Hh] Hl. destruct q as [m p v hs]. cbn [method path minor_version headers] in *.
  unfold print_request in *. cbn [method path minor_version headers] in *. rewrite <- !app_assoc in Hb |- *. cbn [app] in Hb |- *.
  unfold parse_request. rewrite token_head by done. msteps. rewrite ADVANCE_TOKEN_app by done. msteps.
  apply bytes_ok_app in Hb as [_ [_ Hb]%Forall_cons]. rewrite ADVANCE_TOKEN_app by done. msteps.
  apply bytes_ok_app in Hb as [_ [_ Hb]%Forall_cons].
  rewrite parse_minor by done. msteps.
  apply bytes_ok_app in Hb as [_ Hb]. do 3 (apply Forall_cons in Hb as [_ Hb]).
  assert (forall rest, end_of_line (CR :: LF :: rest) = Parsed rest) as -> by done. msteps.
  unfold on_headers. cbn [headers set_minor set_path set_method no_request].
  by rewrite parse_headers_app.
Qed.

(** ** More bytes arrive

    What a parser makes of a buffer is compared with what it makes of the buffer
    followed by more bytes: a success and a failure stay as they are, only "incomplete"
    may change.  On the way: the parsers stay within the buffer, and only a number too
    large for an [int] leaves them undefined. *)
Definition overflows (buf : bytes) : Prop :=
  exists a d c, buf = a ++ d ++ c /\ Forall (fun c => is_digit c = true) d /\ (10 <= length d)%nat.

Definition step_ok {X} (rest : X -> bytes) (put : X -> X) (buf : bytes) (r r' : result X) : Prop :=
  match r with
  | Parsed x => r' = Parsed (put x) /\ rest x `suffix_of` buf
  | Ret z => z = -2 \/ (z = -1 /\ r' = Ret (-1))
  | Undefined => overflows buf /\ r' = Undefined
  end.
(** For a parser that returns a pointer, and one that returns a value as well. *)
Definition put1 (ext : bytes) : bytes -> bytes := fun b => b ++ ext.
Definition put2 {A} (ext : bytes) : A * bytes -> A * bytes := fun x => (x.1, x.2 ++ ext).
Notation ok1 buf ext := (step_ok (fun b => b) (put1 ext) buf).
Notation ok2 buf ext := (step_ok snd (put2 ext) buf).

Lemma overflows_suffix b buf : b `suffix_of` buf -> overflows b -> overflows buf.
Proof. intros [pre ->] (a & d & c & -> & Hd & Hl). exists (pre ++ a), d, c. by rewrite <- app_assoc. Qed.
Lemma step_ok_suffix {X} (rest : X -> bytes) put b buf r r' : b `suffix_of` buf ->
  step_ok rest put b r r' -> step_ok rest put buf r r'.
Proof.
  intros Hs. destruct r as [x|z|]; cbn; [intros [? ?]; split; [done|by trans b]|done|intros [? ?]; split; [by eapply overflows_suffix|done]].
Qed.
Lemma step_ok_bind {X Y} (rest : X -> bytes) put (rest' : Y -> bytes) put' buf r r' (k k' : X -> result Y) :
  step_ok rest put buf r r' ->
  (forall x, r = Parsed x -> rest x `suffix_of` buf -> step_ok rest' put' (rest x) (k x) (k' (put x))) ->
  step_ok rest' put' buf (x ← r; k x) (x ← r'; k' x).
Proof.
  destruct r as [x|z|]; cbn.
  - intros [-> Hs] Hk. cbn. eapply step_ok_suffix; [exact Hs|]. by apply Hk.
  - intros [->|[-> ->]] _; cbn; [by left|by right].
  - intros [? ->] _. by split.
Qed.

Lemma suffix_cons c (b : bytes) : b `suffix_of` c :: b.
Proof. by exists [c]. Qed.
#[local] Hint Resolve suffix_cons : core.

Lemma EXPECT_CHAR_ok ch buf ext : ok1 buf ext (EXPECT_CHAR ch buf) (EXPECT_CHAR ch (buf ++ ext)).
Proof. destruct buf as [|c b]; [by left|]. unfold EXPECT_CHAR. cbn. destruct (c =? ch); cbn; [done|by right]. Qed.
Lemma expect_chars_ok cs buf ext : ok1 buf ext (expect_chars cs buf) (expect_chars cs (buf ++ ext)).
Proof.
  revert buf. induction cs as [|c cs IH]; intros buf; cbn [expect_chars]; [by split|].
  eapply step_ok_bind; [apply EXPECT_CHAR_ok|]. intros b _ _. apply IH.
Qed.
Lemma token_ref_ok buf ext : ok1 buf ext (token_ref buf) (token_ref (buf ++ ext)).
Proof.
  induction buf as [|c b IH]; [by left|]. cbn [app token_ref]. destruct (c =? SP); [by split|].
  destruct (is_ctl c); [by right|]. by eapply step_ok_suffix; [|exact IH].
Qed.
Lemma name_ref_ok buf ext : ok1 buf ext (name_ref buf) (name_ref (buf ++ ext)).
Proof.
  induction buf as [|c b IH]; [by left|]. cbn [app name_ref]. destruct (c =? COLON); [by split|].
  destruct (negb _); [by right|]. by eapply step_ok_suffix; [|exact IH].
Qed.
Lemma eol_loop_ok buf ext : ok1 buf ext (eol_loop buf) (eol_loop (buf ++ ext)).
Proof.
  induction buf as [|c b IH]; [by left|]. cbn [app eol_loop]. destruct (_ && _); [by split|].
  by eapply step_ok_suffix; [|exact IH].
Qed.
Lemma skip_blanks_ok buf ext : ok1 buf ext (skip_blanks buf) (skip_blanks (buf ++ ext)).
Proof.
  induction buf as [|c b IH]; [by left|]. cbn [app skip_blanks]. destruct (is_blank c); [|by split].
  by eapply step_ok_suffix; [|exact IH].
Qed.
Lemma token_ref_head buf b : token_ref buf = Parsed b -> exists b', b = SP :: b'.
Proof.
  induction buf as [|c b0 IH]; [done|]. cbn. destruct (Z.eqb_spec c SP) as [->|]; [intros [= <-]; by eexists|].
  by destruct (is_ctl c).
Qed.
Lemma name_ref_head buf b : name_ref buf = Parsed b -> exists b', b = COLON :: b'.
Proof.
  induction buf as [|c b0 IH]; [done|]. cbn. destruct (Z.eqb_spec c COLON) as [->|]; [intros [= <-]; by eexists|].
  by destruct (negb _).
Qed.
Lemma eol_loop_head buf b : eol_loop buf = Parsed b -> exists c b', b = c :: b'.
Proof. induction buf as [|c b0 IH]; [done|]. cbn. destruct (_ && _); [intros [= <-]; by eexists _, _|done]. Qed.
Lemma between_ext buf b ext : between (buf ++ ext) (b ++ ext) = between buf b.
Proof.
  unfold between. rewrite !length_app. replace (length buf + length ext - (length b + length ext))%nat with (length buf - length b)%nat by lia.
  apply take_app_le. lia.
Qed.

Lemma ADVANCE_TOKEN_ok buf ext : bytes_ok (buf ++ ext) -> ok2 buf ext (ADVANCE_TOKEN buf) (ADVANCE_TOKEN (buf ++ ext)).
Proof.
  intros Hb. apply bytes_ok_app in Hb as Hb'. destruct Hb' as [Hb1 _]. rewrite !ADVANCE_TOKEN_ref by done.
  eapply step_ok_bind; [apply token_ref_ok|]. intros b _ _. cbn. unfold put1. by rewrite between_ext.
Qed.
Lemma get_token_ok buf ext : bytes_ok (buf ++ ext) -> ok2 buf ext (get_token_to_eol buf) (get_token_to_eol (buf ++ ext)).
Proof.
  intros Hb. apply bytes_ok_app in Hb as Hb'. destruct Hb' as [Hb1 _]. rewrite !get_token_to_eol_ref by done.
  eapply step_ok_bind; [apply eol_loop_ok|]. intros b (c & b' & ->)%eol_loop_head _. cbn. unfold put1. cbn [app].
  rewrite app_comm_cons, between_ext. destruct (c =? CR).
  - eapply step_ok_suffix; [apply suffix_cons|]. eapply step_ok_bind; [apply EXPECT_CHAR_ok|]. intros b2 _ _. by split.
  - destruct (c =? LF); [split; [done|apply suffix_cons]|by right].
Qed.
Lemma parse_name_ok buf ext : bytes_ok (buf ++ ext) -> ok2 buf ext (parse_name buf) (parse_name (buf ++ ext)).
Proof.
  intros Hb. apply bytes_ok_app in Hb as Hb'. destruct Hb' as [Hb1 _]. rewrite !parse_name_ref by done.
  eapply step_ok_bind; [apply name_ref_ok|]. intros b (b' & ->)%name_ref_head _. cbn. unfold put1. cbn [app].
  rewrite app_comm_cons, between_ext. destruct (_ =? 0)%nat; [by right|].
  eapply step_ok_suffix; [apply suffix_cons|]. eapply step_ok_bind; [apply skip_blanks_ok|]. intros b2 _ _. by split.
Qed.
Lemma int_loop_ok ext buf : forall d v, Forall (fun c => is_digit c = true) d -> v < 10 ^ Z.of_nat (length d) ->
  ok2 (d ++ buf) ext (int_loop v buf) (int_loop v (buf ++ ext)).
Proof.
  induction buf as [|c b IH]; intros d v Hd Hv; [by left|]. cbn [app int_loop].
  destruct (is_digit c) eqn:Hc; [|split; [done|by exists d]].
  assert (Forall (fun c => is_digit c = true) (d ++ [c])) as Hdc by (by apply Forall_app; split; [|constructor]).
  assert (0 <= c - 0x30 <= 9) as Hcr by (unfold is_digit in Hc; lia).
  assert (10 ^ Z.of_nat (length (d ++ [c])) = 10 * 10 ^ Z.of_nat (length d)) as Hpow.
  { rewrite length_app. cbn. by rewrite Nat.add_1_r, Nat2Z.inj_succ, Z.pow_succ_r by lia. }
  destruct (Z.ltb_spec INT_MAX (v * 10 + c)) as [Ho|Ho].
  - split; [|done]. exists [], (d ++ [c]), b. split; [by rewrite <- app_assoc|]. split; [done|].
    destruct (Nat.le_gt_cases 10 (length (d ++ [c]))) as [|Hl]; [done|].
    assert (10 ^ Z.of_nat (length (d ++ [c])) <= 10 ^ 9) by (apply Z.pow_le_mono_r; lia). unfold INT_MAX in Ho. lia.
  - replace (d ++ c :: b) with ((d ++ [c]) ++ b) by (by rewrite <- app_assoc). apply IH; [done|]. rewrite Hpow. lia.
Qed.
Lemma int_loop_head v buf x : int_loop v buf = Parsed x -> x.2 <> [].
Proof.
  revert v. induction buf as [|c b IH]; intros v; [done|]. cbn. destruct (is_digit c); [|by intros [= <-]].
  destruct (_ <? _); [done|]. apply IH.
Qed.
Lemma parse_int_ok buf ext : ok2 buf ext (parse_int buf) (parse_int (buf ++ ext)).
Proof.
  destruct buf as [|c b]; [by left|]. unfold parse_int. cbn [app CHECK_EOF deref mbind result_bind].
  destruct (is_digit c); [|by right]. apply (int_loop_ok ext (c :: b) [] 0); [done|cbn; lia].
Qed.
Lemma parse_int_head buf x : parse_int buf = Parsed x -> x.2 <> [].
Proof. destruct buf as [|c b]; [done|]. unfold parse_int. cbn [CHECK_EOF deref mbind result_bind]. destruct (is_digit c); [apply int_loop_head|done]. Qed.
Lemma parse_http_version_ok buf ext : ok2 buf ext (parse_http_version buf) (parse_http_version (buf ++ ext)).
Proof. eapply step_ok_bind; [apply expect_chars_ok|]. intros b _ _. apply parse_int_ok. Qed.
Lemma parse_http_version_head buf x : parse_http_version buf = Parsed x -> x.2 <> [].
Proof. unfold parse_http_version. destruct (expect_chars _ _); [|done|done]. apply parse_int_head. Qed.
Lemma skip_empty_line_ok buf ext : ok1 buf ext (skip_empty_line buf) (skip_empty_line (buf ++ ext)).
Proof.
  destruct buf as [|c b]; [by left|]. unfold skip_empty_line. cbn. destruct (c =? CR).
  - eapply step_ok_suffix; [apply suffix_cons|apply EXPECT_CHAR_ok].
  - destruct (c =? LF); [split; [done|apply suffix_cons]|by split].
Qed.
Lemma end_of_line_ok buf ext : buf <> [] -> ok1 buf ext (end_of_line buf) (end_of_line (buf ++ ext)).
Proof.
  destruct buf as [|c b]; [done|]. intros _. unfold end_of_line. cbn. destruct (c =? CR).
  - eapply step_ok_suffix; [apply suffix_cons|apply EXPECT_CHAR_ok].
  - destruct (c =? LF); [split; [done|apply suffix_cons]|by right].
Qed.

(** The same of a parser with out parameters: what it has found when it stops for want of
    more bytes is what it finds first when it has them. *)
Definition steps_ok {S} (more : S -> S -> Prop) (buf ext : bytes) (x x' : result bytes * S) : Prop :=
  match x.1 with
  | Parsed b => x' = (Parsed (b ++ ext), x.2) /\ b `suffix_of` buf
  | Ret z => (z = -2 /\ more x.2 x'.2) \/ (z = -1 /\ x' = (Ret (-1), x.2))
  | Undefined => overflows buf /\ x'.1 = Undefined
  end.

Lemma steps_ok_lift {S A} (rest : A -> bytes) put more buf ext (r r' : result A) (k : A -> M S bytes) (k' : A -> M S bytes) s :
  step_ok rest put buf r r' ->
  (r = Ret (-2) -> more s ((lift r' ≫= k') s).2) ->
  (forall a, r = Parsed a -> rest a `suffix_of` buf -> steps_ok more (rest a) ext (k a s) (k' (put a) s)) ->
  steps_ok more buf ext ((lift r ≫= k) s) ((lift r' ≫= k') s).
Proof.
  destruct r as [a|z|]; cbn -[mbind].
  - intros [-> Hs] _ Hk. rewrite !m_parsed. specialize (Hk a eq_refl Hs). unfold steps_ok in *.
    destruct (k a s).1 as [b|z|]; [destruct Hk as [-> Hb]; split; [done|by trans (rest a)]|done|].
    destruct Hk as [Ho Hu]. split; [by eapply overflows_suffix|done].
  - intros [->|[-> ->]] Hm _; rewrite m_fail; [left; split; [done|by apply Hm]|by right].
  - intros [Ho ->] _ _. rewrite m_undefined. by split.
Qed.

(** The value of a header, after its name, and the headers that follow. *)
Definition header_line (room : nat) (nb : option bytes * bytes) : M (list phr_header) bytes :=
  vb ← lift (get_token_to_eol nb.2);
  _ ← update (fun hs => hs ++ [(nb.1, vb.1)]);
  parse_headers room vb.2.
Lemma parse_headers_0 c b hs : parse_headers 0 (c :: b) hs =
  if c =? CR then (EXPECT_CHAR LF b, hs) else if c =? LF then (Parsed b, hs) else (Ret (-1), hs).
Proof. cbn [parse_headers CHECK_EOF deref]. msteps. destruct (c =? CR); [done|]. by destruct (c =? LF). Qed.
Lemma parse_headers_S room c b hs : parse_headers (S room) (c :: b) hs =
  if c =? CR then (EXPECT_CHAR LF b, hs) else if c =? LF then (Parsed b, hs)
  else if negb (negb (length hs =? 0)%nat && is_blank c) then (lift (parse_name (c :: b)) ≫= header_line room) hs
  else header_line room (None, c :: b) hs.
Proof. cbn [parse_headers CHECK_EOF deref]. msteps. destruct (c =? CR); [done|]. destruct (c =? LF); [done|]. by destruct (negb _). Qed.

(** The headers only grow. *)
Lemma header_line_grow room nb hs : (forall buf hs, hs `prefix_of` (parse_headers room buf hs).2) ->
  hs `prefix_of` (header_line room nb hs).2.
Proof.
  intros IH. unfold header_line. destruct (get_token_to_eol nb.2) as [vb| |]; msteps; [|done|done].
  trans (hs ++ [(nb.1, vb.1)]); [by apply prefix_app_r|apply IH].
Qed.
Lemma name_line_grow room (r : result (option bytes * bytes)) hs : (forall buf hs, hs `prefix_of` (parse_headers room buf hs).2) ->
  hs `prefix_of` ((lift r ≫= header_line room) hs).2.
Proof. intros IH. destruct r as [nb| |]; [|done|done]. by apply header_line_grow. Qed.
Lemma parse_headers_grow room buf hs : hs `prefix_of` (parse_headers room buf hs).2.
Proof.
  revert buf hs. induction room as [|room IH]; intros [|c b] hs; try done.
  - rewrite parse_headers_0. destruct (c =? CR); [done|]. by destruct (c =? LF).
  - rewrite parse_headers_S. destruct (c =? CR); [done|]. destruct (c =? LF); [done|].
    destruct (negb _); [by apply name_line_grow|by apply header_line_grow].
Qed.

Lemma line_end_ok c b ext (hs : list phr_header) : c = CR \/ c = LF -> steps_ok prefix (c :: b) ext
  (if c =? CR then (EXPECT_CHAR LF b, hs) else (Parsed b, hs)) (if c =? CR then (EXPECT_CHAR LF (b ++ ext), hs) else (Parsed (b ++ ext), hs)).
Proof.
  intros Hc. destruct (Z.eqb_spec c CR); [|by split; [|apply suffix_cons]].
  pose proof (EXPECT_CHAR_ok LF b ext) as H. unfold steps_ok. cbn [fst snd].
  destruct (EXPECT_CHAR LF b) as [b'|z|]; cbn in H |- *.
  - destruct H as [-> ?]. split; [done|]. trans b; [done|apply suffix_cons].
  - destruct H as [->|[-> ->]]; [by left|by right].
  - destruct H as [? ->]. split; [|done]. eapply overflows_suffix; [apply suffix_cons|done].
Qed.

Lemma header_line_ok room buf ext n hs : bytes_ok (buf ++ ext) ->
  (forall buf hs, bytes_ok (buf ++ ext) -> steps_ok prefix buf ext (parse_headers room buf hs) (parse_headers room (buf ++ ext) hs)) ->
  steps_ok prefix buf ext (header_line room (n, buf) hs) (header_line room (n, buf ++ ext) hs).
Proof.
  intros Hb IH. unfold header_line. cbn [fst snd]. eapply steps_ok_lift; [by apply get_token_ok| |].
  - intros _. apply (header_line_grow room (n, buf ++ ext) hs), parse_headers_grow.
  - intros vb _ Hs. msteps. apply IH. destruct Hs as [pre ->]. rewrite <- app_assoc in Hb. by apply bytes_ok_app in Hb as [_ Hb].
Qed.

Lemma parse_headers_ok room ext : forall buf hs, bytes_ok (buf ++ ext) ->
  steps_ok prefix buf ext (parse_headers room buf hs) (parse_headers room (buf ++ ext) hs).
Proof.
  induction room as [|room IH]; intros [|c b] hs Hb; try (left; split; [done|apply parse_headers_grow]).
  - cbn [app]. rewrite !parse_headers_0. pose proof (line_end_ok c b ext hs) as H.
    destruct (Z.eqb_spec c CR); [auto|]. destruct (Z.eqb_spec c LF); [auto|by right].
  - cbn [app]. rewrite !parse_headers_S. pose proof (line_end_ok c b ext hs) as H.
    destruct (Z.eqb_spec c CR); [auto|]. destruct (Z.eqb_spec c LF); [auto|]. clear H.
    destruct (negb _); [|by apply (header_line_ok room (c :: b))].
    eapply steps_ok_lift; [by apply (parse_name_ok (c :: b))|intros _; apply name_line_grow, parse_headers_grow|].
    intros [nm b'] _ Hs. apply header_line_ok; [|done]. cbn [snd] in Hs. destruct Hs as [pre Hs].
    change (c :: b ++ ext) with ((c :: b) ++ ext) in Hb. rewrite Hs, <- app_assoc in Hb. by apply bytes_ok_app in Hb as [_ Hb].
Qed.

(** What is found of an incomplete request is found of the whole one. *)
Definition more_request (q q' : Request) : Prop :=
  headers q `prefix_of` headers q' /\ (headers q = [] \/ path q = path q').
Lemma more_start q q' : headers q = [] -> more_request q q'.
Proof. intros H. split; [rewrite H; apply prefix_nil|by left]. Qed.

(** From the path on. *)
Definition request_rest (max_headers : nat) (b : bytes) : M Request bytes :=
  tb ← lift (ADVANCE_TOKEN b);
  _ ← update (set_path tb.1);
  b ← lift (incr tb.2);
  vb ← lift (parse_http_version b);
  _ ← update (set_minor vb.1);
  b ← lift (end_of_line vb.2);
  on_headers (parse_headers max_headers b).

Lemma on_headers_ok max buf ext q : bytes_ok (buf ++ ext) -> headers q = [] ->
  steps_ok more_request buf ext (on_headers (parse_headers max buf) q) (on_headers (parse_headers max (buf ++ ext)) q).
Proof.
  intros Hb Hq. pose proof (parse_headers_ok max ext buf (headers q) Hb) as H. unfold on_headers, steps_ok in *.
  destruct (parse_headers max buf (headers q)) as [r hs], (parse_headers max (buf ++ ext) (headers q)) as [r' hs']. cbn [fst snd] in *.
  destruct r as [b|z|].
  - destruct H as [[= -> ->] Hs]. by split.
  - destruct H as [[-> Hp]|[-> [= -> ->]]]; [left; split; [done|]; split; [done|by right]|by right].
  - destruct H as [Ho ->]. by split.
Qed.

Lemma token_suffix_ok buf tb : bytes_ok buf -> ADVANCE_TOKEN buf = Parsed tb -> tb.1 `prefix_of` buf /\ exists b, tb.2 = SP :: b.
Proof.
  intros Hb. rewrite ADVANCE_TOKEN_ref by done. destruct (token_ref buf) as [b| |] eqn:Ht; [|done|done].
  intros [= <-]. cbn. split; [by apply prefix_take|by eapply token_ref_head].
Qed.

Lemma bytes_ok_suffix b buf : b `suffix_of` buf -> bytes_ok buf -> bytes_ok b.
Proof. intros [pre ->] Hb. by apply bytes_ok_app in Hb as [_ ?]. Qed.
Lemma suffix_more (b buf ext : bytes) : b `suffix_of` buf -> (b ++ ext) `suffix_of` (buf ++ ext).
Proof. intros [pre ->]. exists pre. by rewrite <- app_assoc. Qed.

Lemma request_rest_ok max buf ext q : bytes_ok (buf ++ ext) -> headers q = [] ->
  steps_ok more_request buf ext (request_rest max buf q) (request_rest max (buf ++ ext) q).
Proof.
  intros Hb Hq. unfold request_rest. eapply steps_ok_lift; [by apply ADVANCE_TOKEN_ok|intros _; by apply more_start|].
  intros tb Ht Hs. destruct (token_suffix_ok buf tb) as (_ & b & Hhd); [by apply bytes_ok_app in Hb as [? _]|done|].
  destruct tb as [t bt]. cbn [snd] in *. subst bt. unfold put2. cbn [fst snd app]. msteps.
  pose proof (bytes_ok_suffix _ _ (suffix_more _ _ ext Hs) Hb) as Hb1. apply Forall_cons in Hb1 as [_ Hb1].
  assert (Hin : forall x x', steps_ok more_request b ext x x' -> steps_ok more_request (SP :: b) ext x x').
  { intros x x'. unfold steps_ok. destruct x.1 as [b'|z|]; [intros [? ?]; split; [done|by trans b]|done|].
    intros [? ?]. split; [eapply overflows_suffix; [apply suffix_cons|done]|done]. }
  apply Hin. eapply steps_ok_lift; [apply parse_http_version_ok|intros _; by apply more_start|].
  intros [v vb] Hv Hsv. msteps. unfold put2. cbn [fst snd] in *. apply parse_http_version_head in Hv. cbn [snd] in Hv.
  eapply (steps_ok_lift (fun b => b) (put1 ext)); [by apply end_of_line_ok|intros _; by apply more_start|].
  intros b2 _ Hs2. apply on_headers_ok; [|done]. eapply bytes_ok_suffix; [|exact Hb1]. unfold put1.
  apply suffix_more. by trans vb.
Qed.

Lemma parse_request_eq max buf q : parse_request max buf q =
  (b ← lift (skip_empty_line buf); tb ← lift (ADVANCE_TOKEN b); _ ← update (set_method tb.1); b ← lift (incr tb.2);
   request_rest max b) q.
Proof. done. Qed.

Lemma parse_request_ok max buf ext q : bytes_ok (buf ++ ext) -> headers q = [] ->
  steps_ok more_request buf ext (parse_request max buf q) (parse_request max (buf ++ ext) q) /\
  forall b, (parse_request max buf q).1 = Parsed b -> (length b < length buf)%nat.
Proof.
  intros Hb Hq. rewrite !parse_request_eq. split.
  - eapply (steps_ok_lift (fun b => b) (put1 ext)); [apply skip_empty_line_ok|intros _; by apply more_start|].
    intros b _ Hs. pose proof (bytes_ok_suffix _ _ (suffix_more _ _ ext Hs) Hb) as Hb1.
    eapply steps_ok_lift; [by apply ADVANCE_TOKEN_ok|intros _; by apply more_start|].
    intros tb Ht Hst. destruct (token_suffix_ok b tb) as (_ & b' & Hhd); [by apply bytes_ok_app in Hb1 as [? _]|done|].
    destruct tb as [t bt]. cbn [snd] in *. subst bt. unfold put2. cbn [fst snd app]. msteps.
    pose proof (bytes_ok_suffix _ _ (suffix_more _ _ ext Hst) Hb1) as Hb2. apply Forall_cons in Hb2 as [_ Hb2].
    pose proof (request_rest_ok max b' ext (set_method t q) Hb2 Hq) as H. unfold steps_ok in *.
    destruct (request_rest max b' (set_method t q)).1 as [b2|z|]; [destruct H as [? ?]; split; [done|by trans b']|done|].
    destruct H as [? ?]. split; [eapply overflows_suffix; [apply suffix_cons|done]|done].
  - intros b2. destruct (skip_empty_line buf) as [b| |] eqn:Hsk; msteps; [|done|done].
    pose proof (skip_empty_line_ok buf []) as Hok. rewrite Hsk in Hok. destruct Hok as [_ Hs1].
    apply bytes_ok_app in Hb as [Hb _]. pose proof (bytes_ok_suffix _ _ Hs1 Hb) as Hb1.
    destruct (ADVANCE_TOKEN b) as [tb| |] eqn:Ht; msteps; [|done|done].
    pose proof (ADVANCE_TOKEN_ok b [] ltac:(by rewrite app_nil_r)) as Hok. rewrite Ht in Hok. destruct Hok as [_ Hs2].
    destruct (token_suffix_ok b tb Hb1 Ht) as (_ & b' & Hhd). destruct tb as [t bt]. cbn [snd] in *. subst bt. cbn [incr fst snd]. msteps.
    intros Hr. assert (bytes_ok (b' ++ [])) as Hb2 by (rewrite app_nil_r; apply (bytes_ok_suffix _ _ Hs2), Forall_cons in Hb1; by destruct_and!).
    pose proof (request_rest_ok max b' [] (set_method t q) Hb2 Hq) as H. unfold steps_ok in H. rewrite Hr in H. destruct H as [_ Hs3].
    apply suffix_length in Hs1, Hs2, Hs3. cbn in Hs2. lia.
Qed.

(** ** What is reported lies in the buffer *)
Definition within (t buf : bytes) : Prop := exists a c, buf = a ++ t ++ c.
Lemma within_token t b buf : t `prefix_of` b -> b `suffix_of` buf -> within t buf.
Proof. intros [c ->] [a ->]. by exists a, c. Qed.
Lemma within_nil buf : within [] buf.
Proof. by exists [], buf. Qed.
Definition header_in (buf : bytes) (h : phr_header) : Prop :=
  within h.2 buf /\ match h.1 with Some n => within n buf | None => True end.
Definition request_in (max : nat) (buf : bytes) (q : Request) : Prop :=
  within (method q) buf /\ within (path q) buf /\ Forall (header_in buf) (headers q) /\ (length (headers q) <= max)%nat.

Lemma get_token_in buf vb : bytes_ok buf -> get_token_to_eol buf = Parsed vb -> vb.1 `prefix_of` buf /\ vb.2 `suffix_of` buf.
Proof.
  intros Hb Hv. pose proof (get_token_ok buf [] ltac:(by rewrite app_nil_r)) as Hok. rewrite Hv in Hok. split; [|apply Hok].
  rewrite get_token_to_eol_ref in Hv by done. destruct (eol_loop buf) as [b| |]; [|done|done]. cbn in Hv.
  destruct (deref b) as [c| |]; [|done|done]. cbn in Hv. destruct (incr b) as [b1| |]; repeat case_match; try done; cbn in Hv; 
    try (destruct (EXPECT_CHAR LF b1); cbn in Hv); try done; injection Hv as <-; apply prefix_take.
Qed.
Lemma parse_name_in buf nb : bytes_ok buf -> parse_name buf = Parsed nb ->
  (exists n, nb.1 = Some n /\ n `prefix_of` buf) /\ nb.2 `suffix_of` buf.
Proof.
  intros Hb Hv. pose proof (parse_name_ok buf [] ltac:(by rewrite app_nil_r)) as Hok. rewrite Hv in Hok. split; [|apply Hok].
  rewrite parse_name_ref in Hv by done. destruct (name_ref buf) as [b| |]; [|done|done]. cbn in Hv.
  destruct (_ =? 0)%nat; [done|]. destruct (incr b) as [b1| |]; [|done|done]. cbn in Hv.
  destruct (skip_blanks b1); [|done|done]. injection Hv as <-. eexists. split; [done|]. apply prefix_take.
Qed.

Lemma header_line_in whole room nb hs : bytes_ok whole -> nb.2 `suffix_of` whole ->
  match nb.1 with Some n => within n whole | None => True end -> Forall (header_in whole) hs ->
  (forall buf hs, buf `suffix_of` whole -> Forall (header_in whole) hs ->
     Forall (header_in whole) (parse_headers room buf hs).2 /\ (length (parse_headers room buf hs).2 <= length hs + room)%nat) ->
  Forall (header_in whole) (header_line room nb hs).2 /\ (length (header_line room nb hs).2 <= length hs + S room)%nat.
Proof.
  intros Hw Hs Hn Hh IH. unfold header_line. destruct (get_token_to_eol nb.2) as [vb| |] eqn:Hv; msteps; [|split; [done|cbn; lia]..].
  destruct (get_token_in nb.2 vb (bytes_ok_suffix _ _ Hs Hw) Hv) as [H1 H2].
  destruct (IH vb.2 (hs ++ [(nb.1, vb.1)])) as [H3 H4]; [by trans nb.2| |].
  - apply Forall_app. split; [done|]. constructor; [|done]. split; [by eapply within_token|done].
  - split; [done|]. rewrite length_app in H4. cbn in H4. eapply Nat.le_trans; [exact H4|lia].
Qed.

Lemma parse_headers_in whole room : bytes_ok whole -> forall buf hs, buf `suffix_of` whole -> Forall (header_in whole) hs ->
  Forall (header_in whole) (parse_headers room buf hs).2 /\ (length (parse_headers room buf hs).2 <= length hs + room)%nat.
Proof.
  intros Hw. induction room as [|room IH]; intros [|c b] hs Hs Hh; try (split; [exact Hh|apply Nat.le_add_r]).
  - rewrite parse_headers_0. destruct (c =? CR); [|destruct (c =? LF)]; (split; [exact Hh|apply Nat.le_add_r]).
  - rewrite parse_headers_S. destruct (c =? CR); [split; [exact Hh|apply Nat.le_add_r]|]. destruct (c =? LF); [split; [exact Hh|apply Nat.le_add_r]|].
    destruct (negb _); [|by apply header_line_in].
    destruct (parse_name (c :: b)) as [nb| |] eqn:Hn; msteps; [|split; [exact Hh|apply Nat.le_add_r]..].
    destruct (parse_name_in _ _ (bytes_ok_suffix _ _ Hs Hw) Hn) as [(n & He & Hp) Hs'].
    apply header_line_in; try done; [by trans (c :: b)|]. rewrite He. by eapply within_token.
Qed.

Lemma parse_request_in max buf : bytes_ok buf -> request_in max buf (parse_request max buf no_request).2.
Proof.
  intros Hb. pose proof (within_nil buf) as Hnil. assert (H0 : request_in max buf no_request) by (split; [done|]; split; [done|]; split; [done|cbn; lia]).
  rewrite parse_request_eq. destruct (skip_empty_line buf) as [b| |] eqn:Hsk; msteps; [|done|done].
  pose proof (skip_empty_line_ok buf []) as Hok. rewrite Hsk in Hok. destruct Hok as [_ Hs1].
  pose proof (bytes_ok_suffix _ _ Hs1 Hb) as Hb1. destruct (ADVANCE_TOKEN b) as [tb| |] eqn:Ht; msteps; [|done|done].
  pose proof (ADVANCE_TOKEN_ok b [] ltac:(by rewrite app_nil_r)) as Hok. rewrite Ht in Hok. destruct Hok as [_ Hs2].
  destruct (token_suffix_ok b tb Hb1 Ht) as (Hp & b' & Hhd). destruct tb as [m bt]. cbn [fst snd] in *. subst bt. cbn [incr]. msteps.
  assert (b' `suffix_of` buf) as Hs3 by (trans (SP :: b'); [done|by trans b]).
  pose proof (bytes_ok_suffix _ _ Hs3 Hb) as Hb2. unfold request_rest.
  assert (Hm : within m buf) by (by eapply within_token).
  destruct (ADVANCE_TOKEN b') as [tb| |] eqn:Ht'; msteps; [|split; [done|split; [done|split; [done|cbn; lia]]]..].
  pose proof (ADVANCE_TOKEN_ok b' [] ltac:(by rewrite app_nil_r)) as Hok. rewrite Ht' in Hok. destruct Hok as [_ Hs4].
  destruct (token_suffix_ok b' tb Hb2 Ht') as (Hp' & b3 & Hhd). destruct tb as [p bt]. cbn [fst snd] in *. subst bt. cbn [incr]. msteps.
  assert (Hpw : within p buf) by (by eapply within_token).
  destruct (parse_http_version b3) as [vb| |] eqn:Hv; msteps; [|split; [done|split; [done|split; [done|cbn; lia]]]..].
  pose proof (parse_http_version_ok b3 []) as Hok. rewrite Hv in Hok. destruct Hok as [_ Hs5].
  destruct (end_of_line vb.2) as [b4| |] eqn:He; msteps; [|split; [done|split; [done|split; [done|cbn; lia]]]..].
  pose proof (end_of_line_ok vb.2 [] (parse_http_version_head _ _ Hv)) as Hok. rewrite He in Hok. destruct Hok as [_ Hs6].
  destruct (parse_headers_in buf max Hb b4 []) as [H1 H2]; [|done|].
  { trans vb.2; [done|]. trans b3; [done|]. trans (SP :: b3); [done|]. by trans b'. }
  unfold on_headers. cbn [headers set_minor set_path set_method no_request]. destruct (parse_headers max b4 []) as [r hs].
  by split.
Qed.

Lemma phr_request_eq buf max : phr_parse_request buf max 0 = returned buf (parse_request max buf no_request).
Proof. done. Qed.

Lemma request_prefixes q body max : bytes_ok (print_request q ++ body) -> request_ok q -> (length (headers q) <= max)%nat ->
  phr_parse_request (print_request q ++ body) max 0 = Some (Z.of_nat (length (print_request q)), q) /\
  forall buf rest, buf ++ rest = print_request q -> rest <> [] ->
    exists q', phr_parse_request buf max 0 = Some (-2, q') /\ more_request q' q.
Proof.
  intros Hb Hq Hl. pose proof (parse_request_print q body max Hb Hq Hl) as Hp. split.
  - rewrite phr_request_eq, Hp. cbn. rewrite length_app. do 2 f_equal. lia.
  - intros buf rest Hbuf Hrest. rewrite <- Hbuf, <- app_assoc in Hb, Hp.
    destruct (parse_request_ok max buf (rest ++ body) no_request Hb eq_refl) as [Hok _]. unfold steps_ok in Hok. rewrite Hp in Hok.
    rewrite phr_request_eq. destruct (parse_request max buf no_request) as [[b|z|] q']; cbn [fst snd] in Hok.
    + destruct Hok as [[= He _] _]. apply (f_equal length) in He. rewrite !length_app in He.
      destruct rest; [done|]. cbn in He. lia.
    + destruct Hok as [[-> Hm]|[_ [=]]]. by exists q'.
    + by destruct Hok as [_ [=]].
Qed.

(** C34: Parsing what was printed: a well-formed request followed by anything gives back its
    method, path, version and headers, continuing lines included, and consumes exactly
    the request; and every proper prefix of it is incomplete, with no header that the
    request does not have. *)
Theorem http_request_roundtrip q body max : bytes_ok (print_request q ++ body) -> request_ok q -> (length (headers q) <= max)%nat ->
  phr_parse_request (print_request q ++ body) max 0 = Some (Z.of_nat (length (print_request q)), q) /\
  forall buf rest, buf ++ rest = print_request q -> rest <> [] ->
    exists q', phr_parse_request buf max 0 = Some (-2, q') /\ more_request q' q.
Proof. apply request_prefixes. Qed.

(** C35: Called from the start of a request ([last_len] 0), the parser reads no byte outside of its buffer, whatever the
    bytes, its loads of 16 bytes included: unless it meets
    a run of ten digits, which may overflow the version number ([minor_version_overflow]), it returns, and then it
    has failed or needs more or has consumed some of the buffer; what it reports lies
    within the buffer and is of no more headers than there is room for; and once it has
    succeeded or failed, no bytes that arrive later change its answer. *)
Theorem http_request_safe buf max : bytes_ok buf -> ~ overflows buf ->
  exists r q, phr_parse_request buf max 0 = Some (r, q) /\
    (r = -1 \/ r = -2 \/ 0 < r <= Z.of_nat (length buf)) /\ request_in max buf q /\
    forall ext, bytes_ok ext -> (r <> -2 -> phr_parse_request (buf ++ ext) max 0 = Some (r, q)) /\
      forall r' q', phr_parse_request (buf ++ ext) max 0 = Some (r', q') -> more_request q q'.
Proof.
  intros Hb Hov. pose proof (parse_request_in max buf Hb) as Hin. rewrite phr_request_eq.
  destruct (parse_request_ok max buf [] no_request ltac:(by rewrite app_nil_r) eq_refl) as [Hok0 Hlen].
  assert (Hext : forall ext, bytes_ok ext -> steps_ok more_request buf ext (parse_request max buf no_request) (parse_request max (buf ++ ext) no_request)).
  { intros ext He. apply parse_request_ok; [|done]. by apply bytes_ok_app. }
  destruct (parse_request max buf no_request) as [[b|z|] q]; cbn [fst snd] in *; [exists (Z.of_nat (length buf) - Z.of_nat (length b)), q|exists z, q|].
  - split; [done|]. specialize (Hlen b eq_refl). split; [right; right; lia|]. split; [done|].
    intros ext He. specialize (Hext ext He). destruct Hext as [Hp _]. rewrite phr_request_eq, Hp. cbn [returned snd].
    split; [|intros r' q' [= _ ->]; split; [done|by right]]. intros _. rewrite !length_app. do 2 f_equal. lia.
  - assert (z = -1 \/ z = -2) as Hz by (destruct Hok0 as [[? _]|[? _]]; tauto). split; [done|].
    split; [destruct Hz; tauto|]. split; [done|]. intros ext He. specialize (Hext ext He). destruct Hext as [[-> Hm]|[-> Hp]].
    + split; [done|]. intros r' q' Hr. rewrite phr_request_eq in Hr. destruct (parse_request max (buf ++ ext) no_request) as [[b|z|] q2]; 
        cbn in Hr, Hm; [by injection Hr as _ <-|by injection Hr as _ <-|done].
    + rewrite phr_request_eq, Hp. split; [done|]. intros r' q' [= _ ->]. split; [done|by right].
  - by destruct Hok0.
Qed.

(** ** A request *)
Definition bytes_of (s : string) : bytes := map (fun a => Z.of_N (Ascii.N_of_ascii a)) (String.list_ascii_of_string s).
Definition ex_request : Request := MkRequest (bytes_of "GET") (bytes_of "/index.html?q=a-long-query") 1
  [(Some (bytes_of "Host"), bytes_of "example.com"); (Some (bytes_of "X-Long"), bytes_of "one"); (None, bytes_of " two")].

Ltac by_compute := unfold token_ok, value_ok, bytes_ok, in_word; refine (bool_decide_unpack _ _); vm_compute; exact I.
Lemma ex_request_ok : request_ok ex_request.
Proof.
  split; [by_compute|by_compute|cbn; lia|]. split; [|split; [|split; [|done]]]; (split; [by_compute|]); cbn [fst snd].
  - split; [done|split; by_compute].
  - split; [done|split; by_compute].
  - split; [done|]. exists SP, (bytes_of "two"). by split.
Qed.

Lemma http_request_roundtrip_witness :
  phr_parse_request (print_request ex_request ++ bytes_of "body") 16 0 = Some (81, ex_request) /\
  exists q', phr_parse_request (take 50 (print_request ex_request)) 16 0 = Some (-2, q') /\ more_request q' ex_request.
Proof.
  assert (Hb : bytes_ok (print_request ex_request ++ bytes_of "body")) by by_compute.
  destruct (http_request_roundtrip ex_request (bytes_of "body") 16 Hb ex_request_ok ltac:(cbn; lia)) as [H1 H2].
  split; [exact H1|]. apply (H2 _ (drop 50 (print_request ex_request))); [apply take_drop|by vm_compute].
Defined.

(** Nothing of ten digits in a row, whatever else is in the bytes. *)
Lemma http_request_safe_witness : exists r q, phr_parse_request (bytes_of "GET / HTTP/1.1 Host") 16 0 = Some (r, q) /\ r = -1.
Proof.
  destruct (http_request_safe (bytes_of "GET / HTTP/1.1 Host") 16 ltac:(by_compute)) as (r & q & Hr & _).
  - intros (a & d & c & He & Hd & Hl). apply (f_equal (filter (fun c => is_digit c = true))) in He.
    apply (f_equal length) in He. rewrite !filter_app, !length_app in He.
    assert (length (filter (fun c => is_digit c = true) d) = length d) as Hfd.
    { clear -Hd. induction Hd as [|x l Hx _ IH]; [done|]. rewrite filter_cons_True by done. cbn. by f_equal. }
    assert (length (filter (fun c => is_digit c = true) (bytes_of "GET / HTTP/1.1 Host")) = 2%nat) as H2 by (vm_compute; reflexivity).
    lia.
  - exists r, q. split; [exact Hr|]. vm_compute in Hr. by injection Hr as <- _.
Defined.

(** The version number overflows an [int]. *)
Lemma minor_version_overflow : phr_parse_request (bytes_of "GET / HTTP/1.2147483648 ") 16 0 = None.
Proof. vm_compute. reflexivity. Qed.
