(* ===== verification/ChunkedDecoder.v ===== *)
(** The decoder of chunked transfer coding: [phr_decode_chunked] of [core/utils/http_parser.cc].

    The decoder rewrites a buffer in place, keeps its state between calls, and jumps between the parts of
    a state machine; each part is a function here that goes on with the next one where the code falls
    through.  It is refined by an automaton that reads a byte at a time ([feed]). *)
From S2P Require Import Prelude Bits.
Open Scope Z_scope.

Definition LF : Z := 10.
Definition CR : Z := 13.

Inductive chunk_state :=
  | CHUNKED_IN_CHUNK_SIZE
  | CHUNKED_IN_CHUNK_EXT
  | CHUNKED_IN_CHUNK_DATA
  | CHUNKED_IN_CHUNK_CRLF
  | CHUNKED_IN_TRAILERS_LINE_HEAD
  | CHUNKED_IN_TRAILERS_LINE_MIDDLE.
#[export] Instance chunk_state_dec : EqDecision chunk_state.
Proof. solve_decision. Defined.

Record phr_chunked_decoder := MkDecoder {
  bytes_left_in_chunk : Z;
  consume_trailer : bool;
  hex_count : Z;
  state : chunk_state }.
Definition with_state (d : phr_chunked_decoder) (s : chunk_state) : phr_chunked_decoder :=
  MkDecoder (bytes_left_in_chunk d) (consume_trailer d) (hex_count d) s.
Definition with_left (d : phr_chunked_decoder) (n : Z) : phr_chunked_decoder :=
  MkDecoder n (consume_trailer d) (hex_count d) (state d).
Definition with_hex_count (d : phr_chunked_decoder) (n : Z) : phr_chunked_decoder :=
  MkDecoder (bytes_left_in_chunk d) (consume_trailer d) n (state d).

Definition decode_hex (ch : Z) : Z :=
  if (48 <=? ch) && (ch <=? 57) then ch - 48
  else if (65 <=? ch) && (ch <=? 70) then ch - 65 + 10
  else if (97 <=? ch) && (ch <=? 102) then ch - 97 + 10
  else -1.

(** The decoder, the buffer, [src] and [dst]. *)
Record machine := MkMachine { dec : phr_chunked_decoder; buf : bytes; src : nat; dst : nat }.
Definition at_src (m : machine) (s : nat) : machine := MkMachine (dec m) (buf m) s (dst m).
Definition with_dec (m : machine) (d : phr_chunked_decoder) : machine := MkMachine d (buf m) (src m) (dst m).

(** Where control goes: to [Exit] with a return value, to [Complete], or round the loop again. *)
Inductive jump := Exit (ret : Z) | Complete | Again.

(** [for (;; ++src)]: until the end of the buffer, or a byte at which [stop] holds. *)
Fixpoint scan (fuel : nat) (stop : Z -> bool) (buf : bytes) (src : nat) : option (nat * option Z) :=
  match fuel with
  | O => None
  | S fuel =>
      if (src =? length buf)%nat then Some (src, None)
      else c ← buf !! src; if stop c then Some (src, Some c) else scan fuel stop buf (S src)
  end.
Definition scan_from (stop : Z -> bool) (m : machine) : option (nat * option Z) :=
  scan (S (length (buf m))) stop (buf m) (src m).

(** [memmove(buf + dst, buf + src, n)], if [dst != src]: undefined unless both places are in the buffer *)
Definition move (m : machine) (n : nat) : option bytes :=
  if (dst m =? src m)%nat then Some (buf m)
  else if ((src m + n <=? length (buf m)) && (dst m + n <=? length (buf m)))%nat
  then Some (write (dst m) (take n (drop (src m) (buf m))) (buf m))
  else None.

Definition chunk_crlf (m : machine) : option (machine * jump) :=
  '(s, c) ← scan_from (fun c => negb (c =? CR)) m;
  match c with
  | None => Some (at_src m s, Exit (-2))
  | Some c =>
      if negb (c =? LF) then Some (at_src m s, Exit (-1))
      else Some (with_dec (at_src m (S s)) (with_state (dec m) CHUNKED_IN_CHUNK_SIZE), Again)
  end.
Definition chunk_data (m : machine) : option (machine * jump) :=
  let avail := (length (buf m) - src m)%nat in
  if Z.of_nat avail <? bytes_left_in_chunk (dec m) then
    moved ← move m avail;
    Some (MkMachine (with_left (dec m) (u64 (bytes_left_in_chunk (dec m) - Z.of_nat avail))) moved
            (src m + avail) (dst m + avail), Exit (-2))
  else
    let n := Z.to_nat (bytes_left_in_chunk (dec m)) in
    moved ← move m n;
    chunk_crlf (MkMachine (with_state (with_left (dec m) 0) CHUNKED_IN_CHUNK_CRLF) moved (src m + n) (dst m + n)).
Definition chunk_ext (m : machine) : option (machine * jump) :=
  '(s, c) ← scan_from (fun c => c =? LF) m;
  match c with
  | None => Some (at_src m s, Exit (-2))
  | Some _ =>
      let m := at_src m (S s) in
      if bytes_left_in_chunk (dec m) =? 0 then
        if consume_trailer (dec m) then Some (with_dec m (with_state (dec m) CHUNKED_IN_TRAILERS_LINE_HEAD), Again)
        else Some (m, Complete)
      else chunk_data (with_dec m (with_state (dec m) CHUNKED_IN_CHUNK_DATA))
  end.
Fixpoint chunk_size (fuel : nat) (m : machine) : option (machine * jump) :=
  match fuel with
  | O => None
  | S fuel =>
      let d := dec m in
      if (src m =? length (buf m))%nat then Some (m, Exit (-2))
      else
        c ← buf m !! src m;
        let v := decode_hex c in
        if v =? -1 then
          if hex_count d =? 0 then Some (m, Exit (-1))
          else chunk_ext (with_dec m (with_state (with_hex_count d 0) CHUNKED_IN_CHUNK_EXT))
        else if hex_count d =? 16 then Some (m, Exit (-1))
        else chunk_size fuel (with_dec (at_src m (S (src m)))
               (with_hex_count (with_left d (u64 (bytes_left_in_chunk d * 16 + v))) (hex_count d + 1)))
  end.
Definition trailers_middle (m : machine) : option (machine * jump) :=
  '(s, c) ← scan_from (fun c => c =? LF) m;
  match c with
  | None => Some (at_src m s, Exit (-2))
  | Some _ => Some (with_dec (at_src m (S s)) (with_state (dec m) CHUNKED_IN_TRAILERS_LINE_HEAD), Again)
  end.
Definition trailers_head (m : machine) : option (machine * jump) :=
  '(s, c) ← scan_from (fun c => negb (c =? CR)) m;
  match c with
  | None => Some (at_src m s, Exit (-2))
  | Some c =>
      let m := at_src m (S s) in
      if c =? LF then Some (m, Complete) else trailers_middle (with_dec m (with_state (dec m) CHUNKED_IN_TRAILERS_LINE_MIDDLE))
  end.

Definition dispatch (m : machine) : option (machine * jump) :=
  match state (dec m) with
  | CHUNKED_IN_CHUNK_SIZE => chunk_size (S (length (buf m))) m
  | CHUNKED_IN_CHUNK_EXT => chunk_ext m
  | CHUNKED_IN_CHUNK_DATA => chunk_data m
  | CHUNKED_IN_CHUNK_CRLF => chunk_crlf m
  | CHUNKED_IN_TRAILERS_LINE_HEAD => trailers_head m
  | CHUNKED_IN_TRAILERS_LINE_MIDDLE => trailers_middle m
  end.
Fixpoint decode_loop (fuel : nat) (m : machine) : option (machine * Z) :=
  match fuel with
  | O => None
  | S fuel =>
      '(m, j) ← dispatch m;
      match j with
      | Again => decode_loop fuel m
      | Exit ret => Some (m, ret)
      | Complete => Some (m, Z.of_nat (length (buf m) - src m))
      end
  end.

(** The decoder, the buffer, [*_bufsz] and what is returned. *)
Definition phr_decode_chunked (d : phr_chunked_decoder) (b : bytes) : option (phr_chunked_decoder * bytes * nat * Z) :=
  '(m, ret) ← decode_loop (S (S (length b))) (MkMachine d b 0 0);
  moved ← move m (length b - src m);
  Some (dec m, moved, dst m, ret).

Definition phr_decode_chunked_is_in_data (d : phr_chunked_decoder) : bool := bool_decide (state d = CHUNKED_IN_CHUNK_DATA).

(** ** The automaton *)
Inductive action := Go (d : phr_chunked_decoder) (out : bytes) | Fail | Finish (d : phr_chunked_decoder).

Definition step_ext (d : phr_chunked_decoder) (c : Z) : action :=
  if c =? LF then
    if bytes_left_in_chunk d =? 0 then
      if consume_trailer d then Go (with_state d CHUNKED_IN_TRAILERS_LINE_HEAD) [] else Finish d
    else Go (with_state d CHUNKED_IN_CHUNK_DATA) []
  else Go d [].
Definition step_byte (d : phr_chunked_decoder) (c : Z) : action :=
  match state d with
  | CHUNKED_IN_CHUNK_SIZE =>
      let v := decode_hex c in
      if v =? -1 then if hex_count d =? 0 then Fail else step_ext (with_state (with_hex_count d 0) CHUNKED_IN_CHUNK_EXT) c
      else if hex_count d =? 16 then Fail
      else Go (with_hex_count (with_left d (bytes_left_in_chunk d * 16 + v)) (hex_count d + 1)) []
  | CHUNKED_IN_CHUNK_EXT => step_ext d c
  | CHUNKED_IN_CHUNK_DATA =>
      let d := with_left d (bytes_left_in_chunk d - 1) in
      Go (if bytes_left_in_chunk d =? 0 then with_state d CHUNKED_IN_CHUNK_CRLF else d) [c]
  | CHUNKED_IN_CHUNK_CRLF =>
      if c =? CR then Go d [] else if c =? LF then Go (with_state d CHUNKED_IN_CHUNK_SIZE) [] else Fail
  | CHUNKED_IN_TRAILERS_LINE_HEAD =>
      if c =? CR then Go d [] else if c =? LF then Finish d else Go (with_state d CHUNKED_IN_TRAILERS_LINE_MIDDLE) []
  | CHUNKED_IN_TRAILERS_LINE_MIDDLE => if c =? LF then Go (with_state d CHUNKED_IN_TRAILERS_LINE_HEAD) [] else Go d []
  end.

(** How a run over some bytes ends: at their end, at a byte that is wrong, or after the last byte of the
    body; with what is left. *)
Inductive ending := More | Wrong (rest : bytes) | Finished (rest : bytes).
Fixpoint feed (d : phr_chunked_decoder) (l : bytes) : phr_chunked_decoder * bytes * ending :=
  match l with
  | [] => (d, [], More)
  | c :: rest =>
      match step_byte d c with
      | Go d out => let '(d, out', e) := feed d rest in (d, out ++ out', e)
      | Fail => (d, [], Wrong l)
      | Finish d => (d, [], Finished rest)
      end
  end.

(** ** The automaton over longer inputs *)
Definition prefix (out : bytes) (r : phr_chunked_decoder * bytes * ending) := (r.1.1, out ++ r.1.2, r.2).

Lemma feed_cons d c l : feed d (c :: l) =
  match step_byte d c with Go d out => prefix out (feed d l) | Fail => (d, [], Wrong (c :: l)) | Finish d => (d, [], Finished l) end.
Proof. cbn [feed]. destruct (step_byte d c); [|done|done]. unfold prefix. by destruct (feed d0 l) as [[??]?]. Qed.

Lemma prefix_nil r : prefix [] r = r.
Proof. by destruct r as [[??]?]. Qed.
Lemma prefix_app a b r : prefix a (prefix b r) = prefix (a ++ b) r.
Proof. unfold prefix. cbn. by rewrite app_assoc. Qed.

(** What arrives in two parts is decoded as in one. *)
Lemma feed_app d a b : feed d (a ++ b) =
  match feed d a with
  | (d', out, More) => prefix out (feed d' b)
  | (d', out, Wrong rest) => (d', out, Wrong (rest ++ b))
  | (d', out, Finished rest) => (d', out, Finished (rest ++ b))
  end.
Proof.
  revert d. induction a as [|c a IH]; intros d; [cbn [feed app]; by rewrite prefix_nil|]. rewrite <- app_comm_cons, !feed_cons.
  destruct (step_byte d c) as [d' out| |d']; [|done|done]. rewrite IH. destruct (feed d' a) as [[d2 o2] [|rest|rest]]; [|done|done].
  cbn [prefix fst snd]. by rewrite prefix_app.
Qed.

Lemma step_ext_goes d c : step_ext d c <> Fail.
Proof. unfold step_ext. by destruct (c =? LF), (bytes_left_in_chunk d =? 0), (consume_trailer d). Qed.

Lemma feed_skip d sk rest : Forall (fun c => step_byte d c = Go d []) sk -> feed d (sk ++ rest) = feed d rest.
Proof. induction 1 as [|c sk Hc _ IH]; [done|]. rewrite <- app_comm_cons, feed_cons, Hc. by rewrite prefix_nil. Qed.

Lemma feed_data d l : state d = CHUNKED_IN_CHUNK_DATA -> 0 < bytes_left_in_chunk d ->
  feed d l =
    if Z.of_nat (length l) <? bytes_left_in_chunk d then (with_left d (bytes_left_in_chunk d - Z.of_nat (length l)), l, More)
    else let n := Z.to_nat (bytes_left_in_chunk d) in
         prefix (take n l) (feed (with_state (with_left d 0) CHUNKED_IN_CHUNK_CRLF) (drop n l)).
Proof.
  revert d. induction l as [|c l IH]; intros d Hs Hl.
  { rewrite (proj2 (Z.ltb_lt _ _)) by (cbn; lia). cbn. rewrite Z.sub_0_r. by destruct d. }
  rewrite feed_cons. unfold step_byte. rewrite Hs. cbn zeta. cbn [with_left bytes_left_in_chunk length].
  destruct (Z.eqb_spec (bytes_left_in_chunk d - 1) 0) as [H0|H0].
  - rewrite (proj2 (Z.ltb_ge _ _)) by lia. replace (Z.to_nat (bytes_left_in_chunk d)) with 1%nat by lia. cbn [take drop]. rewrite take_0, drop_0.
    unfold with_state, with_left. cbn. by rewrite H0.
  - rewrite IH by (cbn; done || lia). cbn [with_left bytes_left_in_chunk].
    destruct (Z.ltb_spec (Z.of_nat (length l)) (bytes_left_in_chunk d - 1)), (Z.ltb_spec (Z.of_nat (S (length l))) (bytes_left_in_chunk d)); try lia.
    + unfold prefix, with_left. cbn [fst snd app bytes_left_in_chunk consume_trailer hex_count state].
      by replace (bytes_left_in_chunk d - 1 - Z.of_nat (length l)) with (bytes_left_in_chunk d - Z.of_nat (S (length l))) by lia.
    + replace (Z.to_nat (bytes_left_in_chunk d)) with (S (Z.to_nat (bytes_left_in_chunk d - 1))) by lia.
      cbn [take drop]. by rewrite prefix_app.
Qed.

(** ** Refinement *)

(** The states that occur: the digits of a size fit, a chunk has data left while it is read. *)
Definition decoder_ok (d : phr_chunked_decoder) : Prop :=
  match state d with
  | CHUNKED_IN_CHUNK_SIZE => 0 <= hex_count d <= 16 /\ 0 <= bytes_left_in_chunk d < 16 ^ hex_count d
  | CHUNKED_IN_CHUNK_EXT => hex_count d = 0 /\ 0 <= bytes_left_in_chunk d < 2 ^ 64
  | CHUNKED_IN_CHUNK_DATA => hex_count d = 0 /\ 0 < bytes_left_in_chunk d < 2 ^ 64
  | _ => hex_count d = 0 /\ bytes_left_in_chunk d = 0
  end.
Definition machine_ok (m : machine) : Prop := decoder_ok (dec m) /\ (dst m <= src m <= length (buf m))%nat.
Definition unread (m : machine) : bytes := drop (src m) (buf m).
Definition output (m : machine) : bytes := take (dst m) (buf m).

(** A part of the code does what the automaton does with the bytes that it reads. *)
Definition implements (m : machine) (r : option (machine * jump)) : Prop :=
  exists m' j out, r = Some (m', j) /\ machine_ok m' /\ length (buf m') = length (buf m) /\ output m' = output m ++ out /\ (src m <= src m')%nat /\
  match j with
  | Again => feed (dec m) (unread m) = prefix out (feed (dec m') (unread m')) /\ (src m < src m')%nat
  | Complete => feed (dec m) (unread m) = (dec m', out, Finished (unread m'))
  | Exit ret =>
      ret = -2 /\ feed (dec m) (unread m) = (dec m', out, More) /\ unread m' = [] \/
      ret = -1 /\ feed (dec m) (unread m) = (dec m', out, Wrong (unread m'))
  end.

(** Going on from a machine that has read and written some more. *)
Lemma implements_from m m1 out r : length (buf m1) = length (buf m) -> output m1 = output m ++ out -> (src m <= src m1)%nat ->
  feed (dec m) (unread m) = prefix out (feed (dec m1) (unread m1)) -> implements m1 r -> implements m r.
Proof.
  intros Hl Ho Hs Hf (m' & j & out' & Hr & Hok & Hl' & Ho' & Hs' & Hj). exists m', j, (out ++ out').
  split; [done|]. split; [done|]. split; [congruence|]. split; [by rewrite Ho', Ho, app_assoc|]. split; [lia|]. rewrite Hf. destruct j as [ret| |].
  - destruct Hj as [(-> & -> & Hu)|(-> & ->)]; [left|right]; cbn; auto.
  - by rewrite Hj.
  - destruct Hj as [-> ?]. split; [by rewrite prefix_app|lia].
Qed.

Lemma chunk_scan_spec stop b fuel s : (s <= length b)%nat -> (length b - s < fuel)%nat ->
  exists sk rest, drop s b = sk ++ rest /\ Forall (fun c => stop c = false) sk /\
    scan fuel stop b s = Some ((s + length sk)%nat, head rest) /\ match rest with [] => True | c :: _ => stop c = true end.
Proof.
  revert s. induction fuel as [|fuel IH]; intros s Hs Hf; [lia|]. cbn [scan].
  destruct (Nat.eqb_spec s (length b)) as [->|Hne].
  { exists [], []. rewrite drop_all. cbn. rewrite Nat.add_0_r. done. }
  destruct (lookup_lt_is_Some_2 b s) as [c Hc]; [lia|]. rewrite Hc. cbn [mbind option_bind]. rewrite (drop_S b c s Hc).
  destruct (stop c) eqn:Hst.
  - exists [], (c :: drop (S s) b). cbn. rewrite Nat.add_0_r. done.
  - destruct (IH (S s)) as (sk & rest & -> & Hsk & -> & Hr); [lia|lia|]. exists (c :: sk), rest. cbn. split; [done|].
    split; [by constructor|]. split; [do 2 f_equal; lia|done].
Qed.

(** The bytes up to the one that ends a loop. *)
Lemma scan_from_spec stop m : machine_ok m ->
  exists sk rest, unread m = sk ++ rest /\ Forall (fun c => stop c = false) sk /\
    scan_from stop m = Some ((src m + length sk)%nat, head rest) /\ match rest with [] => True | c :: _ => stop c = true end /\
    (src m + length sk + length rest = length (buf m))%nat /\
    unread (at_src m (src m + length sk)) = rest /\ unread (at_src m (S (src m + length sk))) = tail rest.
Proof.
  intros [_ Hb]. destruct (chunk_scan_spec stop (buf m) (S (length (buf m))) (src m)) as (sk & rest & Hd & Hsk & Hs & Hr); [lia|lia|].
  exists sk, rest. unfold unread in *. do 4 (split; [done|]). cbn [at_src buf src].
  assert (Hlen : length (sk ++ rest) = (length (buf m) - src m)%nat) by (rewrite <- Hd; apply length_drop).
  rewrite length_app in Hlen. split; [lia|]. rewrite <- drop_drop, Hd, drop_app_length. split; [done|].
  replace (S (src m + length sk)) with (src m + (length sk + 1))%nat by lia. rewrite <- drop_drop, Hd, drop_app_add' by done. by destruct rest.
Qed.

Lemma chunk_move_spec m n : (dst m <= src m)%nat -> (src m + n <= length (buf m))%nat ->
  exists moved, move m n = Some moved /\
  length moved = length (buf m) /\ drop (src m + n) moved = drop (src m + n) (buf m) /\
  take (dst m + n) moved = output m ++ take n (unread m).
Proof.
  intros Hd Hn. unfold move, output, unread. destruct (Nat.eqb_spec (dst m) (src m)) as [->|Hne].
  { eexists. do 3 (split; [done|]). symmetry. apply take_take_drop. }
  rewrite (proj2 (Nat.leb_le _ _)), (proj2 (Nat.leb_le (dst m + n) _)) by lia. cbn [andb]. eexists. split; [done|].
  assert (Hl : length (take n (drop (src m) (buf m))) = n) by (rewrite length_take, length_drop; lia).
  split; [apply length_write; lia|]. unfold write. rewrite Hl. split.
  - rewrite app_assoc, drop_app_ge by (rewrite length_app, length_take; lia).
    rewrite length_app, length_take, Hl, drop_drop. f_equal. lia.
  - rewrite app_assoc, take_app_le, take_ge by (rewrite length_app, length_take; lia). done.
Qed.

Lemma output_at_src m s : output (at_src m s) = output m.
Proof. done. Qed.
Lemma machine_ok_at m d s : machine_ok m -> decoder_ok d -> (src m <= s <= length (buf m))%nat -> machine_ok (with_dec (at_src m s) d).
Proof. intros [_ Hb] Hd Hs. split; [done|]. cbn. lia. Qed.

Lemma chunk_crlf_ok m : machine_ok m -> state (dec m) = CHUNKED_IN_CHUNK_CRLF -> implements m (chunk_crlf m).
Proof.
  intros Hm Hst. pose proof Hm as [Hd Hb]. unfold decoder_ok in Hd. rewrite Hst in Hd.
  destruct (scan_from_spec (fun c => negb (c =? CR)) m Hm) as (sk & rest & Hu & Hsk & Hs & Hr & Hlen & Hrest & Htail).
  unfold chunk_crlf. rewrite Hs. cbn [mbind option_bind].
  assert (Hf : feed (dec m) (unread m) = feed (dec m) rest).
  { rewrite Hu. apply feed_skip. eapply Forall_impl; [exact Hsk|]. intros c Hc%negb_false_iff. unfold step_byte. by rewrite Hst, Hc. }
  assert (Hok : forall s, (src m <= s <= length (buf m))%nat -> machine_ok (at_src m s)) by (intros s Hsr; split; [apply Hm|cbn; lia]).
  destruct rest as [|c rest]; cbn [head].
  - eexists _, _, []. split; [reflexivity|]. split; [apply Hok; lia|]. split; [done|]. rewrite app_nil_r. split; [done|]. split; [cbn; lia|].
    left. rewrite Hf, Hrest. done.
  - cbn [length] in Hlen. cbn [tail] in Htail. apply negb_true_iff in Hr.
    destruct (c =? LF) eqn:Hlf; cbn [negb].
    + eexists _, _, []. split; [reflexivity|]. split; [apply machine_ok_at; [done| |lia]|].
      { unfold decoder_ok. cbn. destruct Hd as [-> ->]. lia. }
      split; [done|]. rewrite app_nil_r. split; [done|]. split; [cbn; lia|]. split; [|cbn; lia].
      rewrite Hf, feed_cons. unfold step_byte. rewrite Hst, Hr, Hlf. by rewrite <- Htail.
    + eexists _, _, []. split; [reflexivity|]. split; [apply Hok; lia|]. split; [done|]. rewrite app_nil_r. split; [done|]. split; [cbn; lia|].
      right. split; [done|]. rewrite Hf, feed_cons. unfold step_byte. rewrite Hst, Hr, Hlf. by rewrite Hrest.
Qed.

Lemma chunk_data_ok m : machine_ok m -> state (dec m) = CHUNKED_IN_CHUNK_DATA -> implements m (chunk_data m).
Proof.
  intros Hm Hst. pose proof Hm as [Hd Hb]. unfold decoder_ok in Hd. rewrite Hst in Hd. destruct Hd as [Hh Hl].
  assert (Hlu : length (unread m) = (length (buf m) - src m)%nat) by apply length_drop.
  pose proof (feed_data (dec m) (unread m) Hst ltac:(lia)) as Hf. rewrite Hlu in Hf. unfold chunk_data.
  destruct (Z.ltb_spec (Z.of_nat (length (buf m) - src m)) (bytes_left_in_chunk (dec m))) as [Hlt|Hge].
  - set (avail := (length (buf m) - src m)%nat) in *. destruct (chunk_move_spec m avail) as (moved & Hmv & Hml & Hmd & Hmt); [lia|lia|].
    rewrite Hmv. cbn [mbind option_bind].
    eexists _, _, (unread m). split; [reflexivity|]. rewrite wrap_small by (unfold in_word; lia).
    split; [|split; [done|split; [|split; [cbn; lia|left]]]].
    + split; [|cbn; rewrite Hml; lia]. unfold decoder_ok. cbn. rewrite Hst. lia.
    + unfold output at 1. cbn [dst buf]. rewrite Hmt. f_equal. apply take_ge. lia.
    + split; [done|]. split; [exact Hf|]. unfold unread. cbn [src buf]. rewrite Hmd. apply drop_ge. lia.
  - set (n := Z.to_nat (bytes_left_in_chunk (dec m))) in *. cbn zeta. destruct (chunk_move_spec m n) as (moved & Hmv & Hml & Hmd & Hmt); [lia|lia|].
    rewrite Hmv. cbn [mbind option_bind].
    eapply implements_from with (m1 := MkMachine _ moved (src m + n) (dst m + n)) (out := take n (unread m)); [done|exact Hmt|cbn; lia| |].
    + rewrite Hf. unfold unread. cbn [dec src buf]. by rewrite Hmd, drop_drop.
    + apply chunk_crlf_ok; [|done]. split; [|cbn; rewrite Hml; lia]. unfold decoder_ok. cbn. done.
Qed.

(** A loop that skips to a byte: the automaton skips, too. *)
Lemma scan_skip stop m : machine_ok m -> (forall c, stop c = false -> step_byte (dec m) c = Go (dec m) []) ->
  exists s c, scan_from stop m = Some (s, c) /\ (src m <= s <= length (buf m))%nat /\
    feed (dec m) (unread m) = feed (dec m) (unread (at_src m s)) /\
    match c with
    | None => unread (at_src m s) = []
    | Some c => stop c = true /\ (s < length (buf m))%nat /\ unread (at_src m s) = c :: unread (at_src m (S s))
    end.
Proof.
  intros Hm Hstep. destruct (scan_from_spec stop m Hm) as (sk & rest & Hu & Hsk & Hs & Hr & Hlen & Hrest & Htail).
  exists (src m + length sk)%nat, (head rest). split; [done|]. split; [lia|]. split.
  - rewrite Hrest, Hu. apply feed_skip. eapply Forall_impl; [exact Hsk|]. auto.
  - rewrite Hrest, Htail. destruct rest as [|c rest]; [done|]. cbn [head tail length] in *. split; [done|]. split; [lia|done].
Qed.

(** The parts that end at the end of the buffer. *)
Lemma implements_end m s : machine_ok m -> (src m <= s <= length (buf m))%nat ->
  feed (dec m) (unread m) = feed (dec m) (unread (at_src m s)) -> unread (at_src m s) = [] ->
  implements m (Some (at_src m s, Exit (-2))).
Proof.
  intros Hm Hs Hf Hu. eexists _, _, []. split; [reflexivity|]. split; [split; [apply Hm|]; destruct Hm as [_ ?]; cbn; lia|].
  split; [done|]. rewrite app_nil_r. split; [done|]. split; [cbn; lia|]. left. split; [done|]. split; [|done]. by rewrite Hf, Hu.
Qed.

Lemma chunk_ext_ok m : machine_ok m -> state (dec m) = CHUNKED_IN_CHUNK_EXT -> implements m (chunk_ext m).
Proof.
  intros Hm Hst. pose proof Hm as [Hd Hb]. unfold decoder_ok in Hd. rewrite Hst in Hd. destruct Hd as [Hh Hl].
  destruct (scan_skip (fun c => c =? LF) m Hm) as (s & c & Hs & Hsb & Hf & Hc).
  { intros c Hc. unfold step_byte, step_ext. by rewrite Hst, Hc. }
  unfold chunk_ext. rewrite Hs. cbn [mbind option_bind]. destruct c as [c|]; [|by apply implements_end].
  destruct Hc as (Hlf & Hlt & Hu). rewrite Hu, feed_cons in Hf. unfold step_byte, step_ext in Hf. rewrite Hst, Hlf in Hf.
  cbn [at_src dec]. destruct (Z.eqb_spec (bytes_left_in_chunk (dec m)) 0) as [H0|H0].
  - destruct (consume_trailer (dec m)) eqn:Htr; rewrite ?Htr in Hf.
    + eexists _, _, []. split; [reflexivity|]. split; [apply (machine_ok_at m _ (S s)); [done| |lia]; unfold decoder_ok; cbn; done|].
      split; [done|]. rewrite app_nil_r. split; [done|]. split; [cbn; lia|]. split; [exact Hf|cbn; lia].
    + eexists _, _, []. split; [reflexivity|]. split; [split; [apply Hm|cbn; lia]|].
      split; [done|]. rewrite app_nil_r. split; [done|]. split; [cbn; lia|]. exact Hf.
  - eapply implements_from with (m1 := with_dec (at_src m (S s)) _) (out := []); [done|by rewrite app_nil_r|cbn; lia|exact Hf|].
    apply chunk_data_ok; [|done]. apply machine_ok_at; [done| |lia]. unfold decoder_ok. cbn. lia.
Qed.

Lemma decode_hex_range c : decode_hex c = -1 \/ 0 <= decode_hex c < 16.
Proof.
  unfold decode_hex. destruct (Z.leb_spec 48 c), (Z.leb_spec c 57); cbn [andb]; try lia;
    destruct (Z.leb_spec 65 c), (Z.leb_spec c 70); cbn [andb]; try lia;
    destruct (Z.leb_spec 97 c), (Z.leb_spec c 102); cbn [andb]; lia.
Qed.

Lemma chunk_size_ok fuel m : machine_ok m -> state (dec m) = CHUNKED_IN_CHUNK_SIZE -> (length (buf m) - src m < fuel)%nat ->
  implements m (chunk_size fuel m).
Proof.
  revert m. induction fuel as [|fuel IH]; intros m Hm Hst Hfuel; [lia|]. pose proof Hm as [Hd Hb]. unfold decoder_ok in Hd. rewrite Hst in Hd.
  destruct Hd as [Hh Hl]. cbn [chunk_size].
  destruct (Nat.eqb_spec (src m) (length (buf m))) as [He|Hne].
  { assert (at_src m (src m) = m) as Hsame by (by destruct m). rewrite <- Hsame at 2. apply implements_end; [done|lia|by rewrite Hsame|].
    rewrite Hsame. unfold unread. apply drop_ge. lia. }
  destruct (lookup_lt_is_Some_2 (buf m) (src m)) as [c Hc]; [lia|]. rewrite Hc. cbn [mbind option_bind].
  assert (Hu : unread m = c :: unread (at_src m (S (src m)))) by (by apply drop_S).
  assert (Hf : feed (dec m) (unread m) = feed (dec m) (c :: unread (at_src m (S (src m))))) by (by rewrite Hu).
  rewrite feed_cons in Hf. unfold step_byte in Hf. rewrite Hst in Hf. cbn zeta in Hf.
  assert (Hfail : feed (dec m) (unread m) = (dec m, [], Wrong (unread m)) -> implements m (Some (m, Exit (-1)))).
  { intros Hw. eexists _, _, []. split; [reflexivity|]. split; [done|]. split; [done|]. rewrite app_nil_r. split; [done|]. split; [done|]. by right. }
  destruct (Z.eqb_spec (decode_hex c) (-1)) as [Hx|Hx].
  - destruct (Z.eqb_spec (hex_count (dec m)) 0) as [H0|H0]; [apply Hfail; by rewrite Hf, Hu|].
    set (d1 := with_state (with_hex_count (dec m) 0) CHUNKED_IN_CHUNK_EXT) in *.
    eapply implements_from with (m1 := with_dec m d1) (out := []); [done|by rewrite app_nil_r|done| |].
    + rewrite prefix_nil, Hf. change (unread (with_dec m d1)) with (unread m). cbn [with_dec dec]. rewrite Hu, feed_cons.
      change (step_byte d1 c) with (step_ext d1 c). pose proof (step_ext_goes d1 c). by destruct (step_ext d1 c).
    + apply chunk_ext_ok; [|done]. split; [|done]. unfold decoder_ok. cbn.
      assert (16 ^ hex_count (dec m) <= 16 ^ 16) by (apply Z.pow_le_mono_r; lia). lia.
  - destruct (Z.eqb_spec (hex_count (dec m)) 16) as [H16|H16]; [apply Hfail; by rewrite Hf, Hu|].
    destruct (decode_hex_range c) as [|Hr]; [done|].
    assert (Hpow : 16 ^ (hex_count (dec m) + 1) = 16 ^ hex_count (dec m) * 16) by (rewrite Z.pow_add_r by lia; lia).
    assert (16 ^ (hex_count (dec m) + 1) <= 16 ^ 16) by (apply Z.pow_le_mono_r; lia).
    rewrite wrap_small by (unfold in_word; lia). rewrite prefix_nil in Hf.
    eapply implements_from with (m1 := with_dec (at_src m (S (src m))) _) (out := []); [done|by rewrite app_nil_r|cbn; lia|rewrite prefix_nil; exact Hf|].
    apply IH; [|done|cbn; lia]. apply machine_ok_at; [done| |lia]. unfold decoder_ok. cbn. rewrite Hst. lia.
Qed.

Lemma trailers_middle_ok m : machine_ok m -> state (dec m) = CHUNKED_IN_TRAILERS_LINE_MIDDLE -> implements m (trailers_middle m).
Proof.
  intros Hm Hst. pose proof Hm as [Hd Hb]. unfold decoder_ok in Hd. rewrite Hst in Hd.
  destruct (scan_skip (fun c => c =? LF) m Hm) as (s & c & Hs & Hsb & Hf & Hc).
  { intros c Hc. unfold step_byte. by rewrite Hst, Hc. }
  unfold trailers_middle. rewrite Hs. cbn [mbind option_bind]. destruct c as [c|]; [|by apply implements_end].
  destruct Hc as (Hlf & Hlt & Hu). rewrite Hu, feed_cons in Hf. unfold step_byte in Hf. rewrite Hst, Hlf in Hf.
  eexists _, _, []. split; [reflexivity|]. split; [apply (machine_ok_at m _ (S s)); [done|exact Hd|lia]|].
  split; [done|]. rewrite app_nil_r. split; [done|]. split; [cbn; lia|]. split; [exact Hf|cbn; lia].
Qed.

Lemma trailers_head_ok m : machine_ok m -> state (dec m) = CHUNKED_IN_TRAILERS_LINE_HEAD -> implements m (trailers_head m).
Proof.
  intros Hm Hst. pose proof Hm as [Hd Hb]. unfold decoder_ok in Hd. rewrite Hst in Hd.
  destruct (scan_skip (fun c => negb (c =? CR)) m Hm) as (s & c & Hs & Hsb & Hf & Hc).
  { intros c Hc%negb_false_iff. unfold step_byte. by rewrite Hst, Hc. }
  unfold trailers_head. rewrite Hs. cbn [mbind option_bind]. destruct c as [c|]; [|by apply implements_end].
  destruct Hc as (Hcr%negb_true_iff & Hlt & Hu). rewrite Hu, feed_cons in Hf. unfold step_byte in Hf. rewrite Hst, Hcr in Hf.
  destruct (c =? LF) eqn:Hlf; rewrite ?Hlf in Hf.
  - eexists _, _, []. split; [reflexivity|]. split; [split; [apply Hm|cbn; lia]|].
    split; [done|]. rewrite app_nil_r. split; [done|]. split; [cbn; lia|]. exact Hf.
  - eapply implements_from with (m1 := with_dec (at_src m (S s)) _) (out := []); [done|by rewrite app_nil_r|cbn; lia|exact Hf|].
    apply trailers_middle_ok; [|done]. apply machine_ok_at; [done|exact Hd|lia].
Qed.

Lemma dispatch_ok m : machine_ok m -> implements m (dispatch m).
Proof.
  intros Hm. unfold dispatch. destruct (state (dec m)) eqn:Hst; [apply chunk_size_ok; [done..|lia]| | | | |].
  - by apply chunk_ext_ok.
  - by apply chunk_data_ok.
  - by apply chunk_crlf_ok.
  - by apply trailers_head_ok.
  - by apply trailers_middle_ok.
Qed.

Definition return_of (e : ending) : Z :=
  match e with More => -2 | Wrong _ => -1 | Finished rest => Z.of_nat (length rest) end.
Definition rest_of (e : ending) : bytes := match e with More => [] | Wrong rest | Finished rest => rest end.

Lemma decode_loop_spec fuel m : machine_ok m -> (length (buf m) - src m < fuel)%nat ->
  exists m' out e, decode_loop fuel m = Some (m', return_of e) /\ machine_ok m' /\ length (buf m') = length (buf m) /\
    output m' = output m ++ out /\ feed (dec m) (unread m) = (dec m', out, e) /\ unread m' = rest_of e.
Proof.
  revert m. induction fuel as [|fuel IH]; intros m Hm Hf; [lia|]. cbn [decode_loop].
  destruct (dispatch_ok m Hm) as (m' & j & out & -> & Hm' & Hl & Ho & Hs & Hj). cbn [mbind option_bind]. destruct j as [ret| |].
  - destruct Hj as [(-> & Hfe & Hu)|(-> & Hfe)].
    + by exists m', out, More.
    + by exists m', out, (Wrong (unread m')).
  - exists m', out, (Finished (unread m')). split; [|done]. cbn [return_of]. unfold unread. by rewrite length_drop.
  - destruct Hj as [Hfe Hlt]. destruct (IH m' Hm') as (m2 & out2 & e & -> & Hm2 & Hl2 & Ho2 & Hf2 & Hu2); [destruct Hm'; lia|].
    exists m2, (out ++ out2), e. split; [done|]. split; [done|]. split; [congruence|]. split; [by rewrite Ho2, Ho, app_assoc|].
    split; [|done]. by rewrite Hfe, Hf2.
Qed.

(** The decoder against the automaton, for any decoder it leaves behind itself. *)
Lemma decode_feed d b : decoder_ok d ->
  exists d' out e b', feed d b = (d', out, e) /\ decoder_ok d' /\
    phr_decode_chunked d b = Some (d', b', length out, return_of e) /\ length b' = length b /\
    take (length out + length (rest_of e)) b' = out ++ rest_of e.
Proof.
  intros Hd. set (m0 := MkMachine d b 0 0).
  assert (Hm0 : machine_ok m0) by (split; [done|cbn; lia]).
  destruct (decode_loop_spec (S (S (length b))) m0 Hm0) as (m & out & e & Hdl & Hm & Hl & Ho & Hf & Hu); [cbn; lia|].
  unfold phr_decode_chunked. fold m0. rewrite Hdl. cbn [mbind option_bind]. change (unread m0) with (drop 0 b) in Hf. rewrite drop_0 in Hf.
  change (output m0) with (@nil Z) in Ho. cbn [app] in Ho. change (buf m0) with b in Hl. destruct Hm as [Hdm Hb].
  assert (Hlo : length out = dst m) by (rewrite <- Ho; unfold output; rewrite length_take; lia).
  assert (Hlr : length (rest_of e) = (length b - src m)%nat) by (rewrite <- Hu; unfold unread; rewrite length_drop; lia).
  destruct (chunk_move_spec m (length b - src m)) as (moved & Hmv & Hml & _ & Hmt); [lia|lia|].
  exists (dec m), out, e, moved. rewrite Hmv. split; [done|]. split; [done|]. split; [by rewrite Hlo|]. split; [congruence|].
  rewrite Hlo, Hlr, Hmt, Ho, <- Hu. f_equal. apply take_ge. unfold unread. rewrite length_drop. lia.
Qed.

(** ** Bodies that arrive in pieces *)
Definition new_decoder (consume_trailer : bool) : phr_chunked_decoder := MkDecoder 0 consume_trailer 0 CHUNKED_IN_CHUNK_SIZE.
Lemma new_decoder_ok t : decoder_ok (new_decoder t).
Proof. unfold decoder_ok. cbn. lia. Qed.

(** Calling the decoder as its comment says: again for each piece while it returns -2; the data so far. *)
Fixpoint decode_all (d : phr_chunked_decoder) (pieces : list bytes) : option (phr_chunked_decoder * bytes * Z) :=
  match pieces with
  | [] => Some (d, [], -2)
  | b :: pieces =>
      '(d, b, n, ret) ← phr_decode_chunked d b;
      if ret =? -2 then '(d, data, ret) ← decode_all d pieces; Some (d, take n b ++ data, ret)
      else Some (d, take n b, ret)
  end.

Lemma decode_all_feed pieces d : decoder_ok d ->
  exists d' out e ret, feed d (concat pieces) = (d', out, e) /\ decoder_ok d' /\ decode_all d pieces = Some (d', out, ret) /\
    match e with
    | More => ret = -2
    | Wrong _ => ret = -1
    | Finished rest => 0 <= ret <= Z.of_nat (length rest)
    end.
Proof.
  revert d. induction pieces as [|b pieces IH]; intros d Hd; cbn [decode_all concat].
  { exists d, [], More, (-2). done. }
  destruct (decode_feed d b Hd) as (d1 & o1 & e1 & b' & Hf1 & Hd1 & -> & Hl & Ht). cbn [mbind option_bind].
  assert (Hout : take (length o1) b' = o1).
  { apply (f_equal (take (length o1))) in Ht. rewrite take_take, take_app_length in Ht. rewrite Nat.min_l in Ht by lia. done. }
  rewrite feed_app, Hf1, Hout. destruct e1 as [|rest|rest]; cbn [return_of].
  - destruct (IH d1 Hd1) as (d2 & o2 & e & ret & Hf2 & Hd2 & -> & Hret). cbn [mbind option_bind]. change (-2 =? -2) with true.
    exists d2, (o1 ++ o2), e, ret. split; [by rewrite Hf2|done].
  - exists d1, o1, (Wrong (rest ++ concat pieces)), (-1). done.
  - rewrite (proj2 (Z.eqb_neq _ _)) by lia. exists d1, o1, (Finished (rest ++ concat pieces)), (Z.of_nat (length rest)).
    split; [done|]. split; [done|]. split; [done|]. rewrite length_app. lia.
Qed.

(** *** Encoded bodies *)
Definition hex_value (ds : bytes) : Z := foldl (fun v c => v * 16 + decode_hex c) 0 ds.
(** The digits and the extension of a size line, the line end included in the extension up to the LF. *)
Definition size_ok (ds ext : bytes) (n : Z) : Prop :=
  (1 <= length ds <= 16)%nat /\ Forall (fun c => decode_hex c <> -1) ds /\ hex_value ds = n /\
  Forall (fun c => c <> LF) ext /\ match ext with [] => True | c :: _ => decode_hex c = -1 end.
Record chunk := MkChunk { digits : bytes; extension : bytes; data : bytes; returns : nat }.
Definition chunk_ok (c : chunk) : Prop := data c <> [] /\ size_ok (digits c) (extension c) (Z.of_nat (length (data c))).
Definition encode_chunk (c : chunk) : bytes := digits c ++ extension c ++ [LF] ++ data c ++ replicate (returns c) CR ++ [LF].
(** A line of the trailer; an empty line ends it. *)
Definition line_ok (l : nat * Z * bytes) : Prop := l.1.2 <> CR /\ l.1.2 <> LF /\ Forall (fun c => c <> LF) l.2.
Definition encode_line (l : nat * Z * bytes) : bytes := replicate l.1.1 CR ++ [l.1.2] ++ l.2 ++ [LF].
Definition encode_trailer (lines : list (nat * Z * bytes)) (returns : nat) : bytes := concat (map encode_line lines) ++ replicate returns CR ++ [LF].

Definition size_state (t : bool) (v n : Z) : phr_chunked_decoder := MkDecoder v t n CHUNKED_IN_CHUNK_SIZE.
Definition line_state (t : bool) (v : Z) (s : chunk_state) : phr_chunked_decoder := MkDecoder v t 0 s.

Lemma feed_digits t ds v n l : Forall (fun c => decode_hex c <> -1) ds -> 0 <= n -> n + Z.of_nat (length ds) <= 16 ->
  feed (size_state t v n) (ds ++ l) = feed (size_state t (foldl (fun v c => v * 16 + decode_hex c) v ds) (n + Z.of_nat (length ds))) l.
Proof.
  intros Hds. revert v n. induction Hds as [|c ds Hc _ IH]; intros v n Hn Hl; cbn [length foldl app] in *.
  { by rewrite Z.add_0_r. }
  rewrite feed_cons. unfold step_byte. cbn [size_state state hex_count]. rewrite (proj2 (Z.eqb_neq _ _) Hc), (proj2 (Z.eqb_neq _ _)) by lia.
  rewrite prefix_nil. change (with_hex_count _ _) with (size_state t (v * 16 + decode_hex c) (n + 1)). rewrite IH by lia.
  do 2 f_equal. lia.
Qed.

Lemma feed_ext t ext v l : Forall (fun c => c <> LF) ext ->
  feed (line_state t v CHUNKED_IN_CHUNK_EXT) (ext ++ LF :: l) =
    if v =? 0 then if t then feed (line_state t v CHUNKED_IN_TRAILERS_LINE_HEAD) l else (line_state t v CHUNKED_IN_CHUNK_EXT, [], Finished l)
    else feed (line_state t v CHUNKED_IN_CHUNK_DATA) l.
Proof.
  intros He. rewrite feed_skip.
  - rewrite feed_cons. change (step_byte (line_state t v CHUNKED_IN_CHUNK_EXT) LF) with (step_ext (line_state t v CHUNKED_IN_CHUNK_EXT) LF).
    unfold step_ext. cbn [line_state bytes_left_in_chunk consume_trailer]. change (LF =? LF) with true. cbn match.
    destruct (v =? 0), t; rewrite ?prefix_nil; done.
  - eapply Forall_impl; [exact He|]. intros c Hc. cbn. unfold step_ext. by rewrite (proj2 (Z.eqb_neq _ _) Hc).
Qed.

(** A size line. *)
Lemma feed_size t ds ext n l : size_ok ds ext n ->
  feed (size_state t 0 0) (ds ++ ext ++ LF :: l) = feed (line_state t n CHUNKED_IN_CHUNK_EXT) (ext ++ LF :: l).
Proof.
  intros (Hlen & Hds & Hv & Hext & Hhd). rewrite feed_digits by (done || lia). fold (hex_value ds). rewrite Hv, Z.add_0_l.
  assert (Hx : exists c k, ext ++ LF :: l = c :: k /\ decode_hex c = -1) by (destruct ext as [|c k]; [by exists LF, l|by exists c, (k ++ LF :: l)]).
  destruct Hx as (c & k & -> & Hc). rewrite !feed_cons. unfold step_byte at 1. cbn [size_state state hex_count]. rewrite Hc. change (-1 =? -1) with true.
  rewrite (proj2 (Z.eqb_neq _ _)) by lia. change (with_state _ _) with (line_state t n CHUNKED_IN_CHUNK_EXT).
  change (step_byte (line_state t n CHUNKED_IN_CHUNK_EXT) c) with (step_ext (line_state t n CHUNKED_IN_CHUNK_EXT) c).
  pose proof (step_ext_goes (line_state t n CHUNKED_IN_CHUNK_EXT) c). by destruct (step_ext (line_state t n CHUNKED_IN_CHUNK_EXT) c).
Qed.

Lemma feed_returns t v s k l : s = CHUNKED_IN_CHUNK_CRLF \/ s = CHUNKED_IN_TRAILERS_LINE_HEAD ->
  feed (line_state t v s) (replicate k CR ++ l) = feed (line_state t v s) l.
Proof. intros Hs. apply feed_skip, Forall_replicate. by destruct Hs as [-> | ->]. Qed.

Lemma feed_chunk t c l : chunk_ok c -> feed (size_state t 0 0) (encode_chunk c ++ l) = prefix (data c) (feed (size_state t 0 0) l).
Proof.
  intros [Hne Hok]. unfold encode_chunk. rewrite <- !app_assoc. cbn [app]. rewrite (feed_size t _ _ _ _ Hok). rewrite feed_ext by apply Hok.
  assert (0 < length (data c))%nat by (destruct (data c); [done|cbn; lia]).
  rewrite (proj2 (Z.eqb_neq _ _)) by lia. rewrite feed_data by (cbn; done || lia). cbn [line_state bytes_left_in_chunk].
  rewrite (proj2 (Z.ltb_ge _ _)) by (rewrite length_app; lia). cbn zeta. rewrite Nat2Z.id, take_app_length, drop_app_length. f_equal.
  change (with_state _ _) with (line_state t 0 CHUNKED_IN_CHUNK_CRLF). rewrite feed_returns by by left. cbn [app]. rewrite feed_cons. cbn.
  by rewrite prefix_nil.
Qed.

Lemma feed_lines t lines k l : Forall line_ok lines ->
  feed (line_state t 0 CHUNKED_IN_TRAILERS_LINE_HEAD) (encode_trailer lines k ++ l) = (line_state t 0 CHUNKED_IN_TRAILERS_LINE_HEAD, [], Finished l).
Proof.
  unfold encode_trailer. induction 1 as [|[[r c] mid] lines (Hcr & Hlf & Hmid) _ IH]; cbn [map concat].
  - cbn [app]. rewrite <- app_assoc, feed_returns by by right. cbn [app]. rewrite feed_cons. done.
  - cbn [fst snd] in *. unfold encode_line. cbn [fst snd]. rewrite <- !app_assoc, feed_returns by by right. cbn [app].
    rewrite feed_cons. cbn [step_byte line_state state]. rewrite (proj2 (Z.eqb_neq _ _) Hcr), (proj2 (Z.eqb_neq _ _) Hlf), prefix_nil.
    rewrite feed_skip by (eapply Forall_impl; [exact Hmid|]; intros x Hx; cbn; by rewrite (proj2 (Z.eqb_neq _ _) Hx)).
    rewrite feed_cons. cbn [step_byte with_state state]. change (LF =? LF) with true. cbn match. rewrite prefix_nil.
    rewrite <- !app_assoc in IH. exact IH.
Qed.

(** ** Properties *)

(** C36: the decoder is an automaton that reads a byte at a time, however its input is cut up: called for
    one piece after the other it yields the same data and the same outcome as for all of them at once.
    A call never leaves the buffer, keeps the bytes after the body, moved to the end of the data, and says
    how many there are. *)
Theorem chunked_any_pieces d b pieces : decoder_ok d ->
  (exists d' out e b', feed d b = (d', out, e) /\ phr_decode_chunked d b = Some (d', b', length out, return_of e) /\
     decoder_ok d' /\ length b' = length b /\ take (length out + length (rest_of e)) b' = out ++ rest_of e) /\
  (exists d' out e ret, feed d (concat pieces) = (d', out, e) /\ decode_all d pieces = Some (d', out, ret) /\
     match e with
     | More => ret = -2
     | Wrong _ => ret = -1
     | Finished rest => 0 <= ret <= Z.of_nat (length rest)
     end).
Proof.
  intros Hd. split.
  - destruct (decode_feed d b Hd) as (d' & out & e & b' & ? & ? & ? & ? & ?). by exists d', out, e, b'.
  - destruct (decode_all_feed pieces d Hd) as (d' & out & e & ret & ? & _ & ? & ?). by exists d', out, e, ret.
Qed.

(** C37: a body in chunks, with extensions and trailers, is decoded to its data, in whatever pieces it
    arrives; what follows it is left. *)
Theorem chunked_roundtrip (t : bool) chunks ds ext lines k rest pieces : Forall chunk_ok chunks -> size_ok ds ext 0 -> Forall line_ok lines ->
  concat pieces = concat (map encode_chunk chunks) ++ ds ++ ext ++ [LF] ++ (if t then encode_trailer lines k else []) ++ rest ->
  exists d' ret, decode_all (new_decoder t) pieces = Some (d', concat (map data chunks), ret) /\ 0 <= ret <= Z.of_nat (length rest).
Proof.
  intros Hc Hs Hl Hp. destruct (decode_all_feed pieces (new_decoder t) (new_decoder_ok t)) as (d' & out & e & ret & Hf & _ & Hd & Hret).
  assert (Hfeed : exists d2 : phr_chunked_decoder, feed (new_decoder t) (concat pieces) = (d2, concat (map data chunks), Finished rest)).
  { rewrite Hp. clear Hp. induction Hc as [|c chunks Hc _ IH]; cbn [map concat].
    - change (new_decoder t) with (size_state t 0 0). cbn [app].
      rewrite (feed_size t _ _ _ _ Hs), feed_ext by apply Hs. cbn [Z.eqb]. destruct t; [|by exists (line_state false 0 CHUNKED_IN_CHUNK_EXT)].
      rewrite feed_lines by done. by exists (line_state true 0 CHUNKED_IN_TRAILERS_LINE_HEAD).
    - destruct IH as [d2 IH]. rewrite <- app_assoc. change (new_decoder t) with (size_state t 0 0) in *. rewrite feed_chunk, IH by done. by exists d2. }
  destruct Hfeed as [d2 Hfeed]. rewrite Hfeed in Hf. injection Hf as <- <- <-. by exists d2, ret.
Qed.

(** "5;x\r\nhello\r\n3\nabc\n0\r\nA: b\r\n\r\n" and a byte more, in pieces. *)
Definition ex_chunks : list chunk := [MkChunk [53] [59; 120; 13] [104; 101; 108; 108; 111] 1; MkChunk [51] [] [97; 98; 99] 0].
Definition ex_pieces : list bytes :=
  [[53; 59; 120]; [13; 10; 104; 101; 108]; [108; 111; 13]; [10; 51; 10; 97; 98; 99; 10; 48; 13; 10; 65; 58]; [32; 98; 13; 10; 13; 10; 7]].

Lemma chunked_any_pieces_witness :
  decode_all (new_decoder true) ex_pieces = Some (line_state true 0 CHUNKED_IN_TRAILERS_LINE_HEAD, [104; 101; 108; 108; 111; 97; 98; 99], 1) /\
  exists d' out e ret, feed (new_decoder true) (concat ex_pieces) = (d', out, e) /\ decode_all (new_decoder true) ex_pieces = Some (d', out, ret).
Proof.
  split; [vm_compute; reflexivity|].
  destruct (chunked_any_pieces (new_decoder true) [] ex_pieces (new_decoder_ok true)) as [_ (d' & out & e & ret & Hf & Hd & _)].
  exists d', out, e, ret. split; [exact Hf|exact Hd].
Defined.

Lemma chunked_roundtrip_witness :
  exists d' ret, decode_all (new_decoder true) ex_pieces = Some (d', [104; 101; 108; 108; 111; 97; 98; 99], ret) /\ 0 <= ret <= 1.
Proof.
  apply (chunked_roundtrip true ex_chunks [48] [13] [(0%nat, 65, [58; 32; 98; 13])] 1 [7] ex_pieces).
  - repeat constructor; cbn; (lia || done).
  - repeat constructor; cbn; (lia || done).
  - repeat constructor; cbn; (lia || done).
  - reflexivity.
Defined.
