(* ===== verification/UrlFilter.v ===== *)
(** The URL filter: [core/modules/url_filter.h] and [core/modules/url_filter.cc].

    The module keeps a trie of paths for each blacklisted host and a record for each TCP
    flow that it watches; it reassembles a flow, parses the request at its start and, when
    the URL is blacklisted, cuts the connection with packets of its own.  It composes
    Trie.v, TcpFlow.v, HttpParser.v and Checksum.v.  Packets are byte lists; a batch gives
    the packets emitted, each with its output gate, in order. *)
From stdpp Require Import strings.
From S2P Require Import Prelude Endian Checksum Trie Frame TcpFlow HttpParser.
Open Scope Z_scope.

(** ** State *)
Definition TIME_OUT_NS : Z := 10 * 1000 * 1000 * 1000.

(** Addresses and ports as they are in the packet. *)
Definition Flow : Type := (Z * Z * Z * Z)%type.
Record FlowRecord := MkFlowRecord { done_analyzing_ : bool; buffer_ : TcpFlowReconstruct; expiry_time_ : Z }.
Definition new_record : FlowRecord := MkFlowRecord false (new_flow 128) 0.
Definition SetAnalyzed (r : FlowRecord) : FlowRecord := MkFlowRecord true (buffer_ r) (expiry_time_ r).
Definition SetExpiryTime (r : FlowRecord) (time : Z) : FlowRecord := MkFlowRecord (done_analyzing_ r) (buffer_ r) time.

Abbreviation blacklist := (gmap bytes (Node unit)).
Record UrlFilter := MkUrlFilter { blacklist_ : blacklist; flow_cache_ : gmap Flow FlowRecord }.
Definition with_cache (f : UrlFilter) (c : gmap Flow FlowRecord) : UrlFilter := MkUrlFilter (blacklist_ f) c.

(** ** Configuration *)
Definition add_url (bl : blacklist) (url : bytes * bytes) : option blacklist :=
  t ← Insert tt (default (new_node tt) (bl !! url.1)) url.2 tt false;
  Some (<[url.1 := t]> bl).
Fixpoint add_urls (bl : blacklist) (urls : list (bytes * bytes)) : option blacklist :=
  match urls with [] => Some bl | u :: urls => bl ← add_url bl u; add_urls bl urls end.

Definition Init (f : UrlFilter) (urls : list (bytes * bytes)) : option UrlFilter :=
  bl ← add_urls (blacklist_ f) urls; Some (MkUrlFilter bl (flow_cache_ f)).
Definition CommandAdd := Init.
Definition CommandClear (f : UrlFilter) : UrlFilter := MkUrlFilter ∅ (flow_cache_ f).
(** Hosts in the order of the hash map, before the stable sort by host. *)
Definition GetRuntimeConfig (f : UrlFilter) : list (bytes * bytes) :=
  concat (map (fun it => map (fun entry => (it.1, entry.1.1)) (Dump it.2)) (map_to_list (blacklist_ f))).
Definition SetRuntimeConfig (f : UrlFilter) (urls : list (bytes * bytes)) : option UrlFilter :=
  Init (CommandClear f) urls.

(** ** Packets of its own *)
Definition HTTP_403_BODY : bytes := bytes_of "HTTP/1.1 403 Bad Forbidden" ++ [CR; LF] ++ bytes_of "Connection: Closed" ++ [CR; LF; CR; LF].
Definition kAck : Z := 0x10.
Definition kRst : Z := 0x04.

(** [PacketTemplate] *)
Definition rst_template : bytes :=
  replicate 12 0 ++ be_store 2 0x0800 ++
  [0x45; 0] ++ be_store 2 40 ++ be_store 2 0 ++ be_store 2 0 ++ [0x40; kTcp; 0; 0] ++ replicate 8 0 ++
  replicate 12 0 ++ [0x50; Z.lor kAck kRst; 0; 0; 0; 0; 0; 0].

(** A field written into a packet. *)
Definition blit (off : nat) (field : bytes) (p : bytes) : bytes := take off p ++ field ++ drop (off + length field) p.

(** The fields that identify a connection, as they are in a packet. *)
Record Endpoints := MkEndpoints {
  src_eth : bytes; dst_eth : bytes; src_ip : Z; dst_ip : Z; src_port : Z; dst_port : Z; seq_no : Z; ack_no : Z }.

Section Packets.
(** Whether the vectorised checksum is compiled in. *)
Context (avx2 : bool).

Definition set_headers (e : Endpoints) (id : Z) (p : bytes) : bytes :=
  blit 42 (le_store 4 (ack_no e)) (blit 38 (le_store 4 (seq_no e)) (
  blit 36 (le_store 2 (dst_port e)) (blit 34 (le_store 2 (src_port e)) (
  blit 30 (le_store 4 (dst_ip e)) (blit 26 (le_store 4 (src_ip e)) (
  blit 18 (be_store 2 id) (blit 6 (src_eth e) (blit 0 (dst_eth e) p)))))))).
(** The TCP checksum and then that of the IP header. *)
Definition set_checksums (e : Endpoints) (tcp_len : Z) (p : bytes) : option bytes :=
  k ← CalculateIpv4TcpChecksum avx2 (drop 34 p) (src_ip e) (dst_ip e) tcp_len;
  let p := store16 50 k p in
  Some (store16 24 (CalculateIpv4NoOptChecksum (drop 14 p)) p).

Definition Generate403Packet (e : Endpoints) : option bytes :=
  let len := Z.of_nat (length HTTP_403_BODY) in
  let p := set_headers e 1 (rst_template ++ HTTP_403_BODY) in
  let p := blit 47 [kAck] (blit 16 (be_store 2 (40 + len)) p) in
  set_checksums e (20 + len) p.
Definition GenerateResetPacket (e : Endpoints) : option bytes := set_checksums e 20 (set_headers e 2 rst_template).

(** ** Packets from the network *)
Definition flow_of (p : bytes) : option Flow :=
  src ← load 4 (ip_at + ip_src_addr) p; dst ← load 4 (ip_at + ip_dst_addr) p;
  t ← tcp_at p; sp ← load 2 t p; dp ← load 2 (t + 2) p;
  Some (src, dst, sp, dp).
Definition endpoints (p : bytes) : option Endpoints :=
  fl ← flow_of p; t ← tcp_at p; seq ← load 4 (t + 4) p; ack ← load 4 (t + 8) p;
  dst ← slice 0 6 p; src ← slice 6 6 p;
  let '(s, d, sp, dp) := fl in Some (MkEndpoints src dst s d sp dp seq ack).
(** The other direction, with the acknowledgement [ack]. *)
Definition reverse (e : Endpoints) (seq : Z) : Endpoints :=
  MkEndpoints (dst_eth e) (src_eth e) (dst_ip e) (src_ip e) (dst_port e) (src_port e) seq (seq_no e).

(** [strncmp(a, b, n) == 0] *)
Fixpoint strncmp0 (a b : bytes) (n : nat) : bool :=
  match n with
  | O => true
  | S n => let x := hd 0 a in let y := hd 0 b in
      if x =? y then (if x =? 0 then true else strncmp0 (tl a) (tl b) n) else false
  end.
Definition HTTP_HEADER_HOST : bytes := bytes_of "Host".
(** A continuing line has no name, of length 0. *)
Definition is_host (name : option bytes) : bool :=
  match name with Some n => strncmp0 n HTTP_HEADER_HOST (length n) | None => true end.

Fixpoint find_host (bl : blacklist) (path : bytes) (hs : list phr_header) : option bool :=
  match hs with
  | [] => Some false
  | h :: hs =>
      m ← (if is_host h.1 then match bl !! h.2 with Some t => Match_ t path | None => Some false end else Some false);
      if m : bool then Some true else find_host bl path hs
  end.
Definition matched (bl : blacklist) (parse_result : Z) (q : Request) : option bool :=
  if (0 <? parse_result) || (parse_result =? -2) then find_host bl (path q) (headers q) else Some false.

(** What is sent in place of the packet of a blacklisted request. *)
Definition cut_connection (p : bytes) : option (list (Z * bytes)) :=
  e ← endpoints p;
  rst ← GenerateResetPacket e;
  forbidden ← Generate403Packet (reverse e (ack_no e));
  rst' ← GenerateResetPacket (reverse e (swap 4 (u32 (swap 4 (ack_no e) + Z.of_nat (length HTTP_403_BODY)))));
  Some [(0, rst); (1, forbidden); (1, rst')].

(** A packet of a flow that is watched: [r] is its record. *)
Definition analyze (f : UrlFilter) (flow : Flow) (r : FlowRecord) (now : Z) (p : bytes) : option (UrlFilter * list (Z * bytes)) :=
  ins ← InsertPacket (buffer_ r) p;
  if negb ins.2 then Some (with_cache f (delete flow (flow_cache_ f)), [(0, p)]) else
  let r := SetExpiryTime (MkFlowRecord (done_analyzing_ r) ins.1 (expiry_time_ r)) (u64 (now + TIME_OUT_NS)) in
  data ← slice 0 (contiguous_len ins.1) (buf_ ins.1);
  res ← phr_parse_request data 16 0;
  m ← matched (blacklist_ f) res.1 res.2;
  if negb m then
    flags ← tcp_flags p;
    Some (with_cache f (if negb (res.1 =? -2) || negb (Z.land flags kFin =? 0)
                        then delete flow (flow_cache_ f) else <[flow := r]> (flow_cache_ f)), [(0, p)])
  else
    out ← cut_connection p;
    Some (with_cache f (<[flow := SetAnalyzed r]> (flow_cache_ f)), out).

Definition process_packet (f : UrlFilter) (now : Z) (p : bytes) : option (UrlFilter * list (Z * bytes)) :=
  proto ← load 1 (ip_at + ip_protocol) p;
  if negb (proto =? kTcp) then Some (f, [(0, p)]) else
  flow ← flow_of p;
  let '(f, it) :=
    match flow_cache_ f !! flow with
    | Some r => if expiry_time_ r <=? now then (with_cache f (delete flow (flow_cache_ f)), None) else (f, Some r)
    | None => (f, None)
    end in
  match it with
  | Some r =>
      if done_analyzing_ r
      then Some (with_cache f (<[flow := SetExpiryTime r (u64 (now + TIME_OUT_NS))]> (flow_cache_ f)), [])
      else analyze f flow r now p
  | None =>
      flags ← tcp_flags p;
      if negb (Z.land flags kSyn =? 0) then analyze f flow new_record now p else Some (f, [(0, p)])
  end.

Fixpoint process_packets (f : UrlFilter) (now : Z) (pkts : list bytes) : option (UrlFilter * list (Z * bytes)) :=
  match pkts with
  | [] => Some (f, [])
  | p :: pkts => r ← process_packet f now p; r' ← process_packets r.1 now pkts; Some (r'.1, r.2 ++ r'.2)
  end.
(** Input gate 1 is the reverse traffic. *)
Definition ProcessBatch (f : UrlFilter) (current_igate now : Z) (pkts : list bytes) : option (UrlFilter * list (Z * bytes)) :=
  if current_igate =? 1 then Some (f, map (fun p => (1, p)) pkts) else process_packets f now pkts.
End Packets.

(** ** The packets of its own are valid *)
Section Checksums.
Context (avx2 : bool).

(** A TCP checksum that was calculated, and an IP header's, verify. *)
Lemma tcp_checksum_verifies seg src dst len : bytes_ok seg -> in_word 32 src -> in_word 32 dst -> in_word 16 len ->
  20 <= len <= Z.of_nat (length seg) ->
  exists k, CalculateIpv4TcpChecksum avx2 seg src dst len = Some k /\ in_word 16 k /\
    VerifyIpv4TcpChecksum avx2 (store16 16 k seg) src dst len = Some true.
Proof.
  intros Hok Hs Hd Hl Hlen. rewrite CalculateIpv4TcpChecksum_spec by done. set (S := segment_sum _ _ _ _ _).
  assert (HS : 0 <= S).
  { unfold S, segment_sum, pseudo_sum. pose proof (swap16_word len Hl).
    pose proof (sum16_nonneg (take (Z.to_nat len) (store16 16 0 seg)) (bytes_ok_take _ _ (store16_ok 16 0 seg Hok))).
    unfold in_word in *. lia. }
  pose proof (internet_checksum_word S HS) as Hk. exists (internet_checksum S). split; [done|]. split; [done|].
  rewrite VerifyIpv4TcpChecksum_spec; [|by apply store16_ok|done..|rewrite length_store16 by lia; done].
  f_equal. rewrite Z.eqb_eq. replace (segment_sum src dst len 0x0600 (store16 16 (internet_checksum S) seg)) with (S + internet_checksum S).
  { apply internet_checksum_verify; [done|done|by left]. }
  unfold S, segment_sum. rewrite (sum16_store16 16 (internet_checksum _)) by (done || lia). lia.
Qed.

Lemma ip_checksum_verifies iph : bytes_ok iph -> ip_header_len iph = 20 -> (20 <= length iph)%nat ->
  VerifyIpv4Checksum avx2 (store16 10 (CalculateIpv4NoOptChecksum iph) iph) = Some true.
Proof.
  intros Hok Hhl Hl. pose proof (CalculateIpv4Checksum_spec avx2 iph Hok ltac:(lia)) as Hc.
  unfold CalculateIpv4Checksum in Hc. rewrite Hhl in Hc. change (20 =? 20) with true in Hc. cbn iota in Hc.
  injection Hc as ->. set (S := ipv4_header_sum (store16 10 0 iph)).
  assert (HS : 0 <= S) by (apply sum16_nonneg, bytes_ok_take; by apply store16_ok).
  pose proof (internet_checksum_word S HS) as Hk.
  rewrite VerifyIpv4Checksum_spec; [|by apply store16_ok|rewrite ip_header_len_store16, length_store16 by lia; lia].
  f_equal. rewrite Z.eqb_eq. replace (ipv4_header_sum (store16 10 (internet_checksum S) iph)) with (S + internet_checksum S).
  { apply internet_checksum_verify; [done|done|by left]. }
  unfold S, ipv4_header_sum. rewrite !ip_header_len_store16, Hhl by lia.
  rewrite (sum16_store16 10 (internet_checksum _)); [reflexivity|done| |lia|lia].
  unfold S, ipv4_header_sum in Hk. rewrite ip_header_len_store16, Hhl in Hk by lia. exact Hk.
Qed.

(** A TCP packet from one end to the other, with its numbers, flags, data, lengths and checksums. *)
Record packet_ok (e : Endpoints) (flags : Z) (data : bytes) (p : bytes) : Prop := {
  pk_seq : load 4 38 p = Some (seq_no e);
  pk_ack : load 4 42 p = Some (ack_no e);
  pk_flags : load 1 47 p = Some flags;
  pk_data : drop 54 p = data;
  pk_length : ip_length (drop 14 p) = Z.of_nat (length p) - 14 /\ nth 46 p 0 = 0x50;
  pk_flow : flow_of p = Some (src_ip e, dst_ip e, src_port e, dst_port e);
  pk_dst_eth : slice 0 6 p = Some (dst_eth e);
  pk_src_eth : slice 6 6 p = Some (src_eth e);
  pk_ip : VerifyIpv4Checksum avx2 (drop 14 p) = Some true;
  pk_tcp : VerifyIpv4TcpChecksum_hdr avx2 (drop 14 p) (drop 34 p) = Some true }.
(** RST and ACK; ACK; and the text of the answer. *)
Definition reset_flags : Z := 20.
Definition answer_flags : Z := 16.
Definition forbidden_answer : bytes :=
  bytes_of "HTTP/1.1 403 Bad Forbidden" ++ [13; 10] ++ bytes_of "Connection: Closed" ++ [13; 10; 13; 10].

Record endpoints_ok (e : Endpoints) : Prop := {
  ep_src_eth : bytes_ok (src_eth e) /\ length (src_eth e) = 6%nat;
  ep_dst_eth : bytes_ok (dst_eth e) /\ length (dst_eth e) = 6%nat;
  ep_ip : in_word 32 (src_ip e) /\ in_word 32 (dst_ip e);
  ep_port : in_word 16 (src_port e) /\ in_word 16 (dst_port e);
  ep_seq : in_word 32 (seq_no e) /\ in_word 32 (ack_no e) }.

Lemma set_checksums_ok e len p : bytes_ok p -> Z.of_nat (length p) = 34 + len -> 20 <= len -> in_word 16 (20 + len) ->
  nth 14 p 0 = 0x45 -> ip_length (drop 14 p) = 20 + len -> ip_src (drop 14 p) = src_ip e -> ip_dst (drop 14 p) = dst_ip e ->
  in_word 32 (src_ip e) -> in_word 32 (dst_ip e) ->
  exists p', set_checksums avx2 e len p = Some p' /\ length p' = length p /\
    (forall n off, (off + n <= 24)%nat -> take n (drop off p') = take n (drop off p)) /\
    (forall n off, (26 <= off)%nat -> (off + n <= 50)%nat -> take n (drop off p') = take n (drop off p)) /\
    drop 54 p' = drop 54 p /\
    VerifyIpv4Checksum avx2 (drop 14 p') = Some true /\
    VerifyIpv4TcpChecksum_hdr avx2 (drop 14 p') (drop 34 p') = Some true.
Proof.
  intros Hok Hlp Hl Hw H45 Hlen Hsrc Hdst Hws Hwd. unfold set_checksums.
  assert (Hwl : in_word 16 len) by (unfold in_word in *; lia).
  destruct (tcp_checksum_verifies (drop 34 p) (src_ip e) (dst_ip e) len) as (k & -> & Hk & Hv);
    [by apply bytes_ok_drop|done|done|done|rewrite length_drop; lia|]. cbn [mbind option_bind].
  set (p1 := store16 50 k p). set (c := CalculateIpv4NoOptChecksum (drop 14 p1)).
  assert (Hok1 : bytes_ok p1) by (by apply store16_ok). assert (Hl1 : length p1 = length p) by (apply length_store16; lia).
  eexists. split; [done|]. split; [by rewrite length_store16 by lia|].
  assert (Hiph : drop 14 (store16 24 c p1) = store16 10 c (drop 14 p1)) by (apply drop_store16; lia).
  assert (Htcp : drop 34 (store16 24 c p1) = store16 16 k (drop 34 p)).
  { rewrite store16_drop_hi by lia. apply (drop_store16 34 50); lia. }
  assert (Hd1 : drop 14 p1 = store16 36 k (drop 14 p)) by (apply (drop_store16 14 50); lia).
  assert (H20 : ip_header_len (drop 14 p1) = 20).
  { rewrite Hd1, ip_header_len_store16 by (rewrite ?length_drop; lia). unfold ip_header_len. rewrite nth_skipn. cbn [Nat.add]. by rewrite H45. }
  split; [|split; [|split; [|split]]].
  - intros n off Hoff. rewrite !firstn_skipn_comm, store16_take_lo by lia. unfold p1. by rewrite store16_take_lo by lia.
  - intros n off Ho1 Ho2. rewrite (store16_drop_hi 24) by lia. rewrite !firstn_skipn_comm. unfold p1. by rewrite store16_take_lo by lia.
  - rewrite store16_drop_hi by lia. unfold p1. by rewrite store16_drop_hi by lia.
  - rewrite Hiph. apply ip_checksum_verifies; [by apply bytes_ok_drop|done|rewrite length_drop; lia].
  - rewrite Hiph, Htcp. unfold VerifyIpv4TcpChecksum_hdr.
    assert (Hh : ip_header_len (store16 10 c (drop 14 p1)) = 20) by (rewrite ip_header_len_store16; [done|lia|rewrite length_drop; lia]).
    assert (Hil : ip_length (store16 10 c (drop 14 p1)) = 20 + len).
    { rewrite <- Hlen, Hd1. unfold ip_length.
      rewrite !firstn_skipn_comm, !store16_take_lo by (rewrite ?length_store16, ?length_drop; rewrite ?length_drop; lia). by rewrite !firstn_skipn_comm. }
    assert (Hdw : forall i, i = 3%nat \/ i = 4%nat -> dword (store16 10 c (drop 14 p1)) i = dword (drop 14 p) i).
    { intros i Hi. rewrite dword_store16_other by (rewrite ?length_drop; lia). rewrite Hd1.
      apply dword_store16_other; rewrite ?length_drop; lia. }
    rewrite Hh, Hil. rewrite (proj2 (Z.ltb_ge _ _)) by lia. unfold ip_src, ip_dst in *.
    rewrite !Hdw by auto. rewrite Hsrc, Hdst. replace (20 + len - 20) with len by lia. by rewrite wrap_small.
Qed.

Lemma blit_ok off field p : bytes_ok field -> bytes_ok p -> bytes_ok (blit off field p).
Proof. intros. unfold blit. rewrite !bytes_ok_app. auto with bess. Qed.
Lemma load_same n off p p' : length p' = length p -> take n (drop (Z.to_nat off) p') = take n (drop (Z.to_nat off) p) ->
  load n off p' = load n off p.
Proof. intros Hl Ht. unfold load, slice. by rewrite Hl, Nat2Z.id, Ht. Qed.
Lemma slice_same n off p p' : length p' = length p -> take (Z.to_nat n) (drop (Z.to_nat off) p') = take (Z.to_nat n) (drop (Z.to_nat off) p) ->
  slice off n p' = slice off n p.
Proof. intros Hl Ht. unfold slice. by rewrite Hl, Ht. Qed.
Lemma load_le n v : in_word (8 * Z.of_nat n) v -> le_load (le_store n v) = v.
Proof. intros Hv. rewrite le_load_store. rewrite pow256. unfold in_word in Hv. apply Z.mod_small. by rewrite Z.mul_comm. Qed.

Ltac by_leb := apply Nat.leb_le; vm_compute; reflexivity.
(** What the checksums leave alone. *)
Lemma finish_packet e flags data len p : endpoints_ok e -> bytes_ok p -> Z.of_nat (length p) = 34 + len -> 20 <= len -> in_word 16 (20 + len) ->
  nth 14 p 0 = 0x45 -> ip_length (drop 14 p) = 20 + len -> ip_src (drop 14 p) = src_ip e -> ip_dst (drop 14 p) = dst_ip e ->
  flow_of p = Some (src_ip e, dst_ip e, src_port e, dst_port e) ->
  slice 0 6 p = Some (dst_eth e) -> slice 6 6 p = Some (src_eth e) ->
  load 4 38 p = Some (seq_no e) -> load 4 42 p = Some (ack_no e) -> load 1 47 p = Some flags -> drop 54 p = data -> nth 46 p 0 = 0x50 ->
  exists p', set_checksums avx2 e len p = Some p' /\ packet_ok e flags data p'.
Proof.
  intros [_ _ [Hs Hd] _ _] Hok Hlp Hl Hw H45 Hlen Hsrc Hdst Hfl Hde Hse Hsq Hak Hfg Hdt H50.
  destruct (set_checksums_ok e len p Hok Hlp Hl Hw H45 Hlen Hsrc Hdst Hs Hd) as (p' & Hp' & Hl' & Hlo & Hmid & Hhi & Hip & Htcp).
  exists p'. split; [done|].
  split; [rewrite <- Hsq|rewrite <- Hak|rewrite <- Hfg|by rewrite Hhi| | |rewrite <- Hde|rewrite <- Hse|done|done];
    [apply load_same; [done|apply Hmid; by_leb]|apply load_same; [done|apply Hmid; by_leb]|apply load_same; [done|apply Hmid; by_leb]
    | | |apply slice_same; [done|apply Hlo; by_leb]..].
  { split.
    - rewrite Hl', Hlp. replace (34 + len - 14) with (20 + len) by lia. rewrite <- Hlen. unfold ip_length.
      rewrite !drop_drop, Hlo by lia. done.
    - rewrite <- H50. rewrite <- (Nat.add_0_r 46). rewrite <- !nth_skipn.
      pose proof (Hmid 1%nat 46%nat ltac:(lia) ltac:(lia)) as Hx.
      destruct (drop 46 p') as [|b l], (drop 46 p) as [|b' l']; cbn in Hx |- *; congruence. }
  assert (Hb : load 1 ip_at p' = load 1 ip_at p) by (apply load_same; [done|apply Hlo; by_leb]).
  assert (Ht : tcp_at p' = Some 34).
  { unfold tcp_at, header_length. rewrite Hb. unfold load. rewrite slice_Some by (unfold ip_at, ETHER_SIZE; lia). cbn [fmap option_fmap option_map mbind option_bind].
    change (Z.to_nat 1) with 1%nat. change (Z.to_nat ip_at) with 14%nat.
    destruct (drop 14 p) as [|b tl] eqn:Hdp; [apply (f_equal length) in Hdp; rewrite length_drop in Hdp; cbn in Hdp; lia|].
    assert (b = 0x45) as ->; [|done]. rewrite <- H45. rewrite <- (Nat.add_0_r 14) at 1. rewrite <- nth_skipn, Hdp. done. }
  rewrite <- Hfl. unfold flow_of. rewrite Ht. 
  assert (Ht0 : tcp_at p = Some 34) by (unfold tcp_at, header_length in *; by rewrite <- Hb).
  rewrite Ht0. cbn [mbind option_bind].
  rewrite (load_same 4 (ip_at + ip_src_addr) p p'), (load_same 4 (ip_at + ip_dst_addr) p p'), (load_same 2 34 p p'), (load_same 2 (34 + 2) p p');
    try done; apply Hmid; by_leb.
Qed.

Lemma headers_ok_bytes e id p : endpoints_ok e -> bytes_ok p -> bytes_ok (set_headers e id p).
Proof.
  intros [[Hs _] [Hd _] _ _] Hp. unfold set_headers. repeat apply blit_ok; try done; try apply le_store_ok.
  unfold be_store. apply Forall_rev, le_store_ok.
Qed.

Lemma word_field v : in_word 32 v -> Some (le_load (le_store 4 v)) = Some v.
Proof. intros Hv. by rewrite load_le. Qed.

Lemma packet_fields (v4 w4 v2 w2 : Z) : in_word 32 v4 /\ in_word 32 w4 -> in_word 16 v2 /\ in_word 16 w2 ->
  Some (le_load (le_store 4 v4), le_load (le_store 4 w4), le_load (le_store 2 v2), le_load (le_store 2 w2)) = Some (v4, w4, v2, w2).
Proof. intros [? ?] [? ?]. by rewrite !load_le. Qed.

Lemma GenerateResetPacket_ok e : endpoints_ok e -> exists p, GenerateResetPacket avx2 e = Some p /\ packet_ok e reset_flags [] p.
Proof.
  intros He. pose proof He as [[Hs1 Hs2] [Hd1 Hd2] Hip Hport [Hsq Hak]]. unfold GenerateResetPacket.
  assert (Hb : bytes_ok (set_headers e 2 rst_template)) by (apply headers_ok_bytes; [done|by_compute]).
  destruct e as [se de s d sp dp q a]. cbn [src_eth dst_eth src_ip dst_ip src_port dst_port seq_no ack_no] in *.
  do 6 (destruct se as [|? se]; [done|]). destruct se; [|done]. do 6 (destruct de as [|? de]; [done|]). destruct de; [|done].
  apply finish_packet; try done; cbn [src_ip dst_ip src_port dst_port seq_no ack_no].
  - unfold ip_src, dword. etrans; [|apply (load_le 4); apply Hip]. reflexivity.
  - unfold ip_dst, dword. etrans; [|apply (load_le 4); apply Hip]. reflexivity.
  - etrans; [|by apply packet_fields]. reflexivity.
  - etrans; [|by apply (word_field _ Hsq)]. reflexivity.
  - etrans; [|by apply (word_field _ Hak)]. reflexivity.
Qed.
Lemma Generate403Packet_ok e : endpoints_ok e -> exists p, Generate403Packet avx2 e = Some p /\ packet_ok e answer_flags forbidden_answer p.
Proof.
  intros He. pose proof He as [[Hs1 Hs2] [Hd1 Hd2] Hip Hport [Hsq Hak]]. unfold Generate403Packet.
  set (p := blit 47 _ _).
  assert (Hb : bytes_ok p).
  { apply blit_ok; [by_compute|]. apply blit_ok; [by_compute|]. apply headers_ok_bytes; [done|by_compute]. }
  subst p. destruct e as [se de s d sp dp q a]. cbn [src_eth dst_eth src_ip dst_ip src_port dst_port seq_no ack_no] in *.
  do 6 (destruct se as [|? se]; [done|]). destruct se; [|done]. do 6 (destruct de as [|? de]; [done|]). destruct de; [|done].
  apply finish_packet; try done; cbn [src_ip dst_ip src_port dst_port seq_no ack_no].
  - unfold ip_src, dword. etrans; [|apply (load_le 4); apply Hip]. reflexivity.
  - unfold ip_dst, dword. etrans; [|apply (load_le 4); apply Hip]. reflexivity.
  - etrans; [|by apply packet_fields]. reflexivity.
  - etrans; [|by apply (word_field _ Hsq)]. reflexivity.
  - etrans; [|by apply (word_field _ Hak)]. reflexivity.
Qed.

Lemma reverse_ok e seq : endpoints_ok e -> in_word 32 seq -> endpoints_ok (reverse e seq).
Proof. intros [? ? [? ?] [? ?] [? ?]] Hseq. by split. Qed.

Lemma load_word n off p v : bytes_ok p -> load n off p = Some v -> in_word (8 * Z.of_nat n) v.
Proof.
  intros Hok. unfold load, slice. destruct (_ && _) eqn:Hc; [|done]. intros [= <-].
  apply andb_true_iff in Hc as [Hc Hl%Z.leb_le]. apply andb_true_iff in Hc as [Hc%Z.leb_le _].
  pose proof (le_load_bound (take (Z.to_nat (Z.of_nat n)) (drop (Z.to_nat off) p)) ltac:(auto with bess)) as Hb.
  rewrite length_take_le in Hb by (rewrite length_drop; lia). rewrite Nat2Z.id in Hb |- *. unfold in_word.
  rewrite pow256 in Hb. by rewrite Z.mul_comm in Hb.
Qed.
Lemma slice_eth off p x : bytes_ok p -> slice off 6 p = Some x -> bytes_ok x /\ length x = 6%nat.
Proof.
  intros Hok. unfold slice. destruct (_ && _) eqn:Hc; [|done]. intros [= <-].
  apply andb_true_iff in Hc as [Hc Hl%Z.leb_le]. apply andb_true_iff in Hc as [Hc%Z.leb_le _].
  split; [auto with bess|]. rewrite length_take_le; [done|]. rewrite length_drop. lia.
Qed.
Lemma endpoints_valid p e : bytes_ok p -> endpoints p = Some e -> endpoints_ok e /\ flow_of p = Some (src_ip e, dst_ip e, src_port e, dst_port e).
Proof.
  intros Hok. unfold endpoints. destruct (flow_of p) as [[[[s d] sp] dp]|] eqn:Hf; [|done]. cbn [mbind option_bind].
  destruct (tcp_at p) as [t|] eqn:Ht; [|done]. cbn [mbind option_bind]. destruct (load 4 (t + 4) p) eqn:L5; [|done]. cbn [mbind option_bind].
  destruct (load 4 (t + 8) p) eqn:L6; [|done]. cbn [mbind option_bind].
  destruct (slice 0 6 p) eqn:H1; [|done]. cbn [mbind option_bind]. destruct (slice 6 6 p) eqn:H2; [|done]. intros [= <-].
  split; [|done]. unfold flow_of in Hf. rewrite Ht in Hf.
  destruct (load 4 (ip_at + ip_src_addr) p) eqn:L1; [|done]. cbn [mbind option_bind] in Hf.
  destruct (load 4 (ip_at + ip_dst_addr) p) eqn:L2; [|done]. cbn [mbind option_bind] in Hf.
  destruct (load 2 t p) eqn:L3; [|done]. cbn [mbind option_bind] in Hf. destruct (load 2 (t + 2) p) eqn:L4; [|done]. injection Hf as -> -> -> ->.
  split; cbn; [by eapply slice_eth|by eapply slice_eth| | |split; by eapply (load_word 4)].
  - split; [by apply (load_word 4) in L1|by apply (load_word 4) in L2].
  - split; [by apply (load_word 2) in L3|by apply (load_word 2) in L4].
Qed.

(** A reset to the server in the name of the client, and an answer and a reset behind it to the client in the name of the
    server: the numbers go on where the packet [e] stood. *)
Definition cut_ok (e : Endpoints) (out : list (Z * bytes)) : Prop :=
  exists rst forbidden rst', out = [(0, rst); (1, forbidden); (1, rst')] /\
    packet_ok e reset_flags [] rst /\ packet_ok (reverse e (ack_no e)) answer_flags forbidden_answer forbidden /\
    packet_ok (reverse e (swap 4 (u32 (swap 4 (ack_no e) + 50)))) reset_flags [] rst'.
Lemma cut_connection_ok p e : bytes_ok p -> endpoints p = Some e -> exists out, cut_connection avx2 p = Some out /\ cut_ok e out.
Proof.
  intros Hok He. destruct (endpoints_valid p e Hok He) as [Hv _]. unfold cut_connection. rewrite He. cbn [mbind option_bind].
  change (Z.of_nat (length HTTP_403_BODY)) with 50.
  destruct (GenerateResetPacket_ok e Hv) as (rst & -> & H1). cbn [mbind option_bind].
  destruct (Generate403Packet_ok _ (reverse_ok e (ack_no e) Hv (proj2 (ep_seq e Hv)))) as (fb & -> & H2). cbn [mbind option_bind].
  destruct (GenerateResetPacket_ok _ (reverse_ok e (swap 4 (u32 (swap 4 (ack_no e) + 50))) Hv (swap_word 4 _))) as (rst' & -> & H3).
  cbn [mbind option_bind]. eexists. split; [done|]. by exists rst, fb, rst'.
Qed.
End Checksums.

(** ** The blacklist *)

(** The URLs in it, all of them of ASCII paths. *)
Abbreviation urls := (gset (bytes * bytes)).
Record bl_ok (bl : blacklist) (B : urls) : Prop := {
  bo_trie host t : bl !! host = Some t -> exists m, represents t m /\
    (forall k v, m !! k = Some v -> v.2 = false) /\ forall k, is_Some (m !! k) <-> (host, k) ∈ B;
  bo_host host k : (host, k) ∈ B -> is_Some (bl !! host) }.

Lemma best_prefix_none (m : gmap bytes (unit * bool)) seen rest : (forall k v, m !! k = Some v -> v.2 = false) ->
  best_prefix m seen rest None = fst <$> m !! (seen ++ rest).
Proof.
  intros Hm. revert seen. induction rest as [|c rest IH]; intros seen; cbn [best_prefix].
  - rewrite app_nil_r. destruct (m !! seen) as [[v b]|] eqn:Hs; [|done]. specialize (Hm _ _ Hs). cbn in Hm. by subst.
  - replace (match m !! seen with Some (v, true) => Some v | _ => None end) with (@None unit).
    + rewrite IH. by rewrite <- app_assoc.
    + destruct (m !! seen) as [[v b]|] eqn:Hs; [|done]. specialize (Hm _ _ Hs). cbn in Hm. by subst.
Qed.

Lemma bl_match bl B host k : bl_ok bl B -> ascii_key k ->
  match bl !! host with Some t => Match_ t k | None => Some false end = Some (bool_decide ((host, k) ∈ B)).
Proof.
  intros [H1 H2] Hk. destruct (bl !! host) as [t|] eqn:Ht.
  - destruct (H1 host t Ht) as (m & Hr & Hf & Hm). destruct (represents_lookup tt t m k Hr Hk) as [_ ->].
    f_equal. unfold spec_lookup. rewrite best_prefix_none by done. cbn [app].
    destruct (m !! k) as [v|] eqn:Hv; cbn.
    + symmetry. apply bool_decide_eq_true, Hm. by eexists.
    + symmetry. apply bool_decide_eq_false. intros Hin. apply Hm in Hin as [? Hin]. congruence.
  - f_equal. symmetry. apply bool_decide_eq_false. intros Hin. apply H2 in Hin as [? Hin]. congruence.
Qed.

Lemma bl_empty : bl_ok ∅ ∅.
Proof. split; [intros host t Ht; by apply lookup_empty_Some in Ht|set_solver]. Qed.
Lemma add_url_ok bl B u : bl_ok bl B -> ascii_key u.2 -> exists bl', add_url bl u = Some bl' /\ bl_ok bl' ({[u]} ∪ B).
Proof.
  intros [H1 H2] Hu. destruct u as [host path]. cbn [fst snd] in *. unfold add_url. cbn [fst snd].
  assert (exists m, represents (default (new_node tt) (bl !! host)) m /\ (forall k v, m !! k = Some v -> v.2 = false) /\
    forall k, is_Some (m !! k) <-> (host, k) ∈ B) as (m & Hr & Hf & Hm).
  { destruct (bl !! host) as [t|] eqn:Ht; [by apply H1|]. exists ∅. split; [split; [apply wf_new|intros k; rewrite lookup_empty; apply (find_new tt)]|].
    split; [intros k v Hk; by rewrite lookup_empty in Hk|]. intros k. rewrite lookup_empty. split; [by intros [? ?]|].
    intros Hin. apply H2 in Hin as [? Hin]. cbn in Hin. congruence. }
  destruct (Insert_represents tt _ m (path, tt, false) Hr Hu) as (t' & Ht' & Hr'). cbn [fst snd] in Ht'. rewrite Ht'.
  cbn [mbind option_bind]. eexists. split; [done|]. split.
  - intros h t. destruct (decide (host = h)) as [<-|Hne].
    + rewrite lookup_insert_eq. intros [= <-]. eexists. split; [exact Hr'|]. unfold spec_insert. cbn [fst snd]. split.
      * intros k v. rewrite lookup_insert. case_decide; [by intros [= <-]|apply Hf].
      * intros k. rewrite lookup_insert. case_decide as Hk; [subst; set_solver|]. rewrite Hm. set_solver.
    + rewrite lookup_insert_ne by done. intros Ht. destruct (H1 h t Ht) as (m' & ? & ? & Hm'). exists m'. split; [done|]. split; [done|].
      intros k. rewrite Hm'. set_solver.
  - intros h k. rewrite lookup_insert. case_decide; [done|]. intros Hin. apply (H2 h k). set_solver.
Qed.
Lemma add_urls_ok us bl B : bl_ok bl B -> Forall (fun u => ascii_key u.2) us ->
  exists bl', add_urls bl us = Some bl' /\ bl_ok bl' (list_to_set us ∪ B).
Proof.
  revert bl B. induction us as [|u us IH]; intros bl B HB Hus; cbn [add_urls].
  - exists bl. split; [done|]. by rewrite list_to_set_nil, union_empty_l_L.
  - apply Forall_cons in Hus as [Hu Hus]. destruct (add_url_ok bl B u HB Hu) as (bl1 & -> & HB1). cbn [mbind option_bind].
    destruct (IH bl1 _ HB1 Hus) as (bl2 & -> & HB2). exists bl2. split; [done|]. 
    rewrite list_to_set_cons. by replace ({[u]} ∪ list_to_set us ∪ B) with (list_to_set us ∪ ({[u]} ∪ B)) by set_solver.
Qed.

(** ** Saving and restoring the blacklist *)
Lemma find_entry_ascii (n : Node unit) k e : wf n -> find_entry n k = Some e -> ascii_key k.
Proof.
  intros Hwf. revert n Hwf. induction k as [|c k IH]; intros n Hwf Hf; [constructor|]. cbn in Hf.
  destruct (children n c) as [m|] eqn:Hc; [|done]. inversion Hwf as [? _ Hr Hw _]; subst. constructor; [by eapply Hr|].
  eapply IH; [by eapply Hw|done].
Qed.
Lemma config_entries f B u : bl_ok (blacklist_ f) B -> u ∈ GetRuntimeConfig f <-> u ∈ B.
Proof.
  intros [H1 H2]. destruct u as [host k]. unfold GetRuntimeConfig. rewrite elem_of_concat_map. split.
  - intros ([h t] & Hin & Hk). apply elem_of_map_to_list in Hin. cbn [fst snd] in Hk.
    apply list_elem_of_In, in_map_iff in Hk as ([[k' v] p] & [= -> ->] & Hk). apply list_elem_of_In in Hk. cbn [fst snd] in Hk.
    destruct (H1 host t Hin) as (m & [Hw Hm] & _ & Hiff). apply elem_of_dump in Hk as (k0 & -> & Hf); [|done].
    apply Hiff. rewrite <- Hm. by eexists.
  - intros Hin. destruct (H2 host k Hin) as [t Ht]. destruct (H1 host t Ht) as (m & [Hw Hm] & _ & Hiff).
    apply Hiff in Hin as [[v p] Hv]. exists (host, t). split; [by apply elem_of_map_to_list|]. cbn [fst snd].
    apply list_elem_of_In, in_map_iff. exists (k, v, p). split; [done|]. apply list_elem_of_In, elem_of_dump; [done|].
    exists k. by rewrite Hm.
Qed.
(** A saved configuration restores the same blacklist. *)
Lemma config_roundtrip f B : bl_ok (blacklist_ f) B ->
  exists f', SetRuntimeConfig f (GetRuntimeConfig f) = Some f' /\ bl_ok (blacklist_ f') B /\ flow_cache_ f' = flow_cache_ f.
Proof.
  intros HB. destruct (add_urls_ok (GetRuntimeConfig f) ∅ ∅ bl_empty) as (bl & Hbl & HB').
  - apply Forall_forall. intros [host k] Hin. apply (config_entries f B) in Hin; [|done]. destruct HB as [H1 H2].
    destruct (H2 host k Hin) as [t Ht]. destruct (H1 host t Ht) as (m & [Hw Hm] & _ & Hiff). apply Hiff in Hin as [e He].
    rewrite <- Hm in He. by eapply find_entry_ascii.
  - unfold SetRuntimeConfig, Init, CommandClear. cbn [blacklist_]. rewrite Hbl. eexists. split; [done|]. split; [|done]. cbn.
    replace B with (list_to_set (GetRuntimeConfig f) ∪ ∅ : urls); [done|]. apply set_eq. intros u.
    rewrite elem_of_union, elem_of_list_to_set, (config_entries f B u HB). set_solver.
Qed.

(** The URL of a request, under each header that is taken for the host, is in the blacklist. *)
Definition names_url (B : urls) (q : Request) : Prop := Exists (fun h => is_host h.1 = true /\ (h.2, path q) ∈ B) (headers q).

Lemma find_host_spec bl B path hs : bl_ok bl B -> ascii_key path ->
  exists b, find_host bl path hs = Some b /\ (b = true <-> Exists (fun h => is_host h.1 = true /\ (h.2, path) ∈ B) hs).
Proof.
  intros HB Hp. induction hs as [|h hs (b & IH & Hb)]; cbn [find_host]; [exists false; split; [done|]; rewrite Exists_nil; by split|].
  rewrite IH. setoid_rewrite Exists_cons. destruct (is_host h.1).
  - rewrite (bl_match bl B h.2 path HB Hp). cbn [mbind option_bind]. case_bool_decide as Hin.
    + exists true. split; [done|]. tauto.
    + exists b. split; [done|]. rewrite Hb. tauto.
  - exists b. split; [done|]. rewrite Hb. cbn. split; [by right|]. intros [[? _]|?]; done.
Qed.

Lemma print_nonempty q : (0 < length (print_request q))%nat.
Proof. unfold print_request. rewrite !length_app. cbn. lia. Qed.

Section Flow.
Context (avx2 : bool) (B : urls) (q : Request) (body : bytes) (isn : Z) (fl : Flow).
Abbreviation stream := (print_request q ++ body).
Context (Hq : request_ok q) (Hroom : (length (headers q) <= 16)%nat) (Hpath : ascii_key (path q))
  (Hbytes : bytes_ok stream) (Hlen : Z.of_nat (length stream) < 2 ^ 31).

(** What the parser and the blacklist say of the start of the stream. *)
Lemma verdict bl n : bl_ok bl B -> (n <= length stream)%nat -> exists r q' b,
  phr_parse_request (take n stream) 16 0 = Some (r, q') /\ matched bl r q' = Some b /\
  if (n <? length (print_request q))%nat then r = -2 /\ (b = true -> names_url B q)
  else r <> -2 /\ (b = true <-> names_url B q).
Proof using Hq Hroom Hpath Hbytes.
  intros HB Hn. pose proof (print_nonempty q) as Hpos. destruct (Nat.ltb_spec n (length (print_request q))) as [Hlt|Hge].
  - destruct (request_prefixes q body 16 Hbytes Hq Hroom) as [_ Hpre]. rewrite take_app_le by lia.
    destruct (Hpre (take n (print_request q)) (drop n (print_request q))) as (q' & Hp & [Hh Hm]); [apply take_drop| |].
    { intros He. apply (f_equal length) in He. rewrite length_drop in He. cbn in He. lia. }
    unfold matched. destruct Hm as [He|He].
    + exists (-2), q', false. rewrite He. done.
    + destruct (find_host_spec bl B (path q) (headers q') HB Hpath) as (b & Hb & Hiff). exists (-2), q', b.
      rewrite He. split; [done|]. split; [done|]. split; [done|]. intros Ht. apply Hiff in Ht. unfold names_url.
      destruct Hh as [rest ->]. apply Exists_app. by left.
  - rewrite take_app_ge by done. destruct (request_prefixes q (take (n - length (print_request q)) body) 16) as [Hp _]; try done.
    { apply bytes_ok_app in Hbytes as [? ?]. apply bytes_ok_app. split; [done|]. auto with bess. }
    destruct (find_host_spec bl B (path q) (headers q) HB Hpath) as (b & Hb & Hiff).
    exists (Z.of_nat (length (print_request q))), q, b. split; [done|]. unfold matched.
    rewrite (proj2 (Z.ltb_lt _ _)) by lia. split; [done|]. split; [lia|done].
Qed.

(** A packet of the flow that carries [n] bytes of the stream from [off] on. *)
Record stream_packet (p : bytes) (s : Z * nat) : Prop := {
  sp_bytes : bytes_ok p;
  sp_tcp : load 1 (ip_at + ip_protocol) p = Some kTcp;
  sp_flow : flow_of p = Some fl;
  sp_carries : carries isn stream p s;
  sp_nofin flags : tcp_flags p = Some flags -> Z.land flags kFin = 0 }.

Lemma stream_packet_flags p s : stream_packet p s -> exists flags, tcp_flags p = Some flags /\ Z.land flags kSyn = 0 /\ Z.land flags kFin = 0.
Proof. intros [_ _ _ (flags & _ & _ & Hf & Hp) Hn]. exists flags. pose proof (pa_flags _ _ _ _ Hp) as H. split; [done|]. split; [done|by apply Hn]. Qed.

Lemma slice_within off n p : 0 <= off -> 0 <= n -> off + n <= Z.of_nat (length p) -> is_Some (slice off n p).
Proof. intros. rewrite slice_Some by lia. by eexists. Qed.
Lemma load_within n off p v : load n off p = Some v -> 0 <= off /\ off + Z.of_nat n <= Z.of_nat (length p).
Proof. unfold load, slice. destruct (_ && _) eqn:Hc; [|done]. intros _. lia. Qed.
Lemma stream_packet_endpoints p s : stream_packet p s -> exists e, endpoints p = Some e.
Proof.
  intros H. destruct (stream_packet_flags p s H) as (flags & Hf & _). pose proof (sp_flow p s H) as Hfl.
  unfold endpoints. rewrite Hfl. cbn [mbind option_bind]. unfold tcp_flags in Hf. destruct (tcp_at p) as [t|] eqn:Ht; [|done].
  cbn [mbind option_bind] in Hf |- *. apply load_within in Hf as [H1 H2].
  assert (14 <= t) as H14.
  { unfold tcp_at, header_length in Ht. destruct (load 1 ip_at p) as [b|]; [|done]. injection Ht as <-. unfold ip_at, ETHER_SIZE.
    pose proof (Z.land_nonneg b 15). lia. }
  assert (Hload : forall n off, 0 <= off -> off + Z.of_nat n <= t + 13 -> is_Some (load n off p)).
  { intros n off Ho Hn. unfold load. destruct (slice_within off (Z.of_nat n) p) as [x ->]; [lia|lia|lia|by eexists]. }
  destruct (Hload 4%nat (t + 4)) as [v1 ->]; [lia|lia|]. cbn [mbind option_bind].
  destruct (Hload 4%nat (t + 8)) as [v2 ->]; [lia|lia|]. cbn [mbind option_bind].
  destruct (slice_within 0 6 p) as [x1 ->]; [lia|lia|lia|]. cbn [mbind option_bind].
  destruct (slice_within 6 6 p) as [x2 ->]; [lia|lia|lia|]. cbn [mbind option_bind].
  destruct fl as [[[? ?] ?] ?]. by eexists.
Qed.

(** While the request is incomplete the flow is watched: what has arrived is in its buffer. *)
Record watching (f : UrlFilter) (t : TcpFlowReconstruct) (expiry : Z) : Prop := {
  wt_record : flow_cache_ f !! fl = Some (MkFlowRecord false t expiry);
  wt_ok : flow_ok t;
  wt_init : initialized_ t = true;
  wt_seq : init_seq_ t = u32 (isn + 1);
  wt_stream : holds_stream stream t;
  wt_start : received_map_ t = [] \/ received t 0;
  wt_incomplete : contiguous_len t < Z.of_nat (length (print_request q)) }.

(** What becomes of the packet: it passes, and the flow is watched or forgotten, or it is
    replaced and the flow blocked. *)
Inductive outcome (f' : UrlFilter) (p : bytes) (t : TcpFlowReconstruct) (expiry : Z) : list (Z * bytes) -> Prop :=
| still_watching : watching f' t expiry -> outcome f' p t expiry [(0, p)]
| let_go : ~ names_url B q -> flow_cache_ f' !! fl = None -> outcome f' p t expiry [(0, p)]
| cut_off e out r : names_url B q -> flow_cache_ f' !! fl = Some r -> done_analyzing_ r = true -> expiry_time_ r = expiry ->
    endpoints p = Some e -> cut_ok avx2 e out -> outcome f' p t expiry out.

(** The packet once its data is in the buffer. *)
Lemma analyze_step f t r now p s t' : bl_ok (blacklist_ f) B -> stream_packet p s -> done_analyzing_ r = false ->
  buffer_ r = t -> InsertPacket t p = Some (t', true) -> flow_ok t' -> initialized_ t' = true -> init_seq_ t' = u32 (isn + 1) ->
  holds_stream stream t' -> received_map_ t' = [] \/ received t' 0 ->
  exists f' out, analyze avx2 f fl r now p = Some (f', out) /\ blacklist_ f' = blacklist_ f /\
    outcome f' p t' (u64 (now + TIME_OUT_NS)) out.
Proof using Hq Hroom Hpath Hbytes Hlen.
  intros HB Hsp Hd Hbuf Hins Hok Hi Hs Hst H0. destruct (contiguous_data stream t' Hok Hst H0) as (Hc1 & Hc2 & Hc3).
  unfold analyze. rewrite Hbuf, Hins. cbn [mbind option_bind fst snd negb].
  rewrite slice_Some by (unfold buf_size in Hc2; lia). cbn [mbind option_bind]. change (Z.to_nat 0) with 0%nat. rewrite drop_0, Hc3.
  destruct (verdict (blacklist_ f) (Z.to_nat (contiguous_len t')) HB ltac:(lia)) as (ret & q' & b & -> & Hm & Hv).
  cbn [mbind option_bind fst snd]. rewrite Hm. cbn [mbind option_bind].
  destruct (stream_packet_flags p s Hsp) as (flags & Hf & _ & Hfin). rewrite Hf. cbn [mbind option_bind]. rewrite Hfin, Z.eqb_refl. cbn [negb].
  rewrite orb_false_r. destruct b; cbn [negb].
  - destruct (stream_packet_endpoints p s Hsp) as [e He]. destruct (cut_connection_ok avx2 p e (sp_bytes p s Hsp) He) as (out & -> & Hcut).
    cbn [mbind option_bind]. eexists _, out. split; [done|]. split; [done|].
    eapply (cut_off _ _ _ _ e out); [|apply lookup_insert_eq|done|done|done|done].
    destruct (_ <? _)%nat; destruct Hv as [_ Hv]; by apply Hv.
  - eexists _, _. split; [done|]. split; [done|]. destruct (Nat.ltb_spec (Z.to_nat (contiguous_len t')) (length (print_request q))) as [Hlt|Hge].
    + destruct Hv as [-> _]. cbn. apply still_watching. split; try done; [|lia]. cbn.
      rewrite Hd. apply lookup_insert_eq.
    + destruct Hv as [Hr Hv]. rewrite (proj2 (Z.eqb_neq _ _)) by done. apply let_go; [|apply lookup_delete_eq].
      intros Hn. by apply Hv in Hn.
Qed.

Lemma watching_step f t expiry now p off n : bl_ok (blacklist_ f) B -> watching f t expiry -> now < expiry ->
  stream_packet p (off, n) -> received t 0 \/ off = 0 \/ n = 0%nat ->
  exists f' t' out, process_packet avx2 f now p = Some (f', out) /\ blacklist_ f' = blacklist_ f /\
    outcome f' p t' (u64 (now + TIME_OUT_NS)) out /\ forall o, received t' o <-> off <= o < off + Z.of_nat n \/ received t o.
Proof using Hq Hroom Hpath Hbytes Hlen.
  intros HB [W1 W2 W3 W4 W5 W6 W7] Hnow Hsp H0.
  destruct (carries_step isn stream p off n t Hlen W2 W3 W4 W5 (sp_carries _ _ Hsp)) as (t' & Hins & Hok & Hi & Hs & Hst & Hr).
  assert (Hstart : received_map_ t' = [] \/ received t' 0).
  { destruct W6 as [Hm|W6]; [|right; apply Hr; by right]. destruct n as [|n].
    - left. destruct (received_map_ t') as [|[k v] m] eqn:Hm'; [done|]. exfalso.
      assert (received t' k) as Hk. { unfold received. rewrite Hm'. apply covered_cons. left. pose proof (fo_segs t' Hok) as Hsg. rewrite Hm' in Hsg. cbn in Hsg. lia. }
      apply Hr in Hk as [?|Hk]; [lia|]. unfold received in Hk. rewrite Hm in Hk. by apply covered_nil in Hk.
    - right. apply Hr. destruct H0 as [H0|[->|?]]; [by right|left; lia|done]. }
  destruct (analyze_step f t (MkFlowRecord false t expiry) now p (off, n) t') as (f' & out & Ha & Hbl & Ho); try done.
  exists f', t', out. split; [|by split]. unfold process_packet. rewrite (sp_tcp _ _ Hsp). cbn [mbind option_bind].
  rewrite Z.eqb_refl. cbn [negb]. rewrite (sp_flow _ _ Hsp). cbn [mbind option_bind]. rewrite W1. cbn [expiry_time_ done_analyzing_].
  by rewrite (proj2 (Z.leb_gt _ _)).
Qed.

(** A blocked flow stays blocked, and one that was let go passes. *)
Lemma blocked_step f r now p s : flow_cache_ f !! fl = Some r -> done_analyzing_ r = true -> now < expiry_time_ r -> stream_packet p s ->
  exists f' r', process_packet avx2 f now p = Some (f', []) /\ flow_cache_ f' !! fl = Some r' /\ done_analyzing_ r' = true /\
    expiry_time_ r' = u64 (now + TIME_OUT_NS).
Proof.
  intros Hr Hd Hnow Hsp. unfold process_packet. rewrite (sp_tcp _ _ Hsp). cbn [mbind option_bind].
  rewrite Z.eqb_refl. cbn [negb]. rewrite (sp_flow _ _ Hsp). cbn [mbind option_bind]. rewrite Hr.
  rewrite (proj2 (Z.leb_gt _ _)) by done. rewrite Hd. eexists _, _. split; [done|]. split; [apply lookup_insert_eq|]. by split.
Qed.
Lemma forgotten_step f now p s : flow_cache_ f !! fl = None -> stream_packet p s -> process_packet avx2 f now p = Some (f, [(0, p)]).
Proof.
  intros Hr Hsp. unfold process_packet. rewrite (sp_tcp _ _ Hsp). cbn [mbind option_bind].
  rewrite Z.eqb_refl. cbn [negb]. rewrite (sp_flow _ _ Hsp). cbn [mbind option_bind]. rewrite Hr.
  destruct (stream_packet_flags p s Hsp) as (flags & -> & Hsyn & _). cbn [mbind option_bind]. by rewrite Hsyn.
Qed.

(** ** The packets of a flow, one after the other *)
Fixpoint run_flow (f : UrlFilter) (l : list (Z * bytes)) : option (UrlFilter * list (list (Z * bytes))) :=
  match l with
  | [] => Some (f, [])
  | (now, p) :: l => r ← process_packet avx2 f now p; r' ← run_flow r.1 l; Some (r'.1, r.2 :: r'.2)
  end.
(** Each packet comes before the flow times out. *)
Fixpoint timely (prev : Z) (l : list (Z * bytes)) : Prop :=
  match l with
  | [] => True
  | (now, _) :: l => 0 <= now < prev + TIME_OUT_NS /\ now + TIME_OUT_NS < 2 ^ 64 /\ timely now l
  end.
Definition pass (x : Z * bytes) : list (Z * bytes) := [(0, x.2)].
Definition drop_all (x : Z * bytes) : list (Z * bytes) := [].
Definition carry (x : Z * bytes) (s : Z * nat) : Prop := stream_packet x.2 s.

Lemma run_blocked f r prev l offs : flow_cache_ f !! fl = Some r -> done_analyzing_ r = true ->
  expiry_time_ r = prev + TIME_OUT_NS -> timely prev l -> Forall2 carry l offs ->
  exists f', run_flow f l = Some (f', map drop_all l).
Proof.
  intros Hr Hd He Ht Hl. revert f r prev Hr Hd He Ht. induction Hl as [|[now p] s l offs Hp _ IH]; intros f r prev Hr Hd He Ht; [by exists f|].
  destruct Ht as (Hn & Hw & Ht). destruct (blocked_step f r now p s Hr Hd ltac:(lia) Hp) as (f1 & r1 & Hs & Hr1 & Hd1 & He1).
  rewrite wrap_small in He1 by (unfold in_word; unfold TIME_OUT_NS in *; lia).
  destruct (IH f1 r1 now Hr1 Hd1 He1 Ht) as [f' Hf']. exists f'. cbn [run_flow map]. rewrite Hs. cbn [mbind option_bind fst snd]. by rewrite Hf'.
Qed.
Lemma run_forgotten f l offs : flow_cache_ f !! fl = None -> Forall2 carry l offs -> run_flow f l = Some (f, map pass l).
Proof.
  intros Hr Hl. induction Hl as [|[now p] s l offs Hp _ IH]; [done|]. cbn [run_flow map].
  rewrite (forgotten_step f now p s Hr Hp). cbn [mbind option_bind fst snd]. by rewrite IH.
Qed.

(** Data from the beginning arrives first. *)
Definition starts (offs : list (Z * nat)) : Prop := match offs with [] => True | (o, n) :: _ => o = 0 /\ n <> 0%nat end.
Definition carried (offs : list (Z * nat)) (o : Z) : Prop := exists off n, (off, n) ∈ offs /\ off <= o < off + Z.of_nat n.
(** All packets up to one pass, that one is replaced, and the later ones are dropped. *)
Definition cut_somewhere (l : list (Z * bytes)) (outs : list (list (Z * bytes))) : Prop :=
  exists l1 now p l2 e out, l = l1 ++ (now, p) :: l2 /\ outs = map pass l1 ++ out :: map drop_all l2 /\
    endpoints p = Some e /\ cut_ok avx2 e out.

Lemma watching_hole f t expiry : watching f t expiry -> exists o, 0 <= o < Z.of_nat (length (print_request q)) /\ ~ received t o.
Proof.
  intros [W1 W2 W3 W4 W5 W6 W7]. pose proof (print_nonempty q). destruct W6 as [Hm|H0].
  - exists 0. split; [lia|]. unfold received. rewrite Hm. apply covered_nil.
  - destruct (contiguous_data stream t W2 W5 (or_intror H0)) as (Hc & _). destruct (contiguous_prefix t W2 H0) as [Hn _].
    exists (contiguous_len t). split; [lia|done].
Qed.

Lemma run_watching f t prev l offs : bl_ok (blacklist_ f) B -> watching f t (prev + TIME_OUT_NS) -> timely prev l ->
  Forall2 carry l offs -> received t 0 \/ starts offs ->
  exists f' outs, run_flow f l = Some (f', outs) /\
    ((outs = map pass l /\ (~ names_url B q \/
        exists o, 0 <= o < Z.of_nat (length (print_request q)) /\ ~ received t o /\ ~ carried offs o)) \/
     (names_url B q /\ cut_somewhere l outs)).
Proof using Hq Hroom Hpath Hbytes Hlen.
  intros HB Hw Ht Hl Hst. revert f t prev HB Hw Ht Hst.
  induction Hl as [|[now p] [off n] l offs Hp Hl IH]; intros f t prev HB Hw Ht Hst.
  - exists f, []. split; [done|]. left. split; [done|]. right. destruct (watching_hole f t _ Hw) as (o & Ho & Hn).
    exists o. split; [done|]. split; [done|]. intros (? & ? & Hin & _). set_solver.
  - destruct Ht as (Hnow & Hwr & Ht). unfold carry in Hp. cbn [snd] in Hp.
    destruct (watching_step f t (prev + TIME_OUT_NS) now p off n HB Hw ltac:(lia) Hp) as (f1 & t1 & out & Hs & Hbl & Ho & Hr).
    { destruct Hst as [?|[-> Hn]]; [by left|right; by left]. }
    rewrite wrap_small in Ho by (unfold in_word; unfold TIME_OUT_NS in *; lia).
    cbn [run_flow]. rewrite Hs. cbn [mbind option_bind fst snd]. destruct Ho as [Hw1|Hnn Hno|e out r Hnm Hrec Hd Hex He Hcut].
    + assert (Hst1 : received t1 0 \/ starts offs).
      { left. apply Hr. destruct Hst as [?|[-> Hn]]; [by right|left; lia]. }
      destruct (IH f1 t1 now ltac:(by rewrite Hbl) Hw1 Ht Hst1) as (f' & outs & -> & Hres). cbn [mbind option_bind fst snd].
      exists f', ([(0, p)] :: outs). split; [done|]. destruct Hres as [[-> Hres]|[Hnm Hcut]].
      * left. split; [done|]. destruct Hres as [?|(o & Ho & Hno & Hnc)]; [by left|right]. exists o. split; [done|].
        rewrite Hr in Hno. split; [tauto|]. intros (off' & n' & [[= -> ->]|Hin]%elem_of_cons & Hoo); [tauto|]. apply Hnc. by exists off', n'.
      * right. split; [done|]. destruct Hcut as (l1 & now' & p' & l2 & e & out & -> & -> & He & Hc).
        exists ((now, p) :: l1), now', p', l2, e, out. by split.
    + rewrite (run_forgotten f1 l offs Hno Hl). cbn [mbind option_bind fst snd]. eexists _, _. split; [done|]. left. split; [done|]. by left.
    + destruct (run_blocked f1 r now l offs Hrec Hd Hex Ht Hl) as [f' ->]. cbn [mbind option_bind fst snd]. eexists _, _. split; [done|].
      right. split; [done|]. exists [], now, p, l, e, out. by split.
Qed.

(** The packet that opens the flow. *)
Record syn_packet (p : bytes) : Prop := {
  sy_tcp : load 1 (ip_at + ip_protocol) p = Some kTcp;
  sy_flow : flow_of p = Some fl;
  sy_seq : tcp_seq p = Some isn;
  sy_flags : exists flags, tcp_flags p = Some flags /\ Z.land flags kSyn <> 0 /\ Z.land flags kFin = 0 }.

Lemma syn_step f now p : flow_cache_ f !! fl = None -> syn_packet p -> exists f' t,
  process_packet avx2 f now p = Some (f', [(0, p)]) /\ blacklist_ f' = blacklist_ f /\ watching f' t (u64 (now + TIME_OUT_NS)).
Proof.
  clear Hlen Hbytes Hpath Hroom Hq. intros Hno [H1 H2 H3 (flags & H4 & H5 & H6)]. set (t := Tfr true (u32 (isn + 1)) (replicate 128 0) []).
  eexists _, t. unfold process_packet. rewrite H1. cbn [mbind option_bind]. rewrite Z.eqb_refl. cbn [negb]. rewrite H2. cbn [mbind option_bind].
  rewrite Hno, H4. cbn [mbind option_bind]. rewrite (proj2 (Z.eqb_neq _ _)) by done. cbn [negb]. unfold analyze.
  rewrite (InsertPacket_syn _ p isn flags) by done. cbn [mbind option_bind fst snd negb buffer_ new_record new_flow buf_ received_map_]. fold t.
  change (slice 0 (contiguous_len t) (buf_ t)) with (Some (@nil Z)). cbn [mbind option_bind].
  change (phr_parse_request [] 16 0) with (Some (-2, no_request)). cbn [mbind option_bind fst snd].
  change (matched (blacklist_ f) (-2) no_request) with (Some false). cbn [mbind option_bind negb]. rewrite H4. cbn [mbind option_bind].
  rewrite H6, !Z.eqb_refl. cbn [negb orb]. split; [done|]. split; [done|].
  split; [apply lookup_insert_eq|split; [done|]; intros o Ho; by apply covered_nil in Ho|done|done| |by left|].
  - intros o Ho. by apply covered_nil in Ho.
  - cbn. pose proof (print_nonempty q). lia.
Qed.
End Flow.


(** A packet changes nothing of the other flows. *)
Lemma analyze_other avx2 f fl r now p f' out : analyze avx2 f fl r now p = Some (f', out) ->
  blacklist_ f' = blacklist_ f /\ forall g, g <> fl -> flow_cache_ f' !! g = flow_cache_ f !! g.
Proof.
  unfold analyze. destruct (InsertPacket (buffer_ r) p) as [ins|]; [|done]. cbn [mbind option_bind].
  destruct (negb ins.2); [intros [= <- _]; split; [done|]; intros g Hg; by apply lookup_delete_ne|].
  destruct (slice 0 _ _); [|done]. cbn [mbind option_bind]. destruct (phr_parse_request _ 16 0) as [res|]; [|done]. cbn [mbind option_bind].
  destruct (matched _ _ _) as [[]|]; [| |done]; cbn [mbind option_bind negb].
  - destruct (cut_connection avx2 p); [|done]. intros [= <- _]. split; [done|]. intros g Hg. by apply lookup_insert_ne.
  - destruct (tcp_flags p); [|done]. intros [= <- _]. split; [done|]. intros g Hg. cbn.
    destruct (_ || _); [by apply lookup_delete_ne|by apply lookup_insert_ne].
Qed.
Lemma process_other avx2 f now p f' out fl : flow_of p = Some fl -> process_packet avx2 f now p = Some (f', out) ->
  blacklist_ f' = blacklist_ f /\ forall g, g <> fl -> flow_cache_ f' !! g = flow_cache_ f !! g.
Proof.
  intros Hfl. unfold process_packet. destruct (load 1 _ p) as [proto|]; [|done]. cbn [mbind option_bind].
  destruct (negb _); [by intros [= <- _]|]. rewrite Hfl. cbn [mbind option_bind].
  assert (Hfresh : forall f0, blacklist_ f0 = blacklist_ f -> (forall g, g <> fl -> flow_cache_ f0 !! g = flow_cache_ f !! g) ->
    (flags ← tcp_flags p; if negb (Z.land flags kSyn =? 0) then analyze avx2 f0 fl new_record now p else Some (f0, [(0, p)])) = Some (f', out) ->
    blacklist_ f' = blacklist_ f /\ forall g, g <> fl -> flow_cache_ f' !! g = flow_cache_ f !! g).
  { intros f0 Hb Hc. destruct (tcp_flags p); [|done]. cbn [mbind option_bind]. destruct (negb _); [|intros [= <- _]; by split].
    intros Ha. destruct (analyze_other _ _ _ _ _ _ _ _ Ha) as [Hb' Hc']. split; [congruence|]. intros g Hg. rewrite Hc' by done. by apply Hc. }
  destruct (flow_cache_ f !! fl) as [r|]; [|by apply Hfresh].
  destruct (_ <=? now).
  - apply Hfresh; [done|]. intros g Hg. by apply lookup_delete_ne.
  - destruct (done_analyzing_ r); [intros [= <- _]; split; [done|]; intros g Hg; by apply lookup_insert_ne|]. apply analyze_other.
Qed.

(** ** A connection *)
Definition ex_tcp (seq flags : Z) (data : bytes) : bytes :=
  [1; 1; 1; 1; 1; 1; 2; 2; 2; 2; 2; 2; 8; 0; 0x45; 0] ++ be_store 2 (40 + Z.of_nat (length data)) ++ [0; 0; 0; 0; 64; kTcp; 0; 0; 10; 0; 0; 1; 10; 0; 0; 2] ++
  [0xc3; 0x50; 0; 80] ++ be_store 4 seq ++ [0; 0; 9; 9] ++ [0x50; flags] ++ replicate 6 0 ++ data.
Definition ex_url : bytes * bytes := (bytes_of "x.org", bytes_of "/bad").
Definition ex_q : Request := MkRequest (bytes_of "GET") (bytes_of "/bad") 1 [(Some (bytes_of "Host"), bytes_of "x.org")].
Definition ex_offs : list (Z * nat) := [(0, 10%nat); (20, 16%nat); (8, 12%nat); (5, 5%nat)].
Definition ex_piece (s : Z * nat) : bytes := ex_tcp (u32 (1000 + 1 + s.1)) 0x10 (take s.2 (drop (Z.to_nat s.1) (print_request ex_q ++ bytes_of "xyz"))).
Definition ex_times : list Z := [10; 20; 30; 40].
Definition ex_packets : list (Z * bytes) := zip ex_times (map ex_piece ex_offs).
Definition ex_flow : Flow := default (0, 0, 0, 0) (flow_of (ex_tcp 1000 2 [])).
Definition ex_filter : UrlFilter := default (MkUrlFilter ∅ ∅) (Init (MkUrlFilter ∅ ∅) [ex_url]).

Lemma ex_q_ok : request_ok ex_q.
Proof.
  split; [by_compute|by_compute|cbn; lia|]. split; [|done]. split; [by_compute|]. cbn [fst snd]. split; [done|split; by_compute].
Qed.
Lemma ex_packets_carry : Forall2 (carry ex_q (bytes_of "xyz") 1000 ex_flow) ex_packets ex_offs.
Proof.
  repeat first [apply Forall2_nil; done|apply Forall2_cons; split]; (split; cbn [snd];
    [by_compute|vm_compute; reflexivity|vm_compute; reflexivity| |intros flags Hf; vm_compute in Hf; injection Hf as <-; reflexivity]);
    exists 0x10; (split; [cbn; lia|]); (split; [apply Z.leb_le; vm_compute; reflexivity|]); (split; [done|]); split; vm_compute; reflexivity.
Qed.
Lemma ex_names_url : names_url (list_to_set [ex_url]) ex_q.
Proof. apply Exists_cons. left. split; [vm_compute; reflexivity|]. apply elem_of_list_to_set. by left. Qed.


(** A path with a byte above 127, which the parser accepts, indexes the trie out of bounds. *)
Lemma high_byte_undefined : process_packets true ex_filter 5
  [ex_tcp 1000 2 []; ex_tcp 1001 0x10 (bytes_of "GET /" ++ [255] ++ bytes_of " HTTP/1.1" ++ [CR; LF] ++ bytes_of "Host: x.org" ++ [CR; LF; CR; LF])] = None.
Proof. vm_compute. reflexivity. Qed.
(** Any beginning of [Host], and a continuing line, is taken for the host; [host] is not. *)
Lemma host_names : is_host (Some (bytes_of "H")) = true /\ is_host None = true /\ is_host (Some (bytes_of "host")) = false.
Proof. by vm_compute. Qed.
