(* ===== verification/NatStamp.v ===== *)
(** Endpoints and the rewriting of packets by the address translators:
    [core/modules/nat.h], [ExtractEndpoint] and [Stamp] of [core/modules/nat.cc].

    An address or port is the raw big-endian word of the packet, as in the source. *)
From S2P Require Import Prelude Endian Checksum Frame.

(** [be32_t] and [be16_t] members are their raw words. *)
Record Endpoint := MkEndpoint { addr : Z; port : Z; protocol : Z }.

#[export] Instance endpoint_eq_dec : EqDecision Endpoint.
Proof. solve_decision. Defined.
#[export] Instance endpoint_countable : Countable Endpoint.
Proof.
  refine (inj_countable' (fun e => (addr e, port e, protocol e))
    (fun x => MkEndpoint x.1.1 x.1.2 x.2) _). by intros [].
Defined.

(** The struct as the [uint64_t] that is hashed and the one that is compared. *)
Definition hash_word (e : Endpoint) : Z :=
  Z.lor (Z.lor (Z.shiftl (addr e) 32) (Z.shiftl (port e) 16)) (protocol e).
Definition endpoint_word (e : Endpoint) : Z := le_load (le_store 4 (addr e) ++ le_store 2 (port e) ++ le_store 2 (protocol e)).
Definition EqualTo (lhs rhs : Endpoint) : bool := endpoint_word lhs =? endpoint_word rhs.

Inductive Direction := kForward | kReverse.
#[export] Instance direction_dec : EqDecision Direction.
Proof. solve_decision. Defined.

(** The address and the port that a direction translates. *)
Definition addr_at (dir : Direction) : Z := ip_at + match dir with kForward => ip_src_addr | kReverse => ip_dst_addr end.
Definition port_at (dir : Direction) (l4 : Z) : Z :=
  l4 + match dir with kForward => udp_src_port | kReverse => udp_dst_port end.

(** [None] inside is the invalid endpoint. *)
Definition ExtractEndpoint (p : bytes) (l4 : Z) (dir : Direction) : option (option Endpoint) :=
  proto ← load 1 (ip_at + ip_protocol) p;
  if (proto =? kTcp) || (proto =? kUdp) then
    a ← load 4 (addr_at dir) p;
    prt ← load 2 (port_at dir l4) p;
    Some (Some (MkEndpoint a prt proto))
  else if proto =? kIcmp then
    ty ← load 1 (l4 + icmp_type) p;
    if (ty =? 0) || (ty =? 8) || (ty =? 13) || (ty =? 15) || (ty =? 16) then
      a ← load 4 (addr_at dir) p;
      ident ← load 2 (l4 + icmp_ident) p;
      Some (Some (MkEndpoint a ident kIcmp))
    else Some None
  else Some None.

Definition Stamp (dir : Direction) (p : bytes) (l4 : Z) (before after : Endpoint) : option bytes :=
  proto ← load 1 (ip_at + ip_protocol) p;
  p ← store 4 (addr_at dir) (addr after) p;
  let l3_increment := ChecksumIncrement32 (addr before) (addr after) in
  ck ← load 2 (ip_at + ip_checksum) p;
  p ← store 2 (ip_at + ip_checksum) (UpdateChecksumWithIncrement ck l3_increment) p;
  let l4_increment := u32 (l3_increment + ChecksumIncrement16 (port before) (port after)) in
  if (proto =? kTcp) || (proto =? kUdp) then
    p ← store 2 (port_at dir l4) (port after) p;
    if proto =? kTcp then
      ck ← load 2 (l4 + tcp_checksum) p;
      store 2 (l4 + tcp_checksum) (UpdateChecksumWithIncrement ck l4_increment) p
    else
      ck ← load 2 (l4 + udp_checksum) p;
      if negb (ck =? 0) then
        let ck' := UpdateChecksumWithIncrement ck l4_increment in
        store 2 (l4 + udp_checksum) (if ck' =? 0 then 0xffff else ck') p
      else Some p
  else
    p ← store 2 (l4 + icmp_ident) (port after) p;
    ck ← load 2 (l4 + icmp_checksum) p;
    store 2 (l4 + icmp_checksum) (UpdateChecksum16 ck (port before) (port after)) p.

(** ** Endpoints as words *)
Definition endpoint_ok (e : Endpoint) : Prop :=
  in_word 32 (addr e) /\ in_word 16 (port e) /\ in_word 16 (protocol e).

Lemma EqualTo_spec a b : endpoint_ok a -> endpoint_ok b -> EqualTo a b = true <-> a = b.
Proof.
  intros (Ha1 & Ha2 & Ha3) (Hb1 & Hb2 & Hb3). unfold EqualTo. rewrite Z.eqb_eq. split; [|by intros ->].
  intros H. apply le_load_inj in H; [|rewrite !bytes_ok_app; auto with bess|rewrite !bytes_ok_app; auto with bess|
    by rewrite !length_app, !length_le_store].
  apply app_inj_1 in H as [H1 H]; [|by rewrite !length_le_store].
  apply app_inj_1 in H as [H2 H3]; [|by rewrite !length_le_store].
  apply (f_equal le_load) in H1, H2, H3. rewrite !le_load_store in H1, H2, H3.
  destruct a, b; cbn in *. unfold in_word in *. change (256 ^ Z.of_nat 4) with (2 ^ 32) in H1.
  change (256 ^ Z.of_nat 2) with (2 ^ 16) in H2, H3. rewrite !Z.mod_small in H1, H2, H3 by done. by subst.
Qed.

(** ** What a stamp does to the sums *)

(** Bounds on positions in a buffer that was written to. *)
Ltac offs := unfold addr_at, port_at, ip_at, ETHER_SIZE, ip_protocol, ip_checksum, ip_src_addr, ip_dst_addr,
  udp_src_port, udp_dst_port, udp_checksum, tcp_checksum, icmp_type, icmp_checksum, icmp_ident; lia.

Lemma dword_words o i p : (o + 4 * i + 4 <= length p)%nat ->
  dword (drop o p) i = word16 (o + 4 * i) p + 2 ^ 16 * word16 (o + 4 * i + 2) p.
Proof.
  intros Hl. unfold dword, word16. rewrite drop_drop, (le_load_split 2 (take 4 _)).
  rewrite take_take, skipn_firstn_comm, drop_drop. cbn [Nat.min].
  assert (length (take 2 (drop (o + 4 * i) p)) = 2%nat) as -> by (rewrite length_take, length_drop; lia).
  reflexivity.
Qed.

Lemma bytes_other o off k v p : (o + 2 <= length p)%nat -> (off + k <= o \/ o + 2 <= off)%nat ->
  take k (drop off (store16 o v p)) = take k (drop off p).
Proof.
  intros Hl [H|H].
  - by rewrite !firstn_skipn_comm, store16_take_lo by lia.
  - by rewrite store16_drop_hi.
Qed.

Lemma nth_take_drop off (p : bytes) : nth off p 0 = nth 0 (take 1 (drop off p)) 0.
Proof.
  revert off. induction p as [|b p IH]; intros [|off]; try done. cbn [nth]. rewrite IH. done.
Qed.

Lemma load_1 off p : 0 <= off -> off + 1 <= Z.of_nat (length p) -> load 1 off p = Some (nth (Z.to_nat off) p 0).
Proof.
  intros H1 H2. unfold load. rewrite slice_Some, nth_take_drop by lia. cbn [fmap option_fmap option_map].
  change (Z.to_nat (Z.of_nat 1)) with 1%nat. f_equal.
  destruct (drop (Z.to_nat off) p) as [|b r]; [done|]. cbn. rewrite take_0. cbn. lia.
Qed.

Lemma load_4 off p : 0 <= off -> off + 4 <= Z.of_nat (length p) ->
  load 4 off p = Some (word16 (Z.to_nat off) p + 2 ^ 16 * word16 (Z.to_nat off + 2) p).
Proof.
  intros H1 H2. unfold load. rewrite slice_Some by lia. cbn [fmap option_fmap option_map]. f_equal.
  pose proof (dword_words (Z.to_nat off) 0 p ltac:(lia)) as Hd. rewrite Nat.mul_0_r, Nat.add_0_r in Hd. exact Hd.
Qed.

Lemma wsum_ge_first o n p : bytes_ok p -> (2 <= n)%nat -> (o + n <= length p)%nat -> word16 o p <= wsum o n p.
Proof.
  intros Hok Hn Hl. unfold wsum, word16.
  destruct (drop o p) as [|b0 [|b1 r]] eqn:Hd; try (apply (f_equal length) in Hd; rewrite length_drop in Hd; cbn in Hd; lia).
  assert (bytes_ok (b0 :: b1 :: r)) as Hok' by (rewrite <- Hd; auto with bess).
  destruct n as [|[|n]]; [lia|lia|]. cbn [firstn]. rewrite take_0. cbn [sum16 le_load].
  assert (0 <= sum16 (take n r)); [|lia]. apply sum16_nonneg. unfold bytes_ok in *. rewrite !Forall_cons in Hok'.
  apply bytes_ok_take. tauto.
Qed.

(** The packet after the five stores: address, IP checksum, port, L4 checksum. *)
Definition stamped (p : bytes) (A : nat) (a c : Z) (PT : nat) (prt : Z) (CK : nat) (ck : Z) : bytes :=
  store16 CK ck (store16 PT prt (store16 24 c (store16 A (u16 a) (store16 (A + 2) (a / 2 ^ 16) p)))).

Section stamped.
Context (p : bytes) (A : nat) (a c : Z) (PT : nat) (prt : Z) (CK : nat) (ck : Z) (l4 n : nat).
Context (Hok : bytes_ok p) (HA : A = 26%nat \/ A = 30%nat) (Hl4 : (34 <= l4)%nat) (Hn : (l4 + n <= length p)%nat).
Context (HPT : (l4 <= PT)%nat /\ (PT + 2 <= l4 + n)%nat /\ Z.odd (Z.of_nat (PT - l4)) = false).
Context (HCK : (l4 <= CK)%nat /\ (CK + 2 <= l4 + n)%nat /\ Z.odd (Z.of_nat (CK - l4)) = false).
Context (Hdis : (PT + 2 <= CK \/ CK + 2 <= PT)%nat).
Context (Ha : in_word 32 a) (Hc : in_word 16 c) (Hprt : in_word 16 prt) (Hck : in_word 16 ck).

Abbreviation p' := (stamped p A a c PT prt CK ck).

Lemma stamped_length : length p' = length p.
Proof using All. unfold stamped. by rewrite !length_store16 by len16. Qed.

Lemma stamped_ok : bytes_ok p'.
Proof using Hok. unfold stamped. by do 5 apply store16_ok. Qed.

(** Bytes that are not written. *)
Lemma stamped_other off k : (off + k <= 24 \/ 26 <= off /\ (off + k <= A \/ A + 4 <= off))%nat ->
  (off + k <= PT \/ PT + 2 <= off)%nat -> (off + k <= CK \/ CK + 2 <= off)%nat ->
  take k (drop off p') = take k (drop off p).
Proof using All. intros. unfold stamped. by rewrite !bytes_other by len16. Qed.

Lemma stamped_addr : word16 A p' + 2 ^ 16 * word16 (A + 2) p' = a.
Proof using All.
  unfold stamped. rewrite !(word16_other CK), !(word16_other PT), !(word16_other 24) by len16.
  rewrite word16_store16 by len16.
  rewrite (word16_other A (A + 2)), word16_store16 by len16.
  unfold in_word in Ha. change (2 ^ 32) with 4294967296 in Ha. unfold wrap. change (2 ^ 16) with 65536. zlia.
Qed.

Lemma in_word_hi : in_word 16 (a / 2 ^ 16).
Proof using All. unfold in_word in *. change (2 ^ 32) with 4294967296 in Ha. change (2 ^ 16) with 65536. zlia. Qed.

Lemma stamped_ip_sum hl : (14 + hl = l4)%nat ->
  wsum 14 hl p' = wsum 14 hl p + (c - word16 24 p) + (u16 a - word16 A p) + (a / 2 ^ 16 - word16 (A + 2) p).
Proof using All.
  intros Hhl. unfold stamped. rewrite (wsum_other 14 hl CK), (wsum_other 14 hl PT) by len16.
  pose proof in_word_hi as Hhi.
  rewrite (wsum_store16 14 hl 24), (wsum_store16 14 hl A), (wsum_store16 14 hl (A + 2))
    by (len16 || done || (by repeat apply store16_ok) || (by apply wrap_range) ||
        (destruct HA as [-> | ->]; reflexivity)).
  rewrite (word16_other A 24), (word16_other (A + 2) 24), (word16_other (A + 2) A)
    by len16. lia.
Qed.

Lemma stamped_l4_sum : wsum l4 n p' = wsum l4 n p + (prt - word16 PT p) + (ck - word16 CK p).
Proof using All.
  destruct HPT as (? & ? & ?), HCK as (? & ? & ?). unfold stamped.
  rewrite (wsum_store16 l4 n CK), (wsum_store16 l4 n PT)
    by (len16 || done || (by repeat apply store16_ok)).
  rewrite (wsum_other l4 n 24), (wsum_other l4 n A), (wsum_other l4 n (A + 2)) by len16.
  rewrite (word16_other PT CK), !(word16_other 24), !(word16_other A), !(word16_other (A + 2))
    by len16. lia.
Qed.
End stamped.

(** ** The stamp of each protocol *)

Definition addr_pos (dir : Direction) : nat := match dir with kForward => 26 | kReverse => 30 end.
(** Where the port or identifier and the checksum of a protocol are. *)
Definition port_pos (dir : Direction) (proto : Z) (l4 : nat) : nat :=
  if proto =? kIcmp then l4 + 4 else l4 + match dir with kForward => 0 | kReverse => 2 end.
Definition ck_pos (proto : Z) (l4 : nat) : nat :=
  l4 + if proto =? kTcp then 16 else if proto =? kUdp then 6 else 2.
Definition l4_header (proto : Z) : nat := if proto =? kTcp then 20 else 8.

Lemma extract_spec dir p l4 e : 34 <= Z.of_nat l4 -> bytes_ok p ->
  (l4 + l4_header (nth 23%nat p 0%Z) <= length p)%nat ->
  ExtractEndpoint p (Z.of_nat l4) dir = Some (Some e) <->
  let proto := nth 23%nat p 0 in
  (proto = kTcp \/ proto = kUdp \/
   proto = kIcmp /\ (nth l4 p 0 = 0 \/ nth l4 p 0 = 8 \/ nth l4 p 0 = 13 \/ nth l4 p 0 = 15 \/ nth l4 p 0 = 16)) /\
  e = MkEndpoint (word16 (addr_pos dir) p + 2 ^ 16 * word16 (addr_pos dir + 2) p)
        (word16 (port_pos dir proto l4) p) proto.
Proof.
  intros Hl4 Hok Hlen. cbn zeta.
  assert (Hh : (8 <= l4_header (nth 23%nat p 0%Z))%nat) by (unfold l4_header; case_match; lia).
  unfold ExtractEndpoint. rewrite (load_1 (ip_at + ip_protocol)) by offs. change (Z.to_nat (ip_at + ip_protocol)) with 23%nat.
  cbn [mbind option_bind].
  assert (Haddr : load 4 (addr_at dir) p = Some (word16 (addr_pos dir) p + 2 ^ 16 * word16 (addr_pos dir + 2) p)).
  { destruct dir; apply load_4; offs. }
  rewrite Haddr. set (proto := nth 23 p 0) in *. unfold port_pos.
  destruct (Z.eqb_spec proto kTcp) as [Ht|Ht]; [|destruct (Z.eqb_spec proto kUdp) as [Hu|Hu]]; cbn [orb].
  - rewrite Ht. change (kTcp =? kIcmp) with false. cbn match.
    rewrite load_2 by (destruct dir; offs). cbn [mbind option_bind].
    replace (Z.to_nat (port_at dir (Z.of_nat l4))) with (l4 + match dir with kForward => 0 | kReverse => 2 end)%nat
      by (destruct dir; offs).
    split; [intros [= <-]; by split; [left|]|intros [_ ->]; done].
  - rewrite Hu. change (kUdp =? kIcmp) with false. cbn match.
    rewrite load_2 by (destruct dir; offs). cbn [mbind option_bind].
    replace (Z.to_nat (port_at dir (Z.of_nat l4))) with (l4 + match dir with kForward => 0 | kReverse => 2 end)%nat
      by (destruct dir; offs).
    split; [intros [= <-]; by split; [right; left|]|intros [_ ->]; done].
  - destruct (Z.eqb_spec proto kIcmp) as [Hi|Hi]; [|split; [done|intros [[?|[?|[? _]]] _]; done]].
    rewrite load_1 by offs. cbn [mbind option_bind].
    replace (Z.to_nat (Z.of_nat l4 + icmp_type)) with l4 by offs. set (ty := nth l4 p 0).
    destruct ((ty =? 0) || _ || _ || _ || _) eqn:Hty.
    + rewrite load_2 by offs. cbn [mbind option_bind].
      replace (Z.to_nat (Z.of_nat l4 + icmp_ident)) with (l4 + 4)%nat by offs.
      rewrite !orb_true_iff, !Z.eqb_eq in Hty.
      split; [intros [= <-]; split; [right; right; split; [done|tauto]|by rewrite Hi]|intros [_ ->]; by rewrite Hi].
    + rewrite !orb_false_iff, !Z.eqb_neq in Hty. split; [done|]. intros [[?|[?|[_ ?]]] _]; tauto.
Qed.

(** The new L4 checksum: it moves by what the address and the port move. *)
Definition ck_moved (before after : Endpoint) (old ck : Z) : Prop :=
  if protocol before =? kIcmp then (ck + port after - old - port before) mod 65535 = 0
  else if (protocol before =? kUdp) && (old =? 0) then ck = 0
  else (protocol before = kUdp -> ck <> 0) /\
       (ck + addr after + port after - old - addr before - port before) mod 65535 = 0.

Lemma update_l3 ck before after : in_word 16 ck -> in_word 32 before -> in_word 32 after ->
  let c := UpdateChecksumWithIncrement ck (ChecksumIncrement32 before after) in
  in_word 16 c /\ (c + after - ck - before) mod 65535 = 0.
Proof.
  intros Hck Hb Ha. destruct (increment32_mod before after Hb Ha) as [Hr Hm].
  destruct (update_increment ck (ChecksumIncrement32 before after) Hck ltac:(lia)) as [Hw Hu].
  split; [done|]. zlia.
Qed.

Lemma update_l4 ck before after : in_word 16 ck -> endpoint_ok before -> endpoint_ok after ->
  let c := UpdateChecksumWithIncrement ck (u32 (ChecksumIncrement32 (addr before) (addr after) +
             ChecksumIncrement16 (port before) (port after))) in
  in_word 16 c /\ (c + addr after + port after - ck - addr before - port before) mod 65535 = 0.
Proof.
  intros Hck (Hb & Hbp & _) (Ha & Hap & _).
  destruct (increment32_mod _ _ Hb Ha) as [Hr Hm]. destruct (increment16_mod _ _ Hbp Hap) as [Hr' Hm'].
  rewrite wrap_small by (unfold in_word; lia).
  destruct (update_increment ck (ChecksumIncrement32 (addr before) (addr after) +
    ChecksumIncrement16 (port before) (port after)) Hck ltac:(lia)) as [Hw Hu].
  split; [done|]. zlia.
Qed.

Lemma update_icmp ck before after : in_word 16 ck -> in_word 16 before -> in_word 16 after ->
  in_word 16 (UpdateChecksum16 ck before after) /\
  (UpdateChecksum16 ck before after + after - ck - before) mod 65535 = 0.
Proof.
  intros Hck Hb Ha. destruct (increment16_mod before after Hb Ha) as [Hr Hm].
  destruct (update_increment ck (ChecksumIncrement16 before after) Hck ltac:(lia)) as [Hw Hu].
  split; [done|]. unfold UpdateChecksum16. zlia.
Qed.

Section stamp.
Context (dir : Direction) (p : bytes) (l4 : nat) (before after : Endpoint).
Context (Hl4 : 34 <= Z.of_nat l4) (Hok : bytes_ok p).
Context (Hlen : (l4 + l4_header (nth 23%nat p 0%Z) <= length p)%nat).
Context (Hext : ExtractEndpoint p (Z.of_nat l4) dir = Some (Some before)).
Context (Hafter : endpoint_ok after).

Abbreviation proto := (protocol before).
Abbreviation A := (addr_pos dir).
Abbreviation PT := (port_pos dir proto l4).
Abbreviation CK := (ck_pos proto l4).

Lemma before_eq : before = MkEndpoint (word16 A p + 2 ^ 16 * word16 (A + 2) p) (word16 PT p) (nth 23 p 0) /\
  (proto = kTcp \/ proto = kUdp \/ proto = kIcmp).
Proof using All.
  pose proof (proj1 (extract_spec dir p l4 before Hl4 Hok Hlen) Hext) as [Hp He].
  assert (proto = nth 23 p 0) as Hpr by (by rewrite He). rewrite Hpr. split; [exact He|tauto].
Qed.

Lemma before_ok : endpoint_ok before.
Proof using All.
  destruct before_eq as [He Hp]. pose proof (word16_word A p Hok). pose proof (word16_word (A + 2) p Hok).
  pose proof (word16_word PT p Hok). split; [|split].
  - rewrite He. cbn. unfold in_word in *. change (2 ^ 16) with 65536 in *. change (2 ^ 32) with 4294967296. lia.
  - rewrite He. done.
  - destruct Hp as [-> | [-> | ->]]; by split.
Qed.

Lemma positions : (l4 + l4_header proto <= length p)%nat /\
  ((l4 <= PT)%nat /\ (PT + 2 <= l4 + l4_header proto)%nat /\ Z.odd (Z.of_nat (PT - l4)) = false) /\
  ((l4 <= CK)%nat /\ (CK + 2 <= l4 + l4_header proto)%nat /\ Z.odd (Z.of_nat (CK - l4)) = false) /\
  (PT + 2 <= CK \/ CK + 2 <= PT)%nat.
Proof using All.
  destruct before_eq as [He Hp]. split; [rewrite He; exact Hlen|]. unfold port_pos, ck_pos, l4_header.
  assert (Hodd : forall k, Z.odd (Z.of_nat (l4 + k - l4)) = Z.odd (Z.of_nat k)) by (intros k; f_equal; lia).
  destruct Hp as [-> | [-> | ->]]; cbn [Z.eqb Pos.eqb kTcp kUdp kIcmp]; destruct dir; rewrite !Hodd;
    (do 2 (split; [split; [lia|split; [lia|done]]|]); lia).
Qed.

Lemma Stamp_spec : exists c ck,
  Stamp dir p (Z.of_nat l4) before after = Some (stamped p A (addr after) c PT (port after) CK ck) /\
  in_word 16 c /\ in_word 16 ck /\
  (c + addr after - word16 24 p - addr before) mod 65535 = 0 /\
  ck_moved before after (word16 CK p) ck.
Proof using All.
  destruct before_eq as [He Hp]. pose proof before_ok as Hb. destruct positions as (Hlp & HPT & HCK & Hdis).
  pose proof Hb as (Hba & Hbp & _). pose proof Hafter as (Haa & Hap & _).
  pose proof (word16_word 24 p Hok) as H24. pose proof (word16_word CK p Hok) as Hck0.
  destruct (update_l3 _ _ _ H24 Hba Haa) as [Hcw Hcm]. cbn zeta in Hcm.
  set (c := UpdateChecksumWithIncrement _ _) in Hcw, Hcm. exists c.
  assert (HA : A = 26%nat \/ A = 30%nat) by (destruct dir; (by left) || by right).
  assert (Hproto : load 1 (ip_at + ip_protocol) p = Some proto).
  { rewrite load_1 by offs. by rewrite He. }
  unfold Stamp. rewrite Hproto. cbn [mbind option_bind].
  rewrite store_4 by (destruct dir; offs). cbn [mbind option_bind].
  assert (Z.to_nat (addr_at dir) = A) as -> by (by destruct dir). set (p1 := store16 A _ _).
  assert (Hl1 : length p1 = length p) by (unfold p1; by rewrite !length_store16 by len16).
  rewrite load_2 by (rewrite ?Hl1; offs). change (Z.to_nat (ip_at + ip_checksum)) with 24%nat.
  assert (word16 24 p1 = word16 24 p) as ->.
  { unfold p1. by rewrite !word16_other by len16. }
  cbn [mbind option_bind]. rewrite store_2 by (rewrite ?Hl1; offs). cbn [mbind option_bind].
  fold c. change (Z.to_nat (ip_at + ip_checksum)) with 24%nat. set (p2 := store16 24 c p1).
  assert (Hl2 : length p2 = length p) by (unfold p2; rewrite length_store16; lia).
  assert (Hsame : word16 CK (store16 PT (port after) p2) = word16 CK p).
  { unfold p2, p1. by rewrite !word16_other by len16. }
  assert (Hl3 : length (store16 PT (port after) p2) = length p) by (rewrite length_store16; lia).
  assert (Hok3 : bytes_ok (store16 PT (port after) p2)) by (unfold p2, p1; by repeat apply store16_ok).
  set (p3 := store16 PT (port after) p2) in *.
  assert (Hfin : forall ck, stamped p A (addr after) c PT (port after) CK ck = store16 CK ck p3) by done.
  destruct Hp as [Hpr|[Hpr|Hpr]].
  - assert (Hh : l4_header proto = 20%nat) by (by rewrite Hpr).
    assert (Z.to_nat (port_at dir (Z.of_nat l4)) = PT) as HPTz
      by (unfold port_pos; rewrite Hpr; destruct dir; cbn [Z.eqb Pos.eqb kTcp kIcmp]; offs).
    assert (Z.to_nat (Z.of_nat l4 + tcp_checksum) = CK) as HCKz
      by (unfold ck_pos; rewrite Hpr; cbn [Z.eqb Pos.eqb kTcp]; offs).
    destruct (update_l4 _ _ _ Hck0 Hb Hafter) as [Hw Hm]. cbn zeta in Hw, Hm.
    set (ck := UpdateChecksumWithIncrement (word16 CK p) _) in Hw, Hm. exists ck.
    rewrite Hfin, (proj2 (Z.eqb_eq _ _) Hpr). cbn [orb].
    rewrite store_2 by (rewrite ?Hl2; destruct dir; offs). rewrite HPTz. cbn [mbind option_bind]. fold p3.
    rewrite load_2 by (rewrite ?Hl3; offs). rewrite HCKz, Hsame. cbn [mbind option_bind]. fold ck.
    rewrite store_2 by (rewrite ?Hl3; offs). rewrite HCKz.
    split; [done|]. split; [done|]. split; [done|]. split; [done|].
    unfold ck_moved. assert ((proto =? kIcmp) = false) as -> by (by rewrite Hpr).
    assert ((proto =? kUdp) = false) as -> by (by rewrite Hpr). split; [intros Hx; rewrite Hpr in Hx; discriminate Hx|exact Hm].
  - assert (Hh : l4_header proto = 8%nat) by (by rewrite Hpr).
    assert (Z.to_nat (port_at dir (Z.of_nat l4)) = PT) as HPTz
      by (unfold port_pos; rewrite Hpr; destruct dir; cbn [Z.eqb Pos.eqb kUdp kIcmp]; offs).
    assert (Z.to_nat (Z.of_nat l4 + udp_checksum) = CK) as HCKz
      by (unfold ck_pos; rewrite Hpr; cbn [Z.eqb Pos.eqb kTcp kUdp]; offs).
    rewrite (proj2 (Z.eqb_eq proto kUdp) Hpr), orb_true_r.
    rewrite store_2 by (rewrite ?Hl2; destruct dir; offs). rewrite HPTz. cbn [mbind option_bind]. fold p3.
    assert ((proto =? kTcp) = false) as -> by (by rewrite Hpr).
    rewrite load_2 by (rewrite ?Hl3; offs). rewrite HCKz, Hsame. cbn [mbind option_bind].
    destruct (Z.eqb_spec (word16 CK p) 0) as [Hz|Hz]; cbn [negb].
    + exists 0. rewrite Hfin. split; [f_equal; rewrite <- Hz, <- Hsame; symmetry; apply store16_self; [done|lia]|].
      split; [done|]. split; [done|]. split; [done|]. unfold ck_moved. rewrite Hz.
      by rewrite (proj2 (Z.eqb_eq proto kUdp) Hpr), (proj2 (Z.eqb_neq proto kIcmp)) by (by rewrite Hpr).
    + destruct (update_l4 _ _ _ Hck0 Hb Hafter) as [Hw Hm]. cbn zeta in Hw, Hm.
      set (ck := UpdateChecksumWithIncrement (word16 CK p) _) in Hw, Hm |- *.
      exists (if ck =? 0 then 65535 else ck). rewrite Hfin.
      rewrite store_2 by (rewrite ?Hl3; offs). rewrite HCKz.
      split; [done|]. split; [done|]. split; [case_match; [by split|done]|]. split; [done|].
      unfold ck_moved. rewrite (proj2 (Z.eqb_neq proto kIcmp)), (proj2 (Z.eqb_neq (word16 CK p) 0)), andb_false_r
        by (done || by rewrite Hpr).
      destruct (Z.eqb_spec ck 0) as [Hc0|]; [|by split]. split; [done|]. rewrite Hc0 in Hm. zlia.
  - assert (Hh : l4_header proto = 8%nat) by (by rewrite Hpr).
    assert (Z.to_nat (Z.of_nat l4 + icmp_ident) = PT) as HPTz
      by (unfold port_pos; rewrite Hpr; cbn [Z.eqb Pos.eqb kIcmp]; offs).
    assert (Z.to_nat (Z.of_nat l4 + icmp_checksum) = CK) as HCKz
      by (unfold ck_pos; rewrite Hpr; cbn [Z.eqb Pos.eqb kTcp kUdp kIcmp]; offs).
    destruct (update_icmp _ _ _ Hck0 Hbp Hap) as [Hw Hm]. eexists. rewrite Hfin.
    assert ((proto =? kTcp) || (proto =? kUdp) = false) as -> by (by rewrite Hpr).
    rewrite store_2 by (rewrite ?Hl2; offs). rewrite HPTz. cbn [mbind option_bind]. fold p3.
    rewrite load_2 by (rewrite ?Hl3; offs). rewrite HCKz, Hsame. cbn [mbind option_bind].
    rewrite store_2 by (rewrite ?Hl3; offs). rewrite HCKz.
    split; [done|]. split; [done|]. split; [done|]. split; [done|].
    unfold ck_moved. by rewrite (proj2 (Z.eqb_eq _ _) Hpr).
Qed.
End stamp.

(** ** Checksums stay good *)

Lemma slice_inv off n buf r : slice off n buf = Some r -> 0 <= n /\ off + n <= Z.of_nat (length buf).
Proof. unfold slice. destruct (_ && _) eqn:H; [|done]. rewrite !andb_true_iff in H. lia. Qed.

Lemma l4_at_eq p l4 : (15 <= length p)%nat -> l4_at p = Some l4 <-> l4 = 14 + ip_header_len (drop 14 p).
Proof.
  intros Hl. unfold l4_at. rewrite load_1 by offs. cbn [mbind option_bind]. unfold ip_header_len.
  change (Z.to_nat ip_at) with 14%nat. rewrite (nth_take_drop 14), (nth_take_drop 0 (drop 14 p)), drop_0.
  unfold ip_at, ETHER_SIZE. split; [by intros [= <-]|by intros ->].
Qed.

Lemma ip_address_words p i : (14 + 4 * i + 4 <= length p)%nat ->
  dword (drop 14 p) i = word16 (14 + 4 * i) p + 2 ^ 16 * word16 (14 + 4 * i + 2) p.
Proof. apply dword_words. Qed.

Section valid.
Context (dir : Direction) (p : bytes) (l4 : nat) (before after : Endpoint).
Context (Hl4 : 34 <= Z.of_nat l4) (Hok : bytes_ok p) (Hat : l4_at p = Some (Z.of_nat l4)).
Context (Hlen : (l4 + l4_header (nth 23%nat p 0%Z) <= length p)%nat).
Context (Hext : ExtractEndpoint p (Z.of_nat l4) dir = Some (Some before)).
Context (Hafter : endpoint_ok after).
Context (c ck : Z) (Hc : in_word 16 c) (Hck : in_word 16 ck).
Context (Hcm : (c + addr after - word16 24 p - addr before) mod 65535 = 0).
Context (Hckm : ck_moved before after (word16 (ck_pos (protocol before) l4) p) ck).

Abbreviation proto := (protocol before).
Abbreviation A := (addr_pos dir).
Abbreviation PT := (port_pos dir proto l4).
Abbreviation CK := (ck_pos proto l4).
Abbreviation p' := (stamped p A (addr after) c PT (port after) CK ck).

Lemma stamp_pos : (l4 + 8 <= l4 + l4_header proto <= length p)%nat /\ (A = 26%nat \/ A = 30%nat).
Proof using All.
  destruct (positions dir p l4 before after Hl4 Hok Hlen Hext Hafter) as (H & _).
  assert (8 <= l4_header proto)%nat by (unfold l4_header; case_match; lia). split; [lia|]. destruct dir; (by left) || by right.
Qed.

Lemma stamp_length : length p' = length p.
Proof using All.
  destruct stamp_pos. destruct (positions dir p l4 before after Hl4 Hok Hlen Hext Hafter) as (? & ? & ? & ?).
  by apply (stamped_length p A (addr after) c PT (port after) CK ck l4 (l4_header proto)); try apply Hafter; lia || done.
Qed.

Lemma stamp_other off k : (off + k <= 24 \/ 26 <= off /\ (off + k <= A \/ A + 4 <= off))%nat ->
  (off + k <= PT \/ PT + 2 <= off)%nat -> (off + k <= CK \/ CK + 2 <= off)%nat ->
  take k (drop off p') = take k (drop off p).
Proof using All.
  intros. destruct stamp_pos. destruct (positions dir p l4 before after Hl4 Hok Hlen Hext Hafter) as (? & ? & ? & ?).
  by apply (stamped_other p A (addr after) c PT (port after) CK ck l4 (l4_header proto)); try apply Hafter; lia || done.
Qed.

(** The IPv4 header of the new packet, and its pseudo header. *)
Lemma stamp_header : ip_header_len (drop 14 p') = ip_header_len (drop 14 p) /\
  ip_length (drop 14 p') = ip_length (drop 14 p) /\
  nth 23 p' 0 = nth 23 p 0 /\ l4_at p' = Some (Z.of_nat l4).
Proof using All.
  destruct stamp_pos as [Hpos _].
  destruct (positions dir p l4 before after Hl4 Hok Hlen Hext Hafter) as (_ & HPT & HCK & _).
  assert (H14 : ip_header_len (drop 14 p') = ip_header_len (drop 14 p)).
  { unfold ip_header_len. rewrite !(nth_take_drop 0 (drop 14 _)), !drop_0. by rewrite stamp_other by lia. }
  split; [done|]. split; [|split].
  - unfold ip_length. rewrite !drop_drop. by rewrite stamp_other by lia.
  - rewrite !(nth_take_drop 23). by rewrite stamp_other by lia.
  - apply l4_at_eq; [rewrite stamp_length; lia|]. rewrite H14. apply l4_at_eq; [lia|done].
Qed.

Lemma stamp_addresses :
  word16 A p' + 2 ^ 16 * word16 (A + 2) p' = addr after /\
  addr before = word16 A p + 2 ^ 16 * word16 (A + 2) p /\
  word16 (56 - A) p' = word16 (56 - A) p /\ word16 (56 - A + 2) p' = word16 (56 - A + 2) p.
Proof using All.
  destruct stamp_pos as [Hpos HA].
  destruct (positions dir p l4 before after Hl4 Hok Hlen Hext Hafter) as (? & HPT & HCK & ?).
  destruct (before_eq dir p l4 before after Hl4 Hok Hlen Hext Hafter) as [He _].
  split; [|split].
  - by apply (stamped_addr p A (addr after) c PT (port after) CK ck l4 (l4_header proto)); try apply Hafter; lia || done.
  - by rewrite He.
  - unfold word16. split; f_equal; apply stamp_other; lia.
Qed.

Lemma stamp_ok : bytes_ok p'.
Proof using All. by apply stamped_ok. Qed.

Context (avx2 : bool).

Lemma verify_sum (q : bytes) : bytes_ok q -> length q = length p -> l4_at q = Some (Z.of_nat l4) ->
  VerifyIpv4Checksum avx2 (drop 14 q) = Some (internet_checksum (wsum 14 (l4 - 14) q) =? 0).
Proof using All.
  intros Hq Hl Hlq. destruct stamp_pos as [Hpos _].
  apply l4_at_eq in Hlq; [|lia]. rewrite VerifyIpv4Checksum_spec; [|auto with bess|rewrite length_drop; lia].
  unfold ipv4_header_sum, wsum. by replace (Z.to_nat (ip_header_len (drop 14 q))) with (l4 - 14)%nat by lia.
Qed.

(** The header of a packet with a header length is not all zero. *)
Lemma header_nonzero : 0 < word16 14 p.
Proof using All.
  destruct stamp_pos as [Hpos _]. apply l4_at_eq in Hat as Heq; [|lia].
  pose proof (word16_word 14 p Hok) as Hw. destruct (Z.eq_dec (word16 14 p) 0) as [Hz|]; [|unfold in_word in Hw; lia].
  exfalso. assert (nth 0 (drop 14 p) 0 = 0) as Hn.
  { unfold word16 in Hz. destruct (drop 14 p) as [|b0 [|b1 r]] eqn:Hd; [done| |].
    - cbn in *. lia.
    - cbn in Hz. rewrite take_0 in Hz. cbn [le_load] in Hz. assert (bytes_ok (b0 :: b1 :: r)) as Hb by (rewrite <- Hd; auto with bess).
      unfold bytes_ok in Hb. rewrite !Forall_cons in Hb. unfold in_word in Hb. cbn. lia. }
  unfold ip_header_len in Heq. rewrite Hn in Heq. change (Z.shiftl (Z.land 0 15) 2) with 0 in Heq. lia.
Qed.

Lemma ip_stays_valid : VerifyIpv4Checksum avx2 (drop 14 p) = Some true -> VerifyIpv4Checksum avx2 (drop 14 p') = Some true.
Proof using All.
  destruct stamp_pos as [Hpos HA]. destruct stamp_header as (_ & _ & _ & Hat'). destruct stamp_addresses as (_ & Hb & _).
  destruct (positions dir p l4 before after Hl4 Hok Hlen Hext Hafter) as (? & HPT & HCK & Hdis).
  rewrite !verify_sum by (done || apply stamp_ok || apply stamp_length).
  intros [= Hv%Z.eqb_eq]. do 2 f_equal. apply Z.eqb_eq.
  apply checksum_valid_iff in Hv as [Hpos' Hmod]; [|by apply wsum_nonneg].
  apply checksum_valid_iff; [apply wsum_nonneg, stamp_ok|]. split.
  - assert (word16 14 p' = word16 14 p) as Hw by (unfold word16; f_equal; apply stamp_other; lia).
    pose proof header_nonzero as Hnz. rewrite <- Hw in Hnz.
    pose proof (wsum_ge_first 14 (l4 - 14) p' stamp_ok ltac:(lia) ltac:(rewrite stamp_length; lia)). lia.
  - rewrite (stamped_ip_sum p A (addr after) c PT (port after) CK ck l4 (l4_header proto)) by (apply Hafter || lia || done).
    rewrite Hb in Hcm. unfold wrap. change (2 ^ 16) with 65536 in *. zlia.
Qed.

(** A segment with its pseudo header, before and after. *)
Lemma segment_moves src dst src' dst' len n : 0 < n -> Z.of_nat (l4_header proto) <= len ->
  Z.of_nat l4 + len <= Z.of_nat (length p) -> in_word 32 src -> in_word 32 dst -> in_word 32 src' -> in_word 32 dst' ->
  src' + dst' - src - dst = addr after - addr before -> proto <> kIcmp ->
  (proto = kUdp -> word16 CK p <> 0) ->
  internet_checksum (segment_sum src dst len n (drop l4 p)) = 0 ->
  in_word 16 len -> internet_checksum (segment_sum src' dst' len n (drop l4 p')) = 0.
Proof using All.
  intros Hn Hh Hl Hs Hd Hs' Hd' Hsd Hni Hu Hv Hlw.
  destruct stamp_pos as [Hpos HA]. destruct (before_eq dir p l4 before after Hl4 Hok Hlen Hext Hafter) as [He _].
  destruct (positions dir p l4 before after Hl4 Hok Hlen Hext Hafter) as (? & HPT & HCK & Hdis).
  pose proof (swap16_word len Hlw) as Hsw. unfold segment_sum, pseudo_sum in *.
  change (sum16 (take (Z.to_nat len) (drop l4 p))) with (wsum l4 (Z.to_nat len) p) in Hv.
  change (sum16 (take (Z.to_nat len) (drop l4 p'))) with (wsum l4 (Z.to_nat len) p').
  pose proof (wsum_nonneg l4 (Z.to_nat len) p Hok). pose proof (wsum_nonneg l4 (Z.to_nat len) p' stamp_ok).
  unfold in_word in Hs, Hd, Hs', Hd', Hsw.
  apply checksum_valid_iff in Hv as [_ Hmod]; [|lia]. apply checksum_valid_iff; [lia|]. split; [lia|].
  rewrite (stamped_l4_sum p A (addr after) c PT (port after) CK ck l4 (Z.to_nat len))
    by (apply Hafter || lia || done || (split; [lia|split; [lia|apply HPT]]) || (split; [lia|split; [lia|apply HCK]])).
  assert (Hpb : word16 PT p = port before) by (apply (f_equal port) in He; by symmetry). rewrite Hpb.
  unfold ck_moved in Hckm. rewrite (proj2 (Z.eqb_neq proto kIcmp)) in Hckm by done.
  destruct ((proto =? kUdp) && (word16 CK p =? 0)) eqn:Hz.
  { apply andb_true_iff in Hz as [Hz1%Z.eqb_eq Hz2%Z.eqb_eq]. by destruct (Hu Hz1). }
  destruct Hckm as [_ Hm]. zlia.
Qed.

(** The addresses of the pseudo header, before and after. *)
Lemma pseudo_addresses :
  in_word 32 (ip_src (drop 14 p)) /\ in_word 32 (ip_dst (drop 14 p)) /\
  in_word 32 (ip_src (drop 14 p')) /\ in_word 32 (ip_dst (drop 14 p')) /\
  ip_src (drop 14 p') + ip_dst (drop 14 p') - ip_src (drop 14 p) - ip_dst (drop 14 p) = addr after - addr before.
Proof using All.
  destruct stamp_pos as [Hpos HA]. destruct stamp_addresses as (Ha & Hb & Ho1 & Ho2).
  pose proof (fun i => dword_word (drop 14 p) i ltac:(auto with bess)) as Hw.
  pose proof (fun i => dword_word (drop 14 p') i (bytes_ok_drop 14 p' stamp_ok)) as Hw'.
  unfold ip_src, ip_dst. do 4 (split; [done|]).
  rewrite !ip_address_words by (rewrite ?stamp_length; lia).
  cbn [Nat.mul Nat.add]. destruct dir; cbn [addr_pos Nat.sub Nat.add] in *; lia.
Qed.

Lemma tcp_stays_valid : proto = kTcp ->
  VerifyIpv4TcpChecksum_hdr avx2 (drop 14 p) (drop l4 p) = Some true ->
  VerifyIpv4TcpChecksum_hdr avx2 (drop 14 p') (drop l4 p') = Some true.
Proof using All.
  intros Hp. destruct stamp_pos as [Hpos HA]. destruct stamp_header as (Hh & Hl & _ & _).
  destruct pseudo_addresses as (Hs & Hd & Hs' & Hd' & Hsd).
  assert (Hhd : l4_header proto = 20%nat) by (by rewrite Hp).
  unfold VerifyIpv4TcpChecksum_hdr. rewrite Hh, Hl. destruct (_ <? _); [done|].
  set (len := u16 _). assert (in_word 16 len) as Hlw by (by apply wrap_range). intros Hv.
  assert (20 <= len /\ len <= Z.of_nat (length (drop l4 p))) as Hlen'.
  { unfold VerifyIpv4TcpChecksum in Hv. destruct (slice 20 (len - 20) _) eqn:Hsl; [|done].
    apply slice_inv in Hsl. lia. }
  rewrite length_drop in Hlen'.
  rewrite (VerifyIpv4TcpChecksum_spec avx2 (drop l4 p)) in Hv
    by (done || (by apply bytes_ok_drop) || (rewrite length_drop; lia)).
  rewrite (VerifyIpv4TcpChecksum_spec avx2 (drop l4 p'))
    by (done || (apply bytes_ok_drop, stamp_ok) || (rewrite length_drop, stamp_length; lia)).
  injection Hv as Hv%Z.eqb_eq. f_equal. apply Z.eqb_eq.
  eapply segment_moves; [lia|lia|lia| | | | |exact Hsd| | |exact Hv|done]; try done; by rewrite Hp.
Qed.

Lemma udp_stays_valid : proto = kUdp ->
  VerifyIpv4UdpChecksum_hdr avx2 (drop 14 p) (drop l4 p) = Some true ->
  VerifyIpv4UdpChecksum_hdr avx2 (drop 14 p') (drop l4 p') = Some true.
Proof using All.
  intros Hp. destruct stamp_pos as [Hpos HA].
  destruct pseudo_addresses as (Hs & Hd & Hs' & Hd' & Hsd).
  assert (Hhd : l4_header proto = 8%nat) by (by rewrite Hp).
  assert (HCK : CK = (l4 + 6)%nat) by (unfold ck_pos; by rewrite Hp).
  assert (Hpt : PT = (l4 + 0)%nat \/ PT = (l4 + 2)%nat) by (unfold port_pos; rewrite Hp; destruct dir; cbn; auto).
  assert (Hlenf : udp_field_length (drop l4 p') = udp_field_length (drop l4 p)).
  { unfold udp_field_length. rewrite !drop_drop. by rewrite stamp_other by lia. }
  assert (Hck0 : udp_field_checksum (drop l4 p) = word16 CK p).
  { unfold udp_field_checksum, word16. by rewrite HCK, drop_drop. }
  assert (Hck1 : udp_field_checksum (drop l4 p') = ck).
  { unfold udp_field_checksum. rewrite drop_drop, <- HCK. change (word16 CK p' = ck).
    unfold stamped. rewrite word16_store16; [by apply wrap_small|].
    destruct (positions dir p l4 before after Hl4 Hok Hlen Hext Hafter) as (? & ? & ? & ?). len16. }
  unfold VerifyIpv4UdpChecksum_hdr. rewrite Hlenf. set (len := udp_field_length (drop l4 p)).
  destruct (Z.ltb_spec len 8); [done|].
  assert (in_word 16 len) as Hlw.
  { unfold len, udp_field_length, be_load. pose proof (le_load_bound (rev (take 2 (drop 4 (drop l4 p))))) as Hb.
    rewrite length_rev, length_take, !length_drop in Hb. replace (2 `min` (length p - l4 - 4))%nat with 2%nat in Hb by lia.
    refine (Hb _). apply Forall_rev. by apply bytes_ok_take, bytes_ok_drop, bytes_ok_drop. }
  intros Hv. pose proof Hckm as Hcm'. unfold ck_moved in Hcm'. rewrite (proj2 (Z.eqb_neq proto kIcmp)) in Hcm' by (by rewrite Hp).
  rewrite (proj2 (Z.eqb_eq proto kUdp) Hp) in Hcm'. cbn [andb] in Hcm'.
  destruct (Z.eqb_spec (word16 CK p) 0) as [Hz|Hz].
  { unfold VerifyIpv4UdpChecksum. rewrite Hck1, Hcm'. done. }
  destruct Hcm' as [Hne Hm]. specialize (Hne Hp).
  assert (len <= Z.of_nat (length (drop l4 p))) as Hlen'.
  { unfold VerifyIpv4UdpChecksum in Hv. rewrite Hck0, (proj2 (Z.eqb_neq _ _)) in Hv by done.
    destruct (slice 8 (len - 8) _) eqn:Hsl; [|done]. apply slice_inv in Hsl. lia. }
  rewrite length_drop in Hlen'.
  rewrite (VerifyIpv4UdpChecksum_spec avx2 (drop l4 p)) in Hv
    by (done || (by apply bytes_ok_drop) || (by rewrite Hck0) || (rewrite length_drop; lia)).
  rewrite (VerifyIpv4UdpChecksum_spec avx2 (drop l4 p'))
    by (done || (apply bytes_ok_drop, stamp_ok) || (by rewrite Hck1) || (rewrite length_drop, stamp_length; lia)).
  injection Hv as Hv%Z.eqb_eq. f_equal. apply Z.eqb_eq.
  eapply segment_moves; [lia|lia|lia| | | | |exact Hsd| | |exact Hv|done]; try done; by rewrite Hp.
Qed.

(** An ICMP message of [n] bytes. *)
Lemma icmp_stays_valid n : proto = kIcmp -> (8 <= n)%nat -> (l4 + n <= length p)%nat ->
  Z.of_nat n < 2 ^ 32 ->
  CalculateGenericChecksum avx2 (take n (drop l4 p)) = Some 0 ->
  CalculateGenericChecksum avx2 (take n (drop l4 p')) = Some 0 \/ Forall (fun b => b = 0) (take n (drop l4 p')).
Proof using All.
  intros Hp Hn Hl Hn32. destruct stamp_pos as [Hpos HA].
  destruct (before_eq dir p l4 before after Hl4 Hok Hlen Hext Hafter) as [He _].
  assert (Hhd : l4_header proto = 8%nat) by (by rewrite Hp).
  destruct (positions dir p l4 before after Hl4 Hok Hlen Hext Hafter) as (? & HPT & HCK & Hdis).
  rewrite !CalculateGenericChecksum_spec by (try (by auto using stamp_ok with bess); rewrite length_take; lia).
  change (sum16 (take n (drop l4 p))) with (wsum l4 n p). change (sum16 (take n (drop l4 p'))) with (wsum l4 n p').
  intros [= Hv]. pose proof (wsum_nonneg l4 n p Hok). pose proof (wsum_nonneg l4 n p' stamp_ok).
  destruct (Z.eq_dec (wsum l4 n p') 0) as [Hz|Hnz]; [right; apply sum16_zero; by auto using stamp_ok with bess|left]. f_equal.
  apply checksum_valid_iff in Hv as [_ Hmod]; [|done]. apply checksum_valid_iff; [done|].
  pose proof (word16_word CK p Hok) as HwCK. pose proof (word16_word PT p Hok) as HwPT.
  split; [lia|].
  - rewrite (stamped_l4_sum p A (addr after) c PT (port after) CK ck l4 n)
      by (apply Hafter || lia || done || (split; [lia|split; [lia|apply HPT]]) || (split; [lia|split; [lia|apply HCK]])).
    assert (Hpb : word16 PT p = port before) by (apply (f_equal port) in He; by symmetry).
    unfold ck_moved in Hckm. rewrite (proj2 (Z.eqb_eq proto kIcmp) Hp) in Hckm. zlia.
Qed.
End valid.

(** ** Rewriting a packet *)

(** A packet whose IPv4 header, of at least 20 bytes, ends at [l4] and that has an L4
    header. *)
Record framed (p : bytes) (l4 : nat) : Prop := {
  fr_ok : bytes_ok p;
  fr_l4 : 34 <= Z.of_nat l4;
  fr_at : l4_at p = Some (Z.of_nat l4);
  fr_len : (l4 + l4_header (nth 23%nat p 0%Z) <= length p)%nat }.

Lemma extract_defined dir p l4 : framed p l4 -> exists r, ExtractEndpoint p (Z.of_nat l4) dir = Some r /\
  forall e, r = Some e -> endpoint_ok e.
Proof.
  intros [Hok Hl4 Hat Hlen].
  assert (exists r, ExtractEndpoint p (Z.of_nat l4) dir = Some r) as [r Hr].
  { assert (Hh : (8 <= l4_header (nth 23%nat p 0%Z))%nat) by (unfold l4_header; case_match; lia).
    unfold ExtractEndpoint. rewrite (load_1 (ip_at + ip_protocol)) by offs. cbn [mbind option_bind].
    rewrite (load_4 (addr_at dir)) by (destruct dir; offs). cbn [mbind option_bind].
    rewrite (load_2 (port_at dir (Z.of_nat l4))) by (destruct dir; offs).
    rewrite (load_1 (Z.of_nat l4 + icmp_type)), (load_2 (Z.of_nat l4 + icmp_ident)) by offs. cbn [mbind option_bind].
    repeat case_match; by eexists. }
  exists r. split; [done|]. intros e ->.
  assert (endpoint_ok (MkEndpoint 0 0 0)) as H0 by (by repeat split).
  apply (before_ok dir p l4 e (MkEndpoint 0 0 0) Hl4 Hok Hlen Hr H0).
Qed.

(** A stamp is defined, and the new packet has the endpoint [after] where it had
    [before]. *)
Lemma Stamp_extract dir p l4 before after : framed p l4 ->
  ExtractEndpoint p (Z.of_nat l4) dir = Some (Some before) ->
  endpoint_ok after -> protocol after = protocol before ->
  exists p', Stamp dir p (Z.of_nat l4) before after = Some p' /\ framed p' l4 /\ length p' = length p /\
    ExtractEndpoint p' (Z.of_nat l4) dir = Some (Some after).
Proof.
  intros [Hok Hl4 Hat Hlen] Hext Hafter Hproto.
  destruct (Stamp_spec dir p l4 before after Hl4 Hok Hlen Hext Hafter) as (c & ck & Hs & Hc & Hck & Hcm & Hckm).
  pose proof (stamp_length dir p l4 before after Hl4 Hok Hat Hlen Hext Hafter c ck Hc Hck Hcm Hckm) as Hl.
  pose proof (stamp_ok dir p l4 before after Hl4 Hok Hat Hlen Hext Hafter c ck Hc Hck Hcm Hckm) as Hok'.
  destruct (stamp_header dir p l4 before after Hl4 Hok Hat Hlen Hext Hafter c ck Hc Hck Hcm Hckm) as (_ & _ & Hp & Hat').
  destruct (stamp_addresses dir p l4 before after Hl4 Hok Hat Hlen Hext Hafter c ck Hc Hck Hcm Hckm) as (Ha & _ & _).
  destruct (stamp_pos dir p l4 before after Hl4 Hok Hat Hlen Hext Hafter c ck Hc Hck Hcm Hckm) as [Hpos HA].
  destruct (positions dir p l4 before after Hl4 Hok Hlen Hext Hafter) as (_ & HPT & HCK & Hdis).
  destruct (before_eq dir p l4 before after Hl4 Hok Hlen Hext Hafter) as [He _].
  set (p' := stamped _ _ _ _ _ _ _ _) in *. exists p'. split; [done|].
  assert (framed p' l4) as Hfr by (split; try done; by rewrite Hp, Hl). split; [done|]. split; [done|].
  pose proof (proj1 (extract_spec dir p l4 before Hl4 Hok Hlen) Hext) as [Hty _].
  assert (Hpb : nth 23 p 0 = protocol before) by (by rewrite He).
  apply extract_spec; [done|done|by apply Hfr|]. cbn zeta. rewrite Hp. split.
  - destruct Hty as [?|[?|[Hi Hty]]]; [tauto|tauto|]. right. right. split; [done|].
    assert (nth l4 p' 0 = nth l4 p 0) as ->; [|done]. rewrite !(nth_take_drop l4). f_equal.
    apply (stamp_other dir p l4 before after Hl4 Hok Hat Hlen Hext Hafter c ck Hc Hck Hcm Hckm); [lia| |];
      left; unfold port_pos, ck_pos; rewrite <- Hpb, Hi; cbn; lia.
  - rewrite Ha, Hpb. destruct after as [a prt pr]. cbn in Hproto. subst pr. cbn [addr]. f_equal.
    unfold p', stamped. rewrite word16_other by len16. rewrite word16_store16 by len16.
    symmetry. apply wrap_small, Hafter.
Qed.

(** C18: Rewriting a packet with whole headers to another endpoint (TCP, UDP or ICMP, either direction) is
    defined and keeps its checksums good: an IPv4 header that verifies still verifies,
    and so do a TCP checksum, a UDP checksum (a missing one stays missing) and an ICMP
    checksum -- the last unless the message becomes all zeroes, checksum included, which takes the identifier 0:
    it needs the checksum 0xffff ([icmp_all_zero]). *)
Theorem stamp_keeps_checksums avx2 dir p l4 before after : framed p l4 ->
  ExtractEndpoint p (Z.of_nat l4) dir = Some (Some before) -> endpoint_ok after ->
  exists p', Stamp dir p (Z.of_nat l4) before after = Some p' /\
    (VerifyIpv4Checksum avx2 (drop 14 p) = Some true -> VerifyIpv4Checksum avx2 (drop 14 p') = Some true) /\
    (protocol before = kTcp ->
     VerifyIpv4TcpChecksum_hdr avx2 (drop 14 p) (drop l4 p) = Some true ->
     VerifyIpv4TcpChecksum_hdr avx2 (drop 14 p') (drop l4 p') = Some true) /\
    (protocol before = kUdp ->
     VerifyIpv4UdpChecksum_hdr avx2 (drop 14 p) (drop l4 p) = Some true ->
     VerifyIpv4UdpChecksum_hdr avx2 (drop 14 p') (drop l4 p') = Some true) /\
    (protocol before = kIcmp ->
     forall n, (8 <= n)%nat -> (l4 + n <= length p)%nat -> Z.of_nat n < 2 ^ 32 ->
     CalculateGenericChecksum avx2 (take n (drop l4 p)) = Some 0 ->
     CalculateGenericChecksum avx2 (take n (drop l4 p')) = Some 0 \/ Forall (fun b => b = 0) (take n (drop l4 p'))).
Proof.
  intros [Hok Hl4 Hat Hlen] Hext Hafter.
  destruct (Stamp_spec dir p l4 before after Hl4 Hok Hlen Hext Hafter) as (c & ck & Hs & Hc & Hck & Hcm & Hckm).
  eexists. split; [exact Hs|].
  pose proof (ip_stays_valid dir p l4 before after Hl4 Hok Hat Hlen Hext Hafter c ck Hc Hck Hcm Hckm avx2).
  pose proof (tcp_stays_valid dir p l4 before after Hl4 Hok Hat Hlen Hext Hafter c ck Hc Hck Hcm Hckm avx2).
  pose proof (udp_stays_valid dir p l4 before after Hl4 Hok Hat Hlen Hext Hafter c ck Hc Hck Hcm Hckm avx2).
  pose proof (icmp_stays_valid dir p l4 before after Hl4 Hok Hat Hlen Hext Hafter c ck Hc Hck Hcm Hckm avx2).
  auto 10.
Qed.

(** An echo reply whose only non-zero field is the identifier, 5, which becomes 0. *)
Definition icmp_packet : bytes :=
  replicate 12 0 ++ [8; 0] ++
  [0x45; 0; 0; 28; 0; 1; 0; 0; 64; 1; 0; 0; 10; 0; 0; 1; 8; 8; 8; 8] ++ [0; 0; 0xff; 0xfa; 0; 5; 0; 0].
Example icmp_all_zero :
  CalculateGenericChecksum false (drop 34 icmp_packet) = Some 0 /\
  (p ← Stamp kForward icmp_packet 34 (MkEndpoint 0x0100000a 0x0500 kIcmp) (MkEndpoint 0x0100000a 0 kIcmp);
   c ← CalculateGenericChecksum false (drop 34 p); Some (drop 34 p, c)) = Some (replicate 8 0, 0xffff).
Proof. by vm_compute. Qed.

(** A UDP datagram with two bytes of payload, from 10.0.0.1:4096 to 8.8.8.8:53. *)
Definition ex_blank : bytes :=
  replicate 12 0 ++ [8; 0] ++
  [0x45; 0; 0; 30; 0; 1; 0; 0; 64; 17; 0; 0; 10; 0; 0; 1; 8; 8; 8; 8] ++
  [0x10; 0; 0; 53; 0; 10; 0; 0; 0xab; 0xcd].
Definition ex_packet : bytes :=
  let ipck := default 0 (CalculateIpv4Checksum false (drop 14 ex_blank)) in
  let q := store16 24 ipck ex_blank in
  store16 40 (default 0 (CalculateIpv4UdpChecksum_hdr false (drop 14 q) (drop 34 q))) q.
Definition ex_before : Endpoint := MkEndpoint 0x0100000a 0x0010 17.
Definition ex_after : Endpoint := MkEndpoint 0x016433c6 0x0004 17.

Lemma ex_framed : framed ex_packet 34.
Proof.
  split; [apply (bool_decide_unpack _); vm_compute; exact I|lia|vm_compute; reflexivity|].
  apply Nat.leb_le. vm_compute. reflexivity.
Qed.

Lemma stamp_keeps_checksums_witness :
  ExtractEndpoint ex_packet 34 kForward = Some (Some ex_before) /\
  VerifyIpv4UdpChecksum_hdr false (drop 14 ex_packet) (drop 34 ex_packet) = Some true /\
  exists p', Stamp kForward ex_packet 34 ex_before ex_after = Some p' /\
    VerifyIpv4Checksum false (drop 14 p') = Some true /\
    VerifyIpv4UdpChecksum_hdr false (drop 14 p') (drop 34 p') = Some true.
Proof.
  split; [vm_compute; reflexivity|]. split; [vm_compute; reflexivity|].
  destruct (stamp_keeps_checksums false kForward ex_packet 34 ex_before ex_after ex_framed)
    as (p' & Hs & Hip & _ & Hudp & _).
  - vm_compute. reflexivity.
  - split; [|split]; split; vm_compute; congruence.
  - exists p'. split; [exact Hs|]. split; [apply Hip|apply Hudp]; vm_compute; reflexivity.
Defined.
