(* ===== verification/StaticNat.v ===== *)
(** The static address translator: [core/modules/static_nat.h] and [static_nat.cc].

    Ranges of internal addresses are mapped to ranges of external addresses of the same
    size.  A packet is the bytes from its head, as in NatStamp.v, whose directions are
    those of this module: [kForward] translates the source address and goes out of gate
    0, [kReverse] the destination address, and gate 1. *)
From S2P Require Import Prelude Endian Bits Checksum Ip Frame PacketBuf NatStamp.

Record NatPair := MkNatPair { int_addr : Z; ext_addr : Z; size : Z }.

(** ** Configuration *)
Inductive nat_error := invalid_ip_address (s : bytes) | invalid_internal_range | invalid_external_range
  | cannot_map_broadcast | ranges_differ.

Record pb_range := MkRange { start : bytes; end_ : bytes }.
Record pb_pair := MkPbPair { int_range : pb_range; ext_range : pb_range }.

Definition parse (s : bytes) : option be32_t :=
  let '(ok, a) := ParseIpv4Address s (BE 0) in if ok then Some a else None.

Definition add_pair (p : pb_pair) : nat_error + NatPair :=
  match parse (start (int_range p)) with None => inl (invalid_ip_address (start (int_range p))) | Some int_start =>
  match parse (end_ (int_range p)) with None => inl (invalid_ip_address (end_ (int_range p))) | Some int_end =>
  if be_gt 4 int_start int_end then inl invalid_internal_range else
  match parse (start (ext_range p)) with None => inl (invalid_ip_address (start (ext_range p))) | Some ext_start =>
  match parse (end_ (ext_range p)) with None => inl (invalid_ip_address (end_ (ext_range p))) | Some ext_end =>
  if be_gt 4 ext_start ext_end then inl invalid_external_range else
  if (value 4 int_end =? 0xffffffff) || (value 4 ext_end =? 0xffffffff) then inl cannot_map_broadcast else
  if be_ne (be_sub 4 int_end int_start) (be_sub 4 ext_end ext_start) then inl ranges_differ else
  inr (MkNatPair (value 4 int_start) (value 4 ext_start) (u32 (u32 (value 4 int_end - value 4 int_start) + 1)))
  end end end end.

(** [pairs_] after [Init], or the first error. *)
Fixpoint Init (pairs : list pb_pair) (pairs_ : list NatPair) : nat_error + list NatPair :=
  match pairs with
  | [] => inr pairs_
  | p :: ps => match add_pair p with inl e => inl e | inr q => Init ps (pairs_ ++ [q]) end
  end.

Definition GetInitialArg (pairs_ : list NatPair) : list pb_pair :=
  map (fun p => MkPbPair
    (MkRange (ToIpv4Address (of_cpu 4 (int_addr p))) (ToIpv4Address (of_cpu 4 (u32 (int_addr p + size p)))))
    (MkRange (ToIpv4Address (of_cpu 4 (ext_addr p))) (ToIpv4Address (of_cpu 4 (u32 (ext_addr p + size p)))))) pairs_.

(** ** Packets *)
Definition UpdateChecksum (p : bytes) (incr : Z) : option bytes :=
  l4 ← l4_at p;
  proto ← load 1 (ip_at + ip_protocol) p;
  ck ← load 2 (ip_at + ip_checksum) p;
  p ← store 2 (ip_at + ip_checksum) (UpdateChecksumWithIncrement ck incr) p;
  if proto =? kTcp then
    ck ← load 2 (l4 + tcp_checksum) p;
    store 2 (l4 + tcp_checksum) (UpdateChecksumWithIncrement ck incr) p
  else if proto =? kUdp then
    ck ← load 2 (l4 + udp_checksum) p;
    if negb (ck =? 0) then
      let ck' := UpdateChecksumWithIncrement ck incr in
      store 2 (l4 + udp_checksum) (if ck' =? 0 then 0xffff else ck') p
    else Some p
  else Some p.

(** The first pair whose range has the address: what is added to the address. *)
Fixpoint find_diff (dir : Direction) (addr : Z) (pairs_ : list NatPair) : option Z :=
  match pairs_ with
  | [] => None
  | np :: rest =>
      let start_addr := match dir with kForward => int_addr np | kReverse => ext_addr np end in
      if (start_addr <=? addr) && (addr <? u32 (start_addr + size np)) then
        Some (match dir with kForward => u32 (ext_addr np - int_addr np) | kReverse => u32 (int_addr np - ext_addr np) end)
      else find_diff dir addr rest
  end.

Definition translate (dir : Direction) (pairs_ : list NatPair) (addr : Z) : option Z :=
  diff ← find_diff dir addr pairs_; Some (u32 (addr + diff)).

Definition translate_packet (dir : Direction) (pairs_ : list NatPair) (p : bytes) : option bytes :=
  raw ← load 4 (addr_at dir) p;
  match translate dir pairs_ (value 4 (BE raw)) with
  | Some new_addr =>
      let new_addr_be := of_cpu 4 new_addr in
      p ← UpdateChecksum p (ChecksumIncrement32 raw (raw_value new_addr_be));
      store 4 (addr_at dir) (raw_value new_addr_be) p
  | None => Some p
  end.

(** The packets of a batch with the gate they are emitted to. *)
Definition DoProcessBatch (dir : Direction) (pairs_ : list NatPair) (batch : list bytes) : option (list (bytes * Z)) :=
  mapM (fun p => q ← translate_packet dir pairs_ p; Some (q, match dir with kForward => 0 | kReverse => 1 end)) batch.
Definition ProcessBatch (incoming_gate : Z) (pairs_ : list NatPair) (batch : list bytes) : option (list (bytes * Z)) :=
  if incoming_gate =? 0 then DoProcessBatch kForward pairs_ batch else DoProcessBatch kReverse pairs_ batch.

(** ** The ranges *)
Record pair_ok (p : NatPair) : Prop := {
  po_size : 1 <= size p;
  po_int : 0 <= int_addr p /\ int_addr p + size p < 2 ^ 32;
  po_ext : 0 <= ext_addr p /\ ext_addr p + size p < 2 ^ 32 }.

Lemma add_pair_ok p q : add_pair p = inr q -> pair_ok q.
Proof.
  unfold add_pair.
  destruct (parse (start (int_range p))) as [s1|]; [|done]. destruct (parse (end_ (int_range p))) as [e1|]; [|done].
  unfold be_gt, be_lt. destruct (Z.ltb_spec (value 4 e1) (value 4 s1)); [done|].
  destruct (parse (start (ext_range p))) as [s2|]; [|done]. destruct (parse (end_ (ext_range p))) as [e2|]; [|done].
  destruct (Z.ltb_spec (value 4 e2) (value 4 s2)); [done|].
  destruct (Z.eqb_spec (value 4 e1) 0xffffffff); [done|]. destruct (Z.eqb_spec (value 4 e2) 0xffffffff); [done|]. cbn [orb].
  destruct (be_ne _ _) eqn:Hne; [done|]. intros [= <-].
  pose proof (value_word 4 s1) as W1. pose proof (value_word 4 e1) as W2. pose proof (value_word 4 s2) as W3. pose proof (value_word 4 e2) as W4.
  unfold in_word, width in W1, W2, W3, W4. change (2 ^ (8 * Z.of_nat 4)) with 4294967296 in *.
  assert (value 4 e1 - value 4 s1 = value 4 e2 - value 4 s2) as Heq.
  { unfold be_ne, be_eq, be_sub in Hne. apply negb_false_iff, Z.eqb_eq in Hne. unfold of_cpu, data_ in Hne.
    apply swap_inj in Hne; [|apply wrap_range; done|apply wrap_range; done]. unfold wrap, width in Hne.
    change (2 ^ (8 * Z.of_nat 4)) with 4294967296 in Hne. zlia. }
  rewrite !(wrap_small 32) by (unfold in_word; change (2 ^ 32) with 4294967296; rewrite ?Z.mod_small; unfold wrap; change (2 ^ 32) with 4294967296; rewrite ?Z.mod_small; lia).
  split; cbn [size int_addr ext_addr]; change (2 ^ 32) with 4294967296; lia.
Qed.

Lemma Init_ok pairs acc res : Init pairs acc = inr res -> Forall pair_ok acc -> Forall pair_ok res.
Proof.
  revert acc. induction pairs as [|p ps IH]; intros acc; cbn [Init]; [by intros [= <-]|].
  destruct (add_pair p) as [e|q] eqn:Hq; [done|]. intros H Hacc. apply (IH _ H).
  apply Forall_app. split; [done|]. rewrite Forall_singleton. by eapply add_pair_ok.
Qed.

(** The start and the target of a pair, by direction. *)
Definition from_addr (dir : Direction) (p : NatPair) : Z := match dir with kForward => int_addr p | kReverse => ext_addr p end.
Definition to_addr (dir : Direction) (p : NatPair) : Z := match dir with kForward => ext_addr p | kReverse => int_addr p end.
Definition in_range (s n a : Z) : Prop := s <= a < s + n.

Definition opposite (dir : Direction) : Direction := match dir with kForward => kReverse | kReverse => kForward end.

Lemma translate_cons dir np rest a : pair_ok np ->
  translate dir (np :: rest) a =
    if (from_addr dir np <=? a) && (a <? from_addr dir np + size np) then Some (a - from_addr dir np + to_addr dir np)
    else translate dir rest a.
Proof.
  intros [Hs Hi He]. unfold translate. cbn [find_diff]. unfold from_addr, to_addr. change (2 ^ 32) with 4294967296 in *.
  destruct dir; rewrite (wrap_small 32) by (unfold in_word; change (2 ^ 32) with 4294967296; lia).
  - destruct (_ <=? a) eqn:H1; [|done]. destruct (a <? _) eqn:H2; [|done]. cbn [andb mbind option_bind]. f_equal.
    unfold wrap. change (2 ^ 32) with 4294967296. zlia.
  - destruct (_ <=? a) eqn:H1; [|done]. destruct (a <? _) eqn:H2; [|done]. cbn [andb mbind option_bind]. f_equal.
    unfold wrap. change (2 ^ 32) with 4294967296. zlia.
Qed.

(** An address is translated by the first pair that has it, to the same place of the
    other range. *)
Lemma translate_spec dir pairs_ a : Forall pair_ok pairs_ ->
  match translate dir pairs_ a with
  | Some b => exists k np, pairs_ !! k = Some np /\ in_range (from_addr dir np) (size np) a /\
      (forall j np', (j < k)%nat -> pairs_ !! j = Some np' -> ~ in_range (from_addr dir np') (size np') a) /\
      b = a - from_addr dir np + to_addr dir np /\ in_range (to_addr dir np) (size np) b
  | None => forall np, np ∈ pairs_ -> ~ in_range (from_addr dir np) (size np) a
  end.
Proof.
  induction 1 as [|np rest Hnp Hrest IH]; [cbn; intros np H; set_solver|].
  rewrite translate_cons by done. destruct ((_ <=? a) && (a <? _)) eqn:Hin.
  - apply andb_true_iff in Hin as [H1%Z.leb_le H2%Z.ltb_lt]. exists 0%nat, np. unfold in_range.
    split; [done|]. split; [lia|]. split; [intros; lia|]. split; lia.
  - assert (~ in_range (from_addr dir np) (size np) a) as Hnot.
    { intros [H1 H2]. apply andb_false_iff in Hin as [?%Z.leb_gt|?%Z.ltb_ge]; lia. }
    destruct (translate dir rest a) as [b|].
    + destruct IH as (k & np' & Hk & Hr & Hfirst & Hb & Hbr). exists (S k), np'. split; [done|]. split; [done|].
      split; [|done]. intros [|j] np2 Hj Hlk; [by injection Hlk as ->|]. apply (Hfirst j); [lia|done].
    + intros np2 [->|Hin2]%elem_of_cons; [done|by apply IH].
Qed.

Definition ranges_apart (dir : Direction) (pairs_ : list NatPair) : Prop :=
  forall i j p q a, pairs_ !! i = Some p -> pairs_ !! j = Some q -> in_range (from_addr dir p) (size p) a ->
    in_range (from_addr dir q) (size q) a -> i = j.

(** round trip.  Whatever [Init] accepts, an address is translated by the first pair
    whose range has it, to the address at the same place of the other range, and stays as
    it is when no range has it; when the ranges translated to do not overlap, the other
    direction gives back the address. *)
Theorem static_nat_round_trip pairs pairs_ dir a b : Init pairs [] = inr pairs_ ->
  ranges_apart (opposite dir) pairs_ -> translate dir pairs_ a = Some b ->
  (exists k np, pairs_ !! k = Some np /\ in_range (from_addr dir np) (size np) a /\ b = a - from_addr dir np + to_addr dir np /\
     (forall j np', (j < k)%nat -> pairs_ !! j = Some np' -> ~ in_range (from_addr dir np') (size np') a)) /\
  translate (opposite dir) pairs_ b = Some a.
Proof.
  intros Hinit Hap Hab. pose proof (Init_ok _ _ _ Hinit ltac:(constructor)) as Hok.
  pose proof (translate_spec dir pairs_ a Hok) as Hs. rewrite Hab in Hs. destruct Hs as (k & np & Hk & Ha & Hfirst & Hb & Hbr).
  split; [by exists k, np|].
  assert (forall p, from_addr (opposite dir) p = to_addr dir p /\ to_addr (opposite dir) p = from_addr dir p) as Hop by (by destruct dir).
  pose proof (translate_spec (opposite dir) pairs_ b Hok) as Hr. destruct (translate (opposite dir) pairs_ b) as [a'|].
  - destruct Hr as (k' & np' & Hk' & Hb' & _ & Ha' & _).
    assert (k' = k) as ->. { apply (Hap k' k np' np b Hk' Hk Hb'). by rewrite (proj1 (Hop np)). }
    rewrite Hk in Hk'. injection Hk' as <-. destruct (Hop np) as [E1 E2]. rewrite E1, E2 in Ha'. f_equal. lia.
  - exfalso. apply (Hr np); [by eapply list_elem_of_lookup_2|]. by rewrite (proj1 (Hop np)).
Qed.

(** "10.0.0.1", "10.0.0.4", "192.168.1.11" and "192.168.1.14" *)
Definition example_pairs : list pb_pair :=
  [MkPbPair (MkRange [49;48;46;48;46;48;46;49] [49;48;46;48;46;48;46;52])
            (MkRange [49;57;50;46;49;54;56;46;49;46;49;49] [49;57;50;46;49;54;56;46;49;46;49;52])].
Definition example_pair : NatPair := MkNatPair 0x0a000001 0xc0a8010b 4.

Lemma static_nat_round_trip_witness :
  Init example_pairs [] = inr [example_pair] /\ translate kForward [example_pair] 0x0a000003 = Some 0xc0a8010d /\
  translate kReverse [example_pair] 0xc0a8010d = Some 0x0a000003.
Proof.
  split; [vm_compute; reflexivity|]. split; [vm_compute; reflexivity|].
  apply (static_nat_round_trip example_pairs [example_pair] kForward).
  - vm_compute. reflexivity.
  - intros [|i] [|j] p q a Hi Hj; try done; by cbn in *.
  - vm_compute. reflexivity.
Defined.

(** The configuration that is reported is not the one that was given: the end of each
    range is one more, so that giving it back makes every range one address longer. *)
Lemma parse_To d : in_word 32 d -> parse (ToIpv4Address (of_cpu 4 d)) = Some (of_cpu 4 d).
Proof.
  intros Hd. unfold parse. unfold of_cpu at 1.
  pose proof (Parse_To (swap 4 d) (BE 0) [] (swap_word 4 d) I) as H. rewrite app_nil_r in H. by rewrite H.
Qed.

Lemma initial_arg_grows np : pair_ok np -> int_addr np + size np < 0xffffffff -> ext_addr np + size np < 0xffffffff ->
  Init (GetInitialArg [np]) [] = inr [MkNatPair (int_addr np) (ext_addr np) (size np + 1)].
Proof.
  intros [Hs Hi He] Hib Heb. change (2 ^ 32) with 4294967296 in *.
  cbn [GetInitialArg map Init]. unfold add_pair. cbn [int_range ext_range start end_].
  rewrite !(wrap_small 32 (_ + size np)) by (unfold in_word; change (2 ^ 32) with 4294967296; lia).
  rewrite !parse_To by (unfold in_word; change (2 ^ 32) with 4294967296; lia). cbn [GetInitialArg].
  unfold be_gt, be_lt. rewrite !value_of_cpu by (unfold in_word, width; change (2 ^ (8 * Z.of_nat 4)) with 4294967296; lia).
  rewrite !(proj2 (Z.ltb_ge _ _)) by lia. rewrite !(proj2 (Z.eqb_neq _ 0xffffffff)) by lia. cbn [orb].
  unfold be_ne, be_eq, be_sub. rewrite !value_of_cpu by (unfold in_word, width; change (2 ^ (8 * Z.of_nat 4)) with 4294967296; lia).
  replace (int_addr np + size np - int_addr np) with (size np) by lia. replace (ext_addr np + size np - ext_addr np) with (size np) by lia.
  rewrite Z.eqb_refl. cbn [negb app]. rewrite (wrap_small 32 (size np)) by (unfold in_word; change (2 ^ 32) with 4294967296; lia).
  rewrite wrap_small by (unfold in_word; change (2 ^ 32) with 4294967296; lia). done.
Qed.

(** ** Rewritten packets *)
Section packet.
Context (dir : Direction) (p : bytes) (l4 : nat) (a : Z) (Hfr : framed p l4) (Ha : in_word 32 a).

Abbreviation A := (addr_pos dir).
Abbreviation raw := (word16 A p + 2 ^ 16 * word16 (A + 2) p).
Abbreviation incr := (ChecksumIncrement32 raw a).
Abbreviation c := (UpdateChecksumWithIncrement (word16 24 p) incr).
Abbreviation proto := (nth 23 p 0).

Definition rewrite_addr (p : bytes) (raw a : Z) : option bytes :=
  p ← UpdateChecksum p (ChecksumIncrement32 raw a); store 4 (addr_at dir) a p.

Lemma raw_word : in_word 32 raw.
Proof using All.
  destruct Hfr as [Hok _ _ _]. pose proof (word16_word A p Hok). pose proof (word16_word (A + 2) p Hok).
  unfold in_word in *. change (2 ^ 16) with 65536 in *. change (2 ^ 32) with 4294967296. lia.
Qed.

Lemma incr_range : 0 <= incr < 2 ^ 31.
Proof using All. destruct (increment32_mod raw a raw_word Ha). lia. Qed.

Lemma c_ok : in_word 16 c /\ (c + a - word16 24 p - raw) mod 65535 = 0.
Proof using All.
  apply update_l3; [apply word16_word, Hfr|apply raw_word|done].
Qed.

Lemma l4_room : (l4 + 8 <= length p)%nat /\ (34 <= l4)%nat.
Proof using All. destruct Hfr as [_ Hl4 _ Hlen]. unfold l4_header in Hlen. case_match; lia. Qed.

(** What is written: the address, the IP checksum, and the L4 checksum of TCP and UDP. *)
Lemma rewrite_addr_eq : rewrite_addr p raw a =
  let q := store16 A (u16 a) (store16 (A + 2) (a / 2 ^ 16) (store16 24 c p)) in
  Some (if proto =? kTcp then store16 (l4 + 16) (UpdateChecksumWithIncrement (word16 (l4 + 16) p) incr) q
        else if (proto =? kUdp) && negb (word16 (l4 + 6) p =? 0) then
          let ck := UpdateChecksumWithIncrement (word16 (l4 + 6) p) incr in store16 (l4 + 6) (if ck =? 0 then 0xffff else ck) q
        else q).
Proof using All.
  pose proof Hfr as [Hok Hl4 Hat Hlen]. destruct l4_room as [Hroom _].
  assert (HA : A = 26%nat \/ A = 30%nat) by (destruct dir; auto).
  assert (Hz : Z.to_nat (addr_at dir) = A) by (by destruct dir).
  unfold rewrite_addr, UpdateChecksum. rewrite Hat. cbn [mbind option_bind].
  rewrite load_1 by offs. change (Z.to_nat (ip_at + ip_protocol)) with 23%nat. cbn [mbind option_bind].
  rewrite load_2 by offs. change (Z.to_nat (ip_at + ip_checksum)) with 24%nat. cbn [mbind option_bind].
  rewrite store_2 by offs. change (Z.to_nat (ip_at + ip_checksum)) with 24%nat. cbn [mbind option_bind].
  set (p1 := store16 24 c p). assert (Hl1 : length p1 = length p) by (apply length_store16; lia).
  assert (Hst : forall off v, (l4 <= off)%nat -> (off + 2 <= length p)%nat ->
    store 4 (addr_at dir) a (store16 off v p1) = Some (store16 off v (store16 A (u16 a) (store16 (A + 2) (a / 2 ^ 16) p1)))).
  { intros off v H1 H2. rewrite store_4 by (rewrite ?length_store16; destruct dir; offs). rewrite Hz. f_equal.
    rewrite (store16_comm (A + 2) _ off), (store16_comm A _ off) by (rewrite ?length_store16; lia). done. }
  assert (Hst0 : store 4 (addr_at dir) a p1 = Some (store16 A (u16 a) (store16 (A + 2) (a / 2 ^ 16) p1))).
  { rewrite store_4 by (destruct dir; offs). by rewrite Hz. }
  destruct (Z.eqb_spec proto kTcp) as [Ht|Ht].
  - assert (l4_header proto = 20%nat) as Hh by (by rewrite Ht). rewrite Hh in Hlen.
    rewrite load_2 by (rewrite ?Hl1; offs). replace (Z.to_nat (Z.of_nat l4 + tcp_checksum)) with (l4 + 16)%nat by offs.
    cbn [mbind option_bind]. rewrite store_2 by (rewrite ?Hl1; offs). replace (Z.to_nat (Z.of_nat l4 + tcp_checksum)) with (l4 + 16)%nat by offs.
    assert (word16 (l4 + 16) p1 = word16 (l4 + 16) p) as -> by (apply word16_other; lia).
    cbn [mbind option_bind]. by rewrite Hst by lia.
  - destruct (Z.eqb_spec proto kUdp) as [Hu|Hu]; [|done].
    rewrite load_2 by (rewrite ?Hl1; offs). replace (Z.to_nat (Z.of_nat l4 + udp_checksum)) with (l4 + 6)%nat by offs.
    assert (word16 (l4 + 6) p1 = word16 (l4 + 6) p) as -> by (apply word16_other; lia). cbn [mbind option_bind andb].
    destruct (Z.eqb_spec (word16 (l4 + 6) p) 0); [done|]. cbn [negb]. rewrite store_2 by (rewrite ?Hl1; offs).
    replace (Z.to_nat (Z.of_nat l4 + udp_checksum)) with (l4 + 6)%nat by offs. cbn [mbind option_bind]. by rewrite Hst by lia.
Qed.
End packet.

(** The same as a stamp that keeps the port. *)
Lemma stamped_same_port p A a c PT CK ck : bytes_ok p -> (34 <= PT)%nat -> (PT + 2 <= length p)%nat -> A = 26%nat \/ A = 30%nat ->
  stamped p A a c PT (word16 PT p) CK ck = store16 CK ck (store16 A (u16 a) (store16 (A + 2) (a / 2 ^ 16) (store16 24 c p))).
Proof.
  intros Hok HPT Hl HA. unfold stamped. f_equal.
  rewrite (store16_comm 24 c A), (store16_comm 24 c (A + 2)) by len16.
  apply store16_same; [by repeat apply store16_ok|len16|]. by rewrite !word16_other by len16.
Qed.

(** The IP checksum of a packet whose address and checksum field moved by the same. *)
Lemma ip_valid_moved avx2 p A a c PT prt CK ck l4 n : bytes_ok p -> l4_at p = Some (Z.of_nat l4) ->
  A = 26%nat \/ A = 30%nat -> (34 <= l4)%nat -> (l4 + n <= length p)%nat ->
  (l4 <= PT)%nat /\ (PT + 2 <= l4 + n)%nat /\ Z.odd (Z.of_nat (PT - l4)) = false ->
  (l4 <= CK)%nat /\ (CK + 2 <= l4 + n)%nat /\ Z.odd (Z.of_nat (CK - l4)) = false ->
  (PT + 2 <= CK \/ CK + 2 <= PT)%nat -> in_word 32 a -> in_word 16 c -> in_word 16 prt -> in_word 16 ck ->
  (c + a - word16 24 p - (word16 A p + 2 ^ 16 * word16 (A + 2) p)) mod 65535 = 0 ->
  VerifyIpv4Checksum avx2 (drop 14 p) = Some true ->
  VerifyIpv4Checksum avx2 (drop 14 (stamped p A a c PT prt CK ck)) = Some true.
Proof.
  intros Hok Hat HA Hl4 Hn HPT HCK Hdis Ha Hc Hprt Hck Hm. set (p' := stamped p A a c PT prt CK ck).
  assert (Hl : length p' = length p) by (by apply (stamped_length p A a c PT prt CK ck l4 n)).
  assert (Hok' : bytes_ok p') by (by apply stamped_ok).
  assert (Hh : ip_header_len (drop 14 p') = ip_header_len (drop 14 p)).
  { unfold ip_header_len. rewrite !(nth_take_drop 0 (drop 14 _)), !drop_0. unfold p'.
    by rewrite (stamped_other p A a c PT prt CK ck l4 n) by (done || lia). }
  apply l4_at_eq in Hat; [|lia].
  assert (Hv : forall q, bytes_ok q -> length q = length p -> ip_header_len (drop 14 q) = ip_header_len (drop 14 p) ->
    VerifyIpv4Checksum avx2 (drop 14 q) = Some (internet_checksum (wsum 14 (l4 - 14) q) =? 0)).
  { intros q Hq Hlq Hhq. rewrite VerifyIpv4Checksum_spec; [|auto with bess|rewrite length_drop; lia].
    unfold ipv4_header_sum, wsum. by replace (Z.to_nat (ip_header_len (drop 14 q))) with (l4 - 14)%nat by lia. }
  rewrite !Hv by done. intros [= Hs%Z.eqb_eq]. do 2 f_equal. apply Z.eqb_eq.
  apply checksum_valid_iff in Hs as [Hpos Hmod]; [|by apply wsum_nonneg]. apply checksum_valid_iff; [by apply wsum_nonneg|].
  assert (wsum 14 (l4 - 14) p' = wsum 14 (l4 - 14) p + (c - word16 24 p) + (u16 a - word16 A p) + (a / 2 ^ 16 - word16 (A + 2) p)) as Hsum.
  { apply (stamped_ip_sum p A a c PT prt CK ck l4 n); (done || lia). }
  assert (0 < nth 0 (drop 14 p) 0) as Hn0.
  { assert (0 <= nth 0 (drop 14 p) 0).
    { destruct (drop 14 p) as [|b r] eqn:Hd; [done|]. assert (bytes_ok (b :: r)) as Hb by (rewrite <- Hd; auto with bess).
      apply Forall_cons in Hb as [Hb _]. unfold in_word in Hb. cbn. lia. }
    destruct (Z.eq_dec (nth 0 (drop 14 p) 0) 0) as [Hz|]; [|lia]. unfold ip_header_len in Hat. rewrite Hz in Hat. change (Z.shiftl (Z.land 0 15) 2) with 0 in Hat. lia. }
  split.
  - assert (word16 14 p' = word16 14 p) as Hw by (unfold word16, p'; f_equal; by apply (stamped_other p A a c PT prt CK ck l4 n); (done || lia)).
    assert (0 < word16 14 p) as Hnz.
    { unfold word16. destruct (drop 14 p) as [|b0 [|b1 r]] eqn:Hd; [cbn in Hn0; lia| |].
      - apply (f_equal length) in Hd. rewrite length_drop in Hd. cbn in Hd. lia.
      - assert (bytes_ok (b0 :: b1 :: r)) as Hb by (rewrite <- Hd; auto with bess). unfold bytes_ok in Hb.
        rewrite !Forall_cons in Hb. unfold in_word in Hb. cbn in *. rewrite take_0. cbn. lia. }
    rewrite <- Hw in Hnz. pose proof (wsum_ge_first 14 (l4 - 14) p' Hok' ltac:(lia) ltac:(lia)). lia.
  - rewrite Hsum. unfold wrap. change (2 ^ 16) with 65536 in *. zlia.
Qed.

Lemma load_addr dir p l4 : framed p l4 ->
  load 4 (addr_at dir) p = Some (word16 (addr_pos dir) p + 2 ^ 16 * word16 (addr_pos dir + 2) p).
Proof. intros Hfr. destruct (l4_room dir p l4 0 Hfr ltac:(by split)) as [H1 H2]. destruct dir; apply load_4; offs. Qed.

(** The packet that [rewrite_addr] leaves, as a stamp. *)
Lemma rewrite_addr_stamp dir p l4 a : framed p l4 -> in_word 32 a ->
  let A := addr_pos dir in let raw := word16 A p + 2 ^ 16 * word16 (A + 2) p in let proto := nth 23 p 0 in
  let c := UpdateChecksumWithIncrement (word16 24 p) (ChecksumIncrement32 raw a) in
  (proto = kTcp \/ proto = kUdp ->
   exists ck, in_word 16 ck /\
     rewrite_addr dir p raw a = Some (stamped p A a c (port_pos dir proto l4) (word16 (port_pos dir proto l4) p) (ck_pos proto l4) ck) /\
     ck_moved (MkEndpoint raw (word16 (port_pos dir proto l4) p) proto) (MkEndpoint a (word16 (port_pos dir proto l4) p) proto)
       (word16 (ck_pos proto l4) p) ck) /\
  (proto <> kTcp /\ proto <> kUdp ->
   rewrite_addr dir p raw a = Some (stamped p A a c l4 (word16 l4 p) (l4 + 2) (word16 (l4 + 2) p))).
Proof.
  intros Hfr Ha A raw proto c. pose proof (rewrite_addr_eq dir p l4 a Hfr Ha) as Heq. cbn zeta in Heq. fold A raw proto c in Heq.
  destruct (l4_room dir p l4 0 Hfr ltac:(by split)) as [Hroom Hl4]. pose proof Hfr as [Hok _ _ Hlen]. fold proto in Hlen.
  assert (HA : A = 26%nat \/ A = 30%nat) by (unfold A; destruct dir; auto).
  set (q := store16 A (u16 a) (store16 (A + 2) (a / 2 ^ 16) (store16 24 c p))) in *.
  assert (Hqok : bytes_ok q) by (by repeat apply store16_ok). assert (Hql : length q = length p) by (unfold q; by rewrite !length_store16 by len16).
  assert (Hqw : forall off, (34 <= off)%nat -> word16 off q = word16 off p) by (intros; unfold q; by rewrite !word16_other by len16).
  assert (Hmove : forall old, in_word 16 old -> let ck := UpdateChecksumWithIncrement old (ChecksumIncrement32 raw a) in
    in_word 16 ck /\ (ck + a - old - raw) mod 65535 = 0).
  { intros old Hold. apply update_l3; [done|apply (raw_word dir p l4 a Hfr Ha)|done]. }
  split.
  - intros Hp. assert (Hpi : (proto =? kIcmp) = false) by (destruct Hp as [-> | ->]; done).
    assert (HPT : (34 <= port_pos dir proto l4)%nat /\ (port_pos dir proto l4 + 2 <= length p)%nat).
    { unfold port_pos. rewrite Hpi. destruct dir; lia. }
    destruct Hp as [Hp|Hp].
    + rewrite Hp in Heq. change (kTcp =? kTcp) with true in Heq. cbv iota in Heq.
      assert (HCK : ck_pos proto l4 = (l4 + 16)%nat) by (unfold ck_pos; by rewrite Hp). rewrite HCK.
      destruct (Hmove (word16 (l4 + 16) p) (word16_word _ p Hok)) as [Hw Hm]. eexists. split; [exact Hw|].
      split; [rewrite Heq, stamped_same_port by tauto; done|].
      unfold ck_moved. cbn [protocol addr port]. rewrite Hpi. rewrite (proj2 (Z.eqb_neq proto kUdp)) by (by rewrite Hp).
      cbn [andb]. split; [intros Hx; by rewrite Hp in Hx|]. rewrite <- Hm. f_equal. lia.
    + rewrite Hp in Heq. change (kUdp =? kTcp) with false in Heq. change (kUdp =? kUdp) with true in Heq. cbv iota in Heq. cbn [andb] in Heq.
      assert (HCK : ck_pos proto l4 = (l4 + 6)%nat) by (unfold ck_pos; by rewrite Hp). rewrite HCK.
      unfold ck_moved. cbn [protocol addr port]. rewrite Hpi, (proj2 (Z.eqb_eq proto kUdp) Hp). cbn [andb].
      destruct (Z.eqb_spec (word16 (l4 + 6) p) 0) as [Hz|Hz]; cbn [negb] in Heq.
      * exists 0. split; [done|]. split; [|done]. rewrite Heq, stamped_same_port by tauto. f_equal. symmetry.
        apply store16_same; [done|lia|]. by rewrite Hqw by lia.
      * destruct (Hmove (word16 (l4 + 6) p) (word16_word _ p Hok)) as [Hw Hm]. cbn zeta in Hm, Hw.
        set (ck := UpdateChecksumWithIncrement (word16 (l4 + 6) p) _) in *.
        exists (if ck =? 0 then 65535 else ck). split; [destruct (ck =? 0); done|].
        split; [rewrite Heq, stamped_same_port by tauto; done|]. destruct (Z.eqb_spec ck 0) as [E|E]; (split; [done|]).
        -- rewrite E in Hm. zlia.
        -- rewrite <- Hm. f_equal. lia.
  - intros [H1 H2]. rewrite (proj2 (Z.eqb_neq _ _) H1), (proj2 (Z.eqb_neq _ _) H2) in Heq. cbn [andb] in Heq.
    rewrite Heq, stamped_same_port by (lia || done). f_equal. symmetry. apply store16_same; [done|lia|]. apply Hqw. lia.
Qed.

(** A packet (with a whole L4 header) that is translated stays good: the
    translation is defined, writes the translated address and nothing but the address and
    the checksums, and an IP, TCP or UDP checksum that verifies still verifies, a missing
    UDP checksum staying missing. *)
Theorem static_nat_keeps_checksums avx2 dir pairs_ p l4 : framed p l4 ->
  let A := addr_pos dir in let raw := word16 A p + 2 ^ 16 * word16 (A + 2) p in
  exists p', translate_packet dir pairs_ p = Some p' /\
    match translate dir pairs_ (value 4 (BE raw)) with
    | None => p' = p
    | Some b =>
        length p' = length p /\ value 4 (BE (word16 A p' + 2 ^ 16 * word16 (A + 2) p')) = b /\
        (forall off k, (off + k <= 24 \/ 26 <= off /\ (off + k <= A \/ A + 4 <= off))%nat ->
           (off + k <= l4 \/ l4 + l4_header (nth 23%nat p 0%Z) <= off)%nat -> take k (drop off p') = take k (drop off p)) /\
        (VerifyIpv4Checksum avx2 (drop 14 p) = Some true -> VerifyIpv4Checksum avx2 (drop 14 p') = Some true) /\
        (nth 23 p 0 = kTcp -> VerifyIpv4TcpChecksum_hdr avx2 (drop 14 p) (drop l4 p) = Some true ->
         VerifyIpv4TcpChecksum_hdr avx2 (drop 14 p') (drop l4 p') = Some true) /\
        (nth 23 p 0 = kUdp -> VerifyIpv4UdpChecksum_hdr avx2 (drop 14 p) (drop l4 p) = Some true ->
         VerifyIpv4UdpChecksum_hdr avx2 (drop 14 p') (drop l4 p') = Some true)
    end.
Proof.
  intros Hfr A raw. unfold translate_packet. rewrite (load_addr dir p l4 Hfr). fold A raw. cbn [mbind option_bind].
  destruct (translate dir pairs_ (value 4 (BE raw))) as [b|] eqn:Htr; [|by exists p].
  assert (Hbw : in_word 32 b).
  { unfold translate in Htr. destruct (find_diff _ _ _); [|done]. injection Htr as <-. by apply wrap_range. }
  set (a := raw_value (of_cpu 4 b)).
  assert (Ha : in_word 32 a) by apply (swap_word 4).
  assert (Hva : value 4 (BE a) = b) by (apply (value_of_cpu 4); exact Hbw).
  destruct (rewrite_addr_stamp dir p l4 a Hfr Ha) as [Hl4ck Hother]. fold A raw in Hl4ck, Hother.
  destruct (c_ok dir p l4 a Hfr Ha) as [Hc Hcm]. fold A raw in Hc, Hcm. set (c := UpdateChecksumWithIncrement (word16 24 p) (ChecksumIncrement32 raw a)) in *.
  pose proof Hfr as [Hok Hl4 Hat Hlen]. destruct (l4_room dir p l4 0 Hfr ltac:(by split)) as [Hroom H34].
  assert (HA : A = 26%nat \/ A = 30%nat) by (unfold A; destruct dir; auto).
  change (p ← UpdateChecksum p (ChecksumIncrement32 raw a); store 4 (addr_at dir) a p) with (rewrite_addr dir p raw a).
  set (proto := nth 23 p 0) in *. assert (Hdec : (proto = kTcp \/ proto = kUdp) \/ (proto <> kTcp /\ proto <> kUdp)).
  { destruct (Z.eq_dec proto kTcp), (Z.eq_dec proto kUdp); tauto. }
  destruct Hdec as [Hp|Hp].
  - destruct (Hl4ck Hp) as (ck & Hck & -> & Hckm). eexists. split; [reflexivity|].
    set (PT := port_pos dir proto l4) in *. set (before := MkEndpoint raw (word16 PT p) proto) in *.
    set (after := MkEndpoint a (word16 PT p) proto) in *.
    assert (Hext : ExtractEndpoint p (Z.of_nat l4) dir = Some (Some before)).
    { apply extract_spec; [done|done|done|]. split; [tauto|done]. }
    assert (Hafter : endpoint_ok after).
    { split; [done|]. split; [apply word16_word; done|]. unfold after. cbn [protocol]. destruct Hp as [-> | ->]; done. }
    assert (Hcm' : (c + addr after - word16 24 p - addr before) mod 65535 = 0) by exact Hcm.
    split; [exact (stamp_length dir p l4 before after Hl4 Hok Hat Hlen Hext Hafter c ck Hc Hck Hcm' Hckm)|].
    destruct (stamp_addresses dir p l4 before after Hl4 Hok Hat Hlen Hext Hafter c ck Hc Hck Hcm' Hckm) as (Hadr & _).
    change (word16 A (stamped p A a c PT (word16 PT p) (ck_pos proto l4) ck) + 2 ^ 16 * word16 (A + 2) (stamped p A a c PT (word16 PT p) (ck_pos proto l4) ck) = a) in Hadr.
    split; [by rewrite Hadr|]. split; [|split; [|split]].
    + intros off k H1 H2. destruct (positions dir p l4 before after Hl4 Hok Hlen Hext Hafter) as (Hx & (Hy1 & Hy2 & _) & (Hz1 & Hz2 & _) & _).
      change (protocol before) with proto in *.
      apply (stamp_other dir p l4 before after Hl4 Hok Hat Hlen Hext Hafter c ck Hc Hck Hcm' Hckm); cbn [protocol before]; fold A; lia.
    + exact (ip_stays_valid dir p l4 before after Hl4 Hok Hat Hlen Hext Hafter c ck Hc Hck Hcm' Hckm avx2).
    + exact (tcp_stays_valid dir p l4 before after Hl4 Hok Hat Hlen Hext Hafter c ck Hc Hck Hcm' Hckm avx2).
    + exact (udp_stays_valid dir p l4 before after Hl4 Hok Hat Hlen Hext Hafter c ck Hc Hck Hcm' Hckm avx2).
  - rewrite (Hother Hp). eexists. split; [reflexivity|].
    assert (Hh : l4_header proto = 8%nat) by (unfold l4_header; rewrite (proj2 (Z.eqb_neq _ _)) by tauto; done). rewrite Hh.
    assert (HPT : (l4 <= l4)%nat /\ (l4 + 2 <= l4 + 8)%nat /\ Z.odd (Z.of_nat (l4 - l4)) = false) by (rewrite Nat.sub_diag; repeat split; lia).
    assert (HCK : (l4 <= l4 + 2)%nat /\ (l4 + 2 + 2 <= l4 + 8)%nat /\ Z.odd (Z.of_nat (l4 + 2 - l4)) = false).
    { split; [lia|]. split; [lia|]. by replace (l4 + 2 - l4)%nat with 2%nat by lia. }
    pose proof (word16_word l4 p Hok) as Hw1. pose proof (word16_word (l4 + 2) p Hok) as Hw2.
    split; [by apply (stamped_length p A a c l4 _ (l4 + 2) _ l4 8); (done || lia)|].
    assert (word16 A (stamped p A a c l4 (word16 l4 p) (l4 + 2) (word16 (l4 + 2) p)) +
      2 ^ 16 * word16 (A + 2) (stamped p A a c l4 (word16 l4 p) (l4 + 2) (word16 (l4 + 2) p)) = a) as ->.
    { by apply (stamped_addr p A a c l4 _ (l4 + 2) _ l4 8); (done || lia). }
    split; [done|]. split; [|split; [|tauto]].
    + intros off k H1 H2. by apply (stamped_other p A a c l4 _ (l4 + 2) _ l4 8); (done || lia).
    + by apply (ip_valid_moved avx2 p A a c l4 _ (l4 + 2) _ l4 8); (done || lia).
Qed.

Lemma static_nat_keeps_checksums_witness : exists p', translate_packet kForward [example_pair] ex_packet = Some p' /\
  p' <> ex_packet /\ VerifyIpv4Checksum false (drop 14 p') = Some true /\
  VerifyIpv4UdpChecksum_hdr false (drop 14 p') (drop 34 p') = Some true.
Proof.
  destruct (static_nat_keeps_checksums false kForward [example_pair] ex_packet 34 ex_framed) as (p' & Hp & Hrest).
  exists p'. split; [exact Hp|].
  assert (translate kForward [example_pair] (value 4 (BE (word16 (addr_pos kForward) ex_packet + 2 ^ 16 * word16 (addr_pos kForward + 2) ex_packet)))
    = Some 0xc0a8010b) as Ht by (vm_compute; reflexivity).
  rewrite Ht in Hrest. destruct Hrest as (_ & Hv & _ & Hip & _ & Hudp).
  split; [|split; [apply Hip|apply Hudp]; vm_compute; reflexivity].
  intros ->. vm_compute in Hv. discriminate Hv.
Defined.

(** A batch is translated packet by packet, and leaves by the gate of its direction. *)
Lemma static_nat_batch incoming_gate pairs_ batch : Forall (fun p => exists l4, framed p l4) batch ->
  exists out, ProcessBatch incoming_gate pairs_ batch = Some out /\ length out = length batch /\
    Forall (fun x => x.2 = if incoming_gate =? 0 then 0 else 1) out.
Proof.
  intros Hb. unfold ProcessBatch.
  assert (forall dir g, g = match dir with kForward => 0 | kReverse => 1 end ->
    exists out, DoProcessBatch dir pairs_ batch = Some out /\ length out = length batch /\ Forall (fun x => x.2 = g) out) as H.
  { intros dir g Hg. unfold DoProcessBatch. induction Hb as [|p batch [l4 Hp] Hb IH]; [by exists []|].
    destruct IH as (out & Ho & Hl & Hf). destruct (translate_packet dir pairs_ p) as [q|] eqn:Hq.
    - exists ((q, g) :: out). split; [|split; [by cbn; f_equal|by constructor]]. cbn [mapM]. rewrite Hq. cbn [mbind option_bind].
      rewrite Ho. by rewrite Hg.
    - exfalso. unfold translate_packet in Hq. rewrite (load_addr dir p l4 Hp) in Hq. cbn [mbind option_bind] in Hq.
      destruct (translate _ _ _) as [b|] eqn:Ht; [|done].
      assert (in_word 32 (raw_value (of_cpu 4 b))) as Ha by apply (swap_word 4).
      change (rewrite_addr dir p (word16 (addr_pos dir) p + 2 ^ 16 * word16 (addr_pos dir + 2) p) (raw_value (of_cpu 4 b)) = None) in Hq.
      by rewrite (rewrite_addr_eq dir p l4 _ Hp Ha) in Hq. }
  destruct (incoming_gate =? 0); by apply H.
Qed.
