(* ===== verification/Rewriters.v ===== *)
(** Modules that rewrite header fields: [core/modules/macswap.cc], [ipswap.cc],
    [ip_checksum.cc], [l4_checksum.cc] and [update_ttl.cc].

    A packet is the bytes from its head, as in Frame.v; an access outside of them is
    [None]. *)
From S2P Require Import Prelude Endian Bits Checksum Frame PacketBuf Encap NatStamp.

(** ** MACSwap *)
Definition read (off n : Z) (p : bytes) : option bytes := slice off n p.
Definition mac_swap (p : bytes) : option bytes :=
  tmp ← read 0 6 p;
  src ← read 6 6 p;
  p ← write_at 0 src p;
  write_at 6 tmp p.

(** ** IPSwap *)
Definition ip_swap (p : bytes) : option bytes :=
  l4 ← l4_at p;
  tmp_ip ← load 4 (ip_at + ip_src_addr) p;
  dst ← load 4 (ip_at + ip_dst_addr) p;
  p ← store 4 (ip_at + ip_src_addr) dst p;
  p ← store 4 (ip_at + ip_dst_addr) tmp_ip p;
  proto ← load 1 (ip_at + ip_protocol) p;
  if (proto =? kTcp) || (proto =? kUdp) then
    tmp_port ← load 2 (l4 + udp_src_port) p;
    dst_port ← load 2 (l4 + udp_dst_port) p;
    p ← store 2 (l4 + udp_src_port) dst_port p;
    store 2 (l4 + udp_dst_port) tmp_port p
  else Some p.

(** ** IPChecksum *)

(** Where the IPv4 header is, after at most two VLAN tags; [Some None] for other packets. *)
Definition find_ipv4 (p : bytes) : option (option Z) :=
  ether_type ← load 2 12 p;
  let data := 14 in
  let ipv4 (data ether_type : Z) := if be_eq (BE ether_type) (of_cpu 2 kIpv4_type) then Some (Some data) else Some None in
  let vlan (data ether_type : Z) :=
    if be_eq (BE ether_type) (of_cpu 2 kVlan) then
      ether_type ← load 2 (data + 2) p; ipv4 (data + 4) ether_type
    else ipv4 data ether_type in
  if be_eq (BE ether_type) (of_cpu 2 kQinQ) then
    ether_type ← load 2 (data + 2) p;
    if be_ne (BE ether_type) (of_cpu 2 kVlan) then Some None else vlan (data + 4) ether_type
  else vlan data ether_type.

Definition ip_checksum_packet (avx2 : bool) (p : bytes) : option bytes :=
  ip ← find_ipv4 p;
  match ip with
  | None => Some p
  | Some ip =>
      ck ← CalculateIpv4Checksum avx2 (drop (Z.to_nat ip) p);
      store 2 (ip + ip_checksum) ck p
  end.

(** ** L4Checksum *)
Definition l4_checksum_packet (avx2 : bool) (p : bytes) : option bytes :=
  ether_type ← load 2 12 p;
  if be_ne (BE ether_type) (of_cpu 2 kIpv4_type) then Some p
  else
    proto ← load 1 (ip_at + ip_protocol) p;
    if proto =? kUdp then
      l4 ← l4_at p;
      ck ← CalculateIpv4UdpChecksum_hdr avx2 (drop 14 p) (drop (Z.to_nat l4) p);
      store 2 (l4 + udp_checksum) ck p
    else if proto =? kTcp then
      l4 ← l4_at p;
      ck ← CalculateIpv4TcpChecksum_hdr avx2 (drop 14 p) (drop (Z.to_nat l4) p);
      store 2 (l4 + tcp_checksum) ck p
    else Some p.

(** ** MACSwap *)
Lemma mac_swap_spec d s r : length d = 6%nat -> length s = 6%nat -> mac_swap (d ++ s ++ r) = Some (s ++ d ++ r).
Proof.
  intros Hd Hs. unfold mac_swap, read.
  rewrite slice_Some by (rewrite ?length_app; lia). rewrite slice_Some by (rewrite ?length_app; lia). cbn [mbind option_bind].
  change (Z.to_nat 6) with 6%nat. change (Z.to_nat 0) with 0%nat. rewrite drop_0, take_app_le, take_ge by lia.
  rewrite drop_app_ge, Hd by lia. change (6 - 6)%nat with 0%nat. rewrite drop_0, take_app_le, take_ge by lia.
  pose proof (write_at_mid 0 s [] d (s ++ r) eq_refl ltac:(lia)) as E1. cbn [app] in E1. rewrite E1. cbn [mbind option_bind].
  rewrite (write_at_mid 6 d s s) by lia. done.
Qed.

(** ** IPSwap *)
Lemma words_of x y : in_word 16 x -> in_word 16 y -> u16 (x + 2 ^ 16 * y) = x /\ (x + 2 ^ 16 * y) / 2 ^ 16 = y.
Proof. unfold in_word, wrap. change (2 ^ 16) with 65536. intros. split; zlia. Qed.

Lemma framed_room p l4 : framed p l4 -> (34 <= l4)%nat /\ (l4 + 8 <= length p)%nat.
Proof. intros [_ Hl4 _ Hlen]. unfold l4_header in Hlen. case_match; lia. Qed.

Definition addresses_swapped (p : bytes) : bytes := exchange 26 30 (exchange 28 32 p).
Definition swapped (p : bytes) (l4 : nat) : bytes :=
  if (nth 23 p 0 =? kTcp) || (nth 23 p 0 =? kUdp) then exchange l4 (l4 + 2) (addresses_swapped p) else addresses_swapped p.

Section swap.
Context (p : bytes) (l4 : nat) (Hfr : framed p l4).

Lemma apart_addresses : apart16 26 30 (exchange 28 32 p) /\ apart16 28 32 p.
Proof using All.
  destruct (framed_room p l4 Hfr). assert (apart16 28 32 p) as Hap by (unfold apart16; lia). split; [|done].
  unfold apart16. rewrite length_exchange by done. lia.
Qed.

Lemma length_swapped : length (addresses_swapped p) = length p /\ length (swapped p l4) = length p.
Proof using All.
  destruct apart_addresses as [H1 H2]. destruct (framed_room p l4 Hfr).
  assert (length (addresses_swapped p) = length p) as Hl by (unfold addresses_swapped; by rewrite !length_exchange).
  split; [done|]. unfold swapped. destruct (_ || _); [|done]. rewrite length_exchange; [done|]. unfold apart16. lia.
Qed.

Lemma swapped_ok : bytes_ok (swapped p l4) /\ bytes_ok (addresses_swapped p).
Proof using All.
  destruct Hfr as [Hok _ _ _]. assert (bytes_ok (addresses_swapped p)) by (by do 2 apply exchange_ok).
  split; [|done]. unfold swapped. destruct (_ || _); [|done]. by apply exchange_ok.
Qed.

Lemma addresses_other off k : (off + k <= 26 \/ 34 <= off)%nat -> take k (drop off (addresses_swapped p)) = take k (drop off p).
Proof using All.
  intros H. destruct apart_addresses as [H1 H2]. unfold addresses_swapped. by rewrite !exchange_other by (done || lia).
Qed.

Lemma ports_apart : apart16 l4 (l4 + 2) (addresses_swapped p).
Proof using All. destruct (framed_room p l4 Hfr), length_swapped as [Hl _]. unfold apart16. lia. Qed.

Lemma swapped_other off k : (off + k <= 26 \/ 34 <= off /\ off + k <= l4 \/ l4 + 4 <= off)%nat ->
  take k (drop off (swapped p l4)) = take k (drop off p).
Proof using All.
  intros H. destruct (framed_room p l4 Hfr). pose proof ports_apart. unfold swapped. destruct (_ || _); [|apply addresses_other; lia].
  rewrite exchange_other by (done || lia). apply addresses_other. lia.
Qed.

Lemma ip_swap_eq : ip_swap p = Some (swapped p l4).
Proof using All.
  destruct (framed_room p l4 Hfr) as [H34 Hroom]. pose proof Hfr as [Hok Hl4 Hat Hlen]. destruct apart_addresses as [Hap1 Hap2].
  destruct length_swapped as [Hla _].
  pose proof (word16_word 26 p Hok) as W26. pose proof (word16_word 28 p Hok) as W28.
  pose proof (word16_word 30 p Hok) as W30. pose proof (word16_word 32 p Hok) as W32.
  unfold ip_swap. rewrite Hat. cbn [mbind option_bind].
  rewrite !load_4 by offs. change (Z.to_nat (ip_at + ip_src_addr)) with 26%nat. change (Z.to_nat (ip_at + ip_dst_addr)) with 30%nat.
  cbn [mbind option_bind]. change (26 + 2)%nat with 28%nat. change (30 + 2)%nat with 32%nat.
  destruct (words_of _ _ W26 W28) as [E1 E2]. destruct (words_of _ _ W30 W32) as [E3 E4].
  rewrite store_4 by offs. cbn [mbind option_bind]. change (Z.to_nat (ip_at + ip_src_addr)) with 26%nat.
  rewrite store_4 by (first [offs | rewrite !length_store16 by len16; offs]).
  change (Z.to_nat (ip_at + ip_src_addr)) with 26%nat. change (Z.to_nat (ip_at + ip_dst_addr)) with 30%nat.
  cbn [mbind option_bind]. change (26 + 2)%nat with 28%nat. change (30 + 2)%nat with 32%nat. rewrite E1, E2, E3, E4.
  assert (store16 30 (word16 26 p) (store16 32 (word16 28 p) (store16 26 (word16 30 p) (store16 28 (word16 32 p) p))) = addresses_swapped p) as ->.
  { unfold addresses_swapped, exchange. rewrite !(word16_other _ 26), !(word16_other _ 30) by len16.
    rewrite (store16_comm 32 _ 26) by len16. done. }
  rewrite load_1 by (rewrite ?Hla; offs). change (Z.to_nat (ip_at + ip_protocol)) with 23%nat. cbn [mbind option_bind].
  assert (nth 23 (addresses_swapped p) 0 = nth 23 p 0) as -> by (rewrite !(nth_take_drop 23), addresses_other by lia; done).
  unfold swapped. destruct (_ || _); [|done].
  rewrite !load_2 by (rewrite ?Hla; offs). cbn [mbind option_bind].
  rewrite store_2 by (rewrite ?Hla; offs). cbn [mbind option_bind].
  assert (Z.to_nat (Z.of_nat l4 + udp_src_port) = l4) as -> by offs. assert (Z.to_nat (Z.of_nat l4 + udp_dst_port) = (l4 + 2)%nat) as -> by offs.
  rewrite store_2 by (first [offs | rewrite length_store16 by (rewrite Hla; lia); rewrite Hla; offs]).
  assert (Z.to_nat (Z.of_nat l4 + udp_dst_port) = (l4 + 2)%nat) as -> by offs. done.
Qed.

Lemma swapped_framed : framed (swapped p l4) l4.
Proof using All.
  destruct (framed_room p l4 Hfr) as [H34 Hroom]. pose proof Hfr as [Hok Hl4 Hat Hlen]. destruct length_swapped as [_ Hl].
  split; [apply swapped_ok|done| |].
  - apply l4_at_eq; [lia|]. apply l4_at_eq in Hat; [|lia]. rewrite Hat. unfold ip_header_len.
    rewrite !(nth_take_drop 0 (drop 14 _)), !drop_0. by rewrite swapped_other by lia.
  - rewrite Hl. assert (nth 23 (swapped p l4) 0 = nth 23 p 0) as ->; [|done]. rewrite !(nth_take_drop 23). by rewrite swapped_other by lia.
Qed.
End swap.

Lemma addresses_exchange p l4 : framed p l4 ->
  let q := swapped p l4 in ip_src (drop 14 q) = ip_dst (drop 14 p) /\ ip_dst (drop 14 q) = ip_src (drop 14 p).
Proof.
  intros Hfr q. destruct (framed_room p l4 Hfr) as [H34 Hroom]. destruct (apart_addresses p l4 Hfr) as [Hap1 Hap2].
  pose proof (length_swapped p l4 Hfr) as [Hla Hl]. fold q in Hl. pose proof (fr_ok _ _ Hfr) as Hok.
  assert (Hq : forall o, (o + 2 <= 34)%nat -> word16 o q = word16 o (addresses_swapped p)).
  { intros o Ho. unfold q, swapped. destruct (_ || _); [|done]. unfold word16. f_equal. apply exchange_other; [by apply ports_apart|lia|lia]. }
  assert (Hother : forall o, (o + 2 <= 28 \/ 30 <= o)%nat -> (o + 2 <= 32 \/ 34 <= o)%nat -> word16 o (exchange 28 32 p) = word16 o p).
  { intros o H1 H2. unfold word16. f_equal. by apply exchange_other. }
  destruct (exchange_words 28 32 p Hok Hap2) as [E28 E32].
  destruct (exchange_words 26 30 (exchange 28 32 p) ltac:(by apply exchange_ok) Hap1) as [E26 E30].
  assert (Hother2 : forall o, o = 28%nat \/ o = 32%nat -> word16 o (addresses_swapped p) = word16 o (exchange 28 32 p)).
  { intros o Ho. unfold addresses_swapped, word16. f_equal. apply exchange_other; [done|lia|lia]. }
  unfold ip_src, ip_dst. rewrite !ip_address_words by lia. cbn [Nat.mul Nat.add].
  rewrite !Hq by lia. rewrite (Hother2 28%nat), (Hother2 32%nat) by lia. unfold addresses_swapped. rewrite E26, E30, E28, E32, !Hother by lia. done.
Qed.

Lemma swap_sums p l4 n : framed p l4 ->
  wsum 14 (l4 - 14) (swapped p l4) = wsum 14 (l4 - 14) p /\
  ((8 <= n)%nat -> (l4 + n <= length p)%nat -> wsum l4 n (swapped p l4) = wsum l4 n p).
Proof.
  intros Hfr. destruct (framed_room p l4 Hfr) as [H34 Hroom]. pose proof (fr_ok _ _ Hfr) as Hok.
  destruct (length_swapped p l4 Hfr) as [Hla Hl]. destruct (swapped_ok p l4 Hfr) as [_ Hoka]. pose proof (ports_apart p l4 Hfr) as Hpa.
  assert (Hx2 : length (exchange 28 32 p) = length p) by (apply length_exchange; unfold apart16; lia).
  assert (Ha : wsum 14 (l4 - 14) (addresses_swapped p) = wsum 14 (l4 - 14) p).
  { unfold addresses_swapped. rewrite !exchange_sum by (rewrite ?Hx2; (lia || done || by apply exchange_ok)). done. }
  assert (Hb : wsum l4 n (addresses_swapped p) = wsum l4 n p).
  { unfold wsum. f_equal. apply (addresses_other p l4 Hfr). lia. }
  unfold swapped. destruct (_ || _); [|done]. split.
  - rewrite <- Ha. unfold wsum. f_equal. apply exchange_other; [done|lia|lia].
  - intros Hn Hln. rewrite <- Hb. rewrite exchange_sum; [done|done|lia|lia|lia|lia|lia|lia| |].
    + by rewrite Nat.sub_diag.
    + by replace (l4 + 2 - l4)%nat with 2%nat by lia.
Qed.

Lemma wsum_segment p l4 len : wsum l4 (Z.to_nat len) p = sum16 (take (Z.to_nat len) (drop l4 p)).
Proof. done. Qed.

Lemma segment_swap p l4 len proto : framed p l4 -> 8 <= len -> Z.of_nat l4 + len <= Z.of_nat (length p) ->
  segment_sum (ip_src (drop 14 (swapped p l4))) (ip_dst (drop 14 (swapped p l4))) len proto (drop l4 (swapped p l4)) =
  segment_sum (ip_src (drop 14 p)) (ip_dst (drop 14 p)) len proto (drop l4 p).
Proof.
  intros Hfr H8 Hl. destruct (addresses_exchange p l4 Hfr) as [-> ->]. unfold segment_sum, pseudo_sum.
  rewrite <- !wsum_segment. rewrite (proj2 (swap_sums p l4 (Z.to_nat len) Hfr)) by lia. lia.
Qed.

Lemma ip_addr_word p : bytes_ok p -> in_word 32 (ip_src (drop 14 p)) /\ in_word 32 (ip_dst (drop 14 p)).
Proof. intros Hok. unfold ip_src, ip_dst. split; apply dword_word; auto with bess. Qed.

Lemma udp_length_word p l4 : bytes_ok p -> (l4 + 6 <= length p)%nat -> in_word 16 (udp_field_length (drop l4 p)).
Proof.
  intros Hok Hl. unfold udp_field_length, be_load. pose proof (le_load_bound (rev (take 2 (drop 4 (drop l4 p))))) as Hb.
  rewrite length_rev, length_take, !length_drop in Hb. replace (2 `min` (length p - l4 - 4))%nat with 2%nat in Hb by lia.
  refine (Hb _). apply Forall_rev. by apply bytes_ok_take, bytes_ok_drop, bytes_ok_drop.
Qed.

(** IPSwap is its own inverse on packets with a whole L4 header, exchanges the addresses
    and the ports, and keeps every checksum that verifies. *)
Theorem ip_swap_keeps_checksums avx2 p l4 : framed p l4 ->
  exists q, ip_swap p = Some q /\ ip_swap q = Some p /\
    ip_src (drop 14 q) = ip_dst (drop 14 p) /\ ip_dst (drop 14 q) = ip_src (drop 14 p) /\
    (VerifyIpv4Checksum avx2 (drop 14 p) = Some true -> VerifyIpv4Checksum avx2 (drop 14 q) = Some true) /\
    (VerifyIpv4TcpChecksum_hdr avx2 (drop 14 p) (drop l4 p) = Some true ->
     VerifyIpv4TcpChecksum_hdr avx2 (drop 14 q) (drop l4 q) = Some true) /\
    (VerifyIpv4UdpChecksum_hdr avx2 (drop 14 p) (drop l4 p) = Some true ->
     VerifyIpv4UdpChecksum_hdr avx2 (drop 14 q) (drop l4 q) = Some true).
Proof.
  intros Hfr. destruct (framed_room p l4 Hfr) as [H34 Hroom]. pose proof Hfr as [Hok Hl4 Hat Hlen].
  pose proof (swapped_framed p l4 Hfr) as Hfq. destruct (length_swapped p l4 Hfr) as [Hla Hl].
  destruct (swapped_ok p l4 Hfr) as [Hqok Hoka]. destruct (ip_addr_word p Hok) as [Ws Wd].
  destruct (ip_addr_word (swapped p l4) Hqok) as [Ws' Wd'].
  apply l4_at_eq in Hat as Hh; [|lia]. pose proof (fr_at _ _ Hfq) as Hatq. apply l4_at_eq in Hatq as Hhq; [|lia].
  exists (swapped p l4). split; [by apply ip_swap_eq|]. split; [|split; [apply (addresses_exchange p l4 Hfr)|split; [apply (addresses_exchange p l4 Hfr)|]]].
  - rewrite (ip_swap_eq _ l4 Hfq). f_equal. destruct (apart_addresses p l4 Hfr) as [Hap1 Hap2]. pose proof (ports_apart p l4 Hfr) as Hap3.
    assert (H23 : nth 23 (swapped p l4) 0 = nth 23 p 0) by (rewrite !(nth_take_drop 23); by rewrite swapped_other by (done || lia)).
    assert (Ha : addresses_swapped (addresses_swapped p) = p).
    { unfold addresses_swapped. rewrite (exchange_comm 28 32 26 30 (exchange 28 32 p)).
      - rewrite exchange_twice; [|by do 2 apply exchange_ok|]; [by apply exchange_twice|].
        unfold apart16. rewrite exchange_twice by done. lia.
      - intros x y Hx Hy. rewrite !elem_of_cons, elem_of_nil in Hx, Hy. lia.
      - unfold apart16. rewrite length_exchange by done. lia.
      - done. }
    unfold swapped at 1. rewrite H23. unfold swapped. destruct (_ || _); [|done].
    assert (Hc : addresses_swapped (exchange l4 (l4 + 2) (addresses_swapped p)) = exchange l4 (l4 + 2) (addresses_swapped (addresses_swapped p))).
    { destruct (apart_addresses p l4 Hfr) as [Hb1 Hb2].
      assert (apart16 28 32 (addresses_swapped p)) as Hc1 by (unfold apart16; lia).
      assert (apart16 26 30 (exchange 28 32 (addresses_swapped p))) as Hc2 by (unfold apart16; rewrite length_exchange by (unfold apart16; lia); lia).
      unfold addresses_swapped at 1. rewrite (exchange_comm 28 32 l4 (l4 + 2)); [|intros x y Hx Hy; rewrite !elem_of_cons, elem_of_nil in Hx, Hy; lia|done|done].
      rewrite (exchange_comm 26 30 l4 (l4 + 2)); [done|intros x y Hx Hy; rewrite !elem_of_cons, elem_of_nil in Hx, Hy; lia|done|].
      unfold apart16. rewrite length_exchange by (unfold apart16; lia). lia. }
    rewrite Hc, Ha. apply exchange_twice; [done|]. unfold apart16. lia.
  - split; [|split].
    + rewrite !VerifyIpv4Checksum_spec by (auto with bess || (rewrite length_drop; lia)). unfold ipv4_header_sum.
      intros [= Hv]. rewrite <- Hv. do 3 f_equal.
      replace (Z.to_nat (ip_header_len (drop 14 (swapped p l4)))) with (l4 - 14)%nat by lia.
      replace (Z.to_nat (ip_header_len (drop 14 p))) with (l4 - 14)%nat by lia. apply (swap_sums p l4 0 Hfr).
    + unfold VerifyIpv4TcpChecksum_hdr.
      assert (ip_length (drop 14 (swapped p l4)) = ip_length (drop 14 p)) as ->.
      { unfold ip_length. rewrite !drop_drop. by rewrite swapped_other by (done || lia). }
      replace (ip_header_len (drop 14 (swapped p l4))) with (ip_header_len (drop 14 p)) by lia.
      destruct (_ <? _); [done|]. set (len := u16 _). assert (in_word 16 len) as Hlw by (by apply wrap_range). intros Hv.
      assert (20 <= len /\ len <= Z.of_nat (length (drop l4 p))) as Hlen'.
      { unfold VerifyIpv4TcpChecksum in Hv. destruct (slice 20 (len - 20) _) eqn:Hsl; [|done]. apply slice_inv in Hsl. lia. }
      rewrite length_drop in Hlen'.
      rewrite VerifyIpv4TcpChecksum_spec in Hv by (done || (by apply bytes_ok_drop) || (rewrite length_drop; lia)).
      rewrite VerifyIpv4TcpChecksum_spec by (done || (by apply bytes_ok_drop) || (rewrite length_drop; lia)).
      rewrite segment_swap by (done || lia). done.
    + unfold VerifyIpv4UdpChecksum_hdr.
      assert (udp_field_length (drop l4 (swapped p l4)) = udp_field_length (drop l4 p)) as ->.
      { unfold udp_field_length. rewrite !drop_drop. by rewrite swapped_other by (done || lia). }
      assert (udp_field_checksum (drop l4 (swapped p l4)) = udp_field_checksum (drop l4 p)) as Hck.
      { unfold udp_field_checksum. rewrite !drop_drop. by rewrite swapped_other by (done || lia). }
      set (len := udp_field_length (drop l4 p)). destruct (Z.ltb_spec len 8); [done|]. intros Hv.
      assert (in_word 16 len) as Hlw by (apply udp_length_word; [done|lia]).
      destruct (Z.eqb_spec (udp_field_checksum (drop l4 p)) 0) as [Hz|Hz].
      { unfold VerifyIpv4UdpChecksum. by rewrite Hck, Hz. }
      assert (len <= Z.of_nat (length (drop l4 p))) as Hlen'.
      { unfold VerifyIpv4UdpChecksum in Hv. rewrite (proj2 (Z.eqb_neq _ _) Hz) in Hv.
        destruct (slice 8 (len - 8) _) eqn:Hsl; [|done]. apply slice_inv in Hsl. lia. }
      rewrite length_drop in Hlen'.
      rewrite VerifyIpv4UdpChecksum_spec in Hv by (done || (by apply bytes_ok_drop) || (rewrite length_drop; lia)).
      rewrite VerifyIpv4UdpChecksum_spec by (done || (by apply bytes_ok_drop) || (by rewrite Hck) || (rewrite length_drop; lia)).
      rewrite segment_swap by (done || lia). done.
Qed.

Lemma ip_swap_keeps_checksums_witness : exists q, ip_swap ex_packet = Some q /\ ip_swap q = Some ex_packet /\
  VerifyIpv4Checksum false (drop 14 q) = Some true /\ VerifyIpv4UdpChecksum_hdr false (drop 14 q) (drop 34 q) = Some true.
Proof.
  destruct (ip_swap_keeps_checksums false ex_packet 34 ex_framed) as (q & H1 & H2 & _ & _ & Hip & _ & Hudp).
  exists q. split; [exact H1|]. split; [exact H2|]. split; [apply Hip|apply Hudp]; vm_compute; reflexivity.
Defined.

(** ** IPChecksum and L4Checksum *)

(** The IPv4 header of a packet, with at most two tags before it, gets its checksum. *)
Lemma ip_checksum_spec avx2 p ip : bytes_ok p -> find_ipv4 p = Some (Some (Z.of_nat ip)) ->
  20 <= ip_header_len (drop ip p) -> Z.of_nat ip + ip_header_len (drop ip p) <= Z.of_nat (length p) ->
  exists ck, ip_checksum_packet avx2 p = Some (store16 (ip + 10) ck p) /\ in_word 16 ck /\
    VerifyIpv4Checksum avx2 (drop ip (store16 (ip + 10) ck p)) = Some true.
Proof.
  intros Hok Hf Hh Hl. unfold ip_checksum_packet. rewrite Hf. cbn [mbind option_bind]. rewrite Nat2Z.id.
  assert (Hokd : bytes_ok (drop ip p)) by auto with bess.
  assert (20 <= ip_header_len (drop ip p) <= Z.of_nat (length (drop ip p))) as Hhd by (rewrite length_drop; lia).
  rewrite CalculateIpv4Checksum_spec by done. cbn [mbind option_bind].
  set (S := ipv4_header_sum (store16 10 0 (drop ip p))). assert (0 <= S) as HS by (apply sum16_nonneg, bytes_ok_take; by apply store16_ok).
  pose proof (internet_checksum_word S HS) as Hw. exists (internet_checksum S).
  rewrite store_2 by (unfold ip_checksum; lia). unfold ip_checksum. replace (Z.to_nat (Z.of_nat ip + 10)) with (ip + 10)%nat by lia.
  split; [done|]. split; [done|]. rewrite drop_store16 by lia. replace (ip + 10 - ip)%nat with 10%nat by lia.
  rewrite length_drop in Hhd.
  rewrite VerifyIpv4Checksum_spec;
    [|by apply store16_ok|rewrite ip_header_len_store16, length_store16 by (rewrite ?length_drop; lia); rewrite length_drop; lia].
  f_equal. apply Z.eqb_eq. unfold ipv4_header_sum at 1. rewrite ip_header_len_store16 by (rewrite ?length_drop; lia).
  rewrite sum16_store16 by (rewrite ?length_drop; (done || lia)).
  assert (sum16 (take (Z.to_nat (ip_header_len (drop ip p))) (store16 10 0 (drop ip p))) = S) as ->.
  { unfold S, ipv4_header_sum. by rewrite ip_header_len_store16 by (rewrite ?length_drop; lia). }
  apply internet_checksum_verify; [done|done|by left].
Qed.

(** A datagram of eight bytes or more, and the checksum that UDP writes, never 0. *)
Lemma udp_checksum_written avx2 seg src dst len :
  bytes_ok seg -> in_word 32 src -> in_word 32 dst -> in_word 16 len -> 8 <= len <= Z.of_nat (length seg) ->
  exists k, CalculateIpv4UdpChecksum avx2 seg src dst len = Some k /\ in_word 16 k /\ k <> 0 /\
    VerifyIpv4UdpChecksum avx2 (store16 6 k seg) src dst len = Some true.
Proof.
  intros Hok Hsrc Hdst Hlen Hl. rewrite CalculateIpv4UdpChecksum_spec by (done || lia). cbn zeta.
  set (S := segment_sum src dst len 0x1100 (store16 6 0 seg)). set (k := internet_checksum S).
  assert (0 <= S) as HS.
  { unfold S, segment_sum, pseudo_sum. pose proof (swap16_word len Hlen).
    pose proof (sum16_nonneg (take (Z.to_nat len) (store16 6 0 seg)) (bytes_ok_take _ _ (store16_ok 6 0 seg Hok))). unfold in_word in *. lia. }
  pose proof (internet_checksum_word S HS) as Hk. fold k in Hk.
  assert (Hk' : in_word 16 (if k =? 0 then 0xFFFF else k)) by (destruct (k =? 0); done).
  assert (Hne : (if k =? 0 then 0xFFFF else k) <> 0) by (destruct (Z.eqb_spec k 0); lia).
  exists (if k =? 0 then 0xFFFF else k). split; [done|]. split; [done|]. split; [done|].
  rewrite VerifyIpv4UdpChecksum_spec; [|by apply store16_ok|done|done|done|rewrite length_store16; lia|].
  - f_equal. apply Z.eqb_eq. unfold segment_sum. rewrite sum16_store16 by (done || lia). rewrite Z.add_assoc.
    apply (internet_checksum_verify S); [done|done|]. fold k. destruct (Z.eqb_spec k 0) as [E|]; [right|left]; done.
  - change (udp_field_checksum (store16 6 (if k =? 0 then 65535 else k) seg)) with (word16 6 (store16 6 (if k =? 0 then 65535 else k) seg)).
    rewrite word16_store16 by lia. rewrite wrap_small by done. done.
Qed.

Lemma tcp_checksum_written avx2 seg src dst len :
  bytes_ok seg -> in_word 32 src -> in_word 32 dst -> in_word 16 len -> 20 <= len <= Z.of_nat (length seg) ->
  exists k, CalculateIpv4TcpChecksum avx2 seg src dst len = Some k /\ in_word 16 k /\
    VerifyIpv4TcpChecksum avx2 (store16 16 k seg) src dst len = Some true.
Proof.
  intros Hok Hsrc Hdst Hlen Hl. rewrite CalculateIpv4TcpChecksum_spec by done.
  set (S := segment_sum src dst len 0x0600 (store16 16 0 seg)).
  assert (0 <= S) as HS.
  { unfold S, segment_sum, pseudo_sum. pose proof (swap16_word len Hlen).
    pose proof (sum16_nonneg (take (Z.to_nat len) (store16 16 0 seg)) (bytes_ok_take _ _ (store16_ok 16 0 seg Hok))). unfold in_word in *. lia. }
  pose proof (internet_checksum_word S HS) as Hk. eexists. split; [done|]. split; [done|].
  rewrite VerifyIpv4TcpChecksum_spec; [|by apply store16_ok|done|done|done|rewrite length_store16; lia].
  f_equal. apply Z.eqb_eq. unfold segment_sum. rewrite sum16_store16 by (done || lia). rewrite Z.add_assoc.
  apply (internet_checksum_verify S); [done|done|by left].
Qed.

(** A store behind the IPv4 header leaves the header. *)
Lemma header_kept avx2 q l4 off v : framed q l4 -> (l4 <= off)%nat -> (off + 2 <= length q)%nat ->
  VerifyIpv4Checksum avx2 (drop 14 (store16 off v q)) = VerifyIpv4Checksum avx2 (drop 14 q) /\
  ip_src (drop 14 (store16 off v q)) = ip_src (drop 14 q) /\ ip_dst (drop 14 (store16 off v q)) = ip_dst (drop 14 q) /\
  ip_length (drop 14 (store16 off v q)) = ip_length (drop 14 q) /\ ip_header_len (drop 14 (store16 off v q)) = ip_header_len (drop 14 q).
Proof.
  intros Hfr Ho Hl. destruct (framed_room q l4 Hfr) as [H34 Hroom]. pose proof Hfr as [Hok Hl4 Hat Hlen].
  apply l4_at_eq in Hat; [|lia].
  assert (Hh : ip_header_len (drop 14 (store16 off v q)) = ip_header_len (drop 14 q)).
  { unfold ip_header_len. rewrite !(nth_take_drop 0 (drop 14 _)), !drop_0. by rewrite bytes_other by lia. }
  split; [|split; [|split; [|split; [|done]]]].
  - rewrite !VerifyIpv4Checksum_spec by (auto with bess || (by apply bytes_ok_drop, store16_ok) || (rewrite length_drop, ?length_store16 by lia; lia)).
    unfold ipv4_header_sum. rewrite Hh. do 3 f_equal. f_equal. apply bytes_other; lia.
  - unfold ip_src. rewrite !ip_address_words by (rewrite ?length_store16 by lia; lia). cbn [Nat.mul Nat.add]. by rewrite !word16_other by lia.
  - unfold ip_dst. rewrite !ip_address_words by (rewrite ?length_store16 by lia; lia). cbn [Nat.mul Nat.add]. by rewrite !word16_other by lia.
  - unfold ip_length. rewrite !drop_drop. by rewrite bytes_other by lia.
Qed.

(** A segment that is in the packet. *)
Definition segment_inside (p : bytes) (l4 : nat) : Prop :=
  (nth 23 p 0 = kUdp -> 8 <= udp_field_length (drop l4 p) /\ Z.of_nat l4 + udp_field_length (drop l4 p) <= Z.of_nat (length p)) /\
  (nth 23 p 0 = kTcp -> ip_header_len (drop 14 p) + 20 <= ip_length (drop 14 p) /\ 14 + ip_length (drop 14 p) <= Z.of_nat (length p)).

Lemma ip_length_word p : bytes_ok p -> (18 <= length p)%nat -> in_word 16 (ip_length (drop 14 p)).
Proof.
  intros Hok Hl. unfold ip_length, be_load. pose proof (le_load_bound (rev (take 2 (drop 2 (drop 14 p))))) as Hb.
  rewrite length_rev, length_take, !length_drop in Hb. replace (2 `min` (length p - 14 - 2))%nat with 2%nat in Hb by lia.
  refine (Hb _). apply Forall_rev. by apply bytes_ok_take, bytes_ok_drop, bytes_ok_drop.
Qed.

Lemma l4_checksum_spec avx2 q l4 : framed q l4 -> word16 12 q = raw_value (of_cpu 2 kIpv4_type) -> segment_inside q l4 ->
  nth 23 q 0 = kTcp \/ nth 23 q 0 = kUdp ->
  exists off v, l4_checksum_packet avx2 q = Some (store16 off v q) /\ (l4 <= off)%nat /\ (off + 2 <= l4 + l4_header (nth 23%nat q 0%Z))%nat /\
    (nth 23 q 0 = kTcp -> VerifyIpv4TcpChecksum_hdr avx2 (drop 14 (store16 off v q)) (drop l4 (store16 off v q)) = Some true) /\
    (nth 23 q 0 = kUdp -> VerifyIpv4UdpChecksum_hdr avx2 (drop 14 (store16 off v q)) (drop l4 (store16 off v q)) = Some true /\
       udp_field_checksum (drop l4 (store16 off v q)) <> 0).
Proof.
  intros Hfr Hty [Hudp Htcp] Hp. destruct (framed_room q l4 Hfr) as [H34 Hroom]. pose proof Hfr as [Hok Hl4 Hat Hlen].
  destruct (ip_addr_word q Hok) as [Ws Wd]. pose proof (proj1 (l4_at_eq q _ ltac:(lia)) Hat) as Hh.
  unfold l4_checksum_packet. rewrite load_2 by lia. change (Z.to_nat 12) with 12%nat. rewrite Hty. cbn [mbind option_bind].
  change (be_ne (BE (raw_value (of_cpu 2 kIpv4_type))) (of_cpu 2 kIpv4_type)) with false. cbv iota.
  rewrite load_1 by offs. change (Z.to_nat (ip_at + ip_protocol)) with 23%nat. cbn [mbind option_bind].
  destruct Hp as [Hp|Hp]; rewrite Hp in *.
  - change (kTcp =? kUdp) with false. change (kTcp =? kTcp) with true. cbv iota. rewrite Hat. cbn [mbind option_bind]. rewrite Nat2Z.id.
    destruct (Htcp eq_refl) as [Hlo Hhi]. unfold CalculateIpv4TcpChecksum_hdr. rewrite (proj2 (Z.ltb_ge _ _)) by lia.
    set (len := ip_length (drop 14 q) - ip_header_len (drop 14 q)) in *. change (l4_header kTcp) with 20%nat in *.
    pose proof (ip_length_word q Hok ltac:(lia)) as Hiw.
    assert (u16 len = len) as Hlw by (apply wrap_small; unfold in_word in *; lia).
    destruct (tcp_checksum_written avx2 (drop l4 q) (ip_src (drop 14 q)) (ip_dst (drop 14 q)) (u16 len)) as (k & -> & Hk & Hv);
      [auto with bess|done|done|apply wrap_range; lia|rewrite length_drop; lia|].
    cbn [mbind option_bind]. rewrite store_2 by offs. replace (Z.to_nat (Z.of_nat l4 + tcp_checksum)) with (l4 + 16)%nat by offs.
    exists (l4 + 16)%nat, k. split; [done|]. split; [lia|]. split; [lia|]. split; [|done]. intros _.
    destruct (header_kept avx2 q l4 (l4 + 16) k Hfr ltac:(lia) ltac:(lia)) as (_ & Es & Ed & El & Eh).
    unfold VerifyIpv4TcpChecksum_hdr. rewrite Es, Ed, El, Eh. rewrite (proj2 (Z.ltb_ge _ _)) by lia. fold len.
    rewrite (drop_store16 l4) by lia. by replace (l4 + 16 - l4)%nat with 16%nat by lia.
  - change (kUdp =? kUdp) with true. cbv iota. rewrite Hat. cbn [mbind option_bind]. rewrite Nat2Z.id.
    destruct (Hudp eq_refl) as [Hlo Hhi]. unfold CalculateIpv4UdpChecksum_hdr. rewrite (proj2 (Z.ltb_ge _ _)) by lia.
    pose proof (udp_length_word q l4 Hok ltac:(lia)) as Hlw. set (len := udp_field_length (drop l4 q)) in *. change (l4_header kUdp) with 8%nat in *.
    destruct (udp_checksum_written avx2 (drop l4 q) (ip_src (drop 14 q)) (ip_dst (drop 14 q)) len) as (k & -> & Hk & Hne & Hv);
      [auto with bess|done|done|done|rewrite length_drop; lia|].
    cbn [mbind option_bind]. rewrite store_2 by offs. replace (Z.to_nat (Z.of_nat l4 + udp_checksum)) with (l4 + 6)%nat by offs.
    exists (l4 + 6)%nat, k. split; [done|]. split; [lia|]. split; [lia|]. split; [done|]. intros _.
    destruct (header_kept avx2 q l4 (l4 + 6) k Hfr ltac:(lia) ltac:(lia)) as (_ & Es & Ed & _ & _).
    rewrite (drop_store16 l4) by lia. replace (l4 + 6 - l4)%nat with 6%nat by lia. split.
    + unfold VerifyIpv4UdpChecksum_hdr. rewrite Es, Ed.
      assert (udp_field_length (store16 6 k (drop l4 q)) = len) as ->.
      { unfold udp_field_length. rewrite bytes_other by (rewrite ?length_drop; lia). done. }
      rewrite (proj2 (Z.ltb_ge _ _)) by lia. done.
    + change (word16 6 (store16 6 k (drop l4 q)) <> 0). rewrite word16_store16 by (rewrite length_drop; lia). by rewrite wrap_small.
Qed.

(** IPChecksum and L4Checksum, in this order, leave a TCP or UDP packet
    whose IPv4, TCP and UDP checksums verify, with a UDP checksum that is not the one that
    means "none", and write nothing but the two checksum fields. *)
Theorem checksum_modules_verify avx2 p l4 : framed p l4 -> word16 12 p = raw_value (of_cpu 2 kIpv4_type) -> segment_inside p l4 ->
  nth 23 p 0 = kTcp \/ nth 23 p 0 = kUdp ->
  exists q r, ip_checksum_packet avx2 p = Some q /\ l4_checksum_packet avx2 q = Some r /\
    VerifyIpv4Checksum avx2 (drop 14 r) = Some true /\
    (nth 23 p 0 = kTcp -> VerifyIpv4TcpChecksum_hdr avx2 (drop 14 r) (drop l4 r) = Some true) /\
    (nth 23 p 0 = kUdp -> VerifyIpv4UdpChecksum_hdr avx2 (drop 14 r) (drop l4 r) = Some true /\ udp_field_checksum (drop l4 r) <> 0) /\
    exists ck off v, r = store16 off v (store16 24 ck p) /\ (l4 <= off)%nat /\ (off + 2 <= l4 + l4_header (nth 23%nat p 0%Z))%nat.
Proof.
  intros Hfr Hty Hseg Hp. destruct (framed_room p l4 Hfr) as [H34 Hroom]. pose proof Hfr as [Hok Hl4 Hat Hlen].
  pose proof (proj1 (l4_at_eq p _ ltac:(lia)) Hat) as Hh.
  assert (Hfind : find_ipv4 p = Some (Some (Z.of_nat 14))).
  { assert (load 2 12 p = Some (raw_value (of_cpu 2 kIpv4_type))) as H12 by (rewrite (load_2 12) by lia; exact (f_equal Some Hty)).
    unfold find_ipv4. rewrite H12. reflexivity. }
  destruct (ip_checksum_spec avx2 p 14 Hok Hfind ltac:(lia) ltac:(lia)) as (ck & Hq & Hck & Hv). change (14 + 10)%nat with 24%nat in *.
  set (q := store16 24 ck p) in *. assert (Hlq : length q = length p) by (apply length_store16; lia).
  assert (Hother : forall off k, (off + k <= 24 \/ 26 <= off)%nat -> take k (drop off q) = take k (drop off p)).
  { intros. apply bytes_other; lia. }
  assert (H23 : nth 23 q 0 = nth 23 p 0) by (rewrite !(nth_take_drop 23); by rewrite Hother by lia).
  assert (Hhq : ip_header_len (drop 14 q) = ip_header_len (drop 14 p)).
  { unfold ip_header_len. rewrite !(nth_take_drop 0 (drop 14 _)), !drop_0. by rewrite Hother by lia. }
  assert (Hfq : framed q l4).
  { split; [by apply store16_ok|done| |rewrite H23, Hlq; done]. apply l4_at_eq; [lia|]. lia. }
  assert (Htq : word16 12 q = raw_value (of_cpu 2 kIpv4_type)) by (rewrite <- Hty; unfold word16; by rewrite Hother by lia).
  assert (Hsq : segment_inside q l4).
  { unfold segment_inside. rewrite H23, Hhq, Hlq. unfold udp_field_length, ip_length. rewrite !drop_drop, !Hother by lia.
    unfold segment_inside, udp_field_length, ip_length in Hseg. rewrite !drop_drop in Hseg. exact Hseg. }
  destruct (l4_checksum_spec avx2 q l4 Hfq Htq Hsq ltac:(by rewrite H23)) as (off & v & Hr & Ho1 & Ho2 & Ht & Hu).
  rewrite H23 in Ho2, Ht, Hu.
  exists q, (store16 off v q). split; [done|]. split; [done|]. split; [|split; [done|split; [done|]]].
  - destruct (header_kept avx2 q l4 off v Hfq Ho1 ltac:(lia)) as (-> & _). done.
  - exists ck, off, v. done.
Qed.

Definition ex_zeroed : bytes := store16 24 0 (store16 40 0 ex_packet).

Lemma checksum_modules_verify_witness : exists q r, ip_checksum_packet true ex_zeroed = Some q /\ l4_checksum_packet true q = Some r /\
  VerifyIpv4Checksum true (drop 14 r) = Some true /\ VerifyIpv4UdpChecksum_hdr true (drop 14 r) (drop 34 r) = Some true.
Proof.
  destruct (checksum_modules_verify true ex_zeroed 34) as (q & r & Hq & Hr & Hip & _ & Hudp & _).
  - split; [apply (bool_decide_unpack _); vm_compute; exact I|lia|vm_compute; reflexivity|].
    apply Nat.leb_le. vm_compute. reflexivity.
  - vm_compute. reflexivity.
  - split; [intros _; split; vm_compute; congruence|]. intros H. vm_compute in H. discriminate H.
  - right. vm_compute. reflexivity.
  - exists q, r. split; [exact Hq|]. split; [exact Hr|]. split; [exact Hip|]. apply Hudp. vm_compute. reflexivity.
Defined.

(** ** UpdateTTL *)

(** What the packet becomes; [Some None] if it is dropped. *)
Definition update_ttl_packet (p : bytes) : option (option bytes) :=
  ttl ← load 1 (ip_at + ip_ttl) p;
  if 1 <? ttl then
    ck ← load 2 (ip_at + ip_checksum) p;
    p ← store 2 (ip_at + ip_checksum) (UpdateChecksum16 ck 2 1) p;
    p ← store 1 (ip_at + ip_ttl) (ttl - 1) p;
    Some (Some p)
  else Some None.

(** A byte is the low half of the word it begins. *)
Lemma store_low_byte off p : bytes_ok p -> (off + 2 <= length p)%nat -> 1 <= nth off p 0 ->
  store 1 (Z.of_nat off) (nth off p 0 - 1) p = Some (store16 off (word16 off p - 1) p).
Proof.
  intros Hok Hl Hb. unfold store. rewrite (proj2 (Z.leb_le _ _)), (proj2 (Z.leb_le _ _)) by lia. cbn [andb].
  unfold store16, word16. rewrite Nat2Z.id.
  assert (Hn : nth off p 0 = nth 0 (drop off p) 0) by (by rewrite nth_skipn, Nat.add_0_r).
  assert (H1 : drop (off + 1) p = drop 1 (drop off p)) by (by rewrite drop_drop).
  assert (H2 : drop (off + 2) p = drop 2 (drop off p)) by (by rewrite drop_drop).
  pose proof (length_drop p off) as Hd. rewrite Hn, H1, H2 in *. clear H1 H2 Hn.
  assert (Hbd : bytes_ok (drop off p)) by auto with bess.
  destruct (drop off p) as [|b0 [|b1 r]]; [cbn in Hd; lia|cbn in Hd; lia|].
  unfold bytes_ok, in_word in Hbd. rewrite !Forall_cons in Hbd. change (2 ^ 8) with 256 in Hbd. cbn [nth] in *.
  do 2 f_equal. cbn [le_store drop take le_load app]. f_equal; [zlia|]. f_equal; zlia.
Qed.

Lemma le_load_zeros l : Forall (fun b => b = 0) l -> le_load l = 0.
Proof. induction 1 as [|b l -> _ IH]; [done|]. cbn [le_load]. lia. Qed.

Lemma wsum_zero_word o n off p : bytes_ok p -> wsum o n p = 0 -> (o <= off)%nat -> (off + 2 <= o + n)%nat -> word16 off p = 0.
Proof.
  intros Hok Hz%sum16_zero Ho Hoff; [|auto with bess]. unfold word16. apply le_load_zeros.
  replace off with (o + (off - o))%nat by lia. rewrite <- drop_drop.
  assert (take 2 (drop (off - o) (drop o p)) = take 2 (drop (off - o) (take n (drop o p)))) as ->
    by (rewrite !take_drop_commute, take_take; by rewrite Nat.min_l by lia).
  by apply Forall_take, Forall_drop.
Qed.

Section ttl.
Context (p : bytes) (Hok : bytes_ok p) (Hh : 20 <= ip_header_len (drop 14 p)) (Hroom : 14 + ip_header_len (drop 14 p) <= Z.of_nat (length p)).
Context (Httl : 1 < nth 22 p 0).

Abbreviation ck := (UpdateChecksum16 (word16 24 p) 2 1).
Abbreviation q := (store16 22 (word16 22 p - 1) (store16 24 ck p)).

Lemma ttl_word : 2 <= word16 22 p.
Proof using All.
  unfold word16. rewrite <- (Nat.add_0_r 22), <- nth_skipn in Httl. change (skipn 22 p) with (drop 22 p) in Httl.
  assert (Hbd : bytes_ok (drop 22 p)) by auto with bess. pose proof (length_drop p 22).
  destruct (drop 22 p) as [|b0 [|b1 r]]; [cbn in *; lia|cbn in *; lia|].
  unfold bytes_ok, in_word in Hbd. rewrite !Forall_cons in Hbd. cbn. rewrite take_0. cbn in *. lia.
Qed.

Lemma update_ttl_eq : update_ttl_packet p = Some (Some q).
Proof using All.
  unfold update_ttl_packet, ip_at, ETHER_SIZE, ip_ttl, ip_checksum. cbn [Z.add Z.pos_sub Pos.add Pos.succ Pos.add_carry].
  change (14 + 8) with 22. change (14 + 10) with 24. rewrite load_1 by lia. cbn [mbind option_bind]. rewrite (proj2 (Z.ltb_lt _ _)) by exact Httl.
  rewrite load_2 by lia. cbn [mbind option_bind]. rewrite store_2 by lia. cbn [mbind option_bind].
  change (Z.to_nat 22) with 22%nat. change (Z.to_nat 24) with 24%nat.
  assert (Hn : nth 22 (store16 24 ck p) 0 = nth 22 p 0) by (rewrite !(nth_take_drop 22); by rewrite bytes_other by lia).
  rewrite <- Hn. change 22 with (Z.of_nat 22). rewrite store_low_byte;
    [|by apply store16_ok|rewrite length_store16 by lia; lia|rewrite Hn; lia].
  cbn [mbind option_bind]. by rewrite word16_other by lia.
Qed.

Lemma ttl_length : length q = length p.
Proof using All. rewrite !length_store16 by len16. done. Qed.

Lemma ttl_checksum avx2 : VerifyIpv4Checksum avx2 (drop 14 p) = Some true -> VerifyIpv4Checksum avx2 (drop 14 q) = Some true.
Proof using All.
  pose proof ttl_word as Hw. pose proof (word16_word 22 p Hok) as Hw2. pose proof (word16_word 24 p Hok) as Hc.
  destruct (update_icmp (word16 24 p) 2 1 Hc ltac:(done) ltac:(done)) as [Hck Hm].
  assert (Hw1 : in_word 16 (word16 22 p - 1)) by (unfold in_word in *; lia).
  assert (Hq : bytes_ok q) by (by do 2 apply store16_ok).
  assert (Hhq : ip_header_len (drop 14 q) = ip_header_len (drop 14 p)).
  { unfold ip_header_len. rewrite !(nth_take_drop 0 (drop 14 _)), !drop_0. by rewrite !bytes_other by len16. }
  rewrite !VerifyIpv4Checksum_spec by (auto with bess || (by apply bytes_ok_drop) || (rewrite length_drop, ?ttl_length; lia)).
  unfold ipv4_header_sum. rewrite Hhq. intros [= Hv%Z.eqb_eq]. do 2 f_equal. apply Z.eqb_eq. revert Hv.
  set (hl := Z.to_nat (ip_header_len (drop 14 p))). assert (20 <= hl)%nat by lia. fold (wsum 14 hl p) (wsum 14 hl q).
  assert (Hsum : wsum 14 hl q = wsum 14 hl p + (ck - word16 24 p) - 1).
  { rewrite (wsum_store16 14 hl 22), (wsum_store16 14 hl 24), (word16_other 24 22) by (len16 || done || by apply store16_ok). lia. }
  rewrite !checksum_valid_iff by (by apply wsum_nonneg). intros [Hpos Hmod]. split; [|rewrite Hsum; zlia].
  pose proof (wsum_nonneg 14 hl q Hq) as Hnn. destruct (Z.eq_dec (wsum 14 hl q) 0) as [Hz|]; [|lia]. exfalso.
  apply (wsum_zero_word 14 hl 22) in Hz; [|done|lia|lia].
  assert (word16 22 q = word16 22 p - 1) by (rewrite word16_store16 by len16; by apply wrap_small). lia.
Qed.
End ttl.

(** functional.  A packet whose time to live is 0 or 1 is dropped; any other gets one less, keeps its length and all bytes
    but the time to live and the header checksum, and a header checksum that verifies still does. *)
Theorem update_ttl_keeps_checksum avx2 p : bytes_ok p -> 20 <= ip_header_len (drop 14 p) ->
  14 + ip_header_len (drop 14 p) <= Z.of_nat (length p) ->
  (nth 22 p 0 <= 1 -> update_ttl_packet p = Some None) /\
  (1 < nth 22 p 0 -> exists q, update_ttl_packet p = Some (Some q) /\ length q = length p /\ bytes_ok q /\
     word16 22 q = word16 22 p - 1 /\
     (forall off k, (off + k <= 22 \/ 26 <= off)%nat -> take k (drop off q) = take k (drop off p)) /\
     (VerifyIpv4Checksum avx2 (drop 14 p) = Some true -> VerifyIpv4Checksum avx2 (drop 14 q) = Some true)).
Proof.
  intros Hok Hh Hroom. split.
  - intros Httl. unfold update_ttl_packet. change (ip_at + ip_ttl) with 22. rewrite load_1 by lia. cbn [mbind option_bind].
    by rewrite (proj2 (Z.ltb_ge _ _)) by exact Httl.
  - intros Httl. pose proof (ttl_word p Hok Hh Hroom Httl). pose proof (word16_word 22 p Hok) as Hw.
    eexists. split; [by apply update_ttl_eq|]. split; [by apply ttl_length|]. split; [by do 2 apply store16_ok|]. split; [|split].
    + rewrite word16_store16 by len16. apply wrap_small. unfold in_word in *. lia.
    + intros off k Ho. by rewrite !bytes_other by len16.
    + by apply ttl_checksum.
Qed.

Lemma update_ttl_keeps_checksum_witness : exists q, update_ttl_packet ex_packet = Some (Some q) /\
  VerifyIpv4Checksum true (drop 14 q) = Some true.
Proof.
  destruct (update_ttl_keeps_checksum true ex_packet) as [_ H].
  - apply (fr_ok _ _ ex_framed).
  - by vm_compute.
  - by vm_compute.
  - destruct H as (q & Hq & _ & _ & _ & _ & Hv); [by vm_compute|]. exists q. split; [exact Hq|]. apply Hv. vm_compute. reflexivity.
Defined.
