(* ===== verification/Codel.v ===== *)
(** Controlled-delay queue management: [core/utils/codel.h].

    [clock] gives the readings of the time-stamp counter in nanoseconds, one for each
    call of [NanoSecondTime]; [pow_count] is the double that the C library returns for
    [pow(drop_count_, -.5)], whose last bits it does not fix.  Doubles are those of
    IEEE 754, as the Standard Library defines them; a conversion of one that does not fit
    into 64 bits is undefined, [None].  Objects are of any type; [Drop] is given as the
    list of the objects that the drop function is called with. *)
From Stdlib Require Import SpecFloat.
From S2P Require Import Prelude.

Section Codel.
Context {T : Type} (clock : nat -> Z) (pow_count : Z -> spec_float).

Definition Wrapper : Type := Z * T.

Definition kDefaultTarget : Z := 5000000.
Definition kDefaultWindow : Z := 100000000.

Record codel : Type := Codel {
  delay_target_ : Z;
  window_ : Z;
  time_above_target_ : Z;
  next_drop_time_ : Z;
  drop_count_ : Z;
  dropping_ : bool;
  max_size_ : Z;
  queue_ : list Wrapper;
  drop_func_ : bool;     (* whether there is a drop function *)
  reads : nat            (* calls of NanoSecondTime so far *)
}.

Definition with_reads (c : codel) (n : nat) : codel :=
  Codel (delay_target_ c) (window_ c) (time_above_target_ c) (next_drop_time_ c) (drop_count_ c) (dropping_ c) (max_size_ c) (queue_ c) (drop_func_ c) n.
Definition with_queue (c : codel) (q : list Wrapper) : codel :=
  Codel (delay_target_ c) (window_ c) (time_above_target_ c) (next_drop_time_ c) (drop_count_ c) (dropping_ c) (max_size_ c) q (drop_func_ c) (reads c).
Definition with_above (c : codel) (t : Z) : codel :=
  Codel (delay_target_ c) (window_ c) t (next_drop_time_ c) (drop_count_ c) (dropping_ c) (max_size_ c) (queue_ c) (drop_func_ c) (reads c).
Definition with_next_drop (c : codel) (t : Z) : codel :=
  Codel (delay_target_ c) (window_ c) (time_above_target_ c) t (drop_count_ c) (dropping_ c) (max_size_ c) (queue_ c) (drop_func_ c) (reads c).
Definition with_count (c : codel) (n : Z) : codel :=
  Codel (delay_target_ c) (window_ c) (time_above_target_ c) (next_drop_time_ c) n (dropping_ c) (max_size_ c) (queue_ c) (drop_func_ c) (reads c).
Definition with_dropping (c : codel) (b : bool) : codel :=
  Codel (delay_target_ c) (window_ c) (time_above_target_ c) (next_drop_time_ c) (drop_count_ c) b (max_size_ c) (queue_ c) (drop_func_ c) (reads c).
Definition with_max_size (c : codel) (n : Z) : codel :=
  Codel (delay_target_ c) (window_ c) (time_above_target_ c) (next_drop_time_ c) (drop_count_ c) (dropping_ c) n (queue_ c) (drop_func_ c) (reads c).

Definition NanoSecondTime (c : codel) : Z * codel := (clock (reads c), with_reads c (S (reads c))).

Definition codel_init (drop_func : bool) (max_entries target window : Z) : codel :=
  Codel target window 0 (u64 (clock 0 + window)) 0 false max_entries [] drop_func 1.

Definition Drop (c : codel) (w : Wrapper) : list T := if drop_func_ c then [w.2] else [].

(** The destructor: the calls of the drop function. *)
Definition codel_destroy (c : codel) : list T := concat (map (Drop c) (queue_ c)).

Definition Size (c : codel) : Z := Z.of_nat (length (queue_ c)).

Definition Push (c : codel) (obj : T) : Z * codel :=
  if negb (max_size_ c =? 0) && (max_size_ c <=? Size c) then (-1, c)
  else
    let '(now, c) := NanoSecondTime c in
    (0, with_queue c (queue_ c ++ [(now, obj)])).

(** [Push] of an array: the number of objects pushed. *)
Fixpoint PushN (c : codel) (objs : list T) : Z * codel :=
  match objs with
  | [] => (0, c)
  | obj :: objs =>
      let '(err, c) := Push c obj in
      if negb (err =? 0) then (0, c)
      else let '(n, c) := PushN c objs in (1 + n, c)
  end.

(** Doubles. *)
Definition to_double (x : Z) : spec_float := binary_normalize 53 1024 x 0 false.
Definition to_uint64 (f : spec_float) : option Z :=
  match f with
  | S754_zero _ => Some 0
  | S754_finite false m e => let v := Z.shiftl (Zpos m) e in if in_wordb 64 v then Some v else None
  | S754_finite true m e => if Z.shiftl (Zpos m) e =? 0 then Some 0 else None
  | _ => None
  end.

Definition NextDrop (c : codel) (cur_time : Z) : option Z :=
  to_uint64 (SFadd 53 1024 (to_double cur_time) (SFmul 53 1024 (to_double (window_ c)) (pow_count (drop_count_ c)))).

(** [w] and [drop] are passed by reference: the result has their values after the call. *)
Definition RingDequeue (c : codel) (w : Wrapper) (drop : bool) : codel * Z * Wrapper * bool :=
  match queue_ c with
  | [] => (c, -1, w, drop)
  | w :: queue =>
      let '(now, c) := NanoSecondTime (with_queue c queue) in
      let delay_time := u64 (now - w.1) in
      if delay_time <? delay_target_ c then (with_above c 0, 0, w, drop)
      else if time_above_target_ c =? 0 then (with_above c (u64 (now + window_ c)), 0, w, drop)
      else if time_above_target_ c <=? now then (c, 0, w, true)
      else (c, 0, w, drop)
  end.

Fixpoint drop_loop (fuel : nat) (now : Z) (c : codel) (w : Wrapper) (drop : bool) (calls : list T)
    : option (codel * Z * Wrapper * list T) :=
  match fuel with
  | O => None
  | S fuel =>
      if (next_drop_time_ c <=? now) && dropping_ c then
        let calls := calls ++ Drop c w in
        let c := with_count c (u32 (drop_count_ c + 1)) in
        let '(c, err, w, drop) := RingDequeue c w drop in
        if negb (err =? 0) || negb drop then Some (with_dropping c false, err, w, calls)
        else
          next ← NextDrop c (next_drop_time_ c);
          drop_loop fuel now (with_next_drop c next) w drop calls
      else Some (c, 0, w, calls)
  end.

Definition DropDequeue (c : codel) (w : Wrapper) (drop : bool) : option (codel * Z * Wrapper * list T) :=
  let '(now, c) := NanoSecondTime c in
  if negb drop then Some (with_dropping c false, 0, w, [])
  else if next_drop_time_ c <=? now then drop_loop (length (queue_ c) + 2) now c w drop []
  else Some (c, 0, w, []).

(** The state, the error, the object when there is none, and the calls of the drop function. *)
Definition pop_result (c : codel) (err : Z) (w : Wrapper) (calls : list T) : codel * Z * option T * list T :=
  (c, err, if err =? 0 then Some w.2 else None, calls).

Definition Pop (c : codel) (w0 : Wrapper) : option (codel * Z * option T * list T) :=
  let '(c, err, w, drop) := RingDequeue c w0 false in
  if negb (err =? 0) then Some (with_dropping c false, -2, None, [])
  else
    let '(now, c) := NanoSecondTime c in
    if dropping_ c then
      '(c, err, w, calls) ← DropDequeue c w drop;
      Some (pop_result c err w calls)
    else if drop && ((u64 (now - next_drop_time_ c) <? window_ c) || (window_ c <=? u64 (now - time_above_target_ c))) then
      let calls := Drop c w in
      let '(c, err, w, drop) := RingDequeue c w drop in
      if err =? 0 then
        let c := with_dropping c true in
        let c := with_count c (if (u64 (now - next_drop_time_ c) <? window_ c) && (2 <? drop_count_ c) then drop_count_ c - 2 else 1) in
        next ← NextDrop c now;
        Some (pop_result (with_next_drop c next) err w calls)
      else Some (pop_result c err w calls)
    else Some (pop_result c err w []).

(** [Pop] of at most [count] objects. *)
Fixpoint PopN (c : codel) (w0 : Wrapper) (count : nat) : option (codel * list T * list T) :=
  match count with
  | O => Some (c, [], [])
  | S count =>
      '(c, err, obj, calls) ← Pop c w0;
      match obj with
      | None => Some (c, [], calls)
      | Some obj =>
          '(c, objs, calls') ← PopN c w0 count;
          Some (c, obj :: objs, calls ++ calls')
      end
  end.

(** [queue_.max_size()] is the largest size of a [deque], which the implementation fixes. *)
Definition Capacity (deque_max : Z) (c : codel) : Z := if negb (max_size_ c =? 0) then max_size_ c else deque_max.
Definition Empty (c : codel) : bool := bool_decide (queue_ c = []).
Definition Full (deque_max : Z) (c : codel) : bool :=
  if negb (max_size_ c =? 0) then max_size_ c =? Size c else Size c =? deque_max.
Definition Resize (deque_max : Z) (c : codel) (new_capacity : Z) : Z * codel :=
  if new_capacity <=? Size c then (-1, c)
  else if deque_max <=? new_capacity then (-1, c)
  else (0, with_max_size c new_capacity).

(** ** One dequeue *)

(** What no operation but [Resize] changes. *)
Definition same_settings (c c' : codel) : Prop :=
  delay_target_ c' = delay_target_ c /\ window_ c' = window_ c /\ max_size_ c' = max_size_ c /\ drop_func_ c' = drop_func_ c.

Lemma same_settings_trans c1 c2 c3 : same_settings c1 c2 -> same_settings c2 c3 -> same_settings c1 c3.
Proof. unfold same_settings. intuition congruence. Qed.

(** The delay of the object at the front has been above the target for long enough. *)
Definition front_late (c : codel) (w : Wrapper) : Prop :=
  delay_target_ c <= u64 (clock (reads c) - w.1) /\ time_above_target_ c <> 0 /\ time_above_target_ c <= clock (reads c).

Lemma RingDequeue_empty c w drop : queue_ c = [] -> RingDequeue c w drop = (c, -1, w, drop).
Proof. unfold RingDequeue. by intros ->. Qed.

Lemma RingDequeue_front c w drop x q : queue_ c = x :: q ->
  exists c' late, RingDequeue c w drop = (c', 0, x, late || drop) /\ queue_ c' = q /\ same_settings c c' /\
    dropping_ c' = dropping_ c /\ next_drop_time_ c' = next_drop_time_ c /\ drop_count_ c' = drop_count_ c /\
    reads c' = S (reads c) /\ (late = true -> front_late c x).
Proof.
  intros Hq. unfold RingDequeue, front_late. rewrite Hq. cbn -[u64 Z.add].
  destruct (Z.ltb_spec (u64 (clock (reads c) - x.1)) (delay_target_ c)); [by exists (with_above (with_reads (with_queue c q) (S (reads c))) 0), false|].
  destruct (Z.eqb_spec (time_above_target_ c) 0).
  { by exists (with_above (with_reads (with_queue c q) (S (reads c))) (u64 (clock (reads c) + window_ c))), false. }
  destruct (Z.leb_spec (time_above_target_ c) (clock (reads c))).
  - exists (with_reads (with_queue c q) (S (reads c))), true. done.
  - by exists (with_reads (with_queue c q) (S (reads c))), false.
Qed.

(** ** Pop *)

(** The objects in front of the queue have been dropped, in their order, and [w] is what
    was taken last. *)
Definition calls_for (c : codel) (gone : list Wrapper) : list T := concat (map (Drop c) gone).

Lemma calls_for_spec c gone : calls_for c gone = if drop_func_ c then gone.*2 else [].
Proof.
  unfold calls_for, Drop. destruct (drop_func_ c); induction gone as [|x gone IH]; [done| |done|done].
  cbn [map concat fmap list_fmap app]. by rewrite IH.
Qed.

Lemma calls_for_app c g1 g2 : calls_for c (g1 ++ g2) = calls_for c g1 ++ calls_for c g2.
Proof. unfold calls_for. by rewrite map_app, concat_app. Qed.

Lemma calls_for_same c c' gone : same_settings c c' -> calls_for c' gone = calls_for c gone.
Proof. intros (_ & _ & _ & E). by rewrite !calls_for_spec, E. Qed.

Lemma drop_loop_spec fuel now c w drop calls : (length (queue_ c) + 1 < fuel)%nat ->
  match drop_loop fuel now c w drop calls with
  | None => exists c' t, same_settings c c' /\ NextDrop c' t = None
  | Some (c', err, w', calls') =>
      exists gone, calls' = calls ++ calls_for c gone /\ same_settings c c' /\
        (err = 0 /\ w :: queue_ c = gone ++ w' :: queue_ c' \/
         err = -1 /\ gone = w :: queue_ c /\ queue_ c' = [] /\ dropping_ c' = false)
  end.
Proof.
  revert c w drop calls. induction fuel as [|fuel IH]; intros c w drop calls Hf; [lia|]. cbn [drop_loop].
  destruct (_ && _) eqn:Hgo.
  2:{ exists []. rewrite app_nil_r. split; [done|]. split; [done|]. by left. }
  set (c1 := with_count c _). assert (queue_ c1 = queue_ c) as Hq1 by done.
  destruct (queue_ c) as [|x q] eqn:Hq.
  - rewrite (RingDequeue_empty c1) by done. cbn [negb Z.eqb orb].
    exists [w]. split; [unfold calls_for; cbn [map concat]; by rewrite app_nil_r|]. split; [done|].
    right. split; [done|]. split; [done|]. split; [cbn; exact Hq|done].
  - destruct (RingDequeue_front c1 w drop x q Hq1) as (c2 & late & -> & Hq2 & Hs & _ & _ & _ & _ & _).
    cbn [Z.eqb negb orb]. destruct (late || drop) eqn:Hd; cbn [negb].
    + destruct (NextDrop c2 (next_drop_time_ c2)) as [next|] eqn:En; cbn [mbind option_bind].
      2:{ by exists c2, (next_drop_time_ c2). }
      assert (length (queue_ (with_next_drop c2 next)) + 1 < fuel)%nat as Hf' by (cbn [queue_ with_next_drop]; rewrite Hq2; cbn in Hf; lia).
      specialize (IH _ x true (calls ++ Drop c w) Hf').
      destruct (drop_loop _ _ _ _ _ _) as [[[[c3 err] w3] calls3]|].
      * destruct IH as (gone & -> & Hs3 & Hcase). exists (w :: gone).
        rewrite (calls_for_same c (with_next_drop c2 next)) by done.
        split; [unfold calls_for; cbn [map concat]; by rewrite app_assoc|].
        split; [eapply same_settings_trans; [exact Hs|exact Hs3]|].
        cbn [queue_ with_next_drop] in Hcase. rewrite Hq2 in Hcase.
        destruct Hcase as [[-> Hcase]|(-> & -> & Hcase)]; [left; by rewrite Hcase|right; done].
      * destruct IH as (c' & t & Hs' & Hn). exists c', t. split; [eapply same_settings_trans; [exact Hs|exact Hs']|done].
    + exists [w]. split; [unfold calls_for; cbn [map concat]; by rewrite app_nil_r|]. split; [done|].
      left. split; [done|]. cbn. by rewrite Hq2.
Qed.

Lemma DropDequeue_spec c w drop :
  match DropDequeue c w drop with
  | None => exists c' t, same_settings c c' /\ NextDrop c' t = None
  | Some (c', err, w', calls) =>
      exists gone, calls = calls_for c gone /\ same_settings c c' /\ (drop = false -> gone = []) /\
        (err = 0 /\ w :: queue_ c = gone ++ w' :: queue_ c' \/
         err = -1 /\ gone = w :: queue_ c /\ queue_ c' = [] /\ dropping_ c' = false)
  end.
Proof.
  unfold DropDequeue. cbn [NanoSecondTime]. destruct drop; cbn [negb].
  - destruct (next_drop_time_ _ <=? _).
    + pose proof (drop_loop_spec (length (queue_ c) + 2) (clock (reads c)) (with_reads c (S (reads c))) w true [] ltac:(cbn; lia)) as Hl.
      change (queue_ (with_reads c (S (reads c)))) with (queue_ c) in *.
      destruct (drop_loop (length (queue_ c) + 2) (clock (reads c)) (with_reads c (S (reads c))) w true []) as [[[[c3 err] w3] calls3]|].
      * destruct Hl as (gone & -> & Hs & Hcase). by exists gone.
      * destruct Hl as (c' & t & Hs & Hn'). by exists c', t.
    + exists []. split; [done|]. split; [done|]. split; [done|]. by left.
  - exists []. split; [done|]. split; [done|]. split; [done|]. by left.
Qed.

Lemma Pop_empty c w0 : queue_ c = [] -> Pop c w0 = Some (with_dropping c false, -2, None, []).
Proof. intros Hq. unfold Pop. by rewrite RingDequeue_empty. Qed.

(** [Pop] returns the first object of the queue that it does not drop.  It drops
    none unless the one in front has been waiting longer than the target and the delay
    was above the target before; it fails only when nothing is left. *)
Lemma Pop_spec c w0 :
  match Pop c w0 with
  | None => exists c' t, same_settings c c' /\ NextDrop c' t = None
  | Some (c', err, obj, calls) =>
      exists gone, calls = calls_for c gone /\ same_settings c c' /\
        (gone = [] \/ exists x rest, gone = x :: rest /\ front_late c x) /\
        match obj with
        | Some o => err = 0 /\ exists t, queue_ c = gone ++ (t, o) :: queue_ c'
        | None => err < 0 /\ queue_ c = gone /\ queue_ c' = [] /\ dropping_ c' = false
        end
  end.
Proof.
  destruct (queue_ c) as [|x q] eqn:Hq.
  { rewrite Pop_empty by done. exists []. split; [done|]. split; [done|]. split; [by left|]. cbn. by rewrite Hq. }
  unfold Pop. destruct (RingDequeue_front c w0 false x q Hq) as (c1 & late & -> & Hq1 & Hs1 & Hd1 & _ & _ & _ & Hlate).
  rewrite orb_false_r. cbn [Z.eqb negb NanoSecondTime]. set (c2 := with_reads c1 (S (reads c1))).
  change (dropping_ c2) with (dropping_ c1). destruct (dropping_ c1) eqn:Hdr.
  - pose proof (DropDequeue_spec c2 x late) as HD. destruct (DropDequeue c2 x late) as [[[[c3 err] w3] calls]|]; cbn [mbind option_bind].
    + destruct HD as (gone & -> & Hs & Hnone & Hcase). exists gone. rewrite (calls_for_same c c2) by done.
      split; [done|]. split; [by eapply same_settings_trans; [exact Hs1|]|]. change (queue_ c2) with (queue_ c1) in Hcase. rewrite Hq1 in Hcase.
      split.
      * destruct late; [|left; by apply Hnone]. destruct Hcase as [[_ Hc]|(_ & -> & _)]; [|right; eauto].
        destruct gone as [|g gone]; [by left|]. right. cbn in Hc. injection Hc as <- _. eauto.
      * destruct Hcase as [[-> Hc]|(-> & -> & Hc)]; cbn [Z.eqb]; [|by split]. split; [done|]. exists w3.1. rewrite Hc. by destruct w3.
    + destruct HD as (c' & t & Hs & Hn). exists c', t. split; [by eapply same_settings_trans; [exact Hs1|]|done].
  - destruct late; cbn [andb]; [destruct (_ || _)|].
    2,3: exists []; split; [done|]; split; [done|]; split; [by left|]; split; [done|];
      exists x.1; cbn [app]; change (queue_ c2) with (queue_ c1); rewrite Hq1; by destruct x.
    assert (Hx : [x] = [] \/ exists y rest, [x] = y :: rest /\ front_late c y) by (right; exists x, []; auto).
    assert (Hcall : Drop c2 x = calls_for c [x]).
    { rewrite <- (calls_for_same c c2) by done. unfold calls_for. cbn [map concat]. by rewrite app_nil_r. }
    destruct q as [|y q].
    + rewrite RingDequeue_empty by done. cbn [Z.eqb]. exists [x]. split; [done|]. split; [done|]. split; [done|].
      cbn. by rewrite Hq1.
    + destruct (RingDequeue_front c2 x true y q Hq1) as (c3 & late2 & -> & Hq3 & Hs3 & _). cbn [Z.eqb].
      set (c4 := with_count _ _). destruct (NextDrop c4 (clock (reads c1))) as [next|] eqn:En; cbn [mbind option_bind].
      * exists [x]. split; [done|]. split; [by eapply same_settings_trans; [exact Hs1|]|]. split; [done|]. cbn.
        split; [done|]. exists y.1. rewrite Hq3. by destruct y.
      * exists c4, (clock (reads c1)). split; [by eapply same_settings_trans; [exact Hs1|]|done].
Qed.

(** ** Runs *)
Inductive codel_op : Type := PushOp (obj : T) | PopOp.

Inductive codel_event : Type := Dropped (obj : T) | Popped (obj : T).
Definition event_obj (e : codel_event) : T := match e with Dropped obj | Popped obj => obj end.

(** The state, the objects that were accepted, and what became of objects, in order. *)
Fixpoint codel_run (c : codel) (w0 : Wrapper) (ops : list codel_op) : option (codel * list T * list codel_event) :=
  match ops with
  | [] => Some (c, [], [])
  | PushOp obj :: ops =>
      let '(err, c) := Push c obj in
      '(c, accepted, events) ← codel_run c w0 ops;
      Some (c, (if err =? 0 then [obj] else []) ++ accepted, events)
  | PopOp :: ops =>
      '(c, err, obj, calls) ← Pop c w0;
      '(c, accepted, events) ← codel_run c w0 ops;
      Some (c, accepted, map Dropped calls ++ match obj with Some obj => [Popped obj] | None => [] end ++ events)
  end.

Lemma Push_spec c obj : let '(err, c') := Push c obj in
  same_settings c c' /\ (max_size_ c = 0 \/ Size c <= max_size_ c -> max_size_ c = 0 \/ Size c' <= max_size_ c) /\
  if err =? 0 then (queue_ c').*2 = (queue_ c).*2 ++ [obj] else c' = c /\ max_size_ c <> 0 /\ max_size_ c <= Size c.
Proof.
  unfold Push. destruct (Z.eqb_spec (max_size_ c) 0); cbn [negb andb].
  - split; [done|]. split; [by left|]. cbn. by rewrite fmap_app.
  - destruct (Z.leb_spec (max_size_ c) (Size c)); cbn [NanoSecondTime Z.eqb]; [done|].
    split; [done|]. split; [|cbn; by rewrite fmap_app]. intros _. right. unfold Size in *. cbn. rewrite length_app. cbn. lia.
Qed.

(** Over any sequence of pushes and pops, what was accepted leaves the queue in the
    order of its arrival, dropped or popped, exactly once, and the queue never holds more
    than its limit.  A run is undefined only where the time of the next drop does not fit. *)
Theorem codel_fifo c w0 ops : drop_func_ c = true -> max_size_ c = 0 \/ Size c <= max_size_ c ->
  match codel_run c w0 ops with
  | None => exists c' t, same_settings c c' /\ NextDrop c' t = None
  | Some (c', accepted, events) =>
      (queue_ c).*2 ++ accepted = map event_obj events ++ (queue_ c').*2 /\ same_settings c c' /\
      (max_size_ c = 0 \/ Size c' <= max_size_ c)
  end.
Proof.
  revert c. induction ops as [|[obj|] ops IH]; intros c Hf Hm; cbn [codel_run].
  - cbn. by rewrite app_nil_r.
  - pose proof (Push_spec c obj) as HP. destruct (Push c obj) as [err c1]. destruct HP as (Hs & Hm1 & HP).
    specialize (IH c1). destruct Hs as (Hs1 & Hs2 & Hs3 & Hs4). rewrite Hs4, Hs3 in IH. specialize (IH Hf (Hm1 Hm)).
    destruct (codel_run c1 w0 ops) as [[[c2 acc] ev]|]; cbn [mbind option_bind].
    + destruct IH as (Hq & Hs & Hb). split; [|split; [|done]].
      * destruct (err =? 0); [|destruct HP as [-> _]; done]. rewrite HP in Hq. rewrite <- Hq. by rewrite <- app_assoc.
      * by eapply same_settings_trans; [|exact Hs].
    + destruct IH as (c' & t & Hs & Hn). exists c', t. split; [by eapply same_settings_trans; [|exact Hs]|done].
  - pose proof (Pop_spec c w0) as HP. destruct (Pop c w0) as [[[[c1 err] obj] calls]|]; cbn [mbind option_bind]; [|done].
    destruct HP as (gone & -> & Hs & _ & Hq). rewrite calls_for_spec, Hf.
    assert (Hsub : (length (queue_ c1) <= length (queue_ c))%nat).
    { destruct obj as [o|]; [destruct Hq as (_ & t & ->)|destruct Hq as (_ & -> & -> & _)]; rewrite ?length_app; cbn; lia. }
    specialize (IH c1). destruct Hs as (Hs1 & Hs2 & Hs3 & Hs4). rewrite Hs4, Hs3 in IH.
    assert (Hm1 : max_size_ c = 0 \/ Size c1 <= max_size_ c) by (unfold Size in *; lia). specialize (IH Hf Hm1).
    destruct (codel_run c1 w0 ops) as [[[c2 acc] ev]|]; cbn [mbind option_bind].
    + destruct IH as (Hrest & Hs & Hb). split; [|split; [by eapply same_settings_trans; [|exact Hs]|done]].
      rewrite !map_app, map_map, map_id. destruct obj as [o|].
      * destruct Hq as (_ & t & ->). rewrite fmap_app. cbn [fmap list_fmap map event_obj snd app].
        rewrite <- !app_assoc. cbn [app]. rewrite <- Hrest. done.
      * destruct Hq as (_ & -> & Hq1 & _). rewrite Hq1 in Hrest. cbn [fmap list_fmap app] in Hrest. cbn [map app]. by rewrite Hrest, <- app_assoc.
    + destruct IH as (c' & t & Hs & Hn). exists c', t. split; [by eapply same_settings_trans; [|exact Hs]|done].
Qed.
End Codel.

(** ** An example

    The target is 5, the window 100 and the limit 3. *)
Definition ex_clock (n : nat) : Z := nth n [1; 1; 2; 3; 4; 10; 10; 200; 200; 200; 300; 400; 400; 400; 400] 1000.
(** The square root of IEEE 754 and its quotient. *)
Definition ex_pow (n : Z) : spec_float := SFdiv 53 1024 (to_double 1) (SFsqrt 53 1024 (to_double n)).

Lemma codel_fifo_witness : exists c' accepted events,
  codel_run ex_clock ex_pow (codel_init ex_clock true 3 5 100) (0, 0) [PushOp 7; PushOp 8; PopOp; PushOp 9; PopOp; PopOp] = Some (c', accepted, events) /\
  accepted = map event_obj events ++ (queue_ c').*2.
Proof.
  pose proof (codel_fifo ex_clock ex_pow (codel_init ex_clock true 3 5 100) (0, 0)
    [PushOp 7; PushOp 8; PopOp; PushOp 9; PopOp; PopOp] eq_refl ltac:(right; vm_compute; discriminate)) as H.
  destruct (codel_run ex_clock ex_pow _ _ _) as [[[c' accepted] events]|] eqn:E; [|vm_compute in E; discriminate E].
  exists c', accepted, events. split; [reflexivity|]. destruct H as [H _]. exact H.
Defined.

(** Nothing resets the flag that an object above the target has set, so the objects behind
    it are dropped too, although they have not waited at all. *)
Definition ex_late : codel := Codel 5 100 150 200 1 true 0 [(1, 1); (400, 2); (400, 3)] true 0.
Lemma fresh_objects_dropped : exists c, Pop (fun _ => 400) ex_pow ex_late (0, 0) = Some (c, -1, None, [1; 2; 3]).
Proof. eexists. vm_compute. reflexivity. Qed.
