(* ===== verification/NAT.v ===== *)
(** The dynamic address translator: [core/modules/nat.h] and [core/modules/nat.cc].

    One hash table maps internal endpoints to external ones and back.  The table is
    used through the interface of HashTable.v; the CRC of [rte_hash_crc] is an argument.
    [None] is undefined behaviour of the source: a null pointer, an index out of bounds
    or an access outside of a packet. *)
From stdpp Require Import sorting.
From S2P Require Import Prelude Common Endian Checksum Random Ip Frame HashTable NatStamp.

Record NatEntry := MkEntry { endpoint : Endpoint; last_refresh : Z }.
Record PortRange := MkRange { begin : Z; end_ : Z; suspended : bool }.

(** The messages of the control plane. *)
Record range_arg := RangeArg { arg_begin : Z; arg_end : Z; arg_suspended : bool }.
Record address_arg := AddressArg { ext_addr : bytes; port_ranges : list range_arg }.

Definition kTimeOutNs : Z := 300 * 1000 * 1000 * 1000.
Definition kMaxTrials : nat := 128.

Section nat_module.
Context `{HT : HashTable Endpoint NatEntry} (rte_hash_crc : bytes -> Z -> Z).
(** What a variable without initialiser holds. *)
Context (garbage : Z).

(** The members; [refused] is not one of them: it tells an observer whether the table
    has refused an insertion, which the source does not look at. *)
Record NAT := MkNAT {
  ext_addrs_ : list Z;
  port_ranges_ : list (list PortRange);
  map_ : table Endpoint NatEntry;
  rng_ : Z;
  refused : bool }.

Definition with_map (s : NAT) (m : table Endpoint NatEntry) : NAT :=
  MkNAT (ext_addrs_ s) (port_ranges_ s) m (rng_ s) (refused s).
Definition with_rng (s : NAT) (seed : Z) : NAT :=
  MkNAT (ext_addrs_ s) (port_ranges_ s) (map_ s) seed (refused s).

(** ** [Init] *)
Definition malformed (r : range_arg) : bool :=
  (arg_end r <=? arg_begin r) || (65535 <? arg_begin r) || (65535 <? arg_end r).

Definition make_ranges (rs : list range_arg) : list PortRange :=
  match rs with
  | [] => [MkRange 0 65535 false]
  | _ => map (fun r => MkRange (u16 (arg_begin r)) (u16 (arg_end r)) (arg_suspended r)) rs
  end.

Fixpoint add_addresses (s : NAT) (args : list address_arg) : NAT * (errno + unit) :=
  match args with
  | [] => (s, inr tt)
  | a :: args' =>
      match ParseIpv4Address (ext_addr a) (BE 0) with
      | (false, _) => (s, inl EINVAL)
      | (true, addr) =>
          add_addresses (MkNAT (ext_addrs_ s ++ [data_ addr]) (port_ranges_ s ++ [make_ranges (port_ranges a)])
                               (map_ s) (rng_ s) (refused s)) args'
      end
  end.

(** [std::sort] with the order of [be32_t]; the port ranges stay where they are. *)
Definition value_le (a b : Z) : Prop := value 4 (BE a) <= value 4 (BE b).
#[export] Instance value_le_dec a b : Decision (value_le a b).
Proof. unfold value_le. apply _. Defined.

Definition Init (s : NAT) (args : list address_arg) : NAT * (errno + unit) :=
  if existsb (fun a => existsb malformed (port_ranges a)) args then (s, inl EINVAL)
  else match add_addresses s args with
  | (s, inl e) => (s, inl e)
  | (s, inr _) =>
      if bool_decide (ext_addrs_ s = []) then (s, inl EINVAL)
      else (MkNAT (merge_sort value_le (ext_addrs_ s)) (port_ranges_ s) (map_ s) (rng_ s) (refused s), inr tt)
  end.

Definition GetInitialArg (s : NAT) : option (list address_arg) :=
  mapM (fun i =>
    a ← ext_addrs_ s !! i; rs ← port_ranges_ s !! i;
    Some (AddressArg (ToIpv4Address (BE a)) (map (fun r => RangeArg (begin r) (end_ r) (suspended r)) rs)))
    (seq 0 (length (ext_addrs_ s))).

(** ** Allocation of external endpoints *)

(** What to do with a port range for an internal endpoint. *)
Inductive choice := Skip | GiveUp | Use (min range : Z).

Definition choose (src_internal : Endpoint) (r : PortRange) : choice :=
  if suspended r then Skip
  else if protocol src_internal =? kIcmp then Use (begin r) (u16 (end_ r - begin r))
  else if be_eq (BE (port src_internal)) (of_cpu 2 0) then GiveUp
  else if be_bool (be_and 2 (BE (port src_internal)) (be_not 2 (of_cpu 2 1023))) then
    if end_ r <=? 1024 then Skip
    else let min := Z.max 1024 (begin r) in Use min (u16 (end_ r - min + 1))
  else if 1023 <=? begin r then Skip
  else Use (begin r) (u16 (Z.min 1023 (end_ r) - begin r)).

(** The code after the label [found]: both insertions; whether one was refused, and
    the pointer to the forward entry. *)
Definition install (m : table Endpoint NatEntry) (src_internal src_external : Endpoint)
    : option (table Endpoint NatEntry * bool * option nat) :=
  r ← ht_insert m src_external (MkEntry src_internal garbage);
  let '(m, p1) := r in
  r ← ht_insert m src_internal (MkEntry src_external garbage);
  let '(m, p2) := r in
  Some (m, bool_decide (p1 = None) || bool_decide (p2 = None), p2).

(** The [do ... while] over the ports of a range, with [n] trials left after this one;
    inside, [None] means that the loop ended without success. *)
Fixpoint probe (n : nat) (m : table Endpoint NatEntry) (src_internal : Endpoint) (ext_addr now min range start_port port : Z)
    : option (option (table Endpoint NatEntry * bool * option nat)) :=
  let src_external := MkEndpoint ext_addr (data_ (of_cpu 2 port)) (protocol src_internal) in
  match ht_find m src_external with
  | None => r ← install m src_internal src_external; Some (Some r)
  | Some hash_reverse =>
      hash_forward ← ht_find m (endpoint (ht_entry m hash_reverse).2);
      if kTimeOutNs <? u64 (now - last_refresh (ht_entry m hash_forward).2) then
        let m := (ht_remove m (ht_entry m hash_forward).1).1 in
        let m := (ht_remove m (ht_entry m hash_reverse).1).1 in
        r ← install m src_internal src_external; Some (Some r)
      else
        let port := u16 (port + 1) in
        let port := if (port =? 0) || (min + range <=? port) then min else port in
        if port =? start_port then Some None
        else match n with
        | O => Some None
        | S n' => probe n' m src_internal ext_addr now min range start_port port
        end
  end.

(** The [for] loop over the port ranges. *)
Fixpoint try_ranges (s : NAT) (src_internal : Endpoint) (ext_addr now : Z) (ranges : list PortRange)
    : option (NAT * option nat) :=
  match ranges with
  | [] => Some (s, None)
  | r :: ranges' =>
      match choose src_internal r with
      | Skip => try_ranges s src_internal ext_addr now ranges'
      | GiveUp => Some (s, None)
      | Use min range =>
          let '(seed, x) := GetRange (rng_ s) range in
          let s := with_rng s seed in
          let start_port := u16 (min + x) in
          out ← probe (kMaxTrials - 1) (map_ s) src_internal ext_addr now min range start_port start_port;
          match out with
          | Some (m, full, p) => Some (MkNAT (ext_addrs_ s) (port_ranges_ s) m (rng_ s) (refused s || full), p)
          | None => try_ranges s src_internal ext_addr now ranges'
          end
      end
  end.

Definition CreateNewEntry (s : NAT) (src_internal : Endpoint) (now : Z) : option (NAT * option nat) :=
  let hashed := rte_hash_crc (le_store 4 (addr src_internal)) 0 in
  if (length (ext_addrs_ s) =? 0)%nat then None
  else
    let ext_addr_index := Z.to_nat (hashed mod Z.of_nat (length (ext_addrs_ s))) in
    ext_addr ← ext_addrs_ s !! ext_addr_index;
    ranges ← port_ranges_ s !! ext_addr_index;
    try_ranges s src_internal ext_addr now ranges.

(** ** Packets *)

(** One turn of the loop of [DoProcessBatch]; the inner [None] is a dropped packet. *)
Definition process_packet (dir : Direction) (now : Z) (s : NAT) (p : bytes) : option (NAT * option bytes) :=
  l4 ← l4_at p;
  e ← ExtractEndpoint p l4 dir;
  match e with
  | None => Some (s, None)
  | Some before =>
      found ← match ht_find (map_ s) before with
        | Some ptr => Some (s, Some ptr)
        | None => match dir with kReverse => Some (s, None) | kForward => CreateNewEntry s before now end
        end;
      match found with
      | (s, None) => Some (s, None)
      | (s, Some hash_item) =>
          let e := (ht_entry (map_ s) hash_item).2 in
          let s := match dir with
            | kForward => with_map s (ht_assign (map_ s) hash_item (MkEntry (endpoint e) now))
            | kReverse => s
            end in
          p' ← Stamp dir p l4 before (endpoint (ht_entry (map_ s) hash_item).2);
          Some (s, Some p')
      end
  end.

(** The packets of a batch that are emitted, in order. *)
Fixpoint DoProcessBatch (dir : Direction) (now : Z) (s : NAT) (pkts : list bytes) : option (NAT * list bytes) :=
  match pkts with
  | [] => Some (s, [])
  | p :: pkts' =>
      r ← process_packet dir now s p;
      let '(s, out) := r in
      r ← DoProcessBatch dir now s pkts';
      let '(s, outs) := r in
      Some (s, match out with Some p' => p' :: outs | None => outs end)
  end.

(** With the output gate, which is the number of the direction. *)
Definition ProcessBatch (incoming_gate : Z) (now : Z) (s : NAT) (pkts : list bytes)
    : option (NAT * list (Z * bytes)) :=
  let '(dir, ogate) := if incoming_gate =? 0 then (kForward, 0) else (kReverse, 1) in
  r ← DoProcessBatch dir now s pkts;
  Some (r.1, map (pair ogate) r.2).

Definition entries (s : NAT) : Z := ht_count (map_ s) / 2.
End nat_module.
Arguments NAT {HT}.

(** ** The invariant *)

Section proofs.
Context `{HT : HashTable Endpoint NatEntry, !HashTableLaws Endpoint NatEntry endpoint_ok}.
Context (rte_hash_crc : bytes -> Z -> Z) (garbage : Z).
Implicit Types (s : NAT) (m : table Endpoint NatEntry) (f : gmap Endpoint NatEntry).

(** Every mapping has its reverse, and exactly one of the two endpoints is external. *)
Definition paired (ext : list Z) f : Prop :=
  forall k e, f !! k = Some e -> exists e', f !! endpoint e = Some e' /\ endpoint e' = k /\
    protocol (endpoint e) = protocol k /\ (addr k ∈ ext <-> addr (endpoint e) ∉ ext).

Record config_ok s : Prop := {
  cf_len : length (port_ranges_ s) = length (ext_addrs_ s);
  cf_some : ext_addrs_ s <> [];
  cf_addr : Forall (in_word 32) (ext_addrs_ s);
  cf_ranges : Forall (Forall (fun r => 0 <= begin r < end_ r /\ end_ r <= 65535)) (port_ranges_ s) }.

Record Inv s : Prop := {
  n_config : config_ok s;
  n_table : ht_inv (map_ s);
  n_paired : paired (ext_addrs_ s) (ht_map (map_ s));
  n_refused : refused s = false }.

(** The table before [ext] is given out: it was free, or its mapping had expired. *)
Definition freed (now : Z) f (ext : Endpoint) f0 : Prop :=
  (f !! ext = None /\ f0 = f) \/
  (exists er ef, f !! ext = Some er /\ f !! endpoint er = Some ef /\
     kTimeOutNs < u64 (now - last_refresh ef) /\ f0 = delete ext (delete (endpoint er) f)).

Definition installed (now : Z) m m' (src ext : Endpoint) (p : option nat) : Prop :=
  exists f0 ptr, p = Some ptr /\ freed now (ht_map m) ext f0 /\ ht_inv m' /\
    ht_map m' = <[src := MkEntry ext garbage]> (<[ext := MkEntry src garbage]> f0) /\
    ht_points m' ptr (src, MkEntry ext garbage).

Lemma install_spec now m m0 src ext : ht_inv m0 -> freed now (ht_map m) ext (ht_map m0) ->
  endpoint_ok src -> endpoint_ok ext ->
  exists m' full p, install garbage m0 src ext = Some (m', full, p) /\
    (full = false -> installed now m m' src ext p).
Proof.
  intros HI Hfree Hs He. unfold install.
  destruct (ht_insert_spec m0 ext (MkEntry src garbage) HI He) as (m1 & p1 & -> & HI1 & H1). cbn [mbind option_bind].
  destruct (ht_insert_spec m1 src (MkEntry ext garbage) HI1 Hs) as (m2 & p2 & -> & HI2 & H2). cbn [mbind option_bind].
  do 3 eexists. split; [done|]. intros [H1f H2f]%orb_false_iff.
  destruct p1 as [p1|]; [|done]. destruct p2 as [p2|]; [|done]. destruct H1 as [H1 _], H2 as [H2 Hpt].
  exists (ht_map m0), p2. split; [done|]. split; [done|]. split; [done|]. by rewrite H2, H1.
Qed.

Lemma of_cpu2_word v : in_word 16 (data_ (of_cpu 2 v)).
Proof. apply swap_word. Qed.

Lemma probe_spec n m (ext : list Z) src a now min range start port :
  ht_inv m -> paired ext (ht_map m) -> endpoint_ok src -> in_word 32 a -> ht_map m !! src = None ->
  addr src ∉ ext -> a ∈ ext -> 0 <= min -> 0 < range -> min + range <= 2 ^ 16 -> min <= port < min + range ->
  exists out, probe garbage n m src a now min range start port = Some out /\
    match out with
    | Some (m', full, p) => exists prt, min <= prt < min + range /\
        (full = false -> installed now m m' src (MkEndpoint a (data_ (of_cpu 2 prt)) (protocol src)) p)
    | None => True
    end.
Proof.
  intros HI Hpair Hsrc Ha Hnone Hint Hext Hmin Hrange Hmax. revert port.
  induction n as [|n IH]; intros port Hport; cbn [probe]; cbv zeta.
  all: set (ep := MkEndpoint a (data_ (of_cpu 2 port)) (protocol src)).
  all: assert (Hep : endpoint_ok ep) by (split; [done|split; [apply of_cpu2_word|apply Hsrc]]).
  all: pose proof (ht_find_spec m ep HI Hep) as Hf; destruct (ht_find m ep) as [hr|].
  2, 4: destruct (install_spec now m m src ep HI ltac:(by left) Hsrc Hep) as (m' & full & p & -> & Hi);
    cbn [mbind option_bind]; eexists; split; [done|]; exists port; by split.
  all: destruct Hf as (er & Hpr & Her); destruct (Hpair ep er Her) as (ef & Hef & Hback & Hpro & _).
  all: rewrite (ht_points_entry _ _ _ Hpr); cbn [snd].
  all: pose proof (ht_keys_ok _ _ _ HI Hef) as Hokf.
  all: pose proof (ht_find_spec m (endpoint er) HI Hokf) as Hf; destruct (ht_find m (endpoint er)) as [hf|];
    [|congruence].
  all: destruct Hf as (ef' & Hpf & Hef'); rewrite Hef in Hef'; injection Hef' as <-.
  all: cbn [fst snd mbind option_bind]; rewrite (ht_points_entry _ _ _ Hpf); cbn [fst snd mbind option_bind].
  all: destruct (Z.ltb_spec kTimeOutNs (u64 (now - last_refresh ef))) as [Hexp|Hfresh].
  1, 3: destruct (ht_remove_spec m (endpoint er) HI Hokf) as (HI1 & Hm1 & _ & Hkeep);
    assert (Hne : ep <> endpoint er) by (intros Heq; destruct (Hpair ep er Her) as (_ & _ & _ & _ & Hx); rewrite <- Heq in Hx; cbn in Hx; tauto);
    rewrite (ht_points_entry _ _ _ (Hkeep hr _ Hpr Hne)); cbn [fst];
    destruct (ht_remove_spec (ht_remove m (endpoint er)).1 ep HI1 Hep) as (HI2 & Hm2 & _);
    destruct (install_spec now m (ht_remove (ht_remove m (endpoint er)).1 ep).1 src ep HI2
      ltac:(right; exists er, ef; rewrite Hm2, Hm1; done) Hsrc Hep) as (m' & full & p & -> & Hi);
    cbn [mbind option_bind]; eexists; split; [done|]; exists port; by split.
  all: set (port' := if (u16 (port + 1) =? 0) || (min + range <=? u16 (port + 1)) then min else u16 (port + 1)).
  - destruct (port' =? start); by eexists.
  - destruct (port' =? start); [by eexists|]. apply IH. unfold port'.
    destruct ((u16 (port + 1) =? 0) || (min + range <=? u16 (port + 1))) eqn:Hc; [lia|].
    apply orb_false_iff in Hc as [H0 H1]. unfold wrap in *. change (2 ^ 16) with 65536 in *. zlia.
Qed.

(** ** Which ports are given out *)

(** The ports of a range that may be given to an internal endpoint: privileged ports to
    privileged ones, except 1023, and others to others, up to the end of the range
    included. *)
Definition allowed (src : Endpoint) (r : PortRange) (prt : Z) : Prop :=
  suspended r = false /\
  if protocol src =? kIcmp then begin r <= prt < end_ r
  else if 1024 <=? value 2 (BE (port src)) then Z.max 1024 (begin r) <= prt <= end_ r
  else begin r <= prt < Z.min 1023 (end_ r).

Lemma be_unprivileged v : in_word 16 v ->
  be_bool (be_and 2 (BE v) (be_not 2 (of_cpu 2 1023))) = (1024 <=? value 2 (BE v)).
Proof.
  intros Hv. pose proof (value_word 2 (BE v)) as Hw. change (width 2) with 16 in Hw.
  assert (value 2 (be_not 2 (of_cpu 2 1023)) = 64512) as Hm by (vm_compute; reflexivity).
  assert (Hland : forall x, in_word 16 x -> Z.land x 64512 = x / 1024 * 1024).
  { intros x Hx. change 64512 with (Z.shiftl (Z.ones 6) 10).
    apply Z.bits_inj'. intros i Hi. change 1024 with (2 ^ 10). rewrite <- Z.shiftl_mul_pow2, <- Z.shiftr_div_pow2 by lia.
    rewrite Z.land_spec. destruct (Z.lt_ge_cases i 10) as [Hlt|Hge].
    - by rewrite !Z.shiftl_spec_low, andb_false_r.
    - rewrite !Z.shiftl_spec, Z.shiftr_spec by lia. rewrite Z.sub_add.
      destruct (Z.lt_ge_cases i 16).
      + rewrite Z.ones_spec_low by lia. apply andb_true_r.
      + rewrite <- (Z.mod_small x (2 ^ 16)) by exact Hx. by rewrite Z.mod_pow2_bits_high by lia. }
  set (b := be_and 2 (BE v) (be_not 2 (of_cpu 2 1023))).
  assert (Hb : value 2 b = value 2 (BE v) / 1024 * 1024).
  { unfold b, be_and. rewrite Hm, value_of_cpu, Hland; [done|done|]. rewrite Hland by done. unfold in_word in *. change (2 ^ width 2) with 65536. change (2 ^ 16) with 65536 in *. zlia. }
  assert (Hbw : in_word 16 (data_ b)) by apply swap_word.
  pose proof (value_0 2 b Hbw) as H0. rewrite Hb in H0. unfold be_bool. unfold in_word in Hw.
  destruct (Z.eqb_spec (data_ b) 0) as [Hd|Hd], (Z.leb_spec 1024 (value 2 (BE v))) as [Hle|Hlt]; try done; exfalso.
  - apply H0 in Hd. zlia.
  - apply Hd, H0. zlia.
Qed.

Lemma choose_spec src r min range : endpoint_ok src -> 0 <= begin r < end_ r /\ end_ r <= 65535 ->
  choose src r = Use min range ->
  0 <= min /\ 0 < range /\ min + range <= 2 ^ 16 /\ forall prt, min <= prt < min + range -> allowed src r prt.
Proof.
  intros (_ & Hp & _) Hr. unfold choose, allowed. change (2 ^ 16) with 65536.
  destruct (suspended r) eqn:Hsus; [done|].
  destruct (protocol src =? kIcmp).
  { intros [= <- <-]. unfold wrap. change (2 ^ 16) with 65536. rewrite Z.mod_small by lia.
    split; [lia|]. split; [lia|]. split; [lia|]. intros prt ?. split; [done|lia]. }
  destruct (be_eq _ _); [done|]. rewrite be_unprivileged by done.
  destruct (1024 <=? value 2 (BE (port src))).
  - destruct (Z.leb_spec (end_ r) 1024); [done|]. intros [= <- <-].
    rewrite (wrap_small 16) by (unfold in_word; lia).
    split; [lia|]. split; [lia|]. split; [lia|]. intros prt ?. split; [done|lia].
  - destruct (Z.leb_spec 1023 (begin r)); [done|]. intros [= <- <-].
    rewrite (wrap_small 16) by (unfold in_word; lia).
    split; [lia|]. split; [lia|]. split; [lia|]. intros prt ?. split; [done|lia].
Qed.

Definition same_config s s' : Prop := ext_addrs_ s' = ext_addrs_ s /\ port_ranges_ s' = port_ranges_ s.

(** A successful [CreateNewEntry], and one that finds no port. *)
Definition created s s' (src : Endpoint) (now : Z) (a : Z) (ranges : list PortRange) (r : option nat) : Prop :=
  match r with
  | None => map_ s' = map_ s
  | Some ptr => exists rng prt, rng ∈ ranges /\ allowed src rng prt /\
      installed now (map_ s) (map_ s') src (MkEndpoint a (data_ (of_cpu 2 prt)) (protocol src)) (Some ptr)
  end.

Lemma try_ranges_spec s src a now ranges : ht_inv (map_ s) -> paired (ext_addrs_ s) (ht_map (map_ s)) ->
  endpoint_ok src -> in_word 32 a -> ht_map (map_ s) !! src = None ->
  addr src ∉ ext_addrs_ s -> a ∈ ext_addrs_ s -> refused s = false ->
  Forall (fun r => 0 <= begin r < end_ r /\ end_ r <= 65535) ranges ->
  exists s' r, try_ranges garbage s src a now ranges = Some (s', r) /\ same_config s s' /\
    (refused s' = false -> created s s' src now a ranges r).
Proof.
  intros HI Hpair Hsrc Ha Hnone Hint Hext Href HF. revert s HI Hpair Hnone Hint Hext Href.
  induction HF as [|rg ranges Hrg HF IH]; intros s HI Hpair Hnone Hint Hext Href; cbn [try_ranges].
  { by exists s, None. }
  assert (Hweak : forall s0 s' r, same_config s s0 -> map_ s0 = map_ s -> same_config s0 s' ->
    created s0 s' src now a ranges r -> same_config s s' /\ created s s' src now a (rg :: ranges) r).
  { intros s0 s' r [Hc1 Hc2] Hm [Hc3 Hc4] Hcr. split; [split; congruence|]. unfold created in *. rewrite <- Hm.
    destruct r as [ptr|]; [|done]. destruct Hcr as (rng & prt & Hin & Hrest). exists rng, prt. split; [by right|done]. }
  destruct (choose src rg) as [| |min range] eqn:Hch.
  - destruct (IH s) as (s' & r & Ht & Hc & Hcr); try done. exists s', r. split; [done|]. split; [done|].
    intros Hr. apply (Hweak s s' r); [done|done|done|by apply Hcr].
  - by exists s, None.
  - destruct (choose_spec src rg min range Hsrc Hrg Hch) as (Hmin & Hran & Hmax & Hallow).
    change (2 ^ 16) with 65536 in Hmax.
    pose proof (GetRange_range (rng_ s) range ltac:(lia)) as Hx. destruct (GetRange (rng_ s) range) as [seed x].
    cbn [snd] in Hx. cbv zeta.
    rewrite (wrap_small 16 (min + x)) by (unfold in_word; lia).
    destruct (probe_spec (kMaxTrials - 1) (map_ (with_rng s seed)) (ext_addrs_ s) src a now min range (min + x) (min + x))
      as (out & Hprobe & Hout); try done; try lia.
    rewrite Hprobe. cbn [mbind option_bind]. destruct out as [[[m' full] p]|].
    + destruct Hout as (prt & Hprt & Hinst). do 2 eexists. split; [done|]. split; [done|]. cbn [refused with_rng].
      rewrite Href. cbn [orb]. intros Hfull. specialize (Hinst Hfull).
      destruct p as [ptr|]; [|by destruct Hinst as (f0 & ptr & ? & _)].
      exists rg, prt. split; [by left|]. split; [by apply Hallow|done].
    + destruct (IH (with_rng s seed)) as (s' & r & Ht & Hc & Hcr); try done. exists s', r. split; [done|].
      split; [done|]. intros Hr. apply (Hweak (with_rng s seed) s' r); [done|done|done|by apply Hcr].
Qed.

Lemma CreateNewEntry_spec s src now : Inv s -> endpoint_ok src -> ht_map (map_ s) !! src = None ->
  addr src ∉ ext_addrs_ s ->
  let i := Z.to_nat (rte_hash_crc (le_store 4 (addr src)) 0 mod Z.of_nat (length (ext_addrs_ s))) in
  exists s' r a ranges, CreateNewEntry rte_hash_crc garbage s src now = Some (s', r) /\ same_config s s' /\
    ext_addrs_ s !! i = Some a /\ port_ranges_ s !! i = Some ranges /\
    (refused s' = false -> created s s' src now a ranges r).
Proof.
  intros [[Hlen Hsome Haddr Hranges] HI Hpair Href] Hsrc Hnone Hint i. unfold CreateNewEntry.
  destruct (Nat.eqb_spec (length (ext_addrs_ s)) 0) as [H0|H0]; [by apply nil_length_inv in H0|].
  fold i. assert (i < length (ext_addrs_ s))%nat as Hi.
  { unfold i. pose proof (Z.mod_pos_bound (rte_hash_crc (le_store 4 (addr src)) 0) (Z.of_nat (length (ext_addrs_ s)))). lia. }
  destruct (lookup_lt_is_Some_2 (ext_addrs_ s) i Hi) as [a Ha].
  destruct (lookup_lt_is_Some_2 (port_ranges_ s) i) as [ranges Hrs]; [lia|].
  rewrite Ha, Hrs. cbn [mbind option_bind].
  destruct (try_ranges_spec s src a now ranges) as (s' & r & Ht & Hc & Hcr); try done.
  - by apply (Forall_lookup_1 _ _ _ _ Haddr Ha).
  - by eapply list_elem_of_lookup_2.
  - by apply (Forall_lookup_1 _ _ _ _ Hranges Hrs).
  - by exists s', r, a, ranges.
Qed.

(** ** Packets *)

Lemma installed_paired ext now m m' src e p : paired ext (ht_map m) -> ht_map m !! src = None ->
  addr src ∉ ext -> addr e ∈ ext -> protocol e = protocol src -> installed now m m' src e p -> paired ext (ht_map m').
Proof.
  intros Hpair Hnone Hsrc Hext Hpro (f0 & ptr & _ & Hfree & _ & -> & _).
  assert (Hne : src <> e) by (intros ->; done).
  assert (Hf0 : f0 !! src = None /\ f0 !! e = None /\ paired ext f0).
  { destruct Hfree as [[Hn ->]|(er & ef & Her & Hef & _ & ->)]; [done|].
    split; [by rewrite !lookup_delete_None; auto|]. split; [by rewrite lookup_delete_eq|].
    destruct (Hpair e er Her) as (ef' & Hef' & Hback & _). rewrite Hef in Hef'. injection Hef' as <-.
    intros k v [Hk1 [Hk2 Hk]%lookup_delete_Some]%lookup_delete_Some.
    destruct (Hpair k v Hk) as (v' & Hv' & Hb & Hrest). exists v'. split; [|done].
    rewrite !lookup_delete_ne; [done| |]; intros Heq.
    - rewrite <- Heq in Hv'. rewrite Hef in Hv'. injection Hv' as <-. by rewrite Hback in Hb.
    - rewrite <- Heq in Hv'. rewrite Her in Hv'. injection Hv' as <-. by rewrite Hb in Hk2. }
  destruct Hf0 as (Hs0 & He0 & Hp0). intros k v. rewrite lookup_insert_Some.
  intros [[<- <-]|[Hk1 [[<- <-]|[Hk2 Hk]]%lookup_insert_Some]].
  - cbn. exists (MkEntry src garbage). rewrite lookup_insert_ne, lookup_insert_eq by done. split; [done|].
    split; [done|]. split; [done|tauto].
  - cbn. exists (MkEntry e garbage). rewrite lookup_insert_eq. split; [done|]. split; [done|]. split; [done|tauto].
  - destruct (Hp0 k v Hk) as (v' & Hv' & Hb & Hrest). exists v'. split; [|done].
    rewrite !lookup_insert_ne; [done| |]; intros Heq; rewrite <- Heq in Hv'; congruence.
Qed.

(** An unexpired mapping of another internal endpoint is not taken away. *)
Lemma installed_kept ext now m m' src e p x v : paired ext (ht_map m) -> installed now m m' src e p ->
  ht_map m !! src = None -> addr e ∈ ext -> ht_map m !! x = Some v -> addr x ∉ ext ->
  u64 (now - last_refresh v) <= kTimeOutNs -> ht_map m' !! x = Some v.
Proof.
  intros Hpair (f0 & ptr & _ & Hfree & _ & -> & _) Hnone Hext Hx Hint Hfresh.
  assert (src <> x) by (intros ->; congruence). assert (e <> x) by (intros ->; done).
  rewrite !lookup_insert_ne by done. destruct Hfree as [[_ ->]|(er & ef & Her & Hef & Hexp & ->)]; [done|].
  rewrite !lookup_delete_ne; [done| |done]. intros Heq. rewrite Heq, Hx in Hef. injection Hef as <-. lia.
Qed.

(** Refreshing a mapping. *)
Lemma refresh_paired ext f k e now : paired ext f -> f !! k = Some e ->
  paired ext (<[k := MkEntry (endpoint e) now]> f).
Proof.
  intros Hpair Hk k' v. rewrite lookup_insert_Some. destruct (Hpair k e Hk) as (e' & He' & Hb & Hpro & Hx).
  assert (Hself : endpoint e <> k) by (intros Heq; rewrite Heq in Hx; tauto).
  intros [[<- <-]|[Hne Hk']]; cbn [endpoint].
  - exists e'. by rewrite lookup_insert_ne.
  - destruct (Hpair k' v Hk') as (v' & Hv' & Hb' & Hpro' & Hx').
    destruct (decide (endpoint v = k)) as [Heq|Hn].
    + rewrite Heq in *. rewrite lookup_insert_eq. rewrite Hk in Hv'. injection Hv' as <-. eexists. by split.
    + exists v'. by rewrite lookup_insert_ne.
Qed.

(** What a packet of an internal endpoint does. *)
Definition forwarded (now : Z) s s' (l4 : nat) (before : Endpoint) (out : option bytes) : Prop :=
  match out with
  | Some p' => exists ext, ht_map (map_ s') !! before = Some (MkEntry ext now) /\ addr ext ∈ ext_addrs_ s /\
      framed p' l4 /\ ExtractEndpoint p' (Z.of_nat l4) kForward = Some (Some ext) /\
      (forall e, ht_map (map_ s) !! before = Some e -> endpoint e = ext)
  | None => ht_map (map_ s) !! before = None /\ ht_map (map_ s') = ht_map (map_ s)
  end.

(** What a packet from outside does. *)
Definition returned s s' (l4 : nat) (before : Endpoint) (out : option bytes) : Prop :=
  s' = s /\
  match ht_map (map_ s) !! before with
  | Some e => exists p', out = Some p' /\ framed p' l4 /\ ExtractEndpoint p' (Z.of_nat l4) kReverse = Some (Some (endpoint e))
  | None => out = None
  end.

(** The mappings of internal endpoints that have not expired stay, as they are or refreshed. *)
Definition kept (now : Z) s s' : Prop := forall x e, ht_map (map_ s) !! x = Some e -> addr x ∉ ext_addrs_ s ->
  u64 (now - last_refresh e) <= kTimeOutNs ->
  exists e', ht_map (map_ s') !! x = Some e' /\ endpoint e' = endpoint e /\ (e' = e \/ last_refresh e' = now).

Lemma Inv_with_map s m f : Inv s -> ht_inv m -> ht_map m = f -> paired (ext_addrs_ s) f -> Inv (with_map s m).
Proof. intros [[] ? ? ?] HI <- Hp. by split. Qed.

(** The end of the loop body for a forward packet, from the state [s1] in which the
    mapping is there. *)
Lemma emit_forward s1 now p l4 before ptr e : Inv s1 -> framed p l4 ->
  ExtractEndpoint p (Z.of_nat l4) kForward = Some (Some before) -> ht_points (map_ s1) ptr (before, e) ->
  ht_map (map_ s1) !! before = Some e ->
  let s2 := with_map s1 (ht_assign (map_ s1) ptr (MkEntry (endpoint e) now)) in
  exists p', Stamp kForward p (Z.of_nat l4) before (endpoint (ht_entry (map_ s2) ptr).2) = Some p' /\ Inv s2 /\
    ht_map (map_ s2) = <[before := MkEntry (endpoint e) now]> (ht_map (map_ s1)) /\
    framed p' l4 /\ ExtractEndpoint p' (Z.of_nat l4) kForward = Some (Some (endpoint e)).
Proof.
  intros HI Hfr Hext Hpt Hm s2. pose proof (n_table s1 HI) as Ht. pose proof (n_paired s1 HI) as Hpair.
  destruct (ht_assign_spec (map_ s1) ptr before e (MkEntry (endpoint e) now) Ht Hpt) as (Ht2 & Hm2 & Hpt2).
  destruct (Hpair before e Hm) as (e' & He' & _ & Hpro & _).
  cbn [s2 with_map map_]. rewrite (ht_points_entry _ _ _ Hpt2). cbn [snd endpoint].
  destruct (Stamp_extract kForward p l4 before (endpoint e) Hfr Hext (ht_keys_ok _ _ _ Ht He') Hpro)
    as (p' & -> & Hfr' & _ & Hext'). exists p'. split; [done|]. split; [|done].
  apply (Inv_with_map s1 _ _ HI Ht2 Hm2). by apply refresh_paired.
Qed.

(** A packet the module may get: framed, and when it comes from inside, from an address
    that is not one of the external ones. *)
Definition acceptable s (dir : Direction) (p : bytes) (l4 : nat) : Prop :=
  framed p l4 /\ (dir = kForward ->
    forall e, ExtractEndpoint p (Z.of_nat l4) dir = Some (Some e) -> addr e ∉ ext_addrs_ s).

Definition processed (dir : Direction) (now : Z) s s' (p : bytes) (l4 : nat) (out : option bytes) : Prop :=
  match ExtractEndpoint p (Z.of_nat l4) dir with
  | Some (Some before) =>
      match dir with
      | kForward => forwarded now s s' l4 before out
      | kReverse => returned s s' l4 before out
      end
  | _ => s' = s /\ out = None
  end.

Lemma kept_refl now s s' : ht_map (map_ s') = ht_map (map_ s) -> kept now s s'.
Proof. intros He x e Hx _ Hf. exists e. rewrite He. auto. Qed.

Lemma reverse_spec now s p l4 before : Inv s -> framed p l4 ->
  ExtractEndpoint p (Z.of_nat l4) kReverse = Some (Some before) ->
  exists out, process_packet rte_hash_crc garbage kReverse now s p = Some (s, out) /\ returned s s l4 before out.
Proof.
  intros HI Hfr Hext. unfold process_packet. rewrite (fr_at p l4 Hfr). cbn [mbind option_bind]. rewrite Hext.
  cbn [mbind option_bind]. destruct (extract_defined kReverse p l4 Hfr) as (r & Hr & Hok).
  rewrite Hext in Hr. injection Hr as <-. specialize (Hok before eq_refl). unfold returned.
  pose proof (ht_find_spec (map_ s) before (n_table s HI) Hok) as Hf.
  destruct (ht_find (map_ s) before) as [ptr|]; cbn [mbind option_bind]; [|exists None; by rewrite Hf].
  destruct Hf as (e & Hpt & Hm). rewrite Hm.
  destruct (n_paired s HI before e Hm) as (e' & He' & _ & Hpro & _).
  rewrite (ht_points_entry _ _ _ Hpt). cbn [snd].
  destruct (Stamp_extract kReverse p l4 before (endpoint e) Hfr Hext (ht_keys_ok _ _ _ (n_table s HI) He') Hpro)
    as (p' & -> & Hfr' & _ & Hext'). exists (Some p'). split; [done|]. split; [done|]. by exists p'.
Qed.

Lemma forward_spec now s p l4 before : Inv s -> framed p l4 ->
  ExtractEndpoint p (Z.of_nat l4) kForward = Some (Some before) -> addr before ∉ ext_addrs_ s ->
  (ht_map (map_ s) !! before = None /\
   exists s' r, CreateNewEntry rte_hash_crc garbage s before now = Some (s', r) /\ refused s' = true) \/
  exists s' out, process_packet rte_hash_crc garbage kForward now s p = Some (s', out) /\ same_config s s' /\
    Inv s' /\ forwarded now s s' l4 before out /\ kept now s s'.
Proof.
  intros HI Hfr Hext Hint. unfold process_packet. rewrite (fr_at p l4 Hfr). cbn [mbind option_bind]. rewrite Hext.
  cbn [mbind option_bind]. destruct (extract_defined kForward p l4 Hfr) as (r & Hr & Hok).
  rewrite Hext in Hr. injection Hr as <-. specialize (Hok before eq_refl).
  pose proof (ht_find_spec (map_ s) before (n_table s HI) Hok) as Hf.
  destruct (ht_find (map_ s) before) as [ptr|]; cbn [mbind option_bind].
  - destruct Hf as (e & Hpt & Hm). right. rewrite (ht_points_entry _ _ _ Hpt). cbn [snd].
    destruct (emit_forward s now p l4 before ptr e HI Hfr Hext Hpt Hm) as (p' & Hst & HI2 & Hm2 & Hfr' & Hext').
    cbn zeta in Hst. cbn [with_map map_] in Hst |- *. rewrite Hst. cbn [mbind option_bind].
    do 2 eexists. split; [done|]. split; [done|]. split; [done|]. cbn [forwarded with_map map_] in *. split.
    + exists (endpoint e). rewrite Hm2, lookup_insert_eq. split; [done|]. split; [|split; [done|split; [done|congruence]]].
      destruct (n_paired s HI before e Hm) as (e' & He' & Hb & _ & Hx). destruct (decide (addr (endpoint e) ∈ ext_addrs_ s)); tauto.
    + intros x v Hx _ Hfresh. cbn [with_map map_]. rewrite Hm2. destruct (decide (before = x)) as [<-|Hne].
      * rewrite lookup_insert_eq. rewrite Hm in Hx. injection Hx as <-. eexists. split; [done|]. split; [done|]. by right.
      * rewrite lookup_insert_ne by done. exists v. auto.
  - destruct (CreateNewEntry_spec s before now HI Hok Hf Hint)
      as (s1 & r & a & ranges & Hcr & [Hc1 Hc2] & Ha & Hrs & Hpost).
    destruct (refused s1) eqn:Href; [left; split; [done|by exists s1, r]|]. right. specialize (Hpost eq_refl).
    rewrite Hcr. cbn [mbind option_bind]. destruct r as [ptr|].
    2: { exists s1, None. cbn in Hpost. split; [done|]. split; [by split|].
         assert (Inv s1) as HI1.
         { destruct HI as [[X1 X2 X3 X4] X5 X6 X7]. split; [split; by rewrite ?Hc1, ?Hc2|by rewrite Hpost|by rewrite Hc1, Hpost|done]. }
         split; [done|]. split; [split; [done|by rewrite Hpost]|]. apply kept_refl. by rewrite Hpost. }
    destruct Hpost as (rng & prt & _ & _ & Hinst).
    set (ep := MkEndpoint a (data_ (of_cpu 2 prt)) (protocol before)) in *.
    assert (Hext_in : addr ep ∈ ext_addrs_ s) by (by eapply list_elem_of_lookup_2).
    pose proof (installed_paired _ _ _ _ _ _ _ (n_paired s HI) Hf Hint Hext_in eq_refl Hinst) as Hpair1.
    pose proof Hinst as (f0 & ptr' & [= <-] & Hfree & HI1t & Hm1 & Hpt1).
    assert (HI1 : Inv s1).
    { destruct HI as [[X1 X2 X3 X4] X5 X6 X7]. split; [split; by rewrite ?Hc1, ?Hc2|done|by rewrite Hc1|done]. }
    assert (Hbm : ht_map (map_ s1) !! before = Some (MkEntry ep garbage)) by (by rewrite Hm1, lookup_insert_eq).
    rewrite (ht_points_entry _ _ _ Hpt1). cbn [snd].
    destruct (emit_forward s1 now p l4 before ptr _ HI1 Hfr Hext Hpt1 Hbm) as (p' & Hst & HI2 & Hm2 & Hfr' & Hext').
    cbn zeta in Hst. cbn [with_map map_] in Hst |- *. rewrite Hst. cbn [mbind option_bind].
    do 2 eexists. split; [done|]. split; [by split|]. split; [done|]. cbn [forwarded with_map map_ endpoint] in *. split.
    + exists ep. rewrite Hm2, lookup_insert_eq. do 4 (split; [done|]). intros e He. congruence.
    + intros x v Hx Hxi Hfresh. cbn [with_map map_]. rewrite Hm2.
      assert (before <> x) by (intros ->; congruence). rewrite lookup_insert_ne by done. exists v. split; [|split; [done|by left]].
      by apply (installed_kept _ _ _ _ _ _ _ _ _ (n_paired s HI) Hinst).
Qed.

(** ** Initialisation *)
Lemma add_addresses_spec s args s' : add_addresses s args = (s', inr tt) ->
  Forall (fun a => existsb malformed (port_ranges a) = false /\ Forall (fun r => 0 <= arg_begin r) (port_ranges a)) args ->
  let ok s := length (port_ranges_ s) = length (ext_addrs_ s) /\ Forall (in_word 32) (ext_addrs_ s) /\
    Forall (Forall (fun r => 0 <= begin r < end_ r /\ end_ r <= 65535)) (port_ranges_ s) in
  ok s -> ok s' /\ map_ s' = map_ s /\ refused s' = refused s.
Proof.
  intros Hadd HF ok Hok. revert s Hok Hadd. induction HF as [|a args [Hmal Hnn] HF IH]; intros s Hok; cbn [add_addresses].
  { by intros [= <-]. }
  destruct (ParseIpv4Address (ext_addr a) (BE 0)) as [b x] eqn:Hp. destruct b; [|done].
  intros Hadd. eapply IH in Hadd as (H1 & H2 & H3); [by split|].
  destruct Hok as (Hl & Ha & Hr). split; [cbn; rewrite !length_app; cbn; lia|]. cbn. split; apply Forall_app; (split; [done|]); constructor; [|done| |done].
  - unfold ParseIpv4Address in Hp. destruct (scan_dotted 4 (ext_addr a)) as [|? [|? [|? [|? [|]]]]]; try done.
    destruct (_ || _ || _ || _); [done|]. injection Hp as <-. apply swap_word.
  - unfold make_ranges. destruct (port_ranges a) as [|r rs]; [repeat constructor; cbn; lia|].
    apply Forall_forall. intros r' (r0 & <- & Hin)%list_elem_of_In%in_map_iff.
    assert (malformed r0 = false) as Hm.
    { destruct (malformed r0) eqn:Hm; [|done]. assert (existsb malformed (r :: rs) = true); [|congruence].
      apply existsb_exists. by exists r0. }
    rewrite Forall_forall in Hnn. specialize (Hnn r0 ltac:(by apply list_elem_of_In)).
    unfold malformed in Hm. rewrite !orb_false_iff, Z.leb_gt, !Z.ltb_ge in Hm. cbn.
    rewrite !wrap_small by (unfold in_word; lia). lia.
Qed.

(** A module that was initialised on an empty table is in order. *)
Lemma nat_Init_Inv m seed args s : ht_inv m -> ht_map m = ∅ ->
  Forall (fun a => Forall (fun r => 0 <= arg_begin r) (port_ranges a)) args ->
  Init (MkNAT [] [] m seed false) args = (s, inr tt) -> Inv s.
Proof.
  intros HI Hm Hnn. unfold Init. destruct (existsb _ args) eqn:Hmal; [done|].
  destruct (add_addresses _ args) as [s1 [|[]]] eqn:Hadd; [done|].
  destruct (add_addresses_spec _ _ _ Hadd) as ((Hl & Ha & Hr) & Hm1 & Href).
  { apply Forall_forall. intros a Hin. split; [|by rewrite Forall_forall in Hnn; apply Hnn].
    destruct (existsb malformed (port_ranges a)) eqn:Hx; [|done].
    assert (existsb (fun a => existsb malformed (port_ranges a)) args = true); [|congruence].
    apply existsb_exists. exists a. split; [by apply list_elem_of_In|done]. }
  { by split. }
  destruct (bool_decide_reflect (ext_addrs_ s1 = [])) as [|Hne]; [done|]. intros [= <-].
  pose proof (merge_sort_Permutation value_le (ext_addrs_ s1)) as Hp.
  split; cbn [ext_addrs_ port_ranges_ map_ refused]; [split; cbn [ext_addrs_ port_ranges_]| | |done].
  - by rewrite (Permutation_length Hp).
  - intros Hnil. apply Hne. rewrite Hnil in Hp. by apply Permutation_nil in Hp.
  - by rewrite Hp.
  - done.
  - by rewrite Hm1.
  - rewrite Hm1. cbn [map_]. rewrite Hm. intros k e. by rewrite lookup_empty.
Qed.

(** ** Batches *)
Lemma process_packet_spec dir now s p l4 : Inv s -> acceptable s dir p l4 ->
  (exists before s' r, dir = kForward /\ ExtractEndpoint p (Z.of_nat l4) kForward = Some (Some before) /\
     ht_map (map_ s) !! before = None /\
     CreateNewEntry rte_hash_crc garbage s before now = Some (s', r) /\ refused s' = true) \/
  exists s' out, process_packet rte_hash_crc garbage dir now s p = Some (s', out) /\ same_config s s' /\
    Inv s' /\ processed dir now s s' p l4 out /\ kept now s s'.
Proof.
  intros HI [Hfr Hint]. destruct (extract_defined dir p l4 Hfr) as (r & Hr & _). unfold processed. rewrite Hr.
  destruct r as [before|].
  - destruct dir.
    + destruct (forward_spec now s p l4 before HI Hfr Hr (Hint eq_refl before Hr)) as [(Hnone & s' & r & H)|H]; [left|by right].
      exists before, s', r. split; [done|]. by split.
    + right. destruct (reverse_spec now s p l4 before HI Hfr Hr) as (out & Hp & Ho). exists s, out.
      split; [done|]. split; [done|]. split; [done|]. split; [done|]. by apply kept_refl.
  - right. exists s, None. unfold process_packet. rewrite (fr_at p l4 Hfr). cbn [mbind option_bind]. rewrite Hr.
    split; [done|]. split; [done|]. split; [done|]. split; [done|]. by apply kept_refl.
Qed.

Lemma kept_trans now s1 s2 s3 : same_config s1 s2 -> kept now s1 s2 -> kept now s2 s3 -> kept now s1 s3.
Proof.
  intros [Hc _] H12 H23 x e Hx Hint Hf. destruct (H12 x e Hx Hint Hf) as (e2 & Hx2 & He2 & Hf2).
  rewrite <- Hc in Hint. destruct (H23 x e2 Hx2 Hint) as (e3 & Hx3 & He3 & Hf3).
  { destruct Hf2 as [->|Hf2]; [done|]. rewrite Hf2, Z.sub_diag. done. }
  exists e3. split; [done|]. split; [congruence|]. destruct Hf3 as [->|Hf3]; [|by right].
  destruct Hf2 as [->|Hf2]; [by left|by right].
Qed.

Definition acceptable_batch s (dir : Direction) (pkts : list bytes) : Prop :=
  Forall (fun p => exists l4, acceptable s dir p l4) pkts.

Lemma acceptable_same s s' dir pkts : same_config s s' -> acceptable_batch s dir pkts -> acceptable_batch s' dir pkts.
Proof. intros [Hc _]. unfold acceptable_batch, acceptable. by rewrite Hc. Qed.

(** No two endpoints share the endpoint they are translated to. *)
Definition one_to_one s : Prop := forall k1 k2 e1 e2,
  ht_map (map_ s) !! k1 = Some e1 -> ht_map (map_ s) !! k2 = Some e2 -> endpoint e1 = endpoint e2 -> k1 = k2.

Lemma paired_one_to_one s : Inv s -> one_to_one s.
Proof.
  intros HI k1 k2 e1 e2 H1 H2 He. destruct (n_paired s HI k1 e1 H1) as (e' & Hb & <- & _).
  destruct (n_paired s HI k2 e2 H2) as (e'' & Hb' & <- & _). rewrite He in Hb. congruence.
Qed.

(** C16: A batch of complete TCP, UDP or ICMP packets, in either direction and from inside not from an external address, leaves
    the module in order: no access
    goes wrong, every mapping has its reverse, no two endpoints share a translation, the
    configuration is untouched, and no mapping of an internal endpoint that has not expired is taken away.  The one
    exception is that the table refuses an insertion while a packet of the batch, from an endpoint without a
    mapping, is given one; the packets before it have been served as said. *)
Theorem nat_batch_invariant dir now s pkts : Inv s -> acceptable_batch s dir pkts ->
  (exists s' outs, DoProcessBatch rte_hash_crc garbage dir now s pkts = Some (s', outs) /\
    Inv s' /\ one_to_one s' /\ same_config s s' /\ kept now s s' /\ (length outs <= length pkts)%nat) \/
  (exists n p l4 s1 outs before s2 r, dir = kForward /\ pkts !! n = Some p /\ framed p l4 /\
    DoProcessBatch rte_hash_crc garbage dir now s (take n pkts) = Some (s1, outs) /\
    Inv s1 /\ one_to_one s1 /\ same_config s s1 /\ kept now s s1 /\
    ExtractEndpoint p (Z.of_nat l4) kForward = Some (Some before) /\ ht_map (map_ s1) !! before = None /\
    CreateNewEntry rte_hash_crc garbage s1 before now = Some (s2, r) /\ refused s2 = true).
Proof.
  intros HI Hacc. revert s HI Hacc. induction pkts as [|p pkts IH]; intros s HI Hacc; cbn [DoProcessBatch].
  { left. exists s, []. split; [done|]. split; [done|]. split; [by apply paired_one_to_one|]. split; [done|].
    split; [by apply kept_refl|done]. }
  apply Forall_cons in Hacc as [[l4 Hp] Hacc].
  destruct (process_packet_spec dir now s p l4 HI Hp) as [(b & s2 & r & Hd & He & Hn & Hc & Hr)|(s1 & out & Hpp & Hsc & HI1 & _ & Hk)].
  { right. exists 0%nat, p, l4, s, [], b, s2, r. split; [done|]. split; [done|]. split; [apply Hp|]. split; [done|]. split; [done|].
    split; [by apply paired_one_to_one|]. split; [done|]. split; [by apply kept_refl|]. done. }
  rewrite Hpp. cbn [mbind option_bind].
  destruct (IH s1 HI1 (acceptable_same _ _ _ _ Hsc Hacc))
    as [(s' & outs & -> & HI' & H11 & Hsc' & Hk' & Hl)|(n & p' & l4' & s3 & outs & b & s2 & r & Hd & Hn & Hfr & Hb & HI3 & H13 & Hsc3 & Hk3 & Hrest)].
  - left. cbn [mbind option_bind]. do 2 eexists. split; [done|]. split; [done|]. split; [done|].
    split; [destruct Hsc, Hsc'; split; congruence|]. split; [by eapply kept_trans|]. destruct out; cbn; lia.
  - right. exists (S n), p', l4'. cbn [take DoProcessBatch]. rewrite Hpp. cbn [mbind option_bind]. rewrite Hb.
    cbn [mbind option_bind]. do 5 eexists. split; [done|]. split; [done|]. split; [done|]. split; [done|]. split; [done|]. split; [done|].
    split; [destruct Hsc, Hsc3; split; congruence|]. split; [by eapply kept_trans|]. exact Hrest.
Qed.

Lemma process_refused dir now s p l4 before s1 r s' out : Inv s -> framed p l4 ->
  ExtractEndpoint p (Z.of_nat l4) dir = Some (Some before) -> dir = kForward -> ht_map (map_ s) !! before = None ->
  CreateNewEntry rte_hash_crc garbage s before now = Some (s1, r) -> refused s1 = true ->
  process_packet rte_hash_crc garbage dir now s p = Some (s', out) -> refused s' = true.
Proof.
  intros HI Hfr Hext -> Hnone Hc Href. unfold process_packet. rewrite (fr_at p l4 Hfr). cbn [mbind option_bind].
  rewrite Hext. cbn [mbind option_bind]. destruct (extract_defined kForward p l4 Hfr) as (r' & Hr & Hok).
  rewrite Hext in Hr. injection Hr as <-.
  pose proof (ht_find_spec (map_ s) before (n_table s HI) (Hok before eq_refl)) as Hf.
  destruct (ht_find (map_ s) before) as [ptr|]; [destruct Hf as (e & _ & Hm); congruence|].
  rewrite Hc. cbn [mbind option_bind]. destruct r as [ptr|]; [|by intros [= <- _]].
  cbn zeta. destruct (Stamp _ _ _ _ _); cbn [mbind option_bind]; [|done]. by intros [= <- _].
Qed.

(** Once the table has refused an insertion the observer remembers it. *)
Lemma try_ranges_sticky s src a now ranges s' r : try_ranges garbage s src a now ranges = Some (s', r) -> refused s' = false -> refused s = false.
Proof.
  revert s. induction ranges as [|rg ranges IH]; intros s; cbn [try_ranges]; [by intros [= <- _]|].
  destruct (choose src rg) as [| |min range]; [apply IH|by intros [= <- _]|]. destruct (GetRange (rng_ s) range) as [seed x].
  destruct (probe _ _ _ _ _ _ _ _ _ _) as [[[[m full] q]|]|]; cbn [mbind option_bind]; [|by apply (IH (with_rng s seed))|done].
  intros [= <- _]. cbn [refused with_rng]. by intros [? _]%orb_false_iff.
Qed.

Lemma process_sticky dir now s p s' out : process_packet rte_hash_crc garbage dir now s p = Some (s', out) ->
  refused s' = false -> refused s = false.
Proof.
  unfold process_packet. destruct (l4_at p) as [l4|]; [|done]. cbn [mbind option_bind].
  destruct (ExtractEndpoint p l4 dir) as [[before|]|]; cbn [mbind option_bind]; [|by intros [= <- _]|done].
  assert (Hemit : forall s0 ptr, (p' ← Stamp dir p l4 before (endpoint (ht_entry (map_ match dir with
      | kForward => with_map s0 (ht_assign (map_ s0) ptr (MkEntry (endpoint (ht_entry (map_ s0) ptr).2) now)) | kReverse => s0 end) ptr).2);
      Some (match dir with
      | kForward => with_map s0 (ht_assign (map_ s0) ptr (MkEntry (endpoint (ht_entry (map_ s0) ptr).2) now)) | kReverse => s0 end, Some p'))
      = Some (s', out) -> refused s' = false -> refused s0 = false).
  { intros s0 ptr. destruct (Stamp _ _ _ _ _); [|done]. cbn [mbind option_bind]. intros [= <- _]. by destruct dir. }
  destruct (ht_find (map_ s) before) as [ptr|]; cbn [mbind option_bind]; [apply Hemit|].
  destruct dir; [|by intros [= <- _]].
  destruct (CreateNewEntry _ _ s before now) as [[s0 [ptr|]]|] eqn:Hc; cbn [mbind option_bind]; [| |done].
  - intros Hp Hr. pose proof (Hemit s0 ptr Hp Hr) as Hr0. unfold CreateNewEntry in Hc. destruct (_ =? 0)%nat; [done|].
    destruct (ext_addrs_ s !! _); [|done]. cbn [mbind option_bind] in Hc. destruct (port_ranges_ s !! _); [|done]. by eapply try_ranges_sticky.
  - intros [= <- _] Hr. unfold CreateNewEntry in Hc. destruct (_ =? 0)%nat; [done|].
    destruct (ext_addrs_ s !! _); [|done]. cbn [mbind option_bind] in Hc. destruct (port_ranges_ s !! _); [|done]. by eapply try_ranges_sticky.
Qed.

(** What happens to the module: batches, each with its direction and time. *)
Fixpoint run_batches s (bs : list (Direction * Z * list bytes)) : option NAT :=
  match bs with
  | [] => Some s
  | (dir, now, pkts) :: bs => '(s, _) ← DoProcessBatch rte_hash_crc garbage dir now s pkts; run_batches s bs
  end.
(** In the order of time, between two points in time. *)
Fixpoint between (t limit : Z) (bs : list (Direction * Z * list bytes)) : Prop :=
  match bs with [] => True | (_, now, _) :: bs => t <= now <= limit /\ between now limit bs end.

Lemma batch_sticky dir now s pkts s' outs : DoProcessBatch rte_hash_crc garbage dir now s pkts = Some (s', outs) ->
  refused s' = false -> refused s = false.
Proof.
  revert s outs. induction pkts as [|q pkts IH]; intros s outs; cbn [DoProcessBatch]; [by intros [= <- _]|].
  destruct (process_packet _ _ dir now s q) as [[s3 o3]|] eqn:Hq; [|done]. cbn [mbind option_bind].
  destruct (DoProcessBatch _ _ dir now s3 pkts) as [[s4 o4]|] eqn:H4; [|done]. cbn [mbind option_bind]. intros [= <- _] Hr.
  eapply process_sticky; [exact Hq|]. by eapply IH.
Qed.

Lemma run_sticky bs s s' : run_batches s bs = Some s' -> refused s' = false -> refused s = false.
Proof.
  revert s. induction bs as [|[[d n] q] bs IH]; intros s; cbn [run_batches]; [by intros [= <-]|].
  destruct (DoProcessBatch _ _ d n s q) as [[s2 o]|] eqn:Hb; [|done]. cbn [mbind option_bind]. intros Hrun Hr.
  eapply batch_sticky; [exact Hb|]. by apply IH.
Qed.

Lemma batch_not_refused dir now s pkts s' outs : Inv s -> acceptable_batch s dir pkts ->
  DoProcessBatch rte_hash_crc garbage dir now s pkts = Some (s', outs) -> refused s' = false ->
  Inv s' /\ same_config s s' /\ kept now s s'.
Proof.
  revert s outs. induction pkts as [|p pkts IH]; intros s outs HI Hacc; cbn [DoProcessBatch].
  { intros [= <- _] _. split; [done|]. split; [done|]. by apply kept_refl. }
  apply Forall_cons in Hacc as [[l4 Hp] Hacc].
  destruct (process_packet _ _ dir now s p) as [[s1 out]|] eqn:Hpp; [|done]. cbn [mbind option_bind].
  destruct (DoProcessBatch _ _ dir now s1 pkts) as [[s2 outs2]|] eqn:Hb; [|done]. cbn [mbind option_bind]. intros [= <- _] Href.
  assert (Hr1 : refused s1 = false) by (by eapply batch_sticky).
  destruct (process_packet_spec dir now s p l4 HI Hp) as [(b & s3 & r & -> & He & Hn & Hc & Hr)|(s1' & out' & Hpp' & Hsc & HI1 & _ & Hk)].
  { rewrite (process_refused _ _ _ _ _ _ _ _ _ _ HI (proj1 Hp) He eq_refl Hn Hc Hr Hpp) in Hr1. done. }
  rewrite Hpp in Hpp'. injection Hpp' as <- <-.
  destruct (IH s1 outs2 HI1 (acceptable_same _ _ _ _ Hsc Hacc) Hb Href) as (HI2 & Hsc2 & Hk2).
  split; [done|]. split; [destruct Hsc, Hsc2; split; congruence|by eapply kept_trans].
Qed.

(** A mapping outlives what happens within the time-out of its last use. *)
Lemma run_batches_keep bs s s' t limit before ext : Inv s -> addr before ∉ ext_addrs_ s ->
  Forall (fun b => acceptable_batch s b.1.1 b.2) bs -> between t limit bs -> 0 <= t -> limit < 2 ^ 64 ->
  (exists e, ht_map (map_ s) !! before = Some e /\ endpoint e = ext /\ limit - kTimeOutNs <= last_refresh e <= t) ->
  run_batches s bs = Some s' -> refused s' = false ->
  Inv s' /\ exists e, ht_map (map_ s') !! before = Some e /\ endpoint e = ext.
Proof.
  revert s t. induction bs as [|[[dir now] pkts] bs IH]; intros s t HI Hint Hacc Hbt Ht Hlim (e & Hm & He & Hlr); cbn [run_batches].
  { intros [= <-] _. split; [done|]. by exists e. }
  destruct (DoProcessBatch _ _ dir now s pkts) as [[s1 outs]|] eqn:Hb; [|done]. cbn [mbind option_bind]. intros Hrun Href.
  destruct Hbt as [Hnow Hbt]. apply Forall_cons in Hacc as [Hp Hacc].
  assert (Hr1 : refused s1 = false) by (by eapply run_sticky).
  destruct (batch_not_refused dir now s pkts s1 outs HI Hp Hb Hr1) as (HI1 & Hsc & Hk).
  destruct (Hk before e Hm Hint) as (e1 & Hm1 & He1 & Hl1).
  { rewrite wrap_small by (unfold in_word, kTimeOutNs in *; lia). lia. }
  apply (IH s1 now); try done.
  - by rewrite (proj1 Hsc).
  - eapply Forall_impl; [exact Hacc|]. intros b Hb'. by eapply acceptable_same.
  - lia.
  - exists e1. split; [done|]. split; [congruence|]. unfold kTimeOutNs in *. destruct Hl1 as [->|Hl1]; lia.
Qed.

(** C17: A complete packet from inside, not from an external address, that leaves carries an external endpoint as its
    source; and a packet that comes back to this endpoint, whatever acceptable batches have been served in
    between, in the order of time and within the time-out of the first packet, is delivered to the internal endpoint the
    first one came from -- unless the table has refused an insertion. *)
Theorem nat_round_trip now now' s p l4 before s1 out bs s2 q l4' :
  Inv s -> acceptable s kForward p l4 ->
  process_packet rte_hash_crc garbage kForward now s p = Some (s1, Some out) ->
  ExtractEndpoint p (Z.of_nat l4) kForward = Some (Some before) ->
  0 <= now -> now + kTimeOutNs < 2 ^ 64 ->
  run_batches s1 bs = Some s2 -> Forall (fun b => acceptable_batch s b.1.1 b.2) bs -> between now (now + kTimeOutNs) bs ->
  refused s2 = false ->
  framed q l4' -> ExtractEndpoint q (Z.of_nat l4') kReverse = ExtractEndpoint out (Z.of_nat l4) kForward ->
  exists ext back, ExtractEndpoint out (Z.of_nat l4) kForward = Some (Some ext) /\ addr ext ∈ ext_addrs_ s /\
    process_packet rte_hash_crc garbage kReverse now' s2 q = Some (s2, Some back) /\
    ExtractEndpoint back (Z.of_nat l4') kReverse = Some (Some before).
Proof.
  intros HI [Hfr Hint] Hpp Hext Hnow Hlim Hrun Hacc Hbt Href Hfq Hq. pose proof (Hint eq_refl before Hext) as Hb0.
  assert (Hr1 : refused s1 = false) by (by eapply run_sticky).
  destruct (forward_spec now s p l4 before HI Hfr Hext Hb0)
    as [(Hn & s3 & r & Hc & H1)|(s3 & o & Hpp1 & Hsc & HI1 & Hfw & _)].
  { by rewrite (process_refused _ _ _ _ _ _ _ _ _ _ HI Hfr Hext eq_refl Hn Hc H1 Hpp) in Hr1. }
  rewrite Hpp in Hpp1. injection Hpp1 as <- <-. cbn [forwarded] in Hfw. destruct Hfw as (ext & Hm & Hin & _ & Hex & _).
  destruct (run_batches_keep bs s1 s2 now (now + kTimeOutNs) before ext HI1) as (HI2 & e2 & Hm2 & He2); try done.
  { by rewrite (proj1 Hsc). }
  { eapply Forall_impl; [exact Hacc|]. intros b Hb'. by eapply acceptable_same. }
  { eexists. split; [exact Hm|]. cbn. split; [done|]. lia. }
  rewrite Hex in Hq. destruct (n_paired s2 HI2 before _ Hm2) as (e' & He' & Hb & _). rewrite He2 in He'.
  destruct (reverse_spec now' s2 q l4' ext HI2 Hfq Hq) as (o & Hrev & _ & Ho). rewrite He' in Ho.
  destruct Ho as (back & -> & _ & Hback). exists ext, back. split; [done|]. split; [done|]. split; [done|].
  by rewrite Hback, Hb.
Qed.

(** A new mapping is given the external address that the hash of the internal address
    chooses, and a port of one of the ranges of this address which the protocol and the
    privilege of the internal port allow; the endpoint was free, or the mapping that held
    it has not been used for the timeout.  Nothing else changes in the table. *)
Theorem nat_allocation s src now s' ptr : Inv s -> endpoint_ok src -> ht_map (map_ s) !! src = None ->
  addr src ∉ ext_addrs_ s -> CreateNewEntry rte_hash_crc garbage s src now = Some (s', Some ptr) -> refused s' = false ->
  let i := Z.to_nat (rte_hash_crc (le_store 4 (addr src)) 0 mod Z.of_nat (length (ext_addrs_ s))) in
  exists a ranges rng prt f0, ext_addrs_ s !! i = Some a /\ port_ranges_ s !! i = Some ranges /\ rng ∈ ranges /\
    allowed src rng prt /\
    let ext := MkEndpoint a (data_ (of_cpu 2 prt)) (protocol src) in
    freed now (ht_map (map_ s)) ext f0 /\
    ht_map (map_ s') = <[src := MkEntry ext garbage]> (<[ext := MkEntry src garbage]> f0).
Proof.
  intros HI Hok Hn Hint Hc Href i.
  destruct (CreateNewEntry_spec s src now HI Hok Hn Hint) as (s1 & r & a & ranges & Hc1 & _ & Ha & Hrs & Hpost).
  rewrite Hc in Hc1. injection Hc1 as <- <-. specialize (Hpost Href) as (rng & prt & Hin & Hall & f0 & ptr' & _ & Hfr & _ & Hm & _).
  exists a, ranges, rng, prt, f0. by do 5 (split; [done|]).
Qed.
End proofs.

(** ** A module at work *)

(** One external address, 198.51.100.1, with ten ports. *)
Definition ex_hasher (e : Endpoint) : Z := hash_word e mod 4294967291.
Definition ex_e0 : Endpoint * NatEntry := (MkEndpoint 0 0 0, MkEntry (MkEndpoint 0 0 0) 0).
Definition ex_crc (b : bytes) (seed : Z) : Z := u32 (le_load b + seed).
#[local] Instance ex_table : HashTable Endpoint NatEntry := cuckoo_table ex_hasher EqualTo ex_e0.
#[local] Instance ex_laws : HashTableLaws Endpoint NatEntry endpoint_ok :=
  cuckoo_laws ex_hasher EqualTo ex_e0 endpoint_ok EqualTo_spec.

Definition ex_args : list address_arg :=
  [AddressArg (ToIpv4Address (of_cpu 4 0xC6336401)) [RangeArg 5000 5010 false]].
Definition ex_fresh : NAT := MkNAT [] [] (CuckooMap.make ex_e0 4 16) 1 false.
Definition ex_nat : NAT := (Init ex_fresh ex_args).1.

Lemma ex_nat_Inv : Inv ex_nat.
Proof.
  destruct (CuckooMap.make_spec ex_hasher ex_e0 endpoint_ok 4 16) as [HI Hm]; [lia|by exists 2%nat|].
  apply (nat_Init_Inv (HashTableLaws0 := ex_laws) ex_crc 0 (CuckooMap.make ex_e0 4 16) 1 ex_args ex_nat).
  - exact HI.
  - exact Hm.
  - repeat constructor; vm_compute; congruence.
  - assert ((Init ex_fresh ex_args).2 = inr tt) as Hr by (vm_compute; reflexivity).
    fold ex_fresh. unfold ex_nat. rewrite <- Hr. apply surjective_pairing.
Qed.

Lemma ex_acceptable : acceptable ex_nat kForward ex_packet 34.
Proof.
  split; [exact ex_framed|]. intros _ e. change (Z.of_nat 34) with 34.
  assert (ExtractEndpoint ex_packet 34 kForward = Some (Some ex_before)) as -> by (vm_compute; reflexivity).
  intros [= <-]. apply (bool_decide_unpack _). vm_compute. exact I.
Qed.

Lemma nat_batch_invariant_witness :
  (exists s' outs, DoProcessBatch ex_crc 0 kForward 7 ex_nat [ex_packet; ex_packet] = Some (s', outs) /\
    Inv s' /\ one_to_one s' /\ same_config ex_nat s' /\ kept 7 ex_nat s' /\ (length outs <= 2)%nat) \/
  (exists s1 before s2 r, ht_map (map_ s1) !! before = None /\
    CreateNewEntry ex_crc 0 s1 before 7 = Some (s2, r) /\ refused s2 = true).
Proof.
  destruct (nat_batch_invariant ex_crc 0 kForward 7 ex_nat [ex_packet; ex_packet])
    as [H|(n & p & l4 & s1 & outs & before & s2 & r & _ & _ & _ & _ & _ & _ & _ & _ & _ & Hn & Hc & Hr)].
  - exact ex_nat_Inv.
  - repeat constructor; exists 34%nat; exact ex_acceptable.
  - left. exact H.
  - right. exists s1, before, s2, r. split; [exact Hn|]. split; [exact Hc|exact Hr].
Defined.

(** The first packet of 10.0.0.1:4096 and the answer to it. *)
Definition ex_forward : option (NAT * option bytes) := process_packet ex_crc 0 kForward 7 ex_nat ex_packet.
Definition ex_after_nat : NAT := match ex_forward with Some (s, _) => s | None => ex_nat end.
Definition ex_out : bytes := match ex_forward with Some (_, Some p) => p | _ => [] end.
Definition ex_answer : bytes :=
  take 26 ex_packet ++ take 4 (drop 30 ex_packet) ++ take 4 (drop 26 ex_out) ++
  take 2 (drop 36 ex_packet) ++ take 2 (drop 34 ex_out) ++ drop 38 ex_packet.

Lemma ex_forward_eq : ex_forward = Some (ex_after_nat, Some ex_out) /\ refused ex_after_nat = false.
Proof.
  assert (match ex_forward with Some (s, Some _) => negb (refused s) | _ => false end = true) as H by (vm_compute; reflexivity).
  unfold ex_after_nat, ex_out. destruct ex_forward as [[s [p|]]|]; [|done|done]. by apply negb_true_iff in H.
Qed.

(** In between, the first endpoint sends two more packets and is answered once. *)
Definition ex_between : list (Direction * Z * list bytes) := [(kForward, 8, [ex_packet; ex_packet]); (kReverse, 9, [ex_answer])].
Definition ex_later : NAT := default ex_nat (run_batches ex_crc 0 ex_after_nat ex_between).

Lemma ex_later_eq : run_batches ex_crc 0 ex_after_nat ex_between = Some ex_later /\ refused ex_later = false.
Proof.
  assert (match run_batches ex_crc 0 ex_after_nat ex_between with Some s => negb (refused s) | None => false end = true) as H
    by (vm_compute; reflexivity).
  unfold ex_later. destruct (run_batches _ _ _ _) as [s|]; [|done]. by apply negb_true_iff in H.
Qed.

Lemma ex_answer_framed : framed ex_answer 34.
Proof.
  split; [apply (bool_decide_unpack _); vm_compute; exact I|lia|vm_compute; reflexivity|].
  apply Nat.leb_le. vm_compute. reflexivity.
Qed.

Lemma nat_round_trip_witness :
  exists ext back, ExtractEndpoint ex_out 34 kForward = Some (Some ext) /\
    process_packet ex_crc 0 kReverse 10 ex_later ex_answer = Some (ex_later, Some back) /\
    ExtractEndpoint back 34 kReverse = Some (Some ex_before).
Proof.
  destruct (nat_round_trip ex_crc 0 7 10 ex_nat ex_packet 34 ex_before ex_after_nat ex_out ex_between ex_later ex_answer 34)
    as (ext & back & H1 & _ & H2 & H3).
  - exact ex_nat_Inv.
  - exact ex_acceptable.
  - apply ex_forward_eq.
  - vm_compute. reflexivity.
  - lia.
  - unfold kTimeOutNs. lia.
  - apply ex_later_eq.
  - constructor; [|constructor; [|constructor]].
    + constructor; [exists 34%nat; exact ex_acceptable|]. constructor; [exists 34%nat; exact ex_acceptable|constructor].
    + constructor; [|constructor]. exists 34%nat. split; [exact ex_answer_framed|]. intros Hd. discriminate Hd.
  - cbn. unfold kTimeOutNs. lia.
  - apply ex_later_eq.
  - exact ex_answer_framed.
  - vm_compute. reflexivity.
  - exists ext, back. split; [exact H1|]. split; [exact H2|exact H3].
Defined.

(** A second internal endpoint is given a port of its own. *)
Definition ex_second : Endpoint := MkEndpoint 0x0200000a 0x0010 17.
Definition ex_created : option (NAT * option nat) := CreateNewEntry ex_crc 0 ex_nat ex_second 7.

Lemma ex_created_eq : exists s' ptr, ex_created = Some (s', Some ptr) /\ refused s' = false.
Proof.
  assert (match ex_created with Some (s, Some _) => negb (refused s) | _ => false end = true) as H by (vm_compute; reflexivity).
  destruct ex_created as [[s [p|]]|]; [|done|done]. exists s, p. by apply negb_true_iff in H.
Qed.

Lemma nat_allocation_witness :
  exists s' ptr, ex_created = Some (s', Some ptr) /\
    exists prt f0, 5000 <= prt <= 5010 /\
      ht_map (map_ s') = <[ex_second := MkEntry (MkEndpoint 0x016433c6 (data_ (of_cpu 2 prt)) 17) 0]>
        (<[MkEndpoint 0x016433c6 (data_ (of_cpu 2 prt)) 17 := MkEntry ex_second 0]> f0).
Proof.
  assert (exists s' ptr, ex_created = Some (s', Some ptr) /\ refused s' = false) as (s' & ptr & Hc & Hr)
    by exact ex_created_eq.
  exists s', ptr. split; [exact Hc|].
  destruct (nat_allocation ex_crc 0 ex_nat ex_second 7 s' ptr) as (a & rs & rng & prt & f0 & Ha & Hrs & Hin & Hall & _ & Hm).
  - exact ex_nat_Inv.
  - split; [|split]; split; vm_compute; congruence.
  - vm_compute. reflexivity.
  - apply (bool_decide_unpack _). vm_compute. exact I.
  - exact Hc.
  - exact Hr.
  - assert (a = 0x016433c6) as -> by (vm_compute in Ha; congruence).
    assert (rs = [MkRange 5000 5010 false]) as -> by (vm_compute in Hrs; congruence).
    apply list_elem_of_singleton in Hin as ->. exists prt, f0. split; [|exact Hm].
    destruct Hall as [_ Hall]. vm_compute in Hall. clear Hm. unfold Z.le in *. exact Hall.
Defined.

(** [Init] sorts the addresses and leaves their port ranges where they were: the ranges
    that were given for 10.0.0.2 end up with 10.0.0.1. *)
Lemma nat_init_mismatch :
  let address x r := AddressArg (ToIpv4Address (of_cpu 4 x)) [r] in
  let args := [address 0x0A000002 (RangeArg 1000 2000 false); address 0x0A000001 (RangeArg 3000 4000 false)] in
  let s := (Init ex_fresh args).1 in
  GetInitialArg s =
    Some [address 0x0A000001 (RangeArg 1000 2000 false); address 0x0A000002 (RangeArg 3000 4000 false)].
Proof. vm_compute. reflexivity. Qed.
