(* ===== verification/Gate.v ===== *)
(** Gates and their hooks: [core/gate.h] and [core/gate.cc].

    A hook is its priority and its name; what a hook does to the packets that it may only
    look at is not modelled.  A gate is named by its module and its index. *)
From stdpp Require Import sorting.
From stdpp Require Export strings.
From S2P Require Import Prelude Common.

(** The object of a gate in the heap: its module and its index there. *)
Abbreviation gate_id := (nat * nat)%type.

Record GateHook := MkHook { hook_priority : Z; hook_name : string }.
#[export] Instance hook_eq_dec : EqDecision GateHook.
Proof. solve_decision. Defined.

(** [GateHook::operator<]: first the priority, then the name. *)
Definition hook_less (lhs rhs : GateHook) : bool :=
  (hook_priority lhs <? hook_priority rhs) ||
  ((hook_priority lhs =? hook_priority rhs) && String.ltb (hook_name lhs) (hook_name rhs)).
Definition hook_le (lhs rhs : GateHook) : Prop := hook_less rhs lhs = false.
#[export] Instance hook_le_dec a b : Decision (hook_le a b).
Proof. unfold hook_le. apply _. Defined.

(** The input and output gates; [mergeable] is what [AddToRun] looks at. *)
Record IGate := MkIGate {
  ogates_upstream : list gate_id;
  priority : Z;
  mergeable : bool;
  igate_index : Z;
  igate_hooks : list GateHook }.

Record OGate := MkOGate {
  igate : gate_id;
  ogate_index : Z;
  ogate_hooks : list GateHook }.

(** ** Hooks *)
Definition AddHook (hooks : list GateHook) (hook : GateHook) : list GateHook * (errno + unit) :=
  if existsb (fun h => bool_decide (hook_name h = hook_name hook)) hooks then (hooks, inl EEXIST)
  else (merge_sort hook_le (hooks ++ [hook]), inr tt).

Definition FindHook (hooks : list GateHook) (name : string) : option GateHook :=
  List.find (fun h => bool_decide (hook_name h = name)) hooks.

Fixpoint RemoveHook (hooks : list GateHook) (name : string) : list GateHook :=
  match hooks with
  | [] => []
  | h :: hooks' => if bool_decide (hook_name h = name) then hooks' else h :: RemoveHook hooks' name
  end.

Definition ClearHooks (hooks : list GateHook) : list GateHook := [].

(** [NewGateHook] with a hook that is initialised without error. *)
Definition NewGateHook (hooks : list GateHook) (hook : GateHook) : list GateHook * (errno + unit) :=
  match AddHook hooks hook with
  | (hooks, inl e) => (hooks, inl e)
  | (hooks, inr _) => (hooks, inr tt)
  end.

Definition track_hook : GateHook := MkHook 0 "track".
Definition AddTrackHook (og : OGate) : OGate :=
  MkOGate (igate og) (ogate_index og) (NewGateHook (ogate_hooks og) track_hook).1.

(** ** Upstream gates *)
Definition PushOgate (ig : IGate) (og : gate_id) : IGate :=
  let up := ogates_upstream ig ++ [og] in
  MkIGate up (priority ig) (1 <? Z.of_nat (length up)) (igate_index ig) (igate_hooks ig).

(** The first occurrence in a vector. *)
Fixpoint erase_first (x : gate_id) (l : list gate_id) : option (list gate_id) :=
  match l with
  | [] => None
  | y :: l' => if bool_decide (y = x) then Some l' else cons y <$> erase_first x l'
  end.

(** When the gate is found, the function returns before it updates [mergeable_]. *)
Definition RemoveOgate (ig : IGate) (og : gate_id) : IGate :=
  match erase_first og (ogates_upstream ig) with
  | Some up => MkIGate up (priority ig) (mergeable ig) (igate_index ig) (igate_hooks ig)
  | None => MkIGate (ogates_upstream ig) (priority ig) (1 <? Z.of_nat (length (ogates_upstream ig)))
                    (igate_index ig) (igate_hooks ig)
  end.

Definition SetPriority (ig : IGate) (p : Z) : IGate :=
  MkIGate (ogates_upstream ig) p (mergeable ig) (igate_index ig) (igate_hooks ig).
Definition set_igate_index (ig : IGate) (i : Z) : IGate :=
  MkIGate (ogates_upstream ig) (priority ig) (mergeable ig) i (igate_hooks ig).
Definition set_ogate_index (og : OGate) (i : Z) : OGate := MkOGate (igate og) i (ogate_hooks og).

(** ** Lemmas *)

(** The hooks of a gate: sorted, with distinct names. *)
Definition hooks_ok (hooks : list GateHook) : Prop :=
  StronglySorted (fun a b => hook_less a b = true) hooks /\ NoDup (map hook_name hooks).

Lemma ascii_compare_refl x : Ascii.compare x x = Eq.
Proof. unfold Ascii.compare. apply N.compare_refl. Qed.

Lemma string_compare_refl a : String.compare a a = Eq.
Proof. induction a as [|x a IH]; [done|]. cbn. by rewrite ascii_compare_refl. Qed.

Lemma ascii_compare_trans a b c : Ascii.compare a b = Lt -> Ascii.compare b c = Lt -> Ascii.compare a c = Lt.
Proof. unfold Ascii.compare. rewrite !N.compare_lt_iff. lia. Qed.

Lemma string_compare_trans a b c : String.compare a b = Lt -> String.compare b c = Lt -> String.compare a c = Lt.
Proof.
  revert b c. induction a as [|x a IH]; intros [|y b] [|z c]; cbn; try done.
  destruct (Ascii.compare x y) eqn:Hxy, (Ascii.compare y z) eqn:Hyz; try done.
  - apply Ascii.compare_eq_iff in Hxy as ->. apply Ascii.compare_eq_iff in Hyz as ->.
    rewrite ascii_compare_refl. apply IH.
  - apply Ascii.compare_eq_iff in Hxy as ->. by rewrite Hyz.
  - apply Ascii.compare_eq_iff in Hyz as ->. by rewrite Hxy.
  - by rewrite (ascii_compare_trans x y z).
Qed.

Lemma hook_less_spec a b : hook_less a b = true <->
  hook_priority a < hook_priority b \/
  hook_priority a = hook_priority b /\ String.compare (hook_name a) (hook_name b) = Lt.
Proof.
  unfold hook_less, String.ltb. rewrite orb_true_iff, andb_true_iff, Z.ltb_lt, Z.eqb_eq.
  destruct (String.compare _ _); intuition congruence.
Qed.

Lemma hook_less_trans a b c : hook_less a b = true -> hook_less b c = true -> hook_less a c = true.
Proof.
  rewrite !hook_less_spec. intros [H1|[H1 H1']] [H2|[H2 H2']]; [left; lia|left; lia|left; lia|].
  right. split; [lia|]. by apply (string_compare_trans _ (hook_name b)).
Qed.

Lemma hook_less_total a b : hook_less a b = true \/ a = b \/ hook_less b a = true.
Proof.
  rewrite !hook_less_spec. destruct (Z.lt_trichotomy (hook_priority a) (hook_priority b)) as [?|[?|?]]; [tauto| |tauto].
  destruct (String.compare (hook_name a) (hook_name b)) eqn:Hc.
  - apply String.compare_eq_iff in Hc. right. left. destruct a, b. cbn in *. congruence.
  - tauto.
  - right. right. right. split; [done|]. rewrite String.compare_antisym, Hc. done.
Qed.

Lemma hook_less_irrefl a : hook_less a a = false.
Proof. apply not_true_iff_false. rewrite hook_less_spec, string_compare_refl. intros [?|[_ ?]]; [lia|done]. Qed.

#[export] Instance hook_le_total : Total hook_le.
Proof.
  intros a b. unfold hook_le. destruct (hook_less_total a b) as [H|[->|H]].
  - left. apply not_true_iff_false. intros H'. pose proof (hook_less_trans _ _ _ H H') as Hx. by rewrite hook_less_irrefl in Hx.
  - left. apply hook_less_irrefl.
  - right. apply not_true_iff_false. intros H'. pose proof (hook_less_trans _ _ _ H H') as Hx. by rewrite hook_less_irrefl in Hx.
Qed.
#[export] Instance hook_le_trans : Transitive hook_le.
Proof.
  intros a b c Hab Hbc. unfold hook_le in *. apply not_true_iff_false. intros Hca.
  destruct (hook_less_total a b) as [H|[->|H]]; [|congruence|congruence].
  pose proof (hook_less_trans _ _ _ Hca H). congruence.
Qed.

Lemma find_name hooks name :
  existsb (fun h => bool_decide (hook_name h = name)) hooks = true <-> name ∈ map hook_name hooks.
Proof.
  rewrite existsb_exists, list_elem_of_In, in_map_iff. split.
  - intros (h & Hin & Hb). apply bool_decide_eq_true in Hb. by exists h.
  - intros (h & <- & Hin). exists h. split; [done|]. by apply bool_decide_eq_true.
Qed.

Lemma StronglySorted_strict hooks : StronglySorted hook_le hooks -> NoDup (map hook_name hooks) ->
  StronglySorted (fun a b => hook_less a b = true) hooks.
Proof.
  induction 1 as [|h hooks Hs IH Hall]; [constructor|]. cbn. intros [Hnin Hnd]%NoDup_cons.
  constructor; [by apply IH|]. apply Forall_forall. intros k Hk. rewrite Forall_forall in Hall. specialize (Hall k Hk).
  destruct (hook_less_total h k) as [?|[->|?]]; [done| |unfold hook_le in Hall; congruence].
  destruct Hnin. apply list_elem_of_In, in_map_iff. exists k. split; [done|]. by apply list_elem_of_In.
Qed.

(** Adding a hook: refused when there is one of that name, else it takes its place. *)
Lemma AddHook_spec hooks hook : hooks_ok hooks ->
  match AddHook hooks hook with
  | (hooks', inl e) => hooks' = hooks /\ e = EEXIST /\ hook_name hook ∈ map hook_name hooks
  | (hooks', inr _) => hooks_ok hooks' /\ hooks' ≡ₚ hook :: hooks
  end.
Proof.
  intros [Hs Hnd]. unfold AddHook. destruct (existsb _ hooks) eqn:He.
  { by apply find_name in He. }
  assert (hook_name hook ∉ map hook_name hooks) as Hnin by (rewrite <- find_name; congruence).
  pose proof (merge_sort_Permutation hook_le (hooks ++ [hook])) as Hp.
  assert (Hp' : merge_sort hook_le (hooks ++ [hook]) ≡ₚ hook :: hooks) by (by rewrite Hp, Permutation_app_comm).
  split; [|done]. assert (Hnd' : NoDup (map hook_name (merge_sort hook_le (hooks ++ [hook])))).
  { rewrite Hp'. cbn. by apply NoDup_cons. }
  split; [|done]. apply StronglySorted_strict; [|done].
  apply Sorted_StronglySorted; [apply _|]. by apply Sorted_merge_sort, _.
Qed.

Lemma RemoveHook_sublist hooks name : sublist (RemoveHook hooks name) hooks.
Proof.
  induction hooks as [|h hooks IH]; cbn; [constructor|]. destruct (bool_decide _); [by constructor|by constructor].
Qed.

Lemma RemoveHook_ok hooks name : hooks_ok hooks -> hooks_ok (RemoveHook hooks name).
Proof.
  intros [Hs Hnd]. pose proof (RemoveHook_sublist hooks name) as Hsub. split.
  - clear Hnd. induction Hs as [|h hooks Hs IH Hall]; cbn; [constructor|]. destruct (bool_decide _); [done|].
    constructor; [apply IH, RemoveHook_sublist|]. apply Forall_forall. intros k Hk. rewrite Forall_forall in Hall.
    apply Hall. eapply elem_of_sublist; [exact Hk|apply RemoveHook_sublist].
  - eapply sublist_NoDup; [exact Hnd|]. clear Hs Hnd. induction Hsub; cbn; by constructor.
Qed.

Lemma erase_first_spec x l :
  match erase_first x l with
  | Some l' => l ≡ₚ x :: l'
  | None => x ∉ l
  end.
Proof.
  induction l as [|y l IH]; cbn; [by apply not_elem_of_nil|]. destruct (bool_decide_reflect (y = x)) as [->|Hne]; [done|].
  destruct (erase_first x l) as [l'|]; cbn.
  - rewrite IH. apply Permutation_swap.
  - by apply not_elem_of_cons.
Qed.
