(* ===== verification/ModuleGraph.v ===== *)
(** The graph of modules: [core/module_graph.h], [core/module_graph.cc] and the gates of
    [core/module.cc].

    Module objects live in a heap and are named by their place in it; a gate is named by
    its module and its index.  [None] is undefined behaviour of the source (a dangling
    pointer) or a failed [CHECK]. *)
From S2P Require Import Prelude Common PriorityQueue Gate.
Open Scope Z_scope.

(** What a module says about the metadata it uses ([core/metadata.h]). *)
Inductive AccessMode := kRead | kWrite | kUpdate.
#[export] Instance access_mode_dec : EqDecision AccessMode.
Proof. solve_decision. Defined.
Record Attribute := MkAttr { attr_name : string; attr_size : Z; attr_mode : AccessMode }.

Record Module := MkModule {
  name : string;
  NumIGates : nat;
  NumOGates : nat;
  is_task : bool;
  all_attrs : list Attribute;
  igates : list (option IGate);
  ogates : list (option OGate);
  parent_tasks : list nat }.

Abbreviation heap := (gmap nat Module).

Definition with_igates (M : Module) l :=
  MkModule (name M) (NumIGates M) (NumOGates M) (is_task M) (all_attrs M) l (ogates M) (parent_tasks M).
Definition with_ogates (M : Module) l :=
  MkModule (name M) (NumIGates M) (NumOGates M) (is_task M) (all_attrs M) (igates M) l (parent_tasks M).
Definition with_parents (M : Module) l :=
  MkModule (name M) (NumIGates M) (NumOGates M) (is_task M) (all_attrs M) (igates M) (ogates M) l.

(** ** Access to gates *)
Definition igate_at (h : heap) (a : gate_id) : option IGate := M ← h !! a.1; mjoin (igates M !! a.2).
Definition ogate_at (h : heap) (a : gate_id) : option OGate := M ← h !! a.1; mjoin (ogates M !! a.2).
Definition set_igate (h : heap) (a : gate_id) (v : option IGate) : heap :=
  alter (fun M => with_igates M (<[a.2 := v]> (igates M))) a.1 h.
Definition set_ogate (h : heap) (a : gate_id) (v : option OGate) : heap :=
  alter (fun M => with_ogates M (<[a.2 := v]> (ogates M))) a.1 h.

(** [std::vector::resize] with null pointers, to at least [n] elements. *)
Definition resize {T} (n : nat) (l : list (option T)) : list (option T) := l ++ replicate (n - length l) None.

Definition is_active_gate {T} (gates : list (option T)) (idx : nat) : bool :=
  (idx <? length gates)%nat && (0 <? length gates)%nat && bool_decide (is_Some (mjoin (gates !! idx))).

(** ** Connections *)
Definition new_igate : IGate := MkIGate [] 0 false 0 [].

Definition ConnectGate (h : heap) (m : nat) (ogate_idx : nat) (m_next : nat) (igate_idx : nat)
    : option (heap * (errno + unit)) :=
  M ← h !! m;
  if is_active_gate (ogates M) ogate_idx then Some (h, inl EBUSY)
  else
    let h := <[m := with_ogates M (resize (S ogate_idx) (ogates M))]> h in
    N ← h !! m_next;
    let h := <[m_next := with_igates N (resize (S igate_idx) (igates N))]> h in
    let h := match igate_at h (m_next, igate_idx) with
             | Some _ => h
             | None => set_igate h (m_next, igate_idx) (Some new_igate)
             end in
    let h := set_ogate h (m, ogate_idx) (Some (MkOGate (m_next, igate_idx) 0 [])) in
    ig ← igate_at h (m_next, igate_idx);
    Some (set_igate h (m_next, igate_idx) (Some (PushOgate ig (m, ogate_idx))), inr tt).

Definition DisconnectGate (h : heap) (m : nat) (ogate_idx : nat) : option heap :=
  M ← h !! m;
  if negb (is_active_gate (ogates M) ogate_idx) then Some h
  else
    og ← ogate_at h (m, ogate_idx);
    ig ← igate_at h (igate og);
    let ig := RemoveOgate ig (m, ogate_idx) in
    let h := set_igate h (igate og) (if bool_decide (ogates_upstream ig = []) then None else Some ig) in
    Some (set_ogate h (m, ogate_idx) None).

Definition DisconnectModulesUpstream (h : heap) (m : nat) (igate_idx : nat) : option heap :=
  M ← h !! m;
  if negb (igate_idx <? NumIGates M)%nat then None
  else if negb (is_active_gate (igates M) igate_idx) then Some h
  else
    ig ← igate_at h (m, igate_idx);
    let h := fold_left (fun h a => set_ogate h a None) (ogates_upstream ig) h in
    Some (set_igate h (m, igate_idx) None).

(** [Destroy], as far as the gates are concerned. *)
Definition Destroy (h : heap) (m : nat) : option heap :=
  M ← h !! m;
  h ← foldl (fun r i => h ← r; DisconnectModulesUpstream h m i) (Some h) (seq 0 (length (igates M)));
  M ← h !! m;
  foldl (fun r i => h ← r; DisconnectGate h m i) (Some h) (seq 0 (length (ogates M))).

(** ** [ModuleGraph] *)
Record ModuleGraph := MkGraph {
  modules : heap;
  all_modules_ : list (string * nat);
  tasks_ : list string;
  changes_made_ : bool;
  gate_cnt_ : Z }.

Definition with_modules (g : ModuleGraph) (h : heap) : ModuleGraph :=
  MkGraph h (all_modules_ g) (tasks_ g) true (gate_cnt_ g).

Definition MAX_GATES : Z := 8192.

Definition ConnectModules (g : ModuleGraph) (m ogate_idx m_next igate_idx : nat) (skip_default_hooks : bool)
    : option (ModuleGraph * (errno + unit)) :=
  M ← modules g !! m;
  if (NumOGates M <=? ogate_idx)%nat || (MAX_GATES <=? Z.of_nat ogate_idx) then Some (g, inl EINVAL)
  else
    N ← modules g !! m_next;
    if (NumIGates N <=? igate_idx)%nat || (MAX_GATES <=? Z.of_nat igate_idx) then Some (g, inl EINVAL)
    else
      r ← ConnectGate (modules g) m ogate_idx m_next igate_idx;
      match r with
      | (h, inl e) => Some (with_modules g h, inl e)
      | (h, inr _) =>
          if skip_default_hooks then Some (with_modules g h, inr tt)
          else
            og ← ogate_at h (m, ogate_idx);
            Some (with_modules g (set_ogate h (m, ogate_idx) (Some (AddTrackHook og))), inr tt)
      end.

Definition DisconnectModule (g : ModuleGraph) (m ogate_idx : nat) : option (ModuleGraph * (errno + unit)) :=
  M ← modules g !! m;
  if (NumOGates M <=? ogate_idx)%nat then Some (g, inl EINVAL)
  else h ← DisconnectGate (modules g) m ogate_idx; Some (with_modules g h, inr tt).

(** The modules by name, in the order of [std::map]. *)
Fixpoint insert_by_name (n : string) (m : nat) (l : list (string * nat)) : list (string * nat) :=
  match l with
  | [] => [(n, m)]
  | (n', m') :: l' => if String.ltb n n' then (n, m) :: l else (n', m') :: insert_by_name n m l'
  end.

(** The registration of a module [M], built and initialised, at the address [m]. *)
Definition CreateModule (g : ModuleGraph) (m : nat) (M : Module) : ModuleGraph * (errno + unit) :=
  if is_task M && bool_decide (name M ∈ tasks_ g) then (g, inl ENOMEM)
  else
    let tasks := if is_task M then name M :: tasks_ g else tasks_ g in
    if bool_decide (name M ∈ map fst (all_modules_ g))
    then (MkGraph (modules g) (all_modules_ g) tasks (changes_made_ g) (gate_cnt_ g), inl ENOMEM)
    else (MkGraph (<[m := M]> (modules g)) (insert_by_name (name M) m (all_modules_ g)) tasks (changes_made_ g)
                  (gate_cnt_ g), inr tt).

Definition DestroyModule (g : ModuleGraph) (m : nat) : option ModuleGraph :=
  h ← Destroy (modules g) m;
  M ← h !! m;
  Some (MkGraph (delete m h) (filter (fun x => x.1 <> name M) (all_modules_ g))
                (if is_task M then filter (fun x => x <> name M) (tasks_ g) else tasks_ g) true (gate_cnt_ g)).

(** In the order of their names. *)
Definition DestroyAllModules (g : ModuleGraph) : option ModuleGraph :=
  foldl (fun r x => g ← r; DestroyModule g x.2) (Some (with_modules g (modules g))) (all_modules_ g).

(** ** Access after updates *)
Lemma igate_at_Some h a ig : igate_at h a = Some ig <-> exists M, h !! a.1 = Some M /\ igates M !! a.2 = Some (Some ig).
Proof.
  unfold igate_at. destruct (h !! a.1) as [M|]; cbn; [|by split; [|intros (? & ? & _)]]. split.
  - intros Hx. exists M. split; [done|]. destruct (igates M !! a.2) as [[]|]; cbn in Hx; congruence.
  - intros (? & [= <-] & ->). done.
Qed.

Lemma ogate_at_Some h a og : ogate_at h a = Some og <-> exists M, h !! a.1 = Some M /\ ogates M !! a.2 = Some (Some og).
Proof.
  unfold ogate_at. destruct (h !! a.1) as [M|]; cbn; [|by split; [|intros (? & ? & _)]]. split.
  - intros Hx. exists M. split; [done|]. destruct (ogates M !! a.2) as [[]|]; cbn in Hx; congruence.
  - intros (? & [= <-] & ->). done.
Qed.

Definition igate_slot (h : heap) (a : gate_id) : Prop := exists M, h !! a.1 = Some M /\ (a.2 < length (igates M))%nat.
Definition ogate_slot (h : heap) (a : gate_id) : Prop := exists M, h !! a.1 = Some M /\ (a.2 < length (ogates M))%nat.

Lemma igate_at_slot h a ig : igate_at h a = Some ig -> igate_slot h a.
Proof. intros (M & HM & Hi)%igate_at_Some. exists M. split; [done|]. by eapply lookup_lt_Some. Qed.
Lemma ogate_at_slot h a og : ogate_at h a = Some og -> ogate_slot h a.
Proof. intros (M & HM & Hi)%ogate_at_Some. exists M. split; [done|]. by eapply lookup_lt_Some. Qed.

Lemma igate_at_set h a v b : igate_slot h a -> igate_at (set_igate h a v) b = if decide (a = b) then v else igate_at h b.
Proof.
  intros (M & HM & Hl). unfold igate_at, set_igate. destruct a as [m i], b as [m' i']; cbn in *.
  destruct (decide (m = m')) as [<-|Hm].
  - rewrite lookup_alter_eq, HM. cbn. destruct (decide (i = i')) as [<-|Hi].
    + rewrite list_lookup_insert_eq by done. cbn. by rewrite decide_True.
    + rewrite list_lookup_insert_ne by done. rewrite decide_False by congruence. done.
  - rewrite lookup_alter_ne by done. by rewrite decide_False by congruence.
Qed.

Lemma ogate_at_set h a v b : ogate_slot h a -> ogate_at (set_ogate h a v) b = if decide (a = b) then v else ogate_at h b.
Proof.
  intros (M & HM & Hl). unfold ogate_at, set_ogate. destruct a as [m i], b as [m' i']; cbn in *.
  destruct (decide (m = m')) as [<-|Hm].
  - rewrite lookup_alter_eq, HM. cbn. destruct (decide (i = i')) as [<-|Hi].
    + rewrite list_lookup_insert_eq by done. cbn. by rewrite decide_True.
    + rewrite list_lookup_insert_ne by done. rewrite decide_False by congruence. done.
  - rewrite lookup_alter_ne by done. by rewrite decide_False by congruence.
Qed.

Lemma ogate_at_set_igate h a v b : ogate_at (set_igate h a v) b = ogate_at h b.
Proof.
  unfold ogate_at, set_igate. destruct (decide (a.1 = b.1)) as [->|Hm].
  - rewrite lookup_alter_eq. by destruct (h !! b.1).
  - by rewrite lookup_alter_ne.
Qed.

Lemma igate_at_set_ogate h a v b : igate_at (set_ogate h a v) b = igate_at h b.
Proof.
  unfold igate_at, set_ogate. destruct (decide (a.1 = b.1)) as [->|Hm].
  - rewrite lookup_alter_eq. by destruct (h !! b.1).
  - by rewrite lookup_alter_ne.
Qed.

(** What does not change: the modules and the number of their gates. *)
Definition same_shape (h h' : heap) : Prop := forall m,
  match h !! m, h' !! m with
  | Some M, Some M' =>
      (length (igates M) <= length (igates M') /\ length (ogates M) <= length (ogates M'))%nat /\
      NumIGates M' = NumIGates M /\ NumOGates M' = NumOGates M /\ name M' = name M /\ is_task M' = is_task M /\
      all_attrs M' = all_attrs M
  | None, None => True
  | _, _ => False
  end.

Lemma same_shape_refl h : same_shape h h.
Proof. intros m. by destruct (h !! m). Qed.

Lemma same_shape_trans h1 h2 h3 : same_shape h1 h2 -> same_shape h2 h3 -> same_shape h1 h3.
Proof.
  intros H12 H23 m. specialize (H12 m). specialize (H23 m).
  destruct (h1 !! m), (h2 !! m), (h3 !! m); try done. destruct H12 as (H & H12), H23 as (H' & H23).
  split; [lia|]. intuition congruence.
Qed.

Lemma same_shape_insert h m M M' : h !! m = Some M -> same_shape {[m := M]} {[m := M']} -> same_shape h (<[m := M']> h).
Proof.
  intros HM Hs m'. destruct (decide (m = m')) as [<-|Hne].
  - rewrite HM, lookup_insert_eq. specialize (Hs m). by rewrite !lookup_singleton_eq in Hs.
  - rewrite lookup_insert_ne by done. apply same_shape_refl.
Qed.

Lemma same_shape_set_igate h a v : same_shape h (set_igate h a v).
Proof.
  intros m. unfold set_igate. destruct (decide (a.1 = m)) as [->|Hne].
  - rewrite lookup_alter_eq. destruct (h !! m); [|done]. cbn. by rewrite length_insert.
  - rewrite lookup_alter_ne by done. apply same_shape_refl.
Qed.

Lemma same_shape_set_ogate h a v : same_shape h (set_ogate h a v).
Proof.
  intros m. unfold set_ogate. destruct (decide (a.1 = m)) as [->|Hne].
  - rewrite lookup_alter_eq. destruct (h !! m); [|done]. cbn. by rewrite length_insert.
  - rewrite lookup_alter_ne by done. apply same_shape_refl.
Qed.

Lemma igate_slot_shape h h' a : same_shape h h' -> igate_slot h a -> igate_slot h' a.
Proof.
  intros Hs (M & HM & Hl). specialize (Hs a.1). rewrite HM in Hs. destruct (h' !! a.1) as [M'|] eqn:HM'; [|done].
  exists M'. split; [done|]. lia.
Qed.
Lemma ogate_slot_shape h h' a : same_shape h h' -> ogate_slot h a -> ogate_slot h' a.
Proof.
  intros Hs (M & HM & Hl). specialize (Hs a.1). rewrite HM in Hs. destruct (h' !! a.1) as [M'|] eqn:HM'; [|done].
  exists M'. split; [done|]. lia.
Qed.

#[export] Hint Resolve same_shape_refl same_shape_set_igate same_shape_set_ogate : bess.

Lemma is_active_ogate h m M i : h !! m = Some M -> is_active_gate (ogates M) i = bool_decide (is_Some (ogate_at h (m, i))).
Proof.
  intros HM. unfold is_active_gate, ogate_at. cbn [fst snd]. rewrite HM. cbn [mbind option_bind]. case_bool_decide as Ha; [|apply andb_false_r].
  destruct Ha as [og Ha]. destruct (ogates M !! i) as [[]|] eqn:Hl; try done. apply lookup_lt_Some in Hl.
  rewrite !andb_true_iff, !Nat.ltb_lt. split; [lia|done].
Qed.

Lemma is_active_igate h m M i : h !! m = Some M -> is_active_gate (igates M) i = bool_decide (is_Some (igate_at h (m, i))).
Proof.
  intros HM. unfold is_active_gate, igate_at. cbn [fst snd]. rewrite HM. cbn [mbind option_bind]. case_bool_decide as Ha; [|apply andb_false_r].
  destruct Ha as [ig Ha]. destruct (igates M !! i) as [[]|] eqn:Hl; try done. apply lookup_lt_Some in Hl.
  rewrite !andb_true_iff, !Nat.ltb_lt. split; [lia|done].
Qed.

Lemma join_resize {T} n (l : list (option T)) i : mjoin (resize n l !! i) = mjoin (l !! i).
Proof.
  unfold resize. destruct (decide (i < length l)%nat) as [Hi|Hi]; [by rewrite lookup_app_l|].
  rewrite lookup_app_r, (lookup_ge_None_2 l) by lia. cbn.
  destruct (replicate _ _ !! _) eqn:Hr; [|done]. by apply lookup_replicate in Hr as [-> _].
Qed.

Lemma length_resize {T} n (l : list (option T)) : length (resize n l) = Nat.max n (length l).
Proof. unfold resize. rewrite length_app, length_replicate. lia. Qed.

Definition sizes_ok (h : heap) : Prop := forall m M, h !! m = Some M ->
  (length (igates M) <= NumIGates M /\ length (ogates M) <= NumOGates M)%nat.

Lemma sizes_insert h m M : sizes_ok h -> (length (igates M) <= NumIGates M /\ length (ogates M) <= NumOGates M)%nat ->
  sizes_ok (<[m := M]> h).
Proof. intros Hs HM m' M'. rewrite lookup_insert_Some. intros [[<- <-]|[_ H]]; [done|by apply (Hs m')]. Qed.

Lemma sizes_alter h m f : sizes_ok h ->
  (forall M, length (igates (f M)) = length (igates M) /\ length (ogates (f M)) = length (ogates M) /\
     NumIGates (f M) = NumIGates M /\ NumOGates (f M) = NumOGates M) -> sizes_ok (alter f m h).
Proof.
  intros Hs Hf m' M'. rewrite lookup_alter_Some. intros [(<- & M & HM & ->)|[_ H]]; [|by apply (Hs m')].
  destruct (Hf M) as (-> & -> & -> & ->). by apply (Hs m).
Qed.

Lemma sizes_set_igate h a v : sizes_ok h -> sizes_ok (set_igate h a v).
Proof. intros Hs. apply sizes_alter; [done|]. intros M. cbn. by rewrite length_insert. Qed.
Lemma sizes_set_ogate h a v : sizes_ok h -> sizes_ok (set_ogate h a v).
Proof. intros Hs. apply sizes_alter; [done|]. intros M. cbn. by rewrite length_insert. Qed.
#[export] Hint Resolve sizes_set_igate sizes_set_ogate : bess.

(** ** Connecting *)
Lemma ConnectGate_busy h m M oi m' ii og : h !! m = Some M -> ogate_at h (m, oi) = Some og ->
  ConnectGate h m oi m' ii = Some (h, inl EBUSY).
Proof.
  intros HM Ho. unfold ConnectGate. rewrite HM. cbn [mbind option_bind].
  by rewrite (is_active_ogate h m M oi HM), Ho.
Qed.

(** The two resizes change no gate. *)
Lemma resized_gates h m M oi m' N ii : h !! m = Some M ->
  let h1 := <[m := with_ogates M (resize (S oi) (ogates M))]> h in
  h1 !! m' = Some N ->
  let h2 := <[m' := with_igates N (resize (S ii) (igates N))]> h1 in
  same_shape h h2 /\ igate_slot h2 (m', ii) /\ ogate_slot h2 (m, oi) /\
  (forall b, igate_at h2 b = igate_at h b) /\ (forall b, ogate_at h2 b = ogate_at h b).
Proof.
  intros HM h1 HN h2.
  assert (Hs1 : same_shape h h1).
  { apply (same_shape_insert h m M); [done|]. intros k. destruct (decide (m = k)) as [<-|?].
    - rewrite !lookup_singleton_eq. cbn. rewrite length_resize. split; [lia|done].
    - by rewrite !lookup_singleton_ne. }
  assert (Hs2 : same_shape h1 h2).
  { apply (same_shape_insert h1 m' N); [done|]. intros k. destruct (decide (m' = k)) as [<-|?].
    - rewrite !lookup_singleton_eq. cbn. rewrite length_resize. split; [lia|done].
    - by rewrite !lookup_singleton_ne. }
  split; [by apply (same_shape_trans h h1)|].
  split; [exists (with_igates N (resize (S ii) (igates N))); unfold h2; cbn; rewrite lookup_insert_eq, length_resize; split; [done|lia]|].
  split.
  { apply (ogate_slot_shape h1); [done|]. exists (with_ogates M (resize (S oi) (ogates M))). unfold h1. cbn.
    rewrite lookup_insert_eq, length_resize. split; [done|lia]. }
  assert (H1 : (forall b, igate_at h1 b = igate_at h b) /\ (forall b, ogate_at h1 b = ogate_at h b)).
  { split; intros b; unfold igate_at, ogate_at, h1; (destruct (decide (m = b.1)) as [Hb|Hb]; [|by rewrite lookup_insert_ne]);
      rewrite <- Hb, lookup_insert_eq, HM; cbn; [done|]. by rewrite join_resize. }
  destruct H1 as [H1i H1o]. split; intros b; [rewrite <- H1i|rewrite <- H1o]; unfold igate_at, ogate_at, h2;
    (destruct (decide (m' = b.1)) as [Hb|Hb]; [|by rewrite lookup_insert_ne]);
    rewrite <- Hb, lookup_insert_eq, HN; cbn; [|done]. by rewrite join_resize.
Qed.

Lemma ConnectGate_spec h m M oi m' N ii : h !! m = Some M -> h !! m' = Some N -> ogate_at h (m, oi) = None ->
  exists h', ConnectGate h m oi m' ii = Some (h', inr tt) /\ same_shape h h' /\
    (forall b, ogate_at h' b = if decide ((m, oi) = b) then Some (MkOGate (m', ii) 0 []) else ogate_at h b) /\
    (forall b, igate_at h' b = if decide ((m', ii) = b)
                               then Some (PushOgate (default new_igate (igate_at h (m', ii))) (m, oi)) else igate_at h b) /\
    (sizes_ok h -> (oi < NumOGates M)%nat -> (ii < NumIGates N)%nat -> sizes_ok h').
Proof.
  intros HM HN Ho. unfold ConnectGate. rewrite HM. cbn [mbind option_bind].
  rewrite (is_active_ogate h m M oi HM), Ho. cbn [bool_decide decide_rel].
  rewrite bool_decide_false by (intros [? ?]; done).
  set (h1 := <[m := with_ogates M (resize (S oi) (ogates M))]> h).
  assert (exists N1, h1 !! m' = Some N1 /\ igates N1 = igates N /\ NumIGates N1 = NumIGates N) as (N1 & HN1 & Hig & Hnum).
  { unfold h1. destruct (decide (m = m')) as [<-|Hne]; [|rewrite lookup_insert_ne by done; by exists N].
    rewrite lookup_insert_eq. eexists. split; [done|]. cbn. rewrite HM in HN. by injection HN as <-. }
  rewrite HN1. cbn [mbind option_bind].
  destruct (resized_gates h m M oi m' N1 ii HM HN1) as (Hs & Hsi & Hso & Hi2 & Ho2). fold h1 in Hs, Hsi, Hso, Hi2, Ho2.
  set (h2 := <[m' := with_igates N1 (resize (S ii) (igates N1))]> h1) in *.
  set (h3 := match igate_at h2 (m', ii) with Some _ => h2 | None => set_igate h2 (m', ii) (Some new_igate) end).
  assert (H3 : same_shape h2 h3 /\ (forall b, ogate_at h3 b = ogate_at h2 b) /\
    (forall b, igate_at h3 b = if decide ((m', ii) = b) then Some (default new_igate (igate_at h2 (m', ii))) else igate_at h2 b) /\
    (sizes_ok h2 -> sizes_ok h3)).
  { unfold h3. destruct (igate_at h2 (m', ii)) as [ig|] eqn:Hig2.
    - split; [apply same_shape_refl|]. split; [done|]. split; [|done]. intros b. by destruct (decide _) as [<-|].
    - split; [apply same_shape_set_igate|]. split; [intros b; apply ogate_at_set_igate|].
      split; [intros b; by rewrite igate_at_set|apply sizes_set_igate]. }
  destruct H3 as (Hs3 & Ho3 & Hi3 & Hz3).
  set (h4 := set_ogate h3 (m, oi) (Some (MkOGate (m', ii) 0 []))).
  assert (Hs4 : same_shape h2 h4) by (apply (same_shape_trans _ h3); [done|apply same_shape_set_ogate]).
  assert (igate_at h4 (m', ii) = Some (default new_igate (igate_at h2 (m', ii)))) as ->.
  { unfold h4. by rewrite igate_at_set_ogate, Hi3, decide_True. }
  cbn [mbind option_bind].
  eexists. split; [done|]. split; [|split; [|split]].
  - apply (same_shape_trans _ h2); [done|]. apply (same_shape_trans _ h4); [done|apply same_shape_set_igate].
  - intros b. rewrite ogate_at_set_igate. unfold h4. rewrite ogate_at_set by (apply (ogate_slot_shape h2); done).
    by rewrite Ho3, Ho2.
  - intros b. rewrite igate_at_set by (apply (igate_slot_shape h2); done). unfold h4.
    rewrite igate_at_set_ogate, Hi3, !Hi2. by destruct (decide _).
  - intros Hz Hoi Hii. apply sizes_set_igate, sizes_set_ogate, Hz3.
    pose proof (Hz m M HM). pose proof (Hz m' N HN). apply sizes_insert; [apply sizes_insert; [done|]|]; cbn;
      rewrite length_resize; [lia|]. rewrite Hig, Hnum. split; [lia|].
    assert (sizes_ok h1) as Hz1 by (apply sizes_insert; [done|cbn; rewrite length_resize; lia]). apply (Hz1 m' N1 HN1).
Qed.

(** ** Well-formed links *)

(** An output gate leads to an input gate that lists it, and the other way round; an input
    gate lists its output gates once each and is mergeable when there are several. *)
Record links (h : heap) : Prop := {
  l_sizes : sizes_ok h;
  l_out a og : ogate_at h a = Some og -> exists ig, igate_at h (igate og) = Some ig /\ a ∈ ogates_upstream ig;
  l_in b ig a : igate_at h b = Some ig -> a ∈ ogates_upstream ig -> exists og, ogate_at h a = Some og /\ igate og = b;
  l_igate b ig : igate_at h b = Some ig -> ogates_upstream ig <> [] /\ NoDup (ogates_upstream ig) /\
    ((1 < length (ogates_upstream ig))%nat -> mergeable ig = true);
  l_hooks a og : ogate_at h a = Some og -> hooks_ok (ogate_hooks og) }.

Lemma hooks_ok_nil : hooks_ok [].
Proof. split; constructor. Qed.

Lemma connect_links h m M oi m' N ii : links h -> h !! m = Some M -> h !! m' = Some N -> ogate_at h (m, oi) = None ->
  (oi < NumOGates M)%nat -> (ii < NumIGates N)%nat ->
  exists h', ConnectGate h m oi m' ii = Some (h', inr tt) /\ same_shape h h' /\ links h' /\
    (forall b, ogate_at h' b = if decide ((m, oi) = b) then Some (MkOGate (m', ii) 0 []) else ogate_at h b) /\
    (forall b, igate_at h' b = if decide ((m', ii) = b)
                               then Some (PushOgate (default new_igate (igate_at h (m', ii))) (m, oi)) else igate_at h b).
Proof.
  intros HL HM HN Hno Hoi Hii.
  destruct (ConnectGate_spec h m M oi m' N ii HM HN Hno) as (h' & Hc & Hs & Ho & Hi & Hz).
  exists h'. split; [done|]. split; [done|]. split; [|done].
  assert (Hup : (m, oi) ∉ ogates_upstream (default new_igate (igate_at h (m', ii)))).
  { destruct (igate_at h (m', ii)) as [ig|] eqn:Hig; cbn; [|by apply not_elem_of_nil].
    intros Hin. destruct (l_in h HL _ _ _ Hig Hin) as (og & Hog & _). congruence. }
  split; [by apply Hz; [apply HL| |]| | | |].
  - intros a og. rewrite Ho, Hi. destruct (decide ((m, oi) = a)) as [<-|Hne].
    + intros [= <-]. cbn. rewrite decide_True by done. eexists. split; [done|]. cbn. set_solver.
    + intros Ha. destruct (l_out h HL a og Ha) as (ig & Hig & Hin). destruct (decide ((m', ii) = igate og)) as [Heq|?].
      * eexists. split; [done|]. cbn. rewrite Heq, Hig. cbn. set_solver.
      * by exists ig.
  - intros b ig a. rewrite Hi, Ho. destruct (decide ((m', ii) = b)) as [<-|Hne].
    + intros [= <-]. cbn. intros [Hin|Hin%list_elem_of_singleton]%elem_of_app.
      * destruct (igate_at h (m', ii)) as [ig|] eqn:Hig; cbn in Hin; [|by apply not_elem_of_nil in Hin].
        destruct (decide _) as [<-|_]; [done|]. by apply (l_in h HL _ _ _ Hig).
      * rewrite Hin. rewrite decide_True by done. eexists. by split.
    + intros Hb Hin. destruct (l_in h HL _ _ _ Hb Hin) as (og & Hog & Hb'). destruct (decide _) as [<-|_]; [congruence|].
      by exists og.
  - intros b ig. rewrite Hi. destruct (decide ((m', ii) = b)) as [<-|Hne]; [|apply HL].
    intros [= <-]. cbn. split; [by destruct (ogates_upstream _)|]. split.
    + apply NoDup_app. split; [|split; [|apply NoDup_singleton]].
      * destruct (igate_at h (m', ii)) as [ig|] eqn:Hig; cbn; [by apply (l_igate h HL _ _ Hig)|constructor].
      * intros x Hx ->%list_elem_of_singleton. done.
    + intros Hlen. apply Z.ltb_lt. lia.
  - intros a og. rewrite Ho. destruct (decide _) as [<-|]; [|apply HL]. intros [= <-]. apply hooks_ok_nil.
Qed.

(** Changing the output gate at a place keeps the links when it leads to the same gate. *)
Lemma set_ogate_links h a og og' : links h -> ogate_at h a = Some og -> igate og' = igate og ->
  hooks_ok (ogate_hooks og') -> links (set_ogate h a (Some og')).
Proof.
  intros HL Ha He Hh. pose proof (ogate_at_slot h a og Ha) as Hsl.
  split; [by apply sizes_set_ogate, HL| | | |].
  - intros b ogb. rewrite ogate_at_set by done. destruct (decide (a = b)) as [<-|].
    + intros [= <-]. rewrite igate_at_set_ogate, He. by apply (l_out h HL).
    + intros Hb. rewrite igate_at_set_ogate. by apply (l_out h HL).
  - intros b ig c. rewrite igate_at_set_ogate. intros Hb Hc. destruct (l_in h HL _ _ _ Hb Hc) as (ogc & Hoc & Hic).
    rewrite ogate_at_set by done. destruct (decide (a = c)) as [<-|]; [|by exists ogc].
    exists og'. split; [done|]. congruence.
  - intros b ig. rewrite igate_at_set_ogate. apply HL.
  - intros b ogb. rewrite ogate_at_set by done. destruct (decide (a = b)) as [<-|]; [|apply HL]. by intros [= <-].
Qed.

(** Changing an input gate without touching its upstream gates keeps the links. *)
Lemma set_igate_links h b ig ig' : links h -> igate_at h b = Some ig -> ogates_upstream ig' = ogates_upstream ig ->
  mergeable ig' = mergeable ig -> links (set_igate h b (Some ig')).
Proof.
  intros HL Hb Hu Hm. pose proof (igate_at_slot h b ig Hb) as Hsl.
  split; [by apply sizes_set_igate, HL| | | |].
  - intros a og. rewrite ogate_at_set_igate. intros Ha. destruct (l_out h HL a og Ha) as (x & Hx & Hin).
    rewrite igate_at_set by done. destruct (decide (b = igate og)) as [->|]; [|by exists x].
    exists ig'. split; [done|]. congruence.
  - intros c x a. rewrite igate_at_set by done. rewrite ogate_at_set_igate. destruct (decide (b = c)) as [<-|]; [|apply HL].
    intros [= <-]. rewrite Hu. by apply (l_in h HL).
  - intros c x. rewrite igate_at_set by done. destruct (decide (b = c)) as [<-|]; [|apply HL].
    intros [= <-]. rewrite Hu, Hm. by apply (l_igate h HL b).
  - intros a og. rewrite ogate_at_set_igate. apply HL.
Qed.

Lemma AddTrackHook_ok og : hooks_ok (ogate_hooks og) -> hooks_ok (ogate_hooks (AddTrackHook og)).
Proof.
  intros Hh. unfold AddTrackHook, NewGateHook. cbn. pose proof (AddHook_spec _ track_hook Hh) as Ha.
  destruct (AddHook _ _) as [hs [e|[]]]; cbn; [|apply Ha]. by destruct Ha as [-> _].
Qed.

(** ** Disconnecting *)

(** Gates only go away. *)
Definition fewer (h h' : heap) : Prop := same_shape h h' /\
  (forall a og, ogate_at h' a = Some og -> ogate_at h a = Some og) /\
  (forall b ig, igate_at h' b = Some ig -> exists ig0, igate_at h b = Some ig0 /\
     (forall a, a ∈ ogates_upstream ig -> a ∈ ogates_upstream ig0)).

Lemma fewer_refl h : fewer h h.
Proof. split; [apply same_shape_refl|]. split; [done|]. intros b ig Hb. by exists ig. Qed.

Lemma fewer_trans h1 h2 h3 : fewer h1 h2 -> fewer h2 h3 -> fewer h1 h3.
Proof.
  intros (Hs & Ho & Hi) (Hs' & Ho' & Hi'). split; [by apply (same_shape_trans _ h2)|]. split; [auto|].
  intros b ig Hb. destruct (Hi' b ig Hb) as (ig1 & H1 & Hin1). destruct (Hi b ig1 H1) as (ig0 & H0 & Hin0).
  exists ig0. auto.
Qed.

(** Taking away the output gates [gone] of the input gate [b], which keeps [rest]. *)
Lemma unlink h b ig gone (rest : option IGate) h' : links h -> igate_at h b = Some ig -> sizes_ok h' -> same_shape h h' ->
  (forall a, ogate_at h' a = if bool_decide (a ∈ gone) then None else ogate_at h a) ->
  (forall c, igate_at h' c = if decide (b = c) then rest else igate_at h c) ->
  match rest with
  | Some ig' => ogates_upstream ig' <> [] /\ ogates_upstream ig ≡ₚ gone ++ ogates_upstream ig' /\ mergeable ig' = mergeable ig
  | None => ogates_upstream ig ≡ₚ gone
  end -> links h' /\ fewer h h'.
Proof.
  intros HL Hb Hz Hs Ho Hi Hrest.
  assert (Hgone : forall a, a ∈ gone -> a ∈ ogates_upstream ig).
  { intros a Ha. destruct rest as [ig'|]; [destruct Hrest as (_ & -> & _)|by rewrite Hrest]. set_solver. }
  split.
  - split; [done| | | |].
    + intros a og. rewrite Ho. case_bool_decide as Hg; [done|]. intros Ha.
      destruct (l_out h HL a og Ha) as (x & Hx & Hin). rewrite Hi. destruct (decide (b = igate og)) as [Heq|]; [|by exists x].
      rewrite <- Heq, Hb in Hx. injection Hx as <-. destruct rest as [ig'|].
      * destruct Hrest as (_ & Hp & _). exists ig'. split; [done|]. rewrite Hp in Hin. apply elem_of_app in Hin as [?|?]; done.
      * by rewrite Hrest in Hin.
    + intros c x a. rewrite Hi. destruct (decide (b = c)) as [<-|Hne].
      * destruct rest as [ig'|]; [|done]. intros [= ->] Hin. destruct Hrest as (_ & Hp & _).
        assert (a ∈ ogates_upstream ig) as Hin' by (rewrite Hp; set_solver).
        destruct (l_in h HL b ig a Hb Hin') as (og & Ha & Hg). exists og. split; [|done].
        rewrite Ho. rewrite bool_decide_false; [done|]. intros Hx. destruct (l_igate h HL b ig Hb) as (_ & Hnd & _).
        rewrite Hp in Hnd. apply NoDup_app in Hnd as (_ & Hd & _). by apply (Hd a).
      * intros Hc Hin. destruct (l_in h HL c x a Hc Hin) as (og & Ha & Hg). exists og. split; [|done].
        rewrite Ho. rewrite bool_decide_false; [done|]. intros Hx%Hgone.
        destruct (l_in h HL b ig a Hb Hx) as (og' & Ha' & Hg'). congruence.
    + intros c x. rewrite Hi. destruct (decide (b = c)) as [<-|Hne]; [|apply HL].
      destruct rest as [ig'|]; [|done]. intros [= ->]. destruct Hrest as (Hne & Hp & Hm). split; [done|].
      destruct (l_igate h HL b ig Hb) as (_ & Hnd & Hmg). rewrite Hp in Hnd, Hmg. split; [by apply NoDup_app in Hnd as (_ & _ & ?)|].
      intros Hl. rewrite Hm. apply Hmg. rewrite length_app. lia.
    + intros a og. rewrite Ho. case_bool_decide; [done|apply HL].
  - split; [done|]. split.
    + intros a og. rewrite Ho. by case_bool_decide.
    + intros c x. rewrite Hi. destruct (decide (b = c)) as [<-|Hne]; [|by exists x].
      destruct rest as [ig'|]; [|done]. intros [= ->]. exists ig. split; [done|]. destruct Hrest as (_ & Hp & _). intros a. rewrite Hp. set_solver.
Qed.

Lemma RemoveOgate_spec ig a : a ∈ ogates_upstream ig -> NoDup (ogates_upstream ig) ->
  ogates_upstream ig ≡ₚ a :: ogates_upstream (RemoveOgate ig a) /\ mergeable (RemoveOgate ig a) = mergeable ig /\
  priority (RemoveOgate ig a) = priority ig /\ igate_index (RemoveOgate ig a) = igate_index ig.
Proof.
  intros Hin Hnd. unfold RemoveOgate. pose proof (erase_first_spec a (ogates_upstream ig)) as He.
  by destruct (erase_first a _) as [up|].
Qed.

Lemma DisconnectGate_spec h m M oi : links h -> h !! m = Some M ->
  exists h', DisconnectGate h m oi = Some h' /\ links h' /\ fewer h h' /\
    (forall a, ogate_at h' a = if decide ((m, oi) = a) then None else ogate_at h a) /\
    (forall c, (forall og, ogate_at h (m, oi) = Some og -> igate og <> c) -> igate_at h' c = igate_at h c).
Proof.
  intros HL HM. unfold DisconnectGate. rewrite HM. cbn [mbind option_bind].
  rewrite (is_active_ogate h m M oi HM). destruct (ogate_at h (m, oi)) as [og|] eqn:Hog.
  2: { rewrite bool_decide_false by (intros [? ?]; done). exists h. split; [done|]. split; [done|]. split; [apply fewer_refl|].
       split; [|done]. intros a. by destruct (decide _) as [<-|]. }
  rewrite bool_decide_true by done. cbn [negb mbind option_bind].
  destruct (l_out h HL _ _ Hog) as (ig & Hig & Hin). rewrite Hig. cbn [mbind option_bind].
  destruct (l_igate h HL _ _ Hig) as (_ & Hnd & _). destruct (RemoveOgate_spec ig (m, oi) Hin Hnd) as (Hp & Hm & _).
  set (rest := if bool_decide (ogates_upstream (RemoveOgate ig (m, oi)) = []) then None else Some (RemoveOgate ig (m, oi))).
  pose proof (igate_at_slot _ _ _ Hig) as Hsl. pose proof (ogate_at_slot _ _ _ Hog) as Hso.
  eexists. split; [done|].
  assert (Ho : forall a, ogate_at (set_ogate (set_igate h (igate og) rest) (m, oi) None) a =
    if decide ((m, oi) = a) then None else ogate_at h a).
  { intros a. rewrite ogate_at_set by (apply (ogate_slot_shape h); [apply same_shape_set_igate|done]).
    by rewrite ogate_at_set_igate. }
  assert (Hi : forall c, igate_at (set_ogate (set_igate h (igate og) rest) (m, oi) None) c =
    if decide (igate og = c) then rest else igate_at h c).
  { intros c. rewrite igate_at_set_ogate. by rewrite igate_at_set. }
  destruct (unlink h (igate og) ig [(m, oi)] rest (set_ogate (set_igate h (igate og) rest) (m, oi) None) HL Hig) as [HL' Hf].
  - apply sizes_set_ogate, sizes_set_igate, HL.
  - apply (same_shape_trans _ (set_igate h (igate og) rest)); auto with bess.
  - intros a. rewrite Ho. destruct (decide ((m, oi) = a)) as [<-|Hne]; [by rewrite bool_decide_true by set_solver|].
    by rewrite bool_decide_false by set_solver.
  - exact Hi.
  - unfold rest. case_bool_decide as Hnil; [by rewrite Hp, Hnil|]. by split.
  - split; [exact HL'|]. split; [exact Hf|]. split; [exact Ho|]. intros c Hc. rewrite Hi.
    by rewrite decide_False by (by apply Hc).
Qed.

Lemma clear_ogates h l : (forall a, a ∈ l -> ogate_slot h a) ->
  let h' := fold_left (fun h a => set_ogate h a None) l h in
  same_shape h h' /\ (sizes_ok h -> sizes_ok h') /\ (forall c, igate_at h' c = igate_at h c) /\
  (forall a, ogate_at h' a = if bool_decide (a ∈ l) then None else ogate_at h a).
Proof.
  revert h. induction l as [|x l IH]; intros h Hsl; cbn [fold_left].
  { split; [apply same_shape_refl|]. done. }
  destruct (IH (set_ogate h x None)) as (Hs & Hz & Hi & Ho).
  { intros a Ha. apply (ogate_slot_shape h); [apply same_shape_set_ogate|]. apply Hsl. by right. }
  split; [by apply (same_shape_trans _ (set_ogate h x None)); [apply same_shape_set_ogate|]|].
  split; [intros Hz0; by apply Hz, sizes_set_ogate|]. split; [intros c; by rewrite Hi, igate_at_set_ogate|].
  intros a. rewrite Ho. rewrite ogate_at_set by (apply Hsl; by left).
  do 2 case_bool_decide; destruct (decide (x = a)); set_solver.
Qed.

Lemma DisconnectModulesUpstream_spec h m M ii : links h -> h !! m = Some M -> (ii < NumIGates M)%nat ->
  exists h', DisconnectModulesUpstream h m ii = Some h' /\ links h' /\ fewer h h' /\
    (forall c, igate_at h' c = if decide ((m, ii) = c) then None else igate_at h c) /\
    (forall a, (forall og, ogate_at h a = Some og -> igate og <> (m, ii)) -> ogate_at h' a = ogate_at h a).
Proof.
  intros HL HM Hii. unfold DisconnectModulesUpstream. rewrite HM. cbn [mbind option_bind].
  apply Nat.ltb_lt in Hii as ->. rewrite (is_active_igate h m M ii HM). cbn [negb].
  destruct (igate_at h (m, ii)) as [ig|] eqn:Hig.
  2: { rewrite bool_decide_false by (intros [? ?]; done). exists h. split; [done|]. split; [done|]. split; [apply fewer_refl|].
       split; [|done]. intros a. by destruct (decide _) as [<-|]. }
  rewrite bool_decide_true by done. cbn [negb mbind option_bind].
  pose proof (igate_at_slot _ _ _ Hig) as Hsl.
  destruct (clear_ogates h (ogates_upstream ig)) as (Hs & Hz & Hi & Ho).
  { intros a Ha. destruct (l_in h HL _ _ _ Hig Ha) as (og & Hog & _). by eapply ogate_at_slot. }
  set (h1 := fold_left _ _ h) in *. eexists. split; [done|].
  assert (Hi' : forall c, igate_at (set_igate h1 (m, ii) None) c = if decide ((m, ii) = c) then None else igate_at h c).
  { intros c. rewrite igate_at_set by (by apply (igate_slot_shape h)). by rewrite Hi. }
  assert (Ho' : forall a, ogate_at (set_igate h1 (m, ii) None) a = if bool_decide (a ∈ ogates_upstream ig) then None else ogate_at h a).
  { intros a. by rewrite ogate_at_set_igate, Ho. }
  destruct (unlink h (m, ii) ig (ogates_upstream ig) None (set_igate h1 (m, ii) None) HL Hig) as [HL' Hf]; try done.
  - apply sizes_set_igate, Hz, HL.
  - apply (same_shape_trans _ h1); auto with bess.
  - split; [exact HL'|]. split; [exact Hf|]. split; [exact Hi'|]. intros a Ha. rewrite Ho'.
    case_bool_decide as Hin; [|done]. destruct (l_in h HL _ _ _ Hig Hin) as (og & Hog & Hg). by destruct (Ha og Hog).
Qed.

(** ** Destroying a module *)

(** The gates of other modules that are not linked to [m] stay. *)
Definition others_kept (m : nat) (h h' : heap) : Prop := forall a og, ogate_at h a = Some og ->
  a.1 <> m -> (igate og).1 <> m -> ogate_at h' a = Some og.

Lemma others_kept_trans m h1 h2 h3 : others_kept m h1 h2 -> others_kept m h2 h3 -> others_kept m h1 h3.
Proof. intros H12 H23 a og Ha H1 H2. by apply H23; [apply H12| |]. Qed.

Lemma fewer_lookup h h' m M : fewer h h' -> h !! m = Some M -> exists M', h' !! m = Some M' /\ NumIGates M' = NumIGates M /\
  name M' = name M /\ is_task M' = is_task M.
Proof.
  intros (Hs & _) HM. specialize (Hs m). rewrite HM in Hs. destruct (h' !! m) as [M'|]; [|done]. exists M'. intuition.
Qed.

Lemma upstream_loop h m M l : links h -> h !! m = Some M -> Forall (fun i => i < NumIGates M)%nat l ->
  exists h', foldl (fun r i => h ← r; DisconnectModulesUpstream h m i) (Some h) l = Some h' /\
    links h' /\ fewer h h' /\ others_kept m h h' /\ (forall i, i ∈ l -> igate_at h' (m, i) = None).
Proof.
  intros HL HM HF. revert h M HL HM HF. induction l as [|i l IH]; intros h M HL HM HF; cbn [foldl].
  { exists h. split; [done|]. split; [done|]. split; [apply fewer_refl|]. split; [by intros a og ?|]. by intros i ?%not_elem_of_nil. }
  apply Forall_cons in HF as [Hi HF]. cbn [mbind option_bind].
  destruct (DisconnectModulesUpstream_spec h m M i HL HM Hi) as (h1 & -> & HL1 & Hf1 & Hi1 & Ho1).
  destruct (fewer_lookup h h1 m M Hf1 HM) as (M1 & HM1 & Hn & _).
  destruct (IH h1 M1 HL1 HM1) as (h2 & -> & HL2 & Hf2 & Hk2 & Hn2); [by rewrite Hn|].
  exists h2. split; [done|]. split; [done|]. split; [by apply (fewer_trans _ h1)|]. split.
  - apply (others_kept_trans m h h1); [|done]. intros a og Ha _ Hne. rewrite Ho1; [done|].
    intros og' Ha' Heq. rewrite Ha in Ha'. injection Ha' as <-. by rewrite Heq in Hne.
  - intros j [->|Hj]%elem_of_cons; [|by apply Hn2]. destruct (igate_at h2 (m, i)) as [ig|] eqn:Hig; [|done].
    destruct Hf2 as (_ & _ & Hx). destruct (Hx _ _ Hig) as (ig0 & H0 & _). rewrite Hi1, decide_True in H0 by done. done.
Qed.

Lemma downstream_loop h m M l : links h -> h !! m = Some M ->
  exists h', foldl (fun r i => h ← r; DisconnectGate h m i) (Some h) l = Some h' /\
    links h' /\ fewer h h' /\ others_kept m h h' /\ (forall i, i ∈ l -> ogate_at h' (m, i) = None).
Proof.
  intros HL HM. revert h M HL HM. induction l as [|i l IH]; intros h M HL HM; cbn [foldl].
  { exists h. split; [done|]. split; [done|]. split; [apply fewer_refl|]. split; [by intros a og ?|]. by intros i ?%not_elem_of_nil. }
  cbn [mbind option_bind]. destruct (DisconnectGate_spec h m M i HL HM) as (h1 & -> & HL1 & Hf1 & Ho1 & Hi1).
  destruct (fewer_lookup h h1 m M Hf1 HM) as (M1 & HM1 & _).
  destruct (IH h1 M1 HL1 HM1) as (h2 & -> & HL2 & Hf2 & Hk2 & Hn2).
  exists h2. split; [done|]. split; [done|]. split; [by apply (fewer_trans _ h1)|]. split.
  - apply (others_kept_trans m h h1); [|done]. intros a og Ha Hne _. rewrite Ho1.
    rewrite decide_False; [done|]. intros <-. done.
  - intros j [->|Hj]%elem_of_cons; [|by apply Hn2]. destruct (ogate_at h2 (m, i)) as [og|] eqn:Hog; [|done].
    destruct Hf2 as (_ & Hx & _). apply Hx in Hog. rewrite Ho1, decide_True in Hog by done. done.
Qed.

Lemma Destroy_spec h m M : links h -> h !! m = Some M ->
  exists h', Destroy h m = Some h' /\ links h' /\ fewer h h' /\ others_kept m h h' /\
    (forall i, igate_at h' (m, i) = None /\ ogate_at h' (m, i) = None).
Proof.
  intros HL HM. unfold Destroy. rewrite HM. cbn [mbind option_bind].
  pose proof (l_sizes h HL m M HM) as [Hsi Hso].
  destruct (upstream_loop h m M (seq 0 (length (igates M))) HL HM) as (h1 & -> & HL1 & Hf1 & Hk1 & Hn1).
  { apply Forall_seq. intros j Hj. lia. }
  cbn [mbind option_bind]. destruct (h1 !! m) as [M1|] eqn:HM1.
  2: { destruct (fewer_lookup h h1 m M Hf1 HM) as (? & ? & _). congruence. }
  cbn [mbind option_bind].
  destruct (downstream_loop h1 m M1 (seq 0 (length (ogates M1))) HL1 HM1) as (h2 & -> & HL2 & Hf2 & Hk2 & Hn2).
  exists h2. split; [done|]. split; [done|]. split; [by apply (fewer_trans _ h1)|].
  split; [by apply (others_kept_trans m h h1)|]. intros i. split.
  - destruct (igate_at h2 (m, i)) as [ig|] eqn:Hig; [|done]. destruct Hf2 as (_ & _ & Hx2).
    destruct (Hx2 _ _ Hig) as (ig1 & Hig1 & _). destruct Hf1 as (_ & _ & Hx1). destruct (Hx1 _ _ Hig1) as (ig0 & Hig0 & _).
    apply igate_at_slot in Hig0 as (M0 & HM0 & Hl). cbn in HM0, Hl. rewrite HM in HM0. injection HM0 as <-.
    rewrite Hn1 in Hig1; [done|]. apply elem_of_seq. lia.
  - destruct (ogate_at h2 (m, i)) as [og|] eqn:Hog; [|done]. destruct Hf2 as (_ & Hx2 & _).
    pose proof (Hx2 _ _ Hog) as Ho1. apply ogate_at_slot in Ho1 as (M0 & HM0 & Hl). cbn in HM0, Hl. rewrite HM1 in HM0.
    injection HM0 as <-. rewrite Hn2 in Hog; [done|]. apply elem_of_seq. lia.
Qed.

Lemma delete_links h m M : links h -> h !! m = Some M ->
  (forall i, igate_at h (m, i) = None /\ ogate_at h (m, i) = None) -> links (delete m h) /\
  (forall a, igate_at (delete m h) a = igate_at h a) /\ (forall a, ogate_at (delete m h) a = ogate_at h a).
Proof.
  intros HL HM Hnone.
  assert (Hi : forall a, igate_at (delete m h) a = igate_at h a).
  { intros [m' i]. destruct (decide (m = m')) as [<-|Hne].
    - rewrite (proj1 (Hnone i)). unfold igate_at. cbn. by rewrite lookup_delete_eq.
    - unfold igate_at. cbn. by rewrite lookup_delete_ne. }
  assert (Ho : forall a, ogate_at (delete m h) a = ogate_at h a).
  { intros [m' i]. destruct (decide (m = m')) as [<-|Hne].
    - rewrite (proj2 (Hnone i)). unfold ogate_at. cbn. by rewrite lookup_delete_eq.
    - unfold ogate_at. cbn. by rewrite lookup_delete_ne. }
  split; [|done]. split.
  - intros m' M' [_ H]%lookup_delete_Some. by apply (l_sizes h HL m').
  - intros a og. rewrite Ho, Hi. apply HL.
  - intros b ig a. rewrite Ho, Hi. apply HL.
  - intros b ig. rewrite Hi. apply HL.
  - intros a og. rewrite Ho. apply HL.
Qed.

(** ** The module graph *)
Record graph_ok (g : ModuleGraph) : Prop := {
  g_links : links (modules g);
  g_named n m : (n, m) ∈ all_modules_ g <-> exists M, modules g !! m = Some M /\ name M = n;
  g_names : NoDup (map fst (all_modules_ g)) }.

Inductive operation :=
  | OpConnect (m ogate_idx m_next igate_idx : nat) (skip_default_hooks : bool)
  | OpDisconnect (m ogate_idx : nat)
  | OpCreate (m : nat) (M : Module)
  | OpDestroy (m : nat).

Definition perform (g : ModuleGraph) (op : operation) : option (ModuleGraph * (errno + unit)) :=
  match op with
  | OpConnect m o m' i skip => ConnectModules g m o m' i skip
  | OpDisconnect m o => DisconnectModule g m o
  | OpCreate m M => Some (CreateModule g m M)
  | OpDestroy m => g ← DestroyModule g m; Some (g, inr tt)
  end.

(** The modules an operation names are there; a new module has no gates yet. *)
Definition valid (g : ModuleGraph) (op : operation) : Prop :=
  match op with
  | OpConnect m _ m' _ _ => is_Some (modules g !! m) /\ is_Some (modules g !! m')
  | OpDisconnect m _ => is_Some (modules g !! m)
  | OpCreate m M => modules g !! m = None /\ igates M = [] /\ ogates M = []
  | OpDestroy m => is_Some (modules g !! m)
  end.

(** The gates that a connection names are among those its modules declare. *)
Definition ogate_declared (g : ModuleGraph) (m oi : nat) : Prop :=
  exists M, modules g !! m = Some M /\ (oi < NumOGates M)%nat.
Definition igate_declared (g : ModuleGraph) (m ii : nat) : Prop :=
  exists M, modules g !! m = Some M /\ (ii < NumIGates M)%nat.
Definition connectable (g : ModuleGraph) (m oi m' ii : nat) : Prop :=
  ogate_declared g m oi /\ Z.of_nat oi < MAX_GATES /\ igate_declared g m' ii /\ Z.of_nat ii < MAX_GATES.
(** A name that a new module cannot have. *)
Definition name_taken (g : ModuleGraph) (M : Module) : Prop :=
  (exists m' M', modules g !! m' = Some M' /\ name M' = name M) \/ (is_task M = true /\ name M ∈ tasks_ g).

(** Each outcome happens exactly in its case. *)
Definition effect (g : ModuleGraph) (op : operation) (g' : ModuleGraph) (r : errno + unit) : Prop :=
  let o := ogate_at (modules g) in let o' := ogate_at (modules g') in
  match op, r with
  | OpConnect m oi m' ii _, inr _ => connectable g m oi m' ii /\
      o (m, oi) = None /\ (exists og, o' (m, oi) = Some og /\ igate og = (m', ii)) /\
      (forall a, a <> (m, oi) -> o' a = o a)
  | OpConnect m oi m' ii _, inl EBUSY => connectable g m oi m' ii /\ modules g' = modules g /\ is_Some (o (m, oi))
  | OpConnect m oi m' ii _, inl EINVAL => ~ connectable g m oi m' ii /\ g' = g
  | OpDisconnect m oi, inr _ => ogate_declared g m oi /\ o' (m, oi) = None /\ (forall a, a <> (m, oi) -> o' a = o a)
  | OpDisconnect m oi, inl EINVAL => ~ ogate_declared g m oi /\ g' = g
  | OpCreate m M, inr _ => ~ name_taken g M /\ modules g' = <[m := M]> (modules g) /\ (name M, m) ∈ all_modules_ g'
  | OpCreate m M, inl ENOMEM => name_taken g M /\ modules g' = modules g /\ all_modules_ g' = all_modules_ g
  | OpDestroy m, inr _ => modules g' !! m = None /\ others_kept m (modules g) (modules g')
  | _, _ => False
  end.

Lemma insert_by_name_perm n m l : insert_by_name n m l ≡ₚ (n, m) :: l.
Proof.
  induction l as [|[n' m'] l IH]; cbn; [done|]. destruct (String.ltb n n'); [done|]. rewrite IH. apply Permutation_swap.
Qed.

(** A new heap with the same modules, as far as their names go. *)
Lemma graph_ok_shape g h ts ch n : graph_ok g -> same_shape (modules g) h -> links h ->
  graph_ok (MkGraph h (all_modules_ g) ts ch n).
Proof.
  intros [HL Hn Hnd] Hs HL'. split; [done| |done]. cbn. intros n' m. rewrite Hn. specialize (Hs m).
  destruct (modules g !! m) as [M|], (h !! m) as [M'|]; try done.
  split; intros (M0 & [= <-] & <-); eexists; intuition.
Qed.

Lemma perform_connect g m oi m' ii skip : graph_ok g -> valid g (OpConnect m oi m' ii skip) ->
  exists g' r, perform g (OpConnect m oi m' ii skip) = Some (g', r) /\ graph_ok g' /\ effect g (OpConnect m oi m' ii skip) g' r.
Proof.
  intros HG [[M HM] [N HN]]. cbn [perform]. unfold ConnectModules. rewrite HM. cbn [mbind option_bind].
  destruct (_ || _) eqn:Hc1.
  { exists g, (inl EINVAL). split; [done|split; [done|split; [|done]]]. intros ((M' & HM' & Ho) & Hm & _). simplify_eq.
    apply orb_true_iff in Hc1 as [Hc%Nat.leb_le|Hc%Z.leb_le]; lia. }
  rewrite HN. cbn [mbind option_bind]. destruct ((NumIGates N <=? ii)%nat || _) eqn:Hc2.
  { exists g, (inl EINVAL). split; [done|split; [done|split; [|done]]]. intros (_ & _ & (N' & HN' & Hi) & Hm). simplify_eq.
    apply orb_true_iff in Hc2 as [Hc%Nat.leb_le|Hc%Z.leb_le]; lia. }
  apply orb_false_iff in Hc1 as [Hoi%Nat.leb_gt Hoi'%Z.leb_gt]. apply orb_false_iff in Hc2 as [Hii%Nat.leb_gt Hii'%Z.leb_gt].
  assert (Hcan : connectable g m oi m' ii) by (split; [by exists M|split; [done|split; [by exists N|done]]]).
  pose proof (g_links g HG) as HL. destruct (ogate_at (modules g) (m, oi)) as [og|] eqn:Hog.
  { rewrite (ConnectGate_busy _ _ _ _ m' ii og HM Hog). cbn [mbind option_bind]. exists (with_modules g (modules g)), (inl EBUSY).
    split; [done|]. split; [apply graph_ok_shape; [done|apply same_shape_refl|done]|]. by split. }
  destruct (connect_links _ m M oi m' N ii HL HM HN Hog Hoi Hii) as (h & -> & Hs & HL' & Ho & Hi). cbn [mbind option_bind].
  destruct skip.
  - exists (with_modules g h), (inr tt). split; [done|]. split; [by apply graph_ok_shape|]. cbn. split; [done|]. split; [done|].
    split; [rewrite Ho, decide_True by done; by eexists|]. intros a Ha. rewrite Ho. by rewrite decide_False by congruence.
  - assert (ogate_at h (m, oi) = Some (MkOGate (m', ii) 0 [])) as Hnew by (by rewrite Ho, decide_True).
    rewrite Hnew. cbn [mbind option_bind]. set (og := MkOGate (m', ii) 0 []) in *.
    exists (with_modules g (set_ogate h (m, oi) (Some (AddTrackHook og)))), (inr tt). split; [done|]. split.
    + apply graph_ok_shape; [done|by apply (same_shape_trans _ h); auto with bess|].
      apply (set_ogate_links h (m, oi) og); [done|done|done|apply AddTrackHook_ok, hooks_ok_nil].
    + cbn [effect modules with_modules]. pose proof (ogate_at_slot _ _ _ Hnew) as Hsl. split; [done|]. split; [done|]. split.
      * rewrite ogate_at_set, decide_True by done. by eexists.
      * intros a Ha. rewrite ogate_at_set by done. rewrite decide_False by congruence. rewrite Ho.
        by rewrite decide_False by congruence.
Qed.

Lemma perform_disconnect g m oi : graph_ok g -> valid g (OpDisconnect m oi) ->
  exists g' r, perform g (OpDisconnect m oi) = Some (g', r) /\ graph_ok g' /\ effect g (OpDisconnect m oi) g' r.
Proof.
  intros HG [M HM]. cbn [perform]. unfold DisconnectModule. rewrite HM. cbn [mbind option_bind].
  destruct (Nat.leb_spec (NumOGates M) oi).
  { exists g, (inl EINVAL). split; [done|split; [done|split; [|done]]]. intros (M' & HM' & Hlt). simplify_eq. lia. }
  destruct (DisconnectGate_spec _ m M oi (g_links g HG) HM) as (h & -> & HL & Hf & Ho & _). cbn [mbind option_bind].
  exists (with_modules g h), (inr tt). split; [done|]. split; [apply graph_ok_shape; [done|apply Hf|done]|]. cbn.
  split; [by exists M|]. split; [by rewrite Ho, decide_True|]. intros a Ha. rewrite Ho. by rewrite decide_False by congruence.
Qed.

Lemma perform_create g m M : graph_ok g -> valid g (OpCreate m M) ->
  exists g' r, perform g (OpCreate m M) = Some (g', r) /\ graph_ok g' /\ effect g (OpCreate m M) g' r.
Proof.
  intros HG (Hm & HiM & HoM). cbn [perform]. unfold CreateModule. destruct (is_task M && _) eqn:Htk.
  { exists g, (inl ENOMEM). split; [done|split; [done|split; [|done]]]. apply andb_true_iff in Htk as [Ht Hin].
    right. split; [done|]. by apply bool_decide_eq_true in Hin. }
  destruct HG as [HL Hn Hnd].
  assert (Hused : name M ∈ map fst (all_modules_ g) <-> exists m' M', modules g !! m' = Some M' /\ name M' = name M).
  { rewrite list_elem_of_fmap. split.
    - intros ([n m'] & Heq & (M' & HM' & Hnm)%Hn). cbn in Heq. exists m', M'. split; [done|congruence].
    - intros (m' & M' & HM' & Hnm). exists (name M, m'). split; [done|]. apply Hn. by exists M'. }
  destruct (bool_decide (name M ∈ map fst (all_modules_ g))) eqn:Hdup.
  { apply bool_decide_eq_true in Hdup. do 2 eexists. split; [done|]. split; [by split|]. split; [left; by apply Hused|done]. }
  apply bool_decide_eq_false in Hdup.
  do 2 eexists. split; [done|]. cbn. split.
  2: { split; [|split; [done|]].
    { intros [Hx|[Ht Hin]]; [by apply Hdup, Hused|]. rewrite Ht, (bool_decide_eq_true_2 _ Hin) in Htk. done. } rewrite insert_by_name_perm. by left. }
  pose proof (insert_by_name_perm (name M) m (all_modules_ g)) as Hp.
  assert (Hi : forall a, igate_at (<[m := M]> (modules g)) a = igate_at (modules g) a).
  { intros [m' i]. unfold igate_at. cbn. destruct (decide (m = m')) as [<-|]; [|by rewrite lookup_insert_ne].
    rewrite lookup_insert_eq, Hm. cbn. by rewrite HiM. }
  assert (Ho : forall a, ogate_at (<[m := M]> (modules g)) a = ogate_at (modules g) a).
  { intros [m' i]. unfold ogate_at. cbn. destruct (decide (m = m')) as [<-|]; [|by rewrite lookup_insert_ne].
    rewrite lookup_insert_eq, Hm. cbn. by rewrite HoM. }
  split; cbn.
  - split.
    + apply sizes_insert; [apply HL|]. rewrite HiM, HoM. cbn. lia.
    + intros a og. rewrite Ho, Hi. apply HL.
    + intros b ig a. rewrite Ho, Hi. apply HL.
    + intros b ig. rewrite Hi. apply HL.
    + intros a og. rewrite Ho. apply HL.
  - intros n m'. rewrite Hp, elem_of_cons, Hn. destruct (decide (m = m')) as [<-|Hne].
    + rewrite lookup_insert_eq, Hm. split.
      * intros [[= ->]|(? & ? & _)]; [by eexists|done].
      * intros (? & [= <-] & <-). by left.
    + rewrite lookup_insert_ne by done. split; [intros [[= ? ?]|?]; [congruence|done]|by right].
  - rewrite Hp. cbn. by apply NoDup_cons.
Qed.

Lemma perform_destroy g m : graph_ok g -> valid g (OpDestroy m) ->
  exists g' r, perform g (OpDestroy m) = Some (g', r) /\ graph_ok g' /\ effect g (OpDestroy m) g' r.
Proof.
  intros [HL Hn Hnd] [M HM]. cbn [perform]. unfold DestroyModule.
  destruct (Destroy_spec _ m M HL HM) as (h & -> & HL' & Hf & Hk & Hnone). cbn [mbind option_bind].
  destruct (fewer_lookup _ h m M Hf HM) as (M' & HM' & _ & Hname & _). rewrite HM'. cbn [mbind option_bind].
  destruct (delete_links h m M' HL' HM' Hnone) as (HLd & Hid & Hod). do 2 eexists. split; [done|]. split; cbn.
  - split; cbn; [done| |].
    + intros n m'. rewrite list_elem_of_filter. cbn. rewrite Hn, Hname. split.
      * intros (Hne & M0 & HM0 & Hn0). destruct (decide (m = m')) as [<-|Hm]; [congruence|].
        destruct (fewer_lookup _ h m' M0 Hf HM0) as (M1 & HM1 & _ & Hn1 & _). exists M1. rewrite lookup_delete_ne by done.
        split; [done|congruence].
      * intros (M1 & [Hm HM1]%lookup_delete_Some & Hn1). destruct Hf as (Hs & _). specialize (Hs m').
        rewrite HM1 in Hs. destruct (modules g !! m') as [M0|] eqn:HM0; [|done].
        assert (name M0 = n) as Hn0 by (destruct Hs as (_ & _ & _ & ? & _); congruence). split; [|by exists M0].
        intros Heq. apply Hm. assert (forall a b, a ∈ all_modules_ g -> b ∈ all_modules_ g -> a.1 = b.1 -> a = b) as Hinj.
        { intros a b Ha Hb Hab. by apply (NoDup_map_inj fst (all_modules_ g)). }
        assert ((name M, m) = (n, m')) as [=]; [|done].
        apply Hinj; [apply Hn; by exists M|apply Hn; by exists M0|cbn; congruence].
    + eapply sublist_NoDup; [exact Hnd|]. apply fmap_sublist. apply sublist_filter.
  - split; [by rewrite lookup_delete_eq|]. intros a og Ha H1 H2. rewrite Hod. by apply Hk.
Qed.


(** Destroying all modules leaves none. *)
Lemma filter_names n m (l : list (string * nat)) : NoDup (map fst ((n, m) :: l)) -> filter (fun x => x.1 <> n) ((n, m) :: l) = l.
Proof.
  intros [Hn _]%NoDup_cons. rewrite filter_cons_False by (cbn; tauto).
  induction l as [|x l IH]; [done|]. cbn in Hn. apply not_elem_of_cons in Hn as [Hx Hn].
  rewrite filter_cons_True by (cbn; congruence). f_equal. by apply IH.
Qed.

Lemma destroy_list l g : graph_ok g -> all_modules_ g = l ->
  exists g', foldl (fun r x => g ← r; DestroyModule g x.2) (Some g) l = Some g' /\ graph_ok g' /\ all_modules_ g' = [].
Proof.
  revert g. induction l as [|[n m] l IH]; intros g HG Hl; cbn [foldl]; [by exists g|].
  assert (is_Some (modules g !! m) /\ name <$> (modules g !! m) = Some n) as [Hm Hn].
  { assert ((n, m) ∈ all_modules_ g) as Hin by (rewrite Hl; by left). apply (g_named g HG) in Hin as (M & -> & <-). by split. }
  destruct (perform_destroy g m HG Hm) as (g' & r & Hp & HG' & _). cbn in Hp.
  destruct (DestroyModule g m) as [g1|] eqn:HD; [|done]. cbn in Hp. injection Hp as -> _. cbn [mbind option_bind snd].
  rewrite HD. apply IH; [done|]. unfold DestroyModule in HD. destruct Hm as [M HM].
  destruct (Destroy_spec _ m M (g_links g HG) HM) as (h & Hd & HL' & Hf & _). rewrite Hd in HD. cbn [mbind option_bind] in HD.
  destruct (fewer_lookup _ h m M Hf HM) as (M' & HM' & _ & Hname & _). rewrite HM' in HD. cbn [mbind option_bind] in HD.
  injection HD as <-. cbn [all_modules_]. rewrite HM in Hn. injection Hn as Hn. rewrite Hname, Hn, Hl. apply filter_names.
  rewrite <- Hl. apply HG.
Qed.

Lemma DestroyAllModules_empty g : graph_ok g ->
  exists g', DestroyAllModules g = Some g' /\ graph_ok g' /\ all_modules_ g' = [] /\ modules g' = ∅.
Proof.
  intros HG. unfold DestroyAllModules. destruct (destroy_list (all_modules_ g) (with_modules g (modules g))) as (g' & -> & HG' & Hnil).
  - apply graph_ok_shape; [done|apply same_shape_refl|apply HG].
  - done.
  - exists g'. split; [done|]. split; [done|]. split; [done|]. apply map_empty. intros m.
    destruct (modules g' !! m) as [M|] eqn:HM; [|done]. exfalso. apply (not_elem_of_nil (name M, m)). rewrite <- Hnil.
    apply (g_named g' HG'). by exists M.
Qed.

(** ** Sequences of operations *)
Fixpoint run (g : ModuleGraph) (ops : list operation) : option ModuleGraph :=
  match ops with
  | [] => Some g
  | op :: ops' => r ← perform g op; run r.1 ops'
  end.

Definition validb (g : ModuleGraph) (op : operation) : bool :=
  match op with
  | OpConnect m _ m' _ _ => bool_decide (is_Some (modules g !! m)) && bool_decide (is_Some (modules g !! m'))
  | OpDisconnect m _ => bool_decide (is_Some (modules g !! m))
  | OpCreate m M => negb (bool_decide (is_Some (modules g !! m))) && (length (igates M) =? 0)%nat && (length (ogates M) =? 0)%nat
  | OpDestroy m => bool_decide (is_Some (modules g !! m))
  end.

Lemma validb_spec g op : validb g op = true -> valid g op.
Proof.
  destruct op as [m o m' i s|m o|m M|m]; cbn; rewrite ?andb_true_iff, ?negb_true_iff, ?bool_decide_eq_true, ?bool_decide_eq_false, ?Nat.eqb_eq; try done.
  intros [[Hm Hi] Ho]. split; [by apply eq_None_not_Some|]. split; by apply nil_length_inv.
Qed.

Fixpoint all_valid (g : ModuleGraph) (ops : list operation) : bool :=
  match ops with
  | [] => true
  | op :: ops' => validb g op && match perform g op with Some r => all_valid r.1 ops' | None => false end
  end.

Lemma run_ok g ops : graph_ok g -> all_valid g ops = true -> exists g', run g ops = Some g' /\ graph_ok g'.
Proof.
  revert g. induction ops as [|op ops IH]; intros g HG; cbn; [by exists g|].
  intros [Hv%validb_spec Hall]%andb_true_iff.
  assert (exists g' r, perform g op = Some (g', r) /\ graph_ok g' /\ effect g op g' r) as (g' & r & He & HG' & _).
  { destruct op; [by apply perform_connect|by apply perform_disconnect|by apply perform_create|by apply perform_destroy]. }
  rewrite He in *. cbn in *. by apply IH.
Qed.

Definition empty_graph : ModuleGraph := MkGraph ∅ [] [] false 0.

Lemma empty_graph_ok : graph_ok empty_graph.
Proof.
  split; [|cbn; intros n m; rewrite lookup_empty|constructor].
  - split; try done; intros x y; unfold igate_at, ogate_at; cbn; rewrite ?lookup_empty; done.
  - split; [by intros ?%not_elem_of_nil|by intros (? & ? & _)].
Qed.

(** A source, which is a task, a classifier with two outputs and a sink. *)
Definition new_module (n : string) (task : bool) : Module := MkModule n 4 4 task [] [] [] [].
Definition ex_ops : list operation :=
  [OpCreate 0 (new_module "source0" true); OpCreate 1 (new_module "split0" false); OpCreate 2 (new_module "sink0" false);
   OpConnect 0 0 1 0 false; OpConnect 1 0 2 0 false; OpConnect 1 1 2 0 false].
Definition ex_graph : ModuleGraph := default empty_graph (run empty_graph ex_ops).

Lemma ex_graph_ok : graph_ok ex_graph.
Proof.
  destruct (run_ok empty_graph ex_ops empty_graph_ok) as (g & Hg & HG); [vm_compute; reflexivity|].
  unfold ex_graph. by rewrite Hg.
Qed.


(** [RemoveOgate] returns before it updates [mergeable_]: a gate with one upstream gate
    left is still taken for one that merges. *)
Lemma mergeable_stays :
  match perform ex_graph (OpDisconnect 1 1) with
  | Some (g', _) => (fun ig => (ogates_upstream ig, mergeable ig)) <$> igate_at (modules g') (2%nat, 0%nat)
  | None => None
  end = Some ([(1%nat, 0%nat)], true).
Proof. vm_compute. reflexivity. Qed.
