(* ===== verification/TaskGraph.v ===== *)
(** The task graph: [UpdateTaskGraph] of [core/module_graph.cc] and what it calls.

    It tells every task which tasks feed it, gives every input gate a priority (its
    distance from a task along the longest path) and numbers the gates, by which
    [core/task.h] finds the batch of a gate.  The recursions take fuel; enough of it is
    shown to be the number of input gates. *)
From stdpp Require Import sorting.
From S2P Require Import Prelude Common PriorityQueue Gate ModuleGraph.
Open Scope Z_scope.

(** The input gates that the output gates of a module lead to, in order. *)
Definition next_igates (M : Module) : list gate_id := omap (fun x => igate <$> x) (ogates M).

(** ** Parent tasks *)
Definition AddParentTask (h : heap) (m task : nat) : heap :=
  alter (fun M => with_parents M (parent_tasks M ++ [task])) m h.

Fixpoint UpdateParentsAs (fuel : nat) (task : nat) (hv : heap * gset nat) (m : nat) : option (heap * gset nat) :=
  match fuel with
  | O => None
  | S fuel' =>
      let '(h, visited_modules) := hv in
      let visited_modules := {[m]} ∪ visited_modules in
      M ← h !! m;
      if is_task M then Some (AddParentTask h m task, visited_modules)
      else
        foldl (fun r a => hv ← r; if bool_decide (a.1 ∈ hv.2) then Some hv else UpdateParentsAs fuel' task hv a.1)
              (Some (h, visited_modules)) (next_igates M)
  end.

Definition UpdateSingleTaskGraph (fuel : nat) (h : heap) (task_module : nat) : option heap :=
  M ← h !! task_module;
  fst <$> foldl (fun r a => hv ← r; if bool_decide (a.1 ∈ hv.2) then Some hv else UpdateParentsAs fuel task_module hv a.1)
                (Some (h, {[task_module]})) (next_igates M).

(** ** Priorities *)
Definition prio (h : heap) (b : gate_id) : Z := default 0 (priority <$> igate_at h b).
Definition set_prio (h : heap) (b : gate_id) (p : Z) : heap :=
  match igate_at h b with Some ig => set_igate h b (Some (SetPriority ig p)) | None => h end.

(** The loop over the output gates, which is the same in both functions. *)
Definition visit_next (rec : heap -> gate_id -> gset gate_id -> Z -> option heap)
    (visited_igates : gset gate_id) (p : Z) (r : option heap) (next : gate_id) : option heap :=
  h ← r;
  if bool_decide (next ∈ visited_igates) || (p <=? prio h next) then Some h
  else rec (set_prio h next p) next ({[next]} ∪ visited_igates) (u32 (p + 1)).

Fixpoint PropagateIGatePriority (fuel : nat) (h : heap) (b : gate_id) (visited_igates : gset gate_id) (p : Z) : option heap :=
  match fuel with
  | O => None
  | S fuel' =>
      M ← h !! b.1;
      if is_task M then Some h
      else foldl (visit_next (PropagateIGatePriority fuel') visited_igates p) (Some h) (next_igates M)
  end.

Definition SetIGatePriority (fuel : nat) (h : heap) (task_module : nat) : option heap :=
  M ← h !! task_module;
  foldl (visit_next (PropagateIGatePriority fuel) ∅ 1) (Some h) (next_igates M).

(** ** Numbers *)
Section numbers.
(** [std::less] on pointers to output gates. *)
Context (ptr_less : gate_id -> gate_id -> bool).

(** [IGateGreater] *)
Definition igate_greater (h : heap) (left right : gate_id) : bool := prio h right <? prio h left.

Definition active_ogates (h : heap) (m : nat) : list gate_id :=
  match h !! m with
  | Some M => filter (fun a => is_Some (ogate_at h a)) (map (pair m) (seq 0 (length (ogates M))))
  | None => []
  end.

Definition push_gate (h : heap) (r : option (list gate_id * list gate_id * gset gate_id)) (a : gate_id)
    : option (list gate_id * list gate_id * gset gate_id) :=
  '(ogates_queue, igates_queue, igates_pushed) ← r;
  og ← ogate_at h a;
  ogates_queue ← push ptr_less ogates_queue a;
  if bool_decide (igate og ∈ igates_pushed) then Some (ogates_queue, igates_queue, igates_pushed)
  else
    igates_queue ← push (igate_greater h) igates_queue (igate og);
    Some (ogates_queue, igates_queue, {[igate og]} ∪ igates_pushed).

(** [while (!queue.empty())]: the gates in the order in which they leave the queue. *)
Fixpoint drain (less : gate_id -> gate_id -> bool) (fuel : nat) (q : list gate_id) : option (list gate_id) :=
  match PriorityQueue.top q with
  | None => Some []
  | Some x => match fuel with
              | O => None
              | S fuel' => q ← pop less q; l ← drain less fuel' q; Some (x :: l)
              end
  end.

(** [SetUniqueIdx(gate_cnt_++)] *)
Definition number_igate (s : heap * Z) (b : gate_id) : heap * Z :=
  (match igate_at s.1 b with Some ig => set_igate s.1 b (Some (set_igate_index ig s.2)) | None => s.1 end, u32 (s.2 + 1)).
Definition number_ogate (s : heap * Z) (a : gate_id) : heap * Z :=
  (match ogate_at s.1 a with Some og => set_ogate s.1 a (Some (set_ogate_index og s.2)) | None => s.1 end, u32 (s.2 + 1)).

Definition SetUniqueGateIdx (g : ModuleGraph) : option ModuleGraph :=
  let h := modules g in
  '(oq, iq, _) ← foldl (push_gate h) (Some ([], [], ∅)) (concat (map (fun x => active_ogates h x.2) (all_modules_ g)));
  il ← drain (igate_greater h) (length iq) iq;
  ol ← drain ptr_less (length oq) oq;
  let s := foldl number_igate (h, 0) il in
  let s := foldl number_ogate s ol in
  Some (MkGraph s.1 (all_modules_ g) (tasks_ g) (changes_made_ g) s.2).

(** ** [UpdateTaskGraph] *)
Definition find_module (g : ModuleGraph) (n : string) : option nat :=
  snd <$> List.find (fun x => bool_decide (x.1 = n)) (all_modules_ g).

Definition CleanTaskGraph (g : ModuleGraph) : heap :=
  foldl (fun h t => match find_module g t with Some m => alter (fun M => with_parents M []) m h | None => h end)
        (modules g) (tasks_ g).

(** More calls than there are input gates or modules are never nested. *)
Definition graph_fuel (h : heap) : nat := S (size h + sum_list (map (fun x => length (igates x.2)) (map_to_list h))).

Definition UpdateTaskGraph (g : ModuleGraph) : option ModuleGraph :=
  if negb (changes_made_ g) then Some g
  else
    let h := CleanTaskGraph g in
    h ← foldl (fun r t => h ← r;
          match find_module g t with
          | Some m => h ← UpdateSingleTaskGraph (graph_fuel h) h m; SetIGatePriority (graph_fuel h) h m
          | None => Some h
          end) (Some h) (tasks_ g);
    g ← SetUniqueGateIdx (MkGraph h (all_modules_ g) (tasks_ g) (changes_made_ g) (gate_cnt_ g));
    Some (MkGraph (modules g) (all_modules_ g) (tasks_ g) false (gate_cnt_ g)).
End numbers.

(** ** The numbers are unique *)
Section drained.
Context (less : gate_id -> gate_id -> bool).
Context (asym : forall a b, less a b = true -> less b a = false).
Context (ntrans : forall a b c, less a b = false -> less b c = false -> less a c = false).

Lemma drain_spec q : is_heap less q -> exists l, drain less (length q) q = Some l /\ l ≡ₚ q /\
  StronglySorted (fun a b => less a b = false) l.
Proof using asym ntrans.
  remember (length q) as n eqn:Hn. revert q Hn. induction n as [|n IH]; intros q Hn Hq.
  { destruct q; [|done]. exists []. split; [done|]. split; [done|constructor]. }
  cbn [drain]. destruct (PriorityQueue.top q) as [x|] eqn:Hx; [|destruct q; cbn in Hx; done].
  destruct (pop_spec less asym ntrans q x (heap_weaken _ _ Hq) Hx) as (w & -> & Hw & Hp). cbn [mbind option_bind].
  destruct (IH w) as (l & -> & Hl & Hs); [apply Permutation_length in Hp; cbn in Hp; lia|done|]. cbn [mbind option_bind].
  exists (x :: l). split; [done|]. split; [by rewrite Hl, Hp|]. constructor; [done|].
  apply Forall_forall. intros y Hy. apply (heap_top less asym ntrans q x y Hq Hx). rewrite Hp, <- Hl. by right.
Qed.
End drained.

Section numbering.
Context (ptr_less : gate_id -> gate_id -> bool).
Context (ptr_asym : forall a b, ptr_less a b = true -> ptr_less b a = false).
Context (ptr_ntrans : forall a b c, ptr_less a b = false -> ptr_less b c = false -> ptr_less a c = false).

Lemma igate_greater_asym h a b : igate_greater h a b = true -> igate_greater h b a = false.
Proof. unfold igate_greater. rewrite Z.ltb_lt, Z.ltb_ge. lia. Qed.
Lemma igate_greater_ntrans h a b c :
  igate_greater h a b = false -> igate_greater h b c = false -> igate_greater h a c = false.
Proof. unfold igate_greater. rewrite !Z.ltb_ge. lia. Qed.

Lemma push_gates_spec h l oq iq pushed : is_heap ptr_less oq -> is_heap (igate_greater h) iq -> NoDup iq ->
  (forall b, b ∈ pushed <-> b ∈ iq) -> (forall a, a ∈ l -> is_Some (ogate_at h a)) ->
  exists oq' iq' pushed', foldl (push_gate ptr_less h) (Some (oq, iq, pushed)) l = Some (oq', iq', pushed') /\
    is_heap ptr_less oq' /\ is_heap (igate_greater h) iq' /\ NoDup iq' /\ oq' ≡ₚ l ++ oq /\
    (forall b, b ∈ iq' <-> b ∈ iq \/ exists a og, a ∈ l /\ ogate_at h a = Some og /\ igate og = b).
Proof using ptr_asym ptr_ntrans.
  revert oq iq pushed. induction l as [|a l IH]; intros oq iq pushed Ho Hi Hnd Hp Hl; cbn [foldl].
  { do 3 eexists. split; [done|]. split; [done|]. split; [done|]. split; [done|]. split; [done|].
    intros b. split; [by left|]. intros [?|(a & og & Ha & _)]; [done|by apply not_elem_of_nil in Ha]. }
  destruct (Hl a) as [og Hog]; [by left|]. unfold push_gate at 2. rewrite Hog. cbn [mbind option_bind].
  destruct (push_spec ptr_less ptr_asym ptr_ntrans oq a Ho) as (oq1 & -> & Ho1 & Hpo). cbn [mbind option_bind].
  assert (Hl' : forall x, x ∈ l -> is_Some (ogate_at h x)) by (intros x Hx; apply Hl; by right).
  case_bool_decide as Hpu.
  - destruct (IH oq1 iq pushed Ho1 Hi Hnd Hp Hl') as (oq' & iq' & pu' & -> & H1 & H2 & H3 & H4 & H5).
    do 3 eexists. split; [done|]. split; [done|]. split; [done|]. split; [done|].
    split; [by rewrite H4, Hpo; cbn; rewrite Permutation_middle|]. intros b. rewrite H5. split.
    + intros [?|(x & ogx & Hx & Hr)]; [by left|right; exists x, ogx; split; [by right|done]].
    + intros [?|(x & ogx & [->|Hx]%elem_of_cons & Hr1 & Hr2)]; [by left| |right; by exists x, ogx].
      left. apply Hp. rewrite Hog in Hr1. injection Hr1 as <-. by rewrite <- Hr2.
  - destruct (push_spec (igate_greater h) (igate_greater_asym h) (igate_greater_ntrans h) iq (igate og) Hi)
      as (iq1 & -> & Hi1 & Hpi). cbn [mbind option_bind].
    destruct (IH oq1 iq1 ({[igate og]} ∪ pushed) Ho1 Hi1) as (oq' & iq' & pu' & -> & H1 & H2 & H3 & H4 & H5); [| |done|].
    { rewrite Hpi. apply NoDup_cons. split; [|done]. by rewrite <- Hp. }
    { intros b. rewrite Hpi, elem_of_union, elem_of_singleton, elem_of_cons, Hp. done. }
    do 3 eexists. split; [done|]. split; [done|]. split; [done|]. split; [done|].
    split; [by rewrite H4, Hpo; cbn; rewrite Permutation_middle|]. intros b. rewrite H5, Hpi, elem_of_cons. split.
    + intros [[->|?]|(x & ogx & Hx & Hr)]; [right; exists a, og; split; [by left|done]|by left|].
      right. exists x, ogx. split; [by right|done].
    + intros [?|(x & ogx & [->|Hx]%elem_of_cons & Hr1 & Hr2)]; [by left; right| |right; by exists x, ogx].
      left. left. rewrite Hog in Hr1. by injection Hr1 as <-.
Qed.

Lemma number_igates_spec l h n : NoDup l -> (forall b, b ∈ l -> is_Some (igate_at h b)) ->
  0 <= n -> n + Z.of_nat (length l) < 2 ^ 32 -> links h ->
  let s := foldl number_igate (h, n) l in
  s.2 = n + Z.of_nat (length l) /\ same_shape h s.1 /\ links s.1 /\ (forall a, ogate_at s.1 a = ogate_at h a) /\
  (forall b, b ∉ l -> igate_at s.1 b = igate_at h b) /\
  (forall k b ig, l !! k = Some b -> igate_at h b = Some ig -> igate_at s.1 b = Some (set_igate_index ig (n + Z.of_nat k))).
Proof.
  revert h n. induction l as [|b l IH]; intros h n Hnd Hl Hn Hmax HL; cbn [foldl length].
  { split; [cbn; lia|]. split; [apply same_shape_refl|]. by split. }
  apply NoDup_cons in Hnd as [Hb Hnd]. destruct (Hl b) as [ig Hig]; [by left|].
  unfold number_igate at 2 4 6 8 10 12. cbn [fst snd]. rewrite Hig.
  pose proof (igate_at_slot _ _ _ Hig) as Hsl. set (h1 := set_igate h b (Some (set_igate_index ig n))).
  rewrite (wrap_small 32 (n + 1)) by (unfold in_word; cbn [length] in Hmax; lia).
  assert (Hi1 : forall c, igate_at h1 c = if decide (b = c) then Some (set_igate_index ig n) else igate_at h c)
    by (intros c; by apply igate_at_set).
  destruct (IH h1 (n + 1)) as (H2 & Hs & HL2 & Ho & Hout & Hin); [done| |lia|cbn [length] in Hmax; lia| |].
  { intros c Hc. rewrite Hi1. destruct (decide (b = c)) as [->|]; [done|]. apply Hl. by right. }
  { by apply (set_igate_links h b ig). }
  split; [rewrite H2; lia|]. split; [apply (same_shape_trans _ h1); [apply same_shape_set_igate|done]|]. split; [done|].
  split; [intros a; by rewrite Ho; unfold h1; rewrite ogate_at_set_igate|]. split.
  - intros c [Hne Hc]%not_elem_of_cons. rewrite Hout by done. rewrite Hi1. by rewrite decide_False.
  - intros [|k] c igc; cbn [lookup list_lookup].
    + intros [= <-] Hc. rewrite Hout by done. rewrite Hi1, decide_True by done. rewrite Hig in Hc. injection Hc as <-.
      by rewrite Z.add_0_r.
    + intros Hk Hc. assert (b <> c) by (intros ->; by apply Hb, (list_elem_of_lookup_2 _ k)).
      rewrite (Hin k c igc Hk); [f_equal; f_equal; lia|]. rewrite Hi1. by rewrite decide_False.
Qed.

Lemma number_ogates_spec l h n : NoDup l -> (forall a, a ∈ l -> is_Some (ogate_at h a)) ->
  0 <= n -> n + Z.of_nat (length l) < 2 ^ 32 -> links h ->
  let s := foldl number_ogate (h, n) l in
  s.2 = n + Z.of_nat (length l) /\ same_shape h s.1 /\ links s.1 /\ (forall b, igate_at s.1 b = igate_at h b) /\
  (forall a, a ∉ l -> ogate_at s.1 a = ogate_at h a) /\
  (forall k a og, l !! k = Some a -> ogate_at h a = Some og -> ogate_at s.1 a = Some (set_ogate_index og (n + Z.of_nat k))).
Proof.
  revert h n. induction l as [|a l IH]; intros h n Hnd Hl Hn Hmax HL; cbn [foldl length].
  { split; [cbn; lia|]. split; [apply same_shape_refl|]. by split. }
  apply NoDup_cons in Hnd as [Ha Hnd]. destruct (Hl a) as [og Hog]; [by left|].
  unfold number_ogate at 2 4 6 8 10 12. cbn [fst snd]. rewrite Hog.
  pose proof (ogate_at_slot _ _ _ Hog) as Hsl. set (h1 := set_ogate h a (Some (set_ogate_index og n))).
  rewrite (wrap_small 32 (n + 1)) by (unfold in_word; cbn [length] in Hmax; lia).
  assert (Ho1 : forall c, ogate_at h1 c = if decide (a = c) then Some (set_ogate_index og n) else ogate_at h c)
    by (intros c; by apply ogate_at_set).
  destruct (IH h1 (n + 1)) as (H2 & Hs & HL2 & Hi & Hout & Hin); [done| |lia|cbn [length] in Hmax; lia| |].
  { intros c Hc. rewrite Ho1. destruct (decide (a = c)) as [->|]; [done|]. apply Hl. by right. }
  { apply (set_ogate_links h a og); [done|done|done|]. exact (l_hooks h HL a og Hog). }
  split; [rewrite H2; lia|]. split; [apply (same_shape_trans _ h1); [apply same_shape_set_ogate|done]|]. split; [done|].
  split; [intros b; by rewrite Hi; unfold h1; rewrite igate_at_set_ogate|]. split.
  - intros c [Hne Hc]%not_elem_of_cons. rewrite Hout by done. rewrite Ho1. by rewrite decide_False.
  - intros [|k] c ogc; cbn [lookup list_lookup].
    + intros [= <-] Hc. rewrite Hout by done. rewrite Ho1, decide_True by done. rewrite Hog in Hc. injection Hc as <-.
      by rewrite Z.add_0_r.
    + intros Hk Hc. assert (a <> c) by (intros ->; by apply Ha, (list_elem_of_lookup_2 _ k)).
      rewrite (Hin k c ogc Hk); [f_equal; f_equal; lia|]. rewrite Ho1. by rewrite decide_False.
Qed.

(** The gates of both kinds, and their numbers. *)
Inductive gate_ref := InGate (b : gate_id) | OutGate (a : gate_id).
Definition gate_number (h : heap) (r : gate_ref) : option Z :=
  match r with InGate b => igate_index <$> igate_at h b | OutGate a => ogate_index <$> ogate_at h a end.

(** Every gate has a number of its own below [n]. *)
Definition numbered (h : heap) (n : Z) : Prop :=
  (forall r i, gate_number h r = Some i -> 0 <= i < n) /\
  (forall r r' i, gate_number h r = Some i -> gate_number h r' = Some i -> r = r').

Lemma elem_of_active_ogates h m a : a ∈ active_ogates h m <-> a.1 = m /\ is_Some (ogate_at h a).
Proof.
  unfold active_ogates. destruct (h !! m) as [M|] eqn:HM.
  - rewrite list_elem_of_filter, list_elem_of_In, in_map_iff. split.
    + intros [Ha (i & <- & _)]. done.
    + destruct a as [m' i]. cbn. intros [-> [og Ha]]. split; [done|]. exists i. split; [done|].
      apply ogate_at_slot in Ha as (M' & HM' & Hl). cbn in *. rewrite HM in HM'. injection HM' as <-. apply in_seq. lia.
  - split; [by intros ?%not_elem_of_nil|]. intros [<- [og Ha]]. apply ogate_at_slot in Ha as (M' & HM' & _). congruence.
Qed.

Lemma active_ogates_NoDup h m : NoDup (active_ogates h m).
Proof.
  unfold active_ogates. destruct (h !! m) as [M|]; [|constructor]. apply NoDup_filter.
  apply (NoDup_fmap_2 (pair m)). apply NoDup_seq.
Qed.

Lemma all_ogates g : graph_ok g ->
  let l := concat (map (fun x => active_ogates (modules g) x.2) (all_modules_ g)) in
  NoDup l /\ forall a, a ∈ l <-> is_Some (ogate_at (modules g) a).
Proof.
  intros [HL Hn Hnd] l. split.
  - unfold l. rewrite <- (map_map snd (active_ogates (modules g))). apply NoDup_concat_map.
    + assert (NoDup (all_modules_ g)) as Hnd2 by (by apply (NoDup_fmap_1 fst)).
      apply NoDup_fmap_2_strong; [|done]. intros [n m] [n' m'] H1 H2 [= <-].
      apply Hn in H1 as (M & HM & <-), H2 as (M' & HM' & <-). congruence.
    + intros m _. apply active_ogates_NoDup.
    + intros m m' a _ _ Ha Ha'. apply elem_of_active_ogates in Ha as [<- _], Ha' as [<- _]. done.
  - intros a. unfold l. rewrite elem_of_concat_map. split.
    + intros (x & _ & [_ Ha]%elem_of_active_ogates). done.
    + intros [og Ha]. pose proof Ha as (M & HM & _)%ogate_at_slot.
      exists (name M, a.1). split; [apply Hn; by exists M|]. cbn. by apply elem_of_active_ogates.
Qed.

Definition igate_view (ig : IGate) := (ogates_upstream ig, priority ig, mergeable ig, igate_hooks ig).
Definition ogate_view (og : OGate) := (igate og, ogate_hooks og).

(** Everything about the gates is the same but their numbers. *)
Definition renumbered (h h' : heap) : Prop := same_shape h h' /\
  (forall b, igate_view <$> igate_at h' b = igate_view <$> igate_at h b) /\
  (forall a, ogate_view <$> ogate_at h' a = ogate_view <$> ogate_at h a).

Lemma numbered_lists h il ol h1 h2 : NoDup il -> NoDup ol ->
  (forall b, b ∈ il <-> is_Some (igate_at h b)) -> (forall a, a ∈ ol <-> is_Some (ogate_at h a)) ->
  Z.of_nat (length il) + Z.of_nat (length ol) < 2 ^ 32 -> links h ->
  h1 = foldl number_igate (h, 0) il -> h2 = foldl number_ogate h1 ol ->
  h2.2 = Z.of_nat (length il) + Z.of_nat (length ol) /\ links h2.1 /\ renumbered h h2.1 /\ numbered h2.1 h2.2.
Proof.
  intros Hndi Hndo Hil Hol Hmax HL E1 E2.
  destruct (number_igates_spec il h 0 Hndi) as (H1n & H1s & H1L & H1o & H1out & H1i); [by intros b ?%Hil|done|lia|done|].
  rewrite <- E1 in *. destruct h1 as [h1 n1]. cbn [fst snd] in *.
  destruct (number_ogates_spec ol h1 n1 Hndo) as (H2n & H2s & H2L & H2i & H2out & H2o); [|lia|lia|done|].
  { intros a. rewrite Hol, H1o. done. }
  rewrite <- E2 in *. destruct h2 as [h2 n2]. cbn [fst snd] in *.
  assert (Hin : forall b, igate_at h b = None /\ igate_at h2 b = None \/ exists ig k, igate_at h b = Some ig /\
    il !! k = Some b /\ igate_at h2 b = Some (set_igate_index ig (Z.of_nat k))).
  { intros b. rewrite H2i. destruct (igate_at h b) as [ig|] eqn:Hb.
    - right. destruct (list_elem_of_lookup_1 il b) as [k Hk]; [by apply Hil|]. exists ig, k. split; [done|].
      split; [done|]. by apply H1i.
    - left. split; [done|]. rewrite H1out; [done|]. rewrite Hil, Hb. by intros [? ?]. }
  assert (Hout : forall a, ogate_at h a = None /\ ogate_at h2 a = None \/ exists og k, ogate_at h a = Some og /\
    ol !! k = Some a /\ ogate_at h2 a = Some (set_ogate_index og (n1 + Z.of_nat k))).
  { intros a. destruct (ogate_at h a) as [og|] eqn:Ha.
    - right. destruct (list_elem_of_lookup_1 ol a) as [k Hk]; [by apply Hol|]. exists og, k. split; [done|].
      split; [done|]. apply H2o; [done|]. by rewrite H1o.
    - left. split; [done|]. rewrite H2out, H1o; [done|]. rewrite Hol, Ha. by intros [? ?]. }
  split; [lia|]. split; [done|]. split; [split; [by apply (same_shape_trans _ h1)|split]|].
  - intros b. destruct (Hin b) as [[-> ->]|(ig & k & -> & _ & ->)]; done.
  - intros a. destruct (Hout a) as [[-> ->]|(og & k & -> & _ & ->)]; done.
  - assert (Hnum : forall r i, gate_number h2 r = Some i ->
      match r with
      | InGate b => exists k, il !! k = Some b /\ i = Z.of_nat k
      | OutGate a => exists k, ol !! k = Some a /\ i = Z.of_nat (length il) + Z.of_nat k
      end).
    { intros [b|a] i; cbn.
      - destruct (Hin b) as [[_ ->]|(ig & k & _ & Hk & ->)]; [done|]. intros [= <-]. by exists k.
      - destruct (Hout a) as [[_ ->]|(og & k & _ & Hk & ->)]; [done|]. intros [= <-]. exists k. split; [done|lia]. }
    split.
    + intros r i Hr. apply Hnum in Hr. destruct r; destruct Hr as (k & Hk%lookup_lt_Some & ->); lia.
    + intros r r' i Hr Hr'. apply Hnum in Hr, Hr'.
      destruct r, r'; destruct Hr as (k & Hk & ->), Hr' as (k' & Hk' & Heq); pose proof (lookup_lt_Some _ _ _ Hk);
        pose proof (lookup_lt_Some _ _ _ Hk'); try lia; assert (k = k') as <- by lia; congruence.
Qed.

(** [SetUniqueGateIdx] numbers the gates of the graph and changes nothing else. *)
Lemma SetUniqueGateIdx_spec g : graph_ok g ->
  2 * Z.of_nat (length (concat (map (fun x => active_ogates (modules g) x.2) (all_modules_ g)))) < 2 ^ 32 ->
  exists g', SetUniqueGateIdx ptr_less g = Some g' /\ graph_ok g' /\ tasks_ g' = tasks_ g /\
    all_modules_ g' = all_modules_ g /\ changes_made_ g' = changes_made_ g /\
    renumbered (modules g) (modules g') /\ numbered (modules g') (gate_cnt_ g').
Proof using ptr_asym ptr_ntrans.
  intros HG Hmax. destruct (all_ogates g HG) as [Hnd Hall]. unfold SetUniqueGateIdx.
  set (l := concat _) in *. destruct (push_gates_spec (modules g) l [] [] ∅) as (oq & iq & pushed & -> & Hoq & Hiq & Hndi & Hpo & Hpi).
  { by intros i j _ _ a b Ha. }
  { by intros i j _ _ a b Ha. }
  { constructor. }
  { set_solver. }
  { intros a. by rewrite Hall. }
  cbn [mbind option_bind].
  destruct (drain_spec _ (igate_greater_asym (modules g)) (igate_greater_ntrans (modules g)) iq Hiq) as (il & -> & Hil & _).
  cbn [mbind option_bind]. destruct (drain_spec _ ptr_asym ptr_ntrans oq Hoq) as (ol & -> & Hol & _). cbn [mbind option_bind].
  rewrite app_nil_r in Hpo. pose proof (g_links g HG) as HL.
  assert (Hi : forall b, b ∈ il <-> is_Some (igate_at (modules g) b)).
  { intros b. rewrite Hil, Hpi. split.
    - intros [?%not_elem_of_nil|(a & og & _ & Ha & <-)]; [done|]. destruct (l_out _ HL a og Ha) as (ig & -> & _). done.
    - intros [ig Hb]. right. destruct (l_igate _ HL b ig Hb) as (Hne & _). destruct (ogates_upstream ig) as [|a up] eqn:Hup; [done|].
      destruct (l_in _ HL b ig a Hb) as (og & Ha & Hb'); [rewrite Hup; by left|]. exists a, og.
      split; [by apply Hall|done]. }
  assert (Hndi' : NoDup il) by (by rewrite Hil).
  assert (Hlen : (length il <= length l)%nat).
  { assert (il ⊆+ map (fun a => default a (igate <$> ogate_at (modules g) a)) l) as Hsub.
    { apply NoDup_submseteq; [done|]. intros b [ig Hb]%Hi. destruct (l_igate _ HL b ig Hb) as (Hne & _).
      destruct (ogates_upstream ig) as [|a up] eqn:Hup; [done|].
      destruct (l_in _ HL b ig a Hb) as (og & Ha & Hb'); [rewrite Hup; by left|].
      apply list_elem_of_In, in_map_iff. exists a. rewrite Ha. cbn. split; [done|]. apply list_elem_of_In. by apply Hall. }
    apply submseteq_length in Hsub. by rewrite length_map in Hsub. }
  assert (Hlo : length ol = length l) by (by rewrite Hol, Hpo).
  destruct (numbered_lists (modules g) il ol (foldl number_igate (modules g, 0) il)
    (foldl number_ogate (foldl number_igate (modules g, 0) il) ol)) as (Hn & HL' & Hre & Hnum); try done.
  { by rewrite Hol, Hpo. }
  { intros a. by rewrite Hol, Hpo, Hall. }
  { lia. }
  eexists. split; [done|]. split; [apply graph_ok_shape; [done|apply Hre|done]|]. done.
Qed.
End numbering.

(** ** Priorities follow the links *)

(** Only the priorities of input gates have changed, and no one has gone down. *)
Definition only_prio (h h' : heap) : Prop :=
  (forall m, match h !! m, h' !! m with
             | Some M, Some M' => exists l, M' = with_igates M l /\ length l = length (igates M)
             | None, None => True
             | _, _ => False
             end) /\
  (forall b, igate_at h' b = (fun ig => SetPriority ig (prio h' b)) <$> igate_at h b) /\
  (forall b, prio h b <= prio h' b).

Lemma SetPriority_self ig : SetPriority ig (priority ig) = ig.
Proof. by destruct ig. Qed.

Lemma only_prio_refl h : only_prio h h.
Proof.
  split; [intros m; destruct (h !! m) as [M|]; [exists (igates M); by destruct M|done]|]. split; [|intros b; lia].
  intros b. unfold prio. destruct (igate_at h b) as [ig|]; [|done]. cbn. by rewrite SetPriority_self.
Qed.

Lemma only_prio_trans h1 h2 h3 : only_prio h1 h2 -> only_prio h2 h3 -> only_prio h1 h3.
Proof.
  intros (Hm & Hi & Hp) (Hm' & Hi' & Hp'). split; [|split].
  - intros m. specialize (Hm m). specialize (Hm' m). destruct (h1 !! m), (h2 !! m), (h3 !! m); try done.
    destruct Hm as (l & -> & Hl), Hm' as (l' & -> & Hl'). exists l'. split; [done|]. cbn in Hl'. congruence.
  - intros b. rewrite Hi', Hi. by destruct (igate_at h1 b).
  - intros b. specialize (Hp b). specialize (Hp' b). lia.
Qed.

Lemma only_prio_module h h' m M : only_prio h h' -> h !! m = Some M ->
  exists M', h' !! m = Some M' /\ next_igates M' = next_igates M /\ is_task M' = is_task M.
Proof.
  intros (Hm & _) HM. specialize (Hm m). rewrite HM in Hm. destruct (h' !! m) as [M'|]; [|done].
  destruct Hm as (l & -> & _). by eexists.
Qed.

Lemma only_prio_module_inv h h' m M' : only_prio h h' -> h' !! m = Some M' ->
  exists M, h !! m = Some M /\ next_igates M' = next_igates M /\ is_task M' = is_task M.
Proof.
  intros (Hm & _) HM'. specialize (Hm m). rewrite HM' in Hm. destruct (h !! m) as [M|]; [|done].
  destruct Hm as (l & -> & _). by eexists.
Qed.

Lemma set_prio_spec h b ig p : links h -> igate_at h b = Some ig -> prio h b <= p ->
  only_prio h (set_prio h b p) /\ links (set_prio h b p) /\
  (forall c, prio (set_prio h b p) c = if decide (b = c) then p else prio h c).
Proof.
  intros HL Hig Hp. unfold set_prio. rewrite Hig. pose proof (igate_at_slot _ _ _ Hig) as Hsl.
  assert (Hi : forall c, igate_at (set_igate h b (Some (SetPriority ig p))) c =
    if decide (b = c) then Some (SetPriority ig p) else igate_at h c) by (intros c; by apply igate_at_set).
  assert (Hpr : forall c, prio (set_igate h b (Some (SetPriority ig p))) c = if decide (b = c) then p else prio h c).
  { intros c. unfold prio. rewrite Hi. by destruct (decide (b = c)). }
  split; [|split; [by apply (set_igate_links h b ig)|exact Hpr]]. split; [|split].
  - intros m. unfold set_igate. destruct (decide (b.1 = m)) as [->|Hne].
    + rewrite lookup_alter_eq. destruct (h !! m); [|done]. eexists. split; [done|]. by rewrite length_insert.
    + rewrite lookup_alter_ne by done. apply (only_prio_refl h).
  - intros c. rewrite Hpr, Hi. destruct (decide (b = c)) as [<-|]; [by rewrite Hig|]. apply (only_prio_refl h).
  - intros c. rewrite Hpr. destruct (decide (b = c)) as [<-|]; [done|lia].
Qed.

Lemma next_igates_spec h m M b : links h -> h !! m = Some M -> b ∈ next_igates M ->
  exists a og ig, a.1 = m /\ ogate_at h a = Some og /\ igate og = b /\ igate_at h b = Some ig.
Proof.
  intros HL HM Hin. unfold next_igates in Hin. apply list_elem_of_omap in Hin as (x & Hx & He).
  destruct x as [og|]; [|done]. injection He as <-. apply list_elem_of_lookup_1 in Hx as [i Hi].
  assert (ogate_at h (m, i) = Some og) as Ho by (apply ogate_at_Some; by exists M).
  destruct (l_out h HL _ _ Ho) as (ig & Hig & _). by exists (m, i), og, ig.
Qed.

(** *** The recursion ends *)
Definition all_igates (h : heap) : gset gate_id :=
  list_to_set (concat (map (fun x => map (pair x.1) (seq 0 (length (igates x.2)))) (map_to_list h))).

Lemma elem_of_all_igates h b ig : igate_at h b = Some ig -> b ∈ all_igates h.
Proof.
  intros (M & HM & Hl)%igate_at_slot. apply elem_of_list_to_set, elem_of_concat_map. exists (b.1, M).
  split; [by apply elem_of_map_to_list|]. cbn. apply list_elem_of_In, in_map_iff. exists b.2. split; [by destruct b|].
  apply in_seq. lia.
Qed.

Lemma size_list_to_set_le (l : list gate_id) : (size (list_to_set l : gset gate_id) <= length l)%nat.
Proof.
  induction l as [|x l IH]; [done|]. cbn.
  assert (size ({[x]} ∪ list_to_set l : gset gate_id) <= 1 + size (list_to_set l : gset gate_id))%nat; [|lia].
  rewrite size_union_alt, size_singleton.
  pose proof (subseteq_size (list_to_set l ∖ {[x]} : gset gate_id) (list_to_set l) ltac:(set_solver)). lia.
Qed.

Lemma all_igates_size h : (size (all_igates h) < graph_fuel h)%nat.
Proof.
  unfold graph_fuel. eapply Nat.le_lt_trans; [apply size_list_to_set_le|].
  rewrite length_concat, map_map. erewrite map_ext; [apply Nat.lt_succ_r, Nat.le_add_l|]. intros x. by rewrite length_map, length_seq.
Qed.

Lemma visit_size (h : heap) (visited : gset gate_id) (b : gate_id) : b ∈ all_igates h -> b ∉ visited ->
  (size (all_igates h ∖ ({[b]} ∪ visited)) < size (all_igates h ∖ visited))%nat.
Proof. intros Hb Hv. apply subset_size. set_solver. Qed.

(** A link from an input gate through its module, which is not a task, to the next. *)
Definition edge (h : heap) (b b' : gate_id) : Prop :=
  exists M, h !! b.1 = Some M /\ is_task M = false /\ b' ∈ next_igates M.

(** Everything downstream of the gate, up to the next task, comes after it. *)
Definition settled (h : heap) (b : gate_id) : Prop := forall b', edge h b b' -> prio h b < prio h b'.

Definition acyclic (h : heap) (rank : nat -> Z) : Prop := forall b b', edge h b b' -> rank b.1 < rank b'.1.

Lemma only_prio_edge h h' b b' : only_prio h h' -> edge h' b b' <-> edge h b b'.
Proof.
  intros Ho. split.
  - intros (M' & HM' & Ht & Hin). destruct (only_prio_module_inv h h' _ M' Ho HM') as (M & HM & Hn & Hta).
    exists M. split; [done|]. split; congruence.
  - intros (M & HM & Ht & Hin). destruct (only_prio_module h h' _ M Ho HM) as (M' & HM' & Hn & Hta).
    exists M'. split; [done|]. split; congruence.
Qed.

Lemma settled_kept h h' b : only_prio h h' -> settled h b -> prio h' b = prio h b -> settled h' b.
Proof.
  intros Ho Hs He b' Hb'. apply (only_prio_edge h h') in Hb'; [|done]. specialize (Hs b' Hb').
  destruct Ho as (_ & _ & Hp). specialize (Hp b'). lia.
Qed.

(** What a traversal from gates above rank [r] does, with [p] for the first of them. *)
Record traversed (rank : nat -> Z) (r : Z) (h h' : heap) : Prop := {
  t_prio : only_prio h h';
  t_links : links h';
  t_settled : acyclic h rank -> forall b, prio h' b <> prio h b -> settled h' b;
  t_low : acyclic h rank -> forall b, rank b.1 <= r -> prio h' b = prio h b }.

Lemma acyclic_only_prio h h' rank : only_prio h h' -> acyclic h rank -> acyclic h' rank.
Proof. intros Ho Ha b b' He. apply Ha. by apply (only_prio_edge h h'). Qed.

Lemma traversed_refl rank r h : links h -> traversed rank r h h.
Proof. intros HL. split; [apply only_prio_refl|done|done|done]. Qed.

Lemma traversed_trans rank r h1 h2 h3 : traversed rank r h1 h2 -> traversed rank r h2 h3 -> traversed rank r h1 h3.
Proof.
  intros [Hp HL Hs Hl] [Hp' HL' Hs' Hl']. split; [by apply (only_prio_trans _ h2)|done| |].
  - intros Ha b Hne. pose proof (acyclic_only_prio _ _ _ Hp Ha) as Ha2. destruct (Z.eq_dec (prio h3 b) (prio h2 b)) as [Heq|Hneq].
    + apply (settled_kept h2); [done| |done]. apply Hs; [done|congruence].
    + by apply Hs'.
  - intros Ha b Hb. pose proof (acyclic_only_prio _ _ _ Hp Ha) as Ha2. rewrite Hl', Hl; done.
Qed.

Section propagate.
Context (rank : nat -> Z) (U : gset gate_id).

Definition covered (h : heap) : Prop := forall b ig, igate_at h b = Some ig -> b ∈ U.

Lemma covered_only_prio h h' : only_prio h h' -> covered h -> covered h'.
Proof. intros (_ & Hi & _) Hc b ig. rewrite Hi. destruct (igate_at h b) as [ig0|] eqn:Hb; [|done]. intros _. by apply (Hc b ig0). Qed.

(** What the recursion promises for a gate [b] whose priority is below [p]. *)
Definition propagates (rec : heap -> gate_id -> gset gate_id -> Z -> option heap) (n : nat) : Prop :=
  forall h b visited p, links h -> covered h -> is_Some (h !! b.1) -> (size (U ∖ visited) < n)%nat ->
  0 < p -> p + Z.of_nat n < 2 ^ 32 -> prio h b < p ->
  (acyclic h rank -> forall v, v ∈ visited -> rank v.1 <= rank b.1) ->
  exists h', rec h b visited p = Some h' /\ traversed rank (rank b.1) h h' /\ (acyclic h rank -> settled h' b).

(** One turn of the loop. *)
Lemma visit_next_spec rec n h visited p next r : propagates rec n -> links h -> covered h ->
  (exists M m, h !! m = Some M /\ next ∈ next_igates M) -> (size (U ∖ visited) <= n)%nat ->
  0 < p -> p + Z.of_nat n + 1 < 2 ^ 32 -> (acyclic h rank -> r < rank next.1) ->
  (acyclic h rank -> forall v, v ∈ visited -> rank v.1 < rank next.1) ->
  exists h', visit_next rec visited p (Some h) next = Some h' /\ traversed rank r h h' /\
    (acyclic h rank -> p <= prio h' next).
Proof.
  intros Hrec HL Hc (M & m & HM & Hin) Hsize Hp Hmax Hr Hvis. unfold visit_next. cbn [mbind option_bind].
  destruct (next_igates_spec h m M next HL HM Hin) as (a & og & ig & _ & Ho & _ & Hig).
  destruct (bool_decide (next ∈ visited) || (p <=? prio h next)) eqn:Hskip.
  { exists h. split; [done|]. split; [by apply traversed_refl|]. intros Ha. apply orb_true_iff in Hskip as [Hv|Hle]; [|lia].
    apply bool_decide_eq_true in Hv. specialize (Hvis Ha next Hv). lia. }
  apply orb_false_iff in Hskip as [Hv Hle]. apply bool_decide_eq_false in Hv. apply Z.leb_gt in Hle.
  destruct (set_prio_spec h next ig p HL Hig ltac:(lia)) as (Ho1 & HL1 & Hpr1).
  set (h1 := set_prio h next p) in *.
  rewrite (wrap_small 32 (p + 1)) by (unfold in_word; lia).
  destruct (Hrec h1 next ({[next]} ∪ visited) (p + 1)) as (h' & Heq & Htr & Hset); try done.
  - by apply (covered_only_prio h).
  - apply igate_at_slot in Hig as (N & HN & _). destruct (only_prio_module h h1 next.1 N Ho1 HN) as (N' & HN' & _). by exists N'.
  - assert (size (U ∖ ({[next]} ∪ visited)) < size (U ∖ visited))%nat; [|lia].
    apply subset_size. pose proof (Hc next ig Hig). set_solver.
  - lia.
  - lia.
  - rewrite Hpr1, decide_True by done. lia.
  - intros Ha v [Hv'%elem_of_singleton|Hv']%elem_of_union; [by rewrite Hv'|]. apply Z.lt_le_incl, Hvis; [|done].
    intros b b' He. apply Ha. by apply (only_prio_edge h h1).
  - exists h'. split; [done|]. destruct Htr as [Tp Tl Ts Tlow]. split.
    + split; [by apply (only_prio_trans _ h1)|done| |].
      * intros Ha b Hne. pose proof (acyclic_only_prio _ _ _ Ho1 Ha) as Ha1. destruct (decide (next = b)) as [<-|Hnb]; [by apply Hset|].
        apply Ts; [done|]. rewrite Hpr1. by rewrite decide_False.
      * intros Ha b Hb. pose proof (acyclic_only_prio _ _ _ Ho1 Ha) as Ha1. specialize (Hr Ha). rewrite Tlow by (done || lia). rewrite Hpr1.
        rewrite decide_False; [done|]. intros <-. lia.
    + intros Ha. destruct Tp as (_ & _ & Hmon). specialize (Hmon next). rewrite Hpr1, decide_True in Hmon by done. lia.
Qed.

(** The loop. *)
Lemma visit_all_spec rec n visited p r l : propagates rec n -> (size (U ∖ visited) <= n)%nat ->
  0 < p -> p + Z.of_nat n + 1 < 2 ^ 32 -> forall h, links h -> covered h ->
  (forall b, b ∈ l -> (exists M m, h !! m = Some M /\ b ∈ next_igates M) /\ (acyclic h rank -> r < rank b.1) /\
     (acyclic h rank -> forall v, v ∈ visited -> rank v.1 < rank b.1)) ->
  exists h', foldl (visit_next rec visited p) (Some h) l = Some h' /\ traversed rank r h h' /\
    (acyclic h rank -> forall b, b ∈ l -> p <= prio h' b).
Proof.
  intros Hrec Hsize Hp Hmax. induction l as [|next l IH]; intros h HL Hc Hall; cbn [foldl].
  { exists h. split; [done|]. split; [by apply traversed_refl|]. by intros _ b ?%not_elem_of_nil. }
  destruct (Hall next) as (Hmod & Hr & Hvis); [by left|].
  destruct (visit_next_spec rec n h visited p next r Hrec HL Hc Hmod Hsize Hp Hmax Hr Hvis) as (h1 & -> & Ht1 & Hn1).
  destruct (IH h1) as (h2 & -> & Ht2 & Hn2); [apply Ht1|by apply (covered_only_prio h); [apply Ht1|]| |].
  { intros b Hb. destruct (Hall b) as ((M & m & HM & Hin) & Hrb & Hvb); [by right|]. assert (acyclic h1 rank -> acyclic h rank) as Hback.
    { intros Ha c c' He. apply Ha. apply (only_prio_edge h h1); [apply Ht1|done]. }
    split; [|split; [by auto|by auto]].
    destruct (only_prio_module h h1 m M (t_prio _ _ _ _ Ht1) HM) as (M' & HM' & Hne & _). exists M', m. by rewrite Hne.
  }
  exists h2. split; [done|]. split; [by apply (traversed_trans _ _ _ h1)|]. intros Ha b [->|Hb]%elem_of_cons.
  - destruct (t_prio _ _ _ _ Ht2) as (_ & _ & Hmon). specialize (Hmon next). specialize (Hn1 Ha). lia.
  - apply Hn2; [|done]. by apply (acyclic_only_prio h); [apply Ht1|].
Qed.

Lemma Propagate_spec n : propagates (PropagateIGatePriority n) n.
Proof.
  induction n as [|n IH]; intros h b visited p HL Hc [M HM] Hsize Hp Hmax Hb Hvis; [lia|].
  cbn [PropagateIGatePriority]. rewrite HM. cbn [mbind option_bind]. destruct (is_task M) eqn:Htask.
  { exists h. split; [done|]. split; [by apply traversed_refl|]. intros _ b' (M' & HM' & Ht & _). congruence. }
  assert (Hedge : forall b', b' ∈ next_igates M -> edge h b b') by (intros b' Hb'; by exists M).
  destruct (visit_all_spec _ n visited p (rank b.1) (next_igates M) IH ltac:(lia) Hp ltac:(lia) h HL Hc)
    as (h' & -> & Ht & Hn).
  { intros b' Hb'. split; [by exists M, b.1|]. split; [intros Ha; by apply Ha, Hedge|].
    intros Ha v Hv. specialize (Hvis Ha v Hv). specialize (Ha b b' (Hedge b' Hb')). lia. }
  exists h'. split; [done|]. split; [done|]. intros Ha b' He.
  apply (only_prio_edge h h') in He; [|apply Ht]. destruct He as (M' & HM' & _ & Hin). rewrite HM in HM'. injection HM' as <-.
  specialize (Hn Ha b' Hin). rewrite (t_low _ _ _ _ Ht Ha b) by lia. lia.
Qed.

Context (rank_nonneg : forall m, 0 <= rank m).

(** [SetIGatePriority]: what comes after the task, up to the next tasks, is ordered. *)
Lemma SetIGatePriority_spec fuel h m : links h -> covered h -> is_Some (h !! m) -> (size U < fuel)%nat ->
  Z.of_nat fuel + 2 < 2 ^ 32 ->
  exists h', SetIGatePriority fuel h m = Some h' /\ only_prio h h' /\ links h' /\
    (acyclic h rank -> (forall b, prio h' b <> prio h b -> settled h' b) /\
       (forall M b, h !! m = Some M -> b ∈ next_igates M -> 0 < prio h' b)).
Proof.
  intros HL Hc [M HM] Hsize Hmax. unfold SetIGatePriority. rewrite HM. cbn [mbind option_bind].
  destruct (visit_all_spec (PropagateIGatePriority fuel) fuel ∅ 1 (-1) (next_igates M) (Propagate_spec fuel))
    with (h := h) as (h' & Heq & Ht & Hn); try done; try lia.
  { assert (U ∖ ∅ = U) as -> by set_solver. lia. }
  { intros b Hb. split; [by exists M, m|]. split; [intros _; pose proof (rank_nonneg b.1); lia|].
    intros _ v Hv. set_solver. }
  exists h'. split; [exact Heq|]. split; [apply Ht|]. split; [apply Ht|]. intros Ha. split; [by apply Ht|].
  intros M' b [= <-] Hb. specialize (Hn Ha b Hb). lia.
Qed.
End propagate.

(** ** Parent tasks *)

(** Only the parent tasks have changed. *)
Definition only_parents (h h' : heap) : Prop := forall m,
  match h !! m, h' !! m with
  | Some M, Some M' => exists l, M' = with_parents M l
  | None, None => True
  | _, _ => False
  end.

Lemma only_parents_refl h : only_parents h h.
Proof. intros m. destruct (h !! m) as [M|]; [|done]. exists (parent_tasks M). by destruct M. Qed.

Lemma only_parents_trans h1 h2 h3 : only_parents h1 h2 -> only_parents h2 h3 -> only_parents h1 h3.
Proof.
  intros H12 H23 m. specialize (H12 m). specialize (H23 m). destruct (h1 !! m), (h2 !! m), (h3 !! m); try done.
  destruct H12 as [l ->], H23 as [l' ->]. by exists l'.
Qed.

Lemma only_parents_alter h m f : only_parents h (alter (fun M => with_parents M (f M)) m h).
Proof.
  intros m'. destruct (decide (m = m')) as [<-|Hne].
  - rewrite lookup_alter_eq. destruct (h !! m); [|done]. by eexists.
  - rewrite lookup_alter_ne by done. apply only_parents_refl.
Qed.

Lemma only_parents_gates h h' : only_parents h h' ->
  (forall b, igate_at h' b = igate_at h b) /\ (forall a, ogate_at h' a = ogate_at h a) /\ (links h -> links h') /\
  dom h' = dom h.
Proof.
  intros Hp.
  assert (Hi : forall b, igate_at h' b = igate_at h b).
  { intros b. specialize (Hp b.1). unfold igate_at. destruct (h !! b.1), (h' !! b.1); try done. by destruct Hp as [l ->]. }
  assert (Ho : forall a, ogate_at h' a = ogate_at h a).
  { intros a. specialize (Hp a.1). unfold ogate_at. destruct (h !! a.1), (h' !! a.1); try done. by destruct Hp as [l ->]. }
  split; [done|]. split; [done|]. split.
  - intros HL. split.
    + intros m M' HM'. specialize (Hp m). rewrite HM' in Hp. destruct (h !! m) as [M|] eqn:HM; [|done].
      destruct Hp as [l ->]. apply (l_sizes h HL m M HM).
    + intros a og. rewrite Hi, Ho. apply HL.
    + intros b ig a. rewrite Hi, Ho. apply HL.
    + intros b ig. rewrite Hi. apply HL.
    + intros a og. rewrite Ho. apply HL.
  - apply set_eq. intros m. rewrite !elem_of_dom. specialize (Hp m). destruct (h !! m), (h' !! m); try done.
Qed.

Lemma next_module h m M b : links h -> h !! m = Some M -> b ∈ next_igates M -> b.1 ∈ dom h.
Proof.
  intros HL HM Hb. destruct (next_igates_spec h m M b HL HM Hb) as (_ & _ & ig & _ & _ & _ & Hig).
  apply igate_at_slot in Hig as (N & HN & _). by apply elem_of_dom_2 in HN.
Qed.

Definition visit_modules (rec : heap * gset nat -> nat -> option (heap * gset nat)) (r : option (heap * gset nat)) (a : gate_id) :=
  hv ← r; if bool_decide (a.1 ∈ hv.2) then Some hv else rec hv a.1.

Lemma visit_modules_spec (rec : heap * gset nat -> nat -> option (heap * gset nat)) n (D : gset nat) l :
  (forall h v m, links h -> dom h = D -> m ∈ D -> m ∉ v -> (size (D ∖ v) < n)%nat ->
     exists h' v', rec (h, v) m = Some (h', v') /\ only_parents h h' /\ v ⊆ v') ->
  forall h v, links h -> dom h = D -> (forall a, a ∈ l -> a.1 ∈ D) -> (size (D ∖ v) < n)%nat ->
  exists h' v', foldl (visit_modules rec) (Some (h, v)) l = Some (h', v') /\ only_parents h h' /\ v ⊆ v'.
Proof.
  intros Hrec. induction l as [|a l IH]; intros h v HL HD Hl Hn; cbn [foldl].
  { exists h, v. split; [done|]. split; [apply only_parents_refl|done]. }
  unfold visit_modules at 2. cbn [mbind option_bind snd]. case_bool_decide as Hv.
  - apply IH; [done|done| |done]. intros x Hx. apply Hl. by right.
  - destruct (Hrec h v a.1 HL HD) as (h1 & v1 & -> & Hp1 & Hs1); [apply Hl; by left|done|done|].
    destruct (only_parents_gates h h1 Hp1) as (_ & _ & HL1 & HD1).
    destruct (IH h1 v1) as (h2 & v2 & -> & Hp2 & Hs2); [auto|congruence|intros x Hx; apply Hl; by right| |].
    { eapply Nat.le_lt_trans; [|exact Hn]. apply subseteq_size. set_solver. }
    exists h2, v2. split; [done|]. split; [by apply (only_parents_trans _ h1)|]. by etrans.
Qed.

Lemma UpdateParentsAs_spec n task h v m : links h -> m ∈ dom h -> m ∉ v -> (size (dom h ∖ v) < n)%nat ->
  exists h' v', UpdateParentsAs n task (h, v) m = Some (h', v') /\ only_parents h h' /\ v ⊆ v'.
Proof.
  revert h v m. induction n as [|n IH]; intros h v m HL Hm Hv Hn; [lia|]. cbn [UpdateParentsAs].
  destruct (h !! m) as [M|] eqn:HM; [|by apply not_elem_of_dom in HM]. cbn [mbind option_bind].
  destruct (is_task M).
  { do 2 eexists. split; [done|]. split; [apply only_parents_alter|set_solver]. }
  destruct (visit_modules_spec (UpdateParentsAs n task) n (dom h) (next_igates M)) with (h := h) (v := {[m]} ∪ v)
    as (h' & v' & Heq & Hp & Hs); try done.
  - intros h1 v1 m1 HL1 HD Hm1 Hv1 Hn1. apply IH; by rewrite ?HD.
  - intros a. by apply (next_module h m M).
  - assert (size (dom h ∖ ({[m]} ∪ v)) < size (dom h ∖ v))%nat; [|lia]. apply subset_size. set_solver.
  - exists h', v'. split; [exact Heq|]. split; [done|]. set_solver.
Qed.

Lemma UpdateSingleTaskGraph_spec n h m : links h -> m ∈ dom h -> (size h < n)%nat ->
  exists h', UpdateSingleTaskGraph n h m = Some h' /\ only_parents h h'.
Proof.
  intros HL Hm Hn. unfold UpdateSingleTaskGraph. destruct (h !! m) as [M|] eqn:HM; [|by apply not_elem_of_dom in HM].
  cbn [mbind option_bind].
  destruct (visit_modules_spec (UpdateParentsAs n m) n (dom h) (next_igates M)) with (h := h) (v := ({[m]} : gset nat))
    as (h' & v' & Heq & Hp & Hs); try done.
  - intros h1 v1 m1 HL1 HD Hm1 Hv1 Hn1. apply UpdateParentsAs_spec; by rewrite ?HD.
  - intros a. by apply (next_module h m M).
  - eapply Nat.le_lt_trans; [apply subseteq_size, subseteq_difference_l; reflexivity|]. by rewrite size_dom.
  - exists h'. split; [|done]. change (fst <$> foldl (visit_modules (UpdateParentsAs n m)) (Some (h, {[m]})) (next_igates M) = Some h').
    by rewrite Heq.
Qed.

(** ** [UpdateTaskGraph] *)

Lemma graph_fuel_same h h' : (forall m, (fun M => length (igates M)) <$> h' !! m = (fun M => length (igates M)) <$> h !! m) ->
  graph_fuel h' = graph_fuel h.
Proof.
  intros Hm. assert ((fun M => length (igates M)) <$> h' = (fun M => length (igates M)) <$> h) as He.
  { apply map_eq. intros m. by rewrite !lookup_fmap. }
  assert (forall k : heap, graph_fuel k = S (size ((fun M => length (igates M)) <$> k) +
    sum_list (map snd (map_to_list ((fun M => length (igates M)) <$> k))))) as Hk.
  { intros k. unfold graph_fuel. rewrite map_size_fmap. f_equal. f_equal.
    rewrite map_to_list_fmap. rewrite map_map. reflexivity. }
  by rewrite !Hk, He.
Qed.

Lemma edge_alt h b b' : edge h b b' <-> exists M, h !! b.1 = Some M /\ is_task M = false /\
  exists a og, a.1 = b.1 /\ ogate_at h a = Some og /\ igate og = b'.
Proof.
  split.
  - intros (M & HM & Ht & Hin). exists M. split; [done|]. split; [done|]. unfold next_igates in Hin.
    apply list_elem_of_omap in Hin as (x & Hx & He). destruct x as [og|]; [|done]. injection He as <-.
    apply list_elem_of_lookup_1 in Hx as [i Hi]. exists (b.1, i), og. split; [done|]. split; [|done].
    apply ogate_at_Some. by exists M.
  - intros (M & HM & Ht & a & og & Ha & Ho & <-). exists M. split; [done|]. split; [done|].
    apply ogate_at_Some in Ho as (M' & HM' & Hi). rewrite Ha, HM in HM'. injection HM' as <-.
    apply list_elem_of_omap. exists (Some og). split; [by apply list_elem_of_lookup_2 in Hi|done].
Qed.

(** The links are the same, with the same tasks, and no priority has gone down. *)
Definition same_links (h h' : heap) : Prop := same_shape h h' /\
  (forall a, igate <$> ogate_at h' a = igate <$> ogate_at h a) /\
  (forall b, ogates_upstream <$> igate_at h' b = ogates_upstream <$> igate_at h b) /\
  (forall b, prio h b <= prio h' b).

Lemma same_links_refl h : same_links h h.
Proof. split; [apply same_shape_refl|]. do 2 (split; [done|]). intros b. lia. Qed.

Lemma same_links_trans h1 h2 h3 : same_links h1 h2 -> same_links h2 h3 -> same_links h1 h3.
Proof.
  intros (Hs & Ho & Hi & Hp) (Hs' & Ho' & Hi' & Hp'). split; [by apply (same_shape_trans _ h2)|].
  split; [congruence|]. split; [congruence|]. intros b. specialize (Hp b). specialize (Hp' b). lia.
Qed.

Lemma same_links_edge h h' b b' : same_links h h' -> edge h' b b' <-> edge h b b'.
Proof.
  intros (Hs & Ho & _). rewrite !edge_alt. specialize (Hs b.1).
  assert (Hoe : forall a x, (exists og, ogate_at h' a = Some og /\ igate og = x) <-> (exists og, ogate_at h a = Some og /\ igate og = x)).
  { intros a x. specialize (Ho a). destruct (ogate_at h' a), (ogate_at h a); try done; cbn in Ho.
    injection Ho as Ho. split; intros (? & [= <-] & <-); by eexists. }
  destruct (h !! b.1) as [M|], (h' !! b.1) as [M'|]; try done; [|by split; intros (? & ? & _)].
  destruct Hs as (_ & _ & _ & _ & Ht & _). split; intros (N & [= <-] & Htask & a & og & Ha & Hog).
  - exists M. split; [done|]. split; [congruence|]. exists a. destruct (proj1 (Hoe a b')) as (og' & Hog'); [by exists og|].
    by exists og'.
  - exists M'. split; [done|]. split; [congruence|]. exists a. destruct (proj2 (Hoe a b')) as (og' & Hog'); [by exists og|].
    by exists og'.
Qed.

Lemma only_prio_links h h' : only_prio h h' -> same_links h h' /\ graph_fuel h' = graph_fuel h.
Proof.
  intros Ho. pose proof Ho as (Hm & Hi & Hp).
  assert (Hoa : forall a, ogate_at h' a = ogate_at h a).
  { intros a. unfold ogate_at. specialize (Hm a.1). destruct (h !! a.1), (h' !! a.1); try done. by destruct Hm as (l & -> & _). }
  split; [split; [|split; [intros a; by rewrite Hoa|split; [|done]]]|].
  - intros m. specialize (Hm m). destruct (h !! m), (h' !! m); try done. destruct Hm as (l & -> & Hl). cbn. rewrite Hl. done.
  - intros b. rewrite Hi. by destruct (igate_at h b).
  - apply graph_fuel_same. intros m. specialize (Hm m). destruct (h !! m), (h' !! m); try done.
    destruct Hm as (l & -> & Hl). cbn. by rewrite Hl.
Qed.

Lemma only_parents_links h h' : only_parents h h' ->
  (forall b, prio h' b = prio h b) /\ graph_fuel h' = graph_fuel h /\ same_links h h'.
Proof.
  intros Hp. destruct (only_parents_gates h h' Hp) as (Hi & Ho & _).
  assert (Hpr : forall b, prio h' b = prio h b) by (intros b; unfold prio; by rewrite Hi). split; [done|]. split.
  - apply graph_fuel_same. intros m. specialize (Hp m). destruct (h !! m), (h' !! m); try done. by destruct Hp as [l ->].
  - split; [|split; [intros a; by rewrite Ho|split; [intros b; by rewrite Hi|intros b; rewrite Hpr; lia]]].
    intros m. specialize (Hp m). destruct (h !! m), (h' !! m); try done. by destruct Hp as [l ->].
Qed.

Lemma CleanTaskGraph_spec g : only_parents (modules g) (CleanTaskGraph g).
Proof.
  unfold CleanTaskGraph. induction (tasks_ g) as [|t l IH] using rev_ind; [apply only_parents_refl|].
  rewrite foldl_app. cbn [foldl]. destruct (find_module g t) as [m|]; [|done].
  eapply only_parents_trans; [exact IH|]. apply (only_parents_alter _ m (fun _ => [])).
Qed.

Lemma find_module_spec g t m : graph_ok g -> find_module g t = Some m -> is_Some (modules g !! m).
Proof.
  intros HG. unfold find_module. destruct (List.find _ _) as [[n m']|] eqn:Hf; [|done]. cbn. intros [= ->].
  apply List.find_some in Hf as [Hin _]. apply list_elem_of_In, (g_named g HG) in Hin as (M & -> & _). done.
Qed.

(** Whatever has a priority comes before what is downstream of it. *)
Definition ordered (h : heap) : Prop := forall b, 0 < prio h b -> settled h b.

(** What follows the module has a priority. *)
Definition reached (h : heap) (m : nat) : Prop :=
  forall a og, a.1 = m -> ogate_at h a = Some og -> 0 < prio h (igate og).

Lemma reached_kept h h' m : same_links h h' -> reached h m -> reached h' m.
Proof.
  intros (_ & Ho & _ & Hp) Hr a og Ha Hog. specialize (Ho a). rewrite Hog in Ho.
  destruct (ogate_at h a) as [og0|] eqn:H0; [|done]. cbn in Ho. injection Ho as ->. specialize (Hr a og0 Ha H0).
  specialize (Hp (igate og0)). lia.
Qed.

Lemma same_links_module h h' m : same_links h h' -> is_Some (h !! m) -> is_Some (h' !! m).
Proof. intros (Hs & _) [M HM]. specialize (Hs m). rewrite HM in Hs. by destruct (h' !! m). Qed.

Lemma acyclic_same_links h h' rank : same_links h h' -> acyclic h rank -> acyclic h' rank.
Proof. intros Hl Ha b b' He. apply Ha. by apply (same_links_edge h h'). Qed.

Section update.
Context (ptr_less : gate_id -> gate_id -> bool).
Context (ptr_asym : forall a b, ptr_less a b = true -> ptr_less b a = false).
Context (ptr_ntrans : forall a b c, ptr_less a b = false -> ptr_less b c = false -> ptr_less a c = false).
Context (rank : nat -> Z) (rank_nonneg : forall m, 0 <= rank m).

(** The turn of one task. *)
Lemma one_task h m : links h -> is_Some (h !! m) -> Z.of_nat (graph_fuel h) + 2 < 2 ^ 32 ->
  exists h1 h', UpdateSingleTaskGraph (graph_fuel h) h m = Some h1 /\ SetIGatePriority (graph_fuel h1) h1 m = Some h' /\
    links h' /\ same_links h h' /\ graph_fuel h' = graph_fuel h /\
    (acyclic h rank -> (ordered h -> ordered h') /\ reached h' m).
Proof using rank_nonneg.
  intros HL Hm Hmax.
  destruct (UpdateSingleTaskGraph_spec (graph_fuel h) h m HL) as (h1 & -> & Hp1).
  { by apply elem_of_dom. }
  { unfold graph_fuel. lia. }
  destruct (only_parents_gates h h1 Hp1) as (Hi1 & Ho1 & HL1 & _). specialize (HL1 HL).
  destruct (only_parents_links h h1 Hp1) as (Hpr1 & Hf1 & Hl1).
  pose proof (same_links_module h h1 m Hl1 Hm) as Hm1.
  destruct (SetIGatePriority_spec rank (all_igates h1) rank_nonneg (graph_fuel h1) h1 m HL1) as (h' & Heq & Ho & HL' & Hset); [|done| | |].
  { intros b ig. apply elem_of_all_igates. }
  { apply all_igates_size. }
  { lia. }
  destruct (only_prio_links h1 h' Ho) as [Hl' Hf']. exists h1, h'. split; [done|]. split; [done|]. split; [done|].
  split; [by apply (same_links_trans _ h1)|]. split; [congruence|].
  intros Ha. destruct (Hset (acyclic_same_links _ _ _ Hl1 Ha)) as [Hch Hre]. split.
  - intros Hord b Hb. destruct (Z.eq_dec (prio h' b) (prio h1 b)) as [He|Hne]; [|by apply Hch].
    apply (settled_kept h1); [done| |done]. intros b' Hb'. rewrite !Hpr1. rewrite He, Hpr1 in Hb.
    apply (Hord b Hb). by apply (same_links_edge h h1).
  - intros a og Ham Hog. destruct Hm1 as [M HM]. apply (Hre M); [done|]. unfold next_igates. apply list_elem_of_omap.
    destruct Hl' as (_ & Hoo & _). specialize (Hoo a). rewrite Hog in Hoo. destruct (ogate_at h1 a) as [og1|] eqn:H1; [|done].
    cbn in Hoo. injection Hoo as ->. exists (Some og1). split; [|done]. apply ogate_at_Some in H1 as (M' & HM' & Hl).
    rewrite Ham, HM in HM'. injection HM' as <-. by apply list_elem_of_lookup_2 in Hl.
Qed.

Definition task_turn (g : ModuleGraph) (r : option heap) (t : string) : option heap :=
  h ← r;
  match find_module g t with
  | Some m => h ← UpdateSingleTaskGraph (graph_fuel h) h m; SetIGatePriority (graph_fuel h) h m
  | None => Some h
  end.

Lemma all_tasks g l : graph_ok g -> forall h, links h -> same_links (modules g) h -> Z.of_nat (graph_fuel h) + 2 < 2 ^ 32 ->
  exists h', foldl (task_turn g) (Some h) l = Some h' /\ links h' /\ same_links h h' /\
    (acyclic h rank -> (ordered h -> ordered h') /\ forall t m, t ∈ l -> find_module g t = Some m -> reached h' m).
Proof using rank_nonneg.
  intros HG. induction l as [|t l IH]; intros h HL Hs Hmax; cbn [foldl].
  { exists h. split; [done|]. split; [done|]. split; [apply same_links_refl|]. intros _. split; [done|].
    by intros t m ?%not_elem_of_nil. }
  unfold task_turn at 2. cbn [mbind option_bind]. destruct (find_module g t) as [m|] eqn:Hf.
  - destruct (one_task h m HL) as (h1 & h2 & -> & H2 & HL2 & Hs2 & Hf2 & Hset); [|done|].
    { apply (same_links_module (modules g)); [done|]. by apply (find_module_spec g t). }
    cbn [mbind option_bind]. rewrite H2.
    destruct (IH h2 HL2) as (h' & -> & HL' & Hs' & Hset'); [by apply (same_links_trans _ h)|by rewrite Hf2|].
    exists h'. split; [done|]. split; [done|]. split; [by apply (same_links_trans _ h2)|]. intros Ha.
    destruct (Hset Ha) as [Hord Hre]. destruct (Hset' (acyclic_same_links _ _ _ Hs2 Ha)) as [Hord' Hre'].
    split; [auto|]. intros t' m' [->|Hin]%elem_of_cons Hfm; [|by apply (Hre' t')].
    rewrite Hf in Hfm. injection Hfm as <-. by apply (reached_kept h2).
  - destruct (IH h HL Hs Hmax) as (h' & -> & HL' & Hs' & Hset'). exists h'. split; [done|]. split; [done|]. split; [done|].
    intros Ha. destruct (Hset' Ha) as [Hord Hre]. split; [done|]. intros t' m' [->|Hin]%elem_of_cons Hfm; [congruence|].
    by apply (Hre t').
Qed.

Lemma renumbered_links h h' : renumbered h h' -> same_links h h' /\ (forall b, prio h' b = prio h b).
Proof.
  intros (Hs & Hi & Ho). assert (Hpr : forall b, prio h' b = prio h b).
  { intros b. unfold prio. specialize (Hi b). destruct (igate_at h' b), (igate_at h b); try done. cbn in *. unfold igate_view in Hi. congruence. }
  split; [|done]. split; [done|]. split; [|split; [|intros b; rewrite Hpr; lia]].
  - intros a. specialize (Ho a). destruct (ogate_at h' a), (ogate_at h a); try done. cbn in *. unfold ogate_view in Ho. congruence.
  - intros b. specialize (Hi b). destruct (igate_at h' b), (igate_at h b); try done. cbn in *. unfold igate_view in Hi. congruence.
Qed.

(** C10: After a change of the graph, [UpdateTaskGraph] ends on any graph, with loops or
    without, keeps the links, and gives every gate a number of its own below the gate
    count.  When modules that are not tasks form no loop and the priorities of the last update are still in order
    -- a module connected behind a gate that has a priority breaks this, as priorities are never reset
    ([priority_of_later_gate]) --,
    the gates that follow a task have a priority, and every gate that has one comes before
    the gates downstream of it up to the next tasks.  The numbers of gates and of steps fit 32 bits. *)
Theorem task_graph_update g : graph_ok g -> changes_made_ g = true ->
  Z.of_nat (graph_fuel (modules g)) + 2 < 2 ^ 32 ->
  2 * Z.of_nat (length (concat (map (fun x => active_ogates (modules g) x.2) (all_modules_ g)))) < 2 ^ 32 ->
  exists g', UpdateTaskGraph ptr_less g = Some g' /\ graph_ok g' /\ changes_made_ g' = false /\
    same_links (modules g) (modules g') /\ numbered (modules g') (gate_cnt_ g') /\
    (acyclic (modules g) rank -> ordered (modules g) ->
       ordered (modules g') /\ forall t m, t ∈ tasks_ g -> find_module g t = Some m -> reached (modules g') m).
Proof using ptr_asym ptr_ntrans rank_nonneg.
  intros HG Hch Hmax Hmax2. unfold UpdateTaskGraph. rewrite Hch. cbn [negb].
  pose proof (CleanTaskGraph_spec g) as Hc. destruct (only_parents_gates _ _ Hc) as (_ & Hoc & HLc & _).
  specialize (HLc (g_links g HG)). destruct (only_parents_links _ _ Hc) as (Hprc & Hfc & Hlc).
  destruct (all_tasks g (tasks_ g) HG (CleanTaskGraph g) HLc Hlc ltac:(by rewrite Hfc)) as (h & Heq & HL & Hs & Hset).
  fold (task_turn g). rewrite Heq. cbn [mbind option_bind].
  assert (Hs0 : same_links (modules g) h) by (by apply (same_links_trans _ (CleanTaskGraph g))).
  set (g1 := MkGraph h (all_modules_ g) (tasks_ g) true (gate_cnt_ g)).
  assert (HG1 : graph_ok g1) by (apply graph_ok_shape; [done|apply Hs0|done]).
  destruct (SetUniqueGateIdx_spec ptr_less ptr_asym ptr_ntrans g1 HG1) as (g' & -> & HG' & _ & Hall & _ & Hre & Hnum).
  { destruct (all_ogates g HG) as [Hnd Hin], (all_ogates g1 HG1) as [Hnd1 Hin1].
    erewrite Permutation_length; [exact Hmax2|]. apply NoDup_Permutation; [done|done|]. intros a. rewrite Hin, Hin1.
    destruct Hs0 as (_ & Ho & _). specialize (Ho a). cbn [modules g1]. destruct (ogate_at h a), (ogate_at (modules g) a); done. }
  cbn [mbind option_bind]. destruct (renumbered_links _ _ Hre) as [Hl Hpr]. cbn [modules g1] in Hl, Hpr.
  eexists. split; [done|]. cbn [modules gate_cnt_ changes_made_]. split.
  { destruct HG' as [G1 G2 G3]. rewrite Hall in *. by split. }
  split; [done|]. split; [by apply (same_links_trans _ h)|]. split; [done|]. intros Ha Hord.
  destruct (Hset (acyclic_same_links _ _ _ Hlc Ha)) as [Hord' Hre'].
  assert (ordered h) as Hoh.
  { apply Hord'. intros b Hb b' He. rewrite !Hprc. apply Hord; [by rewrite <- Hprc|]. by apply (same_links_edge _ _ _ _ Hlc). }
  split; [|intros t m Ht Hf; apply (reached_kept h); [done|by apply (Hre' t)]].
  intros b Hb b' He. rewrite !Hpr. rewrite Hpr in Hb. apply Hoh; [done|]. by apply (same_links_edge _ _ _ _ Hl).
Qed.
End update.

(** ** Examples *)
Definition ex_less (a b : gate_id) : bool := (a.1 <? b.1)%nat || ((a.1 =? b.1)%nat && (a.2 <? b.2)%nat).
Lemma ex_less_asym a b : ex_less a b = true -> ex_less b a = false.
Proof. unfold ex_less. destruct a, b. cbn [fst snd]. rewrite !orb_true_iff, !orb_false_iff, !andb_true_iff, !andb_false_iff, !Nat.ltb_lt, !Nat.ltb_ge, !Nat.eqb_eq, !Nat.eqb_neq. lia. Qed.
Lemma ex_less_ntrans a b c : ex_less a b = false -> ex_less b c = false -> ex_less a c = false.
Proof. unfold ex_less. destruct a, b, c. cbn [fst snd]. rewrite !orb_false_iff, !andb_false_iff, !Nat.ltb_ge, !Nat.eqb_neq. lia. Qed.

Definition acyclicb (h : heap) (rank : nat -> Z) : bool :=
  forallb (fun x => is_task x.2 || forallb (fun b => rank x.1 <? rank b.1) (next_igates x.2)) (map_to_list h).
Lemma acyclicb_spec h rank : acyclicb h rank = true -> acyclic h rank.
Proof.
  unfold acyclicb. rewrite forallb_forall. intros Hall b b' (M & HM & Ht & Hin).
  specialize (Hall (b.1, M)). cbn in Hall. rewrite Ht in Hall. cbn in Hall. rewrite forallb_forall in Hall.
  apply Z.ltb_lt, Hall; apply list_elem_of_In; [by apply elem_of_map_to_list|done].
Qed.

Definition freshb (h : heap) : bool :=
  forallb (fun x => forallb (fun ig => match ig with Some ig => priority ig =? 0 | None => true end) (igates x.2)) (map_to_list h).
Lemma freshb_spec h : freshb h = true -> ordered h.
Proof.
  unfold freshb. rewrite forallb_forall. intros Hall b Hb. exfalso. unfold prio in Hb.
  destruct (igate_at h b) as [ig|] eqn:Hig; [|cbn in Hb; lia]. apply igate_at_Some in Hig as (M & HM & Hl). cbn in Hb.
  specialize (Hall (b.1, M)). cbn in Hall. rewrite forallb_forall in Hall. specialize (Hall ltac:(apply list_elem_of_In; by apply elem_of_map_to_list)).
  specialize (Hall (Some ig) ltac:(apply list_elem_of_In; by eapply list_elem_of_lookup_2)). apply Z.eqb_eq in Hall. lia.
Qed.

Lemma task_graph_update_witness :
  exists g', UpdateTaskGraph ex_less ex_graph = Some g' /\ graph_ok g' /\ numbered (modules g') (gate_cnt_ g') /\
    ordered (modules g') /\ prio (modules g') (1%nat, 0%nat) = 1 /\ prio (modules g') (2%nat, 0%nat) = 2.
Proof.
  destruct (task_graph_update ex_less ex_less_asym ex_less_ntrans (fun m => Z.of_nat m) (fun m => Nat2Z.is_nonneg m) ex_graph)
    as (g' & Hg & HG & _ & _ & Hnum & Hord).
  - exact ex_graph_ok.
  - vm_compute. reflexivity.
  - vm_compute. reflexivity.
  - vm_compute. reflexivity.
  - exists g'. split; [exact Hg|]. split; [exact HG|]. split; [exact Hnum|].
    assert (forall g, UpdateTaskGraph ex_less ex_graph = Some g -> prio (modules g) (1%nat, 0%nat) = 1 /\ prio (modules g) (2%nat, 0%nat) = 2) as Hp.
    { intros g Hg'. assert ((fun g => (prio (modules g) (1%nat, 0%nat), prio (modules g) (2%nat, 0%nat))) <$> UpdateTaskGraph ex_less ex_graph = Some (1, 2))
        as Hc by (vm_compute; reflexivity). rewrite Hg' in Hc. cbn in Hc. split; congruence. }
    split; [|exact (Hp g' Hg)]. apply Hord.
    + apply acyclicb_spec. vm_compute. reflexivity.
    + apply freshb_spec. vm_compute. reflexivity.
Defined.

(** Priorities are never taken back, and a gate that has one already is not looked behind:
    when a module is connected behind a gate after the first update, its gate keeps the
    priority 0 and runs before the gates upstream of it. *)
Definition ex_more : list operation :=
  [OpCreate 3 (new_module "sink1" false); OpConnect 2 0 3 0 false].
Lemma priority_of_later_gate :
  (g ← UpdateTaskGraph ex_less ex_graph; g ← run g ex_more; g ← UpdateTaskGraph ex_less g;
   Some (prio (modules g) (2%nat, 0%nat), prio (modules g) (3%nat, 0%nat))) = Some (2, 0).
Proof. vm_compute. reflexivity. Qed.
