(* ===== verification/Dataflow.v ===== *)
(** How packets move from module to module: [core/task.h], [core/task.cc],
    [core/pktbatch.h] and the [EmitPacket], [DropPacket], [RunChooseModule], [RunSplit]
    and [ProcessOGates] of [core/module.h].

    A batch is named by a pointer: 0 is the batch on the stack of [Task::operator()],
    [1 + i] is entry [i] of the pool.  What a module does to a batch is a list of actions,
    an argument of the model.  [None] is undefined behaviour: a null gate, an index out of
    bounds, an exhausted pool or a batch that overflows. *)
From S2P Require Import Prelude Common PriorityQueue Gate ModuleGraph TaskGraph.
Open Scope Z_scope.

Definition kMaxBurst : nat := 32.
Definition MAX_PBATCH_CNT : nat := 256.

(** What a module asks for while it processes a batch: [EmitPacket]; [DropPacket];
    [Packet::Free] of a batch; [RunChooseModule] with its own batch, which holds [pkts] then; [RunChooseModule] with
    a new batch of the pool. *)
Inductive action {Packet : Type} :=
  | Emit (pkt : Packet) (ogate_idx : nat)
  | Drop (pkt : Packet)
  | Free (pkts : list Packet)
  | RunChoose (ogate_idx : nat) (pkts : list Packet)
  | RunNew (ogate_idx : nat) (pkts : list Packet).
Arguments action : clear implicits.

(** The task and the context of the run; [freed] is not in the source: it collects the
    packets that [Packet::Free] has been called on. *)
Record Task {Packet : Type} := MkTask {
  next_gate_ : option (gate_id * nat);
  igates_to_run_ : list (gate_id * nat);
  dead_batch_ : list Packet;
  pbatch_idx_ : nat;
  pbatch_ : gmap nat (list Packet);
  gate_batch_ : list (option nat);
  gate_with_hook : list nat;
  gate_without_hook : list nat;
  silent_drops : Z;
  freed : list Packet }.
Arguments Task : clear implicits.
Arguments MkTask {Packet}.

Section dataflow.
Context {Packet : Type} (h : heap).
Implicit Types t : Task Packet.

(** ** Members *)
Definition set_next t x := MkTask x (igates_to_run_ t) (dead_batch_ t) (pbatch_idx_ t) (pbatch_ t) (gate_batch_ t)
  (gate_with_hook t) (gate_without_hook t) (silent_drops t) (freed t).
Definition set_queue t x := MkTask (next_gate_ t) x (dead_batch_ t) (pbatch_idx_ t) (pbatch_ t) (gate_batch_ t)
  (gate_with_hook t) (gate_without_hook t) (silent_drops t) (freed t).
Definition set_dead t x := MkTask (next_gate_ t) (igates_to_run_ t) x (pbatch_idx_ t) (pbatch_ t) (gate_batch_ t)
  (gate_with_hook t) (gate_without_hook t) (silent_drops t) (freed t).
Definition set_pool t i x := MkTask (next_gate_ t) (igates_to_run_ t) (dead_batch_ t) i x (gate_batch_ t)
  (gate_with_hook t) (gate_without_hook t) (silent_drops t) (freed t).
Definition set_gates t x := MkTask (next_gate_ t) (igates_to_run_ t) (dead_batch_ t) (pbatch_idx_ t) (pbatch_ t) x
  (gate_with_hook t) (gate_without_hook t) (silent_drops t) (freed t).
Definition set_ctx t w wo := MkTask (next_gate_ t) (igates_to_run_ t) (dead_batch_ t) (pbatch_idx_ t) (pbatch_ t) (gate_batch_ t)
  w wo (silent_drops t) (freed t).
Definition set_freed t d f := MkTask (next_gate_ t) (igates_to_run_ t) (dead_batch_ t) (pbatch_idx_ t) (pbatch_ t) (gate_batch_ t)
  (gate_with_hook t) (gate_without_hook t) d f.

(** ** Batches *)
Definition pkts_of t (batch : nat) : list Packet := default [] (pbatch_ t !! batch).
Definition write_batch t (batch : nat) (l : list Packet) : Task Packet := set_pool t (pbatch_idx_ t) (<[batch := l]> (pbatch_ t)).

Definition batch_add t (batch : nat) (pkt : Packet) : option (Task Packet) :=
  if (length (pkts_of t batch) <? kMaxBurst)%nat then Some (write_batch t batch (pkts_of t batch ++ [pkt])) else None.

Definition AllocPacketBatch t : option (Task Packet * nat) :=
  if (pbatch_idx_ t <? MAX_PBATCH_CNT)%nat
  then let batch := S (pbatch_idx_ t) in Some (set_pool t batch (<[batch := []]> (pbatch_ t)), batch) else None.

Definition get_gate_batch t (index : Z) : option (option nat) := gate_batch_ t !! Z.to_nat index.
Definition set_gate_batch t (index : Z) (b : option nat) : option (Task Packet) :=
  if (Z.to_nat index <? length (gate_batch_ t))%nat then Some (set_gates t (<[Z.to_nat index := b]> (gate_batch_ t))) else None.

Definition UpdatePerGateBatch t (gate_cnt : Z) : Task Packet :=
  if Z.of_nat (length (gate_batch_ t)) <? gate_cnt then set_gates t (resize (Z.to_nat gate_cnt) (gate_batch_ t)) else t.

(** ** Drops *)
Definition deadend t (pkts : list Packet) : Task Packet :=
  set_freed t (silent_drops t + Z.of_nat (length pkts)) (freed t ++ pkts).

Definition DropPacket t (pkt : Packet) : Task Packet :=
  let t := set_dead t (dead_batch_ t ++ [pkt]) in
  if (kMaxBurst <=? length (dead_batch_ t))%nat then set_dead (deadend t (dead_batch_ t)) [] else t.

(** [Packet::Free]. *)
Definition FreeBatch t (pkts : list Packet) : Task Packet := set_freed t (silent_drops t) (freed t ++ pkts).

(** ** Scheduling of input gates *)
Definition gate_batch_greater (left right : gate_id * nat) : bool := prio h right.1 <? prio h left.1.

Definition AddToRun t (b : gate_id) (batch : nat) : option (Task Packet) :=
  ig ← igate_at h b;
  if bool_decide (next_gate_ t = None) && negb (mergeable ig) then Some (set_next t (Some (b, batch)))
  else
    ibatch ← get_gate_batch t (igate_index ig);
    match ibatch with
    | Some ib =>
        if (length (pkts_of t ib) + length (pkts_of t batch) <=? kMaxBurst)%nat
        then Some (write_batch t ib (pkts_of t ib ++ pkts_of t batch))
        else
          t ← set_gate_batch t (igate_index ig) (Some batch);
          q ← push gate_batch_greater (igates_to_run_ t) (b, batch);
          Some (set_queue t q)
    | None =>
        t ← set_gate_batch t (igate_index ig) (Some batch);
        q ← push gate_batch_greater (igates_to_run_ t) (b, batch);
        Some (set_queue t q)
    end.

(** ** What modules call *)
Definition push_with_hook t (i : nat) : option (Task Packet) :=
  if (length (gate_with_hook t) <? kMaxBurst)%nat then Some (set_ctx t (gate_with_hook t ++ [i]) (gate_without_hook t)) else None.
Definition push_without_hook t (i : nat) : option (Task Packet) :=
  if (length (gate_without_hook t) <? kMaxBurst)%nat then Some (set_ctx t (gate_with_hook t) (gate_without_hook t ++ [i])) else None.

(** The batch of an output gate, which is made when there is none. *)
Definition gate_batch_for t (og : OGate) (ogate_idx : nat) : option (Task Packet * nat) :=
  b ← get_gate_batch t (ogate_index og);
  match b with
  | Some batch => Some (t, batch)
  | None =>
      if negb (bool_decide (ogate_hooks og = [])) then
        '(t, batch) ← AllocPacketBatch t;
        t ← set_gate_batch t (ogate_index og) (Some batch);
        t ← push_with_hook t ogate_idx;
        Some (t, batch)
      else
        ig ← igate_at h (igate og);
        ib ← get_gate_batch t (igate_index ig);
        '(t, batch) ← match ib with
          | None =>
              '(t, batch) ← AllocPacketBatch t;
              t ← AddToRun t (igate og) batch;
              t ← set_gate_batch t (ogate_index og) (Some batch);
              Some (t, batch)
          | Some batch => t ← set_gate_batch t (ogate_index og) (Some batch); Some (t, batch)
          end;
        t ← push_without_hook t ogate_idx;
        Some (t, batch)
  end.

Definition EmitPacket t (m : nat) (pkt : Packet) (ogate_idx : nat) : option (Task Packet) :=
  match ogate_at h (m, ogate_idx) with
  | None => Some (DropPacket t pkt)
  | Some og =>
      '(t, batch) ← gate_batch_for t og ogate_idx;
      '(t, batch) ←
        (if (kMaxBurst <=? length (pkts_of t batch))%nat then
           if negb (bool_decide (ogate_hooks og = [])) then
             full ← get_gate_batch t (ogate_index og);
             full ← full;
             t ← AddToRun t (igate og) full;
             '(t, batch) ← AllocPacketBatch t;
             t ← set_gate_batch t (ogate_index og) (Some batch);
             Some (t, batch)
           else
             '(t, batch) ← AllocPacketBatch t;
             t ← set_gate_batch t (ogate_index og) (Some batch);
             t ← AddToRun t (igate og) batch;
             Some (t, batch)
         else Some (t, batch));
      batch_add t batch pkt
  end.

Definition RunChooseModule t (m : nat) (ogate_idx : nat) (batch : nat) : option (Task Packet) :=
  if (length (pkts_of t batch) <=? 0)%nat then Some t
  else match ogate_at h (m, ogate_idx) with
  | None => Some (write_batch (deadend t (pkts_of t batch)) batch [])
  | Some og => AddToRun t (igate og) batch
  end.

(** The output gates with hooks, then those without. *)
Definition flush_gate (m : nat) (r : option (Task Packet)) (i : nat) : option (Task Packet) :=
  t ← r;
  og ← ogate_at h (m, i);
  batch ← get_gate_batch t (ogate_index og);
  batch ← batch;
  t ← AddToRun t (igate og) batch;
  set_gate_batch t (ogate_index og) None.
Definition clear_gate (m : nat) (r : option (Task Packet)) (i : nat) : option (Task Packet) :=
  t ← r; og ← ogate_at h (m, i); set_gate_batch t (ogate_index og) None.

Definition ProcessOGates t (m : nat) : option (Task Packet) :=
  t ← foldl (flush_gate m) (Some t) (gate_with_hook t);
  t ← foldl (clear_gate m) (Some t) (gate_without_hook t);
  Some (set_ctx t [] []).

(** [RunSplit]: the packets and their gates. *)
Definition RunSplit t (m : nat) (mixed_batch : nat) (out_gates : list nat) : option (Task Packet) :=
  if (length (pkts_of t mixed_batch) <=? 0)%nat then Some t
  else
    M ← h !! m;
    if (length (ogates M) <=? 0)%nat then Some (write_batch (deadend t (pkts_of t mixed_batch)) mixed_batch [])
    else
      t ← foldl (fun r x => t ← r; EmitPacket t m x.1 x.2) (Some t) (zip (pkts_of t mixed_batch) out_gates);
      Some (write_batch t mixed_batch []).

Definition act (m batch : nat) (r : option (Task Packet)) (a : action Packet) : option (Task Packet) :=
  t ← r;
  match a with
  | Emit pkt i => EmitPacket t m pkt i
  | Drop pkt => Some (DropPacket t pkt)
  | Free pkts => Some (FreeBatch t pkts)
  | RunChoose i pkts => if (length pkts <=? kMaxBurst)%nat then RunChooseModule (write_batch t batch pkts) m i batch else None
  | RunNew i pkts =>
      if (length pkts <=? kMaxBurst)%nat
      then '(t, batch) ← AllocPacketBatch t; RunChooseModule (write_batch t batch pkts) m i batch else None
  end.

(** ** [Task::operator()] *)
Context {MState : Type}.
Context (RunTask : MState -> MState * list (action Packet)).
Context (ProcessBatch : nat -> nat -> list Packet -> MState -> MState * list (action Packet)).

(** The input gate to run next and its batch. *)
Definition pick_next t : option (Task Packet * gate_id * nat) :=
  match next_gate_ t with
  | Some (b, batch) => Some (set_next t None, b, batch)
  | None =>
      item ← PriorityQueue.top (igates_to_run_ t);
      let '(b, batch) := item in
      q ← pop gate_batch_greater (igates_to_run_ t);
      let t := set_queue t q in
      ig ← igate_at h b;
      t ← set_gate_batch t (igate_index ig) None;
      Some (t, b, batch)
  end.

Definition idle t : bool := bool_decide (next_gate_ t = None) && (length (igates_to_run_ t) =? 0)%nat.

(** One turn of the loop, with what is delivered. *)
Definition turn (s : Task Packet * MState) : option (Task Packet * MState * (gate_id * list Packet)) :=
  let '(t, ms) := s in
  '(t, b, batch) ← pick_next t;
  let pkts := pkts_of t batch in
  let '(ms, actions) := ProcessBatch b.1 b.2 pkts ms in
  t ← foldl (act b.1 batch) (Some t) actions;
  t ← ProcessOGates t b.1;
  Some (t, ms, (b, pkts)).

(** The loop: the final state and all that was delivered; the inner [None] is a loop that
    is still running when the fuel is used up. *)
Fixpoint run_loop (fuel : nat) (s : Task Packet * MState) : option (option (Task Packet * MState * list (gate_id * list Packet))) :=
  if idle s.1 then Some (Some (s, []))
  else match fuel with
  | O => Some None
  | S fuel' =>
      '(s, d) ← turn s;
      r ← run_loop fuel' s;
      Some (match r with Some (s, ds) => Some (s, d :: ds) | None => None end)
  end.

Definition start (task_module : nat) t (ms : MState) : option (Task Packet * MState) :=
  let t := set_pool t 0 (<[0%nat := []]> (pbatch_ t)) in
  let '(ms, actions) := RunTask ms in
  t ← foldl (act task_module 0) (Some t) actions;
  Some (t, ms).

Definition run_task (fuel : nat) (task_module : nat) t (ms : MState) :=
  s ← start task_module t ms;
  r ← run_loop fuel s;
  Some (match r with
        | Some (t, ms, ds) => Some (set_dead (deadend t (dead_batch_ t)) [], ms, ds)
        | None => None
        end).
End dataflow.

(** ** What holds between the calls *)
Section proofs.
Context {Packet MState : Type} (h : heap) (n : Z).
Context (HL : links h) (Hnum : numbered h n).
Implicit Types t : Task Packet.

(** The entry of a gate in [gate_batch_]. *)
Definition slot (r : gate_ref) : nat := Z.to_nat (default 0 (gate_number h r)).
Definition live (r : gate_ref) : Prop := is_Some (gate_number h r).
Definition gb t (r : gate_ref) : option nat := default None (gate_batch_ t !! slot r).

Lemma gate_slot_inj r r' : live r -> live r' -> slot r = slot r' -> r = r'.
Proof using Hnum.
  intros [i Hi] [i' Hi'] He. unfold slot in He. rewrite Hi, Hi' in He. cbn in He. destruct Hnum as [Hb Hinj].
  pose proof (Hb _ _ Hi). pose proof (Hb _ _ Hi'). apply (Hinj _ _ i); [done|]. rewrite Hi'. f_equal. lia.
Qed.

Lemma gate_slot_lt t r : live r -> n <= Z.of_nat (length (gate_batch_ t)) -> (slot r < length (gate_batch_ t))%nat.
Proof using Hnum.
  intros [i Hi] Hn. unfold slot. rewrite Hi. cbn. destruct Hnum as [Hb _]. pose proof (Hb _ _ Hi). lia.
Qed.

Lemma get_igate t b ig : igate_at h b = Some ig -> n <= Z.of_nat (length (gate_batch_ t)) ->
  get_gate_batch t (igate_index ig) = Some (gb t (InGate b)).
Proof using Hnum.
  intros Hig Hn. assert (live (InGate b)) as Hl by (unfold live; cbn; by rewrite Hig).
  pose proof (gate_slot_lt t _ Hl Hn) as Hlt. unfold get_gate_batch, gb. unfold slot in *. cbn in *. rewrite Hig in *. cbn in *.
  destruct (lookup_lt_is_Some_2 _ _ Hlt) as [x Hx]. by rewrite Hx.
Qed.

Lemma get_ogate t a og : ogate_at h a = Some og -> n <= Z.of_nat (length (gate_batch_ t)) ->
  get_gate_batch t (ogate_index og) = Some (gb t (OutGate a)).
Proof using Hnum.
  intros Hog Hn. assert (live (OutGate a)) as Hl by (unfold live; cbn; by rewrite Hog).
  pose proof (gate_slot_lt t _ Hl Hn) as Hlt. unfold get_gate_batch, gb. unfold slot in *. cbn in *. rewrite Hog in *. cbn in *.
  destruct (lookup_lt_is_Some_2 _ _ Hlt) as [x Hx]. by rewrite Hx.
Qed.

Lemma set_gate_spec t r i v : gate_number h r = Some i -> n <= Z.of_nat (length (gate_batch_ t)) ->
  exists l, set_gate_batch t i v = Some (set_gates t l) /\ length l = length (gate_batch_ t) /\
    (forall r', live r' -> gb (set_gates t l) r' = if decide (slot r = slot r') then v else gb t r') /\
    (forall k p, l !! k = Some (Some p) -> (live r /\ slot r = k) \/ gate_batch_ t !! k = Some (Some p)).
Proof using Hnum.
  intros Hi Hn. assert (live r) as Hl by (by exists i). pose proof (gate_slot_lt t r Hl Hn) as Hlt.
  assert (slot r = Z.to_nat i) as Hs by (unfold slot; by rewrite Hi).
  unfold set_gate_batch. rewrite Hs in Hlt. apply Nat.ltb_lt in Hlt as Hb. rewrite Hb. eexists. split; [done|].
  split; [by rewrite length_insert|]. split.
  2: { intros k p Hk. destruct (decide (slot r = k)) as [He|Hne]; [by left|right].
       rewrite list_lookup_insert_ne in Hk; [done|]. by rewrite <- Hs. }
  intros r' Hl'. unfold gb. cbn. rewrite Hs.
  destruct (decide (Z.to_nat i = slot r')) as [He|Hne].
  - rewrite <- He, list_lookup_insert_eq by done. done.
  - by rewrite list_lookup_insert_ne.
Qed.

(** The input gates that wait to be run, with their batches. *)
Definition refs t : list (gate_id * nat) := option_list (next_gate_ t) ++ igates_to_run_ t.
Definition carried t (l : list (gate_id * nat)) : list (gate_id * Packet) :=
  concat (map (fun x => map (pair x.1) (pkts_of t x.2)) l).
Definition flight t : list (gate_id * Packet) := carried t (refs t).

(** How far the batches can still go. *)
Context (depth : nat -> nat).
Definition weight (l : list (gate_id * nat)) : nat := sum_list_with (fun x => S (depth x.1.1)) l.

Lemma weight_perm l l' : l ≡ₚ l' -> weight l = weight l'.
Proof. intros Hp. unfold weight. by rewrite Hp. Qed.

(** The invariant, with the batches [own] that wait for nothing. *)
Record TInv (own : list nat) t : Prop := {
  ti_len : n <= Z.of_nat (length (gate_batch_ t));
  ti_igates b p : live (InGate b) -> gb t (InGate b) = Some p -> (b, p) ∈ igates_to_run_ t;
  ti_live b p : (b, p) ∈ refs t -> live (InGate b);
  ti_ptrs : NoDup (own ++ map snd (refs t));
  ti_pool p : p ∈ own ++ map snd (refs t) -> (p <= pbatch_idx_ t)%nat;
  ti_size p : (length (pkts_of t p) <= kMaxBurst)%nat;
  ti_heap : is_heap (gate_batch_greater h) (igates_to_run_ t);
  ti_dead : (length (dead_batch_ t) < kMaxBurst)%nat;
  ti_slots k p : gate_batch_ t !! k = Some (Some p) -> exists r, live r /\ slot r = k }.

Lemma slots_set (l l' : list (option nat)) r :
  (forall k p, l' !! k = Some (Some p : option nat) -> (live r /\ slot r = k) \/ l !! k = Some (Some p)) ->
  (forall k p, l !! k = Some (Some p) -> exists r, live r /\ slot r = k) ->
  forall k p, l' !! k = Some (Some p) -> exists r, live r /\ slot r = k.
Proof. intros H1 H2 k p Hk. destruct (H1 k p Hk) as [?|?]; [by exists r|by apply (H2 k p)]. Qed.

(** What an operation on input gates leaves alone. *)
Record framed t t' : Prop := {
  fr_out a : live (OutGate a) -> gb t' (OutGate a) = gb t (OutGate a);
  fr_with : gate_with_hook t' = gate_with_hook t;
  fr_without : gate_without_hook t' = gate_without_hook t;
  fr_dead : dead_batch_ t' = dead_batch_ t;
  fr_freed : freed t' = freed t }.

Lemma greater_asym a b : gate_batch_greater h a b = true -> gate_batch_greater h b a = false.
Proof. unfold gate_batch_greater. rewrite Z.ltb_lt, Z.ltb_ge. lia. Qed.
Lemma greater_ntrans a b c :
  gate_batch_greater h a b = false -> gate_batch_greater h b c = false -> gate_batch_greater h a c = false.
Proof. unfold gate_batch_greater. rewrite !Z.ltb_ge. lia. Qed.

Lemma TInv_perm own own' t : own ≡ₚ own' -> TInv own t -> TInv own' t.
Proof.
  intros Hp [H1 H2 H3 H4 H5 H6 H7 H8 H9]. split; try done.
  - by rewrite <- Hp.
  - intros p. rewrite <- Hp. apply H5.
Qed.

Lemma pkts_of_write t p l q : pkts_of (write_batch t p l) q = if decide (p = q) then l else pkts_of t q.
Proof.
  unfold pkts_of, write_batch. cbn. destruct (decide (p = q)) as [<-|]; [by rewrite lookup_insert_eq|by rewrite lookup_insert_ne].
Qed.

Lemma carried_ext t t' l : (forall x, x ∈ map snd l -> pkts_of t' x = pkts_of t x) -> carried t' l = carried t l.
Proof.
  intros He. unfold carried. f_equal. apply map_ext_in. intros [b p] Hin%list_elem_of_In. cbn. rewrite He; [done|].
  apply list_elem_of_In, in_map_iff. exists (b, p). split; [done|by apply list_elem_of_In].
Qed.

Lemma carried_perm t l l' : l ≡ₚ l' -> carried t l ≡ₚ carried t l'.
Proof. intros Hp. unfold carried. by rewrite Hp. Qed.

Lemma carried_cons t x l : carried t (x :: l) = map (pair x.1) (pkts_of t x.2) ++ carried t l.
Proof. reflexivity. Qed.

Lemma carried_app t l l' : carried t (l ++ l') = carried t l ++ carried t l'.
Proof. unfold carried. by rewrite map_app, concat_app. Qed.

(** Handing the batch [p] over to the input gate [b]. *)
Definition handed (own : list nat) t t' (b : gate_id) (p : nat) : Prop :=
  TInv own t' /\ framed t t' /\ pbatch_idx_ t' = pbatch_idx_ t /\
  flight t' ≡ₚ map (pair b) (pkts_of t p) ++ flight t /\ (forall q, q ∈ own -> pkts_of t' q = pkts_of t q) /\
  (weight (refs t') <= S (depth b.1) + weight (refs t))%nat.

Lemma framed_refl t : framed t t.
Proof. by split. Qed.

Lemma framed_trans t1 t2 t3 : framed t1 t2 -> framed t2 t3 -> framed t1 t3.
Proof.
  intros [A1 A2 A3 A4 A5] [B1 B2 B3 B4 B5]. split; try congruence. intros a Ha. by rewrite B1, A1.
Qed.

Lemma enqueue_igate_spec own t b ig p : TInv (p :: own) t -> igate_at h b = Some ig ->
  exists t', (t ← set_gate_batch t (igate_index ig) (Some p);
              q ← push (gate_batch_greater h) (igates_to_run_ t) (b, p); Some (set_queue t q)) = Some t' /\
    handed own t t' b p.
Proof using Hnum.
  intros [H1 H2 H3 H4 H5 H6 H7 H8 H9] Hig.
  assert (Hgn : gate_number h (InGate b) = Some (igate_index ig)) by (cbn; by rewrite Hig).
  destruct (set_gate_spec t (InGate b) _ (Some p) Hgn H1) as (l & -> & Hlen & Hgb & Hraw). cbn [mbind option_bind].
  destruct (push_spec _ greater_asym greater_ntrans (igates_to_run_ t) (b, p) H7) as (q & Hq & Hh & Hp).
  cbn [igates_to_run_ set_gates]. rewrite Hq. cbn [mbind option_bind]. eexists. split; [done|].
  set (t' := set_queue (set_gates t l) q).
  assert (Hrefs : refs t' ≡ₚ (b, p) :: refs t).
  { unfold refs. cbn. rewrite Hp. by rewrite Permutation_middle. }
  assert (Hl0 : live (InGate b)) by (by eexists).
  assert (Hgb' : forall r, live r -> gb t' r = if decide (slot (InGate b) = slot r) then Some p else gb t r) by done.
  assert (Hpk : forall x, pkts_of t' x = pkts_of t x) by done.
  assert (Hperm : own ++ map snd (refs t') ≡ₚ (p :: own) ++ map snd (refs t)).
  { rewrite Hrefs. cbn. by rewrite Permutation_middle. }
  split; [split|].
  - cbn. by rewrite Hlen.
  - intros b' p' Hl' Hg. rewrite Hgb' in Hg by done. cbn. rewrite Hp. destruct (decide _) as [He|Hne].
    + apply gate_slot_inj in He; [|done|done]. injection He as <-. injection Hg as <-. by left.
    + right. by apply H2.
  - intros b' p'. rewrite Hrefs, elem_of_cons. intros [[= -> ->]|Hin]; [done|by apply (H3 b' p')].
  - by rewrite Hperm.
  - intros x. rewrite Hperm. apply H5.
  - intros x. rewrite Hpk. apply H6.
  - exact Hh.
  - exact H8.
  - apply (slots_set _ _ _ Hraw H9).
  - split; [split; try done|].
    { intros a Ha. rewrite Hgb' by done. rewrite decide_False; [done|]. intros He. by apply gate_slot_inj in He. }
    split; [done|]. split; [|split; [done|by rewrite (weight_perm _ _ Hrefs)]].
    unfold flight. rewrite (carried_perm _ _ _ Hrefs), carried_cons. rewrite (carried_ext t t'); done.
Qed.

Lemma NoDup_snd_split (l : list (gate_id * nat)) x : NoDup (map snd l) -> x ∈ l ->
  exists rest, l ≡ₚ x :: rest /\ x.2 ∉ map snd rest.
Proof.
  intros Hnd Hin. apply list_elem_of_split in Hin as (l1 & l2 & ->). exists (l1 ++ l2).
  split; [by rewrite Permutation_middle|]. rewrite map_app in *. cbn in Hnd.
  apply NoDup_app in Hnd as (_ & Hd & [Hx _]%NoDup_cons). intros [H1|H2]%elem_of_app; [|done].
  apply (Hd _ H1). by left.
Qed.

Lemma AddToRun_spec own t b ig p : TInv (p :: own) t -> igate_at h b = Some ig ->
  exists t', AddToRun h t b p = Some t' /\ handed own t t' b p.
Proof using Hnum.
  intros HI Hig. pose proof HI as [H1 H2 H3 H4 H5 H6 H7 H8 H9]. unfold AddToRun. rewrite Hig. cbn [mbind option_bind].
  assert (Hl0 : live (InGate b)) by (unfold live; cbn; by rewrite Hig).
  destruct (bool_decide (next_gate_ t = None) && negb (mergeable ig)) eqn:Hc.
  { apply andb_true_iff in Hc as [Hn%bool_decide_eq_true _]. eexists. split; [done|].
    assert (Hrefs : refs (set_next t (Some (b, p))) ≡ₚ (b, p) :: refs t) by (unfold refs; cbn; by rewrite Hn).
    assert (Hperm : own ++ map snd (refs (set_next t (Some (b, p)))) ≡ₚ (p :: own) ++ map snd (refs t)).
    { rewrite Hrefs. cbn. by rewrite Permutation_middle. }
    split; [split; try done|].
    - intros b' p'. rewrite Hrefs, elem_of_cons. intros [[= -> ->]|Hin]; [done|by apply (H3 b' p')].
    - by rewrite Hperm.
    - intros x. rewrite Hperm. apply H5.
    - split; [by split|]. split; [done|]. split; [|split; [done|by rewrite (weight_perm _ _ Hrefs)]]. unfold flight.
      rewrite (carried_perm _ _ _ Hrefs), carried_cons. done. }
  rewrite (get_igate t b ig Hig H1). cbn [mbind option_bind].
  destruct (gb t (InGate b)) as [ib|] eqn:Hgb; [|by apply enqueue_igate_spec].
  destruct (_ <=? _)%nat eqn:Hfit; [|by apply enqueue_igate_spec]. apply Nat.leb_le in Hfit.
  eexists. split; [done|]. pose proof (H2 b ib Hl0 Hgb) as Hin.
  assert (Hin' : (b, ib) ∈ refs t) by (unfold refs; apply elem_of_app; by right).
  assert (Hndr : NoDup (map snd (refs t))) by (by apply NoDup_app in H4 as (_ & _ & ?)).
  destruct (NoDup_snd_split (refs t) (b, ib) Hndr Hin') as (rest & Hrest & Hnr). cbn in Hnr.
  set (l := pkts_of t ib ++ pkts_of t p). set (t' := write_batch t ib l).
  assert (Hown : forall q, q ∈ p :: own -> ib <> q).
  { intros q Hq <-. apply NoDup_app in H4 as (_ & Hd & _). apply (Hd ib Hq).
    apply list_elem_of_In, in_map_iff. exists (b, ib). split; [done|by apply list_elem_of_In]. }
  split; [split; try done|].
  - by apply NoDup_cons in H4 as [_ ?].
  - intros x Hx. apply H5. by right.
  - intros x. unfold t'. rewrite pkts_of_write. destruct (decide _); [|apply H6]. unfold l. rewrite length_app. lia.
  - split; [by split|]. split; [done|]. split.
    + assert (Hr' : refs t' = refs t) by done. unfold flight. rewrite Hr'.
      rewrite (carried_perm t' _ _ Hrest), (carried_perm t _ _ Hrest), !carried_cons. cbn [fst snd].
      rewrite (carried_ext t t' rest).
      2: { intros x Hx. unfold t'. rewrite pkts_of_write. by rewrite decide_False by (intros ->; done). }
      unfold t' at 1. rewrite pkts_of_write, decide_True by done. unfold l. rewrite map_app, <- app_assoc.
      rewrite !app_assoc. apply Permutation_app_tail, Permutation_app_comm.
    + split; [|change (refs t') with (refs t); lia].
      intros q Hq. unfold t'. rewrite pkts_of_write. rewrite decide_False; [done|]. apply Hown. by right.
Qed.

Lemma Alloc_spec own t : TInv own t ->
  (AllocPacketBatch t = None /\ (MAX_PBATCH_CNT <= pbatch_idx_ t)%nat) \/
  exists t' p, AllocPacketBatch t = Some (t', p) /\ TInv (p :: own) t' /\ framed t t' /\ pkts_of t' p = [] /\
    (pbatch_idx_ t' = S (pbatch_idx_ t) /\ S (pbatch_idx_ t) <= MAX_PBATCH_CNT)%nat /\ refs t' = refs t /\ (forall q, q ∈ own ++ map snd (refs t) -> pkts_of t' q = pkts_of t q).
Proof.
  intros [H1 H2 H3 H4 H5 H6 H7 H8 H9]. unfold AllocPacketBatch. destruct (_ <? _)%nat eqn:Hlt; [right|left].
  2: { by apply Nat.ltb_ge in Hlt. }
  set (p := S (pbatch_idx_ t)). set (t' := set_pool t p (<[p := []]> (pbatch_ t))).
  assert (Hfresh : p ∉ own ++ map snd (refs t)) by (intros Hin%H5; unfold p in Hin; lia).
  assert (Hpk : forall q, pkts_of t' q = if decide (p = q) then [] else pkts_of t q).
  { intros q. unfold pkts_of, t'. cbn. destruct (decide (p = q)) as [<-|]; [by rewrite lookup_insert_eq|by rewrite lookup_insert_ne]. }
  exists t', p. split; [done|]. split; [split; try done|].
  - cbn. apply NoDup_cons. by split.
  - intros q [->|Hq]%elem_of_cons; [done|]. specialize (H5 q Hq). cbn. lia.
  - intros q. rewrite Hpk. destruct (decide _); [cbn; lia|apply H6].
  - split; [by split|]. split; [by rewrite Hpk, decide_True|]. split; [split; [done|by apply Nat.ltb_lt in Hlt]|]. split; [done|].
    intros q Hq. rewrite Hpk, decide_False; [done|]. by intros <-.
Qed.

Lemma write_spec own t p l : TInv (p :: own) t -> (length l <= kMaxBurst)%nat ->
  TInv (p :: own) (write_batch t p l) /\ framed t (write_batch t p l) /\ flight (write_batch t p l) = flight t /\
  (forall q, q ∈ own -> pkts_of (write_batch t p l) q = pkts_of t q).
Proof.
  intros [H1 H2 H3 H4 H5 H6 H7 H8 H9] Hlen. apply NoDup_cons in H4 as Hp. destruct Hp as [Hp _].
  split; [split; try done|].
  - intros q. rewrite pkts_of_write. by destruct (decide _).
  - split; [by split|]. split.
    + unfold flight. apply carried_ext. intros q Hq. rewrite pkts_of_write, decide_False; [done|]. intros <-. apply Hp, elem_of_app. by right.
    + intros q Hq. rewrite pkts_of_write, decide_False; [done|]. intros <-. apply Hp, elem_of_app. by left.
Qed.

(** ** What is under way while a module works *)

(** The output gates [outs] of the module that hold packets, each with its batch. *)
Record OInv (m : nat) (outs : list (nat * nat)) t : Prop := {
  o_with : gate_with_hook t = map fst outs;
  o_nodup : NoDup (map fst outs);
  o_without : gate_without_hook t = [];
  o_live i p : (i, p) ∈ outs -> live (OutGate (m, i));
  o_gb a p : live (OutGate a) -> gb t (OutGate a) = Some p <-> a.1 = m /\ (a.2, p) ∈ outs }.

Definition dest (a : gate_id) : option gate_id := igate <$> ogate_at h a.
Definition out_refs (m : nat) (outs : list (nat * nat)) : list (gate_id * nat) :=
  map (fun x => (default (0%nat, 0%nat) (dest (m, x.1)), x.2)) outs.

Definition ledger (m : nat) (outs : list (nat * nat)) t : list (option gate_id * Packet) :=
  map (fun x => (Some x.1, x.2)) (flight t ++ carried t (out_refs m outs)) ++ map (pair None) (freed t ++ dead_batch_ t).

Definition load (m : nat) (outs : list (nat * nat)) t : nat := (weight (refs t) + weight (out_refs m outs))%nat.

Definition SInv (m : nat) (cur : list nat) (outs : list (nat * nat)) t : Prop :=
  TInv (cur ++ map snd outs) t /\ OInv m outs t.

Lemma OInv_framed m outs t t' : framed t t' -> OInv m outs t -> OInv m outs t'.
Proof.
  intros [F1 F2 F3 _ _] [O1 O2 O3 O4 O5]. split; try congruence; [done|]. intros a p Ha. rewrite F1 by done. by apply O5.
Qed.

Lemma out_refs_snd m outs : map snd (out_refs m outs) = map snd outs.
Proof. unfold out_refs. rewrite map_map. done. Qed.

Lemma ledger_drop m outs t t' pkt : freed t' ++ dead_batch_ t' ≡ₚ pkt :: freed t ++ dead_batch_ t ->
  ledger m outs (set_freed (set_dead t (dead_batch_ t')) (silent_drops t') (freed t')) ≡ₚ (None, pkt) :: ledger m outs t.
Proof.
  intros Hp. unfold ledger, flight, carried, refs. cbn.
  rewrite Permutation_middle. apply Permutation_app_head. by rewrite Hp.
Qed.

(** Dropping a packet. *)
Lemma Drop_spec m cur outs t pkt : SInv m cur outs t ->
  SInv m cur outs (DropPacket t pkt) /\ ledger m outs (DropPacket t pkt) ≡ₚ (None, pkt) :: ledger m outs t /\
  pbatch_idx_ (DropPacket t pkt) = pbatch_idx_ t /\ load m outs (DropPacket t pkt) = load m outs t.
Proof.
  intros [[H1 H2 H3 H4 H5 H6 H7 H8 H9] [O1 O2 O3 O4 O5]]. unfold DropPacket. cbn [dead_batch_ set_dead].
  destruct (_ <=? _)%nat eqn:Hfull.
  - split; [split; split; try done; cbn; unfold kMaxBurst; lia|]. split; [|done].
    apply (ledger_drop m outs t (set_dead (deadend (set_dead t (dead_batch_ t ++ [pkt])) (dead_batch_ t ++ [pkt])) [])). cbn. rewrite app_nil_r, (app_assoc _ _ [pkt]). apply Permutation_app_comm.
  - apply Nat.leb_gt in Hfull. split; [split; split; done|]. split; [|done].
    apply (ledger_drop m outs t (set_dead t (dead_batch_ t ++ [pkt]))). cbn. rewrite (app_assoc _ _ [pkt]). apply Permutation_app_comm.
Qed.

Lemma Free_spec m cur outs t pkts : SInv m cur outs t ->
  SInv m cur outs (FreeBatch t pkts) /\ ledger m outs (FreeBatch t pkts) ≡ₚ map (pair None) pkts ++ ledger m outs t /\
  pbatch_idx_ (FreeBatch t pkts) = pbatch_idx_ t /\ load m outs (FreeBatch t pkts) = load m outs t.
Proof.
  intros [[H1 H2 H3 H4 H5 H6 H7 H8 H9] [O1 O2 O3 O4 O5]]. split; [split; split; done|]. split; [|done].
  unfold ledger. cbn [freed dead_batch_ FreeBatch set_freed]. rewrite !map_app.
  change (flight (FreeBatch t pkts)) with (flight t). change (carried (FreeBatch t pkts)) with (carried t).
  set (L := map (pair None) pkts). clearbody L. solve_Permutation.
Qed.

Lemma carried_out_cons t m i p outs og : ogate_at h (m, i) = Some og ->
  carried t (out_refs m ((i, p) :: outs)) = map (pair (igate og)) (pkts_of t p) ++ carried t (out_refs m outs).
Proof. intros Hog. unfold out_refs. cbn [map]. rewrite carried_cons. cbn. unfold dest. by rewrite Hog. Qed.

Lemma out_refs_perm m outs outs' : outs ≡ₚ outs' -> out_refs m outs ≡ₚ out_refs m outs'.
Proof. intros Hp. unfold out_refs. by rewrite Hp. Qed.

Lemma ledger_ext m outs outs' t t' l : framed t t' ->
  flight t' ++ carried t' (out_refs m outs') ≡ₚ l ++ flight t ++ carried t (out_refs m outs) ->
  ledger m outs' t' ≡ₚ map (fun x => (Some x.1, x.2)) l ++ ledger m outs t.
Proof.
  intros [_ _ _ Hd Hf] Hp. unfold ledger. rewrite Hd, Hf, app_assoc, <- map_app. apply Permutation_app_tail.
  by rewrite Hp.
Qed.

Lemma weight_out m i p outs og : ogate_at h (m, i) = Some og ->
  weight (out_refs m ((i, p) :: outs)) = (S (depth (igate og).1) + weight (out_refs m outs))%nat.
Proof. intros Hog. unfold out_refs. cbn [map]. unfold weight. cbn. unfold dest. by rewrite Hog. Qed.

Lemma out_split m outs t i p : OInv m outs t -> (i, p) ∈ outs ->
  exists o1 o2, outs = o1 ++ (i, p) :: o2 /\ i ∉ map fst o1 /\ i ∉ map fst o2.
Proof.
  intros HO Hin. apply list_elem_of_split in Hin as (o1 & o2 & ->). exists o1, o2. split; [done|].
  pose proof (o_nodup _ _ _ HO) as Hnd. rewrite map_app in Hnd. cbn in Hnd. apply NoDup_app in Hnd as (_ & Hd & [Hx _]%NoDup_cons).
  split; [|done]. intros H1. apply (Hd i H1). by left.
Qed.

(** A batch for an output gate that has none. *)
Lemma new_out m cur outs t i og p : TInv (p :: cur ++ map snd outs) t -> OInv m outs t -> ogate_at h (m, i) = Some og ->
  i ∉ map fst outs ->
  (exists l, set_gate_batch t (ogate_index og) (Some p) = Some (set_gates t l) /\
     ((push_with_hook (set_gates t l) i = None /\ (kMaxBurst <= length outs)%nat) \/
      exists t', push_with_hook (set_gates t l) i = Some t' /\ SInv m cur (outs ++ [(i, p)]) t' /\
        pbatch_idx_ t' = pbatch_idx_ t /\ refs t' = refs t /\ (forall q, pkts_of t' q = pkts_of t q) /\
        freed t' = freed t /\ dead_batch_ t' = dead_batch_ t)).
Proof using Hnum.
  intros [H1 H2 H3 H4 H5 H6 H7 H8 H9] [O1 O2 O3 O4 O5] Hog Hi.
  assert (Hgn : gate_number h (OutGate (m, i)) = Some (ogate_index og)) by (cbn; by rewrite Hog).
  destruct (set_gate_spec t (OutGate (m, i)) _ (Some p) Hgn H1) as (l & -> & Hlen & Hgb & Hraw).
  exists l. split; [done|]. unfold push_with_hook. cbn [gate_with_hook set_gates]. rewrite O1, length_map.
  destruct (_ <? _)%nat eqn:Hlt; [right|left; by apply Nat.ltb_ge in Hlt].
  eexists. split; [done|]. assert (Hlo : live (OutGate (m, i))) by (by eexists).
  set (t' := set_ctx _ _ _). assert (Hgb' : forall r, live r -> gb t' r = if decide (slot (OutGate (m, i)) = slot r) then Some p else gb t r) by done.
  assert (Hperm : cur ++ map snd (outs ++ [(i, p)]) ≡ₚ p :: cur ++ map snd outs).
  { rewrite map_app. cbn. rewrite app_assoc. by rewrite Permutation_app_comm. }
  split; [|done]. split.
  - apply (TInv_perm (p :: cur ++ map snd outs)); [by rewrite Hperm|]. split; try done; [cbn; by rewrite Hlen| |by apply (slots_set _ _ _ Hraw)].
    intros b q Hb Hg. rewrite Hgb' in Hg by done. rewrite decide_False in Hg; [by apply H2|].
    intros He. by apply gate_slot_inj in He.
  - split; cbn; [by rewrite map_app| |done| |].
    + rewrite map_app. apply NoDup_app. split; [done|]. split; [|apply NoDup_singleton].
      intros x Hx ->%list_elem_of_singleton. done.
    + intros j q [Hj|[= -> ->]%list_elem_of_singleton]%elem_of_app; [by apply (O4 j q)|done].
    + intros a q Ha. rewrite Hgb' by done. destruct (decide _) as [He|Hne].
      * apply gate_slot_inj in He; [|done|done]. injection He as <-. cbn. split.
        { intros [= <-]. split; [done|]. apply elem_of_app. right. by left. }
        { intros [_ [Hin|[= ->]%list_elem_of_singleton]%elem_of_app]; [|done]. destruct Hi. apply list_elem_of_In, in_map_iff.
          exists (i, q). split; [done|by apply list_elem_of_In]. }
      * rewrite O5 by done. rewrite elem_of_app, list_elem_of_singleton. split; [intros [? ?]; auto|].
        intros [Ha1 [?|[= Ha2 _]]]; [done|]. destruct Hne. destruct a; cbn in *; by subst.
Qed.

(** Another batch for an output gate whose batch has been handed over. *)
Lemma replace_out m cur o1 o2 t i og p p' : TInv (p' :: cur ++ map snd (o1 ++ o2)) t -> OInv m (o1 ++ (i, p) :: o2) t ->
  ogate_at h (m, i) = Some og ->
  exists l, set_gate_batch t (ogate_index og) (Some p') = Some (set_gates t l) /\
    SInv m cur (o1 ++ (i, p') :: o2) (set_gates t l).
Proof using Hnum.
  intros [H1 H2 H3 H4 H5 H6 H7 H8 H9] [O1 O2 O3 O4 O5] Hog.
  assert (Hgn : gate_number h (OutGate (m, i)) = Some (ogate_index og)) by (cbn; by rewrite Hog).
  destruct (set_gate_spec t (OutGate (m, i)) _ (Some p') Hgn H1) as (l & -> & Hlen & Hgb & Hraw). exists l. split; [done|].
  assert (Hlo : live (OutGate (m, i))) by (by eexists).
  assert (Hperm : cur ++ map snd (o1 ++ (i, p') :: o2) ≡ₚ p' :: cur ++ map snd (o1 ++ o2)).
  { rewrite !map_app. cbn. by rewrite <- !Permutation_middle. }
  assert (Hio : i ∉ map fst o1 /\ i ∉ map fst o2).
  { rewrite map_app in O2. cbn in O2. apply NoDup_app in O2 as (_ & Hd & [Hx _]%NoDup_cons).
    split; [|done]. intros Hin. apply (Hd i Hin). by left. }
  split.
  - apply (TInv_perm (p' :: cur ++ map snd (o1 ++ o2))); [by rewrite Hperm|]. split; try done; [cbn; by rewrite Hlen| |by apply (slots_set _ _ _ Hraw)].
    intros b q Hb Hg. rewrite Hgb in Hg by done. rewrite decide_False in Hg; [by apply H2|].
    intros He. by apply gate_slot_inj in He.
  - split; cbn; [rewrite O1, !map_app; done|rewrite map_app in *; done|done| |].
    + intros j q [Hj|[[= -> ->]|Hj]%elem_of_cons]%elem_of_app; [apply (O4 j q)|done|apply (O4 j q)]; apply elem_of_app; [by left|].
      right. by right.
    + assert (Hno : forall (o : list (nat * nat)) (q : nat), i ∉ map fst o -> (i, q) ∉ o).
      { intros o q Hx Hin. apply Hx, list_elem_of_In, in_map_iff. exists (i, q). split; [done|by apply list_elem_of_In]. }
      intros a q Ha. rewrite Hgb by done. rewrite !elem_of_app, elem_of_cons. destruct (decide _) as [He|Hne].
      * apply gate_slot_inj in He; [|done|done]. injection He as <-. cbn. split; [intros [= <-]; by auto|].
        intros [_ [Hin|[[= ->]|Hin]]]; [by destruct (Hno o1 q (proj1 Hio) Hin)|done|by destruct (Hno o2 q (proj2 Hio) Hin)].
      * rewrite O5 by done. rewrite !elem_of_app, elem_of_cons. destruct a as [m' j]. cbn in *.
        assert (j = i -> m' <> m) as Hj by (intros -> ->; by apply Hne). split; intros [-> Hx]; (split; [done|]).
        { destruct Hx as [?|[[= -> _]|?]]; [by left|by destruct Hj|by right; right]. }
        { destruct Hx as [?|[[= -> _]|?]]; [by left|by destruct Hj|by right; right]. }
Qed.

Lemma gate_for_spec m cur outs t i og : SInv m cur outs t -> ogate_at h (m, i) = Some og -> ogate_hooks og <> [] ->
  (gate_batch_for h t og i = None /\ (MAX_PBATCH_CNT <= pbatch_idx_ t \/ kMaxBurst <= length outs)%nat) \/
  exists t' p outs', gate_batch_for h t og i = Some (t', p) /\ SInv m cur outs' t' /\ (i, p) ∈ outs' /\
    ledger m outs' t' ≡ₚ ledger m outs t /\
    (t' = t /\ outs' = outs \/ pkts_of t' p = [] /\ (pbatch_idx_ t' = S (pbatch_idx_ t) /\ S (pbatch_idx_ t) <= MAX_PBATCH_CNT)%nat /\ length outs' = S (length outs) /\
       load m outs' t' = (S (depth (igate og).1) + load m outs t)%nat).
Proof using HL Hnum.
  intros [HT HO] Hog Hh. unfold gate_batch_for. rewrite (get_ogate t (m, i) og Hog (ti_len _ _ HT)). cbn [mbind option_bind].
  assert (Hlo : live (OutGate (m, i))) by (unfold live; cbn; by rewrite Hog).
  destruct (gb t (OutGate (m, i))) as [p|] eqn:Hgb.
  { right. exists t, p, outs. split; [done|]. split; [done|]. apply (o_gb _ _ _ HO) in Hgb as [_ Hin]; [|done]. auto. }
  rewrite bool_decide_false by done. cbn [negb].
  destruct (Alloc_spec _ t HT) as [[-> Hfull]|(t1 & p & -> & HT1 & Hf1 & Hp1 & Hi1 & Hr1 & Hq1)]; [left; by auto|].
  cbn [mbind option_bind]. assert (Hi : i ∉ map fst outs).
  { intros Hin. apply list_elem_of_In, in_map_iff in Hin as ([j q] & Hj & Hin%list_elem_of_In). cbn in Hj. subst j.
    assert (gb t (OutGate (m, i)) = Some q); [|congruence]. by apply (o_gb _ _ _ HO). }
  pose proof (OInv_framed m outs t t1 Hf1 HO) as HO1.
  destruct (new_out m cur outs t1 i og p HT1 HO1 Hog Hi) as (l & -> & Hpush). cbn [mbind option_bind].
  destruct Hpush as [[-> Hlen]|(t2 & -> & HS2 & Hi2 & Hr2 & Hq2 & Hfr2 & Hd2)];
    cbn [mbind option_bind]; [left; by auto|right].
  exists t2, p, (outs ++ [(i, p)]). split; [done|]. split; [done|]. split; [apply elem_of_app; right; by left|].
  destruct Hf1 as [_ _ _ Hfd1 Hff1]. split.
  - unfold ledger. rewrite Hfr2, Hd2, Hfd1, Hff1. apply Permutation_app_tail, Permutation_map.
    assert (flight t2 = flight t) as ->.
    { unfold flight. rewrite Hr2, Hr1. apply carried_ext. intros x Hx. rewrite Hq2. apply Hq1, elem_of_app. by right. }
    apply Permutation_app_head. unfold out_refs. rewrite map_app, carried_app. cbn [map]. rewrite carried_cons. cbn [snd].
    rewrite Hq2, Hp1. cbn. rewrite app_nil_r. fold (out_refs m outs). rewrite (carried_ext t t2); [done|].
    intros x Hx. rewrite Hq2. apply Hq1. rewrite out_refs_snd in Hx. set_solver.
  - right. split; [by rewrite Hq2|]. split; [by rewrite Hi2|]. split; [rewrite length_app; cbn; lia|].
    unfold load. rewrite Hr2, Hr1.
    rewrite (weight_perm _ _ (out_refs_perm m (outs ++ [(i, p)]) ((i, p) :: outs) (Permutation_app_comm _ _))).
    rewrite (weight_out _ _ _ _ og) by done. lia.
Qed.

(** Adding a packet to the batch of an output gate. *)
Lemma batch_add_spec m cur outs t i p og pkt : SInv m cur outs t -> (i, p) ∈ outs -> ogate_at h (m, i) = Some og ->
  (length (pkts_of t p) < kMaxBurst)%nat ->
  exists t', batch_add t p pkt = Some t' /\ SInv m cur outs t' /\ pbatch_idx_ t' = pbatch_idx_ t /\
    load m outs t' = load m outs t /\ ledger m outs t' ≡ₚ (Some (igate og), pkt) :: ledger m outs t.
Proof.
  intros [HT HO] Hin Hog Hlen. unfold batch_add. apply Nat.ltb_lt in Hlen as Hb. rewrite Hb.
  destruct (out_split m outs t i p HO Hin) as (o1 & o2 & Ho & _).
  assert (Hperm : cur ++ map snd outs ≡ₚ p :: cur ++ map snd (o1 ++ o2)).
  { rewrite Ho, !map_app. cbn. by rewrite <- !Permutation_middle. }
  pose proof (TInv_perm _ _ t Hperm HT) as HT'.
  destruct (write_spec (cur ++ map snd (o1 ++ o2)) t p (pkts_of t p ++ [pkt]) HT') as (HT2 & Hf2 & Hfl & Hq).
  { rewrite length_app. cbn. lia. }
  eexists. split; [done|]. split; [split; [by apply (TInv_perm _ _ _ (symmetry Hperm))|by apply (OInv_framed m outs t)]|].
  do 2 (split; [done|]). change ((Some (igate og), pkt) :: ledger m outs t) with
    (map (fun x => (Some x.1, x.2)) [(igate og, pkt)] ++ ledger m outs t). apply ledger_ext; [done|]. rewrite Hfl.
  assert (Hor : out_refs m outs ≡ₚ (igate og, p) :: out_refs m (o1 ++ o2)).
  { rewrite (out_refs_perm m outs ((i, p) :: o1 ++ o2)) by (by rewrite Ho, <- Permutation_middle).
    unfold out_refs. cbn [map]. unfold dest at 1. cbn [fst]. by rewrite Hog. }
  rewrite (carried_perm _ _ _ Hor), (carried_perm t _ _ Hor), !carried_cons. cbn [fst snd].
  rewrite pkts_of_write, decide_True by done. rewrite map_app. cbn [map].
  rewrite (carried_ext t _ (out_refs m (o1 ++ o2))).
  2: { intros x Hx. apply Hq. rewrite out_refs_snd in Hx. set_solver. }
  generalize (map (pair (igate og)) (pkts_of t p)) as P, (carried t (out_refs m (o1 ++ o2))) as C. intros P C. solve_Permutation.
Qed.

(** A full batch is handed over and a new one takes its place. *)
Lemma full_out m cur outs t i og p : SInv m cur outs t -> (i, p) ∈ outs -> ogate_at h (m, i) = Some og -> ogate_hooks og <> [] ->
  let next := full ← get_gate_batch t (ogate_index og); full ← full; t ← AddToRun h t (igate og) full;
    '(t, batch) ← AllocPacketBatch t; t ← set_gate_batch t (ogate_index og) (Some batch); Some (t, batch) in
  (next = None /\ (MAX_PBATCH_CNT <= pbatch_idx_ t)%nat) \/
  exists t' p' outs', next = Some (t', p') /\ SInv m cur outs' t' /\ (i, p') ∈ outs' /\ pkts_of t' p' = [] /\
    ledger m outs' t' ≡ₚ ledger m outs t /\ (pbatch_idx_ t' = S (pbatch_idx_ t) /\ S (pbatch_idx_ t) <= MAX_PBATCH_CNT)%nat /\ length outs' = length outs /\
    (load m outs' t' <= S (depth (igate og).1) + load m outs t)%nat.
Proof using HL Hnum.
  intros [HT HO] Hin Hog Hh. cbv zeta. rewrite (get_ogate t (m, i) og Hog (ti_len _ _ HT)). cbn [mbind option_bind].
  assert (Hlo : live (OutGate (m, i))) by (unfold live; cbn; by rewrite Hog).
  assert (gb t (OutGate (m, i)) = Some p) as -> by (by apply (o_gb _ _ _ HO)). cbn [mbind option_bind].
  destruct (out_split m outs t i p HO Hin) as (o1 & o2 & -> & _).
  assert (Hperm : cur ++ map snd (o1 ++ (i, p) :: o2) ≡ₚ p :: cur ++ map snd (o1 ++ o2)).
  { rewrite !map_app. cbn. by rewrite <- !Permutation_middle. }
  pose proof (TInv_perm _ _ t Hperm HT) as HT'. destruct (l_out h HL _ _ Hog) as (ig & Hig & _).
  destruct (AddToRun_spec _ t (igate og) ig p HT' Hig) as (t1 & -> & HT1 & Hf1 & Hi1 & Hfl1 & Hq1 & Hw1). cbn [mbind option_bind].
  destruct (Alloc_spec _ t1 HT1) as [[-> Hfull]|(t2 & p' & -> & HT2 & Hf2 & Hp2 & Hi2 & Hr2 & Hq2)]; cbn [mbind option_bind].
  { left. split; [done|]. by rewrite <- Hi1. }
  pose proof (framed_trans _ _ _ Hf1 Hf2) as Hf. pose proof (OInv_framed m _ t t2 Hf HO) as HO2.
  destruct (replace_out m cur o1 o2 t2 i og p p' HT2 HO2 Hog) as (l & -> & HS). cbn [mbind option_bind].
  right. exists (set_gates t2 l), p', (o1 ++ (i, p') :: o2). split; [done|]. split; [done|].
  split; [apply elem_of_app; right; by left|]. split; [done|].
  split; [|split; [cbn; lia|split; [by rewrite !length_app|]]].
  2: { unfold load. change (refs (set_gates t2 l)) with (refs t2). rewrite Hr2.
       assert (forall q, weight (out_refs m (o1 ++ (i, q) :: o2)) = (S (depth (igate og).1) + weight (out_refs m (o1 ++ o2)))%nat) as Hwo.
       { intros q. rewrite <- (weight_out m i q _ og Hog). apply weight_perm, out_refs_perm. by rewrite Permutation_middle. }
       rewrite !Hwo. lia. }
  unfold ledger. destruct Hf as [_ _ _ Hd Hfr]. cbn [freed dead_batch_ set_gates]. rewrite Hd, Hfr.
  apply Permutation_app_tail, Permutation_map.
  assert (Hor : forall q, out_refs m (o1 ++ (i, q) :: o2) ≡ₚ (igate og, q) :: out_refs m (o1 ++ o2)).
  { intros q. rewrite (out_refs_perm m _ ((i, q) :: o1 ++ o2)) by (by rewrite <- Permutation_middle).
    unfold out_refs. cbn [map]. unfold dest at 1. cbn [fst]. by rewrite Hog. }
  rewrite (carried_perm _ _ _ (Hor p')), (carried_perm t _ _ (Hor p)), !carried_cons. cbn [fst snd].
  change (pkts_of (set_gates t2 l) p') with (pkts_of t2 p'). rewrite Hp2. cbn [map app].
  assert (flight (set_gates t2 l) = flight t1) as ->.
  { unfold flight. change (refs (set_gates t2 l)) with (refs t2). rewrite Hr2. apply carried_ext. intros x Hx.
    apply Hq2, elem_of_app. by right. }
  rewrite Hfl1, (carried_ext t _ (out_refs m (o1 ++ o2))).
  2: { intros x Hx. rewrite out_refs_snd in Hx. change (pkts_of (set_gates t2 l) x) with (pkts_of t2 x).
       rewrite Hq2, Hq1; [done|set_solver|set_solver]. }
  rewrite !app_assoc. apply Permutation_app_tail, Permutation_app_comm.
Qed.

Context (hooked : forall a og, ogate_at h a = Some og -> ogate_hooks og <> []).
Context (downhill : forall a og, ogate_at h a = Some og -> (depth (igate og).1 < depth a.1)%nat).

(** At most [k] batches are taken from the pool, and no more than there are. *)
Definition pool_use (t t' : Task Packet) (k : nat) : Prop :=
  (pbatch_idx_ t <= pbatch_idx_ t' <= pbatch_idx_ t + k /\ (pbatch_idx_ t <= MAX_PBATCH_CNT -> pbatch_idx_ t' <= MAX_PBATCH_CNT))%nat.

Lemma Emit_spec m cur outs t i pkt : SInv m cur outs t ->
  (EmitPacket h t m pkt i = None /\ (MAX_PBATCH_CNT <= pbatch_idx_ t \/ kMaxBurst <= length outs)%nat) \/
  exists t' outs', EmitPacket h t m pkt i = Some t' /\ SInv m cur outs' t' /\
    ledger m outs' t' ≡ₚ (dest (m, i), pkt) :: ledger m outs t /\
    pool_use t t' 1 /\ (length outs' <= S (length outs))%nat /\
    (load m outs' t' + pbatch_idx_ t * depth m <= load m outs t + pbatch_idx_ t' * depth m)%nat.
Proof using HL Hnum hooked downhill.
  intros HS. unfold EmitPacket, dest. destruct (ogate_at h (m, i)) as [og|] eqn:Hog.
  2: { right. exists (DropPacket t pkt), outs. destruct (Drop_spec m cur outs t pkt HS) as (HS' & Hl & Hi & Hw). unfold pool_use. rewrite Hi, Hw. do 3 (split; [done|]). lia. }
  pose proof (hooked _ _ Hog) as Hh. pose proof (downhill _ _ Hog) as Hd. cbn [fst] in Hd.
  destruct (gate_for_spec m cur outs t i og HS Hog Hh) as [[-> Hfail]|(t1 & p & outs1 & -> & HS1 & Hin1 & Hl1 & Hcase)]; [by left|].
  cbn [mbind option_bind]. rewrite (bool_decide_false (ogate_hooks og = [])) by done. cbn [negb].
  destruct (kMaxBurst <=? length (pkts_of t1 p))%nat eqn:Hfull.
  - apply Nat.leb_le in Hfull. destruct Hcase as [[-> ->]|(Hp & _)]; [|rewrite Hp in Hfull; cbn in Hfull; unfold kMaxBurst in Hfull; lia].
    destruct (full_out m cur outs t i og p HS1 Hin1 Hog Hh) as [[Hn Hx]|(t2 & p2 & outs2 & Hn & HS2 & Hin2 & Hp2 & Hl2 & Hi2 & Ho2 & Hw2)].
    { cbv zeta in Hn. rewrite Hn. cbn [mbind option_bind]. left. auto. }
    cbv zeta in Hn. rewrite Hn. cbn [mbind option_bind].
    destruct (batch_add_spec m cur outs2 t2 i p2 og pkt HS2 Hin2 Hog) as (t3 & -> & HS3 & Hi3 & Hw3 & Hl3); [rewrite Hp2; cbn; unfold kMaxBurst; lia|].
    right. exists t3, outs2. split; [done|]. split; [done|]. split; [by rewrite Hl3, Hl2|]. unfold pool_use.
    assert (Hs : (pbatch_idx_ t3 * depth m = depth m + pbatch_idx_ t * depth m)%nat) by (rewrite Hi3, (proj1 Hi2); lia). lia.
  - apply Nat.leb_gt in Hfull. cbn [mbind option_bind].
    destruct (batch_add_spec m cur outs1 t1 i p og pkt HS1 Hin1 Hog Hfull) as (t3 & -> & HS3 & Hi3 & Hw3 & Hl3).
    right. exists t3, outs1. split; [done|]. split; [done|]. split; [by rewrite Hl3, Hl1|].
    unfold pool_use. destruct Hcase as [[-> ->]|(_ & Hi1 & Ho1 & Hw1)]; [rewrite Hi3; lia|].
    assert (Hs : (pbatch_idx_ t3 * depth m = depth m + pbatch_idx_ t * depth m)%nat) by (rewrite Hi3, (proj1 Hi1); lia). lia.
Qed.

(** ** Actions *)
Lemma TInv_weaken p own t : TInv (p :: own) t -> TInv own t.
Proof.
  intros [H1 H2 H3 H4 H5 H6 H7 H8 H9]. split; try done; [by apply NoDup_cons in H4 as [_ ?]|].
  intros q Hq. apply H5. by right.
Qed.

(** What an action sends, to the gate that the output gate leads to, or nowhere. *)
Definition sent_by (m : nat) (a : action Packet) : list (option gate_id * Packet) :=
  match a with
  | Emit pkt i => [(dest (m, i), pkt)]
  | Drop pkt => [(None, pkt)]
  | Free pkts => map (pair None) pkts
  | RunChoose i pkts | RunNew i pkts => map (pair (dest (m, i))) pkts
  end.
Definition sent_by_all (m : nat) (l : list (action Packet)) : list (option gate_id * Packet) := concat (map (sent_by m) l).

Lemma RunChoose_spec m cur outs t i p l : TInv (p :: cur ++ map snd outs) t -> OInv m outs t -> (length l <= kMaxBurst)%nat ->
  exists t', RunChooseModule h (write_batch t p l) m i p = Some t' /\ SInv m cur outs t' /\ pbatch_idx_ t' = pbatch_idx_ t /\
    (load m outs t' <= load m outs t + depth m)%nat /\ ledger m outs t' ≡ₚ map (pair (dest (m, i))) l ++ ledger m outs t.
Proof using HL Hnum hooked downhill.
  intros HT HO Hlen. destruct (write_spec _ t p l HT Hlen) as (HT1 & Hf1 & Hfl1 & Hq1).
  set (t1 := write_batch t p l) in *. pose proof (OInv_framed m outs t t1 Hf1 HO) as HO1.
  assert (Hp1 : pkts_of t1 p = l) by (unfold t1; by rewrite pkts_of_write, decide_True).
  assert (Hout : forall t', (forall q, q ∈ cur ++ map snd outs -> pkts_of t' q = pkts_of t q) ->
    carried t' (out_refs m outs) = carried t (out_refs m outs)).
  { intros t' Hq. apply carried_ext. intros x Hx. apply Hq. rewrite out_refs_snd in Hx. set_solver. }
  assert (Hsame : ledger m outs t1 ≡ₚ ledger m outs t).
  { apply (ledger_ext m outs outs t t1 []); [done|]. by rewrite Hfl1, Hout. }
  unfold RunChooseModule. rewrite Hp1. destruct (Nat.leb_spec (length l) 0) as [Hl0|_].
  { assert (l = []) as -> by (apply nil_length_inv; lia). exists t1. split; [done|].
    split; [split; [by apply (TInv_weaken p)|done]|]. split; [done|]. split; [unfold load; change (refs t1) with (refs t); lia|]. done. }
  unfold dest. destruct (ogate_at h (m, i)) as [og|] eqn:Hog; cbn [fmap option_fmap option_map].
  - destruct (l_out h HL _ _ Hog) as (ig & Hig & _).
    destruct (AddToRun_spec _ t1 (igate og) ig p HT1 Hig) as (t2 & -> & HT2 & Hf2 & Hi2 & Hfl2 & Hq2 & Hw2).
    exists t2. split; [done|]. split; [split; [done|by apply (OInv_framed m outs t1)]|]. split; [done|].
    split; [pose proof (downhill _ _ Hog) as Hd; cbn [fst] in Hd; unfold load; change (refs t1) with (refs t) in Hw2; lia|].
    rewrite <- Hsame. rewrite <- (map_map (pair (igate og)) (fun x => (Some x.1, x.2))). apply (ledger_ext m outs outs t1 t2); [done|].
    rewrite Hfl2, Hp1. rewrite (carried_ext t1 t2); [by rewrite <- app_assoc|].
    intros x Hx. apply Hq2. rewrite out_refs_snd in Hx. set_solver.
  - set (t2 := deadend t1 l).
    assert (HT2 : TInv (p :: cur ++ map snd outs) t2) by (destruct HT1; by split).
    assert (HO2 : OInv m outs t2) by (destruct HO1; by split).
    destruct (write_spec _ t2 p [] HT2) as (HT3 & Hf3 & Hfl3 & Hq3); [cbn; lia|].
    eexists. split; [done|]. split; [split; [by apply (TInv_weaken p)|by apply (OInv_framed m outs t2)]|]. split; [done|].
    split; [unfold load; change (refs (write_batch t2 p [])) with (refs t); lia|].
    assert (ledger m outs (write_batch t2 p []) ≡ₚ ledger m outs t2) as ->.
    { apply (ledger_ext m outs outs t2 _ []); [done|]. rewrite Hfl3. rewrite (carried_ext t2); [done|].
      intros x Hx. apply Hq3. rewrite out_refs_snd in Hx. set_solver. }
    rewrite <- Hsame. unfold ledger. cbn [freed dead_batch_ t2 deadend set_freed]. rewrite <- app_assoc, !map_app.
    change (flight t2) with (flight t1). change (carried t2 (out_refs m outs)) with (carried t1 (out_refs m outs)).
    set (L := map (pair None) l). clearbody L. solve_Permutation.
Qed.

(** A module hands over its own batch at most once, and batches are not too long. *)
Fixpoint ok_actions (own : bool) (l : list (action Packet)) : bool :=
  match l with
  | [] => true
  | RunChoose _ pkts :: l' => own && (length pkts <=? kMaxBurst)%nat && ok_actions false l'
  | RunNew _ pkts :: l' => (length pkts <=? kMaxBurst)%nat && ok_actions own l'
  | _ :: l' => ok_actions own l'
  end.

Definition is_emit (a : action Packet) : bool := match a with Emit _ _ => true | _ => false end.

(** The batches of the pool that actions take. *)
Definition allocs (a : action Packet) : nat := match a with Emit _ _ | RunNew _ _ => 1%nat | _ => 0%nat end.
Definition all_allocs (l : list (action Packet)) : nat := sum_list_with allocs l.

Definition room (t : Task Packet) (outs k : nat) : Prop := (pbatch_idx_ t + k <= MAX_PBATCH_CNT /\ outs + k <= kMaxBurst)%nat.

Lemma act_spec m batch (own : bool) outs t a l : SInv m (if own then [batch] else []) outs t -> ok_actions own (a :: l) = true ->
  (act h m batch (Some t) a = None /\ ~ room t (length outs) (allocs a)) \/
  exists t' outs' own', act h m batch (Some t) a = Some t' /\ SInv m (if own' : bool then [batch] else []) outs' t' /\
    ok_actions own' l = true /\ ledger m outs' t' ≡ₚ sent_by m a ++ ledger m outs t /\
    pool_use t t' (allocs a) /\ (length outs' <= length outs + allocs a /\
     (is_emit a = false -> outs' = outs) /\
     load m outs' t' + Nat.b2n own' * depth m + pbatch_idx_ t * depth m <=
       load m outs t + Nat.b2n own * depth m + pbatch_idx_ t' * depth m)%nat.
Proof using HL Hnum hooked downhill.
  intros HS Hok. destruct a as [pkt i|pkt|pkts|i pkts|i pkts]; cbn [act mbind option_bind sent_by allocs].
  - destruct (Emit_spec m _ outs t i pkt HS) as [[-> Hx]|(t' & outs' & -> & HS' & Hl & H1 & H2 & H3)].
    + left. split; [done|]. unfold room. lia.
    + right. exists t', outs', own. do 4 (split; [done|]). split; [done|]. split; [lia|]. split; [done|]. lia.
  - right. destruct (Drop_spec m _ outs t pkt HS) as (HS' & Hl & Hi & Hw). exists (DropPacket t pkt), outs, own.
    do 4 (split; [done|]). unfold pool_use. rewrite Hi. do 2 (split; [lia|]). split; [done|]. lia.
  - right. destruct (Free_spec m _ outs t pkts HS) as (HS' & Hl & Hi & Hw). exists (FreeBatch t pkts), outs, own.
    do 4 (split; [done|]). unfold pool_use. rewrite Hi. do 2 (split; [lia|]). split; [done|]. lia.
  - cbn in Hok. apply andb_true_iff in Hok as [[Hown Hlen]%andb_true_iff Hok]. rewrite Hlen. apply Nat.leb_le in Hlen.
    rewrite Hown in HS. destruct HS as [HT HO].
    destruct (RunChoose_spec m [] outs t i batch pkts HT HO Hlen) as (t' & -> & HS' & Hi & Hw & Hl).
    right. exists t', outs, false. do 4 (split; [done|]). rewrite Hown. cbn [Nat.b2n]. unfold pool_use. rewrite Hi. do 2 (split; [lia|]). split; [done|]. lia.
  - cbn in Hok. apply andb_true_iff in Hok as [Hlen Hok]. rewrite Hlen. apply Nat.leb_le in Hlen. destruct HS as [HT HO].
    destruct (Alloc_spec _ t HT) as [[-> Hx]|(t1 & p & -> & HT1 & Hf1 & Hp1 & Hi1 & Hr1 & Hq1)]; cbn [mbind option_bind].
    { left. split; [done|]. unfold room. lia. }
    pose proof (OInv_framed m outs t t1 Hf1 HO) as HO1.
    destruct (RunChoose_spec m _ outs t1 i p pkts HT1 HO1 Hlen) as (t' & -> & HS' & Hi & Hw & Hl).
    right. exists t', outs, own. split; [done|]. split; [done|]. split; [done|].
    split.
    2: { assert (Hs : (pbatch_idx_ t' * depth m = depth m + pbatch_idx_ t * depth m)%nat) by (rewrite Hi, (proj1 Hi1); lia).
         unfold load, pool_use in *. rewrite Hr1 in Hw. do 2 (split; [lia|]). split; [done|]. lia. }
    rewrite Hl.
    apply Permutation_app_head, (ledger_ext m outs outs t t1 []); [done|]. cbn.
    assert (flight t1 = flight t) as ->.
    { unfold flight. rewrite Hr1. apply carried_ext. intros x Hx. apply Hq1, elem_of_app. by right. }
    rewrite (carried_ext t t1); [done|]. intros x Hx. apply Hq1. rewrite out_refs_snd in Hx. set_solver.
Qed.

Lemma acts_none m batch l : foldl (act h m batch) (None : option (Task Packet)) l = None.
Proof. by induction l. Qed.

Lemma acts_spec m batch l own outs t : SInv m (if own : bool then [batch] else []) outs t -> ok_actions own l = true ->
  (foldl (act h m batch) (Some t) l = None /\ ~ room t (length outs) (all_allocs l)) \/
  exists t' outs', foldl (act h m batch) (Some t) l = Some t' /\ SInv m [] outs' t' /\
    ledger m outs' t' ≡ₚ sent_by_all m l ++ ledger m outs t /\
    pool_use t t' (all_allocs l) /\ ((existsb is_emit l = false -> outs' = outs) /\
     load m outs' t' + pbatch_idx_ t * depth m <= load m outs t + Nat.b2n own * depth m + pbatch_idx_ t' * depth m)%nat.
Proof using HL Hnum hooked downhill.
  revert own outs t. induction l as [|a l IH]; intros own outs t HS Hok; cbn [foldl].
  { right. exists t, outs. split; [done|]. split; [|split; [done|split; [unfold pool_use; cbn; lia|split; [done|lia]]]]. destruct own; [|done]. destruct HS as [HT HO].
    split; [by apply (TInv_weaken batch)|done]. }
  destruct (act_spec m batch own outs t a l HS Hok) as [[-> Hx]|(t1 & outs1 & own1 & -> & HS1 & Hok1 & Hl1 & Hi1 & Ho1 & He1 & Hw1)].
  { left. split; [apply acts_none|]. unfold room in *. unfold all_allocs. cbn. lia. }
  destruct (IH own1 outs1 t1 HS1 Hok1) as [[-> Hx]|(t' & outs' & -> & HS' & Hl' & Hi' & He' & Hw')].
  { left. split; [done|]. unfold room, pool_use in *. unfold all_allocs in *. cbn. lia. }
  right. exists t', outs'. split; [done|]. split; [done|]. split.
  2: { unfold all_allocs, pool_use in *; cbn. split; [lia|]. split; [|lia]. intros [Ha Hla]%orb_false_iff. rewrite He', He1; done. }
  rewrite Hl', Hl1. unfold sent_by_all. cbn. rewrite <- app_assoc. rewrite !app_assoc. apply Permutation_app_tail, Permutation_app_comm.
Qed.

(** ** The end of a turn *)
#[local] Instance gate_ref_eq_dec : EqDecision gate_ref.
Proof. solve_decision. Defined.

Lemma TInv_set_none own t a og : TInv own t -> ogate_at h a = Some og ->
  exists l, set_gate_batch t (ogate_index og) None = Some (set_gates t l) /\ TInv own (set_gates t l) /\
    (forall r, live r -> gb (set_gates t l) r = if decide (r = OutGate a) then None else gb t r).
Proof using Hnum.
  intros [H1 H2 H3 H4 H5 H6 H7 H8 H9] Hog.
  assert (Hgn : gate_number h (OutGate a) = Some (ogate_index og)) by (cbn; by rewrite Hog).
  destruct (set_gate_spec t (OutGate a) _ None Hgn H1) as (l & -> & Hlen & Hgb & Hraw). exists l. split; [done|].
  assert (Hgb' : forall r, live r -> gb (set_gates t l) r = if decide (r = OutGate a) then None else gb t r).
  { intros r Hr. rewrite Hgb by done. destruct (decide (r = OutGate a)) as [->|Hne]; [by rewrite decide_True|].
    rewrite decide_False; [done|]. intros He. apply gate_slot_inj in He; [by subst|by eexists|done]. }
  split; [|done]. split; try done.
  - cbn. by rewrite Hlen.
  - intros b p Hl Hg. rewrite Hgb' in Hg by done. rewrite decide_False in Hg by done. by apply H2.
  - by apply (slots_set _ _ _ Hraw).
Qed.

Lemma flush_spec m i p outs t : TInv (map snd ((i, p) :: outs)) t -> OInv m ((i, p) :: outs) (set_ctx t (map fst ((i, p) :: outs)) []) ->
  exists t', flush_gate h m (Some t) i = Some t' /\ TInv (map snd outs) t' /\ OInv m outs (set_ctx t' (map fst outs) []) /\
    gate_without_hook t' = gate_without_hook t /\ pbatch_idx_ t' = pbatch_idx_ t /\
    (load m outs t' <= load m ((i, p) :: outs) t)%nat /\ ledger m outs t' ≡ₚ ledger m ((i, p) :: outs) t.
Proof using HL Hnum.
  intros HT [O1 O2 O3 O4 O5]. destruct (O4 i p ltac:(by left)) as [z Hz].
  unfold flush_gate. cbn [mbind option_bind]. cbn in Hz. destruct (ogate_at h (m, i)) as [og|] eqn:Hog; [|done]. cbn [mbind option_bind].
  rewrite (get_ogate t (m, i) og Hog (ti_len _ _ HT)). cbn [mbind option_bind].
  assert (Hlo : live (OutGate (m, i))) by (unfold live; cbn; by rewrite Hog).
  assert (gb t (OutGate (m, i)) = Some p) as -> by (apply (O5 (m, i)); [done|split; [done|by left]]). cbn [mbind option_bind].
  destruct (l_out h HL _ _ Hog) as (ig & Hig & _).
  destruct (AddToRun_spec _ t (igate og) ig p HT Hig) as (t1 & -> & HT1 & Hf1 & Hi1 & Hfl1 & Hq1 & Hw1). cbn [mbind option_bind].
  destruct (TInv_set_none _ t1 (m, i) og HT1 Hog) as (l & -> & HT2 & Hgb). eexists. split; [done|]. split; [done|].
  cbn in O2. apply NoDup_cons in O2 as [Hi O2]. destruct Hf1 as [F1 F2 F3 F4 F5].
  split; [split; cbn; try done|].
  - intros j q Hin. apply (O4 j q). by right.
  - intros a q Ha. change (gb (set_ctx (set_gates t1 l) (map fst outs) []) (OutGate a)) with (gb (set_gates t1 l) (OutGate a)).
    rewrite Hgb by done. destruct (decide (OutGate a = OutGate (m, i))) as [[= ->]|Hne]; cbn.
    + split; [done|]. intros [_ Hin]. destruct Hi. apply list_elem_of_In, in_map_iff. exists (i, q). split; [done|by apply list_elem_of_In].
    + rewrite F1 by done. rewrite (O5 a q Ha), elem_of_cons. split; [|naive_solver].
      intros [Hm [Heq|Hin]]; [|done]. destruct Hne. destruct a as [am ai]. cbn in *. by injection Heq as -> ->; subst.
  - split; [done|]. split; [done|]. split; [unfold load; rewrite (weight_out _ _ _ _ _ Hog); change (refs (set_gates t1 l)) with (refs t1); lia|].
    unfold ledger. cbn [freed dead_batch_ set_gates]. rewrite F4, F5.
    apply Permutation_app_tail, Permutation_map. rewrite (carried_out_cons t m i p outs og Hog).
    change (flight (set_gates t1 l)) with (flight t1). rewrite Hfl1.
    rewrite (carried_ext t (set_gates t1 l)).
    2: { intros x Hx. rewrite out_refs_snd in Hx. by apply (Hq1 x). }
    rewrite !app_assoc. apply Permutation_app_tail, Permutation_app_comm.
Qed.

Lemma flush_all m outs t : TInv (map snd outs) t -> OInv m outs (set_ctx t (map fst outs) []) ->
  exists t', foldl (flush_gate h m) (Some t) (map fst outs) = Some t' /\ TInv [] t' /\ OInv m [] (set_ctx t' [] []) /\
    gate_without_hook t' = gate_without_hook t /\ pbatch_idx_ t' = pbatch_idx_ t /\
    (load m [] t' <= load m outs t)%nat /\ ledger m [] t' ≡ₚ ledger m outs t.
Proof using HL Hnum.
  revert t. induction outs as [|[i p] outs IH]; intros t HT HO; cbn [map foldl fst]; [by exists t|].
  destruct (flush_spec m i p outs t HT HO) as (t1 & -> & HT1 & HO1 & H1 & H2 & H3 & H4).
  destruct (IH t1 HT1 HO1) as (t' & -> & HT' & HO' & G1 & G2 & G3 & G4). exists t'. do 3 (split; [done|]).
  split; [congruence|]. split; [congruence|]. split; [lia|]. by rewrite G4.
Qed.

Lemma ProcessOGates_spec m outs t : SInv m [] outs t ->
  exists t', ProcessOGates h t m = Some t' /\ SInv m [] [] t' /\ pbatch_idx_ t' = pbatch_idx_ t /\
    (load m [] t' <= load m outs t)%nat /\ ledger m [] t' ≡ₚ ledger m outs t.
Proof using HL Hnum.
  intros [HT HO]. assert (Hc : set_ctx t (map fst outs) [] = t).
  { destruct HO as [O1 _ O3 _ _]. destruct t. cbn in *. by subst. }
  unfold ProcessOGates. rewrite (o_with _ _ _ HO).
  destruct (flush_all m outs t HT) as (t1 & -> & HT1 & HO1 & H1 & H2 & H3 & H4); [by rewrite Hc|]. cbn [mbind option_bind].
  rewrite H1, (o_without _ _ _ HO). cbn [foldl mbind option_bind]. eexists. split; [done|].
  split; [split; [by destruct HT1|done]|]. by split.
Qed.

(** ** Turns *)
Lemma SInv_any m m' t : SInv m [] [] t -> SInv m' [] [] t.
Proof.
  intros [HT [O1 O2 O3 O4 O5]]. split; [done|].
  split; [done|done|done|by intros i p ?%not_elem_of_nil|]. intros a p Ha. rewrite (O5 a p Ha). set_solver.
Qed.

Lemma pick_next_spec m t : SInv m [] [] t -> idle t = false ->
  exists t' b p, pick_next h t = Some (t', b, p) /\ SInv b.1 [p] [] t' /\ live (InGate b) /\
    pbatch_idx_ t' = pbatch_idx_ t /\ (length (pkts_of t p) <= kMaxBurst)%nat /\ pkts_of t' p = pkts_of t p /\
    weight (refs t) = (S (depth b.1) + weight (refs t'))%nat /\
    ledger m [] t ≡ₚ map (pair (Some b)) (pkts_of t p) ++ ledger b.1 [] t'.
Proof using HL Hnum hooked downhill.
  intros HS Hidle. pose proof HS as [HT HO]. pose proof HT as [H1 H2 H3 H4 H5 H6 H7 H8 H9].
  assert (Hfin : forall t' b p, refs t ≡ₚ (b, p) :: refs t' -> pbatch_ t' = pbatch_ t -> freed t' = freed t ->
    dead_batch_ t' = dead_batch_ t -> pbatch_idx_ t' = pbatch_idx_ t ->
    n <= Z.of_nat (length (gate_batch_ t')) -> (forall b p, live (InGate b) -> gb t' (InGate b) = Some p -> (b, p) ∈ igates_to_run_ t') ->
    is_heap (gate_batch_greater h) (igates_to_run_ t') ->
    (forall k p, gate_batch_ t' !! k = Some (Some p) -> exists r, live r /\ slot r = k) ->
    gate_with_hook t' = [] -> gate_without_hook t' = [] -> (forall a, live (OutGate a) -> gb t' (OutGate a) = None) ->
    SInv b.1 [p] [] t' /\ live (InGate b) /\
    pbatch_idx_ t' = pbatch_idx_ t /\ (length (pkts_of t p) <= kMaxBurst)%nat /\ pkts_of t' p = pkts_of t p /\
    weight (refs t) = (S (depth b.1) + weight (refs t'))%nat /\
    ledger m [] t ≡ₚ map (pair (Some b)) (pkts_of t p) ++ ledger b.1 [] t').
  { intros t' b p Hr Hb Hf Hd Hi Hlen Hig Hh Hs Hw Hwo Hout.
    assert (forall x, pkts_of t' x = pkts_of t x) as Hpk by (intros x; unfold pkts_of; by rewrite Hb).
    assert (Hperm : [p] ++ map snd (refs t') ≡ₚ map snd (refs t)) by (by rewrite Hr).
    split; [split; [split; try done|]|].
    - intros b' p' Hin. apply (H3 b' p'). rewrite Hr. by right.
    - cbn [map app]. by rewrite Hperm.
    - intros x. cbn [map app]. rewrite Hperm, Hi. apply H5.
    - intros x. rewrite Hpk. apply H6.
    - by rewrite Hd.
    - split; [done|constructor|done|by intros i q ?%not_elem_of_nil|]. intros a q Ha. rewrite Hout by done. set_solver.
    - split; [apply (H3 b p); rewrite Hr; by left|]. split; [done|]. split; [apply H6|]. split; [done|].
      split; [by rewrite (weight_perm _ _ Hr)|]. unfold ledger. rewrite Hf, Hd, app_assoc.
      apply Permutation_app_tail. cbn [out_refs map]. unfold flight. rewrite (carried_perm t _ _ Hr), carried_cons. cbn [fst snd].
      rewrite (carried_ext t t') by auto. rewrite <- app_assoc, map_app, map_map. done. }
  assert (Hout : forall a, live (OutGate a) -> gb t (OutGate a) = None).
  { intros a Ha. destruct (gb t (OutGate a)) as [q|] eqn:Hq; [|done]. apply (o_gb _ _ _ HO) in Hq as [_ Hq]; [|done].
    by apply not_elem_of_nil in Hq. }
  unfold pick_next, idle in *. destruct (next_gate_ t) as [[b p]|] eqn:Hnext.
  - exists (set_next t None), b, p. split; [done|]. apply Hfin; try done; [|apply HO..]. unfold refs. by rewrite Hnext.
  - cbn in Hidle. destruct (igates_to_run_ t) as [|[b p] q0] eqn:Hq0; [done|].
    assert (Htop : PriorityQueue.top ((b, p) :: q0) = Some (b, p)) by done. rewrite Htop. cbn [mbind option_bind].
    destruct (pop_spec _ greater_asym greater_ntrans _ (b, p) (heap_weaken _ _ H7) Htop) as (q & -> & Hhq & Hpq). cbn [mbind option_bind].
    assert (Hl0 : live (InGate b)) by (apply (H3 b p); unfold refs; rewrite Hnext, Hq0; by left).
    destruct Hl0 as [z Hz]. pose proof Hz as Hz'. cbn in Hz'. destruct (igate_at h b) as [ig|] eqn:Hig; [|done]. cbn [mbind option_bind].
    cbn in Hz'. assert (igate_index ig = z) as Hiz by congruence.
    destruct (set_gate_spec (set_queue t q) (InGate b) z None Hz H1) as (l & Hset & Hlen & Hgb & Hraw).
    rewrite Hiz, Hset. cbn [mbind option_bind]. exists (set_gates (set_queue t q) l), b, p. split; [done|].
    apply Hfin; try done; [|by cbn; rewrite Hlen| | |apply HO|apply HO|].
    + unfold refs. cbn. by rewrite Hnext, Hq0.
    + intros b' p' Hl' Hg. rewrite Hgb in Hg by done. destruct (decide _) as [|Hne]; [done|]. cbn.
      pose proof (H2 b' p' Hl' Hg) as Hin. rewrite Hpq in Hin. apply elem_of_cons in Hin as [[= -> ->]|Hin]; [by destruct Hne|done].
    + by apply (slots_set _ _ _ Hraw).
    + intros a Ha. rewrite Hgb by done. destruct (decide _); [done|]. by apply Hout.
Qed.

(** ** Whole runs *)
Context (ProcessBatch : nat -> nat -> list Packet -> MState -> MState * list (action Packet)).

(** What modules promise when they are given at most 32 packets: to hand over their own batch at most once, and to ask
    for at most 32 further ones, as a module does that emits each of its packets once. *)
Definition well_behaved (l : list (action Packet)) : Prop := ok_actions true l = true /\ (all_allocs l <= kMaxBurst)%nat.

Context (D : nat).
Context (Hmod : forall m ig pkts ms, (length pkts <= kMaxBurst)%nat -> well_behaved (ProcessBatch m ig pkts ms).2).
Context (HD : forall m, (depth m <= D)%nat).

(** The next module asks for more batches than the pool has left. *)
Definition pool_exhausted (t : Task Packet) (ms : MState) : Prop :=
  exists t1 b p, pick_next h t = Some (t1, b, p) /\ live (InGate b) /\
    (MAX_PBATCH_CNT < pbatch_idx_ t + all_allocs (ProcessBatch b.1 b.2 (pkts_of t p) ms).2)%nat.

Definition measure (t : Task Packet) : nat := weight (refs t) + D * (MAX_PBATCH_CNT - pbatch_idx_ t).

Lemma turn_spec m t ms : SInv m [] [] t -> idle t = false -> (pbatch_idx_ t <= MAX_PBATCH_CNT)%nat ->
  (turn h ProcessBatch (t, ms) = None /\ pool_exhausted t ms) \/
  exists t' b pkts, let r := ProcessBatch b.1 b.2 pkts ms in
    turn h ProcessBatch (t, ms) = Some (t', r.1, (b, pkts)) /\ SInv m [] [] t' /\ live (InGate b) /\
    (length pkts <= kMaxBurst)%nat /\ (pbatch_idx_ t' <= MAX_PBATCH_CNT)%nat /\ (measure t' < measure t)%nat /\
    map (pair (Some b)) pkts ++ ledger m [] t' ≡ₚ sent_by_all b.1 r.2 ++ ledger m [] t.
Proof using HL Hnum hooked downhill Hmod HD.
  intros HS Hidle Hroom. destruct (pick_next_spec m t HS Hidle) as (t1 & b & p & Hpick & HS1 & Hl & Hi1 & Hlen & Hp1 & Hw1 & Hled1).
  destruct (Hmod b.1 b.2 (pkts_of t p) ms Hlen) as (Hok & Hmax).
  unfold pool_exhausted, turn. rewrite Hpick. cbn [mbind option_bind]. rewrite Hp1.
  destruct (ProcessBatch b.1 b.2 (pkts_of t p) ms) as [ms' l] eqn:HP. cbn [fst snd] in *.
  destruct (acts_spec b.1 p l true [] t1 HS1 Hok) as [[Hnone Hx]|(t2 & outs & Hacts & HS2 & Hled2 & Hi2 & _ & Hw2)].
  { left. rewrite Hnone. split; [done|]. exists t1, b, p. split; [done|]. split; [done|]. rewrite HP. unfold room in Hx. cbn [length snd] in *. lia. }
  right. destruct (ProcessOGates_spec b.1 outs t2 HS2) as (t3 & Hp & HS3 & Hi3 & Hw3 & Hled3).
  exists t3, b, (pkts_of t p). cbv zeta. rewrite HP. cbn [fst snd].
  rewrite Hacts. cbn [mbind option_bind]. rewrite Hp. cbn [mbind option_bind]. unfold pool_use in Hi2.
  split; [done|]. split; [by apply (SInv_any b.1)|]. do 2 (split; [done|]). split; [lia|]. split.
  - unfold load, measure in *. cbn [out_refs map weight sum_list_with] in *. pose proof (HD b.1). cbn [Nat.b2n] in *.
    rewrite Hi3. assert (Hd : exists e, (pbatch_idx_ t2 = pbatch_idx_ t + e)%nat) by (exists (pbatch_idx_ t2 - pbatch_idx_ t)%nat; lia).
    destruct Hd as [e He]. rewrite He, Hi1 in *. rewrite Nat.mul_add_distr_r in Hw2.
    assert (e * depth b.1 <= D * e)%nat by (rewrite (Nat.mul_comm D e); by apply Nat.mul_le_mono_l).
    assert (D * (MAX_PBATCH_CNT - pbatch_idx_ t) = D * (MAX_PBATCH_CNT - (pbatch_idx_ t + e)) + D * e)%nat.
    { rewrite <- Nat.mul_add_distr_l. f_equal. lia. }
    lia.
  - assert (ledger m [] t3 = ledger b.1 [] t3) as -> by done. rewrite Hled3, Hled2, Hled1.
    rewrite !app_assoc. apply Permutation_app_tail, Permutation_app_comm.
Qed.

(** The first [k] turns of the loop. *)
Fixpoint turns (k : nat) (s : Task Packet * MState) : option (Task Packet * MState) :=
  match k with O => Some s | S k => '(s, _) ← turn h ProcessBatch s; turns k s end.

(** What the modules send when they are given the batches [ds]. *)
Fixpoint replay (ms : MState) (ds : list (gate_id * list Packet)) : MState * list (option gate_id * Packet) :=
  match ds with
  | [] => (ms, [])
  | (b, pkts) :: ds' =>
      let r := ProcessBatch b.1 b.2 pkts ms in
      let r' := replay r.1 ds' in (r'.1, sent_by_all b.1 r.2 ++ r'.2)
  end.
Definition delivered (ds : list (gate_id * list Packet)) : list (option gate_id * Packet) :=
  concat (map (fun d => map (pair (Some d.1)) d.2) ds).
Definition fits (d : gate_id * list Packet) : Prop := live (InGate d.1) /\ (length d.2 <= kMaxBurst)%nat.

Lemma run_loop_spec m fuel t ms : SInv m [] [] t -> (pbatch_idx_ t <= MAX_PBATCH_CNT)%nat -> (measure t <= fuel)%nat ->
  (run_loop h ProcessBatch fuel (t, ms) = None /\
   exists k t' ms', turns k (t, ms) = Some (t', ms') /\ pool_exhausted t' ms') \/
  exists t' ds, run_loop h ProcessBatch fuel (t, ms) = Some (Some (t', (replay ms ds).1, ds)) /\
    SInv m [] [] t' /\ idle t' = true /\ Forall fits ds /\
    delivered ds ++ ledger m [] t' ≡ₚ (replay ms ds).2 ++ ledger m [] t.
Proof using HL Hnum hooked downhill Hmod HD.
  revert t ms. induction fuel as [|fuel IH]; intros t ms HS Hroom Hfuel; cbn [run_loop fst];
    (destruct (idle t) eqn:Hidle; [right; exists t, []; do 4 (split; [done|]); done|]).
  { exfalso. unfold measure in Hfuel. destruct (pick_next_spec m t HS Hidle) as (? & ? & ? & _ & _ & _ & _ & _ & _ & Hwt & _).
    rewrite Hwt in Hfuel. apply Nat.le_0_r, Nat.eq_add_0 in Hfuel as [? _]. done. }
  destruct (turn_spec m t ms HS Hidle Hroom) as [[Hturn Hx]|(t1 & b & pkts & Hturn & HS1 & Hl & Hlen & Hroom1 & Hw & Hled)].
  { left. rewrite Hturn. split; [done|]. by exists O, t, ms. }
  cbv zeta in *. rewrite Hturn. cbn [mbind option_bind].
  destruct (IH t1 (ProcessBatch b.1 b.2 pkts ms).1 HS1 Hroom1) as [(-> & k & t' & ms' & Hk & Hx)|(t' & ds & -> & HS' & Hidle' & Hfits & Hled')];
    [lia| |]; cbn [mbind option_bind].
  { left. split; [done|]. exists (S k), t', ms'. split; [|done]. cbn [turns]. rewrite Hturn. done. }
  right. exists t', ((b, pkts) :: ds). cbn [replay fst snd]. split; [done|]. split; [done|]. split; [done|].
  split; [by constructor|]. unfold delivered in *. cbn [map concat fst snd]. rewrite <- app_assoc, Hled', <- app_assoc.
  rewrite (Permutation_app_comm _ (ledger m [] t1)), app_assoc, Hled, <- app_assoc. apply Permutation_app_head, Permutation_app_comm.
Qed.

(** A task between its runs. *)
Record clean t : Prop := {
  c_next : next_gate_ t = None;
  c_queue : igates_to_run_ t = [];
  c_dead : dead_batch_ t = [];
  c_gates : Forall (fun b => b = None) (gate_batch_ t);
  c_with : gate_with_hook t = [];
  c_without : gate_without_hook t = [];
  c_size p : (length (pkts_of t p) <= kMaxBurst)%nat }.

Lemma clean_gb t r : clean t -> gb t r = None.
Proof.
  intros Hc. unfold gb. destruct (gate_batch_ t !! slot r) as [o|] eqn:Ho; [|done].
  by rewrite (proj1 (Forall_lookup _ _) (c_gates _ Hc) _ _ Ho).
Qed.

Lemma clean_started m t : clean t -> n <= Z.of_nat (length (gate_batch_ t)) ->
  SInv m [0%nat] [] (set_pool t 0 (<[0%nat := []]> (pbatch_ t))).
Proof.
  intros Hc Hn. pose proof Hc as [C1 C2 C3 C4 C5 C6 C7]. set (t0 := set_pool _ _ _).
  assert (Hr : refs t0 = []) by (unfold refs; cbn; by rewrite C1, C2).
  split; [split; rewrite ?Hr; try done|split; try done].
  - intros b p _ Hg. change (gb t0 (InGate b)) with (gb t (InGate b)) in Hg. by rewrite clean_gb in Hg.
  - intros b p ?%not_elem_of_nil. done.
  - apply NoDup_singleton.
  - intros p ->%list_elem_of_singleton. done.
  - intros p. unfold pkts_of, t0. cbn. destruct (decide (0%nat = p)) as [<-|]; [rewrite lookup_insert_eq; cbn; lia|].
    rewrite lookup_insert_ne by done. apply C7.
  - cbn. rewrite C2. intros i j _ _ x Hx. done.
  - cbn. rewrite C3. cbn. unfold kMaxBurst. lia.
  - intros k p Hk. cbn in Hk. by apply (proj1 (Forall_lookup _ _) C4) in Hk.
  - constructor.
  - intros i p ?%not_elem_of_nil. done.
  - intros a p _. change (gb t0 (OutGate a)) with (gb t (OutGate a)). rewrite clean_gb by done. cbn. set_solver.
Qed.

Lemma idle_clean m t : SInv m [] [] t -> idle t = true -> clean (set_dead (deadend t (dead_batch_ t)) []) /\
  ledger m [] t = map (pair None) (freed t ++ dead_batch_ t).
Proof.
  intros [HT HO] [Hn%bool_decide_eq_true Hq%Nat.eqb_eq%nil_length_inv]%andb_true_iff.
  split.
  - split; try done; [|apply HO..|apply HT]. apply Forall_lookup. intros k [p|] Hk; [|done]. exfalso. cbn in Hk.
    destruct (ti_slots _ _ HT k p Hk) as (r & Hl & Hs).
    assert (gb t r = Some p) as Hg by (unfold gb; by rewrite Hs, Hk). destruct r as [b|a].
    + apply (ti_igates _ _ HT) in Hg; [|done]. rewrite Hq in Hg. by apply not_elem_of_nil in Hg.
    + apply (o_gb _ _ _ HO) in Hg as [_ Hg]; [|done]. by apply not_elem_of_nil in Hg.
  - unfold ledger, flight, refs. rewrite Hn, Hq. done.
Qed.

Context (RunTask : MState -> MState * list (action Packet)).

(** C9: one run of a task over an acyclic graph whose gates are numbered and hooked, when the task's own
    module hands on whole batches, and a module that is given at most 32 packets asks for at
    most 32 new batches and hands over its own at most once.  The run ends; every packet that a module sends through a
    gate is in exactly one batch, of at most 32 packets, that the module at the other end is given; every packet
    dropped or sent nowhere is freed exactly once; nothing is left behind.  The one exception is that the pool of 256
    batches is exhausted: after some turns the next module asks for more batches than are left. *)
Theorem packets_delivered_once fuel task_module t ms : clean t -> n <= Z.of_nat (length (gate_batch_ t)) ->
  well_behaved (RunTask ms).2 -> existsb is_emit (RunTask ms).2 = false -> (D * S MAX_PBATCH_CNT <= fuel)%nat ->
  let r := RunTask ms in
  (exists t' ds, run_task h RunTask ProcessBatch fuel task_module t ms = Some (Some (t', (replay r.1 ds).1, ds)) /\
    clean t' /\ n <= Z.of_nat (length (gate_batch_ t')) /\ Forall fits ds /\
    delivered ds ++ map (pair None) (freed t') ≡ₚ
      sent_by_all task_module r.2 ++ (replay r.1 ds).2 ++ map (pair None) (freed t)) \/
  (run_task h RunTask ProcessBatch fuel task_module t ms = None /\
   exists s k t' ms', start h RunTask task_module t ms = Some s /\ turns k s = Some (t', ms') /\ pool_exhausted t' ms').
Proof using HL Hnum hooked downhill Hmod HD.
  intros Hc Hn (Hok & Hmax) Hne Hfuel. cbv zeta.
  pose proof (clean_started task_module t Hc Hn) as HS. set (t0 := set_pool _ _ _) in HS.
  unfold run_task, start. destruct (RunTask ms) as [ms1 l] eqn:HR. cbn [fst snd] in *. fold t0.
  destruct (acts_spec task_module 0 l true [] t0 HS Hok) as [[_ Hx]|(t1 & outs & -> & HS1 & Hled1 & Hi1 & Ho1 & Hw1)].
  { exfalso. apply Hx. unfold room, kMaxBurst, MAX_PBATCH_CNT in *. cbn. lia. }
  cbn [mbind option_bind]. rewrite (Ho1 Hne) in *.
  assert (Hr0 : refs t0 = []) by (unfold refs; cbn; by rewrite (c_next _ Hc), (c_queue _ Hc)).
  unfold pool_use in Hi1. cbn [pbatch_idx_ t0 set_pool] in Hi1, Hw1.
  destruct (run_loop_spec task_module fuel t1 ms1 HS1) as [(-> & k & t' & ms' & Hk & Hx)|(t2 & ds & -> & HS2 & Hidle & Hfits & Hled2)].
  { apply Hi1. lia. }
  { unfold load, measure in *. rewrite Hr0 in Hw1. cbn [out_refs map weight sum_list_with Nat.b2n] in Hw1. pose proof (HD task_module).
    assert (pbatch_idx_ t1 * depth task_module <= D * pbatch_idx_ t1)%nat by (rewrite (Nat.mul_comm D); by apply Nat.mul_le_mono_l).
    assert (D * S MAX_PBATCH_CNT = D + D * (MAX_PBATCH_CNT - pbatch_idx_ t1) + D * pbatch_idx_ t1)%nat.
    { replace (S MAX_PBATCH_CNT) with (1 + (MAX_PBATCH_CNT - pbatch_idx_ t1) + pbatch_idx_ t1)%nat by lia.
      by rewrite !Nat.mul_add_distr_l, Nat.mul_1_r. }
    lia. }
  { right. split; [done|]. exists (t1, ms1), k, t', ms'. by split. }
  left. destruct (idle_clean _ _ HS2 Hidle) as [Hclean Hled3]. cbn [mbind option_bind].
  exists (set_dead (deadend t2 (dead_batch_ t2)) []), ds. split; [done|]. split; [done|]. split; [apply HS2|]. split; [done|].
  rewrite Hled3 in Hled2. cbn [freed set_dead deadend set_freed]. rewrite Hled2, Hled1.
  assert (ledger task_module [] t0 = map (pair None) (freed t)) as ->.
  { unfold ledger, flight. rewrite Hr0. cbn. by rewrite (c_dead _ Hc), app_nil_r. }
  rewrite !app_assoc. apply Permutation_app_tail, Permutation_app_comm.
Qed.
End proofs.

(** ** Examples *)
Definition ogatesb (h : heap) (P : nat -> OGate -> bool) : bool :=
  forallb (fun x => forallb (fun o => match o with Some og => P x.1 og | None => true end) (ogates x.2)) (map_to_list h).
Lemma ogatesb_spec h P a og : ogatesb h P = true -> ogate_at h a = Some og -> P a.1 og = true.
Proof.
  unfold ogatesb. rewrite forallb_forall. intros Hall Hog. apply ogate_at_Some in Hog as (M & HM & Hl).
  specialize (Hall (a.1, M) ltac:(apply list_elem_of_In; by apply elem_of_map_to_list)). cbn in Hall.
  rewrite forallb_forall in Hall. apply (Hall (Some og)), list_elem_of_In. by eapply list_elem_of_lookup_2.
Qed.

(** The source sends 20 packets to the splitter, which emits every other packet to each of
    its gates; both lead to the sink, which drops what it gets. *)
Definition ex_numbered : ModuleGraph := default empty_graph (SetUniqueGateIdx ex_less ex_graph).
Definition ex_start (ms : nat) : nat * list (action nat) := (ms, [RunChoose 0 (seq 0 20)]).
Definition ex_modules (m ig : nat) (pkts : list nat) (ms : nat) : nat * list (action nat) :=
  (ms, if (m =? 1)%nat then map (fun p => Emit p (Nat.modulo p 2)) pkts else map Drop pkts).
Definition ex_task : Task nat := MkTask None [] [] 0 ∅ (replicate 8 None) [] [] 0 [].

Lemma ok_emits_drops {Packet} own (l : list (action Packet)) :
  (forall a, a ∈ l -> match a with Emit _ _ | Drop _ => True | _ => False end) -> ok_actions own l = true.
Proof.
  induction l as [|a l IH]; intros Hall; [done|]. pose proof (Hall a ltac:(by left)) as Ha.
  destruct a; try done; cbn; apply IH; intros x Hx; apply Hall; by right.
Qed.

Lemma ex_well_behaved m ig pkts ms : (length pkts <= kMaxBurst)%nat -> well_behaved (ex_modules m ig pkts ms).2.
Proof.
  intros Hlen. unfold well_behaved, ex_modules. cbn [fst snd]. destruct (m =? 1)%nat.
  - assert (all_allocs (map (fun p => Emit p (Nat.modulo p 2)) pkts) = length pkts) as ->.
    { clear. induction pkts; [done|]. unfold all_allocs in *. cbn in *. by rewrite IHpkts. }
    split; [|lia]. apply ok_emits_drops. intros a (p & <- & _)%list_elem_of_In%in_map_iff. done.
  - assert (all_allocs (map Drop pkts) = 0%nat) as -> by (clear; by induction pkts).
    split; [|unfold kMaxBurst; lia]. apply ok_emits_drops. intros a (p & <- & _)%list_elem_of_In%in_map_iff. done.
Qed.

Lemma ex_numbered_ok : graph_ok ex_numbered /\ numbered (modules ex_numbered) (gate_cnt_ ex_numbered).
Proof.
  destruct (SetUniqueGateIdx_spec ex_less ex_less_asym ex_less_ntrans ex_graph ex_graph_ok) as (g & Hg & HG & _ & _ & _ & _ & Hn);
    [vm_compute; reflexivity|]. unfold ex_numbered. rewrite Hg. by split.
Qed.

Lemma packets_delivered_once_witness :
  exists t' ds, run_task (modules ex_numbered) ex_start ex_modules 600 0 ex_task 40%nat =
      Some (Some (t', (replay (modules ex_numbered) ex_modules 40%nat ds).1, ds)) /\ clean t' /\
    delivered ds ++ map (pair None) (freed t') ≡ₚ
      sent_by_all (modules ex_numbered) 0 (ex_start 40).2 ++ (replay (modules ex_numbered) ex_modules 40%nat ds).2.
Proof.
  destruct ex_numbered_ok as [HG Hn].
  assert (Hck : ogatesb (modules ex_numbered) (fun m og => negb (length (ogate_hooks og) =? 0)%nat && ((2 - (igate og).1) <? (2 - m))%nat) = true)
    by (vm_compute; reflexivity).
  assert (Hcnt : (gate_cnt_ ex_numbered <=? 8) = true) by (vm_compute; reflexivity).
  destruct (packets_delivered_once (Packet := nat) (MState := nat) (modules ex_numbered) (gate_cnt_ ex_numbered) (g_links _ HG) Hn (fun m => 2 - m)%nat)
    with (ProcessBatch := ex_modules) (D := 2%nat) (RunTask := ex_start) (fuel := 600%nat)
      (task_module := 0%nat) (t := ex_task) (ms := 40%nat) as [(t' & ds & Hrun & Hc & _ & _ & Hp)|(Hnone & _)].
  - intros a og Hog He. pose proof (ogatesb_spec _ _ _ _ Hck Hog) as Hb. cbn beta in Hb. by rewrite He in Hb.
  - intros a og Hog. pose proof (ogatesb_spec _ _ _ _ Hck Hog) as Hb. cbn beta in Hb.
    apply andb_true_iff in Hb as [_ Hb%Nat.ltb_lt]. exact Hb.
  - exact ex_well_behaved.
  - intros m. lia.
  - split; [reflexivity|reflexivity|reflexivity|by apply (Forall_replicate (fun b => b = None))|reflexivity|reflexivity|]. intros p. unfold pkts_of. cbn [pbatch_ ex_task]. rewrite lookup_empty. cbn. lia.
  - apply Z.leb_le in Hcnt. exact Hcnt.
  - unfold well_behaved. cbn. unfold kMaxBurst. lia.
  - reflexivity.
  - unfold MAX_PBATCH_CNT. lia.
  - exists t', ds. split; [exact Hrun|]. split; [exact Hc|]. cbv zeta in Hp. cbn [freed ex_task map] in Hp. by rewrite app_nil_r in Hp.
  - vm_compute in Hnone. discriminate Hnone.
Defined.

(** What that run delivers. *)
Lemma example_run :
  (r ← run_task (modules ex_numbered) ex_start ex_modules 100 0 ex_task 40%nat; r ← r; Some (r.2, freed r.1.1)) =
  Some ([(1, 0, seq 0 20); (2, 0, [0; 2; 4; 6; 8; 10; 12; 14; 16; 18; 1; 3; 5; 7; 9; 11; 13; 15; 17; 19])]%nat,
    [0; 2; 4; 6; 8; 10; 12; 14; 16; 18; 1; 3; 5; 7; 9; 11; 13; 15; 17; 19]%nat).
Proof. vm_compute. reflexivity. Qed.

(** Without hooks, packets can be lost: a gate that merges, whose batch is full, is given
    a new batch while that is still empty; [AddToRun] merges it at once, so that nothing
    refers to it when the packet is added. *)
Definition ex_unhooked_ops : list operation :=
  [OpCreate 0 (new_module "source0" true); OpCreate 1 (new_module "split0" false); OpCreate 2 (new_module "sink0" false);
   OpConnect 0 0 1 0 true; OpConnect 1 0 2 0 true; OpConnect 1 1 2 0 true].
Definition ex_unhooked : ModuleGraph := default empty_graph (g ← run empty_graph ex_unhooked_ops; SetUniqueGateIdx ex_less g).
Definition ex_double (m ig : nat) (pkts : list nat) (ms : nat) : nat * list (action nat) :=
  (ms, if (m =? 1)%nat then concat (map (fun p => [Emit p 0; Emit p 1]) pkts) else map Drop pkts).
Lemma unhooked_gates_lose_packets :
  (r ← run_task (modules ex_unhooked) ex_start ex_double 100 0 ex_task 40%nat; r ← r;
   Some (map (fun d => (d.1, length d.2)) r.2, length (freed r.1.1))) =
  Some ([(1, 0, 20); (2, 0, 32)], 32)%nat.
Proof. vm_compute. reflexivity. Qed.
