(* ===== verification/Dispatch.v ===== *)
(** Modules that choose an output gate for packets or batches: [core/modules/round_robin.cc],
    [replicate.cc], [random_split.cc], [hash_lb.cc], [split.cc], [worker_split.cc],
    [bypass.cc], [merge.cc], [sink.cc], [source.cc], [noop.cc] and [buffer.cc].

    [ProcessBatch] gives the state after the call and the actions of Dataflow.v that the
    module asks for; [None] is an index out of the bounds of an array.  [gate_idx_t] is a
    16-bit word.  A command that fails gives the state that it leaves behind. *)
From Stdlib Require Import SpecFloat.
From stdpp Require Import strings.
From S2P Require Import Prelude Common Endian Bits Checksum Random Frame ExactMatch Dataflow.
Open Scope Z_scope.

Definition MAX_RR_GATES : nat := 16384.
Definition MAX_SPLIT_GATES : nat := 16384.
Definition kMaxGates : nat := 16384.
Definition kMaxReplicas : nat := 32.
Definition kMaxWorkers : nat := 64.

(** An element of an array of gates. *)
Definition gate_at (gates : list Z) (i : Z) : option nat :=
  if i <? 0 then None else Z.to_nat <$> gates !! Z.to_nat i.

(** The loop that stores the gates of a command; the result is whether all are valid. *)
Fixpoint store_gates (i : nat) (args gates : list Z) : list Z * bool :=
  match args with
  | [] => (gates, true)
  | elem :: args =>
      let gates := <[i := u16 elem]> gates in
      if is_valid_gate (u16 elem) then store_gates (S i) args gates else (gates, false)
  end.

(** ** RoundRobin *)
Record RoundRobin := MkRR { rr_gates_ : list Z; rr_ngates_ : Z; current_gate_ : Z; per_packet_ : bool }.

Definition rr_new : RoundRobin := MkRR (replicate MAX_RR_GATES 0) 0 0 false.

Definition rr_set_mode (m : RoundRobin) (mode : string) : RoundRobin * (errno + unit) :=
  if bool_decide (mode = "packet"%string) then (MkRR (rr_gates_ m) (rr_ngates_ m) (current_gate_ m) true, inr tt)
  else if bool_decide (mode = "batch"%string) then (MkRR (rr_gates_ m) (rr_ngates_ m) (current_gate_ m) false, inr tt)
  else (m, inl EINVAL).

Definition rr_set_gates (m : RoundRobin) (args : list Z) : RoundRobin * (errno + unit) :=
  if (MAX_RR_GATES <? length args)%nat then (m, inl EINVAL)
  else
    let '(gates, ok) := store_gates 0 args (rr_gates_ m) in
    if ok then (MkRR gates (Z.of_nat (length args)) (current_gate_ m) (per_packet_ m), inr tt)
    else (MkRR gates (rr_ngates_ m) (current_gate_ m) (per_packet_ m), inl EINVAL).

Definition rr_init (m : RoundRobin) (args : list Z) (mode : string) : RoundRobin * (errno + unit) :=
  match rr_set_gates m args with
  | (m, inl e) => (m, inl e)
  | (m, inr _) => if (0 <? String.length mode)%nat then rr_set_mode m mode else (m, inr tt)
  end.

(** [gates_[current_gate_]], and the step to the next gate. *)
Definition rr_next (m : RoundRobin) : option (nat * RoundRobin) :=
  gate ← gate_at (rr_gates_ m) (current_gate_ m);
  let next := current_gate_ m + 1 in
  Some (gate, MkRR (rr_gates_ m) (rr_ngates_ m) (if rr_ngates_ m <=? next then 0 else next) (per_packet_ m)).

(** ** Replicate *)
Record Replicate := MkReplicate { repl_gates_ : list Z; repl_ngates_ : nat }.

Definition repl_new : Replicate := MkReplicate (replicate kMaxReplicas 0) 0.

Definition repl_set_gates (m : Replicate) (args : list Z) : Replicate * (errno + unit) :=
  if (kMaxReplicas <? length args)%nat then (m, inl EINVAL)
  else (MkReplicate (map u16 args ++ drop (length args) (repl_gates_ m)) (length args), inr tt).
Definition repl_init := repl_set_gates.

(** ** RandomSplit *)
Record RandomSplit := MkRandomSplit { rng_ : Z; drop_rate_ : spec_float; rs_gates_ : list Z; rs_ngates_ : nat }.

Definition dbl (m e : Z) : spec_float := binary_normalize 53 1024 m e false.

Definition rs_set_droprate (m : RandomSplit) (drop_rate : spec_float) : RandomSplit * (errno + unit) :=
  if SFltb drop_rate (dbl 0 0) || SFltb (dbl 1 0) drop_rate then (m, inl EINVAL)
  else (MkRandomSplit (rng_ m) drop_rate (rs_gates_ m) (rs_ngates_ m), inr tt).

Definition rs_set_gates (m : RandomSplit) (args : list Z) : RandomSplit * (errno + unit) :=
  if (MAX_SPLIT_GATES <? length args)%nat then (m, inl EINVAL)
  else if negb (forallb (fun g => is_valid_gate (u16 g)) args) then (m, inl EINVAL)
  else (MkRandomSplit (rng_ m) (drop_rate_ m) (map u16 args ++ drop (length args) (rs_gates_ m)) (length args), inr tt).

Definition rs_init (m : RandomSplit) (drop_rate : spec_float) (args : list Z) : RandomSplit * (errno + unit) :=
  match rs_set_droprate m drop_rate with
  | (m, inl e) => (m, inl e)
  | (m, inr _) => rs_set_gates m args
  end.

(** ** Split *)
Record Split := MkSplit { mask_ : Z; shift_ : Z; attr_id_ : Z; offset_ : Z; size_ : Z }.

(** The argument is an attribute, whose id or error [AddMetadataAttr] gives, or an offset. *)
Definition split_init (m : Split) (size : Z) (attribute : option Z) (offset : Z) : Split * (Z + unit) :=
  if (size <? 1) || (8 <? size) then (MkSplit (mask_ m) (shift_ m) (attr_id_ m) (offset_ m) size, inl 22)
  else
    let mask := SetBitsHigh 64 (size * 8) in
    let shift := 64 - size * 8 in
    match attribute with
    | Some id => (MkSplit mask shift id (offset_ m) size, if id <? 0 then inl (- id) else inr tt)
    | None => (MkSplit mask shift (-1) offset size, if 1024 <? offset then inl 22 else inr tt)
    end.

Definition split_value (m : Split) (v : Z) : Z := Z.land (Z.shiftr v (shift_ m)) (mask_ m).

(** ** WorkerSplit *)

(** [worker_gates] in the order of its iteration; a worker past the array is undefined. *)
Fixpoint ws_store (args : list (Z * Z)) (gates : list Z) : option (list Z * (errno + unit)) :=
  match args with
  | [] => Some (gates, inr tt)
  | (wid, gate) :: args =>
      let ogate := u16 gate in
      if MAX_GATES <=? ogate then Some (gates, inl EINVAL)
      else if (Z.to_nat wid <? length gates)%nat then ws_store args (<[Z.to_nat wid := ogate]> gates) else None
  end.

Definition ws_reset (args : list (Z * Z)) : option (list Z * (errno + unit)) :=
  match args with
  | [] => Some (map Z.of_nat (seq 0 kMaxWorkers), inr tt)
  | _ => ws_store args (replicate kMaxWorkers (-1))
  end.
Definition ws_init := ws_reset.

(** ** HashLB *)
Inductive Mode := kL2 | kL3 | kL4 | kOther.
Record HashLB := MkHashLB {
  lb_gates_ : list Z; num_gates_ : Z; mode_ : Mode; fields_table_ : ExactMatchTable Z; hasher_ : Z }.
Definition lb_new : HashLB := MkHashLB (replicate kMaxGates 0) 0 kL2 (new_table 0) 0.

(** [(tmp.d - 1.0) * range]: the double is 1 + hashval / 2^32. *)
Definition hash_range (hashval range : Z) : Z := u16 (Z.shiftr (round53 (Z.shiftl hashval 20 * range)) 52).

Fixpoint lb_add_fields (t : ExactMatchTable Z) (i : nat) (fields : list (Z * Z)) : ExactMatchTable Z * (errno + unit) :=
  match fields with
  | [] => (t, inr tt)
  | (off, num_bytes) :: fields =>
      match AddField t off num_bytes 0 i with
      | (t, inl e) => (t, inl e)
      | (t, inr _) => lb_add_fields t (S i) fields
      end
  end.

Definition lb_with_mode (m : HashLB) (mode : Mode) : HashLB :=
  MkHashLB (lb_gates_ m) (num_gates_ m) mode (fields_table_ m) (hasher_ m).

Definition lb_set_mode (m : HashLB) (mode : string) (fields : list (Z * Z)) : HashLB * (errno + unit) :=
  if negb (length fields =? 0)%nat then
    match lb_add_fields (new_table 0) 0 fields with
    | (t, inl e) => (MkHashLB (lb_gates_ m) (num_gates_ m) kOther t (hasher_ m), inl e)
    | (t, inr _) => (MkHashLB (lb_gates_ m) (num_gates_ m) kOther t (total_key_size_ t), inr tt)
    end
  else if bool_decide (mode = "l2"%string) then (lb_with_mode m kL2, inr tt)
  else if bool_decide (mode = "l3"%string) then (lb_with_mode m kL3, inr tt)
  else if bool_decide (mode = "l4"%string) then (lb_with_mode m kL4, inr tt)
  else (m, inl EINVAL).

Definition lb_set_gates (m : HashLB) (args : list Z) : HashLB * (errno + unit) :=
  if (kMaxGates <? length args)%nat then (m, inl EINVAL)
  else
    let '(gates, ok) := store_gates 0 args (lb_gates_ m) in
    if ok then (MkHashLB gates (Z.of_nat (length args)) (mode_ m) (fields_table_ m) (hasher_ m), inr tt)
    else (MkHashLB gates (num_gates_ m) (mode_ m) (fields_table_ m) (hasher_ m), inl EINVAL).

Definition lb_init (m : HashLB) (gates : list Z) (mode : string) (fields : list (Z * Z)) : HashLB * (errno + unit) :=
  match lb_set_gates m gates with
  | (m, inl e) => (m, inl e)
  | (m, inr _) =>
      if (String.length mode =? 0)%nat && (length fields =? 0)%nat then (lb_with_mode m kL4, inr tt)
      else lb_set_mode m mode fields
  end.

(** The hash of a packet.  [hash_64] is an instruction of the processor, [junk] what the key
    holds before it is filled. *)
Definition lb_hash (hash_64 : Z -> Z -> Z) (m : HashLB) (p junk : bytes) : option Z :=
  match mode_ m with
  | kOther => key ← DoMakeKey (fields_table_ m) p junk; Some (ExactMatchKeyHash hash_64 (hasher_ m) key)
  | kL2 => v0 ← Frame.load 8 0 p; v1 ← Frame.load 4 8 p; Some (hash_64 v0 v1)
  | kL3 => v ← Frame.load 8 (14 + 12) p; Some (hash_64 v 0)
  | kL4 =>
      v0 ← Frame.load 8 (14 + 12) p;
      v1 ← Frame.load 8 (14 + 20) p;
      proto ← Frame.load 4 (14 + 9) p;
      Some (hash_64 v0 (Z.lxor (u32 v1) proto))
  end.

(** ** What modules do to batches *)
Section batches.
Context {Packet : Type}.
Abbreviation actions := (list (action Packet)).

Fixpoint rr_packets (m : RoundRobin) (batch : list Packet) : option (RoundRobin * actions) :=
  match batch with
  | [] => Some (m, [])
  | pkt :: batch =>
      '(gate, m) ← rr_next m;
      '(m, l) ← rr_packets m batch;
      Some (m, Emit pkt gate :: l)
  end.

Definition rr_process (m : RoundRobin) (batch : list Packet) : option (RoundRobin * actions) :=
  if rr_ngates_ m <=? 0 then Some (m, [Free batch])
  else if per_packet_ m then rr_packets m batch
  else
    '(gate, m) ← rr_next m;
    Some (m, [RunChoose gate batch]).

(** [copy tocopy j] is the copy made for the gate [j], or [None] when there is no memory. *)
Definition repl_process (copy : Packet -> nat -> option Packet) (m : Replicate) (batch : list Packet) : option actions :=
  l ← mapM (fun tocopy =>
    copies ← mapM (fun j =>
      match copy tocopy j with
      | Some newpkt => gate ← gate_at (repl_gates_ m) (Z.of_nat j); Some [Emit newpkt gate]
      | None => Some []
      end) (seq 1 (repl_ngates_ m - 1));
    Some (concat copies ++ [Emit tocopy O])) batch;
  Some (concat l).

Fixpoint rs_packets (m : RandomSplit) (seed : Z) (batch : list Packet) : option (Z * actions) :=
  match batch with
  | [] => Some (seed, [])
  | pkt :: batch =>
      let '(seed, real) := GetReal seed in
      '(seed, a) ←
        if SFltb (drop_rate_ m) (dbl real (-52)) then
          let '(seed, i) := GetRange seed (Z.of_nat (rs_ngates_ m)) in
          gate ← gate_at (rs_gates_ m) i; Some (seed, Emit pkt gate)
        else Some (seed, Drop pkt);
      '(seed, l) ← rs_packets m seed batch;
      Some (seed, a :: l)
  end.

Definition rs_process (m : RandomSplit) (batch : list Packet) : option (RandomSplit * actions) :=
  if (rs_ngates_ m <=? 0)%nat then Some (m, [Free batch])
  else
    '(seed, l) ← rs_packets m (rng_ m) batch;
    Some (MkRandomSplit seed (drop_rate_ m) (rs_gates_ m) (rs_ngates_ m), l).

(** [head] is the data of a packet, [attr] the eight bytes at the place of the attribute,
    zeroes when it has none. *)
Definition split_packet (head attr : Packet -> bytes) (m : Split) (pkt : Packet) : option (action Packet) :=
  val ← if 0 <=? attr_id_ m then be_load <$> slice 0 8 (attr pkt) else be_load <$> slice (offset_ m) 8 (head pkt);
  Some (Emit pkt (Z.to_nat (u16 (split_value m val)))).
Definition split_process (head attr : Packet -> bytes) (m : Split) (batch : list Packet) : option actions :=
  mapM (split_packet head attr m) batch.

Definition ws_process (gates : list Z) (wid : nat) (batch : list Packet) : option actions :=
  gate ← gates !! wid;
  Some (if 0 <=? gate then [RunChoose (Z.to_nat (u16 gate)) batch] else [Free batch]).

Definition lb_packet (hash_64 : Z -> Z -> Z) (head junk : Packet -> bytes) (m : HashLB) (pkt : Packet) : option (action Packet) :=
  h ← lb_hash hash_64 m (head pkt) (junk pkt);
  gate ← gate_at (lb_gates_ m) (hash_range h (u16 (num_gates_ m)));
  Some (Emit pkt gate).
Definition lb_process (hash_64 : Z -> Z -> Z) (head junk : Packet -> bytes) (m : HashLB) (batch : list Packet) : option actions :=
  mapM (lb_packet hash_64 head junk m) batch.

(** Bypass: the cycles to burn, and the gate. *)
Definition bypass_cycles (per_batch per_packet per_byte : Z) (total_lens : list Z) : Z :=
  let cycles := u64 (u32 (per_batch + u32 (per_packet * Z.of_nat (length total_lens)))) in
  if per_byte =? 0 then cycles else u64 (cycles + u64 (per_byte * default 0 (last total_lens))).
Definition bypass_process (current_igate : nat) (batch : list Packet) : actions := [RunChoose current_igate batch].

Definition merge_process (batch : list Packet) : actions := [RunChoose O batch].
Definition sink_process (batch : list Packet) : actions := [Free batch].

(** ** Buffer: the state is the contents of [buf_]. *)
Definition buffer_process (buf batch : list Packet) : list Packet * actions :=
  let free_slots := (kMaxBurst - length buf)%nat in
  if (free_slots <=? length batch)%nat then (drop free_slots batch, [RunNew O (buf ++ take free_slots batch)])
  else (buf ++ batch, []).
Definition buffer_deinit (buf : list Packet) : actions := [Free buf].

(** ** Source and NoOP *)
Record Source := MkSource { pkt_size_ : Z; burst_ : Z }.
Definition SNBUF_DATA : Z := 2048.

Definition source_init (task : bool) (m : Source) (pkt_size : Z) : Source * (errno + unit) :=
  if negb task then (m, inl ENOMEM)
  else if (0 <? pkt_size) && (SNBUF_DATA <? pkt_size) then (MkSource 60 (Z.of_nat kMaxBurst), inl EINVAL)
  else (MkSource (if 0 <? pkt_size then pkt_size else 60) (Z.of_nat kMaxBurst), inr tt).
Definition source_set_burst (m : Source) (burst : Z) : Source * (errno + unit) :=
  if Z.of_nat kMaxBurst <? burst then (m, inl EINVAL) else (MkSource (pkt_size_ m) burst, inr tt).
Definition source_set_pkt_size (m : Source) (val : Z) : Source * (errno + unit) :=
  if (val =? 0) || (SNBUF_DATA <? val) then (m, inl EINVAL) else (MkSource val (burst_ m), inr tt).

(** [alloc] is [Packet::Alloc]: it gives no more packets than it is asked for.  The result is
    that of the task: whether it blocks, the packets and the bits. *)
Definition source_run (alloc : Z -> Z -> list Packet) (children_overload : Z) (m : Source) : actions * (bool * Z * Z) :=
  if 0 <? children_overload then ([], (true, 0, 0))
  else
    let pkts := alloc (burst_ m) (pkt_size_ m) in
    let cnt := Z.of_nat (length pkts) in
    ([RunChoose O pkts], (cnt =? 0, cnt, u32 ((pkt_size_ m + 24) * cnt * 8))).

Definition noop_init (task : bool) : errno + unit := if task then inr tt else inl ENOMEM.
Definition noop_run : actions * (bool * Z * Z) := ([], (false, 0, 0)).
End batches.

(** ** Packets are neither lost nor duplicated

    What a module promises to the task that runs it: its actions are of the form that
    Dataflow.v expects, and hand on or free each packet of the batch once, in order. *)
Definition handled {Packet} (a : action Packet) : list Packet :=
  match a with
  | Emit pkt _ | Drop pkt => [pkt]
  | Free pkts | RunChoose _ pkts | RunNew _ pkts => pkts
  end.
Definition all_handled {Packet} (l : list (action Packet)) : list Packet := concat (map handled l).

Lemma handled_sent {Packet} h m (l : list (action Packet)) : map snd (sent_by_all h m l) = all_handled l.
Proof.
  unfold sent_by_all, all_handled. induction l as [|a l IH]; [done|]. cbn [map concat]. rewrite map_app, IH. f_equal.
  destruct a; cbn [sent_by handled map snd]; try done; rewrite map_map; cbn [snd]; apply map_id.
Qed.

Class Forwards {Packet State : Type} (ok : State -> Prop) (process : State -> list Packet -> option (State * list (action Packet))) : Prop := {
  forwards s batch : ok s -> (length batch <= kMaxBurst)%nat ->
    exists s' l, process s batch = Some (s', l) /\ ok s' /\ ok_actions true l = true /\
      (all_allocs l <= length batch)%nat /\ all_handled l = batch }.

(** One action for each packet. *)
Definition packet_action {Packet} (pkt : Packet) (a : action Packet) : Prop :=
  match a with Emit pkt' _ | Drop pkt' => pkt' = pkt | _ => False end.

Lemma packet_actions {Packet} (batch : list Packet) l own : Forall2 packet_action batch l ->
  ok_actions own l = true /\ (all_allocs l <= length batch)%nat /\ all_handled l = batch.
Proof.
  induction 1 as [|pkt a batch l Ha _ (IH1 & IH2 & IH3)]; [done|].
  unfold all_allocs, all_handled in *. destruct a; cbn in *; try done; subst; split; [done|split; [lia|done]|done|split; [lia|done]].
Qed.

Lemma gate_at_Some gates i : 0 <= i < Z.of_nat (length gates) -> exists g, gates !! Z.to_nat i = Some g /\ gate_at gates i = Some (Z.to_nat g).
Proof.
  intros Hi. unfold gate_at. rewrite (proj2 (Z.ltb_ge _ _)) by lia.
  destruct (lookup_lt_is_Some_2 gates (Z.to_nat i)) as [g Hg]; [lia|]. exists g. by rewrite Hg.
Qed.

Lemma store_gates_length i args gates : length (store_gates i args gates).1 = length gates.
Proof.
  revert i gates. induction args as [|e args IH]; intros i gates; [done|]. cbn [store_gates].
  destruct (is_valid_gate _); [rewrite IH|cbn [fst]]; by rewrite length_insert.
Qed.

Lemma store_gates_spec i args gates : (i + length args <= length gates)%nat -> (store_gates i args gates).2 = true ->
  (store_gates i args gates).1 = take i gates ++ map u16 args ++ drop (i + length args) gates /\
  Forall (fun e => is_valid_gate (u16 e) = true) args.
Proof.
  revert i gates. induction args as [|e args IH]; intros i gates Hl; cbn [store_gates].
  { intros _. cbn. by rewrite Nat.add_0_r, take_drop. }
  cbn [length] in Hl. destruct (is_valid_gate (u16 e)) eqn:He; [|done]. intros Hok.
  destruct (IH (S i) (<[i := u16 e]> gates)) as [-> Hall]; [rewrite length_insert; lia|done|].
  split; [|by constructor]. cbn [map length]. rewrite drop_insert_lt by lia. rewrite (take_S_r _ i (u16 e)) by (apply list_lookup_insert_eq; lia).
  rewrite take_insert_ge by lia. rewrite <- app_assoc. cbn [app]. by replace (i + S (length args))%nat with (S i + length args)%nat by lia.
Qed.

(** ** RoundRobin *)
Record rr_ok (m : RoundRobin) : Prop := {
  rr_length : length (rr_gates_ m) = MAX_RR_GATES;
  rr_count : 0 <= rr_ngates_ m <= Z.of_nat MAX_RR_GATES;
  rr_current : 0 <= current_gate_ m < Z.of_nat MAX_RR_GATES }.

Lemma rr_next_ok m : rr_ok m -> 0 < rr_ngates_ m -> exists gate m', rr_next m = Some (gate, m') /\ rr_ok m' /\
  rr_gates_ m' = rr_gates_ m /\ rr_ngates_ m' = rr_ngates_ m /\ per_packet_ m' = per_packet_ m /\ current_gate_ m' < rr_ngates_ m'.
Proof.
  intros [Hl Hn Hc] Hpos. unfold rr_next. destruct (gate_at_Some (rr_gates_ m) (current_gate_ m)) as (g & _ & ->); [lia|].
  cbn [mbind option_bind]. eexists _, _. split; [done|]. cbn [rr_gates_ rr_ngates_ current_gate_ per_packet_].
  destruct (Z.leb_spec (rr_ngates_ m) (current_gate_ m + 1)); (split; [split; cbn [rr_gates_ rr_ngates_ current_gate_]; lia|]); do 3 (split; [done|]); lia.
Qed.

Lemma rr_packets_ok {Packet} m (batch : list Packet) : rr_ok m -> 0 < rr_ngates_ m ->
  exists m' l, rr_packets m batch = Some (m', l) /\ rr_ok m' /\ Forall2 packet_action batch l.
Proof.
  revert m. induction batch as [|pkt batch IH]; intros m Hm Hpos; [by exists m, []|]. cbn [rr_packets].
  destruct (rr_next_ok m Hm Hpos) as (g & m1 & -> & Hm1 & _ & Hn & _). cbn [mbind option_bind].
  destruct (IH m1 Hm1) as (m' & l & -> & Hm' & Hl); [lia|]. cbn [mbind option_bind].
  eexists _, _. split; [done|]. split; [done|]. by constructor.
Qed.

Lemma whole_batch {Packet} (batch : list Packet) (f : list Packet -> action Packet) : (length batch <= kMaxBurst)%nat ->
  f = Free \/ (exists g, f = RunChoose g) ->
  ok_actions true [f batch] = true /\ (all_allocs [f batch] <= length batch)%nat /\ all_handled [f batch] = batch.
Proof.
  intros Hl. apply Nat.leb_le in Hl. unfold all_handled. intros [->|[g ->]]; cbn; rewrite ?Hl, app_nil_r; (split; [done|split; [lia|done]]).
Qed.

#[export] Instance rr_forwards {Packet} : Forwards rr_ok (rr_process (Packet := Packet)).
Proof.
  split. intros m batch Hm Hlen. unfold rr_process. destruct (Z.leb_spec (rr_ngates_ m) 0).
  { exists m, [Free batch]. split; [done|]. split; [done|]. apply (whole_batch batch Free Hlen). by left. }
  destruct (per_packet_ m).
  - destruct (rr_packets_ok m batch Hm) as (m' & l & -> & Hm' & Hl); [done|]. exists m', l. split; [done|]. split; [done|]. by apply packet_actions.
  - destruct (rr_next_ok m Hm) as (g & m' & -> & Hm' & _); [done|]. cbn [mbind option_bind]. eexists _, _. split; [done|]. split; [done|].
    apply (whole_batch batch (RunChoose g) Hlen). right. eauto.
Qed.

Lemma rr_set_gates_ok m args : rr_ok m -> rr_ok (rr_set_gates m args).1.
Proof.
  intros [Hl Hn Hc]. unfold rr_set_gates. destruct (Nat.ltb_spec MAX_RR_GATES (length args)); [done|].
  pose proof (store_gates_length 0 args (rr_gates_ m)) as Hlen. destruct (store_gates _ _ _) as [gates []]; split; cbn [fst rr_gates_ rr_ngates_ current_gate_] in *; lia.
Qed.

Definition nth_gate (gates : list Z) (i : Z) : nat := Z.to_nat (nth (Z.to_nat i) gates 0).

Lemma gate_at_nth gates i : 0 <= i < Z.of_nat (length gates) -> gate_at gates i = Some (nth_gate gates i).
Proof.
  intros Hi. destruct (gate_at_Some gates i Hi) as (g & Hg & ->). unfold nth_gate. rewrite (nth_lookup_Some _ _ 0 g) by done. done.
Qed.

Lemma rr_next_mod m : rr_ok m -> current_gate_ m < rr_ngates_ m ->
  rr_next m = Some (nth_gate (rr_gates_ m) (current_gate_ m),
    MkRR (rr_gates_ m) (rr_ngates_ m) ((current_gate_ m + 1) mod rr_ngates_ m) (per_packet_ m)).
Proof.
  intros [Hl Hn Hc] Hlt. unfold rr_next. rewrite gate_at_nth by lia. cbn [mbind option_bind]. do 3 f_equal.
  destruct (Z.leb_spec (rr_ngates_ m) (current_gate_ m + 1)).
  - replace (current_gate_ m + 1) with (rr_ngates_ m) by lia. by rewrite Z.mod_same by lia.
  - by rewrite Z.mod_small by lia.
Qed.

Lemma rr_packets_mod {Packet} m (batch : list Packet) : rr_ok m -> current_gate_ m < rr_ngates_ m ->
  rr_packets m batch = Some (MkRR (rr_gates_ m) (rr_ngates_ m) ((current_gate_ m + Z.of_nat (length batch)) mod rr_ngates_ m) (per_packet_ m),
    imap (fun i pkt => Emit pkt (nth_gate (rr_gates_ m) ((current_gate_ m + Z.of_nat i) mod rr_ngates_ m))) batch).
Proof.
  revert m. induction batch as [|pkt batch IH]; intros m Hm Hlt; cbn [rr_packets].
  - pose proof (rr_current m Hm). cbn [length Z.of_nat imap]. rewrite Z.add_0_r, Z.mod_small by lia. by destruct m.
  - rewrite rr_next_mod by done. cbn [mbind option_bind]. pose proof (rr_current m Hm). pose proof (rr_count m Hm).
    set (m1 := MkRR _ _ _ _). pose proof (Z.mod_pos_bound (current_gate_ m + 1) (rr_ngates_ m) ltac:(lia)) as Hb.
    rewrite IH; [|split; unfold m1; cbn [rr_gates_ rr_ngates_ current_gate_]; [apply Hm|lia|lia]|unfold m1; cbn [current_gate_ rr_ngates_]; lia].
    cbn [mbind option_bind m1 rr_gates_ rr_ngates_ current_gate_ per_packet_]. rewrite imap_cons. do 2 f_equal.
    + f_equal. rewrite Zplus_mod_idemp_l. f_equal. cbn [length]. lia.
    + f_equal.
      * rewrite Z.add_0_r, Z.mod_small by lia. done.
      * apply imap_ext. intros i x _. cbn [compose]. rewrite Zplus_mod_idemp_l. do 3 f_equal. lia.
Qed.

(** In packet mode the packets of a batch go to the gates in turn, whatever
    was sent before; in batch mode so do whole batches. *)
Theorem round_robin_in_turn {Packet} m (batch : list Packet) : rr_ok m -> current_gate_ m < rr_ngates_ m ->
  let gate i := nth_gate (rr_gates_ m) ((current_gate_ m + i) mod rr_ngates_ m) in
  exists m', rr_process m batch = Some (m',
      if per_packet_ m then imap (fun i pkt => Emit pkt (gate (Z.of_nat i))) batch else [RunChoose (gate 0) batch]) /\
    rr_gates_ m' = rr_gates_ m /\ rr_ngates_ m' = rr_ngates_ m /\ per_packet_ m' = per_packet_ m /\
    current_gate_ m' = (current_gate_ m + if per_packet_ m then Z.of_nat (length batch) else 1) mod rr_ngates_ m /\
    rr_ok m' /\ current_gate_ m' < rr_ngates_ m'.
Proof.
  intros Hm Hlt gate. pose proof (rr_current m Hm). pose proof (rr_count m Hm). unfold rr_process. rewrite (proj2 (Z.leb_gt _ _)) by lia.
  assert (Hok : forall k, rr_ok (MkRR (rr_gates_ m) (rr_ngates_ m) (k mod rr_ngates_ m) (per_packet_ m)) /\ k mod rr_ngates_ m < rr_ngates_ m).
  { intros k. pose proof (Z.mod_pos_bound k (rr_ngates_ m) ltac:(lia)).
    split; [split; cbn [rr_gates_ rr_ngates_ current_gate_]; [apply Hm|lia|lia]|lia]. }
  destruct (per_packet_ m) eqn:Hp.
  - rewrite rr_packets_mod by done. rewrite Hp. eexists. split; [done|]. do 4 (split; [done|]). apply Hok.
  - rewrite rr_next_mod by done. rewrite Hp. cbn [mbind option_bind]. eexists.
    split; [unfold gate; by rewrite Z.add_0_r, (Z.mod_small (current_gate_ m)) by lia|].
    do 4 (split; [done|]). apply Hok.
Qed.

(** Whatever the commands, the module is only one turn away from that state. *)
Definition ex_rr : RoundRobin := (rr_init rr_new [3; 5; 7] "packet").1.

Lemma rr_new_ok : rr_ok rr_new.
Proof. split; [apply length_replicate|cbn; lia|cbn; lia]. Qed.

Lemma round_robin_in_turn_witness : exists m', rr_process ex_rr [10; 11; 12; 13] =
  Some (m', [Emit 10 3%nat; Emit 11 5%nat; Emit 12 7%nat; Emit 13 3%nat]).
Proof.
  destruct (round_robin_in_turn ex_rr [10; 11; 12; 13]) as (m' & H & _).
  - assert (rr_ok (rr_set_gates rr_new [3; 5; 7]).1) as [H1 H2 H3] by apply (rr_set_gates_ok _ _ rr_new_ok).
    split; [exact H1|exact H2|exact H3].
  - vm_compute. reflexivity.
  - exists m'. rewrite H. vm_compute. reflexivity.
Defined.

(** When the new list of gates is shorter, the next packet still goes to an old gate. *)
Lemma round_robin_stale_gate : exists m m' m'', rr_process ex_rr [10; 11] = Some (m', [Emit 10 3%nat; Emit 11 5%nat]) /\
  rr_set_gates m' [1] = (m, inr tt) /\ rr_process m [12; 13] = Some (m'', [Emit 12 7%nat; Emit 13 1%nat]).
Proof. do 3 eexists. vm_compute. done. Qed.

(** ** HashLB *)
Lemma round53_exact v k : 0 <= v < 2 ^ (53 + k) -> 0 <= k -> (2 ^ k | v) -> round53 v = v.
Proof.
  intros Hv Hk Hd. unfold round53. set (e := Z.log2 v - 52). destruct (Z.leb_spec e 0); [done|].
  assert (0 < v) by (destruct (Z.eq_dec v 0) as [->|]; [cbn in *; lia|lia]).
  assert (Z.log2 v < 53 + k) by (apply Z.log2_lt_pow2; lia).
  assert (Hmod : v mod 2 ^ e = 0).
  { apply Z.mod_divide; [lia|]. eapply Z.divide_trans; [|exact Hd]. exists (2 ^ (k - e)). rewrite <- Z.pow_add_r by lia. f_equal. lia. }
  rewrite Hmod. assert (0 < 2 ^ (e - 1)) by lia.
  rewrite (proj2 (Z.ltb_ge _ _)), (proj2 (Z.eqb_neq _ _)) by lia. cbn [orb andb].
  rewrite Z.shiftl_mul_pow2, Z.shiftr_div_pow2 by lia. pose proof (Z.div_mod v (2 ^ e)). lia.
Qed.

Lemma hash_range_eq hashval range : in_word 32 hashval -> 0 <= range < 2 ^ 16 -> hash_range hashval range = hashval * range / 2 ^ 32.
Proof.
  intros Hh Hr. unfold in_word in Hh. unfold hash_range. rewrite Z.shiftl_mul_pow2 by lia.
  assert (0 <= hashval * range < 2 ^ 48) by nia.
  rewrite (round53_exact _ 20); [|split; [nia|]|lia|exists (hashval * range); lia].
  2:{ replace (hashval * 2 ^ 20 * range) with (hashval * range * 2 ^ 20) by lia. change (2 ^ (53 + 20)) with (2 ^ 53 * 2 ^ 20). lia. }
  rewrite Z.shiftr_div_pow2 by lia. replace (hashval * 2 ^ 20 * range) with (hashval * range * 2 ^ 20) by lia.
  change (2 ^ 52) with (2 ^ 32 * 2 ^ 20). rewrite Z.div_mul_cancel_r by lia.
  apply wrap_small. unfold in_word. split; [apply Z.div_pos; lia|]. apply Z.div_lt_upper_bound; lia.
Qed.

(** The bytes that decide about the gate in the fixed modes; [kL4] takes the protocol and the
    three bytes behind it. *)
Definition flow_bytes (mode : Mode) (p : bytes) : bytes :=
  match mode with kL2 => take 12 p | kL3 => take 8 (drop 26 p) | kL4 => take 15 (drop 23 p) | kOther => p end.

Lemma load_from (n : nat) (off base len : nat) p : (base <= off)%nat -> (off + n <= base + len)%nat -> (base + len <= length p)%nat ->
  Frame.load n (Z.of_nat off) p = Some (le_load (take n (drop (off - base) (take len (drop base p))))).
Proof.
  intros H1 H2 H3. unfold Frame.load. rewrite slice_Some by lia. rewrite !Nat2Z.id. cbn. do 2 f_equal.
  rewrite skipn_firstn_comm, drop_drop, take_take. replace (base + (off - base))%nat with off by lia. f_equal. lia.
Qed.

Definition mode_room (mode : Mode) : nat := match mode with kL2 => 12 | kL3 => 34 | kL4 => 42 | kOther => 0 end.

(** The 64-bit load of the ports counts in its lower half only. *)
Lemma ports_load p : (42 <= length p)%nat ->
  exists v, Frame.load 8 (14 + 20) p = Some v /\ u32 v = u32 (le_load (take 4 (drop 11 (take 15 (drop 23 p))))).
Proof.
  intros Hl. unfold Frame.load. rewrite slice_Some by lia. eexists. split; [reflexivity|].
  change (Z.to_nat (Z.of_nat 8)) with (4 + 4)%nat. change (Z.to_nat (14 + 20)) with 34%nat.
  rewrite <- (take_drop 4 (take (4 + 4) (drop 34 p))), le_load_app, take_take.
  rewrite length_take, length_drop. replace (4 `min` (4 + 4) `min` (length p - 34))%nat with 4%nat by lia.
  unfold wrap. change (256 ^ Z.of_nat 4) with (2 ^ 32). rewrite Z.mul_comm, Z_mod_plus_full.
  rewrite skipn_firstn_comm, drop_drop, take_take. done.
Qed.

Lemma lb_hash_flow hash_64 m p j : mode_ m <> kOther -> (mode_room (mode_ m) <= length p)%nat ->
  exists h, lb_hash hash_64 m p j = Some h /\ (exists a b, h = hash_64 a b) /\
    forall q j', (mode_room (mode_ m) <= length q)%nat -> flow_bytes (mode_ m) q = flow_bytes (mode_ m) p -> lb_hash hash_64 m q j' = Some h.
Proof.
  intros Hm Hl. unfold lb_hash. destruct (mode_ m); [| | |done]; cbn [mode_room flow_bytes] in *.
  - rewrite (load_from 8 0 0 12) by lia. rewrite (load_from 4 8 0 12) by lia. cbn [mbind option_bind].
    eexists. split; [done|]. split; [eauto|]. intros q j' Hq Hf. rewrite (load_from 8 0 0 12) by lia. rewrite (load_from 4 8 0 12) by lia.
    rewrite !drop_0 in *. rewrite Hf. done.
  - rewrite (load_from 8 26 26 8) by lia. cbn [mbind option_bind].
    eexists. split; [done|]. split; [eauto|]. intros q j' Hq Hf. rewrite (load_from 8 26 26 8) by lia. rewrite Hf. done.
  - rewrite (load_from 8 26 23 15) by lia. destruct (ports_load p Hl) as (v & -> & Hv). rewrite (load_from 4 23 23 15) by lia. cbn [mbind option_bind].
    eexists. split; [done|]. split; [eauto|]. intros q j' Hq Hf.
    rewrite (load_from 8 26 23 15) by lia. destruct (ports_load q Hq) as (v' & -> & Hv'). rewrite (load_from 4 23 23 15) by lia.
    cbn [mbind option_bind]. rewrite Hv, Hv', Hf. done.
Qed.

(** functional.  In the modes l2, l3 and l4 a packet that is long enough goes to one of the
    configured gates, whose index is the hash scaled down to their number, and all packets
    with the same bytes in the fields of the mode go to the same one. *)
Theorem hash_lb_flow {Packet} hash_64 (head junk : Packet -> bytes) m pkt :
  (forall a b, in_word 32 (hash_64 a b)) -> mode_ m <> kOther ->
  length (lb_gates_ m) = kMaxGates -> 0 < num_gates_ m <= Z.of_nat kMaxGates ->
  (mode_room (mode_ m) <= length (head pkt))%nat ->
  exists a b, let i := hash_64 a b * num_gates_ m / 2 ^ 32 in
    0 <= i < num_gates_ m /\ lb_packet hash_64 head junk m pkt = Some (Emit pkt (nth_gate (lb_gates_ m) i)) /\
    forall pkt', (mode_room (mode_ m) <= length (head pkt'))%nat -> flow_bytes (mode_ m) (head pkt') = flow_bytes (mode_ m) (head pkt) ->
      lb_packet hash_64 head junk m pkt' = Some (Emit pkt' (nth_gate (lb_gates_ m) i)).
Proof.
  intros Hw Hm Hlen Hn Hroom. destruct (lb_hash_flow hash_64 m (head pkt) (junk pkt) Hm Hroom) as (h & Hh & (a & b & ->) & Hsame).
  exists a, b. cbv zeta. pose proof (Hw a b) as Hab. unfold in_word in Hab.
  assert (0 <= hash_64 a b * num_gates_ m / 2 ^ 32 < num_gates_ m) as Hi by (split; [apply Z.div_pos; lia|apply Z.div_lt_upper_bound; nia]).
  assert (Hr : hash_range (hash_64 a b) (u16 (num_gates_ m)) = hash_64 a b * num_gates_ m / 2 ^ 32).
  { assert (Z.of_nat kMaxGates = 16384) as HM by reflexivity. rewrite (wrap_small 16) by (unfold in_word; lia). apply hash_range_eq; [apply Hw|lia]. }
  split; [done|]. unfold lb_packet. rewrite Hh. cbn [mbind option_bind]. rewrite Hr, gate_at_nth by lia. split; [done|].
  intros pkt' Hroom' Hf. rewrite (Hsame (head pkt')) by done. cbn [mbind option_bind]. by rewrite Hr, gate_at_nth by lia.
Qed.

Definition ex_lb : HashLB := (lb_init lb_new [1; 2; 3; 4] "l4" []).1.
Definition ex_mix (a b : Z) : Z := u32 (a * 2654435761 + b * 40503).
(** A packet: the checksum of its header, the source port and a payload. *)
Definition ex_head (p : Z * Z * Z) : bytes :=
  replicate 14 0 ++ [0x45; 0; 0; 40; 0; 0; 0; 0; 64; 6; p.1.1; 0; 10; 0; 0; 1; 10; 0; 0; 2; p.1.2; 0; 0; 80] ++ replicate 20 p.2.

Lemma hash_lb_flow_witness : exists g, lb_packet ex_mix ex_head ex_head ex_lb (1, 2, 3) = Some (Emit (1, 2, 3) g) /\
  lb_packet ex_mix ex_head ex_head ex_lb (1, 2, 99) = Some (Emit (1, 2, 99) g).
Proof.
  destruct (hash_lb_flow ex_mix ex_head ex_head ex_lb (1, 2, 3)) as (a & b & _ & H & Hsame).
  - intros a b. by apply wrap_range.
  - vm_compute. discriminate.
  - vm_compute. reflexivity.
  - vm_compute. split; [reflexivity|discriminate].
  - apply Nat.leb_le. vm_compute. reflexivity.
  - eexists. split; [exact H|]. apply Hsame; [apply Nat.leb_le|]; vm_compute; reflexivity.
Defined.

(** The four bytes taken for the protocol hold the checksum of the header as well, so packets
    of one flow may go to different gates. *)
Lemma hash_lb_splits_flow : exists g g', g <> g' /\
  lb_packet ex_mix ex_head ex_head ex_lb (1, 2, 3) = Some (Emit (1, 2, 3) g) /\
  lb_packet ex_mix ex_head ex_head ex_lb (77, 2, 3) = Some (Emit (77, 2, 3) g').
Proof. eexists _, _. split; [|split; [vm_compute; reflexivity|vm_compute; reflexivity]]. discriminate. Qed.

(** ** Buffer

    A run over batches: what is left in the buffer, and the actions. *)
Fixpoint buffer_run {Packet} (buf : list Packet) (batches : list (list Packet)) : list Packet * list (action Packet) :=
  match batches with
  | [] => (buf, [])
  | batch :: batches => let r := buffer_process buf batch in let r' := buffer_run r.1 batches in (r'.1, r.2 ++ r'.2)
  end.

Definition full_batch {Packet} (a : action Packet) : Prop := match a with RunNew O pkts => length pkts = kMaxBurst | _ => False end.

(** Buffer hands on full batches only, keeps less than one, and loses, duplicates and
    reorders nothing. *)
Theorem buffer_full_batches {Packet} (buf : list Packet) batches :
  (length buf < kMaxBurst)%nat -> Forall (fun batch => length batch <= kMaxBurst)%nat batches ->
  let r := buffer_run buf batches in
  (length r.1 < kMaxBurst)%nat /\ Forall full_batch r.2 /\ ok_actions false r.2 = true /\
  all_handled r.2 ++ r.1 = buf ++ concat batches /\
  length r.2 = ((length buf + length (concat batches)) / kMaxBurst)%nat.
Proof.
  intros Hb Hall. revert buf Hb. induction Hall as [|batch batches Hbatch _ IH]; intros buf Hb; cbn [buffer_run fst snd concat].
  - split; [done|]. split; [done|]. split; [done|]. split; [cbn; by rewrite app_nil_r|]. cbn [length]. rewrite Nat.div_small; lia.
  - unfold buffer_process. destruct (Nat.leb_spec (kMaxBurst - length buf) (length batch)); cbn [fst snd].
    + destruct (IH (drop (kMaxBurst - length buf) batch)) as (H1 & H2 & H3 & H4 & H5); [rewrite length_drop; lia|].
      assert (Hfull : length (buf ++ take (kMaxBurst - length buf) batch) = kMaxBurst) by (rewrite length_app, length_take; lia).
      split; [done|]. split; [by constructor|]. split.
      { cbn [app ok_actions]. rewrite Hfull, Nat.leb_refl. exact H3. }
      split.
      { unfold all_handled in *. cbn [map concat handled app]. rewrite <- !app_assoc, H4. rewrite (app_assoc (take _ _)), take_drop. done. }
      cbn [app length]. rewrite H5, length_drop, length_app.
      replace (length buf + (length batch + length (concat batches)))%nat
        with (length batch - (kMaxBurst - length buf) + length (concat batches) + 1 * kMaxBurst)%nat by lia.
      rewrite Nat.div_add by done. lia.
    + destruct (IH (buf ++ batch)) as (H1 & H2 & H3 & H4 & H5); [rewrite length_app; lia|].
      split; [done|]. split; [done|]. split; [done|]. split; [cbn [app]; by rewrite H4, <- app_assoc|].
      cbn [app]. by rewrite H5, !length_app, Nat.add_assoc.
Qed.

Lemma buffer_full_batches_witness :
  length (buffer_run ([] : list nat) [seq 0 20; seq 20 25; seq 45 32]).2 = 2%nat /\
  all_handled (buffer_run ([] : list nat) [seq 0 20; seq 20 25; seq 45 32]).2 = seq 0 64.
Proof.
  destruct (buffer_full_batches ([] : list nat) [seq 0 20; seq 20 25; seq 45 32]) as (_ & _ & _ & _ & H).
  - apply Nat.ltb_lt. reflexivity.
  - repeat constructor; apply Nat.leb_le; reflexivity.
  - split; [exact H|reflexivity].
Defined.

(** ** Commands *)
Lemma rr_set_gates_spec m args : rr_ok m ->
  if (length args <=? MAX_RR_GATES)%nat && forallb (fun e => is_valid_gate (u16 e)) args
  then exists gates, rr_set_gates m args = (MkRR gates (Z.of_nat (length args)) (current_gate_ m) (per_packet_ m), inr tt) /\
         take (length args) gates = map u16 args
  else exists m', rr_set_gates m args = (m', inl EINVAL) /\ rr_ngates_ m' = rr_ngates_ m /\ current_gate_ m' = current_gate_ m.
Proof.
  intros [Hl Hn Hc]. unfold rr_set_gates. rewrite (Nat.ltb_antisym (length args)).
  destruct (Nat.leb_spec (length args) MAX_RR_GATES) as [Hle|]; cbn [negb andb]; [|by exists m].
  pose proof (store_gates_spec 0 args (rr_gates_ m) ltac:(lia)) as Hs.
  assert (Hb : (store_gates 0 args (rr_gates_ m)).2 = forallb (fun e => is_valid_gate (u16 e)) args).
  { clear. generalize 0%nat (rr_gates_ m). induction args as [|e args IH]; intros i g; [done|]. cbn [store_gates forallb].
    destruct (is_valid_gate (u16 e)); [apply IH|done]. }
  destruct (store_gates 0 args (rr_gates_ m)) as [gates ok]. cbn [fst snd] in *. subst ok.
  destruct (forallb _ args); [|by eexists].
  eexists. split; [done|]. destruct (Hs eq_refl) as [-> _]. rewrite take_0. cbn [app].
  rewrite take_app_le by (rewrite length_map; lia). apply take_ge. rewrite length_map. lia.
Qed.

(** ** RandomSplit *)
Record rs_ok (m : RandomSplit) : Prop := {
  rs_length : length (rs_gates_ m) = MAX_SPLIT_GATES;
  rs_count : (rs_ngates_ m <= MAX_SPLIT_GATES)%nat }.

Lemma rs_set_gates_ok m args : rs_ok m -> rs_ok (rs_set_gates m args).1.
Proof.
  intros [Hl Hn]. unfold rs_set_gates. destruct (Nat.ltb_spec MAX_SPLIT_GATES (length args)); [done|]. destruct (negb _); [done|].
  split; cbn [fst rs_gates_ rs_ngates_]; [rewrite length_app, length_map, length_drop|]; lia.
Qed.

Lemma rs_packets_ok {Packet} m seed (batch : list Packet) : rs_ok m -> (0 < rs_ngates_ m)%nat ->
  exists seed' l, rs_packets m seed batch = Some (seed', l) /\ Forall2 packet_action batch l.
Proof.
  intros Hm Hpos. revert seed. induction batch as [|pkt batch IH]; intros seed; [by exists seed, []|]. cbn [rs_packets].
  destruct (GetReal seed) as [s1 real]. destruct (SFltb _ _).
  - pose proof (GetRange_range s1 (Z.of_nat (rs_ngates_ m))) as Hr. destruct (GetRange s1 (Z.of_nat (rs_ngates_ m))) as [s2 i]. cbn [snd] in Hr.
    pose proof (rs_count m Hm). assert (Z.of_nat MAX_SPLIT_GATES = 16384) as HM by reflexivity. pose proof (rs_length m Hm).
    rewrite gate_at_nth by lia. cbn [mbind option_bind].
    destruct (IH s2) as (s' & l & -> & Hl). cbn [mbind option_bind]. eexists _, _. split; [done|]. by constructor.
  - cbn [mbind option_bind]. destruct (IH s1) as (s' & l & -> & Hl). cbn [mbind option_bind]. eexists _, _. split; [done|]. by constructor.
Qed.

#[export] Instance rs_forwards {Packet} : Forwards rs_ok (rs_process (Packet := Packet)).
Proof.
  split. intros m batch Hm Hlen. unfold rs_process. destruct (Nat.leb_spec (rs_ngates_ m) 0).
  { exists m, [Free batch]. split; [done|]. split; [done|]. apply (whole_batch batch Free Hlen). by left. }
  destruct (rs_packets_ok m (rng_ m) batch Hm) as (s' & l & -> & Hl); [done|]. cbn [mbind option_bind].
  eexists _, _. split; [done|]. split; [split; apply Hm|]. by apply packet_actions.
Qed.

(** ** Split: the gate is the number in the first [size] bytes, in network order. *)
Lemma split_value_spec m v size offset : 1 <= size <= 8 -> in_word 64 v ->
  split_value (split_init m size None offset).1 v = v / 2 ^ (64 - size * 8).
Proof.
  intros Hs Hv. unfold split_init, split_value. rewrite (proj2 (Z.ltb_ge _ _)), (proj2 (Z.ltb_ge 8 _)) by lia. cbn [orb fst shift_ mask_].
  rewrite SetBitsHigh_ones, Z.min_l, Z.land_ones, Z.shiftr_div_pow2 by lia. apply Z.mod_small. unfold in_word in Hv.
  split; [apply Z.div_pos; lia|]. apply Z.div_lt_upper_bound; [lia|]. rewrite <- Z.pow_add_r by lia.
  replace (64 - size * 8 + size * 8) with 64 by lia. lia.
Qed.

(** ** WorkerSplit *)
Definition ws_run {Packet} (wid : nat) (gates : list Z) (batch : list Packet) : option (list Z * list (action Packet)) :=
  pair gates <$> ws_process gates wid batch.

Lemma ws_forwards {Packet} wid : (wid < kMaxWorkers)%nat -> Forwards (fun gates => length gates = kMaxWorkers) (ws_run (Packet := Packet) wid).
Proof.
  intros Hw. split. intros gates batch Hg Hlen. unfold ws_run, ws_process.
  destruct (lookup_lt_is_Some_2 gates wid) as [g ->]; [lia|]. cbn. eexists _, _. split; [done|]. split; [done|].
  destruct (0 <=? g); [apply (whole_batch batch (RunChoose _) Hlen); right; eauto|apply (whole_batch batch Free Hlen); by left].
Qed.

Lemma ws_reset_length args gates e : ws_reset args = Some (gates, e) -> length gates = kMaxWorkers.
Proof.
  assert (Hst : forall args g g' e, ws_store args g = Some (g', e) -> length g' = length g).
  { induction args0 as [|[w x] l IH]; intros g g' e' H; cbn [ws_store] in H; [by injection H as <- _|].
    destruct (MAX_GATES <=? u16 x); [by injection H as <- _|]. destruct (_ <? _)%nat; [|done].
    apply IH in H. by rewrite H, length_insert. }
  unfold ws_reset. destruct args as [|a args]; intros H; [assert (gates = map Z.of_nat (seq 0 kMaxWorkers)) as -> by congruence; by rewrite length_map, length_seq|].
  apply Hst in H. by rewrite H, length_replicate.
Qed.

(** A worker number past the array is not checked. *)
Lemma ws_reset_unchecked : ws_reset [(64, 0)] = None.
Proof. reflexivity. Qed.

(** The bytes of all packets but the last are not counted. *)
Lemma bypass_counts_last a b c l x : bypass_cycles a b c (l ++ [x]) = bypass_cycles a b c (replicate (length l) 0 ++ [x]).
Proof. unfold bypass_cycles. by rewrite !last_snoc, !length_app, length_replicate. Qed.
