(* ===== verification/Classify.v ===== *)
(** Modules that decide about packets by their addresses: [core/modules/acl.cc] and
    [core/modules/ip_lookup.cc].

    A packet's data is the bytes from its head; an access outside of them is [None].  The
    longest-prefix-match table is DPDK's [rte_lpm]: its operations are a class, what its
    documentation promises about them another one. *)
From S2P Require Import Prelude Common Endian Bits Ip Frame ExactMatch Dataflow.
Open Scope Z_scope.

(** ** ACL *)
Record ACLRule := MkRule { rule_src_ip : Ipv4Prefix; rule_dst_ip : Ipv4Prefix; rule_src_port : BigEndian; rule_dst_port : BigEndian; rule_drop : bool }.

(** A rule of the message: strings, ports and the action. *)
Record pb_rule := MkPbRule { pb_src_ip : bytes; pb_dst_ip : bytes; pb_src_port : Z; pb_dst_port : Z; pb_drop : bool }.

Definition acl_match (r : ACLRule) (sip dip sport dport : BigEndian) : bool :=
  Match (rule_src_ip r) sip && Match (rule_dst_ip r) dip &&
  (be_eq (rule_src_port r) (of_cpu 2 0) || be_eq (rule_src_port r) sport) &&
  (be_eq (rule_dst_port r) (of_cpu 2 0) || be_eq (rule_dst_port r) dport).

Definition make_rule (r : pb_rule) : option ACLRule :=
  src ← make_prefix (pb_src_ip r);
  dst ← make_prefix (pb_dst_ip r);
  Some (MkRule src dst (of_cpu 2 (u16 (pb_src_port r))) (of_cpu 2 (u16 (pb_dst_port r))) (pb_drop r)).

(** [None] is an exception of [std::stoi]. *)
Fixpoint acl_init (rules_ : list ACLRule) (arg : list pb_rule) : option (list ACLRule) :=
  match arg with
  | [] => Some rules_
  | r :: arg => new_rule ← make_rule r; acl_init (rules_ ++ [new_rule]) arg
  end.
Definition acl_add := acl_init.
Definition acl_clear : list ACLRule := [].

(** The first rule that matches; the fields are read for each rule. *)
Fixpoint acl_find (rules_ : list ACLRule) (l4 : Z) (p : bytes) : option (option ACLRule) :=
  match rules_ with
  | [] => Some None
  | r :: rules_ =>
      sip ← Frame.load 4 (ip_at + ip_src_addr) p;
      dip ← Frame.load 4 (ip_at + ip_dst_addr) p;
      sport ← Frame.load 2 (l4 + udp_src_port) p;
      dport ← Frame.load 2 (l4 + udp_dst_port) p;
      if acl_match r (BE sip) (BE dip) (BE sport) (BE dport) then Some (Some r) else acl_find rules_ l4 p
  end.

Definition acl_packet {Packet} (head : Packet -> bytes) (incoming_gate : nat) (rules_ : list ACLRule) (pkt : Packet)
    : option (action Packet) :=
  l4 ← l4_at (head pkt);
  rule ← acl_find rules_ l4 (head pkt);
  Some (match rule with
        | Some r => if rule_drop r then Drop pkt else Emit pkt incoming_gate
        | None => Drop pkt
        end).
Definition acl_process {Packet} (head : Packet -> bytes) (incoming_gate : nat) (rules_ : list ACLRule) (batch : list Packet)
    : option (list (action Packet)) :=
  mapM (acl_packet head incoming_gate rules_) batch.

(** ** IPLookup *)

(** The operations of [rte_lpm]; [lpm_add] and [lpm_delete] also give their return values, and
    [lpm_lookup] the next hop when it returns 0. *)
Class Lpm (L : Type) := {
  lpm_create : Z -> Z -> option L;
  lpm_lookup : L -> Z -> option Z;
  lpm_lookupx4 : L -> list Z -> Z -> list Z;
  lpm_add : L -> Z -> Z -> Z -> L * Z;
  lpm_delete : L -> Z -> Z -> L * Z;
  lpm_delete_all : L -> L }.

Section ip_lookup.
Context {L : Type} `{Lpm L}.

Record IPLookup := MkIPLookup { lpm_ : L; default_gate_ : Z }.

Definition EINVAL_ : Z := 22.

(** [rte_errno] is 12 when there is no memory. *)
Definition ip_lookup_init (max_rules max_tbl8s : Z) : Z + IPLookup :=
  match lpm_create (if max_rules =? 0 then 1024 else max_rules) (if max_tbl8s =? 0 then 128 else max_tbl8s) with
  | None => inl 12
  | Some lpm => inr (MkIPLookup lpm DROP_GATE)
  end.

Definition ParseIpv4Prefix (prefix : bytes) (prefix_len : Z) : Z + BigEndian :=
  if (length prefix =? 0)%nat then inl EINVAL_
  else
    let '(ok, net_addr) := ParseIpv4Address prefix (of_cpu 4 0) in
    if negb ok then inl EINVAL_
    else if 32 <? prefix_len then inl EINVAL_
    else
      let net_mask := of_cpu 4 (SetBitsLow 32 prefix_len) in
      if negb (value 4 (be_and 4 net_addr (be_not 4 net_mask)) =? 0) then inl EINVAL_ else inr net_addr.

Definition lookup_add (m : IPLookup) (prefix : bytes) (prefix_len gate : Z) : IPLookup * (Z + unit) :=
  let gate := u16 gate in
  match ParseIpv4Prefix prefix prefix_len with
  | inl e => (m, inl e)
  | inr net_addr =>
      if negb (is_valid_gate gate) then (m, inl EINVAL_)
      else if prefix_len =? 0 then (MkIPLookup (lpm_ m) gate, inr tt)
      else
        let '(lpm, ret) := lpm_add (lpm_ m) (value 4 net_addr) prefix_len gate in
        (MkIPLookup lpm (default_gate_ m), if ret =? 0 then inr tt else inl (- ret))
  end.

Definition lookup_delete (m : IPLookup) (prefix : bytes) (prefix_len : Z) : IPLookup * (Z + unit) :=
  match ParseIpv4Prefix prefix prefix_len with
  | inl e => (m, inl e)
  | inr net_addr =>
      if prefix_len =? 0 then (MkIPLookup (lpm_ m) DROP_GATE, inr tt)
      else
        let '(lpm, ret) := lpm_delete (lpm_ m) (value 4 net_addr) prefix_len in
        (MkIPLookup lpm (default_gate_ m), if ret =? 0 then inr tt else inl (- ret))
  end.

Definition lookup_clear (m : IPLookup) : IPLookup * (Z + unit) := (MkIPLookup (lpm_delete_all (lpm_ m)) (default_gate_ m), inr tt).

(** Four addresses in a register of 16 bytes. *)
Definition bswap_mask : list nat := [3; 2; 1; 0; 7; 6; 5; 4; 11; 10; 9; 8; 15; 14; 13; 12]%nat.
Definition shuffle_epi8 (v : bytes) (mask : list nat) : bytes := map (fun i => nth i v 0) mask.
Definition set_epi32 (lanes : list Z) : bytes := concat (map (le_store 4) lanes).
Definition lanes (v : bytes) : list Z := map (fun i => le_load (take 4 (drop (4 * i) v))) (seq 0 4).

Definition dst_raw (p : bytes) : option Z := Frame.load 4 (ip_at + ip_dst_addr) p.

Definition emit_hop {Packet} (pkt : Packet) (hop : Z) : action Packet := Emit pkt (Z.to_nat (u16 hop)).

Fixpoint lookup_process {Packet} (head : Packet -> bytes) (m : IPLookup) (batch : list Packet) : option (list (action Packet)) :=
  match batch with
  | p0 :: p1 :: p2 :: p3 :: batch' =>
      a ← mapM (fun pkt => dst_raw (head pkt)) [p0; p1; p2; p3];
      let next_hops := lpm_lookupx4 (lpm_ m) (lanes (shuffle_epi8 (set_epi32 a) bswap_mask)) (default_gate_ m) in
      l ← lookup_process head m batch';
      Some (zip_with emit_hop [p0; p1; p2; p3] next_hops ++ l)
  | _ =>
      mapM (fun pkt =>
        raw ← dst_raw (head pkt);
        Some (match lpm_lookup (lpm_ m) (value 4 (BE raw)) with
              | Some next_hop => emit_hop pkt next_hop
              | None => emit_hop pkt (default_gate_ m)
              end)) batch
  end.
End ip_lookup.
Arguments IPLookup : clear implicits.

(** ** Longest prefix match

    Rules by network and prefix length; [best n] looks for the longest rule of at most [n]
    bits. *)
Definition network (a : Z) (n : nat) : Z := a - a mod 2 ^ (32 - Z.of_nat n).

Fixpoint best (n : nat) (rules : gmap (Z * Z) Z) (a : Z) : option Z :=
  match rules !! (network a n, Z.of_nat n) with
  | Some gate => Some gate
  | None => match n with O => None | S n => best n rules a end
  end.

Lemma longest_spec n rules a gate : best n rules a = Some gate <->
  exists k, (k <= n)%nat /\ rules !! (network a k, Z.of_nat k) = Some gate /\
    forall j, (k < j <= n)%nat -> rules !! (network a j, Z.of_nat j) = None.
Proof.
  induction n as [|n IH]; cbn [best].
  - destruct (rules !! _) as [g|] eqn:Hg; (split; [intros [= <-]|intros (k & Hk & Hr & _); assert (k = O) as -> by lia; congruence]).
    exists O. split; [lia|]. split; [done|]. lia.
  - destruct (rules !! (network a (S n), _)) as [g|] eqn:Hg.
    + split; [intros [= <-]; exists (S n); split; [lia|]; split; [done|lia]|].
      intros (k & Hk & Hr & Hno). destruct (decide (k = S n)) as [->|]; [congruence|]. rewrite Hno in Hg by lia. done.
    + rewrite IH. split; intros (k & Hk & Hr & Hno); exists k.
      * split; [lia|]. split; [done|]. intros j Hj. destruct (decide (j = S n)) as [->|]; [done|]. apply Hno. lia.
      * assert (k <> S n) by congruence. split; [lia|]. split; [done|]. intros j Hj. apply Hno. lia.
Qed.

(** What the documentation of [rte_lpm] promises. *)
Class LpmLaws (L : Type) `{Lpm L} := {
  lpm_rules : L -> gmap (Z * Z) Z;
  lpm_create_empty n k l : lpm_create n k = Some l -> lpm_rules l = ∅;
  lpm_lookup_best l a : in_word 32 a -> lpm_lookup l a = best 32 (lpm_rules l) a;
  lpm_lookupx4_each l ips d : length ips = 4%nat -> lpm_lookupx4 l ips d = map (fun a => default d (lpm_lookup l a)) ips;
  lpm_add_rule l a n gate : in_word 32 a -> 1 <= n <= 32 -> network a (Z.to_nat n) = a ->
    lpm_rules (lpm_add l a n gate).1 = if (lpm_add l a n gate).2 =? 0 then <[(a, n) := gate]> (lpm_rules l) else lpm_rules l;
  lpm_delete_rule l a n : in_word 32 a -> 1 <= n <= 32 -> network a (Z.to_nat n) = a ->
    lpm_rules (lpm_delete l a n).1 = if (lpm_delete l a n).2 =? 0 then delete (a, n) (lpm_rules l) else lpm_rules l;
  lpm_delete_all_empty l : lpm_rules (lpm_delete_all l) = ∅ }.

(** The same by a finite map, which has all these properties. *)
#[export] Instance map_lpm : Lpm (gmap (Z * Z) Z) := {
  lpm_create _ _ := Some ∅;
  lpm_lookup l a := best 32 l a;
  lpm_lookupx4 l ips d := map (fun a => default d (best 32 l a)) ips;
  lpm_add l a n gate := (<[(a, n) := gate]> l, 0);
  lpm_delete l a n := match l !! (a, n) with Some _ => (delete (a, n) l, 0) | None => (l, -22) end;
  lpm_delete_all _ := ∅ }.
#[export, refine] Instance map_lpm_laws : LpmLaws (gmap (Z * Z) Z) := { lpm_rules l := l }.
Proof.
  - by intros n k l [= <-].
  - done.
  - done.
  - done.
  - intros l a n _ _ _. cbn. by destruct (l !! (a, n)).
  - done.
Defined.

Lemma land_lnot_mask a n : in_word 32 a -> 0 <= n <= 32 ->
  Z.land a (u32 (Z.lnot (SetBitsLow 32 n))) = a mod 2 ^ (32 - n).
Proof.
  intros Ha Hn. apply Z.bits_inj'. intros i Hi. rewrite Z.land_spec. unfold wrap.
  destruct (Z.ltb_spec i 32) as [H32|H32].
  - rewrite Z.mod_pow2_bits_low by lia. rewrite Z.lnot_spec, SetBitsLow_testbit by lia.
    destruct (Z.ltb_spec i (32 - n)).
    + rewrite Z.mod_pow2_bits_low by lia. rewrite (proj2 (Z.leb_gt _ _)) by lia. cbn [andb negb]. apply andb_true_r.
    + rewrite Z.mod_pow2_bits_high by lia. rewrite (proj2 (Z.leb_le _ _)), (proj2 (Z.ltb_lt i 32)) by lia. apply andb_false_r.
  - rewrite !Z.mod_pow2_bits_high by lia. apply andb_false_r.
Qed.

(** What [ParseIpv4Prefix] accepts: an address without bits past the prefix. *)
Lemma ParseIpv4Prefix_inr prefix n net : 0 <= n -> ParseIpv4Prefix prefix n = inr net ->
  n <= 32 /\ in_word 32 (value 4 net) /\ network (value 4 net) (Z.to_nat n) = value 4 net.
Proof.
  unfold ParseIpv4Prefix. intros Hn. destruct (length prefix =? 0)%nat; [done|].
  destruct (ParseIpv4Address prefix _) as [[] a]; cbn [negb]; [|done].
  destruct (Z.ltb_spec 32 n); [done|]. destruct (Z.eqb_spec (value 4 (be_and 4 a (be_not 4 (of_cpu 4 (SetBitsLow 32 n))))) 0) as [Hz|]; [|done].
  cbn [negb]. intros [= <-]. pose proof (value_word 4 a) as Hw. change (width 4) with 32 in Hw. split; [done|]. split; [done|].
  assert (in_word 32 (SetBitsLow 32 n)) as Hs.
  { unfold SetBitsLow. destruct (n =? 0); [done|]. destruct (32 <=? n); by apply wrap_range. }
  unfold be_and, be_not in Hz. rewrite (value_of_cpu 4 (SetBitsLow 32 n)) in Hz by done. change (width 4) with 32 in Hz.
  rewrite (value_of_cpu 4 (wrap 32 _)) in Hz by (by apply wrap_range). rewrite land_lnot_mask in Hz by done.
  rewrite value_of_cpu in Hz.
  - unfold network. rewrite Z2Nat.id by lia. lia.
  - change (width 4) with 32. pose proof (Z.mod_pos_bound (value 4 a) (2 ^ (32 - n)) ltac:(lia)). unfold in_word in *.
    assert (2 ^ (32 - n) <= 2 ^ 32) by (apply Z.pow_le_mono_r; lia). lia.
Qed.

(** ** The module as a table of prefixes, the empty one included *)
Inductive lookup_command :=
  | LookupAdd (prefix : bytes) (prefix_len gate : Z)
  | LookupDelete (prefix : bytes) (prefix_len : Z)
  | LookupClear.

Definition command_ok (c : lookup_command) : Prop :=
  match c with LookupAdd _ n _ | LookupDelete _ n => in_word 64 n | LookupClear => True end.

(** What a command is to do to the table when it succeeds: adding and deleting a rule, and, as module_msg.proto
    says, removing all rules; without a rule for the empty prefix the default is to drop. *)
Definition table_command (c : lookup_command) (t : gmap (Z * Z) Z) : gmap (Z * Z) Z :=
  match c with
  | LookupAdd prefix n gate => match ParseIpv4Prefix prefix n with inr net => <[(value 4 net, n) := u16 gate]> t | inl _ => t end
  | LookupDelete prefix n =>
      match ParseIpv4Prefix prefix n with
      | inr net => if n =? 0 then <[(0, 0) := DROP_GATE]> t else delete (value 4 net, n) t
      | inl _ => t
      end
  | LookupClear => {[ (0, 0) := DROP_GATE ]}
  end.

(** Clearing leaves a rule for the empty prefix: there is none when the table is cleared. *)
Definition clear_ok (c : lookup_command) (t : gmap (Z * Z) Z) : Prop :=
  match c with LookupClear => t !! (0, 0) = Some DROP_GATE | _ => True end.

Section refines.
Context {L : Type} `{LpmLaws L}.
Implicit Types m : IPLookup L.

Definition lookup_exec m (c : lookup_command) : IPLookup L * (Z + unit) :=
  match c with
  | LookupAdd prefix n gate => lookup_add m prefix n gate
  | LookupDelete prefix n => lookup_delete m prefix n
  | LookupClear => lookup_clear m
  end.

Fixpoint lookup_run m (cs : list lookup_command) : IPLookup L * list (Z + unit) :=
  match cs with
  | [] => (m, [])
  | c :: cs => let r := lookup_exec m c in let r' := lookup_run r.1 cs in (r'.1, r.2 :: r'.2)
  end.

Definition table m : gmap (Z * Z) Z := <[(0, 0) := default_gate_ m]> (lpm_rules (lpm_ m)).

Definition lookup_inv m : Prop := forall a n gate, lpm_rules (lpm_ m) !! (a, n) = Some gate -> 1 <= n <= 32.

Lemma network_0 a : in_word 32 a -> network a 0 = 0.
Proof. intros Ha. unfold network. change (32 - Z.of_nat 0) with 32. rewrite Z.mod_small by done. lia. Qed.

Lemma best_table m n a : lookup_inv m -> in_word 32 a -> best n (table m) a = Some (default (default_gate_ m) (best n (lpm_rules (lpm_ m)) a)).
Proof.
  intros Hm Ha. unfold table. induction n as [|n IH]; cbn [best].
  - rewrite network_0 by done. change (Z.of_nat 0) with 0. rewrite lookup_insert_eq.
    destruct (lpm_rules (lpm_ m) !! (0, 0)) as [g|] eqn:Hg; [|done]. apply Hm in Hg. lia.
  - rewrite lookup_insert_ne by (intros [= _ Hn]; lia). destruct (_ !! _); [done|]. apply IH.
Qed.

Lemma insert_default m (t : gmap (Z * Z) Z) a n x : n <> 0 -> <[(0, 0) := x]> (<[(a, n) := default_gate_ m]> t) = <[(a, n) := default_gate_ m]> (<[(0, 0) := x]> t).
Proof. intros Hn. apply insert_insert_ne. congruence. Qed.

Lemma lookup_exec_refines m c : lookup_inv m -> command_ok c -> clear_ok c (table m) ->
  lookup_inv (lookup_exec m c).1 /\
  match (lookup_exec m c).2 with
  | inr _ => table (lookup_exec m c).1 = table_command c (table m)
  | inl _ => table (lookup_exec m c).1 = table m
  end.
Proof.
  intros Hm Hc Hd. destruct c as [prefix n gate|prefix n|]; cbn [lookup_exec command_ok clear_ok table_command] in *.
  - unfold lookup_add. destruct (ParseIpv4Prefix prefix n) as [e|net] eqn:Hp; [done|].
    apply ParseIpv4Prefix_inr in Hp as (H32 & Hw & Hnet); [|unfold in_word in Hc; lia].
    destruct (is_valid_gate _); cbn [negb]; [|done]. destruct (Z.eqb_spec n 0) as [->|Hn]; cbn [fst snd].
    + split; [exact Hm|]. unfold table. cbn [lpm_ default_gate_].
      change (Z.to_nat 0) with O in Hnet. rewrite network_0 in Hnet by done. rewrite <- Hnet. by rewrite insert_insert_eq.
    + unfold in_word in Hc. pose proof (lpm_add_rule (lpm_ m) (value 4 net) n (u16 gate) Hw ltac:(lia) Hnet) as Hr.
      destruct (lpm_add _ _ _ _) as [l ret]. cbn [fst snd] in *. unfold lookup_inv, table. cbn [lpm_ default_gate_]. rewrite Hr.
      destruct (ret =? 0).
      * split; [|by rewrite insert_insert_ne by congruence].
        intros a k g Hg. apply lookup_insert_Some in Hg as [[[= <- <-] _]|[_ Hg]]; [lia|by apply Hm in Hg].
      * by split.
  - unfold lookup_delete. destruct (ParseIpv4Prefix prefix n) as [e|net] eqn:Hp; [done|].
    apply ParseIpv4Prefix_inr in Hp as (H32 & Hw & Hnet); [|unfold in_word in Hc; lia].
    destruct (Z.eqb_spec n 0) as [->|Hn]; cbn [fst snd].
    + split; [exact Hm|]. unfold table. cbn [lpm_ default_gate_]. by rewrite insert_insert_eq.
    + unfold in_word in Hc. pose proof (lpm_delete_rule (lpm_ m) (value 4 net) n Hw ltac:(lia) Hnet) as Hr.
      destruct (lpm_delete _ _ _) as [l ret]. cbn [fst snd] in *. unfold lookup_inv, table. cbn [lpm_ default_gate_]. rewrite Hr.
      destruct (ret =? 0).
      * split; [|by rewrite delete_insert_ne by congruence].
        intros a k g Hg. apply lookup_delete_Some in Hg as [_ Hg]. by apply Hm in Hg.
      * by split.
  - unfold lookup_inv, table in *. cbn [lookup_clear fst snd lpm_ default_gate_]. rewrite lpm_delete_all_empty. split; [done|].
    rewrite lookup_insert_eq in Hd. injection Hd as ->. done.
Qed.

(** *** Packets *)
Lemma lanes_bswap x0 x1 x2 x3 : lanes (shuffle_epi8 (set_epi32 [x0; x1; x2; x3]) bswap_mask) = map (swap 4) [x0; x1; x2; x3].
Proof. reflexivity. Qed.

Definition dst_addr (p : bytes) : Z := value 4 (BE (le_load (take 4 (drop 30 p)))).

Definition hop m (p : bytes) : Z := default DROP_GATE (best 32 (table m) (dst_addr p)).

Lemma dst_raw_eq p : (34 <= length p)%nat -> exists raw, dst_raw p = Some raw /\ value 4 (BE raw) = dst_addr p.
Proof. intros Hl. unfold dst_raw, Frame.load. rewrite slice_Some by (change ip_at with 14; change ip_dst_addr with 16; lia). by eexists. Qed.

Lemma hop_eq m p : lookup_inv m -> hop m p = default (default_gate_ m) (lpm_lookup (lpm_ m) (dst_addr p)).
Proof.
  intros Hm. unfold hop. assert (in_word 32 (dst_addr p)) as Hw by apply (value_word 4).
  rewrite lpm_lookup_best, best_table by done. done.
Qed.

Lemma lookup_process_eq {Packet} (head : Packet -> bytes) m batch : lookup_inv m ->
  Forall (fun pkt => 34 <= length (head pkt))%nat batch ->
  lookup_process head m batch = Some (map (fun pkt => emit_hop pkt (hop m (head pkt))) batch).
Proof.
  intros Hm. assert (Hone : forall l, Forall (fun pkt => 34 <= length (head pkt))%nat l ->
    mapM (fun pkt => raw ← dst_raw (head pkt);
        Some (match lpm_lookup (lpm_ m) (value 4 (BE raw)) with
              | Some next_hop => emit_hop pkt next_hop
              | None => emit_hop pkt (default_gate_ m)
              end)) l = Some (map (fun pkt => emit_hop pkt (hop m (head pkt))) l)).
  { induction 1 as [|pkt l Hp _ IH]; [done|]. cbn [mapM map]. destruct (dst_raw_eq (head pkt) Hp) as (raw & -> & Ev).
    cbn [mbind option_bind]. rewrite Ev, IH, hop_eq by done. by destruct (lpm_lookup _ _). }
  remember (length batch) as n eqn:Hn. revert batch Hn. induction (lt_wf n) as [n _ IH]. intros batch Hn Hall.
  destruct batch as [|p0 [|p1 [|p2 [|p3 batch]]]]; try by apply Hone.
  apply Forall_cons in Hall as [P0 Hall]. apply Forall_cons in Hall as [P1 Hall].
  apply Forall_cons in Hall as [P2 Hall]. apply Forall_cons in Hall as [P3 Hall].
  cbn [lookup_process]. destruct (dst_raw_eq _ P0) as (r0 & E0 & V0). destruct (dst_raw_eq _ P1) as (r1 & E1 & V1).
  destruct (dst_raw_eq _ P2) as (r2 & E2 & V2). destruct (dst_raw_eq _ P3) as (r3 & E3 & V3).
  cbn [mapM]. rewrite E0, E1, E2, E3. cbn [mbind option_bind]. rewrite (IH (length batch)) by (done || (subst n; cbn; lia)).
  cbn [mret option_ret mbind option_bind]. rewrite lanes_bswap, lpm_lookupx4_each by done. f_equal. cbn [map zip_with app].
  unfold value in V0, V1, V2, V3. cbn [data_] in *. rewrite V0, V1, V2, V3, !hop_eq by done. done.
Qed.

(** The commands that succeed, applied to a table. *)
Fixpoint table_run (cs : list lookup_command) (results : list (Z + unit)) (t : gmap (Z * Z) Z) : gmap (Z * Z) Z :=
  match cs, results with
  | c :: cs, inr _ :: results => table_run cs results (table_command c t)
  | _ :: cs, inl _ :: results => table_run cs results t
  | _, _ => t
  end.

(** No command of a run clears the table while there is a rule for the empty prefix. *)
Fixpoint clears_ok (cs : list lookup_command) (results : list (Z + unit)) (t : gmap (Z * Z) Z) : Prop :=
  match cs, results with
  | c :: cs, inr _ :: results => clear_ok c t /\ clears_ok cs results (table_command c t)
  | _ :: cs, inl _ :: results => clears_ok cs results t
  | _, _ => True
  end.

Lemma lookup_run_refines m cs : lookup_inv m -> Forall command_ok cs -> clears_ok cs (lookup_run m cs).2 (table m) ->
  lookup_inv (lookup_run m cs).1 /\ table (lookup_run m cs).1 = table_run cs (lookup_run m cs).2 (table m).
Proof.
  intros Hm Hcs. revert m Hm. induction Hcs as [|c cs Hc _ IH]; intros m Hm Hok; [done|]. cbn [lookup_run fst snd table_run clears_ok] in *.
  assert (clear_ok c (table m)) as Hcl by (destruct c; [done..|]; by destruct Hok).
  destruct (lookup_exec_refines m c Hm Hc Hcl) as [Hm' Ht].
  destruct (lookup_exec m c) as [m' [e|u]]; cbn [fst snd] in *; rewrite <- Ht in *; apply IH; try done. by destruct Hok.
Qed.

(** C40: refinement.  After any commands, IPLookup is the table of the commands that have succeeded,
    and each packet of a batch, taken four at a time or alone, goes to the gate of the
    longest prefix that its destination has in this table, the empty prefix included.  Clearing is to remove
    all rules (module_msg.proto); the code forgets a rule for the empty prefix (ip_lookup.cc:236,
    [clear_keeps_default]), so here no command clears the table while there is one.  [rte_lpm] keeps its rules as documented
    ([LpmLaws]), prefix lengths are 64-bit words, and packets have their Ethernet and IP headers. *)
Theorem ip_lookup_longest_prefix {Packet} (head : Packet -> bytes) max_rules max_tbl8s m0 cs batch :
  ip_lookup_init max_rules max_tbl8s = inr m0 -> Forall command_ok cs ->
  Forall (fun pkt => 34 <= length (head pkt))%nat batch ->
  let r := lookup_run m0 cs in
  let t := table_run cs r.2 {[ (0, 0) := DROP_GATE ]} in
  clears_ok cs r.2 {[ (0, 0) := DROP_GATE ]} ->
  lookup_process head r.1 batch =
    Some (map (fun pkt => emit_hop pkt (default DROP_GATE (best 32 t (dst_addr (head pkt))))) batch).
Proof.
  intros Hi Hcs Hroom r t Hcl. unfold ip_lookup_init in Hi. destruct (lpm_create _ _) as [l|] eqn:Hl; [|done].
  injection Hi as <-. apply lpm_create_empty in Hl.
  assert (lookup_inv (MkIPLookup l DROP_GATE)) as Hm by (unfold lookup_inv; cbn [lpm_]; by rewrite Hl).
  assert (table (MkIPLookup l DROP_GATE) = {[ (0, 0) := DROP_GATE ]}) as Htab by (unfold table; cbn [lpm_ default_gate_]; by rewrite Hl).
  destruct (lookup_run_refines _ cs Hm Hcs) as [Hm' Ht]; [by rewrite Htab|]. unfold r. rewrite lookup_process_eq by done.
  f_equal. apply map_ext. intros pkt. unfold hop. by rewrite Ht, Htab.
Qed.
End refines.

(** After a rule that is cleared: 10.0.0.0/8 to gate 1, 10.1.0.0/16 to gate 2, the rest to gate 7. *)
Definition ex_commands : list lookup_command :=
  [LookupAdd [49; 48; 46; 50; 46; 48; 46; 48] 16 5; LookupClear; LookupAdd [49; 48; 46; 48; 46; 48; 46; 48] 8 1; LookupAdd [49; 48; 46; 49; 46; 48; 46; 48] 16 2;
   LookupAdd [48; 46; 48; 46; 48; 46; 48] 0 7; LookupAdd [49; 48; 46; 49; 46; 48; 46; 49] 16 3].
Definition ex_dst (a : bytes) : bytes := replicate 30 0 ++ a.

Lemma ip_lookup_longest_prefix_witness :
  lookup_process ex_dst (lookup_run (L := gmap (Z * Z) Z) (MkIPLookup ∅ DROP_GATE) ex_commands).1
    [[10; 0; 0; 1]; [10; 1; 9; 9]; [10; 2; 0; 1]; [11; 0; 0; 1]; [10; 1; 0; 1]] =
  Some [Emit [10; 0; 0; 1] 1%nat; Emit [10; 1; 9; 9] 2%nat; Emit [10; 2; 0; 1] 1%nat; Emit [11; 0; 0; 1] 7%nat; Emit [10; 1; 0; 1] 2%nat].
Proof.
  rewrite (ip_lookup_longest_prefix (L := gmap (Z * Z) Z) ex_dst 0 0 (MkIPLookup ∅ DROP_GATE) ex_commands).
  - vm_compute. reflexivity.
  - reflexivity.
  - repeat constructor; vm_compute; congruence.
  - repeat constructor; apply Nat.leb_le; reflexivity.
  - vm_compute. repeat constructor.
Defined.

(** Clearing the rules leaves the rule for the empty prefix: packets still go to gate 7. *)
Example clear_keeps_default :
  lookup_process ex_dst (lookup_run (L := gmap (Z * Z) Z) (MkIPLookup ∅ DROP_GATE)
    [LookupAdd [48; 46; 48; 46; 48; 46; 48] 0 7; LookupClear]).1 [[10; 0; 0; 1]] = Some [Emit [10; 0; 0; 1] 7%nat].
Proof. by vm_compute. Qed.

(** ** ACL: the first rule that matches decides *)
Definition acl_verdict (rules : list ACLRule) (sip dip sport dport : BigEndian) : option bool :=
  rule_drop <$> find (fun r => acl_match r sip dip sport dport) rules.

Lemma acl_packet_verdict {Packet} (head : Packet -> bytes) gate rules pkt l4 : l4_at (head pkt) = Some (Z.of_nat l4) ->
  (34 <= length (head pkt))%nat -> (l4 + 4 <= length (head pkt))%nat ->
  acl_packet head gate rules pkt =
    Some (match acl_verdict rules (BE (le_load (take 4 (drop 26 (head pkt))))) (BE (le_load (take 4 (drop 30 (head pkt)))))
                  (BE (word16 l4 (head pkt))) (BE (word16 (l4 + 2) (head pkt))) with
          | Some false => Emit pkt gate
          | _ => Drop pkt
          end).
Proof.
  intros Hl4 Hlen Hroom. unfold acl_packet. rewrite Hl4. cbn [mbind option_bind]. unfold acl_verdict.
  set (sip := BE _). set (dip := BE _). set (sport := BE _). set (dport := BE _).
  assert (acl_find rules (Z.of_nat l4) (head pkt) = Some (find (fun r => acl_match r sip dip sport dport) rules)) as ->.
  { induction rules as [|r rules IH]; [done|]. cbn [acl_find find].
    unfold Frame.load. rewrite (slice_Some (ip_at + ip_src_addr)) by (change ip_at with 14; change ip_src_addr with 12; lia).
    rewrite (slice_Some (ip_at + ip_dst_addr)) by (change ip_at with 14; change ip_dst_addr with 16; lia).
    rewrite (slice_Some (Z.of_nat l4 + udp_src_port)) by (change udp_src_port with 0; lia).
    rewrite (slice_Some (Z.of_nat l4 + udp_dst_port)) by (change udp_dst_port with 2; lia).
    cbn [mbind option_bind fmap option_fmap option_map].
    assert (BE (le_load (take (Z.to_nat (Z.of_nat 2)) (drop (Z.to_nat (Z.of_nat l4 + udp_src_port)) (head pkt)))) = sport) as ->
      by (unfold sport, word16; change udp_src_port with 0; rewrite Z.add_0_r, !Nat2Z.id; done).
    assert (BE (le_load (take (Z.to_nat (Z.of_nat 2)) (drop (Z.to_nat (Z.of_nat l4 + udp_dst_port)) (head pkt)))) = dport) as ->
      by (unfold dport, word16; change udp_dst_port with 2; rewrite Z2Nat.inj_add, !Nat2Z.id by lia; done).
    change (BE _) with sip at 1. destruct (acl_match r _ _ _ _) eqn:Hr.
    - fold sip dip in Hr. by replace (acl_match r sip dip sport dport) with true.
    - fold sip dip in Hr. replace (acl_match r sip dip sport dport) with false. exact IH. }
  cbn [mbind option_bind]. destruct (find _ rules) as [r|]; [|done]. cbn. by destruct (rule_drop r).
Qed.

(** Rules that are added later only decide about packets that no earlier rule matches. *)
Lemma acl_add_later rules new sip dip sport dport :
  acl_verdict (rules ++ new) sip dip sport dport =
    match acl_verdict rules sip dip sport dport with Some d => Some d | None => acl_verdict new sip dip sport dport end.
Proof.
  unfold acl_verdict. induction rules as [|r rules IH]; cbn [app find]; [done|].
  destruct (acl_match r sip dip sport dport); [done|apply IH].
Qed.

(** [CommandAdd] appends the rules of its argument. *)
Lemma acl_init_app rules arg : acl_init rules arg = (fun new => rules ++ new) <$> mapM make_rule arg.
Proof.
  revert rules. induction arg as [|r arg IH]; intros rules; cbn [acl_init mapM]; [cbn; by rewrite app_nil_r|].
  destruct (make_rule r) as [new|]; cbn [mbind option_bind fmap option_fmap option_map]; [|done].
  rewrite IH. destruct (mapM make_rule arg); [|done]. cbn. by rewrite <- app_assoc.
Qed.
