(* ===== verification/Editing.v ===== *)
(** Modules that write configured data into packets or their metadata:
    [core/modules/update.cc], [random_update.cc], [rewrite.cc], [generic_encap.cc] and
    [set_metadata.cc].

    Packets are those of PacketBuf.v; an access outside of the buffer, of the metadata or of
    an array is [None]. *)
From S2P Require Import Prelude Common Endian Bits Random PacketBuf Encap.

(** ** Update *)
Record update_field := MkUpdate { update_mask : Z; update_value : Z; update_offset : Z }.
Record pb_update := MkPbUpdate { pb_offset : Z; pb_size : Z; pb_value : Z }.
Definition kMaxFields : nat := 16.

(** The masks and values are those of [be64_t::value()]; the fields are [fields_] up to
    [num_fields_]. *)
Fixpoint update_add_fields (args : list pb_update) (fields : list update_field) : errno + list update_field :=
  match args with
  | [] => inr fields
  | f :: args =>
      let size := pb_size f in
      if (size <? 1) || (8 <? size) then inl EINVAL
      else if SNBUF_DATA <? u64 (pb_offset f + size) then inl EINVAL
      else
        let value := u64 (Z.shiftl (pb_value f) ((8 - size) * 8)) in
        let mask := u64 (Z.shiftl 1 ((8 - size) * 8) - 1) in
        if negb (Z.land value mask =? 0) then inl EINVAL
        else update_add_fields args (fields ++ [MkUpdate mask value (u64 (pb_offset f))])
  end.

(** [num_fields_] only changes at the end. *)
Definition update_add (fields : list update_field) (args : list pb_update) : list update_field * (errno + unit) :=
  if (kMaxFields <? length fields + length args)%nat then (fields, inl EINVAL)
  else match update_add_fields args fields with inl e => (fields, inl e) | inr fields => (fields, inr tt) end.
Definition update_init := update_add.
Definition update_clear : list update_field := [].

(** [int16_t] of the offset. *)
Definition to_int16 (x : Z) : Z := let v := u16 x in if v <? 2 ^ 15 then v else v - 2 ^ 16.

Definition update_packet (f : update_field) (pkt : Packet) : option Packet :=
  let offset := to_int16 (update_offset f) in
  old ← be_load <$> head_read offset 8 pkt;
  head_write offset (be_store 8 (Z.lor (Z.land old (update_mask f)) (update_value f))) pkt.

(** Field by field, over the whole batch. *)
Fixpoint update_process (fields : list update_field) (batch : list Packet) : option (list Packet) :=
  match fields with
  | [] => Some batch
  | f :: fields => batch ← mapM (update_packet f) batch; update_process fields batch
  end.

(** ** RandomUpdate *)
Record random_var := MkVar { var_mask : Z; var_min : Z; var_range : Z; var_offset : Z; var_bit_shift : Z }.
Record pb_var := MkPbVar { pbv_offset : Z; pbv_size : Z; pbv_min : Z; pbv_max : Z }.
Definition kMaxVariable : nat := 16.

Definition make_var (f : pb_var) : errno + random_var :=
  let offset := u64 (pbv_offset f) in
  let size := pbv_size f in
  let min := u32 (pbv_min f) in
  let max := u32 (pbv_max f) in
  match (if size =? 1 then Some (0x00ffffff, Z.min min 0xff, Z.min max 0xff)
         else if size =? 2 then Some (0x0000ffff, Z.min min 0xffff, Z.min max 0xffff)
         else if size =? 4 then Some (0, Z.min min 0xffffffff, Z.min max 0xffffffff)
         else None) with
  | None => inl EINVAL
  | Some (mask, min, max) =>
      if SNBUF_DATA <? u64 (offset + size) then inl EINVAL
      else if max <? min then inl EINVAL
      else
        let range := u32 (max - min + 1) in
        inr (MkVar mask min (if range =? 0 then 0xffffffff else range) offset ((4 - size) * 8))
  end.

Fixpoint random_add_vars (args : list pb_var) (vars : list random_var) : errno + list random_var :=
  match args with
  | [] => inr vars
  | f :: args => match make_var f with inl e => inl e | inr v => random_add_vars args (vars ++ [v]) end
  end.
Definition random_add (vars : list random_var) (args : list pb_var) : list random_var * (errno + unit) :=
  if (kMaxVariable <? length vars + length args)%nat then (vars, inl EINVAL)
  else match random_add_vars args vars with inl e => (vars, inl e) | inr vars => (vars, inr tt) end.
Definition random_init := random_add.
Definition random_clear : list random_var := [].

(** The offset is a [size_t] here; added to a pointer, it wraps around. *)
Definition to_int64 (x : Z) : Z := let v := u64 x in if v <? 2 ^ 63 then v else v - 2 ^ 64.

Fixpoint random_packets (v : random_var) (seed : Z) (batch : list Packet) : option (Z * list Packet) :=
  match batch with
  | [] => Some (seed, [])
  | pkt :: batch =>
      let offset := to_int64 (var_offset v) in
      let '(seed, r) := GetRange seed (var_range v) in
      let rand_val := u32 (var_min v + r) in
      old ← be_load <$> head_read offset 4 pkt;
      pkt ← head_write offset (be_store 4 (Z.lor (Z.land old (var_mask v)) (u32 (Z.shiftl rand_val (var_bit_shift v))))) pkt;
      '(seed, batch) ← random_packets v seed batch;
      Some (seed, pkt :: batch)
  end.
Fixpoint random_process (vars : list random_var) (seed : Z) (batch : list Packet) : option (Z * list Packet) :=
  match vars with
  | [] => Some (seed, batch)
  | v :: vars => '(seed, batch) ← random_packets v seed batch; random_process vars seed batch
  end.

(** ** Rewrite

    [jump_] is not initialised by the constructor: [junk] is what it holds. *)
Definition kNumSlots : nat := 63.
Definition kMaxTemplateSize : nat := 1536.
Record Rewrite := MkRewrite {
  next_turn_ : nat; jump_ : list nat; num_templates_ : nat; template_size_ : list Z; templates_ : list bytes }.
Definition rewrite_new (junk : list nat) : Rewrite :=
  MkRewrite 0 junk 0 (replicate kNumSlots 0) (replicate kNumSlots (replicate kMaxTemplateSize 0)).

Fixpoint store_templates (i : nat) (args : list bytes) (m : Rewrite) : Rewrite * (errno + unit) :=
  match args with
  | [] => (m, inr tt)
  | templ :: args =>
      if (kMaxTemplateSize <? length templ)%nat then (m, inl EINVAL)
      else
        store_templates (S i) args
          (MkRewrite (next_turn_ m) (jump_ m) (num_templates_ m) (<[i := Z.of_nat (length templ)]> (template_size_ m))
             (<[i := write 0 templ (replicate kMaxTemplateSize 0)]> (templates_ m)))
  end.

(** The loop over the slots from [i] on that the templates do not fill. *)
Fixpoint fill_slots (n i : nat) (m : Rewrite) : option Rewrite :=
  match n with
  | O => Some m
  | S n =>
      let j := (i mod num_templates_ m)%nat in
      size ← template_size_ m !! j;
      src ← templates_ m !! j;
      dst ← templates_ m !! i;
      fill_slots n (S i)
        (MkRewrite (next_turn_ m) (<[i := j]> (jump_ m)) (num_templates_ m) (<[i := size]> (template_size_ m))
           (<[i := write 0 (take (Z.to_nat size) src) dst]> (templates_ m)))
  end.

Definition rewrite_add (m : Rewrite) (args : list bytes) : option (Rewrite * (errno + unit)) :=
  let curr := num_templates_ m in
  if (32 <? curr + length args)%nat then Some (m, inl EINVAL)
  else match store_templates curr args m with
  | (m, inl e) => Some (m, inl e)
  | (m, inr _) =>
      let n := (curr + length args)%nat in
      let m := MkRewrite (next_turn_ m) (jump_ m) n (template_size_ m) (templates_ m) in
      if (n =? 0)%nat then Some (m, inr tt)
      else m ← fill_slots (kNumSlots - n) n m; Some (m, inr tt)
  end.
Definition rewrite_clear (m : Rewrite) : Rewrite := MkRewrite 0 (jump_ m) 0 (template_size_ m) (templates_ m).

(** [CopyInlined] with [sloppy] copies more than [size] bytes: [overrun size] more. *)
Definition rewrite_packet (overrun : nat -> nat) (m : Rewrite) (slot : nat) (pkt : Packet) : option Packet :=
  size ← template_size_ m !! slot;
  templ ← templates_ m !! slot;
  let pkt := MkPacket (buffer_ pkt) SNBUF_HEADROOM size size (metadata_ pkt) in
  head_write 0 (take (Z.to_nat size + overrun (Z.to_nat size)) templ) pkt.

Fixpoint rewrite_packets (overrun : nat -> nat) (m : Rewrite) (slots : list nat) (batch : list Packet) : option (list Packet) :=
  match slots, batch with
  | slot :: slots, pkt :: batch =>
      pkt ← rewrite_packet overrun m slot pkt;
      batch ← rewrite_packets overrun m slots batch;
      Some (pkt :: batch)
  | _, _ => Some []
  end.

Definition rewrite_process (overrun : nat -> nat) (m : Rewrite) (batch : list Packet) : option (Rewrite * list Packet) :=
  let cnt := length batch in
  if (num_templates_ m =? 1)%nat then
    batch ← rewrite_packets overrun m (replicate cnt 0%nat) batch; Some (m, batch)
  else if (1 <? num_templates_ m)%nat then
    batch ← rewrite_packets overrun m (seq (next_turn_ m) cnt) batch;
    next ← jump_ m !! (next_turn_ m + cnt)%nat;
    Some (MkRewrite next (jump_ m) (num_templates_ m) (template_size_ m) (templates_ m), batch)
  else Some (m, batch).

(** ** GenericEncap

    The array of fields; the data of a field without a value or an attribute is what the
    array held before. *)
Definition MAX_FIELDS : nat := 8.
Definition MAX_FIELD_SIZE : Z := 8.
Definition MAX_HEADER_SIZE : nat := 64.

Record encap_field := MkEncapField { encap_value : bytes; encap_attr_id : Z; encap_pos : Z; encap_field_size : Z }.
Definition zero_encap_field : encap_field := MkEncapField (replicate 8 0) 0 0 0.

Inductive encap_data := encap_int (v : Z) | encap_bin (b : bytes) | encap_none.
(** The attribute comes with what [AddMetadataAttr] returns for it. *)
Inductive encap_insertion := encap_attribute (ret : Z) | encap_constant (d : encap_data) | encap_missing.
Record pb_encap_field := MkPbEncap { pbe_size : Z; pbe_insertion : encap_insertion }.

Definition to_int32 (x : Z) : Z := let v := u32 x in if v <? 2 ^ 31 then v else v - 2 ^ 32.

(** Error numbers are positive; [EINVAL] is 22. *)
Definition AddFieldOne (field : pb_encap_field) (f : encap_field) : encap_field * (Z + unit) :=
  let size := to_int32 (pbe_size field) in
  let f := MkEncapField (encap_value f) (encap_attr_id f) (encap_pos f) size in
  if (size <? 1) || (MAX_FIELD_SIZE <? size) then (f, inl 22)
  else match pbe_insertion field with
  | encap_attribute ret =>
      (MkEncapField (encap_value f) ret (encap_pos f) size, if ret <? 0 then inl (- ret) else inr tt)
  | encap_constant d =>
      match d with
      | encap_int v =>
          let '(value, ok) := uint64_to_bin (encap_value f) v (Z.to_nat size) true in
          (MkEncapField value (-1) (encap_pos f) size, if ok then inr tt else inl 22)
      | encap_bin b =>
          if Z.of_nat (length b) =? size
          then (MkEncapField (write 0 b (encap_value f)) (-1) (encap_pos f) size, inr tt)
          else (MkEncapField (encap_value f) (-1) (encap_pos f) size, inl 22)
      | encap_none => (MkEncapField (encap_value f) (-1) (encap_pos f) size, inr tt)
      end
  | encap_missing => (f, inl 22)
  end.

(** The loop of [Init] from field [i] on; a field past the array is undefined. *)
Fixpoint encap_add_fields (i : nat) (args : list pb_encap_field) (size_acc : Z) (fields : list encap_field)
    : option (list encap_field * Z * (Z + unit)) :=
  match args with
  | [] => Some (fields, size_acc, inr tt)
  | field :: args =>
      f ← fields !! i;
      let f := MkEncapField (encap_value f) (encap_attr_id f) size_acc (encap_field_size f) in
      match AddFieldOne field f with
      | (f, inl e) => Some (<[i := f]> fields, size_acc, inl e)
      | (f, inr _) => encap_add_fields (S i) args (size_acc + encap_field_size f) (<[i := f]> fields)
      end
  end.

Record GenericEncap := MkEncap { encap_size_ : Z; num_fields_ : nat; encap_fields_ : list encap_field }.
Definition generic_encap_new : GenericEncap := MkEncap 0 0 (replicate MAX_FIELDS zero_encap_field).

Definition generic_encap_init (m : GenericEncap) (args : list pb_encap_field) : option (GenericEncap * (Z + unit)) :=
  '(fields, size_acc, r) ← encap_add_fields 0 args 0 (encap_fields_ m);
  Some (match r with
        | inl e => (MkEncap (encap_size_ m) (num_fields_ m) fields, inl e)
        | inr _ => (MkEncap size_acc (length args) fields, inr tt)
        end).

(** The header of one packet: [attr] is [attr_offset] of the module. *)
Fixpoint encap_header (attr : Z -> Z) (pkt : Packet) (fields : list encap_field) (header : bytes) : option bytes :=
  match fields with
  | [] => Some header
  | f :: fields =>
      v ← if encap_attr_id f <? 0 then Some (encap_value f) else get_attr_with_offset (attr (encap_attr_id f)) 8 pkt;
      header ← write_at (encap_pos f) v header;
      encap_header attr pkt fields header
  end.

(** [junk] is what the array of headers holds on the stack. *)
Definition generic_encap (attr : Z -> Z) (m : GenericEncap) (junk : bytes) (pkt : Packet) : option Packet :=
  header ← encap_header attr pkt (take (num_fields_ m) (encap_fields_ m)) junk;
  match prepend (encap_size_ m) pkt with
  | None => Some pkt
  | Some pkt => head_write 0 (take (Z.to_nat (encap_size_ m)) header) pkt
  end.

(** ** SetMetadata *)
Definition kMetadataAttrMaxSize : Z := 32.
Record set_attr := MkSetAttr { sa_value : bytes; sa_mask : bytes; sa_offset : Z; sa_size : Z; sa_do_mask : bool; sa_shift : Z }.
Inductive attr_value := attr_int (v : Z) | attr_bin (b : bytes) | attr_unset.
Record pb_attr := MkPbAttr {
  pba_named : bool; pba_size : Z; pba_value : attr_value; pba_offset : Z; pba_mask : bytes; pba_rshift_bits : Z;
  pba_ret : Z   (* what AddMetadataAttr returns *) }.

(** [value] and [mask] are variables that are not initialised. *)
Definition AddAttrOne (junk : bytes) (attr : pb_attr) : Z + set_attr :=
  let rshift_bytes := Z.quot (pba_rshift_bits attr) 8 in
  let size := pba_size attr in
  let do_mask := (0 <? length (pba_mask attr))%nat in
  let finish (value mask : bytes) (offset : Z) : Z + set_attr :=
    if pba_ret attr <? 0 then inl (- pba_ret attr) else inr (MkSetAttr value mask offset size do_mask rshift_bytes) in
  if negb (pba_named attr) then inl 22
  else if (size <? 1) || (kMetadataAttrMaxSize <? size) then inl 22
  else if do_mask && (pba_offset attr <? 0) then inl 22
  else if negb (pba_rshift_bits attr =? 0) && (pba_offset attr <? 0) then inl 22
  else match pba_value attr with
  | attr_int v =>
      let '(value, ok) := uint64_to_bin junk v (Z.to_nat size) true in
      if ok then finish value junk (-1) else inl 22
  | attr_bin b => if Z.of_nat (length b) =? size then finish (write 0 b junk) junk (-1) else inl 22
  | attr_unset =>
      let offset := pba_offset attr in
      if (offset <? 0) || (SNBUF_DATA <=? offset + size) then inl 22
      else if negb (rshift_bytes * 8 =? pba_rshift_bits attr) then inl 22
      else if size <=? Z.abs rshift_bytes then inl 22
      else if do_mask then
        if Z.of_nat (length (pba_mask attr)) =? size then finish junk (write 0 (pba_mask attr) junk) offset else inl 22
      else finish junk junk offset
  end.

Fixpoint set_metadata_init (junk : bytes) (attrs_ : list set_attr) (args : list pb_attr) : list set_attr * (Z + unit) :=
  match args with
  | [] => (attrs_, inr tt)
  | attr :: args =>
      match AddAttrOne junk attr with
      | inl e => (attrs_, inl e)
      | inr a => set_metadata_init junk (attrs_ ++ [a]) args
      end
  end.
Definition SetMetadata_Init (junk : bytes) (args : list pb_attr) : list set_attr * (Z + unit) :=
  if (length args =? 0)%nat then ([], inl 22) else set_metadata_init junk [] args.

(** The bytes of the attribute: a copy of packet data, shifted and masked in place. *)
Definition attr_from_packet (a : set_attr) (pkt : Packet) : option bytes :=
  v ← head_read (sa_offset a) (sa_size a) pkt;
  v ← if sa_shift a =? 0 then Some v
      else if 0 <? sa_shift a then ShiftBytesRight v (Z.to_nat (sa_shift a)) else ShiftBytesLeft v (Z.to_nat (- sa_shift a));
  Some (if sa_do_mask a then MaskBytes v (take (Z.to_nat (sa_size a)) (sa_mask a)) else v).

Definition set_one_attr (mt_offset : Z) (a : set_attr) (pkt : Packet) : option Packet :=
  if mt_offset <? 0 then Some pkt
  else
    v ← if 0 <=? sa_offset a then attr_from_packet a pkt else Some (take (Z.to_nat (sa_size a)) (sa_value a));
    set_attr_with_offset mt_offset v pkt.

(** Attribute by attribute, from the [i]-th on, over the whole batch. *)
Fixpoint set_metadata_process (attr : Z -> Z) (i : Z) (attrs_ : list set_attr) (batch : list Packet) : option (list Packet) :=
  match attrs_ with
  | [] => Some batch
  | a :: attrs_ => batch ← mapM (set_one_attr (attr i) a) batch; set_metadata_process attr (i + 1) attrs_ batch
  end.

(** ** Numbers in network order *)
Lemma be_load_app a b : be_load (a ++ b) = be_load a * 256 ^ Z.of_nat (length b) + be_load b.
Proof. unfold be_load. rewrite rev_app_distr, le_load_app, length_rev. lia. Qed.

Lemma be_load_bound l : bytes_ok l -> 0 <= be_load l < 256 ^ Z.of_nat (length l).
Proof. intros Hl. unfold be_load. rewrite <- length_rev. apply le_load_bound. by apply Forall_rev. Qed.

Lemma length_be_store n v : length (be_store n v) = n.
Proof. unfold be_store. by rewrite length_rev, length_le_store. Qed.

Lemma be_store_ok n v : bytes_ok (be_store n v).
Proof. apply Forall_rev. apply le_store_ok. Qed.
#[local] Hint Resolve be_store_ok : bess.

Lemma be_store_load l : bytes_ok l -> be_store (length l) (be_load l) = l.
Proof.
  intros Hl. unfold be_store, be_load. rewrite <- length_rev. rewrite le_store_load by (by apply Forall_rev). apply rev_involutive.
Qed.

Lemma be_load_store n v : be_load (be_store n v) = v mod 256 ^ Z.of_nat n.
Proof. unfold be_load, be_store. rewrite rev_involutive. apply le_load_store. Qed.

Lemma be_store_inj n l v : bytes_ok l -> length l = n -> be_load l = v -> be_store n v = l.
Proof. intros Hl <- <-. by apply be_store_load. Qed.

(** ** Update

    The read-modify-write of eight bytes is a write of [size] bytes. *)
Lemma update_word size value old : (1 <= size <= 8)%nat -> bytes_ok old -> length old = 8%nat ->
  be_store 8 (Z.lor (Z.land (be_load old) (u64 (Z.shiftl 1 ((8 - Z.of_nat size) * 8) - 1))) (u64 (Z.shiftl value ((8 - Z.of_nat size) * 8)))) =
  be_store size value ++ drop size old.
Proof.
  intros Hs Hold Hlen. set (k := (8 - Z.of_nat size) * 8). assert (0 <= k <= 56) as Hk by lia.
  assert (256 ^ Z.of_nat (8 - size) = 2 ^ k) as Hp by (rewrite pow256; f_equal; lia).
  assert (2 ^ k <= 2 ^ 56) as Hle by (apply Z.pow_le_mono_r; lia).
  assert (u64 (Z.shiftl 1 k - 1) = Z.ones k) as ->.
  { rewrite Z.shiftl_mul_pow2, Z.mul_1_l, Z.ones_equiv by lia. apply wrap_small. unfold in_word. lia. }
  rewrite Z.land_ones by lia.
  assert (be_load old mod 2 ^ k = be_load (drop size old)) as ->.
  { rewrite <- (take_drop size old) at 1. rewrite be_load_app, length_drop, Hlen, Hp, Z.add_comm, Z.mod_add by lia.
    apply Z.mod_small. pose proof (be_load_bound (drop size old) ltac:(auto with bess)) as Hb. rewrite length_drop, Hlen, Hp in Hb. exact Hb. }
  pose proof (be_load_bound (drop size old) ltac:(auto with bess)) as Hb. rewrite length_drop, Hlen, Hp in Hb.
  assert (u64 (Z.shiftl value k) = Z.shiftl (value mod 256 ^ Z.of_nat size) k) as ->.
  { rewrite !Z.shiftl_mul_pow2 by lia. unfold wrap. rewrite pow256. replace (2 ^ 64) with (2 ^ (Z.of_nat size * 8) * 2 ^ k) by (rewrite <- Z.pow_add_r by lia; f_equal; lia).
    apply Z.mul_mod_distr_r; lia. }
  rewrite Z.lor_comm, lor_shiftl_add by (unfold in_word; lia).
  apply be_store_inj; [apply bytes_ok_app; auto with bess|rewrite length_app, length_be_store, length_drop; lia|].
  rewrite be_load_app, be_load_store, length_drop, Hlen, Hp. lia.
Qed.

Definition field_range (f : pb_update) : Prop := 0 <= pb_offset f < SNBUF_DATA /\ 1 <= pb_size f <= 8 /\ 0 <= pb_value f < 2 ^ 64.

Lemma update_add_fields_spec args fields : Forall field_range args ->
  match update_add_fields args fields with
  | inl _ => exists f, f ∈ args /\ SNBUF_DATA < pb_offset f + pb_size f
  | inr fields' => fields' = fields ++ map (fun f => MkUpdate (u64 (Z.shiftl 1 ((8 - pb_size f) * 8) - 1))
                                                    (u64 (Z.shiftl (pb_value f) ((8 - pb_size f) * 8))) (pb_offset f)) args
  end.
Proof.
  intros Hall. revert fields. induction Hall as [|f args (Ho & Hs & Hv) _ IH]; intros fields; cbn [update_add_fields map].
  { by rewrite app_nil_r. }
  unfold SNBUF_DATA in *. rewrite (proj2 (Z.ltb_ge _ _)), (proj2 (Z.ltb_ge 8 _)) by lia. cbn [orb].
  rewrite (wrap_small 64 (pb_offset f + pb_size f)) by (unfold in_word; lia). rewrite (wrap_small 64 (pb_offset f)) by (unfold in_word; lia).
  destruct (Z.ltb_spec 2048 (pb_offset f + pb_size f)); [exists f; split; [by left|lia]|].
  assert (Z.land (u64 (Z.shiftl (pb_value f) ((8 - pb_size f) * 8))) (u64 (Z.shiftl 1 ((8 - pb_size f) * 8) - 1)) = 0) as ->.
  { set (k := (8 - pb_size f) * 8). assert (0 <= k <= 56) by lia. assert (2 ^ k <= 2 ^ 56) by (apply Z.pow_le_mono_r; lia).
    rewrite (wrap_small 64 (_ - 1)) by (rewrite Z.shiftl_mul_pow2 by lia; unfold in_word; lia).
    replace (Z.shiftl 1 k - 1) with (Z.ones k) by (rewrite Z.ones_equiv, Z.shiftl_mul_pow2 by lia; lia). rewrite Z.land_ones by lia.
    rewrite Z.shiftl_mul_pow2 by lia. unfold wrap. replace (2 ^ 64) with (2 ^ (64 - k) * 2 ^ k) by (rewrite <- Z.pow_add_r by lia; f_equal; lia).
    rewrite Z.mul_mod_distr_r by lia. apply Z.mod_mul. lia. }
  cbn [negb Z.eqb]. specialize (IH (fields ++ [MkUpdate (u64 (Z.shiftl 1 ((8 - pb_size f) * 8) - 1)) (u64 (Z.shiftl (pb_value f) ((8 - pb_size f) * 8))) (pb_offset f)])).
  destruct (update_add_fields args _) as [e|fields'].
  - destruct IH as (g & Hg & Hgt). exists g. split; [by right|done].
  - by rewrite IH, <- app_assoc.
Qed.

(** What the fields of a command do to a frame, one after the other. *)
Definition apply_field (fr : bytes) (f : pb_update) : bytes :=
  write (Z.to_nat (pb_offset f)) (be_store (Z.to_nat (pb_size f)) (pb_value f)) fr.

Lemma write_slice o a b fr : (o + length a + length b <= length fr)%nat -> b = take (length b) (drop (o + length a) fr) ->
  write o (a ++ b) fr = write o a fr.
Proof.
  intros Hl Hb. unfold write. rewrite length_app, <- app_assoc. do 2 f_equal. rewrite Hb at 1.
  rewrite Nat.add_assoc, <- (drop_drop fr (length b) (o + length a)). apply take_drop.
Qed.

Lemma update_packet_spec f pkt : field_range f -> packet_ok pkt -> pb_offset f + 8 <= data_len_ pkt ->
  exists q, update_packet (MkUpdate (u64 (Z.shiftl 1 ((8 - pb_size f) * 8) - 1)) (u64 (Z.shiftl (pb_value f) ((8 - pb_size f) * 8))) (pb_offset f)) pkt = Some q /\
    packet_ok q /\ data_len_ q = data_len_ pkt /\ frame q = apply_field (frame pkt) f.
Proof.
  intros (Ho & Hs & Hv) Hp Hlen. unfold update_packet. cbn [update_offset update_mask update_value].
  assert (to_int16 (pb_offset f) = pb_offset f) as ->.
  { unfold to_int16, SNBUF_DATA in *. rewrite (wrap_small 16) by (unfold in_word; lia). by rewrite (proj2 (Z.ltb_lt _ _)) by lia. }
  rewrite head_read_spec by (done || lia). cbn [fmap option_fmap option_map mbind option_bind].
  pose proof (length_frame pkt Hp) as Hlf. pose proof (frame_bytes pkt Hp) as Hfb. set (fr := frame pkt) in *.
  set (o := Z.to_nat (pb_offset f)). change (Z.to_nat 8) with 8%nat.
  assert (length (take 8 (drop o fr)) = 8%nat) as H8 by (rewrite length_take, length_drop; lia).
  replace ((8 - pb_size f) * 8) with ((8 - Z.of_nat (Z.to_nat (pb_size f))) * 8) by lia.
  rewrite update_word by (auto with bess || lia).
  match goal with |- context [head_write _ ?new _] => set (nw := new) end.
  assert (length nw = 8%nat) as Hnw by (unfold nw; rewrite length_app, length_be_store, length_drop; lia).
  destruct (head_write_spec (pb_offset f) nw pkt Hp) as (q & -> & Hq & _ & Hl & _ & _ & Hfr); [|lia|lia|].
  { unfold nw. apply bytes_ok_app. auto with bess. }
  exists q. split; [done|]. split; [done|]. split; [done|]. rewrite Hfr. unfold apply_field. fold o fr. unfold nw.
  apply write_slice; rewrite length_drop, length_be_store; [lia|].
  rewrite H8. rewrite skipn_firstn_comm, drop_drop. done.
Qed.

Lemma update_field_batch f batch : field_range f -> Forall (fun pkt => packet_ok pkt /\ pb_offset f + 8 <= data_len_ pkt) batch ->
  exists out, mapM (update_packet (MkUpdate (u64 (Z.shiftl 1 ((8 - pb_size f) * 8) - 1)) (u64 (Z.shiftl (pb_value f) ((8 - pb_size f) * 8))) (pb_offset f))) batch = Some out /\
    Forall packet_ok out /\ map data_len_ out = map data_len_ batch /\ map frame out = map (fun p => apply_field (frame p) f) batch.
Proof.
  intros Hf. induction 1 as [|pkt batch [Hp Hl] _ (out & IH1 & IH2 & IH3 & IH4)]; [by exists []|].
  destruct (update_packet_spec f pkt Hf Hp Hl) as (q & Hq & Hok & Hdl & Hfr). exists (q :: out). cbn [mapM].
  rewrite Hq. cbn [mbind option_bind]. rewrite IH1. split; [done|]. split; [by constructor|]. cbn [map]. split; f_equal; done.
Qed.

(** Adding fields and processing a batch writes, for each field in order, the low
    bytes of its value in network order at its offset into every frame, and nothing else,
    although the code reads and writes eight bytes. *)
Theorem update_writes_fields args fields batch : Forall field_range args ->
  update_add [] args = (fields, inr tt) ->
  Forall (fun pkt => packet_ok pkt /\ Forall (fun f => pb_offset f + 8 <= data_len_ pkt) args) batch ->
  exists out, update_process fields batch = Some out /\ Forall packet_ok out /\
    map data_len_ out = map data_len_ batch /\
    map frame out = map (fun p => foldl apply_field (frame p) args) batch.
Proof.
  intros Hr Hadd. unfold update_add in Hadd. destruct (Nat.ltb_spec kMaxFields (length (@nil update_field) + length args)); [by discriminate Hadd|].
  pose proof (update_add_fields_spec args [] Hr) as Hs. destruct (update_add_fields args []) as [e|fs]; [by discriminate Hadd|].
  injection Hadd as <-. subst fs. clear H. cbn [app]. revert batch. induction Hr as [|f args Hf _ IH]; intros batch Hb.
  { exists batch. split; [done|]. split; [by eapply Forall_impl; [exact Hb|]; intros p []|]. done. }
  cbn [map update_process foldl]. destruct (update_field_batch f batch Hf) as (mid & -> & Hok & Hdl & Hfr).
  { eapply Forall_impl; [exact Hb|]. intros p [? Hp]. apply Forall_cons in Hp. tauto. }
  cbn [mbind option_bind]. destruct (IH mid) as (out & -> & Ho1 & Ho2 & Ho3).
  { clear -Hb Hok Hdl. revert mid Hok Hdl. induction Hb as [|p batch [_ Hp] _ IH]; intros [|q mid] Hok Hdl; try done.
    apply Forall_cons in Hok as [Hq Hok]. injection Hdl as Hd Hdl. constructor; [|by apply IH]. split; [done|].
    apply Forall_cons in Hp as [_ Hp]. rewrite Hd. exact Hp. }
  exists out. split; [done|]. split; [done|]. split; [congruence|]. rewrite Ho3.
  clear -Hfr. revert mid Hfr. induction batch as [|p batch IH]; intros [|q mid] Hfr; try done.
  injection Hfr as Hq Hfr. cbn [map]. rewrite Hq. f_equal. by apply IH.
Qed.

Definition ex_update : list pb_update := [MkPbUpdate 2 2 0x1234; MkPbUpdate 3 1 0xAB; MkPbUpdate 0 1 0x1FF].

Lemma update_writes_fields_witness : exists out,
  update_process (update_add [] ex_update).1 [packet_of (map Z.of_nat (seq 0 12))] = Some out /\
  map frame out = [[255; 1; 0x12; 0xAB; 4; 5; 6; 7; 8; 9; 10; 11]].
Proof.
  assert (packet_ok (packet_of (map Z.of_nat (seq 0 12)))) as Hp by (apply packet_of_ok; [apply (bool_decide_unpack _); vm_compute; exact I|vm_compute; lia]).
  destruct (update_writes_fields ex_update (update_add [] ex_update).1 [packet_of (map Z.of_nat (seq 0 12))]) as (out & H1 & _ & _ & H2).
  - repeat constructor; vm_compute; congruence.
  - reflexivity.
  - constructor; [|constructor]. split; [exact Hp|]. repeat constructor; vm_compute; congruence.
  - exists out. split; [exact H1|]. rewrite H2. vm_compute. reflexivity.
Defined.

(** A value that does not fit is not refused: the test looks at the bits below the value,
    which the shift has cleared. *)
Lemma update_truncates : exists fields, update_add [] [MkPbUpdate 0 1 0x1FF] = (fields, inr tt).
Proof. eexists. reflexivity. Qed.

(** ** RandomUpdate: the value is in the range asked for *)
Lemma make_var_spec f v : make_var f = inr v -> in_word 32 (var_min v) /\ 0 < var_range v < 2 ^ 32 /\
  var_min v = Z.min (u32 (pbv_min f)) (2 ^ (8 * pbv_size f) - 1) /\
  var_min v + var_range v <= Z.min (u32 (pbv_max f)) (2 ^ (8 * pbv_size f) - 1) + 1.
Proof.
  unfold make_var. pose proof (wrap_range 32 (pbv_min f) ltac:(lia)) as H1. pose proof (wrap_range 32 (pbv_max f) ltac:(lia)) as H2.
  unfold in_word in *. set (mn := u32 (pbv_min f)) in *. set (mx := u32 (pbv_max f)) in *.
  assert (Hrange : forall a b, 0 <= a <= b -> b < 2 ^ 32 -> let r := if u32 (b - a + 1) =? 0 then 0xffffffff else u32 (b - a + 1) in
    0 < r < 2 ^ 32 /\ a + r <= b + 1).
  { intros a b Ha Hb. destruct (Z.eq_dec (b - a + 1) (2 ^ 32)) as [E|].
    - rewrite E. change (u32 (2 ^ 32)) with 0. cbn [Z.eqb]. lia.
    - rewrite wrap_small by (unfold in_word; lia). rewrite (proj2 (Z.eqb_neq _ _)) by lia. lia. }
  assert (Hcase : forall mask lim, 0 <= lim < 2 ^ 32 -> 2 ^ (8 * pbv_size f) - 1 = lim ->
    (if SNBUF_DATA <? u64 (u64 (pbv_offset f) + pbv_size f) then inl EINVAL
     else if Z.min mx lim <? Z.min mn lim then inl EINVAL
     else inr (MkVar mask (Z.min mn lim) (if u32 (Z.min mx lim - Z.min mn lim + 1) =? 0 then 0xffffffff else u32 (Z.min mx lim - Z.min mn lim + 1))
       (u64 (pbv_offset f)) ((4 - pbv_size f) * 8))) = inr v ->
    0 <= var_min v < 2 ^ 32 /\ 0 < var_range v < 2 ^ 32 /\ var_min v = Z.min mn (2 ^ (8 * pbv_size f) - 1) /\
    var_min v + var_range v <= Z.min mx (2 ^ (8 * pbv_size f) - 1) + 1).
  { intros mask lim Hlim ->. destruct (_ <? _); [done|]. destruct (Z.ltb_spec (Z.min mx lim) (Z.min mn lim)); [done|].
    intros [= <-]. cbn [var_min var_range]. destruct (Hrange (Z.min mn lim) (Z.min mx lim)); [lia|lia|]. split; [lia|]. split; [done|]. done. }
  destruct (Z.eqb_spec (pbv_size f) 1) as [E|]; [apply Hcase; [lia|by rewrite E]|].
  destruct (Z.eqb_spec (pbv_size f) 2) as [E|]; [apply Hcase; [lia|by rewrite E]|].
  destruct (Z.eqb_spec (pbv_size f) 4) as [E|]; [apply Hcase; [lia|by rewrite E]|done].
Qed.

Lemma random_value_in_range f v seed : make_var f = inr v -> let r := (GetRange seed (var_range v)).2 in
  Z.min (u32 (pbv_min f)) (2 ^ (8 * pbv_size f) - 1) <= u32 (var_min v + r) <= Z.min (u32 (pbv_max f)) (2 ^ (8 * pbv_size f) - 1).
Proof.
  intros Hv. destruct (make_var_spec f v Hv) as (H1 & H2 & H3 & H4). pose proof (GetRange_range seed (var_range v) H2) as Hr. cbv zeta.
  unfold in_word in H1. pose proof (wrap_range 32 (pbv_max f) ltac:(lia)) as Hw. unfold in_word in Hw.
  generalize dependent (2 ^ (8 * pbv_size f) - 1). intros lim H3 H4.
  rewrite (wrap_small 32 (var_min v + _)) by (unfold in_word; lia). lia.
Qed.

(** The full range of four bytes leaves out the largest value. *)
Lemma random_full_range : make_var (MkPbVar 0 4 0 0xffffffff) = inr (MkVar 0 0 0xffffffff 0 0).
Proof. reflexivity. Qed.


(** ** SetMetadata *)
Lemma rev_zip_with (f : Z -> Z -> Z) a b : length a = length b -> rev (zip_with f a b) = zip_with f (rev a) (rev b).
Proof.
  revert b. induction a as [|x a IH]; intros [|y b] Hl; try done. cbn [zip_with rev].
  rewrite IH by (by injection Hl). rewrite zip_with_app by (rewrite !length_rev; by injection Hl). done.
Qed.

Lemma be_load_land a b : bytes_ok a -> bytes_ok b -> length a = length b ->
  be_load (zip_with Z.land a b) = Z.land (be_load a) (be_load b).
Proof.
  intros Ha Hb Hl. unfold be_load. rewrite rev_zip_with by done.
  rewrite le_load_land by (rewrite ?length_rev; (done || by apply Forall_rev)). done.
Qed.

Lemma be_load_zeroes n : be_load (replicate n 0) = 0.
Proof.
  unfold be_load. rewrite rev_alt. change (le_load (reverse (replicate n 0)) = 0).
  rewrite reverse_replicate. apply le_load_replicate.
Qed.

Lemma be_load_shift_right v k : bytes_ok v -> (k <= length v)%nat ->
  be_load (replicate k 0 ++ take (length v - k) v) = be_load v / 256 ^ Z.of_nat k.
Proof.
  intros Hv Hk. rewrite <- (take_drop (length v - k) v) at 3. rewrite !be_load_app, length_take, length_drop.
  assert (be_load (replicate k 0) = 0) as -> by apply be_load_zeroes.
  pose proof (be_load_bound (drop (length v - k) v) ltac:(auto with bess)) as Hb. rewrite length_drop in Hb.
  replace (length v - (length v - k))%nat with k in * by lia. rewrite Z.div_add_l, (Z.div_small (be_load (drop _ _))) by lia. lia.
Qed.

Lemma be_load_shift_left v k : bytes_ok v -> (k <= length v)%nat ->
  be_load (drop k v ++ replicate k 0) = (be_load v * 256 ^ Z.of_nat k) mod 256 ^ Z.of_nat (length v).
Proof.
  intros Hv Hk. rewrite be_load_app, length_replicate.
  assert (be_load (replicate k 0) = 0) as -> by apply be_load_zeroes.
  rewrite <- (take_drop k v) at 2. rewrite be_load_app, length_drop, Z.mul_add_distr_r, <- Z.mul_assoc, <- Z.pow_add_r by lia.
  replace (Z.of_nat (length v - k) + Z.of_nat k) with (Z.of_nat (length v)) by lia.
  rewrite (Z.add_comm (_ * _) (be_load (drop k v) * _)), Z.mod_add by lia. rewrite Z.add_0_r, Z.mod_small; [done|].
  pose proof (be_load_bound (drop k v) ltac:(auto with bess)) as Hb. rewrite length_drop in Hb.
  replace (Z.of_nat (length v)) with (Z.of_nat (length v - k) + Z.of_nat k) by lia. rewrite Z.pow_add_r by lia. nia.
Qed.

(** The formula of the documentation, where a negative number of bits is a shift to the left. *)
Definition shifted (x shift size : Z) : Z :=
  if 0 <=? shift then x / 256 ^ shift else (x * 256 ^ (- shift)) mod 256 ^ size.

Record attr_ok (a : set_attr) : Prop := {
  attr_size : 1 <= sa_size a <= kMetadataAttrMaxSize;
  attr_offset : 0 <= sa_offset a;
  attr_shift : Z.abs (sa_shift a) < sa_size a;
  attr_shift_8 : Z.abs (sa_shift a) <> 8;
  attr_mask : bytes_ok (sa_mask a) /\ length (sa_mask a) = 32%nat }.

Lemma Shift_any v k : bytes_ok v -> k <> 8%nat ->
  ShiftBytesLeft v k = Some (ShiftBytesLeftSmall v k) /\ ShiftBytesRight v k = Some (ShiftBytesRightSmall v k).
Proof. intros Hv Hk. by apply ShiftBytes_chunked. Qed.

Lemma shift_step v shift : bytes_ok v -> Z.abs shift < Z.of_nat (length v) -> Z.abs shift <> 8 ->
  exists w, (if shift =? 0 then Some v
             else if 0 <? shift then ShiftBytesRight v (Z.to_nat shift) else ShiftBytesLeft v (Z.to_nat (- shift))) = Some w /\
    length w = length v /\ bytes_ok w /\ be_load w = shifted (be_load v) shift (Z.of_nat (length v)).
Proof.
  intros Hv Hs H8. unfold shifted. destruct (Z.eqb_spec shift 0) as [->|].
  { exists v. cbn [Z.leb Z.compare]. rewrite Z.div_1_r. done. }
  destruct (Z.ltb_spec 0 shift).
  - rewrite (proj2 (Shift_any v (Z.to_nat shift) Hv ltac:(lia))), ShiftBytesRightSmall_spec.
    eexists. split; [done|]. rewrite Nat.min_l by lia. rewrite (proj2 (Z.leb_le 0 shift)) by lia.
    split; [rewrite length_app, length_replicate, length_take; lia|].
    split; [apply bytes_ok_app; auto with bess|]. rewrite be_load_shift_right by (done || lia). by rewrite Z2Nat.id by lia.
  - rewrite (proj1 (Shift_any v (Z.to_nat (- shift)) Hv ltac:(lia))), ShiftBytesLeftSmall_spec.
    eexists. split; [done|]. rewrite Nat.min_l by lia. rewrite (proj2 (Z.leb_gt 0 shift)) by lia.
    split; [rewrite length_app, length_replicate, length_drop; lia|].
    split; [apply bytes_ok_app; auto with bess|]. rewrite be_load_shift_left by (done || lia). by rewrite Z2Nat.id by lia.
Qed.

(** An attribute that is copied from a packet holds, as a number in network order,
    the bytes of the packet shifted and then masked; the shift of eight bytes apart, the
    packet's data and the rest of its metadata stay as they are. *)
Theorem set_metadata_value a mt_offset pkt : attr_ok a -> packet_ok pkt -> sa_offset a + sa_size a <= data_len_ pkt ->
  0 <= mt_offset -> attr_range mt_offset (sa_size a) ->
  let x := be_load (take (Z.to_nat (sa_size a)) (drop (Z.to_nat (sa_offset a)) (frame pkt))) in
  exists q v, set_one_attr mt_offset a pkt = Some q /\ get_attr_with_offset mt_offset (sa_size a) q = Some v /\
    be_load v = (let y := shifted x (sa_shift a) (sa_size a) in
                 if sa_do_mask a then Z.land y (be_load (take (Z.to_nat (sa_size a)) (sa_mask a))) else y) /\
    packet_ok q /\ frame q = frame pkt /\ metadata_ q = write (Z.to_nat mt_offset) v (metadata_ pkt).
Proof.
  intros [Hsz Hoff Hsh H8 [Hmok Hml]] Hp Hlen Hmt Hat x. unfold kMetadataAttrMaxSize in Hsz. unfold set_one_attr. rewrite (proj2 (Z.ltb_ge _ _)), (proj2 (Z.leb_le 0 (sa_offset a))) by lia.
  unfold attr_from_packet. rewrite head_read_spec by (done || lia). cbn [mbind option_bind].
  pose proof (length_frame pkt Hp) as Hlf. pose proof (frame_bytes pkt Hp) as Hfb.
  set (v0 := take _ (drop _ (frame pkt))) in *. assert (length v0 = Z.to_nat (sa_size a)) as Hl0 by (unfold v0; rewrite length_take, length_drop; lia).
  assert (bytes_ok v0) as Hv0 by (unfold v0; auto with bess).
  destruct (shift_step v0 (sa_shift a) Hv0 ltac:(lia) H8) as (w & -> & Hlw & Hw & Hval). cbn [mbind option_bind].
  set (mask := take _ (sa_mask a)). assert (length mask = length w) as Hlm by (unfold mask; rewrite length_take; lia).
  assert (bytes_ok mask) as Hmk by (unfold mask; auto with bess).
  set (v := if sa_do_mask a then MaskBytes w mask else w).
  assert (length v = length w /\ bytes_ok v /\ be_load v = if sa_do_mask a then Z.land (be_load w) (be_load mask) else be_load w) as (Hlv & Hvok & Hvval).
  { unfold v. destruct (sa_do_mask a); [|done]. rewrite mask_128 by done.
    split; [rewrite length_zip_with; lia|]. split; [auto with bess|]. by apply be_load_land. }
  cbn [mbind option_bind]. destruct (set_attr_spec mt_offset v pkt Hp Hvok) as (q & -> & Hq & _ & _ & _ & Hfr & Hmeta).
  { by replace (Z.of_nat (length v)) with (sa_size a) by lia. }
  rewrite (proj2 (Z.leb_le _ _)) in Hmeta by done. exists q, v. split; [done|].
  pose proof (ok_metadata pkt Hp) as Hm. unfold SNBUF_METADATA, SNBUF_SCRATCHPAD in Hm. unfold attr_range, SNBUF_METADATA, SNBUF_SCRATCHPAD in Hat.
  split.
  - unfold get_attr_with_offset, read_at. rewrite (proj2 (Z.leb_le _ _)) by done. rewrite Hmeta.
    rewrite slice_Some by (rewrite ?length_write; lia). f_equal. replace (Z.to_nat (sa_size a)) with (length v) by lia. apply write_read. lia.
  - split; [|done]. rewrite Hvval, Hval. replace (Z.of_nat (length v0)) with (sa_size a) by lia. done.
Qed.

(** An attribute of two bytes from the fourth byte on, shifted by one byte and masked. *)
Definition ex_attr : set_attr :=
  match AddAttrOne (replicate 32 170) (MkPbAttr true 2 attr_unset 4 [0x0f; 0xff] 8 0) with inr a => a | inl _ => MkSetAttr [] [] 0 0 false 0 end.

Lemma set_metadata_value_witness : exists q,
  set_one_attr 8 ex_attr (packet_of [1; 2; 3; 4; 0xab; 0xcd; 7; 8]) = Some q /\ get_attr_with_offset 8 2 q = Some [0; 0xab].
Proof.
  destruct (set_metadata_value ex_attr 8 (packet_of [1; 2; 3; 4; 0xab; 0xcd; 7; 8])) as (q & v & H1 & H2 & H3 & _).
  - split; [vm_compute; split; congruence|vm_compute; congruence|vm_compute; congruence|vm_compute; congruence|].
    split; [apply (bool_decide_unpack _); vm_compute; exact I|reflexivity].
  - apply packet_of_ok; [apply (bool_decide_unpack _); vm_compute; exact I|apply Nat.leb_le; reflexivity].
  - vm_compute. congruence.
  - lia.
  - right. vm_compute. congruence.
  - exists q. split; [exact H1|]. change (sa_size ex_attr) with 2 in H2. rewrite H2. vm_compute in H1. injection H1 as H1. rewrite <- H1 in H2.
    vm_compute in H2. injection H2 as <-. reflexivity.
Defined.

(** ** GenericEncap *)
Definition value_ok (f : encap_field) : Prop := bytes_ok (encap_value f) /\ length (encap_value f) = 8%nat.

(** The bytes that a field of the configuration stands for. *)
Definition arg_bytes (attr : Z -> Z) (pkt : Packet) (arg : pb_encap_field) : bytes :=
  let size := Z.to_nat (pbe_size arg) in
  match pbe_insertion arg with
  | encap_attribute id =>
      if 0 <=? attr id then take size (drop (Z.to_nat (attr id)) (metadata_ pkt)) else replicate size 0
  | encap_constant (encap_int v) => be_store size v
  | encap_constant (encap_bin b) => b
  | _ => []
  end.

Definition arg_ok (arg : pb_encap_field) : Prop :=
  0 <= pbe_size arg < 2 ^ 31 /\
  match pbe_insertion arg with
  | encap_constant (encap_int v) => in_word 64 v
  | encap_constant (encap_bin b) => bytes_ok b
  | encap_constant encap_none => False
  | _ => True
  end.

(** What a field holds after it has been added. *)
Definition field_of (arg : pb_encap_field) (f : encap_field) : Prop :=
  encap_field_size f = pbe_size arg /\ 1 <= pbe_size arg <= 8 /\ value_ok f /\
  match pbe_insertion arg with
  | encap_attribute id => encap_attr_id f = id /\ 0 <= id
  | encap_constant (encap_int v) => encap_attr_id f = -1 /\ take (Z.to_nat (pbe_size arg)) (encap_value f) = be_store (Z.to_nat (pbe_size arg)) v
  | encap_constant (encap_bin b) => encap_attr_id f = -1 /\ take (Z.to_nat (pbe_size arg)) (encap_value f) = b
  | _ => False
  end.

Lemma AddFieldOne_spec arg f f' : arg_ok arg -> value_ok f -> AddFieldOne arg f = (f', inr tt) ->
  field_of arg f' /\ encap_pos f' = encap_pos f.
Proof.
  intros [Hs Ha] [Hok Hlen]. unfold AddFieldOne, field_of, value_ok, MAX_FIELD_SIZE.
  assert (to_int32 (pbe_size arg) = pbe_size arg) as ->.
  { unfold to_int32. rewrite wrap_small by (unfold in_word; lia). by rewrite (proj2 (Z.ltb_lt _ _)) by lia. }
  destruct (Z.ltb_spec (pbe_size arg) 1); [done|]. destruct (Z.ltb_spec 8 (pbe_size arg)); [done|]. cbn [orb].
  destruct (pbe_insertion arg) as [id|[v|b|]|]; try done; cbn [encap_value].
  - destruct (Z.ltb_spec id 0); [done|]. intros [= <-]. cbn [encap_field_size encap_value encap_attr_id encap_pos]. split; [|done]. split; [done|]. split; [lia|]. split; [done|]. split; [done|lia].
  - set (n := Z.to_nat (pbe_size arg)). rewrite <- (take_drop n (encap_value f)).
    destruct (uint64_to_bin_spec (take n (encap_value f)) (drop n (encap_value f)) v n true) as (out & -> & -> & _); [rewrite length_take; lia|done|].
    destruct (bool_decide _); [|done]. intros [= <-]. cbn [encap_field_size encap_value encap_attr_id encap_pos].
    split; [|done]. split; [done|]. split; [lia|].
    split; [split; [apply bytes_ok_app; auto with bess|rewrite length_app, length_be_store, length_drop; lia]|].
    split; [done|]. rewrite take_app_le by (rewrite length_be_store; lia). apply take_ge. by rewrite length_be_store.
  - destruct (Z.eqb_spec (Z.of_nat (length b)) (pbe_size arg)); [|done]. intros [= <-]. cbn [encap_field_size encap_value encap_attr_id encap_pos].
    split; [|done]. split; [done|]. split; [lia|]. split; [split; [by apply bytes_ok_write|rewrite length_write; lia]|]. split; [done|].
    unfold write. rewrite take_0. cbn [app]. rewrite take_app_le by lia. apply take_ge. lia.
Qed.

(** Consecutive fields from position [p] on. *)
Fixpoint chained (p : Z) (args : list pb_encap_field) (fields : list encap_field) : Prop :=
  match args, fields with
  | [], [] => True
  | arg :: args, f :: fields => field_of arg f /\ encap_pos f = p /\ chained (p + pbe_size arg) args fields
  | _, _ => False
  end.

Lemma chained_sizes p args fields : chained p args fields ->
  length fields = length args /\ Forall (fun arg => 1 <= pbe_size arg <= 8) args.
Proof.
  revert p fields. induction args as [|arg args IH]; intros p [|f fields]; try done.
  intros ((_ & Hs & _) & _ & Hc). destruct (IH _ _ Hc) as [E ?]. split; [cbn; by rewrite E|]. by constructor.
Qed.

Lemma encap_add_fields_spec i args size_acc fields fields' size_acc' : Forall arg_ok args -> Forall value_ok fields -> (i <= length fields)%nat ->
  encap_add_fields i args size_acc fields = Some (fields', size_acc', inr tt) ->
  (i + length args <= length fields)%nat /\ take i fields' = take i fields /\ length fields' = length fields /\
  chained size_acc args (take (length args) (drop i fields')) /\ size_acc' = size_acc + foldr (fun a n => pbe_size a + n) 0 args.
Proof.
  intros Ha. revert i size_acc fields. induction Ha as [|arg args Hok _ IH]; intros i size_acc fields Hv Hi; cbn [encap_add_fields length foldr].
  { intros [= <- <-]. split; [lia|]. do 2 (split; [done|]). split; [by rewrite take_0|lia]. }
  destruct (fields !! i) as [f|] eqn:Hf; cbn [mbind option_bind]; [|done].
  pose proof (lookup_lt_Some _ _ _ Hf) as Hlt. pose proof (proj1 (Forall_lookup _ _) Hv i f Hf) as Hvf.
  destruct (AddFieldOne arg _) as [f1 r1] eqn:Hadd. destruct r1 as [e|[]]; [done|].
  destruct (AddFieldOne_spec arg (MkEncapField (encap_value f) (encap_attr_id f) size_acc (encap_field_size f)) f1 Hok Hvf Hadd) as [Hof Hpos].
  intros Hrest. apply IH in Hrest as (H1 & H2 & H3 & H4 & H5); [|apply Forall_insert; [done|apply Hof]|rewrite length_insert; lia].
  rewrite length_insert in *. split; [lia|].
  assert (take i fields' = take i fields) as Hti.
  { pose proof (f_equal (take i) H2) as E. rewrite !take_take, Nat.min_l, take_insert_ge in E by lia. exact E. }
  split; [done|]. split; [lia|].
  assert (fields' !! i = Some f1) as Hfi.
  { rewrite <- (lookup_take_lt fields' (S i) i) by lia. rewrite H2, lookup_take_lt, list_lookup_insert_eq by lia. done. }
  split.
  - rewrite (drop_S fields' f1 i Hfi). cbn [take chained]. split; [done|]. split; [done|].
    destruct Hof as (<- & _). exact H4.
  - destruct Hof as (Hsz & _). rewrite H5, Hsz. lia.
Qed.

Lemma encap_value_read attr pkt arg f : field_of arg f -> packet_ok pkt -> (forall id, attr_range (attr id) 8) ->
  exists v, (if encap_attr_id f <? 0 then Some (encap_value f) else get_attr_with_offset (attr (encap_attr_id f)) 8 pkt) = Some v /\
    length v = 8%nat /\ bytes_ok v /\ take (Z.to_nat (pbe_size arg)) v = arg_bytes attr pkt arg.
Proof.
  intros (Hsz & Hs & [Hvok Hvl] & Hins) Hp Hat. unfold arg_bytes.
  destruct (pbe_insertion arg) as [id|[v|b|]|]; try done.
  - destruct Hins as [-> Hid]. rewrite (proj2 (Z.ltb_ge _ _)) by lia.
    destruct (get_attr_spec (attr id) 8 pkt Hp (Hat id) ltac:(lia)) as (v & Hv & Hl & Hok & Heq). exists v.
    split; [done|]. split; [lia|]. split; [done|]. rewrite Heq. destruct (0 <=? attr id).
    + rewrite take_take, Nat.min_l by lia. done.
    + rewrite take_replicate, Nat.min_l by lia. done.
  - destruct Hins as [-> Ht]. exists (encap_value f). done.
  - destruct Hins as [-> Ht]. exists (encap_value f). done.
Qed.

Lemma encap_header_spec attr pkt args fields p header : packet_ok pkt -> (forall id, attr_range (attr id) 8) ->
  chained p args fields -> 0 <= p -> p + 8 * Z.of_nat (length args) <= 64 -> length header = 64%nat -> bytes_ok header ->
  exists h, encap_header attr pkt fields header = Some h /\ length h = 64%nat /\ bytes_ok h /\
    take (Z.to_nat (p + foldr (fun a n => pbe_size a + n) 0 args)) h = take (Z.to_nat p) header ++ concat (map (arg_bytes attr pkt) args).
Proof.
  intros Hp Hat. revert fields p header. induction args as [|arg args IH]; intros [|f fields] p header Hc H0 H64 Hlen Hok; try done.
  { exists header. cbn. rewrite Z.add_0_r, app_nil_r. done. }
  destruct Hc as (Hf & Hpos & Hc). cbn [encap_header length foldr map concat] in *.
  destruct (encap_value_read attr pkt arg f Hf Hp Hat) as (v & -> & Hlv & Hvok & Hbytes). cbn [mbind option_bind].
  rewrite Hpos, write_at_Some by lia. cbn [mbind option_bind].
  destruct Hf as (_ & Hs & _).
  destruct (IH fields (p + pbe_size arg) (write (Z.to_nat p) v header)) as (h & -> & Hl & Hhok & Ht); [done|lia|lia|rewrite length_write; lia|by apply bytes_ok_write|].
  exists h. split; [done|]. split; [done|]. split; [done|]. rewrite Z.add_assoc, Ht.
  assert (take (Z.to_nat (p + pbe_size arg)) (write (Z.to_nat p) v header) = take (Z.to_nat p) header ++ arg_bytes attr pkt arg) as ->.
  { unfold write. rewrite take_app_ge by (rewrite length_take; lia). f_equal. rewrite length_take_le by lia.
    rewrite take_app_le by lia. rewrite <- Hbytes. f_equal. lia. }
  by rewrite <- app_assoc.
Qed.

(** A configuration that Init accepts prepends to every packet with room for it the
    bytes of its fields, one after the other: values in network order, byte strings and the
    attributes of the packet. *)
Theorem generic_encap_prepends attr args m junk pkt : Forall arg_ok args ->
  generic_encap_init generic_encap_new args = Some (m, inr tt) ->
  packet_ok pkt -> (forall id, attr_range (attr id) 8) -> length junk = MAX_HEADER_SIZE -> bytes_ok junk ->
  exists q, generic_encap attr m junk pkt = Some q /\ packet_ok q /\
    frame q = if encap_size_ m <=? data_off_ pkt then concat (map (arg_bytes attr pkt) args) ++ frame pkt else frame pkt.
Proof.
  intros Ha Hi Hp Hat Hjl Hjok. unfold generic_encap_init in Hi.
  destruct (encap_add_fields 0 args 0 _) as [[[fields size_acc] [e|[]]]|] eqn:Hadd; try done. cbn [mbind option_bind] in Hi. injection Hi as <-.
  apply encap_add_fields_spec in Hadd as (Hl & _ & Hlf & Hc & ->); [|done|apply Forall_replicate; split; [apply bytes_ok_replicate; split; lia|done]|cbn; lia].
  change (length (encap_fields_ generic_encap_new)) with 8%nat in *. rewrite drop_0 in Hc. unfold generic_encap. cbn [num_fields_ encap_fields_ encap_size_].
  destruct (chained_sizes _ _ _ Hc) as [_ Hsizes].
  destruct (encap_header_spec attr pkt args _ 0 junk Hp Hat Hc ltac:(lia) ltac:(lia) Hjl Hjok) as (h & -> & Hlh & Hhok & Ht). cbn [mbind option_bind].
  rewrite Z.add_0_l in Ht. change (Z.to_nat 0) with O in Ht. rewrite take_0 in Ht. cbn [app] in Ht. rewrite Z.add_0_l.
  set (n := foldr (fun a n => pbe_size a + n) 0 args) in *.
  assert (0 <= n <= 8 * Z.of_nat (length args)) as Hn.
  { unfold n. clear -Hsizes. induction Hsizes as [|a l Ha _ IH]; cbn [foldr length]; lia. }
  pose proof (prepend_spec n pkt Hp ltac:(lia)) as Hpre. destruct (prepend n pkt) as [q|].
  - destruct Hpre as (Hq & Ho & Hdl & _ & _ & jk & Hjk & _ & Hfr).
    destruct (head_write_spec 0 (take (Z.to_nat n) h) q Hq) as (q' & -> & Hq' & _ & _ & _ & _ & Hfr');
      [auto with bess|lia|rewrite length_take; pose proof (ok_len pkt Hp); lia|].
    exists q'. split; [done|]. split; [done|]. pose proof (ok_off q Hq). rewrite (proj2 (Z.leb_le _ _)) by lia.
    rewrite Hfr', Hfr. change (Z.to_nat 0) with O. rewrite <- Ht.
    apply (write_mid [] jk (frame pkt) (take (Z.to_nat n) h)); [done|rewrite length_take; lia].
  - exists pkt. rewrite (proj2 (Z.leb_gt _ _)) by lia. done.
Qed.

Definition ex_encap : list pb_encap_field :=
  [MkPbEncap 4 (encap_constant (encap_int 0xdeadbeef)); MkPbEncap 2 (encap_attribute 0); MkPbEncap 2 (encap_constant (encap_bin [0x12; 0x34]))].
Definition ex_tagged : Packet := with_metadata (packet_of [1; 2]) ([5; 6; 7; 8] ++ replicate 188 0).

Lemma generic_encap_prepends_witness : exists m q, generic_encap_init generic_encap_new ex_encap = Some (m, inr tt) /\
  generic_encap (fun _ => 1) m (replicate 64 170) ex_tagged = Some q /\ frame q = [0xde; 0xad; 0xbe; 0xef; 6; 7; 0x12; 0x34; 1; 2].
Proof.
  destruct (generic_encap_init generic_encap_new ex_encap) as [[m [e|[]]]|] eqn:E; [vm_compute in E; discriminate E| |vm_compute in E; discriminate E].
  destruct (generic_encap_prepends (fun _ => 1) ex_encap m (replicate 64 170) ex_tagged) as (q & H1 & _ & H2).
  - repeat constructor; vm_compute; congruence.
  - exact E.
  - apply with_metadata_ok; [apply packet_of_ok; [apply (bool_decide_unpack _); vm_compute; exact I|apply Nat.leb_le; reflexivity]|reflexivity|].
    apply (bool_decide_unpack _). vm_compute. exact I.
  - intros id. right. vm_compute. congruence.
  - reflexivity.
  - apply (bool_decide_unpack _). vm_compute. exact I.
  - exists m, q. split; [reflexivity|]. split; [exact H1|]. rewrite H2. vm_compute in E. injection E as <-. vm_compute. reflexivity.
Defined.

(** A ninth field is stored past the array. *)
Lemma generic_encap_overflow : generic_encap_init generic_encap_new (replicate 9 (MkPbEncap 1 (encap_constant (encap_int 0)))) = None.
Proof. reflexivity. Qed.

(** ** Rewrite *)
Definition arrays_ok (m : Rewrite) : Prop :=
  length (jump_ m) = kNumSlots /\ length (template_size_ m) = kNumSlots /\ length (templates_ m) = kNumSlots.

(** The slot [k] holds what slot [j] holds. *)
Definition same_slot (m : Rewrite) (k j : nat) : Prop :=
  template_size_ m !! k = template_size_ m !! j /\
  exists size a b, template_size_ m !! j = Some size /\ templates_ m !! k = Some a /\ templates_ m !! j = Some b /\
    take (Z.to_nat size) a = take (Z.to_nat size) b.

Definition fits_slots (m : Rewrite) : Prop := forall j size a, template_size_ m !! j = Some size -> templates_ m !! j = Some a ->
  length a = kMaxTemplateSize /\ 0 <= size <= Z.of_nat kMaxTemplateSize.

Lemma fill_slots_spec n i m : arrays_ok m -> fits_slots m -> (0 < num_templates_ m <= i)%nat -> (i + n <= kNumSlots)%nat ->
  exists m', fill_slots n i m = Some m' /\ arrays_ok m' /\ num_templates_ m' = num_templates_ m /\ next_turn_ m' = next_turn_ m /\
    (forall k, (k < i)%nat -> jump_ m' !! k = jump_ m !! k /\ template_size_ m' !! k = template_size_ m !! k /\ templates_ m' !! k = templates_ m !! k) /\
    forall k, (i <= k < i + n)%nat -> jump_ m' !! k = Some (k mod num_templates_ m)%nat /\ same_slot m' k (k mod num_templates_ m).
Proof.
  revert i m. induction n as [|n IH]; intros i m Ha Hfit Hi Hn; cbn [fill_slots].
  { exists m. do 4 (split; [done|]). split; [done|lia]. }
  pose proof Ha as (Hj & Hs & Ht). pose proof (Nat.mod_upper_bound i (num_templates_ m) ltac:(lia)) as Hmod.
  set (j := (i mod num_templates_ m)%nat) in *.
  destruct (lookup_lt_is_Some_2 (template_size_ m) j) as [size Hsize]; [lia|].
  destruct (lookup_lt_is_Some_2 (templates_ m) j) as [src Hsrc]; [lia|].
  destruct (lookup_lt_is_Some_2 (templates_ m) i) as [dst Hdst]; [lia|].
  destruct (lookup_lt_is_Some_2 (template_size_ m) i) as [osize Hosize]; [lia|].
  rewrite Hsize, Hsrc, Hdst. cbn [mbind option_bind].
  destruct (Hfit j size src Hsize Hsrc) as [Hls Hsz]. destruct (Hfit i osize dst Hosize Hdst) as [Hld _].
  set (cp := take (Z.to_nat size) src). assert (length cp = Z.to_nat size) as Hcp by (unfold cp; rewrite length_take; lia).
  set (m1 := MkRewrite _ _ _ _ _).
  destruct (IH (S i) m1) as (m' & -> & Ha' & Hnum & Hnext & Hlow & Hhigh).
  - unfold arrays_ok, m1. cbn [jump_ template_size_ templates_]. by rewrite !length_insert.
  - intros k sz a. unfold m1. cbn [template_size_ templates_]. destruct (decide (k = i)) as [->|].
    + rewrite !list_lookup_insert_eq by lia. intros [= <-] [= <-]. split; [rewrite length_write; lia|done].
    + rewrite !list_lookup_insert_ne by done. apply Hfit.
  - cbn. lia.
  - lia.
  - exists m'. split; [done|]. split; [done|]. split; [done|]. split; [done|].
    assert (Hi1 : jump_ m' !! i = Some j /\ template_size_ m' !! i = Some size /\ templates_ m' !! i = Some (write 0 cp dst)).
    { destruct (Hlow i ltac:(lia)) as (-> & -> & ->). unfold m1. cbn [jump_ template_size_ templates_].
      rewrite !list_lookup_insert_eq by lia. done. }
    assert (Hlow' : forall k, (k < i)%nat -> jump_ m' !! k = jump_ m !! k /\ template_size_ m' !! k = template_size_ m !! k /\ templates_ m' !! k = templates_ m !! k).
    { intros k Hk. destruct (Hlow k ltac:(lia)) as (-> & -> & ->). unfold m1. cbn [jump_ template_size_ templates_].
      rewrite !list_lookup_insert_ne by lia. done. }
    split; [done|]. intros k Hk. destruct (decide (k = i)) as [->|]; [|apply Hhigh; lia].
    fold j. destruct Hi1 as (Hi1 & Hi2 & Hi3). destruct (Hlow' j ltac:(lia)) as (_ & Hj2 & Hj3). split; [done|].
    unfold same_slot. rewrite Hi2, Hi3, Hj2, Hj3, Hsize, Hsrc. split; [done|]. exists size, (write 0 cp dst), src.
    do 3 (split; [done|]). unfold write. rewrite (take_0 dst). cbn [app]. by apply take_app_length'.
Qed.

Lemma store_templates_arrays i args m : arrays_ok m -> fits_slots m -> (i + length args <= kNumSlots)%nat ->
  arrays_ok (store_templates i args m).1 /\ fits_slots (store_templates i args m).1 /\ jump_ (store_templates i args m).1 = jump_ m.
Proof.
  revert i m. induction args as [|t args IH]; intros i m Ha Hf Hi; [done|]. cbn [store_templates]. destruct (Nat.ltb_spec kMaxTemplateSize (length t)); [done|].
  destruct Ha as (H1 & H2 & H3). cbn [length] in Hi.
  match goal with |- context [store_templates (S i) args ?m1] => destruct (IH (S i) m1) as (A1 & A2 & A3) end.
  - unfold arrays_ok. cbn [jump_ template_size_ templates_]. by rewrite !length_insert.
  - intros k sz a. cbn [template_size_ templates_]. destruct (decide (k = i)) as [->|].
    + assert (length (write 0 t (replicate kMaxTemplateSize 0)) = kMaxTemplateSize) as Hw.
      { rewrite length_write; rewrite length_replicate; lia. }
      generalize dependent (write 0 t (replicate kMaxTemplateSize 0)). intros w Hw.
      rewrite !list_lookup_insert_eq by lia. intros [= <-] [= <-]. lia.
    + rewrite !list_lookup_insert_ne by done. apply Hf.
  - lia.
  - done.
Qed.

(** After templates have been added, the slots from their number on repeat them in turn, and
    [jump_] is the next turn there; the slots below keep the [jump_] they had. *)
Lemma rewrite_add_slots m args m' : arrays_ok m -> fits_slots m -> (num_templates_ m <= 32)%nat -> rewrite_add m args = Some (m', inr tt) ->
  arrays_ok m' /\ num_templates_ m' = (num_templates_ m + length args)%nat /\
  forall k, (k < kNumSlots)%nat -> (0 < num_templates_ m')%nat ->
    if (k <? num_templates_ m')%nat then jump_ m' !! k = jump_ m !! k
    else jump_ m' !! k = Some (k mod num_templates_ m')%nat /\ same_slot m' k (k mod num_templates_ m').
Proof.
  intros Ha Hf Hn. unfold rewrite_add. destruct (Nat.ltb_spec 32 (num_templates_ m + length args)); [done|].
  assert (kNumSlots = 63%nat) as HK by reflexivity.
  pose proof (store_templates_arrays (num_templates_ m) args m Ha Hf ltac:(lia)) as (Ha1 & Hf1 & Hj1).
  destruct (store_templates _ _ _) as [m1 [e|[]]]; [done|]. cbn [fst] in *.
  destruct (Nat.eqb_spec (num_templates_ m + length args) 0) as [H0|].
  { intros [= <-]. split; [done|]. split; [done|]. cbn [num_templates_]. lia. }
  set (m2 := MkRewrite _ _ _ _ _). destruct (fill_slots_spec (kNumSlots - (num_templates_ m + length args)) (num_templates_ m + length args) m2) as (m3 & -> & Ha3 & Hn3 & _ & Hlow & Hhigh).
  - exact Ha1.
  - exact Hf1.
  - cbn [num_templates_ m2]. lia.
  - lia.
  - cbn [mbind option_bind]. intros [= <-]. split; [done|]. split; [done|]. intros k Hk _. rewrite Hn3. cbn [num_templates_ m2].
    destruct (Nat.ltb_spec k (num_templates_ m + length args)) as [Hlt|Hge].
    + destruct (Hlow k Hlt) as (-> & _). cbn [jump_ m2]. by rewrite Hj1.
    + apply Hhigh. lia.
Qed.

(** A batch with fewer packets than templates are left takes the next turn from a slot that is
    never set: with zeroed memory, the module starts over with the first template. *)
Definition ex_rewrite : Rewrite := match rewrite_add (rewrite_new (replicate kNumSlots 0%nat)) [[65]; [66]] with Some (m, _) => m | None => rewrite_new [] end.
Lemma rewrite_starts_over : exists m q, rewrite_process (fun _ => 0%nat) ex_rewrite [packet_of [1; 2; 3]] = Some (m, [q]) /\
  frame q = [65] /\ next_turn_ m = 0%nat.
Proof. eexists _, _. split; [vm_compute; reflexivity|]. split; vm_compute; reflexivity. Qed.
