(* ===== verification/Ports.v ===== *)
(** Ports and the modules that use them: [core/port.h], [core/port.cc], [create_port], [CreatePort],
    [DestroyPort], [ResetPorts], [GetPortStats] and [SetPortConf] of [core/bessctl.cc],
    [core/modules/port_inc.cc], [port_out.cc], [queue_inc.cc] and [queue_out.cc], and
    [PMDPort::UpdateConf] of [core/drivers/pmd.cc].

    A module is known to a port by its address, here a number.  [None] is an index out of an
    array, a failed [CHECK] or a use of a port that was deleted.  What a driver does with its
    queues is the class [Driver]. *)
From stdpp Require Import strings pretty.
From S2P Require Import Prelude Common PacketBuf Dataflow.
Open Scope Z_scope.

Definition MAX_QUEUES_PER_DIR : Z := 32.
Definition MAX_QUEUE_SIZE : Z := 4096.
Definition kMaxWorkers : nat := 64.
Definition kMaxBurst : Z := 32.
Definition DRIVER_FLAG_SELF_INC_STATS : Z := 1.
Definition DRIVER_FLAG_SELF_OUT_STATS : Z := 2.

Inductive errno := EINVAL | EBUSY | ENODEV | ENOENT.

Inductive packet_dir_t := PACKET_DIR_INC | PACKET_DIR_OUT.
Record QueueStats := MkStats { packets : Z; dropped : Z; bytes_ : Z }.
Definition no_stats : QueueStats := MkStats 0 0 0.
Definition add_stats (x y : QueueStats) : QueueStats :=
  MkStats (u64 (packets x + packets y)) (u64 (dropped x + dropped y)) (u64 (bytes_ x + bytes_ y)).

(** The elements of [num_queues], [queue_size], [users] and [queue_stats] for one direction. *)
Record queues := MkQueues { num_queues : Z; queue_size : Z; users : list (option nat); queue_stats : list QueueStats }.
Record Conf := MkConf { mac_addr : list Z; mtu : Z; admin_up : bool }.
Record Port := MkPort { name_ : string; conf_ : Conf; port_stats_ : QueueStats * QueueStats; inc : queues; out : queues }.

Definition on (d : packet_dir_t) (p : Port) : queues := match d with PACKET_DIR_INC => inc p | PACKET_DIR_OUT => out p end.
Definition with_queues (d : packet_dir_t) (q : queues) (p : Port) : Port :=
  match d with
  | PACKET_DIR_INC => MkPort (name_ p) (conf_ p) (port_stats_ p) q (out p)
  | PACKET_DIR_OUT => MkPort (name_ p) (conf_ p) (port_stats_ p) (inc p) q
  end.
Definition with_users (l : list (option nat)) (q : queues) : queues := MkQueues (num_queues q) (queue_size q) l (queue_stats q).

(** ** The users of the queues *)

(** [queues == nullptr] is for all queues. *)
Definition all_queues (q : queues) : list Z := seqZ 0 (num_queues q).

Definition check_user (m : nat) (q : queues) (qid : Z) : option (errno + unit) :=
  user ← users q !! Z.to_nat qid;
  Some (match user with Some m' => if (m' =? m)%nat then inr tt else inl EBUSY | None => inr tt end).

Fixpoint check_all (m : nat) (q : queues) (qids : list Z) : option (errno + unit) :=
  match qids with
  | [] => Some (inr tt)
  | qid :: qids => e ← check_user m q qid; match e with inl e => Some (inl e) | inr _ => check_all m q qids end
  end.
Fixpoint check_listed (m : nat) (q : queues) (qids : list Z) : option (errno + unit) :=
  match qids with
  | [] => Some (inr tt)
  | qid :: qids =>
      if num_queues q <=? qid then Some (inl EINVAL)
      else e ← check_user m q qid; match e with inl e => Some (inl e) | inr _ => check_listed m q qids end
  end.

Definition set_user (u : option nat) (q : queues) (qid : Z) : queues := with_users (<[Z.to_nat qid := u]> (users q)) q.

Definition AcquireQueues (m : nat) (d : packet_dir_t) (qids : option (list Z)) (p : Port) : option (Port * (errno + unit)) :=
  let q := on d p in
  let qs := default (all_queues q) qids in
  e ← match qids with None => check_all m q qs | Some l => check_listed m q l end;
  match e with
  | inl e => Some (p, inl e)
  | inr _ => Some (with_queues d (fold_left (set_user (Some m)) qs q) p, inr tt)
  end.

(** A queue that another module has is left alone. *)
Definition release_one (m : nat) (q : queues) (qid : Z) : option queues :=
  user ← users q !! Z.to_nat qid;
  Some (if bool_decide (user = Some m) then set_user None q qid else q).
Fixpoint release_loop (m : nat) (q : queues) (qids : list Z) : option queues :=
  match qids with
  | [] => Some q
  | qid :: qids => if num_queues q <=? qid then release_loop m q qids else q ← release_one m q qid; release_loop m q qids
  end.
Definition ReleaseQueues (m : nat) (d : packet_dir_t) (qids : option (list Z)) (p : Port) : option Port :=
  q ← release_loop m (on d p) (default (all_queues (on d p)) qids); Some (with_queues d q p).

(** [CollectStats] is the driver's: it gives the counters that belong to no queue. *)
Definition sum_stats (s : QueueStats) (q : queues) : QueueStats :=
  fold_left add_stats (take (Z.to_nat (num_queues q)) (queue_stats q)) s.
Definition GetPortStats (collected : QueueStats * QueueStats) (p : Port) : QueueStats * QueueStats :=
  (sum_stats collected.1 (inc p), sum_stats collected.2 (out p)).

(** ** The modules *)
Inductive module_state :=
  | PortInc (port_ : nat) (burst_ : Z)
  | QueueInc (port_ : nat) (qid_ : Z) (burst_ : Z)
  | PortOut (port_ : nat) (available_queues_ : list Z) (worker_queues_ : list Z)
  | QueueOut (port_ : nat) (qid_ : Z).

Record net := MkNet { objs : gmap nat Port; all_ports_ : gmap string nat; next_port : nat; mods : gmap nat module_state }.

Definition with_obj (a : nat) (p : Port) (s : net) : net := MkNet (<[a := p]> (objs s)) (all_ports_ s) (next_port s) (mods s).
Definition with_mod (m : nat) (x : module_state) (s : net) : net := MkNet (objs s) (all_ports_ s) (next_port s) (<[m := x]> (mods s)).

Definition port_of (x : module_state) : nat :=
  match x with PortInc a _ | QueueInc a _ _ | PortOut a _ _ | QueueOut a _ => a end.
Definition dir_of (x : module_state) : packet_dir_t :=
  match x with PortInc _ _ | QueueInc _ _ _ => PACKET_DIR_INC | PortOut _ _ _ | QueueOut _ _ => PACKET_DIR_OUT end.
(** What the module passes to [AcquireQueues] and [ReleaseQueues]. *)
Definition qids_of (x : module_state) : option (list Z) :=
  match x with PortInc _ _ | PortOut _ _ _ => None | QueueInc _ qid _ | QueueOut _ qid => Some [qid] end.

Inductive module_kind := KPortInc | KQueueInc | KPortOut | KQueueOut.

(** The object that [Init] has built when it calls [AcquireQueues]. *)
Definition built (k : module_kind) (a : nat) (p : Port) (qid : Z) : module_state :=
  match k with
  | KPortInc => PortInc a kMaxBurst
  | KQueueInc => QueueInc a (u8 qid) kMaxBurst
  | KPortOut => PortOut a (all_queues (out p)) (replicate kMaxWorkers (-1))
  | KQueueOut => QueueOut a (u8 qid)
  end.
Definition needs_queue (k : module_kind) (p : Port) : bool :=
  match k with
  | KPortInc => negb (num_queues (inc p) =? 0)
  | KPortOut => negb (num_queues (out p) =? 0)
  | KQueueInc | KQueueOut => true
  end.

(** [Init] of each module, and its deletion by [CreateModule] when it fails. *)
Definition Init (k : module_kind) (m : nat) (port : string) (qid : Z) (s : net) : option (net * (errno + unit)) :=
  if bool_decide (port = ""%string) then Some (s, inl EINVAL)
  else match all_ports_ s !! port with
  | None => Some (s, inl ENODEV)
  | Some a =>
      p ← objs s !! a;
      if negb (needs_queue k p) then Some (s, inl ENODEV)
      else
        let x := built k a p qid in
        '(p, e) ← AcquireQueues m (dir_of x) (qids_of x) p;
        match e with
        | inl e => Some (s, inl e)
        | inr _ => Some (with_mod m x (with_obj a p s), inr tt)
        end
  end.

Definition PortInc_Init := Init KPortInc.
Definition QueueInc_Init := Init KQueueInc.
Definition PortOut_Init := Init KPortOut.
Definition QueueOut_Init := Init KQueueOut.

(** [DeInit], and the deletion of the module. *)
Definition DeInit (m : nat) (s : net) : option net :=
  x ← mods s !! m;
  p ← objs s !! port_of x;
  p ← ReleaseQueues m (dir_of x) (qids_of x) p;
  Some (MkNet (<[port_of x := p]> (objs s)) (all_ports_ s) (next_port s) (delete m (mods s))).

Definition CommandSetBurst (x : module_state) (burst : Z) : module_state * (errno + unit) :=
  if kMaxBurst <? burst then (x, inl EINVAL)
  else match x with
  | PortInc a _ => (PortInc a burst, inr tt)
  | QueueInc a qid _ => (QueueInc a qid burst, inr tt)
  | _ => (x, inl EINVAL)
  end.

(** ** Creating and destroying ports *)
Definition AddPort (a : nat) (p : Port) (s : net) : net * bool :=
  match all_ports_ s !! name_ p with
  | Some _ => (s, false)
  | None => (MkNet (objs s) (<[name_ p := a]> (all_ports_ s)) (next_port s) (mods s), true)
  end.

Definition in_use (q : queues) : bool := existsb (fun u => bool_decide (u <> None)) (take (Z.to_nat (num_queues q)) (users q)).

Definition DestroyPort (a : nat) (s : net) : option (net * (errno + unit)) :=
  p ← objs s !! a;
  if in_use (inc p) || in_use (out p) then Some (s, inl EBUSY)
  else Some (MkNet (delete a (objs s)) (delete (name_ p) (all_ports_ s)) (next_port s) (mods s), inr tt).

(** The request of the same name. *)
Definition DestroyPort_request (name : string) (s : net) : option (net * (errno + unit)) :=
  if bool_decide (name = ""%string) then Some (s, inl EINVAL)
  else match all_ports_ s !! name with None => Some (s, inl ENOENT) | Some a => DestroyPort a s end.

(** The ports in the order of the map, until one is in use. *)
Fixpoint reset_loop (ports : list nat) (s : net) : option (net * (errno + unit)) :=
  match ports with
  | [] => Some (s, inr tt)
  | a :: ports => '(s, e) ← DestroyPort a s; match e with inl e => Some (s, inl e) | inr _ => reset_loop ports s end
  end.
Definition ResetPorts (order : gmap string nat -> list nat) (s : net) : option (net * (errno + unit)) := reset_loop (order (all_ports_ s)) s.

(** ** Default names *)
Definition islower (c : Ascii.ascii) : bool := let n := Ascii.nat_of_ascii c in (97 <=? n)%nat && (n <=? 122)%nat.
Definition isupper (c : Ascii.ascii) : bool := let n := Ascii.nat_of_ascii c in (65 <=? n)%nat && (n <=? 90)%nat.
Definition tolower (c : Ascii.ascii) : Ascii.ascii := if isupper c then Ascii.ascii_of_nat (Ascii.nat_of_ascii c + 32) else c.

Fixpoint snake (last : option Ascii.ascii) (s : string) : string :=
  match s with
  | EmptyString => EmptyString
  | String t s =>
      let rest := String (tolower t) (snake (Some t) s) in
      match last with Some c => if islower c && isupper t then String (Ascii.ascii_of_nat 95) rest else rest | None => rest end
  end.
Definition template (driver_name default_template : string) : string :=
  if bool_decide (default_template = ""%string) then snake None driver_name else default_template.

(** The first [i] whose name is free; [fuel] bounds the loop. *)
Fixpoint free_name (fuel : nat) (ports : gmap string nat) (t : string) (i : nat) : option string :=
  match fuel with
  | O => None
  | S fuel => let name := (t ++ pretty i)%string in match ports !! name with None => Some name | Some _ => free_name fuel ports t (S i) end
  end.
Definition GenerateDefaultPortName (driver_name default_template : string) (s : net) : option string :=
  free_name (S (size (all_ports_ s))) (all_ports_ s) (template driver_name default_template) 0.

(** ** create_port *)

(** What the driver's class says: its name, its template and the default sizes of the queues. *)
Record PortBuilder := MkBuilder { class_name : string; name_template : string; DefaultIncQueueSize : Z; DefaultOutQueueSize : Z }.

Definition new_queues (n size : Z) : queues := MkQueues n size (replicate 32 None) (replicate 32 no_stats).
Definition new_port (name : string) (mac : list Z) (iq oq : queues) : Port := MkPort name (MkConf mac 1500 true) (no_stats, no_stats) iq oq.

(** [init] is the driver's [Init] with the argument of the request; [mac] is the random address. *)
Definition create_port (init : Port -> errno + unit) (mac : list Z) (b : PortBuilder) (name : string) (num_inc_q num_out_q size_inc_q size_out_q : Z) (s : net)
    : option (net * (errno + option nat)) :=
  let num_inc_q := u8 num_inc_q in
  let num_out_q := u8 num_out_q in
  let num_inc_q := if num_inc_q =? 0 then 1 else num_inc_q in
  let num_out_q := if num_out_q =? 0 then 1 else num_out_q in
  if (MAX_QUEUES_PER_DIR <? num_inc_q) || (MAX_QUEUES_PER_DIR <? num_out_q) then Some (s, inl EINVAL)
  else if (MAX_QUEUE_SIZE <? size_inc_q) || (MAX_QUEUE_SIZE <? size_out_q) then Some (s, inl EINVAL)
  else
    (* [p.reset] of the port of that name: the next [reset] deletes it *)
    let '(s, port_name) :=
      if (0 <? String.length name)%nat then
        (match all_ports_ s !! name with
         | Some old => MkNet (delete old (objs s)) (all_ports_ s) (next_port s) (mods s)
         | None => s
         end, Some name)
      else (s, GenerateDefaultPortName (class_name b) (name_template b) s) in
    port_name ← port_name;
    let size_inc_q := if size_inc_q =? 0 then DefaultIncQueueSize b else size_inc_q in
    let size_out_q := if size_out_q =? 0 then DefaultOutQueueSize b else size_out_q in
    let p := new_port port_name mac (new_queues num_inc_q size_inc_q) (new_queues num_out_q size_out_q) in
    match init p with
    | inl e => Some (s, inl e)
    | inr _ =>
        let a := next_port s in
        let '(s, ok) := AddPort a p s in
        if ok then Some (MkNet (<[a := p]> (objs s)) (all_ports_ s) (S a) (mods s), inr (Some a)) else Some (s, inr None)
    end.

Definition CreatePort (builders : gmap string PortBuilder) (init : string -> Port -> errno + unit) (mac : list Z) (driver name : string)
    (num_inc_q num_out_q size_inc_q size_out_q : Z) (s : net) : option (net * (errno + option nat)) :=
  if bool_decide (driver = ""%string) then Some (s, inl EINVAL)
  else match builders !! driver with
  | None => Some (s, inl ENOENT)
  | Some b => create_port (init driver) mac b name num_inc_q num_out_q size_inc_q size_out_q s
  end.

(** ** The queues of the workers of PortOut *)

(** The first loop of [OnEvent] takes back the queues of the workers that left. *)
Fixpoint reclaim (actives : list bool) (wq avail : list Z) : list Z * list Z :=
  match actives, wq with
  | active :: actives, w :: wq =>
      if active then let r := reclaim actives wq avail in (w :: r.1, r.2)
      else
        let avail := if 0 <=? w then avail ++ [u8 w] else avail in
        let r := reclaim actives wq avail in (-1 :: r.1, r.2)
  | _, _ => (wq, avail)
  end.

(** The second gives one to each worker that came; [CHECK] that one is left. *)
Fixpoint assign (actives : list bool) (wq avail : list Z) : option (list Z * list Z) :=
  match actives, wq with
  | active :: actives, w :: wq =>
      if active && (w <? 0) then
        q ← last avail;
        r ← assign actives wq (removelast avail); Some (q :: r.1, r.2)
      else r ← assign actives wq avail; Some (w :: r.1, r.2)
  | _, _ => Some (wq, avail)
  end.

Definition OnEvent (actives : list bool) (x : module_state) : option module_state :=
  match x with
  | PortOut a avail wq =>
      let r := reclaim actives wq avail in
      r ← assign actives r.1 r.2; Some (PortOut a r.2 r.1)
  | _ => Some x
  end.

(** ** Packets *)
Class Driver (dev : Type) := {
  RecvPackets : dev -> Z -> Z -> list Packet * dev;
  SendPackets : dev -> Z -> list Packet -> Z * dev;
  GetFlags : Z }.

(** A driver gives no more packets than it is asked for, and takes no more than it is given, the first of them. *)
Class DriverLaws (dev : Type) {D : Driver dev} : Prop := {
  recv_burst : forall d qid burst, 0 <= burst -> Z.of_nat (length (RecvPackets d qid burst).1) <= burst;
  sent_range : forall d qid pkts, 0 <= (SendPackets d qid pkts).1 <= Z.of_nat (length pkts) }.

Section packets.
Context {dev : Type} `{D : Driver dev}.

Fixpoint sum_lens (pkts : list Packet) (acc : Z) : Z :=
  match pkts with [] => acc | p :: pkts => sum_lens pkts (u64 (acc + total_len p)) end.

Definition update_stats (f : QueueStats -> QueueStats) (qid : Z) (q : queues) : option queues :=
  st ← queue_stats q !! Z.to_nat qid;
  Some (MkQueues (num_queues q) (queue_size q) (users q) (<[Z.to_nat qid := f st]> (queue_stats q))).

(** What [PortOut] and [QueueOut] do after they have chosen the queue and whether to send. *)
Definition send_batch (may_send : bool) (qid : Z) (d : dev) (p : Port) (batch : list Packet) : option (dev * Port * list (action Packet)) :=
  let cnt := Z.of_nat (length batch) in
  let '(sent_pkts, d) := if may_send then SendPackets d qid batch else (0, d) in
  p ← (if Z.land GetFlags DRIVER_FLAG_SELF_OUT_STATS =? 0 then
         let sent_bytes := sum_lens (take (Z.to_nat sent_pkts) batch) 0 in
         q ← update_stats (fun st => MkStats (u64 (packets st + sent_pkts)) (u64 (dropped st + (cnt - sent_pkts))) (u64 (bytes_ st + sent_bytes))) qid (out p);
         Some (with_queues PACKET_DIR_OUT q p)
       else Some p);
  Some (d, p, if sent_pkts <? cnt then [Free (drop (Z.to_nat sent_pkts) batch)] else []).

Definition PortOut_ProcessBatch (wq : list Z) (wid : nat) (d : dev) (p : Port) (batch : list Packet) : option (dev * Port * list (action Packet)) :=
  w ← wq !! wid;
  let qid := u8 w in
  send_batch ((qid <? num_queues (out p)) && admin_up (conf_ p)) qid d p batch.
Definition QueueOut_ProcessBatch (qid : Z) (d : dev) (p : Port) (batch : list Packet) : option (dev * Port * list (action Packet)) :=
  send_batch (admin_up (conf_ p)) qid d p batch.
Definition ProcessBatch (x : module_state) (wid : nat) (d : dev) (p : Port) (batch : list Packet) : option (dev * Port * list (action Packet)) :=
  match x with
  | PortOut _ _ wq => PortOut_ProcessBatch wq wid d p batch
  | QueueOut _ qid => QueueOut_ProcessBatch qid d p batch
  | _ => None
  end.

(** The packets of a queue go to the next module; the result is that of the task: whether it
    blocks, the packets and the bits, with 24 bytes of overhead for each. *)
Definition recv_batch (qid burst : Z) (d : dev) (p : Port) : option (dev * Port * list (action Packet) * (bool * Z * Z)) :=
  let '(batch, d) := RecvPackets d qid burst in
  let cnt := Z.of_nat (length batch) in
  if cnt =? 0 then Some (d, p, [], (true, 0, 0))
  else
    let received_bytes := sum_lens batch 0 in
    p ← (if Z.land GetFlags DRIVER_FLAG_SELF_INC_STATS =? 0 then
           q ← update_stats (fun st => MkStats (u64 (packets st + cnt)) (dropped st) (u64 (bytes_ st + received_bytes))) qid (inc p);
           Some (with_queues PACKET_DIR_INC q p)
         else Some p);
    Some (d, p, [RunChoose O batch], (false, cnt, u64 ((received_bytes + u32 (cnt * 24)) * 8))).

(** [arg] is the queue that the task was registered with. *)
Definition PortInc_RunTask (burst children_overload arg : Z) (d : dev) (p : Port) : option (dev * Port * list (action Packet) * (bool * Z * Z)) :=
  if 0 <? children_overload then Some (d, p, [], (true, 0, 0))
  else if negb (admin_up (conf_ p)) then Some (d, p, [], (true, 0, 0))
  else recv_batch (u8 arg) burst d p.
Definition QueueInc_RunTask (burst arg : Z) (d : dev) (p : Port) : option (dev * Port * list (action Packet) * (bool * Z * Z)) :=
  if negb (admin_up (conf_ p)) then Some (d, p, [], (true, 0, 0)) else recv_batch (u8 arg) burst d p.
Definition RunTask (x : module_state) (children_overload arg : Z) (d : dev) (p : Port) : option (dev * Port * list (action Packet) * (bool * Z * Z)) :=
  match x with
  | PortInc _ burst => PortInc_RunTask burst children_overload arg d p
  | QueueInc _ _ burst => QueueInc_RunTask burst arg d p
  | _ => None
  end.
End packets.

(** ** The configuration of a port *)

(** [set_mtu], [set_mac] and [start] are the calls of the DPDK device: 0, or an error. *)
Definition UpdateConf (set_mtu : Z -> Z) (set_mac : list Z -> Z) (start : Z) (conf : Conf) (c : Conf) : Conf * Z :=
  let r1 := if negb (mtu c =? mtu conf) && negb (mtu conf =? 0) then set_mtu (mtu conf) else 0 in
  if negb (r1 =? 0) then (c, r1)
  else
    let change := negb (bool_decide (mac_addr c = mac_addr conf)) && negb (forallb (Z.eqb 0) (mac_addr conf)) in
    let r2 := if change then set_mac (mac_addr conf) else 0 in
    if negb (r2 =? 0) then (c, r2)
    else
      let c := if change then MkConf (mac_addr conf) (mtu c) (admin_up c) else c in
      if admin_up conf then if start =? 0 then (MkConf (mac_addr c) (mtu c) true, 0) else (c, start) else (c, 0).

(** ** Facts about the queues *)

(** The queues that a call of [AcquireQueues] or [ReleaseQueues] is about. *)
Definition selected (qids : option (list Z)) (num : Z) (i : nat) : Prop :=
  match qids with None => Z.of_nat i < num | Some l => Z.of_nat i ∈ l end.
#[export] Instance selected_dec qids num i : Decision (selected qids num i).
Proof. unfold selected. destruct qids; apply _. Defined.

Record queues_ok (q : queues) : Prop := {
  qo_num : 0 < num_queues q <= MAX_QUEUES_PER_DIR;
  qo_users : length (users q) = 32%nat;
  qo_stats : length (queue_stats q) = 32%nat }.
Record port_ok (p : Port) : Prop := { po_inc : queues_ok (inc p); po_out : queues_ok (out p) }.

Lemma port_ok_on d p : port_ok p -> queues_ok (on d p).
Proof. by destruct d; intros []. Qed.

#[export] Instance dir_dec : EqDecision packet_dir_t.
Proof. solve_decision. Defined.

Lemma on_with_queues d d' q p : on d' (with_queues d q p) = if decide (d = d') then q else on d' p.
Proof. by destruct d, d'. Qed.

Lemma elem_all_queues q qid : qid ∈ all_queues q <-> 0 <= qid < num_queues q.
Proof. unfold all_queues. rewrite elem_of_seqZ. lia. Qed.

(** The queues before and after differ in their users only, which [f] gives. *)
Record same_but_users (q q' : queues) (f : nat -> option (option nat)) : Prop := {
  sb_num : num_queues q' = num_queues q;
  sb_size : queue_size q' = queue_size q;
  sb_stats : queue_stats q' = queue_stats q;
  sb_users : forall i, users q' !! i = f i;
  sb_length : length (users q') = length (users q) }.

Lemma set_user_loop u qids q : Forall (fun qid => 0 <= qid) qids ->
  same_but_users q (fold_left (set_user u) qids q) (fun i => if decide (Z.of_nat i ∈ qids) then (fun _ => u) <$> users q !! i else users q !! i).
Proof.
  revert q. induction qids as [|qid qids IH]; intros q Hq; cbn [fold_left].
  - split; try done.
  - apply Forall_cons in Hq as [H0 Hq]. destruct (IH (set_user u q qid) Hq) as [H1 H2 H3 H4 H5]. split; try done.
    + intros i. rewrite H4. unfold set_user. cbn [with_users users].
      destruct (decide (Z.of_nat i = qid)) as [<-|Hne].
      * rewrite Nat2Z.id. rewrite (decide_True (P := Z.of_nat i ∈ Z.of_nat i :: qids)) by left.
        destruct (decide (i < length (users q))%nat) as [Hi|Hi].
        -- rewrite list_lookup_insert_eq by done. destruct (lookup_lt_is_Some_2 (users q) i Hi) as [x ->]. cbn. by destruct (decide _).
        -- rewrite list_insert_ge by lia. rewrite (lookup_ge_None_2 (users q)) by lia. cbn. by destruct (decide _).
      * rewrite list_lookup_insert_ne by lia. destruct (decide (Z.of_nat i ∈ qids)) as [Hin|Hin].
        -- by rewrite decide_True by (by right).
        -- by rewrite decide_False by (by intros [?|?]%elem_of_cons).
    + rewrite H5. unfold set_user. cbn. by rewrite length_insert.
Qed.

Lemma check_user_spec m q qid : (Z.to_nat qid < length (users q))%nat -> exists e, check_user m q qid = Some e /\
  match e with
  | inl e => e = EBUSY /\ exists m', users q !! Z.to_nat qid = Some (Some m') /\ m' <> m
  | inr _ => users q !! Z.to_nat qid = Some None \/ users q !! Z.to_nat qid = Some (Some m)
  end.
Proof.
  intros [u Hu]%lookup_lt_is_Some_2. unfold check_user. rewrite Hu. cbn [mbind option_bind].
  eexists. split; [done|]. destruct u as [m'|]; [|by left]. destruct (Nat.eqb_spec m' m) as [->|]; [by right|].
  split; [done|]. by exists m'.
Qed.

(** Every queue that is asked for exists and is free, or some queue is not. *)
Definition checked (m : nat) (q : queues) (qids : list Z) (e : errno + unit) : Prop :=
  match e with
  | inl EBUSY => exists qid m', qid ∈ qids /\ users q !! Z.to_nat qid = Some (Some m') /\ m' <> m
  | inl EINVAL => exists qid, qid ∈ qids /\ num_queues q <= qid
  | inl _ => False
  | inr _ => forall qid, qid ∈ qids -> qid < num_queues q /\ (users q !! Z.to_nat qid = Some None \/ users q !! Z.to_nat qid = Some (Some m))
  end.

Lemma checked_cons m q qid qids e : qid < num_queues q -> users q !! Z.to_nat qid = Some None \/ users q !! Z.to_nat qid = Some (Some m) ->
  checked m q qids e -> checked m q (qid :: qids) e.
Proof.
  intros Hlt Hu. destruct e as [[]|]; cbn; try done.
  - intros (x & ? & ?). exists x. split; [by right|done].
  - intros (x & m' & ? & ?). exists x, m'. split; [by right|done].
  - intros H x [->|Hx]%elem_of_cons; [done|by apply H].
Qed.

Lemma check_all_spec m q qids : Forall (fun qid => 0 <= qid < num_queues q) qids -> num_queues q <= Z.of_nat (length (users q)) ->
  exists e, check_all m q qids = Some e /\ checked m q qids e.
Proof.
  intros Hq Hlen. induction qids as [|qid qids IH]; cbn [check_all].
  - exists (inr tt). split; [done|]. by intros x ?%not_elem_of_nil.
  - apply Forall_cons in Hq as [H0 Hq]. destruct (IH Hq) as (e2 & He2 & Hc2).
    destruct (check_user_spec m q qid) as (e & -> & He); [lia|]. cbn [mbind option_bind]. destruct e as [e|].
    + destruct He as (-> & m' & ? & ?). eexists. split; [done|]. exists qid, m'. split; [by left|done].
    + exists e2. split; [done|]. apply checked_cons; [lia|done|done].
Qed.

Lemma check_listed_spec m q qids : Forall (fun qid => 0 <= qid) qids -> num_queues q <= Z.of_nat (length (users q)) ->
  exists e, check_listed m q qids = Some e /\ checked m q qids e.
Proof.
  intros Hq Hlen. induction qids as [|qid qids IH]; cbn [check_listed].
  - exists (inr tt). split; [done|]. by intros x ?%not_elem_of_nil.
  - apply Forall_cons in Hq as [H0 Hq]. destruct (IH Hq) as (e2 & He2 & Hc2).
    destruct (Z.leb_spec (num_queues q) qid) as [Hle|Hlt].
    { eexists. split; [done|]. exists qid. split; [by left|done]. }
    destruct (check_user_spec m q qid) as (e & -> & He); [lia|]. cbn [mbind option_bind]. destruct e as [e|].
    + destruct He as (-> & m' & ? & ?). eexists. split; [done|]. exists qid, m'. split; [by left|done].
    + exists e2. split; [done|]. apply checked_cons; [lia|done|done].
Qed.

Lemma AcquireQueues_spec m d qids p : port_ok p -> Forall (fun qid => 0 <= qid) (default [] qids) ->
  exists p' e, AcquireQueues m d qids p = Some (p', e) /\ checked m (on d p) (default (all_queues (on d p)) qids) e /\
    match e with
    | inl _ => p' = p
    | inr _ => exists q', p' = with_queues d q' p /\ same_but_users (on d p) q'
        (fun i => if decide (selected qids (num_queues (on d p)) i) then Some (Some m) else users (on d p) !! i)
    end.
Proof.
  intros Hp Hq. destruct (port_ok_on d p Hp) as [Hn Hu _]. unfold MAX_QUEUES_PER_DIR in Hn. unfold AcquireQueues.
  set (q := on d p) in *. set (qs := default (all_queues q) qids).
  assert (Hqs : Forall (fun qid => 0 <= qid) qs).
  { destruct qids as [l|]; [done|]. apply Forall_forall. intros x Hx%elem_all_queues. lia. }
  assert (Hcheck : exists e, match qids with None => check_all m q qs | Some l => check_listed m q l end = Some e /\ checked m q qs e).
  { destruct qids as [l|]; [apply check_listed_spec; [done|lia]|]. apply check_all_spec; [|lia].
    apply Forall_forall. intros x Hx%elem_all_queues. lia. }
  destruct Hcheck as (e & -> & He). cbn [mbind option_bind]. destruct e as [e|[]].
  - by exists p, (inl e).
  - eexists _, (inr tt). split; [done|]. split; [done|]. eexists. split; [done|].
    destruct (set_user_loop (Some m) qs q Hqs) as [H1 H2 H3 H4 H5]. split; try done.
    intros i. rewrite H4. assert (Z.of_nat i ∈ qs <-> selected qids (num_queues q) i) as Hiff.
    { unfold qs. destruct qids as [l|]; cbn; [done|]. rewrite elem_all_queues. lia. }
    destruct (decide (Z.of_nat i ∈ qs)) as [Hin|Hin].
    + rewrite decide_True by (by apply Hiff). destruct (He _ Hin) as [_ Hx]. rewrite Nat2Z.id in Hx. by destruct Hx as [-> | ->].
    + by rewrite decide_False by (by rewrite <- Hiff).
Qed.

Lemma release_one_spec m q qid : (Z.to_nat qid < length (users q))%nat -> exists q', release_one m q qid = Some q' /\
  same_but_users q q' (fun i => if decide (i = Z.to_nat qid /\ users q !! i = Some (Some m)) then Some None else users q !! i).
Proof.
  intros Hlt. destruct (lookup_lt_is_Some_2 _ _ Hlt) as [u Hu]. unfold release_one. rewrite Hu. cbn [mbind option_bind].
  eexists. split; [done|]. case_bool_decide as Hm; split; try done; cbn.
  - intros i. subst u. destruct (decide (i = Z.to_nat qid)) as [->|Hne].
    + by rewrite list_lookup_insert_eq, decide_True by done.
    + by rewrite list_lookup_insert_ne, decide_False by (done || by intros []).
  - by rewrite length_insert.
  - intros i. rewrite decide_False; [done|]. intros [-> ?]. congruence.
Qed.

Lemma release_loop_spec m qids q : Forall (fun qid => 0 <= qid) qids -> num_queues q <= Z.of_nat (length (users q)) ->
  exists q', release_loop m q qids = Some q' /\ same_but_users q q'
    (fun i => if decide (Z.of_nat i ∈ qids /\ Z.of_nat i < num_queues q /\ users q !! i = Some (Some m)) then Some None else users q !! i).
Proof.
  revert q. induction qids as [|qid qids IH]; intros q Hq Hlen; cbn [release_loop].
  - exists q. split; [done|]. by split.
  - apply Forall_cons in Hq as [H0 Hq]. destruct (Z.leb_spec (num_queues q) qid) as [Hle|Hlt].
    + destruct (IH q Hq Hlen) as (q' & -> & [H1 H2 H3 H4 H5]). exists q'. split; [done|]. split; try done. intros i. rewrite H4.
      apply decide_ext. rewrite elem_of_cons. split; [tauto|]. intros ([Hi|?] & ? & ?); [lia|done].
    + destruct (release_one_spec m q qid) as (q1 & -> & [G1 G2 G3 G4 G5]); [lia|]. cbn [mbind option_bind].
      destruct (IH q1 Hq) as (q' & -> & [H1 H2 H3 H4 H5]); [congruence|]. exists q'. split; [done|].
      split; try congruence. intros i. rewrite H4, !G4, G1.
      destruct (decide (i = Z.to_nat qid /\ users q !! i = Some (Some m))) as [[-> Hu]|Hn].
      * rewrite decide_False by (by intros (_ & _ & ?)). rewrite decide_True; [done|]. rewrite Z2Nat.id by done.
        split; [by left|done].
      * apply decide_ext. rewrite elem_of_cons. split; [tauto|]. intros ([Hi|?] & ? & Hm); [|done].
        destruct Hn. split; [lia|done].
Qed.

Lemma ReleaseQueues_spec m d qids p : port_ok p -> Forall (fun qid => 0 <= qid) (default [] qids) ->
  exists q', ReleaseQueues m d qids p = Some (with_queues d q' p) /\ same_but_users (on d p) q'
    (fun i => if decide (selected qids (num_queues (on d p)) i /\ Z.of_nat i < num_queues (on d p) /\ users (on d p) !! i = Some (Some m))
              then Some None else users (on d p) !! i).
Proof.
  intros Hp Hq. destruct (port_ok_on d p Hp) as [Hn Hu _]. unfold MAX_QUEUES_PER_DIR in Hn. unfold ReleaseQueues.
  set (q := on d p) in *. set (qs := default (all_queues q) qids).
  assert (Hqs : Forall (fun qid => 0 <= qid) qs).
  { destruct qids as [l|]; [done|]. apply Forall_forall. intros x Hx%elem_all_queues. lia. }
  destruct (release_loop_spec m qs q Hqs) as (q' & -> & [H1 H2 H3 H4 H5]); [lia|]. exists q'. split; [done|].
  split; try done. intros i. rewrite H4. apply decide_ext. unfold qs. destruct qids as [l|]; cbn; [done|].
  rewrite elem_all_queues. split; [intros ([? ?] & ? & ?)|intros (? & ? & ?)]; (split; [lia|done]).
Qed.

(** ** The invariant *)

(** Module [x] has queue [i] of direction [d] of its port, which has [num] of them. *)
Definition claims (num : Z) (x : module_state) (d : packet_dir_t) (i : nat) : Prop :=
  dir_of x = d /\ Z.of_nat i < num /\ selected (qids_of x) num i.

Record NInv (s : net) : Prop := {
  ni_names : forall n a, all_ports_ s !! n = Some a -> exists p, objs s !! a = Some p /\ name_ p = n;
  ni_objs : forall a p, objs s !! a = Some p -> all_ports_ s !! name_ p = Some a /\ port_ok p;
  ni_fresh : forall a, (next_port s <= a)%nat -> objs s !! a = None;
  ni_mods : forall m x, mods s !! m = Some x -> exists p, objs s !! port_of x = Some p /\
    Forall (fun qid => 0 <= qid < num_queues (on (dir_of x) p)) (default [] (qids_of x));
  ni_users : forall a p d i m, objs s !! a = Some p -> users (on d p) !! i = Some (Some m) <->
    exists x, mods s !! m = Some x /\ port_of x = a /\ claims (num_queues (on d p)) x d i }.

Lemma claims_queue num x : 0 < num -> Forall (fun qid => 0 <= qid < num) (default [] (qids_of x)) -> exists i, claims num x (dir_of x) i.
Proof.
  intros Hn Hq. unfold claims, selected. destruct x as [a b|a q b|a av w|a q]; cbn [dir_of qids_of from_option id] in *.
  - exists 0%nat. split; [done|]. split; cbn; lia.
  - apply Forall_singleton in Hq as [Hq0 Hq1]. exists (Z.to_nat q). rewrite Z2Nat.id by lia. split; [done|]. split; [lia|]. by rewrite list_elem_of_singleton.
  - exists 0%nat. split; [done|]. split; cbn; lia.
  - apply Forall_singleton in Hq as [Hq0 Hq1]. exists (Z.to_nat q). rewrite Z2Nat.id by lia. split; [done|]. split; [lia|]. by rewrite list_elem_of_singleton.
Qed.

Lemma port_ok_users d q' p f : port_ok p -> same_but_users (on d p) q' f -> port_ok (with_queues d q' p).
Proof.
  intros Hp [H1 H2 H3 H4 H5]. destruct (port_ok_on d p Hp) as [? ? ?].
  assert (queues_ok q') by (split; congruence). by destruct Hp, d.
Qed.

Lemma num_queues_users d d' q' p f : same_but_users (on d p) q' f -> num_queues (on d' (with_queues d q' p)) = num_queues (on d' p).
Proof. intros [H1 _ _ _ _]. rewrite on_with_queues. by destruct (decide (d = d')) as [<-|]. Qed.

Lemma name_with_queues d q p : name_ (with_queues d q p) = name_ p.
Proof. by destruct d. Qed.

(** A module comes or goes, with its queues. *)
Lemma NInv_users s a p d q' f (mods' : gmap nat module_state) : NInv s -> objs s !! a = Some p -> same_but_users (on d p) q' f ->
  (forall m x, mods' !! m = Some x -> mods s !! m = Some x \/
     port_of x = a /\ Forall (fun qid => 0 <= qid < num_queues (on (dir_of x) p)) (default [] (qids_of x))) ->
  (forall i m, f i = Some (Some m) <-> exists x, mods' !! m = Some x /\ port_of x = a /\ claims (num_queues (on d p)) x d i) ->
  (forall m x, dir_of x <> d \/ port_of x <> a -> mods' !! m = Some x <-> mods s !! m = Some x) ->
  NInv (MkNet (<[a := with_queues d q' p]> (objs s)) (all_ports_ s) (next_port s) mods').
Proof.
  intros [Hn Ho Hf Hm Hu] Ha Hsb Hmods Hf' Hother. split; cbn.
  - intros n b Hb. destruct (Hn n b Hb) as (pb & Hpb & <-). destruct (decide (a = b)) as [->|Hne].
    + rewrite lookup_insert_eq. eexists. split; [done|]. rewrite name_with_queues. congruence.
    + rewrite lookup_insert_ne by done. by exists pb.
  - intros b pb [[<- <-]|[_ Hb]]%lookup_insert_Some; [|by apply Ho].
    destruct (Ho a p Ha). rewrite name_with_queues. split; [done|]. by eapply port_ok_users.
  - intros b Hb. rewrite lookup_insert_ne; [by apply Hf|]. intros <-. by rewrite Hf in Ha.
  - intros m x Hx. destruct (Hmods m x Hx) as [Hx'|[<- Hq]].
    + destruct (Hm m x Hx') as (px & Hpx & Hq). destruct (decide (a = port_of x)) as [->|Hne].
      * rewrite lookup_insert_eq. eexists. split; [done|]. simplify_eq. by rewrite (num_queues_users _ _ _ _ _ Hsb).
      * rewrite lookup_insert_ne by done. by exists px.
    + rewrite lookup_insert_eq. eexists. split; [done|]. by rewrite (num_queues_users _ _ _ _ _ Hsb).
  - intros b pb d' i m [[<- <-]|[Hne Hb]]%lookup_insert_Some.
    + rewrite (num_queues_users _ _ _ _ _ Hsb). rewrite on_with_queues. destruct (decide (d = d')) as [<-|Hd].
      * rewrite (sb_users _ _ _ Hsb). apply Hf'.
      * rewrite (Hu a p d' i m Ha). split; intros (x & Hx & Hax & Hc); exists x; (split; [|done]);
          (apply Hother; [left; destruct Hc as [<- _]; congruence|done]).
    + rewrite (Hu b pb d' i m Hb). split; intros (x & Hx & Hax & Hc); exists x; (split; [|done]);
        (apply Hother; [right; congruence|done]).
Qed.

(** ** The operations *)

(** No port goes or changes the number of its queues. *)
Definition keeps_ports (s s' : net) : Prop := forall a p, objs s !! a = Some p ->
  exists p', objs s' !! a = Some p' /\ num_queues (out p') = num_queues (out p).

Lemma keeps_ports_users s a p d q' f mods' : objs s !! a = Some p -> same_but_users (on d p) q' f ->
  keeps_ports s (MkNet (<[a := with_queues d q' p]> (objs s)) (all_ports_ s) (next_port s) mods').
Proof.
  intros Ha Hsb b pb Hb. cbn. destruct (decide (a = b)) as [<-|Hne].
  - rewrite lookup_insert_eq. eexists. split; [done|]. simplify_eq. apply (num_queues_users d PACKET_DIR_OUT q' p f Hsb).
  - rewrite lookup_insert_ne by done. by exists pb.
Qed.

Lemma built_port k a p qid : port_of (built k a p qid) = a.
Proof. by destruct k. Qed.

Lemma built_qids k a p qid : Forall (fun q => 0 <= q) (default [] (qids_of (built k a p qid))).
Proof. destruct k; cbn; first [apply Forall_nil_2|apply Forall_singleton; apply wrap_range; lia]. Qed.

(** A queue of the port that another module has. *)
Definition busy (s : net) (x : module_state) : Prop := exists m' x' p i,
  mods s !! m' = Some x' /\ port_of x' = port_of x /\ objs s !! port_of x = Some p /\
  claims (num_queues (on (dir_of x) p)) x' (dir_of x) i /\ selected (qids_of x) (num_queues (on (dir_of x) p)) i.

Lemma checked_busy s m x p : NInv s -> mods s !! m = None -> objs s !! port_of x = Some p -> Forall (fun q => 0 <= q) (default [] (qids_of x)) ->
  checked m (on (dir_of x) p) (default (all_queues (on (dir_of x) p)) (qids_of x)) (inl EBUSY) -> busy s x.
Proof.
  intros HN Hm Ha Hq (qid & m' & Hin & Hu & _). assert (H0 : 0 <= qid).
  { destruct (qids_of x) as [l|]; cbn in *; [|apply elem_all_queues in Hin; lia]. rewrite Forall_forall in Hq. by apply Hq. }
  apply (ni_users _ HN _ _ _ _ _ Ha) in Hu as (x' & Hx' & Hp & Hc). exists m', x', p, (Z.to_nat qid).
  do 4 (split; [done|]). unfold selected. rewrite Z2Nat.id by done.
  destruct (qids_of x) as [l|]; cbn in *; [done|]. apply elem_all_queues in Hin. lia.
Qed.

Lemma Module_Init_spec k m port qid s : NInv s -> mods s !! m = None -> exists s' e, Init k m port qid s = Some (s', e) /\ NInv s' /\
  match e with
  | inl e => s' = s /\ (e = EBUSY -> exists a p, all_ports_ s !! port = Some a /\ objs s !! a = Some p /\ busy s (built k a p qid))
  | inr _ => exists a p, all_ports_ s !! port = Some a /\ objs s !! a = Some p /\ mods s' = <[m := built k a p qid]> (mods s) /\
      all_ports_ s' = all_ports_ s /\ keeps_ports s s' /\ ~ busy s (built k a p qid)
  end.
Proof.
  intros HN Hm. assert (Hid : forall e, e <> EBUSY -> exists s' r, Some (s, inl e : errno + unit) = Some (s', r) /\ NInv s' /\
    match r with
    | inl e => s' = s /\ (e = EBUSY -> exists a p, all_ports_ s !! port = Some a /\ objs s !! a = Some p /\ busy s (built k a p qid))
    | inr _ => exists a p, all_ports_ s !! port = Some a /\ objs s !! a = Some p /\ mods s' = <[m := built k a p qid]> (mods s) /\
        all_ports_ s' = all_ports_ s /\ keeps_ports s s' /\ ~ busy s (built k a p qid)
    end) by (intros e ?; by exists s, (inl e)).
  unfold Init. case_bool_decide; [by apply Hid|]. destruct (all_ports_ s !! port) as [a|] eqn:Hport; [|by apply Hid].
  destruct (ni_names _ HN _ _ Hport) as (p & Hp & Hname). rewrite Hp. cbn [mbind option_bind].
  destruct (negb _); [by apply Hid|]. set (x := built k a p qid). assert (Hpx : port_of x = a) by apply built_port.
  destruct (ni_objs _ HN _ _ Hp) as [_ Hok]. pose proof (built_qids k a p qid) as Hq. fold x in Hq.
  destruct (AcquireQueues_spec m (dir_of x) (qids_of x) p Hok Hq) as (p' & e & -> & Hc & He). cbn [mbind option_bind].
  destruct e as [e|[]].
  - exists s, (inl e). do 3 (split; [done|]). intros ->. exists a, p. do 2 (split; [done|]).
    apply (checked_busy s m x p HN Hm); [by rewrite Hpx|done|done].
  - destruct He as (q' & -> & Hsb). unfold with_mod, with_obj. cbn [objs all_ports_ next_port mods].
    assert (Hfree : forall i, selected (qids_of x) (num_queues (on (dir_of x) p)) i ->
      Z.of_nat i < num_queues (on (dir_of x) p) /\ forall m', users (on (dir_of x) p) !! i <> Some (Some m')).
    { intros i Hi. assert (Hin : Z.of_nat i ∈ default (all_queues (on (dir_of x) p)) (qids_of x)).
      { destruct (qids_of x) as [l|]; cbn in *; [done|]. apply elem_all_queues. lia. }
      destruct (Hc _ Hin) as [Hlt Hu]. rewrite Nat2Z.id in Hu. split; [done|]. intros m' Hm'.
      destruct Hu as [Hu|Hu]; [congruence|]. apply (ni_users _ HN _ _ _ _ _ Hp) in Hu as (y & Hy & _). congruence. }
    eexists _, (inr tt). split; [done|]. split.
    + apply (NInv_users s a p (dir_of x) q' _ _ HN Hp Hsb).
      * intros m' y [[<- <-]|[_ Hy]]%lookup_insert_Some; [right|by left]. split; [done|]. apply Forall_forall. intros qid' Hin.
        rewrite Forall_forall in Hq. split; [by apply Hq|]. destruct (qids_of x) as [l|]; [by apply Hc|by apply not_elem_of_nil in Hin].
      * intros i m'. destruct (decide (selected _ _ i)) as [Hs|Hs].
        -- split.
           ++ intros [= <-]. exists x. rewrite lookup_insert_eq. split; [done|]. split; [done|]. split; [done|]. by split; [apply Hfree|].
           ++ intros (y & [[<- _]|[_ Hy]]%lookup_insert_Some & Hay & Hcl); [done|]. exfalso.
              apply (proj2 (Hfree i Hs) m'). apply (ni_users _ HN _ _ _ _ _ Hp). by exists y.
        -- rewrite (ni_users _ HN a p _ _ _ Hp). split.
           ++ intros (y & Hy & Hay & Hcl). exists y. rewrite lookup_insert_ne by congruence. done.
           ++ intros (y & [[_ <-]|[_ Hy]]%lookup_insert_Some & Hay & Hcl); [by destruct Hcl as (_ & _ & ?)|by exists y].
      * intros m' y Hy. split.
        -- intros [[<- <-]|[_ ?]]%lookup_insert_Some; [destruct Hy; congruence|done].
        -- intros Hy'. rewrite lookup_insert_ne; [done|congruence].
    + exists a, p. do 4 (split; [done|]). split; [by eapply keeps_ports_users|]. change (~ busy s x). intros (m' & y & p2 & i & Hy & Hay & Hp2 & Hcl & Hsel).
      rewrite Hpx in Hp2, Hay. assert (p2 = p) as -> by congruence. apply (proj2 (Hfree i Hsel) m'). apply (ni_users _ HN _ _ _ _ _ Hp). by exists y.
Qed.

Lemma DeInit_spec m x s : NInv s -> mods s !! m = Some x -> exists s', DeInit m s = Some s' /\ NInv s' /\
  mods s' = delete m (mods s) /\ all_ports_ s' = all_ports_ s /\ keeps_ports s s'.
Proof.
  intros HN Hm. destruct (ni_mods _ HN m x Hm) as (p & Hp & Hq). destruct (ni_objs _ HN _ _ Hp) as [_ Hok].
  assert (Hq0 : Forall (fun q => 0 <= q) (default [] (qids_of x))) by (eapply Forall_impl; [exact Hq|]; cbn; lia).
  destruct (ReleaseQueues_spec m (dir_of x) (qids_of x) p Hok Hq0) as (q' & Hr & Hsb).
  unfold DeInit. rewrite Hm. cbn [mbind option_bind]. rewrite Hp. cbn [mbind option_bind]. rewrite Hr. cbn [mbind option_bind].
  eexists. split; [done|]. split; [|split; [done|split; [done|by eapply keeps_ports_users]]].
  eapply NInv_users; [done|done|exact Hsb| | |].
  - intros m' y [_ Hy]%lookup_delete_Some. by left.
  - intros i m'. cbv beta. destruct (decide _) as [(Hs & Hlt & Hu)|Hn].
    + split; [done|]. intros (y & [Hne Hy]%lookup_delete_Some & Hay & Hcl). exfalso.
      assert (users (on (dir_of x) p) !! i = Some (Some m')) by (apply (ni_users _ HN _ _ _ _ _ Hp); by exists y). congruence.
    + rewrite (ni_users _ HN _ _ _ _ _ Hp). split; intros (y & Hy & Hay & Hcl).
      * exists y. split; [|done]. apply lookup_delete_Some. split; [|done]. intros <-. destruct Hn. simplify_eq.
        destruct Hcl as (_ & Hlt & Hs). do 2 (split; [done|]). apply (ni_users _ HN _ _ _ _ _ Hp). by exists x.
      * apply lookup_delete_Some in Hy as [? Hy]. by exists y.
  - intros m' y Hy. rewrite lookup_delete_Some. split; [by intros []|]. intros Hy'. split; [|done].
    intros <-. simplify_eq. by destruct Hy.
Qed.

Lemma in_use_spec q : in_use q = true <-> exists i m, Z.of_nat i < num_queues q /\ users q !! i = Some (Some m).
Proof.
  unfold in_use. rewrite existsb_exists. split.
  - intros (u & [i Hi]%list_elem_of_In%list_elem_of_lookup & Hu%bool_decide_eq_true). apply lookup_take_Some in Hi as [Hi Hlt].
    destruct u as [m|]; [|done]. exists i, m. split; [lia|done].
  - intros (i & m & Hlt & Hu). exists (Some m). split; [|by apply bool_decide_eq_true].
    apply list_elem_of_In, list_elem_of_lookup. exists i. rewrite lookup_take_lt; [done|lia].
Qed.

(** A port can be destroyed when no module uses it. *)
Lemma DestroyPort_spec a p s : NInv s -> objs s !! a = Some p -> exists s' e, DestroyPort a s = Some (s', e) /\ NInv s' /\ mods s' = mods s /\
  match e with
  | inl e => e = EBUSY /\ s' = s /\ exists m x, mods s !! m = Some x /\ port_of x = a
  | inr _ => all_ports_ s' = delete (name_ p) (all_ports_ s) /\ objs s' = delete a (objs s) /\ forall m x, mods s !! m = Some x -> port_of x <> a
  end.
Proof.
  intros HN Hp. unfold DestroyPort. rewrite Hp. cbn [mbind option_bind]. destruct (ni_objs _ HN _ _ Hp) as [Hname Hok].
  destruct (in_use (inc p) || in_use (out p)) eqn:Huse.
  - eexists _, (inl EBUSY). split; [done|]. do 4 (split; [done|]).
    apply orb_true_iff in Huse. destruct Huse as [(i & m & _ & Hu)%in_use_spec|(i & m & _ & Hu)%in_use_spec]; [change (inc p) with (on PACKET_DIR_INC p) in Hu|change (out p) with (on PACKET_DIR_OUT p) in Hu];
      apply (ni_users _ HN _ _ _ _ _ Hp) in Hu as (x & Hx & Hax & _); by exists m, x.
  - assert (Hno : forall m x, mods s !! m = Some x -> port_of x <> a).
    { intros m x Hx <-. destruct (ni_mods _ HN m x Hx) as (p' & Hp' & Hq). simplify_eq.
      destruct (port_ok_on (dir_of x) p Hok) as [Hn _ _]. destruct (claims_queue _ x (proj1 Hn) Hq) as (i & Hcl).
      assert (Hu : users (on (dir_of x) p) !! i = Some (Some m)) by (apply (ni_users _ HN _ _ _ _ _ Hp); by exists x).
      assert (in_use (on (dir_of x) p) = true) by (apply in_use_spec; exists i, m; split; [apply Hcl|done]).
      apply orb_false_iff in Huse as [? ?]. destruct (dir_of x); cbn in *; congruence. }
    eexists _, (inr tt). split; [done|]. split; [|done]. destruct HN as [Hn Ho Hf Hm Hu]. split; cbn.
    + intros n b [Hne Hb]%lookup_delete_Some. destruct (Hn n b Hb) as (pb & Hpb & <-). exists pb. split; [|done].
      rewrite lookup_delete_ne; [done|]. intros <-. congruence.
    + intros b pb [Hne Hb]%lookup_delete_Some. destruct (Ho b pb Hb) as [Hnb ?]. split; [|done].
      rewrite lookup_delete_ne; [done|]. congruence.
    + intros b Hb. apply lookup_delete_None. right. by apply Hf.
    + intros m x Hx. destruct (Hm m x Hx) as (px & Hpx & ?). exists px. split; [|done].
      rewrite lookup_delete_ne; [done|]. intros Heq. by destruct (Hno m x Hx).
    + intros b pb d i m [_ Hb]%lookup_delete_Some. by apply Hu.
Qed.

Lemma ResetPorts_spec l s : NInv s -> NoDup l -> (forall a, a ∈ l -> is_Some (objs s !! a)) ->
  exists s' e, reset_loop l s = Some (s', e) /\ NInv s' /\ mods s' = mods s /\
    (e = inr tt -> forall a, a ∈ l -> objs s' !! a = None) /\ (forall a, objs s !! a = None -> objs s' !! a = None) /\
    (forall m x, mods s !! m = Some x -> objs s' !! port_of x = objs s !! port_of x).
Proof.
  revert s. induction l as [|a l IH]; intros s HN Hnd Hl; cbn [reset_loop].
  - exists s, (inr tt). do 3 (split; [done|]). split; [|done]. by intros _ a ?%not_elem_of_nil.
  - apply NoDup_cons in Hnd as [Hal Hnd]. destruct (Hl a) as [p Hp]; [by left|].
    destruct (DestroyPort_spec a p s HN Hp) as (s1 & e & -> & HN1 & Hm1 & He). cbn [mbind option_bind]. destruct e as [e|[]].
    + destruct He as (_ & -> & _). by exists s, (inl e).
    + destruct He as (_ & Ho & Hno). destruct (IH s1 HN1 Hnd) as (s2 & e2 & -> & HN2 & Hm2 & He2 & Hg & Hkeep).
      { intros b Hb. rewrite Ho, lookup_delete_ne by congruence. apply Hl. by right. }
      exists s2, e2. split; [done|]. split; [done|]. split; [congruence|]. split.
      * intros -> b [->|Hb]%elem_of_cons; [|by apply He2]. apply Hg. by rewrite Ho, lookup_delete_eq.
      * split; [intros b Hb; apply Hg; rewrite Ho; apply lookup_delete_None; by right|].
        intros m x Hx. rewrite (Hkeep m x) by congruence. rewrite Ho, lookup_delete_ne; [done|]. intros Heq. by destruct (Hno m x Hx).
Qed.

(** ** Default names *)
Lemma free_name_None fuel ports t i : free_name fuel ports t i = None ->
  forall j, (j < fuel)%nat -> is_Some (ports !! (t ++ pretty (i + j)%nat)%string).
Proof.
  revert i. induction fuel as [|fuel IH]; intros i Hn j Hj; [lia|]. cbn in Hn.
  destruct (ports !! (t ++ pretty i)%string) eqn:Hi; [|done]. destruct j as [|j].
  - rewrite Nat.add_0_r. by eexists.
  - replace (i + S j)%nat with (S i + j)%nat by lia. apply IH; [done|lia].
Qed.

Lemma free_name_Some fuel ports t i name : free_name fuel ports t i = Some name -> ports !! name = None.
Proof.
  revert i. induction fuel as [|fuel IH]; intros i; cbn; [done|].
  destruct (ports !! (t ++ pretty i)%string) eqn:Hi; [apply IH|]. by intros [= <-].
Qed.

(** One of as many names as there are ports, and one more, is free. *)
Lemma GenerateDefaultPortName_total driver t s : exists name, GenerateDefaultPortName driver t s = Some name /\ all_ports_ s !! name = None.
Proof.
  unfold GenerateDefaultPortName. set (ports := all_ports_ s). set (tm := template driver t).
  destruct (free_name _ ports tm 0) as [name|] eqn:Hn.
  - exists name. split; [done|]. by eapply free_name_Some.
  - exfalso. pose proof (free_name_None _ _ _ _ Hn) as Hall.
    set (names := (fun j : nat => (tm ++ pretty j)%string) <$> seq 0 (S (size ports))).
    assert (Hnd : NoDup names) by (apply NoDup_fmap_2; [|apply NoDup_seq]; intros x y Hxy; by simplify_eq).
    assert (Hsub : (list_to_set names : gset string) ⊆ dom ports).
    { intros x Hx. apply elem_of_list_to_set in Hx. apply list_elem_of_fmap in Hx as (j & -> & Hj). apply elem_of_seq in Hj.
      apply elem_of_dom. apply (Hall j). lia. }
    apply subseteq_size in Hsub. rewrite size_list_to_set in Hsub by done. rewrite size_dom in Hsub.
    unfold names in Hsub. rewrite length_fmap, length_seq in Hsub. lia.
Qed.

(** ** New ports *)
Lemma new_queues_ok n size : 0 < n <= MAX_QUEUES_PER_DIR -> queues_ok (new_queues n size).
Proof. intros ?. by split; cbn. Qed.

Lemma NInv_new s p : NInv s -> all_ports_ s !! name_ p = None -> port_ok p -> (forall d i m, users (on d p) !! i <> Some (Some m)) ->
  NInv (MkNet (<[next_port s := p]> (objs s)) (<[name_ p := next_port s]> (all_ports_ s)) (S (next_port s)) (mods s)).
Proof.
  intros [Hn Ho Hf Hm Hu] Hfree Hp Hno. set (a := next_port s). assert (Ha : objs s !! a = None) by (apply Hf; unfold a; lia).
  split; cbn.
  - intros n b [[<- <-]|[_ Hb]]%lookup_insert_Some; [exists p; by rewrite lookup_insert_eq|].
    destruct (Hn n b Hb) as (pb & Hpb & ?). exists pb. rewrite lookup_insert_ne; [done|congruence].
  - intros b pb [[<- <-]|[_ Hb]]%lookup_insert_Some; [by rewrite lookup_insert_eq|].
    destruct (Ho b pb Hb) as [Hnb ?]. split; [|done]. rewrite lookup_insert_ne; [done|congruence].
  - intros b Hb. rewrite lookup_insert_ne by lia. apply Hf. lia.
  - intros m x Hx. destruct (Hm m x Hx) as (px & Hpx & ?). exists px. split; [|done]. rewrite lookup_insert_ne; [done|congruence].
  - intros b pb d i m [[<- <-]|[_ Hb]]%lookup_insert_Some; [|by apply Hu]. split; [by intros ?%Hno|].
    intros (x & Hx & Hax & _). destruct (Hm m x Hx) as (px & Hpx & _). congruence.
Qed.

Lemma queue_count n : 0 <= n -> ~ MAX_QUEUES_PER_DIR < (if n =? 0 then 1 else n) -> 0 < (if n =? 0 then 1 else n) <= MAX_QUEUES_PER_DIR.
Proof. unfold MAX_QUEUES_PER_DIR. destruct (Z.eqb_spec n 0); lia. Qed.

(** With a name that no port has, or none, the new port is added under that name, or a default one. *)
Lemma create_port_spec init mac b name ni no si so s : NInv s -> all_ports_ s !! name = None \/ name = ""%string ->
  exists s' e, create_port init mac b name ni no si so s = Some (s', e) /\ NInv s' /\ mods s' = mods s /\
    match e with
    | inl _ => s' = s
    | inr (Some a) => objs s !! a = None /\ exists p, objs s' = <[a := p]> (objs s) /\ all_ports_ s !! name_ p = None /\ all_ports_ s' = <[name_ p := a]> (all_ports_ s) /\
        (name <> ""%string -> name_ p = name)
    | inr None => False
    end.
Proof.
  intros HN Hname. unfold create_port. cbv zeta.
  set (nq := if u8 ni =? 0 then 1 else u8 ni). set (mq := if u8 no =? 0 then 1 else u8 no).
  destruct (Z.ltb_spec MAX_QUEUES_PER_DIR nq) as [|Hnq]; [by exists s, (inl EINVAL)|].
  destruct (Z.ltb_spec MAX_QUEUES_PER_DIR mq) as [|Hmq]; [by exists s, (inl EINVAL)|]. cbn [orb].
  destruct (_ || _); [by exists s, (inl EINVAL)|].
  assert (Hn : 0 < nq <= MAX_QUEUES_PER_DIR) by (apply queue_count; [apply wrap_range|]; lia).
  assert (Hm : 0 < mq <= MAX_QUEUES_PER_DIR) by (apply queue_count; [apply wrap_range|]; lia).
  assert (Hfresh : exists pn, (let '(s', port_name) := if (0 <? String.length name)%nat then
      (match all_ports_ s !! name with Some old => MkNet (delete old (objs s)) (all_ports_ s) (next_port s) (mods s) | None => s end, Some name)
      else (s, GenerateDefaultPortName (class_name b) (name_template b) s) in (s', port_name)) = (s, Some pn) /\
    all_ports_ s !! pn = None /\ (name <> ""%string -> pn = name)).
  { destruct (String.length name) eqn:Hl; cbn [Nat.ltb Nat.leb].
    - destruct (GenerateDefaultPortName_total (class_name b) (name_template b) s) as (pn & -> & ?). exists pn.
      split; [done|]. split; [done|]. by destruct name.
    - exists name. destruct Hname as [Hname| ->]; [|done]. by rewrite Hname. }
  destruct Hfresh as (pn & Heq & Hfree & Hpn). destruct (if (0 <? _)%nat then _ else _) as [s1 o]. injection Heq as -> ->.
  cbn [mbind option_bind]. set (p := new_port pn mac _ _). destruct (init p) as [e|]; [by exists s, (inl e)|].
  unfold AddPort. change (name_ p) with pn. rewrite Hfree. eexists _, (inr (Some (next_port s))). split; [done|]. split.
  - refine (NInv_new s p HN Hfree _ _).
    + split; by apply new_queues_ok.
    + intros d i m Hu. assert (Hr : replicate 32 None !! i = Some (Some m)) by (by destruct d). apply lookup_replicate_1 in Hr as [? _]. done.
  - split; [done|]. split; [apply (ni_fresh _ HN); lia|]. exists p. by split.
Qed.

Lemma create_port_answers init mac b name ni no si so s : name <> ""%string ->
  exists s' e, create_port init mac b name ni no si so s = Some (s', e).
Proof.
  intros Hne. unfold create_port. cbv zeta. destruct (_ || _); [by do 2 eexists|]. destruct (_ || _); [by do 2 eexists|].
  destruct name as [|ch name]; [done|]. cbn [String.length Nat.ltb Nat.leb mbind option_bind].
  destruct (init _); [by do 2 eexists|]. destruct (AddPort _ _ _) as [s' [|]]; by do 2 eexists.
Qed.

(** [p.reset] of the port of a name in use: the port is deleted under its users, and its name kept. *)
Lemma create_port_name_in_use init mac b name ni no si so s s' e a : create_port init mac b name ni no si so s = Some (s', e) ->
  name <> ""%string -> all_ports_ s !! name = Some a ->
  0 < u8 ni <= MAX_QUEUES_PER_DIR -> 0 < u8 no <= MAX_QUEUES_PER_DIR -> si <= MAX_QUEUE_SIZE -> so <= MAX_QUEUE_SIZE ->
  all_ports_ s' !! name = Some a /\ objs s' !! a = None /\ mods s' = mods s /\ forall b, e <> inr (Some b).
Proof.
  intros Hc Hne Ha Hi Ho Hsi Hso. unfold create_port in Hc. cbv zeta in Hc.
  rewrite (proj2 (Z.eqb_neq (u8 ni) 0)), (proj2 (Z.eqb_neq (u8 no) 0)) in Hc by lia.
  rewrite !(proj2 (Z.ltb_ge _ _)) in Hc by lia. cbn [orb] in Hc. destruct name as [|ch name]; [done|].
  cbn [String.length Nat.ltb Nat.leb] in Hc. rewrite Ha in Hc. cbn [mbind option_bind] in Hc.
  destruct (init _) as [e'|]; [injection Hc as <- <-|].
  - cbn. rewrite lookup_delete_eq. by split.
  - unfold AddPort, new_port in Hc. cbn [name_ all_ports_] in Hc. rewrite Ha in Hc. injection Hc as <- <-. cbn.
    rewrite lookup_delete_eq. by split.
Qed.

(** ** The workers of PortOut *)
Definition held (wq : list Z) : list Z := filter (fun w => 0 <= w) wq.

(** The queues are shared out: each is available or of one worker. *)
Record WInv (num : Z) (avail wq : list Z) : Prop := {
  wi_range : Forall (fun w => w = -1 \/ 0 <= w < num) wq;
  wi_num : num <= MAX_QUEUES_PER_DIR;
  wi_shared : avail ++ held wq ≡ₚ seqZ 0 num }.

Lemma reclaim_spec num actives wq avail : Forall (fun w => w = -1 \/ 0 <= w < num) wq -> num <= MAX_QUEUES_PER_DIR -> length actives = length wq ->
  let r := reclaim actives wq avail in
  length r.1 = length wq /\ Forall (fun w => w = -1 \/ 0 <= w < num) r.1 /\ r.2 ++ held r.1 ≡ₚ avail ++ held wq /\
  Forall2 (fun (a : bool) ww => ww.2 = if a then ww.1 else -1) actives (zip wq r.1).
Proof.
  revert wq avail. induction actives as [|a actives IH]; intros [|w wq] avail Hw Hnum Hlen; [|done|done|]; cbn [reclaim].
  - cbn. split; [done|]. split; [constructor|]. split; [done|constructor].
  - apply Forall_cons in Hw as [Hw0 Hw]. injection Hlen as Hlen. destruct a; cbv zeta; cbn [fst snd].
    + destruct (IH wq avail Hw Hnum Hlen) as (H1 & H2 & H3 & H4). cbv zeta in *. split; [by cbn; f_equal|]. split; [by constructor|].
      split; [|by constructor]. unfold held in *. rewrite !filter_cons. destruct (decide (0 <= w)); [|done].
      by rewrite <- !Permutation_middle, H3.
    + set (avail' := if 0 <=? w then avail ++ [u8 w] else avail). destruct (IH wq avail' Hw Hnum Hlen) as (H1 & H2 & H3 & H4). cbv zeta in *.
      split; [by cbn; f_equal|]. split; [constructor; [by left|done]|]. split; [|by constructor].
      unfold held in *. rewrite !filter_cons. rewrite (decide_False (P := 0 <= -1)) by lia. rewrite H3. unfold avail'.
      unfold MAX_QUEUES_PER_DIR in Hnum. destruct (Z.leb_spec 0 w).
      * rewrite decide_True by done. rewrite (wrap_small 8 w) by (unfold in_word; destruct Hw0; lia). rewrite <- app_assoc. cbn [app]. done.
      * by rewrite decide_False by lia.
Qed.

(** The workers that need a queue. *)
Fixpoint needs (actives : list bool) (wq : list Z) : nat :=
  match actives, wq with a :: actives, w :: wq => ((if (a : bool) && (w <? 0)%Z then 1 else 0) + needs actives wq)%nat | _, _ => 0%nat end.

Lemma assign_spec num actives wq avail : Forall (fun w => w = -1 \/ 0 <= w < num) wq -> Forall (fun w => 0 <= w < num) avail ->
  length actives = length wq -> (needs actives wq <= length avail)%nat ->
  exists wq' avail', assign actives wq avail = Some (wq', avail') /\ length wq' = length wq /\
    Forall (fun w => w = -1 \/ 0 <= w < num) wq' /\ avail' ++ held wq' ≡ₚ avail ++ held wq /\
    Forall2 (fun (a : bool) ww => if a then 0 <= ww.2 /\ (0 <= ww.1 -> ww.2 = ww.1) else ww.2 = ww.1) actives (zip wq wq').
Proof.
  revert wq avail. induction actives as [|a actives IH]; intros [|w wq] avail Hw Ha Hlen Hneed; [|done|done|]; cbn [assign].
  - eexists _, _. split; [done|]. split; [done|]. split; [constructor|]. split; [done|constructor].
  - apply Forall_cons in Hw as [Hw0 Hw]. injection Hlen as Hlen. cbn [needs] in Hneed.
    destruct (a && (w <? 0)) eqn:Hn.
    + apply andb_true_iff in Hn as [-> Hn%Z.ltb_lt].
      destruct avail as [|q avail _] using rev_ind; [cbn in Hneed; lia|]. rewrite last_snoc, removelast_last. cbn [mbind option_bind].
      rewrite length_app in Hneed. cbn in Hneed. apply Forall_app in Ha as [Ha Hq]. rewrite Forall_singleton in Hq.
      destruct (IH wq avail Hw Ha Hlen) as (wq' & avail' & -> & H1 & H2 & H3 & H4); [lia|]. cbn [mbind option_bind fst snd].
      eexists _, _. split; [done|]. split; [by cbn; f_equal|]. split; [constructor; [right; exact Hq|done]|]. split.
      * unfold held in *. rewrite !filter_cons, decide_True, decide_False by lia. rewrite <- Permutation_middle, H3, <- app_assoc. cbn [app].
        by rewrite <- Permutation_middle.
      * constructor; [|done]. cbn. lia.
    + destruct (IH wq avail Hw Ha Hlen) as (wq' & avail' & -> & H1 & H2 & H3 & H4); [lia|]. cbn [mbind option_bind fst snd].
      eexists _, _. split; [done|]. split; [by cbn; f_equal|]. split; [by constructor|]. split.
      * unfold held in *. rewrite !filter_cons. destruct (decide (0 <= w)); [|done]. by rewrite <- !Permutation_middle, H3.
      * constructor; [|done]. cbn. destruct a; [|done]. cbn in Hn. apply Z.ltb_ge in Hn. done.
Qed.

Lemma needs_count actives wq : Forall2 (fun (a : bool) w => a = false -> w < 0) actives wq ->
  (needs actives wq + length (held wq) = length (filter (fun a => a = true) actives))%nat.
Proof.
  induction 1 as [|a w actives wq Ha _ IH]; [done|]. cbn [needs]. unfold held in *. rewrite !filter_cons.
  destruct a; cbn [andb].
  - rewrite (decide_True (P := true = true)) by done. cbn [length]. destruct (Z.ltb_spec w 0).
    + rewrite decide_False by lia. lia.
    + rewrite decide_True by done. cbn [length]. lia.
  - rewrite decide_False by (specialize (Ha eq_refl); lia). rewrite (decide_False (P := false = true)) by done. lia.
Qed.

Lemma held_unique wq i j q : NoDup (held wq) -> wq !! i = Some q -> wq !! j = Some q -> 0 <= q -> i = j.
Proof.
  revert i j. induction wq as [|w wq IH]; intros i j Hnd Hi Hj Hq; [done|].
  unfold held in *. rewrite filter_cons in Hnd. assert (Htail : NoDup (filter (fun w => 0 <= w) wq)).
  { destruct (decide (0 <= w)); [by apply NoDup_cons in Hnd as [_ ?]|done]. }
  assert (Hw : forall k, w = q -> wq !! k = Some q -> False).
  { intros k -> Hk. rewrite decide_True in Hnd by done. apply NoDup_cons in Hnd as [Hno _]. apply Hno.
    apply list_elem_of_filter. split; [done|]. by eapply list_elem_of_lookup_2. }
  destruct i as [|i], j as [|j]; cbn in Hi, Hj; [done| | |f_equal; by apply IH].
  - injection Hi as Hi. by destruct (Hw j).
  - injection Hj as Hj. by destruct (Hw i).
Qed.

Lemma zip_lookup {A B} (l : list A) (k : list B) i x y : l !! i = Some x -> k !! i = Some y -> zip l k !! i = Some (x, y).
Proof. intros Hx Hy. by rewrite lookup_zip_with, Hx, Hy. Qed.

Lemma OnEvent_spec num avail wq actives a : WInv num avail wq -> length actives = length wq -> 0 <= num ->
  Z.of_nat (length (filter (fun a => a = true) actives)) <= num ->
  exists avail' wq', OnEvent actives (PortOut a avail wq) = Some (PortOut a avail' wq') /\ WInv num avail' wq' /\ length wq' = length wq /\
    (forall i w w', wq !! i = Some w -> wq' !! i = Some w' ->
       (actives !! i = Some true -> 0 <= w' < num /\ (0 <= w -> w' = w)) /\ (actives !! i = Some false -> w' = -1)).
Proof.
  intros [Hr Hn Hs] Hlen H0 Hcount. unfold OnEvent.
  destruct (reclaim_spec num actives wq avail Hr Hn Hlen) as (L1 & R1 & P1 & F1). cbv zeta in *. set (r := reclaim actives wq avail) in *.
  assert (Hall : r.2 ++ held r.1 ≡ₚ seqZ 0 num) by (by rewrite P1).
  assert (Havail : Forall (fun w => 0 <= w < num) r.2).
  { apply Forall_forall. intros x Hx. assert (x ∈ seqZ 0 num) as ?%elem_of_seqZ; [|lia]. rewrite <- Hall. apply elem_of_app. by left. }
  assert (Hneed : (needs actives r.1 <= length r.2)%nat).
  { assert (Hf : Forall2 (fun (a : bool) w => a = false -> w < 0) actives r.1).
    { apply Forall2_same_length_lookup. split; [congruence|]. intros i b w' Hb Hw' ->.
      destruct (lookup_lt_is_Some_2 wq i) as [w Hw]; [rewrite <- L1; by eapply lookup_lt_Some|].
      pose proof (Forall2_lookup_lr _ _ _ i _ _ F1 Hb (zip_lookup _ _ _ _ _ Hw Hw')) as Hx. cbn in Hx. lia. }
    apply needs_count in Hf. apply Permutation_length in Hall. rewrite length_app, length_seqZ in Hall. lia. }
  destruct (assign_spec num actives r.1 r.2 R1 Havail) as (wq' & avail' & -> & L2 & R2 & P2 & F2); [congruence|done|].
  cbn [mbind option_bind fst snd]. eexists _, _. split; [done|]. split; [split; [done|done|by rewrite P2]|]. split; [congruence|].
  intros i w w' Hw Hw'. destruct (lookup_lt_is_Some_2 r.1 i) as [w1 Hw1]; [rewrite L1; by eapply lookup_lt_Some|].
  split; intros Ha; pose proof (Forall2_lookup_lr _ _ _ i _ _ F1 Ha (zip_lookup _ _ _ _ _ Hw Hw1)) as Hx1;
    pose proof (Forall2_lookup_lr _ _ _ i _ _ F2 Ha (zip_lookup _ _ _ _ _ Hw1 Hw')) as Hx2; cbn in Hx1, Hx2.
  - subst w1. destruct Hx2 as [Hpos Hsame]. split; [|done].
    assert (Hw2 : w' = -1 \/ 0 <= w' < num) by (apply (proj1 (Forall_forall _ wq') R2); by eapply list_elem_of_lookup_2). lia.
  - congruence.
Qed.

(** ** Batches *)
Section batches.
Context {dev : Type} {D : Driver dev} {L : DriverLaws dev}.

Lemma update_stats_Some f qid q : queues_ok q -> 0 <= qid < num_queues q -> exists st, queue_stats q !! Z.to_nat qid = Some st /\
  update_stats f qid q = Some (MkQueues (num_queues q) (queue_size q) (users q) (<[Z.to_nat qid := f st]> (queue_stats q))).
Proof.
  intros [Hn _ Hs] Hq. unfold MAX_QUEUES_PER_DIR in Hn. destruct (lookup_lt_is_Some_2 (queue_stats q) (Z.to_nat qid)) as [st Hst]; [lia|].
  exists st. unfold update_stats. by rewrite Hst.
Qed.

(** The driver takes the first packets, the others are freed, and the counters of the queue say so. *)
Lemma send_batch_spec may qid d p batch : port_ok p -> 0 <= qid < num_queues (out p) ->
  exists d' p' sent acts, send_batch may qid d p batch = Some (d', p', acts) /\ 0 <= sent <= Z.of_nat (length batch) /\
    (sent, d') = (if may then SendPackets d qid batch else (0, d)) /\
    acts = (if sent <? Z.of_nat (length batch) then [Free (drop (Z.to_nat sent) batch)] else []) /\
    users (out p') = users (out p) /\ num_queues (out p') = num_queues (out p) /\ inc p' = inc p /\
    (Z.land GetFlags DRIVER_FLAG_SELF_OUT_STATS = 0 -> exists st, queue_stats (out p) !! Z.to_nat qid = Some st /\
       queue_stats (out p') !! Z.to_nat qid = Some (MkStats (u64 (packets st + sent)) (u64 (dropped st + (Z.of_nat (length batch) - sent)))
                                                            (u64 (bytes_ st + sum_lens (take (Z.to_nat sent) batch) 0)))).
Proof.
  intros Hp Hq. unfold send_batch. destruct (if may then SendPackets d qid batch else (0, d)) as [sent d'] eqn:Hsend.
  assert (Hsent : 0 <= sent <= Z.of_nat (length batch)).
  { destruct may; [|injection Hsend as <- <-; lia]. pose proof (sent_range d qid batch) as Hr. by rewrite Hsend in Hr. }
  destruct (Z.eqb_spec (Z.land GetFlags DRIVER_FLAG_SELF_OUT_STATS) 0) as [Hfl|Hfl].
  - destruct (update_stats_Some (fun st => MkStats (u64 (packets st + sent)) (u64 (dropped st + (Z.of_nat (length batch) - sent)))
      (u64 (bytes_ st + sum_lens (take (Z.to_nat sent) batch) 0))) qid (out p) (po_out _ Hp) Hq) as (st & Hst & ->).
    cbn [mbind option_bind]. eexists _, _, sent, _. split; [done|]. do 6 (split; [done|]). intros _. exists st. split; [done|]. cbn.
    rewrite list_lookup_insert_eq; [done|]. by eapply lookup_lt_Some.
  - cbn [mbind option_bind]. eexists _, _, sent, _. split; [done|]. do 6 (split; [done|]). done.
Qed.

(** The packets that a queue gives go on in order; the task does not block when there are some. *)
Lemma recv_batch_spec qid burst d p : port_ok p -> 0 <= qid < num_queues (inc p) -> 0 <= burst ->
  exists d' p' batch acts block bits, recv_batch qid burst d p = Some (d', p', acts, (block, Z.of_nat (length batch), bits)) /\
    (batch, d') = RecvPackets d qid burst /\ Z.of_nat (length batch) <= burst /\
    acts = (if block : bool then [] else [RunChoose O batch]) /\ (block = true <-> batch = []) /\
    users (inc p') = users (inc p) /\ out p' = out p /\
    (Z.land GetFlags DRIVER_FLAG_SELF_INC_STATS = 0 -> batch <> [] -> exists st, queue_stats (inc p) !! Z.to_nat qid = Some st /\
       queue_stats (inc p') !! Z.to_nat qid = Some (MkStats (u64 (packets st + Z.of_nat (length batch))) (dropped st) (u64 (bytes_ st + sum_lens batch 0)))).
Proof.
  intros Hp Hq Hb. unfold recv_batch. pose proof (recv_burst d qid burst Hb) as Hburst.
  destruct (RecvPackets d qid burst) as [batch d'] eqn:Hrecv. cbn [fst] in Hburst.
  destruct (Z.eqb_spec (Z.of_nat (length batch)) 0) as [H0|H0].
  { destruct batch; [|cbn in H0; lia]. eexists d', p, [], [], true, 0. by do 7 (split; [done|]). }
  assert (Hne : batch <> []) by (by intros ->).
  destruct (Z.eqb_spec (Z.land GetFlags DRIVER_FLAG_SELF_INC_STATS) 0) as [Hfl|Hfl].
  - destruct (update_stats_Some (fun st => MkStats (u64 (packets st + Z.of_nat (length batch))) (dropped st) (u64 (bytes_ st + sum_lens batch 0)))
      qid (inc p) (po_inc _ Hp) Hq) as (st & Hst & ->).
    cbn [mbind option_bind]. eexists _, _, batch, _, false, _. split; [done|]. do 5 (split; [done|]). split; [done|]. intros _ _.
    exists st. split; [done|]. cbn. rewrite list_lookup_insert_eq; [done|]. by eapply lookup_lt_Some.
  - cbn [mbind option_bind]. eexists _, _, batch, _, false, _. split; [done|]. by do 6 (split; [done|]).
Qed.
End batches.

(** ** Histories *)
Inductive op :=
  | OpInit (k : module_kind) (m : nat) (port : string) (qid : Z)
  | OpDeInit (m : nat)
  | OpCreate (init : Port -> errno + unit) (mac : list Z) (b : PortBuilder) (name : string) (num_inc_q num_out_q size_inc_q size_out_q : Z)
  | OpDestroy (name : string)
  | OpReset (order : gmap string nat -> list nat)
  | OpEvent (m : nat) (actives : list bool)
  | OpBurst (m : nat) (burst : Z).

Definition step (o : op) (s : net) : option net :=
  match o with
  | OpInit k m port qid => fst <$> Init k m port qid s
  | OpDeInit m => DeInit m s
  | OpCreate init mac b name ni no si so => fst <$> create_port init mac b name ni no si so s
  | OpDestroy name => fst <$> DestroyPort_request name s
  | OpReset order => fst <$> ResetPorts order s
  | OpEvent m actives => x ← mods s !! m; x ← OnEvent actives x; Some (with_mod m x s)
  | OpBurst m burst => x ← mods s !! m; Some (with_mod m (CommandSetBurst x burst).1 s)
  end.

(** The requests of an orderly history.  What the callers see to: a new module has a new address, and no more workers
    run a [PortOut] than its port has queues ([max_allowed_workers_]).  What nobody sees to: no port is created under
    a name in use, which [create_port] takes for a new one ([create_port_name_in_use]). *)
Definition orderly (s : net) (o : op) : Prop :=
  match o with
  | OpInit _ m _ _ => mods s !! m = None
  | OpDeInit m | OpBurst m _ => is_Some (mods s !! m)
  | OpCreate _ _ _ name _ _ _ _ => all_ports_ s !! name = None \/ name = ""%string
  | OpDestroy _ => True
  | OpReset order => order (all_ports_ s) ≡ₚ (map_to_list (all_ports_ s)).*2
  | OpEvent m actives => is_Some (mods s !! m) /\ length actives = kMaxWorkers /\
      forall a avail wq p, mods s !! m = Some (PortOut a avail wq) -> objs s !! a = Some p ->
        Z.of_nat (length (filter (fun a => a = true) actives)) <= num_queues (out p)
  end.

Inductive reachable : net -> Prop :=
  | reach_init : reachable (MkNet ∅ ∅ 0 ∅)
  | reach_step s o s' : reachable s -> orderly s o -> step o s = Some s' -> reachable s'.

(** The queues of every [PortOut] are shared out among its workers. *)
Definition WNet (s : net) : Prop := forall m a avail wq, mods s !! m = Some (PortOut a avail wq) ->
  length wq = kMaxWorkers /\ exists p, objs s !! a = Some p /\ WInv (num_queues (out p)) avail wq.

Lemma NInv_with_mod s m x x' : NInv s -> mods s !! m = Some x -> port_of x' = port_of x -> dir_of x' = dir_of x -> qids_of x' = qids_of x ->
  NInv (with_mod m x' s).
Proof.
  intros [Hn Ho Hf Hm Hu] Hx Hp Hd Hq. split; try done; cbn.
  - intros m' y [[<- <-]|[_ Hy]]%lookup_insert_Some; [rewrite Hp, Hd, Hq; by apply (Hm m)|by apply (Hm m')].
  - intros a p d i m' Ha. rewrite (Hu a p d i m' Ha). split; intros (y & Hy & Hay & Hc).
    + destruct (decide (m = m')) as [<-|Hne].
      * exists x'. rewrite lookup_insert_eq. split; [done|]. simplify_eq. split; [done|]. unfold claims in *. by rewrite Hd, Hq.
      * exists y. by rewrite lookup_insert_ne.
    + apply lookup_insert_Some in Hy as [[<- <-]|[_ Hy]]; [|by exists y]. exists x. split; [done|]. split; [congruence|].
      unfold claims in *. by rewrite Hd, Hq in Hc.
Qed.

Lemma WNet_same s s' : WNet s -> (forall m a avail wq, mods s' !! m = Some (PortOut a avail wq) -> mods s !! m = Some (PortOut a avail wq)) ->
  (forall m x p, mods s' !! m = Some x -> objs s !! port_of x = Some p -> exists p', objs s' !! port_of x = Some p' /\ num_queues (out p') = num_queues (out p)) ->
  WNet s'.
Proof.
  intros HW Hm Ho m a avail wq Hx. destruct (HW m a avail wq (Hm _ _ _ _ Hx)) as (Hl & p & Hp & Hwi). split; [done|].
  destruct (Ho m _ p Hx Hp) as (p' & ? & Hq). exists p'. split; [done|]. by rewrite Hq.
Qed.

Lemma WInv_new num : 0 <= num <= MAX_QUEUES_PER_DIR -> WInv num (seqZ 0 num) (replicate kMaxWorkers (-1)).
Proof.
  intros ?. split; [apply Forall_replicate; by left|lia|]. unfold held.
  assert (Hf : forall n, filter (fun w => 0 <= w) (replicate n (-1)) = []) by (induction n as [|n IH]; [done|]; cbn [replicate]; by rewrite filter_cons, decide_False by lia).
  by rewrite Hf, app_nil_r.
Qed.

Lemma WNet_keeps s s' : WNet s -> keeps_ports s s' ->
  (forall m a avail wq, mods s' !! m = Some (PortOut a avail wq) -> mods s !! m = Some (PortOut a avail wq)) -> WNet s'.
Proof. intros HW Hk Hm. eapply WNet_same; [done|done|]. intros m x p _ Hp. by apply Hk. Qed.

Lemma all_ports_NoDup s : NInv s -> NoDup (map_to_list (all_ports_ s)).*2.
Proof.
  intros HN. apply NoDup_fmap_2_strong; [|apply NoDup_map_to_list].
  intros [n a] [n' a'] Hx%elem_of_map_to_list Hy%elem_of_map_to_list Heq. cbn in Heq. subst a'.
  destruct (ni_names _ HN _ _ Hx) as (p & Hp & <-). destruct (ni_names _ HN _ _ Hy) as (p' & Hp' & <-). by simplify_eq.
Qed.

Lemma WNet_with_mod s m x : WNet s -> (forall a avail wq, x = PortOut a avail wq ->
  length wq = kMaxWorkers /\ exists p, objs s !! a = Some p /\ WInv (num_queues (out p)) avail wq) -> WNet (with_mod m x s).
Proof.
  intros HW Hx m' a avail wq Hy. cbn [with_mod mods objs] in *.
  apply lookup_insert_Some in Hy as [[<- Hy]|[_ Hy]]; [by apply Hx|by eapply HW].
Qed.

Lemma net_step_spec s o : NInv s -> WNet s -> orderly s o -> exists s', step o s = Some s' /\ NInv s' /\ WNet s'.
Proof.
  intros HN HW Hal. destruct o as [k m port qid|m|init mac b name ni no si so|name|order|m actives|m burst]; cbn [step orderly] in *.
  - destruct (Module_Init_spec k m port qid s HN Hal) as (s' & e & -> & HN' & He). exists s'. split; [done|]. split; [done|].
    destruct e as [e|[]]; [by destruct He as [-> _]|]. destruct He as (a & p & _ & Hp & Hm & _ & Hk & _).
    intros m' a' avail wq Hx. rewrite Hm in Hx. apply lookup_insert_Some in Hx as [[<- Hx]|[_ Hx]].
    + destruct k; try done. cbn in Hx. injection Hx as <- <- <-. split; [done|]. destruct (Hk a p Hp) as (p' & Hp' & Hq).
      exists p'. split; [done|]. rewrite Hq. apply WInv_new. destruct (ni_objs _ HN _ _ Hp) as [_ [_ [? _ _]]]. lia.
    + destruct (HW m' a' avail wq Hx) as (? & p2 & Hp2 & ?). split; [done|]. destruct (Hk a' p2 Hp2) as (p' & ? & Hq). exists p'. by rewrite Hq.
  - destruct Hal as [x Hx]. destruct (DeInit_spec m x s HN Hx) as (s' & -> & HN' & Hm & _ & Hk). exists s'. split; [done|]. split; [done|].
    eapply WNet_keeps; [done|done|]. intros m' a avail wq Hy. rewrite Hm in Hy. by apply lookup_delete_Some in Hy as [_ ?].
  - destruct (create_port_spec init mac b name ni no si so s HN Hal) as (s' & e & -> & HN' & Hm & He). exists s'. split; [done|]. split; [done|].
    destruct e as [e|[a|]]; [by subst s'| |done]. destruct He as (Hnew & p & Ho & _). eapply WNet_same; [done|by rewrite Hm|].
    intros m x px Hx Hpx. exists px. split; [|done]. rewrite Ho, lookup_insert_ne; [done|congruence].
  - unfold DestroyPort_request. case_bool_decide; [by exists s|]. destruct (all_ports_ s !! name) as [a|] eqn:Ha; [|by exists s].
    destruct (ni_names _ HN _ _ Ha) as (p & Hp & _). destruct (DestroyPort_spec a p s HN Hp) as (s' & e & -> & HN' & Hm & He).
    exists s'. split; [done|]. split; [done|]. destruct e as [e|]; [by destruct He as (_ & -> & _)|]. destruct He as (_ & Ho & Hno).
    eapply WNet_same; [done|by rewrite Hm|]. intros m x px Hx Hpx. exists px. split; [|done]. rewrite Hm in Hx.
    rewrite Ho, lookup_delete_ne; [done|]. intros Heq. by destruct (Hno m x Hx).
  - unfold ResetPorts. destruct (ResetPorts_spec (order (all_ports_ s)) s HN) as (s' & e & -> & HN' & Hm & _ & _ & Hk).
    + rewrite Hal. by apply all_ports_NoDup.
    + intros a. rewrite Hal. intros ([n a'] & -> & Ha%elem_of_map_to_list)%list_elem_of_fmap. cbn.
      destruct (ni_names _ HN _ _ Ha) as (p & ? & _). by exists p.
    + exists s'. split; [done|]. split; [done|]. eapply WNet_same; [done|by rewrite Hm|]. intros m x p Hx Hp. rewrite Hm in Hx.
      exists p. by rewrite (Hk m x Hx).
  - destruct Hal as ([x Hx] & Hlen & Hcount). rewrite Hx. cbn [mbind option_bind].
    destruct x as [a b|a q b|a avail wq|a q]; try (cbn [OnEvent mbind option_bind]; eexists; split; [done|]; split;
      [by eapply NInv_with_mod|by apply WNet_with_mod]).
    destruct (HW m a avail wq Hx) as (Hl & p & Hp & Hwi). destruct (ni_objs _ HN _ _ Hp) as [_ [_ [Hn _ _]]].
    destruct (OnEvent_spec (num_queues (out p)) avail wq actives a Hwi) as (avail' & wq' & -> & Hwi' & Hl' & _); [congruence|lia|by eapply Hcount|].
    cbn [mbind option_bind]. eexists. split; [done|]. split; [by eapply NInv_with_mod|].
    apply WNet_with_mod; [done|]. intros a2 av2 wq2 [= <- <- <-]. split; [congruence|]. by exists p.
  - destruct Hal as [x Hx]. rewrite Hx. cbn [mbind option_bind]. eexists. split; [done|]. unfold CommandSetBurst. split.
    + destruct (kMaxBurst <? burst), x; by eapply NInv_with_mod.
    + apply WNet_with_mod; [done|]. intros a2 av2 wq2 Hy.
      destruct (kMaxBurst <? burst), x; try done; cbn in Hy; rewrite Hy in Hx; by apply (HW m).
Qed.

Lemma reachable_ok s : reachable s -> NInv s /\ WNet s.
Proof.
  induction 1 as [|s o s' _ [HN HW] Hal Hs].
  - split; [|intros m a avail wq Hx; cbn in Hx; by rewrite lookup_empty in Hx].
    split; cbn; intros *; rewrite ?lookup_empty; done.
  - destruct (net_step_spec s o HN HW Hal) as (s2 & Hs2 & ? & ?). by simplify_eq.
Qed.

(** C12: In any history of ports and modules in which no port is created under a name in use (and no more workers run a
    [PortOut] than its port has queues), every request is answered, every module's port exists and is registered,
    two modules never have the same queue, and the workers of a [PortOut] never share one.  A [CreatePort] under a
    name in use is answered as well, but takes the port of that name away from the modules that use it. *)
Theorem ports_safe s : reachable s ->
  (forall o, orderly s o -> exists s', step o s = Some s') /\
  (forall m x, mods s !! m = Some x -> exists p, objs s !! port_of x = Some p /\ all_ports_ s !! name_ p = Some (port_of x)) /\
  (forall m1 m2 x1 x2 p d i, mods s !! m1 = Some x1 -> mods s !! m2 = Some x2 -> objs s !! port_of x1 = Some p -> port_of x2 = port_of x1 ->
     claims (num_queues (on d p)) x1 d i -> claims (num_queues (on d p)) x2 d i -> m1 = m2) /\
  (forall m a avail wq p i j q, mods s !! m = Some (PortOut a avail wq) -> objs s !! a = Some p ->
     wq !! i = Some q -> wq !! j = Some q -> q <> -1 -> 0 <= q < num_queues (out p) /\ i = j) /\
  (forall init mac b name ni no si so a, name <> ""%string -> all_ports_ s !! name = Some a ->
     0 < u8 ni <= MAX_QUEUES_PER_DIR -> 0 < u8 no <= MAX_QUEUES_PER_DIR -> si <= MAX_QUEUE_SIZE -> so <= MAX_QUEUE_SIZE ->
     exists s', step (OpCreate init mac b name ni no si so) s = Some s' /\
       all_ports_ s' !! name = Some a /\ objs s' !! a = None /\ mods s' = mods s).
Proof.
  intros [HN HW]%reachable_ok. split; [|split; [|split; [|split]]].
  - intros o Ho. destruct (net_step_spec s o HN HW Ho) as (s' & ? & _). by exists s'.
  - intros m x Hx. destruct (ni_mods _ HN m x Hx) as (p & Hp & _). exists p. split; [done|]. by apply (ni_objs _ HN).
  - intros m1 m2 x1 x2 p d i H1 H2 Hp Heq Hc1 Hc2.
    assert (Hu1 : users (on d p) !! i = Some (Some m1)) by (apply (ni_users _ HN _ _ _ _ _ Hp); by exists x1).
    assert (Hu2 : users (on d p) !! i = Some (Some m2)) by (apply (ni_users _ HN _ _ _ _ _ Hp); by exists x2). congruence.
  - intros m a avail wq p i j q Hm Hp Hi Hj Hq. destruct (HW m a avail wq Hm) as (_ & p' & Hp' & [Hr _ Hs]). simplify_eq.
    assert (Hq' : q = -1 \/ 0 <= q < num_queues (out p)) by (apply (proj1 (Forall_forall _ wq) Hr); by eapply list_elem_of_lookup_2).
    destruct Hq' as [|Hq']; [done|]. split; [done|]. eapply held_unique; [|done|done|lia].
    assert (Hnd : NoDup (avail ++ held wq)) by (rewrite Hs; apply NoDup_seqZ). by apply NoDup_app in Hnd as (_ & _ & ?).
  - intros init mac b name ni no si so a Hne Ha Hi Ho Hsi Hso.
    destruct (create_port_answers init mac b name ni no si so s Hne) as (s' & e & Hc). exists s'. cbn [step]. rewrite Hc.
    destruct (create_port_name_in_use _ _ _ _ _ _ _ _ _ _ _ _ Hc Hne Ha Hi Ho Hsi Hso) as (H1 & H2 & H3 & _). done.
Qed.

(** C13: After an orderly history, a worker that has a queue of a [PortOut] can send a batch: of a port that is up the driver
    takes the first packets, and the others are freed, each once; nothing else of the port changes; and unless the driver counts by itself
    ([DRIVER_FLAG_SELF_OUT_STATS]) the counters of the worker's own queue say how many of each. *)
Theorem port_out_conserves {dev} {D : Driver dev} {L : DriverLaws dev} s m a avail wq p wid q (d : dev) batch :
  reachable s -> mods s !! m = Some (PortOut a avail wq) -> objs s !! a = Some p -> wq !! wid = Some q -> q <> -1 ->
  exists d' p' sent acts, ProcessBatch (PortOut a avail wq) wid d p batch = Some (d', p', acts) /\
    (sent, d') = (if admin_up (conf_ p) then SendPackets d q batch else (0, d)) /\ 0 <= sent <= Z.of_nat (length batch) /\
    concat (map (fun x => match x with Free l => l | _ => [] end) acts) = drop (Z.to_nat sent) batch /\
    Forall (fun x => exists l, x = Free l) acts /\
    users (out p') = users (out p) /\ inc p' = inc p /\
    (Z.land GetFlags DRIVER_FLAG_SELF_OUT_STATS = 0 -> exists st, queue_stats (out p) !! Z.to_nat q = Some st /\
       queue_stats (out p') !! Z.to_nat q = Some (MkStats (u64 (packets st + sent)) (u64 (dropped st + (Z.of_nat (length batch) - sent)))
                                                          (u64 (bytes_ st + sum_lens (take (Z.to_nat sent) batch) 0)))).
Proof.
  intros [HN HW]%reachable_ok Hm Hp Hq Hne. destruct (HW m a avail wq Hm) as (_ & p0 & Hp0 & [Hr Hn _]). simplify_eq.
  destruct (ni_objs _ HN _ _ Hp) as [_ Hok].
  assert (Hq' : q = -1 \/ 0 <= q < num_queues (out p)) by (apply (proj1 (Forall_forall _ wq) Hr); by eapply list_elem_of_lookup_2).
  destruct Hq' as [|Hq']; [done|]. unfold MAX_QUEUES_PER_DIR in Hn.
  unfold ProcessBatch, PortOut_ProcessBatch. rewrite Hq. cbn [mbind option_bind]. rewrite (wrap_small 8 q) by (unfold in_word; lia).
  rewrite (proj2 (Z.ltb_lt q (num_queues (out p)))) by lia. cbn [andb].
  destruct (send_batch_spec (admin_up (conf_ p)) q d p batch Hok Hq') as (d' & p' & sent & acts & -> & Hs & Hsend & -> & Hu & _ & Hi & Hst).
  exists d', p', sent. eexists. split; [done|]. do 2 (split; [done|]).
  destruct (Z.ltb_spec sent (Z.of_nat (length batch))) as [Hlt|Hge]; cbn.
  - rewrite app_nil_r. split; [done|]. split; [repeat constructor; by eexists|done].
  - rewrite drop_ge by lia. split; [done|]. split; [constructor|done].
Qed.

(** ** Examples *)
Definition ex_builder : PortBuilder := MkBuilder "UnixSocketPort" "" 256 256.
Definition ex_create (name : string) : op := OpCreate (fun _ => inr tt) [2; 0; 0; 0; 0; 1] ex_builder name 2 2 0 0.
Definition ex_actives : list bool := [true; true] ++ replicate 62 false.
Definition ex_ops : list op := [ex_create ""; OpInit KPortOut 1 "unix_socket_port0" 0; OpInit KQueueInc 2 "unix_socket_port0" 1; OpEvent 1 ex_actives].
Definition run_ops (l : list op) : net := fold_left (fun s o => default s (step o s)) l (MkNet ∅ ∅ 0 ∅).
Definition ex_net : net := run_ops ex_ops.

Lemma reach_run l o s' : reachable (run_ops l) -> orderly (run_ops l) o -> step o (run_ops l) = Some s' -> reachable (run_ops (l ++ [o])).
Proof. intros Hr Ha Hs. unfold run_ops in *. rewrite fold_left_app. cbn. rewrite Hs. by eapply reach_step. Qed.

Lemma ex_net_reachable : reachable ex_net.
Proof.
  assert (Hstep : forall l o, reachable (run_ops l) -> orderly (run_ops l) o -> reachable (run_ops (l ++ [o]))).
  { intros l o Hr Ha. destruct (reachable_ok _ Hr) as [HN HW]. destruct (net_step_spec _ _ HN HW Ha) as (s' & Hs & _). by eapply reach_run. }
  apply (Hstep [ex_create ""; OpInit KPortOut 1 "unix_socket_port0" 0; OpInit KQueueInc 2 "unix_socket_port0" 1]).
  - apply (Hstep [ex_create ""; OpInit KPortOut 1 "unix_socket_port0" 0]); [|by vm_compute].
    apply (Hstep [ex_create ""]); [|by vm_compute]. apply (Hstep []); [apply reach_init|by right].
  - split; [by vm_compute; eexists|]. split; [done|]. intros a avail wq p Hm Hp. vm_compute in Hm. injection Hm as <- <- <-.
    vm_compute in Hp. injection Hp as <-. by vm_compute.
Qed.

Definition ex_wq : list Z := [1; 0] ++ replicate 62 (-1).
Definition ex_port : Port := default (new_port "" [] (new_queues 1 1) (new_queues 1 1)) (objs ex_net !! 0%nat).

Lemma ports_safe_witness : (forall o, orderly ex_net o -> exists s', step o ex_net = Some s') /\
  mods ex_net !! 1%nat = Some (PortOut 0 [] ex_wq).
Proof. destruct (ports_safe ex_net ex_net_reachable) as [H _]. exact (conj H eq_refl). Defined.

(** A driver whose queue holds one packet. *)
#[local] Instance ex_driver : Driver unit := {
  RecvPackets _ _ _ := ([], tt);
  SendPackets _ _ pkts := (Z.min 1 (Z.of_nat (length pkts)), tt);
  GetFlags := 0 }.
#[local] Instance ex_driver_laws : DriverLaws unit.
Proof. split; intros; cbn [RecvPackets SendPackets ex_driver fst length]; lia. Qed.

Definition ex_batch : list Packet := [packet_of [1; 2; 3]; packet_of [4; 5]; packet_of [6]].

Lemma port_out_conserves_witness : exists d' p' sent acts, ProcessBatch (PortOut 0 [] ex_wq) 0 tt ex_port ex_batch = Some (d', p', acts) /\
  0 <= sent <= Z.of_nat (length ex_batch).
Proof.
  destruct (port_out_conserves ex_net 1 0 [] ex_wq ex_port 0 1 tt ex_batch ex_net_reachable) as (d' & p' & sent & acts & H1 & _ & H2 & _).
  - vm_compute. reflexivity.
  - vm_compute. reflexivity.
  - reflexivity.
  - discriminate.
  - exact (ex_intro _ d' (ex_intro _ p' (ex_intro _ sent (ex_intro _ acts (conj H1 H2))))).
Defined.

(** ** What the code does wrong *)

(** A port created under a name in use deletes the old port, which its module keeps using; no error is given. *)
Example create_port_deletes_port : exists s', create_port (fun _ => inr tt) [] ex_builder "unix_socket_port0" 1 1 0 0 ex_net = Some (s', inr None) /\
  mods s' !! 1%nat = Some (PortOut 0 [] ex_wq) /\ objs s' !! 0%nat = None.
Proof. eexists. split; [by vm_compute|]. by vm_compute. Qed.

(** [conf_.mtu = conf_.mtu]: the new MTU is never recorded. *)
Lemma update_conf_mtu set_mtu set_mac start conf c : mtu (UpdateConf set_mtu set_mac start conf c).1 = mtu c.
Proof. unfold UpdateConf. cbv zeta. repeat (destruct (negb _); cbn [mtu fst]; try done). all: destruct (admin_up conf); cbn; try done; by destruct (start =? 0). Qed.

(** A port that is told to go down stops its device, but stays up for the modules. *)
Lemma update_conf_stays_up set_mtu set_mac start conf c : admin_up c = true -> admin_up (UpdateConf set_mtu set_mac start conf c).1 = true.
Proof.
  intros Hc. unfold UpdateConf. cbv zeta. destruct (negb (_ =? 0)); [done|]. destruct (negb (_ =? 0)); [done|].
  destruct (_ && _), (admin_up conf); cbn [admin_up fst]; try done; by destruct (start =? 0).
Qed.

(** Queue 256 is queue 0. *)
Example queue_inc_truncates p : built KQueueInc 0 p 256 = QueueInc 0 0 kMaxBurst.
Proof. done. Qed.
