(* ===== verification/Histogram.v ===== *)
(** Histograms: [core/utils/histogram.h], with [uint64_t] for [T].

    The doubles are the binary64 numbers of the standard library; the two conversions, the
    product, the quotient and the difference each round once.  [None] is a division by a
    bucket width of 0.  The atomic counters are 64-bit words. *)
From Stdlib Require Import SpecFloat Sorted.
From S2P Require Import Prelude Common.
Open Scope Z_scope.

Record Histogram := MkHist { bucket_width_ : Z; buckets_ : list Z }.

Definition hist_new (num_buckets bucket_width : Z) : Histogram := MkHist bucket_width (replicate (Z.to_nat (num_buckets + 1)) 0).
Definition Resize (h : Histogram) (num_buckets bucket_width : Z) : Histogram :=
  MkHist bucket_width (replicate (Z.to_nat (num_buckets + 1)) 0).
Definition Reset (h : Histogram) : Histogram := MkHist (bucket_width_ h) (replicate (length (buckets_ h)) 0).
Definition num_buckets (h : Histogram) : Z := Z.of_nat (length (buckets_ h)).
Definition max_num_buckets : Z := 10000000.

(** The last bucket is for what is above the range. *)
Definition index (h : Histogram) (x : Z) : nat := Nat.min (Z.to_nat (x / bucket_width_ h)) (length (buckets_ h) - 1).
Definition Insert (h : Histogram) (x : Z) : option Histogram :=
  if bucket_width_ h =? 0 then None
  else
    let i := index h x in
    b ← buckets_ h !! i;
    Some (MkHist (bucket_width_ h) (<[i := u64 (1 + b)]> (buckets_ h))).

(** ** Summaries *)
Record Summary := MkSummary { count : Z; above_range : Z; min_ : Z; max_ : Z; avg : Z; total : Z; percentile_values : list Z }.

(** [std::accumulate(buckets_.begin(), buckets_.end(), 0)]: the accumulator is an [int]. *)
Definition accumulate (bs : list Z) : Z := fold_left (fun init b => to_int (u64 (u64 init + b))) bs 0.

Definition dbl (x : Z) : spec_float := binary_normalize 53 1024 x 0 false.
Definition epsilon : spec_float := binary_normalize 53 1024 1 (-52) false.

(** The negation of the condition of the [break]. *)
Definition reached (count_so_far count : Z) (p : spec_float) : bool :=
  negb ((count_so_far <? count) &&
    SFltb (SFsub 53 1024 (SFdiv 53 1024 (SFmul 53 1024 (dbl count_so_far) (dbl 100)) (dbl count)) p) epsilon).

(** The percentiles that take the value of a bucket, and those that are left. *)
Fixpoint take_reached (count_so_far count val : Z) (ps : list spec_float) : list Z * list spec_float :=
  match ps with
  | [] => ([], [])
  | p :: ps' =>
      if reached count_so_far count p then let r := take_reached count_so_far count val ps' in (val :: r.1, r.2)
      else ([], ps)
  end.

Record scan := MkScan { s_found : bool; s_min : Z; s_max : Z; s_total : Z; s_count : Z; s_values : list Z; s_left : list spec_float }.

Definition scan_bucket (width count : Z) (i : nat) (freq : Z) (s : scan) : scan :=
  let val := u64 (Z.of_nat i * width) in
  let total := u64 (s_total s + val * freq) in
  let count_so_far := u64 (s_count s + freq) in
  if 0 <? freq then
    let r := take_reached count_so_far count val (s_left s) in
    MkScan true (if s_found s then s_min s else val) val total count_so_far (s_values s ++ r.1) r.2
  else MkScan (s_found s) (s_min s) (s_max s) total count_so_far (s_values s) (s_left s).

Fixpoint scan_buckets (width count : Z) (i : nat) (bs : list Z) (s : scan) : scan :=
  match bs with [] => s | freq :: bs => scan_buckets width count (S i) bs (scan_bucket width count i freq s) end.

(** [percentile_values] starts as zeroes. *)
Definition Summarize (h : Histogram) (percentiles : list spec_float) : option Summary :=
  back ← last (buckets_ h);
  let cnt := u64 (accumulate (buckets_ h)) in
  let s := scan_buckets (bucket_width_ h) cnt 0 (buckets_ h) (MkScan false 0 0 0 0 [] percentiles) in
  Some (MkSummary cnt back (s_min s) (s_max s) (if 0 <? cnt then s_total s / cnt else 0) (s_total s)
          (s_values s ++ replicate (length (s_left s)) 0)).

Definition insert_all (xs : list Z) (h : Histogram) : option Histogram := fold_left (fun h x => h ← h; Insert h x) xs (Some h).

(** ** Samples *)
Definition zsum (l : list Z) : Z := fold_right Z.add 0 l.

Lemma zsum_cons x l : zsum (x :: l) = x + zsum l.
Proof. done. Qed.

Lemma zsum_app l k : zsum (l ++ k) = zsum l + zsum k.
Proof. induction l as [|x l IH]; cbn [app]; [done|]. rewrite !zsum_cons, IH. lia. Qed.

Lemma zsum_insert l i b c : l !! i = Some b -> zsum (<[i := c]> l) = zsum l - b + c.
Proof.
  revert i. induction l as [|x l IH]; intros [|i]; cbn [lookup list_lookup]; try done.
  - intros [= ->]. change (<[0%nat := c]> (b :: l)) with (c :: l). rewrite !zsum_cons. lia.
  - intros H. specialize (IH i H). change (<[S i := c]> (x :: l)) with (x :: <[i := c]> l). rewrite !zsum_cons, IH. lia.
Qed.

#[export] Instance zsum_perm : Proper (Permutation ==> eq) zsum.
Proof. intros l k H. induction H; rewrite ?zsum_cons; lia. Qed.

Lemma zsum_nonneg l : Forall (fun x => 0 <= x) l -> 0 <= zsum l.
Proof. induction 1; [done|]. rewrite zsum_cons. lia. Qed.

Lemma accumulate_small bs : Forall (fun x => 0 <= x) bs -> zsum bs < 2 ^ 31 -> accumulate bs = zsum bs.
Proof.
  intros Hbs Hlt. unfold accumulate. assert (H : forall a, 0 <= a -> a + zsum bs < 2 ^ 31 ->
    fold_left (fun init b => to_int (u64 (u64 init + b))) bs a = a + zsum bs); [|rewrite H by lia; lia].
  clear Hlt. induction Hbs as [|b bs Hb Hbs IH]; intros a Ha Hsum; [cbn in *; lia|]. cbn [fold_left].
  pose proof (zsum_nonneg bs Hbs). change (zsum (b :: bs)) with (b + zsum bs) in *.
  rewrite (wrap_small 64 a) by (unfold in_word; lia). rewrite wrap_small by (unfold in_word; lia).
  rewrite to_int_small by lia. rewrite IH by lia. lia.
Qed.

Section samples.
(** A histogram of [n] buckets of width [w], and one for what is above. *)
Context (n w : Z).
Hypothesis (Hn : 0 <= n) (Hw : 0 < w).

Definition bucket (x : Z) : nat := Nat.min (Z.to_nat (x / w)) (Z.to_nat n).
(** The representative value of the bucket of a sample. *)
Definition rep (x : Z) : Z := Z.of_nat (bucket x) * w.

Lemma rep_above x : 0 <= x -> rep x = if n * w <=? x then n * w else x - x mod w.
Proof.
  intros Hx. unfold rep, bucket. assert (Hd : 0 <= x / w) by (apply Z.div_pos; lia). pose proof (Z.div_mod x w ltac:(lia)).
  rewrite Nat2Z.inj_min, !Z2Nat.id by lia. destruct (Z.leb_spec (n * w) x) as [Hle|Hlt].
  - rewrite Z.min_r; [done|]. apply Z.div_le_lower_bound; lia.
  - rewrite Z.min_l; [lia|]. apply Z.lt_le_incl, Z.div_lt_upper_bound; lia.
Qed.

Definition hits (xs : list Z) (i : nat) : nat := length (filter (fun x => bucket x = i) xs).

Lemma hits_snoc xs x i : hits (xs ++ [x]) i = (hits xs i + if decide (bucket x = i) then 1 else 0)%nat.
Proof. unfold hits. rewrite filter_app, length_app, filter_cons. by destruct (decide (bucket x = i)). Qed.

Lemma bucket_le x : (bucket x <= Z.to_nat n)%nat.
Proof. apply Nat.le_min_r. Qed.

Lemma hits_length xs i : (hits xs i <= length xs)%nat.
Proof. apply length_filter. Qed.

(** After any samples the buckets hold how many fell in each. *)
Lemma insert_all_spec xs : Z.of_nat (length xs) < 2 ^ 64 -> exists bs, insert_all xs (hist_new n w) = Some (MkHist w bs) /\
  length bs = S (Z.to_nat n) /\ (forall i, (i <= Z.to_nat n)%nat -> bs !! i = Some (Z.of_nat (hits xs i))) /\ zsum bs = Z.of_nat (length xs).
Proof.
  induction xs as [|x xs IH] using rev_ind; intros Hlen.
  - exists (replicate (Z.to_nat (n + 1)) 0). split; [done|]. split; [rewrite length_replicate; lia|]. split.
    + intros i Hi. rewrite lookup_replicate_2 by lia. done.
    + assert (H : forall k, zsum (replicate k 0) = 0) by (induction k; [done|]; cbn [replicate]; rewrite zsum_cons; lia). by rewrite H.
  - rewrite length_app in Hlen. cbn in Hlen. destruct IH as (bs & Hins & Hlb & Hb & Hs); [lia|]. unfold insert_all in *.
    rewrite fold_left_app, Hins. cbn [fold_left mbind option_bind]. unfold Insert, index. cbn [bucket_width_ buckets_].
    rewrite (proj2 (Z.eqb_neq w 0)) by lia. rewrite Hlb. replace (S (Z.to_nat n) - 1)%nat with (Z.to_nat n) by lia. fold (bucket x).
    rewrite Hb by apply bucket_le. cbn [mbind option_bind]. pose proof (hits_length xs (bucket x)) as Hh.
    rewrite wrap_small by (unfold in_word; lia). eexists. split; [done|]. split; [by rewrite length_insert|]. split.
    + intros i Hi. rewrite hits_snoc. destruct (decide (bucket x = i)) as [<-|Hne].
      * rewrite list_lookup_insert_eq by (rewrite Hlb; pose proof (bucket_le x); lia). f_equal. lia.
      * rewrite list_lookup_insert_ne, Hb by done. f_equal. lia.
    + rewrite (zsum_insert _ _ (Z.of_nat (hits xs (bucket x)))) by (apply Hb, bucket_le). rewrite Hs, length_app. cbn [length]. lia.
Qed.

(** ** The scan *)
Context (xs : list Z) (ps : list spec_float).
Hypothesis (Hxs : Forall (fun x => 0 <= x) xs) (Hlen : Z.of_nat (length xs) < 2 ^ 31) (Hfit : n * w < 2 ^ 64).
Let cnt : Z := Z.of_nat (length xs).

Definition lo (i : nat) : list Z := filter (fun x => (bucket x < i)%nat) xs.
(** How many samples are in the buckets up to the one of value [v]. *)
Definition count_upto (v : Z) : Z := Z.of_nat (length (filter (fun x => rep x <= v) xs)).

Lemma lo_S i : lo (S i) ≡ₚ lo i ++ filter (fun x => bucket x = i) xs.
Proof.
  unfold lo. clear Hxs Hlen cnt. induction xs as [|x l IH]; [done|]. rewrite !filter_cons.
  destruct (decide (bucket x < S i)%nat), (decide (bucket x < i)%nat), (decide (bucket x = i)); try lia; cbn [app].
  - by rewrite IH.
  - by rewrite <- Permutation_middle, IH.
  - done.
Qed.

Lemma lo_count_upto i : Z.of_nat (length (lo (S i))) = count_upto (Z.of_nat i * w).
Proof.
  unfold lo, count_upto. do 2 f_equal. apply list_filter_iff. intros x. unfold rep. split; intros ?; [apply Z.mul_le_mono_nonneg_r; lia|].
  apply Nat.lt_succ_r, Nat2Z.inj_le. by apply (Z.mul_le_mono_pos_r _ _ w).
Qed.

Lemma rep_sum_bucket i l : Forall (fun x => bucket x = i) l -> zsum (map rep l) = Z.of_nat i * w * Z.of_nat (length l).
Proof. induction 1 as [|x l Hx Hl IH]; [cbn; lia|]. cbn [map length]. change (zsum (rep x :: map rep l)) with (rep x + zsum (map rep l)). rewrite IH. unfold rep. rewrite Hx. lia. Qed.

(** A percentile that has its value [v]: the samples up to [v] reach it, and for every lesser
    value some percentile up to this one was not reached. *)
Definition percentile_ok (k : nat) (p : spec_float) (v : Z) : Prop :=
  v ∈ map rep xs /\ reached (count_upto v) cnt p = true /\
  forall x, x ∈ xs -> rep x < v -> exists j q, (j <= k)%nat /\ ps !! j = Some q /\ reached (count_upto (rep x)) cnt q = false.

Record scanned (i : nat) (s : scan) : Prop := {
  sc_count : s_count s = Z.of_nat (length (lo i));
  sc_total : s_total s = u64 (zsum (map rep (lo i)));
  sc_none : s_found s = false -> lo i = [] /\ s_min s = 0 /\ s_max s = 0;
  sc_some : s_found s = true -> s_min s ∈ map rep xs /\ (forall x, x ∈ xs -> s_min s <= rep x) /\
    s_max s ∈ map rep (lo i) /\ (forall x, x ∈ lo i -> rep x <= s_max s);
  sc_left : s_left s = drop (length (s_values s)) ps /\ (length (s_values s) <= length ps)%nat;
  sc_values : forall k v, s_values s !! k = Some v -> v < Z.of_nat i * w /\ exists p, ps !! k = Some p /\ percentile_ok k p v;
  sc_sorted : StronglySorted Z.le (s_values s);
  sc_pending : (length (s_values s) < length ps)%nat -> forall x, x ∈ lo i ->
    exists j q, (j <= length (s_values s))%nat /\ ps !! j = Some q /\ reached (count_upto (rep x)) cnt q = false }.

Lemma take_reached_spec c val l : exists m, (m <= length l)%nat /\ take_reached c cnt val l = (replicate m val, drop m l) /\
  (forall j p, (j < m)%nat -> l !! j = Some p -> reached c cnt p = true) /\ (forall p, l !! m = Some p -> reached c cnt p = false).
Proof.
  induction l as [|p l (m & Hm & Heq & H1 & H2)]; cbn [take_reached].
  - exists 0%nat. do 2 (split; [done|]). split; [lia|done].
  - destruct (reached c cnt p) eqn:Hp.
    + exists (S m). split; [cbn; lia|]. rewrite Heq. split; [done|]. split; [|done].
      intros [|j] q Hj; [by intros [= <-]|]. apply H1. lia.
    + exists 0%nat. split; [lia|]. split; [done|]. split; [lia|]. by intros q [= <-].
Qed.

Lemma lo_mono x i : x ∈ lo i -> x ∈ xs /\ (bucket x < i)%nat.
Proof. unfold lo. rewrite list_elem_of_filter. tauto. Qed.

Lemma lo_elem x i : x ∈ xs -> (bucket x < i)%nat -> x ∈ lo i.
Proof. unfold lo. rewrite list_elem_of_filter. tauto. Qed.

Lemma rep_lt x y : (bucket x < bucket y)%nat <-> rep x < rep y.
Proof. unfold rep. split; intros ?; [apply Z.mul_lt_mono_pos_r; lia|]. apply Nat2Z.inj_lt, (Z.mul_lt_mono_pos_r w); lia. Qed.

Lemma sorted_snoc (l : list Z) m v : StronglySorted Z.le l -> Forall (fun x => x <= v) l -> StronglySorted Z.le (l ++ replicate m v).
Proof.
  intros Hs Hle. induction Hs as [|x l Hs IH Hx]; cbn [app].
  - induction m as [|m IHm]; cbn; constructor; [done|]. apply Forall_replicate. lia.
  - apply Forall_cons in Hle as [H1 H2]. constructor; [by apply IH|]. apply Forall_app. split; [done|]. by apply Forall_replicate.
Qed.

Lemma scan_empty i s : filter (fun x => bucket x = i) xs = [] -> scanned i s -> scanned (S i) (scan_bucket w cnt i (Z.of_nat (hits xs i)) s).
Proof.
  intros He [H1 H2 H3 H4 H5 H6 H7 H8]. assert (Hlo : lo (S i) ≡ₚ lo i) by (by rewrite lo_S, He, app_nil_r).
  unfold scan_bucket, hits. rewrite He. change (Z.of_nat (length [])) with 0. cbn [Z.ltb Z.compare].
  assert (Hin : forall x, x ∈ lo (S i) <-> x ∈ lo i) by (intros x; by rewrite Hlo).
  split; cbn [s_count s_total s_found s_min s_max s_values s_left].
  - rewrite H1, Hlo, Z.add_0_r. apply wrap_small. unfold in_word. pose proof (length_filter (fun x => (bucket x < i)%nat) xs). unfold lo, cnt in *. lia.
  - rewrite H2, Hlo, Z.mul_0_r, Z.add_0_r. apply wrap_wrap.
  - intros Hf. destruct (H3 Hf) as (Hl & ?). split; [|done]. apply Permutation_nil. by rewrite Hlo, Hl.
  - intros Hf. destruct (H4 Hf) as (G1 & G2 & G3 & G4). split; [done|]. split; [done|]. split; [by rewrite Hlo|].
    intros x Hx%Hin. by apply G4.
  - done.
  - intros k v Hk. destruct (H6 k v Hk) as [? Hp]. split; [lia|done].
  - done.
  - intros Hl x Hx%Hin. by apply H8.
Qed.

Lemma scan_full i s : (i <= Z.to_nat n)%nat -> filter (fun x => bucket x = i) xs <> [] -> scanned i s ->
  scanned (S i) (scan_bucket w cnt i (Z.of_nat (hits xs i)) s).
Proof.
  intros Hi Hne [H1 H2 H3 H4 [H5 H5'] H6 H7 H8]. set (at_i := filter (fun x => bucket x = i) xs) in *.
  assert (Hat : Forall (fun x => bucket x = i) at_i) by (apply Forall_forall; intros x Hx; by apply list_elem_of_filter in Hx as [? _]).
  assert (Hval : u64 (Z.of_nat i * w) = Z.of_nat i * w).
  { apply wrap_small. unfold in_word. split; [apply Z.mul_nonneg_nonneg; lia|]. apply Z.le_lt_trans with (n * w); [apply Z.mul_le_mono_nonneg_r; lia|done]. }
  set (v := Z.of_nat i * w) in *.
  assert (Hcount : u64 (s_count s + Z.of_nat (hits xs i)) = count_upto v).
  { rewrite H1. unfold v. rewrite <- lo_count_upto, lo_S, length_app, Nat2Z.inj_add. apply wrap_small. unfold in_word.
    pose proof (length_filter (fun x => (bucket x < S i)%nat) xs) as Hl. fold (lo (S i)) in Hl. rewrite lo_S, length_app in Hl.
    unfold hits, cnt in *. lia. }
  destruct (list_elem_of_lookup_1 at_i (hd 0 at_i)) as [i0 Hi0]; [destruct at_i; [done|by left]|].
  set (y := hd 0 at_i) in *. assert (Hy : y ∈ at_i) by (by eapply list_elem_of_lookup_2).
  assert (Hyx : y ∈ xs /\ bucket y = i) by (unfold at_i in Hy; apply list_elem_of_filter in Hy; tauto).
  assert (Hrepy : rep y = v) by (unfold rep, v; by destruct Hyx as [_ ->]).
  assert (Hhits : 0 < Z.of_nat (hits xs i)) by (unfold hits; fold at_i; destruct at_i; [done|cbn; lia]).
  assert (Hlo : forall x, x ∈ lo (S i) -> x ∈ lo i \/ x ∈ at_i) by (intros x; rewrite lo_S; apply elem_of_app).
  assert (Hloi : forall x, x ∈ lo i -> rep x < v).
  { intros x [_ Hx]%lo_mono. rewrite <- Hrepy. apply rep_lt. lia. }
  assert (Hrepi : forall x, x ∈ at_i -> rep x = v) by (intros x Hx; rewrite Forall_forall in Hat; unfold rep, v; by rewrite (Hat x Hx)).
  unfold scan_bucket. fold v. rewrite Hval, Hcount, (proj2 (Z.ltb_lt 0 _)) by lia.
  destruct (take_reached_spec (count_upto v) v (s_left s)) as (m & Hm & Htake & Hr1 & Hr2). rewrite Htake.
  assert (Hleft : forall j, s_left s !! j = ps !! (length (s_values s) + j)%nat) by (intros j; by rewrite H5, lookup_drop).
  assert (Hlv : length (s_values s ++ replicate m v) = (length (s_values s) + m)%nat) by (by rewrite length_app, length_replicate).
  split; cbn [s_count s_total s_found s_min s_max s_values s_left fst snd].
  - by rewrite lo_count_upto.
  - rewrite H2, lo_S. fold at_i. rewrite map_app, zsum_app, (rep_sum_bucket i at_i Hat). unfold wrap. by rewrite Zplus_mod_idemp_l.
  - done.
  - intros _. split; [|split; [|split]].
    + destruct (s_found s) eqn:Hf; [by apply H4|]. rewrite <- Hrepy. by apply list_elem_of_fmap_2, Hyx.
    + intros x Hx. destruct (s_found s) eqn:Hf; [by apply H4|]. destruct (H3 eq_refl) as (Hlo0 & _).
      rewrite <- Hrepy. apply Z.nlt_ge. intros Hlt%rep_lt. assert (Hxl : x ∈ lo i) by (apply lo_elem; [done|]; lia).
      rewrite Hlo0 in Hxl. by apply not_elem_of_nil in Hxl.
    + rewrite <- Hrepy. apply list_elem_of_fmap_2. rewrite lo_S. apply elem_of_app. by right.
    + intros x [Hx|Hx]%Hlo; [apply Z.lt_le_incl; by apply Hloi|by rewrite (Hrepi x Hx)].
  - rewrite Hlv. rewrite H5, drop_drop. split; [done|]. rewrite H5, length_drop in Hm. lia.
  - intros k u Hk. apply lookup_app_Some in Hk as [Hk|[Hge Hk]].
    + destruct (H6 k u Hk) as [? Hp]. split; [unfold v in *; lia|done].
    + apply lookup_replicate_1 in Hk as [-> Hkm]. split; [unfold v; lia|].
      destruct (lookup_lt_is_Some_2 (s_left s) (k - length (s_values s))) as [p Hp]; [lia|].
      exists p. pose proof Hp as Hp'. rewrite Hleft in Hp'. replace (length (s_values s) + (k - length (s_values s)))%nat with k in Hp' by lia.
      split; [done|]. split; [rewrite <- Hrepy; by apply list_elem_of_fmap_2, Hyx|]. split; [by apply (Hr1 _ _ Hkm)|].
      intros x Hx Hlt. assert (Hxl : x ∈ lo i) by (apply lo_elem; [done|]; rewrite <- Hrepy in Hlt; apply rep_lt in Hlt; lia).
      destruct (H8 ltac:(rewrite H5, length_drop in Hm; lia) x Hxl) as (j & q & Hj & ? & ?). exists j, q. split; [lia|done].
  - apply sorted_snoc; [done|]. apply Forall_lookup. intros k u Hk. destruct (H6 k u Hk) as [? _]. unfold v. lia.
  - rewrite Hlv. intros Hlt x [Hx|Hx]%Hlo.
    + destruct (H8 ltac:(lia) x Hx) as (j & q & Hj & ? & ?). exists j, q. split; [lia|done].
    + destruct (lookup_lt_is_Some_2 ps (length (s_values s) + m)) as [q Hq]; [lia|]. exists (length (s_values s) + m)%nat, q.
      split; [lia|]. split; [done|]. rewrite (Hrepi x Hx). apply Hr2. by rewrite Hleft.
Qed.

Lemma scan_all rest i s : scanned i s -> (i + length rest <= S (Z.to_nat n))%nat ->
  (forall j b, rest !! j = Some b -> b = Z.of_nat (hits xs (i + j))) -> scanned (i + length rest) (scan_buckets w cnt i rest s).
Proof.
  revert i s. induction rest as [|b rest IH]; intros i s Hs Hi Hb; cbn [scan_buckets length].
  - by rewrite Nat.add_0_r.
  - cbn in Hi. rewrite (Hb 0%nat b eq_refl), Nat.add_0_r. replace (i + S (length rest))%nat with (S i + length rest)%nat by lia.
    apply IH; [|lia|intros j c Hj; rewrite (Hb (S j) c Hj); do 2 f_equal; lia].
    destruct (filter (fun x => bucket x = i) xs) eqn:He; [by apply scan_empty|]. apply scan_full; [lia|by rewrite He|done].
Qed.

Lemma scanned_start : scanned 0 (MkScan false 0 0 0 0 [] ps).
Proof.
  assert (Hlo : lo 0 = []) by (unfold lo; clear; induction xs as [|x l IH]; [done|rewrite filter_cons, decide_False by lia; done]).
  split; rewrite ?Hlo; cbn [s_count s_total s_found s_min s_max s_values s_left]; try done.
  - split; [done|cbn; lia].
  - constructor.
  - intros _ x Hx. by apply not_elem_of_nil in Hx.
Qed.

Lemma lo_last : lo (S (Z.to_nat n)) = xs.
Proof. unfold lo. clear. induction xs as [|x l IH]; [done|]. rewrite filter_cons, decide_True by (pose proof (bucket_le x); lia). by rewrite IH. Qed.

(** At the end all the percentiles have their values, when there are samples. *)
Lemma scanned_end s : scanned (S (Z.to_nat n)) s -> xs <> [] -> length (s_values s) = length ps.
Proof.
  intros Hs Hne. destruct (Nat.lt_ge_cases (length (s_values s)) (length ps)) as [Hlt|]; [|destruct (sc_left _ _ Hs); lia].
  exfalso. destruct (s_found s) eqn:Hf; [|destruct (sc_none _ _ Hs Hf) as [Hl _]; by rewrite lo_last in Hl].
  destruct (sc_some _ _ Hs Hf) as (_ & _ & Hmax & Hle). rewrite lo_last in Hmax, Hle.
  apply list_elem_of_fmap in Hmax as (x & Hmaxeq & Hx). destruct (sc_pending _ _ Hs Hlt x) as (j & q & _ & _ & Hr); [by rewrite lo_last|].
  assert (Hall : count_upto (rep x) = cnt).
  { unfold count_upto, cnt. do 2 f_equal. rewrite <- Hmaxeq. clear -Hle. induction xs as [|y l IH]; [done|].
    rewrite filter_cons, decide_True by (apply Hle; by left). f_equal. apply IH. intros z Hz. apply Hle. by right. }
  unfold reached in Hr. by rewrite Hall, Z.ltb_irrefl in Hr.
Qed.

Lemma hits_above : hits xs (Z.to_nat n) = length (filter (fun x => n * w <= x) xs).
Proof.
  unfold hits. clear Hlen cnt. induction Hxs as [|x l Hx Hl IH]; [done|]. rewrite !filter_cons. specialize (IH Hl).
  assert (Hiff : bucket x = Z.to_nat n <-> n * w <= x).
  { unfold bucket. assert (Hd : 0 <= x / w) by (apply Z.div_pos; lia). rewrite Nat.min_comm, Nat.min_l_iff.
    rewrite <- Z2Nat.inj_le by lia. split; [intros H|intros H; apply Z.div_le_lower_bound; lia].
    pose proof (Z.mul_div_le x w Hw). apply Z.le_trans with (w * (x / w)); [|done]. rewrite (Z.mul_comm n w). by apply Z.mul_le_mono_nonneg_l; [lia|]. }
  destruct (decide (bucket x = Z.to_nat n)) as [Hb|Hb].
  - rewrite decide_True by (by apply Hiff). cbn. by rewrite IH.
  - rewrite decide_False by (by rewrite <- Hiff). done.
Qed.

Lemma Summarize_spec : exists h s, insert_all xs (hist_new n w) = Some h /\ Summarize h ps = Some s /\
  count s = cnt /\ above_range s = Z.of_nat (length (filter (fun x => n * w <= x) xs)) /\
  total s = u64 (zsum (map rep xs)) /\ avg s = (if 0 <? cnt then total s / cnt else 0) /\
  length (percentile_values s) = length ps /\
  (xs = [] -> min_ s = 0 /\ max_ s = 0) /\
  (xs <> [] -> min_ s ∈ map rep xs /\ max_ s ∈ map rep xs /\ (forall x, x ∈ xs -> min_ s <= rep x <= max_ s) /\
     StronglySorted Z.le (percentile_values s) /\
     forall k v, percentile_values s !! k = Some v -> exists p, ps !! k = Some p /\ percentile_ok k p v).
Proof.
  destruct (insert_all_spec xs ltac:(lia)) as (bs & Hins & Hlb & Hb & Hsum). exists (MkHist w bs).
  unfold Summarize. cbn [buckets_ bucket_width_].
  assert (Hpos : Forall (fun x => 0 <= x) bs).
  { apply Forall_lookup. intros i b Hi. rewrite (Hb i) in Hi by (apply lookup_lt_Some in Hi; lia). injection Hi as <-. lia. }
  rewrite (accumulate_small bs Hpos) by lia. rewrite Hsum, (wrap_small 64) by (unfold in_word; lia). fold cnt.
  assert (Hlast : last bs = Some (Z.of_nat (hits xs (Z.to_nat n)))) by (rewrite last_lookup, Hlb; by apply Hb).
  rewrite Hlast. cbn [mbind option_bind]. pose proof (scan_all bs 0 _ scanned_start) as Hscan. cbn [Nat.add] in Hscan.
  rewrite Hlb in Hscan. specialize (Hscan (le_n _)).
  assert (Hs : scanned (S (Z.to_nat n)) (scan_buckets w cnt 0 bs (MkScan false 0 0 0 0 [] ps))).
  { apply Hscan. intros j b Hj. rewrite (Hb j) in Hj by (apply lookup_lt_Some in Hj; lia). by injection Hj as <-. }
  clear Hscan. set (s := scan_buckets w cnt 0 bs _) in *. eexists. split; [done|]. split; [done|].
  cbn [count above_range min_ max_ avg total percentile_values].
  split; [done|]. split; [by rewrite hits_above|]. split; [by rewrite (sc_total _ _ Hs), lo_last|]. split; [done|].
  destruct (sc_left _ _ Hs) as [Hl Hll]. split.
  { rewrite length_app, length_replicate, Hl, length_drop. lia. }
  split.
  - intros He. destruct (s_found s) eqn:Hf; [|by apply (sc_none _ _ Hs)]. destruct (sc_some _ _ Hs Hf) as (Hmin & _).
    rewrite He in Hmin. by apply not_elem_of_nil in Hmin.
  - intros Hne. pose proof (scanned_end s Hs Hne) as Hfull. rewrite Hl, Hfull, drop_all, app_nil_r.
    destruct (s_found s) eqn:Hf; [|destruct (sc_none _ _ Hs Hf) as [Hlo _]; by rewrite lo_last in Hlo].
    destruct (sc_some _ _ Hs Hf) as (H1 & H2 & H3 & H4). rewrite lo_last in H3, H4. split; [done|]. split; [done|].
    split; [intros x Hx; split; [by apply H2|by apply H4]|]. split; [apply (sc_sorted _ _ Hs)|].
    intros k v Hk. by apply (sc_values _ _ Hs).
Qed.
End samples.

(** The summary of any samples (fewer than 2^31): how many there are and how many are above the range, the least and
    the greatest representative value, the sum of these values and their average.  Each percentile is the value of a
    bucket with samples that reaches it, and below it some percentile no later in the list is not reached. *)
Theorem histogram_summary n w xs ps : 0 <= n -> 0 < w -> Forall (fun x => 0 <= x) xs -> Z.of_nat (length xs) < 2 ^ 31 -> n * w < 2 ^ 64 ->
  exists h s, insert_all xs (hist_new n w) = Some h /\ Summarize h ps = Some s /\
  count s = Z.of_nat (length xs) /\ above_range s = Z.of_nat (length (filter (fun x => n * w <= x) xs)) /\
  total s = u64 (zsum (map (rep n w) xs)) /\ avg s = (if 0 <? Z.of_nat (length xs) then total s / Z.of_nat (length xs) else 0) /\
  length (percentile_values s) = length ps /\
  (xs = [] -> min_ s = 0 /\ max_ s = 0) /\
  (xs <> [] -> min_ s ∈ map (rep n w) xs /\ max_ s ∈ map (rep n w) xs /\ (forall x, x ∈ xs -> min_ s <= rep n w x <= max_ s) /\
     StronglySorted Z.le (percentile_values s) /\
     forall k v, percentile_values s !! k = Some v -> exists p, ps !! k = Some p /\ percentile_ok n w xs ps k p v).
Proof. intros. by apply Summarize_spec. Qed.

Definition ex_samples : list Z := [1; 2; 3; 4; 5; 1002].
Lemma histogram_summary_witness : exists h s, insert_all ex_samples (hist_new 1000 1) = Some h /\
  Summarize h [dbl 25; dbl 50; dbl 75; dbl 100] = Some s /\ count s = 6.
Proof.
  destruct (histogram_summary 1000 1 ex_samples [dbl 25; dbl 50; dbl 75; dbl 100]) as (h & s & H1 & H2 & H3 & _).
  - lia.
  - lia.
  - unfold ex_samples. repeat constructor; lia.
  - reflexivity.
  - reflexivity.
  - exact (ex_intro _ h (ex_intro _ s (conj H1 (conj H2 H3)))).
Defined.

(** The comment promises the least value whose share is at least the percentile; at equality the code takes the next:
    half of the six samples are at most 3, and the 50th percentile is 4. *)
Example percentile_at_equality : (h ← insert_all [1; 2; 3; 4; 5; 6] (hist_new 8 1); Summarize h [dbl 50]) =
  Some (MkSummary 6 0 1 6 3 21 [4]).
Proof. by vm_compute. Qed.

(** The sum of the buckets is an [int]: 2^31 samples make a count of 2^64 - 2^31. *)
Example count_overflows : option_map count (Summarize (MkHist 1 [2 ^ 31; 0]) []) = Some (2 ^ 64 - 2 ^ 31).
Proof. by vm_compute. Qed.
