(* ===== verification/Measuring.v ===== *)
(** Latency: [core/modules/timestamp.cc], which writes the time into packets, and
    [core/modules/measure.cc], which reads it back into histograms.

    The readings of the clock are arguments.  The host is little-endian.  [None] is an access
    outside of a packet's buffer, or a division by zero. *)
From Stdlib Require Import SpecFloat.
From stdpp Require Import strings.
From S2P Require Import Prelude Common Bits Random PacketBuf Dataflow Histogram.
Open Scope Z_scope.

(** ** Timestamp *)
Definition kMarker : Z := 0x54C5BE55.
Definition kStampSize : Z := 12.

(** Without the room for it, a packet gets no timestamp. *)
Definition timestamp_packet (offset time : Z) (pkt : Packet) : option Packet :=
  let room := u64 (data_len_ pkt - offset) in
  match (if room <? kStampSize then append (kStampSize - room) pkt else Some pkt) with
  | None => Some pkt
  | Some pkt =>
      pkt ← head_write offset (le_store 4 kMarker) pkt;
      head_write (offset + 4) (le_store 8 time) pkt
  end.

(** The headers of Ethernet, IPv4 and UDP. *)
Definition default_offset : Z := 14 + 20 + 8.
Definition offset_of (arg : Z) : Z := if arg =? 0 then default_offset else arg.
Definition Timestamp_Init (offset : Z) : Z := offset_of offset.

Definition Timestamp_ProcessBatch (offset now_ns : Z) (batch : list Packet) : option (list (action Packet)) :=
  l ← mapM (timestamp_packet offset now_ns) batch; Some [RunChoose O l].

(** ** Measure *)
Definition IsTimestamped (offset : Z) (pkt : Packet) : option (option Z) :=
  marker ← head_read offset 4 pkt;
  if le_load marker =? kMarker then time ← head_read (offset + 4) 8 pkt; Some (Some (le_load time)) else Some None.

Record Measure := MkMeasure {
  rtt_hist_ : Histogram; jitter_hist_ : Histogram; rand_ : Z; jitter_sample_prob_ : spec_float; last_rtt_ns_ : Z;
  offset_ : Z; pkt_cnt_ : Z; bytes_cnt_ : Z }.

Definition kDefaultNsPerBucket : Z := 100.
Definition kDefaultMaxNs : Z := 100000000.
(** 0.05, rounded. *)
Definition kDefaultIpDvSampleProb : spec_float := SFdiv 53 1024 (dbl 5) (dbl 100).

Definition measure_new (ns_per_bucket max_ns seed : Z) : Measure :=
  MkMeasure (hist_new (max_ns / ns_per_bucket) ns_per_bucket) (hist_new (max_ns / ns_per_bucket) ns_per_bucket) seed (dbl 0) 0 0 0 0.

Inductive measure_errno := E2BIG | EINVAL.

Definition Measure_Init (m : Measure) (latency_ns_max latency_ns_resolution offset : Z) (jitter_sample_prob : spec_float) : Measure * (measure_errno + unit) :=
  let latency_ns_max := if latency_ns_max =? 0 then kDefaultMaxNs else latency_ns_max in
  let latency_ns_resolution := if latency_ns_resolution =? 0 then kDefaultNsPerBucket else latency_ns_resolution in
  let quotient := latency_ns_max / latency_ns_resolution in
  let quotient := if negb (latency_ns_max mod latency_ns_resolution =? 0) then u64 (quotient + 1) else quotient in
  if max_num_buckets / 2 <? quotient then (m, inl E2BIG)
  else
    (MkMeasure (Resize (rtt_hist_ m) quotient latency_ns_resolution) (Resize (jitter_hist_ m) quotient latency_ns_resolution) (rand_ m)
       (if negb (SFeqb jitter_sample_prob (dbl 0)) then jitter_sample_prob else kDefaultIpDvSampleProb) (last_rtt_ns_ m) (offset_of offset)
       (pkt_cnt_ m) (bytes_cnt_ m), inr tt).

Definition measure_packet (now_ns : Z) (m : Measure) (pkt : Packet) : option Measure :=
  t ← IsTimestamped (offset_ m) pkt;
  match t with
  | None => Some m
  | Some pkt_time =>
      if now_ns <? pkt_time then Some m
      else
        let diff := now_ns - pkt_time in
        let bytes := u64 (bytes_cnt_ m + total_len pkt) in
        rtt ← Insert (rtt_hist_ m) diff;
        let '(seed, real) := GetRealNonzero (rand_ m) in
        if SFleb (binary_normalize 53 1024 real (-52) false) (jitter_sample_prob_ m) then
          if last_rtt_ns_ m =? 0 then
            Some (MkMeasure rtt (jitter_hist_ m) seed (jitter_sample_prob_ m) diff (offset_ m) (pkt_cnt_ m) bytes)
          else
            jitter ← Insert (jitter_hist_ m) (absdiff diff (last_rtt_ns_ m));
            Some (MkMeasure rtt jitter seed (jitter_sample_prob_ m) diff (offset_ m) (pkt_cnt_ m) bytes)
        else Some (MkMeasure rtt (jitter_hist_ m) seed (jitter_sample_prob_ m) (last_rtt_ns_ m) (offset_ m) (pkt_cnt_ m) bytes)
  end.

Fixpoint measure_packets (now_ns : Z) (m : Measure) (batch : list Packet) : option Measure :=
  match batch with [] => Some m | pkt :: batch => m ← measure_packet now_ns m pkt; measure_packets now_ns m batch end.

(** Between [mcs_lock] and [mcs_unlock]; then the batch goes on. *)
Definition Measure_ProcessBatch (now_ns : Z) (m : Measure) (batch : list Packet) : option (Measure * list (action Packet)) :=
  let m := MkMeasure (rtt_hist_ m) (jitter_hist_ m) (rand_ m) (jitter_sample_prob_ m) (last_rtt_ns_ m) (offset_ m)
             (u64 (pkt_cnt_ m + Z.of_nat (length batch))) (bytes_cnt_ m) in
  m ← measure_packets now_ns m batch; Some (m, [RunChoose O batch]).

Definition Clear (m : Measure) : Measure :=
  MkMeasure (hist_new (num_buckets (rtt_hist_ m)) (bucket_width_ (rtt_hist_ m)))
    (hist_new (num_buckets (jitter_hist_ m)) (bucket_width_ (jitter_hist_ m))) (rand_ m) (jitter_sample_prob_ m) (last_rtt_ns_ m) (offset_ m) 0 0.
Definition CommandClear := Clear.

Fixpoint is_sorted (l : list spec_float) : bool :=
  match l with x :: ((y :: _) as l') => negb (SFltb y x) && is_sorted l' | _ => true end.
Definition min_element (x : spec_float) (l : list spec_float) : spec_float := fold_left (fun best y => if SFltb y best then y else best) l x.
Definition max_element (x : spec_float) (l : list spec_float) : spec_float := fold_left (fun best y => if SFltb best y then y else best) l x.
Definition IsValidPercentiles (percentiles : list spec_float) : bool :=
  match percentiles with
  | [] => true
  | x :: l => is_sorted percentiles && SFleb (dbl 0) (min_element x l) && SFleb (max_element x l) (dbl 100)
  end.

(** The response: the packets, the bits, and the two summaries. *)
Definition CommandGetSummary (m : Measure) (latency_percentiles jitter_percentiles : list spec_float) (clear : bool)
    : option (Measure * (measure_errno + Z * Z * Summary * Summary)) :=
  if negb (IsValidPercentiles latency_percentiles) then Some (m, inl EINVAL)
  else if negb (IsValidPercentiles jitter_percentiles) then Some (m, inl EINVAL)
  else
    rtt ← Summarize (rtt_hist_ m) latency_percentiles;
    jitter ← Summarize (jitter_hist_ m) jitter_percentiles;
    Some (if clear then Clear m else m, inr (pkt_cnt_ m, u64 ((bytes_cnt_ m + pkt_cnt_ m * 24) * 8), rtt, jitter)).

(** ** Stamps *)
Definition has_room (offset : Z) (p : Packet) : Prop := 0 <= offset <= data_len_ p /\ data_off_ p + offset + kStampSize <= SNBUF_HEADROOM + SNBUF_DATA.

(** The stamp goes at its offset, in bytes added at the end where the packet is too short. *)
Lemma timestamp_packet_spec offset time p : packet_ok p -> has_room offset p -> in_word 64 time ->
  exists q, timestamp_packet offset time p = Some q /\ packet_ok q /\ data_len_ q = Z.max (data_len_ p) (offset + kStampSize) /\
    take (Z.to_nat offset) (frame q) = take (Z.to_nat offset) (frame p) /\
    take 12 (drop (Z.to_nat offset) (frame q)) = le_store 4 kMarker ++ le_store 8 time.
Proof.
  intros Hp [Ho Hroom] Ht. pose proof Hp as [Hb Hm Hof Hlen He Hpl Hby Hmb]. unfold timestamp_packet, kStampSize, SNBUF_HEADROOM, SNBUF_DATA in *.
  rewrite (wrap_small 64 (data_len_ p - offset)) by (unfold in_word; lia).
  assert (Hext : exists p1, (if data_len_ p - offset <? 12 then append (12 - (data_len_ p - offset)) p else Some p) = Some p1 /\ packet_ok p1 /\
    data_len_ p1 = Z.max (data_len_ p) (offset + 12) /\ take (Z.to_nat (data_len_ p)) (frame p1) = frame p).
  { destruct (Z.ltb_spec (data_len_ p - offset) 12).
    - pose proof (append_spec (12 - (data_len_ p - offset)) p Hp ltac:(lia)) as Ha.
      destruct (append _ p) as [p1|]; [|unfold SNBUF_HEADROOM, SNBUF_DATA in Ha; lia]. destruct Ha as (? & _ & Hd & _ & _ & ?).
      exists p1. do 2 (split; [done|]). split; [lia|done].
    - exists p. do 2 (split; [done|]). split; [lia|]. apply take_ge. pose proof (length_frame p Hp). lia. }
  destruct Hext as (p1 & -> & Hp1 & Hd1 & Hf1). set (mk := le_store 4 kMarker). set (ts := le_store 8 time).
  assert (Lm : length mk = 4%nat) by done. assert (Lt : length ts = 8%nat) by apply length_le_store.
  destruct (head_write_spec offset mk p1 Hp1) as (p2 & -> & Hp2 & Ho2 & Hd2 & _ & _ & Hf2); [apply le_store_ok|lia|rewrite Lm; lia|].
  cbn [mbind option_bind].
  destruct (head_write_spec (offset + 4) ts p2 Hp2) as (p3 & -> & Hp3 & _ & Hd3 & _ & _ & Hf3); [apply le_store_ok|lia|rewrite Lt; lia|].
  exists p3. do 2 (split; [done|]). split; [lia|].
  pose proof (length_frame p1 Hp1) as L1. pose proof (length_frame p2 Hp2) as L2. rewrite Hf3, Hf2.
  replace (Z.to_nat (offset + 4)) with (Z.to_nat offset + 4)%nat by lia. set (o := Z.to_nat offset).
  assert (Ho1 : (o + 12 <= length (frame p1))%nat) by (unfold o; lia).
  assert (Lw : length (write o mk (frame p1)) = length (frame p1)) by (apply length_write; rewrite Lm; lia). split.
  - replace (take o (write (o + 4) ts (write o mk (frame p1)))) with (take o (take (o + 4) (write (o + 4) ts (write o mk (frame p1))))) by (rewrite take_take; f_equal; lia).
    rewrite take_write by lia. rewrite take_take. replace (o `min` (o + 4))%nat with o by lia. rewrite take_write by lia.
    rewrite <- Hf1, take_take. f_equal. unfold o. lia.
  - change 12%nat with (4 + 8)%nat. rewrite <- take_take_drop. f_equal.
    + rewrite take_drop_commute. rewrite take_write by lia. rewrite <- take_drop_commute. rewrite <- Lm. apply write_read. rewrite Lm. lia.
    + rewrite drop_drop. rewrite <- Lt. apply write_read. rewrite Lt. lia.
Qed.

(** What [Timestamp] writes is what [Measure] reads at the same offset. *)
Lemma IsTimestamped_stamp offset time q : packet_ok q -> 0 <= offset -> offset + kStampSize <= data_len_ q -> in_word 64 time ->
  take 12 (drop (Z.to_nat offset) (frame q)) = le_store 4 kMarker ++ le_store 8 time -> IsTimestamped offset q = Some (Some time).
Proof.
  intros Hq Ho Hlen Ht Hst. unfold kStampSize in Hlen. unfold IsTimestamped.
  rewrite (head_read_spec offset 4 q Hq Ho ltac:(lia) ltac:(lia)), (head_read_spec (offset + 4) 8 q Hq ltac:(lia) ltac:(lia) ltac:(lia)).
  assert (H4 : take 4 (drop (Z.to_nat offset) (frame q)) = le_store 4 kMarker).
  { apply (f_equal (take 4)) in Hst. rewrite take_take in Hst. change (4 `min` 12)%nat with 4%nat in Hst. rewrite Hst. by rewrite take_app_le. }
  assert (H8 : take 8 (drop (Z.to_nat (offset + 4)) (frame q)) = le_store 8 time).
  { apply (f_equal (drop 4)) in Hst. rewrite skipn_firstn_comm in Hst. change (12 - 4)%nat with 8%nat in Hst. rewrite drop_drop in Hst.
    replace (Z.to_nat (offset + 4)) with (Z.to_nat offset + 4)%nat by lia. rewrite Hst. by rewrite drop_app_le. }
  change (Z.to_nat 4) with 4%nat. change (Z.to_nat 8) with 8%nat. rewrite H4, H8. cbn [mbind option_bind].
  change (le_load (le_store 4 kMarker) =? kMarker) with true. cbv iota. rewrite le_load_store, Z.mod_small; [done|exact Ht].
Qed.

Record hist_ok (h : Histogram) : Prop := { ho_width : 0 < bucket_width_ h; ho_buckets : buckets_ h <> [] }.

Lemma Insert_ok h x : hist_ok h -> exists h', Insert h x = Some h' /\ hist_ok h'.
Proof.
  intros [Hw Hb]. unfold Insert. rewrite (proj2 (Z.eqb_neq _ _)) by lia.
  destruct (lookup_lt_is_Some_2 (buckets_ h) (index h x)) as [b Hx].
  { unfold index. destruct (buckets_ h); [done|cbn; lia]. }
  rewrite Hx. cbn [mbind option_bind]. eexists. split; [done|]. split; [done|]. cbn. intros Hnil. apply Hb.
  apply (f_equal length) in Hnil. rewrite length_insert in Hnil. by apply nil_length_inv.
Qed.

Lemma insert_all_cons x xs h h' : Insert h x = Some h' -> insert_all (x :: xs) h = insert_all xs h'.
Proof. intros Hx. unfold insert_all. cbn [fold_left mbind option_bind]. by rewrite Hx. Qed.

Record measure_ok (m : Measure) : Prop := { mo_rtt : hist_ok (rtt_hist_ m); mo_jitter : hist_ok (jitter_hist_ m) }.

Lemma measure_packet_spec now t m pkt : measure_ok m -> IsTimestamped (offset_ m) pkt = Some (Some t) -> t <= now ->
  exists m', measure_packet now m pkt = Some m' /\ measure_ok m' /\ offset_ m' = offset_ m /\ pkt_cnt_ m' = pkt_cnt_ m /\
    Insert (rtt_hist_ m) (now - t) = Some (rtt_hist_ m') /\ bytes_cnt_ m' = u64 (bytes_cnt_ m + total_len pkt).
Proof.
  intros [Hr Hj] Ht Hle. unfold measure_packet. rewrite Ht. cbn [mbind option_bind]. rewrite (proj2 (Z.ltb_ge now t)) by lia.
  destruct (Insert_ok _ (now - t) Hr) as (rtt & Hi & Hr'). rewrite Hi. cbn [mbind option_bind].
  destruct (GetRealNonzero (rand_ m)) as [seed real]. destruct (SFleb _ _); [destruct (last_rtt_ns_ m =? 0)|].
  - eexists. split; [done|]. by split.
  - destruct (Insert_ok _ (absdiff (now - t) (last_rtt_ns_ m)) Hj) as (jit & -> & Hj'). cbn [mbind option_bind]. eexists. split; [done|]. by split.
  - eexists. split; [done|]. by split.
Qed.

Lemma measure_packets_spec now t batch m : measure_ok m -> t <= now -> Forall (fun pkt => IsTimestamped (offset_ m) pkt = Some (Some t)) batch ->
  exists m', measure_packets now m batch = Some m' /\ measure_ok m' /\ pkt_cnt_ m' = pkt_cnt_ m /\
    insert_all (replicate (length batch) (now - t)) (rtt_hist_ m) = Some (rtt_hist_ m').
Proof.
  intros Hm Ht Hb. revert m Hm Hb. induction batch as [|pkt batch IH]; intros m Hm Hb; cbn [measure_packets].
  - by exists m.
  - apply Forall_cons in Hb as [Hp Hb]. destruct (measure_packet_spec now t m pkt Hm Hp Ht) as (m1 & -> & Hm1 & Ho1 & Hc1 & Hi1 & _).
    cbn [mbind option_bind length replicate]. destruct (IH m1 Hm1) as (m2 & -> & Hm2 & Hc2 & Hi2); [by rewrite Ho1|].
    exists m2. do 2 (split; [done|]). split; [congruence|]. by rewrite (insert_all_cons _ _ _ _ Hi1).
Qed.

Lemma stamp_batch offset time batch : in_word 64 time -> Forall (fun p => packet_ok p /\ has_room offset p) batch ->
  exists l, mapM (timestamp_packet offset time) batch = Some l /\ Forall (fun q => IsTimestamped offset q = Some (Some time)) l /\
    Forall2 (fun p q => packet_ok q /\ take (Z.to_nat offset) (frame q) = take (Z.to_nat offset) (frame p)) batch l.
Proof.
  intros Ht. induction 1 as [|p batch [Hp Hroom] Hb (l & Hl & Hs & Hf)]; [by exists []|].
  destruct (timestamp_packet_spec offset time p Hp Hroom Ht) as (q & Hq & Hqok & Hd & Hpre & Hst). exists (q :: l).
  cbn [mapM]. rewrite Hq. cbn [mbind option_bind]. rewrite Hl. split; [done|]. split; [|by constructor]. constructor; [|done].
  apply IsTimestamped_stamp; [done|apply Hroom|lia|done|done].
Qed.

(** A batch that [Timestamp] stamps and [Measure] sees later, at the same offset, goes on with the bytes before the
    stamps unchanged, and every packet adds the time in between to the histogram of latencies. *)
Theorem measure_sees_latency offset time now m batch : in_word 64 time -> time <= now -> offset_ m = offset -> measure_ok m ->
  Forall (fun p => packet_ok p /\ has_room offset p) batch ->
  exists l m', Timestamp_ProcessBatch offset time batch = Some [RunChoose O l] /\ Measure_ProcessBatch now m l = Some (m', [RunChoose O l]) /\
    Forall2 (fun p q => packet_ok q /\ take (Z.to_nat offset) (frame q) = take (Z.to_nat offset) (frame p)) batch l /\
    measure_ok m' /\ pkt_cnt_ m' = u64 (pkt_cnt_ m + Z.of_nat (length batch)) /\
    insert_all (replicate (length batch) (now - time)) (rtt_hist_ m) = Some (rtt_hist_ m').
Proof.
  intros Ht Hle Ho Hm Hb. destruct (stamp_batch offset time batch Ht Hb) as (l & Hl & Hs & Hf). pose proof (Forall2_length _ _ _ Hf) as Hlen.
  unfold Timestamp_ProcessBatch, Measure_ProcessBatch. rewrite Hl. cbn [mbind option_bind].
  set (m1 := MkMeasure (rtt_hist_ m) (jitter_hist_ m) (rand_ m) (jitter_sample_prob_ m) (last_rtt_ns_ m) (offset_ m) (u64 (pkt_cnt_ m + Z.of_nat (length l))) (bytes_cnt_ m)). assert (Hm1 : measure_ok m1) by (by destruct Hm).
  destruct (measure_packets_spec now time l m1 Hm1 Hle) as (m' & Hm' & Hok & Hc & Hi); [by rewrite <- Ho in Hs|].
  exists l, m'. split; [done|]. cbv zeta. fold m1. rewrite Hm'. cbn [mbind option_bind]. split; [done|]. split; [done|]. split; [done|].
  rewrite Hlen. by split.
Qed.

Definition ex_measure : Measure := (Measure_Init (measure_new 1 0 7) 1000 10 4 (dbl 0)).1.
Definition ex_packets : list Packet := [packet_of [1; 2; 3; 4; 5]; packet_of (replicate 60 9)].
Lemma measure_sees_latency_witness : exists l m', Timestamp_ProcessBatch 4 1000 ex_packets = Some [RunChoose O l] /\
  Measure_ProcessBatch 1250 ex_measure l = Some (m', [RunChoose O l]) /\ pkt_cnt_ m' = 2.
Proof.
  destruct (measure_sees_latency 4 1000 1250 ex_measure ex_packets) as (l & m' & H1 & H2 & _ & _ & H3 & _).
  - unfold in_word. lia.
  - lia.
  - reflexivity.
  - split; (split; [reflexivity|discriminate]).
  - assert (Hok : forall f, bytes_ok f -> (length f <= 100)%nat -> (4 <= length f)%nat -> packet_ok (packet_of f) /\ has_room 4 (packet_of f)).
    { intros f Hf Hl Hl'. split; [apply packet_of_ok; [done|lia]|]. unfold has_room, kStampSize, SNBUF_HEADROOM, SNBUF_DATA, packet_of. cbn [data_len_ data_off_]. lia. }
    unfold ex_packets. constructor; [apply Hok; [repeat constructor; done|cbn; lia|cbn; lia]|]. constructor; [|constructor].
    apply Hok; [apply Forall_replicate; done|rewrite length_replicate; lia|rewrite length_replicate; lia].
  - exact (ex_intro _ l (ex_intro _ m' (conj H1 (conj H2 H3)))).
Defined.

(** ** What the code does wrong *)

(** [num_buckets()] counts the bucket above the range, and the constructor adds one: every [Clear] adds a bucket. *)
Lemma clear_grows m : num_buckets (rtt_hist_ (Clear m)) = num_buckets (rtt_hist_ m) + 1.
Proof. unfold Clear, num_buckets, hist_new. cbn [rtt_hist_ buckets_]. rewrite length_replicate. lia. Qed.

(** A packet shorter than the offset is not made longer: the stamp is written behind the frame. *)
Example stamp_behind_frame : option_map (fun q => (frame q, IsTimestamped 42 q)) (timestamp_packet 42 77 (packet_of [1; 2; 3])) =
  Some ([1; 2; 3], Some (Some 77)).
Proof. by vm_compute. Qed.
