(* ===== verification/Arp.v ===== *)
(** Ethernet addresses, [core/utils/ether.h] and [core/utils/ether.cc], and the module that
    answers ARP requests, [core/modules/arp_responder.cc].

    Strings are lists of character codes, as in Ip.v.  An address is its six bytes.  [None] is
    an access outside of a packet's buffer: like the source, the module does not look at the
    length of a frame. *)
From S2P Require Import Prelude Common Endian Bits Random Ip PacketBuf Dataflow.
Open Scope Z_scope.

(** ** Strings of addresses *)
Definition hex_value (c : Z) : option Z :=
  if (48 <=? c) && (c <=? 57) then Some (c - 48)
  else if (97 <=? c) && (c <=? 102) then Some (c - 87)
  else if (65 <=? c) && (c <=? 70) then Some (c - 55)
  else None.

(** At most [width] hexadecimal digits. *)
Fixpoint hex_digits (width : nat) (s : bytes) : list Z * bytes :=
  match width, s with
  | S width, c :: s' => match hex_value c with Some v => let r := hex_digits width s' in (v :: r.1, r.2) | None => ([], s) end
  | _, _ => ([], s)
  end.

(** The conversion [%2hhx]: white space, then at most two characters, a sign among them.  The
    two characters "0x" are the prefix of a number, and no number. *)
Definition scan_hhx (s : bytes) : option (Z * bytes) :=
  let s := skip_spaces s in
  let '(neg, width, s) := match s with 45 :: s' => (true, 1%nat, s') | 43 :: s' => (false, 1%nat, s') | _ => (false, 2%nat, s) end in
  let prefix := match s with 48 :: c :: _ => (width =? 2)%nat && ((c =? 120) || (c =? 88)) | _ => false end in
  if prefix then None
  else match hex_digits width s with
  | ([], _) => None
  | (ds, rest) =>
      let v := fold_left (fun acc d => 16 * acc + d) ds 0 in
      Some (u8 (if (neg : bool) then - v else v), rest)
  end.

(** [sscanf] with [n] conversions left: the values assigned. *)
Fixpoint scan_address (n : nat) (s : bytes) : list Z :=
  match n with
  | O => []
  | S n' =>
      match scan_hhx s with
      | None => []
      | Some (v, rest) => v :: match rest with 58 :: rest' => scan_address n' rest' | _ => [] end
      end
  end.

Definition kSize : nat := 6.
(** The address afterwards, and whether all six numbers were there. *)
Definition FromString (addr : bytes) (str : bytes) : bytes * bool :=
  let vs := scan_address kSize str in
  (vs ++ drop (length vs) addr, (length vs =? kSize)%nat).

(** [Address(const std::string &str)] *)
Definition Address_of (junk str : bytes) : bytes := let r := FromString junk str in if r.2 then r.1 else replicate kSize 0.

Definition hex_char (d : Z) : Z := if d <? 10 then 48 + d else 87 + d.
Definition format_02hhx (b : Z) : bytes := [hex_char (u8 b / 16); hex_char (u8 b mod 16)].
Fixpoint join_colon (l : list bytes) : bytes :=
  match l with [] => [] | [x] => x | x :: l => x ++ 58 :: join_colon l end.
Definition ToString (addr : bytes) : bytes := join_colon (map format_02hhx addr).

Fixpoint randomize_loop (n : nat) (seed : Z) : Z * bytes :=
  match n with
  | O => (seed, [])
  | S n => let '(seed, r) := Get seed in let '(seed, l) := randomize_loop n seed in (seed, Z.land r 0xff :: l)
  end.
Definition Randomize (seed : Z) : bytes :=
  match (randomize_loop kSize seed).2 with
  | b0 :: l => Z.lor (Z.land b0 0xfe) 0x02 :: l
  | [] => []
  end.

Definition IsBroadcast (a : bytes) : bool := forallb (Z.eqb 0xff) a.
Definition IsZero (a : bytes) : bool := forallb (Z.eqb 0) a.

Fixpoint address_lt (a b : bytes) : bool :=
  match a, b with x :: a, y :: b => if x <? y then true else address_lt a b | _, _ => false end.
Fixpoint address_eq (a b : bytes) : bool :=
  match a, b with x :: a, y :: b => if negb (x =? y) then false else address_eq a b | _, _ => true end.

(** ** The responder *)
Record arp_entry := MkEntry { mac_addr : bytes; ip_addr : Z }.
(** [std::map<be32_t, struct arp_entry>]: the keys are the words as they are in memory. *)
Abbreviation entries_t := (gmap Z arp_entry).

Definition CommandAdd (entries_ : entries_t) (ip mac : bytes) (junk : bytes) : entries_t * bool :=
  if (length ip =? 0)%nat then (entries_, false)
  else
    let '(ok, addr) := ParseIpv4Address ip (of_cpu 4 0) in
    if negb ok then (entries_, false)
    else
      let '(a, ok) := FromString junk mac in
      if negb ok then (entries_, false) else (<[data_ addr := MkEntry a (data_ addr)]> entries_, true).

Definition kArp : bytes := [0x08; 0x06].
Definition kRequest : bytes := [0; 1].
Definition kReply : bytes := [0; 2].

Definition arp_reply (entry : arp_entry) (pkt : Packet) : option Packet :=
  pkt ← head_write 20 kReply pkt;
  eth_src ← head_read 6 6 pkt;
  pkt ← head_write 0 eth_src pkt;
  pkt ← head_write 6 (mac_addr entry) pkt;
  sha ← head_read 22 6 pkt;
  pkt ← head_write 32 sha pkt;
  pkt ← head_write 22 (mac_addr entry) pkt;
  sip ← head_read 28 4 pkt;
  pkt ← head_write 38 sip pkt;
  head_write 28 (le_store 4 (ip_addr entry)) pkt.

Definition arp_packet (entries_ : entries_t) (pkt : Packet) : option (action Packet) :=
  ether_type ← head_read 12 2 pkt;
  if negb (bool_decide (ether_type = kArp)) then Some (Drop pkt)
  else
    opcode ← head_read 20 2 pkt;
    if bool_decide (opcode = kRequest) then
      target ← head_read 38 4 pkt;
      match entries_ !! le_load target with
      | Some entry => pkt ← arp_reply entry pkt; Some (Emit pkt O)
      | None => Some (Drop pkt)
      end
    else if bool_decide (opcode = kReply) then Some (Drop pkt)
    else Some (Drop pkt).

Definition ProcessBatch (entries_ : entries_t) (batch : list Packet) : option (list (action Packet)) := mapM (arp_packet entries_) batch.

(** ** Facts *)
Lemma hex_value_char d : 0 <= d < 16 -> hex_value (hex_char d) = Some d.
Proof.
  intros Hd. unfold hex_value, hex_char. destruct (Z.ltb_spec d 10).
  - rewrite (proj2 (Z.leb_le 48 _)), (proj2 (Z.leb_le _ 57)) by lia. cbn [andb]. f_equal. lia.
  - rewrite (proj2 (Z.leb_le 48 _)), (proj2 (Z.leb_gt _ 57)) by lia. cbn [andb].
    rewrite (proj2 (Z.leb_le 97 _)), (proj2 (Z.leb_le _ 102)) by lia. cbn [andb]. f_equal. lia.
Qed.

Lemma hex_char_range d : 0 <= d < 16 -> 48 <= hex_char d <= 57 \/ 97 <= hex_char d <= 102.
Proof. unfold hex_char. destruct (Z.ltb_spec d 10); lia. Qed.

Lemma scan_hhx_format b s : in_word 8 b -> scan_hhx (format_02hhx b ++ s) = Some (b, s).
Proof.
  intros Hb. unfold in_word in Hb. unfold format_02hhx. rewrite (wrap_small 8 b) by done. cbn [app].
  assert (H1 : 0 <= b / 16 < 16) by (split; [apply Z.div_pos; lia|apply Z.div_lt_upper_bound; lia]).
  assert (H2 : 0 <= b mod 16 < 16) by (apply Z.mod_pos_bound; lia).
  pose proof (hex_char_range _ H1) as R1. pose proof (hex_char_range _ H2) as R2.
  pose proof (hex_value_char _ H1) as V1. pose proof (hex_value_char _ H2) as V2.
  set (c1 := hex_char (b / 16)) in *. set (c2 := hex_char (b mod 16)) in *. unfold scan_hhx. cbn [skip_spaces].
  assert (Hsp : is_space c1 = false).
  { unfold is_space. apply orb_false_iff. split; [apply Z.eqb_neq; lia|]. apply andb_false_iff. right. apply Z.leb_gt. lia. }
  rewrite Hsp.
  replace (match c1 :: c2 :: s with 45 :: s' => (true, 1%nat, s') | 43 :: s' => (false, 1%nat, s') | _ => (false, 2%nat, c1 :: c2 :: s) end)
    with (false, 2%nat, c1 :: c2 :: s) by (repeat (case_match; try done; try lia)).
  assert (Hpre : (match c1 :: c2 :: s with 48 :: c :: _ => (2 =? 2)%nat && ((c =? 120) || (c =? 88)) | _ => false end) = false).
  { rewrite (proj2 (Z.eqb_neq c2 120)), (proj2 (Z.eqb_neq c2 88)) by lia. by repeat case_match. }
  rewrite Hpre. cbn [hex_digits]. rewrite V1, V2. cbn [fst snd fold_left].
  replace (16 * (16 * 0 + b / 16) + b mod 16) with b by (pose proof (Z.div_mod b 16); lia). by rewrite wrap_small.
Qed.

Lemma scan_address_join addr s n : bytes_ok addr -> length addr = n -> (0 < n)%nat ->
  scan_address n (ToString addr ++ s) = addr.
Proof.
  intros Hok. revert n. induction addr as [|b addr IH]; intros n Hlen Hn; [cbn in Hlen; lia|].
  apply Forall_cons in Hok as [Hb Hok]. destruct n as [|n]; [lia|]. injection Hlen as Hlen. unfold ToString in *. cbn [map].
  destruct addr as [|c addr].
  - cbn in Hlen. subst n. cbn [map join_colon scan_address]. rewrite scan_hhx_format by done. f_equal. by destruct s as [|x s]; [|repeat case_match].
  - change (join_colon (format_02hhx b :: map format_02hhx (c :: addr))) with (format_02hhx b ++ 58 :: join_colon (map format_02hhx (c :: addr))).
    cbn [scan_address]. rewrite <- app_assoc, scan_hhx_format by done. cbn [app]. rewrite IH; [done|done|done|cbn in Hlen; lia].
Qed.

(** An address that is printed and parsed is the same address; what follows it does not matter. *)
Lemma address_round_trip addr old s : bytes_ok addr -> length addr = kSize -> length old = kSize ->
  FromString old (ToString addr ++ s) = (addr, true).
Proof.
  intros Hok Hlen Hold. unfold FromString. rewrite scan_address_join by (done || (unfold kSize; lia)).
  rewrite Hlen, drop_ge, app_nil_r by lia. by rewrite Nat.eqb_refl.
Qed.

Lemma hex_digits_range w s : Forall (fun d => 0 <= d < 16) (hex_digits w s).1.
Proof.
  revert s. induction w as [|w IH]; intros [|c s]; cbn [hex_digits fst]; try constructor.
  destruct (hex_value c) as [v|] eqn:Hv; cbn [fst]; constructor; [|apply IH].
  unfold hex_value in Hv. repeat case_match; simplify_eq; lia.
Qed.

Lemma scan_address_range n str : bytes_ok (scan_address n str).
Proof.
  revert str. induction n as [|n IH]; intros str; cbn [scan_address]; [constructor|].
  destruct (scan_hhx str) as [[v rest]|] eqn:Hs; [|constructor]. constructor.
  - unfold scan_hhx in Hs. repeat case_match; simplify_eq; apply wrap_range; lia.
  - destruct rest as [|c rest]; [constructor|]. repeat (case_match; try constructor). apply IH.
Qed.

Lemma FromString_ok old str a : length old = kSize -> FromString old str = (a, true) -> length a = kSize /\ bytes_ok a.
Proof.
  unfold FromString. intros Hold Heq. pose proof (scan_address_range kSize str) as Hok.
  generalize dependent (scan_address kSize str). intros l Heq Hok. injection Heq as <- Hlen. apply Nat.eqb_eq in Hlen.
  rewrite drop_ge, app_nil_r by lia. done.
Qed.

(** ** Replies *)
Definition sub (off n : nat) (f : bytes) : bytes := take n (drop off f).

(** The frame of the answer to the frame [f]. *)
Definition reply_frame (mac : bytes) (ip : Z) (f : bytes) : bytes :=
  sub 6 6 f ++ mac ++ sub 12 8 f ++ kReply ++ mac ++ le_store 4 ip ++ sub 22 6 f ++ sub 28 4 f ++ drop 42 f.

Record entry_ok (key : Z) (e : arp_entry) : Prop := {
  en_mac : length (mac_addr e) = kSize;
  en_bytes : bytes_ok (mac_addr e);
  en_ip : ip_addr e = key }.

Lemma list_42 (f : bytes) : (42 <= length f)%nat -> exists l r, f = l ++ r /\ length l = 42%nat.
Proof. intros H. exists (take 42 f), (drop 42 f). by rewrite take_drop, length_take_le. Qed.

Lemma reply_writes mac ip4 f : (42 <= length f)%nat -> length mac = 6%nat -> length ip4 = 4%nat ->
  let f1 := write 20 kReply f in
  let f2 := write 0 (sub 6 6 f1) f1 in
  let f3 := write 6 mac f2 in
  let f4 := write 32 (sub 22 6 f3) f3 in
  let f5 := write 22 mac f4 in
  let f6 := write 38 (sub 28 4 f5) f5 in
  write 28 ip4 f6 = sub 6 6 f ++ mac ++ sub 12 8 f ++ kReply ++ mac ++ ip4 ++ sub 22 6 f ++ sub 28 4 f ++ drop 42 f.
Proof.
  intros Hf Hm Hi. destruct (list_42 f Hf) as (l & r & -> & Hl).
  do 6 (destruct mac as [|? mac]; [done|]). destruct mac; [|done]. do 4 (destruct ip4 as [|? ip4]; [done|]). destruct ip4; [|done].
  do 42 (destruct l as [|? l]; [done|]). destruct l; [|done]. reflexivity.
Qed.

Lemma arp_reply_spec key e pkt : packet_ok pkt -> 42 <= data_len_ pkt -> entry_ok key e ->
  exists q, arp_reply e pkt = Some q /\ packet_ok q /\ frame q = reply_frame (mac_addr e) key (frame pkt).
Proof.
  intros Hp Hlen [Hm Hmb <-]. unfold kSize in Hm. pose proof (length_frame pkt Hp) as Lf. unfold arp_reply.
  assert (Hw : forall off new p, packet_ok p -> 42 <= data_len_ p -> bytes_ok new -> 0 <= off -> off + Z.of_nat (length new) <= 42 ->
    exists q, head_write off new p = Some q /\ packet_ok q /\ 42 <= data_len_ q /\ frame q = write (Z.to_nat off) new (frame p)).
  { intros off new p Hp1 Hl1 Hn Ho He. destruct (head_write_spec off new p Hp1 Hn Ho) as (q & ? & ? & _ & Hd & _ & _ & ?); [lia|].
    exists q. do 2 (split; [done|]). split; [lia|done]. }
  assert (Hr : forall off n p, packet_ok p -> 42 <= data_len_ p -> 0 <= off -> 0 <= n -> off + n <= 42 ->
    head_read off n p = Some (sub (Z.to_nat off) (Z.to_nat n) (frame p)) /\ bytes_ok (sub (Z.to_nat off) (Z.to_nat n) (frame p)) /\
    length (sub (Z.to_nat off) (Z.to_nat n) (frame p)) = Z.to_nat n).
  { intros off n p Hp1 Hl1 Ho Hn He. split; [by rewrite head_read_spec by (done || lia)|]. unfold sub. split.
    - apply bytes_ok_take, bytes_ok_drop. by apply frame_bytes.
    - pose proof (length_frame p Hp1). rewrite length_take, length_drop. lia. }
  destruct (Hw 20 kReply pkt) as (p1 & -> & Hp1 & L1 & F1); [done|done|repeat constructor; done|lia|cbn; lia|]. cbn [mbind option_bind].
  destruct (Hr 6 6 p1) as (-> & B1 & N1); [done|done|lia..|]. cbn [mbind option_bind].
  destruct (Hw 0 (sub (Z.to_nat 6) (Z.to_nat 6) (frame p1)) p1) as (p2 & -> & Hp2 & L2 & F2); [done|done|done|lia|rewrite N1; lia|]. cbn [mbind option_bind].
  destruct (Hw 6 (mac_addr e) p2) as (p3 & -> & Hp3 & L3 & F3); [done|done|done|lia|rewrite Hm; lia|]. cbn [mbind option_bind].
  destruct (Hr 22 6 p3) as (-> & B3 & N3); [done|done|lia..|]. cbn [mbind option_bind].
  destruct (Hw 32 (sub (Z.to_nat 22) (Z.to_nat 6) (frame p3)) p3) as (p4 & -> & Hp4 & L4 & F4); [done|done|done|lia|rewrite N3; lia|]. cbn [mbind option_bind].
  destruct (Hw 22 (mac_addr e) p4) as (p5 & -> & Hp5 & L5 & F5); [done|done|done|lia|rewrite Hm; lia|]. cbn [mbind option_bind].
  destruct (Hr 28 4 p5) as (-> & B5 & N5); [done|done|lia..|]. cbn [mbind option_bind].
  destruct (Hw 38 (sub (Z.to_nat 28) (Z.to_nat 4) (frame p5)) p5) as (p6 & -> & Hp6 & L6 & F6); [done|done|done|lia|rewrite N5; lia|]. cbn [mbind option_bind].
  destruct (Hw 28 (le_store 4 (ip_addr e)) p6) as (p7 & -> & Hp7 & _ & F7); [done|done|apply le_store_ok|lia|rewrite length_le_store; lia|].
  exists p7. do 2 (split; [done|]). rewrite F7, F6, F5, F4, F3, F2, F1. unfold reply_frame.
  rewrite <- (reply_writes (mac_addr e) (le_store 4 (ip_addr e)) (frame pkt)) by (lia || apply length_le_store). done.
Qed.

(** The entries that commands add. *)
Definition entries_ok (entries_ : entries_t) : Prop := forall k e, entries_ !! k = Some e -> entry_ok k e.

Lemma arp_CommandAdd_spec entries_ ip mac junk : entries_ok entries_ -> length junk = kSize ->
  let '(entries', ok) := CommandAdd entries_ ip mac junk in
  entries_ok entries' /\
  if ok then exists a m, ParseIpv4Address ip (of_cpu 4 0) = (true, a) /\ FromString junk mac = (m, true) /\ entries' = <[data_ a := MkEntry m (data_ a)]> entries_
  else entries' = entries_.
Proof.
  intros He Hj. unfold CommandAdd. destruct (length ip =? 0)%nat; [done|].
  destruct (ParseIpv4Address ip (of_cpu 4 0)) as [[] a]; cbn [negb]; [|done].
  destruct (FromString junk mac) as [m []] eqn:Hm; cbn [negb]; [|done]. split; [|by exists a, m].
  intros k e [[<- <-]|[_ Hk]]%lookup_insert_Some; [|by apply He]. destruct (FromString_ok _ _ _ Hj Hm). by split.
Qed.

(** A request for an address that was added is answered: the reply goes from the added Ethernet address to the one
    that asked, says that the address has it, and keeps the other bytes of the frame.  Every other ARP packet of full
    length, and every packet that is not ARP, is dropped as it is. *)
Theorem arp_answers entries_ pkt : entries_ok entries_ -> packet_ok pkt -> 42 <= data_len_ pkt ->
  exists a, arp_packet entries_ pkt = Some a /\
  match bool_decide (sub 12 2 (frame pkt) = kArp) && bool_decide (sub 20 2 (frame pkt) = kRequest), entries_ !! le_load (sub 38 4 (frame pkt)) with
  | true, Some e => exists q, a = Emit q O /\ packet_ok q /\
      frame q = sub 6 6 (frame pkt) ++ mac_addr e ++ sub 12 8 (frame pkt) ++ kReply ++
                mac_addr e ++ sub 38 4 (frame pkt) ++ sub 22 6 (frame pkt) ++ sub 28 4 (frame pkt) ++ drop 42 (frame pkt)
  | _, _ => a = Drop pkt
  end.
Proof.
  intros He Hp Hlen. unfold arp_packet.
  assert (Hr : forall off n, 0 <= off -> 0 <= n -> off + n <= 42 -> head_read off n pkt = Some (sub (Z.to_nat off) (Z.to_nat n) (frame pkt))).
  { intros off n Ho Hn Hs. by rewrite head_read_spec by (done || lia). }
  rewrite (Hr 12 2), (Hr 20 2), (Hr 38 4) by lia. cbn [mbind option_bind].
  change (Z.to_nat 12) with 12%nat. change (Z.to_nat 2) with 2%nat. change (Z.to_nat 20) with 20%nat. change (Z.to_nat 38) with 38%nat. change (Z.to_nat 4) with 4%nat.
  destruct (bool_decide (sub 12 2 (frame pkt) = kArp)); cbn [negb andb]; [|by eexists].
  destruct (bool_decide (sub 20 2 (frame pkt) = kRequest)); [|by destruct (bool_decide _); eexists].
  destruct (entries_ !! le_load (sub 38 4 (frame pkt))) as [e|] eqn:Hk; [|by eexists].
  destruct (arp_reply_spec _ e pkt Hp Hlen (He _ _ Hk)) as (q & -> & Hq & Hf). cbn [mbind option_bind].
  eexists. split; [done|]. exists q. do 2 (split; [done|]). rewrite Hf. unfold reply_frame. do 6 f_equal.
  assert (L38 : length (sub 38 4 (frame pkt)) = 4%nat) by (pose proof (length_frame pkt Hp); unfold sub; rewrite length_take, length_drop; lia).
  rewrite <- L38 at 1. rewrite le_store_load; [done|]. apply bytes_ok_take, bytes_ok_drop. by apply frame_bytes.
Qed.

(** 10.0.0.1 is at 02:00:00:00:00:01. *)
Definition ex_entries : entries_t := (CommandAdd ∅ [49; 48; 46; 48; 46; 48; 46; 49] (ToString [2; 0; 0; 0; 0; 1]) (replicate 6 0)).1.
Definition ex_request : bytes :=
  [255; 255; 255; 255; 255; 255; 2; 0; 0; 0; 0; 9; 8; 6; 0; 1; 8; 0; 6; 4; 0; 1; 2; 0; 0; 0; 0; 9; 10; 0; 0; 2; 0; 0; 0; 0; 0; 0; 10; 0; 0; 1].

Lemma arp_answers_witness : exists a, arp_packet ex_entries (packet_of ex_request) = Some a /\ exists q, a = Emit q O /\
  frame q = [2; 0; 0; 0; 0; 9; 2; 0; 0; 0; 0; 1; 8; 6; 0; 1; 8; 0; 6; 4; 0; 2; 2; 0; 0; 0; 0; 1; 10; 0; 0; 1; 2; 0; 0; 0; 0; 9; 10; 0; 0; 2].
Proof.
  destruct (arp_answers ex_entries (packet_of ex_request)) as (a & H1 & H2).
  - pose proof (arp_CommandAdd_spec ∅ [49; 48; 46; 48; 46; 48; 46; 49] (ToString [2; 0; 0; 0; 0; 1]) (replicate 6 0)) as H.
    unfold ex_entries. destruct (CommandAdd _ _ _ _) as [en ok]. apply H; [|done]. intros k e Hk. by rewrite lookup_empty in Hk.
  - apply packet_of_ok; [unfold ex_request; repeat constructor; done|cbn; lia].
  - cbn. lia.
  - exists a. split; [exact H1|]. rewrite frame_of in H2. vm_compute in H2. destruct H2 as (q & Ha & _ & Hf). exists q. split; [exact Ha|exact Hf].
Defined.

(** ** What the code does wrong *)

(** [operator<] is no order: each of these addresses is less than the other. *)
Example address_lt_both : address_lt [1; 0; 0; 0; 0; 0] [0; 1; 0; 0; 0; 0] = true /\ address_lt [0; 1; 0; 0; 0; 0] [1; 0; 0; 0; 0; 0] = true.
Proof. done. Qed.

(** "1:2:3:4:5:6xyz" is an address. *)
Example trailing_accepted : FromString (replicate 6 0) [49; 58; 50; 58; 51; 58; 52; 58; 53; 58; 54; 120; 121; 122] = ([1; 2; 3; 4; 5; 6], true).
Proof. done. Qed.
