(* ===== verification/Metadata.v ===== *)
(** Metadata attributes: [core/metadata.h], [core/metadata.cc] and [AddMetadataAttr] of
    [core/module.cc].

    A pipeline finds out which modules may pass each other the value of an attribute (a
    scope component) and gives every component a place in the 128 bytes of metadata that
    a packet has.  Module objects and their gates are those of ModuleGraph.v; an attribute
    is named by its module and its index.  The traversals recurse with fuel.  The order in
    which [std::sort] leaves components of the same degree is an argument.  [None] is
    undefined behaviour: a dangling pointer or an index out of bounds. *)
From S2P Require Import Prelude Common PriorityQueue Gate ModuleGraph TaskGraph.
Open Scope Z_scope.

(** Conversion to a signed integer of [w] bits. *)
Definition wrap_signed (w x : Z) : Z := (x + 2 ^ (w - 1)) mod 2 ^ w - 2 ^ (w - 1).
Definition i8 (x : Z) : Z := wrap_signed 8 x.
Definition i16 (x : Z) : Z := wrap_signed 16 x.

Definition kMetadataAttrMaxSize : Z := 32.
Definition kMaxAttrsPerModule : nat := 16.
Definition kMetadataTotalSize : Z := 128.
Definition kMetadataOffsetNoWrite : Z := -1.
Definition kMetadataOffsetNoRead : Z := -2.
Definition kMetadataOffsetNoSpace : Z := -3.

Record ScopeComponent := MkComp {
  attr_id_ : string;
  size_ : Z;
  offset_ : Z;
  scope_id_ : Z;
  assigned_ : bool;
  invalid_ : bool;
  modules_ : gset nat;
  degree_ : Z }.

Definition new_component : ScopeComponent := MkComp "" 0 0 0 false false ∅ 0.

(** [scope_id] and [attr_offset] are members of attributes and modules. *)
Record Pipeline := MkPipeline {
  scope_components_ : list ScopeComponent;
  module_scopes_ : gmap nat Z;
  module_components_ : gmap nat (list Z);
  registered_attrs_ : gmap string (Z * Z);
  scope_id : gmap (nat * nat) Z;
  attr_offset : gmap (nat * nat) Z }.

Definition set_offset (c : ScopeComponent) (o : Z) : ScopeComponent :=
  MkComp (attr_id_ c) (size_ c) o (scope_id_ c) (assigned_ c) (invalid_ c) (modules_ c) (degree_ c).
Definition set_scope_id (c : ScopeComponent) (i : Z) : ScopeComponent :=
  MkComp (attr_id_ c) (size_ c) (offset_ c) i (assigned_ c) (invalid_ c) (modules_ c) (degree_ c).
Definition set_assigned (c : ScopeComponent) (b : bool) : ScopeComponent :=
  MkComp (attr_id_ c) (size_ c) (offset_ c) (scope_id_ c) b (invalid_ c) (modules_ c) (degree_ c).
Definition set_invalid (c : ScopeComponent) (b : bool) : ScopeComponent :=
  MkComp (attr_id_ c) (size_ c) (offset_ c) (scope_id_ c) (assigned_ c) b (modules_ c) (degree_ c).
Definition set_attr_id (c : ScopeComponent) (id : string) (size : Z) : ScopeComponent :=
  MkComp id size (offset_ c) (scope_id_ c) (assigned_ c) (invalid_ c) (modules_ c) (degree_ c).
Definition add_module (c : ScopeComponent) (m : nat) : ScopeComponent :=
  MkComp (attr_id_ c) (size_ c) (offset_ c) (scope_id_ c) (assigned_ c) (invalid_ c) ({[m]} ∪ modules_ c) (degree_ c).
Definition incr_degree (c : ScopeComponent) : ScopeComponent :=
  MkComp (attr_id_ c) (size_ c) (offset_ c) (scope_id_ c) (assigned_ c) (invalid_ c) (modules_ c) (degree_ c + 1).

Definition with_components (p : Pipeline) x := MkPipeline x (module_scopes_ p) (module_components_ p)
  (registered_attrs_ p) (scope_id p) (attr_offset p).
Definition set_module_scope (p : Pipeline) m x := MkPipeline (scope_components_ p) (<[m := x]> (module_scopes_ p))
  (module_components_ p) (registered_attrs_ p) (scope_id p) (attr_offset p).
Definition set_module_components (p : Pipeline) x := MkPipeline (scope_components_ p) (module_scopes_ p) x
  (registered_attrs_ p) (scope_id p) (attr_offset p).
Definition with_registered (p : Pipeline) x := MkPipeline (scope_components_ p) (module_scopes_ p) (module_components_ p)
  x (scope_id p) (attr_offset p).
Definition set_attr_scope (p : Pipeline) r x := MkPipeline (scope_components_ p) (module_scopes_ p) (module_components_ p)
  (registered_attrs_ p) (<[r := x]> (scope_id p)) (attr_offset p).
Definition set_attr_offset (p : Pipeline) (m k : nat) x := if (k <? kMaxAttrsPerModule)%nat then
  MkPipeline (scope_components_ p) (module_scopes_ p) (module_components_ p) (registered_attrs_ p) (scope_id p)
    (<[(m, k) := x]> (attr_offset p)) else p.

(** [operator[]] of [std::map]. *)
Definition module_scope (p : Pipeline) (m : nat) : Z := default 0 (module_scopes_ p !! m).
Definition component_count (p : Pipeline) : Z := Z.of_nat (length (scope_components_ p)).

(** [f] on [scope_components_.back()]. *)
Definition alter_back (p : Pipeline) (f : ScopeComponent -> ScopeComponent) : Pipeline :=
  with_components p (alter f (length (scope_components_ p) - 1)%nat (scope_components_ p)).

(** ** Registration *)
Definition RegisterAttribute (p : Pipeline) (attr : string) (size : Z) : Pipeline * (errno + unit) :=
  match registered_attrs_ p !! attr with
  | None => (with_registered p (<[attr := (size, 1)]> (registered_attrs_ p)), inr tt)
  | Some (registered_size, count) =>
      if registered_size =? size
      then (with_registered p (<[attr := (registered_size, count + 1)]> (registered_attrs_ p)), inr tt)
      else (p, inl EINVAL)
  end.

Definition DeregisterAttribute (p : Pipeline) (attr : string) : Pipeline :=
  match registered_attrs_ p !! attr with
  | None => p
  | Some (size, count) =>
      if count - 1 =? 0 then with_registered p (delete attr (registered_attrs_ p))
      else with_registered p (<[attr := (size, count - 1)]> (registered_attrs_ p))
  end.

Definition with_attrs (M : Module) l :=
  MkModule (name M) (NumIGates M) (NumOGates M) (is_task M) l (igates M) (ogates M) (parent_tasks M).

Definition AddMetadataAttr (h : heap) (p : Pipeline) (m : nat) (attr : string) (size : Z) (mode : AccessMode)
    : option (heap * Pipeline * (errno + nat)) :=
  M ← h !! m;
  if (kMaxAttrsPerModule <=? length (all_attrs M))%nat then Some (h, p, inl ENOSPC)
  else if String.eqb attr "" then Some (h, p, inl EINVAL)
  else if (size <? 1) || (kMetadataAttrMaxSize <? size) then Some (h, p, inl EINVAL)
  else if existsb (fun it => String.eqb (attr_name it) attr) (all_attrs M) then Some (h, p, inl EEXIST)
  else
    let '(p, r) := RegisterAttribute p attr size in
    match r with
    | inl e => Some (h, p, inl e)
    | inr _ => Some (<[m := with_attrs M (all_attrs M ++ [MkAttr attr size mode])]> h,
                     set_attr_scope p (m, length (all_attrs M)) (-1), inr (length (all_attrs M)))
    end.

Definition DeregisterAllAttributes (h : heap) (p : Pipeline) (m : nat) : option Pipeline :=
  M ← h !! m; Some (foldl (fun p it => DeregisterAttribute p (attr_name it)) p (all_attrs M)).

(** ** Scope components *)
Definition attr_at (h : heap) (r : nat * nat) : option Attribute := M ← h !! r.1; all_attrs M !! r.2.

Definition AddModuleToComponent (p : Pipeline) (m : nat) (attr : Attribute) : Pipeline :=
  alter_back p (fun component =>
    if bool_decide (m ∈ modules_ component) then component
    else
      let component := if bool_decide (modules_ component = ∅)
                       then set_attr_id component (attr_name attr) (attr_size attr) else component in
      add_module component m).

(** The first attribute of a module with the name [id]. *)
Fixpoint find_attr (l : list Attribute) (id : string) (k : nat) : option nat :=
  match l with
  | [] => None
  | it :: l' => if String.eqb (attr_name it) id then Some k else find_attr l' id (S k)
  end.
Definition FindAttr (M : Module) (attr : Attribute) : option (nat * Attribute) :=
  k ← find_attr (all_attrs M) (attr_name attr) 0; a ← all_attrs M !! k; Some (k, a).

Definition upstream_modules (M : Module) : list nat :=
  concat (map (fun g => match g with Some ig => map fst (ogates_upstream ig) | None => [] end) (igates M)).
Definition downstream_modules (M : Module) : list nat := map fst (next_igates M).

Fixpoint TraverseUpstream (fuel : nat) (h : heap) (p : Pipeline) (m : nat) (attr : Attribute) : option Pipeline :=
  match fuel with
  | O => None
  | S fuel' =>
      M ← h !! m;
      let p := AddModuleToComponent p m attr in
      match FindAttr M attr with
      | Some (k, found) =>
          if bool_decide (attr_mode found = kWrite) then
            if default 0 (scope_id p !! (m, k)) =? -1 then IdentifyScopeComponent fuel' h p (m, k) else Some p
          else TraverseUpstreamFrom fuel' h p m M attr
      | None => TraverseUpstreamFrom fuel' h p m M attr
      end
  end
with TraverseUpstreamFrom (fuel : nat) (h : heap) (p : Pipeline) (m : nat) (M : Module) (attr : Attribute) : option Pipeline :=
  match fuel with
  | O => None
  | S fuel' =>
      if module_scope p m =? component_count p then Some p
      else
        let p := set_module_scope p m (i16 (component_count p)) in
        p ← foldl (fun r u => p ← r; TraverseUpstream fuel' h p u attr) (Some p) (upstream_modules M);
        Some (if (length (igates M) =? 0)%nat then alter_back p (fun c => set_invalid c true) else p)
  end
with TraverseDownstream (fuel : nat) (h : heap) (p : Pipeline) (m : nat) (attr : Attribute) : option (Pipeline * bool) :=
  match fuel with
  | O => None
  | S fuel' =>
      if module_scope p m =? component_count p then Some (p, false)
      else
        let p := set_module_scope p m (i16 (component_count p)) in
        M ← h !! m;
        match FindAttr M attr with
        | Some (k, found) =>
            if bool_decide (attr_mode found = kWrite) then Some (set_module_scope p m (-1), false)
            else
              let p := AddModuleToComponent p m found in
              let p := set_attr_scope p (m, k) (component_count p) in
              p ← foldl (fun r d => p ← r; fst <$> TraverseDownstream fuel' h p d attr) (Some p) (downstream_modules M);
              p ← TraverseUpstream fuel' h (set_module_scope p m (-1)) m attr;
              Some (p, true)
        | None =>
            '(p, in_scope) ← foldl (fun r d => '(p, in_scope) ← r; '(p, b) ← TraverseDownstream fuel' h p d attr;
                                               Some (p, in_scope || b))
                                   (Some (p, false)) (downstream_modules M);
            if in_scope : bool then
              let p := AddModuleToComponent p m attr in
              p ← TraverseUpstream fuel' h (set_module_scope p m (-1)) m attr;
              Some (p, true)
            else Some (p, false)
        end
  end
with IdentifyScopeComponent (fuel : nat) (h : heap) (p : Pipeline) (r : nat * nat) : option Pipeline :=
  match fuel with
  | O => None
  | S fuel' =>
      attr ← attr_at h r;
      M ← h !! r.1;
      let p := AddModuleToComponent p r.1 attr in
      let p := set_attr_scope p r (component_count p) in
      let p := set_module_scope p r.1 (i16 (component_count p)) in
      foldl (fun s d => p ← s; fst <$> TraverseDownstream fuel' h p d attr) (Some p) (downstream_modules M)
  end.

Definition IdentifySingleScopeComponent (fuel : nat) (h : heap) (p : Pipeline) (r : nat * nat) : option Pipeline :=
  p ← IdentifyScopeComponent fuel h (with_components p (scope_components_ p ++ [new_component])) r;
  Some (alter_back p (fun c => set_scope_id c (i16 (component_count p)))).

(** ** Offsets *)
Definition ComputeNextOffset (curr_offset size : Z) : Z :=
  let rounded_size := i8 (align_ceil_pow2 (u64 size)) in
  let curr_offset := if Z.rem curr_offset rounded_size =? 0 then curr_offset
                     else i8 (align_ceil (u64 curr_offset) (u64 rounded_size)) in
  let overflow := u32 (u32 curr_offset + u32 size) in
  if kMetadataTotalSize <? overflow then kMetadataOffsetNoSpace else curr_offset.

Definition DisjointFrom (c rhs : ScopeComponent) : bool := bool_decide (modules_ c ## modules_ rhs).

(** The heap of [AssignOffsets] has the smallest offset on top. *)
Definition comp_greater (lhs rhs : ScopeComponent) : bool := offset_ rhs <? offset_ lhs.

Definition offset_error (o : Z) : bool :=
  (o =? kMetadataOffsetNoRead) || (o =? kMetadataOffsetNoWrite) || (o =? kMetadataOffsetNoSpace).

(** The [while] loop: past the components in the heap. *)
Fixpoint first_fit (fuel : nat) (size offset : Z) (q : list ScopeComponent) : option Z :=
  match fuel with
  | O => None
  | S fuel' =>
      match PriorityQueue.top q with
      | None => Some offset
      | Some comp2 =>
          q ← pop comp_greater q;
          if offset_error (offset_ comp2) then first_fit fuel' size offset q
          else if offset_ comp2 <? offset + size
               then first_fit fuel' size (ComputeNextOffset (i8 (offset_ comp2 + size_ comp2)) size) q
               else Some offset
      end
  end.

(** The assigned components that share a module with component [i]. *)
Definition push_neighbour (cs : list ScopeComponent) (i : nat) (comp1 : ScopeComponent)
    (r : option (list ScopeComponent)) (j : nat) : option (list ScopeComponent) :=
  q ← r;
  if (i =? j)%nat then Some q
  else
    c ← cs !! j;
    if negb (DisjointFrom comp1 c) && assigned_ c then push comp_greater q c else Some q.

Definition assign_one (r : option (list ScopeComponent)) (i : nat) : option (list ScopeComponent) :=
  cs ← r;
  comp1 ← cs !! i;
  if invalid_ comp1 then Some (<[i := set_assigned (set_offset comp1 kMetadataOffsetNoRead) true]> cs)
  else if assigned_ comp1 || (size (modules_ comp1) =? 1)%nat then Some cs
  else
    q ← foldl (push_neighbour cs i comp1) (Some []) (seq 0 (length cs));
    offset ← first_fit (S (length q)) (size_ comp1) 0 q;
    Some (<[i := set_assigned (set_offset comp1 offset) true]> cs).

(** [module_components_[m][offset + l] = i] for all [l]. *)
Definition fill_bytes (arr : list Z) (offset sz : Z) (i : nat) : option (list Z) :=
  if bool_decide (Z.to_nat (offset + sz) <= length arr)%nat
  then Some (list_inserts (Z.to_nat offset) (replicate (Z.to_nat sz) (i16 (Z.of_nat i))) arr) else None.

Definition fill_module (h : heap) (c : ScopeComponent) (offset : Z) (i : nat) (r : option Pipeline) (m : nat) : option Pipeline :=
  p ← r;
  M ← h !! m;
  let p := match find_attr (all_attrs M) (attr_id_ c) 0 with
           | Some k =>
               match all_attrs M !! k with
               | Some a =>
                   set_attr_offset p m k
                     (if invalid_ c
                      then if bool_decide (attr_mode a = kRead) then kMetadataOffsetNoRead else kMetadataOffsetNoWrite
                      else offset)
               | None => p
               end
           | None => p
           end in
  if negb (invalid_ c) && (0 <=? offset) then
    arr ← module_components_ p !! m;
    arr ← fill_bytes arr offset (size_ c) i;
    Some (set_module_components p (<[m := arr]> (module_components_ p)))
  else Some p.

Definition fill_component (h : heap) (r : option Pipeline) (i : nat) : option Pipeline :=
  p ← r;
  c ← scope_components_ p !! i;
  let '(p, offset) :=
    if (size (modules_ c) =? 1)%nat
    then (with_components p (<[i := set_offset c kMetadataOffsetNoWrite]> (scope_components_ p)), kMetadataOffsetNoWrite)
    else (p, offset_ c) in
  foldl (fill_module h c offset i) (Some p) (elements (modules_ c)).

Definition FillOffsetArrays (h : heap) (p : Pipeline) : option Pipeline :=
  foldl (fill_component h) (Some p) (seq 0 (length (scope_components_ p))).

Definition AssignOffsets (h : heap) (p : Pipeline) : option Pipeline :=
  cs ← foldl assign_one (Some (scope_components_ p)) (seq 0 (length (scope_components_ p)));
  FillOffsetArrays h (with_components p cs).

Definition count_pair (cs : list ScopeComponent) (i j : nat) : list ScopeComponent :=
  match cs !! i, cs !! j with
  | Some a, Some b => if DisjointFrom a b then cs else alter incr_degree j (alter incr_degree i cs)
  | _, _ => cs
  end.
Definition ComputeScopeDegrees (cs : list ScopeComponent) : list ScopeComponent :=
  foldl (fun cs i => foldl (fun cs j => count_pair cs i j) cs (seq (S i) (length cs - S i))) cs (seq 0 (length cs)).

(** ** [ComputeMetadataOffsets] *)
Definition prepare_module (h : heap) (r : option Pipeline) (m : nat) : option Pipeline :=
  p ← r;
  M ← h !! m;
  let p := set_module_components p (<[m := replicate (Z.to_nat kMetadataTotalSize) (-1)]> (module_components_ p)) in
  let p := set_module_scope p m (-1) in
  Some (foldl (fun p k => set_attr_scope p (m, k) (-1)) p (seq 0 (length (all_attrs M)))).

Definition PrepareMetadataComputation (g : ModuleGraph) (p : Pipeline) : option Pipeline :=
  foldl (prepare_module (modules g)) (Some p) (map snd (all_modules_ g)).

Definition CleanupMetadataComputation (p : Pipeline) : Pipeline :=
  MkPipeline [] ∅ ∅ (registered_attrs_ p) (scope_id p) (attr_offset p).

Definition visit_attr (fuel : nat) (h : heap) (m : nat) (M : Module) (r : option Pipeline) (i : nat) : option Pipeline :=
  p ← r;
  attr ← all_attrs M !! i;
  match attr_mode attr with
  | kRead | kUpdate => Some (set_attr_offset p m i kMetadataOffsetNoRead)
  | kWrite =>
      let p := set_attr_offset p m i kMetadataOffsetNoWrite in
      if default 0 (scope_id p !! (m, i)) =? -1 then IdentifySingleScopeComponent fuel h p (m, i) else Some p
  end.

Definition visit_module (fuel : nat) (h : heap) (r : option Pipeline) (m : nat) : option Pipeline :=
  p ← r; M ← h !! m; foldl (visit_attr fuel h m M) (Some p) (seq 0 (length (all_attrs M))).

Definition metadata_fuel (h : heap) : nat :=
  (4 * size h + 6 * sum_list (map (fun x => length (all_attrs x.2)) (map_to_list h)) + 4)%nat.

Definition identify_all (g : ModuleGraph) (p : Pipeline) : option Pipeline :=
  foldl (visit_module (metadata_fuel (modules g)) (modules g)) (Some p) (map snd (all_modules_ g)).

Section compute.
(** [std::sort] by degree. *)
Context (degree_sort : list ScopeComponent -> list ScopeComponent).

Definition ComputeMetadataOffsets (g : ModuleGraph) (p : Pipeline) : option Pipeline :=
  p ← PrepareMetadataComputation g p;
  p ← identify_all g p;
  p ← AssignOffsets (modules g) (with_components p (degree_sort (ComputeScopeDegrees (scope_components_ p))));
  Some (CleanupMetadataComputation p).
End compute.

(** ** The traversals end *)
Lemma i16_small x : 0 <= x < 2 ^ 15 -> i16 x = x.
Proof. intros Hx. unfold i16, wrap_signed. rewrite Z.mod_small by lia. lia. Qed.

Definition all_refs (h : heap) : gset (nat * nat) :=
  list_to_set (concat (map (fun x => map (pair x.1) (seq 0 (length (all_attrs x.2)))) (map_to_list h))).

Lemma elem_of_all_refs h r a : attr_at h r = Some a -> r ∈ all_refs h.
Proof.
  unfold attr_at. destruct (h !! r.1) as [M|] eqn:HM; [|done]. cbn. intros Ha.
  apply elem_of_list_to_set, elem_of_concat_map. exists (r.1, M). split; [by apply elem_of_map_to_list|]. cbn.
  apply list_elem_of_In, in_map_iff. exists r.2. split; [by destruct r|]. apply in_seq. apply lookup_lt_Some in Ha. lia.
Qed.

(** The modules that the current component has not reached and the attributes that have
    no scope. *)
Definition pending (h : heap) (p : Pipeline) : gset nat :=
  filter (fun m => module_scope p m <> component_count p) (dom h).
Definition unscoped (h : heap) (p : Pipeline) : gset (nat * nat) :=
  filter (fun r => default 0 (scope_id p !! r) = -1) (all_refs h).

Definition opened (h : heap) (c c' : ScopeComponent) : Prop :=
  attr_id_ c' = attr_id_ c /\ size_ c' = size_ c /\ offset_ c' = offset_ c /\ assigned_ c' = assigned_ c /\
  degree_ c' = degree_ c /\ modules_ c ⊆ modules_ c' /\ modules_ c' ⊆ dom h.

(** The component that is being filled has modules already. *)
Definition filling (h : heap) (p : Pipeline) : Prop :=
  exists c, last (scope_components_ p) = Some c /\ modules_ c <> ∅ /\ modules_ c ⊆ dom h.

Record grown (h : heap) (p p' : Pipeline) : Prop := {
  gr_len : length (scope_components_ p') = length (scope_components_ p);
  gr_init : removelast (scope_components_ p') = removelast (scope_components_ p);
  gr_last c : last (scope_components_ p) = Some c ->
    exists c', last (scope_components_ p') = Some c' /\ opened h c c';
  gr_pending : pending h p' ⊆ pending h p;
  gr_unscoped : unscoped h p' ⊆ unscoped h p;
  gr_offset : attr_offset p' = attr_offset p;
  gr_arrays : module_components_ p' = module_components_ p;
  gr_registered : registered_attrs_ p' = registered_attrs_ p }.

Lemma opened_refl h c : modules_ c ⊆ dom h -> opened h c c.
Proof. intros Hc. unfold opened. do 6 (split; [done|]). done. Qed.

Lemma opened_trans h c1 c2 c3 : opened h c1 c2 -> opened h c2 c3 -> opened h c1 c3.
Proof.
  intros (A1 & A2 & A3 & A4 & A5 & A6 & A7) (B1 & B2 & B3 & B4 & B5 & B6 & B7). unfold opened.
  do 5 (split; [congruence|]). split; [by transitivity (modules_ c2)|done].
Qed.

Lemma grown_refl h p : filling h p -> grown h p p.
Proof.
  intros (c & Hc & Hne & Hd). split; try done. intros c' Hc'. exists c'. split; [done|]. apply opened_refl. by simplify_eq.
Qed.

Lemma grown_trans h p1 p2 p3 : grown h p1 p2 -> grown h p2 p3 -> grown h p1 p3.
Proof.
  intros [A1 A2 A3 A4 A5 A6 A7 A8] [B1 B2 B3 B4 B5 B6 B7 B8]. split; try congruence; [|set_solver|set_solver].
  intros c Hc. destruct (A3 c Hc) as (c2 & Hc2 & Ho). destruct (B3 c2 Hc2) as (c3 & Hc3 & Ho'). exists c3.
  split; [done|]. by apply (opened_trans h c c2).
Qed.

Lemma grown_filling h p p' : grown h p p' -> filling h p -> filling h p'.
Proof.
  intros Hg (c & Hc & Hne & Hd). destruct (gr_last _ _ _ Hg c Hc) as (c' & Hc' & _ & _ & _ & _ & _ & Hs & Hd').
  exists c'. split; [done|]. split; [|done]. intros He. apply Hne. set_solver.
Qed.

Lemma grown_count h p p' : grown h p p' -> component_count p' = component_count p.
Proof. intros Hg. unfold component_count. by rewrite (gr_len _ _ _ Hg). Qed.

Lemma alter_back_snoc (l : list ScopeComponent) c f : alter f (length (l ++ [c]) - 1)%nat (l ++ [c]) = l ++ [f c].
Proof.
  rewrite length_app. cbn [length]. replace (length l + 1 - 1)%nat with (length l) by lia.
  rewrite alter_app_r_alt by lia. by rewrite Nat.sub_diag.
Qed.

(** A change of the component that is being filled. *)
Lemma grown_alter h p f : filling h p -> (forall c, modules_ c <> ∅ -> modules_ c ⊆ dom h -> opened h c (f c)) ->
  grown h p (alter_back p f).
Proof.
  intros (c & Hc & Hne & Hd) Hf. destruct (proj1 (last_Some _ _) Hc) as [l Hl].
  assert (Hb : scope_components_ (alter_back p f) = l ++ [f c]) by (cbn; rewrite Hl; apply alter_back_snoc).
  assert (Hn : component_count (alter_back p f) = component_count p) by (unfold component_count; rewrite Hb, Hl, !length_app; done).
  split; try done.
  - rewrite Hb, Hl, !length_app. done.
  - by rewrite Hb, Hl, !removelast_last.
  - rewrite Hb, Hl. intros c' Hc'. rewrite last_snoc in *. injection Hc' as <-. exists (f c). split; [done|]. by apply Hf.
  - unfold pending. rewrite Hn. done.
Qed.

Lemma Add_grown h p m a : filling h p -> m ∈ dom h -> grown h p (AddModuleToComponent p m a).
Proof.
  intros Hp Hm. apply grown_alter; [done|]. intros c Hne Hd. case_bool_decide; [by apply opened_refl|].
  rewrite bool_decide_false by done. unfold opened. cbn. do 5 (split; [done|]). set_solver.
Qed.

Lemma set_attr_scope_grown h p r : filling h p -> component_count p <> -1 -> grown h p (set_attr_scope p r (component_count p)).
Proof.
  intros Hp Hk. destruct (grown_refl h p Hp) as [G1 G2 G3 G4 G5 G6 G7 G8]. split; try done.
  intros x. unfold unscoped. rewrite !elem_of_filter. intros [Hx Hin]. split; [|done]. revert Hx. cbn.
  destruct (decide (r = x)) as [<-|]; [rewrite lookup_insert_eq; cbn; lia|by rewrite lookup_insert_ne].
Qed.

Lemma module_scope_set p m x m' : module_scope (set_module_scope p m x) m' = if decide (m = m') then x else module_scope p m'.
Proof.
  unfold module_scope. cbn. destruct (decide (m = m')) as [<-|]; [by rewrite lookup_insert_eq|by rewrite lookup_insert_ne].
Qed.

(** Reaching a module. *)
Lemma mark_grown h p m : filling h p -> grown h p (set_module_scope p m (component_count p)).
Proof.
  intros Hp. destruct (grown_refl h p Hp) as [G1 G2 G3 G4 G5 G6 G7 G8]. split; try done.
  intros x. unfold pending. rewrite !elem_of_filter. intros [Hx Hin]. split; [|done]. revert Hx.
  rewrite module_scope_set. by destruct (decide _).
Qed.

Lemma mark_pending h p m : m ∈ dom h -> module_scope p m <> component_count p ->
  (size (pending h (set_module_scope p m (component_count p))) < size (pending h p))%nat.
Proof.
  intros Hm Hs. apply subset_size. split.
  - intros x. unfold pending. rewrite !elem_of_filter, module_scope_set. destruct (decide _); [naive_solver|done].
  - intros Hsub. assert (m ∈ pending h p) as Hin by (unfold pending; by rewrite elem_of_filter).
    apply Hsub in Hin. unfold pending in Hin. rewrite elem_of_filter, module_scope_set, decide_True in Hin by done. by destruct Hin.
Qed.

(** Leaving a module so that it can be reached again. *)
Lemma unmark_pending h p0 p m : m ∈ dom h -> module_scope p0 m <> component_count p0 -> component_count p = component_count p0 ->
  pending h p ⊆ pending h (set_module_scope p0 m (component_count p0)) ->
  pending h (set_module_scope p m (-1)) ⊆ pending h p0.
Proof.
  intros Hm Hs Hc Hsub x. unfold pending. rewrite !elem_of_filter, module_scope_set. intros [Hx Hin].
  destruct (decide (m = x)) as [<-|Hne]; [done|].
  assert (x ∈ pending h (set_module_scope p0 m (component_count p0))) as Hq.
  { apply Hsub. unfold pending. rewrite elem_of_filter. split; [done|]. done. }
  unfold pending in Hq. rewrite elem_of_filter, module_scope_set, decide_False in Hq by done. done.
Qed.

Lemma scope_unscoped h p r : r ∈ unscoped h p -> component_count p <> -1 ->
  (size (unscoped h (set_attr_scope p r (component_count p))) < size (unscoped h p))%nat.
Proof.
  intros Hr Hk. apply subset_size. split.
  - intros x. unfold unscoped. rewrite !elem_of_filter. cbn. intros [Hx Hin]. split; [|done]. revert Hx.
    destruct (decide (r = x)) as [<-|]; [rewrite lookup_insert_eq; cbn; lia|by rewrite lookup_insert_ne].
  - intros Hsub. apply Hsub in Hr. unfold unscoped in Hr. rewrite elem_of_filter in Hr. cbn in Hr.
    rewrite lookup_insert_eq in Hr. cbn in Hr. lia.
Qed.

Lemma foldl_grown {X} h (step : option Pipeline -> X -> option Pipeline) (l : list X) p0 p : grown h p0 p ->
  (forall q x, x ∈ l -> grown h p0 q -> exists q', step (Some q) x = Some q' /\ grown h q q') ->
  exists p', foldl step (Some p) l = Some p' /\ grown h p0 p'.
Proof.
  revert p. induction l as [|x l IH]; intros p Hg Hstep; cbn [foldl]; [by exists p|].
  destruct (Hstep p x ltac:(by left) Hg) as (q & -> & Hq). apply IH; [by apply (grown_trans h _ p)|].
  intros q' y Hy. apply Hstep. by right.
Qed.

Section traversal.
Context (h : heap) (HL : links h).

Definition cost (p : Pipeline) : nat := (4 * size (pending h p) + 6 * size (unscoped h p))%nat.

Lemma cost_grown p p' : grown h p p' -> (cost p' <= cost p)%nat.
Proof.
  intros Hg. unfold cost. pose proof (subseteq_size _ _ (gr_pending _ _ _ Hg)). pose proof (subseteq_size _ _ (gr_unscoped _ _ _ Hg)). lia.
Qed.

Lemma downstream_dom m M d : h !! m = Some M -> d ∈ downstream_modules M -> d ∈ dom h.
Proof using HL.
  intros HM Hd. unfold downstream_modules in Hd. apply list_elem_of_In, in_map_iff in Hd as (b & <- & Hb%list_elem_of_In).
  destruct (next_igates_spec h m M b HL HM Hb) as (a & og & ig & _ & _ & _ & Hig). apply igate_at_Some in Hig as (N & HN & _).
  by apply elem_of_dom.
Qed.

Lemma upstream_dom m M u : h !! m = Some M -> u ∈ upstream_modules M -> u ∈ dom h.
Proof using HL.
  intros HM Hu. unfold upstream_modules in Hu. apply elem_of_concat_map in Hu as ([ig|] & Hg & Hu); [|by apply not_elem_of_nil in Hu].
  apply list_elem_of_In, in_map_iff in Hu as (a & <- & Ha%list_elem_of_In). apply list_elem_of_lookup_1 in Hg as [i Hi].
  destruct (l_in h HL (m, i) ig a) as (og & Hog & _); [apply igate_at_Some; by exists M|done|].
  apply ogate_at_Some in Hog as (N & HN & _). by apply elem_of_dom.
Qed.

(** What the traversals promise with [fuel]. *)
Definition valid_state (p : Pipeline) : Prop := filling h p /\ component_count p < 2 ^ 15.

Lemma valid_grown p p' : grown h p p' -> valid_state p -> valid_state p'.
Proof. intros Hg [Hf Hk]. split; [by apply (grown_filling h p)|]. by rewrite (grown_count _ _ _ Hg). Qed.

Definition up_ok (fuel : nat) : Prop := forall p m attr, valid_state p -> m ∈ dom h -> (cost p + 2 <= fuel)%nat ->
  exists p', TraverseUpstream fuel h p m attr = Some p' /\ grown h p p'.
Definition from_ok (fuel : nat) : Prop := forall p m M attr, valid_state p -> h !! m = Some M -> (cost p + 1 <= fuel)%nat ->
  exists p', TraverseUpstreamFrom fuel h p m M attr = Some p' /\ grown h p p'.
Definition down_ok (fuel : nat) : Prop := forall p m attr, valid_state p -> m ∈ dom h -> (cost p + 3 <= fuel)%nat ->
  exists p' b, TraverseDownstream fuel h p m attr = Some (p', b) /\ grown h p p'.
Definition identify_ok (fuel : nat) : Prop := forall p r attr, attr_at h r = Some attr -> r ∈ unscoped h p ->
  valid_state (AddModuleToComponent p r.1 attr) -> (cost p + 1 <= fuel)%nat ->
  exists p', IdentifyScopeComponent fuel h p r = Some p' /\ grown h (AddModuleToComponent p r.1 attr) p' /\ r ∉ unscoped h p'.

Lemma valid_count p : valid_state p -> i16 (component_count p) = component_count p /\ component_count p <> -1.
Proof. intros [_ Hk]. assert (0 <= component_count p) by (unfold component_count; lia). split; [apply i16_small|]; lia. Qed.

Lemma FindAttr_spec M attr k a : FindAttr M attr = Some (k, a) -> all_attrs M !! k = Some a.
Proof.
  unfold FindAttr. destruct (find_attr _ _ _) as [k'|]; [|done]. cbn. destruct (all_attrs M !! k') eqn:Hk; [|done]. cbn. congruence.
Qed.

Lemma alter_back_count p f : component_count (alter_back p f) = component_count p.
Proof. unfold component_count, alter_back. cbn. by rewrite length_alter. Qed.

Lemma alter_back_cost p f : cost (alter_back p f) = cost p.
Proof. unfold cost, pending. by rewrite alter_back_count. Qed.

Lemma up_step fuel : from_ok fuel -> identify_ok fuel -> up_ok (S fuel).
Proof.
  intros Hfrom Hid p m attr Hv Hm Hfuel. cbn [TraverseUpstream]. apply elem_of_dom in Hm as HM. destruct HM as [M HM].
  rewrite HM. cbn [mbind option_bind]. set (p1 := AddModuleToComponent p m attr).
  assert (Hg1 : grown h p p1) by (apply Add_grown; [apply Hv|done]). pose proof (valid_grown _ _ Hg1 Hv) as Hv1.
  assert (Hc1 : cost p1 = cost p) by apply alter_back_cost.
  assert (Hcont : exists p', TraverseUpstreamFrom fuel h p1 m M attr = Some p' /\ grown h p p').
  { destruct (Hfrom p1 m M attr Hv1 HM) as (p' & -> & Hg'); [lia|]. exists p'. split; [done|by apply (grown_trans h _ p1)]. }
  destruct (FindAttr M attr) as [[k a]|] eqn:Hfind; [|done]. case_bool_decide; [|done].
  destruct (Z.eqb_spec (default 0 (scope_id p1 !! (m, k))) (-1)) as [Hs|_]; [|by exists p1].
  apply FindAttr_spec in Hfind. assert (Ha : attr_at h (m, k) = Some a) by (unfold attr_at; cbn; by rewrite HM).
  assert (Hg2 : grown h p1 (AddModuleToComponent p1 m a)) by (apply Add_grown; [apply Hv1|done]).
  destruct (Hid p1 (m, k) a Ha) as (p' & -> & Hg' & _).
  - unfold unscoped. rewrite elem_of_filter. split; [done|by apply (elem_of_all_refs h _ a)].
  - by apply (valid_grown p1).
  - lia.
  - exists p'. split; [done|]. apply (grown_trans h _ p1); [done|]. by apply (grown_trans h _ (AddModuleToComponent p1 m a)).
Qed.

Lemma mark_cost p m : filling h p -> m ∈ dom h -> module_scope p m <> component_count p ->
  (cost (set_module_scope p m (component_count p)) + 4 <= cost p)%nat.
Proof.
  intros Hp Hm Hs. pose proof (mark_pending h p m Hm Hs) as Hlt.
  pose proof (subseteq_size _ _ (gr_unscoped _ _ _ (mark_grown h p m Hp))). unfold cost. lia.
Qed.

(** A loop over neighbours, with enough fuel for each. *)
Lemma loop_grown {X} (step : option Pipeline -> X -> option Pipeline) (l : list X) p : valid_state p ->
  (forall q x, x ∈ l -> valid_state q -> (cost q <= cost p)%nat -> exists q', step (Some q) x = Some q' /\ grown h q q') ->
  exists p', foldl step (Some p) l = Some p' /\ grown h p p'.
Proof.
  intros Hv Hstep. apply foldl_grown; [apply grown_refl, Hv|]. intros q x Hx Hg.
  apply Hstep; [done|by apply (valid_grown p)|by apply cost_grown].
Qed.

Lemma from_step fuel : up_ok fuel -> from_ok (S fuel).
Proof using HL.
  intros Hup p m M attr Hv HM Hfuel. cbn [TraverseUpstreamFrom]. destruct (valid_count p Hv) as [Hi Hk]. rewrite Hi.
  destruct (Z.eqb_spec (module_scope p m) (component_count p)) as [|Hs]; [exists p; split; [done|by apply grown_refl, Hv]|].
  set (p1 := set_module_scope p m (component_count p)). assert (Hg1 : grown h p p1) by apply mark_grown, Hv.
  pose proof (mark_cost p m (proj1 Hv) (elem_of_dom_2 _ _ _ HM) Hs) as Hlt. fold p1 in Hlt.
  pose proof (valid_grown _ _ Hg1 Hv) as Hv1.
  destruct (loop_grown (fun r u => p ← r; TraverseUpstream fuel h p u attr) (upstream_modules M) p1 Hv1) as (p2 & -> & Hg2).
  { intros q u Hu Hvq Hcq. cbn [mbind option_bind]. apply Hup; [done|by apply (upstream_dom m M)|lia]. }
  cbn [mbind option_bind]. assert (Hg : grown h p p2) by (by apply (grown_trans h _ p1)).
  destruct (length (igates M) =? 0)%nat; [|by exists p2]. eexists. split; [done|]. apply (grown_trans h _ p2); [done|].
  apply grown_alter; [by apply (grown_filling h p), Hv|]. intros c _ Hc. unfold opened. cbn. do 6 (split; [done|]). done.
Qed.

Lemma down_up fuel p0 p m attr : up_ok fuel -> valid_state p0 -> m ∈ dom h -> module_scope p0 m <> component_count p0 ->
  grown h (set_module_scope p0 m (component_count p0)) p -> (cost p0 + 2 <= fuel)%nat ->
  exists p', TraverseUpstream fuel h (set_module_scope p m (-1)) m attr = Some p' /\ grown h p0 p'.
Proof.
  intros Hup Hv Hm Hs Hg Hfuel. pose proof (mark_grown h p0 m (proj1 Hv)) as Hg0. pose proof (grown_trans _ _ _ _ Hg0 Hg) as Hg1.
  assert (Hg2 : grown h p0 (set_module_scope p m (-1))).
  { destruct Hg1 as [G1 G2 G3 G4 G5 G6 G7 G8]. split; try done. apply unmark_pending; [done|done| |apply Hg].
    unfold component_count. by rewrite G1. }
  destruct (Hup (set_module_scope p m (-1)) m attr) as (p' & -> & Hg').
  - by apply (valid_grown p0).
  - done.
  - pose proof (cost_grown _ _ Hg2). lia.
  - exists p'. split; [done|by apply (grown_trans h _ (set_module_scope p m (-1)))].
Qed.

Lemma children_loop fuel attr l p0 p b : down_ok fuel -> valid_state p0 -> grown h p0 p -> (cost p0 + 3 <= fuel)%nat ->
  (forall d, d ∈ l -> d ∈ dom h) ->
  exists p' b', foldl (fun r d => '(p, in_scope) ← r; '(p, b) ← TraverseDownstream fuel h p d attr; Some (p, in_scope || b))
                  (Some (p, b)) l = Some (p', b') /\ grown h p0 p'.
Proof.
  intros Hdown Hv Hg Hfuel. revert p b Hg. induction l as [|d l IH]; intros p b Hg Hl; cbn [foldl]; [by exists p, b|].
  cbn [mbind option_bind]. pose proof (cost_grown _ _ Hg).
  destruct (Hdown p d attr (valid_grown _ _ Hg Hv) (Hl d ltac:(by left))) as (q & b' & -> & Hq); [lia|]. cbn [mbind option_bind].
  apply IH; [by apply (grown_trans h _ p)|]. intros d' Hd'. apply Hl. by right.
Qed.

Lemma traverse_down_step fuel : down_ok fuel -> up_ok fuel -> down_ok (S fuel).
Proof using HL.
  intros Hdown Hup p m attr Hv Hm Hfuel. cbn [TraverseDownstream]. destruct (valid_count p Hv) as [Hi Hk]. rewrite Hi.
  destruct (Z.eqb_spec (module_scope p m) (component_count p)) as [|Hs]; [exists p, false; split; [done|by apply grown_refl, Hv]|].
  set (p1 := set_module_scope p m (component_count p)). assert (Hg1 : grown h p p1) by apply mark_grown, Hv.
  pose proof (mark_cost p m (proj1 Hv) Hm Hs) as Hlt. fold p1 in Hlt.
  pose proof (valid_grown _ _ Hg1 Hv) as Hv1. apply elem_of_dom in Hm as HM. destruct HM as [M HM]. rewrite HM. cbn [mbind option_bind].
  assert (Hup' : forall q a, grown h p1 q -> exists p', TraverseUpstream fuel h (set_module_scope q m (-1)) m a = Some p' /\ grown h p p').
  { intros q a Hq. apply (down_up fuel p q m a); [done|done|done|done|done|lia]. }
  destruct (FindAttr M attr) as [[k a]|] eqn:Hfind.
  - case_bool_decide.
    + exists (set_module_scope p1 m (-1)), false. split; [done|].
      destruct Hg1 as [G1 G2 G3 G4 G5 G6 G7 G8]. split; try done. by apply unmark_pending.
    + set (p2 := AddModuleToComponent p1 m a). assert (Hg2 : grown h p1 p2) by (apply Add_grown; [apply Hv1|done]).
      set (p3 := set_attr_scope p2 (m, k) (component_count p2)). pose proof (valid_grown _ _ Hg2 Hv1) as Hv2.
      assert (Hg3 : grown h p1 p3).
      { apply (grown_trans h _ p2); [done|]. apply set_attr_scope_grown; [apply Hv2|apply (valid_count _ Hv2)]. }
      pose proof (valid_grown _ _ Hg3 Hv1) as Hv3. pose proof (cost_grown _ _ Hg3) as Hc3.
      destruct (loop_grown (fun r d => p ← r; fst <$> TraverseDownstream fuel h p d attr) (downstream_modules M) p3 Hv3) as (p4 & -> & Hg4).
      { intros q d Hd Hvq Hcq. cbn [mbind option_bind].
        destruct (Hdown q d attr Hvq (downstream_dom m M d HM Hd)) as (q' & b & -> & Hq'); [lia|]. by exists q'. }
      cbn [mbind option_bind]. destruct (Hup' p4 attr) as (p5 & -> & Hg5); [by apply (grown_trans h _ p3)|].
      cbn [mbind option_bind]. by exists p5, true.
  - destruct (children_loop fuel attr (downstream_modules M) p1 p1 false Hdown Hv1 (grown_refl h p1 (proj1 Hv1)))
      as (p2 & b & -> & Hg2); [lia|intros d; by apply (downstream_dom m M)|]. cbn [mbind option_bind].
    destruct b; [|exists p2, false; split; [done|by apply (grown_trans h _ p1)]].
    assert (Hg3 : grown h p1 (AddModuleToComponent p2 m attr)).
    { apply (grown_trans h _ p2); [done|]. apply Add_grown; [by apply (grown_filling h p1), Hv1|done]. }
    destruct (Hup' _ attr Hg3) as (p3 & -> & Hg4). cbn [mbind option_bind]. by exists p3, true.
Qed.

Lemma identify_step fuel : down_ok fuel -> identify_ok (S fuel).
Proof using HL.
  intros Hdown p r attr Ha Hr Hv Hfuel. cbn [IdentifyScopeComponent]. rewrite Ha. cbn [mbind option_bind].
  unfold attr_at in Ha. destruct (h !! r.1) as [M|] eqn:HM; [|done]. cbn [mbind option_bind].
  set (p1 := AddModuleToComponent p r.1 attr) in *. destruct (valid_count p1 Hv) as [Hi Hk].
  assert (Hc1 : cost p1 = cost p) by apply alter_back_cost.
  assert (Hr1 : r ∈ unscoped h p1) by done.
  set (p2 := set_attr_scope p1 r (component_count p1)).
  assert (Hg2 : grown h p1 p2) by (apply set_attr_scope_grown; [apply Hv|done]).
  pose proof (scope_unscoped h p1 r Hr1 Hk) as Hlt. fold p2 in Hlt. pose proof (subseteq_size _ _ (gr_pending _ _ _ Hg2)) as Hle.
  assert (Hk2 : component_count p2 = component_count p1) by done. rewrite Hk2, Hi.
  set (p3 := set_module_scope p2 r.1 (component_count p1)).
  pose proof (valid_grown _ _ Hg2 Hv) as Hv2. assert (Hg3 : grown h p2 p3) by (apply (mark_grown h p2 r.1), Hv2).
  pose proof (cost_grown _ _ Hg3) as Hc3. pose proof (valid_grown _ _ Hg3 Hv2) as Hv3.
  destruct (loop_grown (fun s d => p ← s; fst <$> TraverseDownstream fuel h p d attr) (downstream_modules M) p3 Hv3) as (p4 & -> & Hg4).
  - intros q d Hd Hvq Hcq. cbn [mbind option_bind].
    destruct (Hdown q d attr Hvq (downstream_dom r.1 M d HM Hd)) as (q' & b & -> & Hq'); [unfold cost in *; lia|]. by exists q'.
  - exists p4. split; [done|]. assert (Hg24 : grown h p2 p4) by (by apply (grown_trans h _ p3)).
    split; [by apply (grown_trans h _ p2)|]. intros Hin. apply (gr_unscoped _ _ _ Hg24) in Hin. unfold unscoped in Hin.
    rewrite elem_of_filter in Hin. cbn in Hin. rewrite lookup_insert_eq in Hin. by destruct Hin as [? _].
Qed.

Lemma traversals_end fuel : up_ok fuel /\ from_ok fuel /\ down_ok fuel /\ identify_ok fuel.
Proof using HL.
  induction fuel as [|fuel (Hu & Hf & Hd & Hi)].
  - do 3 (split; [intros ? ? ? *; lia|]). intros ? ? ? *. lia.
  - split; [by apply up_step|]. split; [by apply from_step|]. split; [by apply traverse_down_step|by apply identify_step].
Qed.
End traversal.
