(* ===== verification/MetadataOffsets.v ===== *)
(** The places of metadata attributes: what [AssignOffsets] and [FillOffsetArrays] of
    [core/metadata.cc] (Metadata.v) promise, and the whole computation. *)
From stdpp Require Import sorting.
From S2P Require Import Prelude Common PriorityQueue Gate ModuleGraph TaskGraph Metadata.
Open Scope Z_scope.

(** ** One place *)
Definition fits (o size : Z) : Prop :=
  0 <= o /\ o + size <= kMetadataTotalSize /\ o mod align_ceil_pow2 size = 0.
Definition good_size (size : Z) : Prop := 1 <= size <= kMetadataAttrMaxSize.

Definition next_offset_ok (e size : Z) : bool :=
  let o := ComputeNextOffset (i8 e) size in
  (o =? kMetadataOffsetNoSpace) ||
  ((e <=? o) && (o + size <=? kMetadataTotalSize) && (o mod align_ceil_pow2 size =? 0)).

Lemma next_offset_table :
  forallb (fun e => forallb (fun s => next_offset_ok (Z.of_nat e) (Z.of_nat (S s))) (seq 0 32)) (seq 0 129) = true.
Proof. vm_compute. reflexivity. Qed.

Lemma ComputeNextOffset_spec e size : 0 <= e <= kMetadataTotalSize -> good_size size ->
  let o := ComputeNextOffset (i8 e) size in o = kMetadataOffsetNoSpace \/ (e <= o /\ fits o size).
Proof.
  unfold good_size, kMetadataTotalSize, kMetadataAttrMaxSize. intros He Hs. pose proof next_offset_table as Ht.
  rewrite forallb_forall in Ht. specialize (Ht (Z.to_nat e) ltac:(apply in_seq; lia)). rewrite forallb_forall in Ht.
  specialize (Ht (Z.to_nat size - 1)%nat ltac:(apply in_seq; lia)).
  replace (Z.of_nat (S (Z.to_nat size - 1))) with size in Ht by lia. rewrite Z2Nat.id in Ht by lia. cbv zeta.
  unfold next_offset_ok in Ht. set (o := ComputeNextOffset (i8 e) size) in *.
  apply orb_true_iff in Ht as [Ho%Z.eqb_eq|[[H1%Z.leb_le H2%Z.leb_le]%andb_true_iff H3%Z.eqb_eq]%andb_true_iff]; [by left|right].
  unfold fits, kMetadataTotalSize in *. lia.
Qed.

(** Where an assigned component lies. *)
Definition placed (c : ScopeComponent) : Prop := offset_error (offset_ c) = true \/ fits (offset_ c) (size_ c).
Definition finish (c : ScopeComponent) : Z := offset_ c + size_ c.
Definition apart (o size : Z) (c : ScopeComponent) : Prop :=
  offset_error o = false -> offset_error (offset_ c) = false -> o + size <= offset_ c \/ finish c <= o.

Lemma offset_error_spec o : offset_error o = true <-> o = -2 \/ o = -1 \/ o = -3.
Proof. unfold offset_error, kMetadataOffsetNoRead, kMetadataOffsetNoWrite, kMetadataOffsetNoSpace. rewrite !orb_true_iff, !Z.eqb_eq. lia. Qed.

Lemma offset_error_false o : 0 <= o -> offset_error o = false.
Proof. intros Ho. apply not_true_iff_false. rewrite offset_error_spec. lia. Qed.

Lemma comp_greater_asym a b : comp_greater a b = true -> comp_greater b a = false.
Proof. unfold comp_greater. rewrite Z.ltb_lt, Z.ltb_ge. lia. Qed.
Lemma comp_greater_ntrans a b c : comp_greater a b = false -> comp_greater b c = false -> comp_greater a c = false.
Proof. unfold comp_greater. rewrite !Z.ltb_ge. lia. Qed.

(** Components that start no later end no later. *)
Definition in_step (a b : ScopeComponent) : Prop :=
  offset_error (offset_ a) = false -> offset_error (offset_ b) = false -> offset_ a <= offset_ b -> finish a <= finish b.

Lemma first_fit_spec fuel size o q done : good_size size -> (length q < fuel)%nat -> is_heap comp_greater q ->
  (forall c, c ∈ done ++ q -> placed c /\ good_size (size_ c)) ->
  (forall c c', c ∈ done -> c' ∈ q -> offset_error (offset_ c) = false -> offset_ c <= offset_ c') ->
  (offset_error o = true \/ fits o size) ->
  exists o', first_fit fuel size o q = Some o' /\ (offset_error o' = true \/ fits o' size) /\
    ((forall a b, a ∈ done ++ q -> b ∈ done ++ q -> in_step a b) ->
     (forall c, c ∈ done -> offset_error o = false -> offset_error (offset_ c) = false -> finish c <= o) ->
     forall c, c ∈ done ++ q -> apart o' size c).
Proof.
  intros Hs. revert o q done. induction fuel as [|fuel IH]; intros o q done Hlen Hh Hpl Hle Ho; [lia|]. cbn [first_fit].
  destruct (PriorityQueue.top q) as [c2|] eqn:Htop.
  2: { destruct q as [|x q]; [|done]. exists o. split; [done|]. split; [done|]. intros _ Hd c Hc. rewrite app_nil_r in Hc.
       intros H1 H2. right. by apply Hd. }
  destruct (pop_spec _ comp_greater_asym comp_greater_ntrans q c2 (heap_weaken _ _ Hh) Htop) as (q' & -> & Hh' & Hp). cbn [mbind option_bind].
  assert (Hlen' : (length q' < fuel)%nat) by (apply Permutation_length in Hp; cbn in Hp; lia).
  assert (Hperm : (c2 :: done) ++ q' ≡ₚ done ++ q) by (rewrite Hp; cbn; by rewrite Permutation_middle).
  assert (Hpl' : forall c, c ∈ (c2 :: done) ++ q' -> placed c /\ good_size (size_ c)) by (intros c; rewrite Hperm; apply Hpl).
  assert (Hmin : forall c, c ∈ q -> offset_ c2 <= offset_ c).
  { intros c Hc. pose proof (heap_top _ comp_greater_asym comp_greater_ntrans q c2 c Hh Htop Hc) as Hg.
    unfold comp_greater in Hg. apply Z.ltb_ge in Hg. lia. }
  assert (Hle' : forall c c', c ∈ c2 :: done -> c' ∈ q' -> offset_error (offset_ c) = false -> offset_ c <= offset_ c').
  { intros c c' [->|Hc]%elem_of_cons Hc' He; [apply Hmin|apply Hle; [done| |done]]; rewrite Hp; by right. }
  assert (Hc2 : c2 ∈ q) by (rewrite Hp; by left). assert (Hc2' : c2 ∈ done ++ q) by (apply elem_of_app; by right).
  destruct (Hpl c2 Hc2') as [Hplace Hs2].
  destruct (offset_error (offset_ c2)) eqn:Herr; [|destruct Hplace as [|Hfit2]; [congruence|]].
  - destruct (IH o q' (c2 :: done) Hlen' Hh' Hpl' Hle' Ho) as (o' & -> & Ho' & Hap). exists o'. split; [done|]. split; [done|].
    intros Hst Hd c Hc. rewrite <- Hperm in Hc. apply Hap; [| |done].
    + intros a b. rewrite Hperm. apply Hst.
    + intros x [->|Hx]%elem_of_cons; [congruence|by apply Hd].
  - destruct (Z.ltb_spec (offset_ c2) (o + size)) as [Hlt|Hge].
    + assert (Hfin : 0 <= finish c2 <= kMetadataTotalSize) by (unfold fits, finish, good_size in *; lia).
      destruct (ComputeNextOffset_spec (finish c2) size Hfin Hs) as [Hno|[Hge Hfit]].
      * destruct (IH (ComputeNextOffset (i8 (finish c2)) size) q' (c2 :: done) Hlen' Hh' Hpl' Hle') as (o' & Heq & Ho' & Hap).
        { left. by rewrite Hno. }
        exists o'. split; [exact Heq|]. split; [done|]. intros Hst Hd c Hc. rewrite <- Hperm in Hc. apply Hap; [| |done].
        { intros a b. rewrite Hperm. apply Hst. }
        { intros x _. rewrite Hno. done. }
      * destruct (IH (ComputeNextOffset (i8 (finish c2)) size) q' (c2 :: done) Hlen' Hh' Hpl' Hle') as (o' & Heq & Ho' & Hap).
        { by right. }
        exists o'. split; [exact Heq|]. split; [done|]. intros Hst Hd c Hc. rewrite <- Hperm in Hc. apply Hap; [| |done].
        { intros a b. rewrite Hperm. apply Hst. }
        { intros x [->|Hx]%elem_of_cons _ Hxe; [lia|].
          assert (finish x <= finish c2); [|lia]. apply Hst; [apply elem_of_app; by left|done|done|done|].
          by apply Hle. }
    + exists o. split; [done|]. split; [done|]. intros _ Hd c Hc H1 H2. apply elem_of_app in Hc as [Hc|Hc].
      * right. by apply Hd.
      * left. pose proof (Hmin c Hc). lia.
Qed.

(** ** All places *)
Definition meets (c c' : ScopeComponent) : Prop := DisjointFrom c c' = false.
Definition same_comp (c c' : ScopeComponent) : Prop :=
  attr_id_ c' = attr_id_ c /\ size_ c' = size_ c /\ modules_ c' = modules_ c /\ invalid_ c' = invalid_ c.

(** Two components that share modules with a third share a module or have the same size. *)
Definition comfortable (cs : list ScopeComponent) : Prop := forall i j k a b c, i <> j -> i <> k -> j <> k ->
  cs !! i = Some a -> cs !! j = Some b -> cs !! k = Some c -> meets a b -> meets a c -> meets b c \/ size_ b = size_ c.

Lemma meets_sym c c' : meets c c' -> meets c' c.
Proof. unfold meets, DisjointFrom. rewrite !bool_decide_eq_false. intros H Hd. by apply H. Qed.

Lemma apart_sym c c' : apart (offset_ c) (size_ c) c' -> apart (offset_ c') (size_ c') c.
Proof. unfold apart, finish. intros H H1 H2. destruct (H H2 H1); lia. Qed.

Lemma same_meets a b a' b' : same_comp a a' -> same_comp b b' -> meets a' b' <-> meets a b.
Proof. intros (_ & _ & Ha & _) (_ & _ & Hb & _). unfold meets, DisjointFrom. by rewrite Ha, Hb. Qed.

Lemma in_step_refl c : in_step c c.
Proof. unfold in_step. lia. Qed.

Lemma push_neighbours_spec cs i comp1 l q : is_heap comp_greater q -> (forall j, j ∈ l -> is_Some (cs !! j)) ->
  exists q', foldl (push_neighbour cs i comp1) (Some q) l = Some q' /\ is_heap comp_greater q' /\
    forall c, c ∈ q' <-> c ∈ q \/ exists j, j ∈ l /\ i <> j /\ cs !! j = Some c /\ meets comp1 c /\ assigned_ c = true.
Proof.
  revert q. induction l as [|j l IH]; intros q Hq Hl; cbn [foldl].
  { exists q. split; [done|]. split; [done|]. intros c. split; [by left|]. intros [?|(j & ?%not_elem_of_nil & _)]; done. }
  assert (Hl' : forall j, j ∈ l -> is_Some (cs !! j)) by (intros j' ?; apply Hl; by right).
  destruct (Hl j ltac:(by left)) as [c Hc]. unfold push_neighbour at 2. cbn [mbind option_bind]. rewrite Hc. cbn [mbind option_bind].
  assert (Hskip : (i = j \/ ~ (meets comp1 c /\ assigned_ c = true)) -> exists q', foldl (push_neighbour cs i comp1) (Some q) l = Some q' /\
    is_heap comp_greater q' /\ forall c, c ∈ q' <-> c ∈ q \/ exists k, k ∈ j :: l /\ i <> k /\ cs !! k = Some c /\ meets comp1 c /\ assigned_ c = true).
  { intros Hno. destruct (IH q Hq Hl') as (q' & -> & Hh & He). exists q'. split; [done|]. split; [done|]. intros x. rewrite He.
    split; (intros [?|(k & Hk & Hx)]; [by left|right; exists k; split; [|done]]).
    - by right.
    - apply elem_of_cons in Hk as [->|?]; [|done]. destruct Hx as (H1 & H2 & H3). exfalso. simplify_eq. naive_solver. }
  destruct (Nat.eqb_spec i j) as [->|Hij]; [by apply Hskip; left|].
  destruct (negb (DisjointFrom comp1 c) && assigned_ c) eqn:Hb.
  2: { apply Hskip. right. unfold meets. intros [Hm Ha]. by rewrite Hm, Ha in Hb. }
  apply andb_true_iff in Hb as [Hm%negb_true_iff Ha].
  destruct (push_spec _ comp_greater_asym comp_greater_ntrans q c Hq) as (q1 & -> & Hh1 & Hp1).
  destruct (IH q1 Hh1 Hl') as (q' & -> & Hh & He). exists q'. split; [done|]. split; [done|]. intros x. rewrite He, Hp1, elem_of_cons.
  split.
  - intros [[->|?]|(k & Hk & Hx)]; [right; exists j; split; [by left|done]|by left|right; exists k; split; [by right|done]].
  - intros [?|(k & [->|Hk]%elem_of_cons & Hx)]; [by left; right| |right; by exists k].
    left. left. destruct Hx as (_ & Hx & _). congruence.
Qed.

(** After the components below [n] have been given places. *)
Record assigned_upto (n : nat) (cs0 cs : list ScopeComponent) : Prop := {
  au_same : Forall2 same_comp cs0 cs;
  au_rest j c : cs !! j = Some c -> (n <= j)%nat -> assigned_ c = false /\ offset_ c = 0;
  au_placed j c : cs !! j = Some c -> assigned_ c = true -> placed c;
  au_single j c : cs !! j = Some c -> (j < n)%nat -> assigned_ c = false -> size (modules_ c) = 1%nat;
  au_apart j k c c' : comfortable cs0 -> j <> k -> cs !! j = Some c -> cs !! k = Some c' -> assigned_ c = true ->
    assigned_ c' = true -> meets c c' -> apart (offset_ c) (size_ c) c' }.

Definition good_sizes (cs : list ScopeComponent) : Prop := forall j c, cs !! j = Some c -> good_size (size_ c).

Lemma same_insert cs0 cs i c c' : Forall2 same_comp cs0 cs -> cs !! i = Some c -> same_comp c c' ->
  Forall2 same_comp cs0 (<[i := c']> cs).
Proof.
  intros Hs Hc Hcc. apply Forall2_same_length_lookup. split; [rewrite length_insert; by apply Forall2_length in Hs|].
  intros j x y Hx Hy. destruct (decide (i = j)) as [<-|Hne].
  - rewrite list_lookup_insert_eq in Hy by (by eapply lookup_lt_Some). simplify_eq.
    destruct (Forall2_lookup_lr _ _ _ _ _ _ Hs Hx Hc) as (A1 & A2 & A3 & A4), Hcc as (B1 & B2 & B3 & B4).
    repeat split; congruence.
  - rewrite list_lookup_insert_ne in Hy by done. by apply (Forall2_lookup_lr _ _ _ _ _ _ Hs Hx Hy).
Qed.

(** Giving component [i] the place [o], away from its neighbours. *)
Lemma assign_at i cs0 cs c o : assigned_upto i cs0 cs -> cs !! i = Some c ->
  offset_error o = true \/ fits o (size_ c) ->
  (comfortable cs0 -> forall j c', i <> j -> cs !! j = Some c' -> assigned_ c' = true -> meets c c' -> apart o (size_ c) c') ->
  assigned_upto (S i) cs0 (<[i := set_assigned (set_offset c o) true]> cs).
Proof.
  intros [A1 A2 A3 A4 A5] Hc Ho Hap. assert (Hi : (i < length cs)%nat) by (by eapply lookup_lt_Some).
  set (c1 := set_assigned (set_offset c o) true).
  assert (Hget : forall j x, <[i := c1]> cs !! j = Some x -> (i = j /\ x = c1) \/ (i <> j /\ cs !! j = Some x)).
  { intros j x. destruct (decide (i = j)) as [<-|]; [rewrite list_lookup_insert_eq by done; intros [= <-]; by left|].
    rewrite list_lookup_insert_ne by done. by right. }
  assert (Hnew : forall j x, cs !! j = Some x -> i <> j -> assigned_ x = true -> meets c1 x -> comfortable cs0 -> apart (offset_ c1) (size_ c1) x).
  { intros j x Hx Hj Ha Hm Hcf. by apply (Hap Hcf j). }
  split.
  - by apply (same_insert _ _ _ c).
  - intros j x [[<- ->]|[Hne Hx]]%Hget Hj; [lia|apply (A2 j x Hx); lia].
  - intros j x [[<- ->]|[Hne Hx]]%Hget Ha; [done|by apply (A3 j)].
  - intros j x [[<- ->]|[Hne Hx]]%Hget Hj Ha; [done|apply (A4 j); [done|lia|done]].
  - intros j k x y Hcf Hjk [[<- ->]|[Hj Hx]]%Hget [[<- ->]|[Hk Hy]]%Hget Hax Hay Hm; [done| | |by apply (A5 j k)].
    + by apply (Hnew k).
    + apply apart_sym, (Hnew j); [done|done|done|by apply meets_sym|done].
Qed.

Lemma assign_skip i cs0 cs c : assigned_upto i cs0 cs -> cs !! i = Some c -> size (modules_ c) = 1%nat -> assigned_upto (S i) cs0 cs.
Proof.
  intros [A1 A2 A3 A4 A5] Hc Hs. split; try done.
  - intros j x Hx Hj. apply (A2 j x Hx). lia.
  - intros j x Hx Hj Ha. destruct (decide (j = i)) as [->|]; [congruence|]. apply (A4 j); [done|lia|done].
Qed.

Lemma assign_one_spec i cs0 cs c : good_sizes cs0 -> assigned_upto i cs0 cs -> cs !! i = Some c ->
  exists cs', assign_one (Some cs) i = Some cs' /\ assigned_upto (S i) cs0 cs'.
Proof.
  intros Hgs HA Hc. unfold assign_one. cbn [mbind option_bind]. rewrite Hc. cbn [mbind option_bind].
  destruct (invalid_ c).
  { eexists. split; [done|]. apply assign_at; [done|done|by left|]. intros _ j c' _ _ _ _ Hx. done. }
  destruct (au_rest _ _ _ HA i c Hc ltac:(lia)) as [-> _]. cbn [orb].
  destruct (Nat.eqb_spec (size (modules_ c)) 1) as [Hs|_]; [exists cs; split; [done|by apply (assign_skip i _ _ c)]|].
  assert (Hsz : forall j x, cs !! j = Some x -> good_size (size_ x)).
  { intros j x Hx. destruct (Forall2_lookup_r _ _ _ _ _ (au_same _ _ _ HA) Hx) as (y & Hy & _ & -> & _). by apply (Hgs j). }
  destruct (push_neighbours_spec cs i c (seq 0 (length cs)) []) as (q & -> & Hh & Hq).
  { intros a b _ _ x Hx. done. }
  { intros j Hj%elem_of_seq. apply lookup_lt_is_Some. lia. }
  cbn [mbind option_bind].
  assert (Hq' : forall x, x ∈ q -> exists j, i <> j /\ cs !! j = Some x /\ meets c x /\ assigned_ x = true).
  { intros x [?%not_elem_of_nil|(j & _ & Hj)]%Hq; [done|by exists j]. }
  destruct (first_fit_spec (S (length q)) (size_ c) 0 q [] (Hsz i c Hc) ltac:(lia) Hh) as (o & -> & Ho & Hap).
  { intros x Hx. destruct (Hq' x Hx) as (j & _ & Hj & _ & Ha). split; [by apply (au_placed _ _ _ HA j)|by apply (Hsz j)]. }
  { by intros x y ?%not_elem_of_nil. }
  { right. pose proof (Hsz i c Hc). unfold fits, good_size, kMetadataTotalSize, kMetadataAttrMaxSize in *. rewrite Zmod_0_l. lia. }
  cbn [mbind option_bind]. eexists. split; [done|]. apply assign_at; [done|done|done|].
  intros Hcf j x Hj Hx Ha Hm. apply Hap; [|by intros y ?%not_elem_of_nil|].
  - intros a b Haq Hbq. cbn in Haq, Hbq. destruct (Hq' a Haq) as (ja & Hja & Ha1 & Ha2 & Ha3), (Hq' b Hbq) as (jb & Hjb & Hb1 & Hb2 & Hb3).
    destruct (decide (ja = jb)) as [->|Hne]; [simplify_eq; apply in_step_refl|].
    pose proof (au_same _ _ _ HA) as Hsm.
    destruct (Forall2_lookup_r _ _ _ _ _ Hsm Hc) as (c0 & Hc0 & Hsc), (Forall2_lookup_r _ _ _ _ _ Hsm Ha1) as (a0 & Ha0 & Hsa),
      (Forall2_lookup_r _ _ _ _ _ Hsm Hb1) as (b0 & Hb0 & Hsb).
    assert (meets a0 b0 \/ size_ a0 = size_ b0) as Hor.
    { apply (Hcf i ja jb c0 a0 b0); try done; [by apply (same_meets _ _ _ _ Hsc Hsa)|by apply (same_meets _ _ _ _ Hsc Hsb)]. }
    intros H1 H2 H3. pose proof (Hsz ja a Ha1) as Hza. pose proof (Hsz jb b Hb1) as Hzb. unfold good_size, finish in *. destruct Hor as [Hmm|Heq].
    + assert (meets a b) as Hmab by (by apply (same_meets a0 b0)).
      destruct (au_apart _ _ _ HA ja jb a b Hcf Hne Ha1 Hb1 Ha3 Hb3 Hmab H1 H2) as [?|?]; unfold finish in *; lia.
    + destruct Hsa as (_ & -> & _), Hsb as (_ & -> & _). lia.
  - apply Hq. right. exists j. split; [|done]. apply elem_of_seq. apply lookup_lt_Some in Hx. lia.
Qed.

Lemma assign_all_spec cs : good_sizes cs -> (forall j c, cs !! j = Some c -> assigned_ c = false /\ offset_ c = 0) ->
  exists cs', foldl assign_one (Some cs) (seq 0 (length cs)) = Some cs' /\ assigned_upto (length cs) cs cs'.
Proof.
  intros Hgs Hfresh.
  assert (Hgen : forall n, (n <= length cs)%nat -> exists cs', foldl assign_one (Some cs) (seq 0 n) = Some cs' /\ assigned_upto n cs cs').
  { induction n as [|n IH]; intros Hn.
    - exists cs. split; [done|]. split.
      + apply Forall_Forall2_diag, Forall_true. intros c. by repeat split.
      + intros j c Hc _. by apply (Hfresh j).
      + intros j c Hc Ha. destruct (Hfresh j c Hc). congruence.
      + lia.
      + intros j k c c' _ _ Hc _ Ha. destruct (Hfresh j c Hc). congruence.
    - destruct IH as (cs1 & He & HA); [lia|]. rewrite seq_S, foldl_app, He. cbn [foldl].
      destruct (lookup_lt_is_Some_2 cs1 n) as [c Hc]; [rewrite <- (Forall2_length _ _ _ (au_same _ _ _ HA)); lia|].
      by apply (assign_one_spec n cs cs1 c). }
  by apply Hgen.
Qed.

(** ** Finding the components *)
Record comp_ok (h : heap) (c : ScopeComponent) : Prop := {
  co_writer : exists r a, attr_at h r = Some a /\ attr_mode a = kWrite /\ attr_name a = attr_id_ c /\ attr_size a = size_ c /\
    r.1 ∈ modules_ c;
  co_modules : modules_ c ⊆ dom h;
  co_offset : offset_ c = 0;
  co_assigned : assigned_ c = false }.

Definition is_array (o : option (list Z)) : Prop := length <$> o = Some (Z.to_nat kMetadataTotalSize).

Record computing (h : heap) (p : Pipeline) : Prop := {
  cp_comps : Forall (comp_ok h) (scope_components_ p);
  cp_count : (length (scope_components_ p) + size (unscoped h p) <= size (all_refs h))%nat;
  cp_arrays m : m ∈ dom h -> is_array (module_components_ p !! m) }.

Lemma all_refs_size h : (size (all_refs h) <= sum_list (map (fun x => length (all_attrs x.2)) (map_to_list h)))%nat.
Proof.
  eapply Nat.le_trans; [apply size_list_to_set_le|]. rewrite length_concat, map_map. erewrite map_ext; [done|].
  intros x. by rewrite length_map, length_seq.
Qed.

Lemma cost_bound h p : (cost h p + 1 <= metadata_fuel h)%nat.
Proof.
  unfold cost, metadata_fuel. pose proof (all_refs_size h).
  assert (size (pending h p) <= size h)%nat by (rewrite <- (size_dom (D := gset nat)); apply subseteq_size; unfold pending; set_solver).
  assert (size (unscoped h p) <= size (all_refs h))%nat by (apply subseteq_size; unfold unscoped; set_solver). lia.
Qed.

Lemma AddModule_new p m a : let p0 := with_components p (scope_components_ p ++ [new_component]) in
  scope_components_ (AddModuleToComponent p0 m a) =
  scope_components_ p ++ [add_module (set_attr_id new_component (attr_name a) (attr_size a)) m].
Proof.
  cbn. rewrite alter_back_snoc. cbn. rewrite bool_decide_false by set_solver. done.
Qed.

Lemma IdentifySingle_spec h p r a : links h -> attr_at h r = Some a -> attr_mode a = kWrite -> r ∈ unscoped h p ->
  computing h p -> Z.of_nat (size (all_refs h)) < 2 ^ 15 ->
  exists p', IdentifySingleScopeComponent (metadata_fuel h) h p r = Some p' /\ computing h p' /\
    attr_offset p' = attr_offset p /\ registered_attrs_ p' = registered_attrs_ p.
Proof.
  intros HL Ha Hm Hr [C1 C2 C3] HN. unfold IdentifySingleScopeComponent.
  set (p0 := with_components p (scope_components_ p ++ [new_component])).
  set (p1 := AddModuleToComponent p0 r.1 a). assert (Hr0 : r ∈ unscoped h p0) by done.
  pose proof (AddModule_new p r.1 a) as Hp1. cbv zeta in Hp1. fold p0 p1 in Hp1.
  assert (Hdom : r.1 ∈ dom h). { unfold attr_at in Ha. destruct (h !! r.1) eqn:Hh; [|done]. by apply elem_of_dom. }
  assert (Hpos : (0 < size (unscoped h p))%nat).
  { apply Nat.neq_0_lt_0. intros Hz%size_empty_inv. rewrite (leibniz_equiv _ _ Hz) in Hr. set_solver. }
  assert (Hv : valid_state h p1).
  { split.
    - exists (add_module (set_attr_id new_component (attr_name a) (attr_size a)) r.1). rewrite Hp1, last_snoc. cbn.
      split; [done|]. set_solver.
    - unfold component_count. rewrite Hp1, length_app. cbn. lia. }
  destruct (traversals_end h HL (metadata_fuel h)) as (_ & _ & _ & Hid).
  destruct (Hid p0 r a Ha Hr0 Hv (cost_bound h p0)) as (p2 & -> & Hg & Hnr). fold p1 in Hg. cbn [mbind option_bind].
  set (p3 := alter_back p2 _). exists p3. split; [done|].
  pose proof (gr_init _ _ _ Hg) as Hinit. rewrite Hp1, removelast_last in Hinit.
  destruct (gr_last _ _ _ Hg _ ltac:(by rewrite Hp1, last_snoc)) as (c' & Hc' & O1 & O2 & O3 & O4 & O5 & O6 & O7).
  destruct (proj1 (last_Some _ _) Hc') as [l Hl]. rewrite Hl, removelast_last in Hinit. subst l.
  assert (Hp3 : scope_components_ p3 = scope_components_ p ++ [set_scope_id c' (i16 (component_count p2))]).
  { unfold p3. cbn. rewrite Hl. apply alter_back_snoc. }
  destruct Hg as [_ _ _ _ G5 G6 G7 G8]. split; [split|].
  - rewrite Hp3. apply Forall_app. split; [done|]. apply Forall_singleton. split; [|done|done|done].
    exists r, a. cbn in *. do 4 (split; [done|]). set_solver.
  - change (unscoped h p3) with (unscoped h p2). rewrite Hp3, length_app. cbn [length].
    assert (size (unscoped h p2) < size (unscoped h p))%nat; [|lia]. apply subset_size. split; [exact G5|]. intros Hsub. by apply Hnr, Hsub.
  - intros m Hmd. change (module_components_ p3) with (module_components_ p2). rewrite G7. by apply C3.
  - split; [exact G6|exact G8].
Qed.

(** A loop that may fail, with an invariant and what each element leaves behind. *)
Lemma foldl_option_inv {S X Y} (I : S -> Prop) (R : Y -> S -> Prop) (key : X -> Y -> Prop) (f : option S -> X -> option S) (l : list X) s :
  I s ->
  (forall s x, x ∈ l -> I s -> exists s', f (Some s) x = Some s' /\ I s' /\ (forall y, key x y -> R y s') /\ (forall y, R y s -> R y s')) ->
  exists s', foldl f (Some s) l = Some s' /\ I s' /\ (forall x y, x ∈ l -> key x y -> R y s') /\ (forall y, R y s -> R y s').
Proof.
  intros Hs Hf. revert s Hs. induction l as [|x l IH]; intros s Hs; cbn [foldl].
  { exists s. split; [done|]. split; [done|]. split; [by intros x y ?%not_elem_of_nil|done]. }
  destruct (Hf s x ltac:(by left) Hs) as (s1 & -> & Hs1 & Hr1 & Hk1).
  destruct (IH ltac:(intros s' x' Hx'; apply Hf; by right) s1 Hs1) as (s' & -> & Hs' & Hr' & Hk').
  exists s'. split; [done|]. split; [done|]. split; [|auto]. intros z y [->|Hz]%elem_of_cons Hy; [by auto|by apply (Hr' z)].
Qed.

Definition valued (r : nat * nat) (p : Pipeline) : Prop :=
  exists o, attr_offset p !! r = Some o /\ (o = kMetadataOffsetNoWrite \/ o = kMetadataOffsetNoRead).

Lemma valued_set p m k o : (k < kMaxAttrsPerModule)%nat -> o = kMetadataOffsetNoWrite \/ o = kMetadataOffsetNoRead ->
  valued (m, k) (set_attr_offset p m k o) /\ (forall r, valued r p -> valued r (set_attr_offset p m k o)).
Proof.
  intros Hk Ho. unfold set_attr_offset. apply Nat.ltb_lt in Hk. rewrite Hk. split.
  - exists o. cbn. by rewrite lookup_insert_eq.
  - intros r (o' & Hr & Ho'). unfold valued. cbn. destruct (decide ((m, k) = r)) as [<-|]; [exists o; by rewrite lookup_insert_eq|].
    exists o'. by rewrite lookup_insert_ne.
Qed.

(** What a pipeline's attributes must be like; AddMetadataAttr sees to it. *)
Record attrs_ok (h : heap) : Prop := {
  at_max m M : h !! m = Some M -> (length (all_attrs M) <= kMaxAttrsPerModule)%nat;
  at_names m M : h !! m = Some M -> NoDup (map attr_name (all_attrs M));
  at_size r a : attr_at h r = Some a -> good_size (attr_size a);
  at_agree r a r' a' : attr_at h r = Some a -> attr_at h r' = Some a' -> attr_name a = attr_name a' -> attr_size a = attr_size a' }.

Definition kept_registered (p0 p : Pipeline) : Prop := registered_attrs_ p = registered_attrs_ p0.

Section identify.
Context (h : heap) (HL : links h) (HA : attrs_ok h) (HN : Z.of_nat (size (all_refs h)) < 2 ^ 15).

Definition Inv (p0 p : Pipeline) : Prop := computing h p /\ kept_registered p0 p.

Lemma set_attr_offset_computing p m k o : computing h p -> computing h (set_attr_offset p m k o).
Proof. intros [C1 C2 C3]. unfold set_attr_offset. destruct (_ <? _)%nat; by split. Qed.

Lemma visit_attr_spec p0 p m M i : h !! m = Some M -> (i < length (all_attrs M))%nat -> Inv p0 p ->
  exists p', visit_attr (metadata_fuel h) h m M (Some p) i = Some p' /\ Inv p0 p' /\ valued (m, i) p' /\
    forall r, valued r p -> valued r p'.
Proof using HA HL HN.
  intros HM Hi [HC HR]. unfold visit_attr. cbn [mbind option_bind]. destruct (lookup_lt_is_Some_2 _ _ Hi) as [a Ha].
  rewrite Ha. cbn [mbind option_bind]. assert (Hk : (i < kMaxAttrsPerModule)%nat) by (pose proof (at_max h HA m M HM); lia).
  assert (Hreg : forall o, kept_registered p0 (set_attr_offset p m i o)).
  { intros o. unfold set_attr_offset. by destruct (_ <? _)%nat. }
  assert (Hro : forall o, o = kMetadataOffsetNoWrite \/ o = kMetadataOffsetNoRead -> Inv p0 (set_attr_offset p m i o) /\
    valued (m, i) (set_attr_offset p m i o) /\ (forall r, valued r p -> valued r (set_attr_offset p m i o))).
  { intros o Ho. split; [split; [by apply set_attr_offset_computing|apply Hreg]|by apply valued_set]. }
  destruct (attr_mode a) eqn:Hmode; [eexists; split; [done|apply Hro; by right]| |eexists; split; [done|apply Hro; by right]].
  destruct (Hro kMetadataOffsetNoWrite ltac:(by left)) as ([HC1 HR1] & Hv1 & Hvk1).
  set (p1 := set_attr_offset p m i kMetadataOffsetNoWrite) in *.
  destruct (Z.eqb_spec (default 0 (scope_id p1 !! (m, i))) (-1)) as [Hs|_]; [|by exists p1].
  assert (Hat : attr_at h (m, i) = Some a) by (unfold attr_at; cbn; by rewrite HM).
  destruct (IdentifySingle_spec h p1 (m, i) a HL Hat Hmode) as (p2 & -> & HC2 & Ho2 & Hr2); [|done|done|].
  { unfold unscoped. rewrite elem_of_filter. split; [done|by apply (elem_of_all_refs h _ a)]. }
  exists p2. split; [done|]. split; [split; [done|by unfold kept_registered; rewrite Hr2]|].
  unfold valued in *. rewrite Ho2. split; [done|]. intros r Hr. by apply Hvk1.
Qed.

Lemma visit_module_spec p0 p m : m ∈ dom h -> Inv p0 p ->
  exists p', visit_module (metadata_fuel h) h (Some p) m = Some p' /\ Inv p0 p' /\
    (forall r, (r.1 = m /\ is_Some (attr_at h r)) -> valued r p') /\ forall r, valued r p -> valued r p'.
Proof using HA HL HN.
  intros [M HM]%elem_of_dom HI. unfold visit_module. cbn [mbind option_bind]. rewrite HM. cbn [mbind option_bind].
  destruct (foldl_option_inv (Inv p0) valued (fun i r => r = (m, i)) (visit_attr (metadata_fuel h) h m M)
    (seq 0 (length (all_attrs M))) p HI) as (p' & -> & HI' & Hall & Hk).
  { intros q i [_ Hi]%elem_of_seq HIq. destruct (visit_attr_spec p0 q m M i HM ltac:(lia) HIq) as (q' & -> & ? & Hv & ?).
    exists q'. split; [done|]. split; [done|]. split; [by intros y ->|done]. }
  exists p'. split; [done|]. split; [done|]. split; [|done]. intros [m' i] [Hm [a Ha]]. cbn in Hm. subst m'.
  apply (Hall i); [|done]. unfold attr_at in Ha. cbn in Ha. rewrite HM in Ha. cbn in Ha. apply lookup_lt_Some in Ha.
  apply elem_of_seq. lia.
Qed.
End identify.

Lemma identify_all_spec g p : graph_ok g -> attrs_ok (modules g) -> Z.of_nat (size (all_refs (modules g))) < 2 ^ 15 ->
  computing (modules g) p ->
  exists p', identify_all g p = Some p' /\ computing (modules g) p' /\ registered_attrs_ p' = registered_attrs_ p /\
    forall r, is_Some (attr_at (modules g) r) -> valued r p'.
Proof.
  intros HG HA HN HC. unfold identify_all.
  destruct (foldl_option_inv (Inv (modules g) p) valued (fun m r => r.1 = m /\ is_Some (attr_at (modules g) r))
    (visit_module (metadata_fuel (modules g)) (modules g)) (map snd (all_modules_ g)) p) as (p' & -> & [HC' HR'] & Hall & _).
  - by split.
  - intros q m Hm HI. apply (visit_module_spec _ (g_links g HG) HA HN); [|done].
    apply list_elem_of_In, in_map_iff in Hm as ([n m'] & <- & Hin%list_elem_of_In). apply (g_named g HG) in Hin as (M & HM & _).
    by apply elem_of_dom.
  - exists p'. split; [done|]. split; [done|]. split; [done|]. intros r Hr. apply (Hall r.1); [|done].
    destruct Hr as [a Ha]. unfold attr_at in Ha. destruct (modules g !! r.1) as [M|] eqn:HM; [|done].
    apply list_elem_of_In, in_map_iff. exists (name M, r.1). split; [done|]. apply list_elem_of_In, (g_named g HG). by exists M.
Qed.

Lemma prepare_spec g p : graph_ok g -> scope_components_ p = [] ->
  exists p', PrepareMetadataComputation g p = Some p' /\ computing (modules g) p' /\ scope_components_ p' = [] /\
    registered_attrs_ p' = registered_attrs_ p.
Proof.
  intros HG Hnil. unfold PrepareMetadataComputation.
  destruct (foldl_option_inv (fun q => scope_components_ q = [] /\ kept_registered p q)
    (fun m q => is_array (module_components_ q !! m)) (fun m m' => m' = m)
    (prepare_module (modules g)) (map snd (all_modules_ g)) p) as (p' & -> & [Hn Hr] & Hall & _).
  - by split.
  - intros q m Hm [Hq Hqr]. unfold prepare_module. cbn [mbind option_bind].
    apply list_elem_of_In, in_map_iff in Hm as ([n m'] & <- & Hin%list_elem_of_In). apply (g_named g HG) in Hin as (M & HM & _).
    cbn [snd]. rewrite HM. cbn [mbind option_bind]. eexists. split; [done|].
    set (q1 := set_module_scope _ _ _).
    assert (Hkeep : forall l q, scope_components_ (foldl (fun p k => set_attr_scope p (m', k) (-1)) q l) = scope_components_ q /\
      registered_attrs_ (foldl (fun p k => set_attr_scope p (m', k) (-1)) q l) = registered_attrs_ q /\
      module_components_ (foldl (fun p k => set_attr_scope p (m', k) (-1)) q l) = module_components_ q).
    { intros l. induction l as [|k l IH]; intros q0; cbn [foldl]; [done|]. by destruct (IH (set_attr_scope q0 (m', k) (-1))). }
    destruct (Hkeep (seq 0 (length (all_attrs M))) q1) as (-> & Hk2 & Hk3). unfold kept_registered. rewrite Hk2.
    split; [by split|]. setoid_rewrite Hk3. cbn. split.
    + intros y ->. unfold is_array. rewrite lookup_insert_eq. cbn. by rewrite length_replicate.
    + intros y Hy. unfold is_array in *. destruct (decide (m' = y)) as [<-|]; [|by rewrite lookup_insert_ne].
      rewrite lookup_insert_eq. cbn. by rewrite length_replicate.
  - exists p'. split; [done|]. split; [|done]. split.
    + by rewrite Hn.
    + rewrite Hn. cbn [length]. apply subseteq_size. unfold unscoped. set_solver.
    + intros m [M HM]%elem_of_dom. apply (Hall m); [|done]. apply list_elem_of_In, in_map_iff. exists (name M, m).
      split; [done|]. apply list_elem_of_In, (g_named g HG). by exists M.
Qed.

(** ** Degrees and order *)
Definition same_but_degree (c c' : ScopeComponent) : Prop :=
  same_comp c c' /\ offset_ c' = offset_ c /\ assigned_ c' = assigned_ c.

Lemma same_but_degree_trans a b c : same_but_degree a b -> same_but_degree b c -> same_but_degree a c.
Proof.
  intros ((A1 & A2 & A3 & A4) & A5 & A6) ((B1 & B2 & B3 & B4) & B5 & B6). unfold same_but_degree, same_comp.
  rewrite B1, B2, B3, B4, B5, B6. done.
Qed.

Lemma same_but_degree_refl l : Forall2 same_but_degree l l.
Proof. apply Forall_Forall2_diag, Forall_true. done. Qed.

Lemma alter_degree l i : Forall2 same_but_degree l (alter incr_degree i l).
Proof.
  apply Forall2_same_length_lookup. split; [by rewrite length_alter|]. intros j x y Hx Hy.
  destruct (decide (i = j)) as [<-|Hne].
  - rewrite list_lookup_alter_eq, Hx in Hy. injection Hy as <-. done.
  - rewrite list_lookup_alter_ne in Hy by done. simplify_eq. done.
Qed.

Lemma Forall2_same_trans l1 l2 l3 : Forall2 same_but_degree l1 l2 -> Forall2 same_but_degree l2 l3 -> Forall2 same_but_degree l1 l3.
Proof.
  intros H. revert l3. induction H as [|a b l1 l2 Hab H IH]; intros l3 H3; inversion H3; subst; constructor; [|by apply IH].
  by apply (same_but_degree_trans a b).
Qed.

Lemma foldl_same {X} (f : list ScopeComponent -> X -> list ScopeComponent) l cs :
  (forall cs x, Forall2 same_but_degree cs (f cs x)) -> Forall2 same_but_degree cs (foldl f cs l).
Proof.
  intros Hf. revert cs. induction l as [|x l IH]; intros cs; cbn [foldl]; [apply same_but_degree_refl|].
  apply (Forall2_same_trans _ (f cs x)); [apply Hf|apply IH].
Qed.

Lemma ComputeScopeDegrees_same cs : Forall2 same_but_degree cs (ComputeScopeDegrees cs).
Proof.
  apply foldl_same. intros cs1 i. apply foldl_same. intros cs2 j. unfold count_pair.
  destruct (cs2 !! i), (cs2 !! j); try apply same_but_degree_refl. destruct (DisjointFrom _ _); [apply same_but_degree_refl|].
  apply (Forall2_same_trans _ (alter incr_degree i cs2)); apply alter_degree.
Qed.

Lemma comfortable_same cs cs' : Forall2 same_but_degree cs cs' -> comfortable cs -> comfortable cs'.
Proof.
  intros Hs Hc i j k a b c H1 H2 H3 Ha Hb Hcc Hab Hac.
  destruct (Forall2_lookup_r _ _ _ _ _ Hs Ha) as (a0 & Ha0 & Hsa & _), (Forall2_lookup_r _ _ _ _ _ Hs Hb) as (b0 & Hb0 & Hsb & _),
    (Forall2_lookup_r _ _ _ _ _ Hs Hcc) as (c0 & Hc0 & Hsc & _).
  destruct (Hc i j k a0 b0 c0) as [Hm|He]; try done.
  - by apply (same_meets _ _ _ _ Hsa Hsb).
  - by apply (same_meets _ _ _ _ Hsa Hsc).
  - left. by apply (same_meets _ _ _ _ Hsb Hsc).
  - right. destruct Hsb as (_ & -> & _), Hsc as (_ & -> & _). done.
Qed.

Lemma comfortable_perm cs cs' : cs ≡ₚ cs' -> comfortable cs -> comfortable cs'.
Proof.
  intros Hp Hc i j k a b c H1 H2 H3 Ha Hb Hcc. symmetry in Hp. apply Permutation_inj in Hp as (_ & f & Hf & Hl).
  rewrite Hl in Ha, Hb, Hcc. apply (Hc (f i) (f j) (f k)); try done; intros He%Hf; congruence.
Qed.

Lemma comp_ok_same h c c' : same_but_degree c c' -> comp_ok h c -> comp_ok h c'.
Proof.
  intros ((S1 & S2 & S3 & S4) & S5 & S6) [(r & a & C1 & C2 & C3 & C4 & C5) D1 D2 D3].
  split; [exists r, a|..]; rewrite ?S1, ?S2, ?S3, ?S5, ?S6; done.
Qed.

(** ** Writing the places into the modules *)
Definition value (c : ScopeComponent) (a : Attribute) : Z :=
  if invalid_ c then (if bool_decide (attr_mode a = kRead) then kMetadataOffsetNoRead else kMetadataOffsetNoWrite)
  else if (size (modules_ c) =? 1)%nat then kMetadataOffsetNoWrite else offset_ c.

(** Attribute [k] of [m] has the place of component [c]. *)
Definition written (h : heap) (c : ScopeComponent) (p : Pipeline) (m k : nat) : Prop :=
  exists M a, m ∈ modules_ c /\ h !! m = Some M /\ find_attr (all_attrs M) (attr_id_ c) 0 = Some k /\
    all_attrs M !! k = Some a /\ attr_offset p !! (m, k) = Some (value c a).

Record filled (h : heap) (cs : list ScopeComponent) (p0 p : Pipeline) : Prop := {
  fl_arrays m : m ∈ dom h -> is_array (module_components_ p !! m);
  fl_registered : registered_attrs_ p = registered_attrs_ p0;
  fl_offset m k : attr_offset p !! (m, k) = attr_offset p0 !! (m, k) \/ exists i c, cs !! i = Some c /\ written h c p m k }.

Lemma fill_bytes_spec arr o sz i : length arr = Z.to_nat kMetadataTotalSize -> 0 <= sz -> fits o sz ->
  exists arr', fill_bytes arr o sz i = Some arr' /\ length arr' = Z.to_nat kMetadataTotalSize.
Proof.
  intros Hlen Hsz (H1 & H2 & _). unfold fill_bytes, kMetadataTotalSize in *. rewrite bool_decide_true by lia.
  eexists. split; [done|]. by rewrite length_inserts.
Qed.

Lemma written_set h c p m M k a o : m ∈ modules_ c -> h !! m = Some M -> find_attr (all_attrs M) (attr_id_ c) 0 = Some k ->
  all_attrs M !! k = Some a -> (k < kMaxAttrsPerModule)%nat -> o = value c a -> written h c (set_attr_offset p m k o) m k.
Proof.
  intros H1 H2 H3 H4 H5 ->. exists M, a. do 4 (split; [done|]). unfold set_attr_offset. apply Nat.ltb_lt in H5. rewrite H5.
  cbn. by rewrite lookup_insert_eq.
Qed.

Lemma fill_module_spec h cs p0 p i c m : attrs_ok h -> filled h cs p0 p -> cs !! i = Some c -> m ∈ modules_ c -> modules_ c ⊆ dom h ->
  0 <= size_ c -> (invalid_ c = false -> size (modules_ c) <> 1%nat -> placed c) ->
  let offset := if (size (modules_ c) =? 1)%nat then kMetadataOffsetNoWrite else offset_ c in
  exists p', fill_module h c offset i (Some p) m = Some p' /\ filled h cs p0 p' /\ scope_components_ p' = scope_components_ p.
Proof.
  intros HA [F1 F2 F3] Hc Hm Hd Hsz Hpl offset. unfold fill_module. cbn [mbind option_bind].
  assert (Hmd : m ∈ dom h) by (by apply Hd). apply elem_of_dom in Hmd as HM. destruct HM as [M HM]. rewrite HM. cbn [mbind option_bind].
  set (p1 := match find_attr _ _ _ with Some _ => _ | None => _ end).
  assert (Hp1 : filled h cs p0 p1 /\ scope_components_ p1 = scope_components_ p).
  { unfold p1. destruct (find_attr (all_attrs M) (attr_id_ c) 0) as [k|] eqn:Hfind; [|by split].
    destruct (all_attrs M !! k) as [a|] eqn:Ha; [|by split].
    assert (Hk : (k < kMaxAttrsPerModule)%nat) by (pose proof (at_max h HA m M HM); apply lookup_lt_Some in Ha; lia).
    set (o := if invalid_ c then _ else _). assert (Ho : o = value c a) by (unfold o, value, offset; by destruct (invalid_ c)).
    pose proof (written_set h c p m M k a o Hm HM Hfind Ha Hk Ho) as Hw.
    unfold set_attr_offset in *. apply Nat.ltb_lt in Hk as Hkb. rewrite Hkb in *. split; [|done]. split; cbn; [done|done|].
    intros m' k'. destruct (decide ((m, k) = (m', k'))) as [[= <- <-]|Hne]; [right; by exists i, c|].
    destruct (F3 m' k') as [He|(i' & c' & Hc' & M' & a' & W1 & W2 & W3 & W4 & W5)]; [left; by rewrite lookup_insert_ne|right].
    exists i', c'. split; [done|]. exists M', a'. do 4 (split; [done|]). cbn. by rewrite lookup_insert_ne. }
  clearbody p1. destruct Hp1 as [[G1 G2 G3] G4].
  destruct (negb (invalid_ c) && (0 <=? offset)) eqn:Hb; [|exists p1; split; [done|by split]].
  apply andb_true_iff in Hb as [Hinv%negb_true_iff Hpos%Z.leb_le]. specialize (G1 m Hmd) as Harr. unfold is_array in Harr.
  destruct (module_components_ p1 !! m) as [arr|] eqn:Harr0; [|done]. cbn in Harr. injection Harr as Harr. cbn [mbind option_bind].
  assert (Hfit : fits offset (size_ c)).
  { unfold offset in *. destruct (Nat.eqb_spec (size (modules_ c)) 1) as [Hs|Hs]; [unfold kMetadataOffsetNoWrite in Hpos; lia|].
    destruct (Hpl Hinv Hs) as [He|]; [|done]. apply offset_error_spec in He. lia. }
  destruct (fill_bytes_spec arr offset (size_ c) i Harr Hsz Hfit) as (arr' & -> & Hlen). cbn [mbind option_bind].
  eexists. split; [done|]. split; [|done]. split; cbn; [|done|done].
  intros m' Hm'. unfold is_array. destruct (decide (m = m')) as [<-|]; [rewrite lookup_insert_eq; cbn; by rewrite Hlen|].
  rewrite lookup_insert_ne by done. by apply G1.
Qed.

Lemma fill_component_spec h cs p0 p i c : attrs_ok h -> filled h cs p0 p -> cs !! i = Some c -> scope_components_ p !! i = Some c ->
  modules_ c ⊆ dom h -> 0 <= size_ c -> (invalid_ c = false -> size (modules_ c) <> 1%nat -> placed c) ->
  exists p', fill_component h (Some p) i = Some p' /\ filled h cs p0 p' /\ length (scope_components_ p') = length (scope_components_ p) /\
    (forall j, i <> j -> scope_components_ p' !! j = scope_components_ p !! j).
Proof.
  intros HA HF Hc Hi Hd Hsz Hpl. unfold fill_component. cbn [mbind option_bind]. rewrite Hi. cbn [mbind option_bind].
  pose proof (fill_module_spec h cs p0) as Hstep. cbv zeta in Hstep.
  assert (Hloop : forall q, filled h cs p0 q -> exists p', foldl (fill_module h c (if (size (modules_ c) =? 1)%nat then kMetadataOffsetNoWrite else offset_ c) i)
      (Some q) (elements (modules_ c)) = Some p' /\ filled h cs p0 p' /\ scope_components_ p' = scope_components_ q).
  { intros q Hq. destruct (foldl_option_inv (fun x => filled h cs p0 x /\ scope_components_ x = scope_components_ q) (fun (_ : unit) _ => True) (fun _ _ => True)
      (fill_module h c (if (size (modules_ c) =? 1)%nat then kMetadataOffsetNoWrite else offset_ c) i) (elements (modules_ c)) q)
      as (p' & -> & [H1 H2] & _); [by split| |by exists p'].
    intros s m Hm%elem_of_elements [Hs He]. destruct (Hstep s i c m HA Hs Hc Hm Hd Hsz Hpl) as (s' & -> & ? & ?).
    exists s'. split; [done|]. split; [split; [done|congruence]|done]. }
  destruct (size (modules_ c) =? 1)%nat eqn:H1.
  - destruct (Hloop (with_components p (<[i := set_offset c kMetadataOffsetNoWrite]> (scope_components_ p)))) as (p' & -> & HF' & Hs').
    { by destruct HF. }
    exists p'. split; [done|]. split; [done|]. rewrite Hs'. cbn. split; [by rewrite length_insert|].
    intros j Hj. by rewrite list_lookup_insert_ne.
  - destruct (Hloop p HF) as (p' & -> & HF' & Hs'). exists p'. split; [done|]. split; [done|]. by rewrite Hs'.
Qed.

Lemma FillOffsetArrays_spec h p : attrs_ok h -> (forall m, m ∈ dom h -> is_array (module_components_ p !! m)) ->
  (forall i c, scope_components_ p !! i = Some c -> modules_ c ⊆ dom h /\ 0 <= size_ c /\
     (invalid_ c = false -> size (modules_ c) <> 1%nat -> placed c)) ->
  exists p', FillOffsetArrays h p = Some p' /\ filled h (scope_components_ p) p p'.
Proof.
  intros HA Harr Hcs. unfold FillOffsetArrays. set (cs := scope_components_ p) in *.
  assert (Hgen : forall n, (n <= length cs)%nat -> exists p', foldl (fill_component h) (Some p) (seq 0 n) = Some p' /\ filled h cs p p' /\
    length (scope_components_ p') = length cs /\ (forall j, (n <= j)%nat -> scope_components_ p' !! j = cs !! j)).
  { induction n as [|n IH]; intros Hn.
    - exists p. split; [done|]. split; [|done]. split; [done|done|by left].
    - destruct IH as (q & He & HF & Hl & Hk); [lia|]. rewrite seq_S, Nat.add_0_l, foldl_app, He. cbn [foldl].
      destruct (lookup_lt_is_Some_2 cs n) as [c Hc]; [lia|]. destruct (Hcs n c Hc) as (Hd & Hsz & Hpl).
      destruct (fill_component_spec h cs p q n c HA HF Hc) as (q' & -> & HF' & Hl' & Hk'); [by rewrite Hk|done|done|done|].
      exists q'. split; [done|]. split; [done|]. split; [congruence|]. intros j Hj. rewrite Hk' by lia. apply Hk. lia. }
  destruct (Hgen (length cs) ltac:(done)) as (p' & He & HF & _). by exists p'.
Qed.

(** ** The places of all components *)
Lemma find_attr_spec l id n k : find_attr l id n = Some k -> exists a, l !! (k - n)%nat = Some a /\ attr_name a = id /\ (n <= k)%nat.
Proof.
  revert n. induction l as [|b l IH]; intros n; cbn [find_attr]; [done|]. destruct (String.eqb_spec (attr_name b) id) as [He|_].
  - intros [= <-]. exists b. by rewrite Nat.sub_diag.
  - intros (a & Ha & Hn & Hle)%IH. exists a. split; [|split; [done|lia]]. replace (k - n)%nat with (S (k - S n)) by lia. done.
Qed.

(** A component has the size of its attribute, in every module. *)
Lemma comp_size h c m k M a : attrs_ok h -> comp_ok h c -> h !! m = Some M -> find_attr (all_attrs M) (attr_id_ c) 0 = Some k ->
  all_attrs M !! k = Some a -> size_ c = attr_size a /\ attr_name a = attr_id_ c.
Proof.
  intros HA Hc HM Hf Ha. destruct (find_attr_spec _ _ _ _ Hf) as (a' & Ha' & Hn & _). rewrite Nat.sub_0_r in Ha'. simplify_eq.
  destruct (co_writer _ _ Hc) as (r & w & Hw & _ & Hwn & Hws & _). split; [|done]. rewrite <- Hws.
  apply (at_agree h HA r w (m, k) a Hw); [unfold attr_at; cbn; by rewrite HM|congruence].
Qed.

Lemma comp_good_size h c : attrs_ok h -> comp_ok h c -> good_size (size_ c).
Proof. intros HA Hc. destruct (co_writer _ _ Hc) as (r & w & Hw & _ & _ & <- & _). by apply (at_size h HA r). Qed.

(** What [AssignOffsets] leaves: places for the components and the values written. *)
Record laid_out (h : heap) (cs cs' : list ScopeComponent) (p p' : Pipeline) : Prop := {
  lo_assigned : assigned_upto (length cs) cs cs';
  lo_ok : Forall (comp_ok h) cs;
  lo_filled : filled h cs' p p' }.

Lemma AssignOffsets_spec h cs p : attrs_ok h -> Forall (comp_ok h) cs -> (forall m, m ∈ dom h -> is_array (module_components_ p !! m)) ->
  exists p' cs', AssignOffsets h (with_components p cs) = Some p' /\ laid_out h cs cs' p p'.
Proof.
  intros HA Hok Harr. pose proof (proj1 (Forall_lookup _ _) Hok) as Hok'. unfold AssignOffsets. cbn [scope_components_ with_components].
  destruct (assign_all_spec cs) as (cs' & -> & Has).
  { intros j c Hc. apply (comp_good_size h); [done|by apply (Hok' j)]. }
  { intros j c Hc. split; apply (co_assigned _ _ (Hok' j c Hc)) || apply (co_offset _ _ (Hok' j c Hc)). }
  cbn [mbind option_bind].
  destruct (FillOffsetArrays_spec h (with_components (with_components p cs) cs') HA) as (p' & -> & [F1 F2 F3]).
  - exact Harr.
  - cbn. intros i c Hc. destruct (Forall2_lookup_r _ _ _ _ _ (au_same _ _ _ Has) Hc) as (c0 & Hc0 & S1 & S2 & S3 & S4).
    rewrite S2, S3. pose proof (comp_good_size h c0 HA (Hok' i c0 Hc0)) as Hg. split; [apply (Hok' i c0 Hc0)|].
    split; [unfold good_size in Hg; lia|]. intros _ Hs. destruct (assigned_ c) eqn:Hac; [by apply (au_placed _ _ _ Has i)|].
    exfalso. apply Hs. rewrite <- S3. apply (au_single _ _ _ Has i); [done| |done]. by apply lookup_lt_Some in Hc0.
  - exists p', cs'. split; [done|]. split; [done|done|]. by split.
Qed.

(** The component behind a value that is not an error. *)
Lemma valid_written h cs cs' p p' m k o a : attrs_ok h -> laid_out h cs cs' p p' -> attr_at h (m, k) = Some a -> valued (m, k) p ->
  attr_offset p' !! (m, k) = Some o -> offset_error o = false ->
  exists i c, cs' !! i = Some c /\ m ∈ modules_ c /\ attr_id_ c = attr_name a /\ assigned_ c = true /\ offset_ c = o /\
    size_ c = attr_size a /\ fits o (attr_size a).
Proof.
  intros HA [Has Hok [F1 F2 F3]] Ha (o0 & Ho0 & Hv) Ho Hne.
  destruct (F3 m k) as [He|(i & c & Hc & M & a' & W1 & W2 & W3 & W4 & W5)].
  { exfalso. rewrite Ho, Ho0 in He. injection He as ->. apply not_true_iff_false in Hne. apply Hne. apply offset_error_spec.
    unfold kMetadataOffsetNoWrite, kMetadataOffsetNoRead in Hv. lia. }
  rewrite Ho in W5. injection W5 as W5. unfold attr_at in Ha. cbn in Ha. rewrite W2 in Ha. cbn in Ha. assert (a' = a) as -> by congruence.
  destruct (Forall2_lookup_r _ _ _ _ _ (au_same _ _ _ Has) Hc) as (c0 & Hc0 & S1 & S2 & S3 & S4).
  pose proof (proj1 (Forall_lookup _ _) Hok i c0 Hc0) as Hok0. rewrite S1 in W3.
  destruct (comp_size h c0 m k M a HA Hok0 W2 W3 W4) as [Hsz Hn].
  assert (Hval : value c a = offset_ c /\ size (modules_ c) <> 1%nat).
  { unfold value in *. destruct (invalid_ c); [subst o; by destruct (bool_decide _)|].
    destruct (Nat.eqb_spec (size (modules_ c)) 1); [by subst o|by split]. }
  destruct Hval as [Hval Hs]. rewrite Hval in *.
  assert (Hac : assigned_ c = true).
  { destruct (assigned_ c) eqn:Hac; [done|]. exfalso. apply Hs, (au_single _ _ _ Has i); [done| |done]. by apply lookup_lt_Some in Hc0. }
  destruct (au_placed _ _ _ Has i c Hc Hac) as [He|Hf]; [congruence|].
  exists i, c. rewrite S1, S2 in *. do 2 (split; [done|]). rewrite Hsz in *. do 2 (split; [done|]). by rewrite W5.
Qed.

Lemma value_total h cs cs' p p' m k a : attrs_ok h -> laid_out h cs cs' p p' -> attr_at h (m, k) = Some a -> valued (m, k) p ->
  exists o, attr_offset p' !! (m, k) = Some o.
Proof.
  intros HA [_ _ [_ _ F3]] Ha (o0 & Ho0 & _). destruct (F3 m k) as [He|(i & c & _ & M & a' & _ & _ & _ & _ & W5)].
  - rewrite He. by exists o0.
  - by eexists.
Qed.

(** ** The whole computation *)
Definition valid_offset (o : Z) : Prop := offset_error o = false.

Section compute.
Context (degree_sort : list ScopeComponent -> list ScopeComponent).
Context (degree_sort_perm : forall l, degree_sort l ≡ₚ l).

(** The components that the computation finds. *)
Definition components_of (g : ModuleGraph) (p : Pipeline) : option (list ScopeComponent) :=
  scope_components_ <$> (p ← PrepareMetadataComputation g p; identify_all g p).

Definition overlap (o s o' s' : Z) : Prop := o < o' + s' /\ o' < o + s.

Lemma places_apart h cs cs' p p' m k k' a a' o o' : attrs_ok h -> laid_out h cs cs' p p' -> comfortable cs ->
  (forall r, is_Some (attr_at h r) -> valued r p) -> k <> k' -> attr_at h (m, k) = Some a -> attr_at h (m, k') = Some a' ->
  attr_offset p' !! (m, k) = Some o -> attr_offset p' !! (m, k') = Some o' -> valid_offset o -> valid_offset o' ->
  ~ overlap o (attr_size a) o' (attr_size a').
Proof.
  intros HA HL Hcf Hval Hk Ha Ha' Ho Ho' Hv Hv'.
  destruct (valid_written h cs cs' p p' m k o a HA HL Ha (Hval (m, k) ltac:(by eexists)) Ho Hv) as (i & c & Hc & Hm & Hn & Hac & <- & <- & _).
  destruct (valid_written h cs cs' p p' m k' o' a' HA HL Ha' (Hval (m, k') ltac:(by eexists)) Ho' Hv') as (j & c' & Hc' & Hm' & Hn' & Hac' & <- & <- & _).
  assert (Hij : i <> j).
  { intros ->. simplify_eq. apply Hk. unfold attr_at in Ha, Ha'. cbn in Ha, Ha'. destruct (h !! m) as [M|] eqn:HM; [|done]. cbn in Ha, Ha'.
    apply (NoDup_lookup (map attr_name (all_attrs M)) k k' (attr_name a) (at_names h HA m M HM)).
    - change (map attr_name (all_attrs M)) with (attr_name <$> all_attrs M). by rewrite list_lookup_fmap, Ha.
    - change (map attr_name (all_attrs M)) with (attr_name <$> all_attrs M). rewrite list_lookup_fmap, Ha'. cbn. congruence. }
  assert (meets c c') as Hmt by (unfold meets, DisjointFrom; apply bool_decide_eq_false; set_solver).
  pose proof (au_apart _ _ _ (lo_assigned _ _ _ _ _ HL) i j c c' Hcf Hij Hc Hc' Hac Hac' Hmt Hv Hv') as Hap.
  unfold overlap, finish in *. lia.
Qed.

(** C14: On any graph of modules, with loops or without, the computation of metadata
    offsets ends; every attribute of every module gets either an error value or a place
    inside of the metadata area that is aligned to its size; and when components that
    share modules with the same component share modules or have the same size, the places
    of two attributes of a module do not overlap. *)
Theorem metadata_offsets_safe g p : graph_ok g -> attrs_ok (modules g) -> Z.of_nat (size (all_refs (modules g))) < 2 ^ 15 ->
  scope_components_ p = [] ->
  exists p' cs, ComputeMetadataOffsets degree_sort g p = Some p' /\ components_of g p = Some cs /\
    scope_components_ p' = [] /\ registered_attrs_ p' = registered_attrs_ p /\
    (forall r a, attr_at (modules g) r = Some a -> exists o, attr_offset p' !! r = Some o /\
       (offset_error o = true \/ fits o (attr_size a))) /\
    (comfortable cs -> forall m k k' a a' o o', k <> k' -> attr_at (modules g) (m, k) = Some a -> attr_at (modules g) (m, k') = Some a' ->
       attr_offset p' !! (m, k) = Some o -> attr_offset p' !! (m, k') = Some o' -> valid_offset o -> valid_offset o' ->
       ~ overlap o (attr_size a) o' (attr_size a')).
Proof using degree_sort_perm.
  intros HG HA HN Hnil. unfold ComputeMetadataOffsets, components_of.
  destruct (prepare_spec g p HG Hnil) as (p1 & -> & HC1 & _ & Hr1). cbn [mbind option_bind].
  destruct (identify_all_spec g p1 HG HA HN HC1) as (p2 & -> & HC2 & Hr2 & Hval). cbn [mbind option_bind fmap option_fmap option_map].
  set (cs := degree_sort (ComputeScopeDegrees (scope_components_ p2))).
  pose proof (ComputeScopeDegrees_same (scope_components_ p2)) as Hdeg.
  assert (Hok : Forall (comp_ok (modules g)) cs).
  { unfold cs. rewrite degree_sort_perm. apply Forall_lookup. intros i c Hc.
    destruct (Forall2_lookup_r _ _ _ _ _ Hdeg Hc) as (c0 & Hc0 & Hs). apply (comp_ok_same _ c0); [done|].
    by apply (proj1 (Forall_lookup _ _) (cp_comps _ _ HC2) i). }
  destruct (AssignOffsets_spec (modules g) cs p2 HA Hok (cp_arrays _ _ HC2)) as (p3 & cs' & -> & HL). cbn [mbind option_bind].
  exists (CleanupMetadataComputation p3), (scope_components_ p2). do 3 (split; [done|]).
  split; [cbn; rewrite (fl_registered _ _ _ _ (lo_filled _ _ _ _ _ HL)); congruence|]. split.
  - intros [m k] a Ha. destruct (value_total _ _ _ _ _ m k a HA HL Ha (Hval (m, k) ltac:(by eexists))) as [o Ho]. exists o. split; [done|].
    destruct (offset_error o) eqn:He; [by left|right].
    by destruct (valid_written _ _ _ _ _ m k o a HA HL Ha (Hval (m, k) ltac:(by eexists)) Ho He) as (i & c & _ & _ & _ & _ & _ & _ & Hf).
  - intros Hcf m k k' a a' o o'. apply (places_apart (modules g) cs cs' p2 p3); [done|done| |done].
    apply (comfortable_perm (ComputeScopeDegrees (scope_components_ p2))); [symmetry; apply degree_sort_perm|].
    by apply (comfortable_same (scope_components_ p2)).
Qed.
End compute.

(** ** Examples *)
Definition by_degree (a b : ScopeComponent) : Prop := degree_ b <= degree_ a.
#[export] Instance by_degree_dec : RelDecision by_degree.
Proof. intros a b. unfold by_degree. apply _. Defined.
Definition ex_sort : list ScopeComponent -> list ScopeComponent := merge_sort by_degree.

Lemma ex_sort_perm l : ex_sort l ≡ₚ l.
Proof. apply merge_sort_Permutation. Qed.

Definition empty_pipeline : Pipeline := MkPipeline [] ∅ ∅ ∅ ∅ ∅.
Definition ex_module (n : nat) (l : list Attribute) : operation :=
  OpCreate n (with_attrs (new_module (String (Ascii.ascii_of_nat (97 + n)) EmptyString) false) l).
Definition ex_link (m m' : nat) (o : nat) : operation := OpConnect m o m' 0 true.

Definition offsets_of (ops : list operation) (l : list (nat * nat)) : option (list Z) :=
  g ← run empty_graph ops; p ← ComputeMetadataOffsets ex_sort g empty_pipeline; mapM (fun r => attr_offset p !! r) l.

(** Boolean versions of the hypotheses. *)
Definition all_attributes (h : heap) : list Attribute := concat (map (fun x => all_attrs x.2) (map_to_list h)).
Definition attrs_okb (h : heap) : bool :=
  forallb (fun x => (length (all_attrs x.2) <=? kMaxAttrsPerModule)%nat && bool_decide (NoDup (map attr_name (all_attrs x.2)))) (map_to_list h) &&
  forallb (fun a => (1 <=? attr_size a) && (attr_size a <=? kMetadataAttrMaxSize) &&
    forallb (fun b => negb (String.eqb (attr_name a) (attr_name b)) || (attr_size a =? attr_size b)) (all_attributes h)) (all_attributes h).

Lemma attrs_okb_spec h : attrs_okb h = true -> attrs_ok h.
Proof.
  unfold attrs_okb. rewrite andb_true_iff, !forallb_forall. intros [H1 H2].
  assert (Hin : forall r a, attr_at h r = Some a -> In a (all_attributes h)).
  { intros r a Ha. unfold attr_at in Ha. destruct (h !! r.1) as [M|] eqn:HM; [|done]. cbn in Ha. apply list_elem_of_In, elem_of_concat_map.
    exists (r.1, M). split; [by apply elem_of_map_to_list|by eapply list_elem_of_lookup_2]. }
  assert (Hmod : forall m M, h !! m = Some M -> In (m, M) (map_to_list h)) by (intros m M HM; by apply list_elem_of_In, elem_of_map_to_list).
  split.
  - intros m M HM%Hmod%H1. apply andb_true_iff in HM as [HM%Nat.leb_le _]. exact HM.
  - intros m M HM%Hmod%H1. apply andb_true_iff in HM as [_ HM%bool_decide_eq_true]. exact HM.
  - intros r a Ha%Hin%H2. apply andb_true_iff in Ha as [[Ha%Z.leb_le Hb%Z.leb_le]%andb_true_iff _]. by split.
  - intros r a r' a' Ha%Hin Ha'%Hin Hn. apply H2 in Ha. apply andb_true_iff in Ha as [_ Ha]. rewrite forallb_forall in Ha.
    specialize (Ha a' Ha'). rewrite Hn, String.eqb_refl in Ha. cbn in Ha. by apply Z.eqb_eq in Ha.
Qed.

Definition comfortableb (cs : list ScopeComponent) : bool :=
  let ids := seq 0 (length cs) in
  forallb (fun i => forallb (fun j => forallb (fun k => (i =? j)%nat || (i =? k)%nat || (j =? k)%nat ||
    match cs !! i, cs !! j, cs !! k with
    | Some a, Some b, Some c => DisjointFrom a b || DisjointFrom a c || negb (DisjointFrom b c) || (size_ b =? size_ c)
    | _, _, _ => true
    end) ids) ids) ids.

Lemma comfortableb_spec cs : comfortableb cs = true -> comfortable cs.
Proof.
  unfold comfortableb, comfortable, meets. intros H i j k a b c H1 H2 H3 Ha Hb Hc Hab Hac.
  assert (Hin : forall n x, cs !! n = Some x -> In n (seq 0 (length cs))) by (intros n x Hx%lookup_lt_Some; apply in_seq; lia).
  rewrite forallb_forall in H. specialize (H i (Hin i a Ha)). rewrite forallb_forall in H. specialize (H j (Hin j b Hb)).
  rewrite forallb_forall in H. specialize (H k (Hin k c Hc)). rewrite Ha, Hb, Hc, Hab, Hac in H.
  apply Nat.eqb_neq in H1, H2, H3. rewrite H1, H2, H3 in H. cbn in H.
  apply orb_true_iff in H as [H%negb_true_iff|H%Z.eqb_eq]; [by left|by right].
Qed.

(** A writes [a] and [b], B reads [a] and writes [c], C reads all of them. *)
Definition metadata_ops : list operation :=
  [ex_module 0 [MkAttr "a" 4 kWrite; MkAttr "b" 2 kWrite]; ex_module 1 [MkAttr "a" 4 kRead; MkAttr "c" 8 kWrite];
   ex_module 2 [MkAttr "a" 4 kRead; MkAttr "b" 2 kUpdate; MkAttr "c" 8 kRead]; ex_link 0 1 0; ex_link 1 2 0].
Definition ex_metadata_graph : ModuleGraph := default empty_graph (run empty_graph metadata_ops).

Lemma ex_metadata_graph_ok : graph_ok ex_metadata_graph.
Proof.
  destruct (run_ok empty_graph metadata_ops empty_graph_ok) as (g & Hg & HG); [vm_compute; reflexivity|].
  unfold ex_metadata_graph. by rewrite Hg.
Qed.

Lemma metadata_offsets_safe_witness :
  exists p' o o', ComputeMetadataOffsets ex_sort ex_metadata_graph empty_pipeline = Some p' /\
    attr_offset p' !! (2, 0)%nat = Some o /\ attr_offset p' !! (2, 2)%nat = Some o' /\ ~ overlap o 4 o' 8.
Proof.
  destruct (metadata_offsets_safe ex_sort ex_sort_perm ex_metadata_graph empty_pipeline) as (p' & cs & Hp & Hcs & _ & _ & Hval & Hap).
  - exact ex_metadata_graph_ok.
  - apply attrs_okb_spec. vm_compute. reflexivity.
  - vm_compute. reflexivity.
  - reflexivity.
  - assert (Hc : comfortableb <$> components_of ex_metadata_graph empty_pipeline = Some true) by (vm_compute; reflexivity).
    rewrite Hcs in Hc. injection Hc as Hc.
    destruct (Hval (2, 0)%nat (MkAttr "a" 4 kRead)) as (o & Ho & _); [vm_compute; reflexivity|].
    destruct (Hval (2, 2)%nat (MkAttr "c" 8 kRead)) as (o' & Ho' & _); [vm_compute; reflexivity|].
    assert (Hv : (fun p => (attr_offset p !! (2, 0)%nat, attr_offset p !! (2, 2)%nat)) <$> ComputeMetadataOffsets ex_sort ex_metadata_graph empty_pipeline
      = Some (Some 8, Some 0)) by (vm_compute; reflexivity).
    rewrite Hp in Hv. injection Hv as Hv Hv'. rewrite Ho in Hv. rewrite Ho' in Hv'. injection Hv as ->. injection Hv' as ->.
    exists p', 8, 0. split; [exact Hp|]. split; [exact Ho|]. split; [exact Ho'|].
    apply (Hap (comfortableb_spec cs Hc) 2%nat 0%nat 2%nat (MkAttr "a" 4 kRead) (MkAttr "c" 8 kRead)); try done; vm_compute; reflexivity.
Defined.

(** A reader that a writer reaches can be missed: when the traversal comes to a module
    upstream of a reader that it has found, it marks the module without looking at what
    else is downstream of it, and does not come back.  Here 0 writes [a], 3 and 4 read it,
    and 4 is told that no one writes it. *)
Definition missed_reader : list operation :=
  [ex_module 0 [MkAttr "a" 4 kWrite]; ex_module 1 []; ex_module 2 []; ex_module 3 [MkAttr "a" 4 kRead]; ex_module 4 [MkAttr "a" 4 kRead];
   ex_link 0 1 0; ex_link 0 2 1; ex_link 1 3 0; ex_link 2 3 0; ex_link 2 4 1].
Lemma reader_missed : offsets_of missed_reader [(0, 0); (3, 0); (4, 0)]%nat = Some [0; 0; kMetadataOffsetNoRead].
Proof. vm_compute. reflexivity. Qed.

(** Writers of the same reader can get different places: 0, 3 and 5 write [a] for 2, and 5
    writes it where 2 does not look. *)
Definition split_scope : list operation :=
  [ex_module 0 [MkAttr "a" 4 kWrite]; ex_module 1 []; ex_module 2 [MkAttr "a" 4 kRead]; ex_module 3 [MkAttr "a" 4 kWrite]; ex_module 4 [];
   ex_module 5 [MkAttr "a" 4 kWrite; MkAttr "b" 4 kWrite]; ex_module 6 [MkAttr "b" 4 kRead];
   ex_link 0 1 0; ex_link 1 2 0; ex_link 3 2 0; ex_link 3 4 1; ex_link 4 1 0; ex_link 5 4 0; ex_link 5 6 1].
Lemma writers_disagree : offsets_of split_scope [(0, 0); (2, 0); (3, 0); (5, 0)]%nat = Some [4; 4; 4; 0].
Proof. vm_compute. reflexivity. Qed.

(** Without the condition on components, places can overlap: [first_fit] goes back past a
    long component when a shorter one begins inside of it.  Module 2 reads the 16 bytes of
    [big] and writes the 4 bytes of [c] in the middle of them. *)
Definition overlapping : list operation :=
  [ex_module 0 [MkAttr "big" 16 kWrite; MkAttr "e" 1 kWrite; MkAttr "f" 1 kWrite];
   ex_module 1 [MkAttr "e" 1 kRead; MkAttr "f" 1 kRead];
   ex_module 2 [MkAttr "big" 16 kRead; MkAttr "c" 4 kWrite]; ex_module 3 [];
   ex_module 4 [MkAttr "c" 4 kRead; MkAttr "b" 4 kWrite];
   ex_module 5 [MkAttr "i" 1 kWrite];
   ex_module 6 [MkAttr "b" 4 kRead; MkAttr "i" 1 kRead; MkAttr "d" 4 kWrite]; ex_module 7 [];
   ex_module 8 [MkAttr "j" 1 kWrite; MkAttr "k" 1 kWrite; MkAttr "l" 1 kWrite];
   ex_module 9 [MkAttr "d" 4 kRead; MkAttr "j" 1 kRead; MkAttr "k" 1 kRead; MkAttr "l" 1 kRead];
   ex_link 0 1 0; ex_link 1 2 0; ex_link 2 3 0; ex_link 3 4 0; ex_link 4 5 0; ex_link 5 6 0; ex_link 6 7 0; ex_link 7 8 0; ex_link 8 9 0].
Lemma places_overlap : offsets_of overlapping [(2, 0); (2, 1)]%nat = Some [0; 8].
Proof. vm_compute. reflexivity. Qed.
