(* ===== verification/MCSLock.v ===== *)
(** The queue lock of Mellor-Crummey and Scott: [core/utils/mcslock.h], as a step relation.

    Every read or write of a shared field is a step of one thread, in any interleaving of
    the threads; stores become visible in program order, as on the x86 targets of the
    source.  Thread [i] brings its node [i].  The state carries, beside the lock and the
    nodes, in which order threads came to the lock and in which order they got it. *)
From S2P Require Import Prelude.

(** A call in progress, by where it is. *)
Inductive pc :=
| Idle
(* mcs_lock *)
| LockNext | LockLocked | LockSwap | LockLink (pre : nat) | LockSpin
(* mcs_trylock *)
| TryCas
| Holding
(* mcs_unlock *)
| UnlockNext | UnlockCas | UnlockWait | UnlockRead | UnlockStore (next : nat).

#[export] Instance pc_dec : EqDecision pc.
Proof. solve_decision. Defined.

Record state := State {
  tail : option nat;
  next : list (option nat);
  locked : list bool;
  threads : list pc;
  arrived : list nat;
  entered : list nat }.

Definition with_pc (s : state) (i : nat) (c : pc) : state :=
  State (tail s) (next s) (locked s) (<[i := c]> (threads s)) (arrived s) (entered s).
Definition set_tail (s : state) (x : option nat) : state :=
  State x (next s) (locked s) (threads s) (arrived s) (entered s).
Definition set_next (s : state) (i : nat) (x : option nat) : option state :=
  if (i <? length (next s))%nat then Some (State (tail s) (<[i := x]> (next s)) (locked s) (threads s) (arrived s) (entered s)) else None.
Definition set_locked (s : state) (i : nat) (b : bool) : option state :=
  if (i <? length (locked s))%nat then Some (State (tail s) (next s) (<[i := b]> (locked s)) (threads s) (arrived s) (entered s)) else None.
Definition arrive (s : state) (i : nat) : state :=
  State (tail s) (next s) (locked s) (threads s) (arrived s ++ [i]) (entered s).
Definition enter (s : state) (i : nat) : state :=
  with_pc (State (tail s) (next s) (locked s) (threads s) (arrived s) (entered s ++ [i])) i Holding.

(** [mcs_lock_init] *)
Definition mcs_lock_init : option nat := None.
Definition mcs_is_locked (s : state) : bool := bool_decide (is_Some (tail s)).

(** The next step of thread [i]; a thread that waits stays where it is. *)
Definition advance (s : state) (i : nat) : option state :=
  c ← threads s !! i;
  match c with
  | Idle | Holding => None
  | LockNext => s ← set_next s i None; Some (with_pc s i LockLocked)
  | LockLocked => s ← set_locked s i true; Some (with_pc s i LockSwap)
  | LockSwap =>
      let pre := tail s in
      let s := arrive (set_tail s (Some i)) i in
      Some (match pre with None => enter s i | Some pre => with_pc s i (LockLink pre) end)
  | LockLink pre => s ← set_next s pre (Some i); Some (with_pc s i LockSpin)
  | LockSpin => b ← locked s !! i; Some (if b : bool then s else enter s i)
  | TryCas =>
      Some (match tail s with None => enter (arrive (set_tail s (Some i)) i) i | Some _ => with_pc s i Idle end)
  | UnlockNext => x ← next s !! i; Some (with_pc s i (match x with None => UnlockCas | Some _ => UnlockRead end))
  | UnlockCas => Some (if bool_decide (tail s = Some i) then with_pc (set_tail s None) i Idle else with_pc s i UnlockWait)
  | UnlockWait => x ← next s !! i; Some (match x with None => s | Some _ => with_pc s i UnlockRead end)
  | UnlockRead => x ← next s !! i; x ← x; Some (with_pc s i (UnlockStore x))
  | UnlockStore x => s ← set_locked s x false; Some (with_pc s i Idle)
  end.

(** A call that thread [i] makes, or a step of the call that it is in. *)
Inductive action := Lock (i : nat) | TryLock (i : nat) | Unlock (i : nat) | Run (i : nat).

Inductive step (s : state) : action -> state -> Prop :=
| step_lock i : threads s !! i = Some Idle -> step s (Lock i) (with_pc s i LockNext)
| step_trylock i : threads s !! i = Some Idle -> step s (TryLock i) (with_pc s i TryCas)
| step_unlock i : threads s !! i = Some Holding -> step s (Unlock i) (with_pc s i UnlockNext)
| step_run i s' : advance s i = Some s' -> step s (Run i) s'.

(** [mcs_trylock] does not clear the node, and the source does not say that its caller must:
    the node that it is given here has a null [next] (see [trylock_stale_node] for one that has not). *)
Definition null_next (s : state) (a : action) : Prop :=
  match a with TryLock i => next s !! i = Some None | _ => True end.

(** An interleaving in which every [mcs_trylock] is given such a node. *)
Inductive clean_steps : state -> state -> Prop :=
| clean_refl s : clean_steps s s
| clean_step s a s1 s2 : step s a s1 -> null_next s a -> clean_steps s1 s2 -> clean_steps s s2.

(** [n] threads that do nothing yet. *)
Definition init (n : nat) : state := State mcs_lock_init (replicate n None) (replicate n false) (replicate n Idle) [] [].

(** ** The invariant *)

(** A thread that is in the queue of the lock, and one that has not come to it. *)
Definition queued (c : pc) : bool :=
  match c with Idle | LockNext | LockLocked | LockSwap | TryCas => false | _ => true end.

(** The first in the queue has the lock or may take it. *)
Definition head_ok (s : state) (i : nat) (rest : list nat) : Prop :=
  match threads s !! i with
  | Some Holding | Some UnlockNext | Some UnlockCas => True
  | Some LockSpin => locked s !! i = Some false
  | Some UnlockWait => rest <> []
  | Some UnlockRead => exists x, next s !! i = Some (Some x)
  | Some (UnlockStore x) => next s !! i = Some (Some x)
  | _ => False
  end.

(** [b] follows [a] in the queue. *)
Definition link_ok (s : state) (a b : nat) : Prop :=
  locked s !! b = Some true /\
  ((threads s !! b = Some (LockLink a) /\ next s !! a = Some None) \/
   (threads s !! b = Some LockSpin /\ next s !! a = Some (Some b))).

Record chain_ok (s : state) (q : list nat) : Prop := {
  ch_link k a b : q !! k = Some a -> q !! S k = Some b -> link_ok s a b;
  ch_last a : last q = Some a -> next s !! a = Some None }.

Definition outside_ok (s : state) (i : nat) : Prop :=
  match threads s !! i with
  | Some LockLocked | Some TryCas => next s !! i = Some None
  | Some LockSwap => next s !! i = Some None /\ locked s !! i = Some true
  | _ => True
  end.

Record lock_inv (s : state) (q : list nat) : Prop := {
  li_next : length (next s) = length (threads s);
  li_locked : length (locked s) = length (threads s);
  li_tail : tail s = last q;
  li_nodup : NoDup q;
  li_queued i c : threads s !! i = Some c -> queued c = true <-> i ∈ q;
  li_bound i : i ∈ q -> (i < length (threads s))%nat;
  li_outside i : outside_ok s i;
  li_head i rest : q = i :: rest -> head_ok s i rest;
  li_chain : chain_ok s q;
  li_order : arrived s = entered s ++ match q with
    | [] => []
    | i :: rest => if decide (threads s !! i = Some LockSpin) then q else rest end }.

Lemma init_inv n : lock_inv (init n) [].
Proof.
  split; cbn; rewrite ?length_replicate; try done.
  - apply NoDup_nil_2.
  - intros i c Hc. apply lookup_replicate_1 in Hc as [-> _]. set_solver.
  - intros i. set_solver.
  - intros i. unfold outside_ok. cbn. destruct (replicate n Idle !! i) as [c|] eqn:Hc; [|done].
    by apply lookup_replicate_1 in Hc as [-> _].
Qed.

Lemma lookup_with (l : list pc) i c j : (i < length l)%nat -> <[i := c]> l !! j = if decide (i = j) then Some c else l !! j.
Proof.
  intros Hi. destruct (decide (i = j)) as [<-|]; [by apply list_lookup_insert_eq|by apply list_lookup_insert_ne].
Qed.

(** What only one thread changes outside of the queue leaves the queue alone. *)
Definition same_for (s s' : state) (q : list nat) : Prop :=
  tail s' = tail s /\ arrived s' = arrived s /\ entered s' = entered s /\
  length (next s') = length (next s) /\ length (locked s') = length (locked s) /\ length (threads s') = length (threads s) /\
  forall i, i ∈ q -> next s' !! i = next s !! i /\ locked s' !! i = locked s !! i /\ threads s' !! i = threads s !! i.

Lemma link_same s s' q a b : same_for s s' q -> a ∈ q -> b ∈ q -> link_ok s a b -> link_ok s' a b.
Proof.
  intros (_ & _ & _ & _ & _ & _ & Hs) Ha Hb. unfold link_ok. destruct (Hs a Ha) as (-> & _), (Hs b Hb) as (_ & -> & ->). done.
Qed.

Lemma inv_outside s s' q i c : lock_inv s q -> same_for s s' q -> i ∉ q -> threads s' !! i = Some c -> queued c = false ->
  (forall j, i <> j -> threads s' !! j = threads s !! j /\ next s' !! j = next s !! j /\ locked s' !! j = locked s !! j) ->
  outside_ok s' i -> lock_inv s' q.
Proof.
  intros [L1 L2 L3 L4 L5 L6 L7 L8 L9 L10] Hsame Hi Hc Hq Hj Ho. pose proof Hsame as (S1 & S2 & S3 & S4 & S5 & S6 & S7).
  split; try congruence.
  - intros j d Hd. destruct (decide (i = j)) as [<-|Hne].
    + rewrite Hc in Hd. injection Hd as <-. rewrite Hq. split; [done|set_solver].
    + destruct (Hj j Hne) as (He & _). rewrite He in Hd. by apply L5.
  - intros j Hjq. rewrite S6. by apply L6.
  - intros j. destruct (decide (i = j)) as [<-|Hne]; [done|]. destruct (Hj j Hne) as (H1 & H2 & H3).
    unfold outside_ok. rewrite H1, H2, H3. apply L7.
  - intros j rest ->. destruct (S7 j ltac:(by left)) as (H1 & H2 & H3). unfold head_ok. rewrite H1, H2, H3. by apply L8.
  - destruct L9 as [C1 C2]. split.
    + intros k a b Ha Hb. apply (link_same s s' q); [done|by eapply list_elem_of_lookup_2|by eapply list_elem_of_lookup_2|by apply (C1 k)].
    + intros a Ha. destruct (S7 a ltac:(by apply last_Some_elem_of)) as (-> & _). by apply C2.
  - rewrite S2, S3, L10. f_equal. destruct q as [|j rest]; [done|]. destruct (S7 j ltac:(by left)) as (_ & _ & ->). done.
Qed.

(** The first in the queue goes on, and stays in the queue. *)
Lemma inv_head s s' i rest c : lock_inv s (i :: rest) -> threads s' = <[i := c]> (threads s) ->
  tail s' = tail s -> next s' = next s -> locked s' = locked s -> arrived s' = arrived s ->
  queued c = true -> c <> LockSpin -> head_ok s' i rest -> arrived s' = entered s' ++ rest ->
  lock_inv s' (i :: rest).
Proof.
  intros [L1 L2 L3 L4 L5 L6 L7 L8 L9 L10] Ht Hta Hn Hl Ha Hc Hspin Hh He.
  assert (i < length (threads s))%nat as Hi by (apply L6; by left).
  assert (Hlk : forall j, threads s' !! j = if decide (i = j) then Some c else threads s !! j) by (intros j; by rewrite Ht, lookup_with).
  split; rewrite ?Ht, ?Hta, ?Hn, ?Hl, ?length_insert; try done.
  - intros j d. rewrite lookup_with by done. destruct (decide (i = j)) as [<-|]; [|by apply L5].
    intros [= <-]. rewrite Hc. split; [by left|done].
  - intros j. unfold outside_ok. rewrite Hlk, Hn, Hl. destruct (decide (i = j)); [by destruct c|apply L7].
  - by intros j r [= <- <-].
  - destruct L9 as [C1 C2]. split; [|by rewrite Hn]. intros k a b Hka Hkb. specialize (C1 k a b Hka Hkb).
    unfold link_ok in *. rewrite Hlk, Hn, Hl. destruct (decide (i = b)) as [<-|]; [|done].
    by pose proof (NoDup_lookup _ 0 (S k) i L4 eq_refl Hkb).
  - rewrite decide_False; [done|]. rewrite lookup_with, decide_True by done. congruence.
Qed.

(** A thread outside of the queue comes to its end. *)
Lemma inv_append s s' q i c d : lock_inv s q -> threads s !! i = Some d -> queued d = false -> next s !! i = Some None ->
  threads s' = <[i := c]> (threads s) -> tail s' = Some i -> next s' = next s -> locked s' = locked s ->
  arrived s' = arrived s ++ [i] ->
  match last q with
  | None => c = Holding /\ entered s' = entered s ++ [i]
  | Some pre => c = LockLink pre /\ locked s !! i = Some true /\ entered s' = entered s
  end -> lock_inv s' (q ++ [i]).
Proof.
  intros [L1 L2 L3 L4 L5 L6 L7 L8 L9 L10] Hd Hq Hni Ht Hta Hn Hl Ha Hc.
  assert (i < length (threads s))%nat as Hi by (by apply lookup_lt_Some in Hd).
  assert (Hlk : forall j, threads s' !! j = if decide (i = j) then Some c else threads s !! j) by (intros j; by rewrite Ht, lookup_with).
  assert (i ∉ q) as Hout by (intros Hin; apply (L5 i d Hd) in Hin; congruence).
  assert (Hcq : queued c = true) by (destruct (last q); destruct_and!; by subst).
  split; rewrite ?Hta, ?Hn, ?Hl; try (rewrite Ht, length_insert); try done.
  - by rewrite last_snoc.
  - apply NoDup_app. split; [done|]. split; [set_solver|apply NoDup_singleton].
  - intros j e. rewrite Hlk. destruct (decide (i = j)) as [<-|Hne]; [|intros He; rewrite (L5 j e He); set_solver].
    intros [= <-]. rewrite Hcq. set_solver.
  - intros j. rewrite elem_of_app, list_elem_of_singleton. intros [?| ->]; [by apply L6|done].
  - intros j. unfold outside_ok. rewrite Hlk, Hn, Hl. destruct (decide (i = j)); [by destruct c|apply L7].
  - intros j r Hr. destruct q as [|j' q]; cbn in Hr; injection Hr as <- <-.
    + destruct Hc as [-> _]. unfold head_ok. by rewrite Hlk, decide_True.
    + specialize (L8 j' q eq_refl). unfold head_ok in *. rewrite Hlk, Hn, Hl, decide_False by set_solver.
      destruct (threads s !! j') as [[]|]; try done. by destruct q.
  - destruct L9 as [C1 C2]. split; [|intros a; rewrite last_snoc, Hn; by intros [= <-]].
    intros k a b Hka Hkb. unfold link_ok. rewrite Hlk, Hn, Hl. apply lookup_app_Some in Hkb as [Hkb|[Hk Hkb]].
    + rewrite decide_False by (intros <-; by apply Hout, (list_elem_of_lookup_2 _ (S k))).
      apply lookup_lt_Some in Hkb as Hlt. rewrite lookup_app_l in Hka by lia. by apply (C1 k).
    + apply list_lookup_singleton_Some in Hkb as [Hk' ->]. rewrite lookup_app_l in Hka by lia.
      assert (last q = Some a) as Hlast by (rewrite last_lookup; by replace (pred (length q)) with k by lia).
      rewrite Hlast in Hc. destruct Hc as (-> & ? & _). rewrite decide_True by done. split; [done|]. left. split; [done|by apply C2].
  - rewrite Ha, L10, <- app_assoc. destruct q as [|j q]; cbn in *.
    + destruct Hc as [-> ->]. rewrite decide_False; [by rewrite app_nil_r|]. by rewrite Hlk, decide_True.
    + assert (threads s' !! j = threads s !! j) as -> by (rewrite Hlk, decide_False; [done|set_solver]).
      assert (entered s' = entered s) as ->; [|by case_decide].
      change (match q with [] => Some j | _ :: _ => last q end) with (last (j :: q)) in Hc.
      destruct (last (j :: q)) eqn:E; [by destruct_and!|]. apply last_None in E. done.
Qed.

(** The predecessor of a thread that links itself, and what the link changes. *)
Lemma queue_pred s q i p : lock_inv s q -> threads s !! i = Some (LockLink p) ->
  exists k, q !! k = Some p /\ q !! S k = Some i.
Proof.
  intros [L1 L2 L3 L4 L5 L6 L7 L8 L9 L10] Hi. assert (i ∈ q) as Hin by (by apply (L5 i _ Hi)).
  apply list_elem_of_lookup in Hin as [[|k] Hk].
  - destruct q as [|j q]; [done|]. injection Hk as ->. specialize (L8 i q eq_refl). unfold head_ok in L8. by rewrite Hi in L8.
  - exists k. destruct (lookup_lt_is_Some_2 q k) as [a Ha]; [apply lookup_lt_Some in Hk; lia|].
    destruct (ch_link s q L9 k a i Ha Hk) as (_ & [[Ht _]|[Ht _]]); rewrite Hi in Ht; [|done]. injection Ht as ->. done.
Qed.

Lemma inv_link s q i p : lock_inv s q -> threads s !! i = Some (LockLink p) ->
  exists s', set_next s p (Some i) = Some s' /\ lock_inv (with_pc s' i LockSpin) q.
Proof.
  intros HI Hi. destruct (queue_pred s q i p HI Hi) as (k & Hp & Hk).
  destruct HI as [L1 L2 L3 L4 L5 L6 L7 L8 L9 L10].
  assert (p < length (next s))%nat as Hlt by (rewrite L1; by apply L6, (list_elem_of_lookup_2 _ k)).
  assert (i < length (threads s))%nat as Hit by (by apply lookup_lt_Some in Hi).
  unfold set_next. apply Nat.ltb_lt in Hlt as Hb. rewrite Hb. eexists. split; [done|].
  destruct (ch_link s q L9 k p i Hp Hk) as (Hli & [[_ Hpn]|[Ht _]]); [|congruence].
  assert (p <> i) as Hpi by (intros ->; pose proof (NoDup_lookup _ _ _ _ L4 Hp Hk); lia).
  split; cbn; rewrite ?length_insert; try done.
  - intros j d. rewrite lookup_with by done. destruct (decide (i = j)) as [<-|]; [|by apply L5].
    intros [= <-]. split; [|done]. intros _. by apply (list_elem_of_lookup_2 _ (S k)).
  - intros j. unfold outside_ok. cbn. rewrite lookup_with by done. destruct (decide (i = j)); [done|].
    specialize (L7 j). unfold outside_ok in L7. destruct (decide (p = j)) as [<-|]; [|by rewrite list_lookup_insert_ne].
    destruct (threads s !! p) as [c|] eqn:Hc; [|done].
    assert (queued c = true) as Hq by (apply (L5 p c Hc); by apply (list_elem_of_lookup_2 _ k)). by destruct c.
  - intros j rest ->. specialize (L8 j rest eq_refl). unfold head_ok in *. cbn.
    assert (i <> j) as Hij by (intros <-; by pose proof (NoDup_lookup _ 0 (S k) i L4 eq_refl Hk)).
    rewrite list_lookup_insert_ne by done. destruct (decide (p = j)) as [<-|]; [|by rewrite list_lookup_insert_ne].
    rewrite list_lookup_insert_eq by done. repeat case_match; try done; [by eexists|congruence].
  - destruct L9 as [C1 C2]. split.
    + intros m a b Hma Hmb. unfold link_ok. cbn. rewrite lookup_with by done. destruct (decide (i = b)) as [<-|Hib].
      * pose proof (NoDup_lookup _ _ _ _ L4 Hmb Hk) as Heq. injection Heq as ->. rewrite Hp in Hma. injection Hma as <-.
        split; [done|]. right. by rewrite list_lookup_insert_eq.
      * rewrite list_lookup_insert_ne; [by apply (C1 m)|]. intros <-.
        pose proof (NoDup_lookup _ _ _ _ L4 Hma Hp) as ->. rewrite Hk in Hmb. congruence.
    + intros a Ha. cbn. rewrite list_lookup_insert_ne; [by apply C2|]. intros <-. rewrite last_lookup in Ha.
      pose proof (NoDup_lookup _ _ _ _ L4 Ha Hp). apply lookup_lt_Some in Hk. lia.
  - rewrite L10. destruct q as [|j q]; [done|]. rewrite list_lookup_insert_ne; [done|]. intros <-.
    by pose proof (NoDup_lookup _ 0 (S k) i L4 eq_refl Hk).
Qed.

(** A call in progress, and one that has the lock and has not given it back. *)
Definition in_call (c : pc) : bool := match c with Idle | Holding => false | _ => true end.
Definition has_lock (c : pc) : bool :=
  match c with Holding | UnlockNext | UnlockCas | UnlockWait | UnlockRead | UnlockStore _ => true | _ => false end.

(** Who has the lock, or may take it, is the first in the queue. *)
Lemma queue_head s q i c : lock_inv s q -> threads s !! i = Some c ->
  has_lock c = true \/ (c = LockSpin /\ locked s !! i = Some false) -> exists rest, q = i :: rest.
Proof.
  intros [L1 L2 L3 L4 L5 L6 L7 L8 L9 L10] Hi Hc.
  assert (exists k, q !! k = Some i) as [[|k] Hk].
  { apply list_elem_of_lookup, (L5 i c Hi). destruct Hc as [Hc|[-> _]]; [by destruct c|done]. }
  - destruct q as [|j rest]; [done|]. injection Hk as ->. by eexists.
  - destruct (lookup_lt_is_Some_2 q k) as [a Ha]; [apply lookup_lt_Some in Hk; lia|].
    destruct (ch_link s q L9 k a i Ha Hk) as (Hl & [[Ht _]|[Ht _]]); rewrite Hi in Ht; injection Ht as ->;
      destruct Hc as [Hc|[He Hc]]; first [done|congruence].
Qed.

(** The first in the queue leaves: nobody follows it, or it wakes the next. *)
Lemma inv_leave_last s q i : lock_inv s q -> threads s !! i = Some UnlockCas -> tail s = Some i ->
  lock_inv (with_pc (set_tail s None) i Idle) [].
Proof.
  intros HI Hi Htl. destruct (queue_head s q i _ HI Hi ltac:(by left)) as [rest ->].
  destruct HI as [L1 L2 L3 L4 L5 L6 L7 L8 L9 L10].
  assert (i < length (threads s))%nat as Hlt by (by apply lookup_lt_Some in Hi).
  assert (rest = []) as ->.
  { rewrite L3, last_lookup in Htl. pose proof (NoDup_lookup _ _ 0 i L4 Htl eq_refl) as Hz. by destruct rest. }
  split; cbn; rewrite ?length_insert; try done.
  - apply NoDup_nil_2.
  - intros j c. rewrite lookup_with by done. destruct (decide (i = j)) as [<-|]; [intros [= <-]; set_solver|].
    intros Hc. rewrite (L5 j c Hc). set_solver.
  - set_solver.
  - intros j. unfold outside_ok. cbn. rewrite lookup_with by done. destruct (decide (i = j)); [done|apply L7].
  - rewrite L10, Hi. by rewrite decide_False.
Qed.

Lemma inv_wake s q i x : lock_inv s q -> threads s !! i = Some (UnlockStore x) ->
  exists rest s', q = i :: rest /\ set_locked s x false = Some s' /\ lock_inv (with_pc s' i Idle) rest.
Proof.
  intros HI Hi. destruct (queue_head s q i _ HI Hi ltac:(by left)) as [q' ->].
  destruct HI as [L1 L2 L3 L4 L5 L6 L7 L8 L9 L10]. rename q' into q.
  assert (i < length (threads s))%nat as Hlt by (by apply lookup_lt_Some in Hi).
  specialize (L8 i q eq_refl). unfold head_ok in L8. rewrite Hi in L8.
  destruct q as [|b rest]; [by rewrite (ch_last s [i] L9 i eq_refl) in L8|].
  destruct (ch_link s _ L9 0%nat i b eq_refl eq_refl) as (Hlb & [[_ Hn]|[Hb Hn]]); [congruence|].
  assert (b = x) as -> by congruence.
  assert (x < length (locked s))%nat as Hx by (rewrite L2; by apply lookup_lt_Some in Hb).
  assert (i <> x) as Hix by congruence. apply NoDup_cons in L4 as [Hni Hnd].
  exists (x :: rest). unfold set_locked. apply Nat.ltb_lt in Hx as ->. eexists. split; [done|]. split; [done|].
  split; cbn; rewrite ?length_insert; try done.
  - intros j c. rewrite lookup_with by done. destruct (decide (i = j)) as [<-|]; [by intros [= <-]|].
    intros Hc. rewrite (L5 j c Hc). set_solver.
  - intros j Hj. apply L6. by right.
  - intros j. unfold outside_ok. cbn. rewrite lookup_with by done. destruct (decide (i = j)); [done|]. specialize (L7 j).
    unfold outside_ok in L7. destruct (decide (x = j)) as [<-|]; [by rewrite Hb|by rewrite list_lookup_insert_ne].
  - intros j r [= <- <-]. unfold head_ok. cbn. rewrite list_lookup_insert_ne, Hb by done.
    apply list_lookup_insert_eq. rewrite L2. by apply lookup_lt_Some in Hb.
  - destruct L9 as [C1 C2]. split.
    + intros k a b Ha Hbk. unfold link_ok. cbn.
      assert (x <> b) as Hxb by (intros <-; apply NoDup_cons in Hnd as [Hnx _]; by apply Hnx, (list_elem_of_lookup_2 _ k)).
      assert (i <> b) as Hib by (intros <-; by apply Hni, (list_elem_of_lookup_2 _ (S k))).
      rewrite !list_lookup_insert_ne by done. by apply (C1 (S k)).
    + intros a Ha. by apply C2.
  - rewrite L10, Hi, decide_False by done. rewrite list_lookup_insert_ne, Hb, decide_True by done. done.
Qed.

(** A thread outside of the queue writes its own node, or nothing, and stays outside. *)
Lemma inv_write s q i c d xn xl : lock_inv s q -> threads s !! i = Some d -> queued d = false -> queued c = false ->
  let s' := State (tail s) (<[i := xn]> (next s)) (<[i := xl]> (locked s)) (<[i := c]> (threads s)) (arrived s) (entered s) in
  outside_ok s' i -> lock_inv s' q.
Proof.
  intros HI Hd Hq Hc s' Ho.
  assert (i < length (threads s))%nat as Hlt by (by apply lookup_lt_Some in Hd).
  assert (i ∉ q) as Hout by (intros Hin; apply (li_queued s q HI i d Hd) in Hin; congruence).
  apply (inv_outside s s' q i c); try done.
  - unfold same_for. cbn. rewrite !length_insert. do 6 (split; [done|]). intros j Hj.
    rewrite !list_lookup_insert_ne by set_solver. done.
  - by apply list_lookup_insert_eq.
  - intros j Hj. cbn. by rewrite !list_lookup_insert_ne.
Qed.

Lemma inv_leave s q i c d : lock_inv s q -> threads s !! i = Some d -> queued d = false -> queued c = false ->
  outside_ok (with_pc s i c) i -> lock_inv (with_pc s i c) q.
Proof.
  intros HI Hd Hq Hc Ho. destruct (lookup_lt_is_Some_2 (next s) i) as [xn Hxn].
  { rewrite (li_next s q HI). by apply lookup_lt_Some in Hd. }
  destruct (lookup_lt_is_Some_2 (locked s) i) as [xl Hxl].
  { rewrite (li_locked s q HI). by apply lookup_lt_Some in Hd. }
  pose proof (inv_write s q i c d xn xl HI Hd Hq Hc) as H. cbn in H. rewrite !list_insert_id in H by done. by apply H.
Qed.

(** The first in the queue goes on in its call. *)
Lemma inv_next s q i c d : lock_inv s q -> threads s !! i = Some d -> has_lock d = true -> has_lock c = true ->
  (forall rest, q = i :: rest -> head_ok (with_pc s i c) i rest) -> lock_inv (with_pc s i c) q.
Proof.
  intros HI Hd Hh Hc Hok. destruct (queue_head s q i d HI Hd ltac:(by left)) as [rest ->].
  apply (inv_head s _ i rest c); try done; [by destruct c|by destruct c|by apply Hok|].
  cbn. rewrite (li_order s _ HI), decide_False; [done|]. intros He. rewrite Hd in He. injection He as ->. done.
Qed.

(** How many steps of its own a call needs at most. *)
Definition rank (c : pc) : nat :=
  match c with
  | Idle | Holding => 0
  | LockNext => 5 | LockLocked => 4 | LockSwap => 3 | LockLink _ => 2 | LockSpin => 1
  | TryCas => 1
  | UnlockNext => 5 | UnlockCas => 4 | UnlockWait => 3 | UnlockRead => 2 | UnlockStore _ => 1
  end%nat.
Definition work (s : state) : nat := sum_list_with rank (threads s).

Lemma work_insert (l : list pc) i c d : l !! i = Some d -> (rank c < rank d)%nat ->
  (sum_list_with rank (<[i := c]> l) < sum_list_with rank l)%nat.
Proof.
  revert i. induction l as [|x l IH]; intros [|i] Hd Hlt; cbn in *; [done|done| |].
  - injection Hd as ->. lia.
  - specialize (IH i Hd Hlt). unfold insert in IH. apply Nat.add_lt_mono_l, IH.
Qed.

(** A step of a call is always defined, keeps the invariant, and unless it is a turn of
    a waiting loop there is less to do after it. *)
Definition step_result (s : state) (i : nat) (c : pc) : Prop :=
  exists s' q', advance s i = Some s' /\ lock_inv s' q' /\
    (s' = s /\ (c = LockSpin \/ c = UnlockWait) \/ exists c', threads s' = <[i := c']> (threads s) /\ (rank c' < rank c)%nat).

Lemma result_intro s i c s' q' c' : advance s i = Some s' -> lock_inv s' q' ->
  threads s' = <[i := c']> (threads s) -> (rank c' < rank c)%nat -> step_result s i c.
Proof. intros. exists s', q'. split; [done|]. split; [done|]. right. by exists c'. Qed.

Lemma lock_result s q i c : lock_inv s q -> threads s !! i = Some c ->
  match c with LockNext | LockLocked | LockSwap | LockLink _ | LockSpin | TryCas => True | _ => False end ->
  step_result s i c.
Proof.
  intros HI Hi Hc. assert (i < length (threads s))%nat as Hlt by (by apply lookup_lt_Some in Hi).
  assert (Hn : (i < length (next s))%nat) by (by rewrite (li_next s q HI)).
  assert (Hl : (i < length (locked s))%nat) by (by rewrite (li_locked s q HI)).
  apply Nat.ltb_lt in Hn as Hnb, Hl as Hlb.
  destruct (lookup_lt_is_Some_2 _ _ Hn) as [xn Hxn], (lookup_lt_is_Some_2 _ _ Hl) as [xl Hxl].
  pose proof (li_outside s q HI i) as Ho. unfold outside_ok in Ho. rewrite Hi in Ho.
  destruct c; try done.
  - eapply (result_intro _ _ _ _ q LockLocked); [unfold advance, set_next; rewrite Hi, Hnb; cbn; done| |done|cbn; lia].
    pose proof (inv_write s q i LockLocked LockNext None xl HI Hi eq_refl eq_refl) as H. cbn in H.
    rewrite (list_insert_id (locked s)) in H by done. apply H. unfold outside_ok. cbn. by rewrite !list_lookup_insert_eq.
  - eapply (result_intro _ _ _ _ q LockSwap); [unfold advance, set_locked; rewrite Hi, Hlb; cbn; done| |done|cbn; lia].
    pose proof (inv_write s q i LockSwap LockLocked xn true HI Hi eq_refl eq_refl) as H. cbn in H.
    rewrite (list_insert_id (next s)) in H by done. apply H. unfold outside_ok. cbn. by rewrite !list_lookup_insert_eq.
  - destruct Ho as [Hni Hli]. pose proof (li_tail s q HI) as Htl.
    destruct (tail s) as [pre|] eqn:He.
    + eapply (result_intro _ _ _ _ (q ++ [i]) (LockLink pre)); [unfold advance; rewrite Hi; cbn; by rewrite He| |done|cbn; lia].
      eapply (inv_append s _ q i _ _ HI Hi); try done. by rewrite <- Htl.
    + eapply (result_intro _ _ _ _ (q ++ [i]) Holding); [unfold advance; rewrite Hi; cbn; by rewrite He| |done|cbn; lia].
      eapply (inv_append s _ q i _ _ HI Hi); try done. by rewrite <- Htl.
  - destruct (inv_link s q i pre HI Hi) as (s' & Hs' & HI').
    eapply (result_intro _ _ _ _ q LockSpin); [unfold advance; rewrite Hi; cbn; by rewrite Hs'|done| |cbn; lia].
    unfold set_next in Hs'. destruct (pre <? length (next s))%nat; [by injection Hs' as <-|done].
  - destruct xl.
    + exists s, q. split; [|split; [done|left; by split; [|left]]]. unfold advance. rewrite Hi. cbn. by rewrite Hxl.
    + eapply (result_intro _ _ _ _ q Holding); [unfold advance; rewrite Hi; cbn; by rewrite Hxl| |done|cbn; lia].
      destruct (queue_head s q i LockSpin HI Hi ltac:(by right)) as [rest ->].
      apply (inv_head s _ i rest Holding); try done.
      * unfold head_ok. cbn. by rewrite list_lookup_insert_eq.
      * cbn. rewrite (li_order s _ HI), decide_True by done. by rewrite <- app_assoc.
  - pose proof (li_tail s q HI) as Htl. destruct (tail s) as [pre|] eqn:He.
    + eapply (result_intro _ _ _ _ q Idle); [unfold advance; rewrite Hi; cbn; by rewrite He| |done|cbn; lia].
      apply (inv_leave s q i Idle TryCas); try done. unfold outside_ok. cbn. by rewrite list_lookup_insert_eq.
    + eapply (result_intro _ _ _ _ (q ++ [i]) Holding); [unfold advance; rewrite Hi; cbn; by rewrite He| |done|cbn; lia].
      eapply (inv_append s _ q i _ _ HI Hi); try done. by rewrite <- Htl.
Qed.

Lemma unlock_result s q i c : lock_inv s q -> threads s !! i = Some c -> has_lock c = true -> c <> Holding ->
  step_result s i c.
Proof.
  intros HI Hi Hh Hc. assert (i < length (threads s))%nat as Hlt by (by apply lookup_lt_Some in Hi).
  assert (Hn : (i < length (next s))%nat) by (by rewrite (li_next s q HI)).
  destruct (lookup_lt_is_Some_2 _ _ Hn) as [xn Hxn].
  destruct (queue_head s q i c HI Hi ltac:(by left)) as [rest Hq].
  pose proof (li_head s q HI i rest Hq) as Ho. unfold head_ok in Ho. rewrite Hi in Ho.
  assert (Hpc : forall c', threads (with_pc s i c') !! i = Some c') by (intros c'; by apply list_lookup_insert_eq).
  destruct c; try done.
  - destruct xn as [x|]; (eapply (result_intro _ _ _ _ q); [unfold advance; rewrite Hi; cbn; by rewrite Hxn| |done|cbn; lia]);
      apply (inv_next s q i _ UnlockNext); try done; intros r _; unfold head_ok; rewrite Hpc; [by exists x|done].
  - destruct (decide (tail s = Some i)) as [Ht|Ht].
    + eapply (result_intro _ _ _ _ [] Idle); [unfold advance; rewrite Hi; cbn; by rewrite bool_decide_true| |done|cbn; lia].
      by apply (inv_leave_last s q).
    + eapply (result_intro _ _ _ _ q UnlockWait); [unfold advance; rewrite Hi; cbn; by rewrite bool_decide_false| |done|cbn; lia].
      apply (inv_next s q i _ UnlockCas); try done. intros r ->. unfold head_ok. rewrite Hpc. intros ->.
      by rewrite (li_tail s _ HI) in Ht.
  - destruct xn as [x|].
    + eapply (result_intro _ _ _ _ q UnlockRead); [unfold advance; rewrite Hi; cbn; by rewrite Hxn| |done|cbn; lia].
      apply (inv_next s q i _ UnlockWait); try done. intros r _. unfold head_ok. rewrite Hpc. by exists x.
    + exists s, q. split; [unfold advance; rewrite Hi; cbn; by rewrite Hxn|]. split; [done|left; by split; [|right]].
  - destruct Ho as [x Hx].
    eapply (result_intro _ _ _ _ q (UnlockStore x)); [unfold advance; rewrite Hi; cbn; by rewrite Hx| |done|cbn; lia].
    apply (inv_next s q i _ UnlockRead); try done. intros r _. unfold head_ok. by rewrite Hpc.
  - destruct (inv_wake s q i next0 HI Hi) as (r & s' & _ & Hs' & HI').
    eapply (result_intro _ _ _ _ r Idle); [unfold advance; rewrite Hi; cbn; by rewrite Hs'|done| |cbn; lia].
    unfold set_locked in Hs'. destruct (next0 <? length (locked s))%nat; [by injection Hs' as <-|done].
Qed.

Lemma call_result s q i c : lock_inv s q -> threads s !! i = Some c -> in_call c = true -> step_result s i c.
Proof.
  intros HI Hi Hc. destruct c; try done; first [by eapply lock_result|by eapply unlock_result].
Qed.

Lemma advance_inv s q s' i : lock_inv s q -> advance s i = Some s' -> exists q', lock_inv s' q'.
Proof.
  intros HI Ha. destruct (threads s !! i) as [c|] eqn:Hi; [|by unfold advance in Ha; rewrite Hi in Ha].
  destruct (in_call c) eqn:Hc; [|by unfold advance in Ha; rewrite Hi in Ha; destruct c].
  destruct (call_result s q i c HI Hi Hc) as (s1 & q1 & Ha1 & HI1 & _). rewrite Ha in Ha1. injection Ha1 as ->. by exists q1.
Qed.

Lemma step_inv s q a s' : lock_inv s q -> step s a s' -> null_next s a -> exists q', lock_inv s' q'.
Proof.
  intros HI [i Hi|i Hi|i Hi|i s1 Ha] Hn; [exists q|exists q|exists q|by apply (advance_inv s q s1 i)];
    assert (i < length (threads s))%nat as Hlt by (by apply lookup_lt_Some in Hi).
  - apply (inv_leave s q i _ Idle); try done. unfold outside_ok. cbn. by rewrite list_lookup_insert_eq.
  - apply (inv_leave s q i _ Idle); try done. unfold outside_ok. cbn. by rewrite list_lookup_insert_eq.
  - apply (inv_next s q i _ Holding); try done. intros r _. unfold head_ok. cbn. by rewrite list_lookup_insert_eq.
Qed.

Lemma steps_inv s q s' : lock_inv s q -> clean_steps s s' -> exists q', lock_inv s' q'.
Proof.
  intros HI Hs. revert q HI. induction Hs as [|s a s1 s2 Hst Hn _ IH]; intros q HI; [by exists q|].
  destruct (step_inv s q a s1 HI Hst Hn) as [q' HI']. by apply (IH q').
Qed.

Lemma reachable_inv n s : clean_steps (init n) s -> exists q, lock_inv s q.
Proof. apply steps_inv with (q := []), init_inv. Qed.

(** ** What the lock promises *)

(** Who came to the lock and waits for it. *)
Definition waits (c : pc) : bool := match c with LockLink _ | LockSpin => true | _ => false end.

Lemma queue_waits s i rest : lock_inv s (i :: rest) ->
  forall j, j ∈ rest <-> exists c, threads s !! j = Some c /\ waits c = true /\ j <> i.
Proof.
  intros HI j. pose proof (li_nodup s _ HI) as [Hni _]%NoDup_cons. split.
  - intros Hj. assert (j <> i) as Hne by (intros ->; done).
    apply list_elem_of_lookup in Hj as [k Hk].
    destruct (lookup_lt_is_Some_2 (i :: rest) k) as [a Ha]; [apply lookup_lt_Some in Hk; cbn; lia|].
    destruct (ch_link s _ (li_chain s _ HI) k a j Ha Hk) as (_ & [[Ht _]|[Ht _]]); eexists; by split.
  - intros (c & Hc & Hw & Hne). assert (j ∈ i :: rest) as Hin by (apply (li_queued s _ HI j c Hc); by destruct c).
    by apply elem_of_cons in Hin as [->|].
Qed.

Lemma waiting_list s q : lock_inv s q ->
  exists w, arrived s = entered s ++ w /\ NoDup w /\ forall j, j ∈ w <-> exists c, threads s !! j = Some c /\ waits c = true.
Proof.
  intros HI. rewrite (li_order s q HI). pose proof (li_nodup s q HI) as Hnd. destruct q as [|i rest].
  - exists []. split; [done|]. split; [apply NoDup_nil_2|]. intros j. split; [set_solver|]. intros (c & Hc & Hw).
    apply (li_queued s _ HI j c Hc). by destruct c.
  - pose proof (li_head s _ HI i rest eq_refl) as Hh. unfold head_ok in Hh. pose proof (queue_waits s i rest HI) as Hq.
    case_decide as Hs; [exists (i :: rest)|exists rest]; (split; [done|]); (split; [first [exact Hnd|by apply NoDup_cons in Hnd as [? ?]]|]); intros j.
    + rewrite elem_of_cons, (Hq j). split; [intros [->|(c & Hc & Hw & _)]; by eexists|]. intros (c & Hc & Hw).
      destruct (decide (j = i)) as [->|]; [by left|right]. by exists c.
    + rewrite (Hq j). split; [intros (c & Hc & Hw & _); by exists c|]. intros (c & Hc & Hw). exists c. split; [done|].
      split; [done|]. intros ->. rewrite Hc in Hh, Hs. by destruct c.
Qed.

(** A step of a call that is not a turn of a waiting loop. *)
Definition moves (s s' : state) : Prop := s' <> s /\ exists i, advance s i = Some s'.

Lemma moves_work s q s' : lock_inv s q -> moves s s' -> (work s' < work s)%nat /\ exists q', lock_inv s' q'.
Proof.
  intros HI [Hne [i Ha]]. split; [|by eapply advance_inv].
  destruct (threads s !! i) as [c|] eqn:Hi; [|by unfold advance in Ha; rewrite Hi in Ha].
  destruct (in_call c) eqn:Hc; [|by unfold advance in Ha; rewrite Hi in Ha; destruct c].
  destruct (call_result s q i c HI Hi Hc) as (s1 & q1 & Ha1 & _ & Hr). rewrite Ha in Ha1. injection Ha1 as <-.
  destruct Hr as [[-> _]|(c' & Hth & Hlt)]; [done|]. unfold work. rewrite Hth. by eapply work_insert.
Qed.

Lemma can_move s q i c : lock_inv s q -> threads s !! i = Some c -> in_call c = true -> c <> LockSpin -> c <> UnlockWait ->
  exists s', moves s s'.
Proof.
  intros HI Hi Hc Hs Hu. destruct (call_result s q i c HI Hi Hc) as (s1 & q1 & Ha & _ & Hr).
  destruct Hr as [[_ [-> | ->]]|(c' & Hth & Hlt)]; [done|done|]. exists s1. split; [|by exists i]. intros ->.
  apply lookup_lt_Some in Hi as Hb. rewrite Hth, list_lookup_insert_eq in Hi by done. injection Hi as ->. lia.
Qed.

(** When no step is left, a thread has the lock or nobody is in a call. *)
Lemma stuck_holding s q : lock_inv s q -> (forall s', ~ moves s s') ->
  (exists i, threads s !! i = Some Holding) \/ forall i c, threads s !! i = Some c -> c = Idle.
Proof.
  intros HI Hst. assert (Hcm : forall i c, threads s !! i = Some c -> in_call c = true -> c = LockSpin \/ c = UnlockWait).
  { intros i c Hi Hc. destruct (decide (c = LockSpin)) as [?|H1]; [by left|]. destruct (decide (c = UnlockWait)) as [?|H2]; [by right|].
    destruct (can_move s q i c HI Hi Hc H1 H2) as [s' Hm]. by destruct (Hst s'). }
  destruct q as [|i rest].
  - right. intros i c Hi. destruct (queued c) eqn:Hq; [apply (li_queued s _ HI i c Hi) in Hq; set_solver|].
    destruct c; try done; by destruct (Hcm i _ Hi eq_refl).
  - left. exists i. pose proof (li_head s _ HI i rest eq_refl) as Hh. unfold head_ok in Hh.
    destruct (threads s !! i) as [c|] eqn:Hi; [|done].
    destruct (in_call c) eqn:Hc; [|by destruct c]. exfalso. destruct (Hcm i c Hi Hc) as [-> | ->].
    + apply (Hst (enter s i)). split.
      * intros He. apply (f_equal threads) in He. cbn in He. apply lookup_lt_Some in Hi as Hb.
        rewrite <- He, list_lookup_insert_eq in Hi by done. done.
      * exists i. unfold advance. rewrite Hi. cbn. by rewrite Hh.
    + destruct rest as [|b rest]; [done|].
      destruct (ch_link s _ (li_chain s _ HI) 0%nat i b eq_refl eq_refl) as (_ & [[Hb _]|[_ Hn]]).
      * by destruct (Hcm b _ Hb eq_refl).
      * apply (Hst (with_pc s i UnlockRead)). split.
        -- intros He. apply (f_equal threads) in He. cbn in He. apply lookup_lt_Some in Hi as Hb.
           rewrite <- He, list_lookup_insert_eq in Hi by done. done.
        -- exists i. unfold advance. rewrite Hi. cbn. by rewrite Hn.
Qed.

(** C31: From a lock just initialised, in any interleaving of any number of threads that
    lock, try to lock and unlock, each [mcs_trylock] with a node whose [next] is null (the source does
    not ask for it, and [trylock_stale_node] shows that the lock breaks without): at most one thread has the lock; threads get it in the
    order in which they came, so nobody is overtaken, and who came and has not got it is
    exactly who waits; every access of a call in progress is to a node of a thread that is
    in the queue, so no call ever goes wrong; and the lock says it is locked exactly when
    some thread has it or waits for it. *)
Theorem mcs_lock_fifo n s : clean_steps (init n) s ->
  (forall i j c d, threads s !! i = Some c -> threads s !! j = Some d -> has_lock c = true -> has_lock d = true -> i = j) /\
  (exists w, arrived s = entered s ++ w /\ NoDup w /\ forall j, j ∈ w <-> exists c, threads s !! j = Some c /\ waits c = true) /\
  (forall i c, threads s !! i = Some c -> in_call c = true -> is_Some (advance s i)) /\
  (mcs_is_locked s = true <-> exists i c, threads s !! i = Some c /\ (has_lock c || waits c) = true).
Proof.
  intros [q HI]%reachable_inv. split; [|split; [by eapply waiting_list|split]].
  - intros i j c d Hi Hj Hc Hd. destruct (queue_head s q i c HI Hi ltac:(by left)) as [r1 ->].
    destruct (queue_head s _ j d HI Hj ltac:(by left)) as [r2 Heq]. by injection Heq.
  - intros i c Hi Hc. destruct (call_result s q i c HI Hi Hc) as (s' & q' & -> & _). by eexists.
  - unfold mcs_is_locked. rewrite bool_decide_eq_true, (li_tail s q HI). split.
    + intros [i Hl]. assert (i ∈ q) as Hin by (by apply last_Some_elem_of).
      destruct (lookup_lt_is_Some_2 _ _ (li_bound s q HI i Hin)) as [c Hc]. exists i, c. split; [done|].
      apply (li_queued s q HI i c Hc) in Hin. by destruct c.
    + intros (i & c & Hi & Hc). assert (i ∈ q) as Hin by (apply (li_queued s q HI i c Hi); by destruct c).
      destruct (last q) eqn:Hl; [by eexists|]. apply last_None in Hl as ->. set_solver.
Qed.

(** C32: From any state that can be reached with each [mcs_trylock] given a node whose [next] is null
    (after one that is not, a later [mcs_lock] may wait for ever: [trylock_stale_node]), unless new calls start, only a bounded number of steps
    that are not turns of a waiting loop can be made, and when none is left a thread has
    the lock and may give it back, or every call has returned and nobody has it: neither
    deadlock nor a lost wake-up. *)
Theorem mcs_lock_progress n s : clean_steps (init n) s ->
  (forall k s', nsteps moves k s s' -> (k <= work s)%nat) /\
  (forall s', rtc moves s s' -> (forall s'', ~ moves s' s'') ->
     (exists i, threads s' !! i = Some Holding) \/ forall i c, threads s' !! i = Some c -> c = Idle).
Proof.
  intros [q HI]%reachable_inv. split.
  - intros k s' Hk. revert q HI. induction Hk as [|k s s1 s2 Hmv _ IH]; intros q HI; [lia|].
    destruct (moves_work s q s1 HI Hmv) as [Hlt [q' HI']]. specialize (IH q' HI'). lia.
  - intros s' Hr. revert q HI. induction Hr as [s|s s1 s2 Hmv _ IH]; intros q HI; [by eapply stuck_holding|].
    destruct (moves_work s q s1 HI Hmv) as [_ [q' HI']]. by apply (IH q').
Qed.

(** ** An execution *)

Definition act (a : action) (s : state) : option state :=
  match a with
  | Lock i => c ← threads s !! i; if bool_decide (c = Idle) then Some (with_pc s i LockNext) else None
  | TryLock i => c ← threads s !! i; if bool_decide (c = Idle) then Some (with_pc s i TryCas) else None
  | Unlock i => c ← threads s !! i; if bool_decide (c = Holding) then Some (with_pc s i UnlockNext) else None
  | Run i => advance s i
  end.
Fixpoint exec (acts : list action) (s : state) : option state :=
  match acts with [] => Some s | a :: acts => s1 ← act a s; exec acts s1 end.

#[export] Instance null_next_dec s a : Decision (null_next s a).
Proof. destruct a; cbn; apply _. Defined.

(** Only for nodes with a null [next]. *)
Fixpoint exec_clean (acts : list action) (s : state) : option state :=
  match acts with [] => Some s | a :: acts => if decide (null_next s a) then s1 ← act a s; exec_clean acts s1 else None end.

Lemma act_step a s s' : act a s = Some s' -> step s a s'.
Proof.
  destruct a as [i|i|i|i]; cbn; intros Ha; [..|by constructor];
    (destruct (threads s !! i) as [c|] eqn:Hi; [|done]; cbn in Ha; case_bool_decide; [|done]; injection Ha as <-;
     subst c; by constructor).
Qed.

Lemma exec_clean_steps acts s s' : exec_clean acts s = Some s' -> clean_steps s s'.
Proof.
  revert s. induction acts as [|a acts IH]; intros s; cbn [exec_clean]; [intros [= <-]; constructor|].
  destruct (decide (null_next s a)) as [Hn|]; [|done]. destruct (act a s) as [s1|] eqn:Ha; [|done].
  cbn [mbind option_bind]. intros He. eapply clean_step; [by apply act_step|done|by apply IH].
Qed.

(** Thread 0 takes the lock; 2 comes before 1, but 1 links its node first; a trylock of 3
    fails; 0 gives the lock back while 2 has not linked its node yet. *)
Definition ex_acts : list action :=
  [Lock 0; Run 0; Run 0; Run 0; Lock 1; Lock 2; Run 1; Run 1; Run 2; Run 2; Run 2; Run 1; Run 1; TryLock 3; Run 3;
   Unlock 0; Run 0; Run 0; Run 0]%nat.
Definition ex_state (k : nat) : state := default (init 4) (exec_clean (take k ex_acts) (init 4)).

Lemma mcs_ex_steps k : is_Some (exec_clean (take k ex_acts) (init 4)) -> clean_steps (init 4) (ex_state k).
Proof. intros [s Hs]. unfold ex_state. rewrite Hs. by eapply exec_clean_steps. Qed.

Lemma mcs_lock_fifo_witness : let s := ex_state 19 in
  threads s = [UnlockWait; LockSpin; LockLink 0; Idle] /\ arrived s = [0; 2; 1]%nat /\ entered s = [0]%nat /\
  (forall i j c d, threads s !! i = Some c -> threads s !! j = Some d -> has_lock c = true -> has_lock d = true -> i = j).
Proof.
  split; [vm_compute; reflexivity|]. split; [vm_compute; reflexivity|]. split; [vm_compute; reflexivity|].
  apply (mcs_lock_fifo 4). apply mcs_ex_steps. vm_compute. by eexists.
Defined.

Lemma mcs_lock_progress_witness : let s := ex_state 19 in
  work s = 6%nat /\ (forall k s', nsteps moves k s s' -> (k <= 6)%nat).
Proof.
  assert (work (ex_state 19) = 6%nat) as Hw by (vm_compute; reflexivity). split; [exact Hw|]. rewrite <- Hw.
  apply (mcs_lock_progress 4). apply mcs_ex_steps. vm_compute. by eexists.
Defined.

(** [mcs_trylock] does not clear the node: with the node of an earlier call that another
    thread had queued behind, [mcs_unlock] takes that thread for the next one, wakes it
    and leaves the lock taken for ever. *)
Definition stale_acts : list action :=
  [Lock 0; Run 0; Run 0; Run 0; Lock 1; Run 1; Run 1; Run 1; Run 1; Unlock 0; Run 0; Run 0; Run 0;
   Run 1; Unlock 1; Run 1; Run 1]%nat.
Lemma trylock_stale_node : exists s s', exec stale_acts (init 2) = Some s /\ tail s = None /\ threads s = [Idle; Idle] /\
  next s !! 0%nat = Some (Some 1%nat) /\
  exec [TryLock 0; Run 0; Unlock 0; Run 0; Run 0; Run 0]%nat s = Some s' /\
  threads s' = [Idle; Idle] /\ tail s' = Some 0%nat.
Proof.
  eexists _, _. split; [vm_compute; reflexivity|]. do 3 (split; [vm_compute; reflexivity|]).
  split; [vm_compute; reflexivity|]. split; vm_compute; reflexivity.
Qed.
