(* ===== verification/Workers.v ===== *)
(** Worker threads and how the control plane stops them: [core/worker.h], [core/worker.cc], the loop of
    [core/scheduler.h] and the requests of [core/bessctl.cc], as a step relation.

    Every read or write of a field that two threads share is a step: of a worker or of the thread that serves
    requests (one at a time: [ApiServer::Run] holds a mutex), in any interleaving; stores become visible in
    program order, as on the x86 targets of the source.  What a handler does while it holds a [WorkerPauser] is
    the step [Critical]; what a worker does in a round of the scheduler is [InRound].  The checks of the core and
    of the scheduler's name in [AddWorker], the resume hooks and [AdjustDefault] are not modelled. *)
From S2P Require Import Prelude.

Definition kMaxWorkers : nat := 64.

Inductive worker_status_t := WORKER_PAUSING | WORKER_PAUSED | WORKER_RUNNING | WORKER_FINISHED.
#[export] Instance worker_status_dec : EqDecision worker_status_t.
Proof. solve_decision. Defined.

Inductive worker_signal := unblock | quit.
Definition signal_value (sig : worker_signal) : Z := match sig with unblock => 1 | quit => 2 end.

(** The event descriptors of the kernel: a read takes the sum of what was written and blocks if there is
    nothing ([None]). *)
Class EventFd (E : Type) := {
  eventfd : E;
  fd_write : E -> Z -> E;
  fd_read : E -> option (Z * E) }.

Class EventFdLaws (E : Type) `{EventFd E} := {
  read_empty : fd_read eventfd = None;
  read_written v : 0 < v -> fd_read (fd_write eventfd v) = Some (v, eventfd) }.

(** Where a worker thread is.  [round] counts the rounds of [ScheduleLoop]. *)
Inductive where_t :=
| Starting                 (* [Run], before [status_] is set *)
| Publishing               (* before [workers[wid_] = this] *)
| AtRound (round : Z)      (* at the top of the loop *)
| InRound (round : Z)      (* in [ScheduleOnce] *)
| Blocking (round : Z)     (* [BlockWorker], before [status_ = WORKER_PAUSED] *)
| Reading (round : Z)      (* in [read] *)
| Unblocking (round : Z)   (* before [status_ = WORKER_RUNNING] *)
| Quitting                 (* before [status_ = WORKER_FINISHED] *)
| Deleting                 (* the loop is left, the scheduler is not deleted yet *)
| Done
| BadSignal.               (* [CHECK(0)] *)

#[export] Instance where_dec : EqDecision where_t.
Proof. solve_decision. Defined.

(** Requests, and what their handlers do, one call after the other.  [orphans]: whether [attach_orphans] finds
    a class that it has to give to a worker. *)
Inductive instr :=
| Pause (wid : nat)                     (* [pause_worker] *)
| Resume (wid : nat)                    (* [resume_worker] *)
| Destroy (wid : nat)                   (* [destroy_worker], once the worker is paused *)
| TryDestroy (wid : nat) (busy : bool)  (* [DestroyWorker]; [busy]: a leaf is below the worker's root *)
| LaunchIfFree (wid : nat)              (* [AddWorker] *)
| LaunchFirst                           (* [launch_worker(0, ...)] if there is no worker *)
| Begin                                 (* the constructor of [WorkerPauser] *)
| AnyRunning (wid : nat)                (* its [is_any_worker_running] *)
| PauserLoop (wid : nat)                (* its loop *)
| Critical                              (* the handler's body *)
| End (orphans : bool)                  (* the destructor of [WorkerPauser] *)
| CheckPaused (wid : nat) (orphans : bool)  (* [CHECK(!is_any_worker_running())] of [attach_orphans] *)
| ResumeListed                          (* the loop of the destructor *)
| IfQuiet (wid : nat) (orphans : bool). (* [if (!is_any_worker_running()) attach_orphans();] *)

(** What the serving thread is in the middle of. *)
Inductive micro :=
| Idle
| StorePausing (wid : nat)
| SpinPausing (wid : nat)
| WriteSignal (wid : nat) (sig : worker_signal)
| SpinPaused (wid : nat) (sig : worker_signal)
| Unlink (wid : nat)
| SpinReady (wid : nat) (tid : nat)
| CheckFailed.

Section Workers.
Context {E : Type} `{EventFd E}.

Record thread := Thread {
  wid_ : nat;
  status_ : worker_status_t;
  fd_event_ : E;
  at_ : where_t }.

(** [threads]: every thread ever launched; [workers]: which of them is the worker of a number.  [pausers]: the
    [workers_paused_] of the open [WorkerPauser]s, the innermost first. *)
Record state := State {
  workers : gmap nat nat;
  num_workers : Z;
  threads : list thread;
  master : micro;
  todo : list instr;
  pausers : list (list nat) }.

Definition with_threads (s : state) (l : list thread) : state :=
  State (workers s) (num_workers s) l (master s) (todo s) (pausers s).
Definition with_master (s : state) (m : micro) : state :=
  State (workers s) (num_workers s) (threads s) m (todo s) (pausers s).
Definition with_todo (s : state) (l : list instr) : state :=
  State (workers s) (num_workers s) (threads s) (master s) l (pausers s).
Definition with_pausers (s : state) (l : list (list nat)) : state :=
  State (workers s) (num_workers s) (threads s) (master s) (todo s) l.
Definition with_workers (s : state) (m : gmap nat nat) (n : Z) : state :=
  State m n (threads s) (master s) (todo s) (pausers s).

Definition set_status (th : thread) (st : worker_status_t) : thread := Thread (wid_ th) st (fd_event_ th) (at_ th).
Definition goto (th : thread) (p : where_t) : thread := Thread (wid_ th) (status_ th) (fd_event_ th) p.
Definition set_fd (th : thread) (e : E) : thread := Thread (wid_ th) (status_ th) e (at_ th).

Definition worker (s : state) (wid : nat) : option thread := tid ← workers s !! wid; threads s !! tid.
Definition is_worker_active (s : state) (wid : nat) : bool := bool_decide (is_Some (workers s !! wid)).
Definition has_status (s : state) (wid : nat) (st : worker_status_t) : bool :=
  match worker s wid with Some th => bool_decide (status_ th = st) | None => false end.
Definition is_worker_running (s : state) (wid : nat) : bool := has_status s wid WORKER_RUNNING.

(** ** Worker threads *)
Definition accounting_mask : Z := 0xff.
Definition is_pause_requested (th : thread) : bool := bool_decide (status_ th = WORKER_PAUSING).

(** The top of the loop of [ScheduleLoop]. *)
Definition at_top (th : thread) (round : Z) : where_t :=
  if (Z.land round accounting_mask =? 0) && is_pause_requested th then Blocking round else InRound round.

(** A step of the thread's own code; [None] while it is blocked. *)
Definition run_thread (th : thread) : option thread :=
  match at_ th with
  | Starting => Some (goto (set_status (set_fd th eventfd) WORKER_PAUSING) Publishing)
  | Publishing => Some (goto th (AtRound 0))
  | AtRound round =>
      Some (goto th (at_top th round))
  | InRound round => Some (goto th (AtRound (u64 (round + 1))))
  | Blocking round => Some (goto (set_status th WORKER_PAUSED) (Reading round))
  | Reading round =>
      '(t, fd) ← fd_read (fd_event_ th);
      Some (goto (set_fd th fd) (if t =? signal_value unblock then Unblocking round
                                 else if t =? signal_value quit then Quitting else BadSignal))
  | Unblocking round => Some (goto (set_status th WORKER_RUNNING) (InRound round))
  | Quitting => Some (goto (set_status th WORKER_FINISHED) Deleting)
  | Deleting => Some (goto th Done)
  | Done | BadSignal => None
  end.

Definition thread_step (tid : nat) (s : state) : option state :=
  th ← threads s !! tid;
  th' ← run_thread th;
  let s' := with_threads s (<[tid := th']> (threads s)) in
  Some (match at_ th with
        | Publishing => with_workers s' (<[wid_ th := tid]> (workers s)) (num_workers s)
        | _ => s'
        end).

(** ** The thread that serves requests *)
Definition update_worker (s : state) (wid : nat) (f : thread -> thread) : option state :=
  tid ← workers s !! wid;
  th ← threads s !! tid;
  Some (with_threads s (<[tid := f th]> (threads s))).

Definition launch_worker (s : state) (wid : nat) : state :=
  let tid := length (threads s) in
  with_master (with_threads s (threads s ++ [Thread wid WORKER_PAUSING eventfd Starting])) (SpinReady wid tid).

(** The call [i] is made; the calls after it are already in [todo].  An access outside of [workers] is [None]. *)
Definition begin (s : state) (i : instr) : option state :=
  match i with
  | Pause wid =>
      if (wid <? kMaxWorkers)%nat then Some (if is_worker_running s wid then with_master s (StorePausing wid) else s) else None
  | Resume wid =>
      if (wid <? kMaxWorkers)%nat
      then Some (if has_status s wid WORKER_PAUSED then with_master s (WriteSignal wid unblock) else s) else None
  | Destroy wid => Some (if has_status s wid WORKER_PAUSED then with_master s (WriteSignal wid quit) else s)
  | TryDestroy wid busy =>
      Some (if negb (is_worker_active s wid) || busy then s else with_todo s (Pause wid :: Destroy wid :: todo s))
  | LaunchIfFree wid => Some (if is_worker_active s wid then s else launch_worker s wid)
  | LaunchFirst => Some (if num_workers s =? 0 then launch_worker s 0 else s)
  | Begin => Some (with_todo (with_pausers s ([] :: pausers s)) (AnyRunning 0 :: todo s))
  | AnyRunning wid =>
      Some (if is_worker_running s wid then with_todo s (PauserLoop 0 :: todo s)
            else if (S wid <? kMaxWorkers)%nat then with_todo s (AnyRunning (S wid) :: todo s) else s)
  | PauserLoop wid =>
      if (wid <? kMaxWorkers)%nat then
        let s := with_todo s (PauserLoop (S wid) :: todo s) in
        if is_worker_running s wid then
          match pausers s with
          | l :: rest => Some (with_master (with_pausers s ((l ++ [wid]) :: rest)) (StorePausing wid))
          | [] => None
          end
        else Some s
      else Some s
  | Critical => Some s
  | End orphans => Some (with_todo s (CheckPaused 0 orphans :: ResumeListed :: todo s))
  | CheckPaused wid orphans =>
      Some (if is_worker_running s wid then with_master s CheckFailed
            else if (S wid <? kMaxWorkers)%nat then with_todo s (CheckPaused (S wid) orphans :: todo s)
            else if orphans && (num_workers s =? 0) then launch_worker s 0 else s)
  | ResumeListed =>
      match pausers s with
      | l :: rest => Some (with_pausers (with_todo s (map Resume l ++ todo s)) rest)
      | [] => None
      end
  | IfQuiet wid orphans =>
      Some (if is_worker_running s wid then s
            else if (S wid <? kMaxWorkers)%nat then with_todo s (IfQuiet (S wid) orphans :: todo s)
            else with_todo s (CheckPaused 0 orphans :: todo s))
  end.

Definition master_step (s : state) : option state :=
  match master s with
  | Idle => match todo s with [] => None | i :: rest => begin (with_todo s rest) i end
  | StorePausing wid =>
      s ← update_worker s wid (fun th => set_status th WORKER_PAUSING); Some (with_master s (SpinPausing wid))
  | SpinPausing wid =>
      th ← worker s wid; Some (if bool_decide (status_ th = WORKER_PAUSING) then s else with_master s Idle)
  | WriteSignal wid sig =>
      s ← update_worker s wid (fun th => set_fd th (fd_write (fd_event_ th) (signal_value sig)));
      Some (with_master s (SpinPaused wid sig))
  | SpinPaused wid sig =>
      th ← worker s wid;
      Some (if bool_decide (status_ th = WORKER_PAUSED) then s
            else with_master s (match sig with unblock => Idle | quit => Unlink wid end))
  | Unlink wid => Some (with_master (with_workers s (delete wid (workers s)) (num_workers s - 1)) Idle)
  | SpinReady wid _ =>
      Some (if has_status s wid WORKER_PAUSED
            then with_master (with_workers s (workers s) (num_workers s + 1)) Idle else s)
  | CheckFailed => None
  end.

(** *** Requests *)
Definition destroy_worker (wid : nat) : list instr := [Pause wid; Destroy wid].
Definition pause_all_workers : list instr := map Pause (seq 0 kMaxWorkers).
Definition resume_all_workers : list instr := map Resume (seq 0 kMaxWorkers).
Definition destroy_all_workers : list instr := flat_map destroy_worker (seq 0 kMaxWorkers).

Inductive request :=
| PauseAll
| PauseWorker (wid : nat)
| ResumeAll (orphans : bool)
| ResumeWorker (wid : nat)
| ResetWorkers (orphans : bool)
| AddWorker (wid : nat)                       (* with a core that is present and a known scheduler *)
| DestroyWorker (wid : nat) (busy : bool)
| Guarded (orphans : bool)                   (* any handler whose body is under a [WorkerPauser] *)
| AddTc (launch orphans : bool)
| CheckSchedulingConstraints (orphans : bool)
| ResetAll (stages : nat) (orphans : bool).    (* [stages]: how many of its four handlers run before an error *)

Definition guarded (orphans : bool) : list instr := [Begin; Critical; End orphans].
Definition reset_workers (orphans : bool) : list instr := Begin :: destroy_all_workers ++ [End orphans].

Definition handler (r : request) : list instr :=
  match r with
  | PauseAll => pause_all_workers
  | PauseWorker wid => [Pause wid]
  | ResumeAll orphans => IfQuiet 0 orphans :: resume_all_workers
  | ResumeWorker wid => [Resume wid]
  | ResetWorkers orphans => reset_workers orphans
  | AddWorker wid => if (wid <? kMaxWorkers)%nat then [LaunchIfFree wid] else []
  | DestroyWorker wid busy => if (wid <? kMaxWorkers)%nat then [TryDestroy wid busy] else []
  | Guarded orphans => guarded orphans
  | AddTc launch orphans => Begin :: Critical :: (if launch then [LaunchFirst] else []) ++ [End orphans]
  | CheckSchedulingConstraints orphans => [IfQuiet 0 orphans]
  | ResetAll stages orphans =>
      Begin :: concat (take stages [guarded orphans; guarded orphans; guarded orphans; reset_workers orphans]) ++ [End orphans]
  end.

(** ** Runs *)
Inductive label := Serve (r : request) | Master | Work (tid : nat).

Definition act (l : label) (s : state) : option state :=
  match l with
  | Serve r => match master s, todo s with Idle, [] => Some (with_todo s (handler r)) | _, _ => None end
  | Master => master_step s
  | Work tid => thread_step tid s
  end.

Fixpoint run (ls : list label) (s : state) : option state :=
  match ls with
  | [] => Some s
  | l :: ls => s ← act l s; run ls s
  end.

Definition init : state := State ∅ 0 [] Idle [] [].

(** [PauseWorker] and [ResumeWorker] do not look at the number that they are given. *)
Definition request_ok (r : request) : Prop :=
  match r with PauseWorker wid | ResumeWorker wid => (wid < kMaxWorkers)%nat | _ => True end.
Definition label_ok (l : label) : Prop := match l with Serve r => request_ok r | _ => True end.
Definition reachable (s : state) : Prop := exists ls, Forall label_ok ls /\ run ls init = Some s.
End Workers.
Arguments thread : clear implicits.
Arguments state : clear implicits.


(** ** The invariant *)
Section Invariant.
Context {E : Type} `{EventFd E} `{!EventFdLaws E}.
Implicit Types (th : thread E) (s : state E).

(** The states of a worker that nobody waits for. *)
Definition in_loop (p : where_t) : Prop := match p with AtRound _ | InRound _ => True | _ => False end.
Definition running th : Prop := status_ th = WORKER_RUNNING /\ fd_event_ th = eventfd /\ in_loop (at_ th).
Definition paused th : Prop :=
  status_ th = WORKER_PAUSED /\ fd_event_ th = eventfd /\ match at_ th with Reading _ => True | _ => False end.
(** and on the way between them *)
Definition pausing th : Prop :=
  status_ th = WORKER_PAUSING /\ fd_event_ th = eventfd /\
  match at_ th with Blocking _ => True | p => in_loop p end.
Definition fresh th : Prop :=
  status_ th = WORKER_PAUSING /\ fd_event_ th = eventfd /\
  match at_ th with AtRound 0 | Blocking _ => True | _ => False end.
Definition signalled (sig : worker_signal) th : Prop :=
  status_ th = WORKER_PAUSED /\
  match at_ th with
  | Reading _ => fd_event_ th = fd_write eventfd (signal_value sig)
  | Unblocking _ => fd_event_ th = eventfd /\ sig = unblock
  | Quitting => fd_event_ th = eventfd /\ sig = quit
  | _ => False
  end.
Definition retired th : Prop := status_ th = WORKER_FINISHED /\ match at_ th with Deleting | Done => True | _ => False end.
Definition starting th : Prop :=
  match at_ th with Starting => True | Publishing => status_ th = WORKER_PAUSING /\ fd_event_ th = eventfd | _ => False end.

Definition subject (m : micro) : option nat :=
  match m with
  | StorePausing w | SpinPausing w | WriteSignal w _ | SpinPaused w _ | Unlink w | SpinReady w _ => Some w
  | Idle | CheckFailed => None
  end.

(** What is known about the worker the serving thread deals with. *)
Definition special (m : micro) th : Prop :=
  match m with
  | StorePausing _ => running th
  | SpinPausing _ => pausing th \/ paused th
  | WriteSignal _ _ => paused th
  | SpinPaused _ unblock => signalled unblock th \/ running th
  | SpinPaused _ quit => signalled quit th \/ retired th
  | Unlink _ => retired th
  | SpinReady _ _ => fresh th \/ paused th
  | Idle | CheckFailed => False
  end.

Definition phase (m : micro) (w : nat) th : Prop :=
  if decide (subject m = Some w) then special m th else running th \/ paused th.

Definition published s (tid : nat) th : Prop := workers s !! wid_ th = Some tid /\ phase (master s) (wid_ th) th.
Definition unpublished s (tid : nat) th : Prop :=
  workers s !! wid_ th <> Some tid /\
  (retired th \/ (master s = SpinReady (wid_ th) tid /\ workers s !! wid_ th = None /\ starting th)).

(** *** What the serving thread has still to do *)

(** Calls as they stand in handlers, under [n] open [WorkerPauser]s; and how many are open after them. *)
Definition static (n : nat) (i : instr) : Prop :=
  match i with
  | Resume w => n = 0%nat /\ (w < kMaxWorkers)%nat
  | Critical | End _ | ResumeListed => (1 <= n)%nat
  | IfQuiet k _ => n = 0%nat /\ k = 0%nat
  | CheckPaused _ _ => (1 <= n)%nat
  | AnyRunning _ | PauserLoop _ => False
  | Pause w | TryDestroy w _ | LaunchIfFree w => (w < kMaxWorkers)%nat
  | Destroy _ | LaunchFirst | Begin => True
  end.
Definition after (n : nat) (i : instr) : nat :=
  match i with Begin => S n | End _ | ResumeListed => pred n | _ => n end.

Fixpoint ok (n : nat) (l : list instr) : Prop :=
  match l with
  | [] => n = 0%nat
  | i :: l => static n i /\ ok (after n i) l
  end.

(** Loops that are in progress. *)
Definition dynamic (n : nat) (i : instr) : Prop :=
  match i with
  | AnyRunning k | PauserLoop k => (1 <= n)%nat
  | IfQuiet k _ => n = 0%nat
  | CheckPaused _ _ => True
  | _ => False
  end.
Definition todo_ok (n : nat) (l : list instr) : Prop :=
  match l with [] => n = 0%nat | i :: l => (static n i \/ dynamic n i) /\ ok (after n i) l end.

(** The workers below this number are known to be paused. *)
Definition upto (n : nat) (l : list instr) : nat :=
  match l, n with
  | CheckPaused _ _ :: _, _ => kMaxWorkers
  | IfQuiet k _ :: _, O => k
  | _, O => 0
  | AnyRunning k :: _, 1%nat | PauserLoop k :: _, 1%nat => k
  | _, _ => kMaxWorkers
  end.
Definition quiet_upto s : nat := upto (length (pausers s)) (todo s).

Definition quiet_to s (k : nat) : Prop :=
  forall w th, worker s w = Some th -> (w < k)%nat -> subject (master s) <> Some w -> paused th.

Definition pausers_ok s : Prop := forall i l, pausers s !! i = Some l ->
  Forall (fun w => (w < kMaxWorkers)%nat) l /\ ((S i < length (pausers s))%nat -> l = []).

Definition launched s : Z := match master s with SpinReady w _ => if decide (is_Some (workers s !! w)) then 1 else 0 | _ => 0 end.

Definition subject_ok s : Prop :=
  match master s with
  | SpinReady w tid => (w < kMaxWorkers)%nat /\
      (exists th, threads s !! tid = Some th /\ wid_ th = w /\ (workers s !! w = None -> starting th)) /\
      (forall tid', workers s !! w = Some tid' -> tid' = tid)
  | CheckFailed => False
  | m => forall w, subject m = Some w -> is_Some (workers s !! w)
  end.

Definition resuming (m : micro) : Prop :=
  match m with WriteSignal _ unblock | SpinPaused _ unblock => True | _ => False end.

Record Inv s : Prop := {
  inv_threads : forall tid th, threads s !! tid = Some th -> published s tid th \/ unpublished s tid th;
  inv_workers : forall w tid, workers s !! w = Some tid -> (w < kMaxWorkers)%nat /\ exists th, threads s !! tid = Some th /\ wid_ th = w;
  inv_subject : subject_ok s;
  inv_count : num_workers s = Z.of_nat (size (workers s)) - launched s;
  inv_todo : todo_ok (length (pausers s)) (todo s);
  inv_quiet : quiet_to s (quiet_upto s);
  inv_pausers : pausers_ok s;
  inv_resuming : resuming (master s) -> quiet_upto s = 0%nat }.

(** *** Steps of a worker *)
Lemma run_wid th th' : run_thread th = Some th' -> wid_ th' = wid_ th.
Proof.
  unfold run_thread, at_top. destruct (at_ th); try (by intros [= <-]); try done.
  destruct (fd_read _) as [[t fd]|]; [|done]. cbn [mbind option_bind]. by intros [= <-].
Qed.

Lemma run_running th th' : running th -> run_thread th = Some th' -> running th'.
Proof.
  intros (Hs & Hf & Hl). unfold run_thread, at_top, is_pause_requested. rewrite Hs. destruct (at_ th); try done.
  - rewrite andb_false_r. by intros [= <-].
  - by intros [= <-].
Qed.

Lemma run_paused th : paused th -> run_thread th = None.
Proof. intros (Hs & Hf & Hl). unfold run_thread, at_top. destruct (at_ th); try done. by rewrite Hf, read_empty. Qed.

Lemma run_retired th th' : retired th -> run_thread th = Some th' -> retired th'.
Proof. intros (Hs & Hl). unfold run_thread, at_top. destruct (at_ th); try done. by intros [= <-]. Qed.

Lemma run_pausing th th' : pausing th -> run_thread th = Some th' -> pausing th' \/ paused th'.
Proof.
  intros (Hs & Hf & Hl). unfold run_thread, at_top. destruct (at_ th) as [| |r|r|r|r|r| | | |] eqn:Ha; try done.
  - intros [= <-]. left. destruct (_ && _); by repeat split; cbn.
  - intros [= <-]. left. by repeat split; cbn.
  - intros [= <-]. right. by repeat split; cbn.
Qed.

Lemma run_fresh th th' : fresh th -> run_thread th = Some th' -> fresh th' \/ paused th'.
Proof.
  intros (Hs & Hf & Hl). unfold run_thread, at_top, is_pause_requested. rewrite Hs.
  destruct (at_ th) as [| |r|r|r|r|r| | | |] eqn:Ha; try done.
  - destruct r; [|done|done]. intros [= <-]. left. by repeat split; cbn.
  - intros [= <-]. right. by repeat split; cbn.
Qed.

Lemma run_signalled sig th th' : signalled sig th -> run_thread th = Some th' ->
  signalled sig th' \/ match sig with unblock => running th' | quit => retired th' end.
Proof.
  intros (Hs & Hl). unfold run_thread, at_top. destruct (at_ th) as [| |r|r|r|r|r| | | |] eqn:Ha; try done.
  - rewrite Hl, read_written by (by destruct sig). cbn [mbind option_bind]. intros [= <-]. left. by destruct sig.
  - destruct Hl as [Hf ->]. intros [= <-]. by right.
  - destruct Hl as [Hf ->]. intros [= <-]. by right.
Qed.

Lemma run_special m th th' : special m th -> run_thread th = Some th' -> special m th'.
Proof.
  destruct m as [| | |w [|]|w [|]| | |]; cbn [special]; try done; try apply run_running;
    try (intros Hp; by rewrite (run_paused th Hp)); try apply run_retired.
  - intros [Hp|Hp]; [by apply run_pausing|by rewrite (run_paused th Hp)].
  - intros [Hp|Hp] Hr; [by apply (run_signalled unblock th)|right; by eapply run_running].
  - intros [Hp|Hp] Hr; [by apply (run_signalled quit th)|right; by eapply run_retired].
  - intros [Hp|Hp]; [by apply run_fresh|by rewrite (run_paused th Hp)].
Qed.

Lemma run_phase m w th th' : phase m w th -> run_thread th = Some th' -> phase m w th'.
Proof.
  unfold phase. destruct (decide _); [apply run_special|]. intros [Hp|Hp]; [|by rewrite (run_paused th Hp)].
  intros Hr. left. by eapply run_running.
Qed.

Lemma worker_known s w th : Inv s -> worker s w = Some th ->
  (w < kMaxWorkers)%nat /\ wid_ th = w /\ phase (master s) w th /\ exists tid, workers s !! w = Some tid /\ threads s !! tid = Some th.
Proof.
  intros HI Hw. unfold worker in Hw. destruct (workers s !! w) as [tid|] eqn:Hl; [|done]. cbn [mbind option_bind] in Hw.
  destruct (inv_workers s HI w tid Hl) as (Hlt & th' & Ht & Hwid). rewrite Ht in Hw. injection Hw as ->.
  split; [done|]. split; [done|]. split; [|by exists tid].
  destruct (inv_threads s HI tid th Ht) as [[_ Hp]|[Hn _]]; [by rewrite Hwid in Hp|]. by rewrite Hwid in Hn.
Qed.

Lemma worker_upd s tid th' w : worker (with_threads s (<[tid := th']> (threads s))) w =
  if decide (workers s !! w = Some tid) then (fun _ => th') <$> threads s !! tid else worker s w.
Proof.
  unfold worker. cbn [workers threads with_threads]. destruct (workers s !! w) as [t|]; cbn [mbind option_bind]; [|by case_decide].
  case_decide as Hd.
  - injection Hd as ->. destruct (threads s !! tid) eqn:Ht; cbn.
    + apply list_lookup_insert_eq. by eapply lookup_lt_Some.
    + by rewrite list_insert_ge by (by apply lookup_ge_None).
  - apply list_lookup_insert_ne. congruence.
Qed.

(** A thread changes, and nothing else. *)
Lemma inv_thread s tid th th' : Inv s -> threads s !! tid = Some th -> wid_ th' = wid_ th ->
  (phase (master s) (wid_ th) th -> phase (master s) (wid_ th) th') -> (retired th -> retired th') ->
  (starting th -> starting th') -> ~ paused th -> Inv (with_threads s (<[tid := th']> (threads s))).
Proof.
  intros HI Ht Hw Hph Hre Hst Hnp. pose proof (lookup_lt_Some _ _ _ Ht) as Hlt.
  constructor; try apply HI.
  - intros t x Hx. cbn [threads with_threads] in Hx. destruct (decide (t = tid)) as [->|Hne].
    + rewrite list_lookup_insert_eq in Hx by done. injection Hx as <-. unfold published, unpublished. rewrite Hw. cbn.
      destruct (inv_threads s HI tid th Ht) as [[? ?]|(? & [?|(? & ? & ?)])]; [left|right|right]; auto 6.
    + rewrite list_lookup_insert_ne in Hx by congruence. apply (inv_threads s HI t x Hx).
  - intros w t Hl. destruct (inv_workers s HI w t Hl) as (Hk & x & Hx & Hxw). split; [done|]. cbn [threads with_threads].
    destruct (decide (t = tid)) as [->|Hne].
    + exists th'. rewrite list_lookup_insert_eq by done. split; [done|congruence].
    + exists x. by rewrite list_lookup_insert_ne by congruence.
  - pose proof (inv_subject s HI) as Hs. unfold subject_ok in *. cbn [master threads workers with_threads].
    destruct (master s); try done. destruct Hs as (Hk & (x & Hx & Hxw & Hxs) & Hu). split; [done|]. split; [|done].
    destruct (decide (tid0 = tid)) as [->|Hne].
    + exists th'. rewrite list_lookup_insert_eq by done. split; [done|]. split; [congruence|]. intros Hn. apply Hst.
      assert (th = x) as -> by congruence. by apply Hxs.
    + exists x. by rewrite list_lookup_insert_ne by congruence.
  - intros w x Hx Hk Hsub. rewrite worker_upd in Hx. case_decide as Hd; [|by apply (inv_quiet s HI w)].
    exfalso. apply Hnp, (inv_quiet s HI w); [|done|done]. unfold worker. by rewrite Hd.
Qed.

(** A thread that enters the table is the one that is launched. *)
Lemma publishing_ready s tid th : Inv s -> threads s !! tid = Some th -> at_ th = Publishing ->
  master s = SpinReady (wid_ th) tid /\ workers s !! wid_ th = None /\ starting th.
Proof.
  intros HI Ht Ha.
  assert (Hun : unpublished s tid th).
  { destruct (inv_threads s HI tid th Ht) as [[_ Hp]|?]; [|done]. exfalso. unfold phase in Hp.
    assert (Hno : forall m, ~ special m th) by (intros [| | |? [|]|? [|]| | |]; cbn [special];
      unfold running, paused, pausing, fresh, signalled, retired; rewrite ?Ha; cbn; intuition).
    case_decide; [by eapply Hno|]. unfold running, paused in Hp. rewrite Ha in Hp. cbn in Hp. intuition. }
  destruct Hun as (_ & [[_ Hr]|?]); [by rewrite Ha in Hr|done].
Qed.

(** A new thread enters the table. *)
Lemma inv_publish s tid th : Inv s -> threads s !! tid = Some th -> at_ th = Publishing ->
  Inv (with_workers (with_threads s (<[tid := goto th (AtRound 0)]> (threads s))) (<[wid_ th := tid]> (workers s)) (num_workers s)).
Proof.
  intros HI Ht Ha. pose proof (lookup_lt_Some _ _ _ Ht) as Hlt.
  destruct (publishing_ready s tid th HI Ht Ha) as (Hm & Hn & Hst).
  unfold starting in Hst. rewrite Ha in Hst. destruct Hst as [Hss Hsf].
  assert (Hfresh : fresh (goto th (AtRound 0))) by (by repeat split).
  pose proof (inv_subject s HI) as Hsub. unfold subject_ok in Hsub. rewrite Hm in Hsub. destruct Hsub as (Hk & _ & _).
  constructor; try apply HI.
  - intros t x Hx. cbn [threads with_threads with_workers] in Hx. unfold published, unpublished. cbn [workers with_workers master with_threads].
    destruct (decide (t = tid)) as [->|Hne].
    + rewrite list_lookup_insert_eq in Hx by done. injection Hx as <-. cbn [wid_ goto]. left. rewrite lookup_insert_eq. split; [done|].
      unfold phase. rewrite Hm. cbn [subject]. rewrite decide_True by done. by left.
    + rewrite list_lookup_insert_ne in Hx by congruence.
      destruct (inv_threads s HI t x Hx) as [[Hp ?]|(Hp & [Hr|(Hm' & _)])].
      * left. split; [|done]. rewrite lookup_insert_ne; [done|]. intros Heq. congruence.
      * right. split; [|by left]. destruct (decide (wid_ x = wid_ th)) as [->|Hd];
          [rewrite lookup_insert_eq; congruence|by rewrite lookup_insert_ne].
      * congruence.
  - intros w t. cbn [workers threads with_workers with_threads]. intros Hl. destruct (decide (w = wid_ th)) as [->|Hd].
    + rewrite lookup_insert_eq in Hl. injection Hl as <-. split; [done|]. rewrite list_lookup_insert_eq by done. by eexists.
    + rewrite lookup_insert_ne in Hl by done. destruct (inv_workers s HI w t Hl) as (? & x & Hx & ?). split; [done|].
      exists x. rewrite list_lookup_insert_ne; [done|]. intros <-. congruence.
  - unfold subject_ok. cbn [master threads workers with_threads with_workers]. rewrite Hm. split; [done|]. split.
    + rewrite list_lookup_insert_eq by done. eexists. split; [done|]. split; [done|]. by rewrite lookup_insert_eq.
    + rewrite lookup_insert_eq. congruence.
  - pose proof (inv_count s HI) as Hc. unfold launched in *. cbn [num_workers master threads workers with_threads with_workers].
    rewrite Hm in *. rewrite Hn in Hc. rewrite lookup_insert_eq, map_size_insert_None by done.
    rewrite decide_False in Hc by (intros [? ?]; done). rewrite decide_True by eauto. lia.
  - intros w x Hx Hk' Hsub. cbn [master with_workers with_threads] in Hsub. rewrite Hm in Hsub. cbn [subject] in Hsub.
    apply (inv_quiet s HI w); [|done|rewrite Hm; done]. unfold worker in *. cbn [workers threads with_workers with_threads] in Hx.
    rewrite lookup_insert_ne in Hx by congruence. destruct (workers s !! w) as [t|] eqn:Hl; [|done]. cbn [mbind option_bind] in *.
    rewrite list_lookup_insert_ne in Hx; [done|]. intros <-. destruct (inv_workers s HI w tid Hl) as (_ & y & Hy & Hyw). congruence.
Qed.

Lemma thread_step_inv s s' tid : Inv s -> thread_step tid s = Some s' -> Inv s'.
Proof.
  intros HI. unfold thread_step. destruct (threads s !! tid) as [th|] eqn:Ht; [|done]. cbn [mbind option_bind].
  destruct (run_thread th) as [th'|] eqn:Hr; [|done]. cbn [mbind option_bind].
  assert (Hnp : ~ paused th) by (intros Hp; by rewrite (run_paused th Hp) in Hr).
  destruct (decide (at_ th = Publishing)) as [Ha|Ha].
  - rewrite Ha. unfold run_thread, at_top in Hr. rewrite Ha in Hr. injection Hr as <-. intros [= <-].
    by apply inv_publish.
  - intros Hs. assert (s' = with_threads s (<[tid := th']> (threads s))) as -> by (destruct (at_ th); congruence).
    apply (inv_thread s tid th); try done.
    + by apply run_wid.
    + intros Hp. by eapply run_phase.
    + intros Hp. by eapply run_retired.
    + intros Hp. unfold starting, run_thread, at_top in *. destruct (at_ th); try done. by injection Hr as <-.
Qed.

(** *** The calls that are left *)
Lemma ok_upto n l : ok n l -> upto n l = if n is O then 0%nat else kMaxWorkers.
Proof.
  destruct l as [|i l]; cbn [ok]; [intros ->; done|]. intros [Hs _].
  destruct i; cbn [static] in Hs; destruct n as [|[|n]]; cbn; try done; try lia; by destruct Hs.
Qed.

Lemma ok_todo n l : ok n l -> todo_ok n l.
Proof. destruct l; cbn; intuition. Qed.

Lemma ok_app n m l1 l2 : ok m l2 -> (forall i, i ∈ l1 -> static n i /\ after n i = n) -> n = m -> ok n (l1 ++ l2).
Proof.
  intros H2 H1 <-. induction l1 as [|i l1 IH]; [done|]. cbn [app ok]. destruct (H1 i) as [Hs Ha]; [set_solver|].
  split; [done|]. rewrite Ha. apply IH. intros j Hj. apply H1. set_solver.
Qed.

Lemma ok_resumes (ws : list nat) l : Forall (fun w => (w < kMaxWorkers)%nat) ws -> ok 0 l -> ok 0 (map Resume ws ++ l).
Proof.
  intros Hws Hl. apply (ok_app 0 0); [done| |done]. intros i Hi. apply list_elem_of_fmap in Hi as (w & -> & Hw).
  rewrite Forall_forall in Hws. cbn. auto.
Qed.

Lemma all_numbers : Forall (fun w => (w < kMaxWorkers)%nat) (seq 0 kMaxWorkers).
Proof. apply Forall_seq. lia. Qed.

Lemma ok_destroys n l : ok n l -> ok n (destroy_all_workers ++ l).
Proof.
  intros Hl. apply (ok_app n n); [done| |done]. intros i Hi. unfold destroy_all_workers in Hi.
  apply list_elem_of_In, in_flat_map in Hi as (w & Hw%list_elem_of_In & [<-|[<-|[]]]); [|done].
  pose proof all_numbers as Hall. rewrite Forall_forall in Hall. cbn. auto.
Qed.

Lemma ok_guarded n o l : ok n l -> ok n (guarded o ++ l).
Proof. cbn. intros Hl. repeat split; (lia || done). Qed.

Lemma ok_reset_workers n o l : ok n l -> ok n (reset_workers o ++ l).
Proof.
  intros Hl. unfold reset_workers. cbn [app ok static after]. split; [done|]. rewrite <- app_assoc. apply ok_destroys.
  cbn. split; [lia|done].
Qed.

Lemma ok_handler r : request_ok r -> ok 0 (handler r).
Proof.
  intros Hr. destruct r as [|w|o|w|o|w|w b|o|lch o|o|st o]; cbn [handler].
  - rewrite <- (app_nil_r pause_all_workers). apply (ok_app 0 0); [done| |done].
    intros i Hi. apply list_elem_of_fmap in Hi as (w & -> & Hw). pose proof all_numbers as Hall. rewrite Forall_forall in Hall. cbn. auto.
  - done.
  - split; [done|]. rewrite <- (app_nil_r resume_all_workers). apply ok_resumes; [apply all_numbers|done].
  - done.
  - rewrite <- (app_nil_r (reset_workers o)). by apply ok_reset_workers.
  - destruct (Nat.ltb_spec w kMaxWorkers); done.
  - destruct (Nat.ltb_spec w kMaxWorkers); done.
  - by apply (ok_guarded 0 o []).
  - destruct lch; cbn; repeat split; lia.
  - done.
  - cbn [ok static after]. split; [done|].
    assert (Hl : ok 1 [End o]) by (cbn; repeat split; lia). revert Hl. generalize [End o]. intros l Hl.
    assert (Hall : Forall (fun b => forall l, ok 1 l -> ok 1 (b ++ l)) [guarded o; guarded o; guarded o; reset_workers o]).
    { repeat constructor; intros; first [by apply ok_guarded|by apply ok_reset_workers]. }
    apply (Forall_take _ st) in Hall. induction Hall as [|b bs Hb _ IH]; [done|]. cbn [concat]. rewrite <- app_assoc. by apply Hb.
Qed.

(** *** Steps of the serving thread *)

(** It turns to something else, without a change of the threads. *)
Lemma inv_turn s m : Inv s -> subject_ok (with_master s m) ->
  (forall w th, worker s w = Some th -> phase (master s) w th -> phase m w th) ->
  (forall tid th, threads s !! tid = Some th -> unpublished s tid th -> retired th) ->
  launched s = launched (with_master s m) -> quiet_to (with_master s m) (quiet_upto s) ->
  (resuming m -> quiet_upto s = 0%nat) -> Inv (with_master s m).
Proof.
  intros HI Hsub Hph Hun Hl Hq Hr. constructor; try apply HI; try done.
  - intros tid th Ht. destruct (inv_threads s HI tid th Ht) as [[Hp Hphase]|Hu].
    + left. split; [done|]. apply Hph; [|done]. unfold worker. cbn [threads with_master] in Ht. by rewrite Hp.
    + right. split; [apply Hu|]. left. by eapply Hun.
  - cbn [num_workers with_master workers]. rewrite <- Hl. apply (inv_count s HI).
Qed.

(** The calls that are left change, and nothing else. *)
Lemma inv_calls s l ps : Inv s -> ~ resuming (master s) -> todo_ok (length ps) l -> pausers_ok (with_pausers s ps) ->
  quiet_to s (upto (length ps) l) -> Inv (with_todo (with_pausers s ps) l).
Proof. intros HI Hm Ht Hp Hq. constructor; try apply HI; done. Qed.

Lemma idle_settled s w th : Inv s -> master s = Idle -> worker s w = Some th -> running th \/ paused th.
Proof. intros HI Hm Hw. destruct (worker_known s w th HI Hw) as (_ & _ & Hp & _). rewrite Hm in Hp. done. Qed.

Lemma idle_retired s tid th : Inv s -> (forall w t, master s <> SpinReady w t) -> threads s !! tid = Some th ->
  unpublished s tid th -> retired th.
Proof. intros HI Hm Ht (_ & [Hr|(Hs & _)]); [done|]. by destruct (Hm _ _ Hs). Qed.

Lemma status_spec s w st : has_status s w st = true <-> exists th, worker s w = Some th /\ status_ th = st.
Proof.
  unfold has_status. destruct (worker s w) as [th|]; [|split; [done|by intros (? & ? & _)]].
  rewrite bool_decide_eq_true. split; [by exists th|]. by intros (x & [= ->] & ?).
Qed.

Lemma running_running th : running th -> status_ th = WORKER_RUNNING.
Proof. by intros (? & _). Qed.
Lemma paused_paused th : paused th -> status_ th = WORKER_PAUSED.
Proof. by intros (? & _). Qed.

Lemma not_running_paused s w th : Inv s -> master s = Idle -> worker s w = Some th -> is_worker_running s w = false -> paused th.
Proof.
  intros HI Hm Hw Hr. destruct (idle_settled s w th HI Hm Hw) as [Hs|?]; [|done]. exfalso.
  assert (is_worker_running s w = true) by (apply status_spec; exists th; split; [done|by apply running_running]). congruence.
Qed.

Lemma quiet_more s k : Inv s -> master s = Idle -> quiet_to s k -> is_worker_running s k = false -> quiet_to s (S k).
Proof.
  intros HI Hm Hq Hr w th Hw Hk Hs. destruct (decide (w = k)) as [->|]; [by eapply not_running_paused|].
  apply (Hq w); [done|lia|done].
Qed.

Lemma quiet_le s k k' : (k <= k')%nat -> quiet_to s k' -> quiet_to s k.
Proof. intros Hk Hq w th Hw Hlt. apply (Hq w th Hw). lia. Qed.

Lemma quiet_all s k : Inv s -> (kMaxWorkers <= k)%nat -> quiet_to s k -> forall k', quiet_to s k'.
Proof.
  intros HI Hk Hq k' w th Hw _. apply (Hq w th Hw). destruct (worker_known s w th HI Hw) as (? & _). lia.
Qed.

(** A running worker is asked to pause, a paused one gets its signal. *)
Lemma inv_ask s w m : Inv s -> master s = Idle -> subject m = Some w ->
  (match m with
   | StorePausing _ => is_worker_running s w = true
   | WriteSignal _ sig => has_status s w WORKER_PAUSED = true /\ (sig = unblock -> quiet_upto s = 0%nat)
   | _ => False
   end) -> Inv (with_master s m).
Proof.
  intros HI Hm Hs Hc.
  assert (Hw : exists th, worker s w = Some th /\ special m th).
  { destruct m; try done.
    - apply status_spec in Hc as (th & Hw & Hst). exists th. split; [done|].
      destruct (idle_settled s w th HI Hm Hw) as [?|Hp]; [done|]. by rewrite (paused_paused th Hp) in Hst.
    - destruct Hc as [Hc _]. apply status_spec in Hc as (th & Hw & Hst). exists th. split; [done|].
      destruct (idle_settled s w th HI Hm Hw) as [Hp|?]; [|done]. by rewrite (running_running th Hp) in Hst. }
  destruct Hw as (th & Hw & Hsp). apply inv_turn; try done.
  - destruct (worker_known s w th HI Hw) as (_ & _ & _ & tid & Hl & _).
    unfold subject_ok. cbn [master with_master]. destruct m; try done; cbn [subject] in *; intros ? [= ->];
      injection Hs as ->; by exists tid.
  - intros w' th' Hw' Hp. rewrite Hm in Hp. unfold phase in *. cbn [subject] in Hp. rewrite decide_False in Hp by done.
    rewrite Hs. case_decide as Hd; [|done]. injection Hd as <-. by replace th' with th by congruence.
  - intros tid x Hx. apply (idle_retired s tid x HI); [by rewrite Hm|done].
  - unfold launched. cbn [master with_master]. rewrite Hm. by destruct m.
  - intros w' x Hx Hk Hne. apply (inv_quiet s HI w'); [done|done|by rewrite Hm].
  - intros Hr. destruct m as [| | |? [|]|? [|]| | |]; try done. by apply Hc.
Qed.

Lemma inv_launch s w : Inv s -> master s = Idle -> (w < kMaxWorkers)%nat -> workers s !! w = None -> Inv (launch_worker s w).
Proof.
  intros HI Hm Hk Hn. unfold launch_worker.
  assert (Hold : forall tid x, threads s !! tid = Some x -> (threads s ++ [Thread w WORKER_PAUSING eventfd Starting]) !! tid = Some x)
    by (intros tid x Hx; by apply lookup_app_l_Some).
  constructor; try apply HI.
  - intros tid th. cbn [threads with_master with_threads]. intros Ht.
    apply lookup_app_Some in Ht as [Ht|[Hge Ht]].
    + destruct (inv_threads s HI tid th Ht) as [[Hp Hph]|Hu].
      * left. split; [done|]. cbn [master with_master]. rewrite Hm in Hph. unfold phase in *. cbn [subject] in *.
        rewrite decide_False in Hph by done. rewrite decide_False; [done|]. congruence.
      * right. split; [apply Hu|]. left. apply (idle_retired s tid th HI); [by rewrite Hm|done|done].
    + apply list_lookup_singleton_Some in Ht as [Ht <-]. right. cbn [wid_ workers with_master with_threads].
      unfold unpublished. cbn [wid_ workers master with_master with_threads].
      split; [congruence|]. right. replace tid with (length (threads s)) by lia. done.
  - intros w' tid Hl. destruct (inv_workers s HI w' tid Hl) as (? & x & Hx & ?). split; [done|]. exists x. split; [by apply Hold|done].
  - unfold subject_ok. cbn [master with_master threads with_threads workers]. split; [done|]. split.
    + eexists. split; [by apply list_lookup_middle|done].
    + congruence.
  - pose proof (inv_count s HI) as Hc. unfold launched in *. cbn [num_workers workers master with_master with_threads].
    rewrite Hm in Hc. rewrite Hn, decide_False by (by intros [? ?]). lia.
  - intros w' x Hx Hk' Hne. apply (inv_quiet s HI w'); [|done|by rewrite Hm].
    unfold worker in *. cbn [workers threads with_master with_threads] in Hx. destruct (workers s !! w') as [t|] eqn:Hl; [|done].
    cbn [mbind option_bind] in *. destruct (inv_workers s HI w' t Hl) as (_ & y & Hy & _). rewrite (Hold t y Hy) in Hx. congruence.
  - done.
Qed.

Lemma inv_calls_same s l : Inv s -> master s = Idle -> todo_ok (length (pausers s)) l ->
  quiet_to s (upto (length (pausers s)) l) -> Inv (with_todo s l).
Proof. intros HI Hm Ht Hq. apply (inv_calls s l (pausers s) HI); [rewrite Hm; by intros []|done|apply (inv_pausers s HI)|done]. Qed.

Lemma idle_none s : Inv s -> master s = Idle -> num_workers s = 0 -> workers s = ∅.
Proof.
  intros HI Hm H0. pose proof (inv_count s HI) as Hc. unfold launched in Hc. rewrite Hm in Hc.
  apply map_size_empty_inv. lia.
Qed.

Lemma inv_launch_first s : Inv s -> master s = Idle -> num_workers s = 0 -> Inv (launch_worker s 0).
Proof.
  intros HI Hm H0. apply inv_launch; [done|done|unfold kMaxWorkers; lia|]. by rewrite (idle_none s HI Hm H0).
Qed.

(** What a call that is done leaves behind. *)
Lemma begin_rest s i rest : Inv s -> master s = Idle -> todo s = i :: rest -> after (length (pausers s)) i = length (pausers s) ->
  (length (pausers s) <> 0%nat -> forall k, quiet_to s k) -> Inv (with_todo s rest).
Proof.
  intros HI Hm Ht Ha Hq. pose proof (inv_todo s HI) as Hok. rewrite Ht in Hok. destruct Hok as [_ Hok]. rewrite Ha in Hok.
  apply inv_calls_same; [done|done|by apply ok_todo|]. rewrite (ok_upto _ _ Hok).
  destruct (length (pausers s)) eqn:Hn; [intros ? ? ? ?; lia|by apply Hq].
Qed.

Lemma quiet_inside s i rest : Inv s -> todo s = i :: rest ->
  (2 <= length (pausers s))%nat \/ (1 <= length (pausers s))%nat /\ match i with AnyRunning _ | PauserLoop _ => False | _ => True end ->
  forall k, quiet_to s k.
Proof.
  intros HI Ht Hi. pose proof (inv_quiet s HI) as Hq. unfold quiet_upto in Hq. rewrite Ht in Hq.
  apply (quiet_all s kMaxWorkers HI); [done|]. revert Hq Hi. destruct (length (pausers s)) as [|[|n]]; intros Hq Hi; [lia| |by destruct i].
  destruct Hi as [?|[_ Hi]]; [lia|]. by destruct i.
Qed.

(** The scans of the workers. *)
Lemma head_quiet s k i rest : Inv s -> todo s = i :: rest -> (i = AnyRunning k \/ i = PauserLoop k) ->
  (1 <= length (pausers s))%nat -> quiet_to s k.
Proof.
  intros HI Ht Hi Hn. destruct (Nat.le_gt_cases 2 (length (pausers s))) as [H2|H2].
  - apply (quiet_inside s i rest HI Ht). by left.
  - pose proof (inv_quiet s HI) as Hq. unfold quiet_upto in Hq. rewrite Ht in Hq.
    replace (length (pausers s)) with 1%nat in Hq by lia. by destruct Hi as [-> | ->].
Qed.

Lemma scan_calls s i j k rest : Inv s -> master s = Idle -> todo s = i :: rest -> ok (length (pausers s)) rest ->
  (1 <= length (pausers s))%nat -> (j = AnyRunning k \/ j = PauserLoop k) -> quiet_to s k -> Inv (with_todo s (j :: rest)).
Proof.
  intros HI Hm Ht Hok Hn Hj Hq. apply (inv_calls_same s); [done|done|split; [right; by destruct Hj as [-> | ->]|by destruct Hj as [-> | ->]]|].
  destruct (Nat.le_gt_cases 2 (length (pausers s))) as [H2|H2].
  - apply (quiet_inside s i rest HI Ht). by left.
  - replace (length (pausers s)) with 1%nat by lia. by destruct Hj as [-> | ->].
Qed.

Lemma begin_any_running s s' k rest : Inv s -> master s = Idle -> todo s = AnyRunning k :: rest ->
  begin (with_todo s rest) (AnyRunning k) = Some s' -> Inv s'.
Proof.
  intros HI Hm Ht. pose proof (inv_todo s HI) as Hok. rewrite Ht in Hok. destruct Hok as [Hd Hok]. cbn [after static dynamic] in Hok, Hd.
  assert (Hn : (1 <= length (pausers s))%nat) by (by destruct Hd).
  pose proof (head_quiet s k _ _ HI Ht (or_introl eq_refl) Hn) as Hq.
  cbn [begin]. change (is_worker_running (with_todo s rest) k) with (is_worker_running s k). cbn [todo with_todo].
  destruct (is_worker_running s k) eqn:Hr.
  - intros [= <-]. apply (scan_calls s _ _ 0 rest HI Hm Ht Hok Hn); [by right|]. intros ? ? ? ?; lia.
  - pose proof (quiet_more s k HI Hm Hq Hr) as Hq'. destruct (Nat.ltb_spec (S k) kMaxWorkers); intros [= <-].
    + apply (scan_calls s _ _ (S k) rest HI Hm Ht Hok Hn); [by left|done].
    + apply (begin_rest s (AnyRunning k)); [done|done|done|done|]. intros _. by apply (quiet_all s (S k)).
Qed.

Lemma begin_pauser_loop s s' k rest : Inv s -> master s = Idle -> todo s = PauserLoop k :: rest ->
  begin (with_todo s rest) (PauserLoop k) = Some s' -> Inv s'.
Proof.
  intros HI Hm Ht. pose proof (inv_todo s HI) as Hok. rewrite Ht in Hok. destruct Hok as [Hd Hok]. cbn [after static dynamic] in Hok, Hd.
  assert (Hn : (1 <= length (pausers s))%nat) by (by destruct Hd).
  pose proof (head_quiet s k _ _ HI Ht (or_intror eq_refl) Hn) as Hq.
  cbn [begin]. change (is_worker_running (with_todo (with_todo s rest) (PauserLoop (S k) :: todo (with_todo s rest))) k) with (is_worker_running s k).
  cbn [todo with_todo pausers].
  destruct (Nat.ltb_spec k kMaxWorkers).
  2: { intros [= <-]. apply (begin_rest s (PauserLoop k)); [done|done|done|done|]. intros _. by apply (quiet_all s k). }
  destruct (is_worker_running s k) eqn:Hr.
  - destruct (pausers s) as [|l ls] eqn:Hps; [done|]. intros [= <-].
    assert (ls = []) as ->.
    { destruct ls as [|l' ls]; [done|]. exfalso. pose proof (proj1 (status_spec s k WORKER_RUNNING) Hr) as (th & Hw & Hst).
      assert (Hp : paused th); [|by rewrite (paused_paused th Hp) in Hst].
      apply (quiet_inside s _ rest HI Ht) with (k := S k) (w := k); [|done|lia|by rewrite Hm]. left. rewrite Hps. cbn. lia. }
    apply (inv_calls (with_master s (StorePausing k)) (PauserLoop (S k) :: rest) [l ++ [k]]).
    + by apply (inv_ask s k).
    + by intros [].
    + split; [right; cbn; lia|done].
    + intros [|i] x; [|done]. intros [= <-]. split; [|cbn; lia].
      destruct (inv_pausers s HI 0%nat l) as [Hall _]; [by rewrite Hps|]. apply Forall_app. split; [done|]. by apply Forall_singleton.
    + intros w th Hw Hlt Hne. cbn [length upto master with_master subject] in *.
      apply (Hq w th Hw); [|by rewrite Hm]. assert (w <> k) by congruence. lia.
  - intros [= <-]. apply (scan_calls s _ _ (S k) rest HI Hm Ht Hok Hn); [by right|]. by apply quiet_more.
Qed.

(** A call that leaves the calls after it as they are, with nothing more to do than some action of its own. *)
Lemma begin_goes s i rest : Inv s -> master s = Idle -> todo s = i :: rest -> after (length (pausers s)) i = length (pausers s) ->
  match i with AnyRunning _ | PauserLoop _ => False | _ => True end ->
  Inv (with_todo s rest) /\ ok (length (pausers s)) rest /\ (length (pausers s) <> 0%nat -> forall k, quiet_to s k).
Proof.
  intros HI Hm Ht Ha Hi. pose proof (inv_todo s HI) as Hok. rewrite Ht in Hok. destruct Hok as [_ Hok]. rewrite Ha in Hok.
  assert (Hq : length (pausers s) <> 0%nat -> forall k, quiet_to s k)
    by (intros Hn; apply (quiet_inside s i rest HI Ht); right; split; [lia|done]).
  split; [by apply (begin_rest s i)|done].
Qed.

Lemma begin_worker_call s s' i rest : Inv s -> master s = Idle -> todo s = i :: rest ->
  match i with Pause _ | Resume _ | Destroy _ | TryDestroy _ _ | LaunchIfFree _ | LaunchFirst | Critical => True | _ => False end ->
  begin (with_todo s rest) i = Some s' -> Inv s'.
Proof.
  intros HI Hm Ht Hi. pose proof (inv_todo s HI) as Hok. rewrite Ht in Hok. destruct Hok as [Hst _].
  destruct (begin_goes s i rest HI Hm Ht) as (HI0 & Hok & Hq); [by destruct i|by destruct i|].
  assert (Hm0 : master (with_todo s rest) = Idle) by done. assert (Hz : length (pausers s) = 0%nat -> quiet_upto (with_todo s rest) = 0%nat).
  { intros Hn. unfold quiet_upto. cbn [pausers todo with_todo]. by rewrite (ok_upto _ _ Hok), Hn. }
  destruct i; try done; cbn [begin static dynamic] in *; try (destruct (_ <? _)%nat; [|done]); intros [= <-].
  - destruct (is_worker_running _ _) eqn:Hr; [|done]. by apply (inv_ask _ wid).
  - destruct (has_status _ _ _) eqn:Hr; [|done]. apply (inv_ask _ wid); try done. split; [done|]. intros _. apply Hz. by destruct Hst as [[? _]|[]].
  - destruct (has_status _ _ _) eqn:Hr; [|done]. by apply (inv_ask _ wid).
  - destruct (_ || _); [done|]. cbn [todo with_todo]. apply (inv_calls_same s); [done|done| |].
    { destruct Hst as [?|[]]. by split; [left|]. }
    cbn [upto]. destruct (length (pausers s)) as [|[|n]] eqn:Hl; [intros ? ? ? ?; lia| |]; by apply Hq.
  - destruct (is_worker_active _ _) eqn:Ha; [done|]. apply inv_launch; [done|done|by destruct Hst|].
    apply bool_decide_eq_false in Ha. by apply eq_None_not_Some.
  - change (num_workers (with_todo s rest)) with (num_workers s). destruct (Z.eqb_spec (num_workers s) 0); [by apply inv_launch_first|done].
  - done.
Qed.

Lemma begin_pauser_call s s' i rest : Inv s -> master s = Idle -> todo s = i :: rest ->
  match i with Begin | End _ | ResumeListed => True | _ => False end -> begin (with_todo s rest) i = Some s' -> Inv s'.
Proof.
  intros HI Hm Ht Hi. pose proof (inv_todo s HI) as Hok. rewrite Ht in Hok. destruct Hok as [Hst Hok].
  assert (Hq : (1 <= length (pausers s))%nat -> forall k, quiet_to s k).
  { intros Hn. apply (quiet_inside s i rest HI Ht). right. split; [done|]. by destruct i. }
  assert (Hnr : ~ resuming (master s)) by (rewrite Hm; by intros []).
  destruct i; try done; cbn [begin static dynamic after todo pausers with_todo] in *.
  - intros [= <-]. apply (inv_calls s (AnyRunning 0 :: rest) ([] :: pausers s) HI Hnr).
    + split; [right; cbn; lia|done].
    + intros [|j] l; cbn; [by intros [= <-]|]. intros Hj. destruct (inv_pausers s HI j l Hj) as [Hlt Hnil].
      split; [done|]. intros Hn. apply Hnil. lia.
    + cbn [length]. destruct (length (pausers s)) as [|n] eqn:Hl; [intros ? ? ? ?; cbn in *; lia|]. cbn [upto]. apply Hq. lia.
  - intros [= <-]. destruct Hst as [Hn|[]]. apply (inv_calls_same s _ HI Hm).
    + split; [by right|]. split; [done|]. done.
    + by apply Hq.
  - destruct (pausers s) as [|l ps] eqn:Hps; [done|]. intros [= <-]. cbn [length pred] in *.
    destruct (inv_pausers s HI 0%nat l) as [Hall Hnil]; [by rewrite Hps|]. rewrite Hps in Hnil.
    assert (Hl : (0 < length ps)%nat -> l = []) by (intros Hlt; apply Hnil; cbn; lia).
    assert (Hok' : ok (length ps) (map Resume l ++ rest)).
    { destruct (length ps) eqn:Hlen; [by apply ok_resumes|]. rewrite Hl by lia. done. }
    apply (inv_calls s (map Resume l ++ rest) ps HI Hnr); [by apply ok_todo| |apply Hq; lia].
    intros j x Hj. destruct (inv_pausers s HI (S j) x) as [Hx Hxn]; [by rewrite Hps|]. rewrite Hps in Hxn.
    split; [done|]. intros Hlt. apply Hxn. cbn in *. lia.
Qed.

Lemma begin_check_call s s' i rest : Inv s -> master s = Idle -> todo s = i :: rest ->
  match i with CheckPaused _ _ | IfQuiet _ _ => True | _ => False end -> begin (with_todo s rest) i = Some s' -> Inv s'.
Proof.
  intros HI Hm Ht Hi. pose proof (inv_todo s HI) as Hok. rewrite Ht in Hok. destruct Hok as [Hst _].
  destruct (begin_goes s i rest HI Hm Ht) as (HI0 & Hok & _); [by destruct i|by destruct i|].
  pose proof (inv_quiet s HI) as Hq. unfold quiet_upto in Hq. rewrite Ht in Hq.
  destruct i; try done; cbn [begin static dynamic after upto todo with_todo] in *.
  - change (is_worker_running (with_todo s rest) wid) with (is_worker_running s wid).
    destruct (is_worker_running s wid) eqn:Hr.
    { exfalso. apply status_spec in Hr as (th & Hw & Hrun). destruct (worker_known s wid th HI Hw) as (Hk & _).
      assert (Hp : paused th) by (apply (Hq wid th Hw Hk); by rewrite Hm). by rewrite (paused_paused th Hp) in Hrun. }
    destruct (Nat.ltb_spec (S wid) kMaxWorkers); intros [= <-].
    + apply (inv_calls_same s _ HI Hm); [|done]. by split; [right|].
    + destruct (orphans && _) eqn:Ho; [|done]. apply andb_true_iff in Ho as [_ Ho%Z.eqb_eq]. by apply inv_launch_first.
  - assert (Hn : length (pausers s) = 0%nat) by (destruct Hst as [[? _]|?]; done).
    rewrite Hn in Hq. cbn [upto] in Hq.
    change (is_worker_running (with_todo s rest) wid) with (is_worker_running s wid).
    destruct (is_worker_running s wid) eqn:Hr; [by intros [= <-]|]. pose proof (quiet_more s wid HI Hm Hq Hr) as Hq'.
    destruct (Nat.ltb_spec (S wid) kMaxWorkers); intros [= <-].
    + apply (inv_calls_same s _ HI Hm); [by split; [right|]|]. by rewrite Hn.
    + apply (inv_calls_same s _ HI Hm); [by split; [right|]|]. by apply (quiet_all s (S wid) HI).
Qed.

Lemma begin_inv s s' i rest : Inv s -> master s = Idle -> todo s = i :: rest -> begin (with_todo s rest) i = Some s' -> Inv s'.
Proof.
  intros HI Hm Ht. destruct i; first [by apply (begin_worker_call s s' _ rest)|by apply (begin_any_running s s' _ rest)
    |by apply (begin_pauser_loop s s' _ rest)|by apply (begin_pauser_call s s' _ rest)|by apply (begin_check_call s s' _ rest)].
Qed.

(** The thread that is waited for, or asked, takes part in a step: it may change, and the serving thread goes on. *)
Lemma inv_pair s w tid th th' m' : Inv s -> subject (master s) = Some w -> (forall v t, master s <> SpinReady v t) ->
  workers s !! w = Some tid -> threads s !! tid = Some th -> wid_ th' = w ->
  match m' with
  | Idle => (running th' \/ paused th') /\ ((w < quiet_upto s)%nat -> paused th')
  | SpinReady _ _ | CheckFailed => False
  | _ => subject m' = Some w /\ special m' th'
  end ->
  (resuming m' -> resuming (master s)) -> Inv (with_master (with_threads s (<[tid := th']> (threads s))) m').
Proof.
  intros HI Hs Hnr Hl Ht Hw Hm' Hres. pose proof (lookup_lt_Some _ _ _ Ht) as Hlt.
  assert (Hwid : wid_ th = w).
  { destruct (inv_workers s HI w tid Hl) as (_ & x & Hx & Hxw). congruence. }
  assert (Hph : phase m' w th').
  { unfold phase. destruct m'; try done; cbn [subject] in *; try (destruct Hm' as [-> ?]; by rewrite decide_True).
    rewrite decide_False by done. apply Hm'. }
  assert (Hsub : subject m' = Some w \/ m' = Idle) by (destruct m'; try done; try (left; apply Hm'); by right).
  constructor; try apply HI.
  - intros t x. cbn [threads with_master with_threads]. intros Hx. unfold published, unpublished. cbn [workers master with_master with_threads].
    destruct (decide (t = tid)) as [->|Hne].
    + rewrite list_lookup_insert_eq in Hx by done. injection Hx as <-. rewrite Hw. by left.
    + rewrite list_lookup_insert_ne in Hx by congruence. destruct (inv_threads s HI t x Hx) as [[Hp Hphx]|(Hp & Hu)].
      * left. split; [done|]. assert (wid_ x <> w) as Hxw by congruence. unfold phase in *. rewrite Hs in Hphx.
        rewrite decide_False in Hphx by congruence. rewrite decide_False; [done|]. destruct Hsub as [-> | ->]; [congruence|done].
      * right. split; [done|]. left. destruct Hu as [?|(Hm & _)]; [done|]. by destruct (Hnr _ _ Hm).
  - intros w' t Hl'. destruct (inv_workers s HI w' t Hl') as (Hk & x & Hx & Hxw). split; [done|]. cbn [threads with_master with_threads].
    destruct (decide (t = tid)) as [->|Hne].
    + exists th'. rewrite list_lookup_insert_eq by done. split; [done|congruence].
    + exists x. by rewrite list_lookup_insert_ne by congruence.
  - unfold subject_ok. cbn [master with_master workers with_threads]. destruct m'; try done; intros v Hv; cbn [subject] in *;
      destruct Hm' as [Hm' _]; assert (v = w) as -> by congruence; by exists tid.
  - pose proof (inv_count s HI) as Hc. assert (launched s = 0) as H0 by (unfold launched; destruct (master s); try done; by edestruct Hnr).
    rewrite H0 in Hc. unfold launched. cbn [num_workers master workers with_master with_threads]. by destruct m'.
  - intros w' x Hx Hk Hne. cbn [master with_master] in Hne.
    assert (Hx' : (if decide (w' = w) then Some th' else worker s w') = Some x).
    { rewrite <- Hx. change (worker (with_master (with_threads s (<[tid:=th']> (threads s))) m') w')
        with (worker (with_threads s (<[tid:=th']> (threads s))) w'). rewrite worker_upd, Ht. cbn.
      destruct (decide (w' = w)) as [->|Hww]; [by rewrite decide_True|]. rewrite decide_False; [done|]. intros Hl'.
      destruct (inv_workers s HI w' tid Hl') as (_ & y & Hy & Hyw). apply Hww. rewrite <- Hyw, <- Hwid. congruence. }
    destruct (decide (w' = w)) as [->|Hww].
    + injection Hx' as <-. destruct Hsub as [Hsub|Hsub]; [congruence|]. subst m'. by apply Hm'.
    + apply (inv_quiet s HI w' x Hx' Hk). congruence.
  - intros Hr. apply (inv_resuming s HI). by apply Hres.
Qed.

(** Only the serving thread goes on. *)
Lemma inv_goes_on s w th m' : Inv s -> subject (master s) = Some w -> (forall v t, master s <> SpinReady v t) -> worker s w = Some th ->
  match m' with
  | Idle => (running th \/ paused th) /\ ((w < quiet_upto s)%nat -> paused th)
  | SpinReady _ _ | CheckFailed => False
  | _ => subject m' = Some w /\ special m' th
  end ->
  (resuming m' -> resuming (master s)) -> Inv (with_master s m').
Proof.
  intros HI Hs Hnr Hw Hm' Hr. destruct (worker_known s w th HI Hw) as (_ & Hwid & _ & tid & Hl & Ht).
  pose proof (inv_pair s w tid th th m' HI Hs Hnr Hl Ht Hwid Hm' Hr) as HI'. rewrite list_insert_id in HI' by done. by destruct s.
Qed.

Lemma subject_worker s w : Inv s -> subject (master s) = Some w -> (forall v t, master s <> SpinReady v t) ->
  exists tid th, workers s !! w = Some tid /\ threads s !! tid = Some th /\ worker s w = Some th /\ wid_ th = w /\ special (master s) th.
Proof.
  intros HI Hs Hnr. pose proof (inv_subject s HI) as Hok. unfold subject_ok in Hok.
  assert (is_Some (workers s !! w)) as [tid Hl].
  { destruct (master s) eqn:Hm; try done; try (by apply Hok). by destruct (Hnr wid tid). }
  destruct (inv_workers s HI w tid Hl) as (_ & th & Ht & Hw). exists tid, th.
  assert (Hwk : worker s w = Some th) by (unfold worker; by rewrite Hl).
  do 4 (split; [done|]). destruct (worker_known s w th HI Hwk) as (_ & _ & Hp & _). unfold phase in Hp. by rewrite decide_True in Hp.
Qed.

(** The thread of a worker that has finished is forgotten. *)
Lemma inv_unlink s w : Inv s -> master s = Unlink w -> Inv (with_master (with_workers s (delete w (workers s)) (num_workers s - 1)) Idle).
Proof.
  intros HI Hm. destruct (subject_worker s w HI) as (tid & th & Hl & Ht & Hwk & Hw & Hre); [by rewrite Hm|by rewrite Hm|].
  rewrite Hm in Hre. cbn [special] in Hre.
  constructor; try apply HI.
  - intros t x. cbn [threads with_master with_workers]. intros Hx. unfold published, unpublished. cbn [workers master with_master with_workers].
    destruct (inv_threads s HI t x Hx) as [[Hp Hph]|(Hp & [Hu|(Hu & _)])]; [| |congruence].
    + unfold phase in Hph. rewrite Hm in Hph. cbn [subject] in Hph. case_decide as Hd.
      * injection Hd as <-. right. rewrite lookup_delete_eq. split; [done|]. by left.
      * left. rewrite lookup_delete_ne by congruence. split; [done|]. unfold phase. cbn [subject]. by rewrite decide_False.
    + right. split; [|by left]. destruct (decide (wid_ x = w)) as [->|]; [by rewrite lookup_delete_eq|by rewrite lookup_delete_ne].
  - intros v t. cbn [workers threads with_master with_workers]. intros [_ Hv]%lookup_delete_Some. by apply (inv_workers s HI).
  - done.
  - pose proof (inv_count s HI) as Hc. unfold launched in *. rewrite Hm in Hc. cbn [num_workers workers master with_master with_workers].
    rewrite map_size_delete_Some by (by exists tid). assert (size (workers s) <> 0%nat); [|lia].
    intros H0. apply map_size_empty_inv in H0. by rewrite H0 in Hl.
  - intros v x Hx Hk _. unfold worker in Hx. cbn [workers threads with_master with_workers] in Hx.
    destruct (decide (v = w)) as [->|Hne]; [by rewrite lookup_delete_eq in Hx|]. rewrite lookup_delete_ne in Hx by done.
    apply (inv_quiet s HI v x Hx Hk). rewrite Hm. cbn [subject]. congruence.
  - by intros [].
Qed.

(** A new worker is ready. *)
Lemma inv_ready s w tid : Inv s -> master s = SpinReady w tid -> has_status s w WORKER_PAUSED = true ->
  Inv (with_master (with_workers s (workers s) (num_workers s + 1)) Idle).
Proof.
  intros HI Hm Hst. apply status_spec in Hst as (th & Hwk & Hst). destruct (worker_known s w th HI Hwk) as (_ & Hwid & Hph & t & Hl & Ht).
  assert (Hp : paused th).
  { unfold phase in Hph. rewrite Hm in Hph. cbn [subject] in Hph. rewrite decide_True in Hph by done. destruct Hph as [(Hs & _)|?]; [congruence|done]. }
  constructor; try apply HI.
  - intros t' x. cbn [threads with_master with_workers]. intros Hx. unfold published, unpublished. cbn [workers master with_master with_workers].
    destruct (inv_threads s HI t' x Hx) as [[Hpub Hphx]|(Hn & [Hu|(Hu & Hno & _)])].
    + left. split; [done|]. unfold phase in *. cbn [subject]. rewrite decide_False by done. rewrite Hm in Hphx. cbn [subject] in Hphx.
      case_decide as Hd; [|done]. injection Hd as Hd. right. assert (t' = t) as -> by congruence. by assert (x = th) as -> by congruence.
    + right. by split; [|left].
    + rewrite Hm in Hu. injection Hu as -> _. congruence.
  - done.
  - pose proof (inv_count s HI) as Hc. unfold launched in *. rewrite Hm in Hc. rewrite decide_True in Hc by (by exists t).
    cbn [num_workers workers master with_master with_workers]. lia.
  - intros v x Hx Hk _. change (worker s v = Some x) in Hx. destruct (decide (v = w)) as [->|Hne].
    + by assert (x = th) as -> by congruence.
    + apply (inv_quiet s HI v x Hx Hk). rewrite Hm. cbn [subject]. congruence.
  - by intros [].
Qed.

Lemma update_worker_eq s w f tid th : workers s !! w = Some tid -> threads s !! tid = Some th ->
  update_worker s w f = Some (with_threads s (<[tid := f th]> (threads s))).
Proof. intros Hl Ht. unfold update_worker. rewrite Hl. cbn [mbind option_bind]. by rewrite Ht. Qed.

Lemma master_step_inv s s' : Inv s -> master_step s = Some s' -> Inv s'.
Proof.
  intros HI. unfold master_step. destruct (master s) as [|w|w|w sig|w sig|w|w tid|] eqn:Hm.
  - destruct (todo s) as [|i rest] eqn:Ht; [done|]. by apply begin_inv.
  - destruct (subject_worker s w HI) as (tid & th & Hl & Ht & Hwk & Hw & Hsp); [by rewrite Hm|by rewrite Hm|].
    rewrite (update_worker_eq s w _ tid th Hl Ht). intros [= <-]. rewrite Hm in Hsp. destruct Hsp as (_ & Hf & Hlo).
    apply (inv_pair s w tid th); rewrite ?Hm; try done. split; [done|]. left. split; [done|]. split; [done|]. cbn. by destruct (at_ th).
  - destruct (subject_worker s w HI) as (tid & th & Hl & Ht & Hwk & Hw & Hsp); [by rewrite Hm|by rewrite Hm|].
    rewrite Hwk. cbn [mbind option_bind]. case_bool_decide as Hst; intros [= <-]; [done|]. rewrite Hm in Hsp.
    assert (Hp : paused th) by (destruct Hsp as [(? & _)|?]; done).
    apply (inv_goes_on s w th); rewrite ?Hm; try done. split; [by right|done].
  - destruct (subject_worker s w HI) as (tid & th & Hl & Ht & Hwk & Hw & Hsp); [by rewrite Hm|by rewrite Hm|].
    rewrite (update_worker_eq s w _ tid th Hl Ht). intros [= <-]. rewrite Hm in Hsp. destruct Hsp as (Hst & Hf & Hlo).
    apply (inv_pair s w tid th); rewrite ?Hm; try done.
    split; [done|]. cbn. assert (signalled sig (set_fd th (fd_write (fd_event_ th) (signal_value sig)))).
    { split; [done|]. cbn. destruct (at_ th); try done. by rewrite Hf. }
    destruct sig; by left.
  - destruct (subject_worker s w HI) as (tid & th & Hl & Ht & Hwk & Hw & Hsp); [by rewrite Hm|by rewrite Hm|].
    rewrite Hwk. cbn [mbind option_bind]. case_bool_decide as Hst; intros [= <-]; [done|]. rewrite Hm in Hsp.
    destruct sig; cbn [special] in Hsp.
    + assert (Hr : running th) by (destruct Hsp as [(? & _)|?]; done). apply (inv_goes_on s w th); rewrite ?Hm; try done.
      split; [by left|]. intros Hlt. exfalso. assert (quiet_upto s = 0%nat); [|lia]. apply (inv_resuming s HI). by rewrite Hm.
    + assert (Hr : retired th) by (destruct Hsp as [(? & _)|?]; done). by apply (inv_goes_on s w th); rewrite ?Hm.
  - intros [= <-]. by apply inv_unlink.
  - destruct (has_status s w WORKER_PAUSED) eqn:Hst; intros [= <-]; [by apply (inv_ready s w tid)|done].
  - done.
Qed.

Lemma act_inv l s s' : Inv s -> label_ok l -> act l s = Some s' -> Inv s'.
Proof.
  intros HI Hl. destruct l as [r| |tid]; cbn [act]; [|by apply master_step_inv|by apply thread_step_inv].
  destruct (master s) eqn:Hm; try done. destruct (todo s) eqn:Ht; [|done]. intros [= <-].
  pose proof (inv_todo s HI) as Hok. rewrite Ht in Hok. cbn in Hok. pose proof (ok_handler r Hl) as Hh. rewrite <- Hok in Hh.
  apply (inv_calls_same s _ HI Hm); [by apply ok_todo|]. rewrite (ok_upto _ _ Hh), Hok. intros ? ? ? ?; lia.
Qed.

Lemma init_workers_inv : Inv init.
Proof.
  constructor; done.
Qed.

Lemma workers_inv s : reachable s -> Inv s.
Proof.
  intros (ls & Hls & Hr). assert (H0 : Inv (init (E := E))) by apply init_workers_inv. revert H0 Hr. generalize (init (E := E)).
  induction Hls as [|l ls Hl _ IH]; cbn [run]; intros s0 H0; [by intros [= <-]|].
  destruct (act l s0) as [s1|] eqn:Ha; [|done]. cbn [mbind option_bind]. apply IH. by eapply act_inv.
Qed.

(** *** Who is waited for *)

(** The thread that a loop of the serving thread waits for, until the loop is over. *)
Definition awaited s : option nat :=
  match master s with
  | SpinPausing w => if has_status s w WORKER_PAUSING then workers s !! w else None
  | SpinPaused w _ => if has_status s w WORKER_PAUSED then workers s !! w else None
  | SpinReady w tid => if has_status s w WORKER_PAUSED then None else Some tid
  | _ => None
  end.

(** How many steps of its own it needs at most: the loop looks at its state every 256 rounds. *)
Definition lag th : nat :=
  match at_ th with
  | Starting => 4
  | Publishing => 3
  | AtRound r => 2 * Z.to_nat ((- r) mod 256) + 2
  | InRound r => 2 * Z.to_nat ((- (r + 1)) mod 256) + 3
  | Blocking _ | Unblocking _ | Quitting => 1
  | Reading _ => 2
  | Deleting | Done | BadSignal => 0
  end%nat.

Lemma lag_bound th : (lag th <= 513)%nat.
Proof.
  unfold lag. destruct (at_ th); lia.
Qed.

Lemma land_mask_mod r : Z.land r accounting_mask = r mod 256.
Proof. change accounting_mask with (Z.ones 8). by rewrite Z.land_ones by lia. Qed.

Lemma pausing_steps th : pausing th -> exists th', run_thread th = Some th' /\ (lag th' < lag th \/ status_ th' <> WORKER_PAUSING)%nat.
Proof.
  intros (Hs & Hf & Hl). unfold run_thread, at_top, is_pause_requested, lag. rewrite Hs. destruct (at_ th) as [| |r|r|r|r|r| | | |]; try done.
  - rewrite land_mask_mod, bool_decide_eq_true_2, andb_true_r by done. eexists. split; [done|]. left. cbn [at_ goto].
    destruct (Z.eqb_spec (r mod 256) 0) as [H0|H0]; cbn; [lia|].
    assert ((- (r + 1)) mod 256 = (- r) mod 256 - 1) as ->; [|pose proof (Z.mod_pos_bound (- r) 256); zlia]. zlia.
  - eexists. split; [done|]. left. cbn [at_ goto].
    assert ((- u64 (r + 1)) mod 256 = (- (r + 1)) mod 256) as ->; [|lia]. unfold wrap. zlia.
  - eexists. split; [done|]. by right.
Qed.

Lemma signalled_steps sig th : signalled sig th ->
  exists th', run_thread th = Some th' /\ (lag th' < lag th \/ status_ th' <> WORKER_PAUSED)%nat.
Proof.
  intros (Hs & Hl). unfold run_thread, at_top, lag. destruct (at_ th) as [| |r|r|r|r|r| | | |] eqn:Ha; try done.
  - rewrite Hl, read_written by (by destruct sig). cbn [mbind option_bind]. eexists. split; [done|]. left. cbn. destruct sig; cbn; lia.
  - eexists. split; [done|]. by right.
  - eexists. split; [done|]. by right.
Qed.

Lemma fresh_steps th : fresh th -> exists th', run_thread th = Some th' /\ (lag th' < lag th \/ status_ th' = WORKER_PAUSED)%nat.
Proof.
  intros (Hs & Hf & Hl). unfold run_thread, at_top, is_pause_requested, lag. rewrite Hs. destruct (at_ th) as [| |r|r|r|r|r| | | |]; try done.
  - destruct r; [|done|done]. eexists. split; [done|]. left. apply Nat.ltb_lt. reflexivity.
  - eexists. split; [done|]. by right.
Qed.

Lemma starting_steps th : starting th -> exists th', run_thread th = Some th' /\ (lag th' < lag th)%nat.
Proof.
  intros Hl. unfold starting, run_thread, at_top, lag in *. destruct (at_ th) as [| |r|r|r|r|r| | | |]; try done;
    (eexists; split; [done|]; apply Nat.ltb_lt; reflexivity).
Qed.

(** What is left to wait for. *)
Definition waiting s : nat := match awaited s with Some tid => match threads s !! tid with Some th => lag th | None => 0 end | None => 0 end.

Lemma waiting_bound s : (waiting s <= 513)%nat.
Proof. unfold waiting. destruct (awaited s); [|lia]. destruct (threads s !! _); [apply lag_bound|lia]. Qed.

Lemma has_status_upd s tid th' w st : (tid < length (threads s))%nat -> workers s !! w = Some tid ->
  has_status (with_threads s (<[tid := th']> (threads s))) w st = bool_decide (status_ th' = st).
Proof.
  intros Hlt Hl. unfold has_status. rewrite worker_upd, decide_True by done.
  destruct (lookup_lt_is_Some_2 _ _ Hlt) as [x ->]. done.
Qed.

Lemma has_status_worker s w tid th st : workers s !! w = Some tid -> threads s !! tid = Some th -> has_status s w st = bool_decide (status_ th = st).
Proof. intros Hl Ht. unfold has_status, worker. rewrite Hl. cbn [mbind option_bind]. by rewrite Ht. Qed.

(** The thread that is waited for can go on, and comes closer. *)
Lemma awaited_steps s tid : Inv s -> awaited s = Some tid -> exists s', thread_step tid s = Some s' /\
  (waiting s' < waiting s)%nat /\ master s' = master s.
Proof.
  intros HI Ha. unfold awaited in Ha. destruct (master s) as [|w|w|w sig|w sig|w|w t|] eqn:Hm; try done.
  - destruct (has_status s w WORKER_PAUSING) eqn:Hst; [|done].
    destruct (subject_worker s w HI) as (tid' & th & Hl & Ht & _ & _ & Hsp); [by rewrite Hm|by rewrite Hm|].
    assert (tid' = tid) as -> by congruence. rewrite (has_status_worker s w tid th) in Hst by done. apply bool_decide_eq_true in Hst.
    rewrite Hm in Hsp. destruct Hsp as [Hp|(? & _)]; [|congruence]. pose proof (lookup_lt_Some _ _ _ Ht) as Hlt.
    destruct (pausing_steps th Hp) as (th' & Hr & Hlag). unfold thread_step. rewrite Ht. cbn [mbind option_bind]. rewrite Hr. cbn [mbind option_bind].
    assert (at_ th <> Publishing) as Hnp by (destruct Hp as (_ & _ & Hp); by destruct (at_ th)).
    exists (with_threads s (<[tid:=th']> (threads s))). split; [by destruct (at_ th)|]. split; [|done].
    assert (Hw : waiting s = lag th) by (unfold waiting, awaited; rewrite Hm, (has_status_worker s w tid th) by done; by rewrite bool_decide_eq_true_2, Hl, Ht by done).
    rewrite Hw. unfold waiting, awaited. cbn [master with_threads workers]. rewrite Hm, has_status_upd by done.
    case_bool_decide as Hs'.
    + rewrite Hl. cbn [threads with_threads]. rewrite list_lookup_insert_eq by done. by destruct Hlag.
    + unfold lag. destruct Hp as (_ & _ & Hp). destruct (at_ th); try done; lia.
  - destruct (has_status s w WORKER_PAUSED) eqn:Hst; [|done].
    destruct (subject_worker s w HI) as (tid' & th & Hl & Ht & _ & _ & Hsp); [by rewrite Hm|by rewrite Hm|].
    assert (tid' = tid) as -> by congruence. rewrite (has_status_worker s w tid th) in Hst by done. apply bool_decide_eq_true in Hst.
    rewrite Hm in Hsp. assert (Hp : signalled sig th) by (destruct sig; destruct Hsp as [?|(? & _)]; congruence).
    pose proof (lookup_lt_Some _ _ _ Ht) as Hlt.
    destruct (signalled_steps sig th Hp) as (th' & Hr & Hlag). unfold thread_step. rewrite Ht. cbn [mbind option_bind]. rewrite Hr. cbn [mbind option_bind].
    assert (at_ th <> Publishing) as Hnp by (destruct Hp as (_ & Hp); by destruct (at_ th)).
    exists (with_threads s (<[tid:=th']> (threads s))). split; [by destruct (at_ th)|]. split; [|done].
    assert (Hw : waiting s = lag th) by (unfold waiting, awaited; rewrite Hm, (has_status_worker s w tid th) by done; by rewrite bool_decide_eq_true_2, Hl, Ht by done).
    rewrite Hw. unfold waiting, awaited. cbn [master with_threads workers]. rewrite Hm, has_status_upd by done.
    case_bool_decide as Hs'.
    + rewrite Hl. cbn [threads with_threads]. rewrite list_lookup_insert_eq by done. by destruct Hlag.
    + unfold lag. destruct Hp as (_ & Hp). destruct (at_ th); try done; lia.
  - destruct (has_status s w WORKER_PAUSED) eqn:Hst; [done|]. injection Ha as ->.
    pose proof (inv_subject s HI) as Hsub. unfold subject_ok in Hsub. rewrite Hm in Hsub. destruct Hsub as (_ & (th & Ht & Hw & Hstart) & Hu).
    pose proof (lookup_lt_Some _ _ _ Ht) as Hlt.
    assert (Hws : waiting s = lag th) by (unfold waiting, awaited; rewrite Hm, Hst; by rewrite Ht).
    unfold thread_step. rewrite Ht. cbn [mbind option_bind].
    destruct (workers s !! w) as [t'|] eqn:Hl.
    + assert (t' = tid) as -> by (by apply Hu). rewrite (has_status_worker s w tid th) in Hst by done.
      assert (Hf : fresh th).
      { assert (Hwk : worker s w = Some th) by (unfold worker; by rewrite Hl). destruct (worker_known s w th HI Hwk) as (_ & _ & Hp & _).
        unfold phase in Hp. rewrite Hm, decide_True in Hp by done. destruct Hp as [?|(Hp & _)]; [done|]. by rewrite bool_decide_eq_true_2 in Hst. }
      destruct (fresh_steps th Hf) as (th' & Hr & Hlag). rewrite Hr. cbn [mbind option_bind].
      exists (with_threads s (<[tid:=th']> (threads s))).
      assert (at_ th <> Publishing) as Hnp by (destruct Hf as (_ & _ & Hp); by destruct (at_ th)).
      split; [by destruct (at_ th)|]. split; [|done]. rewrite Hws. unfold waiting, awaited. cbn [master with_threads workers].
      rewrite Hm, has_status_upd by done. clear Hst. case_bool_decide as Hs'.
      * unfold lag. destruct Hf as (_ & _ & Hp). destruct (at_ th); try done; lia.
      * cbn [threads with_threads]. rewrite list_lookup_insert_eq by done. by destruct Hlag.
    + specialize (Hstart eq_refl). destruct (starting_steps th Hstart) as (th' & Hr & Hlag). rewrite Hr. cbn [mbind option_bind].
      eexists. split; [done|]. rewrite Hws.
      assert (Hpub : forall s', master s' = master s -> threads s' = <[tid := th']> (threads s) -> (waiting s' < lag th)%nat).
      { intros s' Hm' Ht'. unfold waiting, awaited. rewrite Hm', Hm. destruct (has_status s' w WORKER_PAUSED).
        - lia.
        - rewrite Ht', list_lookup_insert_eq by done. done. }
      by destruct (at_ th); split; try done; apply Hpub.
Qed.

(** Steps of the other threads do not matter to the wait. *)
Lemma other_steps s s' tid : Inv s -> thread_step tid s = Some s' -> awaited s <> Some tid ->
  waiting s' = waiting s /\ master s' = master s.
Proof.
  intros HI Hs Ha. unfold thread_step in Hs. destruct (threads s !! tid) as [th|] eqn:Ht; [|done]. cbn [mbind option_bind] in Hs.
  destruct (run_thread th) as [th'|] eqn:Hr; [|done]. cbn [mbind option_bind] in Hs.
  assert (Hnp : at_ th <> Publishing).
  { intros Hp. apply Ha. destruct (inv_threads s HI tid th Ht) as [[_ Hph]|(_ & [[_ Hre]|(Hm & Hn & _)])]; [|by rewrite Hp in Hre|].
    - exfalso. unfold phase in Hph. assert (Hno : forall m, ~ special m th) by (intros [| | |? [|]|? [|]| | |]; cbn [special];
        unfold running, paused, pausing, fresh, signalled, retired; rewrite ?Hp; cbn; intuition).
      case_decide; [by eapply Hno|]. unfold running, paused in Hph. rewrite Hp in Hph. cbn in Hph. intuition.
    - unfold awaited. rewrite Hm. unfold has_status, worker. by rewrite Hn. }
  assert (s' = with_threads s (<[tid := th']> (threads s))) as -> by (destruct (at_ th); congruence).
  pose proof (lookup_lt_Some _ _ _ Ht) as Hlt. split; [|done].
  assert (Hsame : forall t, t <> tid -> threads (with_threads s (<[tid := th']> (threads s))) !! t = threads s !! t)
    by (intros t Hne; by apply list_lookup_insert_ne).
  assert (Hst : forall w st, workers s !! w <> Some tid -> has_status (with_threads s (<[tid := th']> (threads s))) w st = has_status s w st).
  { intros w st Hw. unfold has_status. by rewrite worker_upd, decide_False. }
  unfold waiting. assert (awaited (with_threads s (<[tid := th']> (threads s))) = awaited s) as Heq.
  { unfold awaited in *. cbn [master with_threads workers]. destruct (master s) as [|w|w|w sig|w sig|w|w t|] eqn:Hm; try done.
    - destruct (decide (workers s !! w = Some tid)) as [Hl|Hl]; [|by rewrite Hst].
      rewrite has_status_upd by done. rewrite (has_status_worker s w tid th) in * by done.
      destruct (bool_decide (status_ th = WORKER_PAUSING)) eqn:H1; [by rewrite Hl in Ha|]. apply bool_decide_eq_false in H1. exfalso.
      destruct (subject_worker s w HI) as (t' & x & Hl' & Hx & _ & _ & Hsp); [by rewrite Hm|by rewrite Hm|].
      assert (x = th) as -> by congruence. rewrite Hm in Hsp. destruct Hsp as [(? & _)|Hp]; [done|]. by rewrite (run_paused th Hp) in Hr.
    - destruct (decide (workers s !! w = Some tid)) as [Hl|Hl]; [|by rewrite Hst].
      rewrite has_status_upd by done. rewrite (has_status_worker s w tid th) in * by done.
      destruct (bool_decide (status_ th = WORKER_PAUSED)) eqn:H1; [by rewrite Hl in Ha|]. apply bool_decide_eq_false in H1.
      destruct (subject_worker s w HI) as (t' & x & Hl' & Hx & _ & _ & Hsp); [by rewrite Hm|by rewrite Hm|].
      assert (x = th) as -> by congruence. rewrite Hm in Hsp.
      rewrite bool_decide_eq_false_2; [done|]. destruct sig; destruct Hsp as [(? & _)|Hp]; try done.
      + pose proof (run_running th th' Hp Hr) as (-> & _). done.
      + pose proof (run_retired th th' Hp Hr) as (-> & _). done.
    - destruct (decide (workers s !! w = Some tid)) as [Hl|Hl]; [|by rewrite Hst]. exfalso.
      pose proof (inv_subject s HI) as Hsub. unfold subject_ok in Hsub. rewrite Hm in Hsub. destruct Hsub as (_ & _ & Hu).
      assert (tid = t) as <- by (by apply Hu). rewrite (has_status_worker s w tid th) in Ha by done.
      destruct (bool_decide (status_ th = WORKER_PAUSED)) eqn:H1; [|done]. apply bool_decide_eq_true in H1. assert (Hwk : worker s w = Some th) by (unfold worker; by rewrite Hl).
      destruct (worker_known s w th HI Hwk) as (_ & _ & Hp & _). unfold phase in Hp. rewrite Hm, decide_True in Hp by done.
      destruct Hp as [(? & _)|Hp]; [congruence|]. by rewrite (run_paused th Hp) in Hr. }
  rewrite Heq. destruct (awaited s) as [t|] eqn:Hat; [|done]. rewrite Hsame by congruence. done.
Qed.

(** As long as a loop waits, it is for the same thread. *)
Lemma awaited_same s s' t tid : Inv s -> thread_step t s = Some s' -> awaited s = Some tid ->
  awaited s' = None \/ awaited s' = Some tid.
Proof.
  intros HI Hs. unfold thread_step in Hs. destruct (threads s !! t) as [th|] eqn:Ht; [|done]. cbn [mbind option_bind] in Hs.
  destruct (run_thread th) as [th'|]; [|done]. cbn [mbind option_bind] in Hs.
  assert (Hm : master s' = master s) by (destruct (at_ th); by injection Hs as <-).
  assert (Hw : (forall w u, master s <> SpinReady w u) -> workers s' = workers s).
  { intros Hn. destruct (decide (at_ th = Publishing)) as [Ha|Ha]; [|by destruct (at_ th); injection Hs as <-].
    destruct (publishing_ready s t th HI Ht Ha) as [Hr _]. by destruct (Hn _ _ Hr). }
  unfold awaited. rewrite Hm. destruct (master s) as [|w|w|w sig|w sig|w|w u|]; try done.
  - rewrite Hw by done. destruct (has_status s' w _), (has_status s w _); auto; done.
  - rewrite Hw by done. destruct (has_status s' w _), (has_status s w _); auto; done.
  - destruct (has_status s' w _), (has_status s w _); auto; done.
Qed.

(** *** How much the serving thread has still to do *)
Definition call_effort (i : instr) : nat :=
  match i with
  | Pause _ => 3
  | Resume _ | Destroy _ => 4
  | TryDestroy _ _ => 8
  | LaunchIfFree _ | LaunchFirst => 2
  | Begin => 600
  | AnyRunning k => 515 + (kMaxWorkers - k)
  | PauserLoop k => 1 + 8 * (kMaxWorkers - k)
  | Critical => 1
  | End _ => 70
  | CheckPaused k _ => 2 + (kMaxWorkers - k)
  | ResumeListed => 1
  | IfQuiet k _ => 70 + (kMaxWorkers - k)
  end%nat.
Definition micro_effort (m : micro) : nat :=
  match m with
  | Idle | CheckFailed => 0
  | StorePausing _ => 2
  | SpinPausing _ => 1
  | WriteSignal _ _ => 3
  | SpinPaused _ _ => 2
  | Unlink _ | SpinReady _ _ => 1
  end%nat.
Definition calls_effort (l : list instr) : nat := sum_list_with call_effort l.
Definition effort s : nat :=
  (micro_effort (master s) + calls_effort (todo s) + 4 * sum_list_with length (pausers s))%nat.

Lemma sum_resumes (l : list nat) rest : sum_list_with call_effort (map Resume l ++ rest) = (4 * length l + sum_list_with call_effort rest)%nat.
Proof. rewrite sum_list_with_app. f_equal. induction l; [done|]. cbn in *. lia. Qed.

#[local] Ltac count Hm := intros [= <-]; cbn [master todo pausers threads num_workers with_todo with_master with_pausers with_threads launch_worker
  sum_list_with length foldr call_effort micro_effort app]; rewrite ?Hm; cbn [micro_effort]; unfold kMaxWorkers in *; lia.

(** A call that is made leaves less to do. *)
Lemma begin_effort s s' i : master s = Idle -> begin s i = Some s' -> (effort s' < call_effort i + effort s)%nat.
Proof.
  intros Hm. unfold effort, calls_effort, launch_worker. rewrite Hm. destruct i; cbn [begin call_effort].
  - destruct (_ <? _)%nat; [|done]. destruct (is_worker_running s wid); count Hm.
  - destruct (_ <? _)%nat; [|done]. destruct (has_status _ _ _); count Hm.
  - destruct (has_status _ _ _); count Hm.
  - destruct (_ || _); count Hm.
  - destruct (is_worker_active s wid); count Hm.
  - destruct (_ =? 0); count Hm.
  - count Hm.
  - destruct (is_worker_running s wid); [|destruct (Nat.ltb_spec (S wid) kMaxWorkers)]; count Hm.
  - destruct (Nat.ltb_spec wid kMaxWorkers); [|count Hm].
    destruct (is_worker_running _ wid); [|count Hm].
    cbn [pausers with_todo]. destruct (pausers s) as [|l rest] eqn:Hp; [done|]. intros [= <-].
    cbn [master todo pausers with_todo with_master with_pausers sum_list_with call_effort micro_effort].
    rewrite length_app. cbn [length]. unfold kMaxWorkers in *. lia.
  - count Hm.
  - count Hm.
  - destruct (is_worker_running s wid); [count Hm|].
    destruct (Nat.ltb_spec (S wid) kMaxWorkers); [|destruct (_ && _)]; count Hm.
  - cbn [pausers with_todo]. destruct (pausers s) as [|l rest] eqn:Hp; [done|]. intros [= <-].
    cbn [master todo pausers with_pausers with_todo sum_list_with]. rewrite sum_resumes, Hm. lia.
  - destruct (is_worker_running s wid); [|destruct (Nat.ltb_spec (S wid) kMaxWorkers)]; count Hm.
Qed.

Definition busy s : Prop := master s <> Idle \/ todo s <> [].

Lemma begin_defined s i rest : Inv s -> todo s = i :: rest -> is_Some (begin (with_todo s rest) i).
Proof.
  intros HI Ht. pose proof (inv_todo s HI) as Hok. rewrite Ht in Hok. destruct Hok as [Hd _].
  destruct i; cbn [begin]; try by eexists.
  - destruct Hd as [Hw|[]]. cbn [static] in Hw. rewrite (proj2 (Nat.ltb_lt _ _) Hw). by eexists.
  - destruct Hd as [[_ Hw]|[]]. rewrite (proj2 (Nat.ltb_lt _ _) Hw). by eexists.
  - destruct (wid <? kMaxWorkers)%nat; [|by eexists]. destruct (is_worker_running _ _); [|by eexists]. cbn [pausers with_todo].
    destruct (pausers s); [|by eexists]. cbn in Hd. destruct Hd; [done|lia].
  - cbn [pausers with_todo]. destruct (pausers s); [|by eexists]. cbn in Hd. destruct Hd; [lia|done].
Qed.

(** The serving thread can always go on while it is busy: it has less to do then, or it waits. *)
Lemma master_steps s : Inv s -> busy s -> exists s', master_step s = Some s' /\
  ((effort s' < effort s)%nat \/ (s' = s /\ exists tid, awaited s = Some tid)).
Proof.
  intros HI Hb. unfold master_step. destruct (master s) as [|w|w|w sig|w sig|w|w tid|] eqn:Hm.
  - destruct (todo s) as [|i rest] eqn:Ht; [by destruct Hb|]. destruct (begin_defined s i rest HI Ht) as [s' Hs]. exists s'. split; [done|]. left.
    pose proof (begin_effort (with_todo s rest) s' i Hm Hs). unfold effort in *. cbn [master todo pausers with_todo] in *. rewrite Ht.
    unfold calls_effort in *. cbn [sum_list_with]. lia.
  - destruct (subject_worker s w HI) as (tid & th & Hl & Ht & _); [by rewrite Hm|by rewrite Hm|].
    rewrite (update_worker_eq s w _ tid th Hl Ht). eexists. split; [done|]. left. unfold effort, calls_effort. cbn. rewrite Hm. cbn. lia.
  - destruct (subject_worker s w HI) as (tid & th & Hl & Ht & Hwk & _); [by rewrite Hm|by rewrite Hm|]. rewrite Hwk. cbn [mbind option_bind].
    case_bool_decide as Hst; eexists; (split; [done|]).
    + right. split; [done|]. exists tid. unfold awaited. rewrite Hm, (has_status_worker s w tid th) by done. by rewrite bool_decide_eq_true_2.
    + left. unfold effort, calls_effort. cbn. rewrite Hm. cbn. lia.
  - destruct (subject_worker s w HI) as (tid & th & Hl & Ht & _); [by rewrite Hm|by rewrite Hm|].
    rewrite (update_worker_eq s w _ tid th Hl Ht). eexists. split; [done|]. left. unfold effort, calls_effort. cbn. rewrite Hm. cbn. lia.
  - destruct (subject_worker s w HI) as (tid & th & Hl & Ht & Hwk & _); [by rewrite Hm|by rewrite Hm|]. rewrite Hwk. cbn [mbind option_bind].
    case_bool_decide as Hst; eexists; (split; [done|]).
    + right. split; [done|]. exists tid. unfold awaited. rewrite Hm, (has_status_worker s w tid th) by done. by rewrite bool_decide_eq_true_2.
    + left. unfold effort, calls_effort. cbn. rewrite Hm. destruct sig; cbn; lia.
  - eexists. split; [done|]. left. unfold effort, calls_effort. cbn. rewrite Hm. cbn. lia.
  - destruct (has_status s w WORKER_PAUSED) eqn:Hst; eexists; (split; [done|]).
    + left. unfold effort, calls_effort. cbn. rewrite Hm. cbn. lia.
    + right. split; [done|]. exists tid. unfold awaited. by rewrite Hm, Hst.
  - pose proof (inv_subject s HI) as Hsub. unfold subject_ok in Hsub. by rewrite Hm in Hsub.
Qed.

Lemma thread_step_calls s s' tid : thread_step tid s = Some s' -> todo s' = todo s /\ pausers s' = pausers s /\ master s' = master s.
Proof.
  unfold thread_step. destruct (threads s !! tid); [|done]. cbn [mbind option_bind]. destruct (run_thread t) eqn:Hr; [|done].
  cbn [mbind option_bind]. destruct (at_ t); by intros [= <-].
Qed.

(** A wait is over once the thread has made as many steps as it lags, whatever else happens in between. *)
Fixpoint steps_of (tid : nat) (ls : list label) : nat :=
  match ls with
  | [] => 0
  | l :: ls => (if l is Work t then if decide (t = tid) then 1 else 0 else 0) + steps_of tid ls
  end.

Lemma awaited_not_idle s tid : awaited s = Some tid -> master s <> Idle.
Proof. unfold awaited. by destruct (master s). Qed.

Lemma wait_ends tid ls : forall s s', Inv s -> awaited s = Some tid -> run ls s = Some s' -> (waiting s <= steps_of tid ls)%nat ->
  exists ls1 ls2 s1 s2, ls = ls1 ++ ls2 /\ run ls1 s = Some s1 /\ master_step s1 = Some s2 /\ (effort s2 < effort s1)%nat.
Proof.
  induction ls as [|l ls IH]; intros s s' HI Ha Hr Hn.
  { destruct (awaited_steps s tid HI Ha) as (? & _ & ? & _). cbn in Hn. lia. }
  cbn [run] in Hr. destruct (act l s) as [s1|] eqn:Hl; [|done]. cbn [mbind option_bind] in Hr. cbn [steps_of] in Hn.
  pose proof (awaited_not_idle s tid Ha) as Hi.
  destruct (master_steps s HI) as (s0 & Hs0 & Hor); [by left|].
  destruct Hor as [Hlt|[-> _]]; [by exists [], (l :: ls), s, s0|].
  assert (Hgo : forall s1, act l s = Some s1 -> Inv s1 -> run ls s1 = Some s' ->
    (awaited s1 = None /\ busy s1) \/ (awaited s1 = Some tid /\ (waiting s1 <= steps_of tid ls)%nat) ->
    exists ls1 ls2 s1 s2, l :: ls = ls1 ++ ls2 /\ run ls1 s = Some s1 /\ master_step s1 = Some s2 /\ (effort s2 < effort s1)%nat).
  { intros x Hx HIx Hrx [[Hax Hbx]|[Hax Hwx]].
    - destruct (master_steps x HIx Hbx) as (y & Hy & [Hlt|[_ [t Ht]]]); [|congruence].
      exists [l], ls, x, y. cbn [run]. by rewrite Hx.
    - destruct (IH x s' HIx Hax Hrx Hwx) as (l1 & l2 & u & v & -> & Hu & Hv). exists (l :: l1), l2, u, v. cbn [run]. by rewrite Hx. }
  destruct l as [r| |t]; cbn [act] in Hl.
  - destruct (master s); done.
  - apply (Hgo s1); [done| |done|]; assert (s1 = s) as -> by congruence; [done|]. right. split; [done|]. cbn in Hn. lia.
  - apply (Hgo s1); [done|by eapply thread_step_inv|done|].
    destruct (awaited_same s s1 t tid HI Hl Ha) as [Hn1|Hs1].
    + left. split; [done|]. left. destruct (thread_step_calls s s1 t Hl) as (_ & _ & ->). done.
    + right. split; [done|]. destruct (decide (t = tid)) as [->|Hne].
      * destruct (awaited_steps s tid HI Ha) as (y & Hy & Hlt & _). assert (s1 = y) as -> by congruence. lia.
      * destruct (other_steps s s1 t HI Hl) as [-> _]; [congruence|]. lia.
Qed.

(** A step that is not a turn of a waiting loop, nor of a worker that nobody waits for. *)
Definition useful (l : label) s s' : Prop :=
  match l with Serve _ => False | Master => s' <> s | Work tid => awaited s = Some tid end.
Definition serves (l : label) : Prop := match l with Serve _ => True | _ => False end.

(** Runs without a new request, by the number of useful steps. *)
Inductive goes : nat -> state E -> state E -> Prop :=
| goes_refl s : goes 0 s s
| goes_useful n l s s1 s2 : act l s = Some s1 -> useful l s s1 -> goes n s1 s2 -> goes (S n) s s2
| goes_other n l s s1 s2 : act l s = Some s1 -> ~ serves l -> goes n s1 s2 -> goes n s s2.

Definition budget s : nat := (514 * effort s + waiting s)%nat.

Lemma act_budget l s s' : Inv s -> act l s = Some s' -> ~ serves l ->
  (budget s' <= budget s)%nat /\ (useful l s s' -> (budget s' < budget s)%nat).
Proof.
  intros HI Ha Hns. destruct l as [r| |tid]; [by destruct Hns| |]; cbn [act useful] in *.
  - assert (Hb : busy s).
    { unfold busy. unfold master_step in Ha. destruct (master s); try (left; congruence). destruct (todo s); [done|]. right. done. }
    destruct (master_steps s HI Hb) as (s1 & Hs & Hor). rewrite Ha in Hs. injection Hs as <-.
    destruct Hor as [Hlt|[-> _]]; [|split; [lia|done]]. unfold budget. pose proof (waiting_bound s'). split; [lia|intros _; lia].
  - destruct (thread_step_calls s s' tid Ha) as (H1 & H2 & H3).
    assert (Heq : effort s' = effort s) by (unfold effort; by rewrite H1, H2, H3). unfold budget. rewrite Heq.
    destruct (decide (awaited s = Some tid)) as [Hat|Hat].
    + destruct (awaited_steps s tid HI Hat) as (s1 & Hs & Hlt & _). rewrite Ha in Hs. injection Hs as <-. split; [lia|intros _; lia].
    + destruct (other_steps s s' tid HI Ha Hat) as [-> _]. split; [lia|done].
Qed.
End Invariant.

(** ** Properties *)

(** C5: In any interleaving of requests and workers: while the body of a handler under a [WorkerPauser] runs, every worker thread
    is blocked in the read of its event descriptor, with the status paused, or has finished (and may at most be deleting its own
    scheduler); between the calls of a handler each of the workers of the table runs rounds or is blocked so, and
    [num_workers] is their number; two threads that have not finished never have the same number; and no [CHECK] fails and
    no signal is unknown.  Event descriptors are as documented ([EventFdLaws]); requests that name
    a worker above 63 in [PauseWorker] or [ResumeWorker] are excluded (the code does not check them). *)
Theorem workers_stopped {E} `{EventFd E} `{!EventFdLaws E} (s : state E) : reachable s ->
  (forall rest, master s = Idle -> todo s = Critical :: rest -> forall tid th, threads s !! tid = Some th ->
     (status_ th = WORKER_PAUSED /\ (exists r, at_ th = Reading r) /\ run_thread th = None) \/
     (status_ th = WORKER_FINISHED /\ (at_ th = Deleting \/ at_ th = Done))) /\
  (master s = Idle -> num_workers s = Z.of_nat (size (workers s)) /\
     forall w tid, workers s !! w = Some tid -> (w < kMaxWorkers)%nat /\ exists th, threads s !! tid = Some th /\ wid_ th = w /\
       ((status_ th = WORKER_RUNNING /\ exists r, at_ th = AtRound r \/ at_ th = InRound r) \/
        (status_ th = WORKER_PAUSED /\ (exists r, at_ th = Reading r) /\ run_thread th = None))) /\
  (forall t1 t2 th1 th2, threads s !! t1 = Some th1 -> threads s !! t2 = Some th2 -> wid_ th1 = wid_ th2 ->
     status_ th1 <> WORKER_FINISHED -> status_ th2 <> WORKER_FINISHED -> t1 = t2) /\
  master s <> CheckFailed /\ forall tid th, threads s !! tid = Some th -> at_ th <> BadSignal.
Proof.
  intros HI%workers_inv.
  assert (Hblocked : forall th : thread E, paused th -> status_ th = WORKER_PAUSED /\ (exists r, at_ th = Reading r) /\ run_thread th = None).
  { intros th Hp. pose proof (run_paused th Hp). destruct Hp as (Hs & _ & Hr). split; [done|]. split; [|done]. destruct (at_ th); try done. by eexists. }
  assert (Hgone : forall th : thread E, retired th -> status_ th = WORKER_FINISHED /\ (at_ th = Deleting \/ at_ th = Done)).
  { intros th (Hs & Hr). split; [done|]. destruct (at_ th); by auto. }
  split; [|split; [|split; [|split]]].
  - intros rest Hm Ht tid th Hth. destruct (inv_threads s HI tid th Hth) as [[Hl _]|Hu].
    + left. apply Hblocked. assert (Hwk : worker s (wid_ th) = Some th) by (unfold worker; by rewrite Hl).
      apply (quiet_inside s Critical rest HI Ht) with (k := S (wid_ th)) (w := wid_ th); [|done|lia|by rewrite Hm].
      right. pose proof (inv_todo s HI) as Hok. rewrite Ht in Hok. split; [|done]. destruct Hok as [[?|[]] _]. done.
    + right. apply Hgone. apply (idle_retired s tid th HI); [by rewrite Hm|done|done].
  - intros Hm. split.
    + pose proof (inv_count s HI) as Hc. unfold launched in Hc. rewrite Hm in Hc. lia.
    + intros w tid Hl. destruct (inv_workers s HI w tid Hl) as (Hk & th & Ht & Hw). split; [done|]. exists th. do 2 (split; [done|]).
      assert (Hwk : worker s w = Some th) by (unfold worker; by rewrite Hl).
      destruct (idle_settled s w th HI Hm Hwk) as [(Hs & _ & Hr)|Hp]; [left|right; by apply Hblocked]. split; [done|].
      destruct (at_ th); try done; eexists; by auto.
  - assert (Hlive : forall t th, threads s !! t = Some th -> status_ th <> WORKER_FINISHED -> workers s !! wid_ th = Some t \/
      (master s = SpinReady (wid_ th) t /\ workers s !! wid_ th = None)).
    { intros t th Ht Hnf. destruct (inv_threads s HI t th Ht) as [[Hl _]|(_ & [[? _]|(? & ? & _)])]; [by left|done|by right]. }
    intros t1 t2 th1 th2 H1 H2 Hw Hf1 Hf2. pose proof (Hlive t1 th1 H1 Hf1) as L1. pose proof (Hlive t2 th2 H2 Hf2) as L2. rewrite <- Hw in L2.
    destruct L1 as [L1|[L1 N1]], L2 as [L2|[L2 N2]]; congruence.
  - intros Hm. pose proof (inv_subject s HI) as Hsub. unfold subject_ok in Hsub. by rewrite Hm in Hsub.
  - intros tid th Ht Hbad. assert (Hno : forall m, ~ special m th) by (intros [| | |? [|]|? [|]| | |]; cbn [special];
      unfold running, paused, pausing, fresh, signalled, retired; rewrite ?Hbad; cbn; intuition).
    destruct (inv_threads s HI tid th Ht) as [[_ Hp]|(_ & [[_ Hr]|(_ & _ & Hs)])].
    + unfold phase in Hp. case_decide; [by eapply Hno|]. unfold running, paused in Hp. rewrite Hbad in Hp. cbn in Hp. intuition.
    + by rewrite Hbad in Hr.
    + unfold starting in Hs. by rewrite Hbad in Hs.
Qed.


(** *** A run: a worker is launched and resumed, and a handler stops it. *)
Definition counter_fd : EventFd Z :=
  {| eventfd := 0; fd_write e v := e + v; fd_read e := if e =? 0 then None else Some (e, 0) |}.

Lemma counter_fd_laws : EventFdLaws Z (H := counter_fd).
Proof.
  split; [done|]. intros v Hv. cbn [fd_read fd_write eventfd counter_fd]. rewrite Z.add_0_l.
  by rewrite (proj2 (Z.eqb_neq v 0)) by lia.
Qed.

Definition up_labels : list label :=
  Serve (AddWorker 0) :: Master :: replicate 4 (Work 0) ++ [Master; Serve (ResumeWorker 0); Master; Master; Work 0; Work 0; Master].
Definition asked_labels : list label := up_labels ++ Serve (Guarded false) :: replicate 4 Master.
Definition stopped_labels : list label := asked_labels ++ replicate 513 (Work 0) ++ replicate 65 Master.

(** While the handler waits, the worker still runs its round; in the handler's body it is blocked. *)
Definition asked_state : state Z :=
  State {[0%nat := 0%nat]} 1 [Thread 0 WORKER_PAUSING 0 (InRound 0)] (SpinPausing 0) [PauserLoop 1; Critical; End false] [[0%nat]].
Definition stopped_state : state Z :=
  State {[0%nat := 0%nat]} 1 [Thread 0 WORKER_PAUSED 0 (Reading 256)] Idle [Critical; End false] [[0%nat]].

Lemma asked_reachable : reachable (H := counter_fd) asked_state.
Proof.
  exists asked_labels. split; [|by vm_compute]. unfold asked_labels, up_labels. repeat (constructor || (unfold label_ok, request_ok, kMaxWorkers; lia)).
Qed.

Lemma stopped_reachable : reachable (H := counter_fd) stopped_state.
Proof.
  exists stopped_labels. split; [|by vm_compute]. unfold stopped_labels. rewrite !Forall_app. split; [|split; apply Forall_replicate; done].
  unfold asked_labels, up_labels. repeat (constructor || (unfold label_ok, request_ok, kMaxWorkers; lia)).
Qed.

Lemma workers_stopped_witness : reachable (H := counter_fd) stopped_state /\
  forall tid th, threads stopped_state !! tid = Some th -> run_thread (H := counter_fd) th = None.
Proof.
  split; [exact stopped_reachable|].
  destruct (@workers_stopped Z counter_fd counter_fd_laws stopped_state stopped_reachable) as [Hbody _].
  intros tid th Hth. destruct (Hbody [End false] eq_refl eq_refl tid th Hth) as [(_ & _ & Hn)|[Hst _]]; [exact Hn|].
  destruct tid as [|tid]; [|discriminate Hth]. injection Hth as <-. discriminate Hst.
Defined.

